(* ===== verification/_CoqProject ===== *)
-Q . S2P
Prelude.v
Base64.v
Timestamp.v
Text.v
Secure.v
Protocol.v
Envelope.v
VaultObject.v
ServerState.v
ServerTx.v
ServerVault.v
ServerInvitations.v
ServerRoutes.v
ServerSpec.v
ServerLogic.v
ServerRefinement.v
ServerHistory.v
ServerExample.v
ServerLog.v
ServerProperties.v
Client.v
EndToEnd.v
Program.v
Provider.v
RolloutPlan.v
RolloutEngine.v
RolloutValid.v
RolloutProtocol.v
RolloutRefinement.v
RolloutProperties.v
RolloutExample.v
RolloutPlanning.v
Bundle.v
RolloutStore.v
Password.v
Redactor.v
ProtectedFill.v
Duration.v
Lifecycle.v
LifecycleStore.v
Deployment.v
Template.v
Manifest.v
ManifestProperties.v
Filepath.v
Command.v
Broker.v
BrokerSafety.v
Prepare.v
PrepareSafety.v
Origin.v
LocalConfig.v
NativeHost.v
Recovery.v
LocalFiles.v
Restore.v
Http.v
PlanVariables.v
Cloudflare.v
CloudflarePlanning.v
CloudflareVersions.v
CloudflareRelease.v
Railway.v
RailwaySafety.v
ClientAPI.v
Commands.v
CommandsSafety.v
PairingPayload.v
Pairing.v
PairingService.v
Secret.v
Stripe.v
Setup.v
SetupSafety.v
Migration.v
Terminal.v
OwnerInput.v
