(* ===== verification/Prelude.v ===== *)
(** * EnvBank, verified

    EnvBank keeps environment variables and credentials in vaults.  Names and
    values are encrypted on the devices; a sync service stores ciphertext in SQL
    tables and lets only enrolled devices of a vault change it; on top of the vault
    run the roll-out of values to hosting providers, the rotation of credentials,
    and programs that bring single secrets to a command, a page or an agent.  This
    library models the Go packages of that system and proves what makes them
    correct.

    ** Conventions

    - A Go function is a Gallina function of the same name where the name is free
      (methods are prefixed with their type, [Plan_Validate]).  [error] results are
      [result] (below) with the text of the error, a list of guards is a chain of
      [reject_if].  Where one text of several would do, the choice may differ: the
      order in which Go visits a map is not specified, and the model visits it in
      the order of [map_to_list].
    - [string] is a sequence of bytes, for Go's string and []byte alike.  Integers
      are [Z]; wherever an int64 can overflow the wrap-around is written out
      ([wrap64], [next64], [time_sub]).  Times are nanoseconds since 1970 in [Z].
    - State is explicit.  The service is a monad over its tables; the rollout engine
      is a program over calls to its collaborators; the gate of protected fills and
      the lease are transition systems, whose steps are the critical sections of the
      code and whose traces are all interleavings, failures and crashes.
    - Everything executes: the witnesses evaluate the definitions.  Where a loop of the
      code is not structural its rounds are bounded: by the length of the text for the
      components of a duration and for the occurrences of a value in an output, whose
      every round moves forward; by the elements of a path for the search of a directory
      that exists (Setup.v); by the number of derived records for their depth-first search
      ([derivations_are_ordered]); by 82 rounds for the wait for a service that was
      installed, which [setup_stops_waiting] shows to be enough; and for the rejection
      sampling of Password.v by any number of rounds, which [generate_correct] shows to be
      enough unless the source gives that many bytes in a row that are rejected.
    - A part that talks to collaborators (files, networks, the owner, the service, a
      clock) is a program over their calls (Program.v): whatever a call is answered, the
      theorems hold, so that every failure, change behind the back of the program and
      interleaving is covered.  A type of calls is the module [Call] of its file.
    - What the code imports from elsewhere is a class with the laws used, next to
      its first user: [Crypto], [Cipher] and [CipherLaws] (crypto/...: GCM is
      deterministic, so it opens exactly what it sealed; X25519 agrees; digests have
      their length), the JSON codecs ([Wire], [ClientWire], [Payload],
      [ObjectCodec], ...), the random sources and clocks.  Each property with such
      a hypothesis has a witness at a concrete instance ([Toy] in Envelope.v,
      ServerExample.v, RolloutExample.v, [Demo] in EndToEnd.v).

    ** Texts and keys

    - Prelude.v: results, bytes, guards, byte order and lists; the rewrite database
      [checks] and the tactic [passed] that opens a validator that succeeded.
    - Text.v: the strings and strconv packages as far as used; UTF-8 runes; the
      64-bit wrap-around.  Timestamp.v: RFC 3339 over the proleptic Gregorian
      calendar, parsed and formatted, with round trip and order.  Duration.v:
      time.ParseDuration with its binary64 fractions.
    - Base64.v, Secure.v, Envelope.v: internal/secure/secure.go.  Sealing, device
      keys, wrapping of the vault key.

    ** The service (internal/server, internal/protocol)

    - Protocol.v: messages and the checks of the signed headers.
    - ServerState.v: the tables and the SQL statements; ServerTx.v: requests, replies,
      the transaction of a request, authentication and the access log;
      ServerVault.v, ServerInvitations.v, ServerRoutes.v: the handlers of server.go,
      invitations.go and events.go; ServerRoutes.v: [ServeHTTP].  The environment
      [Env] decides by an effect counter when a statement fails, when rows end
      early, what the clock reads and what the random source gives.
    - ServerSpec.v is the abstract specification: what one transaction may do to the
      tables of a vault, as a step relation with the standing of the request, and what a
      reply of success promises.  ServerLogic.v is a
      weakest-precondition calculus, ServerRefinement.v proves one lemma per handler
      and that every request refines the specification ([serve_refines],
      [success_keeps_contract]).
    - ServerHistory.v: induction over steps, transactions and
      requests.  ServerProperties.v and ServerLog.v: no replay, only active devices
      change shared state, histories of devices, invitations and records, retention
      and paging of the log; a timestamp far in the future escapes the replay window.

    - Migration.v: the opening of the database file, its migration through the versions of
      the schema and the import of the JSON state of the first version, over a directory in
      which any call fails and any moment may be the last ([legacy_state_is_kept],
      [schema_migration_keeps]).

    ** Programs

    - Program.v: programs over calls, their histories and runs, a weakest-precondition
      calculus for any answers ([wp]) and one for collaborators with a state ([swp]).
      Filepath.v: path/filepath over Unix paths.  Http.v: requests, replies and the
      provider errors of a program over them.

    ** Clients, objects and devices (internal/client, internal/vaultobject, cmd/envbank)

    - VaultObject.v: typed objects, their encryption and listing; the vault as an
      interface for the stores above it ([VaultAPI]).  Client.v: signed requests over
      a [Network], objects, records, enrollment; ClientAPI.v: the remaining routes.
      EndToEnd.v composes the client with the service: what is put is got, an honest
      request is let in, the vault key arrives.
    - LocalConfig.v: the configuration of a device with its encrypted secrets, both
      versions.  LocalFiles.v: how artifacts and configurations get to files that fail in
      any way and lose what was not synced.  Recovery.v: recovery artifacts; Restore.v:
      the restoration of a vault, which can be resumed.
    - Commands.v, CommandsSafety.v: the commands of main.go on a vault, its records and its
      devices; a command does what its user asked for, and no more.
    - Setup.v, SetupSafety.v: internal/setup and setup_apply.go; what is made is part of a
      plan that the owner confirmed, at places that were checked again.
    - PairingPayload.v, Pairing.v: internal/pairingmvp, the payload of a new device and the
      laboratory with its controller; PairingService.v composes it with the service.

    ** Manifests and bundles (internal/contract, internal/bundle)

    - Template.v: templates and the order of derivations.  Manifest.v,
      ManifestProperties.v: validation and inspection of manifests; what a valid one
      guarantees.  Bundle.v: snapshots and record names.  Prepare.v, PrepareSafety.v: the
      preparation of a bundle with its journal, against other writers and stops.
      PlanVariables.v: the inputs and variables that the planners share.

    ** Roll-out (internal/rollout, internal/provider)

    - Provider.v: the provider contract and its sanitized errors.  RolloutPlan.v:
      plan.go and state.go.  RolloutEngine.v: the calls to adapter, store, clock, random
      source and user, and [Plan], [Apply], [Resume] of engine.go.
    - RolloutProtocol.v is the abstract specification: which call is permitted after
      what was told, for planning as for the rest, and how a journaled operation may change.  RolloutValid.v,
      RolloutRefinement.v: the engine keeps it.  RolloutProperties.v: every written
      or staged value is authorized, final once journaled, the journal stays valid, success is verified.
      RolloutPlanning.v: valid plans and their making.  RolloutStore.v: store.go over
      [VaultAPI], and the engine over it.
    - Railway.v: the adapter over HTTP and the planner; RailwaySafety.v composes it with the
      engine.  Cloudflare.v, CloudflarePlanning.v, CloudflareVersions.v: the adapter, the
      planner, and staged versions over a service that behaves as documented.
      CloudflareRelease.v: verify, promote and rollback.  Secret.v, Stripe.v: sources and
      sinks of secret bytes, and the adapter of webhooks.

    ** Secrets in use

    - Password.v: internal/password, with termination of rejection sampling.
      Redactor.v: agentbroker/redact.go, exact redaction.  ProtectedFill.v:
      pkg/protectedfill, the gate between fills and observations under all interleavings
      and crashes.
    - Command.v: the resolution of commands over a file system and what an approval binds.
      Broker.v, BrokerSafety.v: the agent broker, each request a program, and their
      interleavings.  Terminal.v: what the owner is shown, line by line, and types unseen;
      OwnerInput.v: entry through a paired desktop provider, and what the values of a
      session rest on.
    - Origin.v: the normal form of browser origins.  NativeHost.v: the framing and the
      actions of the native messaging host.

    ** Rotation (internal/lifecycle)

    - Lifecycle.v: states, policies, authorization, revocation, evidence chains.
      LifecycleStore.v: store.go as programs, whose interleavings refine a lease as a
      distributed mutex: it excludes while no lease is released, and not with releases.  Deployment.v: deployment.go.

    ** Not modelled

    - The clearing of secret bytes, and the redacted formatting of requests: they
      leave no trace in the values that the model has.
    - The operating system below the calls: processes, launch agents, sockets, HTTP
      transport, SQL engine and the check of a signature, beyond the failures that the
      programs above let happen at every call; the redirect policy and the Cloudflare
      Access headers of the client; the key chain, and the credentials of providers that
      are loaded from it.
    - Parsers of the standard library and of third parties (JSON, YAML, URLs, IP
      addresses, package flag) and the tables of Unicode: interfaces.
    - The rest of the command line, which parses flags, calls one of the packages above
      and prints; the MCP server and the helper for Clerk; tests, emulators and their
      drivers; the worker, the web site and the extension, in other languages. *)
From Stdlib Require Export ZArith Lia Ascii String.
From stdpp Require Export base tactics strings list list_numbers gmap fin_maps sorting pretty.
From stdpp Require Import options.

#[global] Open Scope string_scope.
#[global] Open Scope list_scope.
#[global] Open Scope Z_scope.
#[global] Set Default Goal Selector "1".

(** ** Go results *)

(** The result of a Go function with an [error] result: the value, or the text
    of the error. *)
Inductive result (A : Type) : Type :=
| Ok (a : A)
| Err (msg : string).
Arguments Ok {_} _.
Arguments Err {_} _.

#[export] Instance result_ret : MRet result := λ A a, Ok a.
#[export] Instance result_bind : MBind result := λ A B f m,
  match m with Ok a => f a | Err e => Err e end.

#[export] Instance result_eq_dec `{EqDecision A} : EqDecision (result A).
Proof. solve_decision. Defined.

(** [if c { return errors.New(msg) }] *)
Definition reject_if (c : bool) (msg : string) : result unit :=
  if c then Err msg else Ok tt.

Definition is_ok {A} (r : result A) : bool :=
  match r with Ok _ => true | Err _ => false end.

Lemma bind_Ok {A B} (m : result A) (f : A → result B) b :
  m ≫= f = Ok b ↔ ∃ a, m = Ok a ∧ f a = Ok b.
Proof. destruct m; simpl; naive_solver. Qed.

Lemma reject_if_Ok c msg u : reject_if c msg = Ok u ↔ c = false.
Proof. destruct c, u; simpl; naive_solver. Qed.

Lemma reject_if_bind {B} c msg (f : result B) b :
  (_ ← reject_if c msg; f) = Ok b ↔ c = false ∧ f = Ok b.
Proof. destruct c; simpl; naive_solver. Qed.

Lemma is_ok_true {A} (r : result A) : is_ok r = true ↔ ∃ a, r = Ok a.
Proof. destruct r; simpl; naive_solver. Qed.

(** [encoding/json] of the payloads: encoding, and strict decoding. *)
Class Payload (T : Type) := { to_payload : T → string; decodeStrict : string → option T }.

(** ** Bytes *)

(** A Go [string] and a [[]byte] are both byte sequences: [string] here.  [code]
    and [chr] convert between a byte and its value in [0, 256). *)
Definition code (c : ascii) : Z := Z.of_N (N_of_ascii c).
Definition chr (z : Z) : ascii := ascii_of_N (Z.to_N z).

Lemma code_bound c : 0 ≤ code c < 256.
Proof. unfold code. pose proof (N_ascii_bounded c). lia. Qed.

Lemma chr_code c : chr (code c) = c.
Proof. unfold chr, code. rewrite N2Z.id. apply ascii_N_embedding. Qed.

Lemma code_chr z : 0 ≤ z < 256 → code (chr z) = z.
Proof. intros. unfold code, chr. rewrite N_ascii_embedding; lia. Qed.

Lemma code_inj c d : code c = code d → c = d.
Proof. intros E. rewrite <-(chr_code c), <-(chr_code d). by f_equal. Qed.

(** [len(s)] *)
Definition slen (s : string) : Z := Z.of_nat (String.length s).

Definition nonempty (s : string) : bool := negb (String.eqb s "").

Lemma nonempty_true s : nonempty s = true ↔ s ≠ "".
Proof. unfold nonempty. destruct (String.eqb_spec s ""); naive_solver. Qed.

Lemma nonempty_false s : nonempty s = false ↔ s = "".
Proof. unfold nonempty. destruct (String.eqb_spec s ""); naive_solver. Qed.

(** *** Guards

    [checks] turns the equations that a chain of guards leaves, [reject_if] and
    boolean connectives, into the propositions they decide; [passed H] opens the
    hypothesis that a validator returned no error into one hypothesis per
    guard. *)
Create Rewrite HintDb checks.
#[export] Hint Rewrite @reject_if_bind reject_if_Ok orb_false_iff andb_true_iff negb_true_iff negb_false_iff
  nonempty_true nonempty_false Z.ltb_lt Z.ltb_ge Z.leb_le Z.leb_gt Z.eqb_eq Z.eqb_neq String.eqb_eq String.eqb_neq
  bool_decide_eq_true bool_decide_eq_false : checks.

Ltac conjuncts H :=
  match type of H with
  | _ ∧ _ => let H1 := fresh H in destruct H as [H1 H]; try conjuncts H1; conjuncts H
  | _ => idtac
  end.
Ltac passed H := autorewrite with checks in H; conjuncts H.

(** Every byte of the string satisfies [p] ([for i := range s] tests). *)
Fixpoint all_bytes (p : ascii → bool) (s : string) : bool :=
  match s with
  | EmptyString => true
  | String c s => p c && all_bytes p s
  end.

Definition byte_in (lo hi : ascii) (c : ascii) : bool := (code lo <=? code c) && (code c <=? code hi).
Definition is_digit (c : ascii) : bool := byte_in "0" "9" c.
Definition is_lower (c : ascii) : bool := byte_in "a" "z" c.
Definition is_upper (c : ascii) : bool := byte_in "A" "Z" c.

Lemma slen_nonneg s : 0 ≤ slen s.
Proof. unfold slen. lia. Qed.

Lemma string_app_cons c (s t : string) : String c s +:+ t = String c (s +:+ t).
Proof. reflexivity. Qed.

Lemma string_app_nil_l (s : string) : "" +:+ s = s.
Proof. reflexivity. Qed.

Lemma string_app_nil_r (s : string) : s +:+ "" = s.
Proof. induction s as [|c s IH]; [done|]. by rewrite string_app_cons, IH. Qed.

Lemma string_app_assoc (a b c : string) : (a +:+ b) +:+ c = a +:+ (b +:+ c).
Proof. induction a as [|x a IH]; [done|]. by rewrite !string_app_cons, IH. Qed.

Lemma string_length_app (a b : string) :
  String.length (a +:+ b) = (String.length a + String.length b)%nat.
Proof. induction a as [|x a IH]; [done|]. rewrite string_app_cons. cbn. by rewrite IH. Qed.

Lemma slen_app (a b : string) : slen (a +:+ b) = slen a + slen b.
Proof. unfold slen. rewrite string_length_app. lia. Qed.

Lemma substring_length n s : (n ≤ String.length s)%nat → String.length (substring 0 n s) = n.
Proof.
  revert s. induction n as [|n IH]; intros [|c s] Hs; cbn in *; try done; try lia. by rewrite IH by lia.
Qed.

Lemma all_bytes_app p a b : all_bytes p (a +:+ b) = all_bytes p a && all_bytes p b.
Proof. induction a as [|x a IH]; [done|]. rewrite string_app_cons. cbn. rewrite IH. apply andb_assoc. Qed.

Lemma all_bytes_mono (p q : ascii → bool) s : (∀ c, p c = true → q c = true) → all_bytes p s = true → all_bytes q s = true.
Proof. intros Hpq. induction s as [|c s IH]; [done|]. cbn. rewrite !andb_true_iff. intros [? ?]. auto. Qed.

Lemma all_bytes_elem p s : all_bytes p s = true ↔ ∀ c, c ∈ list_ascii_of_string s → p c = true.
Proof.
  induction s as [|d s IH]; cbn; [split; [by intros _ c ?%elem_of_nil|done]|]. rewrite andb_true_iff, IH. split.
  - intros [Hd Hs] c [->|Hc]%elem_of_cons; [done|by apply Hs].
  - intros Hs. split; [apply Hs; by left|]. intros c Hc. apply Hs. by right.
Qed.

(** A boolean test on every byte decides the same statement for all bytes. *)
Definition all_ascii : list ascii := map (λ n, ascii_of_nat n) (List.seq 0 256).

Lemma all_ascii_spec (c : ascii) : c ∈ all_ascii.
Proof.
  unfold all_ascii. rewrite list_elem_of_In. apply in_map_iff.
  exists (nat_of_ascii c). split; [apply ascii_nat_embedding|].
  apply in_seq. pose proof (nat_ascii_bounded c). lia.
Qed.

Lemma forall_ascii (p : ascii → bool) : forallb p all_ascii = true → ∀ c, p c = true.
Proof.
  intros H c. rewrite forallb_forall in H. apply H.
  apply list_elem_of_In, all_ascii_spec.
Qed.

(** A boolean test on [0 .. n-1] decides the same statement for all of them;
    [n] is binary, so that the virtual machine can run through a large range. *)
Definition forall_below (p : Z → bool) (n : N) : bool :=
  (N.iter n (λ '(z, b), (z + 1, b && p z)) (0, true)).2.

Lemma forall_below_spec p n : forall_below p n = true → ∀ z, 0 ≤ z < Z.of_N n → p z = true.
Proof.
  unfold forall_below. set (f := λ '(z, b), (z + 1, b && p z)).
  enough (H : (N.iter n f (0, true)).1 = Z.of_N n ∧
    ((N.iter n f (0, true)).2 = true → ∀ z, 0 ≤ z < Z.of_N n → p z = true)) by apply H.
  induction n as [|n [IH1 IH2]] using N.peano_ind; [split; [done|lia]|].
  rewrite N.iter_succ. destruct (N.iter n f (0, true)) as [k b]. simpl in *. subst k.
  split; [lia|]. intros [Hb Hp]%andb_true_iff z Hz.
  destruct (decide (z = Z.of_N n)) as [->|]; [done|]. apply IH2; [done|lia].
Qed.

Lemma forall_below_dec (P : Z → Prop) `{!∀ z, Decision (P z)} n :
  forall_below (λ z, bool_decide (P z)) n = true → ∀ z, 0 ≤ z < Z.of_N n → P z.
Proof.
  intros Hall z Hz. pose proof (forall_below_spec _ _ Hall z Hz) as Hb.
  by apply bool_decide_eq_true in Hb.
Qed.

(** ** Byte order *)

(** Comparison of strings byte by byte: Go's [<] on strings and SQLite's
    BINARY collation. *)
Definition str_lt (a b : string) : bool :=
  match String.compare a b with Lt => true | _ => false end.

Lemma string_compare_app (a b c d : string) :
  String.length a = String.length b →
  String.compare (a +:+ c) (b +:+ d) =
    match String.compare a b with Eq => String.compare c d | Lt => Lt | Gt => Gt end.
Proof.
  revert b. induction a as [|x a IH]; intros [|y b] Hl; try done.
  rewrite !string_app_cons. cbn. rewrite IH by (cbn in Hl; lia).
  by destruct (Ascii.compare x y).
Qed.

Lemma string_compare_refl a : String.compare a a = Eq.
Proof.
  induction a as [|x a IH]; [done|]. cbn. unfold Ascii.compare. by rewrite N.compare_refl.
Qed.

Lemma str_lt_irrefl a : str_lt a a = false.
Proof. unfold str_lt. by rewrite string_compare_refl. Qed.

Lemma str_lt_trans a b c : str_lt a b = true → str_lt b c = true → str_lt a c = true.
Proof.
  unfold str_lt. revert b c. induction a as [|x a IH]; intros [|y b] [|z c]; cbn; try done.
  unfold Ascii.compare. intros Hab Hbc. specialize (IH b c).
  destruct (N.compare_spec (N_of_ascii x) (N_of_ascii y)) as [E1|E1|E1]; [| |done];
    destruct (N.compare_spec (N_of_ascii y) (N_of_ascii z)) as [E2|E2|E2]; try done;
    destruct (N.compare_spec (N_of_ascii x) (N_of_ascii z)) as [E3|E3|E3]; try done; try lia.
  by apply IH.
Qed.

Lemma str_lt_total a b : str_lt a b = false → str_lt b a = false → a = b.
Proof.
  unfold str_lt. rewrite (String.compare_antisym b a). destruct (String.compare a b) eqn:E; try done.
  by apply String.compare_eq_iff in E.
Qed.

Definition str_le (a b : string) : bool := negb (str_lt b a).

(** ORDER BY two text columns. *)
Definition order_by {A} (col1 col2 : A → string) (x y : A) : Prop :=
  (if String.eqb (col1 x) (col1 y) then str_le (col2 x) (col2 y) else str_lt (col1 x) (col1 y)) = true.
#[export] Instance order_by_dec {A} (col1 col2 : A → string) : RelDecision (order_by col1 col2).
Proof. intros x y. unfold order_by. apply _. Defined.

Lemma str_le_total a b : str_le a b = true ∨ str_le b a = true.
Proof.
  unfold str_le. destruct (str_lt b a) eqn:E; [right|by left]. destruct (str_lt a b) eqn:E'; [|done].
  pose proof (str_lt_trans _ _ _ E E') as C. by rewrite str_lt_irrefl in C.
Qed.

Lemma str_le_trans a b c : str_le a b = true → str_le b c = true → str_le a c = true.
Proof.
  unfold str_le. rewrite !negb_true_iff. intros Hab Hbc. destruct (str_lt c a) eqn:E; [|done].
  destruct (str_lt a b) eqn:E'; [by rewrite (str_lt_trans c a b) in Hbc|].
  rewrite (str_lt_total a b) in E by done. congruence.
Qed.

#[export] Instance order_by_total {A} (col1 col2 : A → string) : Total (order_by col1 col2).
Proof.
  intros x y. unfold order_by. rewrite (String.eqb_sym (col1 y)). destruct (String.eqb_spec (col1 x) (col1 y)) as [E|E].
  - apply str_le_total.
  - destruct (str_lt (col1 x) (col1 y)) eqn:E1; [by left|]. destruct (str_lt (col1 y) (col1 x)) eqn:E2; [by right|].
    by destruct E; apply str_lt_total.
Qed.

Lemma order_by_both {A} (col1 col2 : A → string) x y :
  order_by col1 col2 x y → order_by col1 col2 y x → (col1 x, col2 x) = (col1 y, col2 y).
Proof.
  unfold order_by, str_le. rewrite (String.eqb_sym (col1 y)). destruct (String.eqb_spec (col1 x) (col1 y)) as [->|E].
  - intros Hx%negb_true_iff Hy%negb_true_iff. f_equal. by apply str_lt_total.
  - intros Hx Hy. pose proof (str_lt_trans _ _ _ Hx Hy) as C. by rewrite str_lt_irrefl in C.
Qed.

#[export] Instance order_by_trans {A} (col1 col2 : A → string) : Transitive (order_by col1 col2).
Proof.
  intros x y z. unfold order_by. destruct (String.eqb_spec (col1 x) (col1 y)) as [Exy|Exy],
    (String.eqb_spec (col1 y) (col1 z)) as [Eyz|Eyz].
  - rewrite Exy, Eyz, String.eqb_refl. apply str_le_trans.
  - rewrite Exy. by destruct (String.eqb_spec (col1 y) (col1 z)).
  - rewrite <-Eyz. by destruct (String.eqb_spec (col1 x) (col1 y)).
  - intros Hxy Hyz. pose proof (str_lt_trans _ _ _ Hxy Hyz) as Hxz.
    destruct (String.eqb_spec (col1 x) (col1 z)) as [E|_]; [|done]. rewrite E in Hxy.
    pose proof (str_lt_trans _ _ _ Hxy Hyz) as C. by rewrite str_lt_irrefl in C.
Qed.

(** ** Lists *)

Lemma NoDup_fmap_inj_on {A B} (f : A → B) (l : list A) x y : NoDup (f <$> l) → x ∈ l → y ∈ l → f x = f y → x = y.
Proof.
  induction l as [|z l IH]; [by intros ? ?%elem_of_nil|]. rewrite fmap_cons, NoDup_cons.
  intros [Hz Hnd] [->|Hx]%elem_of_cons [->|Hy]%elem_of_cons E; [done| | |by apply IH].
  - destruct Hz. rewrite E. by apply list_elem_of_fmap_2.
  - destruct Hz. rewrite <-E. by apply list_elem_of_fmap_2.
Qed.

Lemma list_filter_all {A} (P : A → Prop) `{!∀ x, Decision (P x)} (l : list A) : (∀ x, x ∈ l → P x) → filter P l = l.
Proof.
  induction l as [|x l IH]; intros Hall; [done|].
  rewrite filter_cons_True by (apply Hall; by left). f_equal. apply IH. intros y Hy. apply Hall. by right.
Qed.
