(* ===== verification/Base64.v ===== *)
(** base64.RawURLEncoding, the encoding of every identifier, nonce, key,
    cursor and ciphertext of the service: [encode], [decode] and
    [decodeCanonical] of internal/secure/secure.go. *)
From S2P Require Import Prelude.
From stdpp Require Import options.

(** ** The alphabet *)

Definition alphabet : string :=
  "ABCDEFGHIJKLMNOPQRSTUVWXYZabcdefghijklmnopqrstuvwxyz0123456789-_".

Definition digit_char (v : Z) : ascii := default "A"%char (String.get (Z.to_nat v) alphabet).

Definition char_digit (c : ascii) : option Z :=
  if is_upper c then Some (code c - 65)
  else if is_lower c then Some (code c - 71)
  else if is_digit c then Some (code c + 4)
  else if Ascii.eqb c "-" then Some 62
  else if Ascii.eqb c "_" then Some 63
  else None.

(** ** encode *)

(** One character for each six bits of the byte string, most significant
    first, and no padding. *)
Fixpoint encode (value : string) : string :=
  match value with
  | String a (String b (String c rest)) =>
      let v := code a * 65536 + code b * 256 + code c in
      String (digit_char (v / 262144)) (String (digit_char (v / 4096 mod 64))
        (String (digit_char (v / 64 mod 64)) (String (digit_char (v mod 64)) (encode rest))))
  | String a (String b EmptyString) =>
      let v := code a * 256 + code b in
      String (digit_char (v / 1024)) (String (digit_char (v / 16 mod 64))
        (String (digit_char (v mod 16 * 4)) EmptyString))
  | String a EmptyString =>
      String (digit_char (code a / 4)) (String (digit_char (code a mod 4 * 16)) EmptyString)
  | EmptyString => EmptyString
  end.

(** ** decode *)

(** The decoder skips carriage returns and line feeds, refuses any other
    character outside the alphabet, and ignores the spare low bits of an
    incomplete final group. *)
Fixpoint digits (value : string) : option (list Z) :=
  match value with
  | EmptyString => Some []
  | String c rest =>
      if Ascii.eqb c "010" || Ascii.eqb c "013" then digits rest
      else d ← char_digit c; ds ← digits rest; Some (d :: ds)
  end.

Fixpoint undigits (ds : list Z) : option string :=
  match ds with
  | d0 :: d1 :: d2 :: d3 :: rest =>
      let v := d0 * 262144 + d1 * 4096 + d2 * 64 + d3 in
      tail ← undigits rest;
      Some (String (chr (v / 65536)) (String (chr (v / 256 mod 256)) (String (chr (v mod 256)) tail)))
  | [d0; d1; d2] =>
      let v := d0 * 1024 + d1 * 16 + d2 / 4 in
      Some (String (chr (v / 256)) (String (chr (v mod 256)) EmptyString))
  | [d0; d1] => Some (String (chr (d0 * 4 + d1 / 16)) EmptyString)
  | [_] => None
  | [] => Some EmptyString
  end.

Definition decode (value : string) : option string := ds ← digits value; undigits ds.

(** The decoded bytes of a string of [size] bytes that is its own canonical
    encoding: the length and re-encoding tests that the code repeats. *)
Definition decodeCanonical (value : string) (size : Z) : option string :=
  match decode value with
  | Some decoded =>
      if negb (slen decoded =? size) || negb (String.eqb value (encode decoded)) then None
      else Some decoded
  | None => None
  end.

(** ** The alphabet is a bijection *)

Lemma char_digit_char v : 0 ≤ v < 64 → char_digit (digit_char v) = Some v.
Proof.
  apply (forall_below_dec (λ v, char_digit (digit_char v) = Some v) 64).
  vm_compute. reflexivity.
Qed.

Lemma digit_char_text v :
  0 ≤ v < 64 → (Ascii.eqb (digit_char v) "010" || Ascii.eqb (digit_char v) "013") = false.
Proof.
  apply (forall_below_dec (λ v, (Ascii.eqb (digit_char v) "010" ||
    Ascii.eqb (digit_char v) "013") = false) 64).
  vm_compute. reflexivity.
Qed.

Lemma digits_char v s :
  0 ≤ v < 64 → digits (String (digit_char v) s) = (ds ← digits s; Some (v :: ds)).
Proof. intros Hv. cbn [digits]. by rewrite digit_char_text, char_digit_char by done. Qed.

(** ** Round trips *)

(** Induction over a byte string by the encoder's groups of three. *)
Lemma string_ind3 (P : string → Prop) :
  P EmptyString →
  (∀ a, P (String a EmptyString)) →
  (∀ a b, P (String a (String b EmptyString))) →
  (∀ a b c s, P s → P (String a (String b (String c s)))) →
  ∀ s, P s.
Proof.
  intros H0 H1 H2 H3 s.
  assert (H : P s ∧ (∀ a, P (String a s)) ∧ (∀ a b, P (String a (String b s)))).
  { induction s as [|c s [IH1 [IH2 IH3]]]; auto. }
  apply H.
Qed.

Ltac code_bounds :=
  repeat match goal with
  | a : ascii |- _ => lazymatch goal with
      | _ : 0 ≤ code a < 256 |- _ => fail
      | _ => pose proof (code_bound a)
      end
  end.

Ltac byte_arith := code_bounds; apply code_inj; rewrite ?code_chr; Z.to_euclidean_division_equations; lia.

(** Decoding an encoded byte string gives it back. *)
Lemma decode_encode s : decode (encode s) = Some s.
Proof.
  unfold decode. induction s as [|a|a b|a b c s IH] using string_ind3; [done|..].
  all: cbn [encode]; code_bounds.
  all: rewrite !digits_char by (Z.to_euclidean_division_equations; lia).
  - cbn. do 2 f_equal. byte_arith.
  - cbn. f_equal. f_equal; [byte_arith|]. f_equal. byte_arith.
  - destruct (digits (encode s)) as [ds|]; [|done].
    cbn in IH |- *. rewrite IH. cbn. f_equal.
    f_equal; [byte_arith|]. f_equal; [byte_arith|]. f_equal. byte_arith.
Qed.

Lemma encode_inj s t : encode s = encode t → s = t.
Proof. intros E. apply (f_equal decode) in E. rewrite !decode_encode in E. congruence. Qed.

Lemma decodeCanonical_encode s : decodeCanonical (encode s) (slen s) = Some s.
Proof. unfold decodeCanonical. by rewrite decode_encode, Z.eqb_refl, String.eqb_refl. Qed.

(** The canonical strings of [size] bytes are exactly the encodings of the byte
    strings of that length: two different canonical strings never denote the
    same bytes. *)
Lemma decodeCanonical_Some value size b :
  decodeCanonical value size = Some b ↔ value = encode b ∧ slen b = size.
Proof.
  unfold decodeCanonical. split.
  - destruct (decode value) as [d|] eqn:E; [|done].
    destruct (slen d =? size) eqn:E1, (String.eqb value (encode d)) eqn:E2; try done.
    intros [= ->]. by apply Z.eqb_eq in E1; apply String.eqb_eq in E2.
  - intros [-> <-]. by apply decodeCanonical_encode.
Qed.
