(* ===== verification/Timestamp.v ===== *)
(** time.Time and the RFC 3339 texts of the standard library's time package,
    as far as the code uses them: [Format(time.RFC3339)], [Parse(time.RFC3339, _)]
    and the canonical-timestamp test that most records of the system repeat.

    A time is its number of nanoseconds since the Unix epoch.  [Format] is
    modelled for the years 0 to 9999, the years [Parse] reads. *)
From S2P Require Import Prelude.
From stdpp Require Import options.

Definition second : Z := 1000000000.
Definition minute : Z := 60 * second.
Definition hour : Z := 60 * minute.

(** [t.Truncate(time.Second)] and the Unix second of a time. *)
Definition unix (t : Z) : Z := t / second.
Definition truncate_second (t : Z) : Z := unix t * second.

(** ** The proleptic Gregorian calendar *)

Definition date_key (y m d : Z) : Z := y * 10000 + m * 100 + d.

(** Year, month and day of a number of days since 1970-01-01. *)
Definition civil_from_days (days : Z) : Z * Z * Z :=
  let z := days + 719468 in
  let era := z / 146097 in
  let doe := z mod 146097 in
  let yoe := (doe - doe / 1460 + doe / 36524 - doe / 146096) / 365 in
  let doy := doe - (365 * yoe + yoe / 4 - yoe / 100) in
  let mp := (5 * doy + 2) / 153 in
  let d := doy - (153 * mp + 2) / 5 + 1 in
  let m := if mp <? 10 then mp + 3 else mp - 9 in
  (yoe + era * 400 + (if m <=? 2 then 1 else 0), m, d).

Definition days_from_civil (y m d : Z) : Z :=
  let y := if m <=? 2 then y - 1 else y in
  let era := y / 400 in
  let yoe := y mod 400 in
  let mp := (m + 9) mod 12 in
  let doy := (153 * mp + 2) / 5 + d - 1 in
  era * 146097 + (yoe * 365 + yoe / 4 - yoe / 100 + doy) - 719468.

Definition leap (y : Z) : bool :=
  (y mod 4 =? 0) && (negb (y mod 100 =? 0) || (y mod 400 =? 0)).

Definition days_in (m y : Z) : Z :=
  if (m =? 2) then (if leap y then 29 else 28)
  else if (m =? 4) || (m =? 6) || (m =? 9) || (m =? 11) then 30 else 31.

(** ** Format *)

Definition dec_char (v : Z) : ascii := chr (48 + v).

(** [appendInt(_, x, width)] for [0 <= x < 10^width]. *)
Fixpoint pad (width : nat) (x : Z) : string :=
  match width with
  | O => ""
  | S w => pad w (x / 10) +:+ String (dec_char (x mod 10)) ""
  end.

Definition format_date (days : Z) : string :=
  let '(y, m, d) := civil_from_days days in
  pad 4 y +:+ "-" +:+ pad 2 m +:+ "-" +:+ pad 2 d.

Definition format_clock (sod : Z) : string :=
  pad 2 (sod / 3600) +:+ ":" +:+ pad 2 (sod / 60 mod 60) +:+ ":" +:+ pad 2 (sod mod 60).

(** [time.Unix(sec, 0).UTC().Format(time.RFC3339)] *)
Definition format_unix (sec : Z) : string :=
  format_date (sec / 86400) +:+ "T" +:+ format_clock (sec mod 86400) +:+ "Z".

(** [t.UTC().Format(time.RFC3339)] *)
Definition format_rfc3339 (t : Z) : string := format_unix (unix t).

Fixpoint trim_zeros (s : string) : string :=
  match s with
  | EmptyString => ""
  | String c rest =>
      match trim_zeros rest with
      | EmptyString => if Ascii.eqb c "0" then "" else String c ""
      | String _ _ as kept => String c kept
      end
  end.

(** [t.UTC().Format(time.RFC3339Nano)]: the fraction without trailing zeros. *)
Definition format_rfc3339nano (t : Z) : string :=
  let sec := unix t in
  let frac := if t mod second =? 0 then "" else "." +:+ trim_zeros (pad 9 (t mod second)) in
  format_date (sec / 86400) +:+ "T" +:+ format_clock (sec mod 86400) +:+ frac +:+ "Z".

(** ** Parse *)

Definition dec_val (c : ascii) : option Z := if is_digit c then Some (code c - 48) else None.

(** [getnum(s, true)]: two digits. *)
Definition getnum_fixed (s : string) : option (Z * string) :=
  match s with
  | String a (String b rest) => x ← dec_val a; y ← dec_val b; Some (x * 10 + y, rest)
  | _ => None
  end.

(** [getnum(s, false)]: one or two digits. *)
Definition getnum_lax (s : string) : option (Z * string) :=
  match s with
  | String a rest =>
      x ← dec_val a;
      match rest with
      | String b rest' =>
          match dec_val b with
          | Some y => Some (x * 10 + y, rest')
          | None => Some (x, rest)
          end
      | EmptyString => Some (x, rest)
      end
  | EmptyString => None
  end.

Definition getyear (s : string) : option (Z * string) :=
  '(hi, s) ← getnum_fixed s; '(lo, s) ← getnum_fixed s; Some (hi * 100 + lo, s).

Definition lit (c : ascii) (s : string) : option string :=
  match s with
  | String a rest => if Ascii.eqb a c then Some rest else None
  | EmptyString => None
  end.

(** The digits of a fraction: their value scaled to nanoseconds (digits beyond
    the ninth are read and ignored), and the rest of the text. *)
Fixpoint fraction_digits (scale acc : Z) (s : string) : Z * string :=
  match s with
  | String a rest =>
      match dec_val a with
      | Some v => fraction_digits (scale / 10) (acc + v * scale) rest
      | None => (acc, s)
      end
  | EmptyString => (acc, s)
  end.

Definition fraction (s : string) : Z * string :=
  match s with
  | String p (String a rest) =>
      if (Ascii.eqb p "." || Ascii.eqb p ",") && is_digit a
      then fraction_digits (second / 10) 0 (String a rest)
      else (0, s)
  | _ => (0, s)
  end.

(** The zone: [Z], or a signed offset, in seconds. *)
Definition zone (s : string) : option (Z * string) :=
  match s with
  | String "Z" rest => Some (0, rest)
  | String sign rest =>
      '(hr, rest) ← getnum_fixed rest; rest ← lit ":" rest; '(mm, rest) ← getnum_fixed rest;
      if (24 <? hr) || (60 <? mm) then None
      else if Ascii.eqb sign "+" then Some ((hr * 60 + mm) * 60, rest)
      else if Ascii.eqb sign "-" then Some (- ((hr * 60 + mm) * 60), rest)
      else None
  | EmptyString => None
  end.

Definition in_range (lo x hi : Z) : bool := (lo <=? x) && (x <=? hi).

(** [time.Parse(time.RFC3339, s)] *)
Definition parse_rfc3339 (s : string) : option Z :=
  '(y, s) ← getyear s; s ← lit "-" s;
  '(m, s) ← getnum_fixed s; s ← lit "-" s;
  '(d, s) ← getnum_fixed s; s ← lit "T" s;
  '(hh, s) ← getnum_lax s; s ← lit ":" s;
  '(mi, s) ← getnum_fixed s; s ← lit ":" s;
  '(ss, s) ← getnum_fixed s;
  let '(ns, s) := fraction s in
  '(off, s) ← zone s;
  if negb (in_range 1 m 12 && in_range 0 hh 23 && in_range 0 mi 59 && in_range 0 ss 59 &&
           in_range 1 d (days_in m y) && String.eqb s "") then None
  else Some ((days_from_civil y m d * 86400 + hh * 3600 + mi * 60 + ss - off) * second + ns).

(** The test on stored timestamps: the text parses and is what [Format] prints
    for the parsed time in UTC. *)
Definition canonicalTime (value : string) : option Z :=
  match parse_rfc3339 value with
  | Some parsed => if String.eqb (format_rfc3339 parsed) value then Some parsed else None
  | None => None
  end.

Example parse_offset : parse_rfc3339 "2026-08-09T16:00:00.25-04:00" = Some (1786305600 * second + 250000000).
Proof. vm_compute. reflexivity. Qed.
Example format_example : format_rfc3339 (1786305600 * second + 7) = "2026-08-09T20:00:00Z".
Proof. vm_compute. reflexivity. Qed.
Example canonical_offset_refused : canonicalTime "2026-08-09T16:00:00-04:00" = None.
Proof. vm_compute. reflexivity. Qed.

(** ** The calendar is a bijection, in order *)

(** The calendar counts years from March: the days before the March year [y] of
    an era of 400 years, and the length of that year. *)
Definition year_start (y : Z) : Z := 365 * y + y / 4 - y / 100 + y / 400.
Definition year_length (y : Z) : Z := if leap (y + 1) then 366 else 365.

Definition year_of_era (doe : Z) : Z := (doe - doe / 1460 + doe / 36524 - doe / 146096) / 365.
Definition month_of (doy : Z) : Z :=
  let mp := (5 * doy + 2) / 153 in if mp <? 10 then mp + 3 else mp - 9.
Definition day_of (doy : Z) : Z := let mp := (5 * doy + 2) / 153 in doy - (153 * mp + 2) / 5 + 1.

(** The place of a day in its March year: January and February come last. *)
Definition place (doy : Z) : Z :=
  date_key (if month_of doy <=? 2 then 1 else 0) (month_of doy) (day_of doy).

Lemma years_checked y :
  0 ≤ y < 400 →
  year_start (y + 1) = year_start y + year_length y ∧
  year_of_era (year_start y) = y ∧ year_of_era (year_start (y + 1) - 1) = y.
Proof.
  apply (forall_below_dec (λ y, year_start (y + 1) = year_start y + year_length y ∧
    year_of_era (year_start y) = y ∧ year_of_era (year_start (y + 1) - 1) = y) 400).
  vm_compute. reflexivity.
Qed.

Lemma days_checked doy :
  0 ≤ doy < 366 →
  (153 * ((month_of doy + 9) mod 12) + 2) / 5 + day_of doy - 1 = doy ∧
  1 ≤ month_of doy ≤ 12 ∧ 1 ≤ day_of doy ∧
  day_of doy ≤ (if doy =? 365 then 29 else days_in (month_of doy) 1) ∧
  (doy = 365 → month_of doy = 2) ∧ place doy < place (doy + 1) ∧ 301 ≤ place doy ≤ 10229.
Proof.
  apply (forall_below_dec (λ doy,
    (153 * ((month_of doy + 9) mod 12) + 2) / 5 + day_of doy - 1 = doy ∧
    1 ≤ month_of doy ≤ 12 ∧ 1 ≤ day_of doy ∧
    day_of doy ≤ (if doy =? 365 then 29 else days_in (month_of doy) 1) ∧
    (doy = 365 → month_of doy = 2) ∧ place doy < place (doy + 1) ∧ 301 ≤ place doy ≤ 10229) 366).
  vm_compute. reflexivity.
Qed.

Lemma year_of_era_mono a b : 0 ≤ a ≤ b → year_of_era a ≤ year_of_era b.
Proof.
  intros Hab. replace b with (a + Z.of_nat (Z.to_nat (b - a))) by lia.
  generalize (Z.to_nat (b - a)) as n. intros n. induction n as [|n IH]; [by rewrite Z.add_0_r|].
  etransitivity; [exact IH|]. unfold year_of_era. apply Z.div_le_mono; [done|].
  replace (a + Z.of_nat (S n)) with (a + Z.of_nat n + 1) by lia.
  assert (Hc : 0 ≤ a + Z.of_nat n) by lia. revert Hc. generalize (a + Z.of_nat n) as c.
  intros c Hc. Z.to_euclidean_division_equations; lia.
Qed.

Lemma year_bounds y : 0 ≤ y < 400 → 0 ≤ year_start y ∧ year_start y + year_length y ≤ 146097.
Proof.
  apply (forall_below_dec (λ y, 0 ≤ year_start y ∧ year_start y + year_length y ≤ 146097) 400).
  vm_compute. reflexivity.
Qed.

Lemma year_of_era_unique y doy :
  0 ≤ y < 400 → 0 ≤ doy < year_length y → year_of_era (year_start y + doy) = y.
Proof.
  intros Hy Hd. destruct (years_checked y Hy) as (E1 & E2 & E3).
  pose proof (year_bounds y Hy).
  pose proof (year_of_era_mono (year_start y) (year_start y + doy) ltac:(lia)).
  pose proof (year_of_era_mono (year_start y + doy) (year_start (y + 1) - 1) ltac:(lia)). lia.
Qed.

(** Every day is a day of a March year of an era. *)
Lemma year_exists n doe :
  (n ≤ 400)%nat → 0 ≤ doe < year_start (Z.of_nat n) →
  ∃ y, 0 ≤ y < Z.of_nat n ∧ 0 ≤ doe - year_start y < year_length y.
Proof.
  induction n as [|n IH]; intros Hn Hd.
  { change (year_start (Z.of_nat 0)) with 0 in Hd. lia. }
  destruct (decide (doe < year_start (Z.of_nat n))) as [H|H].
  - destruct IH as (y & ? & ?); [lia|lia|]. exists y. lia.
  - exists (Z.of_nat n). destruct (years_checked (Z.of_nat n)) as [E _]; [lia|].
    rewrite Nat2Z.inj_succ in Hd. unfold Z.succ in Hd. lia.
Qed.

Lemma civil_decompose days :
  ∃ era y doy, days = era * 146097 + year_start y + doy - 719468 ∧
    0 ≤ y < 400 ∧ 0 ≤ doy < year_length y.
Proof.
  pose proof (Z.mod_pos_bound (days + 719468) 146097 ltac:(lia)).
  destruct (year_exists 400 ((days + 719468) mod 146097)) as (y & ? & ?); [lia|done|].
  exists ((days + 719468) / 146097), y, ((days + 719468) mod 146097 - year_start y).
  pose proof (Z.div_mod (days + 719468) 146097). lia.
Qed.

Lemma era_div a k n : 0 ≤ a < n → (a + k * n) / n = k.
Proof. intros. rewrite Z.div_add, Z.div_small by lia. lia. Qed.

Lemma era_mod a k n : 0 ≤ a < n → (a + k * n) mod n = a.
Proof. intros. rewrite Z.mod_add, Z.mod_small by lia. lia. Qed.

Lemma civil_compute era y doy :
  0 ≤ y < 400 → 0 ≤ doy < year_length y →
  civil_from_days (era * 146097 + year_start y + doy - 719468) =
    (y + era * 400 + (if month_of doy <=? 2 then 1 else 0), month_of doy, day_of doy).
Proof.
  intros Hy Hd. pose proof (year_bounds y Hy).
  pose proof (year_of_era_unique y doy Hy Hd) as E. unfold civil_from_days.
  replace (era * 146097 + year_start y + doy - 719468 + 719468)
    with (year_start y + doy + era * 146097) by lia.
  rewrite era_div, era_mod by lia. cbn zeta.
  fold (year_of_era (year_start y + doy)). rewrite E.
  replace (year_start y + doy - (365 * y + y / 4 - y / 100)) with doy; [done|].
  unfold year_start. rewrite (Z.div_small y 400) by lia. lia.
Qed.

Definition date_order (days : Z) : Z := let '(y, m, d) := civil_from_days days in date_key y m d.

Lemma date_order_compute era y doy :
  0 ≤ y < 400 → 0 ≤ doy < year_length y →
  date_order (era * 146097 + year_start y + doy - 719468) = (y + era * 400) * 10000 + place doy.
Proof. intros Hy Hd. unfold date_order. rewrite civil_compute by done. unfold place, date_key. lia. Qed.

Lemma year_length_bounds y : 365 ≤ year_length y ≤ 366.
Proof. unfold year_length. destruct (leap _); lia. Qed.

Lemma date_order_succ days : date_order days < date_order (days + 1).
Proof.
  destruct (civil_decompose days) as (era & y & doy & -> & Hy & Hd).
  pose proof (year_length_bounds y). pose proof (years_checked y Hy) as (Ey & _).
  destruct (days_checked doy) as (_ & _ & _ & _ & _ & Hp & Hb); [lia|].
  rewrite date_order_compute by done.
  destruct (decide (doy + 1 < year_length y)) as [Hn|Hn].
  { replace (_ + 1) with (era * 146097 + year_start y + (doy + 1) - 719468) by lia.
    rewrite date_order_compute by lia. lia. }
  assert (H0 : place 0 = 301) by done.
  destruct (decide (y = 399)) as [->|].
  - replace (_ + 1) with ((era + 1) * 146097 + year_start 0 + 0 - 719468)
      by (change (year_start (399 + 1)) with 146097 in Ey; change (year_start 0) with 0; lia).
    rewrite date_order_compute by (pose proof (year_length_bounds 0); lia). lia.
  - replace (_ + 1) with (era * 146097 + year_start (y + 1) + 0 - 719468) by lia.
    rewrite date_order_compute by (pose proof (year_length_bounds (y + 1)); lia). lia.
Qed.

Lemma leap_shift k y : leap (y + k * 400) = leap y.
Proof.
  unfold leap.
  replace (y + k * 400) with (y + (100 * k) * 4) at 1 by lia. rewrite Z.mod_add by lia.
  replace (y + k * 400) with (y + (4 * k) * 100) at 1 by lia. rewrite Z.mod_add by lia.
  by rewrite Z.mod_add by lia.
Qed.

(** The date of a day is a real date, and names that day. *)
Lemma civil_spec days y m d :
  civil_from_days days = (y, m, d) →
  days_from_civil y m d = days ∧ 1 ≤ m ≤ 12 ∧ 1 ≤ d ≤ days_in m y ∧ d ≤ 31.
Proof.
  destruct (civil_decompose days) as (era & yoe & doy & -> & Hy & Hd).
  rewrite civil_compute by done. intros [= <- <- <-].
  pose proof (year_length_bounds yoe).
  destruct (days_checked doy) as (E1 & Hm & Hd1 & Hdn & Hfeb & _); [lia|].
  assert (Hmar : (if month_of doy <=? 2
    then yoe + era * 400 + (if month_of doy <=? 2 then 1 else 0) - 1
    else yoe + era * 400 + (if month_of doy <=? 2 then 1 else 0)) = yoe + era * 400)
    by (destruct (month_of doy <=? 2); lia).
  assert (Hdays : day_of doy ≤
    days_in (month_of doy) (yoe + era * 400 + (if month_of doy <=? 2 then 1 else 0))).
  { destruct (Z.eqb_spec doy 365) as [->|Hne].
    - change (month_of 365) with 2. change (day_of 365) with 29. cbn.
      replace (yoe + era * 400 + 1) with (yoe + 1 + era * 400) by lia. rewrite leap_shift.
      unfold year_length in Hd. destruct (leap (yoe + 1)); lia.
    - etransitivity; [exact Hdn|]. unfold days_in. change (leap 1) with false.
      repeat case_match; lia. }
  split_and!; [|lia..|].
  - unfold days_from_civil. rewrite Hmar, era_div, era_mod by lia. unfold year_start. rewrite (Z.div_small yoe 400) by lia. lia.
  - etransitivity; [exact Hdays|]. unfold days_in. repeat case_match; lia.
Qed.

Lemma date_order_lt a b : a < b → date_order a < date_order b.
Proof.
  intros Hab. replace b with (a + 1 + Z.of_nat (Z.to_nat (b - a - 1))) by lia.
  generalize (Z.to_nat (b - a - 1)) as n. intros n. induction n as [|n IH].
  - rewrite Z.add_0_r. apply date_order_succ.
  - etransitivity; [exact IH|].
    replace (a + 1 + Z.of_nat (S n)) with (a + 1 + Z.of_nat n + 1) by lia. apply date_order_succ.
Qed.

Lemma date_order_compare a b : (date_order a ?= date_order b) = (a ?= b).
Proof.
  destruct (Z.compare_spec a b) as [->|H|H].
  - apply Z.compare_refl.
  - apply date_order_lt in H. by apply Z.compare_lt_iff.
  - apply date_order_lt in H. by apply Z.compare_gt_iff.
Qed.

(** The seconds whose texts have a four-digit year. *)
Definition four_digit_year (sec : Z) : Prop := -62167219200 ≤ sec < 253402300800.

Lemma four_digit_year_civil sec y m d :
  four_digit_year sec → civil_from_days (sec / 86400) = (y, m, d) → 0 ≤ y < 10000.
Proof.
  intros [Hlo Hhi] E. pose proof (civil_spec _ _ _ _ E) as (_ & Hm & Hd1 & Hd).
  assert (Hl : date_order (-719528) ≤ date_order (sec / 86400)).
  { destruct (decide (sec / 86400 = -719528)) as [->|]; [lia|].
    apply Z.lt_le_incl, date_order_lt. pose proof (Z.div_le_lower_bound sec 86400 (-719528)). lia. }
  assert (Hh : date_order (sec / 86400) < date_order 2932897).
  { apply date_order_lt, Z.div_lt_upper_bound; lia. }
  change (date_order (-719528)) with (date_key 0 1 1) in Hl.
  change (date_order 2932897) with (date_key 10000 1 1) in Hh.
  unfold date_order in Hl, Hh. rewrite E in Hl, Hh. unfold date_key in Hl, Hh. lia.
Qed.

(** ** Printed digits *)

Lemma dec_val_char v : 0 ≤ v < 10 → dec_val (dec_char v) = Some v.
Proof. apply (forall_below_dec (λ v, dec_val (dec_char v) = Some v) 10). vm_compute. reflexivity. Qed.

Lemma dec_char_compare v w :
  0 ≤ v < 10 → 0 ≤ w < 10 → Ascii.compare (dec_char v) (dec_char w) = (v ?= w).
Proof.
  intros Hv Hw. unfold Ascii.compare, dec_char, chr. rewrite !N_ascii_embedding by lia.
  destruct (Z.compare_spec v w);
    [apply N.compare_eq_iff|apply N.compare_lt_iff|apply N.compare_gt_iff]; lia.
Qed.

Lemma pad_length w x : String.length (pad w x) = w.
Proof.
  revert x. induction w as [|w IH]; intros x; [done|].
  cbn [pad]. rewrite string_length_app, IH. cbn. lia.
Qed.

Lemma pad_compare w x y :
  0 ≤ x < 10 ^ Z.of_nat w → 0 ≤ y < 10 ^ Z.of_nat w →
  String.compare (pad w x) (pad w y) = (x ?= y).
Proof.
  revert x y. induction w as [|w IH]; intros x y Hx Hy.
  { simpl in *. by replace x with y by lia; rewrite Z.compare_refl. }
  rewrite Nat2Z.inj_succ, Z.pow_succ_r in Hx, Hy by lia.
  cbn [pad]. rewrite string_compare_app by by rewrite !pad_length.
  rewrite IH by (Z.to_euclidean_division_equations; lia). cbn.
  rewrite dec_char_compare by (apply Z.mod_pos_bound; lia).
  pose proof (Z.div_mod x 10). pose proof (Z.div_mod y 10).
  pose proof (Z.mod_pos_bound x 10). pose proof (Z.mod_pos_bound y 10).
  destruct (Z.compare_spec (x / 10) (y / 10)) as [E|L|L].
  - destruct (Z.compare_spec (x mod 10) (y mod 10)); symmetry;
      [apply Z.compare_eq_iff|apply Z.compare_lt_iff|apply Z.compare_gt_iff]; lia.
  - symmetry. apply Z.compare_lt_iff. lia.
  - symmetry. apply Z.compare_gt_iff. lia.
Qed.

(** Two texts with a fixed-width number in front compare by the number first. *)
Lemma pad_app_compare w x y s t :
  0 ≤ x < 10 ^ Z.of_nat w → 0 ≤ y < 10 ^ Z.of_nat w →
  String.compare (pad w x +:+ s) (pad w y +:+ t) =
    match x ?= y with Eq => String.compare s t | Lt => Lt | Gt => Gt end.
Proof. intros Hx Hy. by rewrite string_compare_app, pad_compare by (rewrite ?pad_length; done). Qed.

Lemma same_prefix_compare p s t : String.compare (p +:+ s) (p +:+ t) = String.compare s t.
Proof. rewrite string_compare_app by done. by rewrite string_compare_refl. Qed.

(** ** Format preserves the order of time *)

Lemma lex_compare a b a' b' k :
  0 ≤ b < k → 0 ≤ b' < k →
  (match a ?= a' with Eq => b ?= b' | Lt => Lt | Gt => Gt end) = (a * k + b ?= a' * k + b').
Proof.
  intros Hb Hb'. symmetry. destruct (Z.compare_spec a a') as [->|L|L].
  - destruct (Z.compare_spec b b');
      [apply Z.compare_eq_iff|apply Z.compare_lt_iff|apply Z.compare_gt_iff]; nia.
  - apply Z.compare_lt_iff. nia.
  - apply Z.compare_gt_iff. nia.
Qed.

Lemma compare_then_eq (c : comparison) : match c with Eq => Eq | Lt => Lt | Gt => Gt end = c.
Proof. destruct c; reflexivity. Qed.

Lemma format_date_length sec : String.length (format_date sec) = 10%nat.
Proof.
  unfold format_date. destruct (civil_from_days sec) as [[y m] d].
  by rewrite !string_length_app, !pad_length.
Qed.

Lemma format_date_compare a b :
  four_digit_year a → four_digit_year b →
  String.compare (format_date (a / 86400)) (format_date (b / 86400)) = (a / 86400 ?= b / 86400).
Proof.
  intros Ha Hb. rewrite <-date_order_compare. unfold date_order, format_date.
  destruct (civil_from_days (a / 86400)) as [[y m] d] eqn:E.
  destruct (civil_from_days (b / 86400)) as [[y' m'] d'] eqn:E'.
  pose proof (four_digit_year_civil _ _ _ _ Ha E). pose proof (four_digit_year_civil _ _ _ _ Hb E').
  apply civil_spec in E as (_ & ? & ? & ?), E' as (_ & ? & ? & ?).
  rewrite pad_app_compare, same_prefix_compare, pad_app_compare, same_prefix_compare, pad_compare
    by (change (10 ^ Z.of_nat 2) with 100; change (10 ^ Z.of_nat 4) with 10000; lia).
  rewrite (lex_compare m d m' d' 100) by lia.
  rewrite (lex_compare y (m * 100 + d) y' (m' * 100 + d') 10000) by lia.
  unfold date_key. f_equal; lia.
Qed.

Lemma format_clock_compare s t u :
  0 ≤ s < 86400 → 0 ≤ t < 86400 →
  String.compare (format_clock s +:+ u) (format_clock t +:+ u) = (s ?= t).
Proof.
  intros Hs Ht. unfold format_clock. rewrite !string_app_assoc.
  rewrite pad_app_compare, same_prefix_compare, pad_app_compare, same_prefix_compare, pad_app_compare,
    string_compare_refl
    by (change (10 ^ Z.of_nat 2) with 100; Z.to_euclidean_division_equations; lia).
  rewrite compare_then_eq.
  rewrite (lex_compare (s / 60 mod 60) (s mod 60) (t / 60 mod 60) (t mod 60) 60)
    by (apply Z.mod_pos_bound; lia).
  rewrite (lex_compare (s / 3600) _ (t / 3600) _ 3600) by (Z.to_euclidean_division_equations; lia).
  f_equal; Z.to_euclidean_division_equations; lia.
Qed.

(** The texts of two times compare, byte by byte, as their seconds do. *)
Lemma format_unix_compare a b :
  four_digit_year a → four_digit_year b →
  String.compare (format_unix a) (format_unix b) = (a ?= b).
Proof.
  intros Ha Hb. unfold format_unix.
  rewrite string_compare_app by by rewrite !format_date_length.
  rewrite format_date_compare, same_prefix_compare, format_clock_compare
    by (done || apply Z.mod_pos_bound; lia).
  rewrite (lex_compare _ _ _ _ 86400) by (apply Z.mod_pos_bound; lia).
  f_equal; Z.to_euclidean_division_equations; lia.
Qed.

Lemma format_unix_lt a b :
  four_digit_year a → four_digit_year b →
  str_lt (format_unix a) (format_unix b) = (a <? b).
Proof. intros Ha Hb. unfold str_lt, Z.ltb. by rewrite format_unix_compare. Qed.

(** ** Parsing a printed time gives its second back *)

Lemma getnum_fixed_pad x s : 0 ≤ x < 100 → getnum_fixed (pad 2 x +:+ s) = Some (x, s).
Proof.
  intros Hx.
  change (pad 2 x +:+ s) with (String (dec_char (x / 10 mod 10)) (String (dec_char (x mod 10)) s)).
  cbn [getnum_fixed]. rewrite !dec_val_char by (apply Z.mod_pos_bound; lia). cbn.
  do 2 f_equal. Z.to_euclidean_division_equations; lia.
Qed.

Lemma getnum_lax_pad x s : 0 ≤ x < 100 → getnum_lax (pad 2 x +:+ s) = Some (x, s).
Proof.
  intros Hx.
  change (pad 2 x +:+ s) with (String (dec_char (x / 10 mod 10)) (String (dec_char (x mod 10)) s)).
  cbn [getnum_lax]. rewrite !dec_val_char by (apply Z.mod_pos_bound; lia). cbn.
  do 2 f_equal. Z.to_euclidean_division_equations; lia.
Qed.

Lemma getyear_pad y s : 0 ≤ y < 10000 → getyear (pad 4 y +:+ s) = Some (y, s).
Proof.
  intros Hy. unfold getyear.
  change (pad 4 y +:+ s) with (pad 2 (y / 10 / 10) +:+ (pad 2 y +:+ s)).
  rewrite getnum_fixed_pad by (Z.to_euclidean_division_equations; lia). cbn [mbind option_bind].
  change (pad 2 y +:+ s) with (String (dec_char (y / 10 mod 10)) (String (dec_char (y mod 10)) s)).
  cbn [getnum_fixed]. rewrite !dec_val_char by (apply Z.mod_pos_bound; lia). cbn.
  do 2 f_equal. Z.to_euclidean_division_equations; lia.
Qed.

Lemma in_range_true lo x hi : lo ≤ x ≤ hi → in_range lo x hi = true.
Proof. unfold in_range. lia. Qed.

Lemma lit_same c s : lit c (String c s) = Some s.
Proof. cbn. by rewrite Ascii.eqb_refl. Qed.

Lemma parse_format_unix sec :
  four_digit_year sec → parse_rfc3339 (format_unix sec) = Some (sec * second).
Proof.
  intros Hsec. unfold format_unix, format_date.
  destruct (civil_from_days (sec / 86400)) as [[y m] d] eqn:E.
  pose proof (four_digit_year_civil _ _ _ _ Hsec E).
  apply civil_spec in E as (Edays & ? & ? & ?).
  assert (Hsod : 0 ≤ sec mod 86400 < 86400) by (apply Z.mod_pos_bound; lia).
  set (sod := sec mod 86400) in *.
  assert (sod / 3600 < 24) by (Z.to_euclidean_division_equations; lia).
  assert (0 ≤ sod / 3600) by (apply Z.div_pos; lia).
  assert (0 ≤ sod / 60 mod 60 < 60) by (apply Z.mod_pos_bound; lia).
  assert (0 ≤ sod mod 60 < 60) by (apply Z.mod_pos_bound; lia).
  unfold format_clock. rewrite !string_app_assoc. unfold parse_rfc3339.
  repeat (rewrite ?getyear_pad, ?getnum_fixed_pad, ?getnum_lax_pad by lia;
    cbn [mbind option_bind]; rewrite ?string_app_cons, ?string_app_nil_l, ?lit_same).
  cbn [fraction zone mbind option_bind].
  rewrite !in_range_true by lia. cbn. rewrite Edays. f_equal.
  assert (sec / 86400 * 86400 + sod / 3600 * 3600 + sod / 60 mod 60 * 60 + sod mod 60 = sec)
    by (unfold sod; Z.to_euclidean_division_equations; lia).
  unfold second. lia.
Qed.

(** Every text [Format] prints is canonical, and denotes the second printed. *)
Lemma canonicalTime_format t :
  four_digit_year (unix t) → canonicalTime (format_rfc3339 t) = Some (truncate_second t).
Proof.
  intros Ht. unfold canonicalTime, format_rfc3339 at 1. rewrite parse_format_unix by done.
  unfold format_rfc3339, truncate_second, unix in *. rewrite Z.div_mul by done.
  by rewrite String.eqb_refl.
Qed.

(** A canonical text is the text of the time it denotes, so two canonical texts
    of the same time are equal. *)
Lemma canonicalTime_Some value t :
  canonicalTime value = Some t → parse_rfc3339 value = Some t ∧ format_rfc3339 t = value.
Proof.
  unfold canonicalTime. destruct (parse_rfc3339 value) as [t'|]; [|done].
  destruct (String.eqb_spec (format_rfc3339 t') value); naive_solver.
Qed.
