(* ===== verification/Text.v ===== *)
(** The strings package of Go's standard library, as far as the code uses it:
    splitting and trimming, the runes of a UTF-8 text, decimal integers and hex. *)
From S2P Require Import Prelude.
From stdpp Require Import options.

(** ** Splitting and trimming *)

(** [strings.Split(s, sep)] for a one-byte separator: never empty. *)
Fixpoint split_on (sep : ascii) (s : string) : list string :=
  match s with
  | EmptyString => [""]
  | String c rest =>
      if Ascii.eqb c sep then "" :: split_on sep rest
      else match split_on sep rest with
           | first :: others => String c first :: others
           | [] => [String c ""]
           end
  end.

Fixpoint trim_left (p : ascii → bool) (s : string) : string :=
  match s with
  | String c rest => if p c then trim_left p rest else s
  | EmptyString => ""
  end.

Fixpoint trim_right (p : ascii → bool) (s : string) : string :=
  match s with
  | EmptyString => ""
  | String c rest =>
      match trim_right p rest with
      | EmptyString => if p c then "" else String c ""
      | String _ _ as kept => String c kept
      end
  end.

(** [strings.ReplaceAll(s, sep, by)] for a separator of one byte, and for CR LF. *)
Definition replace_byte (sep : ascii) (by_ : string) (s : string) : string := String.concat by_ (split_on sep s).

Definition cr : ascii := "013".
Definition lf : ascii := "010".

Fixpoint replace_crlf (s : string) : string :=
  match s with
  | String c rest =>
      match rest with
      | String d rest' =>
          if Ascii.eqb c cr && Ascii.eqb d lf then String lf (replace_crlf rest') else String c (replace_crlf rest)
      | EmptyString => s
      end
  | EmptyString => ""
  end.

(** [strings.Trim(s, c)] for a one-byte cutset. *)
Definition trim_byte (c : ascii) (s : string) : string :=
  trim_right (Ascii.eqb c) (trim_left (Ascii.eqb c) s).

Fixpoint has_prefix (p s : string) : bool :=
  match p, s with
  | EmptyString, _ => true
  | String a p, String b s => Ascii.eqb a b && has_prefix p s
  | String _ _, EmptyString => false
  end.

(** [strings.TrimPrefix] when the prefix is there: the rest. *)
Fixpoint drop_bytes (n : nat) (s : string) : string :=
  match n, s with
  | S n, String _ s => drop_bytes n s
  | _, _ => s
  end.

Fixpoint contains_byte (c : ascii) (s : string) : bool :=
  match s with
  | EmptyString => false
  | String d s => Ascii.eqb c d || contains_byte c s
  end.

(** [sort.Strings]: equal strings are the same, so any sort gives this one. *)
Fixpoint insert_string (x : string) (l : list string) : list string :=
  match l with
  | [] => [x]
  | y :: rest => if str_lt y x then y :: insert_string x rest else x :: l
  end.
Definition sort_strings (l : list string) : list string := foldr insert_string [] l.

(** ** Runes *)

Definition in_bytes (lo hi : Z) (c : ascii) : bool := (lo <=? code c) && (code c <=? hi).
Definition continuation (c : ascii) : bool := in_bytes 128 191 c.

(** The number of bytes that the first byte of a UTF-8 sequence announces; a
    byte that starts no sequence stands alone. *)
Definition rune_width (a : ascii) : Z :=
  if in_bytes 194 223 a then 2 else if in_bytes 224 239 a then 3 else if in_bytes 240 244 a then 4 else 1.

(** Overlong forms, surrogates and values beyond U+10FFFF are excluded by the
    range of the second byte. *)
Definition second_byte (a b : ascii) : bool :=
  if code a =? 224 then in_bytes 160 191 b
  else if code a =? 237 then in_bytes 128 159 b
  else if code a =? 240 then in_bytes 144 191 b
  else if code a =? 244 then in_bytes 128 143 b
  else continuation b.

(** The runes of a text, each as its own bytes; a byte of no valid sequence is
    on its own, as the range loop of the language has it. *)
Fixpoint runes (s : string) : list string :=
  match s with
  | EmptyString => []
  | String a rest =>
      let single := String a "" :: runes rest in
      if rune_width a =? 1 then single
      else match rest with
      | String b rest2 =>
          if negb (second_byte a b) then single
          else if rune_width a =? 2 then String a (String b "") :: runes rest2
          else match rest2 with
          | String c rest3 =>
              if negb (continuation c) then single
              else if rune_width a =? 3 then String a (String b (String c "")) :: runes rest3
              else match rest3 with
              | String d rest4 =>
                  if negb (continuation d) then single
                  else String a (String b (String c (String d ""))) :: runes rest4
              | EmptyString => single
              end
          | EmptyString => single
          end
      | EmptyString => single
      end
  end.

(** The code point of a rune, [0xFFFD] for a byte of no valid sequence. *)
Definition rune_value (r : string) : Z :=
  match r with
  | String a EmptyString => if code a <? 128 then code a else 65533
  | String a (String b EmptyString) => (code a - 192) * 64 + (code b - 128)
  | String a (String b (String c EmptyString)) =>
      (code a - 224) * 4096 + (code b - 128) * 64 + (code c - 128)
  | String a (String b (String c (String d EmptyString))) =>
      (code a - 240) * 262144 + (code b - 128) * 4096 + (code c - 128) * 64 + (code d - 128)
  | _ => 65533
  end.

(** [unicode.IsSpace] *)
Definition is_space (r : string) : bool :=
  let v := rune_value r in
  ((9 <=? v) && (v <=? 13)) || (v =? 32) || (v =? 133) || (v =? 160) || (v =? 5760) ||
  ((8192 <=? v) && (v <=? 8202)) || (v =? 8232) || (v =? 8233) || (v =? 8239) || (v =? 8287) || (v =? 12288).

(** [unicode.IsControl] *)
Definition is_control (r : string) : bool :=
  let v := rune_value r in (v <? 32) || ((127 <=? v) && (v <? 160)).

Fixpoint drop_while {A} (p : A → bool) (l : list A) : list A :=
  match l with
  | x :: rest => if p x then drop_while p rest else l
  | [] => []
  end.

Definition concat_str (l : list string) : string := foldr String.append "" l.

(** [strings.TrimSpace(s)] *)
Definition TrimSpace (s : string) : string :=
  concat_str (reverse (drop_while is_space (reverse (drop_while is_space (runes s))))).

(** ** Numbers *)

Definition digit_value (c : ascii) : option Z := if is_digit c then Some (code c - 48) else None.

Fixpoint decimal_from (acc : Z) (s : string) : option Z :=
  match s with
  | EmptyString => Some acc
  | String c rest => v ← digit_value c; decimal_from (acc * 10 + v) rest
  end.

Definition decimal (s : string) : option Z :=
  match s with EmptyString => None | _ => decimal_from 0 s end.

(** [strconv.Atoi(s)] on a 64-bit platform. *)
Definition Atoi (s : string) : option Z :=
  let unsigned (neg : bool) (s : string) : option Z :=
    v ← decimal s;
    let v := if neg then - v else v in
    if (- 2 ^ 63 <=? v) && (v <? 2 ^ 63) then Some v else None in
  match s with
  | String "+" rest => unsigned false rest
  | String "-" rest => unsigned true rest
  | _ => unsigned false s
  end.

(** [strconv.Itoa] *)
Definition Itoa (n : Z) : string := pretty n.

Definition hex_digit (v : Z) : ascii := if v <? 10 then chr (48 + v) else chr (87 + v).

(** [hex.EncodeToString] *)
Fixpoint hex (s : string) : string :=
  match s with
  | EmptyString => ""
  | String c rest => String (hex_digit (code c / 16)) (String (hex_digit (code c mod 16)) (hex rest))
  end.

Definition is_lower_hex (c : ascii) : bool := is_digit c || byte_in "a" "f" c.

(** The regular expression [^[0-9a-f]{64}$] of a SHA-256 digest. *)
Definition digestPattern (s : string) : bool :=
  (slen s =? 64) && all_bytes is_lower_hex s.

(** The separator of the composite keys and domain-separation prefixes. *)
(** The name of an environment variable, as several packages test it. *)
Definition env_name (name : string) : bool :=
  match name with
  | String first rest =>
      (Ascii.eqb first "_" || is_upper first || is_lower first) &&
      all_bytes (λ c, Ascii.eqb c "_" || is_upper c || is_lower c || is_digit c) rest
  | EmptyString => false
  end.

Definition nul : string := String "000" "".

(** ** Widths *)

Definition max_int64 : Z := 2 ^ 63 - 1.
Definition min_int64 : Z := - 2 ^ 63.

(** The value of a 64-bit signed result after wrap-around. *)
Definition wrap64 (z : Z) : Z := (z + 2 ^ 63) mod 2 ^ 64 - 2 ^ 63.

Lemma wrap64_small z : min_int64 ≤ z ≤ max_int64 → wrap64 z = z.
Proof. unfold wrap64, min_int64, max_int64. intros. rewrite Z.mod_small; lia. Qed.

Lemma wrap64_range z : min_int64 ≤ wrap64 z ≤ max_int64.
Proof. unfold wrap64, min_int64, max_int64. pose proof (Z.mod_pos_bound (z + 2 ^ 63) (2 ^ 64)). lia. Qed.

(** [t.Sub(u)]: a duration saturates at the int64 bounds. *)
Definition time_sub (t u : Z) : Z := Z.max min_int64 (Z.min max_int64 (t - u)).

Lemma drop_bytes_length n s : String.length (drop_bytes n s) = (String.length s - n)%nat.
Proof. revert s. induction n as [|n IH]; intros [|c s]; cbn; try done. Qed.

Lemma hex_digit_lower v : 0 ≤ v < 16 → is_lower_hex (hex_digit v) = true.
Proof. apply (forall_below_dec (λ v, is_lower_hex (hex_digit v) = true) 16). vm_compute. reflexivity. Qed.

Lemma insert_string_perm x l : insert_string x l ≡ₚ x :: l.
Proof. induction l as [|y l IH]; [done|]. cbn. destruct (str_lt y x); [rewrite IH; apply perm_swap|done]. Qed.

Lemma sort_strings_perm l : sort_strings l ≡ₚ l.
Proof. induction l as [|x l IH]; [done|]. cbn. by rewrite insert_string_perm, IH. Qed.

Lemma hex_length s : slen (hex s) = 2 * slen s.
Proof. unfold slen. induction s as [|c s IH]; [done|]. cbn [hex String.length]. lia. Qed.

Lemma hex_lower s : all_bytes is_lower_hex (hex s) = true.
Proof.
  induction s as [|c s IH]; [done|]. cbn [hex all_bytes]. rewrite IH.
  pose proof (code_bound c).
  rewrite !hex_digit_lower by (Z.to_euclidean_division_equations; lia). done.
Qed.

(** The hex text of 32 bytes is a digest. *)
Lemma digestPattern_hex s : slen s = 32 → digestPattern (hex s) = true.
Proof. intros E. unfold digestPattern. by rewrite hex_length, E, hex_lower. Qed.

(** ** Texts of plain bytes *)

Lemma rune_width_ascii c : code c < 128 → (rune_width c =? 1) = true.
Proof. intros H. unfold rune_width, in_bytes. by replace (194 <=? code c) with false by lia;
  replace (224 <=? code c) with false by lia; replace (240 <=? code c) with false by lia. Qed.

Lemma runes_ascii s :
  all_bytes (λ c, code c <? 128) s = true → runes s = (λ c, String c "") <$> list_ascii_of_string s.
Proof.
  induction s as [|c s IH]; [done|]. cbn [all_bytes]. intros [Hc Hs]%andb_true_iff.
  cbn [runes list_ascii_of_string]. rewrite rune_width_ascii by lia. by rewrite IH.
Qed.

(** A rune of valid UTF-8. *)
Definition valid_rune (r : string) : bool :=
  match r with String a EmptyString => code a <? 128 | _ => true end.
Definition valid_utf8 (s : string) : bool := forallb valid_rune (runes s).

Definition ascii_text (s : string) : bool := all_bytes (λ c, code c <? 128) s.

Lemma ascii_utf8 s : all_bytes (λ c, code c <? 128) s = true → valid_utf8 s = true.
Proof.
  intros H. unfold valid_utf8. rewrite runes_ascii by done. revert H. induction s as [|c s IH]; [done|].
  cbn. intros [-> H]%andb_true_iff. by apply IH.
Qed.

Lemma concat_str_app l k : concat_str (l ++ k) = concat_str l +:+ concat_str k.
Proof. induction l as [|s l IH]; [done|]. change (s +:+ concat_str (l ++ k) = (s +:+ concat_str l) +:+ concat_str k). by rewrite IH, string_app_assoc. Qed.

Lemma concat_singles l : concat_str ((λ c, String c "") <$> l) = string_of_list_ascii l.
Proof. induction l as [|c l IH]; [done|]. cbn. unfold concat_str in IH. rewrite IH. done. Qed.

Lemma drop_while_none {A} (p : A → bool) l : (∀ x, x ∈ l → p x = false) → drop_while p l = l.
Proof. destruct l as [|x l]; [done|]. intros H. simpl. by rewrite H by (by left). Qed.

(** A byte that is a character of its own, and no space. *)
Definition plain_byte (c : ascii) : bool := (code c <? 128) && negb (is_space (String c "")).

(** Trimming leaves a text without space as it is. *)
Lemma TrimSpace_plain s : all_bytes plain_byte s = true → TrimSpace s = s.
Proof.
  intros Hs. unfold TrimSpace. rewrite runes_ascii by (eapply all_bytes_mono; [|exact Hs]; by intros c [? _]%andb_true_iff).
  rewrite all_bytes_elem in Hs. set (l := _ <$> _). assert (Hl : ∀ x, x ∈ l → is_space x = false).
  { intros x (c & -> & Hc)%list_elem_of_fmap. apply Hs, andb_true_iff in Hc as [_ Hc]. by apply negb_true_iff. }
  rewrite (drop_while_none _ l) by done. rewrite (drop_while_none _ (reverse l)).
  2: { intros x Hx. apply Hl. by rewrite <-elem_of_reverse. }
  rewrite reverse_involutive. unfold l. by rewrite concat_singles, string_of_list_ascii_of_string.
Qed.

(** ** Separators *)

(** The parts around the last occurrence of a byte. *)
Fixpoint cut_last (c : ascii) (s : string) : option (string * string) :=
  match s with
  | EmptyString => None
  | String d rest =>
      match cut_last c rest with
      | Some (before, after) => Some (String d before, after)
      | None => if Ascii.eqb d c then Some ("", rest) else None
      end
  end.

Lemma cut_last_None c s : contains_byte c s = false → cut_last c s = None.
Proof.
  induction s as [|d s IH]; [done|]. cbn. intros [Hd Hs]%orb_false_iff. rewrite IH by done. by rewrite Ascii.eqb_sym, Hd.
Qed.

Lemma cut_last_app c a b : contains_byte c b = false → cut_last c (a +:+ String c b) = Some (a, b).
Proof.
  intros Hb. induction a as [|d a IH].
  - rewrite string_app_nil_l. cbn. by rewrite cut_last_None, Ascii.eqb_refl.
  - rewrite string_app_cons. cbn. by rewrite IH.
Qed.

Lemma cut_last_at c a b : contains_byte c b = false → cut_last c (a +:+ String c "" +:+ b) = Some (a, b).
Proof. rewrite string_app_cons. apply cut_last_app. Qed.

(** A text without the separator is read off before it. *)
Lemma separated_inj c a b x y : contains_byte c a = false → contains_byte c b = false →
  a +:+ String c x = b +:+ String c y → a = b ∧ x = y.
Proof.
  revert b. induction a as [|d a IH]; intros [|e b]; rewrite ?string_app_cons, ?string_app_nil_l; cbn [contains_byte].
  - by intros _ _ [= ->].
  - intros _ [Hn _]%orb_false_iff [= <- _]. by rewrite Ascii.eqb_refl in Hn.
  - intros [Hn _]%orb_false_iff _ [= -> _]. by rewrite Ascii.eqb_refl in Hn.
  - intros [_ Ha]%orb_false_iff [_ Hb]%orb_false_iff [= -> E]. by destruct (IH b Ha Hb E) as [-> ->].
Qed.

Lemma separated_at_inj c a b x y : contains_byte c a = false → contains_byte c b = false →
  a +:+ String c "" +:+ x = b +:+ String c "" +:+ y → a = b ∧ x = y.
Proof. rewrite !(string_app_cons c ""), !string_app_nil_l. apply separated_inj. Qed.

Lemma string_app_inj (a b c d : string) :
  String.length a = String.length b → a +:+ c = b +:+ d → a = b ∧ c = d.
Proof.
  revert b. induction a as [|x a IH]; intros [|y b] Hlen; try done; rewrite ?string_app_cons.
  intros [= -> H]. apply IH in H as [-> ->]; [done|]. cbn in Hlen. lia.
Qed.

Lemma contains_byte_app c a b : contains_byte c (a +:+ b) = contains_byte c a || contains_byte c b.
Proof. induction a as [|d a IH]; [done|]. rewrite string_app_cons. cbn. by rewrite IH, orb_assoc. Qed.

(** ** Texts in two parts *)

Lemma substring_app (r t : string) : substring 0 (String.length r) (r +:+ t) = r.
Proof. induction r as [|c r IH]; [by destruct t|]. rewrite string_app_cons. cbn. by rewrite IH. Qed.
Lemma drop_bytes_app (r t : string) : drop_bytes (String.length r) (r +:+ t) = t.
Proof. induction r as [|c r IH]; [done|]. rewrite string_app_cons. cbn. done. Qed.
