(* ===== verification/Secure.v ===== *)
(** Keys, fingerprints and signatures: internal/secure/secure.go, with the
    primitives of the standard library's crypto packages as parameters. *)
From S2P Require Import Prelude Base64 Text.
From stdpp Require Import options.

(** ** Primitives *)

(** [sha256.Sum256]; [ed25519.Verify(pub, msg, sig)] for a public key of the
    right length; and whether [ecdh.X25519] can agree on a non-zero secret with
    a 32-byte public key. *)
Class Crypto := {
  sha256 : string → string;
  ed25519_verify : string → string → string → bool;
  x25519_usable : string → bool;
}.

Definition ed25519_PublicKeySize : Z := 32.

Record Blob := { blob_version : Z; blob_nonce : string; blob_ciphertext : string }.
#[export] Instance Blob_eq_dec : EqDecision Blob.
Proof. solve_decision. Defined.

Record WrappedKey := { wk_version : Z; wk_ephemeral_key : string; wk_blob : Blob }.
#[export] Instance WrappedKey_eq_dec : EqDecision WrappedKey.
Proof. solve_decision. Defined.

Section Secure.
Context `{!Crypto}.

(** The first eight bytes of the digest, in hex. *)
Definition PublicFingerprint (signingPublic wrappingPublic : string) : string :=
  hex (substring 0 8 (sha256 ("envbank.device.fingerprint.v1" +:+ nul +:+ signingPublic +:+
    nul +:+ wrappingPublic))).

Definition ValidatePublicDeviceKeys (signingPublic wrappingPublic : string) : result unit :=
  match decodeCanonical signingPublic ed25519_PublicKeySize with
  | None => Err "invalid signing public key"
  | Some signing =>
      _ ← reject_if (negb (slen signing =? ed25519_PublicKeySize)) "invalid signing public key";
      match decodeCanonical wrappingPublic 32 with
      | None => Err "invalid wrapping public key"
      | Some wrapping => reject_if (negb (x25519_usable wrapping)) "invalid wrapping public key"
      end
  end.

Definition Verify (publicKey message signature : string) : bool :=
  match decode publicKey with
  | None => false
  | Some pub =>
      if negb (slen pub =? ed25519_PublicKeySize) then false
      else match decode signature with
           | None => false
           | Some sig => ed25519_verify pub message sig
           end
  end.

(** Two devices whose accepted public keys denote the same key bytes have the
    same public texts: the encoding leaves an attacker no second spelling. *)
Lemma ValidatePublicDeviceKeys_Ok s w :
  ValidatePublicDeviceKeys s w = Ok tt ↔
    ∃ sb wb, s = encode sb ∧ w = encode wb ∧ slen sb = 32 ∧ slen wb = 32 ∧ x25519_usable wb = true.
Proof.
  unfold ValidatePublicDeviceKeys, ed25519_PublicKeySize. split.
  - destruct (decodeCanonical s 32) as [sb|] eqn:E1; [|done].
    apply decodeCanonical_Some in E1 as [-> Hs]. rewrite Hs. cbn.
    destruct (decodeCanonical w 32) as [wb|] eqn:E2; [|done].
    apply decodeCanonical_Some in E2 as [-> Hw]. intros Hx%reject_if_Ok%negb_false_iff. eauto 10.
  - intros (sb & wb & -> & -> & Hs & Hw & Hx).
    rewrite <-Hs, decodeCanonical_encode at 1. rewrite Hs. cbn.
    rewrite <-Hw, decodeCanonical_encode. by rewrite Hx.
Qed.
End Secure.
