(* ===== verification/Protocol.v ===== *)
(** The messages exchanged by the service and its clients, the text a request
    signature covers, and the header checks: internal/protocol/protocol.go. *)
From S2P Require Import Prelude Base64 Timestamp Text Secure.
From stdpp Require Import options.

(** ** Messages *)

Record PublicDevice := {
  dev_ID : string; dev_Name : string; dev_SigningPublic : string;
  dev_WrappingPublic : string; dev_Fingerprint : string; dev_CreatedAt : string;
}.
#[export] Instance PublicDevice_eq_dec : EqDecision PublicDevice.
Proof. solve_decision. Defined.

(** [revoked_at,omitempty]: the empty text when the device is active. *)
Record DeviceStatus := { ds_Device : PublicDevice; ds_RevokedAt : string }.

Record CreateVaultRequest := { cv_Name : string; cv_Device : PublicDevice }.

Record EnrollmentRequest := { er_Name : string; er_SigningPublic : string; er_WrappingPublic : string }.

Record EnrollmentStatus := {
  es_Device : PublicDevice; es_Approved : bool; es_Envelope : option WrappedKey; es_RevokedAt : string;
}.

Definition InvitationProtocolVersion : Z := 1.

Inductive InvitationState :=
| InvitationPending
| InvitationApproved
| InvitationCancelled
| InvitationRejected
| InvitationExpired
| InvitationAttemptsExhausted.
#[export] Instance InvitationState_eq_dec : EqDecision InvitationState.
Proof. solve_decision. Defined.

Definition state_text (s : InvitationState) : string :=
  match s with
  | InvitationPending => "pending"
  | InvitationApproved => "approved"
  | InvitationCancelled => "cancelled"
  | InvitationRejected => "rejected"
  | InvitationExpired => "expired"
  | InvitationAttemptsExhausted => "attempts_exhausted"
  end.

Record InvitationRequest := {
  ir_Version : Z; ir_Name : string; ir_SigningPublic : string; ir_WrappingPublic : string;
}.

Record InvitationApprovalBody := {
  ia_Version : Z; ia_DeviceID : string; ia_Fingerprint : string; ia_Envelope : WrappedKey;
}.

Record InvitationTransition := { it_Version : Z; it_DeviceID : string; it_Fingerprint : string }.

Record InvitationStatus := {
  is_Version : Z; is_Device : PublicDevice; is_State : InvitationState; is_ExpiresAt : string;
  is_AttemptsRemaining : Z; is_TerminalAt : string; is_Envelope : option WrappedKey;
}.

(** A stored record or vault object, as the service sees it. *)
Record Record_ := { rec_ID : string; rec_Revision : Z; rec_Blob : Blob; rec_ModifiedAt : string }.

Record PutRecordRequest := { pr_ExpectedRevision : Z; pr_Blob : Blob }.

Record PutVaultObjectRequest := { po_ExpectedRevision : Z; po_ModifiedAt : string; po_Blob : Blob }.

(** A decrypted record. *)
Record SecretRecord := {
  sr_Name : string; sr_Value : string; sr_CreatedAt : string; sr_RotatedAt : string; sr_RotateEveryDays : Z;
  sr_Revision : Z; sr_AllowedOrigins : list string;
}.

Record AccessEvent := {
  ae_ID : string; ae_VaultID : string; ae_Timestamp : string; ae_IdentityID : string;
  ae_IdentityVerified : bool; ae_TargetIdentityID : string; ae_Operation : string;
  ae_Outcome : string; ae_Reason : string;
}.

(** ** Signed requests *)

Definition newline : string := String "010" "".

Definition SignatureMessage `{!Crypto} (method path timestamp nonce body : string) : string :=
  "envbank.request.v1" +:+ newline +:+ method +:+ newline +:+ path +:+ newline +:+
  timestamp +:+ newline +:+ nonce +:+ newline +:+ encode (sha256 body).

(** The difference [now.Sub(parsed)] saturates at the bounds of a 64-bit
    duration, and the negation wraps around. *)
Definition ValidateTimestamp (value : string) (now : Z) : result unit :=
  match canonicalTime value with
  | None => Err "invalid request timestamp"
  | Some parsed =>
      let delta := time_sub now parsed in
      let delta := if delta <? 0 then wrap64 (- delta) else delta in
      reject_if (5 * minute <? delta) "request timestamp outside allowed window"
  end.

Definition ValidateNonce (value : string) : result unit :=
  match decodeCanonical value 18 with
  | None => Err "invalid request nonce"
  | Some _ => Ok tt
  end.

(** ** Properties *)

(** A nonce is accepted exactly when it is the canonical text of 18 bytes. *)
Lemma ValidateNonce_Ok value :
  ValidateNonce value = Ok tt ↔ ∃ b, value = encode b ∧ slen b = 18.
Proof.
  unfold ValidateNonce. destruct (decodeCanonical value 18) as [b|] eqn:E.
  - apply decodeCanonical_Some in E. naive_solver.
  - split; [done|]. intros (b & -> & Hb). rewrite <-Hb, decodeCanonical_encode in E. done.
Qed.

(** The duration between two times of day-to-day distance is exact. *)
Lemma time_sub_exact t u : - max_int64 ≤ t - u ≤ max_int64 → time_sub t u = t - u.
Proof. unfold time_sub, max_int64, min_int64. lia. Qed.

(** Within 2^63 nanoseconds (292 years) of the clock, a timestamp is accepted
    exactly when it is canonical and at most five minutes from the clock. *)
Lemma ValidateTimestamp_near value now t :
  canonicalTime value = Some t → - max_int64 ≤ now - t ≤ max_int64 →
  ValidateTimestamp value now = Ok tt ↔ Z.abs (now - t) ≤ 5 * minute.
Proof.
  intros E Hnear. unfold ValidateTimestamp. rewrite E, time_sub_exact by done. cbv zeta.
  rewrite (reject_if_Ok _ _ tt), Z.ltb_ge.
  destruct (Z.ltb_spec (now - t) 0); [rewrite wrap64_small by (unfold min_int64, max_int64 in *; lia)|]; lia.
Qed.

(** Beyond 2^63 nanoseconds in the future the difference saturates at the least
    duration, whose negation is itself: the window test passes. *)
Lemma ValidateTimestamp_far value now t :
  canonicalTime value = Some t → 2 ^ 63 ≤ t - now → ValidateTimestamp value now = Ok tt.
Proof.
  intros E Hfar. unfold ValidateTimestamp. rewrite E.
  replace (time_sub now t) with min_int64 by (unfold time_sub, max_int64, min_int64; lia).
  reflexivity.
Qed.

Lemma ValidateTimestamp_canonical value now :
  ValidateTimestamp value now = Ok tt → ∃ t, canonicalTime value = Some t.
Proof. unfold ValidateTimestamp. destruct (canonicalTime value); naive_solver. Qed.
