(* ===== verification/Envelope.v ===== *)
(** Sealing, record identifiers and the wrapping of the vault key for a device:
    the rest of internal/secure/secure.go, with the primitives of the standard
    library's crypto packages as parameters. *)
From S2P Require Import Prelude Base64 Text Secure.
From stdpp Require Import options.

(** ** Primitives *)

(** AES-GCM under a key and a nonce, with associated data; HMAC and HKDF of
    SHA-256; the public half of an X25519 private key, the shared secret of a
    private and a public key (none when it is zero); the Ed25519 private key of a
    seed and the signature of a message. *)
Class Cipher := {
  gcm_seal : string → string → string → string → string;
  gcm_open : string → string → string → string → option string;
  hmac_sha256 : string → string → string;
  hkdf_sha256 : string → string → string;
  x25519_public : string → string;
  x25519 : string → string → option string;
  ed25519_from_seed : string → string;
  ed25519_sign : string → string → string;
}.

(** What the packages document.  GCM is deterministic in its four inputs, so a
    ciphertext opens to a plaintext exactly when it is the one that sealing the
    plaintext gives; the lengths are those of a 256-bit curve and key; and both
    sides of an agreement find the same secret. *)
Class CipherLaws {cipher : Cipher} : Prop := {
  gcm_opens_sealed : ∀ k n c a p, gcm_open k n c a = Some p ↔ c = gcm_seal k n p a;
  x25519_public_length : ∀ a, slen a = 32 → slen (x25519_public a) = 32;
  x25519_agree : ∀ a b, slen a = 32 → slen b = 32 → x25519 a (x25519_public b) = x25519 b (x25519_public a);
  hkdf_length : ∀ s c, slen (hkdf_sha256 s c) = 32;
  ed25519_sign_length : ∀ k m, slen k = 64 → slen (ed25519_sign k m) = 64;
  hmac_length : ∀ k m, slen (hmac_sha256 k m) = 32;
}.

Definition formatVersion : Z := 1.
Definition gcm_NonceSize : Z := 12.

(** The length of an AES key ([aes.NewCipher]). *)
Definition aes_key (key : string) : bool := (slen key =? 16) || (slen key =? 24) || (slen key =? 32).
Definition check_aes_key (key : string) : result unit :=
  reject_if (negb (aes_key key)) ("crypto/aes: invalid key size " +:+ Itoa (slen key)).

Record DeviceSecrets := { sec_SigningPrivate : string; sec_WrappingPrivate : string; sec_VaultKey : string }.

Section Envelope.
Context {crypto : Crypto} {cipher : Cipher}.

(** ** Sealing *)

(** [nonce] is what the random source gave for the twelve bytes. *)
Definition Seal (nonce : result string) (key plaintext aad : string) : result Blob :=
  _ ← check_aes_key key;
  nonce ← nonce;
  Ok {| blob_version := formatVersion; blob_nonce := encode nonce;
        blob_ciphertext := encode (gcm_seal key nonce plaintext aad) |}.

Definition Open (key : string) (blob : Blob) (aad : string) : result string :=
  _ ← reject_if (negb (blob_version blob =? formatVersion))
        ("unsupported encrypted format version " +:+ Itoa (blob_version blob));
  match decode (blob_nonce blob) with
  | None => Err "invalid nonce encoding"
  | Some nonce =>
      match decode (blob_ciphertext blob) with
      | None => Err "invalid ciphertext encoding"
      | Some ciphertext =>
          _ ← check_aes_key key;
          _ ← reject_if (negb (slen nonce =? gcm_NonceSize)) "invalid nonce length";
          match gcm_open key nonce ciphertext aad with
          | None => Err "decryption failed"
          | Some plaintext => Ok plaintext
          end
      end
  end.

Definition RecordID (vaultKey name : string) : string :=
  encode (hmac_sha256 vaultKey ("envbank.record.id.v1" +:+ nul +:+ name)).

(** ** The vault key for a device *)

Definition expandKey (secret context : string) : string := hkdf_sha256 secret context.

Definition wrap_context (vaultID deviceID : string) : string :=
  "envbank.vault.wrap.v1" +:+ nul +:+ vaultID +:+ nul +:+ deviceID.

(** [ephemeral] is the generated private key, [nonce] as for [Seal]. *)
Definition WrapVaultKey (ephemeral nonce : result string) (vaultKey recipientPublic vaultID deviceID : string) :
    result WrappedKey :=
  match decode recipientPublic with
  | None => Err "invalid wrapping public key"
  | Some pub =>
      _ ← reject_if (negb (slen pub =? 32)) "invalid wrapping public key";
      ephemeral ← ephemeral;
      match x25519 ephemeral pub with
      | None => Err "crypto/ecdh: bad X25519 remote ECDH input: low order point"
      | Some shared =>
          let context := wrap_context vaultID deviceID in
          blob ← Seal nonce (expandKey shared context) vaultKey context;
          Ok {| wk_version := formatVersion; wk_ephemeral_key := encode (x25519_public ephemeral); wk_blob := blob |}
      end
  end.

Definition UnwrapVaultKey (envelope : WrappedKey) (privateKey vaultID deviceID : string) : result string :=
  _ ← reject_if (negb (wk_version envelope =? formatVersion))
        ("unsupported wrapped-key version " +:+ Itoa (wk_version envelope));
  match decode privateKey with
  | None => Err "invalid local wrapping key"
  | Some priv =>
      match decode (wk_ephemeral_key envelope) with
      | None => Err "invalid ephemeral key"
      | Some ephemeral =>
          _ ← reject_if (negb (slen priv =? 32)) "invalid local wrapping key";
          _ ← reject_if (negb (slen ephemeral =? 32)) "invalid ephemeral key";
          match x25519 priv ephemeral with
          | None => Err "crypto/ecdh: bad X25519 remote ECDH input: low order point"
          | Some shared =>
              let context := wrap_context vaultID deviceID in
              Open (expandKey shared context) (wk_blob envelope) context
          end
      end
  end.

(** ** The keys of a device *)

Definition PublicKeysFromSecrets (secrets : DeviceSecrets) : result (string * string) :=
  match decodeCanonical (sec_SigningPrivate secrets) 64 with
  | None => Err "invalid signing private key"
  | Some signing =>
      match decodeCanonical (sec_WrappingPrivate secrets) 32 with
      | None => Err "invalid wrapping private key"
      | Some wrapping =>
          let derived := ed25519_from_seed (substring 0 32 signing) in
          _ ← reject_if (negb (String.eqb derived signing)) "invalid signing private key";
          Ok (encode (drop_bytes 32 derived), encode (x25519_public wrapping))
      end
  end.

Definition Sign (privateKey message : string) : result string :=
  match decode privateKey with
  | Some raw =>
      _ ← reject_if (negb (slen raw =? 64)) "invalid signing private key";
      Ok (encode (ed25519_sign raw message))
  | None => Err "invalid signing private key"
  end.

(** ** Properties *)

Context {laws : CipherLaws}.

(** What opens was sealed, under the same key and associated data, and opens to
    what was sealed. *)
Lemma Open_Ok key blob aad plaintext :
  Open key blob aad = Ok plaintext ↔
  ∃ nonce, slen nonce = gcm_NonceSize ∧ decode (blob_nonce blob) = Some nonce ∧ blob_version blob = formatVersion ∧
    aes_key key = true ∧ decode (blob_ciphertext blob) = Some (gcm_seal key nonce plaintext aad).
Proof using laws.
  unfold Open, check_aes_key. rewrite reject_if_bind. split.
  - intros [Hv H]. destruct (decode (blob_nonce blob)) as [nonce|]; [|done].
    destruct (decode (blob_ciphertext blob)) as [ciphertext|]; [|done]. apply reject_if_bind in H as [Hk H].
    apply reject_if_bind in H as [Hl H]. passed Hv. passed Hk. passed Hl.
    destruct (gcm_open _ _ _ _) as [p|] eqn:E; [|done]. injection H as ->. apply gcm_opens_sealed in E as ->.
    by exists nonce.
  - intros (nonce & Hl & Hn & Hv & Hk & Hc). rewrite Hn, Hc, Hv, Hk, Hl. split; [done|]. cbn.
    by rewrite (proj2 (gcm_opens_sealed key nonce _ aad plaintext)).
Qed.

Lemma Open_Seal nonce key plaintext aad blob :
  slen nonce = gcm_NonceSize → Seal (Ok nonce) key plaintext aad = Ok blob → Open key blob aad = Ok plaintext.
Proof using laws.
  intros Hn H. unfold Seal, check_aes_key in H. apply reject_if_bind in H as [Hk H]. passed Hk.
  cbn in H. injection H as <-. apply Open_Ok. exists nonce. cbn [blob_nonce blob_version blob_ciphertext]. by rewrite !decode_encode.
Qed.

(** A key wrapped for a public key unwraps with the private one. *)
Lemma Unwrap_Wrap ephemeral nonce vaultKey private vaultID deviceID envelope :
  slen ephemeral = 32 → slen private = 32 → slen nonce = gcm_NonceSize →
  WrapVaultKey (Ok ephemeral) (Ok nonce) vaultKey (encode (x25519_public private)) vaultID deviceID = Ok envelope →
  UnwrapVaultKey envelope (encode private) vaultID deviceID = Ok vaultKey.
Proof using laws.
  intros He Hp Hn. unfold WrapVaultKey, UnwrapVaultKey. rewrite decode_encode, x25519_public_length by done.
  cbn [mbind result_bind reject_if negb Z.eqb Pos.eqb]. rewrite (x25519_agree ephemeral private) by done.
  destruct (x25519 private (x25519_public ephemeral)) as [shared|] eqn:E; [|done].
  destruct (Seal _ _ _ _) as [blob|] eqn:Es; [|done]. intros [= <-]. cbn [wk_version wk_ephemeral_key wk_blob].
  rewrite !decode_encode, Hp, x25519_public_length by done. cbn [mbind result_bind reject_if negb Z.eqb Pos.eqb formatVersion].
  rewrite E. by eapply Open_Seal.
Qed.
End Envelope.

(** ** Parameters that can be computed with

    A cipher: sealing puts the associated data before the plaintext; an agreement
    is the pair of the keys in order.  And, for any countable type, an encoding
    as text that decodes. *)
Module Toy.
Fixpoint bits (p : positive) : string :=
  match p with xH => "" | xO p => String "0" (bits p) | xI p => String "1" (bits p) end.
Fixpoint unbits (s : string) : positive :=
  match s with EmptyString => xH | String c s => if Ascii.eqb c "0" then xO (unbits s) else xI (unbits s) end.
Definition to_text {A} `{Countable A} (x : A) : string := bits (countable.encode x).
Definition of_text {A} `{Countable A} (s : string) : option A := countable.decode (unbits s).

Lemma of_to_text {A} `{Countable A} (x : A) : of_text (to_text x) = Some x.
Proof.
  unfold of_text, to_text. assert (Hb : ∀ p, unbits (bits p) = p) by (induction p as [p IH|p IH|]; cbn; by rewrite ?IH).
  by rewrite Hb, countable.decode_encode.
Qed.

Fixpoint zeros (n : nat) : string := match n with O => "" | S n => String "000" (zeros n) end.

#[export] Instance cipher : Cipher := {|
  gcm_seal := λ _ _ p a, zeros 16 +:+ a +:+ p;
  gcm_open := λ _ _ c a, if has_prefix (zeros 16 +:+ a) c then Some (drop_bytes (String.length (zeros 16 +:+ a)) c) else None;
  hmac_sha256 := λ _ m, drop_bytes (String.length m) (zeros 32 +:+ m);
  hkdf_sha256 := λ s c, substring 0 32 (s +:+ zeros 32);
  x25519_public := λ a, a;
  x25519 := λ a b, Some (if str_lt a b then a +:+ b else b +:+ a);
  ed25519_from_seed := λ seed, seed +:+ seed;
  ed25519_sign := λ _ m, substring 0 64 (m +:+ zeros 64);
|}.

Lemma drop_prefix a s : has_prefix a s = true → s = a +:+ drop_bytes (String.length a) s.
Proof.
  revert s. induction a as [|x a IH]; [done|]. intros [|y s]; [done|]. cbn [has_prefix String.length drop_bytes].
  intros [->%Ascii.eqb_eq H]%andb_true_iff. rewrite string_app_cons. f_equal. by apply IH.
Qed.

Lemma prefix_app a s : has_prefix a (a +:+ s) = true ∧ drop_bytes (String.length a) (a +:+ s) = s.
Proof.
  induction a as [|x a [IH1 IH2]]; [done|]. rewrite string_app_cons. cbn. by rewrite Ascii.eqb_refl.
Qed.

#[export] Instance laws : CipherLaws (cipher := cipher).
Proof.
  split.
  - intros k n c a p. cbn [gcm_open gcm_seal cipher]. rewrite <-string_app_assoc. split.
    + destruct (has_prefix _ c) eqn:E; [|done]. apply drop_prefix in E. intros [= <-]. done.
    + intros ->. by destruct (prefix_app (zeros 16 +:+ a) p) as [-> ->].
  - done.
  - intros a b _ _. cbn. f_equal. destruct (str_lt a b) eqn:E1, (str_lt b a) eqn:E2; try done.
    + pose proof (str_lt_trans _ _ _ E1 E2) as C. by rewrite str_lt_irrefl in C.
    + by rewrite (str_lt_total a b).
  - intros s c. cbn [hkdf_sha256 cipher]. unfold slen. rewrite substring_length; [done|].
    rewrite string_length_app. cbn. lia.
  - intros k m _. cbn [ed25519_sign cipher]. unfold slen. rewrite substring_length; [done|].
    rewrite string_length_app. cbn. lia.
  - intros k m. cbn [hmac_sha256 cipher]. unfold slen. rewrite drop_bytes_length, string_length_app. cbn [String.length zeros]. lia.
Qed.
End Toy.
