(* ===== verification/VaultObject.v ===== *)
(** The typed objects of a vault and their encryption:
    internal/vaultobject/object.go. *)
From S2P Require Import Prelude Base64 Timestamp Text Secure Envelope Protocol.
From stdpp Require Import options.

Definition KindBundleSnapshot : string := "bundle-snapshot".
Definition KindBundlePrepare : string := "bundle-prepare".
Definition KindProviderPlan : string := "provider-plan".
Definition KindRolloutOperation : string := "rollout-operation".
Definition KindAutomationPolicy : string := "automation-policy".
Definition KindLifecycleOperation : string := "lifecycle-operation".
Definition KindLifecycleLease : string := "lifecycle-lease".
Definition KindOperationEvidence : string := "operation-evidence".

Definition MaxKindBytes : Z := 64.
Definition MaxKeyBytes : Z := 512.
Definition MaxPayloadBytes : Z := 1048576.

Record VaultObject := {
  vo_Kind : string; vo_Key : string; vo_Revision : Z; vo_ModifiedAt : string; vo_Payload : string;
}.
#[export] Instance VaultObject_eq_dec : EqDecision VaultObject.
Proof. solve_decision. Defined.

(** [json.Marshal] of an object, which fails on a payload that is no JSON, the
    strict decoding, and [json.Valid]. *)
Class ObjectCodec := {
  object_json : VaultObject → result string;
  object_of_json : string → option VaultObject;
  json_Valid : string → bool;
}.

(** ** The vault as an interface *)

(** The vault as a client sees it: typed objects under a kind and a key, put
    with the revision they replace, and the decrypted records.  Each call may
    find the vault changed. *)
Class VaultAPI (V : Type) := {
  GetObject : string → string → V → result (string * Z) * V;
  PutObject : string → string → string → Z → V → result Z * V;
  DeleteObject : string → string → Z → V → result unit * V;
  ListRecords : V → result (list SecretRecord) * V;
}.

(** A store of typed objects: whether it holds an API and a key of 32 bytes. *)
Class EncryptedStore := { unlocked : bool }.

(** ** Encryption *)

(** The check of the characters of a kind: a character that is not ASCII is
    refused by each of its bytes. *)
Definition kind_char (c : ascii) : bool := Ascii.eqb c "-" || is_lower c.

Section Objects.
Context {crypto : Crypto} {cipher : Cipher} {codec : ObjectCodec}.

Definition ID (vaultKey kind key : string) : string :=
  encode (hmac_sha256 vaultKey ("envbank.object.id.v1" +:+ nul +:+ kind +:+ nul +:+ key)).

Definition aad (vaultID id : string) : string := "envbank.object.v1" +:+ nul +:+ vaultID +:+ nul +:+ id.

Definition VaultObject_Validate (object : VaultObject) : result unit :=
  _ ← reject_if ((slen (vo_Kind object) =? 0) || (MaxKindBytes <? slen (vo_Kind object)))
        "vault object kind must contain at most 64 bytes";
  _ ← reject_if (negb (all_bytes kind_char (vo_Kind object)))
        "vault object kind must contain lowercase letters and hyphens";
  _ ← reject_if ((slen (vo_Key object) =? 0) || (MaxKeyBytes <? slen (vo_Key object)))
        "vault object key must contain at most 512 bytes";
  _ ← reject_if (vo_Revision object <? 1) "vault object revision must be positive";
  match canonicalTime (vo_ModifiedAt object) with
  | None => Err "vault object modified_at must be a canonical UTC timestamp"
  | Some _ =>
      reject_if ((slen (vo_Payload object) =? 0) || (MaxPayloadBytes <? slen (vo_Payload object)) ||
          negb (json_Valid (vo_Payload object))) "vault object payload must be valid bounded JSON"
  end.

Definition Encrypt (nonce : result string) (vaultID vaultKey : string) (object : VaultObject) : result (string * Blob) :=
  _ ← VaultObject_Validate object;
  let id := ID vaultKey (vo_Kind object) (vo_Key object) in
  raw ← object_json object;
  blob ← Seal nonce vaultKey raw (aad vaultID id);
  Ok (id, blob).

Definition Decrypt (vaultID vaultKey : string) (encrypted : Record_) : result VaultObject :=
  match Open vaultKey (rec_Blob encrypted) (aad vaultID (rec_ID encrypted)) with
  | Err _ => Err "vault object could not be decrypted"
  | Ok plaintext =>
      match object_of_json plaintext with
      | None => Err "decrypted vault object is invalid"
      | Some object =>
          _ ← reject_if (negb (is_ok (VaultObject_Validate object))) "decrypted vault object is invalid";
          _ ← reject_if (negb (String.eqb (ID vaultKey (vo_Kind object) (vo_Key object)) (rec_ID encrypted)) ||
                negb (vo_Revision object =? rec_Revision encrypted) ||
                negb (String.eqb (vo_ModifiedAt object) (rec_ModifiedAt encrypted)))
                "vault object integrity metadata does not match";
          Ok object
      end
  end.

Definition identity (object : VaultObject) : string := vo_Kind object +:+ nul +:+ vo_Key object.

(** The loop of [DecryptAll]: the identifiers and the identities seen. *)
Fixpoint decrypt_each (vaultID vaultKey : string) (seenIDs seenIdentities : gset string) (encrypted : list Record_) :
    result (list VaultObject) :=
  match encrypted with
  | [] => Ok []
  | item :: rest =>
      _ ← reject_if (bool_decide (rec_ID item ∈ seenIDs)) "duplicate encrypted vault object";
      match Decrypt vaultID vaultKey item with
      | Err _ => Err "one or more vault objects could not be decrypted"
      | Ok object =>
          _ ← reject_if (bool_decide (identity object ∈ seenIdentities)) "duplicate decrypted vault object";
          objects ← decrypt_each vaultID vaultKey ({[rec_ID item]} ∪ seenIDs) ({[identity object]} ∪ seenIdentities) rest;
          Ok (object :: objects)
      end
  end.

Definition DecryptAll (vaultID vaultKey : string) (encrypted : list Record_) : result (list VaultObject) :=
  objects ← decrypt_each vaultID vaultKey ∅ ∅ encrypted;
  Ok (merge_sort (order_by vo_Kind vo_Key) objects).

(** ** Properties *)

Lemma kind_char_not_nul c : kind_char c = true → c ≠ "000"%char.
Proof. by intros Hc ->. Qed.

(** A kind holds no zero byte, so the kind and the key can be read off the text
    that identifies them. *)
Lemma kind_key_inj kind key kind' key' :
  all_bytes kind_char kind = true → all_bytes kind_char kind' = true →
  kind +:+ nul +:+ key = kind' +:+ nul +:+ key' → kind = kind' ∧ key = key'.
Proof.
  revert kind'. unfold nul. induction kind as [|c kind IH]; intros [|c' kind']; rewrite ?string_app_cons, ?string_app_nil_l;
    cbn [all_bytes]; rewrite ?andb_true_iff.
  - by intros _ _ [= ->].
  - intros _ [Hc _] [= <- _]. by apply kind_char_not_nul in Hc.
  - intros [Hc _] _ [= -> _]. by apply kind_char_not_nul in Hc.
  - intros [_ Hk] [_ Hk'] [= -> H]. by destruct (IH kind' Hk Hk' H) as [-> ->].
Qed.

Lemma VaultObject_Validate_kind object : VaultObject_Validate object = Ok tt → all_bytes kind_char (vo_Kind object) = true.
Proof. unfold VaultObject_Validate. rewrite !reject_if_bind. intros (_ & H & _). by apply negb_false_iff in H. Qed.

Lemma VaultObject_Validate_revision object : VaultObject_Validate object = Ok tt → 0 < vo_Revision object.
Proof. unfold VaultObject_Validate. rewrite !reject_if_bind. intros (_ & _ & _ & H & _). lia. Qed.

Lemma Decrypt_fields vaultID vaultKey encrypted object :
  Decrypt vaultID vaultKey encrypted = Ok object →
  VaultObject_Validate object = Ok tt ∧ ID vaultKey (vo_Kind object) (vo_Key object) = rec_ID encrypted ∧
  vo_Revision object = rec_Revision encrypted ∧ vo_ModifiedAt object = rec_ModifiedAt encrypted.
Proof.
  unfold Decrypt. destruct (Open _ _ _) as [plaintext|]; [|done]. destruct (object_of_json plaintext) as [o|]; [|done].
  rewrite !reject_if_bind. intros (Hv & H & [= <-]). apply negb_false_iff, is_ok_true in Hv as [[] Hv].
  passed H. done.
Qed.

(** The second test for duplicates of the loop never fires: objects of one
    identity have one identifier. *)
Lemma decrypt_each_Ok vaultID vaultKey encrypted : ∀ ids identities objects,
  (∀ o, VaultObject_Validate o = Ok tt → identity o ∈ identities → ID vaultKey (vo_Kind o) (vo_Key o) ∈ ids) →
  decrypt_each vaultID vaultKey ids identities encrypted = Ok objects ↔
  NoDup (rec_ID <$> encrypted) ∧ (∀ item, item ∈ encrypted → rec_ID item ∉ ids) ∧
  Forall2 (λ item object, Decrypt vaultID vaultKey item = Ok object) encrypted objects.
Proof.
  induction encrypted as [|item rest IH]; intros ids identities objects Hids; cbn [decrypt_each].
  - split; [intros [= <-]; split_and!; [constructor|by intros ? ?%elem_of_nil|constructor]|].
    by intros (_ & _ & ->%Forall2_nil_inv_l).
  - rewrite reject_if_bind, bool_decide_eq_false, fmap_cons, NoDup_cons.
    destruct (Decrypt vaultID vaultKey item) as [object|] eqn:Ed.
    2: { split; [by intros [_ ?]|]. intros (_ & _ & (o & l & Eo & _ & ->)%Forall2_cons_inv_l). congruence. }
    destruct (Decrypt_fields _ _ _ _ Ed) as (Hv & Hid & _).
    assert (Hstep : ∀ o, VaultObject_Validate o = Ok tt → identity o ∈ {[identity object]} ∪ identities →
      ID vaultKey (vo_Kind o) (vo_Key o) ∈ {[rec_ID item]} ∪ ids).
    { intros o Ho [E%elem_of_singleton|Hin]%elem_of_union; [|by apply elem_of_union_r, Hids].
      apply kind_key_inj in E as [E1 E2]; [|by apply VaultObject_Validate_kind..].
      apply elem_of_union_l, elem_of_singleton. by rewrite E1, E2. }
    specialize (IH ({[rec_ID item]} ∪ ids) ({[identity object]} ∪ identities)). rewrite reject_if_bind, bool_decide_eq_false.
    rewrite bind_Ok. setoid_rewrite (λ l, IH l Hstep). split.
    + intros (Hni & _ & l & (Hnd & Hfresh & Hall) & [= <-]). split_and!; [|done| |by constructor].
      * intros (x & Ex & Hx)%list_elem_of_fmap. apply (Hfresh x Hx). rewrite <-Ex. set_solver.
      * intros x [->|Hx]%elem_of_cons; [done|]. specialize (Hfresh x Hx). set_solver.
    + intros ([Hni Hnd] & Hfresh & (o & l & Eo & Hall & ->)%Forall2_cons_inv_l).
      assert (o = object) as -> by congruence. pose proof (Hfresh item ltac:(by left)) as Hnot.
      split_and!; [done| |].
      * intros Hin. apply Hnot. rewrite <-Hid. by apply Hids.
      * exists l. split_and!; [done| |done|done]. intros x Hx.
        intros [E%elem_of_singleton|Hin]%elem_of_union; [|by eapply Hfresh; [right|]].
        apply Hni. rewrite <-E. by apply list_elem_of_fmap_2.
Qed.

Lemma Decrypt_Ok {laws : CipherLaws} vaultID vaultKey encrypted object :
  Decrypt vaultID vaultKey encrypted = Ok object ↔
  ∃ raw nonce, slen nonce = gcm_NonceSize ∧ aes_key vaultKey = true ∧
    blob_version (rec_Blob encrypted) = formatVersion ∧ decode (blob_nonce (rec_Blob encrypted)) = Some nonce ∧
    decode (blob_ciphertext (rec_Blob encrypted)) = Some (gcm_seal vaultKey nonce raw (aad vaultID (rec_ID encrypted))) ∧
    object_of_json raw = Some object ∧ VaultObject_Validate object = Ok tt ∧
    rec_ID encrypted = ID vaultKey (vo_Kind object) (vo_Key object) ∧ rec_Revision encrypted = vo_Revision object ∧
    rec_ModifiedAt encrypted = vo_ModifiedAt object.
Proof.
  split.
  - intros H. destruct (Decrypt_fields _ _ _ _ H) as (Hv & Hid & Hr & Hm). unfold Decrypt in H.
    destruct (Open _ _ _) as [raw|] eqn:Eo; [|done]. apply Open_Ok in Eo as (nonce & ? & ? & ? & ? & ?).
    destruct (object_of_json raw) as [o|] eqn:Ej; [|done]. rewrite !reject_if_bind in H. destruct H as (_ & _ & [= ->]).
    exists raw, nonce. by split_and!.
  - intros (raw & nonce & Hn & Hk & Hv & Hdn & Hc & Ej & Hval & Hid & Hr & Hm). unfold Decrypt.
    rewrite (proj2 (Open_Ok vaultKey (rec_Blob encrypted) _ raw)) by by exists nonce.
    by rewrite Ej, Hval, Hid, Hr, Hm, !String.eqb_refl, Z.eqb_refl.
Qed.

(** What is encrypted decrypts to itself, when the service shows its revision and
    time, and to nothing else. *)
Lemma Decrypt_Encrypt {laws : CipherLaws} nonce vaultID vaultKey object id blob :
  slen nonce = gcm_NonceSize →
  (∀ raw, object_json object = Ok raw → object_of_json raw = Some object) →
  Encrypt (Ok nonce) vaultID vaultKey object = Ok (id, blob) →
  Decrypt vaultID vaultKey {| rec_ID := id; rec_Revision := vo_Revision object; rec_Blob := blob;
    rec_ModifiedAt := vo_ModifiedAt object |} = Ok object.
Proof.
  intros Hn Hj H. unfold Encrypt in H. apply bind_Ok in H as ([] & Hv & H). apply bind_Ok in H as (raw & Er & H).
  apply bind_Ok in H as (b & Es & H). injection H as <- <-. unfold Decrypt. cbn [rec_Blob rec_ID rec_Revision rec_ModifiedAt].
  rewrite (Open_Seal _ _ _ _ _ Hn Es), (Hj raw Er), Hv. by rewrite !String.eqb_refl, Z.eqb_refl.
Qed.

Lemma Encrypt_id nonce vaultID vaultKey object id blob :
  Encrypt nonce vaultID vaultKey object = Ok (id, blob) → id = ID vaultKey (vo_Kind object) (vo_Key object).
Proof.
  intros H. unfold Encrypt in H. apply bind_Ok in H as (_ & _ & H). apply bind_Ok in H as (raw & _ & H).
  apply bind_Ok in H as (b & _ & H). by injection H as <- _.
Qed.

(** Whatever the service shows with the ciphertext of an object, it decrypts to
    that object or not at all. *)
Lemma Decrypt_only {laws : CipherLaws} nonce vaultID vaultKey object id blob revision modified object' :
  slen nonce = gcm_NonceSize →
  (∀ raw, object_json object = Ok raw → object_of_json raw = Some object) →
  Encrypt (Ok nonce) vaultID vaultKey object = Ok (id, blob) →
  Decrypt vaultID vaultKey {| rec_ID := id; rec_Revision := revision; rec_Blob := blob; rec_ModifiedAt := modified |} =
    Ok object' →
  object' = object.
Proof.
  intros Hn Hj H. unfold Encrypt in H. apply bind_Ok in H as ([] & Hv & H). apply bind_Ok in H as (raw & Er & H).
  apply bind_Ok in H as (b & Es & H). injection H as <- <-. unfold Decrypt. cbn [rec_Blob rec_ID rec_Revision rec_ModifiedAt].
  rewrite (Open_Seal _ _ _ _ _ Hn Es), (Hj raw Er), Hv. cbn [is_ok negb reject_if mbind result_bind].
  destruct (reject_if _ _); [|done]. by intros [= <-].
Qed.

Lemma Seal_nonce nonce key plaintext aad blob : Seal nonce key plaintext aad = Ok blob → is_ok nonce = true.
Proof. unfold Seal, check_aes_key. rewrite reject_if_bind. intros [_ H]. by destruct nonce. Qed.

Lemma sealed_nonce e vaultID vaultKey object r : Encrypt (Err e) vaultID vaultKey object = Ok r → False.
Proof.
  intros H. unfold Encrypt in H. apply bind_Ok in H as (_ & _ & H). apply bind_Ok in H as (raw & _ & H).
  apply bind_Ok in H as (b & Es & _). by apply Seal_nonce in Es.
Qed.

Lemma decrypted_once vaultID vaultKey encrypted l :
  NoDup (rec_ID <$> encrypted) → Forall2 (λ item object, Decrypt vaultID vaultKey item = Ok object) encrypted l →
  NoDup ((λ o, (vo_Kind o, vo_Key o)) <$> l).
Proof.
  intros Hnd Hall.
  assert (E : rec_ID <$> encrypted = (λ p, ID vaultKey p.1 p.2) <$> ((λ o, (vo_Kind o, vo_Key o)) <$> l)).
  { clear Hnd. induction Hall as [|item o enc l Hd _ IH]; [done|]. cbn. f_equal; [|done].
    by apply Decrypt_fields in Hd as (_ & -> & _). }
  rewrite E in Hnd. by apply NoDup_fmap_1 in Hnd.
Qed.

(** C15: what a vault's objects decrypt to.  The list decrypts exactly when its
    identifiers are distinct and each item decrypts, which is when it is, byte for
    byte, the sealing for this vault and this identifier of a valid object whose
    kind and key have this identifier and whose revision and time are those that
    the service shows; and the objects come ordered by kind and key, each pair
    once. *)
Theorem DecryptAll_exact {laws : CipherLaws} vaultID vaultKey encrypted objects :
  DecryptAll vaultID vaultKey encrypted = Ok objects ↔
  NoDup (rec_ID <$> encrypted) ∧
  (∃ l, Forall2 (λ item object, ∃ raw nonce, slen nonce = gcm_NonceSize ∧ aes_key vaultKey = true ∧
       blob_version (rec_Blob item) = formatVersion ∧ decode (blob_nonce (rec_Blob item)) = Some nonce ∧
       decode (blob_ciphertext (rec_Blob item)) = Some (gcm_seal vaultKey nonce raw (aad vaultID (rec_ID item))) ∧
       object_of_json raw = Some object ∧ VaultObject_Validate object = Ok tt ∧
       rec_ID item = ID vaultKey (vo_Kind object) (vo_Key object) ∧ rec_Revision item = vo_Revision object ∧
       rec_ModifiedAt item = vo_ModifiedAt object) encrypted l ∧ objects ≡ₚ l) ∧
  StronglySorted (order_by vo_Kind vo_Key) objects ∧ NoDup ((λ o, (vo_Kind o, vo_Key o)) <$> objects).
Proof.
  unfold DecryptAll. rewrite bind_Ok.
  setoid_rewrite (λ l, decrypt_each_Ok vaultID vaultKey encrypted ∅ ∅ l ltac:(set_solver)). split.
  - intros (l & (Hnd & _ & Hall) & [= <-]). split; [done|]. split; [|split].
    + exists l. split; [|apply merge_sort_Permutation]. eapply Forall2_impl; [exact Hall|]. intros ? ?. by rewrite Decrypt_Ok.
    + apply (StronglySorted_merge_sort _).
    + rewrite merge_sort_Permutation. by eapply decrypted_once.
  - intros (Hnd & (l & Hall & Hp) & Hs & _).
    assert (Hdec : Forall2 (λ item object, Decrypt vaultID vaultKey item = Ok object) encrypted l)
      by (eapply Forall2_impl; [exact Hall|]; intros ? ?; by rewrite Decrypt_Ok).
    exists l. split; [split_and!; [done|set_solver|done]|]. f_equal.
    apply (StronglySorted_unique_strong (order_by vo_Kind vo_Key)).
    + intros x y Hx Hy Hxy Hyx. rewrite merge_sort_Permutation in Hx. rewrite Hp in Hy.
      apply (NoDup_fmap_inj_on (λ o, (vo_Kind o, vo_Key o)) l); [by eapply decrypted_once|done|done|].
      by apply order_by_both.
    + apply (StronglySorted_merge_sort _).
    + done.
    + by rewrite merge_sort_Permutation, Hp.
Qed.
End Objects.

(** ** The property, applied *)

Import Toy.

#[local] Instance example_crypto : Crypto := {| sha256 := id; ed25519_verify := λ _ _ _, true; x25519_usable := λ _, true |}.

Definition object_text (o : VaultObject) : string :=
  to_text (vo_Kind o, vo_Key o, vo_Revision o, vo_ModifiedAt o, vo_Payload o).
Definition object_of_text (s : string) : option VaultObject :=
  '(kind, key, revision, modified, payload) ← of_text s;
  Some {| vo_Kind := kind; vo_Key := key; vo_Revision := revision; vo_ModifiedAt := modified; vo_Payload := payload |}.
#[export] Instance example_objects : ObjectCodec :=
  {| object_json := λ o, Ok (object_text o); object_of_json := object_of_text; json_Valid := λ _, true |}.

Lemma example_objects_law o raw : object_json o = Ok raw → object_of_json raw = Some o.
Proof. intros [= <-]. cbn. unfold object_of_text, object_text. rewrite of_to_text. by destruct o. Qed.

Definition example_key : string := Toy.zeros 32.
Definition example_object (key : string) (revision : Z) : VaultObject :=
  {| vo_Kind := "provider-plan"; vo_Key := key; vo_Revision := revision; vo_ModifiedAt := "2026-08-09T20:00:00Z"; vo_Payload := "{}" |}.
Definition example_sealed (key : string) (revision : Z) : Record_ :=
  match Encrypt (Ok (Toy.zeros 12)) "v" example_key (example_object key revision) with
  | Ok (id, blob) => {| rec_ID := id; rec_Revision := revision; rec_Blob := blob; rec_ModifiedAt := "2026-08-09T20:00:00Z" |}
  | Err _ => {| rec_ID := ""; rec_Revision := 0; rec_Blob := {| blob_version := 0; blob_nonce := ""; blob_ciphertext := "" |};
      rec_ModifiedAt := "" |}
  end.

Example decrypt_two : DecryptAll "v" example_key [example_sealed "b" 2; example_sealed "a" 7] =
  Ok [example_object "a" 7; example_object "b" 2].
Proof. vm_compute. reflexivity. Qed.

Example decrypt_other_vault : DecryptAll "w" example_key [example_sealed "b" 2] =
  Err "one or more vault objects could not be decrypted".
Proof. vm_compute. reflexivity. Qed.

Lemma DecryptAll_exact_witness :
  NoDup (rec_ID <$> [example_sealed "b" 2; example_sealed "a" 7]) ∧
  StronglySorted (order_by vo_Kind vo_Key) [example_object "a" 7; example_object "b" 2].
Proof.
  destruct (proj1 (DecryptAll_exact "v" example_key [example_sealed "b" 2; example_sealed "a" 7]
    [example_object "a" 7; example_object "b" 2]) decrypt_two) as (Hnd & _ & Hs & _). by split.
Defined.
