(* ===== verification/ServerState.v ===== *)
(** The tables of the sync service (the schema of internal/server/server.go,
    events.go and invitations.go) and the statements that read and write them.

    A table is a finite map from its primary key to the other columns; the
    event table is a list in the order of its AUTOINCREMENT sequence.  A
    statement is a function from the tables to the tables and the number of
    rows it affected, or [None] when a constraint of the schema refuses it. *)
From S2P Require Import Prelude Base64 Timestamp Text Secure Protocol.
From stdpp Require Import options.

(** ** Rows *)

Record VaultRow := { v_name : string; v_created_at : string }.

(** [revoked_at] is NULL while the device is active. *)
Record DeviceRow := { d_device : PublicDevice; d_revoked_at : option string }.

Record EnrollmentRow := {
  e_device : PublicDevice; e_approved : bool; e_envelope : option WrappedKey;
}.

Record InvitationRow := {
  i_protocol_version : Z; i_state : InvitationState; i_expires_at : string;
  i_failed_attempts : Z; i_terminal_at : option string; i_terminal_actor : option string;
}.

Record RecordRow := { r_revision : Z; r_blob : Blob; r_modified_at : string }.

Record EventRow := {
  ev_sequence : Z; ev_id : string; ev_vault : string; ev_timestamp : string;
  ev_identity : option string; ev_verified : bool; ev_target : option string;
  ev_operation : string; ev_outcome : string; ev_reason : option string;
}.

Record Db := MkDb {
  vaults : gmap string VaultRow;
  devices : gmap (string * string) DeviceRow;
  enrollments : gmap (string * string) EnrollmentRow;
  invitations : gmap (string * string) InvitationRow;
  records : gmap (string * string) RecordRow;
  vault_objects : gmap (string * string) RecordRow;
  nonces : gmap (string * string * string) string;
  access_events : list EventRow;
  event_sequence : Z;
}.

Definition empty_db : Db := MkDb ∅ ∅ ∅ ∅ ∅ ∅ ∅ [] 0.

Definition with_vaults (m : gmap string VaultRow) (db : Db) : Db :=
  MkDb m (devices db) (enrollments db) (invitations db) (records db) (vault_objects db) (nonces db)
    (access_events db) (event_sequence db).
Definition with_devices (m : gmap (string * string) DeviceRow) (db : Db) : Db :=
  MkDb (vaults db) m (enrollments db) (invitations db) (records db) (vault_objects db) (nonces db)
    (access_events db) (event_sequence db).
Definition with_enrollments (m : gmap (string * string) EnrollmentRow) (db : Db) : Db :=
  MkDb (vaults db) (devices db) m (invitations db) (records db) (vault_objects db) (nonces db)
    (access_events db) (event_sequence db).
Definition with_invitations (m : gmap (string * string) InvitationRow) (db : Db) : Db :=
  MkDb (vaults db) (devices db) (enrollments db) m (records db) (vault_objects db) (nonces db)
    (access_events db) (event_sequence db).
Definition with_records (m : gmap (string * string) RecordRow) (db : Db) : Db :=
  MkDb (vaults db) (devices db) (enrollments db) (invitations db) m (vault_objects db) (nonces db)
    (access_events db) (event_sequence db).
Definition with_vault_objects (m : gmap (string * string) RecordRow) (db : Db) : Db :=
  MkDb (vaults db) (devices db) (enrollments db) (invitations db) (records db) m (nonces db)
    (access_events db) (event_sequence db).
Definition with_nonces (m : gmap (string * string * string) string) (db : Db) : Db :=
  MkDb (vaults db) (devices db) (enrollments db) (invitations db) (records db) (vault_objects db) m
    (access_events db) (event_sequence db).
Definition with_events (l : list EventRow) (seq : Z) (db : Db) : Db :=
  MkDb (vaults db) (devices db) (enrollments db) (invitations db) (records db) (vault_objects db)
    (nonces db) l seq.

(** ** Statements *)

Definition Statement : Type := Db → option (Db * Z).

(** INSERT of a row whose primary key must be new. *)
Definition insert_new `{Countable K} {V} (get : Db → gmap K V) (set : gmap K V → Db → Db)
    (k : K) (v : V) : Statement := λ db,
  match get db !! k with
  | Some _ => None
  | None => Some (set (<[k := v]> (get db)) db, 1)
  end.

(** UPDATE of the row with the given key, when it satisfies the condition. *)
Definition update_where `{Countable K} {V} (get : Db → gmap K V) (set : gmap K V → Db → Db)
    (k : K) (cond : V → bool) (f : V → V) : Statement := λ db,
  match get db !! k with
  | Some v => if cond v then Some (set (<[k := f v]> (get db)) db, 1) else Some (db, 0)
  | None => Some (db, 0)
  end.

Definition insert_vault (id name created_at : string) : Statement :=
  insert_new vaults with_vaults id {| v_name := name; v_created_at := created_at |}.

Definition insert_device (vault : string) (device : PublicDevice) : Statement :=
  insert_new devices with_devices (vault, dev_ID device) {| d_device := device; d_revoked_at := None |}.

Definition insert_enrollment (vault : string) (device : PublicDevice) : Statement :=
  insert_new enrollments with_enrollments (vault, dev_ID device)
    {| e_device := device; e_approved := false; e_envelope := None |}.

Definition insert_invitation (vault device : string) (version : Z) (expires_at : string) : Statement :=
  insert_new invitations with_invitations (vault, device)
    {| i_protocol_version := version; i_state := InvitationPending; i_expires_at := expires_at;
       i_failed_attempts := 0; i_terminal_at := None; i_terminal_actor := None |}.

(** The CHECK of the record and object tables: [revision > 0]. *)
Definition insert_revision (get : Db → gmap (string * string) RecordRow)
    (set : gmap (string * string) RecordRow → Db → Db) (vault id : string) (row : RecordRow) : Statement :=
  λ db, if r_revision row <=? 0 then None else insert_new get set (vault, id) row db.

Definition update_revision (get : Db → gmap (string * string) RecordRow)
    (set : gmap (string * string) RecordRow → Db → Db) (vault id : string) (current : Z)
    (row : RecordRow) : Statement := λ db,
  if r_revision row <=? 0 then None
  else update_where get set (vault, id) (λ old, r_revision old =? current) (λ _, row) db.

Definition delete_object (vault id : string) (expected : Z) : Statement := λ db,
  match vault_objects db !! (vault, id) with
  | Some row =>
      if r_revision row =? expected
      then Some (with_vault_objects (delete (vault, id) (vault_objects db)) db, 1) else Some (db, 0)
  | None => Some (db, 0)
  end.

(** INSERT ... ON CONFLICT DO NOTHING *)
Definition insert_nonce (vault device nonce created_at : string) : Statement := λ db,
  match nonces db !! (vault, device, nonce) with
  | Some _ => Some (db, 0)
  | None => Some (with_nonces (<[(vault, device, nonce) := created_at]> (nonces db)) db, 1)
  end.

Definition delete_old_nonces (cutoff : string) : Statement := λ db,
  Some (with_nonces (filter (λ kv, str_lt kv.2 cutoff = false) (nonces db)) db, 0).

Definition delete_device_nonces (vault device : string) : Statement := λ db,
  Some (with_nonces (filter (λ kv, kv.1.1 ≠ (vault, device)) (nonces db)) db, 0).

Definition is_active (row : DeviceRow) : bool :=
  match d_revoked_at row with None => true | Some _ => false end.

Definition revoke_device_row (vault device revoked_at : string) : Statement :=
  update_where devices with_devices (vault, device) is_active
    (λ row, {| d_device := d_device row; d_revoked_at := Some revoked_at |}).

Definition approve_enrollment_row (vault device : string) (envelope : WrappedKey) : Statement :=
  update_where enrollments with_enrollments (vault, device) (λ row, negb (e_approved row))
    (λ row, {| e_device := e_device row; e_approved := true; e_envelope := Some envelope |}).

Definition is_pending (row : InvitationRow) : bool := bool_decide (i_state row = InvitationPending).

(** UPDATE invitations SET state, terminal_at, terminal_actor WHERE state = 'pending' *)
Definition end_invitation (vault device : string) (state : InvitationState)
    (terminal_at actor : string) : Statement :=
  update_where invitations with_invitations (vault, device) is_pending
    (λ row, {| i_protocol_version := i_protocol_version row; i_state := state;
       i_expires_at := i_expires_at row; i_failed_attempts := i_failed_attempts row;
       i_terminal_at := Some terminal_at; i_terminal_actor := Some actor |}).

(** UPDATE invitations SET failed_attempts, state, ... WHERE state = 'pending',
    with the CHECK that the attempts are between 0 and 5. *)
Definition count_attempt (vault device : string) (attempts : Z) (state : InvitationState)
    (terminal_at actor : option string) : Statement := λ db,
  if (attempts <? 0) || (5 <? attempts) then None
  else update_where invitations with_invitations (vault, device) is_pending
    (λ row, {| i_protocol_version := i_protocol_version row; i_state := state;
       i_expires_at := i_expires_at row; i_failed_attempts := attempts;
       i_terminal_at := terminal_at; i_terminal_actor := actor |}) db.

(** ** Access events *)

Definition event_operations : list string :=
  ["enrollment_request"; "enrollment_list"; "enrollment_status"; "enrollment_approval";
   "device_list"; "device_revocation"; "record_list"; "record_update"; "event_list";
   "invitation_creation"; "invitation_list"; "invitation_status"; "invitation_approval";
   "invitation_rejection"; "invitation_cancellation"; "invitation_expiry"; "object_list";
   "object_read"; "object_update"; "object_delete"].

Definition event_outcomes : list string := ["succeeded"; "rejected"; "denied"].

Definition event_reasons : list string :=
  ["invalid_signature"; "stale_timestamp"; "replay"; "revoked_device"; "pending_device";
   "invalid_request"; "unknown_device"; "not_found"; "revision_conflict"; "already_revoked";
   "already_approved"; "final_active_device"; "binding_mismatch"; "terminal_conflict";
   "attempt_exhaustion"; "incorrect_actor"; "unsupported_version"; "expired"].

(** The CHECK constraints of the event table. *)
Definition event_checks (e : EventRow) : bool :=
  bool_decide (ev_operation e ∈ event_operations) && bool_decide (ev_outcome e ∈ event_outcomes) &&
  match ev_reason e with None => true | Some r => bool_decide (r ∈ event_reasons) end.

(** INSERT INTO access_events: the sequence is the next one, above every
    sequence ever used; the id is UNIQUE. *)
Definition insert_event (e : Z → EventRow) : Statement := λ db,
  let seq := event_sequence db + 1 in
  if (max_int64 <? seq) || negb (event_checks (e seq)) ||
     existsb (λ old, String.eqb (ev_id old) (ev_id (e seq))) (access_events db) then None
  else Some (with_events (access_events db ++ [e seq]) seq db, 1).

Definition prune_old (vault cutoff : string) : Statement := λ db,
  Some (with_events
    (filter (λ e, ¬ (ev_vault e = vault ∧ str_lt (ev_timestamp e) cutoff = true)) (access_events db))
    (event_sequence db) db, 0).

Definition of_class (vault : string) (verified : bool) (e : EventRow) : bool :=
  String.eqb (ev_vault e) vault && Bool.eqb (ev_verified e) verified.

(** SELECT sequence ... ORDER BY sequence DESC LIMIT limit *)
Definition newest (vault : string) (verified : bool) (limit : nat) (l : list EventRow) : list Z :=
  take limit (reverse (ev_sequence <$> filter (λ e, of_class vault verified e = true) l)).

Definition prune_excess (vault : string) (verified : bool) (limit : nat) : Statement := λ db,
  Some (with_events
    (filter (λ e, of_class vault verified e = false ∨
       ev_sequence e ∈ newest vault verified limit (access_events db)) (access_events db))
    (event_sequence db) db, 0).

(** ** Queries *)

(** SELECT 1 FROM vaults WHERE id = ? *)
Definition vault_row (vault : string) (db : Db) : option VaultRow := vaults db !! vault.

(** A device as a query returns it: its id is the one of the key columns. *)
Definition named (id : string) (device : PublicDevice) : PublicDevice :=
  {| dev_ID := id; dev_Name := dev_Name device; dev_SigningPublic := dev_SigningPublic device;
     dev_WrappingPublic := dev_WrappingPublic device; dev_Fingerprint := dev_Fingerprint device;
     dev_CreatedAt := dev_CreatedAt device |}.

(** The device with its revocation time as text: empty when it is active. *)
Definition device_status (id : string) (row : DeviceRow) : DeviceStatus :=
  {| ds_Device := named id (d_device row); ds_RevokedAt := default "" (d_revoked_at row) |}.

Definition select_device (vault device : string) (activeOnly : bool) (db : Db) : option DeviceStatus :=
  row ← devices db !! (vault, device);
  if activeOnly && negb (is_active row) then None else Some (device_status device row).

Definition count_active (vault : string) (db : Db) : Z :=
  Z.of_nat (size (filter (λ kv, kv.1.1 = vault ∧ is_active kv.2 = true) (devices db))).

(** [revoked_at] of the device with the same key, in the LEFT JOIN. *)
Definition joined_revocation (vault device : string) (db : Db) : string :=
  default "" (row ← devices db !! (vault, device); d_revoked_at row).

Definition enrollment_status (vault device : string) (row : EnrollmentRow) (db : Db) : EnrollmentStatus :=
  {| es_Device := named device (e_device row); es_Approved := e_approved row; es_Envelope := e_envelope row;
     es_RevokedAt := joined_revocation vault device db |}.

Definition select_enrollment (vault device : string) (db : Db) : option EnrollmentStatus :=
  row ← enrollments db !! (vault, device); Some (enrollment_status vault device row db).

(** The rows of one vault: [WHERE vault_id = ?]. *)
Definition of_vault {V} (vault : string) (m : gmap (string * string) V) : list (string * V) :=
  omap (λ '((v, id), row), if String.eqb v vault then Some (id, row) else None) (map_to_list m).

Definition to_record (idrow : string * RecordRow) : Record_ :=
  {| rec_ID := idrow.1; rec_Revision := r_revision idrow.2; rec_Blob := r_blob idrow.2;
     rec_ModifiedAt := r_modified_at idrow.2 |}.

Definition select_revision (get : Db → gmap (string * string) RecordRow) (vault id : string) (db : Db) :
    option Z := r_revision <$> get db !! (vault, id).
