(* ===== verification/ServerTx.v ===== *)
(** The running service: requests and replies, the transaction of a request,
    and the steps every handler of internal/server shares (begin, commit, the
    access log, the authentication of a device).

    A handler is a computation on the world: the committed tables, the tables
    as the open transaction sees them, and a counter of the effects performed.
    The counter indexes the oracles of the environment (the clock, the faults
    of the database, the random bytes), so that a theorem about every
    environment covers every failure at every point.  The service holds one
    connection and opens its transactions with an immediate lock, so the
    transactions of two requests never interleave. *)
From S2P Require Import Prelude Base64 Timestamp Text Secure Protocol ServerState.
From stdpp Require Import options.

(** ** Environment *)

(** [cut n = Some k] when the rows of the query that is effect [n] end with an
    error after [k] of them. *)
Class Env := {
  clock : nat → Z;
  fault : nat → bool;
  cut : nat → option nat;
  entropy : nat → option string;
}.

(** [json.Unmarshal] of a request body, and [decodeStrictJSON] of the
    invitation bodies; [json_strict_*] refuse unknown fields and a second
    value. *)
Class Wire := {
  json_CreateVaultRequest : string → option CreateVaultRequest;
  json_EnrollmentRequest : string → option EnrollmentRequest;
  json_EnrollmentApproval : string → option WrappedKey;
  json_PutRecordRequest : string → option PutRecordRequest;
  json_PutVaultObjectRequest : string → option PutVaultObjectRequest;
  json_DeleteVaultObjectRequest : string → option Z;
  json_strict_InvitationRequest : string → option InvitationRequest;
  json_strict_InvitationApproval : string → option InvitationApprovalBody;
  json_strict_InvitationTransition : string → option InvitationTransition;
}.

(** ** Requests and replies *)

(** [r_path] is the decoded path, [r_uri] the request URI as it was sent,
    [r_query] the first value of a query parameter; [r_body_fails] when the
    connection breaks while the body is read. *)
Record Request := {
  r_method : string; r_path : string; r_uri : string; r_query : string → string;
  r_header : string → string; r_body : string; r_body_fails : bool;
}.

Definition HeaderDevice : string := "X-EnvBank-Device".
Definition HeaderTimestamp : string := "X-EnvBank-Timestamp".
Definition HeaderNonce : string := "X-EnvBank-Nonce".
Definition HeaderSignature : string := "X-EnvBank-Signature".

Inductive Body :=
| BNone
| BError (message : string)
| BStatus (status : string)
| BVault (vault device : string)
| BEnrollment (status : EnrollmentStatus)
| BEnrollments (l : list EnrollmentStatus)
| BDevice (status : DeviceStatus)
| BDevices (l : list DeviceStatus)
| BRecord (record : Record_)
| BRecords (l : list Record_)
| BInvitation (status : InvitationStatus)
| BInvitations (l : list InvitationStatus)
| BEvents (l : list AccessEvent) (next_cursor : string).

Record Response := { status : Z; payload : Body }.

Definition StatusOK : Z := 200.
Definition StatusCreated : Z := 201.
Definition StatusNoContent : Z := 204.
Definition StatusBadRequest : Z := 400.
Definition StatusUnauthorized : Z := 401.
Definition StatusNotFound : Z := 404.
Definition StatusConflict : Z := 409.
Definition StatusInternalServerError : Z := 500.

Definition maxBytes : Z := 1048576.

(** ** Handlers *)

Record World := MkWorld { committed : Db; pending : Db; effects : nat }.

(** A handler continues with a value, or has written its reply. *)
Inductive outcome (A : Type) :=
| Next (a : A) (w : World)
| Reply (r : Response) (w : World).
Arguments Next {_} _ _.
Arguments Reply {_} _ _.

Definition Handler (A : Type) : Type := World → outcome A.

#[export] Instance handler_ret : MRet Handler := λ A a w, Next a w.
#[export] Instance handler_bind : MBind Handler := λ A B f m w,
  match m w with Next a w => f a w | Reply r w => Reply r w end.

Definition tick (w : World) : World := MkWorld (committed w) (pending w) (S (effects w)).
Definition with_pending (db : Db) (w : World) : World := MkWorld (committed w) db (effects w).
Definition with_committed (db : Db) (w : World) : World := MkWorld db (pending w) (effects w).

Definition writeJSON {A} (code : Z) (value : Body) : Handler A :=
  λ w, Reply {| status := code; payload := value |} w.
Definition writeError {A} (code : Z) (message : string) : Handler A :=
  writeJSON code (BError message).
Definition writePersistError {A} : Handler A :=
  writeError StatusInternalServerError "could not persist state".

(** [if c { writeError(...); return }] *)
Definition error_if (c : bool) (code : Z) (message : string) : Handler unit :=
  if c then writeError code message else mret tt.

Section Tx.
Context `{!Env}.

(** [s.now()] *)
Definition s_now : Handler Z := λ w, Next (clock (effects w)) (tick w).

(** [tx.Exec]: the number of rows, or an error that leaves the tables alone. *)
Definition exec (stmt : Statement) : Handler (option Z) := λ w,
  if fault (effects w) then Next None (tick w)
  else match stmt (pending w) with
       | None => Next None (tick w)
       | Some (db, n) => Next (Some n) (with_pending db (tick w))
       end.

(** The result of [QueryRow(...).Scan(...)]. *)
Inductive row (A : Type) :=
| Found (a : A)
| NoRows
| QueryError.
Arguments Found {_} _.
Arguments NoRows {_}.
Arguments QueryError {_}.

Definition queryRow {A} (f : Db → option A) : Handler (row A) := λ w,
  if fault (effects w) then Next QueryError (tick w)
  else match f (pending w) with
       | None => Next NoRows (tick w)
       | Some a => Next (Found a) (tick w)
       end.

(** [if err != nil { writePersistError(w); return }] *)
Definition must {A} (m : Handler (option A)) : Handler A :=
  r ← m; match r with Some a => mret a | None => writePersistError end.

(** [tx.Query] with the loop that scans its rows and the test of [rows.Err()]. *)
Definition query {A} (f : Db → A) : Handler A := λ w,
  if fault (effects w) || bool_decide (is_Some (cut (effects w))) then writePersistError (tick w)
  else Next (f (pending w)) (tick w).

(** The same without the test of [rows.Err()]: the rows may end early. *)
Definition query_unchecked {A} (f : Db → list A) : Handler (list A) := λ w,
  if fault (effects w) then writePersistError (tick w)
  else Next (match cut (effects w) with
             | Some k => take k (f (pending w))
             | None => f (pending w)
             end) (tick w).

Definition begin : Handler unit := λ w,
  if fault (effects w) then writePersistError (tick w)
  else Next tt (with_pending (committed w) (tick w)).

Definition rollback : Handler unit := λ w, Next tt (with_pending (committed w) w).

(** [tx.Commit]: a transaction that fails to commit is rolled back. *)
Definition tx_commit : Handler bool := λ w,
  if fault (effects w) then Next false (tick w)
  else Next true (with_committed (pending w) (tick w)).

Definition commit : Handler unit :=
  ok ← tx_commit; if ok : bool then mret tt else writePersistError.

(** The text of eighteen random bytes. *)
Definition randomID : Handler (option string) := λ w,
  Next (encode <$> entropy (effects w)) (tick w).

Definition randomID_or_500 : Handler string :=
  id ← randomID;
  match id with
  | Some id => mret id
  | None => writeError StatusInternalServerError "randomness unavailable"
  end.

(** [io.ReadAll(io.LimitReader(r.Body, limit+1))] with the length test. *)
Definition readLimitedBody (r : Request) : option string :=
  if r_body_fails r || (maxBytes <? slen (r_body r)) then None else Some (r_body r).

Definition readBody (r : Request) : Handler string :=
  match readLimitedBody r with
  | Some body => mret body
  | None => writeError StatusBadRequest "request body is too large"
  end.

Definition decodeJSON {A} (r : Request) (json : string → option A) : Handler A :=
  raw ← readBody r;
  match json raw with
  | Some a => mret a
  | None => writeError StatusBadRequest "invalid JSON"
  end.

(** ** The access log *)

Definition eventMaxAge : Z := 90 * 24 * hour.
Definition maxVerifiedEvents : nat := Z.to_nat 10000.
Definition maxUnverifiedEvents : nat := Z.to_nat 2000.

Record eventDetails := {
  identityID : string; identityVerified : bool; targetIdentityID : string;
  operation : string; outcome_ : string; reason : string;
}.

Definition nullable (s : string) : option string := if String.eqb s "" then None else Some s.

Definition event_row (id vault timestamp : string) (e : eventDetails) (sequence : Z) : EventRow :=
  {| ev_sequence := sequence; ev_id := id; ev_vault := vault; ev_timestamp := timestamp;
     ev_identity := nullable (identityID e); ev_verified := identityVerified e;
     ev_target := nullable (targetIdentityID e); ev_operation := operation e;
     ev_outcome := outcome_ e; ev_reason := nullable (reason e) |}.

(** The result of an operation that returns an [error]: whether it is nil. *)
Definition pruneAccessEvents (vault : string) (now : Z) : Handler bool :=
  let cutoff := format_rfc3339nano (now - eventMaxAge) in
  r ← exec (prune_old vault cutoff);
  match r with
  | None => mret false
  | Some _ =>
      r ← exec (prune_excess vault true maxVerifiedEvents);
      match r with
      | None => mret false
      | Some _ =>
          r ← exec (prune_excess vault false maxUnverifiedEvents);
          mret (match r with None => false | Some _ => true end)
      end
  end.

Definition insertAccessEvent (vault : string) (event : eventDetails) : Handler bool :=
  id ← randomID;
  match id with
  | None => mret false
  | Some id =>
      now ← s_now;
      r ← exec (insert_event (event_row id vault (format_rfc3339nano now) event));
      match r with
      | None => mret false
      | Some _ => pruneAccessEvents vault now
      end
  end.

Definition finishEvent (vault : string) (event : eventDetails) : Handler unit :=
  ok ← insertAccessEvent vault event;
  if ok : bool then commit else writePersistError.

Record authenticatedRequest := { auth_identityID : string; auth_operation : string }.

(** The event of an authenticated request. *)
Definition auth_event (auth : authenticatedRequest) (target outcome_ reason : string) : eventDetails :=
  {| identityID := auth_identityID auth; identityVerified := true; targetIdentityID := target;
     operation := auth_operation auth; outcome_ := outcome_; reason := reason |}.

Definition rejectEvent {A} (vault : string) (auth : authenticatedRequest) (target : string)
    (code : Z) (message reason : string) : Handler A :=
  _ ← finishEvent vault (auth_event auth target "rejected" reason);
  writeError code message.

Definition authenticationFailure {A} (vault : string) (event : eventDetails) (verified : bool)
    (code : Z) (message : string) : Handler A :=
  ok ← insertAccessEvent vault event;
  if negb ok then
    _ ← rollback;
    if verified then writePersistError else writeError code message
  else
    ok ← tx_commit;
    if negb ok && verified then writePersistError else writeError code message.

Definition bestEffort {A} (vault : string) (event : eventDetails) (code : Z) (message : string) : Handler A :=
  ok ← insertAccessEvent vault event;
  if negb ok then _ ← rollback; writeError code message
  else _ ← tx_commit; writeError code message.

Definition bestEffortPublicRejection {A} (vault : string) (code : Z) (message : string) : Handler A :=
  bestEffort vault
    {| identityID := ""; identityVerified := false; targetIdentityID := "";
       operation := "enrollment_request"; outcome_ := "rejected"; reason := "invalid_request" |}
    code message.

Definition bestEffortInvitationCreationRejection {A} (vault message : string) : Handler A :=
  let reason := if String.eqb message "unsupported invitation version"
    then "unsupported_version" else "invalid_request" in
  bestEffort vault
    {| identityID := ""; identityVerified := false; targetIdentityID := "";
       operation := "invitation_creation"; outcome_ := "rejected"; reason := reason |}
    StatusBadRequest message.
End Tx.
Arguments Found {_} _.
Arguments NoRows {_}.
Arguments QueryError {_}.

(** ** Devices *)

Section Authentication.
Context `{!Crypto, !Env}.

Definition vaultExists (vault : string) : Handler bool :=
  r ← queryRow (vault_row vault);
  mret (match r with Found _ => true | _ => false end).

Definition getDeviceStatusTx (vault device : string) (activeOnly : bool) : Handler (row DeviceStatus) :=
  queryRow (select_device vault device activeOnly).

Definition getEnrollmentTx (vault device : string) : Handler (row EnrollmentStatus) :=
  queryRow (select_enrollment vault device).

Definition insertDevice (vault : string) (device : PublicDevice) : Handler unit :=
  _ ← must (exec (insert_device vault device)); mret tt.

Definition validPublicDeviceKeys (signingPublic wrappingPublic : string) : bool :=
  is_ok (ValidatePublicDeviceKeys signingPublic wrappingPublic).

(** The device that a request claims to come from, with the reason why its
    requests are refused, if they are: a registered device, or one that has
    asked for enrollment. *)
Definition claimedDevice (vault claimedID : string) (allowPending : bool) :
    Handler (option (PublicDevice * string)) :=
  status ← getDeviceStatusTx vault claimedID false;
  match status with
  | Found status =>
      mret (Some (ds_Device status, if nonempty (ds_RevokedAt status) then "revoked_device" else ""))
  | QueryError => writePersistError
  | NoRows =>
      enrollment ← getEnrollmentTx vault claimedID;
      match enrollment with
      | Found enrollment => mret (Some (es_Device enrollment, if allowPending then "" else "pending_device"))
      | QueryError => writePersistError
      | NoRows => mret None
      end
  end.

Definition denied (identity : string) (verified : bool) (operation reason : string) : eventDetails :=
  {| identityID := identity; identityVerified := verified; targetIdentityID := "";
     operation := operation; outcome_ := "denied"; reason := reason |}.

(** The message that the signature of a request covers. *)
Definition requestMessage (r : Request) (body : string) : string :=
  SignatureMessage (r_method r) (r_uri r) (r_header r HeaderTimestamp) (r_header r HeaderNonce) body.

Definition authenticateDevice (r : Request) (vault body operation : string) (allowPending : bool) :
    Handler authenticatedRequest :=
  exists_ ← vaultExists vault;
  _ ← error_if (negb exists_) StatusNotFound "vault not found";
  claimed ← claimedDevice vault (r_header r HeaderDevice) allowPending;
  let unknown := authenticationFailure vault (denied "" false operation "unknown_device") false
    StatusUnauthorized "unknown device" in
  match claimed with
  | None => unknown
  | Some (device, authorizationReason) =>
      if String.eqb (dev_ID device) "" then unknown else
      let timestamp := r_header r HeaderTimestamp in
      let nonce := r_header r HeaderNonce in
      let signature := r_header r HeaderSignature in
      if String.eqb signature "" || negb (Verify (dev_SigningPublic device) (requestMessage r body) signature)
      then authenticationFailure vault (denied (dev_ID device) false operation "invalid_signature") false
             StatusUnauthorized "invalid request signature"
      else
        serverNow ← s_now;
        if negb (is_ok (ValidateTimestamp timestamp serverNow)) || negb (is_ok (ValidateNonce nonce))
        then authenticationFailure vault (denied (dev_ID device) true operation "stale_timestamp") true
               StatusUnauthorized "invalid authentication headers"
        else
          inserted ← must (exec (insert_nonce vault (dev_ID device) nonce (format_rfc3339 serverNow)));
          if inserted =? 0
          then authenticationFailure vault (denied (dev_ID device) true operation "replay") true
                 StatusUnauthorized "replayed request"
          else
            _ ← must (exec (delete_old_nonces (format_rfc3339 (serverNow - 10 * minute))));
            if nonempty authorizationReason
            then authenticationFailure vault (denied (dev_ID device) true operation authorizationReason) true
                   StatusUnauthorized "unknown device"
            else mret {| auth_identityID := dev_ID device; auth_operation := operation |}
  end.

Definition actorIsActive (vault device : string) : Handler bool :=
  r ← getDeviceStatusTx vault device true;
  mret (match r with Found _ => true | _ => false end).
End Authentication.
