(* ===== verification/ServerVault.v ===== *)
(** The handlers of vaults, enrollments, devices, records and encrypted vault
    objects: internal/server/server.go. *)
From S2P Require Import Prelude Base64 Timestamp Text Secure Protocol ServerState ServerTx.
From stdpp Require Import options.

Section Handlers.
Context `{!Crypto, !Env, !Wire}.

(** ** Vaults and enrollments *)

Definition new_device (id name signingPublic wrappingPublic createdAt : string) : PublicDevice :=
  {| dev_ID := id; dev_Name := name; dev_SigningPublic := signingPublic;
     dev_WrappingPublic := wrappingPublic;
     dev_Fingerprint := PublicFingerprint signingPublic wrappingPublic; dev_CreatedAt := createdAt |}.

Definition createVault (r : Request) : Handler unit :=
  request ← decodeJSON r json_CreateVaultRequest;
  let device := cv_Device request in
  _ ← error_if (negb (nonempty (cv_Name request)) || negb (nonempty (dev_Name device)) ||
      negb (nonempty (dev_SigningPublic device)) || negb (nonempty (dev_WrappingPublic device)))
    StatusBadRequest "vault and device fields are required";
  _ ← error_if (negb (validPublicDeviceKeys (dev_SigningPublic device) (dev_WrappingPublic device)))
    StatusBadRequest "invalid device public keys";
  vaultID ← randomID_or_500;
  deviceID ← randomID_or_500;
  t ← s_now;
  let now := format_rfc3339 t in
  let device := new_device deviceID (dev_Name device) (dev_SigningPublic device)
    (dev_WrappingPublic device) now in
  _ ← begin;
  _ ← must (exec (insert_vault vaultID (cv_Name request) now));
  _ ← insertDevice vaultID device;
  _ ← commit;
  writeJSON StatusCreated (BVault vaultID deviceID).

Definition requestEnrollment (r : Request) (vault : string) : Handler unit :=
  let body := readLimitedBody r in
  _ ← begin;
  exists_ ← vaultExists vault;
  _ ← error_if (negb exists_) StatusNotFound "vault not found";
  match body with
  | None => bestEffortPublicRejection vault StatusBadRequest "request body is too large"
  | Some body =>
      match json_EnrollmentRequest body with
      | None => bestEffortPublicRejection vault StatusBadRequest "invalid JSON"
      | Some request =>
          if negb (nonempty (er_Name request)) || negb (nonempty (er_SigningPublic request)) ||
             negb (nonempty (er_WrappingPublic request))
          then bestEffortPublicRejection vault StatusBadRequest "device fields are required"
          else if negb (validPublicDeviceKeys (er_SigningPublic request) (er_WrappingPublic request))
          then bestEffortPublicRejection vault StatusBadRequest "invalid device public keys"
          else
            deviceID ← randomID_or_500;
            t ← s_now;
            let device := new_device deviceID (er_Name request) (er_SigningPublic request)
              (er_WrappingPublic request) (format_rfc3339 t) in
            _ ← must (exec (insert_enrollment vault device));
            _ ← finishEvent vault
              {| identityID := ""; identityVerified := false; targetIdentityID := dev_ID device;
                 operation := "enrollment_request"; outcome_ := "succeeded"; reason := "" |};
            writeJSON StatusCreated (BEnrollment
              {| es_Device := device; es_Approved := false; es_Envelope := None; es_RevokedAt := "" |})
      end
  end.

(** The pending enrollments of a vault, without their envelopes. *)
Definition select_enrollments (vault : string) (db : Db) : list EnrollmentStatus :=
  merge_sort (order_by (λ s, dev_CreatedAt (es_Device s)) (λ s, dev_ID (es_Device s)))
    ((λ '(id, row), {| es_Device := named id (e_device row); es_Approved := e_approved row; es_Envelope := None;
        es_RevokedAt := joined_revocation vault id db |}) <$> of_vault vault (enrollments db)).

Definition listEnrollments (r : Request) (vault : string) : Handler unit :=
  _ ← begin;
  auth ← authenticateDevice r vault "" "enrollment_list" false;
  out ← query (select_enrollments vault);
  _ ← finishEvent vault (auth_event auth "" "succeeded" "");
  writeJSON StatusOK (BEnrollments out).

Definition getEnrollment (r : Request) (vault enrollmentID : string) : Handler unit :=
  _ ← begin;
  auth ← authenticateDevice r vault "" "enrollment_status" true;
  enrollment ← getEnrollmentTx vault enrollmentID;
  match enrollment with
  | NoRows => rejectEvent vault auth enrollmentID StatusNotFound "enrollment not found" "not_found"
  | QueryError => writePersistError
  | Found enrollment =>
      if negb (String.eqb (auth_identityID auth) (dev_ID (es_Device enrollment))) then
        _ ← finishEvent vault (auth_event auth enrollmentID "denied" "invalid_request");
        writeError StatusUnauthorized "device mismatch"
      else
        _ ← finishEvent vault (auth_event auth enrollmentID "succeeded" "");
        writeJSON StatusOK (BEnrollment enrollment)
  end.

Definition select_invitation_exists (vault device : string) (db : Db) : option InvitationRow :=
  invitations db !! (vault, device).

Definition approveEnrollment (r : Request) (vault enrollmentID : string) : Handler unit :=
  body ← readBody r;
  _ ← begin;
  auth ← authenticateDevice r vault body "enrollment_approval" false;
  match json_EnrollmentApproval body with
  | None => rejectEvent vault auth enrollmentID StatusBadRequest "invalid JSON" "invalid_request"
  | Some envelope =>
      enrollment ← getEnrollmentTx vault enrollmentID;
      match enrollment with
      | NoRows => rejectEvent vault auth enrollmentID StatusNotFound "enrollment not found" "not_found"
      | QueryError => writePersistError
      | Found enrollment =>
          if es_Approved enrollment
          then rejectEvent vault auth enrollmentID StatusConflict "enrollment already approved"
                 "already_approved"
          else
            invitation ← queryRow (select_invitation_exists vault enrollmentID);
            match invitation with
            | Found _ => rejectEvent vault auth enrollmentID StatusConflict
                "invitation must use versioned approval endpoint" "terminal_conflict"
            | QueryError => writePersistError
            | NoRows =>
                _ ← must (exec (approve_enrollment_row vault enrollmentID envelope));
                _ ← insertDevice vault (es_Device enrollment);
                _ ← finishEvent vault (auth_event auth enrollmentID "succeeded" "");
                writeJSON StatusOK (BEnrollment {| es_Device := es_Device enrollment;
                  es_Approved := true; es_Envelope := None; es_RevokedAt := "" |})
            end
      end
  end.

(** ** Devices *)

Definition select_devices (vault : string) (db : Db) : list DeviceStatus :=
  merge_sort (order_by (λ s, dev_CreatedAt (ds_Device s)) (λ s, dev_ID (ds_Device s)))
    ((λ idrow, device_status idrow.1 idrow.2) <$> of_vault vault (devices db)).

Definition listDevices (r : Request) (vault : string) : Handler unit :=
  _ ← begin;
  auth ← authenticateDevice r vault "" "device_list" false;
  out ← query (select_devices vault);
  _ ← finishEvent vault (auth_event auth "" "succeeded" "");
  writeJSON StatusOK (BDevices out).

Definition revokeDevice (r : Request) (vault deviceID : string) : Handler unit :=
  _ ← begin;
  auth ← authenticateDevice r vault "" "device_revocation" false;
  target ← getDeviceStatusTx vault deviceID false;
  match target with
  | NoRows => rejectEvent vault auth deviceID StatusNotFound "device not found" "not_found"
  | QueryError => writePersistError
  | Found target =>
      let already := rejectEvent vault auth deviceID StatusConflict "device already revoked"
        "already_revoked" in
      if nonempty (ds_RevokedAt target) then already else
      active ← query (count_active vault);
      if active <=? 1
      then rejectEvent vault auth deviceID StatusConflict "cannot revoke the final active device"
             "final_active_device"
      else
        now ← s_now;
        let target := {| ds_Device := ds_Device target; ds_RevokedAt := format_rfc3339 now |} in
        updated ← must (exec (revoke_device_row vault deviceID (ds_RevokedAt target)));
        if negb (updated =? 1) then already else
        _ ← must (exec (delete_device_nonces vault deviceID));
        _ ← finishEvent vault (auth_event auth deviceID "succeeded" "");
        writeJSON StatusOK (BDevice target)
  end.

(** ** Records *)

Definition select_records (vault : string) (db : Db) : list Record_ :=
  to_record <$> of_vault vault (records db).

Definition listRecords (r : Request) (vault : string) : Handler unit :=
  _ ← begin;
  auth ← authenticateDevice r vault "" "record_list" false;
  out ← query (select_records vault);
  _ ← finishEvent vault (auth_event auth "" "succeeded" "");
  writeJSON StatusOK (BRecords out).

(** The stored revision, zero when there is no row. *)
Definition current_revision (get : Db → gmap (string * string) RecordRow) (vault id : string) : Handler Z :=
  found ← queryRow (select_revision get vault id);
  match found with
  | Found current => mret current
  | NoRows => mret 0
  | QueryError => writePersistError
  end.

Definition revision_conflict (current : Z) : string :=
  "revision conflict: current revision is " +:+ Itoa current.

Definition putRecord (r : Request) (vault recordID : string) : Handler unit :=
  body ← readBody r;
  _ ← begin;
  auth ← authenticateDevice r vault body "record_update" false;
  match json_PutRecordRequest body with
  | None => rejectEvent vault auth "" StatusBadRequest "invalid JSON" "invalid_request"
  | Some request =>
      current ← current_revision records vault recordID;
      if negb (current =? pr_ExpectedRevision request)
      then rejectEvent vault auth "" StatusConflict (revision_conflict current) "revision_conflict"
      else
        t ← s_now;
        let row := {| r_revision := wrap64 (current + 1); r_blob := pr_Blob request;
          r_modified_at := format_rfc3339 t |} in
        _ ← must (exec (if current =? 0 then insert_revision records with_records vault recordID row
                        else update_revision records with_records vault recordID current row));
        _ ← finishEvent vault (auth_event auth "" "succeeded" "");
        writeJSON StatusOK (BRecord (to_record (recordID, row)))
  end.

(** ** Vault objects *)

Definition validOpaqueObjectID (id : string) : bool :=
  match decode id with
  | Some raw => (slen raw =? 32) && String.eqb (encode raw) id
  | None => false
  end.

Definition validObjectTimestamp (value : string) : bool :=
  match parse_rfc3339 value with
  | Some parsed => String.eqb (format_rfc3339 parsed) value
  | None => false
  end.

Definition validEncryptedVaultObject (blob : Blob) : bool :=
  if negb (blob_version blob =? 1) then false
  else match decode (blob_nonce blob) with
  | None => false
  | Some nonce =>
      if negb (slen nonce =? 12) || negb (String.eqb (encode nonce) (blob_nonce blob)) then false
      else match decode (blob_ciphertext blob) with
           | None => false
           | Some ciphertext =>
               (16 <=? slen ciphertext) && String.eqb (encode ciphertext) (blob_ciphertext blob)
           end
  end.

(** ORDER BY id *)
Definition select_vault_objects (vault : string) (db : Db) : list Record_ :=
  merge_sort (order_by rec_ID rec_ID) (to_record <$> of_vault vault (vault_objects db)).

Definition queryVaultObject (vault id : string) : Handler (row Record_) :=
  queryRow (λ db, (λ stored, to_record (id, stored)) <$> vault_objects db !! (vault, id)).

Definition listVaultObjects (r : Request) (vault : string) : Handler unit :=
  _ ← begin;
  auth ← authenticateDevice r vault "" "object_list" false;
  objects ← query (select_vault_objects vault);
  _ ← finishEvent vault (auth_event auth "" "succeeded" "");
  writeJSON StatusOK (BRecords objects).

Definition getVaultObject (r : Request) (vault objectID : string) : Handler unit :=
  _ ← begin;
  auth ← authenticateDevice r vault "" "object_read" false;
  object ← queryVaultObject vault objectID;
  match object with
  | NoRows => rejectEvent vault auth "" StatusNotFound "vault object not found" "not_found"
  | QueryError => writePersistError
  | Found object =>
      _ ← finishEvent vault (auth_event auth "" "succeeded" "");
      writeJSON StatusOK (BRecord object)
  end.

Definition invalid_object_request (objectID : string) (request : PutVaultObjectRequest) : bool :=
  negb (validOpaqueObjectID objectID) || (po_ExpectedRevision request <? 0) ||
  negb (validObjectTimestamp (po_ModifiedAt request)) || negb (validEncryptedVaultObject (po_Blob request)).

Definition putVaultObject (r : Request) (vault objectID : string) : Handler unit :=
  body ← readBody r;
  _ ← begin;
  auth ← authenticateDevice r vault body "object_update" false;
  let invalid := rejectEvent vault auth "" StatusBadRequest "invalid encrypted vault object"
    "invalid_request" in
  match json_PutVaultObjectRequest body with
  | None => invalid
  | Some request =>
      if invalid_object_request objectID request then invalid else
      current ← current_revision vault_objects vault objectID;
      if negb (current =? po_ExpectedRevision request)
      then rejectEvent vault auth "" StatusConflict (revision_conflict current) "revision_conflict"
      else
        let row := {| r_revision := wrap64 (current + 1); r_blob := po_Blob request;
          r_modified_at := po_ModifiedAt request |} in
        _ ← (if current =? 0
             then _ ← must (exec (insert_revision vault_objects with_vault_objects vault objectID row));
                  mret tt
             else changed ← must (exec
                    (update_revision vault_objects with_vault_objects vault objectID current row));
                  if negb (changed =? 1) then writePersistError else mret tt);
        _ ← finishEvent vault (auth_event auth "" "succeeded" "");
        writeJSON StatusOK (BRecord (to_record (objectID, row)))
  end.

Definition deleteVaultObject (r : Request) (vault objectID : string) : Handler unit :=
  body ← readBody r;
  _ ← begin;
  auth ← authenticateDevice r vault body "object_delete" false;
  let invalid := rejectEvent vault auth "" StatusBadRequest "invalid vault object deletion"
    "invalid_request" in
  match json_DeleteVaultObjectRequest body with
  | None => invalid
  | Some expected =>
      if negb (validOpaqueObjectID objectID) || (expected <? 1) then invalid else
      deleted ← must (exec (delete_object vault objectID expected));
      if negb (deleted =? 1) then
        found ← queryRow (select_revision vault_objects vault objectID);
        match found with
        | NoRows => rejectEvent vault auth "" StatusNotFound "vault object not found" "not_found"
        | QueryError => writePersistError
        | Found current =>
            rejectEvent vault auth "" StatusConflict (revision_conflict current) "revision_conflict"
        end
      else
        _ ← finishEvent vault (auth_event auth "" "succeeded" "");
        writeJSON StatusNoContent BNone
  end.
End Handlers.
