(* ===== verification/ServerInvitations.v ===== *)
(** The handlers of invitations, with their expiry, attempts and transitions:
    internal/server/invitations.go. *)
From S2P Require Import Prelude Base64 Timestamp Text Secure Protocol ServerState ServerTx.
From S2P Require Import ServerVault.
From stdpp Require Import options.

Definition invitationLifetime : Z := 10 * minute.
Definition invitationMaxAttempts : Z := 5.

Record invitationRow := {
  inv_status : InvitationStatus; inv_failedAttempts : Z; inv_terminalActor : string;
}.

(** [scanInvitation] on the joined rows of the two tables. *)
Definition scanInvitation (device : PublicDevice) (row : InvitationRow) : invitationRow :=
  {| inv_status :=
       {| is_Version := i_protocol_version row; is_Device := device; is_State := i_state row;
          is_ExpiresAt := i_expires_at row;
          is_AttemptsRemaining := invitationMaxAttempts - i_failed_attempts row;
          is_TerminalAt := default "" (i_terminal_at row); is_Envelope := None |};
     inv_failedAttempts := i_failed_attempts row;
     inv_terminalActor := default "" (i_terminal_actor row) |}.

(** The row of an invitation in the JOIN with the enrollments. *)
Definition select_invitation (vault device : string) (db : Db) : option invitationRow :=
  row ← invitations db !! (vault, device);
  enrollment ← enrollments db !! (vault, device);
  Some (scanInvitation (named device (e_device enrollment)) row).

Definition joined_invitations (vault : string) (db : Db) : list invitationRow :=
  omap (λ '(id, row), (λ enrollment, scanInvitation (named id (e_device enrollment)) row) <$>
      enrollments db !! (vault, id))
    (of_vault vault (invitations db)).

Definition select_pending_invitations (vault : string) (db : Db) : list invitationRow :=
  filter (λ row, is_State (inv_status row) = InvitationPending) (joined_invitations vault db).

Definition select_invitations (vault : string) (db : Db) : list InvitationStatus :=
  merge_sort (order_by (λ s, dev_CreatedAt (is_Device s)) (λ s, dev_ID (is_Device s)))
    (inv_status <$> joined_invitations vault db).

Definition is_pending_state (s : InvitationState) : bool := bool_decide (s = InvitationPending).

Definition ended (state : InvitationState) (at_ actor : string) (row : invitationRow) : invitationRow :=
  {| inv_status :=
       {| is_Version := is_Version (inv_status row); is_Device := is_Device (inv_status row);
          is_State := state; is_ExpiresAt := is_ExpiresAt (inv_status row);
          is_AttemptsRemaining := is_AttemptsRemaining (inv_status row); is_TerminalAt := at_;
          is_Envelope := is_Envelope (inv_status row) |};
     inv_failedAttempts := inv_failedAttempts row; inv_terminalActor := actor |}.

Definition with_envelope (envelope : option WrappedKey) (row : invitationRow) : invitationRow :=
  {| inv_status :=
       {| is_Version := is_Version (inv_status row); is_Device := is_Device (inv_status row);
          is_State := is_State (inv_status row); is_ExpiresAt := is_ExpiresAt (inv_status row);
          is_AttemptsRemaining := is_AttemptsRemaining (inv_status row);
          is_TerminalAt := is_TerminalAt (inv_status row); is_Envelope := envelope |};
     inv_failedAttempts := inv_failedAttempts row; inv_terminalActor := inv_terminalActor row |}.

Definition terminalReason (state : InvitationState) : string :=
  match state with
  | InvitationExpired => "expired"
  | InvitationAttemptsExhausted => "attempt_exhaustion"
  | _ => "terminal_conflict"
  end.

(** The action of the last segment of the path. *)
Inductive Action := Approve | Reject | Cancel.
#[export] Instance Action_eq_dec : EqDecision Action.
Proof. solve_decision. Defined.

Definition action_operation (a : Action) : string :=
  match a with
  | Approve => "invitation_approval"
  | Reject => "invitation_rejection"
  | Cancel => "invitation_cancellation"
  end.

Definition action_state (a : Action) : InvitationState :=
  match a with
  | Approve => InvitationApproved
  | Reject => InvitationRejected
  | Cancel => InvitationCancelled
  end.

Section Invitations.
Context `{!Crypto, !Env, !Wire}.

(** [ecdh.X25519().NewPublicKey] accepts every key of 32 bytes. *)
Definition validEnvelope (envelope : WrappedKey) : bool :=
  match decode (wk_ephemeral_key envelope), decode (blob_nonce (wk_blob envelope)),
        decode (blob_ciphertext (wk_blob envelope)) with
  | Some ephemeral, Some nonce, Some ciphertext =>
      (wk_version envelope =? 1) && (blob_version (wk_blob envelope) =? 1) &&
      (slen ephemeral =? 32) && (slen nonce =? 12) && (16 <=? slen ciphertext)
  | _, _, _ => false
  end.

Definition getInvitationTx (vault device : string) : Handler (row invitationRow) :=
  queryRow (select_invitation vault device).

(** The fields that a device must give; [len(request.Name)] counts bytes. *)
Definition invalid_device_fields (name signingPublic wrappingPublic : string) : bool :=
  negb (nonempty name) || (64 <? slen name) || existsb is_control (runes name) ||
  negb (nonempty signingPublic) || negb (nonempty wrappingPublic).

Definition createInvitation (r : Request) (vault : string) : Handler unit :=
  let body := readLimitedBody r in
  _ ← begin;
  exists_ ← vaultExists vault;
  _ ← error_if (negb exists_) StatusNotFound "vault not found";
  match (body ← body; json_strict_InvitationRequest body) with
  | None => bestEffortInvitationCreationRejection vault "invalid invitation request"
  | Some request =>
      if negb (ir_Version request =? InvitationProtocolVersion)
      then bestEffortInvitationCreationRejection vault "unsupported invitation version" else
      let name := TrimSpace (ir_Name request) in
      if invalid_device_fields name (ir_SigningPublic request) (ir_WrappingPublic request)
      then bestEffortInvitationCreationRejection vault "device fields are required" else
      if negb (validPublicDeviceKeys (ir_SigningPublic request) (ir_WrappingPublic request))
      then bestEffortInvitationCreationRejection vault "invalid device public keys" else
      deviceID ← randomID_or_500;
      now ← s_now;
      let device := new_device deviceID name (ir_SigningPublic request) (ir_WrappingPublic request)
        (format_rfc3339 now) in
      _ ← must (exec (insert_enrollment vault device));
      let expiresAt := format_rfc3339 (now + invitationLifetime) in
      _ ← must (exec (insert_invitation vault (dev_ID device) (ir_Version request) expiresAt));
      _ ← finishEvent vault
        {| identityID := ""; identityVerified := false; targetIdentityID := dev_ID device;
           operation := "invitation_creation"; outcome_ := "succeeded"; reason := "" |};
      writeJSON StatusCreated (BInvitation
        {| is_Version := ir_Version request; is_Device := device; is_State := InvitationPending;
           is_ExpiresAt := expiresAt; is_AttemptsRemaining := invitationMaxAttempts;
           is_TerminalAt := ""; is_Envelope := None |})
  end.

(** The row as the caller's variable holds it afterwards. *)
Definition expireInvitation (vault : string) (row : invitationRow) : Handler invitationRow :=
  let status := inv_status row in
  if negb (is_pending_state (is_State status)) then mret row else
  match parse_rfc3339 (is_ExpiresAt status) with
  | None => writePersistError
  | Some expiresAt =>
      t ← s_now;
      if t <? expiresAt then mret row else
      t ← s_now;
      let now := format_rfc3339 t in
      updated ← must (exec (end_invitation vault (dev_ID (is_Device status)) InvitationExpired now "server"));
      _ ← (if updated =? 1 then
             ok ← insertAccessEvent vault
               {| identityID := ""; identityVerified := false;
                  targetIdentityID := dev_ID (is_Device status); operation := "invitation_expiry";
                  outcome_ := "succeeded"; reason := "expired" |};
             if ok : bool then mret tt else writePersistError
           else mret tt);
      mret (ended InvitationExpired now "server" row)
  end.

Fixpoint expire_each (vault : string) (rows : list invitationRow) : Handler unit :=
  match rows with
  | [] => mret tt
  | row :: rows => _ ← expireInvitation vault row; expire_each vault rows
  end.

(** Called with an empty device: every pending invitation of the vault. *)
Definition expireInvitations (vault : string) : Handler unit :=
  pending ← query_unchecked (select_pending_invitations vault);
  expire_each vault pending.

Definition listInvitations (r : Request) (vault : string) : Handler unit :=
  _ ← begin;
  auth ← authenticateDevice r vault "" "invitation_list" false;
  _ ← expireInvitations vault;
  out ← query_unchecked (select_invitations vault);
  _ ← finishEvent vault (auth_event auth "" "succeeded" "");
  writeJSON StatusOK (BInvitations out).

Definition getInvitation (r : Request) (vault deviceID : string) : Handler unit :=
  _ ← begin;
  auth ← authenticateDevice r vault "" "invitation_status" true;
  found ← getInvitationTx vault deviceID;
  match found with
  | NoRows => rejectEvent vault auth deviceID StatusNotFound "invitation not found" "not_found"
  | QueryError => writePersistError
  | Found row =>
      active ← actorIsActive vault (auth_identityID auth);
      if negb active && negb (String.eqb (auth_identityID auth) deviceID)
      then rejectEvent vault auth deviceID StatusUnauthorized "device cannot inspect invitation"
             "incorrect_actor"
      else
        row ← expireInvitation vault row;
        row ← (if bool_decide (is_State (inv_status row) = InvitationApproved) &&
                  String.eqb (auth_identityID auth) deviceID
               then enrollment ← getEnrollmentTx vault deviceID;
                    match enrollment with
                    | Found enrollment => mret (with_envelope (es_Envelope enrollment) row)
                    | _ => writePersistError
                    end
               else mret row);
        _ ← finishEvent vault (auth_event auth deviceID "succeeded" "");
        writeJSON StatusOK (BInvitation (inv_status row))
  end.

Definition failInvitationAttempt (vault : string) (auth : authenticatedRequest) (row : invitationRow)
    (operation_ reason_ message : string) : Handler unit :=
  let failedAttempts := inv_failedAttempts row + 1 in
  let device := dev_ID (is_Device (inv_status row)) in
  '(state, terminal, reason_) ←
    (if invitationMaxAttempts <=? failedAttempts
     then t ← s_now;
          mret (InvitationAttemptsExhausted, Some (format_rfc3339 t, auth_identityID auth),
                "attempt_exhaustion")
     else mret (InvitationPending, None, reason_));
  updated ← must (exec (count_attempt vault device failedAttempts state
    (fst <$> terminal) (snd <$> terminal)));
  if negb (updated =? 1)
  then rejectEvent vault auth device StatusConflict "invitation already transitioned" "terminal_conflict"
  else
    _ ← finishEvent vault
      {| identityID := auth_identityID auth; identityVerified := true; targetIdentityID := device;
         operation := operation_; outcome_ := "rejected"; reason := reason_ |};
    if bool_decide (state = InvitationAttemptsExhausted)
    then writeError StatusConflict "invitation attempts exhausted"
    else writeError StatusBadRequest message.

(** The decoded transition, with the envelope of an approval. *)
Definition decodeTransition (action : Action) (body : string) :
    option (InvitationTransition * option WrappedKey) :=
  match action with
  | Approve =>
      approval ← json_strict_InvitationApproval body;
      Some ({| it_Version := ia_Version approval; it_DeviceID := ia_DeviceID approval;
               it_Fingerprint := ia_Fingerprint approval |}, Some (ia_Envelope approval))
  | _ => transition ← json_strict_InvitationTransition body; Some (transition, None)
  end.

(** Who may perform the action: the pending device itself cancels, an active
    device approves or rejects. *)
Definition role_ok (action : Action) (actor device : string) (active : bool) : bool :=
  match action with
  | Cancel => String.eqb actor device && negb active
  | _ => active
  end.

Definition binding_ok (transition : InvitationTransition) (status : InvitationStatus) : bool :=
  (it_Version transition =? is_Version status) &&
  String.eqb (it_DeviceID transition) (dev_ID (is_Device status)) &&
  String.eqb (it_Fingerprint transition) (dev_Fingerprint (is_Device status)).

(** Why a transition is refused, and the message of the reply; [None] when it
    may proceed. *)
Definition transition_refusal (action : Action) (actor device : string) (active : bool)
    (decoded : option (InvitationTransition * option WrappedKey)) (status : InvitationStatus) :
    option (string * string) :=
  if negb (role_ok action actor device active)
  then Some ("incorrect_actor", "device cannot perform invitation transition")
  else match decoded with
  | None => Some ("invalid_request", "invalid invitation transition")
  | Some (transition, envelope) =>
      let envelopeOK := match envelope with Some e => validEnvelope e | None => true end in
      if binding_ok transition status && envelopeOK then None
      else if negb (it_Version transition =? is_Version status)
      then Some ("unsupported_version", "invitation version mismatch")
      else Some ("binding_mismatch", "invitation transition binding mismatch")
  end.

Definition transitionInvitation (r : Request) (vault deviceID : string) (action : Action) : Handler unit :=
  body ← readBody r;
  _ ← begin;
  let operation_ := action_operation action in
  auth ← authenticateDevice r vault body operation_ true;
  found ← getInvitationTx vault deviceID;
  match found with
  | NoRows => rejectEvent vault auth deviceID StatusNotFound "invitation not found" "not_found"
  | QueryError => writePersistError
  | Found row =>
      row ← expireInvitation vault row;
      let status := inv_status row in
      if negb (is_pending_state (is_State status))
      then rejectEvent vault auth deviceID StatusConflict ("invitation is " +:+ state_text (is_State status))
             (terminalReason (is_State status))
      else
        let decoded := decodeTransition action body in
        active ← actorIsActive vault (auth_identityID auth);
        match transition_refusal action (auth_identityID auth) deviceID active decoded status with
        | Some (reason_, message) => failInvitationAttempt vault auth row operation_ reason_ message
        | None =>
            t ← s_now;
            let now := format_rfc3339 t in
            let nextState := action_state action in
            updated ← must (exec (end_invitation vault deviceID nextState now (auth_identityID auth)));
            if negb (updated =? 1)
            then rejectEvent vault auth deviceID StatusConflict "invitation already transitioned"
                   "terminal_conflict"
            else
              _ ← (match decoded with
                   | Some (_, Some envelope) =>
                       updated ← must (exec (approve_enrollment_row vault deviceID envelope));
                       if negb (updated =? 1) then writePersistError
                       else insertDevice vault (is_Device status)
                   | _ => mret tt
                   end);
              _ ← finishEvent vault
                {| identityID := auth_identityID auth; identityVerified := true;
                   targetIdentityID := deviceID; operation := operation_; outcome_ := "succeeded";
                   reason := "" |};
              writeJSON StatusOK (BInvitation
                (inv_status (ended nextState now (auth_identityID auth) row)))
        end
  end.
End Invitations.
