(* ===== verification/ServerRoutes.v ===== *)
(** The routes of the service, and before them the access log as it is read: cursors and pages (internal/server/events.go
    and listAccessEvents of server.go). *)
From S2P Require Import Prelude Base64 Timestamp Text Secure Protocol ServerState ServerTx ServerVault ServerInvitations.
From stdpp Require Import options.

Definition defaultAccessEventLimit : Z := 100.
Definition maxAccessEventLimit : Z := 500.

(** ** Cursors *)

(** [binary.BigEndian.PutUint64]: the low [n] bytes of a number, high byte
    first. *)
Fixpoint big_endian (n : nat) (z : Z) : string :=
  match n with
  | O => ""
  | S n => big_endian n (z / 256) +:+ String (chr (z mod 256)) ""
  end.

(** [binary.BigEndian.Uint64] *)
Fixpoint big_endian_value (acc : Z) (s : string) : Z :=
  match s with
  | EmptyString => acc
  | String c s => big_endian_value (acc * 256 + code c) s
  end.

Definition encodeEventCursor (sequence : Z) : string :=
  encode (big_endian 8 (sequence mod 2 ^ 64)).

Definition decodeEventCursor (value : string) : option Z :=
  match decode value with
  | None => None
  | Some raw =>
      if negb (slen raw =? 8) then None
      else
        let sequence := big_endian_value 0 raw in
        if (sequence =? 0) || (max_int64 <? sequence) then None else Some sequence
  end.

(** The limit and the sequence that the page ends before, zero for none. *)
Definition parseAccessEventPage (rLimit rBefore : string) : result (Z * Z) :=
  limit ← (if nonempty rLimit then
      match Atoi rLimit with
      | None => Err "limit must be between 1 and 500"
      | Some parsed =>
          if (parsed <? 1) || (maxAccessEventLimit <? parsed)
          then Err "limit must be between 1 and 500" else Ok parsed
      end
    else Ok defaultAccessEventLimit);
  if nonempty rBefore then
    match decodeEventCursor rBefore with
    | None => Err "invalid cursor"
    | Some before => Ok (limit, before)
    end
  else Ok (limit, 0).

(** ** Pages *)

Definition scanAccessEvent (e : EventRow) : Z * AccessEvent :=
  (ev_sequence e,
   {| ae_ID := ev_id e; ae_VaultID := ev_vault e; ae_Timestamp := ev_timestamp e;
      ae_IdentityID := default "" (ev_identity e); ae_IdentityVerified := ev_verified e;
      ae_TargetIdentityID := default "" (ev_target e); ae_Operation := ev_operation e;
      ae_Outcome := ev_outcome e; ae_Reason := default "" (ev_reason e) |}).

(** The events of the vault before a sequence, newest first: the table is in
    the order of the sequences. *)
Definition select_events (vault : string) (before : Z) (limit : nat) (db : Db) : list (Z * AccessEvent) :=
  take limit (scanAccessEvent <$> reverse
    (filter (λ e, ev_vault e = vault ∧ (before ≠ 0 → ev_sequence e < before)) (access_events db))).

(** The page of at most [limit] of the rows, and the cursor of the next page
    when a row is left over. *)
Definition event_page (limit : nat) (rows : list (Z * AccessEvent)) : list AccessEvent * string :=
  let page := take limit rows in
  (snd <$> page,
   if (limit <? List.length rows)%nat
   then encodeEventCursor (match last page with Some (sequence, _) => sequence | None => 0 end)
   else "").

Section Events.
Context `{!Crypto, !Env}.

Definition listAccessEvents (r : Request) (vault : string) : Handler unit :=
  _ ← begin;
  auth ← authenticateDevice r vault "" "event_list" false;
  match parseAccessEventPage (r_query r "limit") (r_query r "before") with
  | Err message => rejectEvent vault auth "" StatusBadRequest message "invalid_request"
  | Ok (limit, before) =>
      ok ← insertAccessEvent vault (auth_event auth "" "succeeded" "");
      if negb ok then writePersistError else
      rows ← query (select_events vault before (Z.to_nat (limit + 1)));
      _ ← commit;
      let '(events, cursor) := event_page (Z.to_nat limit) rows in
      writeJSON StatusOK (BEvents events cursor)
  end.
End Events.

(** The service: [ServeHTTP] of internal/server/server.go, and what a sequence
    of requests does to the tables. *)

(** What a method and a path ask for. *)
Inductive Route :=
| RHealth
| RCreateVault
| RCreateInvitation (vault : string)
| RListInvitations (vault : string)
| RGetInvitation (vault device : string)
| RTransition (vault device : string) (action : Action)
| RRequestEnrollment (vault : string)
| RListEnrollments (vault : string)
| RGetEnrollment (vault enrollment : string)
| RApproveEnrollment (vault enrollment : string)
| RListDevices (vault : string)
| RRevokeDevice (vault device : string)
| RListRecords (vault : string)
| RPutRecord (vault id : string)
| RListObjects (vault : string)
| RGetObject (vault id : string)
| RPutObject (vault id : string)
| RDeleteObject (vault id : string)
| RListEvents (vault : string)
| RNotFound.

Definition action_of (segment : string) : option Action :=
  if String.eqb segment "approve" then Some Approve
  else if String.eqb segment "reject" then Some Reject
  else if String.eqb segment "cancel" then Some Cancel
  else None.

(** The cases of the switch, in its order, for a path of the form
    /v1/vaults/<vault>/<rest>. *)
Definition route_vault (method vault : string) (rest : list string) : Route :=
  let via m := String.eqb method m in
  match rest with
  | ["invitations"] =>
      if via "POST" then RCreateInvitation vault
      else if via "GET" then RListInvitations vault else RNotFound
  | ["invitations"; device] => if via "GET" then RGetInvitation vault device else RNotFound
  | ["invitations"; device; segment] =>
      match action_of segment with
      | Some action => if via "POST" then RTransition vault device action else RNotFound
      | None => RNotFound
      end
  | ["enrollments"] =>
      if via "POST" then RRequestEnrollment vault
      else if via "GET" then RListEnrollments vault else RNotFound
  | ["enrollments"; enrollment] =>
      if via "GET" then RGetEnrollment vault enrollment
      else if nonempty enrollment && via "POST" then RApproveEnrollment vault enrollment else RNotFound
  | ["devices"] => if via "GET" then RListDevices vault else RNotFound
  | ["devices"; device] => if via "DELETE" then RRevokeDevice vault device else RNotFound
  | ["records"] => if via "GET" then RListRecords vault else RNotFound
  | ["records"; id] => if via "PUT" then RPutRecord vault id else RNotFound
  | ["objects"] => if via "GET" then RListObjects vault else RNotFound
  | ["objects"; id] =>
      if via "GET" then RGetObject vault id
      else if via "PUT" then RPutObject vault id
      else if via "DELETE" then RDeleteObject vault id else RNotFound
  | ["access-events"] => if via "GET" then RListEvents vault else RNotFound
  | _ => RNotFound
  end.

Definition route (method path : string) : Route :=
  if String.eqb path "/healthz" && String.eqb method "GET" then RHealth
  else if String.eqb path "/v1/vaults" && String.eqb method "POST" then RCreateVault
  else match split_on "/" (trim_byte "/" path) with
  | "v1" :: "vaults" :: vault :: rest => route_vault method vault rest
  | _ => RNotFound
  end.

Section Service.
Context `{!Crypto, !Env, !Wire}.

Definition handle (r : Request) (target : Route) : Handler unit :=
  match target with
  | RHealth => writeJSON StatusOK (BStatus "ok")
  | RCreateVault => createVault r
  | RCreateInvitation vault => createInvitation r vault
  | RListInvitations vault => listInvitations r vault
  | RGetInvitation vault device => getInvitation r vault device
  | RTransition vault device action => transitionInvitation r vault device action
  | RRequestEnrollment vault => requestEnrollment r vault
  | RListEnrollments vault => listEnrollments r vault
  | RGetEnrollment vault enrollment => getEnrollment r vault enrollment
  | RApproveEnrollment vault enrollment => approveEnrollment r vault enrollment
  | RListDevices vault => listDevices r vault
  | RRevokeDevice vault device => revokeDevice r vault device
  | RListRecords vault => listRecords r vault
  | RPutRecord vault id => putRecord r vault id
  | RListObjects vault => listVaultObjects r vault
  | RGetObject vault id => getVaultObject r vault id
  | RPutObject vault id => putVaultObject r vault id
  | RDeleteObject vault id => deleteVaultObject r vault id
  | RListEvents vault => listAccessEvents r vault
  | RNotFound => writeError StatusNotFound "not found"
  end.

Definition ServeHTTP (r : Request) : Handler unit := handle r (route (r_method r) (r_path r)).

(** One request served: its reply and the world after it.  A handler that
    returns without a reply has written status 200. *)
Definition serve (r : Request) (w : World) : Response * World :=
  match ServeHTTP r w with
  | Reply response w => (response, w)
  | Next _ w => ({| status := StatusOK; payload := BNone |}, w)
  end.

Fixpoint serve_all (l : list Request) (w : World) : World :=
  match l with
  | [] => w
  | r :: l => serve_all l (serve r w).2
  end.
End Service.
