(* ===== verification/ServerSpec.v ===== *)
(** What one request may do to the tables of a vault: the abstract transition
    system that the handlers refine, with the rules for proving it.

    A transaction is a path of steps.  Its state is the tables together with
    the standing that the request has reached: [Anonymous] at first, with the
    tables untouched; [Public] once a request without a signature has changed
    them; [Signed] when the signature has been verified, [Identified] when the
    timestamp is recent and the fresh nonce is stored, [Accepted] when the
    device is neither unknown nor revoked.  The steps of device,
    enrollment, invitation, record and object tables ask for the standing they
    need, so the invariants of the service are proved by induction on them. *)
From S2P Require Import Prelude Base64 Timestamp Text Secure Protocol ServerState ServerTx ServerVault ServerInvitations ServerRoutes.
From stdpp Require Import options.

Inductive Standing := Anonymous | Public | Signed | Identified | Accepted.
#[export] Instance Standing_eq_dec : EqDecision Standing.
Proof. solve_decision. Defined.

(** The standing after a change that anyone may make. *)
Definition after (st : Standing) : Standing := if decide (st = Anonymous) then Public else st.

(** The device that a request claims to come from. *)
Definition actor (r : Request) : string := r_header r HeaderDevice.

Definition active (db : Db) (v d : string) : Prop :=
  ∃ row, devices db !! (v, d) = Some row ∧ d_revoked_at row = None.

(** The signing key on file for a device: of its registration, or else of its
    enrollment. *)
Definition key_on_file (db : Db) (v d key : string) : Prop :=
  (∃ row, devices db !! (v, d) = Some row ∧ dev_SigningPublic (d_device row) = key) ∨
  (devices db !! (v, d) = None ∧
   ∃ row, enrollments db !! (v, d) = Some row ∧ dev_SigningPublic (e_device row) = key).

Definition fresh_device_row (device : PublicDevice) : DeviceRow :=
  {| d_device := device; d_revoked_at := None |}.
Definition fresh_enrollment (device : PublicDevice) : EnrollmentRow :=
  {| e_device := device; e_approved := false; e_envelope := None |}.
Definition fresh_invitation (expires_at : string) : InvitationRow :=
  {| i_protocol_version := InvitationProtocolVersion; i_state := InvitationPending;
     i_expires_at := expires_at; i_failed_attempts := 0; i_terminal_at := None;
     i_terminal_actor := None |}.

Definition approved_row (row : EnrollmentRow) (envelope : WrappedKey) : EnrollmentRow :=
  {| e_device := e_device row; e_approved := true; e_envelope := Some envelope |}.
Definition ended_row (row : InvitationRow) (state : InvitationState) (at_ who : string) : InvitationRow :=
  {| i_protocol_version := i_protocol_version row; i_state := state; i_expires_at := i_expires_at row;
     i_failed_attempts := i_failed_attempts row; i_terminal_at := Some at_; i_terminal_actor := Some who |}.
Definition revoked_row (row : DeviceRow) (at_ : string) : DeviceRow :=
  {| d_device := d_device row; d_revoked_at := Some at_ |}.

Definition put_device (v d : string) (row : DeviceRow) (db : Db) : Db :=
  with_devices (<[(v, d) := row]> (devices db)) db.
Definition put_enrollment (v d : string) (row : EnrollmentRow) (db : Db) : Db :=
  with_enrollments (<[(v, d) := row]> (enrollments db)) db.
Definition put_invitation (v d : string) (row : InvitationRow) (db : Db) : Db :=
  with_invitations (<[(v, d) := row]> (invitations db)) db.

(** The approval of an enrollment: the row is marked and the device is
    registered under the keys of the enrollment. *)
Definition register (v d : string) (row : EnrollmentRow) (envelope : WrappedKey) (db : Db) : Db :=
  put_device v d (fresh_device_row (named d (e_device row)))
    (put_enrollment v d (approved_row row envelope) db).

(** The next row of an invitation after a failed attempt. *)
Definition failed_row (row : InvitationRow) (at_ who : string) : InvitationRow :=
  let n := i_failed_attempts row + 1 in
  let out := invitationMaxAttempts <=? n in
  {| i_protocol_version := i_protocol_version row;
     i_state := if out then InvitationAttemptsExhausted else InvitationPending;
     i_expires_at := i_expires_at row; i_failed_attempts := n;
     i_terminal_at := if out then Some at_ else None;
     i_terminal_actor := if out then Some who else None |}.

(** The three deletions that follow the insertion of an event. *)
Definition pruned (v : string) (now : Z) (db : Db) : option Db :=
  '(db, _) ← prune_old v (format_rfc3339nano (now - eventMaxAge)) db;
  '(db, _) ← prune_excess v true maxVerifiedEvents db;
  '(db, _) ← prune_excess v false maxUnverifiedEvents db;
  Some db.

Definition logged (v id : string) (now : Z) (event : eventDetails) (db : Db) : option Db :=
  '(db, _) ← insert_event (event_row id v (format_rfc3339nano now) event) db; pruned v now db.

(** A record table, with the test on the ids and blobs it stores. *)
Inductive Table := Records | Objects.
Definition table_rows (k : Table) : Db → gmap (string * string) RecordRow :=
  match k with Records => records | Objects => vault_objects end.
Definition with_table (k : Table) : gmap (string * string) RecordRow → Db → Db :=
  match k with Records => with_records | Objects => with_vault_objects end.
Definition revision_of (k : Table) (v id : string) (db : Db) : Z :=
  default 0 (r_revision <$> table_rows k db !! (v, id)).
Definition storable (k : Table) (id : string) (row : RecordRow) : Prop :=
  match k with
  | Records => True
  | Objects => validOpaqueObjectID id = true ∧ validEncryptedVaultObject (r_blob row) = true ∧
      validObjectTimestamp (r_modified_at row) = true
  end.

(** The route of a request, and the body that its signature covers: all of it on the routes
    that read one, nothing on the others. *)
Definition target (r : Request) : Route := route (r_method r) (r_path r).
Definition signed_body (r : Request) : string :=
  match target r with
  | RTransition _ _ _ | RApproveEnrollment _ _ | RPutRecord _ _ | RPutObject _ _ | RDeleteObject _ _ => r_body r
  | _ => ""
  end.

Section Steps.
Context `{!Crypto, !Env}.
Variables (r : Request) (v : string) (a b : nat).

(** A reading of the clock during the request. *)
Definition moment (t : Z) : Prop := ∃ n, (a ≤ n < b)%nat ∧ t = clock n.

(** Who may end an invitation. *)
Definition role (action : Action) (db : Db) (d : string) : Prop :=
  match action with
  | Cancel => actor r = d
  | _ => active db v (actor r)
  end.

(** An event names a verified device only when a signature of the device has
    been verified. *)
Definition attributed (st : Standing) (event : eventDetails) : Prop :=
  identityVerified event = true → st ≠ Anonymous ∧ st ≠ Public ∧ identityID event = actor r.

(** A signature of the request, with the body that its route signs, that verifies under the
    given key. *)
Definition signed_under (key : string) : Prop :=
  Verify key (requestMessage r (signed_body r)) (r_header r HeaderSignature) = true.

Inductive tx_step : Db * Standing → Db * Standing → Prop :=
| step_create db name created device :
    vaults db !! v = None → devices db !! (v, dev_ID device) = None →
    ValidatePublicDeviceKeys (dev_SigningPublic device) (dev_WrappingPublic device) = Ok tt →
    tx_step (db, Anonymous)
      (put_device v (dev_ID device) (fresh_device_row device)
         (with_vaults (<[v := {| v_name := name; v_created_at := created |}]> (vaults db)) db), Public)
| step_enroll db device :
    is_Some (vaults db !! v) → enrollments db !! (v, dev_ID device) = None →
    ValidatePublicDeviceKeys (dev_SigningPublic device) (dev_WrappingPublic device) = Ok tt →
    tx_step (db, Anonymous) (put_enrollment v (dev_ID device) (fresh_enrollment device) db, Public)
| step_invite db device t :
    is_Some (vaults db !! v) → enrollments db !! (v, dev_ID device) = None →
    invitations db !! (v, dev_ID device) = None → moment t →
    ValidatePublicDeviceKeys (dev_SigningPublic device) (dev_WrappingPublic device) = Ok tt →
    tx_step (db, Anonymous)
      (put_invitation v (dev_ID device) (fresh_invitation (format_rfc3339 (t + invitationLifetime)))
         (put_enrollment v (dev_ID device) (fresh_enrollment device) db), Public)
| step_sign db key :
    is_Some (vaults db !! v) → key_on_file db v (actor r) key → signed_under key →
    tx_step (db, Anonymous) (db, Signed)
| step_identify db t :
    moment t →
    ValidateTimestamp (r_header r HeaderTimestamp) t = Ok tt →
    ValidateNonce (r_header r HeaderNonce) = Ok tt →
    nonces db !! (v, actor r, r_header r HeaderNonce) = None →
    tx_step (db, Signed)
      (with_nonces (<[(v, actor r, r_header r HeaderNonce) := format_rfc3339 t]> (nonces db)) db, Identified)
| step_forget db t :
    moment t →
    tx_step (db, Identified)
      (with_nonces (filter (λ kv, str_lt kv.2 (format_rfc3339 (t - 10 * minute)) = false) (nonces db)) db,
       Identified)
| step_accept db :
    (∀ row, devices db !! (v, actor r) = Some row → d_revoked_at row = None) →
    tx_step (db, Identified) (db, Accepted)
| step_log db st db' id event t :
    moment t → attributed st event → logged v id t event db = Some db' →
    tx_step (db, st) (db', after st)
| step_approve db d row envelope :
    active db v (actor r) → enrollments db !! (v, d) = Some row → e_approved row = false →
    invitations db !! (v, d) = None → devices db !! (v, d) = None →
    tx_step (db, Accepted) (register v d row envelope db, Accepted)
| step_approve_invitation db d row enrollment envelope t t' expiry :
    active db v (actor r) → invitations db !! (v, d) = Some row → i_state row = InvitationPending →
    parse_rfc3339 (i_expires_at row) = Some expiry → moment t → moment t' → t < expiry →
    enrollments db !! (v, d) = Some enrollment → e_approved enrollment = false →
    devices db !! (v, d) = None → validEnvelope envelope = true →
    tx_step (db, Accepted)
      (register v d enrollment envelope
         (put_invitation v d (ended_row row InvitationApproved (format_rfc3339 t') (actor r)) db), Accepted)
| step_end_invitation db d row action t t' expiry :
    action ≠ Approve → role action db d → invitations db !! (v, d) = Some row →
    i_state row = InvitationPending →
    parse_rfc3339 (i_expires_at row) = Some expiry → moment t → moment t' → t < expiry →
    tx_step (db, Accepted)
      (put_invitation v d (ended_row row (action_state action) (format_rfc3339 t') (actor r)) db, Accepted)
| step_expire db d row t t' expiry :
    invitations db !! (v, d) = Some row → i_state row = InvitationPending →
    parse_rfc3339 (i_expires_at row) = Some expiry → moment t → moment t' → expiry ≤ t →
    tx_step (db, Accepted)
      (put_invitation v d (ended_row row InvitationExpired (format_rfc3339 t') "server") db, Accepted)
| step_fail_attempt db d row t :
    invitations db !! (v, d) = Some row → i_state row = InvitationPending →
    (i_failed_attempts row + 1 = invitationMaxAttempts → moment t) →
    0 ≤ i_failed_attempts row + 1 ≤ 5 →
    tx_step (db, Accepted) (put_invitation v d (failed_row row (format_rfc3339 t) (actor r)) db, Accepted)
| step_revoke db d row t :
    active db v (actor r) → devices db !! (v, d) = Some row → d_revoked_at row = None →
    1 < count_active v db → moment t →
    tx_step (db, Accepted)
      (with_nonces (filter (λ kv, kv.1.1 ≠ (v, d)) (nonces db))
         (put_device v d (revoked_row row (format_rfc3339 t)) db), Accepted)
| step_put db k id row :
    active db v (actor r) → 0 < r_revision row → r_revision row = wrap64 (revision_of k v id db + 1) →
    storable k id row →
    tx_step (db, Accepted) (with_table k (<[(v, id) := row]> (table_rows k db)) db, Accepted)
| step_delete db id row :
    active db v (actor r) → vault_objects db !! (v, id) = Some row →
    tx_step (db, Accepted) (with_vault_objects (delete (v, id) (vault_objects db)) db, Accepted).
End Steps.

#[export] Instance Table_eq_dec : EqDecision Table.
Proof. solve_decision. Defined.

Section Monotone.
Context `{!Crypto, !Env}.

Lemma moment_weaken a b b' t : (b ≤ b')%nat → moment a b t → moment a b' t.
Proof. intros Hb (n & Hn & ->). exists n. split; [lia|done]. Qed.

Lemma tx_step_weaken r v a b b' s s' : (b ≤ b')%nat → tx_step r v a b s s' → tx_step r v a b' s s'.
Proof.
  intros Hb. destruct 1; try solve [econstructor; solve [eauto using moment_weaken]].
  - eapply step_approve_invitation with (t := t); eauto using moment_weaken.
  - eapply step_end_invitation with (t := t); eauto using moment_weaken.
  - eapply step_expire with (t := t); eauto using moment_weaken.
Qed.

Lemma tx_steps_weaken r v a b b' s s' :
  (b ≤ b')%nat → rtc (tx_step r v a b) s s' → rtc (tx_step r v a b') s s'.
Proof. intros Hb. induction 1; [done|]. eapply rtc_l; [by eapply tx_step_weaken|done]. Qed.
End Monotone.

(** What a successful reply promises: the answer of each route in terms of the
    tables [start] before the request and the tables [db] it committed. *)

Section Contract.
Context `{!Crypto, !Env, !Wire}.
Variables (r : Request) (start : Db) (resp : Response) (db : Db).

Definition answers (code : Z) (body : Body) : Prop := resp = {| status := code; payload := body |}.

(** The next revision of a record, under the revision that the client expected. *)
Definition stored_next (k : Table) (v id : string) (expected : Z) (blob : Blob) : Prop :=
  ∃ row, revision_of k v id start = expected ∧ r_revision row = wrap64 (expected + 1) ∧
    0 < r_revision row ∧ r_blob row = blob ∧ table_rows k db !! (v, id) = Some row ∧
    answers StatusOK (BRecord (to_record (id, row))).

Definition contract (target : Route) : Prop :=
  match target with
  | RHealth | RNotFound | RListInvitations _ => True
  | RCreateVault => ∃ v device, vaults start !! v = None ∧ is_Some (vaults db !! v) ∧
      devices db !! (v, dev_ID device) = Some (fresh_device_row device) ∧
      answers StatusCreated (BVault v (dev_ID device))
  | RRequestEnrollment v => ∃ device, enrollments start !! (v, dev_ID device) = None ∧
      enrollments db !! (v, dev_ID device) = Some (fresh_enrollment device) ∧
      answers StatusCreated (BEnrollment {| es_Device := device; es_Approved := false;
        es_Envelope := None; es_RevokedAt := "" |})
  | RCreateInvitation v => ∃ device status t, enrollments start !! (v, dev_ID device) = None ∧
      enrollments db !! (v, dev_ID device) = Some (fresh_enrollment device) ∧
      invitations db !! (v, dev_ID device) =
        Some (fresh_invitation (format_rfc3339 (t + invitationLifetime))) ∧
      answers StatusCreated (BInvitation status) ∧ is_Device status = device ∧
      is_ExpiresAt status = format_rfc3339 (t + invitationLifetime)
  | RGetInvitation v d => ∃ status, answers StatusOK (BInvitation status) ∧
      (is_Envelope status ≠ None → is_State status = InvitationApproved ∧ actor r = d)
  | RTransition v d action => ∃ old t, invitations start !! (v, d) = Some old ∧
      i_state old = InvitationPending ∧
      invitations db !! (v, d) = Some (ended_row old (action_state action) t (actor r)) ∧
      (action = Approve → ∃ e envelope, enrollments start !! (v, d) = Some e ∧
         enrollments db !! (v, d) = Some (approved_row e envelope) ∧
         devices db !! (v, d) = Some (fresh_device_row (named d (e_device e))))
  | RListEnrollments v => answers StatusOK (BEnrollments (select_enrollments v start))
  | RGetEnrollment v d => ∃ enrollment, select_enrollment v d start = Some enrollment ∧ actor r = d ∧
      answers StatusOK (BEnrollment enrollment)
  | RApproveEnrollment v d => ∃ e envelope, json_EnrollmentApproval (r_body r) = Some envelope ∧
      enrollments start !! (v, d) = Some e ∧ e_approved e = false ∧
      enrollments db !! (v, d) = Some (approved_row e envelope) ∧
      devices db !! (v, d) = Some (fresh_device_row (named d (e_device e)))
  | RListDevices v => answers StatusOK (BDevices (select_devices v start))
  | RRevokeDevice v d => ∃ row t, devices start !! (v, d) = Some row ∧ d_revoked_at row = None ∧
      1 < count_active v start ∧ devices db !! (v, d) = Some (revoked_row row t) ∧
      answers StatusOK (BDevice {| ds_Device := named d (d_device row); ds_RevokedAt := t |})
  | RListRecords v => answers StatusOK (BRecords (select_records v start))
  | RPutRecord v id => ∃ request, json_PutRecordRequest (r_body r) = Some request ∧
      stored_next Records v id (pr_ExpectedRevision request) (pr_Blob request)
  | RListObjects v => answers StatusOK (BRecords (select_vault_objects v start))
  | RGetObject v id => ∃ row, vault_objects start !! (v, id) = Some row ∧
      answers StatusOK (BRecord (to_record (id, row)))
  | RPutObject v id => ∃ request, json_PutVaultObjectRequest (r_body r) = Some request ∧
      invalid_object_request id request = false ∧
      stored_next Objects v id (po_ExpectedRevision request) (po_Blob request)
  | RDeleteObject v id => ∃ row, json_DeleteVaultObjectRequest (r_body r) = Some (r_revision row) ∧
      vault_objects start !! (v, id) = Some row ∧ vault_objects db !! (v, id) = None
  | RListEvents v => ∃ limit before,
      parseAccessEventPage (r_query r "limit") (r_query r "before") = Ok (limit, before) ∧
      answers StatusOK (let '(events, cursor) := event_page (Z.to_nat limit)
        (select_events v before (Z.to_nat (limit + 1)) db) in BEvents events cursor)
  end.
End Contract.
