(* ===== verification/ServerLogic.v ===== *)
(** A weakest-precondition calculus for handlers, specialised to the statement
    that every handler meets: its transaction is a path of the steps of
    ServerSpec, what it commits is the end of the path, and a reply that says
    the state was not persisted left the tables alone. *)
From S2P Require Import Prelude Base64 Timestamp Text Secure Protocol ServerState ServerTx.
From S2P Require Import ServerVault ServerInvitations ServerRoutes ServerSpec.
From stdpp Require Import options.

(** ** Weakest preconditions *)

Definition wp {A} (m : Handler A) (Q : A → World → Prop) (K : Response → World → Prop) (w : World) : Prop :=
  match m w with Next a w => Q a w | Reply response w => K response w end.

Lemma wp_ret {A} (a : A) (Q : A → World → Prop) K w : Q a w → wp (mret a) Q K w.
Proof. done. Qed.

Lemma wp_then {A B} (m : Handler A) (f : A → Handler B) Q K w :
  wp m (λ a, wp (f a) Q K) K w → wp (m ≫= f) Q K w.
Proof. unfold wp, mbind, handler_bind. by destruct (m w). Qed.

Lemma wp_weaken {A} (m : Handler A) (Q Q' : A → World → Prop) K w :
  wp m Q K w → (∀ a w', Q a w' → Q' a w') → wp m Q' K w.
Proof. unfold wp. destruct (m w); auto. Qed.

(** ** Handlers as paths *)

Section Paths.
Context `{!Crypto, !Env}.
Variables (r : Request) (v : string) (signed : bool) (a : nat) (start : Db).
(** What a successful reply promises of the tables that were committed. *)
Variable promise : Response → Db → Prop.

Definition path (db : Db) (st : Standing) (n : nat) : Prop :=
  rtc (tx_step r v a n) (start, Anonymous) (db, st).

(** The transaction is open: its path has reached [db], and the statements
    executed since lead to [now_db]. *)
Definition in_tx (st : Standing) (db now_db : Db) (w : World) : Prop :=
  committed w = start ∧ (a ≤ effects w)%nat ∧ pending w = now_db ∧ path db st (effects w).

(** The transaction is committed. *)
Definition done_tx (st : Standing) (db : Db) (w : World) : Prop :=
  (a ≤ effects w)%nat ∧ committed w = db ∧ path db st (effects w).

(** What every reply of a handler means for the tables. *)
Definition served (response : Response) (w : World) : Prop :=
  (a ≤ effects w)%nat ∧
  ((committed w = start ∧ 400 ≤ status response) ∨
   (status response ≠ 500 ∧ ∃ st, path (committed w) st (effects w) ∧
      (status response < 400 → (signed = true → st = Accepted) ∧ promise response (committed w)))).

Definition runs {A} (m : Handler A) (Q : A → World → Prop) (w : World) : Prop := wp m Q served w.

Lemma path_weaken db st n n' : (n ≤ n')%nat → path db st n → path db st n'.
Proof. apply tx_steps_weaken. Qed.

Lemma runs_ret {A} (x : A) (Q : A → World → Prop) w : Q x w → runs (mret x) Q w.
Proof. done. Qed.

Lemma runs_bind {A B} (m : Handler A) (f : A → Handler B) (Q : B → World → Prop) w :
  runs m (λ x, runs (f x) Q) w → runs (m ≫= f) Q w.
Proof. apply wp_then. Qed.

(** Replies. *)
Lemma runs_error {A} code body (Q : A → World → Prop) st db now_db w :
  in_tx st db now_db w → 400 ≤ code → runs (writeJSON code body) Q w.
Proof. intros (E & Ha & _ & _) Hc. split; [done|]. by left. Qed.

Lemma runs_done {A} code body (Q : A → World → Prop) st db w :
  done_tx st db w → code ≠ 500 →
  (code < 400 → (signed = true → st = Accepted) ∧ promise {| status := code; payload := body |} db) →
  runs (writeJSON code body) Q w.
Proof. intros (Ha & <- & Hp) Hc Hs. split; [done|]. right. eauto. Qed.

Lemma in_tx_served code body st db now_db w :
  in_tx st db now_db w → 400 ≤ code → served {| status := code; payload := body |} w.
Proof. intros (E & Ha & _ & _) Hc. split; [done|]. by left. Qed.

Lemma in_tx_tick st db now_db w : in_tx st db now_db w → in_tx st db now_db (tick w).
Proof.
  intros (E & Ha & Ep & Hp). unfold tick. split_and!; simpl; [done|lia|done|].
  eapply path_weaken; [|done]. lia.
Qed.

Lemma in_tx_exec st db now_db now_db' w :
  in_tx st db now_db w → in_tx st db now_db' (with_pending now_db' (tick w)).
Proof. intros (E & Ha & Ep & Hp)%in_tx_tick. by split_and!. Qed.

(** A step of the specification. *)
Lemma in_tx_step st db now_db st' w :
  in_tx st db now_db w → tx_step r v a (effects w) (db, st) (now_db, st') → in_tx st' now_db now_db w.
Proof. intros (E & Ha & Ep & Hp) Hstep. split_and!; [done..|]. by eapply rtc_r. Qed.

(** Effects. *)
Lemma runs_now (Q : Z → World → Prop) st db now_db w :
  in_tx st db now_db w →
  (∀ t w', in_tx st db now_db w' → moment a (effects w') t → (effects w ≤ effects w')%nat → Q t w') →
  runs s_now Q w.
Proof.
  intros Hw HQ. unfold runs, wp, s_now. apply HQ; [by apply in_tx_tick|..|simpl; lia].
  exists (effects w). split; [|done]. destruct Hw as (_ & ? & _). simpl. lia.
Qed.

Lemma runs_exec stmt (Q : option Z → World → Prop) st db now_db w :
  in_tx st db now_db w →
  (∀ w', in_tx st db now_db w' → (effects w ≤ effects w')%nat → Q None w') →
  (∀ now_db' n w', stmt now_db = Some (now_db', n) → in_tx st db now_db' w' →
     (effects w ≤ effects w')%nat → Q (Some n) w') →
  runs (exec stmt) Q w.
Proof.
  intros Hw HN HS. unfold runs, wp, exec. destruct (fault _).
  { apply HN; [by apply in_tx_tick|simpl; lia]. }
  pose proof Hw as (_ & _ & -> & _).
  destruct (stmt now_db) as [[now_db' n]|] eqn:E.
  - apply (HS now_db'); [done|by eapply in_tx_exec|simpl; lia].
  - apply HN; [by apply in_tx_tick|simpl; lia].
Qed.

Lemma runs_must {A} (m : Handler (option A)) (Q : A → World → Prop) w :
  runs m (λ o w', match o with
    | Some x => Q x w'
    | None => ∃ st db now_db, in_tx st db now_db w'
    end) w → runs (must m) Q w.
Proof.
  intros Hm. apply runs_bind. eapply wp_weaken; [apply Hm|]. intros [x|] w'; [done|].
  intros (st & db & now_db & Hw'). by eapply runs_error.
Qed.

Lemma runs_must_exec stmt (Q : Z → World → Prop) st db now_db w :
  in_tx st db now_db w →
  (∀ now_db' n w', stmt now_db = Some (now_db', n) → in_tx st db now_db' w' →
     (effects w ≤ effects w')%nat → Q n w') →
  runs (must (exec stmt)) Q w.
Proof.
  intros Hw HQ. apply runs_must. eapply runs_exec; [done|eauto|].
  intros now_db' n w' E Hw' Hn. simpl. eauto.
Qed.

Lemma runs_queryRow {A} (f : Db → option A) (Q : row A → World → Prop) st db now_db w :
  in_tx st db now_db w →
  (∀ x w', in_tx st db now_db w' → (effects w ≤ effects w')%nat →
     match x with Found y => f now_db = Some y | NoRows => f now_db = None | QueryError => True end → Q x w') →
  runs (queryRow f) Q w.
Proof.
  intros Hw HQ. unfold runs, wp, queryRow. pose proof Hw as (_ & _ & Ep & _). rewrite Ep.
  destruct (fault _); [|destruct (f now_db) eqn:E]; apply HQ; simpl; eauto using in_tx_tick; lia.
Qed.

Lemma runs_query {A} (f : Db → A) (Q : A → World → Prop) st db now_db w :
  in_tx st db now_db w →
  (∀ w', in_tx st db now_db w' → (effects w ≤ effects w')%nat → Q (f now_db) w') →
  runs (query f) Q w.
Proof.
  intros Hw HQ. unfold runs, wp, query. pose proof Hw as (_ & _ & Ep & _). rewrite Ep.
  destruct (_ || _); [eapply in_tx_served; [by apply in_tx_tick|done]|].
  apply HQ; [by apply in_tx_tick|simpl; lia].
Qed.

Lemma runs_query_unchecked {A} (f : Db → list A) (Q : list A → World → Prop) st db now_db w :
  in_tx st db now_db w →
  (∀ l w', (∀ x, x ∈ l → x ∈ f now_db) → in_tx st db now_db w' → (effects w ≤ effects w')%nat → Q l w') →
  runs (query_unchecked f) Q w.
Proof.
  intros Hw HQ. unfold runs, wp, query_unchecked. pose proof Hw as (_ & _ & Ep & _). rewrite Ep.
  destruct (fault _); [eapply in_tx_served; [by apply in_tx_tick|done]|].
  apply HQ; [|by apply in_tx_tick|simpl; lia].
  intros x. destruct (cut _); [|done]. intros Hx. eapply subseteq_take, Hx.
Qed.

Lemma runs_randomID (Q : option string → World → Prop) st db now_db w :
  in_tx st db now_db w → (∀ id w', in_tx st db now_db w' → (effects w ≤ effects w')%nat → Q id w') →
  runs randomID Q w.
Proof. intros Hw HQ. apply HQ; [by apply in_tx_tick|simpl; lia]. Qed.

Lemma runs_randomID_or_500 (Q : string → World → Prop) st db now_db w :
  in_tx st db now_db w → (∀ id w', in_tx st db now_db w' → (effects w ≤ effects w')%nat → Q id w') →
  runs randomID_or_500 Q w.
Proof.
  intros Hw HQ. apply runs_bind. eapply runs_randomID; [done|]. intros [id|] w' Hw' Hn; simpl; [by apply runs_ret, HQ|].
  by eapply runs_error.
Qed.

Lemma runs_tx_commit (Q : bool → World → Prop) st db w :
  in_tx st db db w → (∀ w', in_tx st db db w' → Q false w') → (∀ w', done_tx st db w' → Q true w') →
  runs tx_commit Q w.
Proof.
  intros Hw HF HT. unfold runs, wp, tx_commit. destruct (fault _); [by apply HF, in_tx_tick|].
  apply in_tx_tick in Hw as (E & Ha & Ep & Hp). apply HT. by split_and!.
Qed.

Lemma runs_commit (Q : unit → World → Prop) st db w :
  in_tx st db db w → (∀ w', done_tx st db w' → Q tt w') → runs commit Q w.
Proof.
  intros Hw HQ. apply runs_bind. eapply runs_tx_commit; [done|..]; intros w' Hw'; simpl; [|by apply runs_ret, HQ].
  by eapply runs_error.
Qed.

Lemma runs_rollback (Q : unit → World → Prop) st db now_db w :
  in_tx st db now_db w → (∀ w', in_tx Anonymous start start w' → Q tt w') → runs rollback Q w.
Proof.
  intros (E & Ha & _ & _) HQ. apply HQ. split_and!; try done.
  unfold path. reflexivity.
Qed.

Lemma runs_begin (Q : unit → World → Prop) w :
  committed w = start → (a ≤ effects w)%nat →
  (∀ w', in_tx Anonymous start start w' → (effects w ≤ effects w')%nat → Q tt w') → runs begin Q w.
Proof.
  intros E Ha HQ. unfold runs, wp, begin. destruct (fault _).
  - split; [simpl; lia|]. by left.
  - apply HQ; [|simpl; lia]. split_and!; simpl; [done|lia|done|]. unfold path. reflexivity.
Qed.

Lemma runs_error_if (Q : unit → World → Prop) c code message st db now_db w :
  in_tx st db now_db w → 400 ≤ code → (c = false → Q tt w) → runs (error_if c code message) Q w.
Proof. intros Hw Hc HQ. destruct c; [by eapply runs_error|]. by apply HQ. Qed.

(** The access log. *)
(** The tables other than the access log are the same. *)
Definition same_but_log (db db' : Db) : Prop := ∃ l n, db' = with_events l n db.

Lemma logged_same id now event db db' : logged v id now event db = Some db' → same_but_log db db'.
Proof.
  unfold logged, insert_event, pruned, prune_old, prune_excess. intros E.
  destruct (_ || _); [done|]. simpl in E. injection E as <-. by do 2 eexists.
Qed.

Lemma prunes_logged id now event db db1 db2 db3 db4 n1 n2 n3 n4 :
  insert_event (event_row id v (format_rfc3339nano now) event) db = Some (db1, n1) →
  prune_old v (format_rfc3339nano (now - eventMaxAge)) db1 = Some (db2, n2) →
  prune_excess v true maxVerifiedEvents db2 = Some (db3, n3) →
  prune_excess v false maxUnverifiedEvents db3 = Some (db4, n4) →
  logged v id now event db = Some db4.
Proof.
  intros E1 E2 E3 E4. unfold logged, pruned. rewrite E1. cbn -[prune_old prune_excess].
  rewrite E2. cbn -[prune_excess]. rewrite E3. cbn -[prune_excess]. by rewrite E4.
Qed.

Lemma runs_insertAccessEvent event (Q : bool → World → Prop) st db w :
  in_tx st db db w → attributed r st event →
  (∀ now_db w', in_tx st db now_db w' → Q false w') →
  (∀ db' w', same_but_log db db' → in_tx (after st) db' db' w' → (effects w ≤ effects w')%nat → Q true w') →
  runs (insertAccessEvent v event) Q w.
Proof.
  intros Hw Hat HF HT. apply runs_bind. eapply runs_randomID; [done|]. intros [id|] w1 H1 N1; [|apply runs_ret; by eapply HF].
  apply runs_bind. eapply runs_now; [done|]. intros t w2 H2 M2 N2.
  apply runs_bind. eapply runs_exec; [done|intros; apply runs_ret; by eapply HF|]. intros db3 n3 w3 E3 H3 N3.
  apply runs_bind. eapply runs_exec; [done|intros; apply runs_ret; by eapply HF|]. intros db4 n4 w4 E4 H4 N4.
  apply runs_bind. eapply runs_exec; [done|intros; apply runs_ret; by eapply HF|]. intros db5 n5 w5 E5 H5 N5.
  apply runs_bind. eapply runs_exec; [done|intros; apply runs_ret; by eapply HF|]. intros db6 n6 w6 E6 H6 N6. apply runs_ret.
  pose proof (prunes_logged _ _ _ _ _ _ _ _ _ _ _ _ E3 E4 E5 E6) as Hlog.
  eapply HT; [by eapply logged_same| |lia]. eapply in_tx_step; [done|].
  eapply step_log; [|done|done]. eapply moment_weaken; [|done]. lia.
Qed.

Lemma runs_finishEvent event (Q : unit → World → Prop) st db w :
  in_tx st db db w → attributed r st event → (∀ db' w', same_but_log db db' → done_tx (after st) db' w' → Q tt w') →
  runs (finishEvent v event) Q w.
Proof.
  intros Hw Hat HQ. apply runs_bind. eapply runs_insertAccessEvent; [done..| |].
  - intros. by eapply runs_error.
  - intros db' w' Hsame Hw' _. eapply runs_commit; eauto.
Qed.

(** A request that logs its outcome and then replies. *)
Lemma runs_finish {A} event code body (Q : A → World → Prop) st db w :
  in_tx st db db w → attributed r st event → code ≠ 500 →
  (code < 400 → (signed = true → st = Accepted) ∧
     ∀ db', same_but_log db db' → promise {| status := code; payload := body |} db') →
  runs (finishEvent v event ≫= λ _, writeJSON code body) Q w.
Proof.
  intros Hw Hat Hc Hs. apply runs_bind. eapply runs_finishEvent; [done..|]. intros db' w' Hsame Hw'.
  eapply runs_done; [done..|]. intros Hlt. destruct (Hs Hlt) as [Hst Hp]. split; [|auto].
  intros Hsig. by rewrite (Hst Hsig).
Qed.

Lemma runs_reject {A} auth target code message reason_ (Q : A → World → Prop) st db w :
  in_tx st db db w → st ≠ Anonymous → st ≠ Public → auth_identityID auth = actor r → 400 ≤ code → code ≠ 500 →
  runs (rejectEvent v auth target code message reason_) Q w.
Proof. intros Hw Hst Hst' Ea Hc Hc'. eapply runs_finish; [done| |done|lia]. by intros _. Qed.

Lemma runs_bestEffort {A} event code message (Q : A → World → Prop) st db w :
  in_tx st db db w → attributed r st event → 400 ≤ code → code ≠ 500 →
  runs (bestEffort v event code message) Q w.
Proof.
  intros Hw Hat Hc Hc'. apply runs_bind. eapply runs_insertAccessEvent; [done..| |].
  - intros now_db w' Hw'. simpl. apply runs_bind. eapply runs_rollback; [done|]. intros. by eapply runs_error.
  - intros db' w' _ Hw' _. simpl. apply runs_bind. eapply runs_tx_commit; [done|..]; intros w1 H1.
    + by eapply runs_error.
    + eapply runs_done; [done..|lia].
Qed.

Lemma runs_authenticationFailure {A} event verified code message (Q : A → World → Prop) st db w :
  in_tx st db db w → attributed r st event → 400 ≤ code → code ≠ 500 →
  runs (authenticationFailure v event verified code message) Q w.
Proof.
  intros Hw Hat Hc Hc'. apply runs_bind. eapply runs_insertAccessEvent; [done..| |].
  - intros now_db w' Hw'. simpl. apply runs_bind. eapply runs_rollback; [done|]. intros w1 H1.
    destruct verified; by eapply runs_error.
  - intros db' w' _ Hw' _. simpl. apply runs_bind. eapply runs_tx_commit; [done|..]; intros w1 H1.
    + destruct verified; by eapply runs_error.
    + eapply runs_done; [done..|lia].
Qed.

Lemma runs_vaultExists (Q : bool → World → Prop) st db now_db w :
  in_tx st db now_db w →
  (∀ b w', in_tx st db now_db w' → (effects w ≤ effects w')%nat →
     (b = true → is_Some (vaults now_db !! v)) → Q b w') →
  runs (vaultExists v) Q w.
Proof.
  intros Hw HQ. apply runs_bind. eapply runs_queryRow; [done|]. intros x w' Hw' Hn Hx. apply runs_ret.
  apply HQ; [done..|]. destruct x; [|done..]. eauto.
Qed.
End Paths.

(** ** Authentication *)

(** A revocation time is never the empty text, which a query returns for an
    active device. *)
Definition revocations_ok (db : Db) : Prop :=
  ∀ k row, devices db !! k = Some row → d_revoked_at row ≠ Some "".

Lemma select_device_Some v d (only : bool) db status :
  select_device v d only db = Some status →
  ∃ row, devices db !! (v, d) = Some row ∧ status = device_status d row ∧
    (only = true → d_revoked_at row = None).
Proof.
  unfold select_device. destruct (devices db !! (v, d)) as [row|] eqn:E; [|done]. simpl.
  destruct (only && negb (is_active row)) eqn:Eo; [done|]. intros [= <-]. exists row. split_and!; [done..|].
  intros ->. unfold is_active in Eo. by destruct (d_revoked_at row).
Qed.

Lemma select_device_None v d (only : bool) db :
  select_device v d only db = None → devices db !! (v, d) = None ∨ (only = true ∧ ¬ active db v d).
Proof.
  unfold select_device, active. destruct (devices db !! (v, d)) as [row|] eqn:E; [|by left]. simpl.
  destruct only; [|done]. simpl. unfold is_active. destruct (d_revoked_at row) as [t|] eqn:Er; [|done].
  intros _. right. split; [done|]. intros (row' & [= <-] & Hr). congruence.
Qed.

Lemma device_status_active v d db row :
  revocations_ok db → devices db !! (v, d) = Some row → nonempty (ds_RevokedAt (device_status d row)) = false →
  d_revoked_at row = None.
Proof.
  intros Hok E. rewrite nonempty_false. simpl. specialize (Hok _ _ E).
  destruct (d_revoked_at row); simpl; congruence.
Qed.

Section Authentication.
Context `{!Crypto, !Env}.
Variables (r : Request) (v : string) (a : nat) (start : Db) (promise : Response → Db → Prop).
Hypothesis start_ok : revocations_ok start.
#[local] Abbreviation runs := (runs r v true a start promise).
#[local] Abbreviation in_tx := (in_tx r v a start).

(** What the service knows of a claimed device. *)
Definition claim_ok (allowPending : bool) (device : PublicDevice) (why : string) : Prop :=
  dev_ID device = actor r ∧ key_on_file start v (actor r) (dev_SigningPublic device) ∧
  (why = "" → (∀ row, devices start !! (v, actor r) = Some row → d_revoked_at row = None) ∧
     (allowPending = false → active start v (actor r))).

Lemma runs_claimedDevice allowPending (Q : option (PublicDevice * string) → World → Prop) w :
  in_tx Anonymous start start w →
  (∀ c w', in_tx Anonymous start start w' →
     match c with Some (device, why) => claim_ok allowPending device why | None => True end → Q c w') →
  runs (claimedDevice v (actor r) allowPending) Q w.
Proof using start_ok.
  intros Hw HQ. apply runs_bind. eapply runs_queryRow; [done|]. intros [status| |] w1 H1 _ Hx.
  - apply runs_ret, HQ; [done|]. apply select_device_Some in Hx as (row & Erow & -> & _).
    split_and!; [done|left; eauto|]. intros Hwhy.
    destruct (nonempty (ds_RevokedAt _)) eqn:Er; [done|]. eapply device_status_active in Er; [|done..].
    split; [by intros ? [=<-]%(eq_trans (eq_sym Erow))|]. intros _. by exists row.
  - apply runs_bind. eapply runs_queryRow; [done|]. intros [status| |] w2 H2 _ Hy.
    + apply runs_ret, HQ; [done|]. apply select_device_None in Hx as [Hx|[? _]]; [|done].
      unfold select_enrollment in Hy. destruct (enrollments start !! _) as [row|] eqn:Erow; [|done].
      injection Hy as <-. split_and!; [done|right; eauto|].
      destruct allowPending; [|done]. intros _. split; [congruence|done].
    + by apply runs_ret, HQ.
    + by eapply runs_error.
  - by eapply runs_error.
Qed.

Lemma runs_authenticate body operation allowPending (Q : authenticatedRequest → World → Prop) w :
  body = signed_body r → in_tx Anonymous start start w →
  (∀ auth db w', auth_identityID auth = actor r → auth_operation auth = operation →
     is_Some (vaults db !! v) → (allowPending = false → active db v (actor r)) →
     (∃ m, db = with_nonces m start) → in_tx Accepted db db w' → Q auth w') →
  runs (authenticateDevice r v body operation allowPending) Q w.
Proof using start_ok.
  intros Hbody Hw HQ. apply runs_bind. eapply runs_vaultExists; [done|]. intros b w1 H1 _ Hv.
  apply runs_bind. eapply runs_error_if; [done..|]. intros Hb%negb_false_iff. specialize (Hv Hb).
  apply runs_bind. eapply runs_claimedDevice; [done|]. intros [[device why]|] w2 H2 Hclaim;
    [|by eapply runs_authenticationFailure].
  destruct Hclaim as (Eid & Hkey & Hwhy). simpl.
  destruct (String.eqb (dev_ID device) ""); [by eapply runs_authenticationFailure|].
  destruct (_ || _) eqn:Hsig; [by eapply runs_authenticationFailure|].
  apply orb_false_iff in Hsig as [_ Hsig%negb_false_iff].
  assert (HS : in_tx Signed start start w2).
  { eapply in_tx_step; [done|]. eapply step_sign; [done..|]. unfold signed_under. by rewrite <-Hbody. }
  clear Hkey Hsig. apply runs_bind. eapply runs_now; [done|]. intros t w3 H3 M3 _.
  destruct (_ || _) eqn:Hfresh; [by eapply runs_authenticationFailure|].
  apply orb_false_iff in Hfresh as [Ht%negb_false_iff%is_ok_true Hn%negb_false_iff%is_ok_true].
  destruct Ht as [[] Ht], Hn as [[] Hn]. rewrite Eid.
  apply runs_bind. eapply runs_must_exec; [done|]. intros db4 n4 w4 E4 H4 N4.
  unfold insert_nonce in E4. destruct (nonces start !! _) eqn:En; injection E4 as <- <-; simpl.
  { by eapply runs_authenticationFailure. }
  eapply in_tx_step in H4; [|by apply (step_identify _ _ _ _ _ t); [eapply moment_weaken|..]].
  apply runs_bind. eapply runs_must_exec; [done|]. intros db5 n5 w5 E5 H5 N5.
  injection E5 as <- <-.
  assert (M5 : moment a (effects w5) t) by (eapply moment_weaken; [|done]; lia).
  eapply in_tx_step in H5; [|exact (step_forget r v a _ _ t M5)].
  destruct (nonempty why) eqn:Ew; [by eapply runs_authenticationFailure|].
  apply nonempty_false in Ew. destruct (Hwhy Ew) as [Hrev Hact].
  eapply in_tx_step in H5; [|by apply step_accept].
  apply runs_ret. eapply HQ; [..|exact H5]; try done. eexists. unfold with_nonces. done.
Qed.
End Authentication.
