(* ===== verification/ServerRefinement.v ===== *)
(** Every handler of the service refines the transition system of ServerSpec:
    one lemma per handler. *)
From S2P Require Import Prelude Base64 Timestamp Text Secure Protocol ServerState ServerTx.
From S2P Require Import ServerVault ServerInvitations ServerRoutes ServerSpec.
From S2P Require Import ServerSpec ServerLogic.
From stdpp Require Import options.

Section Refinement.
Context {crypto : Crypto} {env : Env} {wire : Wire}.
Variables (r : Request) (v : string) (w0 : World).
Hypothesis start_ok : revocations_ok (committed w0).

#[local] Abbreviation a := (effects w0).
#[local] Abbreviation start := (committed w0).
(** A handler always replies. *)
#[local] Abbreviation handles signed served_route m :=
  (target r = served_route → runs r v signed a start (λ resp db, contract r start resp db served_route) m (λ (_ : unit) _, False) w0).

Lemma runs_readBody signed promise (Q : string → World → Prop) :
  (∀ body, body = r_body r → Q body w0) → runs r v signed a start promise (readBody r) Q w0.
Proof.
  intros HQ. unfold readBody, readLimitedBody. destruct (_ || _); [|by apply HQ].
  split; [done|]. by left.
Qed.

(** Open the transaction; authenticate; log and reply. *)
Ltac sign_body := unfold signed_body; match goal with H : target r = _ |- _ => rewrite H end; by auto.
Ltac open_tx := apply runs_bind; eapply runs_begin; [done|done|]; intros ?w ?Hw _.
Ltac authenticate :=
  apply runs_bind; eapply runs_authenticate; [done|sign_body|done|];
  intros ?auth ?db ?w ?Eid ?Eop ?Hv ?Hact [?m ->] ?Hw.
Ltac reject := eapply runs_reject; done.
Ltac persist_error := by eapply runs_error.
Ltac attribute := intros _; split_and!; [done|done|assumption].
Ltac finish := eapply runs_finish; [done|attribute|done|intros ?Hlt; split; [done|intros ? (?l & ?n & ->)]].
Ltac deny := eapply runs_finish; [done|attribute|done|let H := fresh in intros H; by vm_compute in H].
Ltac query_row x H := apply runs_bind; eapply runs_queryRow; [done|]; intros [x| |] ?w ?Hw ?N H.
Ltac query_rows := apply runs_bind; eapply runs_query; [done|]; intros ?w ?Hw _.
Ltac exec_stmt E := apply runs_bind; eapply runs_must_exec; [done|]; intros ?db ?n ?w E ?Hw ?N.

Lemma listEnrollments_served : handles true (RListEnrollments v) (listEnrollments r v).
Proof using start_ok. intros Htarget. open_tx. authenticate. query_rows. finish. done. Qed.

Lemma listDevices_served : handles true (RListDevices v) (listDevices r v).
Proof using start_ok. intros Htarget. open_tx. authenticate. query_rows. finish. done. Qed.

Lemma listRecords_served : handles true (RListRecords v) (listRecords r v).
Proof using start_ok. intros Htarget. open_tx. authenticate. query_rows. finish. done. Qed.

Lemma listVaultObjects_served : handles true (RListObjects v) (listVaultObjects r v).
Proof using start_ok. intros Htarget. open_tx. authenticate. query_rows. finish. done. Qed.

Lemma getEnrollment_served d : handles true (RGetEnrollment v d) (getEnrollment r v d).
Proof using start_ok. intros Htarget.
  open_tx. authenticate. query_row enrollment Hx; [|reject|persist_error].
  destruct (String.eqb_spec (auth_identityID auth) (dev_ID (es_Device enrollment))) as [E|]; simpl;
    [|deny].
  finish. exists enrollment. split_and!; [done| |done]. rewrite <-Eid, E.
  unfold select_enrollment in Hx. by destruct (enrollments _ !! _); simplify_eq/=.
Qed.

Lemma getVaultObject_served id : handles true (RGetObject v id) (getVaultObject r v id).
Proof using start_ok. intros Htarget.
  open_tx. authenticate. query_row object Hx; [|reject|persist_error].
  finish. destruct (vault_objects _ !! _) as [row|] eqn:E; simplify_eq/=. by exists row.
Qed.

(** ** Enrollments *)

Lemma validPublicDeviceKeys_Ok s w :
  negb (validPublicDeviceKeys s w) = false → ValidatePublicDeviceKeys s w = Ok tt.
Proof. unfold validPublicDeviceKeys. destruct (ValidatePublicDeviceKeys s w) as [[]|]; done. Qed.

Lemma insert_enrollment_Some device db db' n :
  insert_enrollment v device db = Some (db', n) →
  enrollments db !! (v, dev_ID device) = None ∧
  db' = put_enrollment v (dev_ID device) (fresh_enrollment device) db.
Proof.
  unfold insert_enrollment, insert_new. destruct (enrollments db !! _) eqn:E; [done|].
  by intros [= <- _].
Qed.

Lemma insert_device_Some device db db' n :
  insert_device v device db = Some (db', n) →
  devices db !! (v, dev_ID device) = None ∧
  db' = put_device v (dev_ID device) (fresh_device_row device) db.
Proof.
  unfold insert_device, insert_new. destruct (devices db !! _) eqn:E; [done|].
  by intros [= <- _].
Qed.

Lemma requestEnrollment_served : handles false (RRequestEnrollment v) (requestEnrollment r v).
Proof using. intros Htarget.
  open_tx. apply runs_bind. eapply runs_vaultExists; [done|]. intros b w1 H1 _ Hv.
  apply runs_bind. eapply runs_error_if; [done..|]. intros Hb%negb_false_iff. specialize (Hv Hb).
  destruct (readLimitedBody r) as [body|]; [|by eapply runs_bestEffort].
  destruct (json_EnrollmentRequest body) as [request|] eqn:Ejson; [|by eapply runs_bestEffort].
  destruct (_ || _); [by eapply runs_bestEffort|].
  destruct (negb _) eqn:Hk; [by eapply runs_bestEffort|]. apply validPublicDeviceKeys_Ok in Hk.
  apply runs_bind. eapply runs_randomID_or_500; [done|]. intros id w2 H2 _.
  apply runs_bind. eapply runs_now; [done|]. intros t w3 H3 _ _.
  exec_stmt E. apply insert_enrollment_Some in E as [E ->].
  eapply in_tx_step in Hw0; [|by apply step_enroll].
  eapply runs_finish; [done..|]. intros _. split; [done|]. intros ? (? & ? & ->).
  eexists. split_and!; [exact E|simpl; by rewrite lookup_insert_eq|done].
Qed.

Lemma approveEnrollment_served d : handles true (RApproveEnrollment v d) (approveEnrollment r v d).
Proof using start_ok. intros Htarget.
  apply runs_bind, runs_readBody. intros body Ebody. open_tx. authenticate.
  destruct (json_EnrollmentApproval body) as [envelope|] eqn:Ejson; [|reject].
  query_row enrollment Hx; [|reject|persist_error].
  destruct (es_Approved enrollment) eqn:Ha; [reject|].
  query_row i Hi; [reject| |persist_error].
  unfold select_enrollment in Hx. destruct (enrollments (with_nonces m start) !! (v, d)) as [row|] eqn:Erow; [|done].
  injection Hx as <-. simpl in Ha.
  exec_stmt E1. unfold approve_enrollment_row, update_where in E1. rewrite Erow, Ha in E1.
  injection E1 as <- <-. apply runs_bind.
  apply runs_bind. eapply runs_must_exec; [done|]. intros db5 n5 w5 E5 H5 _. apply runs_ret.
  apply insert_device_Some in E5 as [E5 ->].
  eapply in_tx_step in H5; [|by apply (step_approve r v a _ (with_nonces m start) d row envelope); [apply Hact|..]]. finish.
  exists row, envelope. simpl in *. rewrite !lookup_insert_eq. subst body. by split_and!.
Qed.

(** ** Devices *)

Lemma revoke_device_row_Some d t db db' n row :
  devices db !! (v, d) = Some row → d_revoked_at row = None →
  revoke_device_row v d t db = Some (db', n) → n = 1 ∧ db' = put_device v d (revoked_row row t) db.
Proof.
  intros E Er. unfold revoke_device_row, update_where. rewrite E. unfold is_active. rewrite Er.
  by intros [= <- <-].
Qed.

Lemma revokeDevice_served d : handles true (RRevokeDevice v d) (revokeDevice r v d).
Proof using start_ok. intros Htarget.
  open_tx. authenticate. query_row victim Hx; [|reject|persist_error].
  apply select_device_Some in Hx as (row & Erow & -> & _).
  destruct (nonempty _) eqn:Er; [reject|]. eapply device_status_active in Er; [|done..].
  query_rows. destruct (Z.leb_spec (count_active v (with_nonces m start)) 1); [reject|].
  apply runs_bind. eapply runs_now; [done|]. intros t wt Ht Mt _.
  exec_stmt E. destruct (revoke_device_row_Some _ _ _ _ _ _ Erow Er E) as [-> ->]. simpl.
  apply runs_bind. eapply runs_must_exec; [done|]. intros dbs ns ws E5 H5 N5.
  injection E5 as <- <-. eapply in_tx_step in H5; [|].
  2: { apply (step_revoke r v a _ (with_nonces m start) d row t); [by apply Hact|done..|].
    eapply moment_weaken; [|done]. lia. }
  finish. exists row, (format_rfc3339 t). simpl. by rewrite lookup_insert_eq.
Qed.

(** ** Records and objects *)

Lemma runs_current_revision signed promise k id (Q : Z → World → Prop) st db now_db w :
  in_tx r v a start st db now_db w →
  (∀ w', in_tx r v a start st db now_db w' → (effects w ≤ effects w')%nat →
     Q (revision_of k v id now_db) w') →
  runs r v signed a start promise (current_revision (table_rows k) v id) Q w.
Proof.
  intros Hw HQ. apply runs_bind. eapply runs_queryRow; [done|]. unfold select_revision, revision_of in *.
  intros [c| |] w' Hw' N Hx; [| |by eapply runs_error]; apply runs_ret.
  - specialize (HQ _ Hw' N). by rewrite Hx in HQ.
  - specialize (HQ _ Hw' N). by rewrite Hx in HQ.
Qed.

(** The write of a new revision, by insertion or by update. *)
Lemma write_revision_Some k id row db db' n :
  (if revision_of k v id db =? 0 then insert_revision (table_rows k) (with_table k) v id row
   else update_revision (table_rows k) (with_table k) v id (revision_of k v id db) row) db = Some (db', n) →
  0 < r_revision row ∧ n = 1 ∧ db' = with_table k (<[(v, id) := row]> (table_rows k db)) db.
Proof.
  unfold revision_of. destruct (table_rows k db !! (v, id)) as [old|] eqn:E; simpl.
  - destruct (Z.eqb_spec (r_revision old) 0) as [E0|E0]; unfold insert_revision, update_revision;
      (destruct (Z.leb_spec (r_revision row) 0); [done|]); unfold insert_new, update_where; rewrite E; [done|].
    rewrite Z.eqb_refl. by intros [= <- <-].
  - unfold insert_revision. destruct (Z.leb_spec (r_revision row) 0); [done|].
    unfold insert_new. rewrite E. by intros [= <- <-].
Qed.

Lemma stored_next_intro k id m l n row expected blob :
  revision_of k v id (with_nonces m start) = expected → r_revision row = wrap64 (expected + 1) →
  0 < r_revision row → r_blob row = blob →
  stored_next start {| status := StatusOK; payload := BRecord (to_record (id, row)) |}
    (with_events l n (with_table k (<[(v, id) := row]> (table_rows k (with_nonces m start)))
       (with_nonces m start))) k v id expected blob.
Proof. intros E1 E2 E3 E4. exists row. destruct k; split_and!; try done; simpl; by rewrite lookup_insert_eq. Qed.

Lemma putRecord_served id : handles true (RPutRecord v id) (putRecord r v id).
Proof using start_ok. intros Htarget.
  apply runs_bind, runs_readBody. intros body Ebody. open_tx. authenticate.
  destruct (json_PutRecordRequest body) as [request|] eqn:Ejson; [|reject].
  apply runs_bind. eapply (runs_current_revision _ _ Records); [done|]. intros wr Hr _.
  destruct (Z.eqb_spec (revision_of Records v id (with_nonces m start)) (pr_ExpectedRevision request))
    as [Erev|]; [|reject].
  apply runs_bind. eapply runs_now; [done|]. intros t wt Ht _ _.
  exec_stmt E. apply (write_revision_Some Records) in E as (Hpos & _ & ->).
  eapply in_tx_step in Hw1; [|by eapply (step_put _ _ _ _ _ Records); [apply Hact|..]]. finish.
  subst body. exists request. split; [done|]. apply (stored_next_intro Records); [done| |done|done].
  by rewrite <-Erev.
Qed.

Lemma putVaultObject_served id : handles true (RPutObject v id) (putVaultObject r v id).
Proof using start_ok. intros Htarget.
  apply runs_bind, runs_readBody. intros body Ebody. open_tx. authenticate. cbv zeta.
  destruct (json_PutVaultObjectRequest body) as [request|] eqn:Ejson; [|reject].
  destruct (invalid_object_request id request) eqn:Hvalid; [reject|].
  apply runs_bind. eapply (runs_current_revision _ _ Objects); [done|]. intros wr Hr _.
  destruct (Z.eqb_spec (revision_of Objects v id (with_nonces m start)) (po_ExpectedRevision request))
    as [Erev|]; [|reject].
  apply runs_bind. set (row := {| r_revision := _ |}).
  assert (Hstore : storable Objects id row).
  { unfold invalid_object_request in Hvalid.
    apply orb_false_iff in Hvalid as [[[H1%negb_false_iff _]%orb_false_iff H2%negb_false_iff]%orb_false_iff
      H5%negb_false_iff]. done. }
  set (db := with_nonces m start) in *.
  destruct (revision_of Objects v id db =? 0) eqn:Ez; apply runs_bind;
    (eapply runs_must_exec; [done|]; intros db5 n5 ws E5 H5 _);
    destruct (write_revision_Some Objects id row db db5 n5) as (Hpos & -> & ->); try (by rewrite Ez).
  all: apply runs_ret; eapply in_tx_step in H5; [|by eapply (step_put _ _ _ _ _ Objects); [apply Hact|..]];
    finish; subst body; exists request; split_and!; [done|done|];
    apply (stored_next_intro Objects); [done| |done|done]; by rewrite <-Erev.
Qed.

Lemma deleteVaultObject_served id : handles true (RDeleteObject v id) (deleteVaultObject r v id).
Proof using start_ok. intros Htarget.
  apply runs_bind, runs_readBody. intros body Ebody. open_tx. authenticate. cbv zeta.
  destruct (json_DeleteVaultObjectRequest body) as [expected|] eqn:Ejson; [|reject].
  destruct (_ || _); [reject|]. exec_stmt E. unfold delete_object in E.
  set (db0 := with_nonces m start) in *.
  destruct (vault_objects db0 !! (v, id)) as [row|] eqn:Erow.
  - destruct (Z.eqb_spec (r_revision row) expected) as [Erev|]; injection E as <- <-; simpl.
    + eapply in_tx_step in Hw1; [|exact (step_delete r v a _ db0 id row (Hact eq_refl) Erow)]. finish.
      exists row. subst body. rewrite Erev. split_and!; [done|done|]. simpl. by rewrite lookup_delete_eq.
    + query_row current Hx; [reject|reject|persist_error].
  - injection E as <- <-. simpl. query_row current Hx; [reject|reject|persist_error].
Qed.

Lemma listAccessEvents_served : handles true (RListEvents v) (listAccessEvents r v).
Proof using start_ok. intros Htarget.
  open_tx. authenticate. destruct (parseAccessEventPage _ _) as [[limit before]|message] eqn:Epage; [|reject].
  apply runs_bind. eapply runs_insertAccessEvent; [done|intros _; split_and!; [done|done|assumption]|..].
  { intros. persist_error. }
  intros db' wi _ Hi _. simpl. apply runs_bind. eapply runs_query; [done|]. intros wq Hq _.
  apply runs_bind. eapply runs_commit; [done|]. intros wc Hc.
  eapply runs_done; [done|done|]. intros _. split; [done|]. by exists limit, before.
Qed.

(** ** Invitations *)

Lemma insert_invitation_Some d version expires db db' n :
  version = InvitationProtocolVersion → insert_invitation v d version expires db = Some (db', n) →
  invitations db !! (v, d) = None ∧ db' = put_invitation v d (fresh_invitation expires) db.
Proof.
  unfold insert_invitation, insert_new. intros ->. destruct (invitations db !! _) eqn:E; [done|].
  by intros [= <- _].
Qed.

Lemma createInvitation_served : handles false (RCreateInvitation v) (createInvitation r v).
Proof using. intros Htarget.
  open_tx. apply runs_bind. eapply runs_vaultExists; [done|]. intros b w1 H1 _ Hv.
  apply runs_bind. eapply runs_error_if; [done..|]. intros Hb%negb_false_iff. specialize (Hv Hb).
  destruct (_ ≫= _) as [request|]; [|by eapply runs_bestEffort].
  destruct (Z.eqb_spec (ir_Version request) InvitationProtocolVersion) as [Ever|]; [|by eapply runs_bestEffort].
  simpl. destruct (invalid_device_fields _ _ _); [by eapply runs_bestEffort|].
  destruct (negb _) eqn:Hk; [by eapply runs_bestEffort|]. apply validPublicDeviceKeys_Ok in Hk.
  apply runs_bind. eapply runs_randomID_or_500; [done|]. intros id w2 H2 _.
  apply runs_bind. eapply runs_now; [done|]. intros t w3 H3 M3 _.
  apply runs_bind. eapply runs_must_exec; [done|]. intros db4 n4 w4 E4 H4 N4.
  apply insert_enrollment_Some in E4 as [E4 ->].
  apply runs_bind. eapply runs_must_exec; [done|]. intros db5 n5 w5 E5 H5 N5.
  apply insert_invitation_Some in E5 as [E5 ->]; [|done].
  eapply in_tx_step in H5; [|apply step_invite; [done|done|exact E5| |done]; eapply moment_weaken; [|done]; lia].
  eapply runs_finish; [done..|]. intros _. split; [done|]. intros ? (? & ? & ->).
  do 3 eexists. simpl. split_and!; [exact E4|by rewrite lookup_insert_eq|by rewrite lookup_insert_eq|done..].
Qed.

Lemma end_invitation_Some d state at_ who db db' n stored :
  invitations db !! (v, d) = Some stored → i_state stored = InvitationPending →
  end_invitation v d state at_ who db = Some (db', n) →
  n = 1 ∧ db' = put_invitation v d (ended_row stored state at_ who) db.
Proof.
  intros E Ep. unfold end_invitation, update_where. rewrite E. unfold is_pending. rewrite Ep.
  by intros [= <- <-].
Qed.

Lemma end_invitation_none d state at_ who db db' n :
  (∀ stored, invitations db !! (v, d) = Some stored → i_state stored ≠ InvitationPending) →
  end_invitation v d state at_ who db = Some (db', n) → n = 0 ∧ db' = db.
Proof.
  intros Hnone. unfold end_invitation, update_where.
  destruct (invitations db !! _) as [stored|] eqn:E; [|by intros [= <- <-]].
  unfold is_pending. rewrite bool_decide_eq_false_2 by eauto. by intros [= <- <-].
Qed.

(** The row in the hands of the handler has the expiry of the stored row, as
    long as that one is pending. *)
Definition expires_as (db : Db) (row : invitationRow) : Prop :=
  ∀ stored, invitations db !! (v, dev_ID (is_Device (inv_status row))) = Some stored →
    i_state stored = InvitationPending → i_expires_at stored = is_ExpiresAt (inv_status row).

(** The outcome of [expireInvitation]: nothing has changed, and the clock was
    before the expiry of a pending row; or the row in hand has expired. *)
Definition checked (db db' : Db) (n : nat) (row row' : invitationRow) : Prop :=
  is_Envelope (inv_status row') = is_Envelope (inv_status row) ∧
  ((row' = row ∧ invitations db' = invitations db ∧
   (is_State (inv_status row) = InvitationPending →
      ∃ t expiry, parse_rfc3339 (is_ExpiresAt (inv_status row)) = Some expiry ∧ moment a n t ∧ t < expiry)) ∨
  is_State (inv_status row') = InvitationExpired).

Lemma runs_expireInvitation signed promise row (Q : invitationRow → World → Prop) db w :
  in_tx r v a start Accepted db db w → expires_as db row →
  (∀ row' db' w', in_tx r v a start Accepted db' db' w' → devices db' = devices db →
     enrollments db' = enrollments db → (∀ other, expires_as db other → expires_as db' other) →
     checked db db' (effects w') row row' → Q row' w') →
  runs r v signed a start promise (expireInvitation v row) Q w.
Proof.
  intros Hw Hex HQ. unfold expireInvitation.
  destruct (is_pending_state _) eqn:Ep; simpl; cycle 1.
  { apply runs_ret. eapply HQ; [done..|]. split; [done|]. left. split_and!; [done..|].
    intros E. unfold is_pending_state in Ep. by rewrite E in Ep. }
  destruct (parse_rfc3339 _) as [expiry|] eqn:Ex; [|by eapply runs_error].
  apply runs_bind. eapply runs_now; [done|]. intros t w1 H1 M1 N1.
  destruct (Z.ltb_spec t expiry).
  { apply runs_ret. eapply HQ; [done..|]. split; [done|]. left. split_and!; [done..|]. intros _. by exists t, expiry. }
  apply runs_bind. eapply runs_now; [done|]. intros t' w2 H2 M2 N2.
  apply runs_bind. eapply runs_must_exec; [done|]. intros db3 n3 w3 E3 H3 N3.
  set (d := dev_ID (is_Device (inv_status row))) in *.
  destruct (invitations db !! (v, d)) as [stored|] eqn:Es;
    [destruct (decide (i_state stored = InvitationPending)) as [Est|Est]|].
  - destruct (end_invitation_Some _ _ _ _ _ _ _ _ Es Est E3) as [-> ->]. simpl.
    pose proof (Hex _ Es Est) as Eexp.
    eapply in_tx_step in H3; [|eapply (step_expire r v a _ db d stored t t' expiry);
      [done|done|by rewrite Eexp|..|done]; (eapply moment_weaken; [|done]); lia].
    apply runs_bind. apply runs_bind. eapply runs_insertAccessEvent; [done|by intros|..].
    { intros. by eapply runs_error. }
    intros db' w' (l & k & ->) Hw' _. apply runs_ret, runs_ret. eapply HQ; [done|done|done| |by split; [|right]].
    intros other Ho s. simpl. destruct (decide (dev_ID (is_Device (inv_status other)) = d)) as [->|Hne].
    + rewrite lookup_insert_eq. by intros [= <-].
    + rewrite lookup_insert_ne by congruence. apply Ho.
  - destruct (end_invitation_none d InvitationExpired (format_rfc3339 t') "server" db db3 n3) as [-> ->];
      [congruence|done|]. simpl. apply runs_ret. eapply HQ; [done..|by split; [|right]].
  - destruct (end_invitation_none d InvitationExpired (format_rfc3339 t') "server" db db3 n3) as [-> ->];
      [congruence|done|]. simpl. apply runs_ret. eapply HQ; [done..|by split; [|right]].
Qed.

Lemma runs_expire_each signed promise rows (Q : unit → World → Prop) db w :
  in_tx r v a start Accepted db db w → (∀ row, row ∈ rows → expires_as db row) →
  (∀ db' w', in_tx r v a start Accepted db' db' w' → Q tt w') →
  runs r v signed a start promise (expire_each v rows) Q w.
Proof.
  revert db w. induction rows as [|row rows IH]; intros db w Hw Hrows HQ; simpl; [by eapply HQ|].
  apply runs_bind. eapply runs_expireInvitation; [done|apply Hrows; by left|].
  intros row' db' w' Hw' _ _ Hex _. eapply IH; [done| |done].
  intros other Ho. apply Hex, Hrows. by right.
Qed.

Lemma of_vault_lookup {V} (m : gmap (string * string) V) id x :
  (id, x) ∈ of_vault v m → m !! (v, id) = Some x.
Proof.
  unfold of_vault. rewrite list_elem_of_omap. intros ([[v' id'] y] & Hin & Heq).
  apply elem_of_map_to_list in Hin. destruct (String.eqb_spec v' v) as [->|]; [|done].
  by injection Heq as -> ->.
Qed.

Lemma pending_expires db row : row ∈ select_pending_invitations v db → expires_as db row.
Proof.
  unfold select_pending_invitations. intros [_ Hin]%list_elem_of_filter.
  apply list_elem_of_omap in Hin as ([id stored] & Hin & Heq).
  destruct (enrollments db !! _) as [enrollment|]; [|done]. injection Heq as <-.
  apply of_vault_lookup in Hin. intros s. simpl. by rewrite Hin; intros [= <-].
Qed.

Lemma listInvitations_served : handles true (RListInvitations v) (listInvitations r v).
Proof using start_ok. intros Htarget.
  open_tx. authenticate. apply runs_bind, runs_bind. eapply runs_query_unchecked; [done|].
  intros rows wr Hrows Hr _. eapply runs_expire_each; [done|eauto using pending_expires|].
  intros db' we He. apply runs_bind. eapply runs_query_unchecked; [done|]. intros out wo _ Ho _. finish. done.
Qed.

(** A row read in the transaction. *)
Definition row_shows (db : Db) (d : string) (row : invitationRow) : Prop :=
  ∃ stored enrollment, invitations db !! (v, d) = Some stored ∧ enrollments db !! (v, d) = Some enrollment ∧
    row = scanInvitation (named d (e_device enrollment)) stored.

Lemma select_invitation_Some d db row : select_invitation v d db = Some row → row_shows db d row.
Proof.
  unfold select_invitation. destruct (invitations db !! _) eqn:E1; [|done]. simpl.
  destruct (enrollments db !! _) eqn:E2; [|done]. intros [= <-]. by do 2 eexists.
Qed.

Lemma row_shows_expires db d row : row_shows db d row → expires_as db row.
Proof. intros (stored & enrollment & E & _ & ->) s. simpl. by rewrite E; intros [= <-]. Qed.

Lemma runs_actorIsActive signed promise d (Q : bool → World → Prop) st db now_db w :
  in_tx r v a start st db now_db w →
  (∀ b w', in_tx r v a start st db now_db w' → (effects w ≤ effects w')%nat →
     (b = true → active now_db v d) → Q b w') →
  runs r v signed a start promise (actorIsActive v d) Q w.
Proof.
  intros Hw HQ. apply runs_bind. eapply runs_queryRow; [done|]. intros x w' Hw' N Hx. apply runs_ret, HQ; [done..|].
  destruct x; [|done..]. intros _. apply select_device_Some in Hx as (row & E & _ & Ha). exists row. auto.
Qed.

Lemma getInvitation_served d : handles true (RGetInvitation v d) (getInvitation r v d).
Proof using start_ok. intros Htarget.
  open_tx. authenticate. query_row found Hx; [|reject|persist_error].
  apply select_invitation_Some in Hx. apply runs_bind. eapply runs_actorIsActive; [done|].
  intros act wa Ha _ _. destruct (_ && _); [reject|].
  apply runs_bind. eapply runs_expireInvitation; [done|by eapply row_shows_expires|].
  intros row' db' we He _ _ _ [Henv _]. destruct Hx as (stored & enrollment & _ & _ & ->).
  apply runs_bind. destruct (_ && _) eqn:Eown.
  - apply andb_true_iff in Eown as [Est%bool_decide_eq_true Eown%String.eqb_eq].
    apply runs_bind. eapply runs_queryRow; [done|]. intros [e| |] wq Hq _ _; [|persist_error..].
    apply runs_ret. finish. eexists. split; [done|]. intros _. split; [done|congruence].
  - apply runs_ret. finish. exists (inv_status row'). split; [done|]. by rewrite Henv.
Qed.

Lemma failed_row_Some d row (out : bool) t db db' n stored :
  invitations db !! (v, d) = Some stored → i_state stored = InvitationPending →
  out = (invitationMaxAttempts <=? i_failed_attempts stored + 1) →
  count_attempt v d (i_failed_attempts stored + 1)
    (if out then InvitationAttemptsExhausted else InvitationPending)
    (if out then Some t else None) (if out then Some row else None) db = Some (db', n) →
  n = 1 ∧ 0 ≤ i_failed_attempts stored + 1 ≤ 5 ∧ db' = put_invitation v d (failed_row stored t row) db.
Proof.
  intros E Ep -> Ec. unfold count_attempt, update_where, is_pending in Ec. rewrite E, Ep in Ec.
  destruct (_ || _) eqn:Eb; [done|]. injection Ec as <- <-. split_and!; [done|lia|lia|].
  unfold failed_row. by destruct (_ <=? _).
Qed.

Lemma failInvitationAttempt_runs promise auth row operation_ reason_ message d (Q : unit → World → Prop) db w :
  in_tx r v a start Accepted db db w → auth_identityID auth = actor r → row_shows db d row →
  is_State (inv_status row) = InvitationPending →
  runs r v true a start promise (failInvitationAttempt v auth row operation_ reason_ message) Q w.
Proof.
  intros Hw Eid (stored & enrollment & E1 & E2 & ->) Ep. unfold failInvitationAttempt. simpl in *.
  apply runs_bind. set (out := invitationMaxAttempts <=? i_failed_attempts stored + 1).
  assert (Hrun : ∃ t w' why, in_tx r v a start Accepted db db w' ∧ (out = true → moment a (effects w') t) ∧
    ∀ Q', Q' ((if out then InvitationAttemptsExhausted else InvitationPending),
       (if out then Some (format_rfc3339 t, auth_identityID auth) else None), why) w' →
     runs r v true a start promise (if out then t ← s_now; mret (InvitationAttemptsExhausted,
         Some (format_rfc3339 t, auth_identityID auth), "attempt_exhaustion")
       else mret (InvitationPending, None, reason_)) Q' w).
  { pose proof Hw as (_ & Ha & _). destruct out.
    - exists (clock (effects w)), (tick w), "attempt_exhaustion". split_and!; [by apply in_tx_tick| |done].
      intros _. exists (effects w). simpl. split; [lia|done].
    - by exists 0, w, reason_. }
  destruct Hrun as (t & w1 & why & H1 & M1 & Hrun). apply Hrun. clear Hrun.
  apply runs_bind. eapply runs_must_exec; [done|]. intros db2 n2 w2 E3 H2 N2.
  destruct (failed_row_Some d (auth_identityID auth) out (format_rfc3339 t) db db2 n2 stored)
    as (-> & Hbound & ->); [done..|by destruct out|]. simpl. rewrite Eid in H2.
  eapply in_tx_step in H2; [|apply (step_fail_attempt r v a _ db d stored t); [done|done| |done]].
  2: { intros Hlast. eapply moment_weaken; [|apply M1]; [lia|]. unfold out. lia. }
  apply runs_bind. eapply runs_finishEvent; [done|by intros _|]. intros db3 w3 _ H3.
  destruct (bool_decide _); (eapply runs_done; [done|done|let H := fresh in intros H; by vm_compute in H]).
Qed.

Lemma refusal_None action d act decoded status :
  transition_refusal action (actor r) d act decoded status = None →
  role_ok action (actor r) d act = true ∧
  ∃ transition envelope, decoded = Some (transition, envelope) ∧ binding_ok transition status = true ∧
    (∀ e, envelope = Some e → validEnvelope e = true).
Proof.
  unfold transition_refusal. destruct (role_ok _ _ _ _); [|done]. simpl.
  destruct decoded as [[transition envelope]|]; [|done].
  destruct (binding_ok _ _ && _) eqn:E; [|by destruct (negb _)].
  apply andb_true_iff in E as [E1 E2]. intros _. split; [done|]. exists transition, envelope.
  split_and!; [done..|]. by intros e ->.
Qed.

Lemma decodeTransition_envelope action body transition envelope :
  decodeTransition action body = Some (transition, envelope) →
  match envelope with Some _ => action = Approve | None => action ≠ Approve end.
Proof.
  unfold decodeTransition. destruct action.
  - destruct (json_strict_InvitationApproval body); [|done]. by intros [= _ <-].
  - destruct (json_strict_InvitationTransition body); [|done]. by intros [= _ <-].
  - destruct (json_strict_InvitationTransition body); [|done]. by intros [= _ <-].
Qed.

Lemma transitionInvitation_served d action : handles true (RTransition v d action) (transitionInvitation r v d action).
Proof using start_ok. intros Htarget.
  apply runs_bind, runs_readBody. intros body Ebody. open_tx. cbv zeta.
  apply runs_bind. eapply runs_authenticate; [done|sign_body|done|].
  intros auth db wa Eid Eop Hv _ [m Em] Ha.
  query_row found Hx; [|reject|persist_error]. apply select_invitation_Some in Hx.
  apply runs_bind. eapply runs_expireInvitation; [done|by eapply row_shows_expires|].
  intros row db1 we He Edev Eenr Hexp Hchecked. unfold is_pending_state.
  destruct (decide (is_State (inv_status row) = InvitationPending)) as [Ep|Ep]; cycle 1.
  { rewrite bool_decide_eq_false_2 by done. reject. }
  rewrite bool_decide_eq_true_2 by done. simpl.
  destruct Hchecked as [_ [(-> & Einv & Htime)|Hbad]]; [|by rewrite Ep in Hbad].
  destruct (Htime Ep) as (t & expiry & Hparse & Mt & Hlt).
  assert (Hshow : row_shows db1 d found).
  { destruct Hx as (stored & enrollment & E1 & E2 & ->). exists stored, enrollment.
    by rewrite Einv, Eenr. }
  assert (Estart : invitations db1 = invitations start ∧ enrollments db1 = enrollments start).
  { rewrite Einv, Eenr. by subst db. }
  clear Hx Hexp Htime Einv Eenr Edev.
  apply runs_bind. eapply runs_actorIsActive; [done|]. intros act wq Hq Nq Hact. rewrite Eid in Hact |- *.
  destruct (transition_refusal _ _ _ _ _ _) as [[why message]|] eqn:Eref.
  { by eapply failInvitationAttempt_runs. }
  apply refusal_None in Eref as (Hrole & transition & envelope & Edec & Hbind & Henv).
  pose proof (decodeTransition_envelope _ _ _ _ Edec) as Hact'. rewrite Edec. clear Edec.
  destruct Hshow as (stored & enrollment & E1 & E2 & ->). simpl in *. destruct Estart as [Einv Eenr].
  apply runs_bind. eapply runs_now; [done|]. intros t' wt Ht Mt' Nt.
  apply runs_bind. eapply runs_must_exec; [done|]. intros db2 n2 w2 E3 H2 N2.
  destruct (end_invitation_Some _ _ _ _ _ _ _ _ E1 Ep E3) as [-> ->]. simpl.
  destruct envelope as [envelope|].
  - subst action. simpl in Hrole. apply runs_bind, runs_bind.
    eapply runs_must_exec; [done|]. intros db4 n4 w4 E4 H4 N4.
    unfold approve_enrollment_row, update_where in E4. simpl in E4. rewrite E2 in E4.
    destruct (e_approved enrollment) eqn:Eappr; injection E4 as <- <-; simpl; [persist_error|].
    apply runs_bind. eapply runs_must_exec; [done|]. intros db5 n5 w5 E5 H5 N5.
    apply insert_device_Some in E5 as [E5 ->]. apply runs_ret.
    eapply in_tx_step in H5; [|eapply (step_approve_invitation r v a _ db1 d stored enrollment envelope t t' expiry);
      [by apply Hact|done|done|done| | |done|done|done|done|by apply Henv]; (eapply moment_weaken; [|done]); lia].
    eapply runs_finish; [done|by intros _|done|]. intros _. split; [done|]. intros ? (? & ? & ->).
    exists stored, (format_rfc3339 t'). simpl. rewrite <-Einv, <-Eenr. split_and!; [done|done|by rewrite lookup_insert_eq|].
    intros _. exists enrollment, envelope. by rewrite !lookup_insert_eq.
  - apply runs_bind, runs_ret.
    eapply in_tx_step in H2; [|eapply (step_end_invitation r v a _ db1 d stored action t t' expiry);
      [done| |done|done|done| | |done]; [|eapply moment_weaken; [|done]; lia..]].
    2: { destruct action; simpl in *; [done|by apply Hact|].
      apply andb_true_iff in Hrole as [Hrole _]. by apply String.eqb_eq in Hrole. }
    eapply runs_finish; [done|by intros _|done|]. intros _. split; [done|]. intros ? (? & ? & ->).
    exists stored, (format_rfc3339 t'). simpl. rewrite <-Einv. by rewrite lookup_insert_eq.
Qed.

(** ** Vaults *)

(** The vault of a creation is drawn at random. *)
#[local] Abbreviation creates := (λ response w', ∃ v', served r v' false a start
  (λ resp db, contract r start resp db RCreateVault) response w').

Lemma wp_any_vault {A} (m : Handler A) (Q : A → World → Prop) v' w :
  runs r v' false a start (λ resp db, contract r start resp db RCreateVault) m Q w → wp m Q creates w.
Proof. unfold runs, wp. destruct (m w); eauto. Qed.

(** Before the transaction nothing is committed. *)
Lemma wp_refuse {A} code body (Q : A → World → Prop) w :
  committed w = start → (a ≤ effects w)%nat → 400 ≤ code → wp (writeJSON code body) Q creates w.
Proof. intros E Ha Hc. exists "". split; [done|]. by left. Qed.

Lemma wp_randomID_or_500 (Q : string → World → Prop) w :
  committed w = start → (a ≤ effects w)%nat → (∀ id, Q id (tick w)) → wp randomID_or_500 Q creates w.
Proof.
  intros E Ha HQ. unfold randomID_or_500, randomID, wp, mbind, handler_bind.
  destruct (encode <$> entropy _) as [id|]; [apply HQ|]. exists "". split; [simpl; lia|]. by left.
Qed.

Lemma createVault_served : wp (createVault r) (λ _ _, False) creates w0.
Proof using.
  apply wp_then. unfold decodeJSON, readBody. apply wp_then.
  destruct (readLimitedBody r) as [raw|]; [|by apply wp_refuse]. apply wp_ret.
  destruct (json_CreateVaultRequest raw) as [request|]; [|by apply wp_refuse]. apply wp_ret. cbv zeta.
  apply wp_then. destruct (_ || _); [by apply wp_refuse|]. apply wp_ret.
  apply wp_then. destruct (negb _) eqn:Hk; [by apply wp_refuse|]. apply validPublicDeviceKeys_Ok in Hk.
  apply wp_ret, wp_then, wp_randomID_or_500; [done..|]. intros vault.
  apply wp_then, wp_randomID_or_500; [done|simpl; lia|]. intros device.
  apply wp_then. unfold wp at 1, s_now. apply (wp_any_vault _ _ vault).
  apply runs_bind. eapply runs_begin; [done|simpl; lia|]. intros w1 H1 _.
  apply runs_bind. eapply runs_must_exec; [done|]. intros db2 n2 w2 E2 H2 N2.
  unfold insert_vault, insert_new in E2. destruct (vaults start !! vault) eqn:Ev; [done|].
  injection E2 as <- <-.
  apply runs_bind. apply runs_bind. eapply runs_must_exec; [done|]. intros db3 n3 w3 E3 H3 N3.
  unfold insert_device, insert_new in E3. simpl in E3.
  destruct (devices start !! _) eqn:Ed; [done|]. injection E3 as <- <-. apply runs_ret.
  eapply in_tx_step in H3; [|exact (step_create r vault a _ start _ _
    (new_device device _ _ _ _) Ev Ed Hk)].
  apply runs_bind. eapply runs_commit; [done|]. intros w4 H4. eapply runs_done; [done|done|].
  intros _. split; [done|]. eexists vault, (new_device device _ _ _ _). simpl.
  split_and!; [done|rewrite lookup_insert_eq; eauto|by rewrite lookup_insert_eq|done].
Qed.
End Refinement.

(** ** The service *)

Section Service.
Context {crypto : Crypto} {env : Env} {wire : Wire}.

(** The vault of a request that must be signed. *)
Definition signed_vault (target : Route) : option string :=
  match target with
  | RHealth | RNotFound | RCreateVault | RCreateInvitation _ | RRequestEnrollment _ => None
  | RListInvitations v | RGetInvitation v _ | RTransition v _ _ | RListEnrollments v
  | RGetEnrollment v _ | RApproveEnrollment v _ | RListDevices v | RRevokeDevice v _ | RListRecords v
  | RPutRecord v _ | RListObjects v | RGetObject v _ | RPutObject v _ | RDeleteObject v _
  | RListEvents v => Some v
  end.

(** What serving a request does: the reply and the tables as [served] says,
    with the contract of the route. *)
Definition serves (r : Request) (v : string) (signed : bool) (w : World) (response : Response) (w' : World) : Prop :=
  served r v signed (effects w) (committed w)
    (λ resp db, contract r (committed w) resp db (target r)) response w'.

Lemma handled r v signed w promise (m : Handler unit) :
  runs r v signed (effects w) (committed w) promise m (λ _ _, False) w →
  let '(response, w') := match m w with
    | Reply response w' => (response, w')
    | Next _ w' => ({| status := StatusOK; payload := BNone |}, w')
    end in served r v signed (effects w) (committed w) promise response w'.
Proof. unfold runs, wp. by destruct (m w). Qed.

Lemma serve_signed r w v :
  revocations_ok (committed w) → signed_vault (target r) = Some v →
  serves r v true w (serve r w).1 (serve r w).2.
Proof.
  intros Hok. unfold serves, serve, ServeHTTP. fold (target r).
  destruct (target r) eqn:Htarget; cbn [signed_vault handle]; intros [= ->];
    match goal with |- served _ _ _ _ _ ?promise (match ?m w with _ => _ end).1 _ =>
      enough (H : runs r v true (effects w) (committed w) promise m (λ _ _, False) w)
        by (apply handled in H; by destruct (m w))
    end;
    eauto using listInvitations_served, getInvitation_served, transitionInvitation_served,
      listEnrollments_served, getEnrollment_served, approveEnrollment_served, listDevices_served,
      revokeDevice_served, listRecords_served, putRecord_served, listVaultObjects_served,
      getVaultObject_served, putVaultObject_served, deleteVaultObject_served, listAccessEvents_served.
Qed.

Lemma serve_unsigned r w :
  signed_vault (target r) = None → ∃ v, serves r v false w (serve r w).1 (serve r w).2.
Proof.
  unfold serves, serve, ServeHTTP. fold (target r). intros Hs.
  destruct (target r) as [| |v| | | |v| | | | | | | | | | | | |] eqn:Htarget; try done; cbn [handle].
  - exists "". split; [done|]. right. split; [done|]. exists Anonymous. split; [|done].
    unfold path. reflexivity.
  - pose proof (createVault_served r w) as H. unfold wp in H. by destruct (createVault r w).
  - exists v. pose proof (createInvitation_served r v w Htarget) as H%handled. by destruct (createInvitation r v w).
  - exists v. pose proof (requestEnrollment_served r v w Htarget) as H%handled. by destruct (requestEnrollment r v w).
  - exists "". split; [done|]. by left.
Qed.

Lemma serve_serves r w :
  revocations_ok (committed w) →
  ∃ v signed, serves r v signed w (serve r w).1 (serve r w).2 ∧
    (signed_vault (target r) = Some v ∧ signed = true ∨ signed_vault (target r) = None ∧ signed = false).
Proof.
  intros Hok. destruct (signed_vault (target r)) as [v|] eqn:Ev.
  - exists v, true. split; [by apply serve_signed|]. by left.
  - destruct (serve_unsigned r w Ev) as [v Hv]. exists v, false. by split; [|right].
Qed.
End Service.
