(* ===== verification/ServerHistory.v ===== *)
(** The service over all its requests: induction over steps, transactions and requests.
    First the invariants of the tables, by induction on the steps of ServerSpec, and
    what one step may change. *)
From S2P Require Import Prelude Base64 Timestamp Text Secure Protocol ServerState ServerTx ServerVault ServerInvitations ServerSpec ServerLogic ServerRoutes ServerRefinement.
From stdpp Require Import options.

(** The steps on the tables they change; a step of the log changes no other. *)
Ltac step_cases :=
  destruct 1; simpl;
  repeat match goal with H : logged _ _ _ _ _ = Some _ |- _ => apply logged_same in H as (? & ? & ->) end;
  repeat match goal with k : Table |- _ => destruct k end; simpl.

Ltac lookups :=
  repeat match goal with
  | H : <[_ := _]> _ !! _ = Some _ |- _ => apply lookup_insert_Some in H as [[? ?]|[? ?]]
  end; simplify_eq; simpl.

Lemma format_unix_nonempty s : format_unix s ≠ "".
Proof.
  intros E. apply (f_equal String.length) in E. unfold format_unix in E.
  rewrite !string_length_app, format_date_length in E. done.
Qed.

Lemma count_active_put v v' d row db :
  devices db !! (v, d) = None → d_revoked_at row = None →
  count_active v' (put_device v d row db) = count_active v' db + (if decide (v = v') then 1 else 0).
Proof.
  intros E Er. unfold count_active, put_device. simpl. rewrite map_filter_insert.
  destruct (decide (v = v')) as [->|Hne].
  - rewrite decide_True by (simpl; unfold is_active; by rewrite Er). rewrite map_size_insert_None; [lia|].
    apply map_lookup_filter_None. by left.
  - rewrite decide_False by (simpl; naive_solver). rewrite delete_id by done. lia.
Qed.

Lemma count_active_revoke v v' d row row' db :
  devices db !! (v, d) = Some row → d_revoked_at row = None → d_revoked_at row' ≠ None →
  count_active v' (put_device v d row' db) = count_active v' db - (if decide (v = v') then 1 else 0).
Proof.
  intros E Er Er'. unfold count_active, put_device. simpl. rewrite map_filter_insert.
  rewrite decide_False by (simpl; unfold is_active; destruct (d_revoked_at row'); naive_solver).
  rewrite map_filter_delete. set (m := filter _ (devices db)). destruct (decide (v = v')) as [->|Hne].
  - assert (Hm : m !! (v', d) = Some row).
    { apply map_lookup_filter_Some. split; [done|]. simpl. unfold is_active. by rewrite Er. }
    pose proof (map_size_ne_0_lookup_2 m (v', d) (ex_intro _ _ Hm)).
    rewrite map_size_delete_Some by eauto. lia.
  - rewrite map_size_delete_None; [lia|]. apply map_lookup_filter_None. naive_solver.
Qed.

(** ** The invariant *)

(** An invitation: the attempts are counted up to five, the fifth ends it; a
    terminal time is on record exactly when it has ended. *)
Definition invitation_ok (row : InvitationRow) : Prop :=
  0 ≤ i_failed_attempts row ≤ invitationMaxAttempts ∧
  (i_state row = InvitationAttemptsExhausted ↔ i_failed_attempts row = invitationMaxAttempts) ∧
  (i_state row = InvitationPending ↔ i_terminal_at row = None) ∧
  (i_terminal_at row = None ↔ i_terminal_actor row = None) ∧
  i_protocol_version row = InvitationProtocolVersion.

Section Invariant.
Context {crypto : Crypto} {env : Env}.

Definition keys_ok (device : PublicDevice) : Prop :=
  ValidatePublicDeviceKeys (dev_SigningPublic device) (dev_WrappingPublic device) = Ok tt.

Record db_ok (db : Db) : Prop := {
  ok_revocations : revocations_ok db;
  ok_devices : ∀ v d row, devices db !! (v, d) = Some row →
    is_Some (vaults db !! v) ∧ keys_ok (d_device row);
  ok_enrollments : ∀ v d row, enrollments db !! (v, d) = Some row →
    is_Some (vaults db !! v) ∧ keys_ok (e_device row) ∧
    (e_approved row = true → is_Some (devices db !! (v, d)) ∧ is_Some (e_envelope row));
  ok_invitations : ∀ v d row, invitations db !! (v, d) = Some row →
    invitation_ok row ∧
    ∃ e, enrollments db !! (v, d) = Some e ∧ (i_state row = InvitationApproved ↔ e_approved e = true);
  ok_active : ∀ v, is_Some (vaults db !! v) → 1 ≤ count_active v db;
  ok_tables : ∀ k v id row, table_rows k db !! (v, id) = Some row →
    0 < r_revision row ≤ max_int64 ∧ storable k id row;
}.

Lemma empty_ok : db_ok empty_db.
Proof.
  split; intros *; try by (try destruct k); simpl; rewrite ?lookup_empty.
Qed.

Variables (r : Request) (v : string) (a b : nat).
#[local] Abbreviation step := (tx_step r v a b).

Lemma step_revocations s s' : step s s' → revocations_ok s.1 → revocations_ok s'.1.
Proof.
  step_cases; intros Hok k0 row0 Hrow; simpl in *; lookups; simpl; eauto.
Qed.

(** Every step keeps the rows of the vaults and of the devices. *)
Lemma step_vaults s s' k : step s s' → is_Some (vaults s.1 !! k) → is_Some (vaults s'.1 !! k).
Proof.
  step_cases; try done. intros ?. destruct (decide (k = v)) as [->|];
    [rewrite lookup_insert_eq; eauto|by rewrite lookup_insert_ne].
Qed.

Lemma step_devices s s' v' d row :
  step s s' → devices s'.1 !! (v', d) = Some row →
  (∃ old, devices s.1 !! (v', d) = Some old ∧ d_device old = d_device row ∧
     (d_revoked_at old = None ∨ d_revoked_at old = d_revoked_at row)) ∨
  (v' = v ∧ devices s.1 !! (v, d) = None ∧ d_revoked_at row = None ∧
     ((vaults s.1 !! v = None ∧ is_Some (vaults s'.1 !! v) ∧ keys_ok (d_device row)) ∨
      ∃ e, enrollments s.1 !! (v, d) = Some e ∧ d_device row = named d (e_device e))).
Proof.
  step_cases; intros Hrow; lookups; eauto 8. right. split_and!; try done.
  left. split_and!; try done. rewrite lookup_insert_eq. eauto.
Qed.

Lemma step_device_kept s s' k : step s s' → is_Some (devices s.1 !! k) → is_Some (devices s'.1 !! k).
Proof.
  step_cases; try done; intros Hk;
    (destruct (decide (k = (v, dev_ID device))) as [->|] || destruct (decide (k = (v, d))) as [->|]);
    rewrite ?lookup_insert_eq, ?lookup_insert_ne by congruence; eauto.
Qed.

Lemma step_ok_devices s s' v' d row :
  step s s' → db_ok s.1 → devices s'.1 !! (v', d) = Some row →
  is_Some (vaults s'.1 !! v') ∧ keys_ok (d_device row).
Proof.
  intros Hs Hok Hrow. destruct (step_devices _ _ _ _ _ Hs Hrow) as [(old & E & <- & _)|
    (-> & _ & _ & [(_ & Hv & Hk)|(e & E & ->)])].
  - apply ok_devices in E as [Hv Hk]; [|done]. split; [|done]. by eapply step_vaults.
  - done.
  - apply ok_enrollments in E as (Hv & Hk & _); [|done]. split; [by eapply step_vaults|]. apply Hk.
Qed.

Lemma step_enrollments s s' v' d row :
  step s s' → enrollments s'.1 !! (v', d) = Some row →
  (enrollments s.1 !! (v', d) = Some row) ∨
  (v' = v ∧ ((enrollments s.1 !! (v, d) = None ∧ is_Some (vaults s.1 !! v) ∧ keys_ok (e_device row) ∧
       e_approved row = false) ∨
     (∃ old envelope, enrollments s.1 !! (v, d) = Some old ∧ e_approved old = false ∧
        row = approved_row old envelope ∧ is_Some (devices s'.1 !! (v, d))))).
Proof.
  step_cases; intros Hrow; lookups; eauto 8; right; split; try done.
  all: right; do 2 eexists; split_and!; try done; rewrite lookup_insert_eq; eauto.
Qed.

Lemma step_ok_enrollments s s' v' d row :
  step s s' → db_ok s.1 → enrollments s'.1 !! (v', d) = Some row →
  is_Some (vaults s'.1 !! v') ∧ keys_ok (e_device row) ∧
  (e_approved row = true → is_Some (devices s'.1 !! (v', d)) ∧ is_Some (e_envelope row)).
Proof.
  intros Hs Hok Hrow. destruct (step_enrollments _ _ _ _ _ Hs Hrow) as [E|
    (-> & [(_ & Hv & Hk & Ha)|(old & envelope & E & _ & -> & Hd)])].
  - apply ok_enrollments in E as (Hv & Hk & Ha); [|done]. split_and!; [by eapply step_vaults|done|].
    intros [Hd He]%Ha. split; [by eapply step_device_kept|done].
  - split_and!; [by eapply step_vaults|done|congruence].
  - apply ok_enrollments in E as (Hv & Hk & _); [|done].
    split_and!; [by eapply step_vaults|done|]. simpl. eauto.
Qed.

(** What a step does to the row of an invitation. *)
Definition invitation_moves (old row : InvitationRow) : Prop :=
  row = old ∨
  (i_state old = InvitationPending ∧
   ((∃ state t who, state ≠ InvitationPending ∧ state ≠ InvitationAttemptsExhausted ∧
       row = ended_row old state t who) ∨
    (∃ t who, 0 ≤ i_failed_attempts old + 1 ≤ 5 ∧ row = failed_row old t who))).

Lemma step_invitation s s' v' d row :
  step s s' → invitations s'.1 !! (v', d) = Some row →
  (∃ old, invitations s.1 !! (v', d) = Some old ∧ invitation_moves old row) ∨
  (v' = v ∧ invitations s.1 !! (v, d) = None ∧ enrollments s.1 !! (v, d) = None ∧
     ∃ t, moment a b t ∧ row = fresh_invitation (format_rfc3339 (t + invitationLifetime))).
Proof.
  unfold invitation_moves.
  step_cases; intros Hrow; lookups; eauto 8; left; eexists; (split; [done|]); right; (split; [done|]); eauto 8.
  all: left; do 3 eexists; split_and!; [| |reflexivity]; try done; by destruct action.
Qed.

Lemma moves_ok old row : invitation_ok old → invitation_moves old row → invitation_ok row.
Proof.
  intros Hok [->|[Ep Hmove]]; [done|]. destruct Hok as (Hn & Hex & Hp & Ht & Hv).
  destruct Hmove as [(state & t & who & H1 & H2 & ->)|(t & who & Hb & ->)];
    unfold invitation_ok, failed_row; simpl.
  - assert (i_failed_attempts old ≠ invitationMaxAttempts) by (intros E%Hex; congruence). naive_solver.
  - unfold invitationMaxAttempts in *. destruct (Z.leb_spec 5 (i_failed_attempts old + 1)); naive_solver lia.
Qed.

Lemma fresh_invitation_ok t : invitation_ok (fresh_invitation t).
Proof. split_and!; simpl; unfold invitationMaxAttempts; naive_solver lia. Qed.

(** The row of an enrollment with an invitation is approved together with it. *)
Lemma step_invited_enrollment s s' v' d row :
  step s s' → db_ok s.1 → invitations s'.1 !! (v', d) = Some row →
  ∃ e, enrollments s'.1 !! (v', d) = Some e ∧ (i_state row = InvitationApproved ↔ e_approved e = true).
Proof.
  intros Hs Hok. assert (Hinv := ok_invitations _ Hok). clear Hok. revert Hs Hinv.
  step_cases; intros Hinv Hrow; lookups;
    try match goal with H : invitations _ !! _ = Some row |- _ =>
      pose proof (Hinv _ _ _ H) as (_ & e & He & Hiff); exists e; split; [|done];
      first [exact He | rewrite lookup_insert_ne by congruence; exact He]
    end.
  - rewrite lookup_insert_eq. by eexists.
  - rewrite lookup_insert_eq. by eexists.
  - apply Hinv in H1 as (_ & e & He & Hiff). exists e. split; [done|]. rewrite <-Hiff, H2. by destruct action.
  - apply Hinv in H as (_ & e & He & Hiff). exists e. split; [done|]. by rewrite <-Hiff, H0.
  - apply Hinv in H as (_ & e & He & Hiff). exists e. split; [done|]. rewrite <-Hiff, H0. by destruct (_ <=? _).
Qed.

Lemma step_ok_invitations s s' v' d row :
  step s s' → db_ok s.1 → invitations s'.1 !! (v', d) = Some row →
  invitation_ok row ∧
  ∃ e, enrollments s'.1 !! (v', d) = Some e ∧ (i_state row = InvitationApproved ↔ e_approved e = true).
Proof.
  intros Hs Hok Hrow. split; [|by eapply step_invited_enrollment].
  destruct (step_invitation _ _ _ _ _ Hs Hrow) as [(old & E & Hmove)|(-> & _ & _ & t & _ & ->)].
  - eapply moves_ok; [|done]. by eapply ok_invitations.
  - apply fresh_invitation_ok.
Qed.

(** The final active device of a vault stays active. *)
Lemma step_ok_active s s' v' :
  step s s' → (∀ v, is_Some (vaults s.1 !! v) → 1 ≤ count_active v s.1) →
  is_Some (vaults s'.1 !! v') → 1 ≤ count_active v' s'.1.
Proof.
  step_cases; intros Hact Hv; eauto.
  - destruct (decide (v = v')) as [->|Hne].
    + rewrite count_active_put by done. rewrite decide_True by done. unfold count_active. lia.
    + rewrite lookup_insert_ne in Hv by done. rewrite count_active_put by done.
      rewrite decide_False by done. rewrite Z.add_0_r. apply (Hact _ Hv).
  - unfold register. rewrite count_active_put by done. specialize (Hact _ Hv).
    destruct (decide _); [|unfold count_active in *; simpl in *; lia]. unfold count_active in *; simpl in *; lia.
  - unfold register. rewrite count_active_put by done. specialize (Hact _ Hv).
    destruct (decide _); unfold count_active in *; simpl in *; lia.
  - specialize (Hact _ Hv). change (1 ≤ count_active v' (put_device v d (revoked_row row (format_rfc3339 t)) db)).
    rewrite (count_active_revoke _ _ _ row) by done. destruct (decide (v = v')) as [->|]; lia.
Qed.

(** A record is stored under the next revision; an object may be deleted. *)
Definition record_moves (k : Table) (old new : option RecordRow) : Prop :=
  new = old ∨
  (∃ row, new = Some row ∧ r_revision row = wrap64 (default 0 (r_revision <$> old) + 1) ∧ 0 < r_revision row) ∨
  (k = Objects ∧ new = None).

Lemma step_record s s' k v' id :
  step s s' → record_moves k (table_rows k s.1 !! (v', id)) (table_rows k s'.1 !! (v', id)).
Proof.
  step_cases; try by left.
  1-2: destruct (decide ((v, id0) = (v', id))) as [[= -> ->]|];
    [rewrite lookup_insert_eq; right; left; eauto|rewrite lookup_insert_ne by done; by left].
  destruct (decide ((v, id0) = (v', id))) as [[= -> ->]|];
    [rewrite lookup_delete_eq; by right; right|rewrite lookup_delete_ne by done; by left].
Qed.

Lemma step_ok_tables s s' k v' id row :
  step s s' → db_ok s.1 → table_rows k s'.1 !! (v', id) = Some row →
  0 < r_revision row ≤ max_int64 ∧ storable k id row.
Proof.
  intros Hs Hok. assert (Htab := ok_tables _ Hok). clear Hok. revert Hs Htab.
  step_cases; intros Htab Hrow;
    try (by eapply (Htab Records)); try (by eapply (Htab Objects)); lookups;
    try (by eapply (Htab Records)); try (by eapply (Htab Objects)).
  - split; [|done]. split; [done|]. rewrite H1. apply wrap64_range.
  - split; [|done]. split; [done|]. rewrite H1. apply wrap64_range.
  - apply lookup_delete_Some in Hrow as [_ Hrow]. by eapply (Htab Objects).
Qed.

Lemma step_ok s s' : step s s' → db_ok s.1 → db_ok s'.1.
Proof.
  intros Hs Hok. split; intros *.
  - apply (step_revocations _ _ Hs), Hok.
  - by apply step_ok_devices with (s := s).
  - by apply step_ok_enrollments with (s := s).
  - by apply step_ok_invitations with (s := s).
  - apply step_ok_active with (s := s); [done|]. apply Hok.
  - by apply step_ok_tables with (s := s).
Qed.
End Invariant.

(** From the steps of one transaction to the requests of a service: what a path
    says of the request that took it, and what every sequence of requests
    preserves. *)

Section History.
Context {crypto : Crypto} {env : Env} {wire : Wire}.

(** ** Paths *)

(** The request carries a signature that verifies under the key on file. *)
Definition authentic (r : Request) (v : string) (db : Db) : Prop :=
  ∃ key, key_on_file db v (actor r) key ∧ signed_under r key.

(** It is recent, by the clock at effects [a] to [b], and its nonce is new. *)
Definition fresh (r : Request) (v : string) (a b : nat) (db : Db) : Prop :=
  ValidateNonce (r_header r HeaderNonce) = Ok tt ∧
  nonces db !! (v, actor r, r_header r HeaderNonce) = None ∧
  ∃ t, moment a b t ∧ ValidateTimestamp (r_header r HeaderTimestamp) t = Ok tt.

Definition revoked (db : Db) (v d : string) : Prop :=
  ∃ row, devices db !! (v, d) = Some row ∧ d_revoked_at row ≠ None.

(** What the standing of a path says of the tables it started from. *)
Definition standing_ok (r : Request) (v : string) (a b : nat) (start : Db) (s : Db * Standing) : Prop :=
  match s.2 with
  | Anonymous => s.1 = start
  | Public => True
  | Signed => authentic r v start ∧ devices s.1 = devices start ∧ nonces s.1 = nonces start
  | Identified => authentic r v start ∧ fresh r v a b start ∧ devices s.1 = devices start
  | Accepted => authentic r v start ∧ fresh r v a b start ∧ ¬ revoked start v (actor r)
  end.

Lemma step_standing r v a b start s s' :
  tx_step r v a b s s' → standing_ok r v a b start s → standing_ok r v a b start s'.
Proof.
  unfold standing_ok. step_cases; try done.
  - intros ->. split; [by exists key|done].
  - intros (Hau & Ed & En). split_and!; [done| |done]. rewrite En in H2. split_and!; [done..|]. by exists t.
  - intros (Hau & Hf & Ed). split_and!; [done..|]. rewrite Ed in H. intros (row & Erow & Hrow). eauto.
  - by destruct st.
Qed.

Lemma path_standing r v a b start s :
  rtc (tx_step r v a b) (start, Anonymous) s → standing_ok r v a b start s.
Proof.
  revert s. apply (rtc_ind_r (R := tx_step r v a b) (standing_ok r v a b start)); [done|].
  eauto using step_standing.
Qed.

Lemma steps_ok r v a b s s' : rtc (tx_step r v a b) s s' → db_ok s.1 → db_ok s'.1.
Proof. induction 1; [done|]. eauto using step_ok. Qed.

(** A relation that every step respects relates the ends of a path. *)
Lemma steps_related (R : Db → Db → Prop) `{!PreOrder R} r v a b s s' :
  (∀ s s', tx_step r v a b s s' → db_ok s.1 → R s.1 s'.1) →
  rtc (tx_step r v a b) s s' → db_ok s.1 → R s.1 s'.1.
Proof.
  intros HR Hp. induction Hp as [s|s1 s2 s3 Hs Hp IH]; intros Hok; [done|].
  etrans; [by apply HR|]. apply IH. by eapply step_ok.
Qed.

(** ** Requests *)

(** The path of a request, when its transaction was committed. *)
Lemma serve_path r w :
  revocations_ok (committed w) →
  ∃ v st, rtc (tx_step r v (effects w) (effects (serve r w).2)) (committed w, Anonymous)
    (committed (serve r w).2, st).
Proof.
  intros (v & signed & (_ & [[E _]|(_ & st & Hp & _)]) & _)%(serve_serves r w); [|by exists v, st].
  exists v, Anonymous. rewrite E. reflexivity.
Qed.

Lemma serve_effects r w : revocations_ok (committed w) → (effects w ≤ effects (serve r w).2)%nat.
Proof. by intros (v & signed & (H & _) & _)%(serve_serves r w). Qed.

Lemma serve_ok r w : db_ok (committed w) → db_ok (committed (serve r w).2).
Proof.
  intros Hok. destruct (serve_path r w) as (v & st & Hp); [apply Hok|]. by apply steps_ok in Hp.
Qed.

Lemma serve_related (R : Db → Db → Prop) `{!PreOrder R} r w :
  (∀ v a b s s', tx_step r v a b s s' → db_ok s.1 → R s.1 s'.1) →
  db_ok (committed w) → R (committed w) (committed (serve r w).2).
Proof.
  intros HR Hok. destruct (serve_path r w) as (v & st & Hp); [apply Hok|].
  exact (steps_related R r v _ _ _ _ (HR v _ _) Hp Hok).
Qed.

Lemma serve_all_ok l w : db_ok (committed w) → db_ok (committed (serve_all l w)).
Proof. revert w. induction l as [|r l IH]; intros w Hok; [done|]. by apply IH, serve_ok. Qed.

Lemma serve_all_related (R : Db → Db → Prop) `{!PreOrder R} l w :
  (∀ r v a b s s', tx_step r v a b s s' → db_ok s.1 → R s.1 s'.1) →
  db_ok (committed w) → R (committed w) (committed (serve_all l w)).
Proof.
  intros HR. revert w. induction l as [|r l IH]; intros w Hok; simpl; [done|].
  transitivity (committed (serve r w).2); [eapply serve_related; eauto|]. by apply IH, serve_ok.
Qed.

(** A reply below 400 to a signed request: its path ends [Accepted]. *)
Lemma serve_accepted r w v :
  revocations_ok (committed w) → signed_vault (target r) = Some v →
  status (serve r w).1 < 400 →
  rtc (tx_step r v (effects w) (effects (serve r w).2)) (committed w, Anonymous)
    (committed (serve r w).2, Accepted).
Proof.
  intros Hok Hv Hs. destruct (serve_signed r w v Hok Hv) as (_ & [[_ H]|(_ & st & Hp & Hst)]); [lia|].
  destruct (Hst Hs) as [E _]. by rewrite E in Hp.
Qed.

(** ** Reachable worlds *)

(** The wrap-around of the greatest revision is negative, which the schema refuses. *)
Lemma next_revision current : 0 < current ≤ max_int64 → 0 < wrap64 (current + 1) → wrap64 (current + 1) = current + 1.
Proof.
  intros Hc Hw. destruct (decide (current = max_int64)) as [->|]; [by vm_compute in Hw|].
  apply wrap64_small. unfold min_int64, max_int64 in *. lia.
Qed.

(** The worlds of a service that was opened on an empty database. *)
Definition reachable (w : World) : Prop := ∃ l w0, committed w0 = empty_db ∧ w = serve_all l w0.

Lemma reachable_ok w : reachable w → db_ok (committed w).
Proof. intros (l & w0 & E & ->). apply serve_all_ok. rewrite E. apply empty_ok. Qed.
End History.
