(* ===== verification/ServerExample.v ===== *)
(** A small concrete service, on which the properties are applied: the
    primitives are replaced by computable ones and the bodies by fixed values. *)
From S2P Require Import Prelude Base64 Timestamp Text Secure Protocol ServerState ServerTx.
From S2P Require Import ServerVault ServerInvitations ServerRoutes ServerSpec.
From S2P Require Import ServerSpec ServerLogic ServerRefinement ServerHistory.
From S2P Require Import ServerHistory.
From stdpp Require Import options.

(** [n] copies of a byte. *)
Fixpoint repeat_byte (n : nat) (c : ascii) : string :=
  match n with O => "" | S n => String c (repeat_byte n c) end.

Definition demo_key (c : ascii) : string := encode (repeat_byte 32 c).

(** A signature is valid when it is the text [sig]. *)
#[export] Instance demo_crypto : Crypto := {|
  sha256 := λ s, substring 0 32 (s +:+ repeat_byte 32 "000");
  ed25519_verify := λ _ _ s, String.eqb s "sig";
  x25519_usable := λ _, true;
|}.

(** No fault, and the effect counter as the source of random bytes. *)
Definition demo_env (clock : nat → Z) : Env := {|
  ServerTx.clock := clock; fault := λ _, false; cut := λ _, None;
  entropy := λ n, Some (repeat_byte 17 "r" +:+ String (ascii_of_nat n) "");
|}.

Definition demo_blob : Blob :=
  {| blob_version := 1; blob_nonce := encode (repeat_byte 12 "n"); blob_ciphertext := encode (repeat_byte 16 "c") |}.
Definition demo_envelope : WrappedKey :=
  {| wk_version := 1; wk_ephemeral_key := demo_key "e"; wk_blob := demo_blob |}.

#[export] Instance demo_wire : Wire := {|
  json_CreateVaultRequest := λ _, Some {| cv_Name := "vault"; cv_Device :=
    {| dev_ID := ""; dev_Name := "laptop"; dev_SigningPublic := demo_key "s";
       dev_WrappingPublic := demo_key "w"; dev_Fingerprint := ""; dev_CreatedAt := "" |} |};
  json_EnrollmentRequest := λ _, Some {| er_Name := "phone"; er_SigningPublic := demo_key "p";
    er_WrappingPublic := demo_key "q" |};
  json_EnrollmentApproval := λ _, Some demo_envelope;
  json_PutRecordRequest := λ _, Some {| pr_ExpectedRevision := 0; pr_Blob := demo_blob |};
  json_PutVaultObjectRequest := λ _, Some {| po_ExpectedRevision := 0;
    po_ModifiedAt := "2026-08-09T20:00:00Z"; po_Blob := demo_blob |};
  json_DeleteVaultObjectRequest := λ _, Some 1;
  json_strict_InvitationRequest := λ _, Some {| ir_Version := 1; ir_Name := "phone";
    ir_SigningPublic := demo_key "p"; ir_WrappingPublic := demo_key "q" |};
  json_strict_InvitationApproval := λ body, Some {| ia_Version := 1; ia_DeviceID := body;
    ia_Fingerprint := PublicFingerprint (demo_key "p") (demo_key "q"); ia_Envelope := demo_envelope |};
  json_strict_InvitationTransition := λ body, Some {| it_Version := 1; it_DeviceID := body;
    it_Fingerprint := PublicFingerprint (demo_key "p") (demo_key "q") |};
|}.

(** 2026-08-09T20:00:00Z *)
Definition demo_time : Z := 1786305600 * second.
Definition demo_id (n : nat) : string := encode (repeat_byte 17 "r" +:+ String (ascii_of_nat n) "").

Definition demo_request (method path body device timestamp nonce : string) : Request :=
  {| r_method := method; r_path := path; r_uri := path; r_query := λ _, "";
     r_header := λ h, if String.eqb h HeaderDevice then device
       else if String.eqb h HeaderTimestamp then timestamp
       else if String.eqb h HeaderNonce then encode (repeat_byte 18 (default "0"%char (String.get 0 nonce)))
       else if String.eqb h HeaderSignature then encode "sig" else "";
     r_body := body; r_body_fails := false |}.

Definition demo_start : World := MkWorld empty_db empty_db 0.
Definition demo_create : Request := demo_request "POST" "/v1/vaults" "" "" "" "".

(** The vault and the device that the first request creates. *)
Definition demo_vault : string := demo_id 0.
Definition demo_device : string := demo_id 1.

Definition demo_signed (method rest body nonce : string) : Request :=
  demo_request method ("/v1/vaults/" +:+ demo_vault +:+ "/" +:+ rest) body demo_device
    (format_rfc3339 demo_time) nonce.

(** The clock stands still. *)
#[export] Instance demo_still : Env := demo_env (λ _, demo_time).

Definition demo_world (l : list Request) : World := serve_all (demo_create :: l) demo_start.

Lemma demo_reachable l : reachable (demo_world l).
Proof. by exists (demo_create :: l), demo_start. Qed.

Example demo_put : (serve (demo_signed "PUT" "records/r1" "" "a") (demo_world [])).1 =
  {| status := 200; payload := BRecord {| rec_ID := "r1"; rec_Revision := 1; rec_Blob := demo_blob;
     rec_ModifiedAt := "2026-08-09T20:00:00Z" |} |}.
Proof. vm_compute. reflexivity. Qed.
