(* ===== verification/ServerLog.v ===== *)
(** The access log: what its insertion and pruning preserve, its cursors and
    its pages. *)
From S2P Require Import Prelude Base64 Timestamp Text Secure Protocol.
From S2P Require Import ServerState ServerTx ServerVault ServerInvitations ServerRoutes.
From S2P Require Import ServerRoutes ServerSpec ServerLogic ServerRefinement.
From S2P Require Import ServerHistory ServerExample.
From stdpp Require Import options.

(** ** Cursors *)

Lemma big_endian_value_app acc s c :
  big_endian_value acc (s +:+ String c "") = big_endian_value acc s * 256 + code c.
Proof. revert acc. induction s as [|x s IH]; intros acc; [done|]. rewrite string_app_cons. apply IH. Qed.

Lemma big_endian_inverse n z : 0 ≤ z < 256 ^ Z.of_nat n → big_endian_value 0 (big_endian n z) = z.
Proof.
  revert z. induction n as [|n IH]; intros z Hz; [simpl in *; lia|].
  rewrite Nat2Z.inj_succ, Z.pow_succ_r in Hz by lia. cbn [big_endian].
  rewrite big_endian_value_app, code_chr, IH; pose proof (Z.div_mod z 256); pose proof (Z.mod_pos_bound z 256);
    [lia| |lia]. split; [apply Z.div_pos; lia|apply Z.div_lt_upper_bound; lia].
Qed.

Lemma big_endian_length n z : String.length (big_endian n z) = n.
Proof. revert z. induction n as [|n IH]; intros z; [done|]. cbn [big_endian]. rewrite string_length_app, IH. cbn. lia. Qed.

(** The cursor of an int64 is read back as it when it is the number of a row, and
    refused otherwise: zero and the negative numbers, which the eight bytes carry
    as their two's complement, select no page. *)
Lemma decodeEventCursor_encode sequence :
  - 2 ^ 63 ≤ sequence < 2 ^ 63 →
  decodeEventCursor (encodeEventCursor sequence) = if 0 <? sequence then Some sequence else None.
Proof.
  intros H. unfold decodeEventCursor, encodeEventCursor. rewrite decode_encode.
  unfold slen. rewrite big_endian_length. change (Z.of_nat 8 =? 8) with true. cbn [negb].
  pose proof (Z.mod_pos_bound sequence (2 ^ 64) ltac:(lia)).
  rewrite big_endian_inverse by (simpl; lia). unfold max_int64.
  destruct (Z.ltb_spec 0 sequence).
  - rewrite Z.mod_small by lia. replace (sequence =? 0) with false by lia.
    replace (2 ^ 63 - 1 <? sequence) with false by lia. done.
  - destruct (decide (sequence = 0)) as [->|]; [done|].
    assert (E : sequence mod 2 ^ 64 = sequence + 2 ^ 64) by (symmetry; apply (Z.mod_unique_pos _ _ (-1)); lia).
    rewrite E. replace (2 ^ 63 - 1 <? sequence + 2 ^ 64) with true by lia. by rewrite orb_true_r.
Qed.

(** ** The order of the log *)

Definition before_event (e e' : EventRow) : Prop := ev_sequence e < ev_sequence e'.
Definition log_sorted (l : list EventRow) : Prop := StronglySorted before_event l.

Lemma log_sorted_filter (P : EventRow → Prop) `{!∀ e, Decision (P e)} l : log_sorted l → log_sorted (filter P l).
Proof.
  unfold log_sorted. induction l as [|e l IH]; [done|]. rewrite StronglySorted_cons. intros [Hall Hs].
  rewrite filter_cons. destruct (decide (P e)); [|auto]. rewrite StronglySorted_cons. split; [|auto].
  rewrite Forall_forall in *. intros x [_ Hx]%list_elem_of_filter. auto.
Qed.

Lemma log_sorted_snoc l e : log_sorted l → (∀ x, x ∈ l → before_event x e) → log_sorted (l ++ [e]).
Proof.
  intros Hl He. apply StronglySorted_app_2; [|done|by repeat constructor].
  intros x y Hx ->%list_elem_of_singleton. auto.
Qed.

Lemma log_sorted_nodup l : log_sorted l → NoDup (ev_sequence <$> l).
Proof.
  unfold log_sorted. induction l as [|e l IH]; [constructor|]. rewrite StronglySorted_cons. intros [Hall Hs].
  simpl. constructor; [|auto]. intros (x & E & Hx)%list_elem_of_fmap. rewrite Forall_forall in Hall.
  specialize (Hall _ Hx). unfold before_event in Hall. lia.
Qed.

(** ** Retention *)

Definition cap (verified : bool) : nat := if verified then maxVerifiedEvents else maxUnverifiedEvents.

Definition class_size (v : string) (verified : bool) (l : list EventRow) : nat :=
  List.length (filter (λ e, of_class v verified e = true) l).

(** The log of a service: the sequences increase and are at most the last one
    given out, and each vault has at most its share of events of each class. *)
Record log_ok (db : Db) : Prop := {
  log_ok_sorted : log_sorted (access_events db);
  log_ok_bound : ∀ e, e ∈ access_events db → 0 < ev_sequence e ≤ event_sequence db;
  log_ok_sequence : 0 ≤ event_sequence db ≤ max_int64;
  log_ok_size : ∀ v verified, (class_size v verified (access_events db) ≤ cap verified)%nat;
}.

Lemma class_size_filter v verified (P : EventRow → Prop) `{!∀ e, Decision (P e)} l :
  (class_size v verified (filter P l) ≤ class_size v verified l)%nat.
Proof.
  unfold class_size. rewrite list_filter_filter. induction l as [|e l IH]; [done|].
  rewrite !filter_cons. repeat case_decide; simpl in *; [lia|naive_solver|lia|lia].
Qed.

Lemma class_size_excess v verified limit l :
  log_sorted l →
  (class_size v verified (filter (λ e, of_class v verified e = false ∨
     ev_sequence e ∈ newest v verified limit l) l) ≤ limit)%nat.
Proof.
  intros Hs. unfold class_size. set (kept := filter _ (filter _ l)).
  assert (Hk : (List.length (ev_sequence <$> kept) ≤ List.length (newest v verified limit l))%nat).
  { apply submseteq_length, NoDup_submseteq.
    - apply log_sorted_nodup. do 2 apply log_sorted_filter. done.
    - intros x (e & -> & He)%list_elem_of_fmap. unfold kept in He.
      apply list_elem_of_filter in He as [Hc He]. apply list_elem_of_filter in He as [[Hn|Hn] _]; [congruence|done]. }
  rewrite length_fmap in Hk. etrans; [done|]. unfold newest. rewrite length_take. lia.
Qed.

Lemma class_size_other v v' verified verified' limit l :
  (v', verified') ≠ (v, verified) →
  class_size v' verified' (filter (λ e, of_class v verified e = false ∨
     ev_sequence e ∈ newest v verified limit l) l) = class_size v' verified' l.
Proof.
  intros Hne. unfold class_size. rewrite list_filter_filter. f_equal. apply list_filter_iff.
  intros e. split; [by intros [? _]|]. intros He. split; [done|]. left.
  unfold of_class in *. apply andb_true_iff in He as [->%String.eqb_eq ->%Bool.eqb_prop].
  destruct (String.eqb_spec v' v) as [->|]; [|done]. by destruct verified', verified.
Qed.

Lemma pruned_ok v now db db' :
  log_sorted (access_events db) → (∀ e, e ∈ access_events db → 0 < ev_sequence e ≤ event_sequence db) →
  0 ≤ event_sequence db ≤ max_int64 →
  (∀ v' verified, v' ≠ v → (class_size v' verified (access_events db) ≤ cap verified)%nat) →
  pruned v now db = Some db' → log_ok db'.
Proof.
  intros Hs Hb Hq Hsize [= <-]. split; simpl.
  - by do 3 apply log_sorted_filter.
  - intros e He. do 3 apply list_elem_of_filter in He as [_ He]. auto.
  - done.
  - intros v' verified. set (l1 := filter _ (access_events db)).
    assert (Hl1 : log_sorted l1) by (by apply log_sorted_filter).
    destruct (decide (v' = v)) as [->|Hne].
    + destruct verified; unfold cap.
      * rewrite class_size_other by congruence. by apply class_size_excess.
      * apply class_size_excess. by apply log_sorted_filter.
    + rewrite !class_size_other by congruence. etrans; [apply class_size_filter|auto].
Qed.

Lemma insert_event_ok v id now event db db' n :
  log_ok db → insert_event (event_row id v now event) db = Some (db', n) →
  log_sorted (access_events db') ∧ (∀ e, e ∈ access_events db' → 0 < ev_sequence e ≤ event_sequence db') ∧
  0 ≤ event_sequence db' ≤ max_int64 ∧
  (∀ v' verified, v' ≠ v → (class_size v' verified (access_events db') ≤ cap verified)%nat).
Proof.
  intros [Hs Hb Hq Hsize]. unfold insert_event. destruct (_ || _) eqn:Ec; [done|]. intros [= <- _]. simpl.
  apply orb_false_iff in Ec as [[Hmax%Z.ltb_ge _]%orb_false_iff _]. split_and!.
  - apply log_sorted_snoc; [done|]. intros x Hx%Hb. unfold before_event. simpl. lia.
  - intros e [He%Hb| ->%list_elem_of_singleton]%elem_of_app; simpl; lia.
  - lia.
  - lia.
  - intros v' verified Hne. unfold class_size. rewrite filter_app, length_app.
    rewrite (filter_cons_False _ (event_row id v now event _)); [simpl; rewrite Nat.add_0_r; apply Hsize|].
    unfold of_class. simpl. by destruct (String.eqb_spec v v').
Qed.

Lemma logged_ok v id now event db db' : log_ok db → logged v id now event db = Some db' → log_ok db'.
Proof.
  intros Hok. unfold logged. destruct (insert_event _ db) as [[db1 n]|] eqn:E; [|done]. simpl.
  apply insert_event_ok in E as (H1 & H2 & H3 & H4); [|done]. by apply pruned_ok.
Qed.

Lemma log_ok_same db db' :
  access_events db' = access_events db → event_sequence db' = event_sequence db → log_ok db → log_ok db'.
Proof. intros E1 E2 [Hs Hb Hq Hsize]. split; rewrite ?E1, ?E2; done. Qed.

Lemma empty_log_ok : log_ok empty_db.
Proof. split; simpl; [apply SSorted_nil|by intros e ?%elem_of_nil|by vm_compute|intros v verified; apply Nat.le_0_l]. Qed.

Section Retention.
Context {crypto : Crypto} {env : Env} {wire : Wire}.

Lemma step_log_ok r v a b s s' : tx_step r v a b s s' → log_ok s.1 → log_ok s'.1.
Proof.
  intros Hs. destruct Hs; simpl; intros Hok; try (by apply (log_ok_same db)).
  - by eapply logged_ok.
  - apply (log_ok_same db); [by destruct k..|done].
Qed.

Lemma serve_all_log_ok l w : db_ok (committed w) → log_ok (committed w) → log_ok (committed (serve_all l w)).
Proof.
  revert w. induction l as [|r l IH]; intros w Hok Hlog; [done|]. apply IH; [by apply serve_ok|].
  destruct (serve_path r w) as (v & st & Hp); [apply Hok|].
  change (committed w) with (committed w, Anonymous).1 in Hlog.
  change (committed (serve r w).2) with (committed (serve r w).2, st).1.
  clear Hok. induction Hp; [done|]. eauto using step_log_ok.
Qed.

(** In every reachable state the events of the log are in the order of
    their sequences, and a vault has at most 10000 events of verified
    identities and 2000 others. *)
Theorem log_retention w : reachable w → log_ok (committed w).
Proof.
  intros (l & w0 & E & ->). apply serve_all_log_ok; rewrite E; [apply empty_ok|apply empty_log_ok].
Qed.
End Retention.

Lemma log_retention_witness : reachable (demo_world []) ∧ log_ok (committed (demo_world [])).
Proof. split; [apply demo_reachable|]. apply log_retention, demo_reachable. Defined.

(** ** Pages *)

Definition after_event (e e' : EventRow) : Prop := ev_sequence e' < ev_sequence e.

Lemma log_sorted_reverse l : log_sorted l → StronglySorted after_event (reverse l).
Proof.
  unfold log_sorted. induction l as [|e l IH]; [constructor|]. rewrite StronglySorted_cons. intros [Hall Hs].
  rewrite reverse_cons. apply StronglySorted_app_2; [|auto|by repeat constructor].
  intros x y Hx ->%list_elem_of_singleton. rewrite elem_of_reverse in Hx. rewrite Forall_forall in Hall.
  by apply Hall.
Qed.

(** In a list that descends, the elements below the [i]th are the rest. *)
Lemma descending_drop l i x :
  StronglySorted after_event l → l !! i = Some x →
  filter (λ e, ev_sequence e < ev_sequence x) l = drop (S i) l.
Proof.
  revert i. induction l as [|e l IH]; intros i; [done|]. rewrite StronglySorted_cons. intros [Hall Hs] Hi.
  rewrite Forall_forall in Hall. unfold after_event in *. destruct i as [|i]; simpl in Hi.
  - injection Hi as ->. rewrite filter_cons_False by lia. simpl.
    apply list_filter_all. intros y Hy. by apply Hall.
  - assert (Hx : x ∈ l) by (apply list_elem_of_lookup; eauto). specialize (Hall _ Hx).
    rewrite filter_cons_False by lia. by apply IH.
Qed.

(** The events of a vault before a sequence, newest first. *)
Definition descending (v : string) (before : Z) (db : Db) : list EventRow :=
  reverse (filter (λ e, ev_vault e = v ∧ (before ≠ 0 → ev_sequence e < before)) (access_events db)).

Lemma select_events_descending v before n db :
  select_events v before n db = take n (scanAccessEvent <$> descending v before db).
Proof. done. Qed.

Lemma descending_elem v before db e :
  e ∈ descending v before db ↔ (ev_vault e = v ∧ (before ≠ 0 → ev_sequence e < before)) ∧ e ∈ access_events db.
Proof. unfold descending. by rewrite elem_of_reverse, list_elem_of_filter. Qed.

Lemma descending_next v before db i x :
  log_ok db → descending v before db !! i = Some x →
  descending v (ev_sequence x) db = drop (S i) (descending v before db).
Proof.
  intros Hlog Hi. assert (Hx : x ∈ descending v before db) by (apply list_elem_of_lookup; eauto).
  rewrite <-(descending_drop _ _ x); [|apply log_sorted_reverse, log_sorted_filter, Hlog|done].
  unfold descending. rewrite filter_reverse, list_filter_filter. f_equal. apply list_filter_iff. intros e.
  apply descending_elem in Hx as [[_ Hb] Hx]. apply (log_ok_bound _ Hlog) in Hx.
  split; [|naive_solver lia]. intros [Hv Hs]. specialize (Hs ltac:(lia)). split; [done|]. split; [done|].
  intros Hne. specialize (Hb Hne). lia.
Qed.

(** Following the cursor of a page visits the events of the vault without
    a gap or a repetition: a page without a cursor is the last one, and the
    cursor of a page selects exactly the events after those of the page. *)
Theorem pages_are_contiguous v before limit db :
  log_ok db → (0 < limit)%nat →
  let '(events, cursor) := event_page limit (select_events v before (S limit) db) in
  events = (scanAccessEvent <$> take limit (descending v before db)).*2 ∧
  ((cursor = "" ∧ (List.length (descending v before db) ≤ limit)%nat) ∨
   ∃ next, decodeEventCursor cursor = Some next ∧ descending v next db = drop limit (descending v before db)).
Proof.
  intros Hlog Hlimit. unfold event_page. rewrite select_events_descending. set (l := descending v before db).
  rewrite take_take, Nat.min_l by lia. split; [f_equal; symmetry; apply fmap_take|].
  rewrite length_take, length_fmap. destruct (Nat.ltb_spec limit (S limit `min` List.length l)).
  - right. destruct limit as [|i]; [lia|]. destruct (lookup_lt_is_Some_2 l i) as [x Hx]; [lia|].
    assert (Hlast : last (take (S i) (scanAccessEvent <$> l)) = Some (scanAccessEvent x)).
    { rewrite last_lookup, length_take, length_fmap, Nat.min_l by lia. simpl.
      rewrite lookup_take_lt by lia. by rewrite list_lookup_fmap, Hx. }
    rewrite Hlast. exists (ev_sequence x). simpl. split; [|by apply descending_next].
    assert (Hin : x ∈ l) by (apply list_elem_of_lookup; eauto).
    apply descending_elem in Hin as [_ Hin]. apply (log_ok_bound _ Hlog) in Hin.
    pose proof (log_ok_sequence _ Hlog). unfold max_int64 in *. rewrite decodeEventCursor_encode by lia.
    by replace (0 <? ev_sequence x) with true by lia.
  - left. split; [done|lia].
Qed.

Lemma pages_are_contiguous_witness :
  log_ok (committed (demo_world [demo_signed "GET" "devices" "" "a"; demo_signed "GET" "records" "" "b"])) ∧
  (event_page 1 (select_events demo_vault 0 2 (committed (demo_world
    [demo_signed "GET" "devices" "" "a"; demo_signed "GET" "records" "" "b"])))).2 ≠ "" ∧
  let '(events, cursor) := event_page 1 (select_events demo_vault 0 2 (committed (demo_world
    [demo_signed "GET" "devices" "" "a"; demo_signed "GET" "records" "" "b"]))) in
  events = (scanAccessEvent <$> take 1 (descending demo_vault 0 (committed (demo_world
    [demo_signed "GET" "devices" "" "a"; demo_signed "GET" "records" "" "b"])))).*2 ∧
  ((cursor = "" ∧ (List.length (descending demo_vault 0 (committed (demo_world
    [demo_signed "GET" "devices" "" "a"; demo_signed "GET" "records" "" "b"]))) ≤ 1)%nat) ∨
   ∃ next, decodeEventCursor cursor = Some next ∧ descending demo_vault next (committed (demo_world
    [demo_signed "GET" "devices" "" "a"; demo_signed "GET" "records" "" "b"])) =
      drop 1 (descending demo_vault 0 (committed (demo_world
    [demo_signed "GET" "devices" "" "a"; demo_signed "GET" "records" "" "b"])))).
Proof.
  split; [apply serve_all_log_ok; [apply empty_ok|apply empty_log_ok]|]. split; [by vm_compute|].
  apply pages_are_contiguous; [|lia]. apply serve_all_log_ok; [apply empty_ok|apply empty_log_ok].
Defined.
