(* ===== verification/ServerProperties.v ===== *)
(** The properties of the service. *)
From S2P Require Import Prelude Base64 Timestamp Text Secure Protocol ServerState ServerTx.
From S2P Require Import ServerVault ServerInvitations ServerRoutes ServerSpec.
From S2P Require Import ServerSpec ServerLogic ServerRefinement ServerHistory.
From S2P Require Import ServerHistory ServerExample.
From stdpp Require Import options.

Section Properties.
Context {crypto : Crypto} {env : Env} {wire : Wire}.

(** ** Replays *)

(** The nonce of an accepted request is remembered, the device that used it is
    revoked, or ten minutes have passed since the request at time [t]. *)
Definition remembered (v d nonce : string) (t : Z) (db : Db) (n : nat) : Prop :=
  nonces db !! (v, d, nonce) = Some (format_rfc3339 t) ∨ revoked db v d ∨
  ∃ m, (m < n)%nat ∧ t + 10 * minute < clock m.

(** The clock of the service does not run backwards, and shows four-digit years. *)
Definition clock_ok : Prop :=
  (∀ n, clock n ≤ clock (S n)) ∧
  ∀ n, four_digit_year (unix (clock n)) ∧ four_digit_year (unix (clock n - 10 * minute)).

Lemma clock_mono : clock_ok → ∀ n m, (n ≤ m)%nat → clock n ≤ clock m.
Proof. intros [Hf _] n m. induction 1 as [|m _ IH]; [lia|]. specialize (Hf m). lia. Qed.

Lemma step_revoked r v a b s s' v' d : tx_step r v a b s s' → revoked s.1 v' d → revoked s'.1 v' d.
Proof.
  intros Hs (row & E & Hr). assert (H : is_Some (devices s'.1 !! (v', d))) by eauto using step_device_kept.
  destruct H as [row' E']. exists row'. split; [done|].
  destruct (step_devices _ _ _ _ _ _ _ _ _ Hs E') as [(old & Eold & _ & Hold)|(-> & Enone & _)];
    rewrite E in *; simplify_eq. destruct Hold as [?|<-]; congruence.
Qed.

Lemma step_remembered r v a b s s' v' d nonce t n :
  clock_ok → (∃ m, t = clock m) → (b ≤ n)%nat →
  tx_step r v a b s s' → remembered v' d nonce t s.1 n → remembered v' d nonce t s'.1 n.
Proof.
  intros [_ Hyears] [m0 ->] Hb Hs [Hn|[Hr|Hm]]; [|right; left; by eapply step_revoked|by right; right].
  revert Hs Hn. step_cases; intros Hn; try (by left).
  - left. simpl. rewrite lookup_insert_ne; [done|congruence].
  - destruct H as (m & Hm & ->). destruct (Z.le_gt_cases (clock m - 10 * minute) (clock m0)) as [Hle|Hgt].
    + left. apply map_lookup_filter_Some. split; [done|]. simpl. unfold format_rfc3339.
      rewrite format_unix_lt by apply Hyears. apply Z.ltb_ge. unfold unix.
      apply Z.div_le_mono; [done|lia].
    + right; right. exists m. lia.
  - destruct (decide ((v, d0) = (v', d))) as [[= -> ->]|Hne].
    + right; left. eexists. simpl. rewrite lookup_insert_eq. done.
    + left. apply map_lookup_filter_Some. split; [done|]. simpl. congruence.
Qed.

(** A path that stored a nonce remembers it. *)
Lemma path_remembered r v a b start s :
  clock_ok → rtc (tx_step r v a b) (start, Anonymous) s →
  s.2 = Identified ∨ s.2 = Accepted →
  ∃ t, moment a b t ∧ ValidateTimestamp (r_header r HeaderTimestamp) t = Ok tt ∧
    remembered v (actor r) (r_header r HeaderNonce) t s.1 b.
Proof.
  intros Hclock. revert s. apply (rtc_ind_r (R := tx_step r v a b) (λ s, s.2 = Identified ∨ s.2 = Accepted → _));
    [by intros [|]|].
  intros s1 s2 _ Hs IH Hst.
  assert (Hstep : s1.2 = Identified ∨ s1.2 = Accepted ∨ ∃ t, moment a b t ∧
      ValidateTimestamp (r_header r HeaderTimestamp) t = Ok tt ∧
      nonces s2.1 !! (v, actor r, r_header r HeaderNonce) = Some (format_rfc3339 t)).
  { clear IH. revert Hs Hst. step_cases; intros Hst; auto; try (by destruct Hst).
    - right; right. exists t. split_and!; [done..|]. by rewrite lookup_insert_eq.
    - destruct st; auto; by destruct Hst. }
  destruct Hstep as [H|[H|(t & Ht & Hv & Hn)]].
  1-2: destruct IH as (t & Ht & Hv & Hr); [by auto|]; exists t; split_and!; [done..|];
    eapply step_remembered; [done|destruct Ht as (m & _ & ->); by exists m|done|done|done].
  exists t. split_and!; [done..|]. by left.
Qed.

Lemma serve_all_remembered l w v d nonce t :
  clock_ok → (∃ m, t = clock m) → db_ok (committed w) →
  remembered v d nonce t (committed w) (effects w) →
  remembered v d nonce t (committed (serve_all l w)) (effects (serve_all l w)) ∧
  (effects w ≤ effects (serve_all l w))%nat.
Proof.
  intros Hclock Ht. revert w. induction l as [|r l IH]; intros w Hok Hr; simpl; [done|].
  destruct (serve_path r w) as (v' & st & Hp); [apply Hok|]. pose proof (serve_effects r w (ok_revocations _ Hok)).
  destruct (IH (serve r w).2) as [H1 H2]; [by apply serve_ok| |split; [done|lia]].
  assert (Hr' : remembered v d nonce t (committed w) (effects (serve r w).2)).
  { destruct Hr as [?|[?|(m & ? & ?)]]; [by left|by right; left|right; right; exists m; lia]. }
  clear -Hp Hr' Hclock Ht. change (committed w) with (committed w, Anonymous).1 in Hr'.
  change (committed (serve r w).2) with (committed (serve r w).2, st).1.
  induction Hp as [|s1 s2 s3 Hs Hp IH]; [done|]. apply IH. by eapply step_remembered.
Qed.

(** C1: a request that was answered with success is never answered with
    success again: no request under the same vault, device, nonce and timestamp
    is accepted after any number of other requests, whatever the faults of the
    database, as long as the clock does not run backwards and the timestamp is
    within 292 years of it. *)
Theorem no_request_accepted_twice r r' l w v sent :
  clock_ok → reachable w →
  canonicalTime (r_header r HeaderTimestamp) = Some sent → (∀ n, Z.abs (clock n - sent) ≤ max_int64) →
  signed_vault (target r) = Some v → signed_vault (target r') = Some v →
  actor r' = actor r → r_header r' HeaderNonce = r_header r HeaderNonce →
  r_header r' HeaderTimestamp = r_header r HeaderTimestamp →
  status (serve r w).1 < 400 →
  400 ≤ status (serve r' (serve_all l (serve r w).2)).1.
Proof.
  intros Hclock Hw Hsent Hnear Hv Hv' Ed En Et Hst. apply reachable_ok in Hw.
  destruct (Z.le_gt_cases 400 (status (serve r' (serve_all l (serve r w).2)).1)) as [|Hst']; [done|exfalso].
  pose proof (serve_accepted r w v (ok_revocations _ Hw) Hv Hst) as Hp.
  destruct (path_remembered _ _ _ _ _ _ Hclock Hp) as (t & (m & Hm & ->) & Hval & Hrem); [by right|].
  pose proof (serve_ok r w Hw) as Hok1.
  apply (serve_all_remembered l) in Hrem as [Hrem Heff]; [|done|by eexists|done].
  pose proof (serve_all_ok l _ Hok1) as Hok2. set (w2 := serve_all l (serve r w).2) in *.
  pose proof (serve_accepted r' w2 v (ok_revocations _ Hok2) Hv' Hst') as Hp'.
  apply path_standing in Hp' as (_ & (_ & Hnew & t' & (m' & Hm' & ->) & Hval') & Hunrev).
  rewrite Ed, En in Hnew. rewrite Ed in Hunrev. rewrite Et in Hval'.
  destruct Hrem as [Hrem|[Hrem|(k & Hk & Hlate)]]; [congruence|done|].
  apply ValidateTimestamp_near with (t := sent) in Hval; [|done|specialize (Hnear m); lia].
  apply ValidateTimestamp_near with (t := sent) in Hval'; [|done|specialize (Hnear m'); lia].
  pose proof (clock_mono Hclock k m' ltac:(lia)). unfold minute, second in *. lia.
Qed.

(** ** Refinement and atomicity *)

(** C4: every request that the service serves, with any faults of the database,
    clock and random source, is a path of the abstract transition system: its
    transaction took steps of ServerSpec and was committed at the end of the
    path, or nothing was committed and the reply is an error.  The path of a
    request to a route that must be signed lies in the vault of the route. *)
Theorem serve_refines r w :
  reachable w →
  let '(response, w') := serve r w in
  (committed w' = committed w ∧ 400 ≤ status response) ∨
  ∃ v st, rtc (tx_step r v (effects w) (effects w')) (committed w, Anonymous) (committed w', st) ∧
    ∀ v', signed_vault (target r) = Some v' → v' = v ∧ (status response < 400 → st = Accepted).
Proof.
  intros Hw%reachable_ok. destruct (serve_serves r w) as (v & signed & (Heff & Hs) & Hroute); [apply Hw|].
  destruct (serve r w) as [response w']; simpl in *. destruct Hs as [Hs|(_ & st & Hp & Hst)]; [by left|].
  right. exists v, st. split; [done|]. intros v' Hv'.
  destruct Hroute as [[Hv ->]|[Hv ->]]; [|congruence]. split; [congruence|]. intros Hlt. by apply Hst.
Qed.

(** A reply with status 500 leaves every table as it was. *)
Theorem error_500_changes_nothing r w :
  reachable w → status (serve r w).1 = 500 → committed (serve r w).2 = committed w.
Proof.
  intros Hw%reachable_ok E. destruct (serve_serves r w) as (v & signed & (_ & Hs) & _); [apply Hw|].
  destruct Hs as [[H _]|(H & _)]; [done|contradiction].
Qed.

(** C8: a reply of success means what the contract of its route says: the
    listed rows, the stored revision, the registered device, the ended
    invitation. *)
Theorem success_keeps_contract r w :
  reachable w → status (serve r w).1 < 400 →
  contract r (committed w) (serve r w).1 (committed (serve r w).2) (target r).
Proof.
  intros Hw%reachable_ok Hst. destruct (serve_serves r w) as (v & signed & (_ & Hs) & _); [apply Hw|].
  destruct Hs as [[_ H]|(_ & st & _ & Hp)]; [lia|]. by apply Hp.
Qed.

(** ** Devices *)

(** A vault that exists has an active device, always. *)
Theorem vault_keeps_active_device w v :
  reachable w → is_Some (vaults (committed w) !! v) → ∃ d, active (committed w) v d.
Proof.
  intros Hw%reachable_ok Hv. apply ok_active in Hv; [|done]. unfold count_active in Hv.
  set (m := filter _ _) in Hv. assert (Hm : size m ≠ 0%nat) by lia.
  apply map_size_ne_0_lookup in Hm as [[v' d] [row Hrow]].
  apply map_lookup_filter_Some in Hrow as [Hrow [Ev Ha]]. simpl in *. subst v'.
  exists d, row. split; [done|]. unfold is_active in Ha. by destruct (d_revoked_at row).
Qed.

(** How the devices of a vault may change: no device is removed or altered, a
    revocation is final, and a device is added only with its vault or by the
    approval of an enrollment that holds the same keys. *)
Definition devices_evolve (db db' : Db) : Prop :=
  (∀ k, is_Some (vaults db !! k) → is_Some (vaults db' !! k)) ∧
  (∀ v d row, devices db !! (v, d) = Some row → ∃ row', devices db' !! (v, d) = Some row' ∧
     d_device row' = d_device row ∧ (d_revoked_at row = None ∨ d_revoked_at row' = d_revoked_at row)) ∧
  (∀ v d e, enrollments db !! (v, d) = Some e → ∃ e', enrollments db' !! (v, d) = Some e' ∧
     e_device e' = e_device e ∧ (e_approved e = true → e' = e)) ∧
  (∀ v d row', devices db' !! (v, d) = Some row' → devices db !! (v, d) = None →
     vaults db !! v = None ∨
     ∃ e, enrollments db' !! (v, d) = Some e ∧ e_approved e = true ∧ d_device row' = named d (e_device e)).

#[export] Instance devices_evolve_preorder : PreOrder devices_evolve.
Proof.
  split.
  - intros db. split_and!; [done|intros v d row H; exists row; auto|intros v d e H; exists e; auto|congruence].
  - intros db1 db2 db3 (V1 & D1 & E1 & N1) (V2 & D2 & E2 & N2). split_and!; [auto|..].
    + intros v d row H. destruct (D1 _ _ _ H) as (row2 & H2 & Ea & Ra).
      destruct (D2 _ _ _ H2) as (row3 & H3 & Eb & Rb). exists row3. split_and!; [done|congruence|].
      destruct Ra as [|Ra]; [by left|]. destruct Rb as [|Rb]; [left; congruence|right; congruence].
    + intros v d e H. destruct (E1 _ _ _ H) as (e2 & H2 & Ea & Ra).
      destruct (E2 _ _ _ H2) as (e3 & H3 & Eb & Rb). exists e3. split_and!; [done|congruence|].
      intros Ha. assert (e2 = e) as -> by auto. auto.
    + intros v d row H3 H1. destruct (devices db2 !! (v, d)) as [row2|] eqn:H2.
      * destruct (D2 _ _ _ H2) as (row3 & H3' & Eb & _). rewrite H3 in H3'. injection H3' as <-.
        destruct (N1 _ _ _ H2 H1) as [|(e & He & Ha & Ed)]; [by left|right].
        destruct (E2 _ _ _ He) as (e3 & He3 & _ & Heq). exists e3. rewrite (Heq Ha) in *.
        split_and!; [done|done|congruence].
      * destruct (N2 _ _ _ H3 H2) as [Hv|?]; [left|by right].
        destruct (vaults db1 !! v) eqn:Hv1; [|done]. destruct (V1 v); [by eexists|congruence].
Qed.

Lemma step_device_forward r v a b s s' v' d row :
  tx_step r v a b s s' → devices s.1 !! (v', d) = Some row → ∃ row', devices s'.1 !! (v', d) = Some row' ∧
    d_device row' = d_device row ∧ (d_revoked_at row = None ∨ d_revoked_at row' = d_revoked_at row).
Proof.
  intros Hs H. destruct (step_device_kept r v a b s s' (v', d) Hs) as [row' H']; [by eexists|].
  exists row'. split; [done|]. destruct (step_devices _ _ _ _ _ _ _ _ _ Hs H') as
    [(old & Eo & Ed & Er)|(-> & En & _)]; [|congruence]. rewrite H in Eo. injection Eo as <-. naive_solver.
Qed.

Lemma step_enrollment_forward r v a b s s' v' d e :
  tx_step r v a b s s' → enrollments s.1 !! (v', d) = Some e →
  enrollments s'.1 !! (v', d) = Some e ∨
  (v' = v ∧ e_approved e = false ∧ ∃ envelope, enrollments s'.1 !! (v', d) = Some (approved_row e envelope)).
Proof.
  step_cases; intros He; try (by left).
  - left. rewrite lookup_insert_ne; [done|congruence].
  - left. rewrite lookup_insert_ne; [done|congruence].
  - destruct (decide ((v, d0) = (v', d))) as [[= -> ->]|]; [right|left; by rewrite lookup_insert_ne].
    rewrite lookup_insert_eq. rewrite He in H0. injection H0 as <-. eauto.
  - destruct (decide ((v, d0) = (v', d))) as [[= -> ->]|]; [right|left; by rewrite lookup_insert_ne].
    rewrite lookup_insert_eq. rewrite He in H6. injection H6 as <-. eauto.
Qed.

Lemma step_new_device r v a b s s' v' d row :
  tx_step r v a b s s' → devices s'.1 !! (v', d) = Some row → devices s.1 !! (v', d) = None →
  vaults s.1 !! v' = None ∨
  ∃ e, enrollments s'.1 !! (v', d) = Some e ∧ e_approved e = true ∧ d_device row = named d (e_device e).
Proof.
  step_cases; intros H1' H2'; lookups; try congruence; try (by left).
  - right. eexists. rewrite lookup_insert_eq. done.
  - right. eexists. rewrite lookup_insert_eq. done.
Qed.

Lemma step_devices_evolve r v a b s s' : tx_step r v a b s s' → devices_evolve s.1 s'.1.
Proof.
  intros Hs. split_and!.
  - intros k. by eapply step_vaults.
  - intros. by eapply step_device_forward.
  - intros v' d e He. destruct (step_enrollment_forward _ _ _ _ _ _ _ _ _ Hs He) as
      [?|(-> & Ha & envelope & ?)]; eexists; (split_and!; [done|done|]); [done|congruence].
  - intros. by eapply step_new_device.
Qed.

(** Over any requests, no device is removed or altered, a revoked device
    stays revoked, and every device that appears came with its vault or with
    the approval of an enrollment under the same keys. *)
Theorem device_history l w : reachable w → devices_evolve (committed w) (committed (serve_all l w)).
Proof.
  intros Hw%reachable_ok. apply (serve_all_related devices_evolve); [|done].
  intros. by eapply step_devices_evolve.
Qed.

(** ** Authority *)

(** The state that the devices of a vault share is the same: registered
    devices, enrollments and their approval, records and objects. *)
Definition same_shared (v : string) (db db' : Db) : Prop :=
  (∀ d, devices db' !! (v, d) = devices db !! (v, d)) ∧
  (∀ d e, enrollments db !! (v, d) = Some e → enrollments db' !! (v, d) = Some e) ∧
  (∀ k id, table_rows k db' !! (v, id) = table_rows k db !! (v, id)).

Lemma step_shared r v a b s s' v' :
  tx_step r v a b s s' → is_Some (vaults s.1 !! v') →
  same_shared v' s.1 s'.1 ∨ (v' = v ∧ s.2 = Accepted ∧ active s.1 v (actor r)).
Proof.
  assert (Hcreate : ∀ x, vaults s.1 !! v = Some x → is_Some (vaults s.1 !! v)) by eauto.
  intros Hs Hv. destruct (decide (v' = v)) as [->|Hne]; [|left]; revert Hs Hv Hcreate;
    (step_cases; intros Hv Hcreate; try (by right); try left; split_and!;
     intros; try match goal with k : Table |- _ => destruct k end; simpl; try done;
     try (rewrite lookup_insert_ne by congruence; done); try (rewrite lookup_delete_ne by congruence; done)).
  destruct Hv. congruence.
Qed.

Lemma step_active_back r v a b s s' :
  tx_step r v a b s s' → s.2 = Accepted → active s'.1 v (actor r) → active s.1 v (actor r).
Proof. by step_cases. Qed.

(** A device that acts in an accepted transaction was active before it. *)
Lemma path_active r v a b start s :
  rtc (tx_step r v a b) (start, Anonymous) s → s.2 = Accepted → active s.1 v (actor r) →
  active start v (actor r).
Proof.
  revert s. apply (rtc_ind_r (R := tx_step r v a b)
    (λ s, s.2 = Accepted → active s.1 v (actor r) → active start v (actor r))); [done|].
  intros s s' Hp Hs IH Hst Hact. destruct (decide (s.2 = Accepted)) as [E|E].
  - apply IH; [done|]. by eapply step_active_back.
  - apply path_standing in Hp. clear IH. revert Hs Hst Hact E Hp. unfold standing_ok.
    step_cases; intros Hst; try done.
    + intros Hact _ (_ & _ & Ed). unfold active in *. by rewrite <-Ed.
    + by destruct st.
Qed.

Lemma path_shared r v a b start s v' :
  rtc (tx_step r v a b) (start, Anonymous) s → is_Some (vaults start !! v') →
  same_shared v' start s.1 ∨
  (v' = v ∧ authentic r v start ∧ fresh r v a b start ∧ active start v (actor r)).
Proof.
  intros Hp Hv. revert s Hp. apply (rtc_ind_r (R := tx_step r v a b) (λ s, same_shared v' start s.1 ∨ _)).
  { left. split_and!; done. }
  intros s s' Hp Hs [IH|IH]; [|by right].
  assert (Hv' : is_Some (vaults s.1 !! v')).
  { clear -Hp Hv. change start with (start, Anonymous).1 in Hv. induction Hp; [done|]. eauto using step_vaults. }
  destruct (step_shared _ _ _ _ _ _ _ Hs Hv') as [H|(-> & Est & Hact)].
  - left. destruct IH as (D & E & T), H as (D' & E' & T').
    split_and!; [congruence|eauto|congruence].
  - right. pose proof (path_active _ _ _ _ _ _ Hp Est Hact). apply path_standing in Hp.
    unfold standing_ok in Hp. rewrite Est in Hp. tauto.
Qed.

(** C5: no request changes the devices, the enrollments, the records or the
    objects of an existing vault, except one whose signature verifies under the
    key on file of a device that is active in that vault, with a recent
    timestamp and a nonce that the device has not used; enrollments can only be
    added. *)
Theorem only_active_devices_change_shared_state r w v :
  reachable w → is_Some (vaults (committed w) !! v) →
  same_shared v (committed w) (committed (serve r w).2) ∨
  (authentic r v (committed w) ∧ fresh r v (effects w) (effects (serve r w).2) (committed w) ∧
   active (committed w) v (actor r)).
Proof.
  intros Hw%reachable_ok Hv. destruct (serve_path r w) as (v' & st & Hp); [apply Hw|].
  destruct (path_shared _ _ _ _ _ _ v Hp Hv) as [H|(-> & H)]; [by left|by right].
Qed.

(** ** Invitations *)

(** An invitation is never removed, an ended one never changes, its expiry is
    fixed and its failed attempts only grow. *)
Definition invitations_evolve (db db' : Db) : Prop :=
  ∀ v d row, invitations db !! (v, d) = Some row → ∃ row', invitations db' !! (v, d) = Some row' ∧
    i_expires_at row' = i_expires_at row ∧ i_failed_attempts row ≤ i_failed_attempts row' ∧
    (i_state row ≠ InvitationPending → row' = row).

#[export] Instance invitations_evolve_preorder : PreOrder invitations_evolve.
Proof.
  split.
  - intros db v d row H. exists row. naive_solver lia.
  - intros db1 db2 db3 H1 H2 v d row H. destruct (H1 _ _ _ H) as (row2 & E2 & X2 & F2 & T2).
    destruct (H2 _ _ _ E2) as (row3 & E3 & X3 & F3 & T3). exists row3.
    split_and!; [done|congruence|lia|]. intros Hs. rewrite (T2 Hs) in *. auto.
Qed.

Lemma step_invitations_evolve r v a b s s' : tx_step r v a b s s' → invitations_evolve s.1 s'.1.
Proof.
  step_cases; intros v' d' row' Hrow; simpl in *;
    try (exists row'; split_and!; [exact Hrow|done|lia|done]);
    try (rewrite lookup_insert_ne by congruence; exists row'; split_and!; [exact Hrow|done|lia|done]).
  all: destruct (decide ((v, d) = (v', d'))) as [[= -> ->]|];
    [|rewrite lookup_insert_ne by done; exists row'; split_and!; [done|done|lia|done]].
  all: rewrite lookup_insert_eq; eexists; split; [done|]; simpl.
  all: match goal with H : invitations _ !! _ = Some ?x |- _ => assert (x = row') as -> by congruence end.
  all: split_and!; [done|lia|congruence].
Qed.

(** Over any requests, no invitation is removed, one that has ended never
    changes again, its expiry is fixed, and its failed attempts only grow. *)
Theorem invitation_history l w : reachable w → invitations_evolve (committed w) (committed (serve_all l w)).
Proof.
  intros Hw%reachable_ok. apply (serve_all_related invitations_evolve); [|done].
  intros. by eapply step_invitations_evolve.
Qed.

(** In every reachable state an invitation belongs to an enrollment, which
    is approved exactly when the invitation is; it counts at most five failed
    attempts, the fifth exhausts it, and it has a terminal time and actor
    exactly when it is not pending. *)
Theorem invitation_state_ok w v d row :
  reachable w → invitations (committed w) !! (v, d) = Some row →
  invitation_ok row ∧
  ∃ e, enrollments (committed w) !! (v, d) = Some e ∧ (i_state row = InvitationApproved ↔ e_approved e = true).
Proof. intros Hw%reachable_ok H. by apply ok_invitations. Qed.

(** Approval within the path: by an active device before the expiry. *)
Definition approved_in_time (r : Request) (v d : string) (a b : nat) (row : InvitationRow) (start : Db) : Prop :=
  authentic r v start ∧ fresh r v a b start ∧ active start v (actor r) ∧
  ∃ t expiry, moment a b t ∧ parse_rfc3339 (i_expires_at row) = Some expiry ∧ t < expiry.

Lemma step_approval r v a b s s' v' d row row' :
  tx_step r v a b s s' → invitations s.1 !! (v', d) = Some row → i_state row ≠ InvitationApproved →
  invitations s'.1 !! (v', d) = Some row' → i_state row' = InvitationApproved →
  v' = v ∧ s.2 = Accepted ∧ active s.1 v (actor r) ∧
  ∃ t expiry, moment a b t ∧ parse_rfc3339 (i_expires_at row) = Some expiry ∧ t < expiry.
Proof.
  step_cases; intros Hrow Hst Hrow' Hst'; lookups; try congruence.
  - eauto 10.
  - by destruct action.
  - simpl in Hst'. by destruct (_ <=? _).
Qed.

Lemma path_approval r v a b start s v' d row row' :
  rtc (tx_step r v a b) (start, Anonymous) s →
  invitations start !! (v', d) = Some row → i_state row ≠ InvitationApproved →
  invitations s.1 !! (v', d) = Some row' → i_state row' = InvitationApproved →
  v' = v ∧ approved_in_time r v d a b row start.
Proof.
  intros Hp Hrow Hst. revert s Hp row'. apply (rtc_ind_r (R := tx_step r v a b)
    (λ s, ∀ row', invitations s.1 !! (v', d) = Some row' → i_state row' = InvitationApproved → _)).
  { simpl. congruence. }
  intros s s' Hp Hs IH row' Hrow' Hst'.
  assert (Hev : invitations_evolve start s.1).
  { clear -Hp. change start with (start, Anonymous).1. induction Hp; [done|].
    etrans; [by eapply step_invitations_evolve|done]. }
  destruct (Hev _ _ _ Hrow) as (mid & Hmid & Ex & _).
  destruct (decide (i_state mid = InvitationApproved)) as [E|E]; [by eapply IH|].
  destruct (step_approval _ _ _ _ _ _ _ _ _ _ Hs Hmid E Hrow' Hst') as (-> & Est & Hact & Htime).
  split; [done|]. pose proof (path_active _ _ _ _ _ _ Hp Est Hact) as Hact'.
  apply path_standing in Hp. unfold standing_ok in Hp. rewrite Est in Hp. rewrite Ex in Htime.
  unfold approved_in_time. tauto.
Qed.

(** An invitation becomes approved only by a request that is signed by an
    active device of the vault, at a time before its expiry. *)
Theorem approval_by_active_device_in_time r w v d row row' :
  reachable w → invitations (committed w) !! (v, d) = Some row → i_state row ≠ InvitationApproved →
  invitations (committed (serve r w).2) !! (v, d) = Some row' → i_state row' = InvitationApproved →
  approved_in_time r v d (effects w) (effects (serve r w).2) row (committed w).
Proof.
  intros Hw%reachable_ok Hrow Hst Hrow' Hst'. destruct (serve_path r w) as (v' & st & Hp); [apply Hw|].
  by destruct (path_approval _ _ _ _ _ _ _ _ _ _ Hp Hrow Hst Hrow' Hst') as (-> & H).
Qed.

(** ** Records *)

(** A record is never removed, and whenever it changes its revision grows. *)
Definition records_evolve (db db' : Db) : Prop :=
  ∀ v id row, records db !! (v, id) = Some row → ∃ row', records db' !! (v, id) = Some row' ∧
    (row' = row ∨ r_revision row < r_revision row').

#[export] Instance records_evolve_preorder : PreOrder records_evolve.
Proof.
  split.
  - intros db v id row H. exists row. auto.
  - intros db1 db2 db3 H1 H2 v id row H. destruct (H1 _ _ _ H) as (row2 & E2 & T2).
    destruct (H2 _ _ _ E2) as (row3 & E3 & T3). exists row3. split; [done|].
    destruct T2 as [->|], T3 as [->|]; auto with lia.
Qed.

Lemma step_records_evolve r v a b s s' : tx_step r v a b s s' → db_ok s.1 → records_evolve s.1 s'.1.
Proof.
  intros Hs Hok v' id row Hrow. destruct (step_record r v a b s s' Records v' id Hs) as [E|[(row' & E & Er & Hp)|[? _]]];
    simpl in *; [| |done].
  - exists row. rewrite E. auto.
  - exists row'. split; [done|right]. rewrite Hrow in Er. simpl in Er.
    pose proof (ok_tables _ Hok Records _ _ _ Hrow) as [Hb _]. rewrite Er in *. rewrite next_revision by done. lia.
Qed.

(** Over any requests, no record is removed and a record that changes gets
    a greater revision, even at the bounds of 64-bit integers: so a client that
    sends the revision it has read never overwrites a change it has not seen. *)
Theorem record_history l w : reachable w → records_evolve (committed w) (committed (serve_all l w)).
Proof.
  intros Hw%reachable_ok. apply (serve_all_related records_evolve); [|done].
  intros r v a b s s' Hs Hok. by eapply step_records_evolve.
Qed.

(** A record or object that was stored by a successful request has the
    revision after the one that the client expected, which was the current one. *)
Theorem put_record_is_conditional r w v id :
  reachable w → target r = RPutRecord v id → status (serve r w).1 < 400 →
  ∃ request row, json_PutRecordRequest (r_body r) = Some request ∧
    revision_of Records v id (committed w) = pr_ExpectedRevision request ∧
    records (committed (serve r w).2) !! (v, id) = Some row ∧
    r_revision row = pr_ExpectedRevision request + 1 ∧ r_blob row = pr_Blob request ∧
    payload (serve r w).1 = BRecord (to_record (id, row)).
Proof.
  intros Hw Ht Hst. assert (Hok := reachable_ok _ Hw).
  destruct (serve_serves r w) as (v' & signed & (_ & Hs) & _); [apply Hok|].
  destruct Hs as [[_ H]|(_ & st & _ & Hp)]; [lia|]. destruct (Hp Hst) as [_ Hc]. rewrite Ht in Hc. simpl in Hc.
  destruct Hc as (request & Ej & row & Erev & Enext & Hpos & Eb & Erow & Eans).
  exists request, row. split_and!; try done; [|by rewrite Eans].
  rewrite Enext in Hpos |- *. destruct (decide (pr_ExpectedRevision request = 0)) as [->|Hne]; [done|].
  apply next_revision; [|done]. revert Erev. unfold revision_of. simpl.
  destruct (records (committed w) !! (v, id)) as [old|] eqn:E; simpl; [|congruence].
  intros <-. by apply (ok_tables _ Hok Records v id).
Qed.
End Properties.


Lemma still_clock_ok : @clock_ok demo_still.
Proof. split; [intros n; reflexivity|]. intros n. unfold four_digit_year. by vm_compute. Qed.

Lemma no_request_accepted_twice_witness :
  status (serve (demo_signed "GET" "devices" "" "a") (demo_world [])).1 = 200 ∧
  400 ≤ status (serve (demo_signed "GET" "devices" "" "a") (serve_all [demo_signed "GET" "records" "" "b"]
    (serve (demo_signed "GET" "devices" "" "a") (demo_world [])).2)).1.
Proof.
  split; [vm_compute; reflexivity|].
  apply no_request_accepted_twice with (v := demo_vault) (sent := demo_time).
  - apply still_clock_ok.
  - apply demo_reachable.
  - vm_compute. reflexivity.
  - intros n. change (Z.abs (demo_time - demo_time) ≤ max_int64). rewrite Z.sub_diag. vm_compute. discriminate.
  - vm_compute. reflexivity.
  - vm_compute. reflexivity.
  - reflexivity.
  - reflexivity.
  - reflexivity.
  - vm_compute. reflexivity.
Defined.

Lemma serve_refines_witness :
  reachable (demo_world []) ∧
  let '(response, w') := serve (demo_signed "PUT" "records/r1" "" "a") (demo_world []) in
  (committed w' = committed (demo_world []) ∧ 400 ≤ status response) ∨
  ∃ v st, rtc (tx_step (demo_signed "PUT" "records/r1" "" "a") v (effects (demo_world [])) (effects w'))
      (committed (demo_world []), Anonymous) (committed w', st) ∧
    ∀ v', signed_vault (target (demo_signed "PUT" "records/r1" "" "a")) = Some v' →
      v' = v ∧ (status response < 400 → st = Accepted).
Proof. split; [apply demo_reachable|]. apply (serve_refines (demo_signed "PUT" "records/r1" "" "a")), demo_reachable. Defined.

(** The database fails at one effect of the demonstration, in the handling of
    the second request. *)
Definition demo_faulty : Env := {|
  ServerTx.clock := λ _, demo_time; fault := λ n, Nat.eqb n 18; cut := λ _, None; entropy := @entropy demo_still |}.

Lemma error_500_changes_nothing_witness :
  let request := demo_signed "PUT" "records/r1" "" "a" in
  let w := @serve_all demo_crypto demo_faulty demo_wire [demo_create] demo_start in
  status (@serve demo_crypto demo_faulty demo_wire request w).1 = 500 ∧
  committed (@serve demo_crypto demo_faulty demo_wire request w).2 = committed w.
Proof.
  cbv zeta. split; [by vm_compute|]. apply error_500_changes_nothing; [|by vm_compute].
  by exists [demo_create], demo_start.
Defined.

Lemma success_keeps_contract_witness :
  status (serve (demo_signed "GET" "devices" "" "a") (demo_world [])).1 < 400 ∧
  contract (demo_signed "GET" "devices" "" "a") (committed (demo_world []))
    (serve (demo_signed "GET" "devices" "" "a") (demo_world [])).1
    (committed (serve (demo_signed "GET" "devices" "" "a") (demo_world [])).2)
    (target (demo_signed "GET" "devices" "" "a")).
Proof. split; [by vm_compute|]. apply success_keeps_contract; [apply demo_reachable|by vm_compute]. Defined.

Lemma vault_keeps_active_device_witness :
  is_Some (vaults (committed (demo_world [])) !! demo_vault) ∧ ∃ d, active (committed (demo_world [])) demo_vault d.
Proof.
  assert (H : is_Some (vaults (committed (demo_world [])) !! demo_vault)) by (vm_compute; eexists; reflexivity).
  split; [exact H|]. apply vault_keeps_active_device; [apply demo_reachable|exact H].
Defined.

Lemma device_history_witness :
  reachable (demo_world []) ∧ devices_evolve (committed (demo_world []))
    (committed (serve_all [demo_signed "GET" "devices" "" "a"] (demo_world []))).
Proof. split; [apply demo_reachable|]. apply device_history, demo_reachable. Defined.

Lemma only_active_devices_change_shared_state_witness :
  is_Some (vaults (committed (demo_world [])) !! demo_vault) ∧
  (same_shared demo_vault (committed (demo_world []))
     (committed (serve (demo_signed "PUT" "records/r1" "" "a") (demo_world [])).2) ∨
   (authentic (demo_signed "PUT" "records/r1" "" "a") demo_vault (committed (demo_world [])) ∧
    fresh (demo_signed "PUT" "records/r1" "" "a") demo_vault (effects (demo_world []))
      (effects (serve (demo_signed "PUT" "records/r1" "" "a") (demo_world [])).2) (committed (demo_world [])) ∧
    active (committed (demo_world [])) demo_vault (actor (demo_signed "PUT" "records/r1" "" "a")))).
Proof.
  assert (H : is_Some (vaults (committed (demo_world [])) !! demo_vault)) by (vm_compute; eexists; reflexivity).
  split; [exact H|]. apply only_active_devices_change_shared_state; [apply demo_reachable|exact H].
Defined.

Lemma invitation_history_witness :
  reachable (demo_world []) ∧ invitations_evolve (committed (demo_world []))
    (committed (serve_all [demo_signed "GET" "devices" "" "a"] (demo_world []))).
Proof. split; [apply demo_reachable|]. apply invitation_history, demo_reachable. Defined.

(** An invitation is created, and then approved by the first device. *)
Definition demo_invite : Request := demo_request "POST" ("/v1/vaults/" +:+ demo_vault +:+ "/invitations") "" "" "" "".
Definition demo_invited : World := demo_world [demo_invite].
Definition demo_guest : string :=
  default "" ((λ kv, kv.1.2) <$> head (map_to_list (invitations (committed demo_invited)))).
Definition demo_approve : Request :=
  demo_signed "POST" ("invitations/" +:+ demo_guest +:+ "/approve") demo_guest "a".

Definition demo_invitation : InvitationRow := fresh_invitation (format_rfc3339 (demo_time + invitationLifetime)).
Definition demo_approved : InvitationRow :=
  ended_row demo_invitation InvitationApproved (format_rfc3339 demo_time) demo_device.

Lemma invitation_state_ok_witness :
  invitations (committed demo_invited) !! (demo_vault, demo_guest) = Some demo_invitation ∧
  invitation_ok demo_invitation ∧
  ∃ e, enrollments (committed demo_invited) !! (demo_vault, demo_guest) = Some e ∧
    (i_state demo_invitation = InvitationApproved ↔ e_approved e = true).
Proof.
  assert (H : invitations (committed demo_invited) !! (demo_vault, demo_guest) = Some demo_invitation)
    by (vm_compute; reflexivity).
  split; [exact H|]. apply invitation_state_ok; [apply demo_reachable|exact H].
Defined.

Lemma approval_by_active_device_in_time_witness :
  invitations (committed (serve demo_approve demo_invited).2) !! (demo_vault, demo_guest) = Some demo_approved ∧
  approved_in_time demo_approve demo_vault demo_guest (effects demo_invited)
    (effects (serve demo_approve demo_invited).2) demo_invitation (committed demo_invited).
Proof.
  assert (H : invitations (committed (serve demo_approve demo_invited).2) !! (demo_vault, demo_guest) =
    Some demo_approved) by (vm_compute; reflexivity).
  split; [exact H|]. apply (approval_by_active_device_in_time _ _ _ _ demo_invitation demo_approved).
  - apply demo_reachable.
  - vm_compute. reflexivity.
  - discriminate.
  - exact H.
  - reflexivity.
Defined.

Lemma record_history_witness :
  reachable (demo_world []) ∧ records_evolve (committed (demo_world []))
    (committed (serve_all [demo_signed "PUT" "records/r1" "" "a"] (demo_world []))).
Proof. split; [apply demo_reachable|]. apply record_history, demo_reachable. Defined.

Lemma put_record_is_conditional_witness :
  ∃ request row, json_PutRecordRequest "" = Some request ∧
    revision_of Records demo_vault "r1" (committed (demo_world [])) = pr_ExpectedRevision request ∧
    records (committed (serve (demo_signed "PUT" "records/r1" "" "a") (demo_world [])).2) !! (demo_vault, "r1") =
      Some row ∧
    r_revision row = pr_ExpectedRevision request + 1 ∧ r_blob row = pr_Blob request ∧
    payload (serve (demo_signed "PUT" "records/r1" "" "a") (demo_world [])).1 = BRecord (to_record ("r1", row)).
Proof.
  apply (put_record_is_conditional (demo_signed "PUT" "records/r1" "" "a")).
  - apply demo_reachable.
  - vm_compute. reflexivity.
  - vm_compute. reflexivity.
Defined.

(** ** A gap in the replay protection *)

(** The clock of a service that runs for eleven minutes between its second
    request and its third. *)
Definition jumping_env : Env := demo_env (λ n, if (n <? 21)%nat then demo_time else demo_time + 11 * minute).

Definition far_request : Request :=
  demo_request "GET" ("/v1/vaults/" +:+ demo_vault +:+ "/devices") "" demo_device "9999-01-01T00:00:00Z" "a".
Definition later_request : Request :=
  demo_request "GET" ("/v1/vaults/" +:+ demo_vault +:+ "/devices") "" demo_device
    (format_rfc3339 (demo_time + 11 * minute)) "b".

(** The window test accepts a timestamp of the year 9999, more than 292 years
    ahead, because the time difference saturates at the least duration and its
    negation is itself; so a signed request with such a timestamp is accepted a
    second time, under the same nonce, once the nonce has been forgotten. *)
Theorem far_timestamp_is_replayed :
  let w1 := @serve_all demo_crypto jumping_env demo_wire [demo_create] demo_start in
  let '(first, w2) := @serve demo_crypto jumping_env demo_wire far_request w1 in
  let '(_, w3) := @serve demo_crypto jumping_env demo_wire later_request w2 in
  let '(second, _) := @serve demo_crypto jumping_env demo_wire far_request w3 in
  status first = 200 ∧ status second = 200.
Proof. vm_compute. split; reflexivity. Qed.
