(* ===== verification/Client.v ===== *)
(** The client of the service: requests and replies ([do] of
    internal/client/api.go), typed objects (objects.go), records (records.go) and
    the checks of an enrollment. *)
From S2P Require Import Prelude Base64 Timestamp Text Secure Protocol Envelope VaultObject ServerState ServerTx.
From stdpp Require Import options.

(** ** Interfaces *)

(** Sending a request: the reply, or the error of the transport. *)
Class Network (W : Type) := exchange : Request → W → result Response * W.

(** The clock of the client and its source of random bytes. *)
Class Local (W : Type) := { local_now : W → Z * W; random_bytes : Z → W → result string * W }.

(** [json.Marshal] of the requests. *)
Class ClientWire := {
  to_json_PutObject : PutVaultObjectRequest → string;
  to_json_DeleteObject : Z → string;
  to_json_PutRecord : PutRecordRequest → string;
}.

(** [json.Unmarshal] of the body of a reply. *)
Class ReplyCodec := {
  reply_record : Body → result Record_;
  reply_records : Body → result (list Record_);
}.

(** The JSON of an object is that of [vaultobject]; of a record: *)
Class RecordCodec := { record_json : SecretRecord → result string; record_of_json : string → option SecretRecord }.

(** What a client holds: the identity of its configuration, its private keys and
    the key of the vault. *)
Record API := { api_VaultID : string; api_DeviceID : string; api_Secrets : DeviceSecrets }.

(** ** Paths *)

Definition hex_upper (v : Z) : ascii := if v <? 10 then chr (48 + v) else chr (55 + v).

(** [shouldEscape(c, encodePathSegment)], negated. *)
Definition path_char (c : ascii) : bool :=
  is_digit c || is_lower c || is_upper c ||
  existsb (Ascii.eqb c) ["-"; "_"; "."; "~"; "$"; "&"; "+"; ":"; "="; "@"]%char.

(** [url.PathEscape] *)
Fixpoint PathEscape (s : string) : string :=
  match s with
  | EmptyString => ""
  | String c s =>
      if path_char c then String c (PathEscape s)
      else String "%" (String (hex_upper (code c / 16)) (String (hex_upper (code c mod 16)) (PathEscape s)))
  end.

Definition hex_value (c : ascii) : option Z :=
  if is_digit c then Some (code c - 48)
  else if byte_in "A" "F" c then Some (code c - 55)
  else if byte_in "a" "f" c then Some (code c - 87) else None.

(** The decoded path of a request; an escape that is none stays (the transport
    would refuse it, and [PathEscape] makes none). *)
Fixpoint path_unescape (s : string) : string :=
  match s with
  | EmptyString => ""
  | String c rest =>
      if Ascii.eqb c "%" then
        match rest with
        | String a (String b rest') =>
            match hex_value a, hex_value b with
            | Some x, Some y => String (chr (x * 16 + y)) (path_unescape rest')
            | _, _ => String c (path_unescape rest)
            end
        | _ => String c (path_unescape rest)
        end
      else String c (path_unescape rest)
  end.

Section Client.
Context {crypto : Crypto} {cipher : Cipher}.

Definition vaultPath (a : API) : string := "/v1/vaults/" +:+ PathEscape (api_VaultID a).

(** ** Requests *)

Definition unsigned_headers : string → string := λ _, "".
Definition signed_headers (a : API) (timestamp nonce signature : string) : string → string := λ h,
  if String.eqb h HeaderDevice then api_DeviceID a
  else if String.eqb h HeaderTimestamp then timestamp
  else if String.eqb h HeaderNonce then nonce
  else if String.eqb h HeaderSignature then signature else "".

Definition new_request (method path body : string) (headers : string → string) : Request :=
  {| r_method := method; r_path := path_unescape path; r_uri := path; r_query := λ _, "";
     r_header := headers; r_body := body; r_body_fails := false |}.

Definition signed_request (a : API) (method path body : string) (now : Z) (bytes : string) : result Request :=
  let timestamp := format_rfc3339 now in
  let nonce := encode bytes in
  signature ← Sign (sec_SigningPrivate (api_Secrets a)) (SignatureMessage method path timestamp nonce body);
  Ok (new_request method path body (signed_headers a timestamp nonce signature)).

(** The reply of [do]: its body, when the status is one of success. *)
Definition read_reply (response : Response) : result Body :=
  if (status response <? 200) || (300 <=? status response) then
    match payload response with
    | BError message =>
        if nonempty message then Err ("server returned " +:+ Itoa (status response) +:+ ": " +:+ message)
        else Err ("server returned " +:+ Itoa (status response))
    | _ => Err ("server returned " +:+ Itoa (status response))
    end
  else Ok (payload response).

Context {W : Type} {network : Network W} {local : Local W}.

(** An authenticated request.  (The Cloudflare Access headers and the redirect
    policy are those of the transport.) *)
Definition do_authenticated (a : API) (method path body : string) (w : W) : result Body * W :=
  if negb (nonempty (sec_SigningPrivate (api_Secrets a))) then (Err "authenticated client is not unlocked", w)
  else
    let '(now, w) := local_now w in
    match random_bytes 18 w with
    | (Err e, w) => (Err e, w)
    | (Ok bytes, w) =>
        match signed_request a method path body now bytes with
        | Err e => (Err e, w)
        | Ok request =>
            match exchange request w with
            | (Err e, w) => (Err ("server request failed: " +:+ e), w)
            | (Ok response, w) => (read_reply response, w)
            end
        end
    end.

Definition decode_reply {A} (f : Body → result A) (r : result Body * W) : result A * W :=
  (r.1 ≫= f, r.2).

Context {wire : ClientWire} {replies : ReplyCodec}.

Definition ListRecords_ (a : API) : W → result (list Record_) * W :=
  λ w, decode_reply reply_records (do_authenticated a "GET" (vaultPath a +:+ "/records") "" w).

Definition PutRecord (a : API) (recordID : string) (request : PutRecordRequest) : W → result Record_ * W :=
  λ w, decode_reply reply_record
    (do_authenticated a "PUT" (vaultPath a +:+ "/records/" +:+ PathEscape recordID) (to_json_PutRecord request) w).

Definition ListVaultObjects (a : API) : W → result (list Record_) * W :=
  λ w, decode_reply reply_records (do_authenticated a "GET" (vaultPath a +:+ "/objects") "" w).

Definition object_path (a : API) (objectID : string) : string := vaultPath a +:+ "/objects/" +:+ PathEscape objectID.

Definition GetVaultObject (a : API) (objectID : string) : W → result Record_ * W :=
  λ w, decode_reply reply_record (do_authenticated a "GET" (object_path a objectID) "" w).

Definition PutVaultObject (a : API) (objectID : string) (request : PutVaultObjectRequest) : W → result Record_ * W :=
  λ w, decode_reply reply_record (do_authenticated a "PUT" (object_path a objectID) (to_json_PutObject request) w).

Definition DeleteVaultObject (a : API) (objectID : string) (expectedRevision : Z) : W → result unit * W :=
  λ w, decode_reply (λ _, Ok tt)
    (do_authenticated a "DELETE" (object_path a objectID) (to_json_DeleteObject expectedRevision) w).

(** ** Typed objects *)

Context {codec : ObjectCodec}.

Definition ListObjects (a : API) (vaultKey : string) (w : W) : result (list VaultObject) * W :=
  let '(r, w) := ListVaultObjects a w in (r ≫= DecryptAll (api_VaultID a) vaultKey, w).

Definition client_GetObject (a : API) (vaultKey kind key : string) (w : W) : result VaultObject * W :=
  let '(r, w) := GetVaultObject a (ID vaultKey kind key) w in (r ≫= Decrypt (api_VaultID a) vaultKey, w).

(** [raw] is the JSON of the payload. *)
Definition client_PutObject (a : API) (vaultKey kind key raw : string) (expectedRevision : Z) (w : W) :
    result VaultObject * W :=
  let '(now, w) := local_now w in
  let object := {| vo_Kind := kind; vo_Key := key; vo_Revision := wrap64 (expectedRevision + 1);
    vo_ModifiedAt := format_rfc3339 now; vo_Payload := raw |} in
  let '(nonce, w) := random_bytes 12 w in
  match Encrypt nonce (api_VaultID a) vaultKey object with
  | Err e => (Err e, w)
  | Ok (id, blob) =>
      let '(r, w) := PutVaultObject a id
        {| po_ExpectedRevision := expectedRevision; po_ModifiedAt := vo_ModifiedAt object; po_Blob := blob |} w in
      (r ≫= Decrypt (api_VaultID a) vaultKey, w)
  end.

Definition client_DeleteObject (a : API) (vaultKey kind key : string) (expectedRevision : Z) (w : W) : result unit * W :=
  DeleteVaultObject a (ID vaultKey kind key) expectedRevision w.

(** ** Records *)

Context {records : RecordCodec}.

Definition record_aad (vaultID id : string) : string := "envbank.record.v1" +:+ nul +:+ vaultID +:+ nul +:+ id.

Definition EncryptRecord (nonce : result string) (vaultID vaultKey : string) (record : SecretRecord) : result (string * Blob) :=
  let id := RecordID vaultKey (sr_Name record) in
  raw ← record_json record;
  blob ← Seal nonce vaultKey raw (record_aad vaultID id);
  Ok (id, blob).

Definition decrypt_record (vaultID vaultKey : string) (encrypted : Record_) : result SecretRecord :=
  match Open vaultKey (rec_Blob encrypted) (record_aad vaultID (rec_ID encrypted)) with
  | Err _ => Err "one or more records could not be decrypted"
  | Ok raw =>
      match record_of_json raw with
      | None => Err "one or more records could not be decrypted"
      | Some record =>
          _ ← reject_if (negb (String.eqb (RecordID vaultKey (sr_Name record)) (rec_ID encrypted)) ||
                negb (sr_Revision record =? rec_Revision encrypted)) "record integrity metadata does not match";
          Ok record
      end
  end.

Fixpoint decrypt_records (vaultID vaultKey : string) (encrypted : list Record_) : result (list SecretRecord) :=
  match encrypted with
  | [] => Ok []
  | item :: rest =>
      record ← decrypt_record vaultID vaultKey item;
      records ← decrypt_records vaultID vaultKey rest;
      Ok (record :: records)
  end.

(** [sort.Slice] by name; where names repeat, which needs a service that repeats
    an identifier, their order is the one of a stable sort here. *)
Definition DecryptRecords (vaultID vaultKey : string) (encrypted : list Record_) : result (list SecretRecord) :=
  records ← decrypt_records vaultID vaultKey encrypted;
  Ok (merge_sort (order_by sr_Name (λ _, "")) records).

(** The product of days and hours is that of 64-bit durations. *)
Definition due (now : Z) (record : SecretRecord) : bool :=
  if sr_RotateEveryDays record <=? 0 then false
  else match parse_rfc3339 (sr_RotatedAt record) with
  | None => false
  | Some rotatedAt => rotatedAt + wrap64 (wrap64 (sr_RotateEveryDays record * 24) * hour) <=? now
  end.
Definition Due (records : list SecretRecord) (now : Z) : list SecretRecord := filter (λ r, due now r = true) records.

(** ** Enrollment *)

Definition validateCreatedIdentity (device : PublicDevice) (expectedName expectedSigning expectedWrapping : string) :
    result unit :=
  _ ← reject_if (negb (nonempty (dev_ID device)) || negb (String.eqb (dev_Name device) expectedName) ||
        negb (String.eqb (dev_SigningPublic device) expectedSigning) ||
        negb (String.eqb (dev_WrappingPublic device) expectedWrapping))
        "server-returned enrollment identity does not match locally generated identity";
  _ ← reject_if (negb (is_ok (ValidatePublicDeviceKeys (dev_SigningPublic device) (dev_WrappingPublic device))))
        "server-returned enrollment identity is invalid";
  reject_if (negb (String.eqb (dev_Fingerprint device)
      (PublicFingerprint (dev_SigningPublic device) (dev_WrappingPublic device))))
    "server-returned enrollment fingerprint is invalid".

Definition ValidateDeviceIdentity (device : PublicDevice) (expectedSigning expectedWrapping : string) : result unit :=
  _ ← reject_if (negb (String.eqb (dev_SigningPublic device) expectedSigning) ||
        negb (String.eqb (dev_WrappingPublic device) expectedWrapping))
        "server-returned enrollment identity does not match local keys";
  _ ← reject_if (negb (is_ok (ValidatePublicDeviceKeys (dev_SigningPublic device) (dev_WrappingPublic device))))
        "server-returned enrollment identity is invalid";
  reject_if (negb (String.eqb (dev_Fingerprint device)
      (PublicFingerprint (dev_SigningPublic device) (dev_WrappingPublic device))))
    "server-returned enrollment fingerprint is invalid".

Definition UnwrapEnrollmentVaultKey (status : EnrollmentStatus) (secrets : DeviceSecrets) (vaultID deviceID : string) :
    result string :=
  if negb (String.eqb (dev_ID (es_Device status)) deviceID) then
    Err "server-returned enrollment identity is incomplete"
  else match es_Envelope status with
  | None => Err "server-returned enrollment identity is incomplete"
  | Some envelope =>
      '(signingPublic, wrappingPublic) ← PublicKeysFromSecrets secrets;
      _ ← ValidateDeviceIdentity (es_Device status) signingPublic wrappingPublic;
      vaultKey ← UnwrapVaultKey envelope (sec_WrappingPrivate secrets) vaultID deviceID;
      _ ← reject_if (negb (slen vaultKey =? 32)) "unwrapped vault key has invalid length";
      Ok vaultKey
  end.
End Client.

(** ** Paths of plain identifiers *)

Lemma PathEscape_plain s : all_bytes path_char s = true → PathEscape s = s.
Proof. induction s as [|c s IH]; [done|]. cbn. intros [-> H]%andb_true_iff. by rewrite IH. Qed.

Lemma path_unescape_plain s : all_bytes (λ c, negb (Ascii.eqb c "%")) s = true → path_unescape s = s.
Proof. induction s as [|c s IH]; [done|]. cbn. intros [->%negb_true_iff H]%andb_true_iff. by rewrite IH. Qed.

Lemma path_char_plain c : path_char c = true → negb (Ascii.eqb c "%") = true ∧ negb (Ascii.eqb "/" c) = true.
Proof.
  pose proof (forall_ascii (λ c, implb (path_char c) (negb (Ascii.eqb c "%") && negb (Ascii.eqb "/" c)))
    ltac:(vm_compute; reflexivity) c) as H. cbn beta in H. intros Hc. rewrite Hc in H. by apply andb_true_iff in H.
Qed.

Lemma encode_path_char s : all_bytes path_char (encode s) = true.
Proof.
  assert (Hd : ∀ v, path_char (digit_char v) = true).
  { intros v. unfold digit_char. destruct (String.get _ alphabet) as [c|] eqn:E; [|done].
    assert (Hall : ∀ n c, String.get n alphabet = Some c → path_char c = true).
    { clear. intros n c. do 64 (destruct n as [|n]; [intros [= <-]; reflexivity|]). by destruct n. }
    by eapply Hall. }
  induction s as [| |a b|a b c s IH] using string_ind3; cbn [encode all_bytes]; rewrite ?Hd; [done..|]. by rewrite IH.
Qed.

Lemma split_on_last c s : all_bytes (λ d, negb (Ascii.eqb c d)) s = true → split_on c s = [s].
Proof.
  induction s as [|d s IH]; [done|]. cbn. intros [Hd%negb_true_iff H]%andb_true_iff. by rewrite Ascii.eqb_sym, Hd, IH.
Qed.

Lemma split_on_cons c s rest :
  all_bytes (λ d, negb (Ascii.eqb c d)) s = true → split_on c (s +:+ String c rest) = s :: split_on c rest.
Proof.
  induction s as [|d s IH].
  - intros _. rewrite string_app_nil_l. cbn. by rewrite Ascii.eqb_refl.
  - rewrite string_app_cons. cbn [all_bytes split_on]. intros [Hd%negb_true_iff H]%andb_true_iff.
    by rewrite Ascii.eqb_sym, Hd, IH.
Qed.

Lemma trim_right_plain p s : all_bytes (λ c, negb (p c)) s = true → trim_right p s = s.
Proof.
  induction s as [|c s IH]; [done|]. cbn. intros [Hc%negb_true_iff H]%andb_true_iff. rewrite IH by done.
  destruct s; [by rewrite Hc|done].
Qed.

Lemma trim_right_app p a s : s ≠ "" → all_bytes (λ c, negb (p c)) s = true → trim_right p (a +:+ s) = a +:+ s.
Proof.
  intros Hs H. induction a as [|c a IH]; [by apply trim_right_plain|]. rewrite string_app_cons. cbn. rewrite IH.
  destruct (a +:+ s) eqn:E; [|done]. destruct a; [done|]. by rewrite string_app_cons in E.
Qed.

(** ** Enrollment *)

Section Enrollment.
Context {crypto : Crypto} {cipher : Cipher} {laws : CipherLaws}.

Lemma PublicKeysFromSecrets_Ok secrets signing wrapping :
  PublicKeysFromSecrets secrets = Ok (signing, wrapping) → ∃ private,
  sec_WrappingPrivate secrets = encode private ∧ slen private = 32 ∧ wrapping = encode (x25519_public private).
Proof.
  unfold PublicKeysFromSecrets. destruct (decodeCanonical (sec_SigningPrivate secrets) 64) as [s|]; [|done].
  destruct (decodeCanonical (sec_WrappingPrivate secrets) 32) as [w|] eqn:Ew; [|done]. rewrite reject_if_bind.
  intros [_ [= _ <-]]. apply decodeCanonical_Some in Ew as [Ew Hw]. by exists w.
Qed.

Lemma ValidateDeviceIdentity_Ok device signing wrapping :
  ValidateDeviceIdentity device signing wrapping = Ok tt ↔
  dev_SigningPublic device = signing ∧ dev_WrappingPublic device = wrapping ∧
  ValidatePublicDeviceKeys signing wrapping = Ok tt ∧ dev_Fingerprint device = PublicFingerprint signing wrapping.
Proof.
  unfold ValidateDeviceIdentity. rewrite !reject_if_bind, reject_if_Ok. autorewrite with checks. split.
  - intros ([<- <-] & Hk & Hf). split_and!; try done. by apply is_ok_true in Hk as [[] ?].
  - intros (<- & <- & Hk & ->). by rewrite Hk.
Qed.

(** C14: an enrollment hands over the vault key.  When the approving device has
    wrapped the vault key for the public key of the identity that the new device
    generated, the new device, which is shown this identity, unwraps exactly that
    key; and it unwraps a key of no identity but its own, under no other vault or
    device name than the ones the key was sealed for. *)
Theorem enrollment_hands_over_key secrets signing wrapping device vaultID status vaultKey :
  PublicKeysFromSecrets secrets = Ok (signing, wrapping) →
  es_Device status = device →
  ((∀ ephemeral nonce envelope,
     slen ephemeral = 32 → slen nonce = gcm_NonceSize → slen vaultKey = 32 →
     ValidateDeviceIdentity device signing wrapping = Ok tt →
     WrapVaultKey (Ok ephemeral) (Ok nonce) vaultKey wrapping vaultID (dev_ID device) = Ok envelope →
     es_Envelope status = Some envelope →
     UnwrapEnrollmentVaultKey status secrets vaultID (dev_ID device) = Ok vaultKey) ∧
   (∀ deviceID, UnwrapEnrollmentVaultKey status secrets vaultID deviceID = Ok vaultKey →
     dev_ID device = deviceID ∧ dev_SigningPublic device = signing ∧ dev_WrappingPublic device = wrapping ∧
     dev_Fingerprint device = PublicFingerprint signing wrapping ∧ slen vaultKey = 32 ∧
     ∃ envelope private ephemeral shared nonce, es_Envelope status = Some envelope ∧
       wrapping = encode (x25519_public private) ∧ x25519 private ephemeral = Some shared ∧
       decode (wk_ephemeral_key envelope) = Some ephemeral ∧
       decode (blob_ciphertext (wk_blob envelope)) =
         Some (gcm_seal (hkdf_sha256 shared (wrap_context vaultID deviceID)) nonce vaultKey (wrap_context vaultID deviceID)))).
Proof using laws.
  intros Hkeys <-. destruct (PublicKeysFromSecrets_Ok _ _ _ Hkeys) as (private & Hpriv & Hlen & Hw).
  unfold UnwrapEnrollmentVaultKey. split.
  - intros ephemeral nonce envelope He Hn Hk Hid Hwrap ->. rewrite String.eqb_refl, Hkeys. cbn [negb mbind result_bind].
    rewrite Hid, Hpriv. cbn [mbind result_bind]. rewrite Hw in Hwrap.
    rewrite (Unwrap_Wrap _ _ _ _ _ _ _ He Hlen Hn Hwrap). cbn. by rewrite Hk.
  - intros deviceID. destruct (String.eqb_spec (dev_ID (es_Device status)) deviceID) as [<-|]; [|done].
    destruct (es_Envelope status) as [envelope|]; [|done]. rewrite Hkeys. cbn [negb mbind result_bind].
    intros H. apply bind_Ok in H as ([] & Hid & H). apply bind_Ok in H as (key & Hu & H).
    apply reject_if_bind in H as [Hk [= ->]]. apply negb_false_iff, Z.eqb_eq in Hk.
    apply ValidateDeviceIdentity_Ok in Hid as (? & ? & _ & ?). split_and!; try done.
    unfold UnwrapVaultKey in Hu. apply reject_if_bind in Hu as [_ Hu]. rewrite Hpriv, decode_encode in Hu.
    destruct (decode (wk_ephemeral_key envelope)) as [ephemeral|] eqn:Ee; [|done].
    rewrite !reject_if_bind in Hu. destruct Hu as (_ & _ & Hu).
    destruct (x25519 private ephemeral) as [shared|] eqn:Ex; [|done].
    apply Open_Ok in Hu as (nonce & _ & _ & _ & _ & Hc). by exists envelope, private, ephemeral, shared, nonce.
Qed.
End Enrollment.
