(* ===== verification/EndToEnd.v ===== *)
(** The client against the service: what the composition of internal/client,
    internal/vaultobject, internal/secure and internal/server gives. *)
From S2P Require Import Prelude Base64 Timestamp Text Secure Protocol Envelope VaultObject ServerState ServerTx.
From S2P Require Import ServerVault ServerInvitations ServerRoutes ServerSpec ServerLogic.
From S2P Require Import ServerRefinement ServerHistory ServerExample Client.
From stdpp Require Import options.

(** ** The routes of the paths that a client builds *)

Definition plain (s : string) : Prop := s ≠ "" ∧ all_bytes path_char s = true.

Lemma plain_bytes p s : (∀ c, path_char c = true → p c = true) → plain s → all_bytes p s = true.
Proof. intros Hp [_ H]. by eapply all_bytes_mono. Qed.

Lemma plain_no_slash s : plain s → all_bytes (λ c, negb (Ascii.eqb "/" c)) s = true.
Proof. apply plain_bytes. intros c Hc. by apply path_char_plain in Hc as [_ ?]. Qed.

Lemma plain_no_percent s : plain s → all_bytes (λ c, negb (Ascii.eqb c "%")) s = true.
Proof. apply plain_bytes. intros c Hc. by apply path_char_plain in Hc as [? _]. Qed.

Lemma encode_plain s : s ≠ "" → plain (encode s).
Proof. split; [|apply encode_path_char]. by destruct s as [|? [|? [|]]]. Qed.

Lemma object_path_text vault id : plain vault → plain id →
  "/v1/vaults/" +:+ PathEscape vault +:+ "/objects/" +:+ PathEscape id = "/v1/vaults/" +:+ vault +:+ "/objects/" +:+ id.
Proof. intros [_ Hv] [_ Hi]. by rewrite !PathEscape_plain. Qed.

Lemma object_path_route method vault id : plain vault → plain id →
  route method (path_unescape ("/v1/vaults/" +:+ vault +:+ "/objects/" +:+ id)) = route_vault method vault ["objects"; id].
Proof.
  intros Hv Hi.
  rewrite path_unescape_plain by by rewrite !all_bytes_app, (plain_no_percent vault), (plain_no_percent id).
  unfold route. rewrite !(string_app_cons "/"). cbn [String.eqb Ascii.eqb Bool.eqb].
  replace (trim_byte "/" _) with ("v1" +:+ String "/" ("vaults" +:+ String "/" (vault +:+ String "/" ("objects" +:+ String "/" id)))).
  - by rewrite !split_on_cons, split_on_last by (reflexivity || by apply plain_no_slash).
  - transitivity (("v1/vaults/" +:+ vault +:+ "/objects/") +:+ id); [by rewrite !string_app_assoc|].
    rewrite <-(trim_right_app (Ascii.eqb "/")) by (apply Hi || by apply plain_no_slash).
    by rewrite !string_app_assoc.
Qed.

(** ** One exchange *)

Section EndToEnd.
Context {crypto : Crypto} {cipher : Cipher} {laws : CipherLaws} {env : Env} {wire : Wire}.
Context {client_wire : ClientWire} {replies : ReplyCodec} {codec : ObjectCodec}.
Context {L : Type} {local : Local L}.

(** The client sends its requests to the service, with a clock and randomness of
    its own. *)
#[export] Instance direct_network : Network (World * L) := λ r s,
  let '(response, w) := serve r s.1 in (Ok response, (w, s.2)).
#[export] Instance direct_local : Local (World * L) := {|
  local_now := λ s, let '(t, l) := local_now s.2 in (t, (s.1, l));
  random_bytes := λ n s, let '(b, l) := random_bytes n s.2 in (b, (s.1, l)) |}.

Lemma signed_request_Ok a method path body now bytes r :
  signed_request a method path body now bytes = Ok r → ∃ signature,
  Sign (sec_SigningPrivate (api_Secrets a))
    (SignatureMessage method path (format_rfc3339 now) (encode bytes) body) = Ok signature ∧
  r = new_request method path body (signed_headers a (format_rfc3339 now) (encode bytes) signature).
Proof. unfold signed_request. intros (s & Hs & [= <-])%bind_Ok. by exists s. Qed.

Lemma do_served a method path body s b s' :
  do_authenticated a method path body s = (Ok b, s') →
  ∃ r, r_method r = method ∧ r_path r = path_unescape path ∧ r_body r = body ∧
    s'.1 = (serve r s.1).2 ∧ payload (serve r s.1).1 = b ∧ 200 ≤ status (serve r s.1).1 < 300.
Proof.
  unfold do_authenticated. destruct (negb (nonempty _)); [done|]. cbn [local_now direct_local random_bytes].
  destruct (local_now s.2) as [now l]. cbn [fst snd]. destruct (random_bytes 18 l) as [[bytes|] l']; [|done].
  destruct (signed_request _ _ _ _ _ _) as [r|] eqn:Er; [|done].
  apply signed_request_Ok in Er as (signature & _ & Er). unfold exchange, direct_network. cbn [fst snd]. destruct (serve r s.1) as [response w] eqn:Es. intros [= Hr <-]. exists r.
  unfold read_reply in Hr. rewrite Es. cbn [fst snd]. rewrite Er at 1 2 3.
  destruct ((status response <? 200) || (300 <=? status response)) eqn:Est.
  - destruct (payload response); try done. by destruct (nonempty message).
  - injection Hr as ->. apply orb_false_iff in Est as [H1 H2]. split_and!; try done; lia.
Qed.

Lemma reachable_serve r w : reachable w → reachable (serve r w).2.
Proof.
  intros (l & w0 & E & ->). exists (l ++ [r]), w0. split; [done|]. clear E. revert w0.
  induction l as [|x l IH]; intros w0; [done|]. apply IH.
Qed.

Lemma do_reachable a method path body s :
  reachable s.1 → reachable (do_authenticated a method path body s).2.1.
Proof.
  intros Hs. unfold do_authenticated. destruct (negb (nonempty _)); [done|]. cbn [local_now direct_local random_bytes].
  destruct (local_now s.2) as [now l]. cbn [fst snd]. destruct (random_bytes 18 l) as [[bytes|] l']; [|done].
  destruct (signed_request _ _ _ _ _ _) as [r|]; [|done]. unfold exchange, direct_network. cbn [fst snd].
  pose proof (reachable_serve r s.1 Hs) as Hr. by destruct (serve r s.1) as [response w].
Qed.

Lemma put_leaves_reachable a vaultKey kind key raw expected s :
  reachable s.1 → reachable (client_PutObject a vaultKey kind key raw expected s).2.1.
Proof.
  intros Hs. unfold client_PutObject. cbn [local_now direct_local random_bytes].
  destruct (local_now s.2) as [now l]. cbn [fst snd]. destruct (random_bytes 12 l) as [nonce l']. cbn [fst snd].
  destruct (Encrypt _ _ _ _) as [[id blob]|]; [|done]. unfold PutVaultObject, decode_reply.
  by apply (do_reachable _ _ _ _ (s.1, l')).
Qed.

(** The laws of JSON that are used, for texts that it keeps as they are: ASCII, numbers of
    64 bits, a key of valid UTF-8, a payload as the encoder itself makes it. *)
Context (marshalled : string → Prop).
Definition int64 (z : Z) : Prop := min_int64 ≤ z ≤ max_int64.
Definition ascii_blob (blob : Blob) : Prop :=
  blob_version blob = formatVersion ∧ ascii_text (blob_nonce blob) = true ∧ ascii_text (blob_ciphertext blob) = true.
Context (put_json : ∀ q, int64 (po_ExpectedRevision q) → ascii_text (po_ModifiedAt q) = true → ascii_blob (po_Blob q) →
  json_PutVaultObjectRequest (to_json_PutObject q) = Some q).
Context (record_json_law : ∀ record, ascii_text (rec_ID record) = true → int64 (rec_Revision record) →
  ascii_blob (rec_Blob record) → ascii_text (rec_ModifiedAt record) = true → reply_record (BRecord record) = Ok record).
Context (object_json_law : ∀ o raw, VaultObject_Validate o = Ok tt → valid_utf8 (vo_Key o) = true → marshalled (vo_Payload o) →
  object_json o = Ok raw → object_of_json raw = Some o).
Context (random_length : ∀ n (l : L) b l', random_bytes n l = (Ok b, l') → slen b = n).

Lemma dec_char_ascii v : (code (dec_char (v mod 10)) <? 128) = true.
Proof. pose proof (Z.mod_pos_bound v 10). unfold dec_char. rewrite code_chr; lia. Qed.
Lemma pad_ascii w x : ascii_text (pad w x) = true.
Proof.
  unfold ascii_text. revert x. induction w as [|w IH]; intros x; [done|]. cbn [pad]. rewrite all_bytes_app, IH. cbn [all_bytes andb].
  by rewrite dec_char_ascii.
Qed.
Lemma format_ascii t : ascii_text (format_rfc3339 t) = true.
Proof.
  unfold format_rfc3339, format_unix, format_date, format_clock. destruct (civil_from_days _) as [[y m] d].
  pose proof pad_ascii as H. unfold ascii_text in *. by rewrite !all_bytes_app, !H.
Qed.
Lemma encode_ascii s : ascii_text (encode s) = true.
Proof.
  unfold ascii_text. eapply all_bytes_mono; [|apply encode_path_char]. intros c Hc.
  pose proof (forall_ascii (λ c, implb (path_char c) (code c <? 128)) ltac:(vm_compute; reflexivity) c) as H. cbn beta in H. by rewrite Hc in H.
Qed.
Lemma sealed_ascii nonce vaultID vaultKey object id blob : Encrypt nonce vaultID vaultKey object = Ok (id, blob) → ascii_blob blob.
Proof.
  unfold Encrypt, Seal. intros (_ & _ & H)%bind_Ok. apply bind_Ok in H as (raw & _ & H). apply bind_Ok in H as (b & Hb & H).
  injection H as _ <-. apply bind_Ok in Hb as (_ & _ & Hb). apply bind_Ok in Hb as (n & _ & Hb). injection Hb as <-.
  split_and!; [done|apply encode_ascii..].
Qed.
Lemma stored_ascii v id row w : reachable w → vault_objects (committed w) !! (v, id) = Some row → ascii_blob (r_blob row) →
  reply_record (BRecord (to_record (id, row))) = Ok (to_record (id, row)).
Proof using record_json_law.
  intros Hw%reachable_ok Hrow Hblob. destruct (ok_tables _ Hw Objects _ _ _ Hrow) as (Hrev & Hid & _ & Hm). apply record_json_law; cbn.
  - unfold validOpaqueObjectID in Hid. destruct (decode id) as [raw|]; [|done]. apply andb_true_iff in Hid as [_ <-%String.eqb_eq]. apply encode_ascii.
  - split; [|apply Hrev]. unfold min_int64. lia.
  - done.
  - unfold validObjectTimestamp in Hm. destruct (parse_rfc3339 _) as [t|]; [|done]. apply String.eqb_eq in Hm as <-. apply format_ascii.
Qed.

Lemma ID_plain vaultKey kind key : plain (ID vaultKey kind key).
Proof using laws.
  apply encode_plain. intros E. pose proof (hmac_length vaultKey ("envbank.object.id.v1" +:+ nul +:+ kind +:+ nul +:+ key)) as H.
  by rewrite E in H.
Qed.

Lemma object_target r method a id :
  plain (api_VaultID a) → plain id → r_method r = method → r_path r = path_unescape (object_path a id) →
  target r = route_vault method (api_VaultID a) ["objects"; id].
Proof.
  intros Ha Hid Em Ep. unfold target. rewrite Em, Ep. unfold object_path, vaultPath. rewrite string_app_assoc.
  rewrite object_path_text by done. by apply object_path_route.
Qed.

Lemma serve_contract r w :
  reachable w → status (serve r w).1 < 400 →
  contract r (committed w) (serve r w).1 (committed (serve r w).2) (target r).
Proof.
  intros Hw%reachable_ok Hst. destruct (serve_serves r w) as (v & signed & (_ & Hs) & _); [apply Hw|].
  destruct Hs as [[_ H]|(_ & st & _ & Hp)]; [lia|]. by apply Hp.
Qed.

(** What a put that succeeded stored, and what it was. *)
Lemma put_served a vaultKey kind key raw expected s object s' :
  reachable s.1 → plain (api_VaultID a) → int64 expected → valid_utf8 key = true → marshalled raw →
  client_PutObject a vaultKey kind key raw expected s = (Ok object, s') →
  let id := ID vaultKey kind key in
  (∃ row, vault_objects (committed s'.1) !! (api_VaultID a, id) = Some row ∧
     Decrypt (api_VaultID a) vaultKey (to_record (id, row)) = Ok object ∧ r_revision row = wrap64 (expected + 1) ∧ ascii_blob (r_blob row)) ∧
  revision_of Objects (api_VaultID a) id (committed s.1) = expected ∧
  object = {| vo_Kind := kind; vo_Key := key; vo_Revision := wrap64 (expected + 1);
    vo_ModifiedAt := format_rfc3339 (local_now s.2).1; vo_Payload := raw |}.
Proof using laws put_json record_json_law object_json_law random_length.
  intros Hs Ha Hexp Hkey Hraw H id. unfold client_PutObject in H. cbn [local_now direct_local random_bytes] in H.
  destruct (local_now s.2) as [now l1]. cbn [fst snd] in *. destruct (random_bytes 12 l1) as [nonce l2] eqn:En.
  cbn [fst snd] in H. destruct (Encrypt _ _ _ _) as [[id' blob]|] eqn:Eenc; [|done].
  assert (Hid : id' = id) by by apply Encrypt_id in Eenc.
  subst id'. set (q := {| po_ExpectedRevision := expected |}) in *.
  destruct (PutVaultObject a id q (s.1, l2)) as [r w2] eqn:Ep. injection H as Hr <-.
  destruct r as [record|]; [|done]. cbn in Hr. unfold PutVaultObject, decode_reply in Ep.
  destruct (do_authenticated _ _ _ _ _) as [[body|] w3] eqn:Ed; [|done]. cbn [fst snd] in Ep. injection Ep as Ebody <-.
  apply do_served in Ed as (r & Em & Epath & Eb & Ew & Epay & Hst). cbn [fst snd] in *.
  pose proof (serve_contract r s.1 Hs ltac:(lia)) as Hc.
  rewrite (object_target r "PUT" a id Ha (ID_plain _ _ _) Em Epath) in Hc. cbn in Hc.
  destruct Hc as (q' & Hq & _ & row & Hrev & Hrow & _ & Hblob & Hlook & Hans). pose proof (sealed_ascii _ _ _ _ _ _ Eenc) as Hascii.
  rewrite Eb, put_json in Hq by (done || apply format_ascii). injection Hq as <-. rewrite Hans in Epay. cbn [payload] in Epay. subst body.
  assert (Hreach : reachable (serve r s.1).2) by by apply reachable_serve. assert (Hrb : ascii_blob (r_blob row)) by by rewrite Hblob.
  rewrite (stored_ascii _ _ _ _ Hreach Hlook Hrb) in Ebody.
  injection Ebody as <-. rewrite Ew. split; [by exists row|]. split; [done|].
  destruct nonce as [nonce|]; [|by apply sealed_nonce in Eenc]. apply random_length in En.
  eapply (Decrypt_only nonce); [exact En|intros raw' Hj; apply object_json_law; [|done..]; by apply bind_Ok in Eenc as ([] & Hv & _)|exact Eenc|].
  change blob with (po_Blob q). rewrite <-Hblob. exact Hr.
Qed.

(** ** Signatures *)

(** The state of the service in which a client can be served: no fault, the
    device registered under the public half of its signing key and not revoked,
    and its clock at most five minutes from the service's. *)
Record can_serve (a : API) (raw : string) (now : Z) (bytes : string) (db : Db) : Prop := {
  cs_no_fault : ∀ n, fault n = false;
  cs_vault : is_Some (vaults db !! api_VaultID a);
  cs_id : api_DeviceID a ≠ "";
  cs_key : decode (sec_SigningPrivate (api_Secrets a)) = Some raw;
  cs_pair : slen raw = 64 ∧ ∀ m, ed25519_verify (drop_bytes 32 raw) m (ed25519_sign raw m) = true;
  cs_device : ∃ row, devices db !! (api_VaultID a, api_DeviceID a) = Some row ∧ d_revoked_at row = None ∧
    dev_SigningPublic (d_device row) = encode (drop_bytes 32 raw);
  cs_clock : four_digit_year (unix now) ∧ ∀ n, Z.abs (clock n - truncate_second now) ≤ 5 * minute;
  cs_nonce : slen bytes = 18 ∧ nonces db !! (api_VaultID a, api_DeviceID a, encode bytes) = None;
}.

Lemma bind_next {A B} (m : Handler A) (f : A → Handler B) w x w' : m w = Next x w' → (m ≫= f) w = f x w'.
Proof. unfold mbind, handler_bind. by intros ->. Qed.

Lemma queryRow_found {A} (f : Db → option A) w x :
  (∀ n, fault n = false) → f (pending w) = Some x → queryRow f w = Next (Found x) (tick w).
Proof. unfold queryRow. intros -> ->. done. Qed.

Lemma near_window d : Z.abs d ≤ 5 * minute → - max_int64 ≤ d ≤ max_int64.
Proof. unfold max_int64, minute, second. lia. Qed.

Lemma vaultExists_yes vault w v :
  (∀ n, fault n = false) → vaults (pending w) !! vault = Some v → vaultExists vault w = Next true (tick w).
Proof. intros Hf Hv. unfold vaultExists. by erewrite bind_next by by apply queryRow_found. Qed.

Lemma claimedDevice_active vault id allow w row :
  (∀ n, fault n = false) → devices (pending w) !! (vault, id) = Some row → d_revoked_at row = None →
  claimedDevice vault id allow w = Next (Some (named id (d_device row), "")) (tick w).
Proof.
  intros Hf Hrow Hact. unfold claimedDevice, getDeviceStatusTx.
  erewrite bind_next; [|apply queryRow_found; [done|]; unfold select_device; rewrite Hrow; done].
  unfold device_status. cbn. by rewrite Hact.
Qed.

Lemma must_exec_done stmt w db n :
  (∀ n, fault n = false) → stmt (pending w) = Some (db, n) → must (exec stmt) w = Next n (with_pending db (tick w)).
Proof. unfold must, mbind, handler_bind, exec. intros -> ->. done. Qed.

(** An honest client is let in.  The request that a client signs is accepted by
    the authentication of the service, for any method, path and body, when the
    database answers, the device is registered with the public key of its signing
    key and not revoked, its nonce is new and the clocks differ by at most five
    minutes. *)
Theorem signed_request_accepted a raw method path body now bytes operation allowPending w :
  can_serve a raw now bytes (pending w) →
  ∃ r w', signed_request a method path body now bytes = Ok r ∧
    authenticateDevice r (api_VaultID a) body operation allowPending w =
      Next {| auth_identityID := api_DeviceID a; auth_operation := operation |} w' ∧
    committed w' = committed w ∧ (∃ m, pending w' = with_nonces m (pending w)) ∧ (effects w ≤ effects w')%nat.
Proof using laws.
  intros [Hf [vrow Hv] Hid Hk [Hlen Hpair] (row & Hrow & Hact & Hpub) [Hy Hclock] [Hb Hnonce]].
  unfold signed_request, Sign. rewrite Hk, Hlen. cbn [reject_if negb Z.eqb Pos.eqb mbind result_bind].
  eexists _, _. split; [done|]. unfold authenticateDevice.
  set (r := new_request _ _ _ _). change (r_header r HeaderDevice) with (api_DeviceID a).
  change (r_header r HeaderTimestamp) with (format_rfc3339 now). change (r_header r HeaderNonce) with (encode bytes).
  set (signature := ed25519_sign raw (requestMessage r body)). change (r_header r HeaderSignature) with (encode signature).
  erewrite bind_next by by eapply vaultExists_yes. erewrite bind_next by done.
  erewrite bind_next by by eapply claimedDevice_active. cbv beta iota zeta.
  cbn [dev_ID named dev_SigningPublic]. rewrite Hpub.
  rewrite (proj2 (String.eqb_neq (api_DeviceID a) "")) by done.
  assert (Hverify : Verify (encode (drop_bytes 32 raw)) (requestMessage r body) (encode signature) = true).
  { unfold Verify. rewrite !decode_encode. replace (slen _ =? ed25519_PublicKeySize) with true; [by apply Hpair|].
    symmetry. apply Z.eqb_eq. unfold slen, ed25519_PublicKeySize in *. rewrite drop_bytes_length. lia. }
  rewrite Hverify, orb_false_r.
  rewrite (proj2 (String.eqb_neq (encode signature) "")).
  2: { apply encode_plain. intros E. pose proof (ed25519_sign_length raw (requestMessage r body) Hlen) as Hs.
    fold signature in Hs. by rewrite E in Hs. }
  erewrite bind_next by done. set (t := clock _).
  rewrite (proj2 (ValidateTimestamp_near _ t _ (canonicalTime_format _ Hy) ltac:(apply near_window, Hclock))) by apply Hclock.
  rewrite (proj2 (ValidateNonce_Ok (encode bytes))) by by exists bytes.
  cbn [is_ok negb orb]. erewrite bind_next by (apply must_exec_done; [done|unfold insert_nonce; cbn; by rewrite Hnonce]).
  cbn [Z.eqb Pos.eqb]. erewrite bind_next by (by apply must_exec_done). cbn [nonempty String.eqb negb].
  split; [done|]. split; [done|]. split; [by eexists|cbn; lia].
Qed.

(** ** A get, end to end *)

(** The state of the service and of a client in which its next request can be served: the
    conditions of [signed_request_accepted], and room in the log for an event whose
    identifier is new. *)
Record can_get (b : API) (s : World * L) : Prop := {
  cg_served : ∃ raw bytes l', random_bytes 18 (local_now s.2).2 = (Ok bytes, l') ∧
    can_serve b raw (local_now s.2).1 bytes (committed s.1);
  cg_log : event_sequence (committed s.1) < max_int64;
  cg_event : ∀ n, (effects s.1 ≤ n)%nat → ∃ id, entropy n = Some id ∧ Forall (λ e, ev_id e ≠ encode id) (access_events (committed s.1));
}.

Lemma exec_done stmt w db n : (∀ n, fault n = false) → stmt (pending w) = Some (db, n) →
  exec stmt w = Next (Some n) (with_pending db (tick w)).
Proof. unfold exec. by intros -> ->. Qed.

Lemma finishEvent_done vault event w : (∀ n, fault n = false) → (∃ id, entropy (effects w) = Some id ∧
    Forall (λ e, ev_id e ≠ encode id) (access_events (pending w))) → event_sequence (pending w) < max_int64 →
  (∀ id t seq, event_checks (event_row id vault t event seq) = true) → ∃ w', finishEvent vault event w = Next tt w'.
Proof.
  intros Hf (id & Hent & Hnew) Hseq Hcheck. unfold finishEvent.
  assert (Hins : ∃ w', insertAccessEvent vault event w = Next true w').
  { unfold insertAccessEvent. erewrite bind_next by (unfold randomID; by rewrite Hent). cbn [fmap option_fmap option_map].
    erewrite bind_next by done. erewrite bind_next.
    2: { apply exec_done; [done|]. unfold insert_event. cbn [pending tick]. rewrite Hcheck.
      replace (max_int64 <? _) with false by lia. cbn [negb orb].
      replace (existsb _ _) with false; [done|]. symmetry. cbn [ev_id event_row].
      revert Hnew. clear. induction (access_events (pending w)) as [|e l IHl]; [done|]. intros [He Hl]%Forall_cons. cbn [existsb].
      rewrite (IHl Hl), orb_false_r. by apply String.eqb_neq. }
    unfold pruneAccessEvents. do 2 (erewrite bind_next by (by apply exec_done); cbn beta iota). erewrite bind_next by (by apply exec_done). by eexists. }
  destruct Hins as [w' Hins]. erewrite bind_next by exact Hins. unfold commit. erewrite bind_next by (unfold tx_commit; by rewrite Hf).
  by eexists.
Qed.

Lemma get_served b s id row :
  can_get b s → plain (api_VaultID b) → plain id → vault_objects (committed s.1) !! (api_VaultID b, id) = Some row →
  ∃ s', do_authenticated b "GET" (object_path b id) "" s = (Ok (BRecord (to_record (id, row))), s').
Proof using laws.
  intros [(raw & bytes & l' & Hb & Hserve) Hlog Hid] Hv Hplain Hrow. pose proof (cs_no_fault _ _ _ _ _ Hserve) as Hf.
  set (w1 := with_pending (committed s.1) (tick s.1)).
  destruct (signed_request_accepted b raw "GET" (object_path b id) "" (local_now s.2).1 bytes "object_read" false w1 Hserve)
    as (r & w2 & Hr & Hauth & _ & (m & Hm) & Heff).
  unfold do_authenticated. replace (nonempty _) with true.
  2: { pose proof (cs_key _ _ _ _ _ Hserve) as Hk. destruct (cs_pair _ _ _ _ _ Hserve) as [Hlen _].
    destruct (sec_SigningPrivate _); [|done]. injection Hk as <-. done. }
  cbn [negb local_now direct_local random_bytes]. destruct (local_now s.2) as [now l]. cbn [fst snd] in *. rewrite Hb, Hr.
  unfold exchange, direct_network. cbn [fst snd].
  destruct (signed_request_Ok _ _ _ _ _ _ _ Hr) as (signature & _ & Er).
  assert (Htarget : target r = RGetObject (api_VaultID b) id).
  { rewrite (object_target r "GET" b id Hv Hplain); [done|by rewrite Er..]. }
  assert (Hreply : ∃ w', serve r s.1 = ({| status := StatusOK; payload := BRecord (to_record (id, row)) |}, w')).
  { unfold serve, ServeHTTP. fold (target r). rewrite Htarget. cbn [handle]. unfold getVaultObject.
    erewrite bind_next by (unfold begin; rewrite Hf; done). erewrite bind_next by exact Hauth.
    erewrite bind_next; [|unfold queryVaultObject; apply queryRow_found; [done|]; rewrite Hm; cbn; by rewrite Hrow]. cbn beta iota.
    destruct (finishEvent_done (api_VaultID b) (auth_event {| auth_identityID := api_DeviceID b; auth_operation := "object_read" |} "" "succeeded" "") (tick w2))
      as [w' Hw']; [done|..].
    - destruct (Hid (effects (tick w2))) as (i & ? & ?); [cbn in *; lia|]. exists i. split; [done|]. cbn [pending tick]. by rewrite Hm.
    - cbn [pending tick]. by rewrite Hm.
    - intros. unfold event_checks. by vm_compute.
    - erewrite bind_next by exact Hw'. by eexists. }
  destruct Hreply as [w' ->]. by eexists.
Qed.

(** C13: what one client puts, every client of the vault gets.  A put that succeeds met the
    revision it expected, which was the one before that of the object.  After any
    requests of anyone that leave the row as it is, a get of that kind and key by a client
    with the vault key gives exactly this object or an error; and it gives the object when
    the database and the random source answer, the device of the client is registered
    with its key and not revoked, its nonce is new and its clock at most five minutes from the
    service's. *)
Theorem put_then_get a b vaultKey kind key raw expected s object s1 s2 :
  reachable s.1 → plain (api_VaultID a) → int64 expected → valid_utf8 key = true → marshalled raw →
  client_PutObject a vaultKey kind key raw expected s = (Ok object, s1) →
  reachable s2.1 → api_VaultID b = api_VaultID a →
  vault_objects (committed s2.1) !! (api_VaultID a, ID vaultKey kind key) =
    vault_objects (committed s1.1) !! (api_VaultID a, ID vaultKey kind key) →
  revision_of Objects (api_VaultID a) (ID vaultKey kind key) (committed s.1) = expected ∧
  object = {| vo_Kind := kind; vo_Key := key; vo_Revision := expected + 1;
    vo_ModifiedAt := format_rfc3339 (local_now s.2).1; vo_Payload := raw |} ∧
  (∀ got s3, client_GetObject b vaultKey kind key s2 = (Ok got, s3) → got = object) ∧
  (can_get b s2 → ∃ s3, client_GetObject b vaultKey kind key s2 = (Ok object, s3)).
Proof using laws put_json record_json_law object_json_law random_length.
  intros Hs Ha Hint Hkey Hraw Hput Hs2 Hab Hsame.
  destruct (put_served a vaultKey kind key raw expected s object s1 Hs Ha Hint Hkey Hraw Hput) as ((row & Hrow & Hdec & Hrev & Hascii) & Hexp & Hobj).
  split; [done|]. split.
  { rewrite Hobj. f_equal. apply Decrypt_fields in Hdec as (Hv & _). apply VaultObject_Validate_revision in Hv.
    rewrite Hobj in Hv. cbn [vo_Revision] in Hv. apply reachable_ok in Hs. revert Hexp. unfold revision_of.
    destruct (table_rows Objects (committed s.1) !! _) as [old|] eqn:Eold; cbn; [|intros <-; done].
    intros <-. apply next_revision; [|lia]. by pose proof (ok_tables _ Hs Objects _ _ _ Eold) as [? _]. }
  rewrite <-Hsame in Hrow. pose proof (stored_ascii _ _ _ _ Hs2 Hrow Hascii) as Hjson.
  unfold client_GetObject, GetVaultObject, decode_reply. split.
  - intros got s3 Hget. destruct (do_authenticated _ _ _ _ _) as [[body|] s4] eqn:Ed; [|done].
    apply do_served in Ed as (r & Em & Epath & _ & _ & Epay & Hst).
    pose proof (serve_contract r s2.1 Hs2 ltac:(lia)) as Hc.
    rewrite (object_target r "GET" b _ ltac:(by rewrite Hab) (ID_plain _ _ _) Em Epath) in Hc. cbn in Hc.
    destruct Hc as (row' & Hrow' & Hans). rewrite Hab, Hrow in Hrow'. injection Hrow' as <-.
    rewrite Hans in Epay. cbn [payload] in Epay. subst body. cbn [fst snd mbind result_bind] in Hget.
    rewrite Hjson in Hget. cbn [mbind result_bind] in Hget. rewrite Hab, Hdec in Hget. by injection Hget.
  - intros Hcan. destruct (get_served b s2 (ID vaultKey kind key) row) as [s3 E]; [done|by rewrite Hab|apply ID_plain|by rewrite Hab|].
    rewrite E. cbn [fst snd mbind result_bind]. rewrite Hjson. cbn [mbind result_bind]. rewrite Hab, Hdec. by eexists.
Qed.
End EndToEnd.

(** ** The properties, applied *)

Import Toy.
Module Demo.
(** A signature is valid when it has 64 bytes. *)
#[export] Instance crypto : Crypto := {|
  sha256 := sha256 (Crypto := demo_crypto); ed25519_verify := λ _ _ s, slen s =? 64; x25519_usable := λ _, true |}.

Definition put_text (q : PutVaultObjectRequest) : string :=
  to_text (po_ExpectedRevision q, po_ModifiedAt q, blob_version (po_Blob q), blob_nonce (po_Blob q), blob_ciphertext (po_Blob q)).
Definition put_of_text (s : string) : option PutVaultObjectRequest :=
  '(expected, modified, version, nonce, ciphertext) ← of_text s;
  Some {| po_ExpectedRevision := expected; po_ModifiedAt := modified;
    po_Blob := {| blob_version := version; blob_nonce := nonce; blob_ciphertext := ciphertext |} |}.

Lemma put_text_law q : put_of_text (put_text q) = Some q.
Proof. unfold put_of_text, put_text. rewrite of_to_text. by destruct q as [? ? []]. Qed.

#[export] Instance wire : Wire := {|
  json_CreateVaultRequest := json_CreateVaultRequest (Wire := demo_wire);
  json_EnrollmentRequest := json_EnrollmentRequest (Wire := demo_wire);
  json_EnrollmentApproval := json_EnrollmentApproval (Wire := demo_wire);
  json_PutRecordRequest := json_PutRecordRequest (Wire := demo_wire);
  json_PutVaultObjectRequest := put_of_text;
  json_DeleteVaultObjectRequest := json_DeleteVaultObjectRequest (Wire := demo_wire);
  json_strict_InvitationRequest := json_strict_InvitationRequest (Wire := demo_wire);
  json_strict_InvitationApproval := json_strict_InvitationApproval (Wire := demo_wire);
  json_strict_InvitationTransition := json_strict_InvitationTransition (Wire := demo_wire) |}.

#[export] Instance client_wire : ClientWire :=
  {| to_json_PutObject := put_text; to_json_DeleteObject := to_text; to_json_PutRecord := λ _, "" |}.
#[export] Instance replies : ReplyCodec := {|
  reply_record := λ b, match b with BRecord r => Ok r | _ => Err "invalid server response" end;
  reply_records := λ b, match b with BRecords l => Ok l | _ => Err "invalid server response" end |}.

(** The clock stands still, and the random bytes count. *)
#[export] Instance local : Local nat := {|
  local_now := λ l, (demo_time, l);
  random_bytes := λ n l, (if 0 <=? n then Ok (repeat_byte (Z.to_nat n) (ascii_of_nat l)) else Err "random", S l) |}.

Lemma repeat_byte_length n c : String.length (repeat_byte n c) = n.
Proof. induction n as [|n IH]; cbn; by rewrite ?IH. Qed.

Lemma random_law n (l : nat) b l' : random_bytes n l = (Ok b, l') → slen b = n.
Proof. cbn. destruct (Z.leb_spec 0 n); intros [= <- _]. unfold slen. rewrite repeat_byte_length. lia. Qed.

(** A service whose random identifiers never repeat. *)
#[export] Instance env : Env := {|
  ServerTx.clock := λ _, demo_time; fault := λ _, false; cut := λ _, None; entropy := λ n, Some (repeat_byte (18 + n) "r") |}.
Definition vault : string := encode (repeat_byte 18 "r").
Definition device : string := encode (repeat_byte 19 "r").

Definition api : API := {| api_VaultID := vault; api_DeviceID := device;
  api_Secrets := {| sec_SigningPrivate := encode (repeat_byte 32 "k" +:+ repeat_byte 32 "s"); sec_WrappingPrivate := ""; sec_VaultKey := "" |} |}.

Definition start : World * nat := (serve_all [demo_create] demo_start, 0%nat).
Definition put := client_PutObject api (zeros 32) "provider-plan" "plan" "{}" 0 start.
Definition get := client_GetObject api (zeros 32) "provider-plan" "plan" put.2.
Definition object : VaultObject := {| vo_Kind := "provider-plan"; vo_Key := "plan"; vo_Revision := 1;
  vo_ModifiedAt := "2026-08-09T20:00:00Z"; vo_Payload := "{}" |}.

Example put_works : put.1 = Ok object.
Proof. vm_compute. reflexivity. Qed.
Example get_works : get.1 = Ok object.
Proof. vm_compute. reflexivity. Qed.

Lemma start_reachable : reachable start.1.
Proof. by exists [demo_create], demo_start. Qed.

Lemma put_reachable : reachable put.2.1.
Proof. apply put_leaves_reachable, start_reachable. Qed.

Lemma demo_plain : plain vault.
Proof. by apply encode_plain. Qed.

Lemma can_serve_at now bytes db : is_Some (vaults db !! vault) →
  (∃ row, devices db !! (vault, device) = Some row ∧ d_revoked_at row = None ∧
    dev_SigningPublic (d_device row) = encode (drop_bytes 32 (repeat_byte 32 "k" +:+ repeat_byte 32 "s"))) →
  now = demo_time → slen bytes = 18 → nonces db !! (vault, device, encode bytes) = None →
  can_serve api (repeat_byte 32 "k" +:+ repeat_byte 32 "s") now bytes db.
Proof.
  intros Hv Hd -> Hb Hn. split; [done|done|by vm_compute|by vm_compute| |done| |done].
  - split; [reflexivity|]. intros m. cbn [ed25519_verify crypto]. apply Z.eqb_eq. by apply ed25519_sign_length.
  - split; [vm_compute; split; [discriminate|reflexivity]|]. intros n. vm_compute. discriminate.
Qed.

Definition old_id (limit : nat) (e : EventRow) : bool :=
  match decode (ev_id e) with Some raw => Nat.ltb (String.length raw) limit | None => false end.
Lemma new_ids l k n : forallb (old_id (18 + k)) l = true → (k ≤ n)%nat →
  ∃ id, entropy n = Some id ∧ Forall (λ e, ev_id e ≠ encode id) l.
Proof.
  intros Hl Hn. exists (repeat_byte (18 + n) "r"). split; [done|]. apply Forall_forall. intros e He E. rewrite forallb_forall in Hl.
  apply list_elem_of_In, Hl in He. unfold old_id in He. rewrite E, decode_encode, repeat_byte_length in He. apply Nat.ltb_lt in He. lia.
Qed.

Lemma get_possible : can_get api put.2.
Proof.
  split.
  - eexists _, _, _. split; [vm_compute; reflexivity|]. apply can_serve_at; [vm_compute; by eexists| |by vm_compute..].
    vm_compute. eexists. split; [reflexivity|]. by split.
  - vm_compute. reflexivity.
  - intros n. apply (new_ids _ (effects put.2.1)). vm_compute. reflexivity.
Qed.
End Demo.
Import Demo.

Lemma put_then_get_witness : ∃ s3, client_GetObject Demo.api (zeros 32) "provider-plan" "plan" Demo.put.2 = (Ok Demo.object, s3).
Proof.
  destruct (put_then_get (crypto := Demo.crypto) (wire := Demo.wire) (client_wire := Demo.client_wire) (replies := Demo.replies)
    (codec := example_objects) (local := Demo.local) (λ _, True) (λ q _ _ _, Demo.put_text_law q) (λ r _ _ _ _, eq_refl)
    (λ o raw _ _ _, example_objects_law o raw) Demo.random_law Demo.api Demo.api (zeros 32)
    "provider-plan" "plan" "{}" 0 Demo.start Demo.object Demo.put.2 Demo.put.2
    Demo.start_reachable Demo.demo_plain ltac:(split; by vm_compute) eq_refl I ltac:(rewrite <-Demo.put_works; apply surjective_pairing)
    Demo.put_reachable eq_refl eq_refl) as (_ & _ & _ & H).
  exact (H Demo.get_possible).
Defined.

Lemma signed_request_accepted_witness :
  ∃ r w', signed_request Demo.api "GET" "/v1/vaults" "" demo_time (repeat_byte 18 "a") = Ok r ∧
    authenticateDevice r vault "" "object_list" false (with_pending (committed Demo.start.1) Demo.start.1) =
      Next {| auth_identityID := device; auth_operation := "object_list" |} w' ∧ committed w' = committed Demo.start.1.
Proof.
  destruct (signed_request_accepted (crypto := Demo.crypto) Demo.api (repeat_byte 32 "k" +:+ repeat_byte 32 "s") "GET" "/v1/vaults" "" demo_time
    (repeat_byte 18 "a") "object_list" false (with_pending (committed Demo.start.1) Demo.start.1)) as (r & w' & H1 & H2 & H3 & _).
  - apply Demo.can_serve_at; [vm_compute; by eexists| |by vm_compute..]. vm_compute. eexists. split; [reflexivity|]. by split.
  - exists r, w'. split; [exact H1|]. split; [exact H2|exact H3].
Defined.

Definition demo_secrets : DeviceSecrets := {|
  sec_SigningPrivate := encode (repeat_byte 64 "k"); sec_WrappingPrivate := encode (repeat_byte 32 "w"); sec_VaultKey := "" |}.
Definition demo_identity : PublicDevice := {|
  dev_ID := device; dev_Name := "phone"; dev_SigningPublic := encode (repeat_byte 32 "k");
  dev_WrappingPublic := encode (repeat_byte 32 "w");
  dev_Fingerprint := PublicFingerprint (encode (repeat_byte 32 "k")) (encode (repeat_byte 32 "w")); dev_CreatedAt := "" |}.
Definition demo_wrapped : result WrappedKey :=
  WrapVaultKey (Ok (repeat_byte 32 "e")) (Ok (repeat_byte 12 "n")) (repeat_byte 32 "v")
    (encode (repeat_byte 32 "w")) vault (dev_ID demo_identity).
Definition demo_status : EnrollmentStatus := {|
  es_Device := demo_identity; es_Approved := true;
  es_Envelope := match demo_wrapped with Ok envelope => Some envelope | Err _ => None end; es_RevokedAt := "" |}.

Lemma enrollment_hands_over_key_witness :
  UnwrapEnrollmentVaultKey demo_status demo_secrets vault (dev_ID demo_identity) = Ok (repeat_byte 32 "v").
Proof.
  assert (E : ∃ envelope, demo_wrapped = Ok envelope) by (eexists; vm_compute; reflexivity).
  assert (Hkeys : PublicKeysFromSecrets demo_secrets = Ok (encode (repeat_byte 32 "k"), encode (repeat_byte 32 "w")))
    by (vm_compute; reflexivity).
  assert (Hid : ValidateDeviceIdentity demo_identity (encode (repeat_byte 32 "k")) (encode (repeat_byte 32 "w")) = Ok tt)
    by (vm_compute; reflexivity).
  destruct E as [envelope E].
  assert (He : es_Envelope demo_status = Some envelope) by (unfold demo_status; cbn [es_Envelope]; by rewrite E).
  unfold demo_wrapped in E.
  exact (proj1 (enrollment_hands_over_key (crypto := Demo.crypto) (cipher := Toy.cipher) _ _ _ demo_identity vault
    demo_status (repeat_byte 32 "v") Hkeys eq_refl)
    (repeat_byte 32 "e") (repeat_byte 12 "n") envelope eq_refl eq_refl eq_refl Hid E He).
Defined.
