(* ===== verification/Program.v ===== *)
(** Programs that call collaborators: a call is a node of the program, and what it
    answers is up to the environment.  A weakest-precondition calculus for them. *)
From S2P Require Import Prelude.
From stdpp Require Import options.

(** ** Programs

    [C X] is the type of the calls that are answered by an [X]. *)

(** A computation that ends with a value, returns early from its function, or
    asks and goes on with the answer. *)
Inductive flow (C : Type → Type) (R A : Type) : Type :=
| Done (a : A)
| Exit (r : R)
| Ask {X : Type} (c : C X) (k : X → flow C R A).
Arguments Done {_ _ _} _.
Arguments Exit {_ _ _} _.
Arguments Ask {_ _ _ _} _ _.

Fixpoint flow_bind_ {C R A B} (f : A → flow C R B) (p : flow C R A) : flow C R B :=
  match p with
  | Done a => f a
  | Exit r => Exit r
  | Ask c k => Ask c (λ x, flow_bind_ f (k x))
  end.
#[export] Instance flow_ret C R : MRet (flow C R) := @Done C R.
#[export] Instance flow_bind C R : MBind (flow C R) := @flow_bind_ C R.

Definition ask {C R X} (c : C X) : flow C R X := Ask c Done.

(** A call of a function: both its ends are its result. *)
Fixpoint enter {C R A} (p : flow C A A) : flow C R A :=
  match p with
  | Done a | Exit a => Done a
  | Ask c k => Ask c (λ x, enter (k x))
  end.

(** [for item := range l] with the variables the body assigns. *)
Fixpoint for_each {C R S A} (body : A → S → flow C R S) (l : list A) (s : S) : flow C R S :=
  match l with
  | [] => mret s
  | item :: l => s ← body item s; for_each body l s
  end.

(** A call of a function of which both ends are looked at. *)
Fixpoint attempt {C R R' A} (p : flow C R A) : flow C R' (A + R) :=
  match p with
  | Done a => Done (inl a)
  | Exit r => Done (inr r)
  | Ask c k => Ask c (λ x, attempt (k x))
  end.

(** The calls of one program among those of another. *)
Fixpoint lift {C D : Type → Type} {R A} (f : ∀ X, C X → D X) (p : flow C R A) : flow D R A :=
  match p with
  | Done a => Done a
  | Exit r => Exit r
  | Ask c k => Ask (f _ c) (λ x, lift f (k x))
  end.

(** ** Runs *)

(** A call with its answer.  Histories have the newest event first. *)
Inductive event (C : Type → Type) := | Event {X : Type} (c : C X) (x : X).
Arguments Event {_ _} _ _.
Definition history (C : Type → Type) := list (event C).

(** What the collaborators do: an answer to every call, in a state of their
    own.  Nothing else is known of them. *)
Class World (C : Type → Type) (W : Type) := answer : ∀ X, C X → W → (X * W)%type.

Fixpoint run {C W} `{!World C W} {R} (p : flow C R R) (w : W) (past : history C) : history C * R * W :=
  match p with
  | Done r | Exit r => (past, r, w)
  | Ask c k => let '(x, w) := answer _ c w in run (k x) w (Event c x :: past)
  end.

(** ** A program logic *)

(** [wp G p past Ret Q]: from [past], whatever is answered, [p] only makes
    calls that [G] permits, returns early only with [Ret], and ends with [Q]. *)
Section wp.
Context {C : Type → Type} (G : history C → ∀ X, C X → Prop).

Fixpoint wp {R A} (p : flow C R A) (past : history C) (Ret : history C → R → Prop) (Q : history C → A → Prop) : Prop :=
  match p with
  | Done a => Q past a
  | Exit r => Ret past r
  | @Ask _ _ _ X c k => G past X c ∧ ∀ x, wp (k x) (Event c x :: past) Ret Q
  end.

Lemma wp_bind {R A B} (f : A → flow C R B) p past Ret Q :
  wp p past Ret (λ past a, wp (f a) past Ret Q) → wp (p ≫= f) past Ret Q.
Proof.
  revert past. induction p as [a|r|X c k IH]; intros past; simpl; [done..|].
  intros [HG Hk]. split; [done|]. intros x. apply IH, Hk.
Qed.

Lemma wp_mono {R A} (p : flow C R A) past Ret Ret' Q Q' :
  (∀ past r, Ret past r → Ret' past r) → (∀ past a, Q past a → Q' past a) →
  wp p past Ret Q → wp p past Ret' Q'.
Proof.
  intros HR HQ. revert past. induction p as [a|r|X c k IH]; intros past; simpl; [auto..|].
  intros [HG Hk]. split; [done|]. intros x. apply IH, Hk.
Qed.

Lemma wp_enter {R A} (p : flow C A A) past Ret Q :
  wp p past Q Q → wp (enter (R:=R) p) past Ret Q.
Proof.
  revert past. induction p as [a|r|X c k IH]; intros past; simpl; [done..|].
  intros [HG Hk]. split; [done|]. intros x. apply IH, Hk.
Qed.

Lemma wp_attempt {R R' A} (p : flow C R A) past (Ret : history C → R' → Prop) (Q : history C → A + R → Prop) :
  wp p past (λ past r, Q past (inr r)) (λ past a, Q past (inl a)) → wp (attempt p) past Ret Q.
Proof.
  revert past. induction p as [a|r|X c k IH]; intros past; simpl; [done..|]. intros [HG Hk]. split; [done|]. intros x. apply IH, Hk.
Qed.

Lemma wp_ask {R X B} (c : C X) (f : X → flow C R B) past Ret Q :
  G past X c → (∀ x, wp (f x) (Event c x :: past) Ret Q) → wp (x ← ask c; f x) past Ret Q.
Proof. by split. Qed.

Lemma wp_call {R A B} (p : flow C A A) (f : A → flow C R B) past Ret Q P :
  wp p past P P → (∀ past' a, P past' a → wp (f a) past' Ret Q) → wp (a ← enter p; f a) past Ret Q.
Proof. intros Hp Hf. apply wp_bind, wp_enter. by eapply wp_mono; [..|exact Hp]. Qed.

(** A loop: an invariant that each round keeps. *)
Lemma wp_for_each {R S A} (body : A → S → flow C R S) (l : list A) s past Ret Q (I : list A → history C → S → Prop) :
  I l past s →
  (∀ past s item l', I (item :: l') past s → wp (body item s) past Ret (I l')) →
  (∀ past s, I [] past s → Q past s) →
  wp (for_each body l s) past Ret Q.
Proof.
  intros HI Hbody HQ. revert past s HI. induction l as [|item l IH]; intros past s HI; simpl; [by apply HQ|].
  apply wp_bind. eapply wp_mono; [done| |by apply Hbody]. intros past' s' HI'. by apply IH.
Qed.

(** Histories in which every call was permitted when it was made. *)
Fixpoint lawful (past : history C) : Prop :=
  match past with
  | [] => True
  | @Event _ X c x :: past => G past X c ∧ lawful past
  end.

Lemma wp_run {W} `{!World C W} {R} (p : flow C R R) past Q (w : W) :
  wp p past Q Q → lawful past →
  let '(past', r, _) := run p w past in lawful past' ∧ Q past' r.
Proof.
  revert past w. induction p as [a|r|X c k IH]; intros past w; simpl; [done..|].
  intros [HG Hk] Hpast. destruct (answer X c w) as [x w'] eqn:E. apply IH; [apply Hk|done].
Qed.

Lemma lawful_app new past : lawful (new ++ past) → lawful past.
Proof. induction new as [|[X c x] new IH]; simpl; [done|]. intros [_ H]. auto. Qed.
End wp.

(** ** Growing histories

    What a program has seen stays seen. *)

Definition grows {C} (past past' : history C) : Prop := ∀ e, e ∈ past → e ∈ past'.
#[export] Instance grows_preorder {C} : PreOrder (@grows C).
Proof. split; [by intros past e|]. intros a b c H1 H2 e He. by apply H2, H1. Qed.

Lemma grows_step {C} (e : event C) past : grows past (e :: past).
Proof. intros x Hx. by right. Qed.
Lemma grows_cons {C} (e : event C) past past' : grows past past' → grows past (e :: past').
Proof. intros H. etransitivity; [exact H|apply grows_step]. Qed.

Lemma wp_grows {C R A} G (p : flow C R A) start past Ret Q : grows start past → wp G p past Ret Q →
  wp G p past (λ past' r, grows start past' ∧ Ret past' r) (λ past' a, grows start past' ∧ Q past' a).
Proof.
  revert past. induction p as [a|r|X c k IH]; intros past Hg; cbn [wp]; [done..|]. intros [HG Hk]. split; [done|].
  intros x. apply IH; [by apply grows_cons|apply Hk].
Qed.

(** Every event of a run was answered by the world. *)
Definition answered {C W} `{!World C W} (e : event C) : Prop :=
  match e with @Event _ X c x => ∃ w w' : W, answer X c w = (x, w') end.

Lemma run_answered {C W} `{!World C W} {R} (p : flow C R R) (w : W) past :
  Forall (answered (W:=W)) past → Forall (answered (W:=W)) (fst (fst (run p w past))).
Proof.
  revert w past. induction p as [a|r|X c k IH]; intros w past Hpast; cbn; [done..|].
  destruct (answer X c w) as [x w'] eqn:E. apply IH. constructor; [by exists w, w'|done].
Qed.

(** ** Collaborators with a state

    A relation says how a call may be answered and what it does to the state that the
    collaborators share.  [swp p s Ret Q]: [inv] holds whenever [p], started in [s], makes a
    call, it returns early only with [Ret], and ends with [Q]. *)

Section stateful.
Context {C : Type → Type} {S : Type} (answers : ∀ X, C X → S → X → S → Prop) (inv : S → Prop).

Fixpoint swp {R A} (p : flow C R A) (s : S) (Ret : S → R → Prop) (Q : S → A → Prop) : Prop :=
  match p with
  | Done a => Q s a
  | Exit r => Ret s r
  | @Ask _ _ _ X c k => inv s ∧ ∀ x s', answers X c s x s' → swp (k x) s' Ret Q
  end.

Lemma swp_bind {R A B} (f : A → flow C R B) p s Ret Q : swp p s Ret (λ s a, swp (f a) s Ret Q) → swp (p ≫= f) s Ret Q.
Proof.
  revert s. induction p as [a|r|X c k IH]; intros s; simpl; [done..|].
  intros [HI Hk]. split; [done|]. intros x s' Ha. by apply IH, Hk.
Qed.

Lemma swp_mono {R A} (p : flow C R A) s Ret Ret' Q Q' :
  (∀ s r, Ret s r → Ret' s r) → (∀ s a, Q s a → Q' s a) → swp p s Ret Q → swp p s Ret' Q'.
Proof.
  intros HR HQ. revert s. induction p as [a|r|X c k IH]; intros s; simpl; [auto..|].
  intros [HI Hk]. split; [done|]. intros x s' Ha. by apply IH, Hk.
Qed.

Lemma swp_ask {R X B} (c : C X) (f : X → flow C R B) s Ret Q :
  inv s → (∀ x s', answers X c s x s' → swp (f x) s' Ret Q) → swp (x ← ask c; f x) s Ret Q.
Proof. by split. Qed.

Lemma swp_enter {R A} (p : flow C A A) s (Ret : S → R → Prop) Q : swp p s Q Q → swp (enter p) s Ret Q.
Proof.
  revert s. induction p as [a|r|X c k IH]; intros s; simpl; [done..|]. intros [HI Hk]. split; [done|]. intros x s' Ha. by apply IH, Hk.
Qed.

Lemma swp_for_each {R T A} (body : A → T → flow C R T) (l : list A) t s Ret Q (I : list A → S → T → Prop) :
  I l s t → (∀ s t item l', I (item :: l') s t → swp (body item t) s Ret (I l')) → (∀ s t, I [] s t → Q s t) →
  swp (for_each body l t) s Ret Q.
Proof.
  intros HI Hbody HQ. revert s t HI. induction l as [|item l IH]; intros s t HI; simpl; [by apply HQ|].
  apply swp_bind. eapply swp_mono; [done| |by apply Hbody]. intros s' t' HI'. by apply IH.
Qed.

(** One call of a program that is running. *)
Inductive call_step {R} : S * flow C R R → S * flow C R R → Prop :=
| CallStep s X (c : C X) k x s' : answers X c s x s' → call_step (s, Ask c k) (s', k x).

Lemma swp_steps {R} (p p' : flow C R R) s s' Q : rtc call_step (s, p) (s', p') → swp p s Q Q → swp p' s' Q Q.
Proof.
  intros Hrun. remember (s, p) as a eqn:Ea. remember (s', p') as b eqn:Eb. revert s p Ea s' p' Eb.
  induction Hrun as [a|a b d Hs _ IH]; intros s p -> s' p' Eb; [by injection Eb as -> ->|].
  inversion Hs; subst. intros [_ Hk]. by eapply IH; [reflexivity..|apply Hk].
Qed.
End stateful.
