(* ===== verification/Provider.v ===== *)
(** The boundary to the providers that receive secrets: identities, metadata,
    evidence and the errors that may be stored: internal/provider/provider.go. *)
From S2P Require Import Prelude Timestamp Text.
From stdpp Require Import options.

Definition MaxProviderCodeBytes : Z := 96.

Record Capabilities := {
  cap_Create : bool; cap_ReadMetadata : bool; cap_Update : bool; cap_Validate : bool; cap_Revoke : bool;
  cap_SupportsIdempotencyKey : bool; cap_SupportsIdempotentWrite : bool; cap_SupportsMaskedPresence : bool;
}.

Record Identity := { id_Provider : string; id_ID : string }.

Record Target := { tg_ProjectID : string; tg_EnvironmentID : string; tg_ServiceIDs : gmap string string }.
#[export] Instance Target_eq_dec : EqDecision Target.
Proof. solve_decision. Defined.

Inductive Presence := PresenceUnknown | PresenceAbsent | PresencePresent | PresenceOther (text : string).
#[export] Instance Presence_eq_dec : EqDecision Presence.
Proof. solve_decision. Defined.

Record VariableMetadata := { vm_Presence : Presence; vm_LastWriteKey : string }.

Record MetadataState := {
  ms_Target : Target; ms_Variables : gmap string (gmap string VariableMetadata); ms_Revision : string;
}.

(** The bytes of the secret are part of the request: the code keeps them behind
    a type that refuses to be printed or encoded. *)
Record WriteRequest := {
  wr_Operation : string; wr_Target : Target; wr_Service : string; wr_ServiceID : string; wr_Name : string;
  wr_IdempotencyKey : string; wr_secret : string;
}.

Record VerifyRequest := {
  vr_Target : Target; vr_Service : string; vr_ServiceID : string; vr_Name : string; vr_WriteKey : string;
  vr_ProviderOperationID : string; vr_ExpectedPresence : Presence;
}.

Record WriteEvidence := { we_ProviderOperationID : string; we_CommittedAt : string }.
#[export] Instance WriteEvidence_eq_dec : EqDecision WriteEvidence.
Proof. solve_decision. Defined.

Inductive Verification := VerificationVerified | VerificationLimited | VerificationOther (text : string).
#[export] Instance Verification_eq_dec : EqDecision Verification.
Proof. solve_decision. Defined.

Record VerifyEvidence := {
  ve_Result : Verification; ve_Presence : Presence; ve_VerifiedAt : string; ve_Reason : string;
}.
#[export] Instance VerifyEvidence_eq_dec : EqDecision VerifyEvidence.
Proof. solve_decision. Defined.

(** The regular expression [^[A-Za-z0-9_.:-]+$]. *)
Definition safe_byte (c : ascii) : bool :=
  is_upper c || is_lower c || is_digit c || Ascii.eqb c "_" || Ascii.eqb c "." || Ascii.eqb c ":" ||
  Ascii.eqb c "-".
Definition safeCode (s : string) : bool := nonempty s && all_bytes safe_byte s.

Definition canonicalTimestamp (value : string) : bool :=
  match canonicalTime value with Some _ => true | None => false end.

Definition WriteEvidence_Validate (evidence : WriteEvidence) : result unit :=
  _ ← reject_if (nonempty (we_ProviderOperationID evidence) &&
        ((128 <? slen (we_ProviderOperationID evidence)) || negb (safeCode (we_ProviderOperationID evidence))))
      "provider write evidence ID is invalid";
  reject_if (negb (canonicalTimestamp (we_CommittedAt evidence))) "provider write evidence time is invalid".

Definition VerifyEvidence_Validate (evidence : VerifyEvidence) : result unit :=
  _ ← reject_if (bool_decide (ve_Result evidence ≠ VerificationVerified) &&
        bool_decide (ve_Result evidence ≠ VerificationLimited)) "provider verification result is invalid";
  _ ← reject_if (bool_decide (ve_Presence evidence ≠ PresenceUnknown) &&
        bool_decide (ve_Presence evidence ≠ PresenceAbsent) &&
        bool_decide (ve_Presence evidence ≠ PresencePresent)) "provider verification presence is invalid";
  _ ← reject_if (negb (canonicalTimestamp (ve_VerifiedAt evidence))) "provider verification time is invalid";
  reject_if (nonempty (ve_Reason evidence) &&
      ((MaxProviderCodeBytes <? slen (ve_Reason evidence)) || negb (safeCode (ve_Reason evidence))))
    "provider verification reason is invalid".

(** ** Errors *)

Inductive RetryClass := RetryNever | RetrySafe | RetryAmbiguous | RetryOther (text : string).
#[export] Instance RetryClass_eq_dec : EqDecision RetryClass.
Proof. solve_decision. Defined.

Record Error := { err_Operation : string; err_Status : Z; err_Code : string; err_Retry : RetryClass }.
#[export] Instance Error_eq_dec : EqDecision Error.
Proof. solve_decision. Defined.

(** What an adapter returns as an error: a typed one, by value or by pointer,
    or any other. *)
Inductive AdapterError := Typed (e : Error) | Untyped (text : string).

Definition safeOperation (value : string) : string :=
  let value := TrimSpace value in
  if negb (nonempty value) || (48 <? slen value) || negb (safeCode value) then "request" else value.

Definition sanitizeCode (value : string) : string :=
  let value := TrimSpace value in
  if negb (nonempty value) || (MaxProviderCodeBytes <? slen value) || negb (safeCode value) then "" else value.

Definition boundedStatus (status : Z) : Z := if (status <? 100) || (599 <? status) then 0 else status.

Definition validRetry (retry : RetryClass) : RetryClass :=
  match retry with RetryNever | RetrySafe | RetryAmbiguous => retry | RetryOther _ => RetryNever end.

Definition NewError (operation : string) (status : Z) (code : string) (retry : RetryClass) : Error :=
  {| err_Operation := safeOperation operation; err_Status := boundedStatus status;
     err_Code := sanitizeCode code; err_Retry := validRetry retry |}.

Definition SanitizeError (operation : string) (err : AdapterError) : Error :=
  match err with
  | Typed safe => NewError operation (err_Status safe) (err_Code safe) (err_Retry safe)
  | Untyped _ =>
      let retry := if String.eqb (safeOperation operation) "write" then RetryAmbiguous else RetryNever in
      NewError operation 0 "" retry
  end.

Definition Error_Validate (err : Error) : result unit :=
  reject_if (negb (String.eqb (err_Operation err) (safeOperation (err_Operation err))) ||
      negb (err_Status err =? boundedStatus (err_Status err)) ||
      negb (String.eqb (err_Code err) (sanitizeCode (err_Code err))) ||
      bool_decide (err_Retry err ≠ validRetry (err_Retry err)))
    "provider error metadata is invalid".

(** ** Sanitized errors are valid *)

Lemma boundedStatus_idem s : boundedStatus (boundedStatus s) = boundedStatus s.
Proof. unfold boundedStatus. destruct ((s <? 100) || (599 <? s)) eqn:E; [done|]. by rewrite E. Qed.

Lemma validRetry_idem c : validRetry (validRetry c) = validRetry c.
Proof. by destruct c. Qed.

(** Trimming leaves a text of safe bytes as it is: each is a rune of its own
    that is no space. *)
Lemma TrimSpace_safe s : all_bytes safe_byte s = true → TrimSpace s = s.
Proof.
  intros Hs. apply TrimSpace_plain. eapply all_bytes_mono; [|exact Hs]. intros c Hc.
  pose proof (forall_ascii (λ c, implb (safe_byte c) (plain_byte c)) ltac:(vm_compute; reflexivity) c) as H. cbn beta in H. by rewrite Hc in H.
Qed.

Lemma safeOperation_idem v : safeOperation (safeOperation v) = safeOperation v.
Proof.
  unfold safeOperation at 2 3. destruct (_ || _) eqn:E; [by vm_compute|].
  set (t := TrimSpace v) in *. unfold safeOperation.
  apply orb_false_iff in E as [E1 E2%negb_false_iff]. pose proof E2 as Ht.
  apply andb_true_iff in Ht as [_ Ht]. rewrite (TrimSpace_safe t), E1, E2 by done. done.
Qed.

Lemma sanitizeCode_idem v : sanitizeCode (sanitizeCode v) = sanitizeCode v.
Proof.
  unfold sanitizeCode at 2 3. destruct (_ || _) eqn:E; [by vm_compute|].
  set (t := TrimSpace v) in *. unfold sanitizeCode.
  apply orb_false_iff in E as [E1 E2%negb_false_iff]. pose proof E2 as Ht.
  apply andb_true_iff in Ht as [_ Ht]. rewrite (TrimSpace_safe t), E1, E2 by done. done.
Qed.

Lemma NewError_valid operation status code retry : Error_Validate (NewError operation status code retry) = Ok tt.
Proof.
  unfold Error_Validate, NewError. simpl.
  rewrite safeOperation_idem, sanitizeCode_idem, boundedStatus_idem, validRetry_idem.
  by rewrite !String.eqb_refl, Z.eqb_refl, bool_decide_eq_false_2 by naive_solver.
Qed.

(** Every error that leaves the provider boundary satisfies the validity
    test that a stored operation applies to it, whatever the adapter returned:
    a bounded status, a safe code and operation, a known retry class, and no
    text of an untyped error. *)
Theorem SanitizeError_valid operation err :
  Error_Validate (SanitizeError operation err) = Ok tt ∧
  (∀ text, err = Untyped text → SanitizeError operation err = SanitizeError operation (Untyped "")).
Proof. split; [destruct err; apply NewError_valid|]. by intros text ->. Qed.
