(* ===== verification/RolloutPlan.v ===== *)
(** The plans and operations of a rollout and their validity tests:
    internal/rollout/plan.go and internal/rollout/state.go. *)
From S2P Require Import Prelude Timestamp Text Secure Provider.
From stdpp Require Import options.

Definition PlanVersion : Z := 1.
Definition PlanTTL : Z := 15 * minute.
Definition MaxActions : Z := 512.
Definition OperationVersion : Z := 1.

(** [evidencePattern]: one to 128 safe bytes. *)
Definition evidencePattern (s : string) : bool :=
  (1 <=? slen s) && (slen s <=? 128) && all_bytes safe_byte s.

(** ** Data *)

Inductive PlanKind := PlanKindNone | PlanKindNamesOnly | PlanKindBindingNames | PlanKindOther (text : string).
#[export] Instance PlanKind_eq_dec : EqDecision PlanKind.
Proof. solve_decision. Defined.

(** [ServiceIDs] is [None] when the map is nil. *)
Record TargetBinding := {
  tb_ProjectID : string; tb_EnvironmentID : string; tb_ServiceIDs : option (gmap string string);
}.
#[export] Instance TargetBinding_eq_dec : EqDecision TargetBinding.
Proof. solve_decision. Defined.

Record PlannedName := {
  pn_Service : string; pn_ServiceID : string; pn_Name : string; pn_Desired : string; pn_State : string;
  pn_Record : string; pn_ExpectedRecordRevision : Z;
}.

Record Action := {
  ac_ID : string; ac_Operation : string; ac_Service : string; ac_ServiceID : string; ac_Name : string;
  ac_Record : string; ac_ValueSource : string; ac_PublicValue : string; ac_ExpectedRecordRevision : Z;
}.
#[export] Instance Action_eq_dec : EqDecision Action.
Proof. solve_decision. Defined.

Record ProviderPlan := {
  pp_Version : Z; pp_Bundle : string; pp_ManifestDigest : string; pp_SnapshotRevision : Z;
  pp_Provider : string; pp_ProviderIdentity : string; pp_ProviderRevision : string;
  pp_Target : TargetBinding; pp_Kind : PlanKind; pp_Names : list PlannedName; pp_Actions : list Action;
  pp_CreatedAt : string; pp_ExpiresAt : string; pp_Digest : string;
}.

Inductive OperationStatus :=
| StatusDraft | StatusPrepared | StatusPlanned | StatusConfirmed | StatusWriting | StatusRetryable
| StatusReconciliation | StatusWritten | StatusVerifying | StatusReady | StatusLimited | StatusPromoted
| StatusRolledBack | StatusFailed | StatusOther (text : string).
#[export] Instance OperationStatus_eq_dec : EqDecision OperationStatus.
Proof. solve_decision. Defined.

Inductive ActionStatus :=
| ActionPending | ActionInFlight | ActionCommitted | ActionVerified | ActionLimited
| ActionOther (text : string).
#[export] Instance ActionStatus_eq_dec : EqDecision ActionStatus.
Proof. solve_decision. Defined.

Record OperationAction := {
  oa_Action : Action; oa_Status : ActionStatus; oa_Attempts : Z; oa_WriteKey : string;
  oa_LastAttemptAt : string; oa_WriteEvidence : option WriteEvidence;
  oa_VerifyEvidence : option VerifyEvidence; oa_LastError : option Error;
}.

Record Operation := {
  op_Version : Z; op_ID : string; op_PlanID : string; op_PlanDigest : string; op_Bundle : string;
  op_ManifestDigest : string; op_SnapshotRevision : Z; op_Provider : string; op_ProviderIdentity : string;
  op_ProviderRevision : string; op_Target : TargetBinding; op_Status : OperationStatus;
  op_Actions : list OperationAction; op_CreatedAt : string; op_UpdatedAt : string;
  op_DeploymentID : string; op_DeployedVersion : string; op_PromotedAt : string;
  op_RollbackID : string; op_RolledBackAt : string;
}.

(** ** Plans *)

(** [encoding/json] of a plan. *)
Class PlanCodec := { plan_json : ProviderPlan → string }.

Definition with_digest (digest : string) (plan : ProviderPlan) : ProviderPlan :=
  {| pp_Version := pp_Version plan; pp_Bundle := pp_Bundle plan; pp_ManifestDigest := pp_ManifestDigest plan;
     pp_SnapshotRevision := pp_SnapshotRevision plan; pp_Provider := pp_Provider plan;
     pp_ProviderIdentity := pp_ProviderIdentity plan; pp_ProviderRevision := pp_ProviderRevision plan;
     pp_Target := pp_Target plan; pp_Kind := pp_Kind plan; pp_Names := pp_Names plan;
     pp_Actions := pp_Actions plan; pp_CreatedAt := pp_CreatedAt plan; pp_ExpiresAt := pp_ExpiresAt plan;
     pp_Digest := digest |}.

(** The service bound to a name; a missing entry and a nil map read as "". *)
Definition bound_service (target : TargetBinding) (service : string) : string :=
  default "" (default ∅ (tb_ServiceIDs target) !! service).

Definition target_key (service name : string) : string := service +:+ nul +:+ name.

(** [for index, item := range l]: the first error, with the index counted from
    [index] and the keys that were seen before. *)
Fixpoint each {A} (check : Z → gset string → A → result (gset string)) (index : Z) (seen : gset string)
    (l : list A) : result unit :=
  match l with
  | [] => Ok tt
  | item :: l => seen ← check index seen item; each check (index + 1) seen l
  end.

Definition at_index (before : string) (index : Z) (after : string) : string :=
  before +:+ " " +:+ Itoa index +:+ " " +:+ after.

Definition validateAction (index : Z) (action : Action) (target : TargetBinding) : result unit :=
  let bad := at_index "provider plan action" index in
  _ ← reject_if (negb (nonempty (ac_ID action)) || negb (nonempty (ac_Operation action)) ||
        negb (nonempty (ac_Service action)) || negb (nonempty (ac_ServiceID action)) ||
        negb (nonempty (ac_Name action))) (bad "is incomplete");
  _ ← reject_if (negb (bool_decide (ac_Operation action ∈ ["create"; "update"; "upsert"; "revoke"])))
        (bad "has an invalid operation");
  _ ← reject_if (negb (String.eqb (bound_service target (ac_Service action)) (ac_ServiceID action)))
        (bad "has an invalid service binding");
  let revoke := String.eqb (ac_Operation action) "revoke" in
  let recordBacked := (String.eqb (ac_ValueSource action) "" || String.eqb (ac_ValueSource action) "record") &&
    nonempty (ac_Record action) && (0 <? ac_ExpectedRecordRevision action) &&
    negb (nonempty (ac_PublicValue action)) in
  let publicConstant := String.eqb (ac_ValueSource action) "public-constant" &&
    negb (nonempty (ac_Record action)) && (ac_ExpectedRecordRevision action =? 0) in
  _ ← reject_if (negb revoke && negb recordBacked && negb publicConstant) (bad "has an invalid value source");
  reject_if (revoke && (nonempty (ac_Record action) || nonempty (ac_ValueSource action) ||
      nonempty (ac_PublicValue action) || negb (ac_ExpectedRecordRevision action =? 0)))
    (bad "has unexpected record state").

Definition validateName (target : TargetBinding) (index : Z) (seen : gset string) (item : PlannedName) :
    result (gset string) :=
  let bad := at_index "names-only provider plan entry" index in
  _ ← reject_if (negb (nonempty (pn_Service item)) || negb (nonempty (pn_ServiceID item)) ||
        negb (nonempty (pn_Name item)) ||
        negb (String.eqb (bound_service target (pn_Service item)) (pn_ServiceID item)) ||
        negb (bool_decide (pn_Desired item ∈ ["present"; "absent"])) ||
        negb (bool_decide (pn_State item ∈ ["unverifiable"; "present"; "absent"]))) (bad "is invalid");
  let key := target_key (pn_Service item) (pn_Name item) in
  _ ← reject_if (bool_decide (key ∈ seen)) (bad "is duplicated");
  _ ← reject_if (String.eqb (pn_Desired item) "absent" &&
        (nonempty (pn_Record item) || negb (pn_ExpectedRecordRevision item =? 0)))
        (bad "has unexpected record state");
  _ ← reject_if (negb (nonempty (pn_Record item)) && negb (pn_ExpectedRecordRevision item =? 0) ||
        nonempty (pn_Record item) && (pn_ExpectedRecordRevision item <? 1))
        (bad "has an invalid record revision");
  Ok ({[key]} ∪ seen).

Definition validateNames (names : list PlannedName) (target : TargetBinding) : result unit :=
  each (validateName target) 0 ∅ names.

(** The last name planned for a target, as the map of the code has it. *)
Definition name_for (names : list PlannedName) (service name : string) : option PlannedName :=
  (list_to_map (reverse ((λ item, (target_key (pn_Service item) (pn_Name item), item)) <$> names))
    : gmap string PlannedName) !! target_key service name.

Definition validateNamedAction (kind : PlanKind) (names : list PlannedName) (index : Z) (seen : gset string)
    (action : Action) : result (gset string) :=
  let bad := Err (at_index "names-only provider plan action" index "does not match a desired-present name") in
  match name_for names (ac_Service action) (ac_Name action) with
  | None => bad
  | Some item =>
      let upsert := String.eqb (pn_Desired item) "present" && String.eqb (ac_Operation action) "upsert" &&
        String.eqb (ac_Record action) (pn_Record item) &&
        (ac_ExpectedRecordRevision action =? pn_ExpectedRecordRevision item) in
      let revoke := bool_decide (kind = PlanKindBindingNames) && String.eqb (pn_Desired item) "absent" &&
        String.eqb (ac_Operation action) "revoke" in
      if upsert || revoke then Ok seen else bad
  end.

Definition validateNamedActions (kind : PlanKind) (names : list PlannedName) (actions : list Action) : result unit :=
  each (validateNamedAction kind names) 0 ∅ actions.

Section Plan.
Context `{!Crypto, !PlanCodec}.

Definition ComputeDigest (plan : ProviderPlan) : string := hex (sha256 (plan_json (with_digest "" plan))).

(** [plan.ID()] *)
Definition plan_ID (plan : ProviderPlan) : string := pp_Digest plan.

Definition validate_plan_action (target : TargetBinding) (index : Z) (seen : gset string) (action : Action) :
    result (gset string) :=
  let bad := at_index "provider plan action" index in
  let idKey := "id" +:+ ac_ID action in
  let targetKey := "target" +:+ target_key (ac_Service action) (ac_Name action) in
  _ ← reject_if (negb (nonempty (ac_ID action)) || negb (nonempty (ac_Operation action)) ||
        negb (nonempty (ac_Service action)) || negb (nonempty (ac_ServiceID action)) ||
        negb (nonempty (ac_Name action))) (bad "is incomplete");
  _ ← reject_if (bool_decide (idKey ∈ seen)) (bad "has a duplicate ID");
  _ ← reject_if (bool_decide (targetKey ∈ seen)) (bad "duplicates a variable target");
  _ ← validateAction index action target;
  Ok ({[idKey; targetKey]} ∪ seen).

Definition named_kind (kind : PlanKind) : bool :=
  bool_decide (kind = PlanKindNamesOnly) || bool_decide (kind = PlanKindBindingNames).

Definition len {A} (l : list A) : Z := Z.of_nat (List.length l).

Definition Plan_Validate (plan : ProviderPlan) (now : Z) : result unit :=
  _ ← reject_if (negb (pp_Version plan =? PlanVersion))
        ("unsupported provider plan version " +:+ Itoa (pp_Version plan));
  _ ← reject_if (negb (nonempty (pp_Bundle plan)) || negb (digestPattern (pp_ManifestDigest plan)) ||
        (pp_SnapshotRevision plan <? 1) || negb (nonempty (pp_Provider plan)) ||
        negb (nonempty (pp_ProviderIdentity plan))) "provider plan identity is invalid";
  _ ← reject_if (nonempty (pp_ProviderRevision plan) && negb (evidencePattern (pp_ProviderRevision plan)))
        "provider plan revision evidence is invalid";
  match canonicalTime (pp_CreatedAt plan) with
  | None => Err "provider plan creation time is invalid"
  | Some created =>
  match canonicalTime (pp_ExpiresAt plan) with
  | None => Err "provider plan expiry is invalid"
  | Some expires =>
  _ ← reject_if (negb (expires =? created + PlanTTL)) "provider plan expiry is invalid";
  _ ← reject_if (negb (now <? expires)) "provider plan has expired";
  _ ← reject_if (now <? created) "provider plan is not yet valid";
  let target := pp_Target plan in
  _ ← reject_if (negb (nonempty (tb_ProjectID target)) || negb (nonempty (tb_EnvironmentID target)) ||
        bool_decide (tb_ServiceIDs target = None)) "provider plan target binding is incomplete";
  _ ← reject_if (bool_decide (pp_Kind plan ≠ PlanKindNone) && negb (named_kind (pp_Kind plan)))
        "provider plan kind is invalid";
  _ ← (if named_kind (pp_Kind plan) then
         _ ← reject_if (bool_decide (pp_Names plan = []) || (MaxActions <? len (pp_Names plan)) ||
               (MaxActions <? len (pp_Actions plan)))
               "names-only provider plan must contain between 1 and 512 names";
         validateNames (pp_Names plan) target
       else reject_if (bool_decide (pp_Actions plan = []) || (MaxActions <? len (pp_Actions plan)) ||
              negb (bool_decide (pp_Names plan = [])))
              "provider plan must contain between 1 and 512 actions");
  _ ← each (validate_plan_action target) 0 ∅ (pp_Actions plan);
  _ ← (if named_kind (pp_Kind plan)
       then validateNamedActions (pp_Kind plan) (pp_Names plan) (pp_Actions plan) else Ok tt);
  reject_if (negb (String.eqb (pp_Digest plan) (ComputeDigest plan))) "provider plan digest is invalid"
  end end.
End Plan.

(** ** Operations *)

Definition validOperationStatus (status : OperationStatus) : bool :=
  match status with StatusOther _ => false | _ => true end.

Definition validActionStatus (status : ActionStatus) : bool :=
  match status with ActionOther _ => false | _ => true end.

(** The optional evidence and errors of an action: absent ones are valid. *)
Definition valid_unless_nil {A} (check : A → result unit) (value : option A) : bool :=
  match value with None => true | Some a => is_ok (check a) end.

Definition time_unless_empty (value : string) : bool := negb (nonempty value) || canonicalTimestamp value.
Definition evidence_unless_empty (value : string) : bool := negb (nonempty value) || evidencePattern value.

Definition written_status (status : ActionStatus) : bool :=
  match status with ActionCommitted | ActionVerified | ActionLimited => true | _ => false end.
Definition verified_status (status : ActionStatus) : bool :=
  match status with ActionVerified | ActionLimited => true | _ => false end.
Definition terminal_status (status : OperationStatus) : bool :=
  match status with StatusReady | StatusLimited | StatusPromoted | StatusRolledBack => true | _ => false end.

Definition result_matches (status : ActionStatus) (evidence : VerifyEvidence) : bool :=
  negb (bool_decide (status = ActionVerified) && negb (bool_decide (ve_Result evidence = VerificationVerified))) &&
  negb (bool_decide (status = ActionLimited) && negb (bool_decide (ve_Result evidence = VerificationLimited))).

Definition validate_operation_action (target : TargetBinding) (index : Z) (seen : gset string)
    (item : OperationAction) : result (gset string) :=
  let bad := at_index "rollout operation action" index in
  let action := oa_Action item in
  _ ← reject_if (bool_decide (ac_ID action ∈ seen)) (bad "is duplicated");
  _ ← reject_if (negb (is_ok (validateAction index action target))) (bad "does not match its target");
  _ ← reject_if (negb (nonempty (ac_ID action)) || negb (digestPattern (oa_WriteKey item)) ||
        negb (validActionStatus (oa_Status item)) || (oa_Attempts item <? 0)) (bad "is invalid");
  _ ← reject_if (negb (valid_unless_nil Error_Validate (oa_LastError item))) (bad "error is invalid");
  _ ← reject_if (nonempty (oa_LastAttemptAt item) &&
        (negb (canonicalTimestamp (oa_LastAttemptAt item)) || (oa_Attempts item =? 0))) (bad "attempt is invalid");
  _ ← reject_if (bool_decide (oa_Status item = ActionPending) && bool_decide (oa_WriteEvidence item ≠ None) ||
        verified_status (oa_Status item) && bool_decide (oa_VerifyEvidence item = None) ||
        written_status (oa_Status item) && bool_decide (oa_WriteEvidence item = None)) (bad "evidence is invalid");
  _ ← reject_if (negb (valid_unless_nil WriteEvidence_Validate (oa_WriteEvidence item)))
        (bad "write evidence is invalid");
  _ ← reject_if (match oa_VerifyEvidence item with
                 | None => false
                 | Some evidence =>
                     negb (is_ok (VerifyEvidence_Validate evidence)) || negb (result_matches (oa_Status item) evidence)
                 end) (bad "verification is invalid");
  Ok ({[ac_ID action]} ∪ seen).

Definition validate_terminal (index : Z) (limited : gset string) (item : OperationAction) : result (gset string) :=
  _ ← reject_if (negb (verified_status (oa_Status item)))
        (at_index "terminal rollout operation action" index "is incomplete");
  Ok limited.

Definition any_limited (actions : list OperationAction) : bool :=
  existsb (λ item, bool_decide (oa_Status item = ActionLimited)) actions.

Definition Operation_Validate (operation : Operation) : result unit :=
  _ ← reject_if (negb (op_Version operation =? OperationVersion) || negb (nonempty (op_ID operation)) ||
        negb (nonempty (op_PlanID operation)) || negb (String.eqb (op_PlanDigest operation) (op_PlanID operation)) ||
        negb (digestPattern (op_PlanDigest operation)) || negb (nonempty (op_Bundle operation)) ||
        negb (digestPattern (op_ManifestDigest operation)) || (op_SnapshotRevision operation <? 1) ||
        negb (nonempty (op_Provider operation)) || negb (nonempty (op_ProviderIdentity operation)))
        "rollout operation identity is invalid";
  _ ← reject_if (negb (evidence_unless_empty (op_ProviderRevision operation)))
        "rollout operation provider revision is invalid";
  _ ← reject_if (negb (evidence_unless_empty (op_DeploymentID operation)) ||
        negb (evidence_unless_empty (op_DeployedVersion operation)) ||
        negb (evidence_unless_empty (op_RollbackID operation)))
        "rollout operation deployment evidence is invalid";
  _ ← reject_if (negb (time_unless_empty (op_PromotedAt operation))) "rollout operation promotion time is invalid";
  _ ← reject_if (negb (time_unless_empty (op_RolledBackAt operation))) "rollout operation rollback time is invalid";
  _ ← reject_if (bool_decide (op_Status operation = StatusPromoted) &&
          (negb (nonempty (op_DeploymentID operation)) || negb (nonempty (op_DeployedVersion operation)) ||
           negb (nonempty (op_PromotedAt operation))) ||
        bool_decide (op_Status operation = StatusRolledBack) &&
          (negb (nonempty (op_RollbackID operation)) || negb (nonempty (op_RolledBackAt operation))))
        "rollout operation deployment evidence is incomplete";
  _ ← reject_if (negb (validOperationStatus (op_Status operation)) || (len (op_Actions operation) =? 0) ||
        (MaxActions <? len (op_Actions operation))) "rollout operation status is invalid";
  let target := op_Target operation in
  _ ← reject_if (negb (nonempty (tb_ProjectID target)) || negb (nonempty (tb_EnvironmentID target)) ||
        bool_decide (tb_ServiceIDs target = None)) "rollout operation target binding is incomplete";
  match canonicalTime (op_CreatedAt operation) with
  | None => Err "rollout operation creation time is invalid"
  | Some created =>
  _ ← match canonicalTime (op_UpdatedAt operation) with
      | None => Err "rollout operation update time is invalid"
      | Some updated => reject_if (updated <? created) "rollout operation update time is invalid"
      end;
  _ ← each (validate_operation_action target) 0 ∅ (op_Actions operation);
  if terminal_status (op_Status operation) then
    _ ← each validate_terminal 0 ∅ (op_Actions operation);
    reject_if (negb (Bool.eqb (any_limited (op_Actions operation)) (bool_decide (op_Status operation = StatusLimited))))
      "terminal rollout operation status is inconsistent"
  else Ok tt
  end.
