(* ===== verification/RolloutEngine.v ===== *)
(** The rollout engine, internal/rollout/engine.go: its collaborators, and [Plan], [Apply]
    and [Resume].  The collaborators are the calls of a program: the provider
    adapter, the store, the clock, the random source and the confirmation prompt are
    interfaces of internal/rollout/engine.go. *)
From S2P Require Import Prelude Timestamp Text Secure Provider RolloutPlan.
From S2P Require Export Program.
From stdpp Require Import options.

Record Confirmation := {
  cf_Kind : string; cf_Provider : string; cf_Bundle : string; cf_ActionCount : Z; cf_Destructive : bool;
}.
#[export] Instance Confirmation_eq_dec : EqDecision Confirmation.
Proof. solve_decision. Defined.

Module Call.
(** The calls through the [Adapter], [Store], [ConfirmFunc], [Now] and [Random]
    members of the engine, with what they answer. *)
Inductive call : Type → Type :=
| Capabilities : call Provider.Capabilities
| Identity : call (Provider.Identity + AdapterError)
| Inspect (target : Target) : call (MetadataState + AdapterError)
| Write (request : WriteRequest) : call (WriteEvidence + AdapterError)
| Verify (request : VerifyRequest) : call (VerifyEvidence + AdapterError)
| Stage (requests : list WriteRequest) : call (WriteEvidence + AdapterError)
| Confirm (confirmation : Confirmation) : call bool
| Now : call Z
| Random (size : Z) : call (option string)
| SavePlan (plan : ProviderPlan) (expected : Z) : call (result Z)
| LoadPlan (id : string) : call (result (ProviderPlan * Z))
| SaveOperation (operation : Operation) (expected : Z) : call (result Z)
| LoadOperation (id : string) : call (result (Operation * Z))
| ValidateSnapshot (plan : ProviderPlan) : call (result unit)
| LoadRecord (bundle record : string) (expected : Z) : call (result string).
End Call.
Abbreviation call := Call.call.

Abbreviation flow := (Program.flow call).
Abbreviation event := (Program.event call).
Abbreviation history := (Program.history call).
Abbreviation World := (Program.World call).

Inductive failure :=
| Plain (msg : string)
| ProviderFailure (e : Error)
| ErrReconciliationRequired.

(** What [Apply] and [Resume] return, or the panic of a nil dereference. *)
Inductive outcome :=
| Returned (operation : Operation) (err : option failure)
| Panicked.

(** The members of the engine: whether they are all set, and whether the
    adapter also implements [AtomicBatchAdapter]. *)
Class Engine := { configured : bool; atomic : bool }.

(** The rollout engine: internal/rollout/engine.go. *)

(** ** Assignments to fields *)

Definition set_operation (status : OperationStatus) (actions : list OperationAction) (updated : string)
    (operation : Operation) : Operation :=
  {| op_Version := op_Version operation; op_ID := op_ID operation; op_PlanID := op_PlanID operation;
     op_PlanDigest := op_PlanDigest operation; op_Bundle := op_Bundle operation;
     op_ManifestDigest := op_ManifestDigest operation; op_SnapshotRevision := op_SnapshotRevision operation;
     op_Provider := op_Provider operation; op_ProviderIdentity := op_ProviderIdentity operation;
     op_ProviderRevision := op_ProviderRevision operation; op_Target := op_Target operation;
     op_Status := status; op_Actions := actions; op_CreatedAt := op_CreatedAt operation;
     op_UpdatedAt := updated; op_DeploymentID := op_DeploymentID operation;
     op_DeployedVersion := op_DeployedVersion operation; op_PromotedAt := op_PromotedAt operation;
     op_RollbackID := op_RollbackID operation; op_RolledBackAt := op_RolledBackAt operation |}.

Definition set_status (status : OperationStatus) (operation : Operation) : Operation :=
  set_operation status (op_Actions operation) (op_UpdatedAt operation) operation.
Definition set_updated (updated : string) (operation : Operation) : Operation :=
  set_operation (op_Status operation) (op_Actions operation) updated operation.
Definition set_actions (actions : list OperationAction) (operation : Operation) : Operation :=
  set_operation (op_Status operation) actions (op_UpdatedAt operation) operation.
(** An assignment through [&operation.Actions[index]]. *)
Definition set_action (index : nat) (item : OperationAction) (operation : Operation) : Operation :=
  set_actions (<[index := item]> (op_Actions operation)) operation.

Definition set_item (status : ActionStatus) (wrote : option WriteEvidence) (verified : option VerifyEvidence)
    (err : option Error) (item : OperationAction) : OperationAction :=
  {| oa_Action := oa_Action item; oa_Status := status; oa_Attempts := oa_Attempts item;
     oa_WriteKey := oa_WriteKey item; oa_LastAttemptAt := oa_LastAttemptAt item; oa_WriteEvidence := wrote;
     oa_VerifyEvidence := verified; oa_LastError := err |}.

(** [item.Status = ActionInFlight; item.Attempts++; item.LastAttemptAt = now; item.LastError = nil] *)
Definition start_attempt (now : string) (item : OperationAction) : OperationAction :=
  {| oa_Action := oa_Action item; oa_Status := ActionInFlight; oa_Attempts := wrap64 (oa_Attempts item + 1);
     oa_WriteKey := oa_WriteKey item; oa_LastAttemptAt := now; oa_WriteEvidence := oa_WriteEvidence item;
     oa_VerifyEvidence := oa_VerifyEvidence item; oa_LastError := None |}.

Definition zero_operation : Operation :=
  {| op_Version := 0; op_ID := ""; op_PlanID := ""; op_PlanDigest := ""; op_Bundle := ""; op_ManifestDigest := "";
     op_SnapshotRevision := 0; op_Provider := ""; op_ProviderIdentity := ""; op_ProviderRevision := "";
     op_Target := {| tb_ProjectID := ""; tb_EnvironmentID := ""; tb_ServiceIDs := None |};
     op_Status := StatusOther ""; op_Actions := []; op_CreatedAt := ""; op_UpdatedAt := ""; op_DeploymentID := "";
     op_DeployedVersion := ""; op_PromotedAt := ""; op_RollbackID := ""; op_RolledBackAt := "" |}.

Definition zero_plan : ProviderPlan :=
  {| pp_Version := 0; pp_Bundle := ""; pp_ManifestDigest := ""; pp_SnapshotRevision := 0; pp_Provider := "";
     pp_ProviderIdentity := ""; pp_ProviderRevision := "";
     pp_Target := {| tb_ProjectID := ""; tb_EnvironmentID := ""; tb_ServiceIDs := None |}; pp_Kind := PlanKindNone;
     pp_Names := []; pp_Actions := []; pp_CreatedAt := ""; pp_ExpiresAt := ""; pp_Digest := "" |}.

(** ** Pure helpers *)

Definition cloneStrings (values : option (gmap string string)) : gmap string string := default ∅ values.

Definition cloneBinding (binding : TargetBinding) : TargetBinding :=
  {| tb_ProjectID := tb_ProjectID binding; tb_EnvironmentID := tb_EnvironmentID binding;
     tb_ServiceIDs := Some (cloneStrings (tb_ServiceIDs binding)) |}.

Definition providerTarget (binding : TargetBinding) : Target :=
  {| tg_ProjectID := tb_ProjectID binding; tg_EnvironmentID := tb_EnvironmentID binding;
     tg_ServiceIDs := cloneStrings (tb_ServiceIDs binding) |}.

(** Two maps of the same size with [right[key] == value] for every entry of
    [left]; a missing key reads as "". *)
Definition sameStrings (left right : gmap string string) : bool :=
  bool_decide (size left = size right) &&
  forallb (λ '(key, value), String.eqb (default "" (right !! key)) value) (map_to_list left).

Definition sameProviderTarget (left right : Target) : bool :=
  String.eqb (tg_ProjectID left) (tg_ProjectID right) &&
  String.eqb (tg_EnvironmentID left) (tg_EnvironmentID right) &&
  sameStrings (tg_ServiceIDs left) (tg_ServiceIDs right).

Definition sameBinding (left right : TargetBinding) : bool :=
  String.eqb (tb_ProjectID left) (tb_ProjectID right) &&
  String.eqb (tb_EnvironmentID left) (tb_EnvironmentID right) &&
  sameStrings (cloneStrings (tb_ServiceIDs left)) (cloneStrings (tb_ServiceIDs right)).

Definition destructiveCount (actions : list Action) : Z :=
  len (filter (λ action, ac_Operation action = "revoke") actions).
Definition hasDestructive (actions : list Action) : bool := negb (destructiveCount actions =? 0).

Definition retriableWrite (capabilities : Capabilities) : bool :=
  cap_SupportsIdempotencyKey capabilities || cap_SupportsIdempotentWrite capabilities.

Definition supported (capabilities : Capabilities) (action : Action) : bool :=
  if String.eqb (ac_Operation action) "create" then cap_Create capabilities
  else if String.eqb (ac_Operation action) "update" then cap_Update capabilities
  else if String.eqb (ac_Operation action) "upsert" then cap_Create capabilities && cap_Update capabilities
  else if String.eqb (ac_Operation action) "revoke" then cap_Revoke capabilities
  else false.

Fixpoint actionsSupported (actions : list Action) (capabilities : Capabilities) : option failure :=
  match actions with
  | [] => None
  | action :: actions =>
      if supported capabilities action then actionsSupported actions capabilities
      else Some (Plain ("provider does not support action " +:+ ac_ID action))
  end.

Definition operationMatchesPlan (operation : Operation) (plan : ProviderPlan) : bool :=
  String.eqb (op_PlanDigest operation) (pp_Digest plan) && String.eqb (op_Bundle operation) (pp_Bundle plan) &&
  String.eqb (op_ManifestDigest operation) (pp_ManifestDigest plan) &&
  (op_SnapshotRevision operation =? pp_SnapshotRevision plan) &&
  String.eqb (op_Provider operation) (pp_Provider plan) &&
  String.eqb (op_ProviderIdentity operation) (pp_ProviderIdentity plan) &&
  String.eqb (op_ProviderRevision operation) (pp_ProviderRevision plan) &&
  sameBinding (op_Target operation) (pp_Target plan) &&
  bool_decide (oa_Action <$> op_Actions operation = pp_Actions plan).

(** [metadata.Variables[service][name]]; a missing entry is the zero value. *)
Definition variable_of (metadata : MetadataState) (service name : string) : option VariableMetadata :=
  variables ← ms_Variables metadata !! service; variables !! name.

(** [reconcileAction]: the resolved action, or [None] where the code answers
    false. *)
Definition reconcileAction (item : OperationAction) (metadata : MetadataState) (now : string) :
    option OperationAction :=
  let action := oa_Action item in
  let variable := default {| vm_Presence := PresenceUnknown; vm_LastWriteKey := "" |}
    (variable_of metadata (ac_Service action) (ac_Name action)) in
  let revoke := String.eqb (ac_Operation action) "revoke" in
  let absent := bool_decide (vm_Presence variable = PresenceAbsent) in
  if nonempty (vm_LastWriteKey variable) && String.eqb (vm_LastWriteKey variable) (oa_WriteKey item) then
    let id := match oa_WriteEvidence item with Some evidence => we_ProviderOperationID evidence | None => "" end in
    Some (set_item ActionCommitted (Some {| we_ProviderOperationID := id; we_CommittedAt := now |})
      (oa_VerifyEvidence item) (oa_LastError item) item)
  else if revoke && absent then
    Some (set_item ActionCommitted (Some {| we_ProviderOperationID := ""; we_CommittedAt := now |})
      (oa_VerifyEvidence item) (oa_LastError item) item)
  else if negb revoke && absent then
    Some (set_item ActionPending (oa_WriteEvidence item) (oa_VerifyEvidence item) (oa_LastError item) item)
  else None.

(** [StableActionOrder]: a stable sort by service and name. *)
Definition action_before (a b : Action) : bool :=
  if String.eqb (ac_Service a) (ac_Service b) then str_lt (ac_Name a) (ac_Name b)
  else str_lt (ac_Service a) (ac_Service b).

Fixpoint insert_stable (action : Action) (l : list Action) : list Action :=
  match l with
  | [] => [action]
  | other :: rest => if action_before other action then other :: insert_stable action rest else action :: l
  end.
Definition StableActionOrder (actions : list Action) : list Action := foldr insert_stable [] actions.

Definition NewWriteRequest (operation : string) (target : Target) (service serviceID name idempotencyKey value : string) :
    WriteRequest :=
  {| wr_Operation := operation; wr_Target := target; wr_Service := service; wr_ServiceID := serviceID;
     wr_Name := name; wr_IdempotencyKey := idempotencyKey; wr_secret := value |}.

(** ** The engine *)

Section Engine.
Context {crypto : Crypto} {codec : PlanCodec} {engine : Engine}.

(** [engine.now()] *)
Definition engine_now {R} : flow R Z := now ← ask Call.Now; mret (truncate_second now).
Definition nowString {R} : flow R string := now ← engine_now; mret (format_rfc3339 now).

(** [revision, err = engine.Store.SaveOperation(ctx, operation, revision)] and
    the return of [err]. *)
Definition save {R} (on_error : failure → R) (operation : Operation) (revision : Z) : flow R Z :=
  saved ← ask (Call.SaveOperation operation revision);
  match saved with Ok revision => mret revision | Err msg => Exit (on_error (Plain msg)) end.

(** [operation.UpdatedAt = engine.nowString()] and the save of it. *)
Definition touch_and_save {R} (on_error : Operation → failure → R) (operation : Operation) (revision : Z) :
    flow R (Operation * Z) :=
  now ← nowString;
  let operation := set_updated now operation in
  revision ← save (on_error operation) operation revision;
  mret (operation, revision).

Definition returns (operation : Operation) (err : failure) : outcome := Returned operation (Some err).

Definition validatePlanContext (plan : ProviderPlan) (enforceExpiry : bool) : flow (option failure) (option failure) :=
  now ← engine_now;
  validationTime ← (if enforceExpiry then mret now
    else match parse_rfc3339 (pp_CreatedAt plan) with
         | None => Exit (Some (Plain "provider plan creation time is invalid"))
         | Some created => mret created
         end);
  _ ← match Plan_Validate plan validationTime with Ok _ => mret tt | Err msg => Exit (Some (Plain msg)) end;
  snapshot ← ask (Call.ValidateSnapshot plan);
  _ ← match snapshot with Ok _ => mret tt | Err msg => Exit (Some (Plain msg)) end;
  who ← ask Call.Identity;
  match who with
  | inr err => Exit (Some (ProviderFailure (SanitizeError "identity" err)))
  | inl who =>
      _ ← (if negb (String.eqb (id_Provider who) (pp_Provider plan)) ||
              negb (String.eqb (id_ID who) (pp_ProviderIdentity plan))
           then Exit (Some (Plain "provider identity does not match the plan")) else mret tt);
      metadata ← ask (Call.Inspect (providerTarget (pp_Target plan)));
      match metadata with
      | inr err => Exit (Some (ProviderFailure (SanitizeError "inspect" err)))
      | inl metadata =>
          if negb (sameProviderTarget (ms_Target metadata) (providerTarget (pp_Target plan))) then
            Exit (Some (Plain "provider target does not match the plan"))
          else if nonempty (pp_ProviderRevision plan) &&
                  negb (String.eqb (ms_Revision metadata) (pp_ProviderRevision plan)) then
            Exit (Some (Plain "provider deployed revision does not match the plan"))
          else
            capabilities ← ask Call.Capabilities;
            mret (actionsSupported (pp_Actions plan) capabilities)
      end
  end.

(** The key under which an action is written, in every attempt. *)
Definition write_key (id : string) (action : Action) : string :=
  hex (sha256 ("envbank.rollout.write.v1" +:+ nul +:+ id +:+ nul +:+ ac_ID action)).

Definition new_action (id : string) (action : Action) : OperationAction :=
  {| oa_Action := action; oa_Status := ActionPending; oa_Attempts := 0; oa_WriteKey := write_key id action;
     oa_LastAttemptAt := ""; oa_WriteEvidence := None; oa_VerifyEvidence := None; oa_LastError := None |}.

Definition fresh_operation (plan : ProviderPlan) (id now : string) : Operation :=
  {| op_Version := OperationVersion; op_ID := id; op_PlanID := plan_ID plan; op_PlanDigest := pp_Digest plan;
     op_Bundle := pp_Bundle plan; op_ManifestDigest := pp_ManifestDigest plan;
     op_SnapshotRevision := pp_SnapshotRevision plan; op_Provider := pp_Provider plan;
     op_ProviderIdentity := pp_ProviderIdentity plan; op_ProviderRevision := pp_ProviderRevision plan;
     op_Target := cloneBinding (pp_Target plan); op_Status := StatusConfirmed;
     op_Actions := new_action id <$> pp_Actions plan; op_CreatedAt := now; op_UpdatedAt := now;
     op_DeploymentID := ""; op_DeployedVersion := ""; op_PromotedAt := ""; op_RollbackID := "";
     op_RolledBackAt := "" |}.

Definition newOperation {R} (plan : ProviderPlan) : flow R (result Operation) :=
  raw ← ask (Call.Random 18);
  match raw with
  | None => mret (Err "rollout operation ID generation failed")
  | Some raw =>
      now ← nowString;
      let operation := fresh_operation plan (hex raw) now in
      mret (match Operation_Validate operation with Ok _ => Ok operation | Err msg => Err msg end)
  end.

(** The value an action writes: of its record, or its public constant. *)
Definition action_value {R} (on_error : failure → R) (plan : ProviderPlan) (action : Action) : flow R string :=
  if nonempty (ac_Record action) then
    value ← ask (Call.LoadRecord (pp_Bundle plan) (ac_Record action) (ac_ExpectedRecordRevision action));
    match value with Ok value => mret value | Err msg => Exit (on_error (Plain msg)) end
  else mret (ac_PublicValue action).

Definition action_request (plan : ProviderPlan) (item : OperationAction) (value : string) : WriteRequest :=
  let action := oa_Action item in
  NewWriteRequest (ac_Operation action) (providerTarget (pp_Target plan)) (ac_Service action)
    (ac_ServiceID action) (ac_Name action) (oa_WriteKey item) value.

(** *** The batch of an atomic adapter *)

Inductive batch_outcome := BatchReturned (operation : Operation) (revision : Z) (err : option failure).

(** One round of the loop that builds the requests: the item is put in flight
    in memory. *)
Definition batch_request (plan : ProviderPlan) (on_error : Operation → failure → batch_outcome) (index : nat)
    (st : Operation * list WriteRequest) : flow batch_outcome (Operation * list WriteRequest) :=
  let '(operation, requests) := st in
  match op_Actions operation !! index with
  | None => mret st
  | Some item =>
      value ← action_value (on_error operation) plan (oa_Action item);
      now ← nowString;
      mret (set_action index (start_attempt now item) operation, requests ++ [action_request plan item value])
  end.

Definition stage_failed_item (safe : Error) (item : OperationAction) : OperationAction :=
  let status := match err_Retry safe with RetrySafe | RetryNever => ActionPending | _ => oa_Status item end in
  set_item status (oa_WriteEvidence item) (oa_VerifyEvidence item) (Some safe) item.

Definition stage_failed_status (safe : Error) : OperationStatus :=
  match err_Retry safe with
  | RetryNever => StatusFailed
  | RetryAmbiguous => StatusReconciliation
  | _ => StatusRetryable
  end.

Definition staged_item (evidence : WriteEvidence) (item : OperationAction) : OperationAction :=
  set_item ActionCommitted (Some evidence) (oa_VerifyEvidence item) (oa_LastError item) item.

(** [if evidence.CommittedAt == "" { evidence.CommittedAt = engine.nowString() }] *)
Definition committed_at {R} (evidence : WriteEvidence) : flow R WriteEvidence :=
  if nonempty (we_CommittedAt evidence) then mret evidence
  else now ← nowString;
    mret {| we_ProviderOperationID := we_ProviderOperationID evidence; we_CommittedAt := now |}.

(** The part of [advanceAtomicBatch] from the stage call on. *)
Definition stage_batch (requests : list WriteRequest) (operation : Operation) (revision : Z) :
    flow batch_outcome batch_outcome :=
  let fail operation err := BatchReturned operation revision (Some err) in
  staged ← ask (Call.Stage requests);
  match staged with
  | inr stageErr =>
      let safe := SanitizeError "stage" stageErr in
      let operation := set_status (stage_failed_status safe)
        (set_actions (stage_failed_item safe <$> op_Actions operation) operation) in
      '(operation, revision) ← touch_and_save fail operation revision;
      mret (BatchReturned operation revision (Some (ProviderFailure safe)))
  | inl evidence =>
      evidence ← committed_at evidence;
      if negb (nonempty (we_ProviderOperationID evidence)) || negb (is_ok (WriteEvidence_Validate evidence)) then
        mret (fail operation (Plain "provider returned invalid atomic stage evidence"))
      else
        let operation := set_status StatusWritten
          (set_actions (staged_item evidence <$> op_Actions operation) operation) in
        '(operation, revision) ← touch_and_save fail operation revision;
        mret (BatchReturned operation revision None)
  end.

Definition advanceAtomicBatch (plan : ProviderPlan) (operation : Operation) (revision : Z) :
    flow batch_outcome batch_outcome :=
  let fail operation err := BatchReturned operation revision (Some err) in
  let committed item := written_status (oa_Status item) in
  if forallb committed (op_Actions operation) then mret (BatchReturned operation revision None)
  else if existsb committed (op_Actions operation) then
    mret (fail operation (Plain "atomic rollout operation has partial commit evidence"))
  else
    '(operation, requests) ← for_each (batch_request plan fail)
      (List.seq 0 (List.length (op_Actions operation))) (operation, []);
    '(operation, revision) ← touch_and_save fail (set_status StatusWriting operation) revision;
    stage_batch requests operation revision.

(** *** Writes one by one *)

(** The item after a write failed, and the status of the operation. *)
Definition failed_item (safe : Error) (item : OperationAction) : OperationAction :=
  let status := match err_Retry safe with RetrySafe | RetryNever => ActionPending | _ => ActionInFlight end in
  set_item status (oa_WriteEvidence item) (oa_VerifyEvidence item) (Some safe) item.

Definition failed_status (capabilities : Capabilities) (safe : Error) : OperationStatus :=
  match err_Retry safe with
  | RetryNever => StatusFailed
  | RetryAmbiguous => if negb (retriableWrite capabilities) then StatusReconciliation else StatusRetryable
  | _ => StatusRetryable
  end.

(** The part of the loop that tries to write an action. *)
Definition attempt_write (plan : ProviderPlan) (capabilities : Capabilities) (index : nat) (item : OperationAction)
    (operation : Operation) (revision : Z) : flow outcome (Operation * Z) :=
  value ← action_value (returns operation) plan (oa_Action item);
  now ← nowString;
  let item := start_attempt now item in
  let operation := set_updated now (set_status StatusWriting (set_action index item operation)) in
  revision ← save (returns operation) operation revision;
  wrote ← ask (Call.Write (action_request plan item value));
  match wrote with
  | inr writeErr =>
      let safe := SanitizeError "write" writeErr in
      let operation := set_status (failed_status capabilities safe)
        (set_action index (failed_item safe item) operation) in
      '(operation, _) ← touch_and_save returns operation revision;
      Exit (Returned operation (Some (ProviderFailure safe)))
  | inl evidence =>
      evidence ← committed_at evidence;
      if negb (is_ok (WriteEvidence_Validate evidence)) then
        Exit (returns operation (Plain "provider returned invalid write evidence"))
      else
        touch_and_save returns (set_action index (staged_item evidence item) operation) revision
  end.

(** The part of the loop for an action whose earlier write has no known
    outcome: [None] asks the loop to go on with the next action. *)
Definition reconcile_in_flight (metadata : MetadataState) (index : nat) (item : OperationAction)
    (operation : Operation) (revision : Z) : flow outcome (OperationAction * Operation * Z) :=
  now ← nowString;
  match reconcileAction item metadata now with
  | None =>
      '(operation, _) ← touch_and_save returns (set_status StatusReconciliation operation) revision;
      Exit (returns operation ErrReconciliationRequired)
  | Some item =>
      '(operation, revision) ← touch_and_save returns (set_action index item operation) revision;
      mret (item, operation, revision)
  end.

Definition write_action (plan : ProviderPlan) (capabilities : Capabilities) (metadata : MetadataState) (index : nat)
    (st : Operation * Z) : flow outcome (Operation * Z) :=
  let '(operation, revision) := st in
  match op_Actions operation !! index with
  | None => mret st
  | Some item =>
      if written_status (oa_Status item) then mret st
      else if bool_decide (oa_Status item = ActionInFlight) && negb (retriableWrite capabilities) then
        '(item, operation, revision) ← reconcile_in_flight metadata index item operation revision;
        if bool_decide (oa_Status item = ActionCommitted) then mret (operation, revision)
        else attempt_write plan capabilities index item operation revision
      else attempt_write plan capabilities index item operation revision
  end.

(** *** Verification *)

Definition verify_failed_status (safe : Error) : OperationStatus :=
  match err_Retry safe with RetryNever => StatusFailed | _ => StatusRetryable end.

Definition verify_request (plan : ProviderPlan) (item : OperationAction) (wrote : WriteEvidence) : VerifyRequest :=
  let action := oa_Action item in
  {| vr_Target := providerTarget (pp_Target plan); vr_Service := ac_Service action;
     vr_ServiceID := ac_ServiceID action; vr_Name := ac_Name action; vr_WriteKey := oa_WriteKey item;
     vr_ProviderOperationID := we_ProviderOperationID wrote;
     vr_ExpectedPresence := if String.eqb (ac_Operation action) "revoke" then PresenceAbsent else PresencePresent |}.

Definition verified_at {R} (evidence : VerifyEvidence) : flow R VerifyEvidence :=
  if nonempty (ve_VerifiedAt evidence) then mret evidence
  else now ← nowString;
    mret {| ve_Result := ve_Result evidence; ve_Presence := ve_Presence evidence; ve_VerifiedAt := now;
            ve_Reason := ve_Reason evidence |}.

Definition verified_item (evidence : VerifyEvidence) (item : OperationAction) : OperationAction :=
  let status := if bool_decide (ve_Result evidence = VerificationVerified) then ActionVerified else ActionLimited in
  set_item status (oa_WriteEvidence item) (Some evidence) (oa_LastError item) item.

(** Without validation by the provider an action is only known to be limited. *)
Definition unsupported_evidence (now : string) : VerifyEvidence :=
  {| ve_Result := VerificationLimited; ve_Presence := PresenceUnknown; ve_VerifiedAt := now;
     ve_Reason := "validation-unsupported" |}.

Definition verify_action (plan : ProviderPlan) (capabilities : Capabilities) (index : nat)
    (st : Operation * Z * bool) : flow outcome (Operation * Z * bool) :=
  let '(operation, revision, limited) := st in
  match op_Actions operation !! index with
  | None => mret st
  | Some item =>
      if bool_decide (oa_Status item = ActionVerified) then mret st
      else if negb (cap_Validate capabilities) then
        now ← nowString;
        let item := verified_item (unsupported_evidence now) item in
        '(operation, revision) ← touch_and_save returns (set_action index item operation) revision;
        mret (operation, revision, true)
      else
        match oa_WriteEvidence item with
        | None => Exit Panicked
        | Some wrote =>
            verified ← ask (Call.Verify (verify_request plan item wrote));
            match verified with
            | inr verifyErr =>
                let safe := SanitizeError "verify" verifyErr in
                let item := set_item (oa_Status item) (oa_WriteEvidence item) (oa_VerifyEvidence item) (Some safe) item in
                let operation := set_status (verify_failed_status safe) (set_action index item operation) in
                '(operation, _) ← touch_and_save returns operation revision;
                Exit (Returned operation (Some (ProviderFailure safe)))
            | inl evidence =>
                evidence ← verified_at evidence;
                if negb (is_ok (VerifyEvidence_Validate evidence)) then
                  Exit (returns operation (Plain "provider returned invalid verification evidence"))
                else
                  let item := verified_item evidence item in
                  '(operation, revision) ← touch_and_save returns (set_action index item operation) revision;
                  mret (operation, revision, limited || bool_decide (oa_Status item = ActionLimited))
            end
        end
  end.

(** *** Plan, Apply, Resume *)

Definition advance (plan : ProviderPlan) (operation : Operation) (revision : Z) : flow outcome outcome :=
  capabilities ← ask Call.Capabilities;
  metadata ← ask (Call.Inspect (providerTarget (pp_Target plan)));
  match metadata with
  | inr err => mret (returns operation (ProviderFailure (SanitizeError "inspect" err)))
  | inl metadata =>
      '(operation, revision) ← (if atomic then
          batch ← enter (advanceAtomicBatch plan operation revision);
          match batch with
          | BatchReturned operation _ (Some err) => Exit (returns operation err)
          | BatchReturned operation revision None => mret (operation, revision)
          end
        else mret (operation, revision));
      let indices := List.seq 0 (List.length (op_Actions operation)) in
      '(operation, revision) ← for_each (write_action plan capabilities metadata) indices (operation, revision);
      '(operation, revision) ← touch_and_save returns (set_status StatusWritten operation) revision;
      '(operation, revision) ← touch_and_save returns (set_status StatusVerifying operation) revision;
      '(operation, revision, limited) ← for_each (verify_action plan capabilities) indices (operation, revision, false);
      '(operation, _) ← touch_and_save returns
        (set_status (if limited : bool then StatusLimited else StatusReady) operation) revision;
      mret (Returned operation None)
  end.

Definition apply_confirmation (plan : ProviderPlan) : Confirmation :=
  {| cf_Kind := "apply"; cf_Provider := pp_Provider plan; cf_Bundle := pp_Bundle plan;
     cf_ActionCount := len (pp_Actions plan); cf_Destructive := hasDestructive (pp_Actions plan) |}.
Definition destructive_confirmation (plan : ProviderPlan) : Confirmation :=
  {| cf_Kind := "destructive"; cf_Provider := pp_Provider plan; cf_Bundle := pp_Bundle plan;
     cf_ActionCount := destructiveCount (pp_Actions plan); cf_Destructive := true |}.

(** The part of [Apply] after the confirmations. *)
Definition start_operation (plan : ProviderPlan) : flow outcome outcome :=
  created ← newOperation plan;
  match created with
  | Err msg => mret (returns zero_operation (Plain msg))
  | Ok operation =>
      saved ← ask (Call.SaveOperation operation 0);
      match saved with
      | Err msg => mret (returns zero_operation (Plain ("save confirmed rollout operation: " +:+ msg)))
      | Ok revision => advance plan operation revision
      end
  end.

(** [confirm] tells whether a confirmation function was given. *)
Definition Apply (planID : string) (confirm : bool) : flow outcome outcome :=
  let fail err := returns zero_operation err in
  let cancelled := Exit (fail (Plain "rollout cancelled before provider writes")) in
  if negb configured then mret (fail (Plain "rollout engine is not configured"))
  else
    loaded ← ask (Call.LoadPlan planID);
    match loaded with
    | Err msg => mret (fail (Plain msg))
    | Ok (plan, _) =>
        if bool_decide (pp_Actions plan = []) then mret (fail (Plain "provider plan has no confirmed writes"))
        else
          invalid ← enter (validatePlanContext plan true);
          match invalid with
          | Some err => mret (fail err)
          | None =>
              if negb confirm then mret (fail (Plain "interactive rollout confirmation is required"))
              else
                accepted ← ask (Call.Confirm (apply_confirmation plan));
                _ ← (if (accepted : bool) then mret tt else cancelled);
                _ ← (if hasDestructive (pp_Actions plan) then
                       accepted ← ask (Call.Confirm (destructive_confirmation plan));
                       if (accepted : bool) then mret tt else cancelled
                     else mret tt);
                start_operation plan
          end
    end.

Definition first_error (operation : Operation) : failure :=
  match head (omap oa_LastError (op_Actions operation)) with
  | Some err => ProviderFailure err
  | None => Plain "rollout operation failed"
  end.

Definition Resume (operationID : string) : flow outcome outcome :=
  if negb configured then mret (returns zero_operation (Plain "rollout engine is not configured"))
  else
    loaded ← ask (Call.LoadOperation operationID);
    match loaded with
    | Err msg => mret (returns zero_operation (Plain msg))
    | Ok (operation, revision) =>
        if terminal_status (op_Status operation) then mret (Returned operation None)
        else if bool_decide (op_Status operation = StatusFailed) then mret (returns operation (first_error operation))
        else
          loaded ← ask (Call.LoadPlan (op_PlanID operation));
          match loaded with
          | Err msg => mret (returns operation (Plain msg))
          | Ok (plan, _) =>
              if negb (operationMatchesPlan operation plan) then
                mret (returns operation (Plain "rollout operation does not match its provider plan"))
              else
                invalid ← enter (validatePlanContext plan false);
                match invalid with
                | Some err => mret (returns operation err)
                | None => advance plan operation revision
                end
          end
    end.
(** *** Planning *)

Record PlanInput := {
  in_Bundle : string; in_ManifestDigest : string; in_SnapshotRevision : Z; in_Target : TargetBinding;
  in_Kind : PlanKind; in_Names : list PlannedName; in_Actions : list Action;
}.

(** [input.Names[index].State] as the metadata has it: the caller's own names
    are overwritten in place. *)
Definition observed_name (metadata : MetadataState) (item : PlannedName) : PlannedName :=
  let present := match variable_of metadata (pn_Service item) (pn_Name item) with
                 | Some variable => bool_decide (vm_Presence variable = PresencePresent)
                 | None => false
                 end in
  {| pn_Service := pn_Service item; pn_ServiceID := pn_ServiceID item; pn_Name := pn_Name item;
     pn_Desired := pn_Desired item; pn_State := if present then "present" else "absent";
     pn_Record := pn_Record item; pn_ExpectedRecordRevision := pn_ExpectedRecordRevision item |}.

Definition new_plan (input : PlanInput) (names : list PlannedName) (who : Identity) (metadata : MetadataState)
    (now : Z) : ProviderPlan :=
  {| pp_Version := PlanVersion; pp_Bundle := in_Bundle input; pp_ManifestDigest := in_ManifestDigest input;
     pp_SnapshotRevision := in_SnapshotRevision input; pp_Provider := id_Provider who;
     pp_ProviderIdentity := id_ID who; pp_ProviderRevision := ms_Revision metadata;
     pp_Target := cloneBinding (in_Target input); pp_Kind := in_Kind input; pp_Names := names;
     pp_Actions := in_Actions input; pp_CreatedAt := format_rfc3339 now;
     pp_ExpiresAt := format_rfc3339 (now + PlanTTL); pp_Digest := "" |}.

Definition planned := (ProviderPlan * option failure)%type.

Definition Engine_Plan (input : PlanInput) : flow planned planned :=
  let fail msg := (zero_plan, Some (Plain msg)) in
  let failed operation err := (zero_plan, Some (ProviderFailure (SanitizeError operation err))) in
  if negb configured then mret (fail "rollout engine is not configured")
  else
    capabilities ← ask Call.Capabilities;
    if negb (cap_ReadMetadata capabilities) then mret (fail "provider does not support metadata inspection")
    else
      who ← ask Call.Identity;
      match who with
      | inr err => mret (failed "identity" err)
      | inl who =>
          if negb (nonempty (id_Provider who)) || negb (nonempty (id_ID who)) then
            mret (fail "provider returned an invalid identity")
          else
            let target := providerTarget (in_Target input) in
            metadata ← ask (Call.Inspect target);
            match metadata with
            | inr err => mret (failed "inspect" err)
            | inl metadata =>
                if negb (sameProviderTarget (ms_Target metadata) target) then
                  mret (fail "provider target identity does not match the requested binding")
                else
                  let names := if bool_decide (in_Kind input = PlanKindBindingNames)
                    then observed_name metadata <$> in_Names input else in_Names input in
                  match actionsSupported (in_Actions input) capabilities with
                  | Some err => mret (zero_plan, Some err)
                  | None =>
                      now ← engine_now;
                      let plan := new_plan input names who metadata now in
                      let plan := with_digest (ComputeDigest plan) plan in
                      _ ← match Plan_Validate plan now with Ok _ => mret tt | Err msg => Exit (fail msg) end;
                      snapshot ← ask (Call.ValidateSnapshot plan);
                      _ ← match snapshot with Ok _ => mret tt | Err msg => Exit (fail msg) end;
                      saved ← ask (Call.SavePlan plan 0);
                      match saved with
                      | Ok _ => mret (plan, None)
                      | Err msg => mret (fail ("save encrypted provider plan: " +:+ msg))
                      end
                  end
            end
      end.
End Engine.
