(* ===== verification/RolloutValid.v ===== *)
(** What the validity test of a stored operation says of its parts, and the
    changes that keep it: the lemmas behind the engine's journal. *)
From S2P Require Import Prelude Timestamp Text Secure Provider RolloutPlan RolloutEngine.
From stdpp Require Import options.

(** ** Loops of checks *)

Lemma each_Ok {A} (check : Z → gset string → A → result (gset string)) (ok : A → Prop) (key : A → string) l index seen :
  (∀ i s a s', (check i s a = Ok s') ↔ (key a ∉ s) ∧ ok a ∧ s' = {[key a]} ∪ s) →
  (each check index seen l = Ok tt) ↔ Forall ok l ∧ NoDup (key <$> l) ∧ Forall (λ a, key a ∉ seen) l.
Proof.
  intros Hcheck. revert index seen. induction l as [|a l IH]; intros index seen; cbn [each].
  { split; [|done]. by repeat split; constructor. }
  rewrite bind_Ok. setoid_rewrite Hcheck. setoid_rewrite IH. rewrite fmap_cons, NoDup_cons, !Forall_cons. split.
  - intros (s & (Hk & Hok & ->) & Hall & Hnd & Hnew). split_and!; try done.
    + intros (b & Hb & Hin)%list_elem_of_fmap. rewrite Forall_forall in Hnew. apply (Hnew b) in Hin. set_solver.
    + eapply Forall_impl; [exact Hnew|]. set_solver.
  - intros ([Hok Hall] & [Hni Hnd] & Hk & Hnew). eexists. split_and!; try done.
    rewrite Forall_forall in Hnew |- *. intros b Hb [Heq%elem_of_singleton|Hin]%elem_of_union; [|by apply (Hnew b)].
    apply Hni. rewrite <-Heq. by apply list_elem_of_fmap_2.
Qed.

(** The index only shows in the text of the error. *)
Lemma validateAction_index i j action target : is_ok (validateAction i action target) = is_ok (validateAction j action target).
Proof. unfold validateAction, reject_if. by repeat case_match. Qed.

(** ** Valid items *)

(** The evidence a status calls for is there. *)
Definition evidence_present (item : OperationAction) : bool :=
  negb (bool_decide (oa_Status item = ActionPending) && bool_decide (oa_WriteEvidence item ≠ None) ||
        verified_status (oa_Status item) && bool_decide (oa_VerifyEvidence item = None) ||
        written_status (oa_Status item) && bool_decide (oa_WriteEvidence item = None)).

Definition verification_ok (item : OperationAction) : bool :=
  match oa_VerifyEvidence item with
  | None => true
  | Some evidence => is_ok (VerifyEvidence_Validate evidence) && result_matches (oa_Status item) evidence
  end.

Definition attempt_ok (item : OperationAction) : bool :=
  negb (nonempty (oa_LastAttemptAt item) &&
    (negb (canonicalTimestamp (oa_LastAttemptAt item)) || (oa_Attempts item =? 0))).

Record item_ok (target : TargetBinding) (item : OperationAction) : Prop := {
  io_action : is_ok (validateAction 0 (oa_Action item) target) = true;
  io_id : nonempty (ac_ID (oa_Action item)) = true;
  io_key : digestPattern (oa_WriteKey item) = true;
  io_status : validActionStatus (oa_Status item) = true;
  io_attempts : 0 ≤ oa_Attempts item;
  io_error : valid_unless_nil Error_Validate (oa_LastError item) = true;
  io_attempt : attempt_ok item = true;
  io_present : evidence_present item = true;
  io_written : valid_unless_nil WriteEvidence_Validate (oa_WriteEvidence item) = true;
  io_verified : verification_ok item = true;
}.

Lemma validate_operation_action_Ok target i seen item seen' :
  (validate_operation_action target i seen item = Ok seen') ↔
  (ac_ID (oa_Action item) ∉ seen) ∧ item_ok target item ∧ seen' = {[ac_ID (oa_Action item)]} ∪ seen.
Proof.
  unfold validate_operation_action. rewrite (validateAction_index i 0), !reject_if_bind, bool_decide_eq_false.
  assert (Hv : (match oa_VerifyEvidence item with
     | Some evidence => negb (is_ok (VerifyEvidence_Validate evidence)) || negb (result_matches (oa_Status item) evidence)
     | None => false end) = negb (verification_ok item)).
  { unfold verification_ok. destruct (oa_VerifyEvidence item); [|done]. by rewrite negb_andb. }
  rewrite Hv, !orb_false_iff, !negb_false_iff, Z.ltb_ge. clear Hv. split.
  - intros (Hseen & Ha & [[[Hid Hkey] Hst] Hat] & Herr & Hatt & Hev & Hw & Hver & [= <-]).
    split; [done|]. split; [|done]. split; try done.
    + unfold attempt_ok. by rewrite Hatt.
    + unfold evidence_present. destruct Hev as [[-> ->] ->]. done.
  - intros (Hseen & [Ha Hid Hkey Hst Hat Herr Hatt Hev Hw Hver] & ->).
    apply negb_true_iff in Hatt, Hev. apply orb_false_iff in Hev as [[? ?]%orb_false_iff ?].
    by split_and!.
Qed.

Definition ids (actions : list OperationAction) : list string := (λ item, ac_ID (oa_Action item)) <$> actions.

Lemma validate_actions_Ok target actions :
  each (validate_operation_action target) 0 ∅ actions = Ok tt ↔ Forall (item_ok target) actions ∧ NoDup (ids actions).
Proof.
  rewrite (each_Ok _ (item_ok target) (λ item, ac_ID (oa_Action item))).
  - split; [naive_solver|]. intros [??]. split_and!; [done..|]. apply Forall_true. set_solver.
  - intros. apply validate_operation_action_Ok.
Qed.

Lemma validate_terminal_Ok actions :
  each validate_terminal 0 ∅ actions = Ok tt ↔ Forall (λ item, verified_status (oa_Status item) = true) actions.
Proof.
  generalize 0 as i, (∅ : gset string) as s. induction actions as [|item l IH]; intros i s; cbn [each].
  { split; [constructor|done]. }
  unfold validate_terminal at 1. rewrite bind_Ok, Forall_cons. setoid_rewrite reject_if_bind.
  setoid_rewrite negb_false_iff. split; [naive_solver|]. intros [Hv Hl]. exists s. split; [done|]. by apply IH.
Qed.

(** ** Valid operations *)

Definition created (operation : Operation) : option Z := canonicalTime (op_CreatedAt operation).
Definition updated (operation : Operation) : option Z := canonicalTime (op_UpdatedAt operation).

(** The statuses the engine assigns. *)
Definition engine_status (status : OperationStatus) : bool :=
  match status with StatusPromoted | StatusRolledBack | StatusOther _ => false | _ => true end.

Definition terminal_ok (operation : Operation) : Prop :=
  terminal_status (op_Status operation) = true →
  Forall (λ item, verified_status (oa_Status item) = true) (op_Actions operation) ∧
  any_limited (op_Actions operation) = bool_decide (op_Status operation = StatusLimited).

Record parts_ok (operation : Operation) : Prop := {
  po_created : ∃ c u, created operation = Some c ∧ updated operation = Some u ∧ c ≤ u;
  po_items : Forall (item_ok (op_Target operation)) (op_Actions operation);
  po_ids : NoDup (ids (op_Actions operation));
  po_terminal : terminal_ok operation;
}.

Lemma terminal_check operation :
  (if terminal_status (op_Status operation) then
    _ ← each validate_terminal 0 ∅ (op_Actions operation);
    reject_if (negb (Bool.eqb (any_limited (op_Actions operation)) (bool_decide (op_Status operation = StatusLimited))))
      "terminal rollout operation status is inconsistent"
  else Ok tt) = Ok tt ↔ terminal_ok operation.
Proof.
  unfold terminal_ok. destruct (terminal_status _); [|done]. rewrite bind_Ok.
  setoid_rewrite reject_if_Ok. setoid_rewrite negb_false_iff. setoid_rewrite eqb_true_iff. split.
  - intros ([] & Heach & Hlim) _. by apply validate_terminal_Ok in Heach.
  - intros H. exists tt. by rewrite validate_terminal_Ok; apply H.
Qed.

Lemma Operation_Validate_parts operation : Operation_Validate operation = Ok tt → parts_ok operation.
Proof.
  unfold Operation_Validate. rewrite !reject_if_bind. intros (_ & _ & _ & _ & _ & _ & _ & _ & H).
  destruct (canonicalTime (op_CreatedAt operation)) as [c|] eqn:Ec; [|done].
  destruct (canonicalTime (op_UpdatedAt operation)) as [u|] eqn:Eu; [|done].
  rewrite reject_if_bind in H. destruct H as [Hle H]. apply bind_Ok in H as ([] & Hitems & Hterm).
  apply validate_actions_Ok in Hitems as [??]. apply terminal_check in Hterm.
  split; [|done..]. exists c, u. unfold created, updated. split_and!; [done..|lia].
Qed.

(** The changes the engine makes keep an operation valid as long as its parts
    are. *)
Lemma Operation_Validate_set operation status actions updated_at :
  Operation_Validate operation = Ok tt → engine_status status = true →
  List.length actions = List.length (op_Actions operation) →
  parts_ok (set_operation status actions updated_at operation) →
  Operation_Validate (set_operation status actions updated_at operation) = Ok tt.
Proof.
  intros Hvalid Hstatus Hlen [(c & u & Ec & Eu & Hle) Hitems Hids Hterm].
  unfold Operation_Validate in Hvalid |- *. rewrite !reject_if_bind in Hvalid |- *.
  destruct Hvalid as (H1 & H2 & H3 & H4 & H5 & _ & H7 & H8 & _).
  unfold created, updated in Ec, Eu. rewrite Ec, Eu, reject_if_bind, bind_Ok.
  split_and!; [by destruct status..| | |lia|].
  - unfold len in H7 |- *. simpl in Hlen |- *. rewrite Hlen.
    apply orb_false_iff in H7 as [[_ ->]%orb_false_iff ->]. by destruct status.
  - done.
  - exists tt. split; [by apply validate_actions_Ok|by apply (terminal_check (set_operation status actions updated_at operation))].
Qed.

(** ** The changes of an item *)

(** A valid item with no evidence of a write that was not made. *)
Definition item_fit (target : TargetBinding) (item : OperationAction) : Prop :=
  item_ok target item ∧ (written_status (oa_Status item) = false → oa_WriteEvidence item = None).

Lemma canonical_now t : four_digit_year (unix t) → canonicalTime (format_rfc3339 (truncate_second t)) = Some (truncate_second t).
Proof.
  intros Ht. assert (Hu : unix (truncate_second t) = unix t) by (unfold unix, truncate_second, unix; by rewrite Z.div_mul).
  rewrite canonicalTime_format by by rewrite Hu. unfold truncate_second at 1. by rewrite Hu.
Qed.

Lemma WriteEvidence_at id now :
  (id = "" ∨ slen id ≤ 128 ∧ safeCode id = true) → canonicalTimestamp now = true →
  is_ok (WriteEvidence_Validate {| we_ProviderOperationID := id; we_CommittedAt := now |}) = true.
Proof.
  intros Hid Hnow. unfold WriteEvidence_Validate. cbn. rewrite Hnow. destruct Hid as [->|[Hlen ->]]; [done|].
  replace (128 <? slen id) with false by lia. by rewrite andb_false_r.
Qed.

Lemma WriteEvidence_id evidence :
  is_ok (WriteEvidence_Validate evidence) = true →
  we_ProviderOperationID evidence = "" ∨
    slen (we_ProviderOperationID evidence) ≤ 128 ∧ safeCode (we_ProviderOperationID evidence) = true.
Proof.
  destruct evidence as [id at_]. unfold WriteEvidence_Validate. cbn. intros H.
  destruct (nonempty id && _) eqn:E in H; [done|]. unfold nonempty in E.
  destruct (String.eqb_spec id ""); [by left|right]. simpl in E. apply orb_false_iff in E as [? E%negb_false_iff].
  split; [lia|done].
Qed.

Lemma attempt_ok_zero item : oa_LastAttemptAt item = "" → attempt_ok item = true.
Proof. unfold attempt_ok. by intros ->. Qed.

Section Item.
Context (target : TargetBinding) (item : OperationAction) (Hfit : item_fit target item).

Lemma start_attempt_fit now :
  written_status (oa_Status item) = false → oa_Attempts item < max_int64 → canonicalTimestamp now = true →
  item_fit target (start_attempt now item).
Proof using Hfit.
  destruct Hfit as [Hok Hclean]. intros Hunw Hroom Hnow. split; [|intros _; by apply Hclean].
  pose proof (io_attempts _ _ Hok). destruct Hok.
  assert (Hw : wrap64 (oa_Attempts item + 1) = oa_Attempts item + 1).
  { apply wrap64_small. unfold min_int64, max_int64 in *. lia. }
  split; cbn; try done.
  - rewrite Hw. lia.
  - unfold attempt_ok. cbn. rewrite Hw, Hnow. replace (oa_Attempts item + 1 =? 0) with false by lia. by rewrite andb_false_r.
  - unfold verification_ok in *. cbn. destruct (oa_VerifyEvidence item); [|done].
    apply andb_true_iff in io_verified0 as [-> _]. done.
Qed.

Lemma staged_item_fit evidence :
  is_ok (WriteEvidence_Validate evidence) = true → item_fit target (staged_item evidence item).
Proof using Hfit.
  destruct Hfit as [Hok Hclean]. intros Hev. split; [|done]. destruct Hok. split; cbn; try done.
  unfold verification_ok in *. cbn. destruct (oa_VerifyEvidence item); [|done].
  apply andb_true_iff in io_verified0 as [-> _]. done.
Qed.

Lemma reconcileAction_fit metadata now item' :
  oa_Status item = ActionInFlight → canonicalTimestamp now = true →
  reconcileAction item metadata now = Some item' → item_fit target item'.
Proof using Hfit.
  destruct Hfit as [Hok Hclean]. intros Hin Hnow. unfold reconcileAction.
  rewrite Hclean by by rewrite Hin. simpl.
  assert (Hc : item_fit target (staged_item {| we_ProviderOperationID := ""; we_CommittedAt := now |} item)).
  { by apply staged_item_fit, WriteEvidence_at; [left|]. }
  destruct (_ && String.eqb _ (oa_WriteKey item)); [by intros [= <-]|].
  destruct (_ && _); [by intros [= <-]|].
  destruct (_ && _); [intros [= <-]|done].
  split; [|done]. destruct Hok. split; cbn; try done.
  unfold verification_ok in *. cbn. destruct (oa_VerifyEvidence item); [|done].
  apply andb_true_iff in io_verified0 as [-> _]. done.
Qed.

(** The change after a failed write or stage of an item in flight. *)
Lemma failed_fit status err :
  oa_Status item = ActionInFlight → status = ActionPending ∨ status = ActionInFlight →
  Error_Validate err = Ok tt →
  item_fit target (set_item status (oa_WriteEvidence item) (oa_VerifyEvidence item) (Some err) item).
Proof using Hfit.
  destruct Hfit as [Hok Hclean]. intros Hin Hst Herr. rewrite Hclean by by rewrite Hin.
  split; [|done]. destruct Hok. split; cbn; try done.
  - by destruct Hst as [-> | ->].
  - by rewrite Herr.
  - by destruct Hst as [-> | ->].
  - unfold verification_ok in *. cbn. destruct (oa_VerifyEvidence item); [|done].
    apply andb_true_iff in io_verified0 as [-> _]. by destruct Hst as [-> | ->].
Qed.

Lemma failed_item_fit err :
  oa_Status item = ActionInFlight → Error_Validate err = Ok tt → item_fit target (failed_item err item).
Proof using Hfit. intros. apply failed_fit; [done| |done]. destruct (err_Retry err); auto. Qed.

Lemma stage_failed_item_fit err :
  oa_Status item = ActionInFlight → Error_Validate err = Ok tt → item_fit target (stage_failed_item err item).
Proof using Hfit. intros Hin Herr. apply failed_fit; [done| |done]. rewrite Hin. destruct (err_Retry err); auto. Qed.

Lemma verified_item_fit evidence :
  written_status (oa_Status item) = true → is_ok (VerifyEvidence_Validate evidence) = true →
  item_fit target (verified_item evidence item).
Proof using Hfit.
  destruct Hfit as [Hok _]. intros Hw Hev. split.
  2: { cbn. by case_bool_decide. }
  assert (Hsome : oa_WriteEvidence item ≠ None).
  { intros Hnone. apply io_present in Hok. unfold evidence_present in Hok. rewrite Hw, Hnone in Hok.
    by rewrite orb_true_r in Hok. }
  destruct Hok. split; cbn; try done.
  - by case_bool_decide.
  - unfold evidence_present. cbn. rewrite (bool_decide_eq_false_2 (oa_WriteEvidence item = None)) by done.
    by destruct (bool_decide (ve_Result evidence = VerificationVerified)).
  - unfold verification_ok, result_matches. cbn. rewrite Hev. destruct (decide (ve_Result evidence = VerificationVerified)) as [Hv|Hv].
    { by rewrite (bool_decide_eq_true_2 _ Hv). }
    rewrite (bool_decide_eq_false_2 _ Hv).
    rewrite (bool_decide_eq_true_2 (ve_Result evidence = VerificationLimited)); [done|].
    unfold VerifyEvidence_Validate, reject_if in Hev. destruct (ve_Result evidence); done.
Qed.

Lemma verify_failed_fit err :
  written_status (oa_Status item) = true → Error_Validate err = Ok tt →
  item_fit target (set_item (oa_Status item) (oa_WriteEvidence item) (oa_VerifyEvidence item) (Some err) item).
Proof using Hfit.
  destruct Hfit as [Hok _]. intros Hw Herr. split; [|cbn; by rewrite Hw]. destruct Hok. split; cbn; try done.
  by rewrite Herr.
Qed.
End Item.

(** ** The changes of an operation *)

(** Valid, and with no evidence of writes that were not made. *)
Definition fit (operation : Operation) : Prop :=
  Operation_Validate operation = Ok tt ∧
  Forall (λ item, written_status (oa_Status item) = false → oa_WriteEvidence item = None) (op_Actions operation).

Lemma fit_items operation : fit operation → Forall (item_fit (op_Target operation)) (op_Actions operation).
Proof.
  intros [Hvalid Hclean]. apply Operation_Validate_parts in Hvalid as [_ Hitems _ _].
  rewrite Forall_forall in Hitems, Hclean. apply Forall_forall. intros item Hin. split; eauto.
Qed.

Lemma ids_actions l : ids l = ac_ID <$> (oa_Action <$> l).
Proof. unfold ids. by rewrite <-list_fmap_compose. Qed.

Lemma fit_set operation status actions now c u :
  fit operation → engine_status status = true →
  oa_Action <$> actions = oa_Action <$> op_Actions operation →
  Forall (item_fit (op_Target operation)) actions →
  created operation = Some c → canonicalTime now = Some u → c ≤ u →
  terminal_ok (set_operation status actions now operation) →
  fit (set_operation status actions now operation).
Proof.
  intros [Hvalid _] Hst Hacts Hitems Hc Hu Hle Hterm. split.
  - pose proof (Operation_Validate_parts _ Hvalid) as [_ _ Hids _]. apply Operation_Validate_set; [done..| |].
    { apply (f_equal length) in Hacts. by rewrite !length_fmap in Hacts. }
    split; [by exists c, u| |by rewrite ids_actions; cbn; rewrite Hacts, <-ids_actions|done].
    eapply Forall_impl; [exact Hitems|]. by intros item [? _].
  - eapply Forall_impl; [exact Hitems|]. by intros item [_ ?].
Qed.

Lemma fit_engine_status operation :
  fit operation → terminal_status (op_Status operation) = false → engine_status (op_Status operation) = true.
Proof.
  intros [Hvalid _] Hlive. unfold Operation_Validate in Hvalid. rewrite !reject_if_bind in Hvalid.
  destruct Hvalid as (_ & _ & _ & _ & _ & _ & [[Hs%negb_false_iff _]%orb_false_iff _]%orb_false_iff & _).
  by destruct (op_Status operation).
Qed.
