(* ===== verification/RolloutProtocol.v ===== *)
(** The contract of the rollout engine with its collaborators, as a protocol
    over what it has been told so far: which call is permitted when, and how a
    journaled operation may change from one save to the next. *)
From S2P Require Import Prelude Timestamp Text Secure Provider RolloutPlan RolloutEngine RolloutValid.
From stdpp Require Import options.

(** ** What the engine was told *)

Inductive fact :=
| Wrote (request : WriteRequest) (evidence : WriteEvidence)
| WriteFailed (request : WriteRequest) (err : AdapterError)
| Staged (requests : list WriteRequest) (evidence : WriteEvidence)
| StageFailed (requests : list WriteRequest) (err : AdapterError)
| Checked (request : VerifyRequest) (evidence : VerifyEvidence)
| CheckFailed (request : VerifyRequest) (err : AdapterError)
| Saved (operation : Operation)
| Loaded (operation : Operation)
| GotPlan (plan : ProviderPlan)
| Snapshot (plan : ProviderPlan)
| IdentityIs (who : Identity)
| Metadata (target : Target) (metadata : MetadataState)
| CapabilitiesAre (capabilities : Capabilities)
| Confirmed (confirmation : Confirmation)
| RecordIs (bundle record : string) (revision : Z) (value : string)
| Time (t : Z)
| Other.

Definition fact_of (e : event) : fact :=
  match e with
  | @Event _ X c x =>
      match c in Call.call X return X → fact with
      | Call.Capabilities => CapabilitiesAre
      | Call.Identity => λ x, match x with inl who => IdentityIs who | inr _ => Other end
      | Call.Inspect target => λ x, match x with inl metadata => Metadata target metadata | inr _ => Other end
      | Call.Write request => λ x, match x with inl ev => Wrote request ev | inr err => WriteFailed request err end
      | Call.Verify request => λ x, match x with inl ev => Checked request ev | inr err => CheckFailed request err end
      | Call.Stage requests => λ x, match x with inl ev => Staged requests ev | inr err => StageFailed requests err end
      | Call.Confirm confirmation => λ x, if x : bool then Confirmed confirmation else Other
      | Call.Now => Time
      | Call.Random _ => λ _, Other
      | Call.SavePlan _ _ => λ _, Other
      | Call.LoadPlan _ => λ x, match x with Ok (plan, _) => GotPlan plan | Err _ => Other end
      | Call.SaveOperation operation _ => λ x, match x with Ok _ => Saved operation | Err _ => Other end
      | Call.LoadOperation _ => λ x, match x with Ok (operation, _) => Loaded operation | Err _ => Other end
      | Call.ValidateSnapshot plan => λ x, match x with Ok _ => Snapshot plan | Err _ => Other end
      | Call.LoadRecord bundle record revision =>
          λ x, match x with Ok value => RecordIs bundle record revision value | Err _ => Other end
      end x
  end.

(** The latest fact but for the time and values read. *)
Fixpoint last_told (facts : list fact) : option fact :=
  match facts with
  | [] => None
  | (Time _ | RecordIs _ _ _ _) :: facts => last_told facts
  | fact :: _ => Some fact
  end.

(** The operation as it was last saved or loaded. *)
Fixpoint journal (facts : list fact) (id : string) : option Operation :=
  match facts with
  | [] => None
  | (Saved operation | Loaded operation) :: facts =>
      if String.eqb (op_ID operation) id then Some operation else journal facts id
  | _ :: facts => journal facts id
  end.

Fixpoint the_plan (facts : list fact) : option ProviderPlan :=
  match facts with [] => None | GotPlan plan :: _ => Some plan | _ :: facts => the_plan facts end.
Fixpoint the_capabilities (facts : list fact) : option Capabilities :=
  match facts with [] => None | CapabilitiesAre c :: _ => Some c | _ :: facts => the_capabilities facts end.
Fixpoint the_metadata (facts : list fact) : option MetadataState :=
  match facts with [] => None | Metadata _ metadata :: _ => Some metadata | _ :: facts => the_metadata facts end.

(** What was told since the plan was loaded. *)
Fixpoint since_plan (facts : list fact) : list fact :=
  match facts with [] => [] | GotPlan _ :: _ => [] | fact :: facts => fact :: since_plan facts end.

(** ** How a journaled operation changes *)

(** The evidence of the provider, with the time filled in where it gave none. *)
Definition completed (evidence evidence' : WriteEvidence) : Prop :=
  we_ProviderOperationID evidence' = we_ProviderOperationID evidence ∧
  (nonempty (we_CommittedAt evidence) = true → evidence' = evidence) ∧
  is_ok (WriteEvidence_Validate evidence') = true.

Definition completed_check (evidence evidence' : VerifyEvidence) : Prop :=
  ve_Result evidence' = ve_Result evidence ∧ ve_Presence evidence' = ve_Presence evidence ∧
  is_ok (VerifyEvidence_Validate evidence') = true.

Section Protocol.
Context {crypto : Crypto} {codec : PlanCodec} {engine : Engine}.

Section Step.
Context (last : option fact) (capabilities : option Capabilities) (metadata : option MetadataState).

Inductive item_step (item : OperationAction) : OperationAction → Prop :=
| step_same : item_step item item
| step_attempt now :
    written_status (oa_Status item) = false →
    (oa_Status item = ActionInFlight → atomic = true ∨ ∃ c, capabilities = Some c ∧ retriableWrite c = true) →
    item_step item (start_attempt now item)
| step_reconciled m now item' :
    oa_Status item = ActionInFlight → metadata = Some m → reconcileAction item m now = Some item' →
    item_step item item'
| step_wrote request evidence evidence' :
    last = Some (Wrote request evidence) → wr_IdempotencyKey request = oa_WriteKey item →
    oa_Status item = ActionInFlight → completed evidence evidence' →
    item_step item (staged_item evidence' item)
| step_write_failed request err :
    last = Some (WriteFailed request err) → wr_IdempotencyKey request = oa_WriteKey item →
    oa_Status item = ActionInFlight →
    item_step item (failed_item (SanitizeError "write" err) item)
| step_staged requests evidence evidence' :
    last = Some (Staged requests evidence) → oa_WriteKey item ∈ wr_IdempotencyKey <$> requests →
    oa_Status item = ActionInFlight → completed evidence evidence' → nonempty (we_ProviderOperationID evidence) = true →
    item_step item (staged_item evidence' item)
| step_stage_failed requests err :
    last = Some (StageFailed requests err) → oa_WriteKey item ∈ wr_IdempotencyKey <$> requests →
    oa_Status item = ActionInFlight →
    item_step item (stage_failed_item (SanitizeError "stage" err) item)
| step_verified request evidence evidence' :
    last = Some (Checked request evidence) → vr_WriteKey request = oa_WriteKey item →
    written_status (oa_Status item) = true → completed_check evidence evidence' →
    item_step item (verified_item evidence' item)
| step_unsupported c now :
    capabilities = Some c → cap_Validate c = false → written_status (oa_Status item) = true →
    item_step item (verified_item (unsupported_evidence now) item)
| step_verify_failed request err :
    last = Some (CheckFailed request err) → vr_WriteKey request = oa_WriteKey item →
    written_status (oa_Status item) = true →
    item_step item (set_item (oa_Status item) (oa_WriteEvidence item) (oa_VerifyEvidence item)
      (Some (SanitizeError "verify" err)) item).

(** What a status the engine assigns says of the actions. *)
Definition status_meaning (status : OperationStatus) (actions : list OperationAction) : Prop :=
  match status with
  | StatusWriting | StatusReconciliation => Exists (λ item, oa_Status item = ActionInFlight) actions
  | StatusWritten | StatusVerifying => Forall (λ item, written_status (oa_Status item) = true) actions
  | StatusReady => Forall (λ item, oa_Status item = ActionVerified) actions
  | StatusLimited =>
      Forall (λ item, verified_status (oa_Status item) = true) actions ∧
      Exists (λ item, oa_Status item = ActionLimited) actions
  | StatusRetryable | StatusFailed => True
  | _ => False
  end.

Definition operation_step (operation operation' : Operation) : Prop :=
  operation' = set_operation (op_Status operation') (op_Actions operation') (op_UpdatedAt operation') operation ∧
  Forall2 item_step (op_Actions operation) (op_Actions operation') ∧
  (op_Status operation' = op_Status operation ∨ status_meaning (op_Status operation') (op_Actions operation')).
End Step.

Definition evolves (facts : list fact) : Operation → Operation → Prop :=
  operation_step (last_told facts) (the_capabilities facts) (the_metadata facts).

(** ** Which calls are permitted *)

(** The plan was validated, and matched against the snapshot, the provider's
    identity, its target and what it supports, since it was loaded. *)
Record checked (plan : ProviderPlan) (told : list fact) : Prop := {
  ck_valid : ∃ t, Plan_Validate plan t = Ok tt ∧
    ((∃ now, Time now ∈ told ∧ t = truncate_second now) ∨ parse_rfc3339 (pp_CreatedAt plan) = Some t);
  ck_snapshot : Snapshot plan ∈ told;
  ck_identity : IdentityIs {| id_Provider := pp_Provider plan; id_ID := pp_ProviderIdentity plan |} ∈ told;
  ck_target : ∃ m, Metadata (providerTarget (pp_Target plan)) m ∈ told ∧
    sameProviderTarget (ms_Target m) (providerTarget (pp_Target plan)) = true ∧
    (pp_ProviderRevision plan ≠ "" → ms_Revision m = pp_ProviderRevision plan);
  ck_supported : ∃ c, CapabilitiesAre c ∈ told ∧ actionsSupported (pp_Actions plan) c = None;
}.

(** The plan is in time, and its application was confirmed, and its revocations
    once more. *)
Record confirmed (plan : ProviderPlan) (told : list fact) : Prop := {
  cf_now : ∃ t, Time t ∈ told ∧ Plan_Validate plan (truncate_second t) = Ok tt;
  cf_apply : Confirmed (apply_confirmation plan) ∈ told;
  cf_destructive : hasDestructive (pp_Actions plan) = true → Confirmed (destructive_confirmation plan) ∈ told;
}.

(** The value of an action: its record at the planned revision, or its public
    constant. *)
Definition value_known (plan : ProviderPlan) (action : Action) (value : string) (told : list fact) : Prop :=
  if nonempty (ac_Record action)
  then RecordIs (pp_Bundle plan) (ac_Record action) (ac_ExpectedRecordRevision action) value ∈ told
  else value = ac_PublicValue action.

(** The journal says, as the last thing, that this write is on its way. *)
Definition announced (plan : ProviderPlan) (operation : Operation) (facts : list fact) : Prop :=
  last_told facts = Some (Saved operation) ∧ the_plan facts = Some plan ∧
  operationMatchesPlan operation plan = true ∧ checked plan (since_plan facts).

Definition request_of (plan : ProviderPlan) (told : list fact) (item : OperationAction) (request : WriteRequest) : Prop :=
  oa_Status item = ActionInFlight ∧
  ∃ value, request = action_request plan item value ∧ value_known plan (oa_Action item) value told.

(** The last save put the item in flight, for one more attempt that the item
    allowed. *)
Definition attempted (operation : Operation) (item : OperationAction) (facts : list fact) : Prop :=
  ∃ before operation0 index item0 now, facts = Saved operation :: before ∧
    journal before (op_ID operation) = Some operation0 ∧ op_Actions operation0 !! index = Some item0 ∧
    op_Actions operation !! index = Some item ∧ item = start_attempt now item0 ∧
    written_status (oa_Status item0) = false ∧
    (oa_Status item0 = ActionInFlight → ∃ c, the_capabilities before = Some c ∧ retriableWrite c = true).

Definition fresh (operation : Operation) (facts : list fact) : Prop :=
  ∃ plan raw now, the_plan facts = Some plan ∧ checked plan (since_plan facts) ∧ confirmed plan (since_plan facts) ∧
    operation = fresh_operation plan (hex raw) now ∧ Operation_Validate operation = Ok tt.

(** *** Worlds in which the journal stays valid *)

(** No attempt counter is at the largest integer. *)
Definition room (operation : Operation) : Prop :=
  Forall (λ item, oa_Attempts item < max_int64) (op_Actions operation).

(** The clock, in the years 0 to 9999, is not behind its earlier readings and
    the creation of the operations loaded, and these are fit; no attempt counter
    is exhausted. *)
Definition not_before (facts : list fact) (t : Z) : Prop :=
  Forall (λ f, match f with
    | Time t' => t' ≤ t
    | Loaded operation => ∀ c, created operation = Some c → c ≤ truncate_second t
    | _ => True
    end) facts.

Fixpoint fine (facts : list fact) : Prop :=
  match facts with
  | [] => True
  | Time t :: facts => four_digit_year (unix t) ∧ not_before facts t ∧ fine facts
  | Loaded operation :: facts => fit operation ∧ room operation ∧ fine facts
  | Saved operation :: facts => room operation ∧ fine facts
  | _ :: facts => fine facts
  end.

(** *** Plans *)

(** A plan that may be saved: valid at the time just read, of the identity, target and
    revision that the provider just gave, with actions it supports, and matched against the
    snapshot, all of it told in this order since the planning began. *)
Definition plannable (plan : ProviderPlan) (facts : list fact) : Prop :=
  ∃ t m c older,
    facts = Snapshot plan :: Time t :: Metadata (providerTarget (pp_Target plan)) m ::
      IdentityIs {| id_Provider := pp_Provider plan; id_ID := pp_ProviderIdentity plan |} :: CapabilitiesAre c :: older ∧
    Plan_Validate plan (truncate_second t) = Ok tt ∧
    sameProviderTarget (ms_Target m) (providerTarget (pp_Target plan)) = true ∧ pp_ProviderRevision plan = ms_Revision m ∧
    cap_ReadMetadata c = true ∧ actionsSupported (pp_Actions plan) c = None.

(** A name of a plan: as asked, with what the provider shows of the variable. *)
Definition name_of (kind : PlanKind) (m : MetadataState) (asked name : PlannedName) : Prop :=
  pn_Service name = pn_Service asked ∧ pn_ServiceID name = pn_ServiceID asked ∧ pn_Name name = pn_Name asked ∧
  pn_Desired name = pn_Desired asked ∧ pn_Record name = pn_Record asked ∧
  pn_ExpectedRecordRevision name = pn_ExpectedRecordRevision asked ∧
  if bool_decide (kind = PlanKindBindingNames)
  then (pn_State name = "present" ∧ ∃ variables variable, ms_Variables m !! pn_Service asked = Some variables ∧
          variables !! pn_Name asked = Some variable ∧ vm_Presence variable = PresencePresent) ∨
       (pn_State name = "absent" ∧ ∀ variables variable, ms_Variables m !! pn_Service asked = Some variables →
          variables !! pn_Name asked = Some variable → vm_Presence variable ≠ PresencePresent)
  else pn_State name = pn_State asked.

(** The plan of an input, made at a time from what the provider shows. *)
Record plan_of (input : PlanInput) (m : MetadataState) (now : Z) (plan : ProviderPlan) : Prop := {
  po_bundle : pp_Bundle plan = in_Bundle input ∧ pp_ManifestDigest plan = in_ManifestDigest input ∧
    pp_SnapshotRevision plan = in_SnapshotRevision input;
  po_target : providerTarget (pp_Target plan) = providerTarget (in_Target input);
  po_kind : pp_Kind plan = in_Kind input;
  po_names : Forall2 (name_of (in_Kind input) m) (in_Names input) (pp_Names plan);
  po_actions : pp_Actions plan = in_Actions input;
  po_window : pp_CreatedAt plan = format_rfc3339 now ∧ pp_ExpiresAt plan = format_rfc3339 (now + PlanTTL);
}.

(** The plan that an event saved. *)
Definition saved_plan (e : event) : option ProviderPlan :=
  match e with
  | @Event _ X c x =>
      match c in Call.call X return X → option ProviderPlan with
      | Call.SavePlan plan _ => λ x, match x with Ok _ => Some plan | Err _ => None end
      | _ => λ _, None
      end x
  end.

(** What planning may do: read, of the provider the target of the input, and save. *)
Definition planning_event (input : PlanInput) (e : event) : Prop :=
  match e with
  | @Event _ X c x =>
      match c in Call.call X with
      | Call.Capabilities | Call.Identity | Call.Now | Call.ValidateSnapshot _ | Call.SavePlan _ _ => True
      | Call.Inspect target => target = providerTarget (in_Target input)
      | _ => False
      end
  end.

(** What planning returns, given its events: the plan of the input that it saved last, or an
    error and that nothing was saved. *)
Definition planned_ok (input : PlanInput) (events : history) (result : planned) : Prop :=
  Forall (planning_event input) events ∧
  match result with
  | (plan, None) => ∃ revision t m older, plan_of input m (truncate_second t) plan ∧
      events = Event (Call.SavePlan plan 0) (Ok revision) :: Event (Call.ValidateSnapshot plan) (Ok tt) :: Event Call.Now t ::
        Event (Call.Inspect (providerTarget (in_Target input))) (inl m) :: older
  | (plan, Some err) => plan = zero_plan ∧ Forall (λ e, saved_plan e = None) events ∧
      match err with ProviderFailure e => Error_Validate e = Ok tt | _ => True end
  end.

(** *** The protocol *)

Definition permitted_told (facts : list fact) {X} (c : call X) : Prop :=
  match c with
  | Call.SaveOperation operation' expected =>
      (fresh operation' facts ∧ expected = 0 ∨
       ∃ operation, journal facts (op_ID operation') = Some operation ∧ evolves facts operation operation') ∧
      (fine facts → Operation_Validate operation' = Ok tt)
  | Call.Write request =>
      atomic = false ∧ ∃ plan operation item, announced plan operation facts ∧
        attempted operation item facts ∧ request_of plan (since_plan facts) item request
  | Call.Stage requests =>
      atomic = true ∧ ∃ plan operation, announced plan operation facts ∧
        Forall2 (request_of plan (since_plan facts)) (op_Actions operation) requests
  | Call.Verify request =>
      ∃ plan operation item evidence, the_plan facts = Some plan ∧ journal facts (op_ID operation) = Some operation ∧
        Forall (λ item, written_status (oa_Status item) = true) (op_Actions operation) ∧
        item ∈ op_Actions operation ∧ oa_WriteEvidence item = Some evidence ∧
        request = verify_request plan item evidence
  | Call.LoadRecord bundle record revision =>
      ∃ plan action, the_plan facts = Some plan ∧ action ∈ pp_Actions plan ∧ bundle = pp_Bundle plan ∧
        record = ac_Record action ∧ revision = ac_ExpectedRecordRevision action
  | Call.SavePlan plan expected => expected = 0 ∧ plannable plan facts
  | _ => True
  end.

(** What [Apply] and [Resume] may return: an operation in its final state, as
    the journal has it; a stop for reconciliation with a write in flight; an
    error of the provider in its safe form; another error.  They do not panic in
    a fine world. *)
Definition outcome_ok (facts : list fact) (result : outcome) : Prop :=
  match result with
  | Returned operation None =>
      journal facts (op_ID operation) = Some operation ∧ terminal_status (op_Status operation) = true ∧
      (Loaded operation ∈ facts ∨ status_meaning (op_Status operation) (op_Actions operation)) ∧
      (fine facts → Operation_Validate operation = Ok tt)
  | Returned operation (Some ErrReconciliationRequired) =>
      journal facts (op_ID operation) = Some operation ∧ op_Status operation = StatusReconciliation ∧
      Exists (λ item, oa_Status item = ActionInFlight) (op_Actions operation)
  | Returned _ (Some (ProviderFailure err)) => fine facts → Error_Validate err = Ok tt
  | Returned _ (Some (Plain _)) => True
  | Panicked => ¬ fine facts
  end.

Definition told (past : history) : list fact := fact_of <$> past.

Definition permitted (past : history) (X : Type) (c : call X) : Prop := permitted_told (told past) c.
End Protocol.
