(* ===== verification/RolloutRefinement.v ===== *)
(** The engine keeps to its protocol: every function of
    internal/rollout/engine.go that calls a collaborator only makes calls that
    the protocol permits, whatever it is answered. *)
From S2P Require Import Prelude Timestamp Text Secure Provider RolloutPlan RolloutEngine RolloutValid RolloutProtocol.
From stdpp Require Import options.

Section Refinement.
Context {crypto : Crypto} {codec : PlanCodec} {engine : Engine}.

(** ** Facts only add up *)

Lemma checked_told plan f facts : checked plan facts → checked plan (f :: facts).
Proof.
  intros [(t & Hv & Ht) Hs Hi (m & Hm & ?) (c & Hc & ?)]. split.
  - exists t. split; [done|]. destruct Ht as [(now & Hnow & ->)|]; [left|by right]. exists now. split; [by right|done].
  - by right.
  - by right.
  - exists m. split; [by right|done].
  - exists c. split; [by right|done].
Qed.

Definition neutral (f : fact) : bool :=
  match f with Saved _ | Loaded _ | GotPlan _ | CapabilitiesAre _ | Metadata _ _ => false | _ => true end.

Lemma fine_tail f facts : fine (f :: facts) → fine facts.
Proof. destruct f; cbn; tauto. Qed.

Lemma not_before_tail f facts t : not_before (f :: facts) t → not_before facts t.
Proof. unfold not_before. rewrite Forall_cons. tauto. Qed.

Lemma journal_room facts id operation : journal facts id = Some operation → fine facts → room operation.
Proof.
  induction facts as [|f facts IH]; [done|].
  destruct f; cbn; try (by intros; apply IH; tauto); case_match; intros [=->] || intros ?; naive_solver.
Qed.

(** ** The state between two saves *)

Section Session.
Context (plan : ProviderPlan) (caps : Capabilities) (metadata : MetadataState).

(** The operation in hand is the journaled one, and it is the plan's. *)
Record Inv (facts : list fact) (operation : Operation) : Prop := {
  iv_journal : journal facts (op_ID operation) = Some operation;
  iv_plan : the_plan facts = Some plan;
  iv_checked : checked plan (since_plan facts);
  iv_match : operationMatchesPlan operation plan = true;
  iv_caps : the_capabilities facts = Some caps;
  iv_meta : the_metadata facts = Some metadata;
  iv_fit : fine facts → fit operation;
  iv_born : fine facts → ∀ t c, not_before facts t → created operation = Some c → c ≤ truncate_second t;
}.

Lemma Inv_told f facts operation : neutral f = true → Inv facts operation → Inv (f :: facts) operation.
Proof.
  intros Hn [Hj Hp Hc Hm Hcap Hmeta Hfit Hborn].
  assert (Hck : checked plan (since_plan (f :: facts))) by (destruct f; try done; by apply checked_told).
  split; try (by destruct f); [by intros ?%fine_tail; apply Hfit|].
  intros Hfine t c Hnb. apply Hborn; [by eapply fine_tail|by eapply not_before_tail].
Qed.

(** *** Steps of items *)

Abbreviation step facts := (item_step (last_told facts) (the_capabilities facts) (the_metadata facts)).

Lemma reconcileAction_same item m now item' :
  reconcileAction item m now = Some item' → oa_Action item' = oa_Action item ∧ oa_WriteKey item' = oa_WriteKey item.
Proof. unfold reconcileAction. repeat case_match; intros; by simplify_eq. Qed.

Lemma item_step_same last c m item item' :
  item_step last c m item item' → oa_Action item' = oa_Action item ∧ oa_WriteKey item' = oa_WriteKey item.
Proof. destruct 1; try done. by eapply reconcileAction_same. Qed.

Lemma steps_actions last c m actions actions' :
  Forall2 (item_step last c m) actions actions' → oa_Action <$> actions' = oa_Action <$> actions.
Proof. induction 1 as [|item item' l l' Hs _ IH]; [done|]. cbn. rewrite IH. f_equal. by apply item_step_same in Hs as []. Qed.

Lemma steps_refl last c m actions : Forall2 (item_step last c m) actions actions.
Proof. apply Forall2_same_length_lookup_2; [done|]. intros i x y ??. simplify_eq. apply step_same. Qed.

Lemma steps_insert last c m actions index item item' :
  actions !! index = Some item → item_step last c m item item' →
  Forall2 (item_step last c m) actions (<[index := item']> actions).
Proof.
  intros Hi Hs. rewrite <-(list_insert_id actions index item Hi) at 1. apply Forall2_insert; [|done]. apply steps_refl.
Qed.

Lemma matches_set operation status actions now :
  operationMatchesPlan operation plan = true → oa_Action <$> actions = oa_Action <$> op_Actions operation →
  operationMatchesPlan (set_operation status actions now operation) plan = true.
Proof. unfold operationMatchesPlan. cbn. intros Hm ->. done. Qed.

(** *** Saves *)

Abbreviation meaning operation := (status_meaning (op_Status operation) (op_Actions operation)).

(** A step of the operation in hand that may be saved. *)
Record savable (facts : list fact) (operation : Operation) (status : OperationStatus)
    (actions : list OperationAction) : Prop := {
  sv_items : Forall2 (step facts) (op_Actions operation) actions;
  sv_meaning : status = op_Status operation ∨ status_meaning status actions;
  sv_status : fine facts → engine_status status = true;
  sv_fit : fine facts → Forall (item_fit (op_Target operation)) actions;
}.

Lemma any_limited_spec actions : any_limited actions = true ↔ Exists (λ item, oa_Status item = ActionLimited) actions.
Proof.
  unfold any_limited. rewrite existsb_exists, Exists_exists. setoid_rewrite <-list_elem_of_In.
  setoid_rewrite bool_decide_eq_true. done.
Qed.

Lemma meaning_terminal operation : meaning operation → terminal_ok operation.
Proof.
  unfold terminal_ok. destruct (op_Status operation) eqn:Est; try done; cbn; intros Hm _; rewrite ?Est; cbn.
  - split; [by eapply Forall_impl; [exact Hm|]; intros item ->|].
    apply not_true_is_false. rewrite any_limited_spec, Exists_exists. intros (item & Hin & Hl).
    rewrite Forall_forall in Hm. rewrite (Hm item) in Hl by done. done.
  - destruct Hm as [Hm Hl]. split; [done|]. by rewrite any_limited_spec.
Qed.

Lemma savable_time facts operation status actions t :
  savable facts operation status actions → savable (Time t :: facts) operation status actions.
Proof. intros [Hs Hm Hst Hi]. split; [done..| |]; intros (_ & _ & Hfine); auto. Qed.

Lemma savable_fit facts operation status actions t :
  Inv (Time t :: facts) operation → savable (Time t :: facts) operation status actions →
  terminal_status (op_Status operation) = false →
  fine (Time t :: facts) → fit (set_operation status actions (format_rfc3339 (truncate_second t)) operation).
Proof.
  intros HI [Hs Hm Hst Hi] Hlive Hfine. pose proof Hfine as (Ht & Hnb & Hfs).
  pose proof (iv_fit _ _ HI Hfine) as Hfit. pose proof Hfit as [Hv _].
  apply Operation_Validate_parts in Hv as [(c & u & Hc & Hu & Hle) _ _ _].
  eapply (fit_set _ _ _ _ c); [done|auto|by eapply steps_actions|auto|done|by apply canonical_now| |].
  - apply (iv_born _ _ HI Hfine t c); [|done]. by constructor.
  - destruct Hm as [-> |Hm]; [|by apply meaning_terminal]. unfold terminal_ok. cbn. by rewrite Hlive.
Qed.

Lemma savable_evolves facts operation status actions now :
  savable facts operation status actions →
  evolves facts operation (set_operation status actions now operation).
Proof. intros [Hs Hm _ _]. split_and!; [done|done|]. cbn. destruct Hm; auto. Qed.

(** The state after a save that succeeded. *)
Lemma Inv_saved facts operation status actions t :
  let operation' := set_operation status actions (format_rfc3339 (truncate_second t)) operation in
  Inv (Time t :: facts) operation → savable (Time t :: facts) operation status actions →
  terminal_status (op_Status operation) = false →
  Inv (Saved operation' :: Time t :: facts) operation'.
Proof.
  intros operation' HI Hsv Hlive.
  pose proof (steps_actions _ _ _ _ _ (sv_items _ _ _ _ Hsv)) as Hacts. split; cbn.
  - by rewrite String.eqb_refl.
  - apply HI.
  - apply checked_told, HI.
  - apply matches_set; [apply HI|done].
  - apply HI.
  - apply HI.
  - intros [_ Hfine]. by eapply savable_fit.
  - intros [_ Hfine] t' c Hnb Hc. apply (iv_born _ _ HI Hfine t' c); [|done]. by apply not_before_tail in Hnb.
Qed.

(** A save after the time was read: permitted, with the state above where it
    succeeds. *)
Lemma wp_save {R B} (on_error : failure → R) (f : Z → flow R B) past operation status actions t revision Ret Q :
  let operation' := set_operation status actions (format_rfc3339 (truncate_second t)) operation in
  Inv (Time t :: told past) operation → savable (Time t :: told past) operation status actions →
  terminal_status (op_Status operation) = false →
  (∀ past' revision', told past' = Saved operation' :: Time t :: told past → Inv (told past') operation' →
    wp permitted (f revision') past' Ret Q) →
  (∀ past' msg, Ret past' (on_error (Plain msg))) →
  wp permitted (revision ← save on_error operation' revision; f revision) (Event Call.Now t :: past) Ret Q.
Proof.
  intros operation' HI Hsv Hlive HQ HRet. split.
  - split.
    + right. exists operation. split; [apply (iv_journal _ _ HI)|]. exact (savable_evolves _ _ _ _ _ Hsv).
    + intros Hfine. exact (proj1 (savable_fit _ _ _ _ _ HI Hsv Hlive Hfine)).
  - intros [revision'|msg]; [|apply HRet].
    apply (HQ (Event (Call.SaveOperation operation' revision) (Ok revision') :: Event Call.Now t :: past)); [done|].
    exact (Inv_saved _ _ _ _ t HI Hsv Hlive).
Qed.

(** [operation.UpdatedAt = engine.nowString()] and the save. *)
Lemma wp_touch_and_save {R} (on_error : Operation → failure → R) past operation0 operation status
    actions old revision Ret Q :
  Inv (told past) operation → operation0 = set_operation status actions old operation →
  savable (told past) operation status actions → terminal_status (op_Status operation) = false →
  (∀ t past' revision', let operation' := set_operation status actions (format_rfc3339 (truncate_second t)) operation in
    told past' = Saved operation' :: Time t :: told past → Inv (told past') operation' → Q past' (operation', revision')) →
  (∀ past' operation' msg, Ret past' (on_error operation' (Plain msg))) →
  wp permitted (touch_and_save on_error operation0 revision) past Ret Q.
Proof.
  intros HI -> Hsv Hlive HQ HRet. split; [done|]. intros t.
  set (operation' := set_operation status actions (format_rfc3339 (truncate_second t)) operation).
  change (wp permitted (revision ← save (on_error operation') operation' revision; mret (operation', revision))
    (Event Call.Now t :: past) Ret Q).
  apply wp_save; [| |done| |].
  - by apply Inv_told.
  - by apply savable_time.
  - intros past' revision' Hp HI'. by apply (HQ t).
  - intros. apply HRet.
Qed.

(** *** Single calls *)

Lemma wp_now {R B} (f : string → flow R B) past Ret Q :
  (∀ t, wp permitted (f (format_rfc3339 (truncate_second t))) (Event Call.Now t :: past) Ret Q) →
  wp permitted (now ← nowString; f now) past Ret Q.
Proof. by split. Qed.

Lemma plan_action operation item :
  operationMatchesPlan operation plan = true → item ∈ op_Actions operation → oa_Action item ∈ pp_Actions plan.
Proof.
  unfold operationMatchesPlan. rewrite !andb_true_iff, bool_decide_eq_true. intros [_ <-] Hin.
  by apply list_elem_of_fmap_2.
Qed.

(** The value of an action: read with a permitted call. *)
Lemma wp_action_value {R B} on_error action (f : string → flow R B) past Ret Q :
  the_plan (told past) = Some plan → action ∈ pp_Actions plan →
  (∀ value past', told past' = told past ∨ (∃ b r v, told past' = RecordIs b r v value :: told past) →
    value_known plan action value (since_plan (told past')) → wp permitted (f value) past' Ret Q) →
  (∀ past' msg, Ret past' (on_error (Plain msg))) →
  wp permitted (value ← action_value on_error plan action; f value) past Ret Q.
Proof.
  intros Hplan Hin Hf HRet. unfold action_value, value_known in *. destruct (nonempty (ac_Record action)) eqn:E.
  - split; [by exists plan, action|]. intros [value|msg]; [|apply HRet].
    apply (Hf value (Event (Call.LoadRecord _ _ _) (Ok value) :: past)); [right; by eexists _, _, _|by left].
  - apply (Hf _ past); [by left|done].
Qed.

(** Evidence of a write, completed with the time. *)
Lemma wp_committed_at {R B} evidence (f : WriteEvidence → flow R B) past Ret Q :
  (∀ evidence' past', told past' = told past ∨ (∃ t, told past' = Time t :: told past) →
    (is_ok (WriteEvidence_Validate evidence') = true → completed evidence evidence') →
    wp permitted (f evidence') past' Ret Q) →
  wp permitted (evidence ← committed_at evidence; f evidence) past Ret Q.
Proof.
  intros Hf. unfold committed_at. destruct (nonempty (we_CommittedAt evidence)) eqn:E.
  - apply Hf; [by left|]. intros Hok. by split_and!.
  - split; [done|]. intros t. apply (Hf _ (Event Call.Now t :: past)); [right; by exists t|].
    intros Hok. split_and!; [done| |done]. by rewrite E.
Qed.
(** *** Writes *)

Abbreviation Return := (λ past o, outcome_ok (told past) o).
Abbreviation live operation := (terminal_status (op_Status operation) = false).
Abbreviation all_written operation := (Forall (λ item, written_status (oa_Status item) = true) (op_Actions operation)).

Lemma live_action facts operation index item :
  Inv facts operation → op_Actions operation !! index = Some item →
  fine facts → item_fit (op_Target operation) item ∧ oa_Attempts item < max_int64.
Proof.
  intros HI Hi Hfine. pose proof (iv_fit _ _ HI Hfine) as Hf%fit_items.
  pose proof (journal_room _ _ _ (iv_journal _ _ HI) Hfine) as Hr. split; [by eapply Forall_lookup_1|].
  by eapply (Forall_lookup_1 _ _ _ _ Hr).
Qed.

(** A change of one item, by a permitted step. *)
Lemma savable_insert facts operation status index item item' :
  Inv facts operation → op_Actions operation !! index = Some item → step facts item item' →
  status = op_Status operation ∨ status_meaning status (<[index := item']> (op_Actions operation)) →
  engine_status status = true ∨ status = op_Status operation ∧ live operation →
  (fine facts → item_fit (op_Target operation) item → item_fit (op_Target operation) item') →
  savable facts operation status (<[index := item']> (op_Actions operation)).
Proof.
  intros HI Hi Hs Hm Hst Hfit. split.
  - by eapply steps_insert.
  - done.
  - intros Hfine. destruct Hst as [|[-> Hl]]; [done|]. by apply fit_engine_status; [apply HI|].
  - intros Hfine. apply Forall_insert; [by apply fit_items, HI|]. by apply Hfit, (live_action facts _ index).
Qed.

(** What a round of the loop of writes achieves: the item is written, the rest
    is as it was. *)
Definition progress (index : nat) (operation : Operation) (past' : history) (operation' : Operation) : Prop :=
  Inv (told past') operation' ∧ live operation' ∧
  ∃ item', written_status (oa_Status item') = true ∧ op_Actions operation' = <[index := item']> (op_Actions operation).

Lemma canonical_fine facts t : fine (Time t :: facts) → canonicalTimestamp (format_rfc3339 (truncate_second t)) = true.
Proof. intros (Ht & _). unfold canonicalTimestamp. by rewrite canonical_now. Qed.

Lemma SanitizeError_ok operation err : Error_Validate (SanitizeError operation err) = Ok tt.
Proof. destruct err; apply NewError_valid. Qed.

Lemma Exists_insert {A} (P : A → Prop) (l : list A) i x : (i < List.length l)%nat → P x → Exists P (<[i := x]> l).
Proof. intros Hi HP. apply Exists_exists. exists x. split; [|done]. by apply list_elem_of_insert. Qed.

Lemma failed_meaning safe item index actions :
  (index < List.length actions)%nat →
  status_meaning (failed_status caps safe) (<[index := failed_item safe item]> actions).
Proof.
  intros Hi. unfold failed_status. destruct (err_Retry safe) eqn:E; try done. destruct (negb (retriableWrite caps)); [|done].
  apply Exists_insert; [done|]. cbn. by rewrite E.
Qed.

Lemma failed_engine_status safe : engine_status (failed_status caps safe) = true.
Proof. unfold failed_status. by destruct (err_Retry safe), (negb (retriableWrite caps)). Qed.

Lemma Inv_announced facts operation :
  Inv (Saved operation :: facts) operation → announced plan operation (Saved operation :: facts).
Proof. intros HI. split_and!; [done|apply HI..]. Qed.

Lemma wp_attempt_write past index item operation revision Q :
  atomic = false → Inv (told past) operation → live operation → op_Actions operation !! index = Some item →
  written_status (oa_Status item) = false →
  (oa_Status item = ActionInFlight → retriableWrite caps = true) →
  (∀ past' operation' revision', progress index operation past' operation' → Q past' (operation', revision')) →
  wp permitted (attempt_write plan caps index item operation revision) past Return Q.
Proof.
  intros Hat HI Hlive Hi Hunw Hretry HQ. unfold attempt_write.
  assert (Hlt : (index < List.length (op_Actions operation))%nat) by by eapply lookup_lt_Some.
  apply wp_action_value; [apply HI|eapply plan_action, list_elem_of_lookup_2; [apply HI|done]| |done].
  intros value past1 Hpast1 Hvalue. apply wp_now. intros t. set (now := format_rfc3339 (truncate_second t)).
  assert (HI1 : Inv (Time t :: told past1) operation).
  { apply Inv_told; [done|]. destruct Hpast1 as [-> |(? & ? & ? & ->)]; [done|by apply Inv_told]. }
  apply (wp_save _ _ past1 operation StatusWriting (<[index := start_attempt now item]> (op_Actions operation)));
    [done| |done| |done].
  { eapply savable_insert; [done..| | | |].
    - apply step_attempt; [done|]. intros Hin. right. exists caps. split; [apply HI1|by apply Hretry].
    - right. by apply Exists_insert.
    - by left.
    - intros Hfine Hit. apply start_attempt_fit; [done..| |by eapply canonical_fine].
      by apply (live_action _ _ _ _ HI1 Hi). }
  set (item1 := start_attempt now item). set (operation1 := set_operation _ _ _ operation).
  intros past2 revision2 Hpast2 HI2. 
  assert (Hi1 : op_Actions operation1 !! index = Some item1) by by apply list_lookup_insert_eq.
  set (request := action_request plan item1 value). apply wp_ask.
  { split; [done|]. exists plan, operation1, item1. rewrite Hpast2 in HI2 |- *.
    split; [by apply Inv_announced|]. split.
    { exists (Time t :: told past1), operation, index, item, now. split_and!; try done; [apply HI1|].
      intros Hin. exists caps. split; [apply HI1|by apply Hretry]. }
    split; [done|].
    exists value. split; [done|]. cbn. unfold value_known in *. destruct (nonempty _); [|done]. by do 2 right. }
  assert (Hkey : wr_IdempotencyKey request = oa_WriteKey item1) by done.
  intros [evidence|err].
  - apply wp_committed_at. intros evidence' past3 Hpast3 Hcomp.
    assert (HI3 : Inv (told past3) operation1 ∧ last_told (told past3) = Some (Wrote request evidence)).
    { destruct Hpast3 as [-> |[t3 ->]]; (split; [|done]); repeat (apply Inv_told; [done|]); done. }
    destruct HI3 as [HI3 Hlast]. destruct (is_ok (WriteEvidence_Validate evidence')) eqn:Hok; [|done].
    eapply (wp_touch_and_save returns past3 _ operation1 StatusWriting); [done..| |done| |done].
    + eapply savable_insert; [done..| | | |].
      * eapply step_wrote; [done..|]. by apply Hcomp.
      * by left.
      * by left.
      * intros _ Hit. by apply staged_item_fit.
    + intros t4 past4 revision4 operation4 Hpast4 HI4. apply HQ. split_and!; [done..|].
      exists (staged_item evidence' item1). split; [done|]. apply list_insert_insert_eq.
  - set (safe := SanitizeError "write" err).
    assert (HI3 : Inv (told (Event (Call.Write request) (inr err) :: past2)) operation1) by by apply Inv_told.
    apply wp_bind. eapply (wp_touch_and_save returns _ _ operation1 (failed_status caps safe)); [done..| |done| |done].
    + eapply savable_insert; [done..| | | |].
      * eapply step_write_failed; [done..].
      * right. apply failed_meaning. by eapply lookup_lt_Some.
      * left. apply failed_engine_status.
      * intros _ Hit. apply failed_item_fit; [done..|apply SanitizeError_ok].
    + intros t4 past4 revision4 operation4 Hpast4 HI4 _. apply SanitizeError_ok.
Qed.

Lemma reconcileAction_status item m now item' :
  reconcileAction item m now = Some item' → oa_Status item' = ActionCommitted ∨ oa_Status item' = ActionPending.
Proof. unfold reconcileAction. repeat case_match; intros; simplify_eq; auto. Qed.

(** A write with no known outcome: resolved by the metadata, or the engine
    stops. *)
Lemma wp_reconcile past index item operation revision Q :
  Inv (told past) operation → live operation → op_Actions operation !! index = Some item →
  oa_Status item = ActionInFlight →
  (∀ item' past' operation' revision', Inv (told past') operation' → live operation' →
    op_Actions operation' = <[index := item']> (op_Actions operation) →
    oa_Status item' = ActionCommitted ∨ oa_Status item' = ActionPending →
    Q past' (item', operation', revision')) →
  wp permitted (reconcile_in_flight metadata index item operation revision) past Return Q.
Proof.
  intros HI Hlive Hi Hin HQ. apply wp_now. intros t. set (now := format_rfc3339 (truncate_second t)).
  assert (HI1 : Inv (told (Event Call.Now t :: past)) operation) by by apply Inv_told.
  destruct (reconcileAction item metadata now) as [item'|] eqn:Hrec; apply wp_bind.
  - eapply (wp_touch_and_save returns _ _ operation (op_Status operation)); [done..| |done| |done].
    + eapply savable_insert; [done..| | | |].
      * eapply step_reconciled; [done|apply HI1|done].
      * by left.
      * by right.
      * intros Hfine Hit. eapply reconcileAction_fit; [done..|by eapply canonical_fine|done].
    + intros t' past' revision' operation' Hpast' HI'. apply HQ; [done..|]. by eapply reconcileAction_status.
  - eapply (wp_touch_and_save returns _ _ operation StatusReconciliation (op_Actions operation)); [done..| |done| |done].
    + split; [apply steps_refl| |done|intros Hfine; by apply fit_items, HI1].
      right. apply Exists_exists. exists item. split; [by eapply list_elem_of_lookup_2|done].
    + intros t' past' revision' operation' Hpast' HI'. split_and!; [apply HI'|done|].
      apply Exists_exists. exists item. split; [by eapply list_elem_of_lookup_2|done].
Qed.

Lemma wp_write_action past index operation revision Q :
  (atomic = true → all_written operation) → Inv (told past) operation → live operation →
  (index < List.length (op_Actions operation))%nat →
  (∀ past' operation' revision', Inv (told past') operation' → live operation' →
    (∃ item', written_status (oa_Status item') = true ∧ op_Actions operation' = <[index := item']> (op_Actions operation)) →
    Q past' (operation', revision')) →
  wp permitted (write_action plan caps metadata index (operation, revision)) past Return Q.
Proof.
  intros Hat HI Hlive Hlt HQ. destruct (lookup_lt_is_Some_2 _ _ Hlt) as [item Hi]. unfold write_action. rewrite Hi.
  destruct (written_status (oa_Status item)) eqn:Hw.
  { apply HQ; [done..|]. exists item. split; [done|]. by rewrite list_insert_id. }
  assert (Hone : atomic = false).
  { apply not_true_is_false. intros H1. by rewrite (Forall_lookup_1 _ _ _ _ (Hat H1) Hi) in Hw. }
  destruct (bool_decide (oa_Status item = ActionInFlight)) eqn:Hin; cbn [andb].
  2: { apply bool_decide_eq_false in Hin. apply wp_attempt_write; try done. intros ??? (? & ? & ?). by apply HQ. }
  apply bool_decide_eq_true in Hin. destruct (retriableWrite caps) eqn:Hr; cbn [negb].
  { apply wp_attempt_write; try done. intros ??? (? & ? & ?). by apply HQ. }
  apply wp_bind, wp_reconcile; [done..|]. intros item' past' operation' revision' HI' Hlive' Hacts Hst.
  destruct Hst as [Hst|Hst]; rewrite Hst.
  { rewrite bool_decide_eq_true_2 by done. apply HQ; [done..|]. exists item'. by rewrite Hst. }
  rewrite bool_decide_eq_false_2 by done. apply wp_attempt_write; [done..| | | |]; [by rewrite Hacts, list_lookup_insert_eq|by rewrite Hst|by rewrite Hst|].
  intros past2 operation2 revision2 (HI2 & Hlive2 & item2 & Hw2 & Hacts2). apply HQ; [done..|].
  exists item2. by rewrite Hacts2, Hacts, list_insert_insert_eq.
Qed.

(** *** The loops *)

Definition sofar (P : OperationAction → Prop) (indices : list nat) (operation : Operation) : Prop :=
  ∃ i, indices = List.seq i (List.length (op_Actions operation) - i) ∧ (i ≤ List.length (op_Actions operation))%nat ∧
    Forall P (take i (op_Actions operation)).

Lemma sofar_start P operation : sofar P (List.seq 0 (List.length (op_Actions operation))) operation.
Proof. exists 0%nat. split_and!; [by rewrite Nat.sub_0_r|lia|constructor]. Qed.

Lemma sofar_lt P index indices operation :
  sofar P (index :: indices) operation → (index < List.length (op_Actions operation))%nat.
Proof. intros (i & Hs & _). destruct (_ - i)%nat eqn:E; [done|]. simpl in Hs. injection Hs as ->. lia. Qed.

Lemma sofar_next P index indices operation operation' item' :
  sofar P (index :: indices) operation → op_Actions operation' = <[index := item']> (op_Actions operation) →
  P item' → sofar P indices operation'.
Proof.
  intros Hso Hacts HP. pose proof (sofar_lt _ _ _ _ Hso) as Hlt. destruct Hso as (i & Hs & _ & Hall).
  destruct (_ - i)%nat eqn:E; [done|]. simpl in Hs. injection Hs as -> Hs.
  exists (S i). rewrite Hacts, length_insert. split_and!; [rewrite Hs; f_equal; lia|lia|].
  rewrite (take_S_r _ _ item') by by apply list_lookup_insert_eq.
  apply Forall_app. split; [|by constructor]. by rewrite take_insert_ge.
Qed.

Lemma sofar_end P operation : sofar P [] operation → Forall P (op_Actions operation).
Proof.
  intros (i & Hs & Hi & Hall). destruct (_ - i)%nat eqn:E; [|done]. by rewrite take_ge in Hall by lia.
Qed.

(** *** Verification *)

Lemma wp_verified_at {R B} evidence (f : VerifyEvidence → flow R B) past Ret Q :
  (∀ evidence' past', told past' = told past ∨ (∃ t, told past' = Time t :: told past) →
    (is_ok (VerifyEvidence_Validate evidence') = true → completed_check evidence evidence') →
    wp permitted (f evidence') past' Ret Q) →
  wp permitted (evidence ← verified_at evidence; f evidence) past Ret Q.
Proof.
  intros Hf. unfold verified_at. destruct (nonempty (ve_VerifiedAt evidence)) eqn:E.
  - apply Hf; [by left|]. intros Hok. by split_and!.
  - split; [done|]. intros t. apply (Hf _ (Event Call.Now t :: past)); [right; by exists t|].
    intros Hok. by split_and!.
Qed.

(** The verification so far: [limited] tells whether a limited action was met. *)
Definition verified_so_far (limited : bool) (item : OperationAction) : Prop :=
  verified_status (oa_Status item) = true ∧ (limited = false → oa_Status item = ActionVerified).

Lemma verified_item_status evidence item :
  verified_status (oa_Status (verified_item evidence item)) = true ∧
  written_status (oa_Status (verified_item evidence item)) = true ∧
  (oa_Status (verified_item evidence item) = ActionVerified ∨ oa_Status (verified_item evidence item) = ActionLimited).
Proof. cbn. case_bool_decide; auto. Qed.

Record verifying (past : history) (operation : Operation) : Prop := {
  vf_inv : Inv (told past) operation;
  vf_status : op_Status operation = StatusVerifying;
  vf_written : all_written operation;
}.

Lemma verifying_live past operation : verifying past operation → live operation.
Proof. by intros [_ -> _]. Qed.

(** One verified item, saved. *)
Lemma wp_save_verified past index item evidence operation revision Q :
  verifying past operation → op_Actions operation !! index = Some item →
  step (told past) item (verified_item evidence item) →
  (fine (told past) → is_ok (VerifyEvidence_Validate evidence) = true) →
  (∀ past' operation' revision', verifying past' operation' →
    op_Actions operation' = <[index := verified_item evidence item]> (op_Actions operation) →
    Q past' (operation', revision')) →
  wp permitted (touch_and_save returns (set_action index (verified_item evidence item) operation) revision) past Return Q.
Proof.
  intros Hv Hi Hs Hev HQ. pose proof (verifying_live _ _ Hv) as Hlive. destruct Hv as [HI Hst Hw].
  pose proof (Forall_lookup_1 _ _ _ _ Hw Hi) as Hwi.
  eapply (wp_touch_and_save returns past _ operation (op_Status operation)); [done..| |done| |done].
  - eapply savable_insert; [done..|by left|by right|]. intros Hfine Hit. apply verified_item_fit; auto.
  - intros t past' revision' operation' Hpast' HI'. apply HQ; [|done]. split; [done..|].
    apply Forall_insert; [done|]. apply verified_item_status.
Qed.

Lemma evidence_missing facts operation index item :
  Inv facts operation → op_Actions operation !! index = Some item →
  written_status (oa_Status item) = true → oa_WriteEvidence item = None → ¬ fine facts.
Proof.
  intros HI Hi Hw Hnone Hfine. destruct (live_action _ _ _ _ HI Hi Hfine) as [[Hok _] _].
  apply io_present in Hok. unfold evidence_present in Hok. by rewrite Hw, Hnone, orb_true_r in Hok.
Qed.

Lemma unsupported_ok t : four_digit_year (unix t) →
  is_ok (VerifyEvidence_Validate (unsupported_evidence (format_rfc3339 (truncate_second t)))) = true.
Proof. intros Ht. unfold VerifyEvidence_Validate, canonicalTimestamp. cbn -[format_rfc3339]. by rewrite canonical_now. Qed.

Lemma wp_verify_action past index operation revision limited Q :
  verifying past operation → (index < List.length (op_Actions operation))%nat →
  (∀ past' operation' revision' limited', verifying past' operation' →
    (limited = true → limited' = true) →
    (∃ item', verified_so_far limited' item' ∧ op_Actions operation' = <[index := item']> (op_Actions operation) ∧
      (limited' = true → limited = true ∨ oa_Status item' = ActionLimited)) →
    Q past' (operation', revision', limited')) →
  wp permitted (verify_action plan caps index (operation, revision, limited)) past Return Q.
Proof.
  intros Hv Hlt HQ. destruct (lookup_lt_is_Some_2 _ _ Hlt) as [item Hi]. unfold verify_action. rewrite Hi.
  pose proof (vf_inv _ _ Hv) as HI. pose proof (Forall_lookup_1 _ _ _ _ (vf_written _ _ Hv) Hi) as Hw. simpl in Hw.
  destruct (decide (oa_Status item = ActionVerified)) as [Hst|Hst].
  { rewrite bool_decide_eq_true_2 by done. apply HQ; [done..|]. exists item. rewrite list_insert_id by done.
    unfold verified_so_far. rewrite Hst. auto. }
  rewrite bool_decide_eq_false_2 by done. destruct (cap_Validate caps) eqn:Hval; cbn [negb].
  2: { apply wp_now. intros t. apply wp_bind, wp_save_verified; [by destruct Hv; split; [apply Inv_told|..]|done| | |].
    - by eapply step_unsupported; [apply HI|..].
    - intros (Ht & _). by apply unsupported_ok.
    - intros past' operation' revision' Hv' Hacts. apply HQ; [done..|].
      eexists. split; [|split; [exact Hacts|auto]]. split; [apply verified_item_status|done]. }
  destruct (oa_WriteEvidence item) as [wrote|] eqn:Hwrote; [|by eapply evidence_missing].
  apply wp_ask.
  { exists plan, operation, item, wrote. split_and!; try apply HI; try done; [apply Hv|by eapply list_elem_of_lookup_2]. }
  intros [evidence|err].
  - apply wp_verified_at. intros evidence' past' Hpast' Hcomp.
    assert (Hv' : verifying past' operation ∧ last_told (told past') = Some (Checked (verify_request plan item wrote) evidence)).
    { destruct Hv. split; [split; [|done..]|]; destruct Hpast' as [-> |[t ->]]; try done; repeat (apply Inv_told; [done|]); done. }
    destruct Hv' as [Hv' Hlast]. destruct (is_ok (VerifyEvidence_Validate evidence')) eqn:Hok; [|done].
    cbn [negb]. apply wp_bind, wp_save_verified; [done..| |done|].
    + by eapply step_verified; [done..|apply Hcomp].
    + intros past2 operation2 revision2 Hv2 Hacts. apply HQ; [done|by intros ->|].
      eexists. split; [|split; [exact Hacts|]].
      * split; [apply verified_item_status|]. intros [_ Hl%bool_decide_eq_false]%orb_false_iff.
        by destruct (verified_item_status evidence' item) as (_ & _ & [?|?]).
      * intros [->|Hl%bool_decide_eq_true]%orb_true_iff; auto.
  - set (safe := SanitizeError "verify" err). apply wp_bind.
    rewrite <-Hwrote. set (item' := set_item _ _ _ _ item).
    eapply (wp_touch_and_save returns _ _ operation (verify_failed_status safe)
      (<[index := item']> (op_Actions operation))); [by apply Inv_told|done| |by eapply verifying_live| |done].
    + eapply savable_insert; [by apply Inv_told|done| | | |].
      * by eapply step_verify_failed.
      * right. unfold verify_failed_status. by destruct (err_Retry safe).
      * left. unfold verify_failed_status. by destruct (err_Retry safe).
      * intros _ Hit. apply verify_failed_fit; [done..|apply SanitizeError_ok].
    + intros t past' revision' operation' _ _ _. apply SanitizeError_ok.
Qed.


(** *** The batch of an atomic adapter *)

(** An item put in flight in memory, and its request. *)
Definition started (target : TargetBinding) (facts : list fact) (item item' : OperationAction) : Prop :=
  step facts item item' ∧ oa_Status item' = ActionInFlight ∧ (fine facts → item_fit target item').

(** The facts between two saves of a batch leave the view of the steps as it
    is. *)
Definition quiet (facts facts' : list fact) : Prop :=
  ∃ new, facts' = new ++ facts ∧ Forall (λ f, match f with Time _ | RecordIs _ _ _ _ => True | _ => False end) new.

Lemma quiet_step f facts facts' :
  quiet facts facts' → match f with Time _ | RecordIs _ _ _ _ => True | _ => False end → quiet facts (f :: facts').
Proof. intros (new & -> & Hnew) Hf. exists (f :: new). split; [done|by constructor]. Qed.

Lemma quiet_spec facts facts' operation :
  quiet facts facts' → Inv facts operation →
  Inv facts' operation ∧ last_told facts' = last_told facts ∧ the_capabilities facts' = the_capabilities facts ∧
  the_metadata facts' = the_metadata facts ∧ (fine facts' → fine facts) ∧
  (∀ f, f ∈ since_plan facts → f ∈ since_plan facts').
Proof.
  intros (new & -> & Hnew) HI. induction Hnew as [|f new Hf _ (IH1 & IH2 & IH3 & IH4 & IH5 & IH6)]; [done|]. cbn [app].
  split; [apply Inv_told; [by destruct f|done]|]. destruct f; try done; (split_and!; [done|done|done|cbn; tauto|intros f' Hf'; right; auto]).
Qed.

(** The state of the loop that builds the requests, before the items
    [index ..]. *)
Record batching (facts0 facts : list fact) (operation0 : Operation) (index : nat) (operation : Operation)
    (requests : list WriteRequest) : Prop := {
  bt_quiet : quiet facts0 facts;
  bt_operation : operation = set_actions (op_Actions operation) operation0;
  bt_length : List.length (op_Actions operation) = List.length (op_Actions operation0);
  bt_rest : ∀ j, (index ≤ j)%nat → op_Actions operation !! j = op_Actions operation0 !! j;
  bt_started : ∀ j item item', (j < index)%nat → op_Actions operation0 !! j = Some item →
    op_Actions operation !! j = Some item' → started (op_Target operation0) facts item item';
  bt_requests : List.length requests = index;
  bt_request : ∀ j item' request, op_Actions operation !! j = Some item' → requests !! j = Some request →
    request_of plan (since_plan facts) item' request;
}.

Lemma started_quiet facts facts' operation target item item' :
  quiet facts facts' → Inv facts operation → started target facts item item' → started target facts' item item'.
Proof.
  intros Hq HI (Hs & Hin & Hfit). destruct (quiet_spec _ _ _ Hq HI) as (_ & Hl & Hc & Hm & Hf & _).
  split_and!; [by rewrite Hl, Hc, Hm|done|auto].
Qed.

Lemma request_quiet facts facts' operation item request :
  quiet facts facts' → Inv facts operation → request_of plan (since_plan facts) item request →
  request_of plan (since_plan facts') item request.
Proof.
  intros Hq HI (Hin & value & -> & Hv). destruct (quiet_spec _ _ _ Hq HI) as (_ & _ & _ & _ & _ & Hsub).
  split; [done|]. exists value. split; [done|]. unfold value_known in *. destruct (nonempty _); auto.
Qed.

Lemma batching_next facts0 facts operation0 index operation requests item t value :
  Inv facts0 operation0 → Forall (λ item, written_status (oa_Status item) = false) (op_Actions operation0) →
  atomic = true → batching facts0 facts operation0 index operation requests →
  op_Actions operation !! index = Some item → quiet facts0 (Time t :: facts) →
  value_known plan (oa_Action item) value (since_plan (Time t :: facts)) →
  batching facts0 (Time t :: facts) operation0 (S index)
    (set_action index (start_attempt (format_rfc3339 (truncate_second t)) item) operation)
    (requests ++ [action_request plan item value]).
Proof.
  intros HI Hunw Hat Hb Hi Hq Hv. pose proof Hb as [Hq0 Hop Hlen Hrest Hst Hreqs Hreq].
  pose proof (lookup_lt_Some _ _ _ Hi) as Hlt. set (item' := start_attempt _ item).
  assert (Hi0 : op_Actions operation0 !! index = Some item) by by rewrite <-Hrest.
  destruct (quiet_spec _ _ _ Hq HI) as (HI' & _).
  assert (Hnew : quiet facts (Time t :: facts)).
  { exists [Time t]. by repeat constructor. }
  split; cbn [set_action set_actions set_operation op_Actions].
  - done.
  - by rewrite Hop.
  - by rewrite length_insert.
  - intros j Hj. rewrite list_lookup_insert_ne by lia. apply Hrest. lia.
  - intros j x x' Hj Hx Hx'. destruct (decide (j = index)) as [->|].
    + rewrite list_lookup_insert_eq in Hx' by done. simplify_eq. split_and!.
      * apply step_attempt; [by eapply (Forall_lookup_1 _ _ _ _ Hunw)|by left].
      * done.
      * intros Hfine. destruct (live_action _ _ _ _ HI' Hi0 Hfine). apply start_attempt_fit; [done| |done|by eapply canonical_fine].
        by eapply (Forall_lookup_1 _ _ _ _ Hunw).
    + rewrite list_lookup_insert_ne in Hx' by done. eapply (started_quiet facts); [done| |by apply (Hst j); [lia|..]].
      by destruct (quiet_spec _ _ _ Hq0 HI).
  - rewrite length_app. cbn. lia.
  - intros j x' r Hx' [Hr|[? Hr]]%lookup_app_Some.
    + assert (j ≠ index) by (apply lookup_lt_Some in Hr; lia). rewrite list_lookup_insert_ne in Hx' by done.
      eapply (request_quiet facts); [done| |by eapply Hreq]. by destruct (quiet_spec _ _ _ Hq0 HI).
    + apply list_lookup_singleton_Some in Hr as [Hj <-]. assert (j = index) as -> by lia.
      rewrite list_lookup_insert_eq in Hx' by done. simplify_eq. split; [done|]. by exists value.
Qed.

(** What [advanceAtomicBatch] returns: all actions are written, or an error. *)
Definition batch_ok (facts : list fact) (result : batch_outcome) : Prop :=
  match result with
  | BatchReturned operation _ None => Inv facts operation ∧ live operation ∧ all_written operation
  | BatchReturned operation _ (Some err) => outcome_ok facts (returns operation err)
  end.
Abbreviation BatchReturn := (λ past r, batch_ok (told past) r).

Lemma wp_batch_requests past0 operation0 on_error Q :
  Inv (told past0) operation0 → Forall (λ item, written_status (oa_Status item) = false) (op_Actions operation0) →
  atomic = true → (∀ past' operation msg, batch_ok (told past') (on_error operation (Plain msg))) →
  (∀ past operation requests,
    batching (told past0) (told past) operation0 (List.length (op_Actions operation0)) operation requests →
    Q past (operation, requests)) →
  wp permitted (for_each (batch_request plan on_error) (List.seq 0 (List.length (op_Actions operation0)))
    (operation0, [])) past0 BatchReturn Q.
Proof.
  intros HI Hunw Hat Hfail HQ. set (n := List.length (op_Actions operation0)).
  eapply (wp_for_each _ _ _ _ _ _ _ (λ indices past st, ∃ i, indices = List.seq i (n - i) ∧ (i ≤ n)%nat ∧
    batching (told past0) (told past) operation0 i (fst st) (snd st))).
  - exists 0%nat. rewrite Nat.sub_0_r. split_and!; [done|lia|]. split; try done; [by exists []|by destruct operation0|intros; lia].
  - intros past [operation requests] index indices (i & Hs & Hi & Hb). cbn [fst snd] in Hb.
    destruct (n - i)%nat as [|k] eqn:Hk; [done|]. simpl in Hs. injection Hs as -> Hs.
    destruct (quiet_spec _ _ _ (bt_quiet _ _ _ _ _ _ Hb) HI) as (HIp & _).
    assert (Hlt : (i < List.length (op_Actions operation))%nat) by (rewrite (bt_length _ _ _ _ _ _ Hb); lia).
    destruct (lookup_lt_is_Some_2 _ _ Hlt) as [item Hitem]. cbn [batch_request]. rewrite Hitem.
    apply wp_action_value; [apply HIp| | |by intros; apply Hfail].
    { apply (plan_action operation0); [apply HI|]. apply (list_elem_of_lookup_2 _ i). by rewrite <-(bt_rest _ _ _ _ _ _ Hb). }
    intros value past1 Hpast1 Hv. apply wp_now. intros t.
    assert (Hq1 : quiet (told past0) (told past1)).
    { pose proof (bt_quiet _ _ _ _ _ _ Hb). destruct Hpast1 as [-> |(? & ? & ? & ->)]; [done|by apply quiet_step]. }
    exists (S i). split_and!; [by rewrite Hs; f_equal; lia|lia|]. cbn [fst snd].
    eapply (batching_next (told past0) (told past1)); [exact HI|exact Hunw|exact Hat| |exact Hitem|by apply quiet_step|].
    + destruct Hpast1 as [Hp|(? & ? & ? & Hp)]; rewrite Hp in *; [done|].
      assert (Hq2 : quiet (told past) (RecordIs x x0 x1 value :: told past)) by (exists [RecordIs x x0 x1 value]; by repeat constructor).
      destruct Hb as [H1 H2 H3 H4 H5 H6 H7]. split; try done.
      intros. eapply request_quiet; [exact Hq2|exact HIp|]. by eapply H7.
    + unfold value_known in *. destruct (nonempty _); [|done]. by right.
  - intros past [operation requests] (i & Hs & Hi & Hb). apply HQ. cbn [fst snd] in Hb.
    destruct (n - i)%nat eqn:Hk; [|done]. assert (Hni : i = n) by lia. by rewrite Hni in Hb.
Qed.

Lemma batching_requests facts0 facts operation0 operation requests :
  batching facts0 facts operation0 (List.length (op_Actions operation0)) operation requests →
  Forall2 (started (op_Target operation0) facts) (op_Actions operation0) (op_Actions operation) ∧
  Forall2 (request_of plan (since_plan facts)) (op_Actions operation) requests.
Proof.
  intros [_ _ Hlen _ Hst Hreqs Hreq]. split; apply Forall2_same_length_lookup_2; try congruence.
  - intros j x y Hx Hy. apply (Hst j); [by eapply lookup_lt_Some|done..].
  - intros j x y Hx Hy. by eapply Hreq.
Qed.

Lemma request_keys told_ actions requests item :
  Forall2 (request_of plan told_) actions requests → item ∈ actions →
  oa_Status item = ActionInFlight ∧ oa_WriteKey item ∈ wr_IdempotencyKey <$> requests.
Proof.
  intros Hall [j Hj]%list_elem_of_lookup. destruct (Forall2_lookup_l _ _ _ _ _ Hall Hj) as (r & Hr & Hin & value & -> & _).
  split; [done|]. apply list_elem_of_fmap. eexists. split; [|by eapply list_elem_of_lookup_2]. done.
Qed.

Lemma Forall2_fmap_step {A} (P : A → A → Prop) f l : (∀ x, x ∈ l → P x (f x)) → Forall2 P l (f <$> l).
Proof.
  intros Hf. apply Forall2_same_length_lookup_2; [by rewrite length_fmap|]. intros i x y Hx Hy.
  rewrite list_lookup_fmap, Hx in Hy. simplify_eq/=. by eapply Hf, list_elem_of_lookup_2.
Qed.

Lemma stage_failed_meaning safe actions :
  actions ≠ [] → Forall (λ item, oa_Status item = ActionInFlight) actions →
  status_meaning (stage_failed_status safe) (stage_failed_item safe <$> actions).
Proof.
  intros Hne Hall. unfold stage_failed_status. destruct (err_Retry safe) eqn:E; try done.
  destruct actions as [|item l]; [done|]. apply Forall_cons in Hall as [Hin _]. left. cbn. by rewrite E, Hin.
Qed.

Lemma savable_map facts operation status f :
  Inv facts operation → (∀ item, item ∈ op_Actions operation → step facts item (f item)) →
  status_meaning status (f <$> op_Actions operation) → engine_status status = true →
  (∀ item, item ∈ op_Actions operation → item_fit (op_Target operation) item → item_fit (op_Target operation) (f item)) →
  savable facts operation status (f <$> op_Actions operation).
Proof.
  intros HI Hs Hm Hst Hfit. split; [by apply Forall2_fmap_step|by right|done|]. intros Hfine.
  pose proof (fit_items _ (iv_fit _ _ HI Hfine)) as Hitems. rewrite Forall_forall in Hitems.
  apply Forall_forall. intros x (item & -> & Hin)%list_elem_of_fmap. auto.
Qed.

(** The stage call, once the journal has all items in flight. *)
Lemma wp_stage past operation requests revision :
  atomic = true → Inv (told past) operation → live operation →
  op_Actions operation ≠ [] → told past = Saved operation :: tail (told past) →
  Forall2 (request_of plan (since_plan (told past))) (op_Actions operation) requests →
  wp permitted (stage_batch requests operation revision) past BatchReturn BatchReturn.
Proof.
  intros Hat HI Hlive Hne Htold Hreqs. unfold stage_batch. cbn zeta.
  assert (Hkeys : ∀ item, item ∈ op_Actions operation →
    oa_Status item = ActionInFlight ∧ oa_WriteKey item ∈ wr_IdempotencyKey <$> requests).
  { intros item Hin. by eapply request_keys. }
  apply wp_ask.
  { split; [done|]. exists plan, operation. split; [|done]. rewrite Htold in HI |- *. by apply Inv_announced. }
  intros [evidence|err].
  - apply wp_committed_at. intros evidence' past' Hpast' Hcomp.
    assert (Hp : Inv (told past') operation ∧ last_told (told past') = Some (Staged requests evidence)).
    { destruct Hpast' as [-> |[t ->]]; (split; [|done]); repeat (apply Inv_told; [done|]); done. }
    destruct Hp as [HI' Hlast']. destruct (nonempty (we_ProviderOperationID evidence')) eqn:Hid; [|done].
    destruct (is_ok (WriteEvidence_Validate evidence')) eqn:Hok; [|done]. cbn [negb orb].
    destruct (Hcomp eq_refl) as (Hsame & _). apply wp_bind.
    eapply (wp_touch_and_save _ past' _ operation StatusWritten); [done|done| |done| |done].
    + apply savable_map; [done| | |done|].
      * intros item Hin. destruct (Hkeys item Hin). eapply step_staged; [done..|by apply Hcomp|by rewrite <-Hsame].
      * apply Forall_forall. by intros x (item & -> & _)%list_elem_of_fmap.
      * intros item Hin Hit. by apply staged_item_fit.
    + intros t past2 revision2 operation2 _ HI2. split_and!; [done..|].
      apply Forall_forall. by intros x (item & -> & _)%list_elem_of_fmap.
  - set (safe := SanitizeError "stage" err). apply wp_bind.
    assert (HI' : Inv (told (Event (Call.Stage requests) (inr err) :: past)) operation) by by apply Inv_told.
    eapply (wp_touch_and_save _ _ _ operation (stage_failed_status safe)); [done|done| |done| |done].
    + apply savable_map; [done| | | |].
      * intros item Hin. destruct (Hkeys item Hin). by eapply step_stage_failed.
      * apply stage_failed_meaning; [done|]. apply Forall_forall. intros item Hin. by apply Hkeys.
      * unfold stage_failed_status. by destruct (err_Retry safe).
      * intros item Hin Hit. apply stage_failed_item_fit; [done|by apply Hkeys|apply SanitizeError_ok].
    + intros t past2 revision2 operation2 _ _ _. apply SanitizeError_ok.
Qed.

Lemma not_all_some {A} (p : A → bool) l : forallb p l = false → l ≠ [].
Proof. by intros ? ->. Qed.

Lemma existsb_none {A} (p : A → bool) l : existsb p l = false → Forall (λ x, p x = false) l.
Proof. induction l as [|x l IH]; [constructor|]. cbn. intros [??]%orb_false_iff. constructor; auto. Qed.

Lemma wp_advanceAtomicBatch past operation revision :
  atomic = true → Inv (told past) operation → live operation →
  wp permitted (advanceAtomicBatch plan operation revision) past BatchReturn BatchReturn.
Proof.
  intros Hat HI Hlive. unfold advanceAtomicBatch. destruct (forallb _ _) eqn:Hall.
  { split_and!; [done..|]. apply Forall_forall. intros item Hin. rewrite forallb_forall in Hall.
    by apply Hall, list_elem_of_In. }
  destruct (existsb _ _) eqn:Hex; [done|]. apply existsb_none in Hex. pose proof (not_all_some _ _ Hall) as Hne.
  apply wp_bind, wp_batch_requests; [done..|]. intros past1 operation1 requests Hb.
  pose proof (batching_requests _ _ _ _ _ Hb) as [Hstarted Hreqs].
  destruct (quiet_spec _ _ _ (bt_quiet _ _ _ _ _ _ Hb) HI) as (HI1 & _). rewrite (bt_operation _ _ _ _ _ _ Hb).
  assert (Hin1 : ∃ item, item ∈ op_Actions operation1 ∧ oa_Status item = ActionInFlight).
  { destruct Hstarted as [|x y ? ? (_ & ? & _)]; [done|]. exists y. split; [by left|done]. }
  apply wp_bind.
  eapply (wp_touch_and_save _ past1 _ operation StatusWriting (op_Actions operation1)); [done|done| |done| |done].
  - split.
    + eapply Forall2_impl; [exact Hstarted|]. by intros ?? [? _].
    + right. by apply Exists_exists.
    + done.
    + intros Hfine. eapply Forall2_Forall_r; [exact Hstarted|]. apply Forall_true. intros ? ? (_ & _ & Hf). auto.
  - intros t past2 revision2 operation2 Hpast2 HI2. apply (wp_stage past2 operation2 requests); [done..| | |].
    + intros Hnil. destruct Hin1 as (item & Hin & _). change (op_Actions operation2) with (op_Actions operation1) in Hnil.
      rewrite Hnil in Hin. by apply elem_of_nil in Hin.
    + by rewrite Hpast2.
    + eapply Forall2_impl; [exact Hreqs|]. intros item request (Hin & value & -> & Hv). split; [done|].
      exists value. split; [done|]. rewrite Hpast2. unfold value_known in *. destruct (nonempty _); [|done]. by do 2 right.
Qed.

End Session.

(** ** The engine *)

(** The state in which [advance] is entered: the operation was just saved or
    loaded, and its plan was checked. *)
Record entered (plan : ProviderPlan) (facts : list fact) (operation : Operation) : Prop := {
  en_journal : journal facts (op_ID operation) = Some operation;
  en_plan : the_plan facts = Some plan;
  en_checked : checked plan (since_plan facts);
  en_match : operationMatchesPlan operation plan = true;
  en_fit : fine facts → fit operation;
  en_born : fine facts → ∀ t c, not_before facts t → created operation = Some c → c ≤ truncate_second t;
}.

Lemma entered_Inv plan caps metadata target facts operation :
  entered plan facts operation → Inv plan caps metadata (Metadata target metadata :: CapabilitiesAre caps :: facts) operation.
Proof.
  intros [Hj Hp Hc Hm Hf Hb]. split; try done; [by do 2 apply checked_told|].
  intros Hfine t c Hnb. apply Hb; [done|]. by do 2 apply not_before_tail in Hnb.
Qed.

Lemma sofar_mono (P P' : OperationAction → Prop) indices operation :
  (∀ item, P item → P' item) → sofar P indices operation → sofar P' indices operation.
Proof. intros HP (i & ? & ? & Hall). exists i. split_and!; [done..|]. eapply Forall_impl; [exact Hall|done]. Qed.

Lemma wp_write_loop plan caps metadata past operation revision Q :
  (atomic = true → Forall (λ item, written_status (oa_Status item) = true) (op_Actions operation)) →
  Inv plan caps metadata (told past) operation → terminal_status (op_Status operation) = false →
  (∀ past' operation' revision', Inv plan caps metadata (told past') operation' →
    terminal_status (op_Status operation') = false →
    Forall (λ item, written_status (oa_Status item) = true) (op_Actions operation') →
    List.length (op_Actions operation') = List.length (op_Actions operation) → Q past' (operation', revision')) →
  wp permitted (for_each (write_action plan caps metadata) (List.seq 0 (List.length (op_Actions operation)))
    (operation, revision)) past (λ past o, outcome_ok (told past) o) Q.
Proof.
  intros Hat HI Hlive HQ.
  eapply (wp_for_each _ _ _ _ _ _ _ (λ indices past st,
    (atomic = true → Forall (λ item, written_status (oa_Status item) = true) (op_Actions (fst st))) ∧
    Inv plan caps metadata (told past) (fst st) ∧ terminal_status (op_Status (fst st)) = false ∧
    List.length (op_Actions (fst st)) = List.length (op_Actions operation) ∧
    sofar (λ item, written_status (oa_Status item) = true) indices (fst st))).
  - split_and!; [done..|apply sofar_start].
  - intros past1 [operation1 revision1] index indices (Hat1 & HI1 & Hlive1 & Hlen1 & Hso1). cbn [fst] in *.
    apply (wp_write_action plan caps metadata); [done..|by eapply sofar_lt|].
    intros past2 operation2 revision2 HI2 Hlive2 (item2 & Hw2 & Hacts). cbn [fst]. split_and!; [|done|done| |].
    + intros Ha. rewrite Hacts. apply Forall_insert; auto.
    + by rewrite Hacts, length_insert.
    + by eapply sofar_next.
  - intros past1 [operation1 revision1] (_ & HI1 & Hlive1 & Hlen1 & Hso1). cbn [fst] in *.
    apply HQ; [done..| |done]. by apply sofar_end.
Qed.

Lemma sofar_nodup P indices operation : sofar P indices operation → NoDup indices.
Proof. intros (i & -> & _). apply NoDup_ListNoDup, seq_NoDup. Qed.

(** A limited action among those done. *)
Definition limited_before (indices : list nat) (operation : Operation) : Prop :=
  ∃ j item, (j ∉ indices) ∧ op_Actions operation !! j = Some item ∧ oa_Status item = ActionLimited.

Lemma wp_verify_loop plan caps metadata past operation revision Q :
  verifying plan caps metadata past operation →
  (∀ past' operation' revision' limited', verifying plan caps metadata past' operation' →
    status_meaning (if limited' : bool then StatusLimited else StatusReady) (op_Actions operation') →
    Q past' (operation', revision', limited')) →
  wp permitted (for_each (verify_action plan caps) (List.seq 0 (List.length (op_Actions operation)))
    (operation, revision, false)) past (λ past o, outcome_ok (told past) o) Q.
Proof.
  intros Hv HQ.
  eapply (wp_for_each _ _ _ _ _ _ _ (λ indices past st, let '(operation, _, limited) := st in
    verifying plan caps metadata past operation ∧ sofar (verified_so_far limited) indices operation ∧
    (limited = true → limited_before indices operation))).
  - split_and!; [done|apply sofar_start|done].
  - intros past1 [[operation1 revision1] limited1] index indices (Hv1 & Hso1 & Hl1).
    apply (wp_verify_action plan caps metadata); [done|by eapply sofar_lt|].
    intros past2 operation2 revision2 limited2 Hv2 Hle (item2 & Hitem2 & Hacts & Hlim). split_and!; [done| |].
    + eapply sofar_next; [|done..]. eapply sofar_mono; [|done]. intros item [Hver Hnot]. split; [done|].
      intros ->. apply Hnot. destruct limited1; [by specialize (Hle eq_refl)|done].
    + intros H2. pose proof (sofar_lt _ _ _ _ Hso1) as Hlt. pose proof (sofar_nodup _ _ _ Hso1) as [Hni _]%NoDup_cons.
      destruct (Hlim H2) as [H1|Hst].
      * destruct (Hl1 H1) as (j & item & Hj & Hi & Hst). exists j, item. rewrite Hacts.
        apply not_elem_of_cons in Hj as [Hne Hj]. by rewrite list_lookup_insert_ne.
      * exists index, item2. rewrite Hacts. by rewrite list_lookup_insert_eq.
  - intros past1 [[operation1 revision1] limited1] (Hv1 & Hso1%sofar_end & Hl1). apply HQ; [done|].
    destruct limited1; cbn.
    + destruct (Hl1 eq_refl) as (j & item & _ & Hi & Hst). split; [by eapply Forall_impl; [done|]; intros ? [? _]|].
      apply Exists_exists. exists item. split; [by eapply list_elem_of_lookup_2|done].
    + eapply Forall_impl; [done|]. intros ? [_ ?]. auto.
Qed.

(** [advance] from a checked state: every call is permitted, and it returns as
    it promises. *)
Lemma wp_advance plan past operation revision :
  entered plan (told past) operation → terminal_status (op_Status operation) = false →
  wp permitted (advance plan operation revision) past (λ past o, outcome_ok (told past) o) (λ past o, outcome_ok (told past) o).
Proof.
  intros Hen Hlive. unfold advance. apply wp_ask; [done|]. intros caps. apply wp_ask; [done|].
  intros [metadata|err]; [|intros _; apply SanitizeError_ok].
  set (past1 := _ :: _ :: past).
  assert (HI1 : Inv plan caps metadata (told past1) operation) by by apply entered_Inv.
  apply wp_bind. apply (wp_mono _ _ _ (λ past o, outcome_ok (told past) o) _ (λ past' st, Inv plan caps metadata (told past') (fst st) ∧
    terminal_status (op_Status (fst st)) = false ∧ (atomic = true → Forall (λ item, written_status (oa_Status item) = true) (op_Actions (fst st)))) _); [done| |].
  2: { destruct atomic eqn:Hat; [|by split_and!].
    apply wp_bind, wp_enter. eapply wp_mono; [| |by eapply wp_advanceAtomicBatch].
    all: intros past2 [operation2 revision2 [err|]]; [done|by intros (? & ? & ?)]. }
  intros past2 [operation2 revision2] (HI2 & Hlive2 & Hat2). cbn [fst] in *.
  apply wp_bind, (wp_write_loop plan caps metadata); [done..|].
  intros past3 operation3 revision3 HI3 Hlive3 Hw3 Hlen3. apply wp_bind.
  eapply (wp_touch_and_save plan caps metadata returns past3 _ operation3 StatusWritten); [done|done| |done| |done].
  { split; [apply steps_refl|by right|done|]. intros Hfine. by eapply fit_items, iv_fit. }
  intros t4 past4 revision4 operation4 _ HI4. apply wp_bind.
  eapply (wp_touch_and_save plan caps metadata returns past4 _ operation4 StatusVerifying); [done|done| |done| |done].
  { split; [apply steps_refl|by right|done|]. intros Hfine. by eapply fit_items, iv_fit. }
  intros t5 past5 revision5 operation5 _ HI5. apply wp_bind.
  replace (List.length (op_Actions operation2)) with (List.length (op_Actions operation5)) by done.
  apply (wp_verify_loop plan caps metadata); [by split|].
  intros past6 operation6 revision6 limited Hv6 Hm6. apply wp_bind.
  pose proof (vf_inv _ _ _ _ _ Hv6) as HI6.
  eapply (wp_touch_and_save plan caps metadata returns past6 _ operation6 (if limited then StatusLimited else StatusReady));
    [done|done| |by eapply verifying_live| |done].
  { split; [apply steps_refl|by right|by destruct limited|]. intros Hfine. by eapply fit_items, iv_fit. }
  intros t7 past7 revision7 operation7 _ HI7. split_and!; [apply HI7|by destruct limited|by right|].
  intros Hfine. by apply (iv_fit _ _ _ _ _ HI7).
Qed.


(** ** Plans in context *)

Definition harmless (f : fact) : Prop := match f with Saved _ | Loaded _ | GotPlan _ => False | _ => True end.

(** What is told without a load or a save. *)
Definition extends (facts facts' : list fact) : Prop := ∃ new, facts' = new ++ facts ∧ Forall harmless new.

Lemma extends_refl facts : extends facts facts.
Proof. by exists []. Qed.

Lemma extends_told f facts facts' : harmless f → extends facts facts' → extends facts (f :: facts').
Proof. intros Hf (new & -> & Hnew). exists (f :: new). split; [done|by constructor]. Qed.

Lemma extends_spec facts facts' :
  extends facts facts' →
  (∀ id, journal facts' id = journal facts id) ∧ the_plan facts' = the_plan facts ∧
  (fine facts' → fine facts) ∧ (∀ t, not_before facts' t → not_before facts t) ∧
  (∀ f, f ∈ facts → f ∈ facts') ∧ (∀ f, f ∈ since_plan facts → f ∈ since_plan facts').
Proof.
  intros (new & -> & Hnew). induction Hnew as [|f new Hf _ (IH1 & IH2 & IH3 & IH4 & IH5 & IH6)]; [done|].
  cbn [app]. split_and!.
  - by destruct f.
  - by destruct f.
  - intros ?%fine_tail. auto.
  - intros t ?%not_before_tail. auto.
  - intros f' Hf'. right. auto.
  - intros f' Hf'. destruct f; try done; right; auto.
Qed.

Definition error_ok (err : failure) : Prop :=
  match err with ProviderFailure e => Error_Validate e = Ok tt | ErrReconciliationRequired => False | Plain _ => True end.

Lemma error_outcome facts operation err : error_ok err → outcome_ok facts (returns operation err).
Proof. by destruct err; cbn. Qed.

Lemma actionsSupported_error actions caps err : actionsSupported actions caps = Some err → error_ok err.
Proof. induction actions as [|a l IH]; [done|]. cbn. destruct (supported caps a); [done|]. by intros [= <-]. Qed.

(** The plan was checked, now or, without the expiry, as of its creation. *)
Definition context_ok (plan : ProviderPlan) (enforceExpiry : bool) (facts facts' : list fact) (r : option failure) : Prop :=
  extends facts facts' ∧
  match r with
  | Some err => error_ok err
  | None =>
      checked plan (since_plan facts') ∧
      (enforceExpiry = true → ∃ t, Time t ∈ since_plan facts' ∧ Plan_Validate plan (truncate_second t) = Ok tt)
  end.

Lemma since_plan_told f facts : harmless f → since_plan (f :: facts) = f :: since_plan facts.
Proof. by destruct f. Qed.

Lemma wp_validatePlanContext plan enforceExpiry past :
  let Q := λ past' r, context_ok plan enforceExpiry (told past) (told past') r in
  wp permitted (validatePlanContext plan enforceExpiry) past Q Q.
Proof.
  intros Q. unfold validatePlanContext. split; [done|]. intros now. set (past1 := Event Call.Now now :: past).
  assert (H1 : extends (told past) (told past1)) by by apply extends_told, extends_refl.
  apply wp_bind.
  apply (wp_mono _ _ _ Q _ (λ past' t, past' = past1 ∧
    ((∃ now', Time now' ∈ since_plan (told past1) ∧ t = truncate_second now') ∨ parse_rfc3339 (pp_CreatedAt plan) = Some t) ∧
    (enforceExpiry = true → t = truncate_second now))); [done| |].
  2: { simpl. destruct enforceExpiry; simpl.
    - split_and!; [done| |done]. left. exists now. split; [by left|done].
    - destruct (parse_rfc3339 (pp_CreatedAt plan)); simpl; [by split_and!; [|right|]|done]. }
  intros past1' t (-> & Ht & Henf). destruct (Plan_Validate plan t) as [[]|msg] eqn:Hvalid; [|done].
  apply wp_ask; [done|]. intros [[]|msg]; [|split; [by apply extends_told|done]].
  apply wp_ask; [done|]. intros [[who_provider who_id]|err].
  2: { split; [by do 2 (apply extends_told; [done|])|apply SanitizeError_ok]. }
  cbn [id_Provider id_ID].
  destruct (String.eqb_spec who_provider (pp_Provider plan)) as [->|]; [|split; [by do 2 (apply extends_told; [done|])|done]].
  destruct (String.eqb_spec who_id (pp_ProviderIdentity plan)) as [->|]; [|split; [by do 2 (apply extends_told; [done|])|done]].
  apply wp_ask; [done|]. intros [m|err].
  2: { split; [by do 3 (apply extends_told; [done|])|apply SanitizeError_ok]. }
  destruct (sameProviderTarget _ _) eqn:Hsame; [|split; [by do 3 (apply extends_told; [done|])|done]]. cbn [negb].
  destruct (nonempty _ && _) eqn:Hrev; [split; [by do 3 (apply extends_told; [done|])|done]|].
  apply wp_ask; [done|]. intros caps. split; [by do 4 (apply extends_told; [done|])|].
  destruct (actionsSupported (pp_Actions plan) caps) as [err|] eqn:Hsup; [by eapply actionsSupported_error|].
  split; [split|].
  - exists t. split; [done|]. destruct Ht as [(now' & Hnow & ->)|Ht]; [left|by right].
    exists now'. split; [|done]. by do 4 right.
  - by do 3 right; left.
  - by do 2 right; left.
  - exists m. split_and!; [by right; left|done|]. intros Hne. apply andb_false_iff in Hrev as [Hrev|Hrev].
    + unfold nonempty in Hrev. by destruct (String.eqb_spec (pp_ProviderRevision plan) "").
    + apply negb_false_iff in Hrev. by apply String.eqb_eq in Hrev.
  - exists caps. split; [by left|done].
  - intros He. exists now. split; [by do 4 right; left|]. by rewrite <-Henf.
Qed.

(** ** Apply and Resume *)

Lemma sameStrings_refl m : sameStrings m m = true.
Proof.
  unfold sameStrings. rewrite bool_decide_eq_true_2 by done. simpl. apply forallb_forall. intros [k v] Hin.
  apply list_elem_of_In, elem_of_map_to_list in Hin. rewrite Hin. apply String.eqb_refl.
Qed.

Lemma fresh_matches plan id now : operationMatchesPlan (fresh_operation plan id now) plan = true.
Proof.
  unfold operationMatchesPlan, sameBinding. cbn -[sameStrings]. rewrite !String.eqb_refl, Z.eqb_refl, sameStrings_refl. simpl.
  apply bool_decide_eq_true. rewrite <-list_fmap_compose. by apply list_fmap_id.
Qed.

Lemma fresh_fit plan id now :
  Operation_Validate (fresh_operation plan id now) = Ok tt → fit (fresh_operation plan id now).
Proof. intros Hv. split; [done|]. apply Forall_forall. by intros item (a & -> & _)%list_elem_of_fmap. Qed.

(** What [Apply] knows when it has saved the new operation. *)
Lemma entered_fresh plan id t facts :
  let operation := fresh_operation plan id (format_rfc3339 (truncate_second t)) in
  Operation_Validate operation = Ok tt → the_plan facts = Some plan → checked plan (since_plan facts) →
  entered plan (Saved operation :: Time t :: facts) operation.
Proof.
  intros operation Hv Hplan Hck. split; cbn.
  - by rewrite String.eqb_refl.
  - done.
  - by do 2 apply checked_told.
  - apply fresh_matches.
  - intros _. by apply fresh_fit.
  - intros (_ & Ht & _) t' c Hnb Hc. apply not_before_tail, Forall_cons in Hnb as [Hle _].
    unfold created in Hc. cbn in Hc. rewrite canonical_now in Hc by done. injection Hc as <-.
    unfold truncate_second, unix. apply Z.mul_le_mono_nonneg_r; [done|]. by apply Z.div_le_mono.
Qed.

Abbreviation Return := (λ past o, outcome_ok (told past) o).

(** From the confirmations on: the operation is created, saved and advanced. *)
Lemma wp_start plan past :
  the_plan (told past) = Some plan → checked plan (since_plan (told past)) → confirmed plan (since_plan (told past)) →
  wp permitted (start_operation plan) past Return Return.
Proof.
  intros Hplan Hck Hcf. unfold start_operation. split; [done|]. intros [raw|]; [|done]. split; [done|]. intros t.
  set (operation := fresh_operation plan (hex raw) (format_rfc3339 (truncate_second t))).
  change (wp permitted (match (match Operation_Validate operation with Ok _ => Ok operation | Err msg => Err msg end) with
    | Err msg => mret (returns zero_operation (Plain msg))
    | Ok operation =>
        saved ← ask (Call.SaveOperation operation 0);
        match saved with
        | Err msg => mret (returns zero_operation (Plain ("save confirmed rollout operation: " +:+ msg)))
        | Ok revision => advance plan operation revision
        end
    end) (Event Call.Now t :: Event (Call.Random 18) (Some raw) :: past) Return Return).
  destruct (Operation_Validate operation) as [[]|msg] eqn:Hv; [|done].
  assert (Hcf' : confirmed plan (Time t :: Other :: since_plan (told past))).
  { destruct Hcf as [(now & Hnow & Hvalid) Ha Hd]. split; [exists now; split; [by do 2 right|done]|by do 2 right|].
    intros Hh. do 2 right. auto. }
  apply wp_ask.
  { split; [|done]. left. split; [|done]. exists plan, raw, (format_rfc3339 (truncate_second t)).
    split_and!; [done|by do 2 apply checked_told|exact Hcf'|done|done]. }
  intros [revision|msg]; [|done]. apply wp_advance; [|done].
  apply (entered_fresh plan (hex raw) t (Other :: told past)); [done|done|by apply checked_told].
Qed.

Lemma wp_Apply planID confirm past : wp permitted (Apply planID confirm) past Return Return.
Proof.
  unfold Apply. destruct configured; [|done]. cbn [negb]. apply wp_ask; [done|]. intros [[plan revision0]|msg]; [|done].
  case_bool_decide; [done|]. eapply wp_call; [apply wp_validatePlanContext|].
  intros past1 [err|] [Hext1 Hr]; [by apply error_outcome|]. destruct Hr as [Hck1 Hnow].
  destruct (Hnow eq_refl) as (now & Hnow1 & Hvalid). destruct confirm; [|done]. cbn [negb].
  pose proof (extends_spec _ _ Hext1) as (_ & Hplan1 & _).
  apply wp_ask; [done|]. intros []; [|done]. apply wp_bind. set (past2 := _ :: past1).
  assert (Hck2 : checked plan (since_plan (told past2))) by by apply checked_told.
  destruct (hasDestructive (pp_Actions plan)) eqn:Hd.
  - apply wp_ask; [done|]. intros []; [|done]. apply wp_start; [done|by apply checked_told|]. split.
    + exists now. split; [by do 2 right|done].
    + by right; left.
    + intros _. by left.
  - apply wp_start; [done|done|]. split; [exists now; split; [by right|done]|by left|by rewrite Hd].
Qed.

Lemma first_error_ok operation : Operation_Validate operation = Ok tt → error_ok (first_error operation).
Proof.
  intros [_ Hitems _ _]%Operation_Validate_parts. unfold first_error.
  destruct (head (omap oa_LastError (op_Actions operation))) as [err|] eqn:E; [|done].
  assert (Hin : err ∈ omap oa_LastError (op_Actions operation)) by (destruct (omap _ _); [done|injection E as ->; by left]).
  apply list_elem_of_omap in Hin as (item & Hin & Herr). rewrite Forall_forall in Hitems.
  pose proof (io_error _ _ (Hitems item Hin)) as He. rewrite Herr in He. cbn in He. apply is_ok_true in He as [[] He]. done.
Qed.

Lemma wp_Resume operationID past : wp permitted (Resume operationID) past Return Return.
Proof.
  unfold Resume. destruct configured; [|done]. cbn [negb]. apply wp_ask; [done|]. intros [[operation revision]|msg]; [|done].
  set (past1 := _ :: past).
  assert (Hj : journal (told past1) (op_ID operation) = Some operation) by (cbn; by rewrite String.eqb_refl).
  assert (Hfit : fine (told past1) → fit operation) by (intros (? & _); done).
  destruct (terminal_status (op_Status operation)) eqn:Hlive.
  { split_and!; [done..|left; by left|]. intros Hfine. by apply Hfit. }
  case_bool_decide.
  { assert (Hok : fine (told past1) → error_ok (first_error operation)) by (intros Hfine; by apply first_error_ok, Hfit).
    unfold returns, first_error in *. cbn. by destruct (head _); cbn in *. }
  apply wp_ask; [done|]. intros [[plan revision1]|msg]; [|done].
  destruct (operationMatchesPlan operation plan) eqn:Hm; [|done]. cbn [negb].
  eapply wp_call; [apply wp_validatePlanContext|].
  intros past2 [err|] [Hext Hr]; [by apply error_outcome|]. destruct Hr as [Hck _].
  destruct (extends_spec _ _ Hext) as (Hj2 & Hplan2 & Hfine2 & Hnb2 & _). apply wp_advance; [|done]. split.
  - rewrite Hj2. done.
  - by rewrite Hplan2.
  - done.
  - done.
  - intros Hf. apply Hfit. by apply Hfine2 in Hf.
  - intros _ t c Hnb Hc. apply Hnb2 in Hnb. apply not_before_tail, Forall_cons in Hnb as [Hload _]. by apply Hload.
Qed.

(** ** Planning *)

Lemma observed_name_of kind m names :
  Forall2 (name_of kind m) names (if bool_decide (kind = PlanKindBindingNames) then observed_name m <$> names else names).
Proof.
  unfold name_of. case_bool_decide as Hk.
  - apply Forall2_fmap_r, Forall_Forall2_diag, Forall_true. intros asked. split_and!; try done.
    unfold observed_name, variable_of. cbn [pn_State]. destruct (ms_Variables m !! pn_Service asked) as [variables|]; [|by right]. cbn.
    destruct (variables !! pn_Name asked) as [variable|] eqn:E; [|right; split; [done|]; intros; simplify_eq].
    case_bool_decide as Hp; [left|right]; (split; [done|]); [by exists variables, variable|]. intros; by simplify_eq.
  - apply Forall_Forall2_diag, Forall_true. intros asked. by split_and!.
Qed.

Ltac planning_stops events := exists events; split; [done|]; split; [by repeat constructor|]; by repeat constructor.

Lemma wp_Plan input past (Q := λ past' r, ∃ events, past' = events ++ past ∧ planned_ok input events r) :
  wp permitted (Engine_Plan input) past Q Q.
Proof.
  unfold Engine_Plan. destruct configured; [|planning_stops (@nil event)]. cbn [negb]. apply wp_ask; [done|]. intros caps.
  set (e1 := Event Call.Capabilities caps). destruct (cap_ReadMetadata caps) eqn:Hread; [|planning_stops [e1]]. cbn [negb].
  apply wp_ask; [done|]. intros [[who id]|err]; set (e2 := Event Call.Identity _).
  2: { exists [e2; e1]. split; [done|]. split; [by repeat constructor|]. split_and!; [done|by repeat constructor|apply SanitizeError_ok]. }
  cbn [id_Provider id_ID]. destruct (negb (nonempty who) || negb (nonempty id)); [planning_stops [e2; e1]|]. apply wp_ask; [done|].
  intros [m|err]; set (e3 := Event (Call.Inspect _) _).
  2: { exists [e3; e2; e1]. split; [done|]. split; [by repeat constructor|]. split_and!; [done|by repeat constructor|apply SanitizeError_ok]. }
  destruct (sameProviderTarget _ _) eqn:Hsame; [|planning_stops [e3; e2; e1]]. cbn [negb].
  destruct (actionsSupported _ _) as [err|] eqn:Hsup.
  { exists [e3; e2; e1]. split; [done|]. split; [by repeat constructor|]. split_and!; [done|by repeat constructor|].
    apply actionsSupported_error in Hsup. by destruct err. }
  split; [done|]. intros t. set (e4 := Event Call.Now t).
  set (raw := new_plan input (if bool_decide (in_Kind input = PlanKindBindingNames) then observed_name m <$> in_Names input
    else in_Names input) {| id_Provider := who; id_ID := id |} m (truncate_second t)).
  set (plan := with_digest (ComputeDigest raw) raw). change (wp permitted (
    _ ← match Plan_Validate plan (truncate_second t) with Ok _ => mret tt | Err msg => Exit (zero_plan, Some (Plain msg)) end;
    snapshot ← ask (Call.ValidateSnapshot plan);
    _ ← match snapshot with Ok _ => mret tt | Err msg => Exit (zero_plan, Some (Plain msg)) end;
    saved ← ask (Call.SavePlan plan 0);
    match saved with
    | Ok _ => mret (plan, None)
    | Err msg => mret (zero_plan, Some (Plain ("save encrypted provider plan: " +:+ msg)))
    end) (e4 :: e3 :: e2 :: e1 :: past) Q Q).
  destruct (Plan_Validate plan (truncate_second t)) as [[]|msg] eqn:Hv; [|planning_stops [e4; e3; e2; e1]]. split; [done|].
  intros [[]|msg]; set (e5 := Event (Call.ValidateSnapshot _) _); [|planning_stops [e5; e4; e3; e2; e1]]. apply wp_ask.
  - split; [done|]. exists t, m, caps, (told past). split_and!; done.
  - intros [revision|msg]; set (e6 := Event (Call.SavePlan _ _) _); [|planning_stops [e6; e5; e4; e3; e2; e1]].
    exists [e6; e5; e4; e3; e2; e1]. split; [done|]. split; [by repeat constructor|]. exists revision, t, m, [e2; e1]. split; [|done].
    split; [done..| |done|done]. apply observed_name_of.
Qed.
End Refinement.
