(* ===== verification/RolloutProperties.v ===== *)
(** What the rollout engine guarantees, over any provider, store, clock and
    user: consequences of the protocol it keeps. *)
From S2P Require Import Prelude Timestamp Text Secure Provider RolloutPlan RolloutEngine RolloutValid RolloutProtocol RolloutRefinement.
From stdpp Require Import options.

(** ** Sequences of commands *)

Inductive command :=
| CPlan (input : PlanInput)
| CApply (planID : string) (confirm : bool)
| CResume (operationID : string).

(** What a command returns. *)
Inductive answer_of_command := Planned (result : planned) | Ran (result : outcome).

Section Properties.
Context {crypto : Crypto} {codec : PlanCodec} {engine : Engine} {W : Type} {world : World W}.

Definition command_flow (c : command) : flow answer_of_command answer_of_command :=
  match c with
  | CPlan input => result ← enter (Engine_Plan input); mret (Planned result)
  | CApply planID confirm => result ← enter (Apply planID confirm); mret (Ran result)
  | CResume operationID => result ← enter (Resume operationID); mret (Ran result)
  end.

(** What a command may return after what was told; planning, from its own calls. *)
Definition answer_ok (c : command) (past past' : history) (r : answer_of_command) : Prop :=
  match c, r with
  | CPlan input, Planned result => ∃ events, past' = events ++ past ∧ planned_ok input events result
  | (CApply _ _ | CResume _), Ran result => outcome_ok (told past') result
  | _, _ => False
  end.

(** Commands one after the other: what was asked and answered. *)
Fixpoint session (commands : list command) (w : W) (past : history) : history * W :=
  match commands with
  | [] => (past, w)
  | c :: commands => let '(past, _, w) := run (command_flow c) w past in session commands w past
  end.

Lemma command_permitted c w past :
  lawful permitted past →
  let '(past', r, _) := run (command_flow c) w past in lawful permitted past' ∧ answer_ok c past past' r.
Proof.
  intros Hpast. apply (wp_run permitted (command_flow c) past (answer_ok c past) w); [|done].
  destruct c; (eapply wp_call; [first [apply wp_Plan|apply wp_Apply|apply wp_Resume]|]); by intros.
Qed.

Lemma session_lawful commands w past : lawful permitted past → lawful permitted (fst (session commands w past)).
Proof.
  revert w past. induction commands as [|c l IH]; intros w past Hpast; [done|]. cbn.
  pose proof (command_permitted c w past Hpast) as Hc. destruct (run (command_flow c) w past) as [[past' r] w'].
  apply IH, Hc.
Qed.

Lemma session_answered commands w past :
  Forall (answered (W:=W)) past → Forall (answered (W:=W)) (fst (session commands w past)).
Proof.
  revert w past. induction commands as [|c l IH]; intros w past Hpast; [done|]. cbn.
  pose proof (run_answered (command_flow c) w past Hpast) as Hr. destruct (run (command_flow c) w past) as [[past' r] w'].
  by apply IH.
Qed.

(** C2: the engine refines its protocol.  After any sequence of plannings, applications and
    resumptions, over any provider, store, clock and user, a further command makes only
    calls that the protocol permits at their time, and what it returns is what the
    protocol allows.  Planning reads, and returns the plan of its input that it saved,
    with the target, identity, revision and names the provider just showed, or saves
    nothing; the others return a final operation as journaled, a stop for reconciliation,
    or a safe error, and panic at most where the clock ran back, a stored operation was
    not fit or a counter was exhausted. *)
Theorem engine_refines_protocol commands c w :
  let '(past, w') := session commands w [] in
  let '(past', result, _) := run (command_flow c) w' past in
  lawful permitted past' ∧ answer_ok c past past' result.
Proof.
  pose proof (session_lawful commands w [] I) as Hl. destruct (session commands w []) as [past w'].
  apply command_permitted, Hl.
Qed.

(** ** Reading a history *)

Lemma lawful_at newer X (c : call X) x older :
  lawful permitted (newer ++ Event c x :: older) → permitted older X c ∧ lawful permitted older.
Proof. intros H%lawful_app. exact H. Qed.

Lemma last_told_in facts f : last_told facts = Some f → f ∈ facts.
Proof.
  induction facts as [|g facts IH]; [done|].
  destruct g; cbn; intros Hg; first [injection Hg as <-; by left|right; by apply IH].
Qed.

Lemma the_metadata_in facts m : the_metadata facts = Some m → ∃ target, Metadata target m ∈ facts.
Proof.
  induction facts as [|g facts IH]; [done|].
  intros Hg. destruct g; try (destruct (IH Hg) as [tg Htg]; exists tg; by right). injection Hg as ->. eexists. by left.
Qed.

Lemma the_capabilities_in facts c : the_capabilities facts = Some c → CapabilitiesAre c ∈ facts.
Proof.
  induction facts as [|g facts IH]; [done|].
  destruct g; cbn; intros Hg; first [injection Hg as <-; by left|right; by apply IH].
Qed.

(** ** Where a written action comes from *)

(** The provider said that a write with this key did not happen. *)
Definition failed_safely (facts : list fact) (key : string) : Prop :=
  ∃ operation err, err_Retry (SanitizeError operation err) ≠ RetryAmbiguous ∧
    ((∃ request, WriteFailed request err ∈ facts ∧ wr_IdempotencyKey request = key) ∨
     (∃ requests, StageFailed requests err ∈ facts ∧ key ∈ wr_IdempotencyKey <$> requests)).

(** The metadata of the provider shows the variable to be absent. *)
Definition proved_absent (facts : list fact) (action : Action) : Prop :=
  ac_Operation action ≠ "revoke" ∧ ∃ target m variable, Metadata target m ∈ facts ∧
    variable_of m (ac_Service action) (ac_Name action) = Some variable ∧ vm_Presence variable = PresenceAbsent.

(** What became of an item since it was loaded. *)
Record since (facts : list fact) (loaded item : OperationAction) : Prop := {
  sc_action : oa_Action item = oa_Action loaded;
  sc_key : oa_WriteKey item = oa_WriteKey loaded;
  sc_written : written_status (oa_Status loaded) = true → written_status (oa_Status item) = true;
  sc_flight : oa_Status loaded = ActionInFlight →
    oa_Status item = ActionInFlight ∨ written_status (oa_Status item) = true ∨
    failed_safely facts (oa_WriteKey loaded) ∨ proved_absent facts (oa_Action loaded);
}.

Lemma failed_safely_told f facts key : failed_safely facts key → failed_safely (f :: facts) key.
Proof.
  intros (o & err & Hr & [(r & Hin & ?)|(r & Hin & ?)]); exists o, err; (split; [done|]); [left|right];
    exists r; (split; [by right|done]).
Qed.

Lemma proved_absent_told f facts action : proved_absent facts action → proved_absent (f :: facts) action.
Proof. intros (Hne & t & m & v & Hin & ?). split; [done|]. exists t, m, v. split; [by right|done]. Qed.

Lemma since_told f facts loaded item : since facts loaded item → since (f :: facts) loaded item.
Proof.
  intros [Ha Hk Hw Hf]. split; try done. intros Hl.
  destruct (Hf Hl) as [?|[?|[?|?]]]; auto using failed_safely_told, proved_absent_told.
Qed.

Lemma reconcileAction_pending item m now item' :
  reconcileAction item m now = Some item' →
  written_status (oa_Status item') = true ∨
  ac_Operation (oa_Action item) ≠ "revoke" ∧ ∃ variable,
    variable_of m (ac_Service (oa_Action item)) (ac_Name (oa_Action item)) = Some variable ∧
    vm_Presence variable = PresenceAbsent.
Proof.
  unfold reconcileAction. destruct (_ && String.eqb _ (oa_WriteKey item)); [intros [= <-]; by left|].
  destruct (String.eqb_spec (ac_Operation (oa_Action item)) "revoke") as [|Hne]; cbn [andb negb].
  - destruct (bool_decide _); [intros [= <-]; by left|done].
  - destruct (bool_decide _) eqn:Hp; [|done]. intros _. right. split; [done|]. apply bool_decide_eq_true in Hp.
    destruct (variable_of _ _ _) as [v|]; [by exists v|done].
Qed.

Lemma failed_pending operation err facts key status :
  (∃ request, WriteFailed request err ∈ facts ∧ wr_IdempotencyKey request = key) ∨
  (∃ requests, StageFailed requests err ∈ facts ∧ key ∈ wr_IdempotencyKey <$> requests) →
  status = ActionInFlight →
  match err_Retry (SanitizeError operation err) with RetrySafe | RetryNever => ActionPending | _ => status end = ActionInFlight ∨
  failed_safely facts key.
Proof.
  intros Hin ->. destruct (err_Retry _) eqn:E; auto; right; exists operation, err; (split; [by rewrite E|done]).
Qed.

Lemma item_step_written last c m item item' :
  item_step last c m item item' → written_status (oa_Status item) = true → written_status (oa_Status item') = true.
Proof.
  destruct 1 as [|? Hw|? ? ? Hin| ? ? ? ? ? Hin| ? ? ? ? Hin| |? ? ? ? Hin| | |]; intros Hwr; try done;
    try (rewrite Hin in Hwr; done); try congruence; cbn; by case_bool_decide.
Qed.

Lemma since_step facts loaded item item' :
  since facts loaded item →
  item_step (last_told facts) (the_capabilities facts) (the_metadata facts) item item' →
  since facts loaded item'.
Proof.
  intros [Ha Hk Hw Hf] Hs. pose proof (item_step_same _ _ _ _ _ Hs) as [Ha' Hk'].
  split; [by rewrite Ha'|by rewrite Hk'|by eauto using item_step_written|]. intros Hl.
  destruct (Hf Hl) as [Hin|[Hwr|[?|?]]]; [|by eauto using item_step_written|by eauto..].
  destruct Hs as [|? Hw0|m now item' _ Hm Hrec|? ? ? ? ? ?|request err Hlast Hkey _|? ? ? ? ? ?|requests err Hlast Hkey _|? ? ? ? ? ?|? ? ? ? ?|? ? ? ?];
    cbn; auto.
  - destruct (reconcileAction_pending _ _ _ _ Hrec) as [?|(Hne & v & Hv & Habs)]; [auto|].
    do 3 right. destruct (the_metadata_in _ _ Hm) as [t Ht]. rewrite <-Ha. split; [done|]. by exists t, m, v.
  - rewrite <-Hk. apply last_told_in in Hlast.
    destruct (failed_pending "write" err facts (oa_WriteKey item) ActionInFlight) as [->|?]; auto.
    left. by exists request.
  - rewrite <-Hk. apply last_told_in in Hlast.
    destruct (failed_pending "stage" err facts (oa_WriteKey item) (oa_Status item)) as [->|?]; auto.
    right. by exists requests.
  - right. left. by case_bool_decide.
Qed.
(** The operation was created from a plan that the user had confirmed... *)
Definition created_in (facts : list fact) (operation : Operation) : Prop :=
  ∃ plan raw newer older, facts = newer ++ older ∧ the_plan older = Some plan ∧ checked plan (since_plan older) ∧
    confirmed plan (since_plan older) ∧ operationMatchesPlan operation plan = true ∧ op_ID operation = hex raw ∧
    Forall (λ item, oa_WriteKey item = write_key (op_ID operation) (oa_Action item)) (op_Actions operation).

(** ... or loaded, and moved on from there. *)
Definition loaded_in (facts : list fact) (operation : Operation) : Prop :=
  ∃ loaded, Loaded loaded ∈ facts ∧ op_ID loaded = op_ID operation ∧
    Forall2 (since facts) (op_Actions loaded) (op_Actions operation).

Definition origin (facts : list fact) (operation : Operation) : Prop :=
  created_in facts operation ∨ loaded_in facts operation.

Lemma origin_told f facts operation : origin facts operation → origin (f :: facts) operation.
Proof.
  intros [(plan & raw & newer & older & -> & Hr)|(loaded & Hin & Hid & Hall)]; [left|right].
  - by exists plan, raw, (f :: newer), older.
  - exists loaded. split; [by right|]. split; [done|]. eapply Forall2_impl; [exact Hall|]. intros. by apply since_told.
Qed.

Lemma created_step facts operation operation' :
  created_in facts operation → evolves facts operation operation' → created_in facts operation'.
Proof.
  intros (plan & raw & newer & older & -> & Hp & Hck & Hcf & Hm & Hraw & Hkeys) (Heq & Hsteps & _).
  pose proof (steps_actions _ _ _ _ _ Hsteps) as Hacts.
  assert (Hid : op_ID operation' = op_ID operation) by by rewrite Heq.
  exists plan, raw, newer, older. split_and!; try done; [|by rewrite Hid|].
  - rewrite Heq. by apply matches_set.
  - rewrite Hid. clear -Hkeys Hsteps. induction Hsteps as [|x y l l' Hs _ IH]; [constructor|].
    apply Forall_cons in Hkeys as [Hk Hkeys]. constructor; [|by apply IH].
    apply item_step_same in Hs as [-> ->]. done.
Qed.

Lemma origin_step facts operation operation' :
  origin facts operation → evolves facts operation operation' → origin facts operation'.
Proof.
  intros [Hcr|(loaded & Hin & Hl & Hall)] Hev; [left; by eapply created_step|right].
  destruct Hev as (Heq & Hsteps & _). exists loaded. split; [done|]. split; [by rewrite Heq|].
  clear -Hall Hsteps. revert Hall. generalize (op_Actions loaded) as l0.
  induction Hsteps as [|x y l l' Hs _ IH]; intros l0 Hall; inversion Hall; subst; [constructor|].
  constructor; [by eapply since_step|by apply IH].
Qed.

Lemma since_refl facts item : since facts item item.
Proof. split; auto. Qed.

Lemma told_cons X (c : call X) x past : told (Event c x :: past) = fact_of (Event c x) :: told past.
Proof. done. Qed.

Lemma fresh_created facts operation : fresh operation facts → created_in facts operation.
Proof.
  intros (plan & raw & now & Hp & Hck & Hcf & -> & Hv). exists plan, raw, [], facts.
  split_and!; try done; [apply fresh_matches|]. cbn. apply Forall_forall. by intros item (a & -> & _)%list_elem_of_fmap.
Qed.

Lemma journal_origin past id operation :
  lawful permitted past → journal (told past) id = Some operation → origin (told past) operation.
Proof.
  revert id operation. induction past as [|[X c x] past IH]; intros id operation; [done|]. intros [Hc Hpast] Hj.
  assert (Hold : ∀ id operation, journal (told past) id = Some operation → origin (told (Event c x :: past)) operation).
  { intros id' op' Hj'. by eapply origin_told, IH. }
  destruct c as [| |target|request|request|requests|confirmation| |size|p expected|pid|saved expected|lid|p|b r rv];
    try (by eapply Hold; revert Hj; cbn; repeat case_match).
  - (* save *) destruct x as [revision|msg]; [|exact (Hold _ _ Hj)]. cbn in Hj.
    destruct (String.eqb_spec (op_ID saved) id) as [Hid|]; [|exact (Hold _ _ Hj)]. injection Hj as ->. apply origin_told.
    destruct Hc as [[[Hfresh _]|(op0 & Hj0 & Hev)] _].
    + left. by eapply fresh_created.
    + eapply origin_step; [by eapply IH|exact Hev].
  - (* load *) destruct x as [[loaded revision]|msg]; [|exact (Hold _ _ Hj)]. cbn in Hj.
    destruct (String.eqb_spec (op_ID loaded) id) as [Hid'|]; [|exact (Hold _ _ Hj)].
    injection Hj as ->. right. exists operation. split; [by left|]. split; [done|].
    apply Forall2_same_length_lookup_2; [done|]. intros i a b ??. simplify_eq. apply since_refl.
Qed.

(** What is known of an action that is written: the user confirmed it in these
    commands; or the operation was loaded with it unwritten, and where it was in
    flight a new attempt is harmless: the provider takes repeated writes, or said
    that the earlier one did not happen, or shows the variable to be absent. *)
Definition authorized (facts : list fact) (plan : ProviderPlan) (item : OperationAction) : Prop :=
  (∃ plan0 raw newer older, facts = newer ++ older ∧ the_plan older = Some plan0 ∧ confirmed plan0 (since_plan older) ∧
     pp_Digest plan0 = pp_Digest plan ∧ pp_Actions plan0 = pp_Actions plan ∧
     oa_WriteKey item = write_key (hex raw) (oa_Action item)) ∨
  (∃ operation loaded, Loaded operation ∈ facts ∧ loaded ∈ op_Actions operation ∧
     oa_Action item = oa_Action loaded ∧ oa_WriteKey item = oa_WriteKey loaded ∧
     written_status (oa_Status loaded) = false ∧
     (atomic = false → oa_Status loaded = ActionInFlight →
        (∃ c, CapabilitiesAre c ∈ facts ∧ retriableWrite c = true) ∨
        failed_safely facts (oa_WriteKey loaded) ∨ proved_absent facts (oa_Action loaded))).

Lemma matches_same operation plan plan' :
  operationMatchesPlan operation plan = true → operationMatchesPlan operation plan' = true →
  pp_Digest plan = pp_Digest plan' ∧ pp_Actions plan = pp_Actions plan'.
Proof.
  unfold operationMatchesPlan. rewrite !andb_true_iff, !String.eqb_eq, !bool_decide_eq_true.
  intros Hp Hp'. destruct_and!. split; congruence.
Qed.

(** The save that announces a write. *)
Lemma saved_event past operation before :
  lawful permitted past → told past = Saved operation :: before →
  ∃ e older, past = e :: older ∧ before = told older ∧ lawful permitted older ∧
    (fresh operation before ∨ ∃ op0, journal before (op_ID operation) = Some op0 ∧ evolves before op0 operation).
Proof.
  destruct past as [|[X c x] older]; [done|]. intros [Hc Hold] Htold. rewrite told_cons in Htold.
  injection Htold as Hf <-. exists (Event c x), older. split_and!; [done..|].
  destruct c; cbn in Hf; repeat case_match; simplify_eq. destruct Hc as [[[Hfr _]|Hev] _]; auto.
Qed.

Lemma write_authorized newer request x older :
  lawful permitted (newer ++ Event (Call.Write request) x :: older) →
  atomic = false ∧ ∃ plan item value,
    the_plan (told older) = Some plan ∧ checked plan (since_plan (told older)) ∧
    oa_Action item ∈ pp_Actions plan ∧ request = action_request plan item value ∧
    value_known plan (oa_Action item) value (since_plan (told older)) ∧ authorized (told older) plan item.
Proof.
  intros Hl.
  apply lawful_at in Hl as [Hp Hl]. destruct Hp as (Hat & plan & operation & item & (Hlast & Hplan & Hm & Hck) & Hatt & Hin & value & -> & Hv).
  split; [done|]. exists plan, item, value. split_and!; try done.
  { destruct Hatt as (? & ? & ? & ? & ? & _ & _ & _ & Hi & _). eapply plan_action; [done|by eapply list_elem_of_lookup_2]. }
  destruct Hatt as (before & op0 & index & item0 & now & Htold & Hj & Hi0 & Hi & -> & Hunw & Hretry).
  destruct (saved_event _ _ _ Hl Htold) as (e & older' & _ & -> & Hl' & Hsave).
  assert (Hkey : oa_WriteKey (start_attempt now item0) = oa_WriteKey item0) by done.
  destruct (journal_origin _ _ _ Hl' Hj) as [Hcr|(loaded & Hinl & Hid & Hall)].
  - left. assert (Hcr' : created_in (told older') operation).
    { destruct Hsave as [Hfr|(op0' & Hj' & Hev)]; [by apply fresh_created|]. simplify_eq. by eapply created_step. }
    destruct Hcr' as (plan0 & raw & newer0 & older0 & Ht & Hp0 & _ & Hcf0 & Hm0 & Hraw & Hkeys).
    exists plan0, raw, (Saved operation :: newer0), older0. rewrite Htold, Ht.
    destruct (matches_same _ _ _ Hm0 Hm). split_and!; try done. rewrite <-Hraw.
    by eapply (Forall_lookup_1 _ _ _ _ Hkeys).
  - right. destruct (Forall2_lookup_r _ _ _ _ _ Hall Hi0) as (itemL & HiL & [Ha Hk Hw Hf]).
    exists loaded, itemL. rewrite Htold. split_and!; try done.
    + by right.
    + by eapply list_elem_of_lookup_2.
    + destruct (written_status (oa_Status itemL)) eqn:E; [|done]. rewrite Hw in Hunw; done.
    + intros _ HL. destruct (Hf HL) as [Hin0|[Hw0|[Hs|Hs]]].
      * left. destruct (Hretry Hin0) as (c & Hc & Hr). exists c. split; [|done]. right. by apply the_capabilities_in.
      * congruence.
      * right. left. by apply failed_safely_told.
      * right. right. by apply proved_absent_told.
Qed.

(** The operation that was saved last is the journal's. *)
Lemma last_saved past operation : lawful permitted past → last_told (told past) = Some (Saved operation) → origin (told past) operation.
Proof.
  intros Hl Hlast. eapply (journal_origin _ (op_ID operation)); [done|]. clear Hl. revert Hlast.
  induction (told past) as [|f facts IH]; [done|]. destruct f; cbn; try done; [|auto..]. intros [= ->]. by rewrite String.eqb_refl.
Qed.

(** What is known of an action whose value is in a batch. *)
Lemma staged_item_authorized facts operation plan item :
  origin facts operation → operationMatchesPlan operation plan = true → atomic = true →
  item ∈ op_Actions operation → oa_Status item = ActionInFlight → authorized facts plan item.
Proof.
  intros Horigin Hm Hat [i Hi]%list_elem_of_lookup Hs. destruct Horigin as [Hcr|(loaded & Hinl & Hid & Hall)].
  - left. destruct Hcr as (plan0 & raw & newer & older & Ht & Hp0 & _ & Hcf & Hm0 & Hraw & Hkeys).
    exists plan0, raw, newer, older. destruct (matches_same _ _ _ Hm0 Hm). split_and!; try done.
    rewrite <-Hraw. by eapply (Forall_lookup_1 _ _ _ _ Hkeys).
  - right. destruct (Forall2_lookup_r _ _ _ _ _ Hall Hi) as (itemL & HiL & [Ha Hk Hw Hf]). exists loaded, itemL.
    split_and!; [done|by eapply list_elem_of_lookup_2|done|done| |congruence].
    destruct (written_status (oa_Status itemL)) eqn:E; [|done]. rewrite Hs in Hw. by specialize (Hw eq_refl).
Qed.

(** The requests that an event sent to the provider to be written. *)
Definition sent_values (e : event) : option (bool * list WriteRequest) :=
  match e with
  | @Event _ X c x =>
      match c in Call.call X with
      | Call.Write request => Some (false, [request])
      | Call.Stage requests => Some (true, requests)
      | _ => None
      end
  end.

(** A value that may be sent for an item of the plan. *)
Definition sent_for (facts : list fact) (plan : ProviderPlan) (item : OperationAction) (request : WriteRequest) : Prop :=
  ∃ value, request = action_request plan item value ∧ value_known plan (oa_Action item) value (since_plan facts) ∧
    authorized facts plan item.

Lemma stage_authorized newer requests x older :
  lawful permitted (newer ++ Event (Call.Stage requests) x :: older) →
  atomic = true ∧ ∃ plan items, the_plan (told older) = Some plan ∧ checked plan (since_plan (told older)) ∧
    oa_Action <$> items = pp_Actions plan ∧ Forall2 (sent_for (told older) plan) items requests.
Proof.
  intros Hl. apply lawful_at in Hl as [(Hat & plan & operation & (Hlast & Hplan & Hm & Hck) & Hall) Hl].
  split; [done|]. exists plan, (op_Actions operation). split_and!; [done..| |].
  { unfold operationMatchesPlan in Hm. rewrite !andb_true_iff, bool_decide_eq_true in Hm. by destruct Hm as [_ <-]. }
  pose proof (last_saved _ _ Hl Hlast) as Horigin. apply Forall2_same_length_lookup_2; [by eapply Forall2_length|].
  intros i item request Hi Hr. destruct (Forall2_lookup_lr _ _ _ _ _ _ Hall Hi Hr) as (Hs & value & Hv). exists value.
  split_and!; [apply Hv..|]. eapply staged_item_authorized; [done..| |done]. by eapply list_elem_of_lookup_2.
Qed.

(** C3: every value that is sent to a provider, written or staged in a batch, is
    authorized.  Its request is for an action of the loaded plan, which was checked against
    the vault snapshot, the provider's identity and its target since it was loaded; the
    value is the planned revision of the record, or the public constant; a batch has one
    request for each action of the plan, in order, and is sent just to a provider that
    takes batches, a write to the others; and either the user confirmed the application
    of this plan, and its revocations once more, or a stored operation is continued whose
    action was not written before, where a write of unknown outcome is repeated only if the
    provider takes repeated writes, denied the earlier one, or shows the variable to be
    absent (batches are staged again without this, see [ambiguous_stage_is_repeated]). *)
Theorem writes_are_authorized commands w newer e older batch requests :
  fst (session commands w []) = newer ++ e :: older → sent_values e = Some (batch, requests) →
  atomic = batch ∧ ∃ plan items,
    the_plan (told older) = Some plan ∧ checked plan (since_plan (told older)) ∧
    (if batch then oa_Action <$> items = pp_Actions plan else Forall (λ item, oa_Action item ∈ pp_Actions plan) items) ∧
    Forall2 (sent_for (told older) plan) items requests.
Proof.
  intros Heq Hsent. pose proof (session_lawful commands w [] I) as Hl. rewrite Heq in Hl. destruct e as [X c x].
  destruct c; try discriminate Hsent; injection Hsent as <- <-; [|by eapply stage_authorized].
  destruct (write_authorized _ _ _ _ Hl) as (Hat & plan & item & value & Hp & Hck & Hin & Hreq & Hv & Ha).
  split; [done|]. exists plan, [item]. split_and!; [done..|by constructor|]. constructor; [by exists value|done].
Qed.

(** ** Honest stores *)

(** The operations that the store may hold under an ID: what was last saved or
    loaded, and what was in the saves since that were answered with an error. *)
Fixpoint possible (past : history) (id : string) : list Operation :=
  match past with
  | [] => []
  | @Event _ X c x :: past =>
      match c in Call.call X return X → list Operation with
      | Call.SaveOperation operation expected => λ saved,
          if negb (String.eqb (op_ID operation) id) then possible past id
          else match saved with
               | Ok _ => [operation]
               | Err _ => if (expected =? 0) && negb (bool_decide (possible past id = [])) then possible past id
                          else operation :: possible past id
               end
      | Call.LoadOperation _ => λ loaded,
          match loaded with
          | Ok (operation, _) => if String.eqb (op_ID operation) id then [operation] else possible past id
          | Err _ => possible past id
          end
      | _ => λ _, possible past id
      end x
  end.

(** A store that creates an operation only where there is none, and loads what it
    may hold. *)
Definition honest_event (past : history) (e : event) : Prop :=
  match e with
  | @Event _ X c x =>
      match c in Call.call X return X → Prop with
      | Call.SaveOperation operation expected => λ saved,
          match saved with Ok _ => expected = 0 → possible past (op_ID operation) = [] | Err _ => True end
      | Call.LoadOperation _ => λ loaded,
          match loaded with
          | Ok (operation, _) =>
              possible past (op_ID operation) = [] ∨ operation ∈ possible past (op_ID operation)
          | Err _ => True
          end
      | _ => λ _, True
      end x
  end.

Fixpoint honest (past : history) : Prop :=
  match past with [] => True | e :: past => honest_event past e ∧ honest past end.

(** No two saved actions share a key: the digests that make the keys do not
    collide. *)
Definition keys_distinct (facts : list fact) : Prop :=
  ∀ operation operation' i i' item item',
    Saved operation ∈ facts → Saved operation' ∈ facts →
    op_Actions operation !! i = Some item → op_Actions operation' !! i' = Some item' →
    oa_WriteKey item = oa_WriteKey item' → op_ID operation = op_ID operation' ∧ i = i'.

Lemma journal_possible past id operation :
  journal (told past) id = Some operation → operation ∈ possible past id.
Proof.
  induction past as [|[X c x] past IH]; [done|]. rewrite told_cons.
  destruct c as [| |target|request|request|requests|confirmation| |size|p expected|pid|saved expected|lid|p|b r rv];
    cbn; try (repeat case_match; by auto).
  - destruct x as [revision|msg]; destruct (String.eqb_spec (op_ID saved) id); cbn [negb]; auto.
    + intros [= ->]. by left.
    + intros Hj. destruct (_ && _); [auto|]. right. auto.
  - destruct x as [[loaded revision]|msg]; [|auto]. destruct (String.eqb_spec (op_ID loaded) id); [|auto].
    intros [= ->]. by left.
Qed.

(** The item [i] of the operation is written, in whatever the store may hold. *)
Definition settled (past : history) (id : string) (i : nat) : Prop :=
  possible past id ≠ [] ∧
  Forall (λ operation, ∃ item, op_Actions operation !! i = Some item ∧ written_status (oa_Status item) = true)
    (possible past id).

Lemma evolves_written facts operation operation' i item :
  evolves facts operation operation' → op_Actions operation !! i = Some item → written_status (oa_Status item) = true →
  ∃ item', op_Actions operation' !! i = Some item' ∧ written_status (oa_Status item') = true.
Proof.
  intros (_ & Hsteps & _) Hi Hw. destruct (Forall2_lookup_l _ _ _ _ _ Hsteps Hi) as (item' & Hi' & Hs).
  exists item'. split; [done|]. by eapply item_step_written.
Qed.

Lemma settled_event e past id i :
  lawful permitted (e :: past) → honest (e :: past) → settled past id i → settled (e :: past) id i.
Proof.
  destruct e as [X c x]. intros [Hc Hl] [Hh _] [Hne Hall]. unfold settled.
  destruct c as [| |target|request|request|requests|confirmation| |size|p expected|pid|saved expected|lid|p|b r rv]; try done.
  - (* save *) cbn [possible]. destruct (String.eqb_spec (op_ID saved) id) as [Hid|]; cbn [negb]; [|done].
    assert (Hnew : (expected = 0 → False) ∨ (∃ msg, x = Err msg) →
      (expected =? 0) && negb (bool_decide (possible past id = [])) = true ∨
      ∃ item, op_Actions saved !! i = Some item ∧ written_status (oa_Status item) = true).
    { intros Hcase. destruct Hc as [[[_ He]|(op0 & Hj0 & Hev)] _].
      - left. rewrite He, bool_decide_eq_false_2 by done. done.
      - right. rewrite Hid in Hj0. apply journal_possible in Hj0. rewrite Forall_forall in Hall.
        destruct (Hall op0 Hj0) as (item & Hi & Hw). by eapply evolves_written. }
    destruct x as [revision|msg].
    + split; [done|]. apply Forall_singleton. cbn in Hh. rewrite Hid in Hh.
      destruct Hnew as [Hn|?]; [left; by intros ?%Hh| |done].
      apply andb_true_iff in Hn as [He%Z.eqb_eq _]. by apply Hh in He.
    + destruct Hnew as [->|?]; [right; by exists msg|done|]. destruct (_ && _); [done|]. split; [done|by constructor].
  - (* load *) cbn [possible]. destruct x as [[loaded revision]|msg]; [|done].
    destruct (String.eqb_spec (op_ID loaded) id) as [Hid|]; [|done]. cbn in Hh. rewrite Hid in Hh.
    split; [done|]. apply Forall_singleton. rewrite Forall_forall in Hall. destruct Hh as [|Hin]; [done|]. by apply Hall.
Qed.

Lemma settled_later mid past id i :
  lawful permitted (mid ++ past) → honest (mid ++ past) → settled past id i → settled (mid ++ past) id i.
Proof.
  intros Hl Hh Hs. induction mid as [|[X c x] mid IH]; [done|]. apply settled_event; [done..|].
  apply IH; [apply Hl|apply Hh].
Qed.

Lemma honest_app newer past : honest (newer ++ past) → honest past.
Proof. induction newer as [|e newer IH]; [done|]. intros [_ H]. auto. Qed.

(** What the journal has as written stays so.  Over an honest store, and as
    long as no two write keys collide, once a save recorded an action as written,
    no later write of these commands, resumed or not, carries the key of that
    action. *)
Theorem written_actions_are_final commands w newer request x mid operation expected revision older i item :
  fst (session commands w []) =
    newer ++ Event (Call.Write request) x :: mid ++ Event (Call.SaveOperation operation expected) (Ok revision) :: older →
  honest (fst (session commands w [])) → keys_distinct (told (fst (session commands w []))) →
  op_Actions operation !! i = Some item → written_status (oa_Status item) = true →
  wr_IdempotencyKey request ≠ oa_WriteKey item.
Proof.
  intros Heq Hh Hk Hi Hw Hkey. pose proof (session_lawful commands w [] I) as Hl. rewrite Heq in *. clear Heq.
  set (past := mid ++ _ :: older) in *. apply lawful_at in Hl as [Hp Hl]. apply honest_app in Hh as [_ Hh].
  destruct Hp as (_ & plan & op2 & item2 & _ & Hatt & _ & value & -> & _).
  destruct Hatt as (before & op0 & index & item0 & now & Htold & Hj & Hi0 & Hi2 & -> & Hunw & _).
  assert (Hsaved2 : Saved op2 ∈ told past) by (rewrite Htold; by left).
  assert (Hsaved : Saved operation ∈ told past).
  { unfold past, told. rewrite fmap_app. apply elem_of_app. right. by left. }
  assert (Hsub : ∀ f, f ∈ told past → f ∈ told (newer ++ Event (Call.Write (action_request plan (start_attempt now item0) value)) x :: past)).
  { intros f Hf. unfold told. rewrite fmap_app. apply elem_of_app. right. by right. }
  destruct (Hk operation op2 i index item (start_attempt now item0)) as [Hid ->]; [auto..|].
  destruct mid as [|e mid].
  - (* the write follows the save of the written item itself *)
    injection Htold as <- <-. rewrite Hi in Hi2. by simplify_eq.
  - destruct (saved_event past op2 before Hl Htold) as (e' & older' & Hpast & -> & Hl' & _).
    unfold past in Hpast. injection Hpast as <- <-. cbn [app] in past.
    assert (Hset : settled (mid ++ Event (Call.SaveOperation operation expected) (Ok revision) :: older) (op_ID operation) index).
    { apply settled_later; [done|apply Hh|]. unfold settled. cbn [possible]. rewrite String.eqb_refl. cbn [negb].
      split; [done|]. apply Forall_singleton. by exists item. }
    destruct Hset as [_ Hall]. rewrite Forall_forall in Hall. rewrite <-Hid in Hj.
    destruct (Hall op0) as (it & Hit & Hwit); [by apply journal_possible|]. rewrite Hi0 in Hit. simplify_eq. congruence.
Qed.

(** ** The journal stays valid *)

Lemma fine_app newer facts : fine (newer ++ facts) → fine facts.
Proof. induction newer as [|f newer IH]; [done|]. intros Hf%fine_tail. auto. Qed.

(** C6: the journal can always be written.  While the clock does not run back,
    the stored operations are valid and no attempt counter is exhausted, every
    operation the engine asks to save passes the validity test of the store, so
    that no outcome of a write is lost to it; and no command panics. *)
Theorem journal_stays_valid commands c w :
  let '(past, w') := session commands w [] in
  let '(past', result, _) := run (command_flow c) w' past in
  fine (told past') →
  result ≠ Ran Panicked ∧
  ∀ newer operation expected x older,
    past' = newer ++ Event (Call.SaveOperation operation expected) x :: older → Operation_Validate operation = Ok tt.
Proof.
  pose proof (session_lawful commands w [] I) as Hl. destruct (session commands w []) as [past w'].
  pose proof (command_permitted c w' past Hl) as Hc. destruct (run (command_flow c) w' past) as [[past' r] w''].
  destruct Hc as [Hl' Hok]. intros Hfine. split; [intros ->; by destruct c|].
  intros newer operation expected x older ->. apply lawful_at in Hl' as [[_ Hv] _]. apply Hv.
  unfold told in Hfine. rewrite fmap_app in Hfine. apply fine_app, fine_tail in Hfine. exact Hfine.
Qed.

(** ** What success means *)


(** ** Resuming what is over *)

(** Resuming an operation that is over, successful, promoted, rolled back or
    failed, makes no call but the load of it, and returns it as it is. *)
Lemma resume_of_finished_is_silent id w past operation revision w' :
  configured = true →
  answer _ (Call.LoadOperation id) w = (Ok (operation, revision), w') →
  terminal_status (op_Status operation) = true ∨ op_Status operation = StatusFailed →
  run (Resume id) w past =
    (Event (Call.LoadOperation id) (Ok (operation, revision)) :: past,
     Returned operation (if terminal_status (op_Status operation) then None else Some (first_error operation)), w').
Proof.
  intros Hconf Hload Hover. unfold Resume. rewrite Hconf. cbn. rewrite Hload.
  destruct Hover as [Ht|Hf]; [by rewrite Ht|]. by rewrite Hf.
Qed.

(** ** Atomic adapters *)

(** An adapter that takes batches gets the whole plan in one request, and
    never a write: each staged batch has one request per action, in order, with
    the key of the action, after the journal has every action in flight. *)
Theorem atomic_batches_are_whole commands w :
  atomic = true →
  (∀ newer request x older, fst (session commands w []) ≠ newer ++ Event (Call.Write request) x :: older) ∧
  (∀ newer requests x older, fst (session commands w []) = newer ++ Event (Call.Stage requests) x :: older →
     ∃ plan operation, last_told (told older) = Some (Saved operation) ∧ the_plan (told older) = Some plan ∧
       List.length requests = List.length (pp_Actions plan) ∧
       Forall2 (λ item request, oa_Status item = ActionInFlight ∧
         ∃ value, request = action_request plan item value ∧ value_known plan (oa_Action item) value (since_plan (told older)))
         (op_Actions operation) requests).
Proof.
  intros Hat. pose proof (session_lawful commands w [] I) as Hl. split.
  - intros newer request x older Heq. rewrite Heq in Hl. apply lawful_at in Hl as [[Hno _] _]. congruence.
  - intros newer requests x older Heq. rewrite Heq in Hl.
    apply lawful_at in Hl as [(_ & plan & operation & (Hlast & Hplan & Hm & _) & Hall) _].
    exists plan, operation. split_and!; try done. rewrite <-(Forall2_length _ _ _ Hall).
    unfold operationMatchesPlan in Hm. rewrite !andb_true_iff, bool_decide_eq_true in Hm. destruct Hm as [_ <-].
    by rewrite length_fmap.
Qed.

End Properties.
