(* ===== verification/RolloutExample.v ===== *)
(** A small concrete provider, store and clock, on which the properties of the
    rollout engine are applied. *)
From S2P Require Import Prelude Timestamp Text Secure Provider RolloutPlan RolloutEngine RolloutValid RolloutProtocol RolloutRefinement RolloutProperties.
From stdpp Require Import options.

Fixpoint bytes_of (n : nat) (c : ascii) : string := match n with O => "" | S n => String c (bytes_of n c) end.

(** The digest is the end of the text. *)
#[export] Instance example_crypto : Crypto := {|
  sha256 := λ s, let t := bytes_of 32 "000" +:+ s in substring (String.length t - 32) 32 t;
  ed25519_verify := λ _ _ _, true; x25519_usable := λ _, true;
|}.
#[export] Instance example_codec : PlanCodec := {| plan_json := λ plan, pp_Bundle plan +:+ pp_CreatedAt plan |}.

Definition example_target : TargetBinding :=
  {| tb_ProjectID := "project"; tb_EnvironmentID := "production"; tb_ServiceIDs := Some {["api" := "svc-1"]} |}.

Definition example_action (id operation name record : string) (revision : Z) : Action :=
  {| ac_ID := id; ac_Operation := operation; ac_Service := "api"; ac_ServiceID := "svc-1"; ac_Name := name;
     ac_Record := record; ac_ValueSource := ""; ac_PublicValue := ""; ac_ExpectedRecordRevision := revision |}.

Definition example_actions : list Action :=
  [example_action "a1" "upsert" "DATABASE_URL" "db" 3; example_action "a2" "revoke" "OLD_TOKEN" "" 0].

(** 2026-08-09T20:00:00Z *)
Definition example_time : Z := 1786305600 * second.

Definition example_plan : ProviderPlan :=
  let plan := {| pp_Version := 1; pp_Bundle := "shop"; pp_ManifestDigest := hex (bytes_of 32 "m"); pp_SnapshotRevision := 7;
    pp_Provider := "railway"; pp_ProviderIdentity := "team-1"; pp_ProviderRevision := "";
    pp_Target := example_target; pp_Kind := PlanKindNone; pp_Names := []; pp_Actions := example_actions;
    pp_CreatedAt := format_rfc3339 example_time; pp_ExpiresAt := format_rfc3339 (example_time + PlanTTL);
    pp_Digest := "" |} in
  with_digest (ComputeDigest plan) plan.

Example example_plan_valid : Plan_Validate example_plan example_time = Ok tt.
Proof. vm_compute. reflexivity. Qed.

(** The state of the collaborators: the time, the stored operation, what the
    provider says of the variables, and how the next writes or stages end. *)
Record ExampleWorld := {
  xw_time : Z; xw_stored : option (Operation * Z); xw_caps : Capabilities;
  xw_presence : Presence; xw_ends : list (option AdapterError); xw_random : ascii;
}.

Definition example_caps (idempotent : bool) : Capabilities :=
  {| cap_Create := true; cap_ReadMetadata := true; cap_Update := true; cap_Validate := true; cap_Revoke := true;
     cap_SupportsIdempotencyKey := false; cap_SupportsIdempotentWrite := idempotent; cap_SupportsMaskedPresence := false |}.

Definition example_metadata (w : ExampleWorld) (target : Target) : MetadataState :=
  {| ms_Target := target;
     ms_Variables := {["api" := {["DATABASE_URL" := {| vm_Presence := xw_presence w; vm_LastWriteKey := "" |}]}]};
     ms_Revision := "" |}.

Definition next_end (w : ExampleWorld) : option AdapterError := default None (head (xw_ends w)).
Definition after_end (w : ExampleWorld) : ExampleWorld :=
  {| xw_time := xw_time w; xw_stored := xw_stored w; xw_caps := xw_caps w; xw_presence := xw_presence w;
     xw_ends := tail (xw_ends w); xw_random := xw_random w |}.
Definition tick (w : ExampleWorld) : ExampleWorld :=
  {| xw_time := xw_time w + second; xw_stored := xw_stored w; xw_caps := xw_caps w; xw_presence := xw_presence w;
     xw_ends := xw_ends w; xw_random := xw_random w |}.
Definition store_operation (w : ExampleWorld) (stored : Operation * Z) : ExampleWorld :=
  {| xw_time := xw_time w; xw_stored := Some stored; xw_caps := xw_caps w; xw_presence := xw_presence w;
     xw_ends := xw_ends w; xw_random := xw_random w |}.

Definition example_evidence : WriteEvidence := {| we_ProviderOperationID := "op-1"; we_CommittedAt := "" |}.
Definition end_of (w : ExampleWorld) : WriteEvidence + AdapterError :=
  match next_end w with None => inl example_evidence | Some err => inr err end.

#[export] Instance example_world : World ExampleWorld := λ X c w,
  match c in Call.call X return X * ExampleWorld with
  | Call.Capabilities => (xw_caps w, w)
  | Call.Identity => (inl {| id_Provider := "railway"; id_ID := "team-1" |}, w)
  | Call.Inspect target => (inl (example_metadata w target), w)
  | Call.Write _ => (end_of w, after_end w)
  | Call.Stage _ => (end_of w, after_end w)
  | Call.Verify _ =>
      (inl {| ve_Result := VerificationVerified; ve_Presence := PresencePresent; ve_VerifiedAt := ""; ve_Reason := "" |}, w)
  | Call.Confirm _ => (true, w)
  | Call.Now => (xw_time w, tick w)
  | Call.Random size => (Some (bytes_of (Z.to_nat size) (xw_random w)), w)
  | Call.SavePlan _ expected => (Ok (expected + 1), w)
  | Call.LoadPlan _ => (Ok (example_plan, 1), w)
  | Call.SaveOperation operation expected =>
      let current := match xw_stored w with Some (_, revision) => revision | None => 0 end in
      if expected =? current then (Ok (current + 1), store_operation w (operation, current + 1))
      else (Err "conflict", w)
  | Call.LoadOperation id =>
      match xw_stored w with
      | Some (operation, revision) => if String.eqb (op_ID operation) id then (Ok (operation, revision), w) else (Err "not found", w)
      | None => (Err "not found", w)
      end
  | Call.ValidateSnapshot _ => (Ok tt, w)
  | Call.LoadRecord _ _ _ => (Ok "postgres://secret", w)
  end.

Definition start_world (idempotent : bool) (ends : list (option AdapterError)) : ExampleWorld :=
  {| xw_time := example_time; xw_stored := None; xw_caps := example_caps idempotent; xw_presence := PresencePresent;
     xw_ends := ends; xw_random := "r" |}.

Definition example_id : string := hex (bytes_of 18 "r").
Definition plain_engine : Engine := {| configured := true; atomic := false |}.
Definition batch_engine : Engine := {| configured := true; atomic := true |}.

(** Kinds of calls, to read a history. *)
Definition kind_of (e : event) : string :=
  match e with
  | @Event _ X c x =>
      match c in Call.call X return X → string with
      | Call.Write _ => λ x, match x with inl _ => "write" | inr _ => "write failed" end
      | Call.Stage _ => λ x, match x with inl _ => "stage" | inr _ => "stage failed" end
      | Call.Confirm _ => λ _, "confirm"
      | Call.SaveOperation _ _ => λ x, match x with Ok _ => "save" | Err _ => "save failed" end
      | Call.Verify _ => λ _, "verify"
      | Call.LoadOperation _ => λ _, "load"
      | _ => λ _, ""
      end x
  end.
Definition kinds (past : history) : list string := filter (λ k, k ≠ "") (reverse (kind_of <$> past)).

Definition example_session (engine : Engine) (commands : list command) (w : ExampleWorld) : history :=
  fst (session (engine:=engine) commands w []).

Example plain_run :
  kinds (example_session plain_engine [CApply "p" true] (start_world true [])) =
  ["confirm"; "confirm"; "save"; "save"; "write"; "save"; "save"; "write"; "save"; "save"; "save"; "verify"; "save";
   "verify"; "save"; "save"].
Proof. vm_compute. reflexivity. Qed.

(** ** The properties, applied *)

Definition plain_past : history := example_session plain_engine [CApply "p" true] (start_world true []).

(** The write is the 28th event from the start. *)
Definition index_of (k : string) (past : history) : nat :=
  default 0%nat (fst <$> list_find (λ e, kind_of e = k) past).

Definition plain_request : WriteRequest :=
  action_request example_plan (new_action example_id (example_action "a2" "revoke" "OLD_TOKEN" "" 0)) "".

Lemma plain_past_split :
  plain_past = take 17 plain_past ++ Event (Call.Write plain_request) (inl example_evidence) :: drop 18 plain_past.
Proof. vm_compute. reflexivity. Qed.

Lemma writes_are_authorized_witness :
  ∃ newer older, plain_past = newer ++ Event (Call.Write plain_request) (inl example_evidence) :: older ∧
    ∃ plan items, the_plan (told older) = Some plan ∧ checked plan (since_plan (told older)) ∧
      Forall (λ item, oa_Action item ∈ pp_Actions plan) items ∧ Forall2 (sent_for (engine:=plain_engine) (told older) plan) items [plain_request].
Proof.
  exists (take 17 plain_past), (drop 18 plain_past). split; [exact plain_past_split|].
  exact (proj2 (writes_are_authorized (engine:=plain_engine) [CApply "p" true] (start_world true []) (take 17 plain_past)
    (Event (Call.Write plain_request) (inl example_evidence)) (drop 18 plain_past) false [plain_request] plain_past_split eq_refl)).
Defined.

(** An ambiguous write, then a resumption that finds the variable absent. *)
Definition ambiguous : AdapterError := Typed (NewError "write" 504 "TIMEOUT" RetryAmbiguous).

Example ambiguous_write_stops :
  kinds (example_session plain_engine [CApply "p" true; CResume example_id] (start_world false [Some ambiguous])) =
  ["confirm"; "confirm"; "save"; "save"; "write failed"; "save"; "load"; "save"].
Proof. vm_compute. reflexivity. Qed.

Example ambiguous_write_repeated :
  kinds (example_session plain_engine [CApply "p" true; CResume example_id] (start_world true [Some ambiguous])) =
  ["confirm"; "confirm"; "save"; "save"; "write failed"; "save"; "load"; "save"; "write"; "save"; "save"; "write";
   "save"; "save"; "save"; "verify"; "save"; "verify"; "save"; "save"].
Proof. vm_compute. reflexivity. Qed.

(** *** Decisions on histories, for the witnesses *)

Definition saved_operation (e : event) : option Operation :=
  match fact_of e with Saved operation => Some operation | _ => None end.

Definition saved_operations (facts : list fact) : list Operation :=
  omap (λ f, match f with Saved operation => Some operation | _ => None end) facts.

Definition keyed_items (operation : Operation) : list (string * string * nat) :=
  imap (λ i item, (oa_WriteKey item, op_ID operation, i)) (op_Actions operation).

Definition keys_distinct_check (facts : list fact) : bool :=
  let all := saved_operations facts ≫= keyed_items in
  forallb (λ a, forallb (λ b, negb (String.eqb (fst (fst a)) (fst (fst b))) || bool_decide (a = b)) all) all.

Lemma keys_distinct_checked facts : keys_distinct_check facts = true → keys_distinct facts.
Proof.
  unfold keys_distinct_check. rewrite forallb_forall. intros Hall o o' i i' item item' Ho Ho' Hi Hi' Hk.
  assert (Hin : ∀ o i item, Saved o ∈ facts → op_Actions o !! i = Some item →
    (oa_WriteKey item, op_ID o, i) ∈ saved_operations facts ≫= keyed_items).
  { intros o1 i1 item1 Ho1 Hi1. apply list_elem_of_bind. exists o1. split.
    - unfold keyed_items. apply list_elem_of_lookup. exists i1. by rewrite list_lookup_imap, Hi1.
    - apply list_elem_of_omap. by exists (Saved o1). }
  specialize (Hall _ (proj1 (list_elem_of_In _ _) (Hin _ _ _ Ho Hi))). rewrite forallb_forall in Hall.
  specialize (Hall _ (proj1 (list_elem_of_In _ _) (Hin _ _ _ Ho' Hi'))). cbn in Hall.
  rewrite Hk, String.eqb_refl in Hall. cbn in Hall. apply bool_decide_eq_true in Hall. naive_solver.
Qed.

Definition written_operation : Operation := default zero_operation (head (drop 20 plain_past) ≫= saved_operation).
Definition written_item : OperationAction :=
  default (new_action "" (example_action "" "" "" "" 0)) (op_Actions written_operation !! 0%nat).

Lemma plain_past_written :
  plain_past = take 17 plain_past ++ Event (Call.Write plain_request) (inl example_evidence) ::
    take 2 (drop 18 plain_past) ++ Event (Call.SaveOperation written_operation 2) (Ok 3) :: drop 21 plain_past.
Proof. vm_compute. reflexivity. Qed.

Lemma plain_past_honest : honest plain_past.
Proof. vm_compute. repeat split; first [discriminate|reflexivity|right; by left|idtac]. Qed.

Lemma written_actions_are_final_witness :
  oa_Status written_item = ActionCommitted ∧ wr_IdempotencyKey plain_request ≠ oa_WriteKey written_item.
Proof.
  split; [reflexivity|].
  refine (written_actions_are_final (engine:=plain_engine) [CApply "p" true] (start_world true []) (take 17 plain_past)
    plain_request (inl example_evidence) (take 2 (drop 18 plain_past)) written_operation 2 3 (drop 21 plain_past) 0
    written_item plain_past_written plain_past_honest _ _ _); [|reflexivity|reflexivity].
  apply keys_distinct_checked. vm_compute. reflexivity.
Defined.

(** [fine], tested, for histories without loads. *)
Definition room_check (operation : Operation) : bool :=
  forallb (λ item, oa_Attempts item <? max_int64) (op_Actions operation).

Definition not_before_check (facts : list fact) (t : Z) : bool :=
  forallb (λ f, match f with Time t' => t' <=? t | Loaded _ => false | _ => true end) facts.

Fixpoint fine_check (facts : list fact) : bool :=
  match facts with
  | [] => true
  | Time t :: facts =>
      (-62167219200 <=? unix t) && (unix t <? 253402300800) && not_before_check facts t && fine_check facts
  | Loaded _ :: _ => false
  | Saved operation :: facts => room_check operation && fine_check facts
  | _ :: facts => fine_check facts
  end.

Lemma fine_checked facts : fine_check facts = true → fine facts.
Proof.
  induction facts as [|f facts IH]; [done|].
  destruct f; try (exact IH); try done; cbn [fine fine_check]; rewrite ?andb_true_iff.
  - intros [Hr Hf]. split; [|auto]. unfold room_check in Hr. apply Forall_forall. intros item Hin.
    rewrite forallb_forall in Hr. apply list_elem_of_In, Hr in Hin. lia.
  - intros [[[Hlo Hhi] Hnb] Hf]. split_and!; [unfold four_digit_year; lia| |auto].
    unfold not_before_check in Hnb. apply Forall_forall. intros f Hin. rewrite forallb_forall in Hnb.
    apply list_elem_of_In, Hnb in Hin. destruct f; try done. lia.
Qed.

Lemma plain_past_fine : fine (told plain_past).
Proof. apply fine_checked. vm_compute. reflexivity. Qed.

Definition plain_run_result : history * answer_of_command * ExampleWorld :=
  run (command_flow (engine:=plain_engine) (CApply "p" true)) (start_world true []) [].

Definition plain_operation : Operation :=
  match snd (fst plain_run_result) with Ran (Returned operation _) => operation | _ => zero_operation end.

Lemma let_triple {A B C} (P : A → B → C → Prop) (e : A * B * C) :
  (let '(a, b, c) := e in P a b c) → P (fst (fst e)) (snd (fst e)) (snd e).
Proof. by destruct e as [[a b] c]. Qed.

Lemma plain_run_past : fst (fst plain_run_result) = plain_past.
Proof. vm_compute. reflexivity. Qed.

Lemma journal_stays_valid_witness :
  snd (fst plain_run_result) ≠ Ran Panicked ∧ Operation_Validate written_operation = Ok tt.
Proof.
  pose proof (let_triple _ _ (journal_stays_valid (engine:=plain_engine) [] (CApply "p" true) (start_world true []))) as Hj.
  fold plain_run_result in Hj. cbv beta in Hj. rewrite plain_run_past in Hj. destruct (Hj plain_past_fine) as [Hr Hv].
  split; [exact Hr|]. apply (Hv (take 20 plain_past) written_operation 2 (Ok 3) (drop 21 plain_past)).
  vm_compute. reflexivity.
Defined.


Lemma resume_of_finished_is_silent_witness :
  ∃ operation w', op_Status operation = StatusReady ∧
    run (Resume (engine:=plain_engine) example_id) w' [] =
      ([Event (Call.LoadOperation example_id) (Ok (operation, 10))], Returned operation None, w').
Proof.
  pose (w' := snd (session (engine:=plain_engine) [CApply "p" true] (start_world true []) [])).
  pose (operation := default zero_operation (fst <$> xw_stored w')).
  exists operation, w'. split; [vm_compute; reflexivity|].
  refine (resume_of_finished_is_silent (engine:=plain_engine) example_id w' [] operation 10 w' eq_refl _ (or_introl _));
    vm_compute; reflexivity.
Defined.

Definition batch_past : history := example_session batch_engine [CApply "p" true] (start_world false []).

Lemma atomic_batches_are_whole_witness :
  index_of "stage" batch_past = 17%nat ∧
  ∀ newer request x older, batch_past ≠ newer ++ Event (Call.Write request) x :: older.
Proof.
  split; [vm_compute; reflexivity|].
  exact (proj1 (atomic_batches_are_whole (engine:=batch_engine) [CApply "p" true] (start_world false []) eq_refl)).
Defined.

(** ** What the examples show *)

(** A batch whose outcome is unknown is staged again by a resumption without
    any inspection of the first: the provider takes no repeated writes, the
    journal says that reconciliation is required, and the second batch goes out
    with the keys of the first. *)
Theorem ambiguous_stage_is_repeated :
  let commands := [CApply "p" true; CResume example_id] in
  let past := example_session batch_engine commands (start_world false [Some ambiguous]) in
  kinds past = ["confirm"; "confirm"; "save"; "save"; "stage failed"; "save"; "load"; "save"; "stage"; "save"; "save";
    "save"; "verify"; "save"; "verify"; "save"; "save"] ∧
  op_Status <$> saved_operations (told (example_session batch_engine [CApply "p" true] (start_world false [Some ambiguous]))) =
    [StatusReconciliation; StatusWriting; StatusConfirmed].
Proof. vm_compute. split; reflexivity. Qed.
