(* ===== verification/RolloutPlanning.v ===== *)
(** What a provider plan says and how it is made: the validity test of
    internal/rollout/plan.go and [Engine.Plan] of internal/rollout/engine.go. *)
From S2P Require Import Prelude Timestamp Text Secure Provider RolloutPlan RolloutEngine RolloutValid RolloutProtocol.
From S2P Require Import RolloutRefinement RolloutProperties RolloutExample.
From stdpp Require Import options.

(** ** Valid plans *)

Definition action_target (action : Action) : string := target_key (ac_Service action) (ac_Name action).

Lemma each_inv {A} (check : Z → gset string → A → result (gset string)) (P : A → Prop) (keys : A → list string) l index seen :
  (∀ i s a s', check i s a = Ok s' → P a ∧ (∀ k, k ∈ keys a → (k ∉ s) ∧ k ∈ s') ∧ s ⊆ s') →
  each check index seen l = Ok tt →
  Forall P l ∧
  ∀ i j a b k, l !! i = Some a → l !! j = Some b → k ∈ keys a → k ∈ keys b → i = j ∧ k ∉ seen.
Proof.
  intros Hcheck. revert index seen. induction l as [|a l IH]; intros index seen; cbn [each]; [done|].
  rewrite bind_Ok. intros (s & (HP & Hkeys & Hsub)%Hcheck & Hl). destruct (IH _ _ Hl) as [Hall Hnd].
  split; [by constructor|]. intros [|i] [|j] x y k; cbn; intros Hx Hy Hkx Hky; simplify_eq.
  - split; [done|]. by apply Hkeys.
  - exfalso. destruct (Hnd j j y y k Hy Hy Hky Hky) as [_ Hn]. by apply Hn, (Hkeys k Hkx).
  - exfalso. destruct (Hnd i i x x k Hx Hx Hkx Hkx) as [_ Hn]. by apply Hn, (Hkeys k Hky).
  - destruct (Hnd i j x y k Hx Hy Hkx Hky) as [-> Hn]. split; [done|]. set_solver.
Qed.

(** What the test asks of one action. *)
Record action_ok (target : TargetBinding) (action : Action) : Prop := {
  ao_operation : ac_Operation action ∈ ["create"; "update"; "upsert"; "revoke"];
  ao_service : bound_service target (ac_Service action) = ac_ServiceID action ∧ ac_ServiceID action ≠ "";
  ao_name : ac_Name action ≠ "" ∧ ac_ID action ≠ "";
  ao_value : if String.eqb (ac_Operation action) "revoke"
    then ac_Record action = "" ∧ ac_PublicValue action = "" ∧ ac_ExpectedRecordRevision action = 0
    else ac_Record action ≠ "" ∧ 0 < ac_ExpectedRecordRevision action ∧ ac_PublicValue action = "" ∨
         ac_Record action = "" ∧ ac_ValueSource action = "public-constant";
}.

Lemma validateAction_Ok i action target : validateAction i action target = Ok tt → action_ok target action.
Proof.
  unfold validateAction. rewrite !reject_if_bind, reject_if_Ok. intros (Hfull & Hin & Hb & Hval & Hrev).
  passed Hfull. passed Hin. passed Hb.
  split; [done..|]. destruct (String.eqb (ac_Operation action) "revoke").
  - cbn in Hrev. passed Hrev. tauto.
  - cbn in Hval. rewrite <-negb_orb, negb_false_iff, orb_true_iff in Hval.
    destruct Hval as [Hr|Hp]; [left; passed Hr; tauto|right; passed Hp; tauto].
Qed.

Definition plan_keys (action : Action) : list string := ["id" +:+ ac_ID action; "target" +:+ action_target action].

Lemma validate_plan_action_Ok target i seen action seen' :
  validate_plan_action target i seen action = Ok seen' →
  action_ok target action ∧ (∀ k, k ∈ plan_keys action → (k ∉ seen) ∧ k ∈ seen') ∧ seen ⊆ seen'.
Proof.
  unfold validate_plan_action. rewrite !reject_if_bind, !bool_decide_eq_false.
  intros (_ & Hid & Htarget & Hval). apply bind_Ok in Hval as ([] & Hval & [= <-]).
  split; [by eapply validateAction_Ok|]. split; [|set_solver].
  intros k [->|[->|[]%elem_of_nil]%elem_of_cons]%elem_of_cons; (split; [done|set_solver]).
Qed.

Section Planning.
Context {crypto : Crypto} {codec : PlanCodec} {engine : Engine}.

(** C9: a valid plan is in time and writes every variable at most once.  The time
    of the test is in the fifteen minutes from the creation of the plan; each
    action names a service of the target by its bound ID, and has its value from
    a record at a positive revision or from a public constant, or is a revocation
    with no value; no two actions share an ID or a variable; and the digest covers
    the plan. *)
Theorem valid_plan_is_sound plan now :
  Plan_Validate plan now = Ok tt →
  (∃ t, canonicalTime (pp_CreatedAt plan) = Some t ∧ t ≤ now < t + PlanTTL) ∧
  len (pp_Actions plan) ≤ MaxActions ∧
  Forall (action_ok (pp_Target plan)) (pp_Actions plan) ∧
  (∀ i j a b, pp_Actions plan !! i = Some a → pp_Actions plan !! j = Some b →
     ac_ID a = ac_ID b ∨ ac_Service a = ac_Service b ∧ ac_Name a = ac_Name b → i = j) ∧
  pp_Digest plan = ComputeDigest plan.
Proof.
  unfold Plan_Validate. rewrite !reject_if_bind. intros (_ & _ & _ & H).
  destruct (canonicalTime (pp_CreatedAt plan)) as [t|]; [|done]. destruct (canonicalTime (pp_ExpiresAt plan)) as [e|]; [|done].
  rewrite !reject_if_bind in H. destruct H as (He & Hlate & Hearly & _ & _ & H).
  apply bind_Ok in H as ([] & Hcount & H). apply bind_Ok in H as ([] & Hactions & H). apply bind_Ok in H as ([] & _ & H).
  apply reject_if_Ok, negb_false_iff, String.eqb_eq in H.
  destruct (each_inv _ (action_ok (pp_Target plan)) plan_keys _ _ _ (validate_plan_action_Ok (pp_Target plan)) Hactions) as [Hall Hnd].
  split_and!; [exists t; split; [done|lia]| |done| |done].
  - destruct (named_kind (pp_Kind plan)).
    + apply reject_if_bind in Hcount as [[_ ?]%orb_false_iff _]. lia.
    + apply reject_if_Ok in Hcount. apply orb_false_iff in Hcount as [[_ ?]%orb_false_iff _]. lia.
  - intros i j a b Ha Hb [Heq|[Hs Hn]].
    + apply (Hnd i j a b ("id" +:+ ac_ID a)); [done|done|by left|rewrite Heq; by left].
    + apply (Hnd i j a b ("target" +:+ action_target a)); [done|done|right; by left|].
      unfold plan_keys, action_target. rewrite Hs, Hn. right. by left.
Qed.

(** ** The window of a plan *)

(** The test of a plan depends on the time only through the window of its
    validity: what was valid once is valid at every time from its creation to its
    expiry, and only then. *)
Lemma plan_valid_in_window plan now t created :
  Plan_Validate plan now = Ok tt → canonicalTime (pp_CreatedAt plan) = Some created →
  Plan_Validate plan t = Ok tt ↔ created ≤ t < created + PlanTTL.
Proof.
  unfold Plan_Validate. rewrite !reject_if_bind. intros (H1 & H2 & H3 & H) Hc. rewrite Hc in *.
  destruct (canonicalTime (pp_ExpiresAt plan)) as [e|]; [|done]. rewrite !reject_if_bind in *.
  destruct H as (He & _ & _ & H). apply negb_false_iff, Z.eqb_eq in He. subst e.
  rewrite H1, H2, H3. rewrite Z.eqb_refl. split.
  - intros (_ & _ & _ & _ & Hl & Hr & _). lia.
  - intros [Hl Hr]. refine (conj eq_refl (conj eq_refl (conj eq_refl (conj eq_refl (conj _ (conj _ H)))))); lia.
Qed.
End Planning.

(** ** The properties, applied *)

Lemma valid_plan_is_sound_witness :
  len (pp_Actions example_plan) = 2 ∧ Forall (action_ok (pp_Target example_plan)) (pp_Actions example_plan).
Proof.
  split; [reflexivity|]. exact (proj1 (proj2 (proj2 (valid_plan_is_sound example_plan example_time example_plan_valid)))).
Defined.

Lemma plan_valid_in_window_witness :
  Plan_Validate example_plan (example_time + PlanTTL - 1) = Ok tt ∧ Plan_Validate example_plan (example_time + PlanTTL) ≠ Ok tt.
Proof.
  assert (Hc : canonicalTime (pp_CreatedAt example_plan) = Some example_time) by (vm_compute; reflexivity).
  split.
  - apply (plan_valid_in_window example_plan example_time _ example_time example_plan_valid Hc). unfold PlanTTL, minute, second. lia.
  - intros H. apply (plan_valid_in_window example_plan example_time _ example_time example_plan_valid Hc) in H. lia.
Defined.

(** ** Comparing targets *)

Lemma map_subseteq_size_eq' (m1 m2 : gmap string string) : m1 ⊆ m2 → size m1 = size m2 → m1 = m2.
Proof.
  intros Hsub Hsize. destruct (decide (m1 = m2)) as [|Hne]; [done|]. exfalso.
  assert (Hs : m1 ⊂ m2). { split; [done|]. intros H2. apply Hne. by apply (anti_symm (⊆)). }
  apply map_subset_size in Hs. lia.
Qed.

Lemma sameStrings_lookup left right :
  sameStrings left right = true ↔ size left = size right ∧ ∀ k v, left !! k = Some v → default "" (right !! k) = v.
Proof.
  unfold sameStrings. rewrite andb_true_iff, bool_decide_eq_true, forallb_forall. split; intros [Hs Hall]; (split; [done|]).
  - intros k v Hk. apply elem_of_map_to_list, list_elem_of_In in Hk. apply Hall in Hk. by apply String.eqb_eq.
  - intros [k v] Hin. apply list_elem_of_In, elem_of_map_to_list in Hin. apply String.eqb_eq. auto.
Qed.

(** The comparison of service maps, on which the binding of plans,
    operations and provider targets rests, is equality wherever no service is
    bound to the empty ID. *)
Lemma sameStrings_exact left right :
  map_Forall (λ _ id, id ≠ "") left → sameStrings left right = true ↔ left = right.
Proof.
  intros Hne. rewrite sameStrings_lookup. split.
  - intros [Hsize Hall]. apply map_subseteq_size_eq'; [|done]. apply map_subseteq_spec. intros k v Hk.
    pose proof (Hne _ _ Hk) as Hv. specialize (Hall _ _ Hk). simpl in Hv. destruct (right !! k); cbn in Hall; congruence.
  - intros ->. split; [done|]. by intros k v ->.
Qed.

(** Without that condition it is not: a missing service reads as the empty
    ID, so that maps with different services are the same to it. *)
Theorem sameStrings_missing_service :
  sameStrings {["api" := ""]} {["web" := "svc-9"]} = true.
Proof. vm_compute. reflexivity. Qed.

(** ** The order of actions *)

Definition action_compare (a b : Action) : comparison :=
  match String.compare (ac_Service a) (ac_Service b) with
  | Eq => String.compare (ac_Name a) (ac_Name b)
  | c => c
  end.

Lemma action_before_compare a b : action_before a b = true ↔ action_compare a b = Lt.
Proof.
  unfold action_before, action_compare, str_lt. destruct (String.eqb_spec (ac_Service a) (ac_Service b)) as [->|Hne].
  - rewrite string_compare_refl. by destruct (String.compare (ac_Name a) (ac_Name b)).
  - destruct (String.compare (ac_Service a) (ac_Service b)) eqn:E; try done.
    by apply String.compare_eq_iff in E.
Qed.

Lemma action_before_asymm a b : action_before a b = true → action_before b a = false.
Proof.
  rewrite action_before_compare. intros H. apply not_true_is_false. rewrite action_before_compare.
  unfold action_compare in *. rewrite (String.compare_antisym (ac_Service a) (ac_Service b)), (String.compare_antisym (ac_Name a) (ac_Name b)) in H.
  destruct (String.compare (ac_Service b) (ac_Service a)), (String.compare (ac_Name b) (ac_Name a)); done.
Qed.

Lemma insert_stable_perm a l : insert_stable a l ≡ₚ a :: l.
Proof. induction l as [|b l IH]; [done|]. cbn. destruct (action_before b a); [|done]. rewrite IH. apply Permutation_swap. Qed.

Definition in_order (a b : Action) : Prop := action_before b a = false.

Lemma insert_stable_sorted a l : Sorted in_order l → Sorted in_order (insert_stable a l).
Proof.
  induction l as [|b l IH]; [by repeat constructor|]. intros Hs. cbn. destruct (action_before b a) eqn:Hb.
  - apply Sorted_inv in Hs as [Hl Hhd]. constructor; [by apply IH|]. destruct l as [|c l]; cbn.
    + constructor. by apply action_before_asymm.
    + destruct (action_before c a); constructor; [by inversion Hhd|by apply action_before_asymm].
  - constructor; [done|]. by constructor.
Qed.

Lemma insert_stable_filter (P : Action → Prop) `{!∀ x, Decision (P x)} a l :
  (∀ b, P a → P b → action_before b a = false) →
  filter P (insert_stable a l) = filter P (a :: l).
Proof.
  intros Heq. induction l as [|b l IH]; [done|]. cbn [insert_stable]. destruct (action_before b a) eqn:Hb; [|done].
  rewrite !filter_cons, IH, filter_cons. destruct (decide (P a)), (decide (P b)); try done.
  rewrite Heq in Hb by done. done.
Qed.

(** The order of actions is a stable sort by service and name: the same
    actions, each not before its predecessor, and actions on the same variable in
    the order in which they were given. *)
Theorem StableActionOrder_sorts actions :
  StableActionOrder actions ≡ₚ actions ∧ Sorted in_order (StableActionOrder actions) ∧
  ∀ service name, filter (λ a, ac_Service a = service ∧ ac_Name a = name) (StableActionOrder actions) =
    filter (λ a, ac_Service a = service ∧ ac_Name a = name) actions.
Proof.
  unfold StableActionOrder. induction actions as [|a l (IHp & IHs & IHf)]; [by repeat constructor|]. cbn [foldr].
  split_and!.
  - by rewrite insert_stable_perm, IHp.
  - by apply insert_stable_sorted.
  - intros service name. rewrite insert_stable_filter.
    + rewrite !filter_cons, IHf. done.
    + intros b [Hs Hn] [Hs' Hn']. apply not_true_is_false. rewrite action_before_compare. unfold action_compare.
      by rewrite Hs, Hs', Hn, Hn', !string_compare_refl.
Qed.

Lemma sameStrings_exact_witness : sameStrings {["api" := "svc-1"]} {["api" := "svc-1"]} = true.
Proof.
  apply (sameStrings_exact {["api" := "svc-1"]} {["api" := "svc-1"]}); [|reflexivity].
  intros k v [<- <-]%lookup_singleton_Some. done.
Defined.
