(* ===== verification/Bundle.v ===== *)
(** Bundle snapshots and record names: internal/bundle/snapshot.go and
    [PhysicalName] of internal/bundle/prepare.go. *)
From S2P Require Import Prelude Timestamp Text Secure.
From stdpp Require Import options.

Definition SnapshotVersion : Z := 1.

Record SourceStatus := { ss_Source : string; ss_Status : string; ss_Sensitivity : string }.

(** The maps are [None] where they are nil. *)
Record Snapshot := {
  sn_Version : Z; sn_Bundle : string; sn_ManifestDigest : string;
  sn_PhysicalToLogical : option (gmap string string); sn_Sources : option (gmap string SourceStatus);
  sn_RecordRevisions : option (gmap string Z); sn_PreviousRecordRevisions : gmap string (list Z);
  sn_CreatedAt : string;
}.

(** The first error of the entries of a map, in the order of [map_to_list]; the
    code visits them in no fixed order, so only which of several errors is
    reported depends on it. *)
Definition each_entry {A} (check : string → A → result unit) (m : gmap string A) : result unit :=
  foldr (λ '(k, a) rest, _ ← check k a; rest) (Ok tt) (map_to_list m).

(** The logical names, where each belongs to one physical record. *)
Definition logical_step (entry : string * string) (seen : result (gset string)) : result (gset string) :=
  let '(physical, name) := entry in
  logical ← seen;
  _ ← reject_if (negb (nonempty physical) || negb (nonempty name)) "bundle snapshot record mapping is invalid";
  _ ← reject_if (bool_decide (name ∈ logical)) ("bundle snapshot logical record " +:+ name +:+ " is duplicated");
  Ok ({[name]} ∪ logical).

Definition logical_names (physical : gmap string string) : result (gset string) :=
  foldr logical_step (Ok ∅) (map_to_list physical).

Fixpoint previous_ok (name : string) (current : Z) (seen : gset Z) (revisions : list Z) : result unit :=
  match revisions with
  | [] => Ok tt
  | revision :: revisions =>
      _ ← reject_if ((revision <? 1) || (revision =? current))
            ("bundle snapshot previous record revision " +:+ name +:+ " is invalid");
      _ ← reject_if (bool_decide (revision ∈ seen))
            ("bundle snapshot previous record revision " +:+ name +:+ " is duplicated");
      previous_ok name current ({[revision]} ∪ seen) revisions
  end.

Definition has {A} (m : gmap string A) (name : string) : bool := bool_decide (is_Some (m !! name)).

Definition Snapshot_Validate (snapshot : Snapshot) : result unit :=
  _ ← reject_if (negb (sn_Version snapshot =? SnapshotVersion))
        ("unsupported bundle snapshot version " +:+ Itoa (sn_Version snapshot));
  _ ← reject_if (negb (nonempty (sn_Bundle snapshot)) || negb (digestPattern (sn_ManifestDigest snapshot)))
        "bundle snapshot identity is invalid";
  _ ← reject_if (bool_decide (canonicalTime (sn_CreatedAt snapshot) = None)) "bundle snapshot creation time is invalid";
  match sn_PhysicalToLogical snapshot, sn_Sources snapshot, sn_RecordRevisions snapshot with
  | Some physical, Some sources, Some revisions =>
      logical ← logical_names physical;
      _ ← each_entry (λ name status,
            reject_if (bool_decide (name ∉ logical) || negb (nonempty (ss_Source status)) ||
              negb (nonempty (ss_Status status))) ("bundle snapshot source " +:+ name +:+ " is invalid")) sources;
      _ ← each_entry (λ name revision,
            reject_if (bool_decide (name ∉ logical) || (revision <? 1))
              ("bundle snapshot record revision " +:+ name +:+ " is invalid")) revisions;
      _ ← each_entry (λ name previous,
            _ ← reject_if (bool_decide (name ∉ logical))
                  ("bundle snapshot previous record revision " +:+ name +:+ " is invalid");
            previous_ok name (default 0 (revisions !! name)) ∅ previous) (sn_PreviousRecordRevisions snapshot);
      foldr (λ name rest,
        _ ← reject_if (negb (has sources name)) ("bundle snapshot source " +:+ name +:+ " is missing");
        _ ← reject_if (negb (has revisions name)) ("bundle snapshot record revision " +:+ name +:+ " is missing");
        rest) (Ok tt) (elements logical)
  | _, _, _ => Err "bundle snapshot mappings are required"
  end.

Definition LogicalNames (snapshot : Snapshot) : list string :=
  sort_strings (snd <$> map_to_list (default ∅ (sn_PhysicalToLogical snapshot))).

(** ** Record names *)

(** [base32.StdEncoding] without padding: five bits a digit. *)
Definition base32_alphabet : string := "ABCDEFGHIJKLMNOPQRSTUVWXYZ234567".
Definition base32_digit (bits : list bool) : ascii :=
  let v := foldl (λ n (b : bool), 2 * n + (if b then 1 else 0)) 0 (take 5 (bits ++ [false; false; false; false])) in
  default "A"%char (String.get (Z.to_nat v) base32_alphabet).

Definition byte_bits (c : ascii) : list bool :=
  let 'Ascii b0 b1 b2 b3 b4 b5 b6 b7 := c in [b7; b6; b5; b4; b3; b2; b1; b0].

Fixpoint base32_bits (bits : list bool) : string :=
  match bits with
  | [] => ""
  | a :: b :: c :: d :: e :: bits => String (base32_digit [a; b; c; d; e]) (base32_bits bits)
  | short => String (base32_digit short) ""
  end.

Definition base32 (s : string) : string := base32_bits (list_ascii_of_string s ≫= byte_bits).

Example base32_foobar : base32 "foobar" = "MZXW6YTBOI".
Proof. reflexivity. Qed.

Definition PhysicalName {crypto : Crypto} (bundleID logicalName : string) : string :=
  "ENVBANK_B1_" +:+ base32 (sha256 bundleID) +:+ "_" +:+ logicalName.

(** ** Properties *)

Lemma each_entry_Ok {A} (check : string → A → result unit) (m : gmap string A) :
  (each_entry check m = Ok tt) ↔ map_Forall (λ k a, check k a = Ok tt) m.
Proof.
  unfold each_entry. rewrite map_Forall_to_list. generalize (map_to_list m) as l.
  induction l as [|[k a] l IH]; [by split|]. cbn. rewrite bind_Ok, Forall_cons, <-IH. cbn.
  split; [by intros ([] & ? & ?)|]. intros [? ?]. by exists tt.
Qed.

Lemma logical_names_Ok l logical :
  foldr logical_step (Ok ∅) l = Ok logical →
  NoDup (snd <$> l) ∧ Forall (λ entry, fst entry ≠ "" ∧ snd entry ≠ "") l ∧ ∀ name, name ∈ logical ↔ name ∈ snd <$> l.
Proof.
  revert logical. induction l as [|[physical name] l IH]; intros logical; cbn [foldr].
  { intros [= <-]. split_and!; [constructor|constructor|set_solver]. }
  unfold logical_step at 1. rewrite bind_Ok. intros (seen & (Hnd & Hall & Hin)%IH & H).
  apply bind_Ok in H as ([] & Hne%reject_if_Ok & H). apply bind_Ok in H as ([] & Hni%reject_if_Ok & [= <-]).
  apply bool_decide_eq_false in Hni. apply orb_false_iff in Hne as [Hp%negb_false_iff Hn%negb_false_iff].
  unfold nonempty in Hp, Hn. cbn [fmap list_fmap]. split_and!.
  - apply NoDup_cons. split; [|done]. by rewrite <-Hin.
  - constructor; [|done]. cbn. split; by intros ->.
  - intros x. rewrite elem_of_cons, <-Hin. set_solver.
Qed.

Lemma foldr_bind_names (sources : gmap string SourceStatus) (revisions : gmap string Z) l :
  (foldr (λ name rest,
    _ ← reject_if (negb (has sources name)) ("bundle snapshot source " +:+ name +:+ " is missing");
    _ ← reject_if (negb (has revisions name)) ("bundle snapshot record revision " +:+ name +:+ " is missing");
    rest) (Ok tt) l = Ok tt) ↔ Forall (λ name, has sources name = true ∧ has revisions name = true) l.
Proof.
  induction l as [|name l IH]; [by split|]. cbn [foldr]. rewrite bind_Ok, Forall_cons, <-IH.
  setoid_rewrite bind_Ok. setoid_rewrite reject_if_Ok. setoid_rewrite negb_false_iff. split.
  - intros ([] & Hs & [] & Hr & Hl). done.
  - intros ([Hs Hr] & Hl). exists tt. split; [done|]. by exists tt.
Qed.

Lemma NoDup_snd_inj {A B} (l : list (A * B)) a a' b : NoDup (snd <$> l) → (a, b) ∈ l → (a', b) ∈ l → a = a'.
Proof.
  intros Hnd [i Hi]%list_elem_of_lookup [j Hj]%list_elem_of_lookup.
  assert (i = j) as ->; [|congruence]. eapply (NoDup_lookup _ _ _ b Hnd); rewrite list_lookup_fmap; [by rewrite Hi|by rewrite Hj].
Qed.

Lemma previous_differs name current seen revisions :
  previous_ok name current seen revisions = Ok tt → current ∉ revisions.
Proof.
  revert seen. induction revisions as [|r l IH]; intros seen; cbn; [by intros _ ?%elem_of_nil|].
  intros H. apply bind_Ok in H as ([] & Hr%reject_if_Ok & H). apply bind_Ok in H as ([] & _ & H).
  apply orb_false_iff in Hr as [_ Hr]. intros [->|Hin]%elem_of_cons; [lia|]. by eapply IH.
Qed.

(** A valid snapshot describes every record.  Each physical name stands for
    one non-empty logical name, and no two for the same; the sources and the
    current revisions are of exactly these logical names; the revisions are
    positive, and an earlier revision is another than the current one. *)
Theorem valid_snapshot_is_total snapshot :
  Snapshot_Validate snapshot = Ok tt →
  ∃ physical sources revisions, sn_PhysicalToLogical snapshot = Some physical ∧ sn_Sources snapshot = Some sources ∧
    sn_RecordRevisions snapshot = Some revisions ∧
    (∀ p p' name, physical !! p = Some name → physical !! p' = Some name → p = p' ∧ p ≠ "" ∧ name ≠ "") ∧
    (∀ name, (∃ p, physical !! p = Some name) ↔ is_Some (revisions !! name)) ∧
    (∀ name, is_Some (sources !! name) ↔ is_Some (revisions !! name)) ∧
    map_Forall (λ name revision, 0 < revision ∧
      ∀ previous, sn_PreviousRecordRevisions snapshot !! name = Some previous → revision ∉ previous) revisions.
Proof.
  unfold Snapshot_Validate. intros H. do 3 (apply bind_Ok in H as ([] & _ & H)).
  destruct (sn_PhysicalToLogical snapshot) as [physical|]; [|done].
  destruct (sn_Sources snapshot) as [sources|]; [|done]. destruct (sn_RecordRevisions snapshot) as [revisions|]; [|done].
  exists physical, sources, revisions. do 3 (split; [done|]).
  apply bind_Ok in H as (logical & (Hnd & Hne & Hlog)%logical_names_Ok & H).
  apply bind_Ok in H as ([] & Hsrc & H). apply bind_Ok in H as ([] & Hrev & H). apply bind_Ok in H as ([] & Hprev & H).
  apply each_entry_Ok in Hsrc. apply each_entry_Ok in Hrev. apply each_entry_Ok in Hprev. apply foldr_bind_names in H.
  assert (Hdom : ∀ name, (∃ p, physical !! p = Some name) ↔ name ∈ logical).
  { intros name. rewrite Hlog, list_elem_of_fmap. split.
    - intros [p Hp]. exists (p, name). split; [done|]. by apply elem_of_map_to_list.
    - intros ([p n] & -> & Hp). exists p. by apply elem_of_map_to_list. }
  assert (Hboth : ∀ name, name ∈ logical → has sources name = true ∧ has revisions name = true).
  { intros name Hn. apply elem_of_elements in Hn. rewrite Forall_forall in H. by apply H. }
  assert (Hs : ∀ name, is_Some (sources !! name) ↔ name ∈ logical).
  { intros name. split; [intros [st Hst]|intros Hn; by apply Hboth in Hn as [Hn%bool_decide_eq_true _]].
    apply Hsrc, reject_if_Ok in Hst. apply orb_false_iff in Hst as [[Hst _]%orb_false_iff _].
    apply bool_decide_eq_false in Hst. by apply dec_stable. }
  assert (Hr : ∀ name, is_Some (revisions !! name) ↔ name ∈ logical).
  { intros name. split; [intros [st Hst]|intros Hn; by apply Hboth in Hn as [_ Hn%bool_decide_eq_true]].
    apply Hrev, reject_if_Ok in Hst. apply orb_false_iff in Hst as [Hst _].
    apply bool_decide_eq_false in Hst. by apply dec_stable. }
  split_and!.
  - intros p p' name Hp Hp'. apply elem_of_map_to_list in Hp, Hp'. split.
    + by eapply (NoDup_snd_inj (map_to_list physical)).
    + rewrite Forall_forall in Hne. by apply (Hne _ Hp).
  - intros name. by rewrite Hdom, Hr.
  - intros name. by rewrite Hs, Hr.
  - intros name revision Hname. split.
    + apply Hrev, reject_if_Ok, orb_false_iff in Hname as [_ Hname]. lia.
    + intros previous Hp. apply Hprev in Hp. apply bind_Ok in Hp as ([] & _ & Hp). rewrite Hname in Hp.
      by eapply previous_differs.
Qed.

(** ** Physical names determine the logical ones *)

Lemma base32_digit_inj a b c d e a' b' c' d' e' :
  base32_digit [a; b; c; d; e] = base32_digit [a'; b'; c'; d'; e'] → [a; b; c; d; e] = [a'; b'; c'; d'; e'].
Proof. destruct a, b, c, d, e, a', b', c', d', e'; intros H; first [reflexivity|vm_compute in H; discriminate H]. Qed.

Lemma base32_short_inj l l' :
  (0 < List.length l < 5)%nat → List.length l = List.length l' → base32_digit l = base32_digit l' → l = l'.
Proof.
  destruct l as [|a [|b [|c [|d [|e l]]]]], l' as [|a' [|b' [|c' [|d' [|e' l']]]]]; cbn [List.length]; intros; try lia.
  - enough ([a; false; false; false; false] = [a'; false; false; false; false]) by congruence. by apply base32_digit_inj.
  - enough ([a; b; false; false; false] = [a'; b'; false; false; false]) by congruence. by apply base32_digit_inj.
  - enough ([a; b; c; false; false] = [a'; b'; c'; false; false]) by congruence. by apply base32_digit_inj.
  - enough ([a; b; c; d; false] = [a'; b'; c'; d'; false]) by congruence. by apply base32_digit_inj.
Qed.

Lemma base32_bits_inj n l l' :
  (List.length l ≤ n)%nat → List.length l = List.length l' →
  String.length (base32_bits l) = String.length (base32_bits l') ∧ (base32_bits l = base32_bits l' → l = l').
Proof.
  revert l l'. induction n as [|n IH]; intros l l' Hn Hlen.
  { destruct l, l'; cbn in *; try lia. done. }
  destruct (decide (List.length l < 5)%nat) as [Hshort|Hlong].
  - destruct (decide (List.length l = 0%nat)) as [H0|H0]; [destruct l, l'; cbn in *; try lia; done|].
    assert (Hone : ∀ k, (0 < List.length k < 5)%nat → base32_bits k = String (base32_digit k) "").
    { intros k. destruct k as [|? [|? [|? [|? [|? k]]]]]; cbn [List.length]; intros; try lia; done. }
    rewrite !Hone by lia. split; [done|]. intros [= H]. apply base32_short_inj; [lia|done|done].
  - destruct l as [|a [|b [|c [|d [|e l]]]]], l' as [|a' [|b' [|c' [|d' [|e' l']]]]]; cbn [List.length] in *; try lia.
    cbn [base32_bits String.length]. destruct (IH l l') as [IHl IHe]; [lia|lia|]. rewrite IHl. split; [done|].
    intros [= Hd Hl]. apply base32_digit_inj in Hd. apply IHe in Hl. congruence.
Qed.

Lemma byte_bits_inj c c' : byte_bits c = byte_bits c' → c = c'.
Proof. destruct c, c'. cbn. congruence. Qed.

Lemma all_bits_length s : List.length (list_ascii_of_string s ≫= byte_bits) = (8 * String.length s)%nat.
Proof. induction s as [|c s IH]; [done|]. cbn -[Nat.mul]. rewrite length_app, IH. destruct c. cbn [byte_bits List.length]. lia. Qed.

Lemma all_bits_inj s s' :
  String.length s = String.length s' → list_ascii_of_string s ≫= byte_bits = list_ascii_of_string s' ≫= byte_bits → s = s'.
Proof.
  revert s'. induction s as [|c s IH]; intros [|c' s'] Hlen; try done. cbn [list_ascii_of_string]. intros H.
  change (byte_bits c ++ (list_ascii_of_string s ≫= byte_bits) = byte_bits c' ++ (list_ascii_of_string s' ≫= byte_bits)) in H.
  apply app_inj_1 in H as [Hc Hs]; [|by destruct c, c']. apply byte_bits_inj in Hc as ->. f_equal. apply IH; [|done].
  cbn in Hlen. lia.
Qed.

Lemma base32_inj s s' :
  String.length s = String.length s' →
  String.length (base32 s) = String.length (base32 s') ∧ (base32 s = base32 s' → s = s').
Proof.
  intros Hlen. unfold base32.
  destruct (base32_bits_inj _ (list_ascii_of_string s ≫= byte_bits) (list_ascii_of_string s' ≫= byte_bits) (le_n _)) as [Hl Hi].
  { by rewrite !all_bits_length, Hlen. }
  split; [done|]. intros H. by apply all_bits_inj, Hi.
Qed.

(** Records of different bundles or logical names have different names in the
    vault, up to collisions of the digest: the physical name determines the digest
    of the bundle's ID and the logical name. *)
Theorem PhysicalName_injective {crypto : Crypto} bundleID logical bundleID' logical' :
  (∀ s, slen (sha256 s) = 32) →
  PhysicalName bundleID logical = PhysicalName bundleID' logical' →
  sha256 bundleID = sha256 bundleID' ∧ logical = logical'.
Proof.
  intros Hsize H. assert (Hlen : String.length (sha256 bundleID) = String.length (sha256 bundleID')).
  { pose proof (Hsize bundleID). pose proof (Hsize bundleID'). unfold slen in *. lia. }
  destruct (base32_inj _ _ Hlen) as [Hl Hi]. unfold PhysicalName in H.
  apply string_app_inj in H as [_ H]; [|done]. apply string_app_inj in H as [Hb H]; [|done].
  apply string_app_inj in H as [_ H]; [|done]. auto.
Qed.

(** ** The properties, applied *)

Definition bundle_crypto : Crypto := {|
  sha256 := λ s, substring 0 32 (s +:+ "--------------------------------");
  ed25519_verify := λ _ _ _, true; x25519_usable := λ _, true;
|}.

Lemma prefix_32 n s t : (n ≤ String.length t)%nat → String.length (substring 0 n (s +:+ t)) = n.
Proof. intros Hn. apply substring_length. rewrite string_length_app. lia. Qed.

Lemma PhysicalName_injective_witness :
  PhysicalName (crypto:=bundle_crypto) "shop" "db" ≠ PhysicalName (crypto:=bundle_crypto) "shop" "cache".
Proof.
  intros H. apply (PhysicalName_injective (crypto:=bundle_crypto) "shop" "db" "shop" "cache") in H as [_ H]; [discriminate H|].
  intros s. unfold slen. cbn [sha256 bundle_crypto]. rewrite prefix_32; cbn; lia.
Defined.

Definition example_snapshot : Snapshot := {|
  sn_Version := 1; sn_Bundle := "shop"; sn_ManifestDigest := hex (@sha256 bundle_crypto "manifest");
  sn_PhysicalToLogical := Some {["ENVBANK_B1_X_db" := "db"]};
  sn_Sources := Some {["db" := {| ss_Source := "generated"; ss_Status := "ready"; ss_Sensitivity := "" |}]};
  sn_RecordRevisions := Some {["db" := 3]}; sn_PreviousRecordRevisions := {["db" := [1; 2]]};
  sn_CreatedAt := "2026-08-09T20:00:00Z";
|}.

Lemma valid_snapshot_is_total_witness :
  Snapshot_Validate example_snapshot = Ok tt ∧ ∃ physical, sn_PhysicalToLogical example_snapshot = Some physical.
Proof.
  assert (Hv : Snapshot_Validate example_snapshot = Ok tt) by (vm_compute; reflexivity).
  split; [exact Hv|]. destruct (valid_snapshot_is_total example_snapshot Hv) as (physical & _ & _ & Hp & _). by exists physical.
Defined.
