(* ===== verification/RolloutStore.v ===== *)
(** The encrypted store of plans and operations: internal/rollout/store.go.  The
    client's calls to the vault are an interface. *)
From S2P Require Import Prelude Timestamp Text Secure Protocol VaultObject Provider RolloutPlan RolloutEngine RolloutValid RolloutProtocol.
From S2P Require Import RolloutRefinement RolloutProperties RolloutExample Bundle.
From stdpp Require Import options.

(** ** Snapshots *)

(** [revisions[record.Name] = record.Revision] for each record: the last one
    counts, and a missing one reads as 0. *)
Definition record_revision (records : list SecretRecord) (name : string) : Z :=
  default 0 (sr_Revision <$> last (filter (λ r, sr_Name r = name) records)).

(** The loops over the actions and names of the plan, each with its record and
    expected revision. *)
Fixpoint check_records (check : string → Z → bool) (l : list (string * Z)) : result unit :=
  match l with
  | [] => Ok tt
  | (record, revision) :: l =>
      if nonempty record && negb (check record revision) then
        Err ("provider plan record " +:+ record +:+ " is stale")
      else check_records check l
  end.

Definition action_records (plan : ProviderPlan) : list (string * Z) :=
  (λ action, (ac_Record action, ac_ExpectedRecordRevision action)) <$> pp_Actions plan.
Definition name_records (plan : ProviderPlan) : list (string * Z) :=
  (λ item, (pn_Record item, pn_ExpectedRecordRevision item)) <$> pp_Names plan.

Section Store.
Context {crypto : Crypto} {codec : PlanCodec} {store : EncryptedStore} {V : Type} {api : VaultAPI V}.
Context {plans : Payload ProviderPlan} {operations : Payload Operation} {snapshots : Payload Snapshot}.

Definition snapshot_revision (snapshot : Snapshot) (record : string) : Z :=
  default 0 (default ∅ (sn_RecordRevisions snapshot) !! record).

Definition validateSnapshotBindings (plan : ProviderPlan) (objectRevision : Z) (snapshot : Snapshot)
    (records : list SecretRecord) : result unit :=
  _ ← reject_if (negb (objectRevision =? pp_SnapshotRevision plan) ||
        negb (String.eqb (sn_Bundle snapshot) (pp_Bundle plan)) ||
        negb (String.eqb (sn_ManifestDigest snapshot) (pp_ManifestDigest plan)))
        "provider plan does not match the current bundle snapshot";
  let in_snapshot record revision := snapshot_revision snapshot record =? revision in
  let in_vault record revision := record_revision records (PhysicalName (pp_Bundle plan) record) =? revision in
  _ ← check_records in_snapshot (action_records plan);
  _ ← check_records in_snapshot (name_records plan);
  _ ← check_records in_vault (action_records plan);
  check_records in_vault (name_records plan).

(** ** The store *)

Definition locked {A} (v : V) : result A * V := (Err "rollout store is not unlocked", v).

Definition SavePlan (plan : ProviderPlan) (expected : Z) (v : V) : result Z * V :=
  if negb unlocked then locked v
  else match parse_rfc3339 (pp_CreatedAt plan) with
  | None => (Err "provider plan is invalid", v)
  | Some created =>
      if negb (is_ok (Plan_Validate plan created)) then (Err "provider plan is invalid", v)
      else PutObject KindProviderPlan (plan_ID plan) (to_payload plan) expected v
  end.

Definition LoadPlan (id : string) (v : V) : result (ProviderPlan * Z) * V :=
  if negb unlocked then locked v
  else match GetObject KindProviderPlan id v with
  | (Err msg, v) => (Err msg, v)
  | (Ok (payload, revision), v) =>
      (match decodeStrict payload with
       | None => Err "encrypted provider plan is invalid"
       | Some plan =>
           match parse_rfc3339 (pp_CreatedAt plan) with
           | Some created =>
               if String.eqb (plan_ID plan) id && is_ok (Plan_Validate plan created) then Ok (plan, revision)
               else Err "encrypted provider plan is invalid"
           | None => Err "encrypted provider plan is invalid"
           end
       end, v)
  end.

Definition SaveOperation (operation : Operation) (expected : Z) (v : V) : result Z * V :=
  if negb unlocked then locked v
  else match Operation_Validate operation with
  | Err msg => (Err msg, v)
  | Ok _ => PutObject KindRolloutOperation (op_ID operation) (to_payload operation) expected v
  end.

Definition LoadOperation (id : string) (v : V) : result (Operation * Z) * V :=
  if negb unlocked then locked v
  else match GetObject KindRolloutOperation id v with
  | (Err msg, v) => (Err msg, v)
  | (Ok (payload, revision), v) =>
      (match decodeStrict payload with
       | None => Err "encrypted rollout operation is invalid"
       | Some operation =>
           if String.eqb (op_ID operation) id && is_ok (Operation_Validate operation) then Ok (operation, revision)
           else Err "encrypted rollout operation is invalid"
       end, v)
  end.

Definition ValidateSnapshot (plan : ProviderPlan) (v : V) : result unit * V :=
  if negb unlocked then locked v
  else match GetObject KindBundleSnapshot (pp_Bundle plan) v with
  | (Err msg, v) => (Err msg, v)
  | (Ok (payload, revision), v) =>
      match decodeStrict payload with
      | None => (Err "encrypted bundle snapshot is invalid", v)
      | Some snapshot =>
          if negb (is_ok (Snapshot_Validate snapshot)) then (Err "encrypted bundle snapshot is invalid", v)
          else match ListRecords v with
          | (Err msg, v) => (Err msg, v)
          | (Ok records, v) => (validateSnapshotBindings plan revision snapshot records, v)
          end
      end
  end.

(** The first record with the name decides. *)
Definition LoadRecord (bundleID logical : string) (expected : Z) (v : V) : result string * V :=
  if negb unlocked then locked v
  else match ListRecords v with
  | (Err msg, v) => (Err msg, v)
  | (Ok records, v) =>
      (match head (filter (λ r, sr_Name r = PhysicalName bundleID logical) records) with
       | None => Err ("provider plan record " +:+ logical +:+ " is missing")
       | Some record =>
           if negb (sr_Revision record =? expected) then Err ("provider plan record " +:+ logical +:+ " is stale")
           else Ok (sr_Value record)
       end, v)
  end.

(** ** The engine over the store *)

(** The other collaborators of the engine, in a state of their own. *)
Class Rest (P : Type) := rest : ∀ X, call X → P → (X * P)%type.

#[export] Instance stored_world {P} `{!Rest P} : World (V * P) := λ X c w,
  let '(v, p) := w in
  match c in Call.call X return (X * (V * P))%type with
  | Call.SavePlan plan expected => let '(r, v) := SavePlan plan expected v in (r, (v, p))
  | Call.LoadPlan id => let '(r, v) := LoadPlan id v in (r, (v, p))
  | Call.SaveOperation operation expected => let '(r, v) := SaveOperation operation expected v in (r, (v, p))
  | Call.LoadOperation id => let '(r, v) := LoadOperation id v in (r, (v, p))
  | Call.ValidateSnapshot plan => let '(r, v) := ValidateSnapshot plan v in (r, (v, p))
  | Call.LoadRecord bundle record expected => let '(r, v) := LoadRecord bundle record expected v in (r, (v, p))
  | c => let '(r, p) := rest _ c p in (r, (v, p))
  end.

(** ** Properties *)

Lemma check_records_Ok check l :
  (check_records check l = Ok tt) ↔ Forall (λ '(record, revision), record ≠ "" → check record revision = true) l.
Proof.
  induction l as [|[record revision] l IH]; [by split|]. cbn. rewrite Forall_cons, <-IH. unfold nonempty.
  destruct (String.eqb_spec record "") as [->|Hne]; cbn; [naive_solver|].
  destruct (check record revision); cbn; naive_solver.
Qed.

(** A plan passes the check against the vault exactly when nothing changed
    under it: the snapshot has the planned revision, bundle and manifest, and
    every record behind an action or a planned name has the planned revision,
    both in the snapshot and in the vault itself. *)
Theorem snapshot_bindings_exact plan objectRevision snapshot records :
  validateSnapshotBindings plan objectRevision snapshot records = Ok tt ↔
  objectRevision = pp_SnapshotRevision plan ∧ sn_Bundle snapshot = pp_Bundle plan ∧
  sn_ManifestDigest snapshot = pp_ManifestDigest plan ∧
  ∀ record revision, (record, revision) ∈ action_records plan ++ name_records plan → record ≠ "" →
    snapshot_revision snapshot record = revision ∧
    record_revision records (PhysicalName (pp_Bundle plan) record) = revision.
Proof.
  unfold validateSnapshotBindings. rewrite reject_if_bind, !orb_false_iff, !negb_false_iff, Z.eqb_eq, !String.eqb_eq.
  split.
  - intros [[[-> ->] ->] H]. do 3 (split; [done|]). do 3 (apply bind_Ok in H as ([] & ?H%check_records_Ok & H)).
    apply check_records_Ok in H. intros record revision [Hin|Hin]%elem_of_app Hne; rewrite Forall_forall in H, H0, H1, H2;
      split; apply Z.eqb_eq; first [by apply (H0 _ Hin)|by apply (H1 _ Hin)|by apply (H2 _ Hin)|by apply (H _ Hin)].
  - intros (-> & -> & -> & Hall). split; [done|].
    assert (Hc : ∀ f l, (∀ p, p ∈ l → p ∈ action_records plan ++ name_records plan) →
      (∀ r n, (r, n) ∈ action_records plan ++ name_records plan → r ≠ "" → f r n = true) →
      check_records f l = Ok tt).
    { intros f l Hl Hf. apply check_records_Ok, Forall_forall. intros [r n] Hin. eauto. }
    do 3 (apply bind_Ok; exists tt; split;
      [apply Hc; [intros p Hp; apply elem_of_app; tauto|intros r n Hin Hne; apply Z.eqb_eq; by apply Hall]|]).
    apply Hc; [intros p Hp; apply elem_of_app; tauto|intros r n Hin Hne; apply Z.eqb_eq; by apply Hall].
Qed.

(** Over the encrypted store the engine only ever works on valid objects.  In
    every history of commands over it, each operation that was loaded is valid
    and has the ID asked for, each plan that was loaded is valid as of its
    creation and has its digest as ID, and each operation that was stored is
    valid; a record is read at exactly the revision asked for. *)
Theorem store_only_has_valid_objects {engine : Engine} {P} {others : Rest P} commands (w : V * P) newer X (c : call X) (x : X) older :
  fst (session commands w []) = newer ++ Event c x :: older →
  match c in Call.call X return X → Prop with
  | Call.LoadOperation id => λ x, ∀ operation revision, x = Ok (operation, revision) →
      op_ID operation = id ∧ Operation_Validate operation = Ok tt
  | Call.LoadPlan id => λ x, ∀ plan revision, x = Ok (plan, revision) →
      plan_ID plan = id ∧ ∃ created, parse_rfc3339 (pp_CreatedAt plan) = Some created ∧ Plan_Validate plan created = Ok tt
  | Call.SaveOperation operation _ => λ x, ∀ revision, x = Ok revision → Operation_Validate operation = Ok tt
  | Call.LoadRecord bundle record expected => λ x, ∀ value, x = Ok value →
      ∃ v v' records found, ListRecords v = (Ok records, v') ∧ found ∈ records ∧
        sr_Name found = PhysicalName bundle record ∧ sr_Revision found = expected ∧ sr_Value found = value
  | _ => λ _, True
  end x.
Proof.
  intros Heq. assert (Hall : Forall (answered (W:=V * P)) (fst (session commands w []))) by by apply session_answered. rewrite Heq in Hall.
  apply Forall_app in Hall as [_ Hall]. apply Forall_cons in Hall as [Hans _]. destruct Hans as ([v p] & w' & Hans).
  destruct c as [| |target|request|request|requests|confirmation| |size|plan expected|id|saved expected|id|plan|b r rv]; try done.
  - cbn in Hans. unfold LoadPlan in Hans. intros plan revision ->. destruct unlocked; [|done]. cbn in Hans.
    destruct (GetObject KindProviderPlan id v) as [[[payload rev]|msg] v1]; [|done].
    destruct (decodeStrict payload) as [plan'|]; [|done]. destruct (parse_rfc3339 (pp_CreatedAt plan')) as [t|] eqn:Et; [|done].
    destruct (String.eqb_spec (plan_ID plan') id); [|done]. destruct (Plan_Validate plan' t) as [[]|] eqn:Hv; [|done].
    cbn in Hans. injection Hans as <- _ _. split; [done|]. by exists t.
  - cbn in Hans. unfold SaveOperation in Hans. intros revision ->. destruct unlocked; [|done]. cbn in Hans.
    by destruct (Operation_Validate saved) as [[]|msg].
  - cbn in Hans. unfold LoadOperation in Hans. intros operation revision ->. destruct unlocked; [|done]. cbn in Hans.
    destruct (GetObject KindRolloutOperation id v) as [[[payload rev]|msg] v1]; [|done].
    destruct (decodeStrict payload) as [operation'|]; [|done].
    destruct (String.eqb_spec (op_ID operation') id); [|done]. destruct (Operation_Validate operation') as [[]|] eqn:Hv; [|done].
    cbn in Hans. injection Hans as <- _ _. done.
  - cbn in Hans. unfold LoadRecord in Hans. intros value ->. destruct unlocked; [|done]. cbn in Hans.
    destruct (ListRecords v) as [[records|msg] v1] eqn:El; [|done].
    destruct (head _) as [found|] eqn:Eh; [|done]. destruct (Z.eqb_spec (sr_Revision found) rv); [|done].
    cbn in Hans. injection Hans as Hval _. exists v, v1, records, found.
    assert (Hin : found ∈ filter (λ r0, sr_Name r0 = PhysicalName b r) records).
    { destruct (filter _ records); [done|]. injection Eh as ->. by left. }
    apply list_elem_of_filter in Hin as [Hname Hin]. done.
Qed.

(** What the store saved it loads.  If the payload of an operation decodes to
    it, and the vault answers a get with what was put, then a saved operation is
    loaded as it is, at the revision of the save. *)
Theorem saved_operation_loads operation expected v revision v' :
  decodeStrict (to_payload operation) = Some operation →
  (∀ v kind key payload expected revision v', PutObject kind key payload expected v = (Ok revision, v') →
    fst (GetObject kind key v') = Ok (payload, revision)) →
  SaveOperation operation expected v = (Ok revision, v') →
  fst (LoadOperation (op_ID operation) v') = Ok (operation, revision).
Proof.
  intros Hcodec Hapi Hsave. unfold SaveOperation in Hsave. unfold LoadOperation.
  destruct unlocked; [|done]. cbn in *. destruct (Operation_Validate operation) as [[]|msg] eqn:Hv; [|done].
  apply Hapi in Hsave. destruct (GetObject KindRolloutOperation (op_ID operation) v') as [r v2]. cbn in Hsave. subst r.
  rewrite Hcodec, String.eqb_refl, Hv. done.
Qed.

End Store.

(** ** The properties, applied *)

(** A vault that keeps objects under kind and key, with revisions that count. *)
Abbreviation ExampleVault := (gmap (string * string) (string * Z)).
#[export] Instance example_api : VaultAPI ExampleVault := {|
  GetObject := λ kind key v, (match v !! (kind, key) with Some found => Ok found | None => Err "not found" end, v);
  PutObject := λ kind key payload expected v,
    let current := default 0 (snd <$> v !! (kind, key)) in
    if expected =? current then (Ok (expected + 1), <[(kind, key) := (payload, expected + 1)]> v) else (Err "conflict", v);
  DeleteObject := λ kind key expected v,
    if expected =? default 0 (snd <$> v !! (kind, key)) then (Ok tt, delete (kind, key) v) else (Err "conflict", v);
  ListRecords := λ v, (Ok [], v);
|}.
#[export] Instance example_plans : Payload ProviderPlan := {| to_payload := λ _, "plan"; decodeStrict := λ _, Some example_plan |}.
#[export] Instance example_operations : Payload Operation :=
  {| to_payload := λ _, "operation"; decodeStrict := λ _, Some plain_operation |}.
#[export] Instance example_snapshots : Payload Snapshot :=
  {| to_payload := λ _, "snapshot"; decodeStrict := λ _, Some example_snapshot |}.
#[export] Instance example_store : EncryptedStore := {| unlocked := true |}.
#[export] Instance example_rest : Rest ExampleWorld := λ X c w, answer X c w.

Definition example_vault : ExampleVault := {[(KindProviderPlan, plan_ID example_plan) := ("plan", 1)]}.
Definition stored_past : history :=
  fst (session (engine:=plain_engine) [CApply (plan_ID example_plan) true] (example_vault, start_world true []) []).

Lemma stored_past_split :
  stored_past = take 2 stored_past ++ Event (Call.LoadPlan (plan_ID example_plan)) (Ok (example_plan, 1)) :: [].
Proof. vm_compute. reflexivity. Qed.

Lemma store_only_has_valid_objects_witness :
  ∃ created, parse_rfc3339 (pp_CreatedAt example_plan) = Some created ∧ Plan_Validate example_plan created = Ok tt.
Proof.
  exact (proj2 (store_only_has_valid_objects (engine:=plain_engine) [CApply (plan_ID example_plan) true]
    (example_vault, start_world true []) (take 2 stored_past) _ (Call.LoadPlan (plan_ID example_plan))
    (Ok (example_plan, 1)) [] stored_past_split example_plan 1 eq_refl)).
Defined.

Lemma saved_operation_loads_witness :
  fst (LoadOperation (op_ID plain_operation) (snd (SaveOperation plain_operation 0 (∅ : ExampleVault)))) =
    Ok (plain_operation, 1).
Proof.
  apply (saved_operation_loads plain_operation 0 (∅ : ExampleVault) 1).
  - reflexivity.
  - intros v kind key payload expected revision v'. unfold PutObject, GetObject, example_api. destruct (_ =? _); [|discriminate].
    intros [= <- <-]. cbn [fst]. by rewrite lookup_insert_eq.
  - assert (Hr : fst (SaveOperation plain_operation 0 (∅ : ExampleVault)) = Ok 1) by (vm_compute; reflexivity).
    rewrite <-Hr. apply surjective_pairing.
Defined.
