(* ===== verification/Password.v ===== *)
(** Random passwords: the rejection sampling of an index, the characters of a
    policy, and their shuffle ([internal/password/password.go]). *)
From S2P Require Import Prelude.
From stdpp Require Import options.

(** ** Policies *)

Definition DefaultLength : Z := 24.
Definition MinLength : Z := 8.
Definition MaxLength : Z := 256.
Definition Lowercase : string := "abcdefghijklmnopqrstuvwxyz".
Definition Uppercase : string := "ABCDEFGHIJKLMNOPQRSTUVWXYZ".
Definition Digits : string := "0123456789".
Definition Symbols : string := "!@#$%^&*()-_=+".

Record Policy := {
  p_Length : Z; p_Lowercase : bool; p_Uppercase : bool; p_Digits : bool; p_Symbols : bool
}.

Definition DefaultPolicy : Policy :=
  {| p_Length := DefaultLength; p_Lowercase := true; p_Uppercase := true; p_Digits := true; p_Symbols := true |}.

Definition Policy_Validate (p : Policy) : result unit :=
  _ ← reject_if ((p_Length p <? MinLength) || (MaxLength <? p_Length p))
        "password length must be between 8 and 256";
  reject_if (negb (p_Lowercase p) && negb (p_Uppercase p) && negb (p_Digits p) && negb (p_Symbols p))
    "at least one password character class is required".

(** The enabled classes, in the order in which the code appends them. *)
Definition policy_classes (p : Policy) : list (list ascii) :=
  list_ascii_of_string <$>
    ((if p_Lowercase p then [Lowercase] else []) ++ (if p_Uppercase p then [Uppercase] else []) ++
     (if p_Digits p then [Digits] else []) ++ (if p_Symbols p then [Symbols] else [])).

(** ** Random choices *)

(** A source of bytes: the outcome of the read at each position, a byte or an
    error. *)
Definition Reader : Type := nat → result ascii.

(** A computation that reads from the source: from a position, the result and
    the next position.  [None]: out of fuel in the sampling loop. *)
Definition random (A : Type) : Type := nat → option (result A * nat).

#[export] Instance random_ret : MRet random := λ A a pos, Some (Ok a, pos).
#[export] Instance random_bind : MBind random := λ A B f m pos,
  match m pos with
  | Some (Ok a, pos) => f a pos
  | Some (Err e, pos) => Some (Err e, pos)
  | None => None
  end.

Section Generate.
Context (reader : Reader) (fuel : nat).

Definition sample_limit (size : Z) : Z := 256 - 256 mod size.

(** The loop of [randomIndex]: [steps] bounds its rounds. *)
Fixpoint sample (steps : nat) (size : Z) (pos : nat) : option (result nat * nat) :=
  match steps with
  | O => None
  | S steps =>
      match reader pos with
      | Err e => Some (Err e, S pos)
      | Ok byte =>
          if code byte <? sample_limit size then Some (Ok (Z.to_nat (code byte mod size)), S pos)
          else sample steps size (S pos)
      end
  end.

Definition randomIndex (size : nat) : random nat := sample fuel (Z.of_nat size).

(** [class[index]]; an index out of range would panic. *)
Definition at_index (l : list ascii) (index : nat) : random ascii := λ pos,
  match l !! index with
  | Some c => Some (Ok c, pos)
  | None => Some (Err "runtime error: index out of range", pos)
  end.

(** One character of every class. *)
Fixpoint pick_each (classes : list (list ascii)) (result : list ascii) : random (list ascii) :=
  match classes with
  | [] => mret result
  | class :: classes =>
      index ← randomIndex (List.length class);
      c ← at_index class index;
      pick_each classes (result ++ [c])
  end.

(** [count] more characters of any class. *)
Fixpoint fill (all : list ascii) (count : nat) (result : list ascii) : random (list ascii) :=
  match count with
  | O => mret result
  | S count =>
      index ← randomIndex (List.length all);
      c ← at_index all index;
      fill all count (result ++ [c])
  end.

(** [result[i], result[j] = result[j], result[i]] *)
Definition swap (i j : nat) (l : list ascii) : random (list ascii) :=
  x ← at_index l i;
  y ← at_index l j;
  mret (<[j := x]> (<[i := y]> l)).

(** The shuffle, from the last position down to the second. *)
Fixpoint shuffle (i : nat) (result : list ascii) : random (list ascii) :=
  match i with
  | O => mret result
  | S i' =>
      index ← randomIndex (S i);
      result ← swap i index result;
      shuffle i' result
  end.

Definition generate (policy : Policy) : random string := λ pos,
  match Policy_Validate policy with
  | Err e => Some (Err e, pos)
  | Ok _ =>
      (let classes := policy_classes policy in
       result ← pick_each classes [];
       result ← fill (concat classes) (Z.to_nat (p_Length policy - Z.of_nat (List.length result))) result;
       result ← shuffle (List.length result - 1) result;
       mret (string_of_list_ascii result)) pos
  end.
End Generate.

(** ** Sampling *)

(** The bytes from which the loop returns an index at once. *)
Definition bytes_of (size index : nat) : list ascii :=
  filter (λ byte, sample (λ _, Ok byte) 1 (Z.of_nat size) 0 = Some (Ok index, 1%nat)) all_ascii.

Lemma sample_once byte size index :
  sample (λ _, Ok byte) 1 size 0 = Some (Ok index, 1%nat) ↔
  code byte < sample_limit size ∧ Z.to_nat (code byte mod size) = index.
Proof. cbn. destruct (Z.ltb_spec (code byte) (sample_limit size)); split; [naive_solver|naive_solver|done|lia]. Qed.

Lemma sample_limit_half size : 0 < size ≤ 256 → 128 < sample_limit size.
Proof.
  unfold sample_limit. intros H. destruct (Z.le_gt_cases size 128).
  - pose proof (Z.mod_pos_bound 256 size). lia.
  - assert (E : 256 mod size = 256 - size) by (symmetry; apply (Z.mod_unique_pos _ _ 1); lia). lia.
Qed.

Lemma all_ascii_NoDup : NoDup all_ascii.
Proof. apply (bool_decide_unpack _). by vm_compute. Qed.

(** They are the index and the index plus multiples of the size. *)
Lemma bytes_of_enumerated size index :
  (index < size ≤ 256)%nat →
  bytes_of size index ≡ₚ (λ k, chr (Z.of_nat (index + k * size))) <$> List.seq 0 (256 / size).
Proof.
  intros H.
  assert (Hk : ∀ k, (k < 256 / size)%nat ↔ Z.of_nat (index + k * size) < sample_limit (Z.of_nat size)).
  { intros k. unfold sample_limit. pose proof (Nat.div_mod_eq 256 size). pose proof (Nat.mod_upper_bound 256 size).
    change 256 with (Z.of_nat 256) at 1 2. rewrite <-Nat2Z.inj_mod. split; [nia|]. intros Hlt.
    destruct (Nat.lt_ge_cases k (256 / size)) as [|Hge]; [done|]. nia. }
  assert (Hr : ∀ k, (k < 256 / size)%nat → 0 ≤ Z.of_nat (index + k * size) < 256).
  { intros k Hlt%Hk. unfold sample_limit in Hlt. pose proof (Z.mod_pos_bound 256 (Z.of_nat size)). lia. }
  apply NoDup_Permutation.
  - apply NoDup_filter, all_ascii_NoDup.
  - apply NoDup_fmap_2_strong; [|apply NoDup_seq]. intros k k' Hin%elem_of_seq Hin'%elem_of_seq E.
    apply (f_equal code) in E. rewrite !code_chr in E by (apply Hr; lia). nia.
  - intros byte. unfold bytes_of. rewrite list_elem_of_filter, sample_once, list_elem_of_fmap. pose proof (code_bound byte). split.
    + intros [[Hlt E] _]. exists (Z.to_nat (code byte / Z.of_nat size)).
      pose proof (Z.div_mod (code byte) (Z.of_nat size)). pose proof (Z.mod_pos_bound (code byte) (Z.of_nat size)).
      assert (Hq : 0 ≤ code byte / Z.of_nat size) by (apply Z.div_pos; lia).
      assert (Z.of_nat (index + Z.to_nat (code byte / Z.of_nat size) * size) = code byte) as Hc by nia.
      split; [by rewrite Hc, chr_code|]. apply elem_of_seq. split; [lia|]. apply Hk. by rewrite Hc.
    + intros (k & -> & [_ Hlt]%elem_of_seq). rewrite code_chr by by apply Hr.
      split; [|apply all_ascii_spec]. split; [by apply Hk|].
      rewrite <-Nat2Z.inj_mod, Nat2Z.id, Nat.Div0.mod_add. apply Nat.mod_small. lia.
Qed.

(** The choice of an index is unbiased.  For every size that the code uses,
    each index below the size comes from equally many of the 256 bytes, and at
    least half of the bytes are accepted; no byte gives an index out of range. *)
Theorem randomIndex_unbiased size :
  (0 < size ≤ 256)%nat →
  (∀ index, (index < size)%nat → List.length (bytes_of size index) = (256 / size)%nat) ∧
  (∀ index, (size ≤ index)%nat → bytes_of size index = []) ∧
  128 < sample_limit (Z.of_nat size).
Proof.
  intros H. split_and!.
  - intros index Hi. by rewrite bytes_of_enumerated, length_fmap, length_seq by lia.
  - intros index Hi. apply elem_of_nil_inv. intros byte. unfold bytes_of. rewrite list_elem_of_filter.
    intros [[_ E]%sample_once _]. pose proof (Z.mod_pos_bound (code byte) (Z.of_nat size)). lia.
  - apply sample_limit_half. lia.
Qed.

Lemma randomIndex_unbiased_witness : (0 < 76 ≤ 256)%nat ∧ List.length (bytes_of 76 75) = 3%nat.
Proof. split; [lia|]. apply (proj1 (randomIndex_unbiased 76 ltac:(lia))). lia. Defined.

(** ** Generation *)

(** What a password of a policy is: it has the length of the policy, a
    character of every enabled class, and no other characters. *)
Definition of_policy (policy : Policy) (password : string) : Prop :=
  slen password = p_Length policy ∧
  Forall (λ class, Exists (λ c, c ∈ class) (list_ascii_of_string password)) (policy_classes policy) ∧
  Forall (λ c, Exists (λ class, c ∈ class) (policy_classes policy)) (list_ascii_of_string password).

Section Generation.
Context (reader : Reader) (gap : nat).

(** The reads from [n] on yield [gap] bytes in a row of the upper half, the only ones that any
    sampling may reject. *)
Definition rejects_from (n : nat) : Prop :=
  ∀ m, (n ≤ m < n + gap)%nat → ∃ byte, reader m = Ok byte ∧ 128 < code byte.

(** The computation ends, with a value that satisfies [Q] or with the error of its last read,
    unless the source has such a run. *)
Definition yields {A} (m : random A) (Q : A → Prop) : Prop :=
  ∀ pos, match m pos with
    | Some (Ok a, next) => (pos ≤ next)%nat ∧ Q a
    | Some (Err e, next) => ∃ n, next = S n ∧ (pos ≤ n)%nat ∧ reader n = Err e
    | None => ∃ n, (pos ≤ n)%nat ∧ rejects_from n
    end.

Lemma yields_ret {A} (a : A) (Q : A → Prop) : Q a → yields (mret a) Q.
Proof. intros H pos. by split. Qed.

Lemma yields_bind {A B} (m : random A) (f : A → random B) P Q :
  yields m P → (∀ a, P a → yields (f a) Q) → yields (m ≫= f) Q.
Proof.
  intros Hm Hf pos. specialize (Hm pos). unfold mbind, random_bind. destruct (m pos) as [[[a|e] next]|]; [|done..].
  destruct Hm as [Hle Ha]. specialize (Hf a Ha next). destruct (f a next) as [[[b|e] next']|].
  - destruct Hf. split; [lia|done].
  - destruct Hf as (n & ? & ? & ?). exists n. split_and!; [done|lia|done].
  - destruct Hf as (n & ? & ?). exists n. split; [lia|done].
Qed.

Lemma sample_yields size n pos :
  0 < size ≤ 256 →
  match sample reader n size pos with
  | Some (Ok i, next) => (pos ≤ next)%nat ∧ Z.of_nat i < size
  | Some (Err e, next) => ∃ m, next = S m ∧ (pos ≤ m)%nat ∧ reader m = Err e
  | None => ∀ m, (pos ≤ m < pos + n)%nat → ∃ byte, reader m = Ok byte ∧ 128 < code byte
  end.
Proof.
  intros Hsize. pose proof (sample_limit_half size Hsize) as Hhalf.
  revert pos. induction n as [|n IH]; intros pos; cbn [sample]; [intros m; lia|].
  destruct (reader pos) as [byte|e] eqn:Er; [|exists pos; by split_and!].
  destruct (Z.ltb_spec (code byte) (sample_limit size)) as [Hlt|Hge].
  - pose proof (Z.mod_pos_bound (code byte) size). split; lia.
  - specialize (IH (S pos)). destruct (sample reader n size (S pos)) as [[[i|e] next]|].
    + destruct IH. split; [lia|done].
    + destruct IH as (m & ? & ? & ?). exists m. split_and!; [done|lia|done].
    + intros m Hm. destruct (decide (m = pos)) as [->|]; [exists byte; split; [done|lia]|]. apply IH. lia.
Qed.

Lemma randomIndex_yields size : (0 < size ≤ 256)%nat → yields (randomIndex reader gap size) (λ i, i < size)%nat.
Proof.
  intros Hsize pos. pose proof (sample_yields (Z.of_nat size) gap pos ltac:(lia)) as H. unfold randomIndex.
  destruct (sample _ _ _ _) as [[[i|e] next]|]; [split; lia|done|]. exists pos. by split.
Qed.

Lemma at_index_yields l i : (i < List.length l)%nat → yields (at_index l i) (λ c, l !! i = Some c).
Proof.
  intros [c E]%lookup_lt_is_Some_2 pos. unfold at_index. by rewrite E.
Qed.

(** A random element of a list. *)
Lemma choice_yields {B} l (f : ascii → random B) Q :
  (0 < List.length l ≤ 256)%nat → (∀ c, c ∈ l → yields (f c) Q) →
  yields (index ← randomIndex reader gap (List.length l); c ← at_index l index; f c) Q.
Proof.
  intros Hl Hf. eapply yields_bind; [by apply randomIndex_yields|]. intros i Hi.
  eapply yields_bind; [by apply at_index_yields|]. intros c Hc. apply Hf, (list_elem_of_lookup_2 _ _ _ Hc).
Qed.

Lemma pick_each_yields classes result (Q : list ascii → Prop) :
  Forall (λ class, 0 < List.length class ≤ 256)%nat classes →
  (∀ picked, Forall2 (∈) picked classes → Q (result ++ picked)) →
  yields (pick_each reader gap classes result) Q.
Proof.
  intros Hall. revert result. induction Hall as [|class classes Hc _ IH]; intros result HQ; cbn [pick_each].
  - apply yields_ret. rewrite <-(app_nil_r result). apply HQ. constructor.
  - apply choice_yields; [done|]. intros c Hin. apply IH. intros picked Hp. rewrite <-app_assoc. apply HQ. by constructor.
Qed.

Lemma fill_yields all count result (Q : list ascii → Prop) :
  (0 < List.length all ≤ 256)%nat →
  (∀ more, List.length more = count → Forall (.∈ all) more → Q (result ++ more)) →
  yields (fill reader gap all count result) Q.
Proof.
  intros Hall. revert result. induction count as [|count IH]; intros result HQ; cbn [fill].
  - apply yields_ret. rewrite <-(app_nil_r result). by apply HQ.
  - apply choice_yields; [done|]. intros c Hin. apply IH. intros more Hl Hm. rewrite <-app_assoc.
    apply HQ; [simpl; lia|]. by constructor.
Qed.

Lemma shuffle_yields i result (Q : list ascii → Prop) :
  (i < List.length result ≤ 256)%nat ∨ i = O → (∀ shuffled, shuffled ≡ₚ result → Q shuffled) →
  yields (shuffle reader gap i result) Q.
Proof.
  revert result. induction i as [|i IH]; intros result Hi HQ; cbn [shuffle]; [by apply yields_ret, HQ|].
  eapply yields_bind; [apply randomIndex_yields; lia|]. intros j Hj. cbn beta in Hj. unfold swap.
  eapply yields_bind with (P := λ swapped, swapped ≡ₚ result).
  - eapply yields_bind; [apply at_index_yields; lia|]. intros x Hx.
    eapply yields_bind; [apply at_index_yields; lia|]. intros y Hy. by apply yields_ret, Permutation_insert_swap.
  - intros swapped Hswap. apply IH; [apply Permutation_length in Hswap; lia|]. intros shuffled Hs. apply HQ. by rewrite Hs.
Qed.

Lemma length_string_of_list l : String.length (string_of_list_ascii l) = List.length l.
Proof. induction l as [|c l IH]; [done|]. cbn. by rewrite IH. Qed.

Lemma policy_classes_sizes policy :
  Policy_Validate policy = Ok tt →
  Forall (λ class, 0 < List.length class ≤ 256)%nat (policy_classes policy) ∧
  (0 < List.length (concat (policy_classes policy)) ≤ 256)%nat ∧ (List.length (policy_classes policy) ≤ 4)%nat.
Proof.
  unfold Policy_Validate, policy_classes. intros H. passed H.
  destruct policy as [len [] [] [] []]; simpl in *; try done; (split_and!; [|lia|lia|lia]); repeat constructor; simpl; lia.
Qed.

Lemma shuffled_of_policy policy picked more shuffled :
  Policy_Validate policy = Ok tt →
  Forall2 (∈) picked (policy_classes policy) → Forall (.∈ concat (policy_classes policy)) more →
  Z.of_nat (List.length picked + List.length more) = p_Length policy → shuffled ≡ₚ picked ++ more →
  of_policy policy (string_of_list_ascii shuffled).
Proof.
  intros Hv Hp Hm Hlen Hs. unfold of_policy. rewrite list_ascii_of_string_of_list_ascii. split_and!.
  - unfold slen. rewrite length_string_of_list, Hs, length_app. done.
  - apply Forall_forall. intros class [i Hi]%list_elem_of_lookup. apply Exists_exists.
    destruct (Forall2_lookup_r _ _ _ _ _ Hp Hi) as (c & Hc & Hin). exists c. split; [|done].
    rewrite Hs. apply elem_of_app. left. by eapply list_elem_of_lookup_2.
  - rewrite Hs. apply Forall_app. split.
    + apply Forall_forall. intros c [i Hi]%list_elem_of_lookup. apply Exists_exists.
      destruct (Forall2_lookup_l _ _ _ _ _ Hp Hi) as (class & Hc & Hin). exists class.
      split; [by eapply list_elem_of_lookup_2|done].
    + eapply Forall_impl; [exact Hm|]. intros c Hc. apply Exists_exists.
      apply list_elem_of_In, in_concat in Hc as (class & ?%list_elem_of_In & ?%list_elem_of_In). by exists class.
Qed.

Lemma generate_yields policy :
  Policy_Validate policy = Ok tt → yields (generate reader gap policy) (of_policy policy).
Proof.
  intros Hv. destruct (policy_classes_sizes policy Hv) as (Hclass & Hall & Hfew).
  assert (Hlen : 8 ≤ p_Length policy ≤ 256).
  { pose proof Hv as H. unfold Policy_Validate, MinLength, MaxLength in H. passed H. lia. }
  unfold generate. rewrite Hv. cbv zeta. intros pos. revert pos.
  eapply yields_bind; [apply pick_each_yields with (Q := λ picked, Forall2 (∈) picked (policy_classes policy)); done|].
  intros picked Hp. pose proof (Forall2_length _ _ _ Hp) as Hpl.
  eapply yields_bind; [apply fill_yields with (Q := λ l, ∃ more, l = picked ++ more ∧
    Z.of_nat (List.length picked + List.length more) = p_Length policy ∧
    Forall (.∈ concat (policy_classes policy)) more); [done|]|].
  { intros more Hm Hin. exists more. split; [done|]. split; [lia|done]. }
  intros result (more & -> & Hlength & Hmore).
  eapply yields_bind; [apply shuffle_yields with (Q := λ l, l ≡ₚ picked ++ more); [|done]|].
  { rewrite length_app. lia. }
  intros shuffled Hs. by apply yields_ret, (shuffled_of_policy policy picked more).
Qed.

(** C12: generation, from any source.  Within any number [gap] of rounds for each sampling
    loop it ends with a password of the length of the policy, with a character of every
    enabled class and no others, or with the error of an invalid policy or of its last
    read; a loop needs more rounds only where the source yields [gap] bytes in a row
    of the upper half, the only ones that the sampling rejects. *)
Theorem generate_correct policy pos :
  match generate reader gap policy pos with
  | Some (Ok password, _) => Policy_Validate policy = Ok tt ∧ of_policy policy password
  | Some (Err e, next) => Policy_Validate policy = Err e ∧ next = pos ∨
      Policy_Validate policy = Ok tt ∧ ∃ n, next = S n ∧ (pos ≤ n)%nat ∧ reader n = Err e
  | None => Policy_Validate policy = Ok tt ∧ ∃ n, (pos ≤ n)%nat ∧
      ∀ m, (n ≤ m < n + gap)%nat → ∃ byte, reader m = Ok byte ∧ 128 < code byte
  end.
Proof.
  destruct (Policy_Validate policy) as [[]|e] eqn:Hv.
  - pose proof (generate_yields policy Hv pos) as H. destruct (generate _ _ _ _) as [[[password|e] next]|].
    + by destruct H.
    + by right.
    + by split.
  - unfold generate. rewrite Hv. by left.
Qed.
End Generation.

(** ** Examples *)

(** A source that counts, over all the byte values. *)
Definition counting : Reader := λ n, Ok (chr (Z.of_nat n mod 256)).

Example generate_example :
  fst <$> generate counting 129 DefaultPolicy 97%nat = Some (Ok "zJ#BtRLDGQNK9PFMESHAOICU").
Proof. vm_compute. reflexivity. Qed.

(** A source of one byte that is always rejected: no number of rounds is enough. *)
Example generate_stuck : generate (λ _, Ok "255"%char) 100 DefaultPolicy 0%nat = None.
Proof. vm_compute. reflexivity. Qed.
