(* ===== verification/Redactor.v ===== *)
(** The redaction of injected values from the output of a command before an
    agent sees it ([internal/agentbroker/redact.go]). *)
From S2P Require Import Prelude Base64 Text.
From stdpp Require Import options.

(** ** Encodings

    The forms of a value that a program is likely to print: library encoders of
    the language. *)

Fixpoint map_bytes (f : ascii → string) (s : string) : string :=
  match s with
  | EmptyString => ""
  | String c rest => f c +:+ map_bytes f rest
  end.

Definition standard_char (c : ascii) : ascii :=
  if Ascii.eqb c "-" then "+" else if Ascii.eqb c "_" then "/" else c.

(** The padding of a base64 text of [n] bytes. *)
Definition padding (n : Z) : string :=
  match n mod 3 with 1 => "==" | 2 => "=" | _ => "" end.

Definition RawURLEncoding (value : string) : string := encode value.
Definition URLEncoding (value : string) : string := encode value +:+ padding (slen value).
Definition RawStdEncoding (value : string) : string := map_bytes (λ c, String (standard_char c) "") (encode value).
Definition StdEncoding (value : string) : string := RawStdEncoding value +:+ padding (slen value).

Definition upper_char (c : ascii) : ascii := if is_lower c then chr (code c - 32) else c.
(** [strings.ToUpper] of an ASCII text. *)
Definition ToUpper (s : string) : string := map_bytes (λ c, String (upper_char c) "") s.

(** [%XX] *)
Definition percent (c : ascii) : string := String "%" (ToUpper (hex (String c ""))).

Definition unreserved (c : ascii) : bool :=
  is_lower c || is_upper c || is_digit c || contains_byte c "-_.~".

(** [url.QueryEscape] and [url.PathEscape] *)
Definition QueryEscape (value : string) : string :=
  map_bytes (λ c, if Ascii.eqb c " " then "+" else if unreserved c then String c "" else percent c) value.
Definition PathEscape (value : string) : string :=
  map_bytes (λ c, if unreserved c || contains_byte c "$&+:=@" then String c "" else percent c) value.

Definition quote : ascii := "034".
Definition backslash : ascii := "092".
Definition escaped (c : ascii) : string := String backslash (String c "").
Definition unicode_escape (digits : string) : string := escaped "u" +:+ digits.

(** A rune inside a JSON string, as [json.Marshal] writes it. *)
Definition json_rune (r : string) : string :=
  match r with
  | String c EmptyString =>
      if 128 <=? code c then unicode_escape "fffd"
      else if Ascii.eqb c quote || Ascii.eqb c backslash then escaped c
      else if code c =? 8 then escaped "b"
      else if code c =? 12 then escaped "f"
      else if code c =? 10 then escaped "n"
      else if code c =? 13 then escaped "r"
      else if code c =? 9 then escaped "t"
      else if (code c <? 32) || contains_byte c "<>&" then unicode_escape ("00" +:+ hex r)
      else r
  | _ =>
      if rune_value r =? 8232 then unicode_escape "2028"
      else if rune_value r =? 8233 then unicode_escape "2029"
      else r
  end.

Definition json_string (value : string) : string :=
  String quote (concat_str (json_rune <$> runes value) +:+ String quote "").

Definition encodings (value : string) : list string :=
  [value; StdEncoding value; RawStdEncoding value; URLEncoding value; RawURLEncoding value;
   hex value; ToUpper (hex value); QueryEscape value; PathEscape value;
   trim_byte quote (json_string value)].

(** Besides the value: without the space around it, with either line ending,
    and each of its lines. *)
Definition variants (value : string) : list string :=
  let forms := [value] in
  let trimmed := TrimSpace value in
  let forms := if String.eqb trimmed value then forms else forms ++ [trimmed] in
  let forms :=
    if contains_byte cr value || contains_byte lf value then
      let unix := replace_crlf value in
      forms ++ [unix; replace_byte lf (String cr (String lf "")) unix] ++
        (split_on lf unix ≫= λ line, [trim_right (Ascii.eqb cr) line; TrimSpace line])
    else forms in
  forms ≫= encodings.

Example encodings_example :
  encodings "a b+/\é" =
    ["a b+/\é"; "YSBiKy9cw6k="; "YSBiKy9cw6k"; "YSBiKy9cw6k="; "YSBiKy9cw6k"; "6120622b2f5cc3a9"; "6120622B2F5CC3A9";
     "a+b%2B%2F%5C%C3%A9"; "a%20b+%2F%5C%C3%A9"; "a b+/\\é"].
Proof. vm_compute. reflexivity. Qed.

(** ** The redactor *)

Definition minNeedle : Z := 8.

Record needle := { n_text : list ascii; n_label : string }.

Record Redactor := { needles : list needle }.

(** [sort.SliceStable] by the length of the text, longest first. *)
Fixpoint insert_needle (n : needle) (l : list needle) : list needle :=
  match l with
  | [] => [n]
  | m :: rest =>
      if (List.length (n_text n) <? List.length (n_text m))%nat then m :: insert_needle n rest else n :: l
  end.

Definition label_of (name : string) : string := "[REDACTED:" +:+ name +:+ "]".

Definition add_variant (name : string) (st : gset string * list needle) (variant : string) : gset string * list needle :=
  let '(seen, l) := st in
  if (slen variant <? minNeedle) || bool_decide (variant ∈ seen) then st
  else ({[variant]} ∪ seen, l ++ [{| n_text := list_ascii_of_string variant; n_label := label_of name |}]).

Definition add_value (values : gmap string string) (st : gset string * list needle) (name : string) :
    gset string * list needle :=
  foldl (add_variant name) st (variants (default "" (values !! name))).

Definition NewRedactor (values : gmap string string) : Redactor :=
  let names := sort_strings (fst <$> map_to_list values) in
  {| needles := foldr insert_needle [] (snd (foldl (add_value values) (∅, []) names)) |}.

Record span := { s_start : nat; s_end : nat; s_label : string }.

(** [bytes.Index] *)
Fixpoint Index (out text : list ascii) : option nat :=
  if bool_decide (text `prefix_of` out) then Some 0%nat
  else match out with
       | [] => None
       | _ :: rest => S <$> Index rest text
       end.

(** The loop over the occurrences of a needle, overlapping ones too; it moves
    forward in every round, so that the length of the output bounds the rounds. *)
Fixpoint find_all (rounds : nat) (n : needle) (out : list ascii) (from : nat) : list span :=
  match rounds with
  | O => []
  | S rounds =>
      if (from <? List.length out)%nat then
        match Index (drop from out) (n_text n) with
        | None => []
        | Some i =>
            {| s_start := from + i; s_end := from + i + List.length (n_text n); s_label := n_label n |} ::
            find_all rounds n out (from + i + 1)
        end
      else []
  end.

(** The longest fragment at the end of the output, of at most [k] bytes, that
    begins the needle. *)
Fixpoint find_fragment (k : nat) (n : needle) (out : list ascii) : list span :=
  match k with
  | O => []
  | S k' =>
      if bool_decide (drop (List.length out - k) out = take k (n_text n)) then
        [{| s_start := List.length out - k; s_end := List.length out; s_label := n_label n |}]
      else find_fragment k' n out
  end.

Definition find_spans (r : Redactor) (out : list ascii) (cut : bool) : list span :=
  (needles r ≫= λ n, find_all (List.length out) n out 0) ++
  (if cut then needles r ≫= λ n, find_fragment (Nat.min (List.length (n_text n) - 1) (List.length out)) n out else []).

(** [sort.Slice] by the start of the spans: the order of spans with the same
    start is not specified. *)
Class SpanSort := {
  sort_spans : list span → list span;
  sort_spans_perm l : sort_spans l ≡ₚ l;
  sort_spans_sorted l : StronglySorted (λ a b, s_start a ≤ s_start b)%nat (sort_spans l)
}.

(** The spans that overlap the one that reaches to [stop]: the end of them all,
    and the spans after. *)
Fixpoint absorb (stop : nat) (spans : list span) : nat * list span :=
  match spans with
  | s :: rest => if (s_start s <? stop)%nat then absorb (Nat.max stop (s_end s)) rest else (stop, spans)
  | [] => (stop, [])
  end.

(** The output from [pos] on, and the number of replaced spans; every round
    takes at least one span. *)
Fixpoint replace_spans (rounds : nat) (spans : list span) (pos : nat) (out : list ascii) : list ascii * nat :=
  match rounds, spans with
  | S rounds, s :: rest =>
      let '(stop, rest) := absorb (s_end s) rest in
      let '(tail, count) := replace_spans rounds rest stop out in
      (take (s_start s - pos) (drop pos out) ++ list_ascii_of_string (s_label s) ++ tail, S count)
  | _, _ => (drop pos out, O)
  end.

Section Redact.
Context {sorting : SpanSort}.

Definition Redact (r : Redactor) (out : list ascii) (cut : bool) : list ascii * nat :=
  let spans := find_spans r out cut in
  if bool_decide (spans = []) then (out, O)
  else replace_spans (List.length spans) (sort_spans spans) 0 out.
End Redact.

(** ** The needles are the variants of the values *)

Definition injected (values : gmap string string) (name variant : string) : Prop :=
  ∃ value, values !! name = Some value ∧ variant ∈ variants value ∧ minNeedle ≤ slen variant.

(** The needles made so far: of [names], each for a variant, and one for each
    variant that was seen. *)
Record needles_ok (values : gmap string string) (names : list string) (st : gset string * list needle) : Prop := {
  no_sound : ∀ n, n ∈ snd st → ∃ name variant,
    injected values name variant ∧ n_text n = list_ascii_of_string variant ∧ n_label n = label_of name;
  no_complete : ∀ variant, variant ∈ fst st → ∃ n, n ∈ snd st ∧ n_text n = list_ascii_of_string variant;
  no_seen : ∀ name variant, name ∈ names → injected values name variant → variant ∈ fst st;
}.

Lemma add_variant_ok values names name variant st :
  needles_ok values names st → (minNeedle ≤ slen variant → injected values name variant) →
  needles_ok values names (add_variant name st variant) ∧ fst st ⊆ fst (add_variant name st variant) ∧
  (minNeedle ≤ slen variant → variant ∈ fst (add_variant name st variant)).
Proof.
  intros [Hs Hc Hn] Hinj. destruct st as [seen l]. unfold add_variant.
  destruct (Z.ltb_spec (slen variant) minNeedle); [split; [done|]; split; [done|]; lia|].
  destruct (bool_decide_reflect (variant ∈ seen)) as [|Hfresh]; [done|]. cbn [orb fst snd] in *. split; [|set_solver]. split.
  - simpl. intros n [Hn'|Hn'%list_elem_of_singleton]%elem_of_app; [by apply Hs|]. subst n. exists name, variant. naive_solver.
  - simpl. intros v [Hv%elem_of_singleton|Hv]%elem_of_union; [subst v|destruct (Hc v Hv) as (n & ? & ?)].
    + eexists. split; [apply elem_of_app; right; by apply list_elem_of_singleton|done].
    + exists n. split; [apply elem_of_app; by left|done].
  - intros nm v Hnm Hv. simpl. set_solver.
Qed.

Lemma add_variants_ok values names name l st :
  needles_ok values names st →
  (∀ variant, variant ∈ l → minNeedle ≤ slen variant → injected values name variant) →
  needles_ok values names (foldl (add_variant name) st l) ∧ fst st ⊆ fst (foldl (add_variant name) st l) ∧
  ∀ variant, variant ∈ l → minNeedle ≤ slen variant → variant ∈ fst (foldl (add_variant name) st l).
Proof.
  revert st. induction l as [|variant l IH]; intros st Hok Hinj; cbn [foldl]; [set_solver|].
  destruct (add_variant_ok values names name variant st) as (Hok' & Hsub & Hin); [done|set_solver|].
  destruct (IH _ Hok') as (Hok'' & Hsub' & Hin'); [set_solver|]. split; [done|]. split; [set_solver|].
  intros v [->|Hv]%elem_of_cons Hlen; [|by apply Hin']. apply Hsub'. by apply Hin.
Qed.

Lemma add_value_ok values names name st :
  needles_ok values names st → is_Some (values !! name) → needles_ok values (name :: names) (add_value values st name).
Proof.
  intros Hok [value Hv]. unfold add_value. rewrite Hv. simpl.
  destruct (add_variants_ok values names name (variants value) st Hok) as (Hok' & Hsub & Hin).
  { intros variant Hvar Hlen. by exists value. }
  destruct Hok' as [Hs Hc Hn]. split; [done|done|]. intros nm variant [->|Hnm]%elem_of_cons Hinj; [|by apply (Hn nm)].
  destruct Hinj as (value' & Hv' & Hvar & Hlen). simplify_eq. by apply Hin.
Qed.

Lemma add_values_ok values names st done_ :
  needles_ok values done_ st → Forall (λ name, is_Some (values !! name)) names →
  ∃ done', needles_ok values done' (foldl (add_value values) st names) ∧ names ⊆ done' ∧ done_ ⊆ done'.
Proof.
  intros Hok Hall. revert st done_ Hok. induction Hall as [|name names Hname _ IH]; intros st done_ Hok; cbn [foldl].
  - exists done_. set_solver.
  - destruct (IH (add_value values st name) (name :: done_)) as (done' & Hok' & Hsub & Hdone); [by apply add_value_ok|]. exists done'. set_solver.
Qed.

Lemma insert_needle_perm n l : insert_needle n l ≡ₚ n :: l.
Proof.
  induction l as [|m l IH]; [done|]. cbn [insert_needle].
  destruct (_ <? _)%nat; [rewrite IH; apply perm_swap|done].
Qed.

Lemma sort_needles_perm l : foldr insert_needle [] l ≡ₚ l.
Proof. induction l as [|n l IH]; [done|]. cbn [foldr]. by rewrite insert_needle_perm, IH. Qed.

Lemma NewRedactor_spec values :
  (∀ n, n ∈ needles (NewRedactor values) → ∃ name variant,
     injected values name variant ∧ n_text n = list_ascii_of_string variant ∧ n_label n = label_of name) ∧
  (∀ name variant, injected values name variant →
     ∃ n, n ∈ needles (NewRedactor values) ∧ n_text n = list_ascii_of_string variant).
Proof.
  set (names := sort_strings (fst <$> map_to_list values)).
  assert (Hnames : ∀ name, name ∈ names ↔ is_Some (values !! name)).
  { intros name. unfold names. rewrite sort_strings_perm, list_elem_of_fmap. split.
    - intros ([k v] & -> & Hin%elem_of_map_to_list). by exists v.
    - intros [v Hv]. exists (name, v). split; [done|by apply elem_of_map_to_list]. }
  destruct (add_values_ok values names (∅, []) []) as (done' & [Hs Hc Hn] & Hsub & _).
  { split; set_solver. }
  { apply Forall_forall. intros name. apply Hnames. }
  cbn [NewRedactor needles]. fold names. split.
  - intros n Hin. rewrite sort_needles_perm in Hin. by apply Hs.
  - intros name variant Hinj. destruct (Hc variant) as (n & Hin & Ht).
    + apply (Hn name); [|done]. apply Hsub, Hnames. destruct Hinj as (value & -> & _). done.
    + exists n. by rewrite sort_needles_perm.
Qed.

(** ** The spans are the occurrences *)

Lemma Index_Some out text i :
  Index out text = Some i → text `prefix_of` drop i out ∧ ∀ j, (j < i)%nat → ¬ text `prefix_of` drop j out.
Proof.
  revert i. induction out as [|c out IH]; intros i; cbn [Index]; case_bool_decide as Hp; intros E; simplify_eq; try (split; [done|lia]).
  destruct (Index out text) as [k|] eqn:Ek; [|done]. simplify_eq/=. destruct (IH k eq_refl) as [Hk Hlow].
  split; [done|]. intros [|j] Hj; [done|]. simpl. apply Hlow. lia.
Qed.

Lemma Index_None out text : Index out text = None → ∀ j, ¬ text `prefix_of` drop j out.
Proof.
  induction out as [|c out IH]; cbn [Index]; case_bool_decide as Hp; intros E; simplify_eq; intros j.
  - by rewrite drop_nil.
  - destruct (Index out text); [done|]. destruct j as [|j]; [done|]. simpl. by apply IH.
Qed.

Lemma prefix_drop_bound (text out : list ascii) a :
  text ≠ [] → text `prefix_of` drop a out → (a + List.length text ≤ List.length out)%nat.
Proof.
  intros Hne Hp. pose proof (prefix_length _ _ Hp) as Hl. rewrite length_drop in Hl.
  destruct text; [done|]. simpl in *. lia.
Qed.

Definition span_of (n : needle) (a : nat) : span :=
  {| s_start := a; s_end := a + List.length (n_text n); s_label := n_label n |}.

Lemma find_all_spec rounds n out from s :
  n_text n ≠ [] → (List.length out ≤ rounds + from)%nat →
  s ∈ find_all rounds n out from ↔ ∃ a, (from ≤ a)%nat ∧ n_text n `prefix_of` drop a out ∧ s = span_of n a.
Proof.
  intros Hne. revert from. induction rounds as [|rounds IH]; intros from Hr; cbn [find_all].
  - split; [by intros ?%elem_of_nil|]. intros (a & Ha & Hp%prefix_drop_bound & _); [|done].
    destruct (n_text n); [done|]. simpl in *. lia.
  - destruct (Nat.ltb_spec from (List.length out)) as [Hlt|Hge].
    2: { split; [by intros ?%elem_of_nil|]. intros (a & Ha & Hp%prefix_drop_bound & _); [|done].
         destruct (n_text n); [done|]. simpl in *. lia. }
    destruct (Index (drop from out) (n_text n)) as [i|] eqn:Ei.
    + apply Index_Some in Ei as [Hp Hlow]. rewrite drop_drop in Hp. rewrite elem_of_cons, IH by lia. split.
      * intros [->|(a & Ha & Hpa & ->)]; [exists (from + i)%nat|exists a]; split_and!; try done; lia.
      * intros (a & Ha & Hpa & ->). destruct (decide (a = from + i)%nat) as [->|Hneq]; [by left|right].
        exists a. split_and!; [|done|done]. destruct (Nat.lt_ge_cases a (from + i)); [|lia].
        exfalso. apply (Hlow (a - from)%nat); [lia|]. rewrite drop_drop. by replace (from + (a - from))%nat with a by lia.
    + split; [by intros ?%elem_of_nil|]. intros (a & Ha & Hp & _). exfalso.
      apply (Index_None _ _ Ei (a - from)). rewrite drop_drop. by replace (from + (a - from))%nat with a by lia.
Qed.

(** The last [k] bytes of the output begin the needle. *)
Definition fragment (text out : list ascii) (k : nat) : Prop :=
  (0 < k < List.length text)%nat ∧ (k ≤ List.length out)%nat ∧ drop (List.length out - k) out = take k text.

Lemma find_fragment_spec k n out :
  (k < List.length (n_text n))%nat → (k ≤ List.length out)%nat →
  (∀ s, s ∈ find_fragment k n out → ∃ j, fragment (n_text n) out j ∧
     s = {| s_start := List.length out - j; s_end := List.length out; s_label := n_label n |}) ∧
  (∀ j, (j ≤ k)%nat → fragment (n_text n) out j → ∃ s, s ∈ find_fragment k n out ∧
     (s_start s ≤ List.length out - j)%nat ∧ s_end s = List.length out).
Proof.
  induction k as [|k IH]; intros Hk Ho; cbn [find_fragment].
  - split; [by intros s ?%elem_of_nil|]. intros j Hj (? & _). lia.
  - case_bool_decide as Hf.
    + split.
      * intros s ->%list_elem_of_singleton. exists (S k). split; [|done]. split; [lia|done].
      * intros j Hj Hfr. eexists. split; [by apply list_elem_of_singleton|]. simpl. lia.
    + destruct IH as [Hs Hc]; [lia..|]. split; [done|]. intros j Hj Hfr. apply Hc; [|done].
      destruct (decide (j = S k)) as [->|]; [|lia]. by destruct Hfr as (_ & _ & ?).
Qed.

Definition covers (s : span) (i : nat) : Prop := (s_start s ≤ i < s_end s)%nat.

(** The position [i] of the output belongs to an occurrence of a variant of a
    value, or to a cut-off one at the end. *)
Definition secret_at (values : gmap string string) (out : list ascii) (cut : bool) (i : nat) : Prop :=
  ∃ name variant, injected values name variant ∧
    ((∃ a, list_ascii_of_string variant `prefix_of` drop a out ∧
        (a ≤ i < a + List.length (list_ascii_of_string variant))%nat) ∨
     cut = true ∧ ∃ k, fragment (list_ascii_of_string variant) out k ∧ (List.length out - k ≤ i < List.length out)%nat).

(** A span starts where a variant of the value that its label names occurs, or
    where a cut-off one begins. *)
Definition span_ok (values : gmap string string) (out : list ascii) (cut : bool) (s : span) : Prop :=
  (s_start s < s_end s ≤ List.length out)%nat ∧
  ∃ name variant, injected values name variant ∧ s_label s = label_of name ∧
    (list_ascii_of_string variant `prefix_of` drop (s_start s) out ∨
     cut = true ∧ fragment (list_ascii_of_string variant) out (List.length out - s_start s)).

Lemma injected_length values name variant :
  injected values name variant → (8 ≤ List.length (list_ascii_of_string variant))%nat.
Proof.
  intros (value & _ & _ & Hl). unfold slen, minNeedle in Hl.
  assert (Hs : String.length variant = List.length (list_ascii_of_string variant)).
  { clear Hl. induction variant as [|c v IH]; [done|]. cbn. by rewrite IH. }
  lia.
Qed.

Lemma find_spans_ok values out cut :
  (∀ s, s ∈ find_spans (NewRedactor values) out cut → span_ok values out cut s) ∧
  (∀ i, (∃ s, s ∈ find_spans (NewRedactor values) out cut ∧ covers s i) ↔ secret_at values out cut i).
Proof.
  destruct (NewRedactor_spec values) as [Hsound Hcomplete].
  assert (Hneedle : ∀ n, n ∈ needles (NewRedactor values) → (8 ≤ List.length (n_text n))%nat).
  { intros n (name & variant & Hinj & -> & _)%Hsound. by eapply injected_length. }
  assert (Hall : ∀ n s, n ∈ needles (NewRedactor values) → s ∈ find_all (List.length out) n out 0 ↔
    ∃ a, n_text n `prefix_of` drop a out ∧ s = span_of n a).
  { intros n s Hn. specialize (Hneedle n Hn). rewrite find_all_spec; [|by destruct (n_text n); simpl in *; [lia|]|lia].
    split; [intros (a & _ & H); by exists a|intros (a & H); exists a; split; [lia|done]]. }
  unfold find_spans. split.
  - intros s [(n & Hs & Hn)%list_elem_of_bind|Hs]%elem_of_app.
    + apply (Hall n s Hn) in Hs as (a & Hp & ->). pose proof (Hneedle n Hn) as Hlen.
      apply Hsound in Hn as (name & variant & Hinj & Ht & Hl).
      apply prefix_drop_bound in Hp as Hb; [|by destruct (n_text n); simpl in *; [lia|]].
      split; [simpl; lia|]. exists name, variant. split_and!; [done|done|]. left. simpl. by rewrite <-Ht.
    + destruct cut; [|by apply elem_of_nil in Hs]. apply list_elem_of_bind in Hs as (n & Hs & Hn).
      apply find_fragment_spec in Hs as (j & Hf & ->); [|specialize (Hneedle n Hn); lia|lia].
      apply Hsound in Hn as (name & variant & Hinj & Ht & Hl). destruct Hf as (Hj & Ho & Hf).
      split; [simpl; lia|]. exists name, variant. split_and!; [done|done|]. right. split; [done|]. simpl.
      rewrite <-Ht. replace (List.length out - (List.length out - j))%nat with j by lia. by split.
  - intros i. split.
    + intros (s & [(n & Hs & Hn)%list_elem_of_bind|Hs]%elem_of_app & Hc).
      * apply (Hall n s Hn) in Hs as (a & Hp & ->). apply Hsound in Hn as (name & variant & Hinj & Ht & Hl).
        exists name, variant. split; [done|]. left. exists a. by rewrite <-Ht.
      * destruct cut; [|by apply elem_of_nil in Hs]. apply list_elem_of_bind in Hs as (n & Hs & Hn).
        apply find_fragment_spec in Hs as (j & Hf & ->); [|specialize (Hneedle n Hn); lia|lia].
        apply Hsound in Hn as (name & variant & Hinj & Ht & Hl).
        exists name, variant. split; [done|]. right. split; [done|]. exists j. by rewrite <-Ht.
    + intros (name & variant & Hinj & Hat). destruct (Hcomplete _ _ Hinj) as (n & Hn & Ht). rewrite <-Ht in Hat.
      destruct Hat as [(a & Hp & Hi)|(-> & k & Hf & Hi)].
      * exists (span_of n a). split; [|done]. apply elem_of_app. left. apply list_elem_of_bind.
        exists n. split; [|done]. apply Hall; [done|by exists a].
      * destruct (find_fragment_spec (Nat.min (List.length (n_text n) - 1) (List.length out)) n out) as [_ Hc];
          [specialize (Hneedle n Hn); lia|lia|].
        destruct (Hc k) as (s & Hs & Hstart & Hend); [destruct Hf as ([] & ? & _); lia|done|].
        exists s. split; [|unfold covers; lia]. apply elem_of_app. right. apply list_elem_of_bind. by exists n.
Qed.

(** ** What redaction does *)

(** The output in pieces: kept as they are, or hidden behind a label. *)
Inductive piece := Kept (text : list ascii) | Hidden (text : list ascii) (label : string).

Definition original (p : piece) : list ascii := match p with Kept text | Hidden text _ => text end.
Definition shown (p : piece) : list ascii :=
  match p with Kept text => text | Hidden _ label => list_ascii_of_string label end.

(** The position [i] is in a hidden piece. *)
Fixpoint hidden_at (pieces : list piece) (i : nat) : Prop :=
  match pieces with
  | [] => False
  | Kept text :: rest => (List.length text ≤ i)%nat ∧ hidden_at rest (i - List.length text)
  | Hidden text _ :: rest => (i < List.length text)%nat ∨ (List.length text ≤ i)%nat ∧ hidden_at rest (i - List.length text)
  end.

(** The hidden pieces from [pos] on: where they start and their labels. *)
Fixpoint labels_from (pieces : list piece) (pos : nat) : list (nat * string) :=
  match pieces with
  | [] => []
  | Kept text :: rest => labels_from rest (pos + List.length text)
  | Hidden text label :: rest => (pos, label) :: labels_from rest (pos + List.length text)
  end.

Lemma absorb_spec stop spans stop' rest base :
  absorb stop spans = (stop', rest) → (base ≤ stop)%nat → Forall (λ s, base ≤ s_start s)%nat spans →
  StronglySorted (λ a b, s_start a ≤ s_start b)%nat spans →
  ∃ taken, spans = taken ++ rest ∧ (stop ≤ stop')%nat ∧ Forall (λ s, stop' ≤ s_start s)%nat rest ∧
    (∀ len, (stop ≤ len)%nat → Forall (λ s, s_end s ≤ len)%nat spans → (stop' ≤ len)%nat) ∧
    ∀ i, (base ≤ i < stop')%nat ↔ (base ≤ i < stop)%nat ∨ ∃ s, s ∈ taken ∧ covers s i.
Proof.
  revert stop. induction spans as [|s spans IH]; intros stop; cbn [absorb].
  { intros [= <- <-] Hb _ _. exists []. split_and!; [done|done|constructor|done|]. set_solver. }
  intros E Hb [Hs Hall]%Forall_cons [Hss Hle]%StronglySorted_inv.
  destruct (Nat.ltb_spec (s_start s) stop) as [Hlt|Hge].
  - destruct (IH _ E) as (taken & -> & Hstop & Hrest & Hlen & Hcov); [lia|done|done|]. exists (s :: taken).
    split_and!; [done|lia|done| |].
    + intros len Hl [He Hends]%Forall_cons. apply Hlen; [lia|done].
    + intros i. rewrite Hcov. unfold covers. split.
      * intros [Hi|(s' & Hs' & Hc)]; [|right; exists s'; split; [by right|done]].
        destruct (Nat.lt_ge_cases i stop); [left; lia|right; exists s; split; [by left|lia]].
      * intros [Hi|(s' & [->|Hs']%elem_of_cons & Hc)]; [left; lia|left; lia|right; by exists s'].
  - simplify_eq. exists []. split_and!; [done|done| |done|set_solver].
    constructor; [done|]. eapply Forall_impl; [exact Hle|]. simpl. lia.
Qed.

Lemma replace_spans_spec rounds spans pos out :
  (List.length spans ≤ rounds)%nat → StronglySorted (λ a b, s_start a ≤ s_start b)%nat spans →
  Forall (λ s, pos ≤ s_start s ∧ s_start s < s_end s ≤ List.length out)%nat spans → (pos ≤ List.length out)%nat →
  ∃ pieces, drop pos out = pieces ≫= original ∧ (replace_spans rounds spans pos out).1 = pieces ≫= shown ∧
    (replace_spans rounds spans pos out).2 = List.length (labels_from pieces pos) ∧
    (∀ i, hidden_at pieces i ↔ ∃ s, s ∈ spans ∧ covers s (pos + i)) ∧
    (∀ at_ label, (at_, label) ∈ labels_from pieces pos → ∃ s, s ∈ spans ∧ at_ = s_start s ∧ label = s_label s).
Proof.
  assert (Hend : ∀ pos, ∃ pieces, drop pos out = pieces ≫= original ∧ drop pos out = pieces ≫= shown ∧
    0%nat = List.length (labels_from pieces pos) ∧ (∀ i, hidden_at pieces i ↔ ∃ s, s ∈ [] ∧ covers s (pos + i)) ∧
    (∀ at_ label, (at_, label) ∈ labels_from pieces pos → ∃ s, s ∈ [] ∧ at_ = s_start s ∧ label = s_label s)).
  { intros p. exists [Kept (drop p out)]. simpl. rewrite app_nil_r. split_and!; [done..|set_solver|set_solver]. }
  revert spans pos. induction rounds as [|rounds IH]; intros [|s spans] pos Hr Hsort Hok Hpos;
    cbn [replace_spans]; [apply Hend|simpl in Hr; lia|apply Hend|].
  apply StronglySorted_inv in Hsort as [Hsort Hle]. apply Forall_cons in Hok as [[Hps Hse] Hok].
  destruct (absorb (s_end s) spans) as [stop rest] eqn:Ea.
  destruct (absorb_spec _ _ _ _ (s_start s) Ea) as (taken & -> & Hstop & Hrest & Hlen & Hcov); [lia|done|done|].
  assert (Hsl : (stop ≤ List.length out)%nat).
  { apply Hlen; [lia|]. eapply Forall_impl; [exact Hok|]. simpl. lia. }
  destruct (IH rest stop) as (pieces & Hout & Hshown & Hcount & Hhidden & Hlabels).
  { cbn [List.length] in Hr; rewrite length_app in Hr. lia. }
  { by apply StronglySorted_app in Hsort as (_ & _ & ?). }
  { apply Forall_app in Hok as [_ Hok]. rewrite Forall_forall in *. intros x Hx.
    specialize (Hok x Hx). specialize (Hrest x Hx). simpl in *. lia. }
  { done. }
  destruct (replace_spans rounds rest stop out) as [tail count]. cbn [fst snd] in *. subst tail count.
  exists (Kept (take (s_start s - pos) (drop pos out)) :: Hidden (take (stop - s_start s) (drop (s_start s) out)) (s_label s) :: pieces).
  assert (Hk : List.length (take (s_start s - pos) (drop pos out)) = (s_start s - pos)%nat)
    by (rewrite length_take, length_drop; lia).
  assert (Hh : List.length (take (stop - s_start s) (drop (s_start s) out)) = (stop - s_start s)%nat)
    by (rewrite length_take, length_drop; lia).
  split_and!.
  - rewrite !bind_cons, <-Hout. cbn [original]. rewrite <-(take_drop (s_start s - pos) (drop pos out)) at 1. f_equal.
    rewrite drop_drop. replace (pos + (s_start s - pos))%nat with (s_start s) by lia.
    rewrite <-(take_drop (stop - s_start s) (drop (s_start s) out)) at 1. f_equal.
    rewrite drop_drop. f_equal. lia.
  - done.
  - cbn [labels_from]. rewrite Hk, Hh. cbn [List.length]. do 3 f_equal. lia.
  - intros i. cbn [hidden_at]. rewrite Hk, Hh, Hhidden.
    specialize (Hcov (pos + i)%nat). split.
    + intros (Hi & [Hlt|(Hge & s' & Hin & Hc)]).
      * assert (Hin : (s_start s ≤ pos + i < stop)%nat) by lia. apply Hcov in Hin as [Hin|(s' & Hin & Hc)].
        { exists s. split; [by left|done]. }
        exists s'. split; [right; apply elem_of_app; by left|done].
      * exists s'. split; [right; apply elem_of_app; by right|].
        by replace (stop + (i - (s_start s - pos) - (stop - s_start s)))%nat with (pos + i)%nat in Hc by lia.
    + intros (s' & [->|[Hin|Hin]%elem_of_app]%elem_of_cons & Hc).
      * unfold covers in Hc. split; [lia|]. left. lia.
      * assert (Hx : (s_start s ≤ pos + i < stop)%nat) by (apply Hcov; right; by exists s'). split; [lia|]. left. lia.
      * rewrite Forall_forall in Hrest. specialize (Hrest _ Hin). unfold covers in Hc. split; [lia|]. right.
        split; [lia|]. exists s'. split; [done|]. unfold covers. lia.
  - intros at_ label. cbn [labels_from]. rewrite Hk, Hh. intros [[= -> ->]|Hin]%elem_of_cons.
    + exists s. split_and!; [by left|lia|done].
    + replace (pos + (s_start s - pos) + (stop - s_start s))%nat with stop in Hin by lia.
      apply Hlabels in Hin as (s' & Hin & ?). exists s'. split; [right; apply elem_of_app; by right|done].
Qed.

Section Redaction.
Context {sorting : SpanSort}.

(** C11: redaction hides exactly the injected values.  The output is cut into
    pieces; the kept ones are returned as they are, the hidden ones are replaced
    and counted.  A byte is hidden exactly when it belongs to an occurrence,
    overlapping others or not, of some variant of at least eight bytes of an
    injected value, or, in an output that was cut off, to a beginning of one at
    its end; and each label names a value of which a variant, or such a
    beginning, starts there.  This holds for any order in which the spans with
    the same start are sorted. *)
Theorem redaction_exact values out (cut : bool) :
  let '(redacted, count) := Redact (NewRedactor values) out cut in
  ∃ pieces, out = pieces ≫= original ∧ redacted = pieces ≫= shown ∧ count = List.length (labels_from pieces 0) ∧
    (∀ i, hidden_at pieces i ↔ secret_at values out cut i) ∧
    ∀ at_ label, (at_, label) ∈ labels_from pieces 0 → ∃ name variant, injected values name variant ∧
      label = label_of name ∧
      (list_ascii_of_string variant `prefix_of` drop at_ out ∨
       cut = true ∧ fragment (list_ascii_of_string variant) out (List.length out - at_)).
Proof.
  destruct (find_spans_ok values out cut) as [Hok Hcov]. unfold Redact.
  set (spans := find_spans _ _ _) in *. case_bool_decide as He.
  - exists [Kept out]. rewrite He in Hcov. simpl. rewrite app_nil_r.
    split_and!; [done..| |set_solver]. intros i. rewrite <-Hcov. set_solver.
  - destruct (replace_spans_spec (List.length spans) (sort_spans spans) 0 out) as (pieces & Ho & Hs & Hc & Hh & Hl).
    + by rewrite sort_spans_perm.
    + apply sort_spans_sorted.
    + rewrite sort_spans_perm. apply Forall_forall. intros s Hin. destruct (Hok s Hin) as [? _]. lia.
    + lia.
    + destruct (replace_spans _ _ _ _) as [redacted count]. cbn [fst snd] in *. exists pieces.
      split_and!; [done..| |].
      * intros i. rewrite Hh, <-Hcov. by setoid_rewrite sort_spans_perm.
      * intros a label Hin. apply Hl in Hin as (s & Hin & -> & ->). rewrite sort_spans_perm in Hin.
        destruct (Hok s Hin) as (_ & name & variant & ? & ? & ?). by exists name, variant.
Qed.
End Redaction.

(** ** An example *)

Fixpoint insert_span (s : span) (l : list span) : list span :=
  match l with
  | [] => [s]
  | t :: rest => if (s_start s <=? s_start t)%nat then s :: l else t :: insert_span s rest
  end.

Lemma insert_span_perm s l : insert_span s l ≡ₚ s :: l.
Proof. induction l as [|t l IH]; [done|]. cbn. destruct (_ <=? _)%nat; [done|]. rewrite IH. apply perm_swap. Qed.

Lemma insert_span_sorted s l :
  StronglySorted (λ a b, s_start a ≤ s_start b)%nat l → StronglySorted (λ a b, s_start a ≤ s_start b)%nat (insert_span s l).
Proof.
  induction 1 as [|t l Hsort IH Hle]; cbn; [by repeat constructor|]. destruct (Nat.leb_spec (s_start s) (s_start t)).
  - constructor; [by constructor|]. constructor; [done|]. eapply Forall_impl; [exact Hle|]. simpl. lia.
  - constructor; [done|]. rewrite insert_span_perm. constructor; [lia|done].
Qed.

#[refine] Instance insertion_sort : SpanSort := {| sort_spans := foldr insert_span [] |}.
Proof.
  - intros l. induction l as [|s l IH]; [done|]. cbn. by rewrite insert_span_perm, IH.
  - intros l. induction l as [|s l IH]; [constructor|]. cbn. by apply insert_span_sorted.
Defined.

Definition redact_text (values : gmap string string) (out : string) (cut : bool) : string * nat :=
  let '(redacted, count) := Redact (NewRedactor values) (list_ascii_of_string out) cut in
  (string_of_list_ascii redacted, count).

Example redact_example :
  redact_text {["TOKEN" := "tok_12345678"; "URL" := "db://u:p@h/x y"]}
    "a tok_12345678tok_12345678 b db%3A%2F%2Fu%3Ap%40h%2Fx+y c dG9rXzEyMzQ1Njc4 d tok_1" true =
    ("a [REDACTED:TOKEN][REDACTED:TOKEN] b [REDACTED:URL] c [REDACTED:TOKEN] d [REDACTED:TOKEN]", 5%nat).
Proof. vm_compute. reflexivity. Qed.
