(* ===== verification/ProtectedFill.v ===== *)
(** The protected fill of a secret into a page ([pkg/protectedfill/gate.go] and
    [pkg/protectedfill/operation.go]): the gate that all observations share, the
    coordinator that fills while it is shut, and the processes that run them.

    Every critical section of the gate is a function on its state; the steps of
    the concurrent calls, of the file system and of crashes are a relation. *)
From S2P Require Import Prelude Text.
From stdpp Require Import options.

(** ** The gate *)

(** An [Observe] call in progress: the epoch it started in and whether its
    context was cancelled. *)
Record Observer := { o_epoch : Z; o_cancelled : bool }.

Record Gate := {
  g_blocked : bool;
  g_closed : bool;
  g_epoch : Z;
  g_next : Z;
  g_pending : gmap Z Observer;
  (** [activeCancel != nil], and whether the context it cancels is cancelled. *)
  g_active : bool;
  g_cancelled : bool;
  (** [lock != nil] *)
  g_lock : bool
}.

(** The latch file: whether it is there, and whether it is there after a crash,
    [None] when that is not known. *)
Record Disk := { latch : bool; durable : option bool }.

(** uint64 arithmetic. *)
Definition next64 (z : Z) : Z := (z + 1) mod 2 ^ 64.

Definition set_gate (blocked closed : bool) (epoch : Z) (pending : gmap Z Observer) (g : Gate) : Gate :=
  {| g_blocked := blocked; g_closed := closed; g_epoch := epoch; g_next := g_next g; g_pending := pending;
     g_active := g_active g; g_cancelled := g_cancelled g; g_lock := g_lock g |}.

Definition cancel_all (pending : gmap Z Observer) : gmap Z Observer :=
  (λ o, {| o_epoch := o_epoch o; o_cancelled := true |}) <$> pending.

(** A new gate over the directory. *)
Definition OpenGate (d : Disk) : Gate :=
  {| g_blocked := latch d; g_closed := false; g_epoch := 0; g_next := 0; g_pending := ∅;
     g_active := false; g_cancelled := false; g_lock := true |}.

Definition Blocked (g : Gate) : bool := g_blocked g || g_closed g.

(** The first critical section of [Observe]: the number of the observation, if
    the gate is open. *)
Definition observe_start (g : Gate) : option (Z * Gate) :=
  if Blocked g then None
  else
    let id := next64 (g_next g) in
    Some (id, {| g_blocked := g_blocked g; g_closed := g_closed g; g_epoch := g_epoch g; g_next := id;
      g_pending := <[id := {| o_epoch := g_epoch g; o_cancelled := false |}]> (g_pending g);
      g_active := g_active g; g_cancelled := g_cancelled g; g_lock := g_lock g |}).

Inductive observation := Value (bytes : string) | ErrBlocked | CaptureFailed.

(** The last critical section of [Observe].  [captured]: what the capture
    returned, nothing if it failed or panicked; [done]: the caller's own context
    is cancelled. *)
Definition observe_finish (id : Z) (o : Observer) (captured : option string) (done : bool) (g : Gate) : observation * Gate :=
  let g' := set_gate (g_blocked g) (g_closed g) (g_epoch g) (delete id (g_pending g)) g in
  (if Blocked g || negb (o_epoch o =? g_epoch g) then ErrBlocked
   else match captured with
        | None => CaptureFailed
        | Some value => if done || o_cancelled o then CaptureFailed else Value value
        end, g').

(** What the file system does with the latch in [begin]: the file cannot be
    created, it is there but not known to be durable, or it is durable. *)
Inductive created := NotCreated | NotSynced | Synced.

(** [begin]; true when it returns no error.  The file is created exclusively. *)
Definition begin (outcome : created) (d : Disk) (g : Gate) : bool * Disk * Gate :=
  if Blocked g then (false, d, g)
  else
    let g := set_gate true (g_closed g) (next64 (g_epoch g)) (cancel_all (g_pending g)) g in
    if latch d then (false, d, g)
    else match outcome with
         | NotCreated => (false, d, g)
         | NotSynced => (false, {| latch := true; durable := None |}, g)
         | Synced => (true, {| latch := true; durable := Some true |}, g)
         end.

(** What the file system does in [resume]: the latch cannot be removed, its
    removal is not known to be durable (and it may be written again or not), or
    it is durable. *)
Inductive removed := NotRemoved | RemovalNotSynced (rewritten : bool) | Removed.

Definition resume (outcome : removed) (d : Disk) (g : Gate) : bool * Disk * Gate :=
  if g_closed g || negb (g_blocked g) then (false, d, g)
  else if negb (latch d) then (false, d, g)
  else match outcome with
       | NotRemoved => (false, d, g)
       | RemovalNotSynced rewritten => (false, {| latch := rewritten; durable := None |}, g)
       | Removed => (true, {| latch := false; durable := Some false |},
           set_gate false (g_closed g) (next64 (g_epoch g)) (g_pending g) g)
       end.

(** The first critical section of [Close], of a gate with its lock. *)
Definition close (g : Gate) : Gate :=
  {| g_blocked := g_blocked g; g_closed := true; g_epoch := next64 (g_epoch g); g_next := g_next g;
     g_pending := cancel_all (g_pending g); g_active := g_active g;
     g_cancelled := g_cancelled g || g_active g; g_lock := g_lock g |}.

(** The second one, under the operation lock. *)
Definition close_lock (g : Gate) : Gate :=
  {| g_blocked := g_blocked g; g_closed := g_closed g; g_epoch := g_epoch g; g_next := g_next g;
     g_pending := g_pending g; g_active := g_active g; g_cancelled := g_cancelled g; g_lock := false |}.

(** The context of the operation is new, so not cancelled, unless the gate is
    closed. *)
Definition bindOperation (g : Gate) : Gate :=
  {| g_blocked := g_blocked g; g_closed := g_closed g; g_epoch := g_epoch g; g_next := g_next g;
     g_pending := g_pending g; g_active := true; g_cancelled := g_closed g; g_lock := g_lock g |}.

Definition unbindOperation (g : Gate) : Gate :=
  {| g_blocked := g_blocked g; g_closed := g_closed g; g_epoch := g_epoch g; g_next := g_next g;
     g_pending := g_pending g; g_active := false; g_cancelled := g_cancelled g; g_lock := g_lock g |}.

(** ** Targets and receipts *)

Record Target := {
  t_Record : string; t_Context : string; t_Document : string; t_Field : string; t_Submit : string; t_Origin : string
}.

(** [browser.NormalizeOrigin] *)
Class Origins := { NormalizeOrigin : string → result string }.

Definition handle_char (c : ascii) : bool :=
  is_lower c || is_upper c || is_digit c || Ascii.eqb c "-" || Ascii.eqb c "_".

Definition validTarget {origins : Origins} (t : Target) : bool :=
  match NormalizeOrigin (t_Origin t) with
  | Err _ => false
  | Ok origin =>
      String.eqb origin (t_Origin t) && has_prefix "https://" origin &&
      forallb (λ s, nonempty s && (slen s <=? 128) && all_bytes handle_char s)
        [t_Record t; t_Context t; t_Document t; t_Field t; t_Submit t]
  end.

Inductive Receipt :=
| HOST_PROTECTION_UNAVAILABLE | TARGET_REJECTED | PROTECTED_OPERATION_BUSY | RECOVERY_REQUIRED
| FAILED_CONTEXT_CLOSED | SUBMISSION_ATTEMPTED_CONTEXT_CLOSED.
#[export] Instance Receipt_eq_dec : EqDecision Receipt.
Proof. solve_decision. Defined.

(** What a call of the driver, or of the function that reads the value, does:
    it returns, returns an error, or panics. *)
Inductive outcome (A : Type) := Returns (a : A) | Fails | Panics.
Arguments Returns {_} _.
Arguments Fails {_}.
Arguments Panics {_}.

(** The value that may be filled: not empty and of at most 64 KiB. *)
Definition usable (value : string) : bool := nonempty value && (slen value <=? 65536).

(** The receipt after [FillAndSubmit]; [live]: the context is not cancelled. *)
Definition fill_receipt (filled : outcome bool) (live : bool) : Receipt :=
  match filled with
  | Returns true => if live then SUBMISSION_ATTEMPTED_CONTEXT_CLOSED else FAILED_CONTEXT_CLOSED
  | _ => FAILED_CONTEXT_CLOSED
  end.

(** ** The system *)

(** How far the holder of the operation lock is.  [Run]: *)
Inductive phase :=
| Locked (t : Target)
| Bound (t : Target)
| Begun (t : Target)
| Validated (t : Target)
| HasValue (t : Target) (value : string)
| Filling (t : Target)
| Cleanup (t : Target) (validated : bool) (receipt : Receipt)
| Resuming (t : Target) (receipt : Receipt)
| Returning (t : Target) (receipt : Receipt)
(** [Recover]: *)
| Recovering
| DestroyingOrphans
| RecoveryResuming.

(** The process that holds the directory, if any, the latch, the holder of the
    operation lock, and whether a page may show a filled value. *)
Record State := { authority : option Gate; disk : Disk; holder : option phase; exposed : bool }.

Inductive event :=
| Internal
| Started (id : Z)
| Finished (id : Z) (result : observation)
| Returned (t : Target) (receipt : Receipt).

(** The context of an operation is cancelled by the gate, or by its timeout or
    its caller at any time. *)
Definition may_live (g : Gate) (live : bool) : Prop := g_cancelled g = true → live = false.

Definition after_validate (t : Target) (validated : outcome unit) : phase :=
  match validated with
  | Returns _ => Validated t
  | Fails => Cleanup t false TARGET_REJECTED
  | Panics => Cleanup t false FAILED_CONTEXT_CLOSED
  end.

(** From the validation to the value: [read] is not called with a cancelled
    context, and its result is dropped when the context is cancelled since. *)
Definition after_read (t : Target) (read : outcome string) (live : bool) : phase :=
  match read with
  | Returns value => if live && usable value then HasValue t value else Cleanup t true FAILED_CONTEXT_CLOSED
  | _ => Cleanup t true FAILED_CONTEXT_CLOSED
  end.

Definition is_Returns {A} (o : outcome A) : bool := match o with Returns _ => true | _ => false end.

Section System.
Context {origins : Origins}.

Inductive step : State → event → State → Prop :=
(** A process starts when no other has the lock of the directory. *)
| step_open s :
    match authority s with Some g => g_lock g = false ∧ holder s = None | None => True end →
    step s Internal {| authority := Some (OpenGate (disk s)); disk := disk s; holder := None; exposed := exposed s |}
(** A process dies; its pages stay, and so does what is durable. *)
| step_crash s after :
    durable (disk s) = None ∨ durable (disk s) = Some after →
    step s Internal {| authority := None; disk := {| latch := after; durable := Some after |}; holder := None;
      exposed := exposed s |}
| step_observe s g id g' :
    authority s = Some g → observe_start g = Some (id, g') →
    step s (Started id) {| authority := Some g'; disk := disk s; holder := holder s; exposed := exposed s |}
| step_observed s g id o captured done_ result g' :
    authority s = Some g → g_pending g !! id = Some o → observe_finish id o captured done_ g = (result, g') →
    step s (Finished id result) {| authority := Some g'; disk := disk s; holder := holder s; exposed := exposed s |}
| step_run s g t :
    authority s = Some g → holder s = None → validTarget t = true →
    step s Internal {| authority := Some g; disk := disk s; holder := Some (Locked t); exposed := exposed s |}
| step_bind s g t :
    authority s = Some g → holder s = Some (Locked t) →
    step s Internal {| authority := Some (bindOperation g); disk := disk s; holder := Some (Bound t); exposed := exposed s |}
| step_begin s g t outcome ok d g' :
    authority s = Some g → holder s = Some (Bound t) → begin outcome (disk s) g = (ok, d, g') →
    step s Internal {| authority := Some g'; disk := d;
      holder := Some (if ok then Begun t else Returning t RECOVERY_REQUIRED); exposed := exposed s |}
| step_validate s g t validated :
    authority s = Some g → holder s = Some (Begun t) →
    step s Internal {| authority := Some g; disk := disk s; holder := Some (after_validate t validated); exposed := exposed s |}
| step_cancelled s g t :
    authority s = Some g → holder s = Some (Validated t) →
    step s Internal {| authority := Some g; disk := disk s; holder := Some (Cleanup t true FAILED_CONTEXT_CLOSED);
      exposed := exposed s |}
| step_read s g t read live :
    authority s = Some g → holder s = Some (Validated t) → may_live g live →
    step s Internal {| authority := Some g; disk := disk s; holder := Some (after_read t read live); exposed := exposed s |}
(** From the call of [FillAndSubmit] on, the page may show the value. *)
| step_fill s g t value :
    authority s = Some g → holder s = Some (HasValue t value) →
    step s Internal {| authority := Some g; disk := disk s; holder := Some (Filling t); exposed := true |}
| step_filled s g t filled live :
    authority s = Some g → holder s = Some (Filling t) → may_live g live →
    step s Internal {| authority := Some g; disk := disk s; holder := Some (Cleanup t true (fill_receipt filled live));
      exposed := exposed s |}
| step_destroy s g t receipt (destroyed : outcome unit) :
    authority s = Some g → holder s = Some (Cleanup t true receipt) →
    step s Internal {| authority := Some g; disk := disk s;
      holder := Some (if is_Returns destroyed then Resuming t receipt else Returning t RECOVERY_REQUIRED);
      exposed := exposed s && negb (is_Returns destroyed) |}
| step_nothing_to_destroy s g t receipt :
    authority s = Some g → holder s = Some (Cleanup t false receipt) →
    step s Internal {| authority := Some g; disk := disk s; holder := Some (Resuming t receipt); exposed := exposed s |}
| step_resume s g t receipt outcome ok d g' :
    authority s = Some g → holder s = Some (Resuming t receipt) → resume outcome (disk s) g = (ok, d, g') →
    step s Internal {| authority := Some g'; disk := d;
      holder := Some (Returning t (if ok then receipt else RECOVERY_REQUIRED)); exposed := exposed s |}
| step_return s g t receipt :
    authority s = Some g → holder s = Some (Returning t receipt) →
    step s (Returned t receipt) {| authority := Some (unbindOperation g); disk := disk s; holder := None; exposed := exposed s |}
| step_recover s g :
    authority s = Some g → holder s = None →
    step s Internal {| authority := Some g; disk := disk s; holder := Some Recovering; exposed := exposed s |}
| step_recover_check s g :
    authority s = Some g → holder s = Some Recovering →
    step s Internal {| authority := Some g; disk := disk s;
      holder := if Blocked g then Some DestroyingOrphans else None; exposed := exposed s |}
| step_orphans s g (destroyed : outcome unit) live :
    authority s = Some g → holder s = Some DestroyingOrphans →
    let ok := is_Returns destroyed && live in
    step s Internal {| authority := Some g; disk := disk s; holder := if ok then Some RecoveryResuming else None;
      exposed := exposed s && negb ok |}
| step_recover_resume s g outcome ok d g' :
    authority s = Some g → holder s = Some RecoveryResuming → resume outcome (disk s) g = (ok, d, g') →
    step s Internal {| authority := Some g'; disk := d; holder := None; exposed := exposed s |}
| step_close s g :
    authority s = Some g → g_lock g = true →
    step s Internal {| authority := Some (close g); disk := disk s; holder := holder s; exposed := exposed s |}
| step_close_lock s g :
    authority s = Some g → g_closed g = true → holder s = None →
    step s Internal {| authority := Some (close_lock g); disk := disk s; holder := None; exposed := exposed s |}.

(** A run: its steps, the last one first, each with the state after it. *)
Definition history : Type := list (event * State).

Definition now (start : State) (past : history) : State :=
  match past with [] => start | (_, s) :: _ => s end.

Inductive run (start : State) : history → Prop :=
| run_start : run start []
| run_step past e s : run start past → step (now start past) e s → run start ((e, s) :: past).
End System.

(** No process, and no value in any page. *)
Definition initial (latched : bool) : State :=
  {| authority := None; disk := {| latch := latched; durable := Some latched |}; holder := None; exposed := false |}.

(** Whether a page may have shown a value since the observation [id] started. *)
Fixpoint exposed_since (id : Z) (past : history) : bool :=
  match past with
  | [] => false
  | (e, s) :: older =>
      exposed s || match e with
                   | Started id' => if id =? id' then false else exposed_since id older
                   | _ => exposed_since id older
                   end
  end.

(** Safety of protected fills: an invariant of the system of ProtectedFill.v
    over every interleaving, failure and crash, and what follows from it. *)

(** ** The invariant *)

(** The gate is shut, now and after a crash. *)
Definition guarded (s : State) : Prop :=
  latch (disk s) = true ∧ durable (disk s) = Some true ∧ ∀ g, authority s = Some g → g_blocked g = true.

Definition shut (s : State) : Prop := ∀ g, authority s = Some g → Blocked g = true.
Definition blocked (s : State) : Prop := ∀ g, authority s = Some g → g_blocked g = true.

(** The gate is open again, unless it is closed for good. *)
Definition reopened (s : State) : Prop :=
  disk s = {| latch := false; durable := Some false |} ∧ ∀ g, authority s = Some g → g_blocked g = false.

Definition phase_ok (p : phase) (s : State) : Prop :=
  match p with
  | Begun _ | Validated _ | HasValue _ _ => guarded s ∧ exposed s = false
  | Filling _ => guarded s
  | Cleanup _ validated receipt => guarded s ∧ receipt ≠ RECOVERY_REQUIRED ∧ (validated = false → exposed s = false)
  | Resuming _ receipt => blocked s ∧ receipt ≠ RECOVERY_REQUIRED ∧ exposed s = false
  | Returning _ RECOVERY_REQUIRED => shut s
  | Returning _ _ => reopened s ∧ exposed s = false
  | RecoveryResuming => exposed s = false
  | Locked _ | Bound _ | Recovering | DestroyingOrphans => True
  end.

(** The observations in progress started in an epoch up to the present one, and
    one of the present epoch has not overlapped a fill while the gate is open. *)
Definition gate_ok (past : history) (g : Gate) : Prop :=
  0 ≤ g_epoch g ≤ Z.of_nat (List.length past) ∧
  map_Forall (λ id o, o_epoch o ≤ g_epoch g ∧
    (o_epoch o = g_epoch g → Blocked g = false → exposed_since id past = false)) (g_pending g).

Record system_ok (past : history) (s : State) : Prop := {
  so_gate : ∀ g, authority s = Some g → gate_ok past g;
  so_exposed : exposed s = true → guarded s;
  so_phase : ∀ p, holder s = Some p → phase_ok p s;
}.

(** ** Steps of the gate *)

(** What a step other than the start of an observation does to the gate: the
    observations are among those before, and the epoch moves on when the gate
    opens. *)
Record moves (g g' : Gate) : Prop := {
  mo_epoch : g_epoch g' = g_epoch g ∧ (Blocked g' = false → Blocked g = false) ∨ g_epoch g' = next64 (g_epoch g);
  mo_pending : ∀ id o', g_pending g' !! id = Some o' → ∃ o, g_pending g !! id = Some o ∧ o_epoch o' = o_epoch o;
}.

Lemma moves_refl g : moves g g.
Proof. split; [by left|]. eauto. Qed.

Lemma cancelled_pending pending id o' :
  cancel_all pending !! id = Some o' → ∃ o, pending !! id = Some o ∧ o_epoch o' = o_epoch o.
Proof. unfold cancel_all. rewrite lookup_fmap. intros (o & Hp & ->)%fmap_Some. by exists o. Qed.

Lemma begin_moves outcome d g : moves g (begin outcome d g).2.
Proof.
  unfold begin. destruct (Blocked g) eqn:Eb; [apply moves_refl|].
  assert (H : moves g (set_gate true (g_closed g) (next64 (g_epoch g)) (cancel_all (g_pending g)) g)).
  { split; [by right|]. apply cancelled_pending. }
  destruct (latch d); [done|]. by destruct outcome.
Qed.

Lemma resume_moves outcome d g : moves g (resume outcome d g).2.
Proof.
  unfold resume. destruct (_ || _); [apply moves_refl|]. destruct (negb _); [apply moves_refl|].
  destruct outcome; [apply moves_refl..|]. split; [by right|]. eauto.
Qed.

Lemma close_moves g : moves g (close g).
Proof. split; [by right|]. apply cancelled_pending. Qed.

Lemma finish_moves id o captured done_ g : moves g (observe_finish id o captured done_ g).2.
Proof. split; [by left|]. intros id' o' H. cbn in H. apply lookup_delete_Some in H as [_ H]. eauto. Qed.

Lemma next64_small z n : 0 ≤ z ≤ n → n < 2 ^ 64 - 1 → next64 z = z + 1.
Proof. intros. unfold next64. rewrite Z.mod_small; lia. Qed.

Lemma gate_ok_moves past e s g g' :
  (Z.of_nat (List.length past) < 2 ^ 64 - 1) → gate_ok past g → moves g g' →
  (∀ id, e ≠ Started id) → (Blocked g' = false → exposed s = false) → gate_ok ((e, s) :: past) g'.
Proof.
  intros Hlen [Hepoch Hpend] [Hmove Hsub] He Hexp. unfold gate_ok. cbn [List.length].
  destruct Hmove as [[Eq Hopen]|Eq].
  - rewrite Eq. split; [lia|]. intros id o' (o & Ho & Eo)%Hsub. rewrite Eo. destruct (Hpend _ _ Ho) as [Hle Hsince].
    split; [done|]. intros Hcur Hb. cbn [exposed_since]. rewrite (Hexp Hb), (Hsince Hcur (Hopen Hb)).
    destruct e; try done. by destruct (He id0).
  - rewrite (next64_small _ _ Hepoch Hlen) in Eq. rewrite Eq. split; [lia|].
    intros id o' (o & Ho & Eo)%Hsub. destruct (Hpend _ _ Ho) as [Hle _]. split; lia.
Qed.

Lemma gate_ok_start past s g id g' :
  gate_ok past g → observe_start g = Some (id, g') → exposed s = false →
  gate_ok ((Started id, s) :: past) g' ∧ g_blocked g' = g_blocked g.
Proof.
  unfold observe_start. intros [Hepoch Hpend]. destruct (Blocked g) eqn:Eb; [done|]. intros [= <- <-] Hexp.
  split; [|done]. split; [cbn [List.length g_epoch]; lia|]. cbn [g_pending g_epoch].
  intros i o. destruct (decide (i = next64 (g_next g))) as [->|Hne].
  - rewrite lookup_insert_eq. intros [= <-]. split; [done|]. intros _ _. cbn [exposed_since]. by rewrite Hexp, Z.eqb_refl.
  - rewrite lookup_insert_ne by done. intros Ho. destruct (Hpend _ _ Ho) as [Hle Hsince]. split; [done|].
    intros Hcur _. cbn [exposed_since]. rewrite Hexp. replace (i =? next64 (g_next g)) with false by lia. by apply Hsince.
Qed.

(** ** The invariant is kept *)

Lemma begin_guards outcome d g d' g' :
  begin outcome d g = (true, d', g') →
  Blocked g = false ∧ g_blocked g' = true ∧ latch d' = true ∧ durable d' = Some true.
Proof.
  unfold begin. destruct (Blocked g) eqn:Eb; [done|]. destruct (latch d); [done|].
  by destruct outcome; intros [= <- <-].
Qed.

Lemma begin_fails outcome d g d' g' : begin outcome d g = (false, d', g') → Blocked g' = true ∧ (Blocked g = true → d' = d ∧ g' = g).
Proof.
  unfold begin. destruct (Blocked g) eqn:Eb; [by intros [= <- <-]|]. destruct (latch d); [by intros [= <- <-]|].
  by destruct outcome; intros [= <- <-].
Qed.

Lemma resume_opens outcome d g d' g' :
  resume outcome d g = (true, d', g') → g_blocked g' = false ∧ d' = {| latch := false; durable := Some false |}.
Proof.
  unfold resume. destruct (_ || _); [done|]. destruct (negb _); [done|]. by destruct outcome; intros [= <- <-].
Qed.

Lemma resume_fails outcome d g d' g' : resume outcome d g = (false, d', g') → g' = g.
Proof.
  unfold resume. destruct (_ || _); [by intros [= _ <-]|]. destruct (negb _); [by intros [= _ <-]|].
  destruct outcome; by intros [= _ <-].
Qed.

(** A step that leaves the latch and the flags of the gate, except that the gate
    may be closed. *)
Definition same_flags (s s' : State) : Prop :=
  disk s' = disk s ∧ ∀ g', authority s' = Some g' → ∃ g, authority s = Some g ∧
    g_blocked g' = g_blocked g ∧ (g_closed g = true → g_closed g' = true).

Lemma same_guarded s s' : same_flags s s' → guarded s → guarded s'.
Proof.
  intros [Hd Hg] (Hl & Hdu & Hb). unfold guarded. rewrite Hd. split_and!; [done|done|].
  intros g' (g & Ha & -> & _)%Hg. by apply Hb.
Qed.

Lemma same_blocked s s' : same_flags s s' → blocked s → blocked s'.
Proof. intros [_ Hg] Hb g' (g & Ha & -> & _)%Hg. by apply Hb. Qed.

Lemma same_shut s s' : same_flags s s' → shut s → shut s'.
Proof.
  intros [_ Hg] Hb g' (g & Ha & Hbl & Hcl)%Hg. specialize (Hb g Ha). unfold Blocked in *. rewrite Hbl.
  apply orb_true_iff in Hb as [->|Hc]; [done|]. by rewrite (Hcl Hc), orb_true_r.
Qed.

Lemma same_reopened s s' : same_flags s s' → reopened s → reopened s'.
Proof. intros [Hd Hg] [Hr Hb]. split; [by rewrite Hd|]. intros g' (g & Ha & -> & _)%Hg. by apply Hb. Qed.

Create HintDb flags.
#[local] Hint Resolve same_guarded same_blocked same_shut same_reopened : flags.

Lemma same_phase s s' p : same_flags s s' → exposed s' = exposed s → phase_ok p s → phase_ok p s'.
Proof.
  intros Hs He. destruct p as [| | | | | |t v r|t r|t r| | |]; cbn [phase_ok]; rewrite ?He; try naive_solver eauto with flags.
  destruct r; naive_solver eauto with flags.
Qed.

Lemma same_flags_intro s g g' h x :
  authority s = Some g → g_blocked g' = g_blocked g → (g_closed g = true → g_closed g' = true) →
  same_flags s {| authority := Some g'; disk := disk s; holder := h; exposed := x |}.
Proof. intros Ha Hb Hc. split; [done|]. intros g'' [= <-]. eauto. Qed.

Section Kept.
Context {origins : Origins}.

Lemma guarded_blocked s g : guarded s → authority s = Some g → Blocked g = true.
Proof. intros (_ & _ & Hb) Ha. unfold Blocked. by rewrite (Hb g Ha). Qed.

(** A step of a running process other than the start of an observation. *)
Lemma system_ok_moves past e s s' g g' :
  Z.of_nat (List.length past) < 2 ^ 64 - 1 → system_ok past s →
  authority s = Some g → authority s' = Some g' → moves g g' → (∀ id, e ≠ Started id) →
  (exposed s' = true → guarded s') → (∀ p, holder s' = Some p → phase_ok p s') → system_ok ((e, s') :: past) s'.
Proof.
  intros Hlen [Hg _ _] Ha Ha' Hm He Hexp Hph. split; [|done|done].
  intros g'' E. rewrite Ha' in E. simplify_eq. apply (gate_ok_moves past e s' g); [done|by apply Hg|done|done|].
  intros Hb. destruct (exposed s') eqn:E; [|done]. rewrite (guarded_blocked s' g'') in Hb; [done|by apply Hexp|done].
Qed.

(** One that leaves the flags and does not expose anything. *)
Lemma system_ok_same past e s s' g g' :
  Z.of_nat (List.length past) < 2 ^ 64 - 1 → system_ok past s →
  authority s = Some g → authority s' = Some g' → moves g g' → (∀ id, e ≠ Started id) →
  same_flags s s' → (exposed s' = true → exposed s = true) → (∀ p, holder s' = Some p → phase_ok p s') →
  system_ok ((e, s') :: past) s'.
Proof.
  intros Hlen Hok Ha Ha' Hm He Hsame Hexp Hph. eapply system_ok_moves; [done|done|exact Ha|exact Ha'|done|done| |done].
  intros Hx%Hexp. eapply same_guarded; [done|]. by apply (so_exposed _ _ Hok).
Qed.

Lemma set_flags_moves g g' :
  g_epoch g' = g_epoch g → g_pending g' = g_pending g → Blocked g' = Blocked g → moves g g'.
Proof. intros He Hp Hb. split; [left; by rewrite Hb|]. rewrite Hp. eauto. Qed.

Ltac quiet g := eapply (system_ok_same _ _ _ _ g); [done|done|done|done|
  first [apply moves_refl|by apply set_flags_moves]|done|by apply (same_flags_intro _ g)|done|].

Lemma fill_step_ok past s e s' :
  Z.of_nat (List.length past) < 2 ^ 64 - 1 → system_ok past s → step s e s' → system_ok ((e, s') :: past) s'.
Proof.
  intros Hlen Hok Hstep. pose proof (so_phase _ _ Hok) as Hph. pose proof (so_exposed _ _ Hok) as Hexp.
  destruct Hstep as [s Hno|s after Hdur|s g id g' Ha Hst|s g id o captured done_ result g' Ha Hp Hfin|s g t Ha Hh Hv
    |s g t Ha Hh|s g t outcome ok d g' Ha Hh Hb|s g t validated Ha Hh|s g t Ha Hh|s g t read live Ha Hh Hlive
    |s g t value Ha Hh|s g t filled live Ha Hh Hlive|s g t receipt destroyed Ha Hh|s g t receipt Ha Hh
    |s g t receipt outcome ok d g' Ha Hh Hr|s g t receipt Ha Hh|s g Ha Hh|s g Ha Hh|s g destroyed live Ha Hh
    |s g outcome ok d g' Ha Hh Hr|s g Ha Hl|s g Ha Hc Hh].
  - split; [|intros Hx; destruct (Hexp Hx) as (Hl & Hd & _); split_and!; [done|done|by intros g' [= <-]]|done].
    intros g' [= <-]. split; [cbn; lia|]. intros i o Hi. cbn in Hi. by apply lookup_empty_Some in Hi.
  - split; [done| |done]. intros Hx. destruct (Hexp Hx) as (_ & Hd & _). rewrite Hd in Hdur.
    destruct Hdur as [|[= <-]]; [done|]. by split_and!.
  - assert (Hx : exposed s = false).
    { destruct (exposed s) eqn:Ex; [|done]. pose proof (guarded_blocked _ _ (Hexp eq_refl) Ha) as Hb.
      unfold observe_start in Hst. by rewrite Hb in Hst. }
    pose proof (so_gate _ _ Hok g Ha) as Hg.
    assert (Hflags : g_blocked g' = g_blocked g ∧ g_closed g' = g_closed g)
      by (unfold observe_start in Hst; destruct (Blocked g); [done|]; by injection Hst as _ <-).
    split; cbn [authority exposed holder].
    + intros g'' [= <-]. eapply gate_ok_start; [exact Hg|exact Hst|exact Hx].
    + by rewrite Hx.
    + intros p Hp. apply (same_phase s); [|done|by apply Hph]. apply (same_flags_intro _ g); [done|apply Hflags|].
      by destruct Hflags as [_ ->].
  - replace g' with (observe_finish id o captured done_ g).2 by by rewrite Hfin.
    eapply (system_ok_same _ _ _ _ g); [done|done|done|done|apply finish_moves|done|by apply (same_flags_intro _ g)|done|].
    intros p Hp'. apply (same_phase s); [by apply (same_flags_intro _ g)|done|by apply Hph].
  - quiet g. by intros p [= <-].
  - quiet g. by intros p [= <-].
  - replace g' with (begin outcome (disk s) g).2 by by rewrite Hb.
    assert (Hpost : (exposed s = true → guarded {| authority := Some (begin outcome (disk s) g).2; disk := d;
        holder := Some (if ok then Begun t else Returning t RECOVERY_REQUIRED); exposed := exposed s |}) ∧
      (ok = true → exposed s = false)).
    { rewrite Hb. cbn [snd]. split.
      - intros Hx. pose proof (guarded_blocked _ _ (Hexp Hx) Ha) as Hbl. destruct ok; [apply begin_guards in Hb as [Hb _]; congruence|].
        apply begin_fails in Hb as [_ Hb]. destruct (Hb Hbl) as [-> ->]. destruct (Hexp Hx) as (? & ? & Hbb).
        split_and!; [done|done|]. intros g' [= <-]. by apply Hbb.
      - intros ->. apply begin_guards in Hb as (Hbl & _). destruct (exposed s) eqn:Hx; [|done].
        by rewrite (guarded_blocked _ _ (Hexp eq_refl) Ha) in Hbl. }
    destruct Hpost as [Hpost Hfresh].
    eapply (system_ok_moves _ _ _ _ g); [done|done|done|done|apply begin_moves|done|done|].
    intros p [= <-]. rewrite Hb. destruct ok.
    + apply begin_guards in Hb as (_ & Hbl & Hl & Hd). split; [|by apply Hfresh]. split_and!; [done|done|by intros g'' [= <-]].
    + apply begin_fails in Hb as [Hb _]. by intros g'' [= <-].
  - quiet g. specialize (Hph _ Hh) as [Hgd Hx]. intros p [= <-].
    assert (guarded {| authority := Some g; disk := disk s; holder := Some (after_validate t validated); exposed := exposed s |})
      by (eapply same_guarded; [by apply (same_flags_intro _ g)|done]). by destruct validated.
  - quiet g. specialize (Hph _ Hh) as [Hgd Hx]. intros p [= <-].
    split_and!; [eapply same_guarded; [by apply (same_flags_intro _ g)|done]|done|done].
  - quiet g. specialize (Hph _ Hh) as [Hgd Hx]. intros p [= <-].
    assert (guarded {| authority := Some g; disk := disk s; holder := Some (after_read t read live); exposed := exposed s |})
      by (eapply same_guarded; [by apply (same_flags_intro _ g)|done]).
    unfold after_read in *. destruct read; [|done|done]. by destruct (live && usable a).
  - specialize (Hph _ Hh) as [Hgd Hx].
    assert (Hgd' : guarded {| authority := Some g; disk := disk s; holder := Some (Filling t); exposed := true |})
      by (eapply same_guarded; [by apply (same_flags_intro _ g)|done]).
    eapply (system_ok_moves _ _ _ _ g); [done|done|done|done|apply moves_refl|done|done|by intros p [= <-]].
  - quiet g. specialize (Hph _ Hh). intros p [= <-].
    split_and!; [eapply same_guarded; [by apply (same_flags_intro _ g)|done]| |done]. by destruct filled as [[]| |], live.
  - specialize (Hph _ Hh) as (Hgd & Hr & _).
    eapply (system_ok_same _ _ _ _ g); [done|done|done|done|apply moves_refl|done|by apply (same_flags_intro _ g)| |].
    { cbn. intros Hx. by apply andb_true_iff in Hx as [Hx _]. }
    intros p [= <-]. destruct (is_Returns destroyed).
    + split_and!; [|done|by cbn; rewrite andb_false_r]. intros g' [= <-]. by apply Hgd.
    + intros g' [= <-]. by apply (guarded_blocked s).
  - quiet g. specialize (Hph _ Hh) as (Hgd & Hr & Hx). intros p [= <-].
    split_and!; [intros g' [= <-]; by apply Hgd|done|by apply Hx].
  - specialize (Hph _ Hh) as (Hbl & Hne & Hx).
    replace g' with (resume outcome (disk s) g).2 by by rewrite Hr.
    eapply (system_ok_moves _ _ _ _ g); [done|done|done|done|apply resume_moves|done|by cbn; rewrite Hx|].
    intros p [= <-]. rewrite Hr. destruct ok.
    + apply resume_opens in Hr as [Hopen ->].
      assert (reopened {| authority := Some g'; disk := {| latch := false; durable := Some false |};
        holder := Some (Returning t receipt); exposed := exposed s |}) by (split; [done|by intros g'' [= <-]]).
      by destruct receipt.
    + apply resume_fails in Hr as ->. intros g'' [= <-]. unfold Blocked. by rewrite (Hbl g Ha).
  - quiet g. done.
  - quiet g. by intros p [= <-].
  - quiet g. destruct (Blocked g); [by intros p [= <-]|done].
  - eapply (system_ok_same _ _ _ _ g); [done|done|done|done|apply moves_refl|done|by apply (same_flags_intro _ g)| |].
    { cbn. intros Hx. by apply andb_true_iff in Hx as [Hx _]. }
    unfold ok. destruct (is_Returns destroyed && live); [|done]. intros p [= <-]. cbn. by rewrite andb_false_r.
  - specialize (Hph _ Hh). cbn in Hph. replace g' with (resume outcome (disk s) g).2 by by rewrite Hr.
    eapply (system_ok_moves _ _ _ _ g); [done|done|done|done|apply resume_moves|done|by cbn; rewrite Hph|done].
  - eapply (system_ok_same _ _ _ _ g); [done|done|done|done|apply close_moves|done|by apply (same_flags_intro _ g)|done|].
    intros p Hp'. apply (same_phase s); [by apply (same_flags_intro _ g)|done|by apply Hph].
  - quiet g. done.
Qed.
End Kept.

(** ** What follows *)

Section Safety.
Context {origins : Origins}.

Lemma run_prefix start past newer e s older :
  run start past → past = newer ++ (e, s) :: older → run start older ∧ step (now start older) e s ∧
  (List.length older < List.length past)%nat.
Proof.
  intros Hrun ->. induction newer as [|x newer IH]; inversion Hrun; subst.
  - split_and!; [done|done|cbn; lia].
  - destruct IH as (? & ? & ?); [done|]. split_and!; [done|done|cbn; lia].
Qed.

Lemma run_ok latched past :
  run (initial latched) past → Z.of_nat (List.length past) < 2 ^ 64 → system_ok past (now (initial latched) past).
Proof.
  intros Hrun. induction Hrun as [|past e s Hrun IH Hstep]; intros Hlen; [by split|].
  cbn [List.length] in Hlen. apply (fill_step_ok _ (now (initial latched) past)); [lia|apply IH; lia|done].
Qed.

(** C10: nothing observed overlaps a fill.  Over every interleaving of
    observations, fills, recoveries and closings, with any failures of the
    driver and the file system and any crashes and restarts, an observation that
    is returned to its caller was taken while no page could show a filled value:
    not at its start, not at its end, and not in between. *)
Theorem observations_never_overlap_fills latched past newer id bytes s older :
  run (initial latched) past → Z.of_nat (List.length past) < 2 ^ 64 →
  past = newer ++ (Finished id (Value bytes), s) :: older →
  exposed_since id ((Finished id (Value bytes), s) :: older) = false.
Proof.
  intros Hrun Hlen Hp. destruct (run_prefix _ _ _ _ _ _ Hrun Hp) as (Hrun' & Hstep & Hshort).
  destruct (run_ok _ _ Hrun') as [Hgate Hexp _]; [lia|].
  inversion Hstep as [| | |s0 g id' o captured done_ result g' Ha Hpend Hfin| | | | | | | | | | | | | | | | | |]; subst.
  unfold observe_finish in Hfin. injection Hfin as Hres Hg'.
  destruct (Blocked g) eqn:Hb; [done|]. destruct (Z.eqb_spec (o_epoch o) (g_epoch g)) as [Heq|]; [|done].
  destruct (Hgate g Ha) as [_ Hall]. destruct (Hall _ _ Hpend) as [_ Hsince].
  cbn [exposed_since exposed]. rewrite (Hsince Heq Hb), orb_false_r.
  destruct (exposed (now (initial latched) older)) eqn:Hx; [|done].
  rewrite (guarded_blocked _ g (Hexp eq_refl) Ha) in Hb. done.
Qed.

(** While a page may show a filled value the gate is shut.  No observation can
    start, neither in the running process, nor in one that opens the directory
    next, nor in one that opens it after a crash, whatever that left of the
    latch. *)
Theorem exposure_is_shut latched past :
  run (initial latched) past → Z.of_nat (List.length past) < 2 ^ 64 →
  let s := now (initial latched) past in
  exposed s = true →
  (∀ g, authority s = Some g → observe_start g = None) ∧
  observe_start (OpenGate (disk s)) = None ∧
  ∀ after, durable (disk s) = None ∨ durable (disk s) = Some after →
    observe_start (OpenGate {| latch := after; durable := Some after |}) = None.
Proof.
  intros Hrun Hlen s Hx. pose proof (run_ok _ _ Hrun Hlen) as [_ Hexp _]. specialize (Hexp Hx). fold s in Hexp. clearbody s.
  split_and!.
  - intros g Ha. unfold observe_start. by rewrite (guarded_blocked _ g Hexp Ha).
  - unfold observe_start, OpenGate, Blocked. cbn. by destruct Hexp as (-> & _).
  - destruct Hexp as (_ & -> & _). by intros after [|[= <-]].
Qed.

(** Where a fill was reported, one was tried. *)
Definition reported (p : phase) : option Target :=
  match p with
  | Cleanup t _ SUBMISSION_ATTEMPTED_CONTEXT_CLOSED | Resuming t SUBMISSION_ATTEMPTED_CONTEXT_CLOSED
  | Returning t SUBMISSION_ATTEMPTED_CONTEXT_CLOSED => Some t
  | _ => None
  end.

Definition tried (t : Target) (past : history) : Prop := ∃ e s, (e, s) ∈ past ∧ holder s = Some (Filling t).

Lemma reported_step s e s' p t :
  step s e s' → holder s' = Some p → reported p = Some t →
  holder s = Some (Filling t) ∨ ∃ p', holder s = Some p' ∧ reported p' = Some t.
Proof.
  intros Hstep Hp Hr.
  destruct Hstep; unfold after_validate, after_read, fill_receipt in *; cbn [holder] in Hp; try done; try (right; by exists p); simplify_eq/=; try done;
    repeat case_match; simplify_eq/=; try done; try (left; congruence);
    right; eexists; split; try eassumption; cbn; repeat case_match; simplify_eq/=; done.
Qed.

Lemma reported_tried latched past p t :
  run (initial latched) past → holder (now (initial latched) past) = Some p → reported p = Some t → tried t past.
Proof.
  intros Hrun. revert p. induction Hrun as [|past e s Hrun IH Hstep]; intros p Hp Hr; [done|]. cbn [now] in Hp.
  destruct (reported_step _ _ _ _ _ Hstep Hp Hr) as [Hf|(p' & Hp' & Hr')].
  - destruct past as [|[e0 s0] past]; [done|]. exists e0, s0. split; [right; by left|done].
  - destruct (IH _ Hp' Hr') as (e0 & s0 & Hin & Hf). exists e0, s0. split; [by right|done].
Qed.

(** Receipts are true.  A fill that reports anything but a need of recovery has
    left no value in a page and no latch; one that reports a need of recovery
    has left the gate shut; and one that reports an attempted submission did call
    the driver to fill the target. *)
Theorem receipts_are_true latched past newer t receipt s older :
  run (initial latched) past → Z.of_nat (List.length past) < 2 ^ 64 →
  past = newer ++ (Returned t receipt, s) :: older →
  (receipt ≠ RECOVERY_REQUIRED → exposed s = false ∧ disk s = {| latch := false; durable := Some false |}) ∧
  (receipt = RECOVERY_REQUIRED → ∀ g, authority s = Some g → Blocked g = true) ∧
  (receipt = SUBMISSION_ATTEMPTED_CONTEXT_CLOSED → tried t older).
Proof.
  intros Hrun Hlen Hp. destruct (run_prefix _ _ _ _ _ _ Hrun Hp) as (Hrun' & Hstep & Hshort).
  destruct (run_ok _ _ Hrun') as [_ _ Hph]; [lia|].
  remember (Returned t receipt) as e eqn:Ee. remember (now (initial latched) older) as s0 eqn:Es.
  destruct Hstep; simplify_eq. specialize (Hph _ H0). cbn [exposed disk authority]. split_and!.
  - intros Hne. destruct receipt; try (by destruct Hne); by destruct Hph as [[-> _] ->].
  - intros -> g' [= <-]. exact (Hph g H).
  - intros ->. by eapply (reported_tried latched older).
Qed.
End Safety.

(** ** Examples *)

#[local] Instance plain_origins : Origins := {| NormalizeOrigin := Ok |}.

Definition example_target : Target :=
  {| t_Record := "db"; t_Context := "ctx"; t_Document := "doc"; t_Field := "field"; t_Submit := "submit";
     t_Origin := "https://example.com" |}.

Definition empty_disk : Disk := {| latch := false; durable := Some false |}.
Definition latched_disk : Disk := {| latch := true; durable := Some true |}.

(** An observation before a fill, and the fill. *)
Definition g0 : Gate := OpenGate empty_disk.
Definition g1 : Gate := default g0 (snd <$> observe_start g0).
Definition g2 : Gate := (observe_finish 1 {| o_epoch := 0; o_cancelled := false |} (Some "page") false g1).2.
Definition g3 : Gate := bindOperation g2.
Definition g4 : Gate := (begin Synced empty_disk g3).2.
Definition g5 : Gate := (resume Removed latched_disk g4).2.

Definition at_ (g : Gate) (d : Disk) (h : option phase) (x : bool) : State :=
  {| authority := Some g; disk := d; holder := h; exposed := x |}.

Definition observed_run : history :=
  [(Finished 1 (Value "page"), at_ g2 empty_disk None false); (Started 1, at_ g1 empty_disk None false);
   (Internal, at_ g0 empty_disk None false)].

Definition filling_run : history :=
  [(Internal, at_ g4 latched_disk (Some (Filling example_target)) true);
   (Internal, at_ g4 latched_disk (Some (HasValue example_target "secret")) false);
   (Internal, at_ g4 latched_disk (Some (Validated example_target)) false);
   (Internal, at_ g4 latched_disk (Some (Begun example_target)) false);
   (Internal, at_ g3 empty_disk (Some (Bound example_target)) false);
   (Internal, at_ g2 empty_disk (Some (Locked example_target)) false)] ++ observed_run.

Definition filled_run : history :=
  [(Returned example_target SUBMISSION_ATTEMPTED_CONTEXT_CLOSED, at_ (unbindOperation g5) empty_disk None false);
   (Internal, at_ g5 empty_disk (Some (Returning example_target SUBMISSION_ATTEMPTED_CONTEXT_CLOSED)) false);
   (Internal, at_ g4 latched_disk (Some (Resuming example_target SUBMISSION_ATTEMPTED_CONTEXT_CLOSED)) false);
   (Internal, at_ g4 latched_disk (Some (Cleanup example_target true SUBMISSION_ATTEMPTED_CONTEXT_CLOSED)) true)] ++ filling_run.

Ltac steps n := match n with O => idtac | S ?n => apply run_step; [steps n|] end.

Lemma observed_run_ok : run (initial false) observed_run.
Proof.
  steps 3%nat; [apply run_start|..].
  - by apply (step_open (initial false)).
  - by apply (step_observe (at_ g0 empty_disk None false) g0).
  - by apply (step_observed (at_ g1 empty_disk None false) g1 1 {| o_epoch := 0; o_cancelled := false |} (Some "page") false).
Qed.

Lemma filling_run_ok : run (initial false) filling_run.
Proof.
  unfold filling_run. steps 6%nat; [apply observed_run_ok|..]; cbn [now app].
  - by apply (step_run (at_ g2 empty_disk None false) g2 example_target).
  - by apply (step_bind (at_ g2 empty_disk (Some (Locked example_target)) false) g2 example_target).
  - by apply (step_begin (at_ g3 empty_disk (Some (Bound example_target)) false) g3 example_target Synced true latched_disk).
  - by apply (step_validate (at_ g4 latched_disk (Some (Begun example_target)) false) g4 example_target (Returns tt)).
  - by apply (step_read (at_ g4 latched_disk (Some (Validated example_target)) false) g4 example_target (Returns "secret") true).
  - by apply (step_fill (at_ g4 latched_disk (Some (HasValue example_target "secret")) false) g4 example_target "secret").
Qed.

Lemma filled_run_ok : run (initial false) filled_run.
Proof.
  unfold filled_run. steps 4%nat; [apply filling_run_ok|..]; cbn [now app filling_run].
  - by apply (step_filled (at_ g4 latched_disk (Some (Filling example_target)) true) g4 example_target (Returns true) true).
  - by apply (step_destroy (at_ g4 latched_disk (Some (Cleanup example_target true SUBMISSION_ATTEMPTED_CONTEXT_CLOSED)) true)
      g4 example_target SUBMISSION_ATTEMPTED_CONTEXT_CLOSED (Returns tt)).
  - by apply (step_resume (at_ g4 latched_disk (Some (Resuming example_target SUBMISSION_ATTEMPTED_CONTEXT_CLOSED)) false)
      g4 example_target SUBMISSION_ATTEMPTED_CONTEXT_CLOSED Removed true empty_disk g5).
  - by apply (step_return (at_ g5 empty_disk (Some (Returning example_target SUBMISSION_ATTEMPTED_CONTEXT_CLOSED)) false)
      g5 example_target SUBMISSION_ATTEMPTED_CONTEXT_CLOSED).
Qed.

Lemma observations_never_overlap_fills_witness :
  run (initial false) observed_run ∧ exposed_since 1 observed_run = false.
Proof.
  split; [apply observed_run_ok|].
  apply (observations_never_overlap_fills false observed_run [] 1 "page" (at_ g2 empty_disk None false)
    [(Started 1, at_ g1 empty_disk None false); (Internal, at_ g0 empty_disk None false)]);
    [apply observed_run_ok|cbn; lia|reflexivity].
Defined.

Lemma exposure_is_shut_witness :
  run (initial false) filling_run ∧ exposed (now (initial false) filling_run) = true ∧ observe_start g4 = None.
Proof.
  split; [apply filling_run_ok|]. split; [reflexivity|].
  exact (proj1 (exposure_is_shut false filling_run filling_run_ok ltac:(cbn; lia) eq_refl) g4 eq_refl).
Defined.

Lemma receipts_are_true_witness :
  run (initial false) filled_run ∧ tried example_target (drop 1 filled_run).
Proof.
  split; [apply filled_run_ok|].
  apply (receipts_are_true false filled_run [] example_target SUBMISSION_ATTEMPTED_CONTEXT_CLOSED
    (at_ (unbindOperation g5) empty_disk None false) (drop 1 filled_run) filled_run_ok ltac:(cbn; lia) eq_refl).
  reflexivity.
Defined.

(** When the latch cannot be created, the gate is blocked without it, and no
    recovery of this process succeeds: the latch that it should remove is not
    there. *)
Example missing_latch_is_never_recovered :
  let '(ok, d, g) := begin NotCreated empty_disk g3 in
  ok = false ∧ Blocked g = true ∧ ∀ outcome, resume outcome d g = (false, d, g).
Proof. split_and!; reflexivity. Qed.
