(* ===== verification/Duration.v ===== *)
(** Durations as the time package of Go's standard library reads them
    ([time.ParseDuration]): nanoseconds in an int64, fractions through binary64
    arithmetic. *)
From S2P Require Import Prelude Timestamp Text.
From Stdlib Require Import SpecFloat.
From stdpp Require Import options.

Definition hour : Z := 60 * minute.

(** ** Binary64 *)

Definition float64 (z : Z) : spec_float := binary_normalize 53 1024 z 0 false.
Definition float_mul : spec_float → spec_float → spec_float := SFmul 53 1024.
Definition float_div : spec_float → spec_float → spec_float := SFdiv 53 1024.

(** [uint64(f)] of a float in its range. *)
Definition truncate_float (f : spec_float) : Z :=
  match f with
  | S754_finite false m e => Z.shiftl (Z.pos m) e
  | _ => 0
  end.

(** ** Parsing *)

Definition two63 : Z := 2 ^ 63.

(** [leadingInt]: the digits at the front, unless their value exceeds 2^63. *)
Fixpoint leadingInt (x : Z) (s : string) : option (Z * string) :=
  match s with
  | String c rest =>
      if is_digit c then
        if two63 / 10 <? x then None
        else
          let x := x * 10 + (code c - 48) in
          if two63 <? x then None else leadingInt x rest
      else Some (x, s)
  | EmptyString => Some (x, "")
  end.

(** [leadingFraction]: digits that no longer fit are read and ignored. *)
Fixpoint leadingFraction (x : Z) (scale : spec_float) (overflow : bool) (s : string) : Z * spec_float * string :=
  match s with
  | String c rest =>
      if is_digit c then
        if overflow then leadingFraction x scale true rest
        else if (two63 - 1) / 10 <? x then leadingFraction x scale true rest
        else
          let y := x * 10 + (code c - 48) in
          if two63 <? y then leadingFraction x scale true rest
          else leadingFraction y (float_mul scale (float64 10)) false rest
      else (x, scale, s)
  | EmptyString => (x, scale, "")
  end.

(** The unit: what comes before the next digit or period. *)
Fixpoint take_unit (s : string) : string * string :=
  match s with
  | String c rest =>
      if is_digit c || Ascii.eqb c "." then ("", s)
      else let '(u, rest) := take_unit rest in (String c u, rest)
  | EmptyString => ("", "")
  end.

Definition unitMap (u : string) : option Z :=
  if String.eqb u "ns" then Some 1
  else if String.eqb u "us" || String.eqb u "µs" || String.eqb u "μs" then Some 1000
  else if String.eqb u "ms" then Some 1000000
  else if String.eqb u "s" then Some second
  else if String.eqb u "m" then Some minute
  else if String.eqb u "h" then Some hour
  else None.

(** The fraction of a unit. *)
Definition fraction_of (f : Z) (scale : spec_float) (unit : Z) : Z :=
  truncate_float (float_mul (float64 f) (float_div (float64 unit) scale)).

(** One number with its unit: its nanoseconds and the rest. *)
Definition parse_component (s : string) : option (Z * string) :=
  match s with
  | EmptyString => None
  | String c _ =>
      if negb (is_digit c || Ascii.eqb c ".") then None else
      '(v, s') ← leadingInt 0 s;
      let pre := negb (slen s' =? slen s) in
      let '(f, scale, s'', post) :=
        match s' with
        | String "." r => let '(f, scale, r') := leadingFraction 0 (float64 1) false r in
            (f, scale, r', negb (slen r' =? slen r))
        | _ => (0, float64 1, s', false)
        end in
      if negb (pre || post) then None else
      let '(u, rest) := take_unit s'' in
      if negb (nonempty u) then None else
      unit ← unitMap u;
      if two63 / unit <? v then None else
      let v := v * unit in
      let v := if 0 <? f then (v + fraction_of f scale unit) mod 2 ^ 64 else v in
      if (0 <? f) && (two63 <? v) then None else Some (v, rest)
  end.

(** The sum of the components, in a uint64; every component takes at least one
    byte, so that the length of the text bounds the rounds. *)
Fixpoint parse_components (rounds : nat) (d : Z) (s : string) : option Z :=
  match rounds, s with
  | _, EmptyString => Some d
  | O, _ => None
  | S rounds, _ =>
      '(v, rest) ← parse_component s;
      let d := (d + v) mod 2 ^ 64 in
      if two63 <? d then None else parse_components rounds d rest
  end.

Definition ParseDuration (s : string) : option Z :=
  let '(neg, s) := match s with
    | String "-" rest => (true, rest)
    | String "+" rest => (false, rest)
    | _ => (false, s)
    end in
  if String.eqb s "0" then Some 0
  else if negb (nonempty s) then None
  else
    d ← parse_components (String.length s) 0 s;
    if neg : bool then Some (wrap64 (- d))
    else if two63 - 1 <? d then None else Some d.

Example parse_units : ParseDuration <$> ["24h"; "1h15m30.918s"; "1.5h"; "-.5ms"; "0"; "300ms"; "5"; "1d"; ""; "2562048h"] =
  [Some (24 * hour); Some (4530918 * 1000000); Some (90 * minute); Some (-500000); Some 0; Some (300 * 1000000);
   None; None; None; None].
Proof. vm_compute. reflexivity. Qed.

Example parse_rounded : ParseDuration "0.3333333333333333333h" = Some 1200000000000 ∧ ParseDuration "39.0000001us" = Some 39000.
Proof. vm_compute. done. Qed.
