(* ===== verification/Lifecycle.v ===== *)
(** The rotation of credentials: states, policies, authorization, revocation and
    the evidence chain ([internal/lifecycle/state.go], [operation.go],
    [policy.go] and [HealthEvidence] of [secret.go]). *)
From S2P Require Import Prelude Timestamp Text Secure Provider Duration.
From stdpp Require Import options.

(** ** States *)

Inductive LifecycleState :=
| StatePlanned | StateAcquiring | StateStored | StateStaging | StateStaged | StateActivating | StateHealthy
| StateGracePeriod | StateRevoking | StateComplete | StateRetryable | StateReconciliationRequired | StateRollingBack
| StateRolledBack | StateQuarantined | StateTerminalFailure
(** any other text *)
| StateOther (text : string).
#[export] Instance LifecycleState_eq_dec : EqDecision LifecycleState.
Proof. solve_decision. Defined.

(** The table: the states that may follow. *)
Definition transitions (from : LifecycleState) : list LifecycleState :=
  match from with
  | StatePlanned => [StateAcquiring; StateTerminalFailure]
  | StateAcquiring => [StateStored; StateRetryable; StateReconciliationRequired; StateTerminalFailure]
  | StateStored => [StateStaging; StateRollingBack]
  | StateStaging => [StateStaged; StateRetryable; StateRollingBack]
  | StateStaged => [StateActivating; StateRollingBack]
  | StateActivating => [StateHealthy; StateRetryable; StateRollingBack]
  | StateHealthy => [StateGracePeriod; StateRollingBack]
  | StateGracePeriod => [StateRevoking; StateRollingBack]
  | StateRevoking => [StateComplete; StateRetryable; StateReconciliationRequired]
  | StateRetryable => [StateAcquiring; StateStaging; StateActivating; StateRevoking; StateTerminalFailure]
  | StateReconciliationRequired => [StateAcquiring; StateRevoking; StateRollingBack; StateTerminalFailure]
  | StateRollingBack => [StateRolledBack; StateTerminalFailure]
  | StateRolledBack => [StateQuarantined]
  | StateComplete | StateQuarantined | StateTerminalFailure | StateOther _ => []
  end.

Definition CanTransition (from to : LifecycleState) : bool := bool_decide (to ∈ transitions from).

Definition lifecycle_state_text (s : LifecycleState) : string :=
  match s with
  | StatePlanned => "planned" | StateAcquiring => "acquiring" | StateStored => "stored" | StateStaging => "staging"
  | StateStaged => "staged" | StateActivating => "activating" | StateHealthy => "healthy"
  | StateGracePeriod => "grace-period" | StateRevoking => "revoking" | StateComplete => "complete"
  | StateRetryable => "retryable" | StateReconciliationRequired => "reconciliation-required"
  | StateRollingBack => "rolling-back" | StateRolledBack => "rolled-back"
  | StateQuarantined => "quarantined-new-credential" | StateTerminalFailure => "terminal-failure"
  | StateOther text => text
  end.

Definition Transition (from to : LifecycleState) : result unit :=
  reject_if (negb (CanTransition from to))
    ("invalid lifecycle transition " +:+ lifecycle_state_text from +:+ " -> " +:+ lifecycle_state_text to).

(** ** Leases *)

Record Lease := { le_Bundle : string; le_Owner : string; le_AcquiredAt : string; le_ExpiresAt : string }.
#[export] Instance Lease_eq_dec : EqDecision Lease.
Proof. solve_decision. Defined.

Definition max_lease : Z := 15 * minute.

Definition Lease_Validate (lease : Lease) : result unit :=
  _ ← reject_if (negb (nonempty (le_Bundle lease)) || negb (nonempty (le_Owner lease))) "lifecycle lease binding is invalid";
  match canonicalTime (le_AcquiredAt lease) with
  | None => Err "lifecycle lease acquisition time is invalid"
  | Some acquired =>
      match canonicalTime (le_ExpiresAt lease) with
      | None => Err "lifecycle lease expiry is invalid"
      | Some expires =>
          reject_if (negb (acquired <? expires) || (acquired + max_lease <? expires)) "lifecycle lease expiry is invalid"
      end
  end.

(** ** Policies *)

Record TargetPolicy := { tp_Provider : string; tp_ProjectID : string; tp_EnvironmentID : string }.
#[export] Instance TargetPolicy_eq_dec : EqDecision TargetPolicy.
Proof. solve_decision. Defined.

(** Byte strings are [string]s; a nil slice and an empty one differ only in
    their JSON. *)
Record AutomationPolicy := {
  au_Version : Z; au_ID : string; au_VaultID : string; au_Bundle : string; au_ManifestDigest : string;
  au_Environment : string; au_ProviderIdentities : gmap string string; au_CredentialClasses : list string;
  au_Operations : list string; au_Targets : list TargetPolicy; au_Schedule : string; au_HealthChecks : list string;
  au_GracePeriod : string; au_Rollback : string; au_RetryBudget : Z; au_ExpiresAt : string;
  au_ApprovingDevice : string; au_PublicKey : string; au_Signature : string
}.

Record Evidence := {
  ev_Sequence : Z; ev_OperationID : string; ev_Stage : string; ev_Code : string; ev_At : string;
  ev_PreviousDigest : string; ev_Digest : string; ev_Device : string; ev_Signature : string
}.
#[export] Instance Evidence_eq_dec : EqDecision Evidence.
Proof. solve_decision. Defined.

(** [json.Marshal] of a policy and of an evidence. *)
Class LifecycleCodec := { policy_json : AutomationPolicy → string; evidence_json : Evidence → string }.

(** [ed25519.Sign]. *)
Class Signing := { ed25519_Sign : string → string → string }.

Definition PolicyVersion : Z := 1.
Definition ed25519_SignatureSize : Z := 64.
Definition ed25519_PrivateKeySize : Z := 64.
Definition max_policy_life : Z := 90 * 24 * hour.

Definition clear_policy_signature (p : AutomationPolicy) : AutomationPolicy :=
  {| au_Version := au_Version p; au_ID := au_ID p; au_VaultID := au_VaultID p; au_Bundle := au_Bundle p;
     au_ManifestDigest := au_ManifestDigest p; au_Environment := au_Environment p;
     au_ProviderIdentities := au_ProviderIdentities p; au_CredentialClasses := au_CredentialClasses p;
     au_Operations := au_Operations p; au_Targets := au_Targets p; au_Schedule := au_Schedule p;
     au_HealthChecks := au_HealthChecks p; au_GracePeriod := au_GracePeriod p; au_Rollback := au_Rollback p;
     au_RetryBudget := au_RetryBudget p; au_ExpiresAt := au_ExpiresAt p; au_ApprovingDevice := au_ApprovingDevice p;
     au_PublicKey := au_PublicKey p; au_Signature := "" |}.

(** The operations that a policy may list. *)
Definition policy_operation (operation : string) : bool :=
  existsb (String.eqb operation) ["create"; "stage"; "activate"; "verify"; "rollback"; "revoke"].

Fixpoint duplicateStrings_from (seen : gset string) (values : list string) : bool :=
  match values with
  | [] => false
  | value :: rest =>
      if negb (nonempty value) || bool_decide (value ∈ seen) then true
      else duplicateStrings_from ({[value]} ∪ seen) rest
  end.
Definition duplicateStrings (values : list string) : bool := duplicateStrings_from ∅ values.

Definition policy_target_key (t : TargetPolicy) : string :=
  tp_Provider t +:+ nul +:+ tp_ProjectID t +:+ nul +:+ tp_EnvironmentID t.

Fixpoint valid_targets (seen : gset string) (targets : list TargetPolicy) : result unit :=
  match targets with
  | [] => Ok tt
  | t :: rest =>
      _ ← reject_if (negb (nonempty (tp_Provider t)) || negb (nonempty (tp_ProjectID t)) ||
            negb (nonempty (tp_EnvironmentID t)) || bool_decide (policy_target_key t ∈ seen))
          "automation policy target binding is invalid";
      valid_targets ({[policy_target_key t]} ∪ seen) rest
  end.

(** (The text of the error quotes the operation.) *)
(* the text of the error also quotes the operation *)
Fixpoint valid_operations (operations : list string) : result unit :=
  match operations with
  | [] => Ok tt
  | operation :: rest =>
      _ ← reject_if (negb (policy_operation operation)) "automation policy operation is invalid";
      valid_operations rest
  end.

(** The least grace period of an environment. *)
Definition least_grace (environment : string) : Z :=
  if String.eqb environment "production" then 24 * hour else 15 * minute.

(** [sort.SearchStrings] in the sorted values: whether the value is there. *)
Fixpoint SearchStrings (ordered : list string) (wanted : string) : nat :=
  match ordered with
  | [] => 0
  | s :: rest => if str_lt s wanted then S (SearchStrings rest wanted) else 0
  end.
Definition stringContains (values : list string) (wanted : string) : bool :=
  let ordered := sort_strings values in
  match ordered !! SearchStrings ordered wanted with
  | Some found => String.eqb found wanted
  | None => false
  end.

Record AuthorizationBinding := {
  ab_VaultID : string; ab_Bundle : string; ab_ManifestDigest : string; ab_Environment : string; ab_Provider : string;
  ab_ProviderIdentity : string; ab_CredentialClass : string; ab_Operation : string; ab_Target : TargetPolicy
}.

Section Policies.
Context {crypto : Crypto} {codec : LifecycleCodec}.

Definition policy_signingBytes (p : AutomationPolicy) : string := policy_json (clear_policy_signature p).

Definition policy_Digest (p : AutomationPolicy) : string := hex (sha256 (policy_json p)).

(** The second half of a private key is the public one. *)
Definition Policy_Sign {signing : Signing} (private : string) (p : AutomationPolicy) : result AutomationPolicy :=
  if negb (slen private =? ed25519_PrivateKeySize) then Err "policy signing key is invalid"
  else
    let public := drop_bytes 32 private in
    let with_keys signature :=
      {| au_Version := au_Version p; au_ID := au_ID p; au_VaultID := au_VaultID p; au_Bundle := au_Bundle p;
         au_ManifestDigest := au_ManifestDigest p; au_Environment := au_Environment p;
         au_ProviderIdentities := au_ProviderIdentities p; au_CredentialClasses := au_CredentialClasses p;
         au_Operations := au_Operations p; au_Targets := au_Targets p; au_Schedule := au_Schedule p;
         au_HealthChecks := au_HealthChecks p; au_GracePeriod := au_GracePeriod p; au_Rollback := au_Rollback p;
         au_RetryBudget := au_RetryBudget p; au_ExpiresAt := au_ExpiresAt p; au_ApprovingDevice := au_ApprovingDevice p;
         au_PublicKey := public; au_Signature := signature |} in
    Ok (with_keys (ed25519_Sign private (policy_signingBytes (with_keys "")))).

Definition AutomationPolicy_Validate (p : AutomationPolicy) (now : Z) : result unit :=
  _ ← reject_if (negb (au_Version p =? PolicyVersion) || negb (nonempty (au_ID p)) || negb (nonempty (au_VaultID p)) ||
        negb (nonempty (au_Bundle p)) || negb (digestPattern (au_ManifestDigest p)) ||
        negb (nonempty (au_Environment p)) || bool_decide (au_ProviderIdentities p = ∅) ||
        bool_decide (au_CredentialClasses p = []) || bool_decide (au_Operations p = []) ||
        bool_decide (au_Targets p = []) || negb (nonempty (au_Schedule p)) || bool_decide (au_HealthChecks p = []) ||
        negb (nonempty (au_Rollback p)) || (au_RetryBudget p <? 1) || (3 <? au_RetryBudget p) ||
        negb (nonempty (au_ApprovingDevice p))) "automation policy binding is incomplete";
  match canonicalTime (au_ExpiresAt p) with
  | None => Err "automation policy expiry is invalid"
  | Some expires =>
      _ ← reject_if (negb (now <? expires) || (now + max_policy_life <? expires)) "automation policy expiry is invalid";
      match ParseDuration (au_GracePeriod p) with
      | None => Err "automation policy grace period is invalid"
      | Some grace =>
          _ ← reject_if ((grace <=? 0) || (grace <? least_grace (au_Environment p)))
                "automation policy grace period is invalid";
          _ ← reject_if (negb (slen (au_PublicKey p) =? ed25519_PublicKeySize) ||
                negb (slen (au_Signature p) =? ed25519_SignatureSize)) "automation policy signature is invalid";
          _ ← reject_if (negb (ed25519_verify (au_PublicKey p) (policy_signingBytes p) (au_Signature p)))
                "automation policy signature is invalid";
          _ ← valid_operations (au_Operations p);
          _ ← reject_if (duplicateStrings (au_Operations p) || duplicateStrings (au_CredentialClasses p))
                "automation policy contains duplicate capabilities";
          valid_targets ∅ (au_Targets p)
      end
  end.

Definition Authorizes (p : AutomationPolicy) (binding : AuthorizationBinding) (now : Z) : result unit :=
  _ ← AutomationPolicy_Validate p now;
  _ ← reject_if (negb (String.eqb (au_VaultID p) (ab_VaultID binding)) || negb (String.eqb (au_Bundle p) (ab_Bundle binding)) ||
        negb (String.eqb (au_ManifestDigest p) (ab_ManifestDigest binding)) ||
        negb (String.eqb (au_Environment p) (ab_Environment binding)) ||
        negb (String.eqb (default "" (au_ProviderIdentities p !! ab_Provider binding)) (ab_ProviderIdentity binding)) ||
        negb (stringContains (au_CredentialClasses p) (ab_CredentialClass binding)) ||
        negb (stringContains (au_Operations p) (ab_Operation binding)))
      "automation policy does not authorize this operation";
  reject_if (negb (existsb (λ t, String.eqb (tp_Provider t) (tp_Provider (ab_Target binding)) &&
        String.eqb (tp_ProjectID t) (tp_ProjectID (ab_Target binding)) &&
        String.eqb (tp_EnvironmentID t) (tp_EnvironmentID (ab_Target binding))) (au_Targets p)))
    "automation policy target binding changed".
End Policies.

(** ** Operations *)

Definition LifecycleVersion : Z := 1.

Record Operation := {
  lo_Version : Z; lo_ID : string; lo_PolicyID : string; lo_PolicyDigest : string; lo_VaultID : string;
  lo_Bundle : string; lo_ManifestDigest : string; lo_Provider : string; lo_ProviderIdentity : string;
  lo_Target : TargetPolicy; lo_CredentialClass : string; lo_DestinationRecord : string;
  lo_PreviousRecordRevision : Z; lo_NewRecordRevision : Z; lo_PreviousCredentialID : string;
  lo_NewCredentialID : string; lo_HealthEvidenceDigest : string; lo_State : LifecycleState; lo_Attempts : Z;
  lo_GraceEndsAt : string; lo_CreatedAt : string; lo_UpdatedAt : string
}.

Definition set_lifecycle_state (state : LifecycleState) (updated : string) (o : Operation) : Operation :=
  {| lo_Version := lo_Version o; lo_ID := lo_ID o; lo_PolicyID := lo_PolicyID o; lo_PolicyDigest := lo_PolicyDigest o;
     lo_VaultID := lo_VaultID o; lo_Bundle := lo_Bundle o; lo_ManifestDigest := lo_ManifestDigest o;
     lo_Provider := lo_Provider o; lo_ProviderIdentity := lo_ProviderIdentity o; lo_Target := lo_Target o;
     lo_CredentialClass := lo_CredentialClass o; lo_DestinationRecord := lo_DestinationRecord o;
     lo_PreviousRecordRevision := lo_PreviousRecordRevision o; lo_NewRecordRevision := lo_NewRecordRevision o;
     lo_PreviousCredentialID := lo_PreviousCredentialID o; lo_NewCredentialID := lo_NewCredentialID o;
     lo_HealthEvidenceDigest := lo_HealthEvidenceDigest o; lo_State := state; lo_Attempts := lo_Attempts o;
     lo_GraceEndsAt := lo_GraceEndsAt o; lo_CreatedAt := lo_CreatedAt o; lo_UpdatedAt := updated |}.

(** The states in which the new record may be missing. *)
Definition without_new_record (state : LifecycleState) : bool :=
  match state with StatePlanned | StateAcquiring | StateRetryable | StateTerminalFailure => true | _ => false end.

(** The states after a successful activation. *)
Definition after_health (state : LifecycleState) : bool :=
  match state with StateHealthy | StateGracePeriod | StateRevoking | StateComplete => true | _ => false end.

Definition Lifecycle_Validate (o : Operation) : result unit :=
  _ ← reject_if (negb (lo_Version o =? LifecycleVersion) || negb (nonempty (lo_ID o)) || negb (nonempty (lo_PolicyID o)) ||
        negb (digestPattern (lo_PolicyDigest o)) || negb (nonempty (lo_VaultID o)) || negb (nonempty (lo_Bundle o)) ||
        negb (digestPattern (lo_ManifestDigest o)) || negb (nonempty (lo_Provider o)) ||
        negb (nonempty (lo_ProviderIdentity o)) || negb (nonempty (lo_CredentialClass o)) ||
        negb (nonempty (lo_DestinationRecord o)) || (lo_PreviousRecordRevision o <? 1) ||
        negb (nonempty (lo_PreviousCredentialID o)) || negb (nonempty (tp_Provider (lo_Target o))) ||
        negb (nonempty (tp_ProjectID (lo_Target o))) || negb (nonempty (tp_EnvironmentID (lo_Target o))) ||
        (lo_Attempts o <? 0) || (3 <? lo_Attempts o)) "lifecycle operation binding is invalid";
  match canonicalTime (lo_CreatedAt o) with
  | None => Err "lifecycle operation creation time is invalid"
  | Some created =>
      match canonicalTime (lo_UpdatedAt o) with
      | None => Err "lifecycle operation update time is invalid"
      | Some updated =>
          _ ← reject_if (updated <? created) "lifecycle operation update time is invalid";
          _ ← reject_if (negb (lo_NewRecordRevision o =? 0) && (lo_NewRecordRevision o <=? lo_PreviousRecordRevision o))
                "new record revision must advance the previous revision";
          _ ← reject_if ((lo_NewRecordRevision o =? 0) && negb (without_new_record (lo_State o)))
                "lifecycle operation lost the new record revision";
          _ ← reject_if (after_health (lo_State o) && negb (digestPattern (lo_HealthEvidenceDigest o)))
                "lifecycle operation health evidence is invalid";
          if nonempty (lo_GraceEndsAt o) then
            match parse_rfc3339 (lo_GraceEndsAt o) with
            | None => Err "lifecycle operation grace time is invalid"
            | Some grace => reject_if (grace <? created) "lifecycle operation grace time is invalid"
            end
          else Ok tt
      end
  end.

(** [Move] changes the operation it is called on: also when the result does not
    validate.  The operation after it, and the error. *)
Definition Move (o : Operation) (to : LifecycleState) (now : Z) : Operation * result unit :=
  match Transition (lo_State o) to with
  | Err e => (o, Err e)
  | Ok _ => let o := set_lifecycle_state to (format_rfc3339 now) o in (o, Lifecycle_Validate o)
  end.

Section Revocation.
Context {crypto : Crypto} {codec : LifecycleCodec}.

Definition RevocationAllowed (o : Operation) (binding : AuthorizationBinding) (recordRevision : Z)
    (healthEvidenceDigest : string) (now : Z) (policy : AutomationPolicy) : result unit :=
  _ ← reject_if (negb (is_ok (Lifecycle_Validate o)) || bool_decide (lo_State o ≠ StateRevoking) ||
        negb (lo_NewRecordRevision o =? recordRevision) ||
        negb (String.eqb (lo_HealthEvidenceDigest o) healthEvidenceDigest) ||
        negb (String.eqb (lo_PolicyDigest o) (policy_Digest policy)) ||
        negb (String.eqb (lo_VaultID o) (ab_VaultID binding)) || negb (String.eqb (lo_Bundle o) (ab_Bundle binding)) ||
        negb (String.eqb (lo_ManifestDigest o) (ab_ManifestDigest binding)) ||
        negb (String.eqb (lo_Provider o) (ab_Provider binding)) ||
        negb (String.eqb (lo_ProviderIdentity o) (ab_ProviderIdentity binding)) ||
        negb (String.eqb (lo_CredentialClass o) (ab_CredentialClass binding)) ||
        bool_decide (lo_Target o ≠ ab_Target binding)) "revocation safety evidence changed";
  _ ← reject_if (negb (nonempty (lo_GraceEndsAt o))) "revocation grace period is missing";
  match parse_rfc3339 (lo_GraceEndsAt o) with
  | None => Err "revocation grace period has not elapsed"
  | Some grace =>
      _ ← reject_if (now <? grace) "revocation grace period has not elapsed";
      Authorizes policy binding now
  end.

(** ** Evidence *)

Definition clear_evidence_signature (e : Evidence) : Evidence :=
  {| ev_Sequence := ev_Sequence e; ev_OperationID := ev_OperationID e; ev_Stage := ev_Stage e; ev_Code := ev_Code e;
     ev_At := ev_At e; ev_PreviousDigest := ev_PreviousDigest e; ev_Digest := ev_Digest e; ev_Device := ev_Device e;
     ev_Signature := "" |}.

Definition clear_evidence_digest (e : Evidence) : Evidence :=
  {| ev_Sequence := ev_Sequence e; ev_OperationID := ev_OperationID e; ev_Stage := ev_Stage e; ev_Code := ev_Code e;
     ev_At := ev_At e; ev_PreviousDigest := ev_PreviousDigest e; ev_Digest := ""; ev_Device := ev_Device e;
     ev_Signature := "" |}.

Definition evidence_signingBytes (e : Evidence) : string := evidence_json (clear_evidence_signature e).
Definition evidence_digest (e : Evidence) : string := hex (sha256 (evidence_json (clear_evidence_digest e))).

Definition NewEvidence {signing : Signing} (previous : option Evidence) (operationID stage code device : string)
    (now : Z) (private : string) : result Evidence :=
  _ ← reject_if (negb (nonempty operationID) || negb (nonempty stage) || negb (nonempty device) ||
        negb (slen private =? ed25519_PrivateKeySize)) "evidence binding is invalid";
  let make digest signature :=
    {| ev_Sequence := match previous with Some p => wrap64 (ev_Sequence p + 1) | None => 1 end;
       ev_OperationID := operationID; ev_Stage := stage; ev_Code := code; ev_At := format_rfc3339 now;
       ev_PreviousDigest := match previous with Some p => ev_Digest p | None => "" end;
       ev_Digest := digest; ev_Device := device; ev_Signature := signature |} in
  let digest := evidence_digest (make "" "") in
  Ok (make digest (ed25519_Sign private (evidence_signingBytes (make digest "")))).

(** The loop of [VerifyEvidenceChain]: the index of the next entry and the
    digest of the one before. *)
Fixpoint verify_chain (public : string) (index : Z) (previous : string) (chain : list Evidence) : result unit :=
  match chain with
  | [] => Ok tt
  | e :: rest =>
      _ ← reject_if (negb (ev_Sequence e =? wrap64 (index + 1)) || negb (String.eqb (ev_PreviousDigest e) previous) ||
            negb (digestPattern (ev_Digest e))) "evidence chain is invalid";
      _ ← reject_if (negb (String.eqb (ev_Digest e) (evidence_digest e))) "evidence digest is invalid";
      _ ← reject_if (negb (ed25519_verify public (evidence_signingBytes e) (ev_Signature e))) "evidence signature is invalid";
      verify_chain public (index + 1) (ev_Digest e) rest
  end.

Definition VerifyEvidenceChain (chain : list Evidence) (public : string) : result unit := verify_chain public 0 "" chain.
End Revocation.

(** ** Health *)

Record HealthEvidence := {
  he_SuccessfulChecks : Z; he_FirstSuccessAt : string; he_LastSuccessAt : string; he_Healthy : bool
}.

Definition HealthEvidence_Validate (e : HealthEvidence) : result unit :=
  _ ← reject_if (negb (he_Healthy e) || (he_SuccessfulChecks e <? 3)) "deployment health evidence is insufficient";
  match parse_rfc3339 (he_FirstSuccessAt e) with
  | None => Err "deployment health evidence time is invalid"
  | Some first =>
      match parse_rfc3339 (he_LastSuccessAt e) with
      | None => Err "deployment health evidence window is insufficient"
      | Some last => reject_if (time_sub last first <? 30 * second) "deployment health evidence window is insufficient"
      end
  end.

(** What a revocation and a chain of evidence guarantee. *)

(** ** Membership by binary search *)

Lemma insert_string_sorted x l :
  StronglySorted (λ a b, str_lt b a = false) l → StronglySorted (λ a b, str_lt b a = false) (insert_string x l).
Proof.
  induction 1 as [|y l Hl IH Hle]; cbn [insert_string]; [by repeat constructor|].
  destruct (str_lt y x) eqn:E.
  - constructor; [done|]. rewrite insert_string_perm. constructor; [|done].
    destruct (str_lt x y) eqn:E'; [|done]. pose proof (str_lt_trans _ _ _ E E') as C.
    by rewrite str_lt_irrefl in C.
  - constructor; [by constructor|]. constructor; [done|]. eapply Forall_impl; [exact Hle|]. cbn. intros z Hz.
    destruct (str_lt z x) eqn:E'; [|done]. destruct (str_lt y z) eqn:E''.
    + by rewrite (str_lt_trans y z x) in E.
    + rewrite (str_lt_total z y) in E' by done. congruence.
Qed.

Lemma sort_strings_sorted l : StronglySorted (λ a b, str_lt b a = false) (sort_strings l).
Proof. induction l as [|x l IH]; [constructor|]. by apply insert_string_sorted. Qed.

Lemma SearchStrings_found ordered wanted :
  StronglySorted (λ a b, str_lt b a = false) ordered → wanted ∈ ordered →
  ordered !! SearchStrings ordered wanted = Some wanted.
Proof.
  induction 1 as [|s l Hl IH Hle]; [by intros ?%elem_of_nil|]. intros Hin. cbn [SearchStrings].
  destruct (str_lt s wanted) eqn:E.
  - apply elem_of_cons in Hin as [->|Hin]; [by rewrite str_lt_irrefl in E|]. by apply IH.
  - simpl. f_equal. apply elem_of_cons in Hin as [->|Hin]; [done|]. rewrite Forall_forall in Hle.
    apply str_lt_total; [done|]. by apply Hle.
Qed.

Lemma stringContains_spec values wanted : stringContains values wanted = true ↔ wanted ∈ values.
Proof.
  unfold stringContains. split.
  - destruct (_ !! _) as [found|] eqn:E; [|done]. intros ->%String.eqb_eq.
    apply list_elem_of_lookup_2 in E. by rewrite sort_strings_perm in E.
  - intros Hin. rewrite SearchStrings_found; [apply String.eqb_refl|apply sort_strings_sorted|by rewrite sort_strings_perm].
Qed.

(** ** Revocation *)

Section Revocation.
Context {crypto : Crypto} {codec : LifecycleCodec}.

(** What a policy grants at a time. *)
Record granted (p : AutomationPolicy) (b : AuthorizationBinding) (now : Z) : Prop := {
  gr_in_time : ∃ expires, canonicalTime (au_ExpiresAt p) = Some expires ∧ now < expires ≤ now + max_policy_life;
  gr_grace : ∃ grace, ParseDuration (au_GracePeriod p) = Some grace ∧ least_grace (au_Environment p) ≤ grace;
  gr_signed : ed25519_verify (au_PublicKey p) (policy_signingBytes p) (au_Signature p) = true;
  gr_scope : au_VaultID p = ab_VaultID b ∧ au_Bundle p = ab_Bundle b ∧ au_ManifestDigest p = ab_ManifestDigest b ∧
    au_Environment p = ab_Environment b;
  gr_identity : au_ProviderIdentities p !!! ab_Provider b = ab_ProviderIdentity b;
  gr_class : ab_CredentialClass b ∈ au_CredentialClasses p;
  gr_operation : ab_Operation b ∈ au_Operations p;
  gr_target : ab_Target b ∈ au_Targets p;
}.

Lemma AutomationPolicy_Validate_Ok p now :
  AutomationPolicy_Validate p now = Ok tt →
  (∃ expires, canonicalTime (au_ExpiresAt p) = Some expires ∧ now < expires ≤ now + max_policy_life) ∧
  (∃ grace, ParseDuration (au_GracePeriod p) = Some grace ∧ least_grace (au_Environment p) ≤ grace) ∧
  ed25519_verify (au_PublicKey p) (policy_signingBytes p) (au_Signature p) = true.
Proof.
  unfold AutomationPolicy_Validate. rewrite reject_if_bind. intros [_ H].
  destruct (canonicalTime _) as [expires|]; [|done]. apply reject_if_bind in H as [He H].
  destruct (ParseDuration _) as [grace|]; [|done]. apply reject_if_bind in H as [Hg H].
  apply reject_if_bind in H as [_ H]. apply reject_if_bind in H as [Hs _]. passed He. passed Hg. passed Hs.
  split_and!; [by exists expires|by exists grace|done].
Qed.

Lemma Authorizes_granted p b now : Authorizes p b now = Ok tt → granted p b now.
Proof.
  unfold Authorizes. intros H. apply bind_Ok in H as ([] & Hv & H). apply reject_if_bind in H as [Hb Ht].
  apply AutomationPolicy_Validate_Ok in Hv as (He & Hg & Hs).
  apply reject_if_Ok, negb_false_iff, existsb_exists in Ht as (t & Hin%list_elem_of_In & Ht).
  passed Hb. passed Ht. split; [done|done|done|by split_and!|by rewrite lookup_total_alt|by apply stringContains_spec..|].
  destruct t as [? ? ?], (ab_Target b) as [? ? ?]. simpl in *. congruence.
Qed.

Lemma Lifecycle_Validate_Ok o :
  Lifecycle_Validate o = Ok tt → 1 ≤ lo_PreviousRecordRevision o ∧
  (∃ created, canonicalTime (lo_CreatedAt o) = Some created ∧
     ∀ grace, nonempty (lo_GraceEndsAt o) = true → parse_rfc3339 (lo_GraceEndsAt o) = Some grace → created ≤ grace) ∧
  (without_new_record (lo_State o) = false → lo_PreviousRecordRevision o < lo_NewRecordRevision o) ∧
  (after_health (lo_State o) = true → digestPattern (lo_HealthEvidenceDigest o) = true).
Proof.
  unfold Lifecycle_Validate. rewrite reject_if_bind. intros [Hb H]. repeat (apply orb_false_iff in Hb as [Hb ?]).
  destruct (canonicalTime (lo_CreatedAt o)) as [created|]; [|done]. destruct (canonicalTime _) as [updated|]; [|done].
  rewrite !reject_if_bind in H. destruct H as (_ & Hrev & Hlost & Hhealth & H).
  split_and!; [lia| | |].
  - exists created. split; [done|]. intros grace Hne Hg. rewrite Hne, Hg in H. apply reject_if_Ok in H. lia.
  - intros Hs. rewrite Hs in Hlost. cbn in Hlost. lia.
  - intros Hs. rewrite Hs in Hhealth. by apply negb_false_iff in Hhealth.
Qed.

(** C18: a revocation is safe.  It is allowed only for an operation that is
    revoking, whose record has a newer revision than the credential to revoke,
    whose health evidence is as recorded, and whose grace period has ended; and
    only under the very policy that the operation was planned with, unexpired
    and signed, which grants the provider identity, the credential class, the
    operation and the target, all of them those of the operation. *)
Theorem revocation_is_safe o b recordRevision health now policy :
  RevocationAllowed o b recordRevision health now policy = Ok tt →
  lo_State o = StateRevoking ∧
  (1 ≤ lo_PreviousRecordRevision o < lo_NewRecordRevision o ∧ lo_NewRecordRevision o = recordRevision) ∧
  (digestPattern (lo_HealthEvidenceDigest o) = true ∧ lo_HealthEvidenceDigest o = health) ∧
  (∃ created grace, canonicalTime (lo_CreatedAt o) = Some created ∧ parse_rfc3339 (lo_GraceEndsAt o) = Some grace ∧
     created ≤ grace ≤ now) ∧
  lo_PolicyDigest o = policy_Digest policy ∧ granted policy b now ∧
  (lo_VaultID o = ab_VaultID b ∧ lo_Bundle o = ab_Bundle b ∧ lo_ManifestDigest o = ab_ManifestDigest b ∧
   lo_Provider o = ab_Provider b ∧ lo_ProviderIdentity o = ab_ProviderIdentity b ∧
   lo_CredentialClass o = ab_CredentialClass b ∧ lo_Target o = ab_Target b).
Proof.
  unfold RevocationAllowed. rewrite !reject_if_bind. intros (Hb & Hne & H). apply negb_false_iff in Hne.
  destruct (parse_rfc3339 (lo_GraceEndsAt o)) as [grace|] eqn:Eg; [|done]. apply reject_if_bind in H as [Hnow H].
  apply Authorizes_granted in H. repeat (apply orb_false_iff in Hb as [Hb ?]).
  apply negb_false_iff, is_ok_true in Hb as [[] Hb].
  apply Lifecycle_Validate_Ok in Hb as (Hprev & (created & Hc & Hgrace) & Hnew & Hhealth).
  repeat match goal with
  | H : negb _ = false |- _ => apply negb_false_iff in H
  | H : String.eqb _ _ = true |- _ => apply String.eqb_eq in H
  | H : bool_decide (_ ≠ _) = false |- _ => apply bool_decide_eq_false, dec_stable in H
  end.
  match goal with E : lo_State o = StateRevoking |- _ => rewrite E in Hnew, Hhealth end.
  split_and!; try done; try lia; [by apply Hnew|by apply Hhealth|].
  exists created, grace. split_and!; [done|done| |lia]. by apply Hgrace.
Qed.
End Revocation.

(** ** Evidence *)

Section Chain.
Context {crypto : Crypto} {codec : LifecycleCodec}.

(** An entry that may follow an entry of digest [previous], as the number
    [index + 1]. *)
Definition entry_ok (public : string) (index : Z) (previous : string) (e : Evidence) : Prop :=
  ev_Sequence e = wrap64 (index + 1) ∧ ev_PreviousDigest e = previous ∧ digestPattern (ev_Digest e) = true ∧
  ev_Digest e = evidence_digest e ∧ ed25519_verify public (evidence_signingBytes e) (ev_Signature e) = true.

Definition last_digest (previous : string) (chain : list Evidence) : string := from_option ev_Digest previous (last chain).

Lemma verify_chain_cons public index previous e chain :
  verify_chain public index previous (e :: chain) = Ok tt ↔
  entry_ok public index previous e ∧ verify_chain public (index + 1) (ev_Digest e) chain = Ok tt.
Proof.
  cbn [verify_chain]. unfold entry_ok. autorewrite with checks. tauto.
Qed.

Lemma verify_chain_snoc public index previous chain e :
  verify_chain public index previous (chain ++ [e]) = Ok tt ↔
  verify_chain public index previous chain = Ok tt ∧
  entry_ok public (index + Z.of_nat (List.length chain)) (last_digest previous chain) e.
Proof.
  revert index previous. induction chain as [|x chain IH]; intros index previous.
  - cbn [app]. rewrite verify_chain_cons, Z.add_0_r. cbn. tauto.
  - cbn [app]. rewrite !verify_chain_cons, IH.
    replace (index + 1 + Z.of_nat (List.length chain)) with (index + Z.of_nat (List.length (x :: chain))) by (cbn; lia).
    replace (last_digest previous (x :: chain)) with (last_digest (ev_Digest x) chain); [tauto|].
    unfold last_digest. rewrite last_cons. by destruct (last chain).
Qed.

Lemma digestPattern_nonempty : digestPattern "" = false.
Proof. done. Qed.

(** The last digest of a chain binds all of it.  Two verified chains with the
    same last digest have the same entries but for the signatures, unless two
    different entries of theirs collide: so no earlier entry can be altered,
    dropped or inserted while the last one stays. *)
Theorem evidence_chain_binds public public' chain chain' e e' :
  VerifyEvidenceChain (chain ++ [e]) public = Ok tt → VerifyEvidenceChain (chain' ++ [e']) public' = Ok tt →
  ev_Digest e = ev_Digest e' →
  (∀ x x', x ∈ chain ++ [e] → x' ∈ chain' ++ [e'] → evidence_digest x = evidence_digest x' →
     clear_evidence_digest x = clear_evidence_digest x') →
  clear_evidence_signature <$> chain ++ [e] = clear_evidence_signature <$> chain' ++ [e'].
Proof.
  unfold VerifyEvidenceChain. revert chain' e e'.
  induction chain as [|x chain IH] using rev_ind; intros chain' e e' [Hc He]%verify_chain_snoc [Hc' He']%verify_chain_snoc Hd Hno;
    destruct He as (Hs & Hp & _ & Hdig & _), He' as (Hs' & Hp' & _ & Hdig' & _).
  all: assert (Hee : clear_evidence_digest e = clear_evidence_digest e')
    by (apply Hno; [apply elem_of_app; right; by left|apply elem_of_app; right; by left|congruence]).
  all: assert (Hsig : clear_evidence_signature e = clear_evidence_signature e')
    by (destruct e, e'; unfold clear_evidence_digest, clear_evidence_signature in *; simpl in *; congruence).
  all: assert (Hprev : ev_PreviousDigest e = ev_PreviousDigest e') by (by injection Hee).
  all: destruct chain' as [|y chain' _] using rev_ind.
  - cbn. by rewrite Hsig.
  - apply verify_chain_snoc in Hc' as [_ (_ & _ & Hy & _)]. unfold last_digest in *. rewrite last_snoc in Hp'.
    simpl in *. by rewrite <-Hp', <-Hprev, Hp in Hy.
  - apply verify_chain_snoc in Hc as [_ (_ & _ & Hx & _)]. unfold last_digest in *. rewrite last_snoc in Hp.
    simpl in *. by rewrite <-Hp, Hprev, Hp' in Hx.
  - unfold last_digest in *. rewrite last_snoc in Hp, Hp'. simpl in Hp, Hp'.
    assert (Hrest : clear_evidence_signature <$> chain ++ [x] = clear_evidence_signature <$> chain' ++ [y]).
    { apply IH; [done|done|congruence|].
      intros z z' Hz Hz'. apply Hno; apply elem_of_app; by left. }
    rewrite (fmap_app _ (chain ++ [x])), (fmap_app _ (chain' ++ [y])), Hrest. cbn [fmap list_fmap]. by rewrite Hsig.
Qed.
End Chain.

(** ** Examples *)

#[local] Instance example_crypto : Crypto := {|
  sha256 := λ s, string_of_list_ascii (replicate 31 "000"%char ++ [chr (slen s mod 256)]);
  ed25519_verify := λ _ _ _, true; x25519_usable := λ _, true |}.
#[local] Instance example_codec : LifecycleCodec := {|
  policy_json := au_ID; evidence_json := λ e, ev_Stage e +:+ ev_PreviousDigest e |}.

Definition example_target : TargetPolicy := {| tp_Provider := "railway"; tp_ProjectID := "p"; tp_EnvironmentID := "e" |}.
Definition a_digest : string := hex (string_of_list_ascii (replicate 32 "000"%char)).
Definition bytes_of_length (n : nat) : string := string_of_list_ascii (replicate n "000"%char).

Definition example_policy : AutomationPolicy := {|
  au_Version := 1; au_ID := "policy"; au_VaultID := "v"; au_Bundle := "shop"; au_ManifestDigest := a_digest;
  au_Environment := "production"; au_ProviderIdentities := {["railway" := "acct"]}; au_CredentialClasses := ["token"];
  au_Operations := ["create"; "revoke"]; au_Targets := [example_target]; au_Schedule := "weekly"; au_HealthChecks := ["http"];
  au_GracePeriod := "24h"; au_Rollback := "previous"; au_RetryBudget := 3; au_ExpiresAt := "2026-03-01T00:00:00Z";
  au_ApprovingDevice := "d"; au_PublicKey := bytes_of_length 32; au_Signature := bytes_of_length 64 |}.

Definition example_binding (operation : string) : AuthorizationBinding := {|
  ab_VaultID := "v"; ab_Bundle := "shop"; ab_ManifestDigest := a_digest; ab_Environment := "production";
  ab_Provider := "railway"; ab_ProviderIdentity := "acct"; ab_CredentialClass := "token"; ab_Operation := operation;
  ab_Target := example_target |}.

Definition example_operation : Operation := {|
  lo_Version := 1; lo_ID := "op"; lo_PolicyID := "policy"; lo_PolicyDigest := policy_Digest example_policy;
  lo_VaultID := "v"; lo_Bundle := "shop"; lo_ManifestDigest := a_digest; lo_Provider := "railway";
  lo_ProviderIdentity := "acct"; lo_Target := example_target; lo_CredentialClass := "token"; lo_DestinationRecord := "db";
  lo_PreviousRecordRevision := 1; lo_NewRecordRevision := 2; lo_PreviousCredentialID := "old"; lo_NewCredentialID := "new";
  lo_HealthEvidenceDigest := a_digest; lo_State := StateRevoking; lo_Attempts := 1;
  lo_GraceEndsAt := "2026-02-02T00:00:00Z"; lo_CreatedAt := "2026-02-01T00:00:00Z"; lo_UpdatedAt := "2026-02-02T00:00:00Z" |}.

Definition example_moment : Z := default 0 (parse_rfc3339 "2026-02-03T00:00:00Z").

Example revocation_example : RevocationAllowed example_operation (example_binding "revoke") 2 a_digest example_moment example_policy = Ok tt.
Proof. vm_compute. reflexivity. Qed.

(** The operation of the binding need not be a revocation: any that the policy
    grants will do. *)
Example revocation_under_another_operation :
  RevocationAllowed example_operation (example_binding "create") 2 a_digest example_moment example_policy = Ok tt.
Proof. vm_compute. reflexivity. Qed.

Lemma revocation_is_safe_witness : lo_State example_operation = StateRevoking ∧
  granted example_policy (example_binding "revoke") example_moment.
Proof.
  destruct (revocation_is_safe example_operation (example_binding "revoke") 2 a_digest example_moment example_policy revocation_example)
    as (Hs & _ & _ & _ & _ & Hg & _). by split.
Defined.

Definition example_entry (sequence : Z) (stage previous signature : string) : Evidence :=
  let e := {| ev_Sequence := sequence; ev_OperationID := "op"; ev_Stage := stage; ev_Code := ""; ev_At := "";
    ev_PreviousDigest := previous; ev_Digest := ""; ev_Device := "d"; ev_Signature := signature |} in
  {| ev_Sequence := sequence; ev_OperationID := "op"; ev_Stage := stage; ev_Code := ""; ev_At := "";
    ev_PreviousDigest := previous; ev_Digest := evidence_digest e; ev_Device := "d"; ev_Signature := signature |}.
Definition entry1 (signature : string) : Evidence := example_entry 1 "staged" "" signature.
Definition entry2 (signature : string) : Evidence := example_entry 2 "healthy" (ev_Digest (entry1 "")) signature.

Lemma evidence_chain_binds_witness :
  clear_evidence_signature <$> [entry1 "a"] ++ [entry2 "b"] = clear_evidence_signature <$> [entry1 "c"] ++ [entry2 "d"].
Proof.
  apply (evidence_chain_binds "" "" [entry1 "a"] [entry1 "c"] (entry2 "b") (entry2 "d"));
    [by vm_compute|by vm_compute|by vm_compute|].
  intros x x' [->|[->|[]%elem_of_nil]%elem_of_cons]%elem_of_cons [->|[->|[]%elem_of_nil]%elem_of_cons]%elem_of_cons H;
    first [by vm_compute|by vm_compute in H].
Defined.
