(* ===== verification/LifecycleStore.v ===== *)
(** The encrypted store of policies, operations, leases and evidence:
    internal/lifecycle/store.go, and its lease as a distributed mutex. *)
From S2P Require Import Prelude Timestamp Text Secure VaultObject Duration Lifecycle Envelope.
From S2P Require Export Program.
From stdpp Require Import options.

Definition ErrLeaseHeld : string := "one lifecycle operation is already active for this bundle".

(** ** Leases, without the vault *)

(** The lease that [AcquireLease] proposes at the time [now]. *)
Definition proposed_lease (bundle owner : string) (ttl now : Z) : result Lease :=
  let lease := {| le_Bundle := bundle; le_Owner := owner; le_AcquiredAt := format_rfc3339 now;
    le_ExpiresAt := format_rfc3339 (now + ttl) |} in
  _ ← Lease_Validate lease;
  Ok lease.

(** The revision that the put expects, from what was loaded. *)
Definition lease_expected (now : Z) (loaded : result (Lease * Z)) : result Z :=
  match loaded with
  | Err _ => Ok 0
  | Ok (current, revision) =>
      match parse_rfc3339 (le_ExpiresAt current) with
      | None => Err "encrypted lifecycle lease is invalid"
      | Some expires => if now <? expires then Err ErrLeaseHeld else Ok revision
      end
  end.

(** What [ReleaseLease] checks before it deletes. *)
Definition release_allowed (lease : Lease) (revision : Z) (loaded : result (Lease * Z)) : result unit :=
  '(current, currentRevision) ← loaded;
  reject_if (negb (currentRevision =? revision) || negb (String.eqb (le_Owner current) (le_Owner lease))) ErrLeaseHeld.

(** ** The store

    Its calls to the clock and to the vault, as programs: between two calls anything may
    happen to the vault. *)

Module Call.
Inductive call : Type → Type :=
| Now : call Z
(** The payload and revision of an object *)
| GetObject (kind key : string) : call (result (string * Z))
(** The revision of what was put in place of the revision that is expected *)
| PutObject (kind key payload : string) (expected : Z) : call (result Z)
| DeleteObject (kind key : string) (expected : Z) : call (result unit).
End Call.
Abbreviation call := Call.call.
Abbreviation program A := (flow call (result A) (result A)).

(** [if err != nil { return err }] *)
Definition or_return {A B} (r : result A) : flow call (result B) A :=
  match r with Ok a => mret a | Err message => Exit (Err message) end.

Section Store.
Context {crypto : Crypto} {codec : LifecycleCodec} {store : EncryptedStore}.
Context {policies : Payload AutomationPolicy} {operations : Payload Operation} {leases : Payload Lease}.
Context {evidence : Payload (list Evidence)}.

Definition ready : result unit := reject_if (negb unlocked) "lifecycle store is not unlocked".

Definition load {T} `{Payload T} (kind key : string) : program (T * Z) :=
  _ ← or_return ready;
  found ← ask (Call.GetObject kind key);
  '(payload, revision) ← or_return (found : result (string * Z));
  mret (match decodeStrict payload with
        | None => Err "encrypted lifecycle object is invalid"
        | Some value => Ok (value, revision)
        end).

Definition SavePolicy (policy : AutomationPolicy) (expected : Z) : program Z :=
  _ ← or_return ready;
  now ← ask Call.Now;
  _ ← or_return (AutomationPolicy_Validate policy now);
  ask (Call.PutObject KindAutomationPolicy (au_ID policy) (to_payload policy) expected).

(** The time is read when the identifier is the right one. *)
Definition LoadPolicy (id : string) : program (AutomationPolicy * Z) :=
  loaded ← enter (load KindAutomationPolicy id);
  '(policy, revision) ← or_return (loaded : result (AutomationPolicy * Z));
  let invalid := "encrypted automation policy is invalid" in
  _ ← or_return (reject_if (negb (String.eqb (au_ID policy) id)) invalid);
  now ← ask Call.Now;
  _ ← or_return (reject_if (negb (is_ok (AutomationPolicy_Validate policy now))) invalid);
  mret (Ok (policy, revision)).

Definition SaveOperation (operation : Operation) (expected : Z) : program Z :=
  _ ← or_return ready;
  _ ← or_return (Lifecycle_Validate operation);
  ask (Call.PutObject KindLifecycleOperation (lo_ID operation) (to_payload operation) expected).

Definition LoadOperation (id : string) : program (Operation * Z) :=
  loaded ← enter (load KindLifecycleOperation id);
  '(operation, revision) ← or_return (loaded : result (Operation * Z));
  _ ← or_return (reject_if (negb (String.eqb (lo_ID operation) id) || negb (is_ok (Lifecycle_Validate operation)))
        "encrypted lifecycle operation is invalid");
  mret (Ok (operation, revision)).

(** [AcquireLease] from the put on, and from the get on. *)
Definition put_lease (lease : Lease) (expected : Z) : program (Lease * Z) :=
  stored ← ask (Call.PutObject KindLifecycleLease (le_Bundle lease) (to_payload lease) expected);
  mret (match (stored : result Z) with Err _ => Err ErrLeaseHeld | Ok revision => Ok (lease, revision) end).

Definition read_lease (lease : Lease) (now : Z) : program (Lease * Z) :=
  loaded ← enter (load KindLifecycleLease (le_Bundle lease));
  expected ← or_return (lease_expected now loaded);
  put_lease lease expected.

Definition AcquireLease (bundle owner : string) (ttl : Z) : program (Lease * Z) :=
  _ ← or_return ready;
  _ ← or_return (reject_if ((ttl <=? 0) || (15 * minute <? ttl)) "lifecycle lease duration is invalid");
  now ← ask Call.Now;
  lease ← or_return (proposed_lease bundle owner ttl now);
  read_lease lease now.

Definition loadLease (bundle : string) : program (Lease * Z) := load KindLifecycleLease bundle.

Definition ReleaseLease (lease : Lease) (revision : Z) : program unit :=
  _ ← or_return ready;
  _ ← or_return (reject_if ((revision <? 1) || negb (nonempty (le_Bundle lease))) "lifecycle lease release is invalid");
  loaded ← enter (loadLease (le_Bundle lease));
  _ ← or_return (release_allowed lease revision loaded);
  ask (Call.DeleteObject KindLifecycleLease (le_Bundle lease) revision).

Definition AppendEvidence (operationID : string) (entry : Evidence) (public : string) : program Z :=
  _ ← or_return ready;
  found ← ask (Call.GetObject KindOperationEvidence operationID);
  '(chain, revision) ← or_return (match (found : result (string * Z)) with
    | Err _ => Ok ([], 0)
    | Ok (payload, revision) =>
        match decodeStrict payload with
        | None => Err "encrypted evidence chain is invalid"
        | Some chain => Ok (chain, revision)
        end
    end);
  let proposed := chain ++ [entry] in
  _ ← or_return (VerifyEvidenceChain proposed public);
  ask (Call.PutObject KindOperationEvidence operationID (to_payload proposed) revision).
End Store.

(** ** The lease as a distributed mutex, abstractly: attempts of many clients to acquire it,
    interleaved over one versioned store and one clock, each as far as it has come. *)

Section Leases.
Context {leases : Payload Lease}.

(** Where an attempt to acquire stands: before its get, between its get and its
    put, with the lease, between the check of its release and the delete, over. *)
Inductive attempt :=
| Asked (lease : Lease) (now : Z)
| Loaded (lease : Lease) (now expected : Z)
| Holding (lease : Lease) (revision : Z)
| Releasing (lease : Lease) (revision : Z)
| Over.

Record state := { objects : gmap string (string * Z); time : Z; attempts : gmap nat attempt }.

Definition with_attempt (n : nat) (a : attempt) (s : state) : state :=
  {| objects := objects s; time := time s; attempts := <[n := a]> (attempts s) |}.
Definition with_objects (m : gmap string (string * Z)) (s : state) : state :=
  {| objects := m; time := time s; attempts := attempts s |}.

(** What the store has: the revision of an object, 0 when there is none, and the
    answer of a get. *)
Definition revision_at (bundle : string) (s : state) : Z := default 0 (snd <$> objects s !! bundle).
Definition loaded (bundle : string) (s : state) : result (Lease * Z) :=
  match objects s !! bundle with
  | None => Err "server returned 404: vault object not found"
  | Some (payload, revision) =>
      match decodeStrict payload with Some lease => Ok (lease, revision) | None => Err "encrypted lifecycle object is invalid" end
  end.

Definition stored (lease : Lease) (expected : Z) (s : state) : gmap string (string * Z) :=
  <[le_Bundle lease := (to_payload lease, expected + 1)]> (objects s).

(** One step.  A get may fail for any reason; a put is refused, or done, or done
    with its reply lost; [releases] says whether leases are released at all. *)
Inductive step (releases : bool) : state → state → Prop :=
| step_clock s later :
    time s ≤ later → step releases s {| objects := objects s; time := later; attempts := attempts s |}
| step_ask s n bundle owner ttl lease :
    attempts s !! n = None → proposed_lease bundle owner ttl (time s) = Ok lease →
    step releases s (with_attempt n (Asked lease (time s)) s)
| step_load s n lease now answer expected :
    attempts s !! n = Some (Asked lease now) →
    (answer = loaded (le_Bundle lease) s ∨ is_ok answer = false) → lease_expected now answer = Ok expected →
    step releases s (with_attempt n (Loaded lease now expected) s)
| step_held s n lease now message :
    attempts s !! n = Some (Asked lease now) → lease_expected now (loaded (le_Bundle lease) s) = Err message →
    step releases s (with_attempt n Over s)
| step_acquire s n lease now expected :
    attempts s !! n = Some (Loaded lease now expected) → revision_at (le_Bundle lease) s = expected →
    step releases s (with_attempt n (Holding lease (expected + 1)) (with_objects (stored lease expected s) s))
| step_reply_lost s n lease now expected :
    attempts s !! n = Some (Loaded lease now expected) → revision_at (le_Bundle lease) s = expected →
    step releases s (with_attempt n Over (with_objects (stored lease expected s) s))
| step_refused s n lease now expected :
    attempts s !! n = Some (Loaded lease now expected) → step releases s (with_attempt n Over s)
| step_check s n lease revision :
    releases = true → attempts s !! n = Some (Holding lease revision) →
    release_allowed lease revision (loaded (le_Bundle lease) s) = Ok tt →
    step releases s (with_attempt n (Releasing lease revision) s)
| step_delete s n lease revision :
    attempts s !! n = Some (Releasing lease revision) → revision_at (le_Bundle lease) s = revision →
    step releases s (with_attempt n Over (with_objects (delete (le_Bundle lease) (objects s)) s)).

Definition start : state := {| objects := ∅; time := 0; attempts := ∅ |}.
Definition reachable (releases : bool) (s : state) : Prop := ∃ s0, objects s0 = ∅ ∧ attempts s0 = ∅ ∧ rtc (step releases) s0 s.

(** An attempt holds the lease of a bundle at the time of the state. *)
Definition holds (n : nat) (bundle : string) (s : state) : Prop :=
  ∃ lease revision expires, attempts s !! n = Some (Holding lease revision) ∧ le_Bundle lease = bundle ∧
    parse_rfc3339 (le_ExpiresAt lease) = Some expires ∧ time s < expires.

(** ** Mutual exclusion, while no lease is released *)

(** The JSON of a valid lease decodes, to a lease with its expiry.  (Bytes of no UTF-8 in the
    other texts are replaced.) *)
Definition keeps_expiry : Prop := ∀ lease, Lease_Validate lease = Ok tt →
  ∃ current, decodeStrict (to_payload lease) = Some current ∧ le_ExpiresAt current = le_ExpiresAt lease.
Context (law : keeps_expiry).

Definition expired (lease : Lease) (t : Z) : Prop := ∀ expires, parse_rfc3339 (le_ExpiresAt lease) = Some expires → expires ≤ t.

(** What is known of an attempt.  The revision that a put expects is past, or that
    of an expired lease; a lease that was acquired is in the store, or has
    expired. *)
Definition attempt_ok (s : state) (a : attempt) : Prop :=
  match a with
  | Asked lease now => Lease_Validate lease = Ok tt ∧ now ≤ time s
  | Loaded lease _ expected =>
      Lease_Validate lease = Ok tt ∧
      0 ≤ expected ≤ revision_at (le_Bundle lease) s ∧
      ∀ payload, objects s !! le_Bundle lease = Some (payload, expected) →
        ∃ current, decodeStrict payload = Some current ∧ expired current (time s)
  | Holding lease revision =>
      Lease_Validate lease = Ok tt ∧
      revision ≤ revision_at (le_Bundle lease) s ∧
      (objects s !! le_Bundle lease = Some (to_payload lease, revision) ∨ expired lease (time s))
  | Releasing _ _ => False
  | Over => True
  end.

Record mutex (s : state) : Prop := {
  mx_revision : ∀ bundle payload revision, objects s !! bundle = Some (payload, revision) → 1 ≤ revision;
  mx_attempts : ∀ n a, attempts s !! n = Some a → attempt_ok s a;
  mx_unique : ∀ n m lease lease' revision, attempts s !! n = Some (Holding lease revision) →
    attempts s !! m = Some (Holding lease' revision) → le_Bundle lease = le_Bundle lease' → n = m;
}.

Lemma expired_later lease t t' : t ≤ t' → expired lease t → expired lease t'.
Proof. intros Ht He expires Hp. specialize (He expires Hp). lia. Qed.

Lemma lease_expected_Ok now lease revision expected :
  lease_expected now (Ok (lease, revision)) = Ok expected → expected = revision ∧ expired lease now.
Proof.
  cbn. destruct (parse_rfc3339 _) as [expires|] eqn:E; [|done]. destruct (Z.ltb_spec now expires); [done|].
  intros [= <-]. split; [done|]. intros e He. rewrite E in He. injection He as <-. done.
Qed.

Lemma revision_at_nonneg s bundle : mutex s → 0 ≤ revision_at bundle s.
Proof.
  intros Hs. unfold revision_at. destruct (objects s !! bundle) as [[payload revision]|] eqn:E; [|done].
  apply (mx_revision s Hs) in E. cbn. lia.
Qed.

Lemma with_attempt_Some n a s m b :
  attempts (with_attempt n a s) !! m = Some b → n = m ∧ a = b ∨ n ≠ m ∧ attempts s !! m = Some b.
Proof. apply lookup_insert_Some. Qed.

(** An attempt goes on, the store stays. *)
Lemma mutex_attempt n a s :
  mutex s → attempt_ok s a → (∀ lease revision, a ≠ Holding lease revision) → mutex (with_attempt n a s).
Proof.
  intros [Hrev Hatt Huniq] Ha Hnot. split; [done| |].
  - intros m b [[<- <-]|[_ Hm]]%with_attempt_Some; [done|by apply (Hatt m)].
  - intros m m' l l' r [[_ E]|[_ Hm]]%with_attempt_Some [[_ E']|[_ Hm']]%with_attempt_Some;
      [by apply Hnot in E|by apply Hnot in E|by apply Hnot in E'|by eapply Huniq].
Qed.

Lemma attempt_ok_later s t a :
  time s ≤ t → attempt_ok s a → attempt_ok {| objects := objects s; time := t; attempts := attempts s |} a.
Proof.
  intros Ht. destruct a; cbn; try done; [intros [? ?]; split; [done|lia]| |].
  - intros (Hv & Hb & Hp). split; [done|]. split; [done|]. intros payload H. destruct (Hp payload H) as (current & ? & ?).
    exists current. split; [done|]. by eapply expired_later.
  - intros (Hv & Hr & [H|H]); split_and!; [done|done|by left|done|done|right]. by eapply expired_later.
Qed.

(** The put of an attempt keeps what is known of the others: the lease that it
    replaces, if any, has expired. *)
Lemma attempt_ok_put s lease now expected a :
  mutex s → attempt_ok s (Loaded lease now expected) → revision_at (le_Bundle lease) s = expected →
  attempt_ok s a → attempt_ok (with_objects (stored lease expected s) s) a.
Proof using law.
  intros Hs (_ & _ & Hexp) Hnow. destruct a as [| l n e|l r| |]; cbn; try done.
  all: unfold stored, revision_at in *; cbn [objects with_objects]; destruct (decide (le_Bundle lease = le_Bundle l)) as [E|E];
    [|by rewrite !lookup_insert_ne by done]; rewrite <-E, !lookup_insert_eq in *; cbn [snd fmap option_fmap option_map default].
  - intros (Hv & He & _). split; [done|]. split; [rewrite Hnow in He; cbn; lia|]. intros payload [= _ Hr]. rewrite Hnow in He. lia.
  - intros (Hv & Hr & Hin). rewrite Hnow in Hr. split; [done|]. split; [cbn; lia|]. right. destruct Hin as [Hin|]; [|done].
    rewrite Hin in Hnow. cbn in Hnow. subst r. destruct (Hexp _ Hin) as (current & Hdec & He).
    destruct (law l Hv) as (current' & Hdec' & Hexpiry). rewrite Hdec in Hdec'. injection Hdec' as <-.
    unfold expired in *. by rewrite <-Hexpiry.
Qed.

Lemma mutex_put s lease now expected :
  mutex s → attempt_ok s (Loaded lease now expected) → revision_at (le_Bundle lease) s = expected →
  mutex (with_objects (stored lease expected s) s).
Proof using law.
  intros Hs Hl Hnow. pose proof Hs as [Hrev Hatt Huniq]. split; [| |done].
  - intros bundle payload revision. unfold stored. cbn.
    intros [[_ [= _ <-]]|[_ H]]%lookup_insert_Some; [destruct Hl; lia|by eapply Hrev].
  - intros m a Hm. eapply attempt_ok_put; [done|done|done|]. by apply (Hatt m).
Qed.

Lemma proposed_valid bundle owner ttl now lease : proposed_lease bundle owner ttl now = Ok lease → Lease_Validate lease = Ok tt.
Proof. unfold proposed_lease. destruct (Lease_Validate _) as [[]|] eqn:E; [|done]. by intros [= <-]. Qed.

Lemma mutex_step s s' : step false s s' → mutex s → mutex s'.
Proof using law.
  intros Hstep Hs. pose proof (mx_attempts s Hs) as Hatt. destruct Hstep.
  - destruct Hs as [Hrev _ Huniq]. split; [done| |done]. intros n a Hn. apply attempt_ok_later; [done|by eapply Hatt].
  - apply mutex_attempt; [done| |done]. split; [by eapply proposed_valid|cbn; lia].
  - apply mutex_attempt; [done| |done]. apply Hatt in H as [Hv Hnow]. cbn in Hnow. split; [done|].
    pose proof (revision_at_nonneg s (le_Bundle lease) Hs) as Hpos. cbn. destruct H0 as [->|Herr].
    + unfold loaded in H1. unfold revision_at in *. destruct (objects s !! le_Bundle lease) as [[payload revision]|] eqn:E.
      * destruct (decodeStrict payload) as [current|] eqn:Ed.
        -- apply lease_expected_Ok in H1 as [-> He]. split; [cbn in *; lia|]. intros p [= <-].
           exists current. split; [done|]. by eapply expired_later.
        -- injection H1 as <-. split; [cbn in *; lia|]. intros p [= <- Hr]. apply (mx_revision s Hs) in E. lia.
      * injection H1 as <-. done.
    + destruct answer as [|msg]; [done|]. injection H1 as <-. split; [lia|]. intros p Hp. apply (mx_revision s Hs) in Hp. lia.
  - by apply mutex_attempt.
  - apply Hatt in H as Hl. pose proof (mutex_put _ _ _ _ Hs Hl H0) as Hp. pose proof (mx_attempts _ Hp) as Hatt'.
    destruct Hp as [Hrev _ Huniq]. split; [done| |].
    + intros m b [[<- <-]|[_ Hm]]%with_attempt_Some; [|by apply (Hatt' m)]. cbn. unfold revision_at, stored. cbn.
      rewrite lookup_insert_eq. cbn. split; [apply Hl|]. split; [lia|by left].
    + assert (Hfresh : ∀ k l r, attempts s !! k = Some (Holding l r) → le_Bundle l = le_Bundle lease → r ≠ expected + 1).
      { intros k l r Hk E. apply Hatt in Hk as (_ & Hr & _). rewrite E, H0 in Hr. lia. }
      intros m m' l l' r [[<- [= <- <-]]|[_ Hm]]%with_attempt_Some [[<- E']|[_ Hm']]%with_attempt_Some Eb; try done.
      * by destruct (Hfresh _ _ _ Hm' (eq_sym Eb)).
      * injection E' as <- <-. by destruct (Hfresh _ _ _ Hm Eb).
      * by eapply Huniq.
  - apply Hatt in H as Hl. by apply mutex_attempt; [eapply mutex_put| |].
  - by apply mutex_attempt.
  - done.
  - by apply Hatt in H.
Qed.

Lemma mutex_reachable s : reachable false s → mutex s.
Proof using law.
  intros (s0 & Ho & Ha & Hsteps).
  assert (Hs0 : mutex s0) by (split; intros *; rewrite ?Ho, ?Ha; by rewrite lookup_empty).
  clear -Hs0 Hsteps law. induction Hsteps as [|s1 s2 s3 H12 _ IH]; [done|]. apply IH. by eapply mutex_step.
Qed.

Lemma mutex_excludes s bundle n m : mutex s → holds n bundle s → holds m bundle s → n = m.
Proof using law.
  intros Hs (l & r & e & Hn & El & Hp & Ht) (l' & r' & e' & Hm & El' & Hp' & Ht').
  destruct (mx_attempts s Hs _ _ Hn) as (_ & _ & [Hin|Hexp]); [|specialize (Hexp e Hp); lia].
  destruct (mx_attempts s Hs _ _ Hm) as (_ & _ & [Hin'|Hexp]); [|specialize (Hexp e' Hp'); lia].
  rewrite El in Hin. rewrite El', Hin in Hin'. injection Hin' as _ <-. eapply (mx_unique s Hs); [exact Hn|exact Hm|].
  by rewrite El, El'.
Qed.
End Leases.

(** ** The programs, interleaved call by call *)

(** How the service takes a call: it answers; the call does not get there; or its reply is
    lost. *)
Inductive fate := Answered | Failed | ReplyLost.
#[export] Instance fate_eq_dec : EqDecision fate.
Proof. solve_decision. Defined.

(** The objects of the vault, by kind and key, with their revisions, and the clock, which the
    clients share. *)
Record Shared := { sh_objects : gmap (string * string) (string * Z); sh_time : Z }.
Definition with_sh_objects (m : gmap (string * string) (string * Z)) (s : Shared) : Shared := {| sh_objects := m; sh_time := sh_time s |}.
Definition current_of (kind key : string) (s : Shared) : Z := default 0 (snd <$> sh_objects s !! (kind, key)).

Definition reply {A} (f : fate) (a : A) : result A := match f with ReplyLost => Err "connection lost" | _ => Ok a end.

(** The answer to a call, and what the call does: a put or a delete is done only in place of
    the revision that it expects. *)
Definition serve_call (f : fate) {X} (c : call X) (s : Shared) : X * Shared :=
  match c with
  | Call.Now => (sh_time s, s)
  | Call.GetObject kind key =>
      (match f with
       | Answered => match sh_objects s !! (kind, key) with Some found => Ok found | None => Err "server returned 404: vault object not found" end
       | _ => Err "connection lost"
       end, s)
  | Call.PutObject kind key payload expected =>
      if bool_decide (f = Failed) then (Err "connection lost", s)
      else if negb (current_of kind key s =? expected) then (Err "server returned 409: revision conflict", s)
      else (reply f (expected + 1), with_sh_objects (<[(kind, key) := (payload, expected + 1)]> (sh_objects s)) s)
  | Call.DeleteObject kind key expected =>
      if bool_decide (f = Failed) then (Err "connection lost", s)
      else if negb (current_of kind key s =? expected) || (expected =? 0) then (Err "server returned 409: revision conflict", s)
      else (reply f tt, with_sh_objects (delete (kind, key) (sh_objects s)) s)
  end.

(** The next call of a program, answered. *)
Definition advance {R A} (f : fate) (p : flow call R A) (s : Shared) : option (flow call R A * Shared) :=
  match p with Ask c k => let '(x, s) := serve_call f c s in Some (k x, s) | _ => None end.

Inductive Client :=
| Acquiring (p : program (Lease * Z))
| ReleasingOf (p : program unit).
Record System := { sy_shared : Shared; sy_clients : gmap nat Client }.

Section System.
Context {store : EncryptedStore} {leases : Payload Lease}.

Definition acquired (c : Client) : option (Lease * Z) :=
  match c with Acquiring (Done (Ok l)) | Acquiring (Exit (Ok l)) => Some l | _ => None end.

Inductive system_step (releases : bool) : System → System → Prop :=
| sys_clock s later :
    sh_time (sy_shared s) ≤ later →
    system_step releases s {| sy_shared := {| sh_objects := sh_objects (sy_shared s); sh_time := later |}; sy_clients := sy_clients s |}
| sys_other s m :
    (∀ key, m !! (KindLifecycleLease, key) = sh_objects (sy_shared s) !! (KindLifecycleLease, key)) →
    system_step releases s {| sy_shared := with_sh_objects m (sy_shared s); sy_clients := sy_clients s |}
| sys_acquire s n bundle owner ttl :
    sy_clients s !! n = None →
    system_step releases s {| sy_shared := sy_shared s; sy_clients := <[n := Acquiring (AcquireLease bundle owner ttl)]> (sy_clients s) |}
| sys_call s n f p p' shared :
    sy_clients s !! n = Some (Acquiring p) → advance f p (sy_shared s) = Some (p', shared) →
    system_step releases s {| sy_shared := shared; sy_clients := <[n := Acquiring p']> (sy_clients s) |}
| sys_release s n c lease revision :
    releases = true → sy_clients s !! n = Some c → acquired c = Some (lease, revision) →
    system_step releases s {| sy_shared := sy_shared s; sy_clients := <[n := ReleasingOf (ReleaseLease lease revision)]> (sy_clients s) |}
| sys_release_call s n f p p' shared :
    sy_clients s !! n = Some (ReleasingOf p) → advance f p (sy_shared s) = Some (p', shared) →
    system_step releases s {| sy_shared := shared; sy_clients := <[n := ReleasingOf p']> (sy_clients s) |}.

(** From a vault without leases, before any client acquires one. *)
Definition system_reachable (releases : bool) (s : System) : Prop :=
  ∃ s0, (∀ key, sh_objects (sy_shared s0) !! (KindLifecycleLease, key) = None) ∧ sy_clients s0 = ∅ ∧ rtc (system_step releases) s0 s.

(** [AcquireLease] of the client returned a lease of the bundle that has not expired. *)
Definition client_holds (n : nat) (bundle : string) (s : System) : Prop :=
  ∃ c lease revision expires, sy_clients s !! n = Some c ∧ acquired c = Some (lease, revision) ∧ le_Bundle lease = bundle ∧
    parse_rfc3339 (le_ExpiresAt lease) = Some expires ∧ sh_time (sy_shared s) < expires.

(** *** The programs refine the attempts *)

Inductive stage : program (Lease * Z) → option attempt → Prop :=
| stage_new bundle owner ttl : stage (AcquireLease bundle owner ttl) None
| stage_asked lease now : unlocked = true → stage (read_lease lease now) (Some (Asked lease now))
| stage_loaded lease now expected : stage (put_lease lease expected) (Some (Loaded lease now expected))
| stage_held lease revision : stage (Done (Ok (lease, revision))) (Some (Holding lease revision))
| stage_over p a : (∃ message, p = Done (Err message) ∨ p = Exit (Err message)) → (a = None ∨ a = Some Over) → stage p a.

Definition client_stage (c : option Client) (a : option attempt) : Prop :=
  match c with None => a = None | Some (Acquiring p) => stage p a | Some (ReleasingOf _) => False end.

Record refines (s : System) (a : state) : Prop := {
  rf_time : time a = sh_time (sy_shared s);
  rf_objects : ∀ key, objects a !! key = sh_objects (sy_shared s) !! (KindLifecycleLease, key);
  rf_clients : ∀ n, client_stage (sy_clients s !! n) (attempts a !! n);
}.

Lemma refines_client s a n c x shared a1 :
  refines s a → client_stage (Some c) (Some x) → time a1 = sh_time shared →
  (∀ key, objects a1 !! key = sh_objects shared !! (KindLifecycleLease, key)) → attempts a1 = <[n := x]> (attempts a) →
  refines {| sy_shared := shared; sy_clients := <[n := c]> (sy_clients s) |} a1.
Proof.
  intros [_ _ Hc] Hstage Ht Ho Ha. split; [done|done|]. intros m. cbn. rewrite Ha. destruct (decide (n = m)) as [<-|].
  - by rewrite !lookup_insert_eq.
  - by rewrite !lookup_insert_ne.
Qed.

Lemma refines_quiet s a n p : refines s a → client_stage (sy_clients s !! n) (attempts a !! n) → stage p (attempts a !! n) →
  refines {| sy_shared := sy_shared s; sy_clients := <[n := Acquiring p]> (sy_clients s) |} a.
Proof.
  intros [Ht Ho Hc] _ Hstage. split; [done|done|]. intros m. cbn. destruct (decide (n = m)) as [<-|].
  - by rewrite lookup_insert_eq.
  - rewrite lookup_insert_ne by done. apply Hc.
Qed.

Lemma advance_new s a n bundle owner ttl f p' shared :
  refines s a → attempts a !! n = None → advance f (AcquireLease bundle owner ttl) (sy_shared s) = Some (p', shared) →
  ∃ a', rtc (step false) a a' ∧ refines {| sy_shared := shared; sy_clients := <[n := Acquiring p']> (sy_clients s) |} a'.
Proof.
  intros Hr Hn. pose proof Hr as [Ht Ho Hc]. unfold AcquireLease, ready. destruct unlocked eqn:Hu; [|done]. cbn [negb reject_if or_return].
  destruct (reject_if ((ttl <=? 0) || _) _) as [[]|]; [|done]. cbn. intros [= <- <-].
  destruct (proposed_lease bundle owner ttl (sh_time (sy_shared s))) as [lease|message] eqn:E; cbn.
  - exists (with_attempt n (Asked lease (time a)) a). split; [apply rtc_once; eapply step_ask; [done|by rewrite Ht]|].
    eapply refines_client; [done| |done|done|done]. rewrite Ht. by constructor.
  - exists a. split; [done|]. assert (Hs : client_stage (sy_clients s !! n) (attempts a !! n)) by apply Hc.
    apply refines_quiet; [done|done|]. rewrite Hn. apply stage_over; [exists message; by right|by left].
Qed.

Lemma advance_asked s a n lease now f p' shared : unlocked = true →
  refines s a → attempts a !! n = Some (Asked lease now) → advance f (read_lease lease now) (sy_shared s) = Some (p', shared) →
  ∃ a', rtc (step false) a a' ∧ refines {| sy_shared := shared; sy_clients := <[n := Acquiring p']> (sy_clients s) |} a'.
Proof.
  intros Hu Hr Hn. pose proof Hr as [Ht Ho Hc]. unfold read_lease, load, ready. rewrite Hu. cbn. intros [= <- <-].
  assert (Hgo : ∀ answer p, (answer = loaded (le_Bundle lease) a ∨ is_ok answer = false) →
    p = (expected ← or_return (lease_expected now answer); put_lease lease expected) →
    ∃ a', rtc (step false) a a' ∧ refines {| sy_shared := sy_shared s; sy_clients := <[n := Acquiring p]> (sy_clients s) |} a').
  { intros answer p Ha ->. destruct (lease_expected now answer) as [expected|message] eqn:E; cbn.
    - exists (with_attempt n (Loaded lease now expected) a). split; [apply rtc_once; by eapply step_load|].
      eapply refines_client; [done|constructor|done..].
    - assert (answer = loaded (le_Bundle lease) a) as -> by (destruct Ha as [|He]; [done|by destruct answer]).
      exists (with_attempt n Over a). split; [apply rtc_once; by eapply step_held|].
      eapply refines_client; [done|apply stage_over; [exists message; by right|by right]|done..]. }
  unfold loaded in Hgo. rewrite Ho in Hgo. destruct f; [|by apply (Hgo (Err "connection lost")); [right|]..].
  destruct (sh_objects (sy_shared s) !! _) as [[payload revision]|]; apply (Hgo _ _ (or_introl eq_refl)); [|reflexivity]. reflexivity.
Qed.

Lemma advance_loaded s a n lease now expected f p' shared :
  refines s a → attempts a !! n = Some (Loaded lease now expected) → advance f (put_lease lease expected) (sy_shared s) = Some (p', shared) →
  ∃ a', rtc (step false) a a' ∧ refines {| sy_shared := shared; sy_clients := <[n := Acquiring p']> (sy_clients s) |} a'.
Proof.
  intros Hr Hn. pose proof Hr as [Ht Ho Hc].
  assert (Hrev : revision_at (le_Bundle lease) a = current_of KindLifecycleLease (le_Bundle lease) (sy_shared s)) by (unfold revision_at, current_of; by rewrite Ho).
  assert (Hover : ∀ message, ∃ a', rtc (step false) a a' ∧
    refines {| sy_shared := sy_shared s; sy_clients := <[n := Acquiring (Done (Err message))]> (sy_clients s) |} a').
  { intros message. exists (with_attempt n Over a). split; [apply rtc_once; by eapply step_refused|].
    eapply refines_client; [done|apply stage_over; [exists message; by left|by right]|done..]. }
  unfold put_lease. cbn. destruct (bool_decide (f = Failed)) eqn:Hf; [intros [= <- <-]; apply Hover|].
  destruct (Z.eqb_spec (current_of KindLifecycleLease (le_Bundle lease) (sy_shared s)) expected) as [He|]; cbn [negb]; [|intros [= <- <-]; apply Hover].
  set (m := <[_ := _]> (sh_objects (sy_shared s))). rewrite He in Hrev.
  assert (Hm : ∀ key, stored lease expected a !! key = m !! (KindLifecycleLease, key)).
  { intros key. unfold stored, m. destruct (decide (le_Bundle lease = key)) as [<-|]; [by rewrite !lookup_insert_eq|]. by rewrite !lookup_insert_ne by congruence. }
  destruct f; [|done|]; cbn [reply]; intros [= <- <-].
  - exists (with_attempt n (Holding lease (expected + 1)) (with_objects (stored lease expected a) a)).
    split; [apply rtc_once; by eapply step_acquire|]. eapply refines_client; [done|constructor|done..].
  - exists (with_attempt n Over (with_objects (stored lease expected a) a)).
    split; [apply rtc_once; by eapply step_reply_lost|].
    eapply refines_client; [done|apply stage_over; [eexists; by left|by right]|done..].
Qed.

Lemma system_refines s s' a : system_step false s s' → refines s a → ∃ a', rtc (step false) a a' ∧ refines s' a'.
Proof.
  intros Hstep Hr. pose proof Hr as [Ht Ho Hc]. destruct Hstep as [s later Hl|s m Hm|s n b o ttl Hn|s n f p p' shared Hn Hadv|s n c l r Hrel|s n f p p' shared Hn].
  - eexists. split; [apply rtc_once, step_clock; rewrite Ht; exact Hl|]. by split.
  - exists a. split; [done|]. split; [done| |done]. intros key. cbn. by rewrite Hm.
  - exists a. split; [done|]. pose proof (Hc n) as Hs. rewrite Hn in Hs. apply refines_quiet; [done|by rewrite Hn|]. rewrite Hs. constructor.
  - pose proof (Hc n) as Hs. rewrite Hn in Hs. remember (attempts a !! n) as x eqn:Hx. symmetry in Hx. cbn in Hs. destruct Hs as [b o ttl|l now|l now e|l r|p x [msg [->| ->]] _].
    + by eapply advance_new.
    + by eapply advance_asked.
    + by eapply advance_loaded.
    + done.
    + done.
    + done.
  - done.
  - specialize (Hc n). by rewrite Hn in Hc.
Qed.

Lemma reachable_refines s : system_reachable false s → ∃ a, reachable false a ∧ refines s a.
Proof.
  intros (s0 & Ho & Hc & Hsteps). set (a0 := {| objects := ∅; time := sh_time (sy_shared s0); attempts := ∅ |}).
  assert (Hr : refines s0 a0) by (split; [done|intros key; by rewrite Ho|intros n; by rewrite Hc]).
  enough (H : ∀ a, refines s0 a → ∃ a', rtc (step false) a a' ∧ refines s a').
  { destruct (H a0 Hr) as (a' & Hs & Hr'). exists a'. split; [|done]. by exists a0. }
  clear -Hsteps. induction Hsteps as [|s1 s2 s3 H12 _ IH]; intros a Hr; [by exists a|].
  destruct (system_refines _ _ _ H12 Hr) as (a1 & Hs1 & Hr1). destruct (IH a1 Hr1) as (a2 & Hs2 & Hr2). exists a2. split; [by etransitivity|done].
Qed.

(** C16: the lease excludes.  However the calls of any clients' [AcquireLease] are interleaved
    with each other and with whatever else is stored, whichever calls fail and whichever
    replies are lost, at most one of them has returned a lease of a bundle that has not
    expired, as long as no lease is released; the clients read one clock, which does not run
    back. *)
Theorem lease_excludes s bundle n m :
  keeps_expiry → system_reachable false s → client_holds n bundle s → client_holds m bundle s → n = m.
Proof.
  intros law (a & Ha & [Ht Ho Hc])%reachable_refines.
  assert (Hholds : ∀ i, client_holds i bundle s → holds i bundle a).
  { intros i (c & lease & revision & expires & Hi & Hacq & Hb & Hp & Hlt). exists lease, revision, expires. rewrite Ht. split_and!; [|done..].
    specialize (Hc i). rewrite Hi in Hc. destruct c as [p|]; [|done]. cbn in Hc. revert Hacq.
    destruct Hc as [b o ttl|l now Hu|l now e|l r|p x [msg [->| ->]] _]; cbn.
    - unfold AcquireLease, or_return. destruct ready; [|done]. by destruct (reject_if _ _).
    - unfold read_lease, load, ready. by rewrite Hu.
    - done.
    - by intros [= <- <-].
    - done.
    - done. }
  intros Hn%Hholds Hm%Hholds. eapply (mutex_excludes law a); [by apply mutex_reachable|done..].
Qed.

(** *** Schedules *)

Inductive turn := Later (time : Z) | New (n : nat) (bundle owner : string) (ttl : Z) | Go (n : nat) (f : fate) | Release (n : nat).
Definition take_turn (releases : bool) (t : turn) (s : System) : option System :=
  match t with
  | Later time =>
      if sh_time (sy_shared s) <=? time
      then Some {| sy_shared := {| sh_objects := sh_objects (sy_shared s); sh_time := time |}; sy_clients := sy_clients s |} else None
  | New n bundle owner ttl =>
      match sy_clients s !! n with
      | None => Some {| sy_shared := sy_shared s; sy_clients := <[n := Acquiring (AcquireLease bundle owner ttl)]> (sy_clients s) |}
      | Some _ => None
      end
  | Go n f =>
      match sy_clients s !! n with
      | Some (Acquiring p) => '(p, shared) ← advance f p (sy_shared s); Some {| sy_shared := shared; sy_clients := <[n := Acquiring p]> (sy_clients s) |}
      | Some (ReleasingOf p) => '(p, shared) ← advance f p (sy_shared s); Some {| sy_shared := shared; sy_clients := <[n := ReleasingOf p]> (sy_clients s) |}
      | None => None
      end
  | Release n =>
      if negb releases then None
      else c ← sy_clients s !! n; '(lease, revision) ← acquired c;
        Some {| sy_shared := sy_shared s; sy_clients := <[n := ReleasingOf (ReleaseLease lease revision)]> (sy_clients s) |}
  end.
Fixpoint take_turns (releases : bool) (l : list turn) (s : System) : option System :=
  match l with [] => Some s | t :: l => s ← take_turn releases t s; take_turns releases l s end.

Lemma take_turn_step releases t s s' : take_turn releases t s = Some s' → system_step releases s s'.
Proof.
  destruct t as [time|n b o ttl|n f|n]; cbn.
  - destruct (Z.leb_spec (sh_time (sy_shared s)) time); [|done]. intros [= <-]. by apply sys_clock.
  - destruct (sy_clients s !! n) eqn:E; [done|]. intros [= <-]. by apply sys_acquire.
  - destruct (sy_clients s !! n) as [[p|p]|] eqn:E; [| |done]; destruct (advance f p _) as [[p' shared]|] eqn:Ea; try done; intros [= <-].
    + by eapply sys_call.
    + by eapply sys_release_call.
  - destruct releases; [|done]. cbn. destruct (sy_clients s !! n) as [c|] eqn:E; [|done]. cbn. destruct (acquired c) as [[lease revision]|] eqn:Ea; [|done].
    intros [= <-]. by eapply sys_release.
Qed.

Definition empty_system : System := {| sy_shared := {| sh_objects := ∅; sh_time := 0 |}; sy_clients := ∅ |}.
Lemma take_turns_reachable releases l s : take_turns releases l empty_system = Some s → system_reachable releases s.
Proof.
  intros H. exists empty_system. split; [done|]. split; [done|]. revert H. generalize empty_system. induction l as [|t l IH]; intros s0; cbn; [by intros [= ->]|].
  destruct (take_turn releases t s0) as [s1|] eqn:E; [|done]. cbn. intros H. eapply rtc_l; [by eapply take_turn_step|by apply IH].
Qed.
End System.

(** ** With releases *)

Module LeaseDemo.
#[local] Instance example_leases : Payload Lease := {|
  to_payload := λ l, Toy.to_text (le_Bundle l, le_Owner l, le_AcquiredAt l, le_ExpiresAt l);
  decodeStrict := λ s, '(bundle, owner, acquired, expires) ← Toy.of_text s;
    Some {| le_Bundle := bundle; le_Owner := owner; le_AcquiredAt := acquired; le_ExpiresAt := expires |} |}.
#[local] Instance open_store : EncryptedStore := {| unlocked := true |}.

Lemma example_leases_law : keeps_expiry.
Proof. intros lease _. exists lease. split; [|done]. cbn. rewrite Toy.of_to_text. by destruct lease. Qed.

(** All the calls of an acquisition: the clock, the get and the put. *)
Definition acquires (n : nat) (owner : string) : list turn :=
  [New n "shop" owner (10 * minute); Go n Answered; Go n Answered; Go n Answered].

(** [a] and [b] both read that there is no lease; one put is refused. *)
Definition raced : option System :=
  take_turns false [New 1 "shop" "a" (10 * minute); New 2 "shop" "b" (10 * minute); Go 1 Answered; Go 2 Answered; Go 1 Answered; Go 2 Answered; Go 1 Answered; Go 2 Answered]
    empty_system.

(** The clients that hold the lease of a bundle. *)
Definition holder (bundle : string) (now : Z) (c : Client) : bool :=
  match acquired c with
  | Some (lease, _) => String.eqb (le_Bundle lease) bundle && match parse_rfc3339 (le_ExpiresAt lease) with Some expires => now <? expires | None => false end
  | None => false
  end.
Lemma holder_holds n bundle s : holder bundle (sh_time (sy_shared s)) <$> sy_clients s !! n = Some true → client_holds n bundle s.
Proof.
  unfold client_holds, holder. destruct (sy_clients s !! n) as [c|]; [|done]. cbn. intros [= H]. destruct (acquired c) as [[lease revision]|] eqn:E; [|done].
  apply andb_true_iff in H as [Hb He]. apply String.eqb_eq in Hb. destruct (parse_rfc3339 _) as [expires|] eqn:Ep; [|done].
  exists c, lease, revision, expires. split_and!; try done. lia.
Qed.

(** Ten minutes later the lease of [a] has expired.  [b] reads it, then [a] releases it, [c]
    takes it, and [b] overwrites that. *)
Definition both_hold : option System :=
  take_turns true (acquires 1 "a" ++ [Later (10 * minute); New 2 "shop" "b" (10 * minute); Go 2 Answered; Go 2 Answered; Release 1; Go 1 Answered; Go 1 Answered] ++
    acquires 3 "c" ++ [Go 2 Answered]) empty_system.

(** With releases the lease does not exclude.  A revision starts again from 1
    after a delete, so a put that expects the revision of an expired lease also
    replaces a new lease that was taken after that one was released: two attempts
    then hold the lease of the bundle, both unexpired. *)
Theorem released_lease_is_held_twice :
  ∃ s n m, system_reachable true s ∧ n ≠ m ∧ client_holds n "shop" s ∧ client_holds m "shop" s.
Proof.
  destruct both_hold as [s|] eqn:E; [|by vm_compute in E]. exists s, 2%nat, 3%nat. split; [by eapply take_turns_reachable|]. split; [done|].
  assert (H : (λ s, forallb (λ n, bool_decide (holder "shop" (sh_time (sy_shared s)) <$> sy_clients s !! n = Some true)) [2%nat; 3%nat]) <$> both_hold = Some true)
    by (vm_compute; reflexivity).
  rewrite E in H. injection H as H. cbn [forallb] in H. rewrite !andb_true_iff, !bool_decide_eq_true in H. destruct H as (H2 & H3 & _).
  split; by apply holder_holds.
Qed.

Lemma lease_excludes_witness : ∃ s n, raced = Some s ∧ client_holds n "shop" s ∧ ∀ m, client_holds m "shop" s → n = m.
Proof.
  destruct raced as [s|] eqn:E; [|by vm_compute in E]. exists s, 1%nat. split; [done|].
  assert (Hn : client_holds 1 "shop" s).
  { apply holder_holds. assert (H : (λ s, holder "shop" (sh_time (sy_shared s)) <$> sy_clients s !! 1%nat) <$> raced = Some (Some true)) by (vm_compute; reflexivity).
    rewrite E in H. by injection H. }
  split; [exact Hn|]. intros m Hm. exact (lease_excludes s "shop" 1 m example_leases_law (take_turns_reachable false _ s E) Hn Hm).
Defined.
End LeaseDemo.
