(* ===== verification/Deployment.v ===== *)
(** Deployment in order with rollback: internal/lifecycle/deployment.go and the
    deployment types of secret.go. *)
From S2P Require Import Prelude Timestamp Text Secure Provider Duration Lifecycle.
From stdpp Require Import options.

Record DeploymentRequest := {
  dr_OperationID : string; dr_Target : Target; dr_RecordRevisions : gmap string Z; dr_PreviousRecordRevisions : gmap string Z;
}.
Record DeploymentEvidence := { de_DeploymentID : string; de_Status : string; de_At : string }.

(** A destination; whether its adapter is there. *)
Record NamedDeployment := { nd_Name : string; nd_Adapter : bool }.
Record DeploymentResult := { dt_Name : string; dt_Evidence : DeploymentEvidence; dt_Health : HealthEvidence }.

(** The adapters of the destinations, by the position of the destination in the
    list: each call may change the world and fail. *)
Class Adapters (W : Type) := {
  Stage : nat → DeploymentRequest → W → option DeploymentEvidence * W;
  Activate : nat → DeploymentEvidence → W → option DeploymentEvidence * W;
  VerifyHealth : nat → DeploymentEvidence → W → option HealthEvidence * W;
  Rollback : nat → DeploymentEvidence → W → option DeploymentEvidence * W;
}.

Inductive deployment :=
| Deployed (results : list DeploymentResult)
| WorkflowInvalid
| DeploymentFailure (stage target : string) (rolledBack : list string).

Section Deploy.
Context {W : Type} {adapters : Adapters W}.
Variable requests : gmap string DeploymentRequest.

(** A destination with its position and its latest evidence. *)
Abbreviation staged_target := (nat * NamedDeployment * DeploymentEvidence)%type.

(** The loop of [rollback], from the last destination to the first. *)
Fixpoint rollback_each (l : list staged_target) (w : W) : list string * W :=
  match l with
  | [] => ([], w)
  | (i, target, evidence) :: l =>
      let '(r, w) := Rollback i evidence w in
      let '(rolled, w) := rollback_each l w in
      (match r with Some _ => nd_Name target :: rolled | None => rolled end, w)
  end.
Definition rollback (l : list staged_target) (w : W) : list string * W := rollback_each (reverse l) w.

Definition fail (stage : string) (target : NamedDeployment) (affected : list staged_target) (w : W) : deployment * W :=
  let '(rolled, w) := rollback affected w in (DeploymentFailure stage (nd_Name target) rolled, w).

(** The second loop: [before] is activated and healthy, the rest is staged. *)
Fixpoint activate_each (before : list staged_target) (results : list DeploymentResult) (rest : list staged_target) (w : W) :
    deployment * W :=
  match rest with
  | [] => (Deployed results, w)
  | (i, target, evidence) :: rest' =>
      match Activate i evidence w with
      | (None, w) => fail "activating" target (before ++ rest) w
      | (Some activated, w) =>
          match VerifyHealth i activated w with
          | (Some health, w) =>
              if is_ok (HealthEvidence_Validate health) then
                activate_each (before ++ [(i, target, activated)])
                  (results ++ [{| dt_Name := nd_Name target; dt_Evidence := activated; dt_Health := health |}]) rest' w
              else fail "verifying" target (before ++ (i, target, activated) :: rest') w
          | (None, w) => fail "verifying" target (before ++ (i, target, activated) :: rest') w
          end
      end
  end.

(** The first loop: [staged] is staged. *)
Fixpoint stage_each (staged : list staged_target) (targets : list NamedDeployment) (w : W) : deployment * W :=
  match targets with
  | [] => activate_each [] [] staged w
  | target :: rest =>
      match requests !! nd_Name target with
      | None => (WorkflowInvalid, w)
      | Some request =>
          if negb (nonempty (nd_Name target)) || negb (nd_Adapter target) then (WorkflowInvalid, w)
          else match Stage (List.length staged) request w with
          | (None, w) => fail "staging" target staged w
          | (Some evidence, w) => stage_each (staged ++ [(List.length staged, target, evidence)]) rest w
          end
      end
  end.

Definition DeployInOrder (targets : list NamedDeployment) (w : W) : deployment * W :=
  match targets with [] => (WorkflowInvalid, w) | _ => stage_each [] targets w end.
End Deploy.

(** ** The calls of a run *)

Inductive call :=
| CStage (i : nat) (r : option DeploymentEvidence)
| CActivate (i : nat) (evidence : DeploymentEvidence) (r : option DeploymentEvidence)
| CVerify (i : nat) (evidence : DeploymentEvidence) (r : option HealthEvidence)
| CRollback (i : nat) (evidence : DeploymentEvidence) (r : option DeploymentEvidence).

(** A world that keeps the calls made in it. *)
#[export] Instance logged {W} `{!Adapters W} : Adapters (W * list call) := {|
  Stage := λ i q s, let '(r, w) := Stage i q s.1 in (r, (w, s.2 ++ [CStage i r]));
  Activate := λ i e s, let '(r, w) := Activate i e s.1 in (r, (w, s.2 ++ [CActivate i e r]));
  VerifyHealth := λ i e s, let '(r, w) := VerifyHealth i e s.1 in (r, (w, s.2 ++ [CVerify i e r]));
  Rollback := λ i e s, let '(r, w) := Rollback i e s.1 in (r, (w, s.2 ++ [CRollback i e r])) |}.

Section Calls.
Context {W : Type} {adapters : Adapters W}.
Variable requests : gmap string DeploymentRequest.

Abbreviation position := (nat * NamedDeployment * DeploymentEvidence)%type.

(** All calls of a rollback of [l], and the names that it reports. *)
Inductive rolled_back : list position → list call → list string → Prop :=
| rb_nil : rolled_back [] [] []
| rb_done i target e r l calls names :
    rolled_back l calls names → rolled_back ((i, target, e) :: l) (CRollback i e (Some r) :: calls) (nd_Name target :: names)
| rb_failed i target e l calls names :
    rolled_back l calls names → rolled_back ((i, target, e) :: l) (CRollback i e None :: calls) names.

(** The calls of destinations that were staged, and of some that were activated and
    found healthy. *)
Definition stage_calls (l : list position) : list call := (λ '(i, _, e), CStage i (Some e)) <$> l.
Inductive activated : list position → list position → list call → list DeploymentResult → Prop :=
| ac_nil : activated [] [] [] []
| ac_next i target e a h l l' calls results :
    activated l l' calls results → HealthEvidence_Validate h = Ok tt →
    activated (l ++ [(i, target, e)]) (l' ++ [(i, target, a)]) (calls ++ [CActivate i e (Some a); CVerify i a (Some h)])
      (results ++ [{| dt_Name := nd_Name target; dt_Evidence := a; dt_Health := h |}]).

(** A run after the staging of [all]. *)
Inductive activation (all : list position) : list call → deployment → Prop :=
| act_done l' calls results : activated all l' calls results → activation all calls (Deployed results)
| act_refused before before' i target e rest calls results back names :
    all = before ++ (i, target, e) :: rest → activated before before' calls results →
    rolled_back (reverse (before' ++ (i, target, e) :: rest)) back names →
    activation all (calls ++ CActivate i e None :: back) (DeploymentFailure "activating" (nd_Name target) names)
| act_unhealthy before before' i target e a h rest calls results back names :
    all = before ++ (i, target, e) :: rest → activated before before' calls results →
    (∀ health, h = Some health → HealthEvidence_Validate health ≠ Ok tt) →
    rolled_back (reverse (before' ++ (i, target, a) :: rest)) back names →
    activation all (calls ++ CActivate i e (Some a) :: CVerify i a h :: back)
      (DeploymentFailure "verifying" (nd_Name target) names).

(** A whole run over the destinations. *)
Definition positions (targets : list NamedDeployment) (l : list position) : Prop :=
  (λ '(i, t, _), (i, t)) <$> l = imap (λ i t, (i, t)) targets.
Definition deployable (target : NamedDeployment) : Prop :=
  nd_Name target ≠ "" ∧ nd_Adapter target = true ∧ is_Some (requests !! nd_Name target).
Inductive workflow (targets : list NamedDeployment) : list call → deployment → Prop :=
| wf_run all calls out :
    positions targets all → activation all calls out → workflow targets (stage_calls all ++ calls) out
| wf_unstaged before target rest l back names :
    targets = before ++ target :: rest → positions before l → deployable target → rolled_back (reverse l) back names →
    workflow targets (stage_calls l ++ CStage (List.length before) None :: back)
      (DeploymentFailure "staging" (nd_Name target) names)
| wf_invalid before target rest l :
    targets = before ++ target :: rest → positions before l → ¬ deployable target →
    workflow targets (stage_calls l) WorkflowInvalid
| wf_empty : targets = [] → workflow targets [] WorkflowInvalid.

Lemma rollback_calls l s :
  ∃ calls, (rollback_each l s).2.2 = s.2 ++ calls ∧ rolled_back l calls (rollback_each l s).1.
Proof.
  revert s. induction l as [|[[i target] e] l IH]; intros s; cbn [rollback_each].
  - exists []. rewrite app_nil_r. split; [done|constructor].
  - cbn [Rollback logged]. destruct (Rollback i e s.1) as [r w]. set (s' := (w, s.2 ++ [CRollback i e r])).
    destruct (IH s') as (calls & Hlog & Hr). destruct (rollback_each l s') as [names s''] eqn:E. cbn [fst snd] in *.
    exists (CRollback i e r :: calls). rewrite Hlog. cbn [s' snd]. rewrite <-app_assoc. split; [done|].
    destruct r; by constructor.
Qed.

Lemma fail_calls stage target l s :
  ∃ calls names, fail stage target l s = (DeploymentFailure stage (nd_Name target) names, ((fail stage target l s).2.1, s.2 ++ calls)) ∧
    rolled_back (reverse l) calls names.
Proof.
  unfold fail, rollback. destruct (rollback_calls (reverse l) s) as (calls & Hlog & Hr).
  destruct (rollback_each (reverse l) s) as [names [w log]]. cbn [fst snd] in *. subst log. by exists calls, names.
Qed.

Lemma activate_calls before before' calls results rest s :
  activated before before' calls results →
  ∃ later, (activate_each before' results rest s).2.2 = s.2 ++ later ∧
    activation (before ++ rest) (calls ++ later) (activate_each before' results rest s).1.
Proof.
  revert before before' calls results s. induction rest as [|[[i target] e] rest IH]; intros before before' calls results s Ha;
    cbn [activate_each].
  - exists []. rewrite !app_nil_r. split; [done|]. by econstructor.
  - cbn [Activate VerifyHealth logged]. destruct (Activate i e s.1) as [[a|] w].
    2: { destruct (fail_calls "activating" target (before' ++ (i, target, e) :: rest) (w, s.2 ++ [CActivate i e None]))
           as (back & names & -> & Hr). exists (CActivate i e None :: back). cbn [fst snd]. rewrite <-app_assoc.
         split; [done|]. by eapply act_refused. }
    cbn [fst snd]. destruct (VerifyHealth i a w) as [h w'].
    set (s' := (w', (s.2 ++ [CActivate i e (Some a)]) ++ [CVerify i a h])).
    assert (Hbad : (∀ health, h = Some health → HealthEvidence_Validate health ≠ Ok tt) →
      ∃ later, (fail "verifying" target (before' ++ (i, target, a) :: rest) s').2.2 = s.2 ++ later ∧
        activation (before ++ (i, target, e) :: rest) (calls ++ later)
          (fail "verifying" target (before' ++ (i, target, a) :: rest) s').1).
    { intros Hh. destruct (fail_calls "verifying" target (before' ++ (i, target, a) :: rest) s') as (back & names & -> & Hr).
      exists (CActivate i e (Some a) :: CVerify i a h :: back). cbn [fst snd s']. rewrite <-!app_assoc. split; [done|].
      by eapply act_unhealthy. }
    destruct h as [health|]; [|by apply Hbad].
    destruct (HealthEvidence_Validate health) as [[]|] eqn:Ev; cbn [is_ok]; [|by apply Hbad; intros ? [= <-]; rewrite Ev].
    destruct (IH (before ++ [(i, target, e)]) (before' ++ [(i, target, a)])
      (calls ++ [CActivate i e (Some a); CVerify i a (Some health)])
      (results ++ [{| dt_Name := nd_Name target; dt_Evidence := a; dt_Health := health |}]) s') as (later & Hlog & Hact);
      [by constructor|]. fold s'. exists (CActivate i e (Some a) :: CVerify i a (Some health) :: later).
    rewrite Hlog. cbn [s' snd]. rewrite <-!app_assoc in *. by split.
Qed.

Lemma positions_length targets l : positions targets l → List.length l = List.length targets.
Proof. intros H. apply (f_equal List.length) in H. by rewrite length_fmap, length_imap in H. Qed.

Lemma positions_snoc targets l target e :
  positions targets l → positions (targets ++ [target]) (l ++ [(List.length l, target, e)]).
Proof.
  intros H. pose proof (positions_length _ _ H) as Hl. unfold positions in *. rewrite fmap_app, imap_app, H. cbn.
  by rewrite Hl, Nat.add_0_r.
Qed.

Lemma stage_all_calls before l rest s :
  positions before l →
  ∃ later, (stage_each requests l rest s).2.2 = s.2 ++ later ∧
    workflow (before ++ rest) (stage_calls l ++ later) (stage_each requests l rest s).1.
Proof.
  revert before l s. induction rest as [|target rest IH]; intros before l s Hp; cbn [stage_each].
  - destruct (activate_calls [] [] [] [] l s ac_nil) as (later & Hlog & Hact). exists later. split; [done|].
    rewrite app_nil_r. by eapply wf_run.
  - assert (Hinvalid : ¬ deployable target → ∃ later, s.2 = s.2 ++ later ∧
      workflow (before ++ target :: rest) (stage_calls l ++ later) WorkflowInvalid).
    { intros Hu. exists []. rewrite !app_nil_r. split; [done|]. by eapply wf_invalid. }
    destruct (requests !! nd_Name target) as [request|] eqn:Eq;
      [|apply Hinvalid; intros (_ & _ & [? ?]); congruence].
    destruct (negb (nonempty (nd_Name target)) || negb (nd_Adapter target)) eqn:Eb.
    { apply Hinvalid. intros (Hn & Ha & _). apply nonempty_true in Hn. by rewrite Hn, Ha in Eb. }
    apply orb_false_iff in Eb as [Hn%negb_false_iff%nonempty_true Ha%negb_false_iff].
    cbn [Stage logged]. destruct (Stage (List.length l) request s.1) as [[e|] w].
    + set (s' := (w, s.2 ++ [CStage (List.length l) (Some e)])).
      destruct (IH (before ++ [target]) (l ++ [(List.length l, target, e)]) s') as (later & Hlog & Hwf);
        [by apply positions_snoc|]. exists (CStage (List.length l) (Some e) :: later). rewrite Hlog. cbn [s' snd].
      unfold stage_calls in *. rewrite fmap_app in Hwf. cbn [fmap list_fmap] in Hwf. rewrite <-!app_assoc in *. by split.
    + destruct (fail_calls "staging" target l (w, s.2 ++ [CStage (List.length l) None])) as (back & names & -> & Hr).
      exists (CStage (List.length l) None :: back). cbn [fst snd]. rewrite <-app_assoc. split; [done|].
      rewrite (positions_length _ _ Hp). by eapply wf_unstaged.
Qed.

(** C17: the calls of a deployment.  Whatever the adapters answer, every destination
    is staged, in order, before any is activated; each is activated and checked
    before the next; the results of a success are the healthy activations of all
    destinations; and when an adapter's staging, activation or check fails, all
    that was staged is rolled back in reverse, with the latest evidence, and the
    names reported are those whose rollback succeeded.  A destination that cannot
    be used (no request, name or adapter) is another matter: the deployment is
    refused when its turn to be staged comes, nothing is activated, and what was
    staged before it is NOT rolled back ([staged_and_forgotten]). *)
Theorem deployment_workflow targets w :
  let '(out, (_, calls)) := DeployInOrder requests targets (w, []) in workflow targets calls out.
Proof.
  unfold DeployInOrder. destruct targets as [|target rest]; [by apply wf_empty|].
  destruct (stage_all_calls [] [] (target :: rest) (w, []) eq_refl) as (later & Hlog & Hwf).
  destruct (stage_each _ _ _ _) as [out [w' calls]]. cbn [fst snd] in *. by rewrite Hlog.
Qed.
End Calls.

(** A destination that cannot be used stops the staging without a rollback: those
    before it stay staged. *)
#[local] Instance example_adapters : Adapters unit := {|
  Stage := λ _ _ w, (Some {| de_DeploymentID := "d"; de_Status := "staged"; de_At := "" |}, w);
  Activate := λ _ _ w, (None, w); VerifyHealth := λ _ _ w, (None, w); Rollback := λ _ _ w, (None, w) |}.
Example staged_and_forgotten :
  let request := {| dr_OperationID := "op"; dr_Target := {| tg_ProjectID := "p"; tg_EnvironmentID := "e"; tg_ServiceIDs := ∅ |};
    dr_RecordRevisions := ∅; dr_PreviousRecordRevisions := ∅ |} in
  DeployInOrder {["web" := request]}
    [{| nd_Name := "web"; nd_Adapter := true |}; {| nd_Name := "api"; nd_Adapter := true |}] (tt, []) =
  (WorkflowInvalid, (tt, [CStage 0 (Some {| de_DeploymentID := "d"; de_Status := "staged"; de_At := "" |})])).
Proof. vm_compute. reflexivity. Qed.
