(* ===== verification/Template.v ===== *)
(** Templates and the order of their derivation.  First the order of derived records: [topologicalDerivations] of
    internal/contract/manifest.go, a depth-first search that reports cycles. *)
From S2P Require Import Prelude Text.
From stdpp Require Import options.

(** ** The search *)

Inductive mark := Visiting | Visited.
#[export] Instance mark_eq_dec : EqDecision mark.
Proof. solve_decision. Defined.

(** The two variables that [visit] shares with its callers. *)
Record walk := { marks : gmap string mark; order : list string }.

Definition cycle_error (name : string) : string := "records." +:+ name +:+ ".template: derivation cycle detected".

(** A loop that stops at the first error. *)
Fixpoint each_name (f : string → walk → result walk) (names : list string) (w : walk) : result walk :=
  match names with
  | [] => Ok w
  | name :: rest => w ← f name w; each_name f rest w
  end.

Definition set_mark (name : string) (m : mark) (w : walk) : walk :=
  {| marks := <[name := m]> (marks w); order := order w |}.

(** [keys of m], sorted: [sortedMapKeys]. *)
Definition sortedMapKeys {A} (m : gmap string A) : list string := sort_strings (map_to_list m).*1.

Section Derivation.
Variable dependencies : gmap string (list string).

Definition derived (name : string) : bool := bool_decide (is_Some (dependencies !! name)).

(** [visit]; [depth] bounds the nesting of its calls. *)
Fixpoint visit (depth : nat) (name : string) (w : walk) : result walk :=
  match depth with
  | O => Err "nested too deeply"
  | S depth =>
      match marks w !! name with
      | Some Visiting => Err (cycle_error name)
      | Some Visited => Ok w
      | None =>
          let refs := sort_strings (default [] (dependencies !! name)) in
          w ← each_name (λ ref w, if derived ref then visit depth ref w else Ok w) refs (set_mark name Visiting w);
          Ok {| marks := <[name := Visited]> (marks w); order := order w ++ [name] |}
      end
  end.

Definition topologicalDerivations : result (list string) :=
  w ← each_name (visit (S (size dependencies))) (sortedMapKeys dependencies) {| marks := ∅; order := [] |};
  Ok (order w).

(** ** Its specification *)

(** [a] is derived from [b], which is derived too. *)
Definition edge (a b : string) : Prop := ∃ refs, dependencies !! a = Some refs ∧ b ∈ refs ∧ is_Some (dependencies !! b).

(** Every derived record behind a name of the list comes before it. *)
Definition ordered (l : list string) : Prop :=
  ∀ before a after b, l = before ++ a :: after → edge a b → b ∈ before.

Definition stack (w : walk) : gset string := dom (filter (λ p, p.2 = Visiting) (marks w)).

Lemma elem_of_stack w name : name ∈ stack w ↔ marks w !! name = Some Visiting.
Proof.
  unfold stack. rewrite elem_of_dom. unfold is_Some. setoid_rewrite map_lookup_filter_Some. cbn. naive_solver.
Qed.

Record walk_ok (w : walk) : Prop := {
  wk_marked : ∀ name m, marks w !! name = Some m → is_Some (dependencies !! name);
  wk_order : ∀ name, name ∈ order w ↔ marks w !! name = Some Visited;
  wk_nodup : NoDup (order w);
  wk_ordered : ordered (order w);
}.

(** What a call does: more is visited, and the same is under way. *)
Definition goes_on (w w' : walk) : Prop :=
  walk_ok w' ∧ stack w' = stack w ∧ ∀ name, marks w !! name = Some Visited → marks w' !! name = Some Visited.

#[local] Instance goes_on_trans : Transitive goes_on.
Proof. intros w1 w2 w3 (_ & S1 & H1) (O2 & S2 & H2). split_and!; [done|congruence|auto]. Qed.

Lemma ordered_snoc l name : ordered l → (∀ b, edge name b → b ∈ l) → name ∉ l → ordered (l ++ [name]).
Proof.
  intros Hl Hname Hnot before a after b E Hab. destruct after as [|x after _] using rev_ind.
  - apply app_inj_tail in E as [-> ->]. by apply Hname.
  - rewrite app_comm_cons, app_assoc in E. apply app_inj_tail in E as [-> _]. by eapply Hl.
Qed.

Lemma stack_mark w name : walk_ok w → is_Some (dependencies !! name) → marks w !! name = None →
  walk_ok (set_mark name Visiting w) ∧ stack (set_mark name Visiting w) = {[name]} ∪ stack w ∧ name ∉ stack w.
Proof.
  intros [Hm Ho Hn Hs] Hd Hnone. split_and!.
  - split; try done.
    + intros n m. cbn. intros [[<- _]|[_ H]]%lookup_insert_Some; [done|by eapply Hm].
    + intros n. cbn [set_mark order marks]. rewrite Ho, lookup_insert_Some. split; [|naive_solver].
      intros H. right. split; [|done]. intros <-. by rewrite Hnone in H.
  - apply set_eq. intros n. rewrite elem_of_union, elem_of_singleton, !elem_of_stack. cbn. rewrite lookup_insert_Some.
    destruct (decide (name = n)) as [<-|]; naive_solver.
  - rewrite elem_of_stack. by rewrite Hnone.
Qed.

Lemma stack_bound w : walk_ok w → (size (stack w) ≤ size dependencies)%nat.
Proof.
  intros Hw. rewrite <-(size_dom (D := gset string)). apply subseteq_size. intros n Hn%elem_of_stack.
  apply elem_of_dom. by eapply wk_marked.
Qed.

(** A call that is let deep enough visits the name, or finds a cycle. *)
Lemma visit_spec depth name w :
  walk_ok w → is_Some (dependencies !! name) → (∀ n, n ∈ stack w → tc edge n name) →
  (size dependencies < depth + size (stack w))%nat →
  match visit depth name w with
  | Ok w' => goes_on w w' ∧ marks w' !! name = Some Visited
  | Err e => ∃ c, e = cycle_error c ∧ tc edge c c
  end.
Proof.
  revert name w. induction depth as [|depth IH]; intros name w Hw Hd Hst Hdepth.
  { pose proof (stack_bound w Hw). lia. }
  cbn [visit]. destruct (marks w !! name) as [[]|] eqn:Em.
  - exists name. split; [done|]. apply Hst. by apply elem_of_stack.
  - split; [|done]. by split_and!.
  - destruct (stack_mark w name Hw Hd Em) as (Hw1 & Hs1 & Hnew). set (w1 := set_mark name Visiting w) in *.
    destruct Hd as [refs Erefs]. rewrite Erefs. change (default [] (Some refs)) with refs.
    assert (Hloop : ∀ l w2, goes_on w1 w2 → (∀ r, r ∈ l → r ∈ refs) →
      match each_name (λ ref w, if derived ref then visit depth ref w else Ok w) l w2 with
      | Ok w3 => goes_on w2 w3 ∧ ∀ r, r ∈ l → is_Some (dependencies !! r) → marks w3 !! r = Some Visited
      | Err e => ∃ c, e = cycle_error c ∧ tc edge c c
      end).
    { induction l as [|r l IHl]; intros w2 Hg Hin.
      - split; [|by intros ? ?%elem_of_nil]. destruct Hg. by split_and!.
      - cbn [each_name]. assert (Hhead : match (if derived r then visit depth r w2 else Ok w2) with
          | Ok w3 => goes_on w2 w3 ∧ (is_Some (dependencies !! r) → marks w3 !! r = Some Visited)
          | Err e => ∃ c, e = cycle_error c ∧ tc edge c c end).
        { destruct Hg as (Hw2 & Hs2 & _). unfold derived. destruct (bool_decide_reflect (is_Some (dependencies !! r))) as [Hr|Hr].
          - assert (He : edge name r) by (exists refs; split_and!; [done|apply Hin; by left|done]).
            specialize (IH r w2 Hw2 Hr). destruct (visit depth r w2).
            + destruct IH as [? ?]; [| |done].
              * intros n. rewrite Hs2, Hs1. intros [->%elem_of_singleton|Hn]%elem_of_union; [by apply tc_once|].
                eapply tc_r; [by apply Hst|done].
              * rewrite Hs2, Hs1, size_union, size_singleton by set_solver. lia.
            + apply IH.
              * intros n. rewrite Hs2, Hs1. intros [->%elem_of_singleton|Hn]%elem_of_union; [by apply tc_once|].
                eapply tc_r; [by apply Hst|done].
              * rewrite Hs2, Hs1, size_union, size_singleton by set_solver. lia.
          - split; [by split_and!|done]. }
        destruct (if derived r then visit depth r w2 else Ok w2) as [w3|e]; [|done]. destruct Hhead as [Hg3 Hr].
        cbn [mbind result_bind]. specialize (IHl w3 ltac:(by etransitivity) ltac:(intros; apply Hin; by right)).
        destruct (each_name _ l w3) as [w4|e]; [|done]. destruct IHl as [Hg4 Hl]. split; [by etransitivity|].
        intros x [->|Hx]%elem_of_cons Hxd; [|by apply Hl]. apply Hg4. by apply Hr. }
    specialize (Hloop (sort_strings refs) w1 ltac:(by split_and!) ltac:(intros r; by rewrite sort_strings_perm)).
    destruct (each_name _ (sort_strings refs) w1) as [w2|e]; [|exact Hloop]. cbn [mbind result_bind].
    destruct Hloop as [(Hw2 & Hs2 & Hv2) Hall].
    assert (Hnot : name ∉ order w2).
    { rewrite (wk_order w2 Hw2). assert (H : name ∈ stack w2) by (rewrite Hs2, Hs1; set_solver).
      apply elem_of_stack in H. by rewrite H. }
    split; [|by apply lookup_insert_eq]. split_and!.
    + split.
      * intros n m. cbn. intros [[<- _]|[_ H]]%lookup_insert_Some; [by exists refs|by eapply wk_marked].
      * intros n. cbn [order marks]. rewrite elem_of_app, list_elem_of_singleton, (wk_order w2 Hw2), lookup_insert_Some.
        destruct (decide (name = n)) as [<-|]; naive_solver.
      * apply NoDup_app. split_and!; [by apply wk_nodup|by intros x Hx ->%list_elem_of_singleton|apply NoDup_singleton].
      * apply ordered_snoc; [by apply wk_ordered| |done]. intros b (refs' & Erefs' & Hb & Hbd).
        rewrite Erefs in Erefs'. injection Erefs' as <-. rewrite (wk_order w2 Hw2). apply Hall; [|done].
        by rewrite sort_strings_perm.
    + apply set_eq. intros n. rewrite elem_of_stack. cbn [marks]. rewrite lookup_insert_Some.
      assert (Hn : marks w2 !! n = Some Visiting ↔ n = name ∨ n ∈ stack w)
        by (rewrite <-elem_of_stack, Hs2, Hs1; set_solver).
      split.
      * intros [[_ ?]|[Hne H]]; [done|]. by apply Hn in H as [->|].
      * intros H. right. split; [by intros ->; apply elem_of_stack in H; rewrite Em in H|]. apply Hn. by right.
    + intros n Hn. cbn [marks]. rewrite lookup_insert_Some. destruct (decide (name = n)) as [->|Hne]; [by left|right].
      split; [done|]. apply Hv2. cbn. by rewrite lookup_insert_ne.
Qed.

Lemma visit_all_spec names w :
  walk_ok w → stack w = ∅ → (∀ n, n ∈ names → is_Some (dependencies !! n)) →
  match each_name (visit (S (size dependencies))) names w with
  | Ok w' => goes_on w w' ∧ ∀ n, n ∈ names → marks w' !! n = Some Visited
  | Err e => ∃ c, e = cycle_error c ∧ tc edge c c
  end.
Proof.
  revert w. induction names as [|name names IH]; intros w Hw Hs Hnames.
  - split; [by split_and!|by intros ? ?%elem_of_nil].
  - cbn [each_name]. pose proof (visit_spec (S (size dependencies)) name w Hw (Hnames name ltac:(by left))
      ltac:(intros n; rewrite Hs; by intros ?%elem_of_empty) ltac:(lia)) as Hvisit.
    destruct (visit (S (size dependencies)) name w) as [w1|e]; [|exact Hvisit]. destruct Hvisit as [Hg1 Hname].
    cbn [mbind result_bind]. specialize (IH w1 (proj1 Hg1)). rewrite (proj1 (proj2 Hg1)) in IH.
    specialize (IH Hs ltac:(intros; apply Hnames; by right)).
    destruct (each_name _ names w1) as [w2|e]; [|done]. destruct IH as [Hg2 Hall]. split; [by etransitivity|].
    intros n [->|Hn]%elem_of_cons; [by apply Hg2|by apply Hall].
Qed.

Lemma elem_of_sortedMapKeys {A} (m : gmap string A) name : name ∈ sortedMapKeys m ↔ is_Some (m !! name).
Proof.
  unfold sortedMapKeys. rewrite sort_strings_perm, list_elem_of_fmap. split.
  - intros ([n a] & -> & Hin%elem_of_map_to_list). by exists a.
  - intros [a Ha]. exists (name, a). by rewrite elem_of_map_to_list.
Qed.

(** In an ordered list of all derived records no record is derived from itself. *)
Lemma ordered_descends l a b :
  NoDup l → (∀ n, n ∈ l ↔ is_Some (dependencies !! n)) → ordered l → tc edge a b →
  ∃ i j, l !! i = Some a ∧ l !! j = Some b ∧ (j < i)%nat.
Proof.
  intros Hnd Hall Hl. assert (Hedge : ∀ x y, edge x y → ∃ i j, l !! i = Some x ∧ l !! j = Some y ∧ (j < i)%nat).
  { intros x y He. destruct He as (refs & Hx & Hy). assert (Hin : x ∈ l) by (apply Hall; eauto).
    apply list_elem_of_split in Hin as (before & after & E).
    destruct (proj1 (list_elem_of_lookup before y)) as [j Hj]; [eapply Hl; [exact E|by exists refs]|].
    exists (List.length before), j. rewrite E. split_and!.
    - by apply list_lookup_middle.
    - by apply lookup_app_l_Some.
    - by apply lookup_lt_Some in Hj. }
  induction 1 as [x y He|x y z He _ IH]; [by apply Hedge|].
  destruct (Hedge x y He) as (i & j & Hi & Hj & Hlt). destruct IH as (i' & k & Hi' & Hk & Hlt').
  assert (j = i') as <- by by eapply NoDup_lookup. exists i, k. split_and!; [done|done|lia].
Qed.

(** What the search gives. *)
Lemma topologicalDerivations_spec :
  match topologicalDerivations with
  | Ok l => NoDup l ∧ (∀ name, name ∈ l ↔ is_Some (dependencies !! name)) ∧ ordered l ∧ (∀ name, ¬ tc edge name name)
  | Err e => ∃ name, e = cycle_error name ∧ tc edge name name
  end.
Proof.
  unfold topologicalDerivations. set (w0 := {| marks := ∅; order := [] |}).
  assert (Hw0 : walk_ok w0).
  { split; cbn.
    - intros n m. by rewrite lookup_empty.
    - intros n. rewrite lookup_empty. split; [by intros ?%elem_of_nil|done].
    - constructor.
    - intros before a after b E. by destruct before. }
  pose proof (visit_all_spec (sortedMapKeys dependencies) w0 Hw0 ltac:(by vm_compute)
    ltac:(intros n; by rewrite elem_of_sortedMapKeys)) as H.
  destruct (each_name _ _ w0) as [w|e]; [|exact H]. destruct H as [(Hw & _ & _) Hall]. cbn [mbind result_bind].
  assert (Hin : ∀ name, name ∈ order w ↔ is_Some (dependencies !! name)).
  { intros name. rewrite (wk_order w Hw). split; [by apply wk_marked|]. intros Hn. apply Hall. by rewrite elem_of_sortedMapKeys. }
  split_and!; [by apply wk_nodup|done|by apply wk_ordered|]. intros name Hc.
  destruct (ordered_descends (order w) name name (wk_nodup w Hw) Hin (wk_ordered w Hw) Hc) as (i & j & Hi & Hj & Hlt).
  assert (i = j) by (eapply NoDup_lookup; [by apply (wk_nodup w Hw)|done|done]). lia.
Qed.
(** C20: derived records come in an order in which they can be computed, if there is
    one.  The search ends without exceeding its depth; it gives every derived record
    once, each after all derived records that its template refers to; and it fails
    exactly when some record is derived from itself, naming one that is. *)
Theorem derivations_are_ordered :
  match topologicalDerivations with
  | Ok l => NoDup l ∧ (∀ name, name ∈ l ↔ is_Some (dependencies !! name)) ∧ ordered l ∧ (∀ name, ¬ tc edge name name)
  | Err e => ∃ name, e = cycle_error name ∧ tc edge name name
  end.
Proof. exact topologicalDerivations_spec. Qed.
End Derivation.

Example derived_from_each_other : topologicalDerivations {["A" := ["B"; "X"]; "B" := ["C"]; "C" := []]} = Ok ["C"; "B"; "A"].
Proof. vm_compute. reflexivity. Qed.
Example derived_from_itself : topologicalDerivations {["A" := ["B"]; "B" := ["A"]]} = Err (cycle_error "A").
Proof. vm_compute. reflexivity. Qed.

(** Templates of derived records: internal/contract/template.go. *)

(** [^[A-Z_][A-Z0-9_]*$] *)
Definition name_start (c : ascii) : bool := is_upper c || Ascii.eqb c "_".
Definition name_char (c : ascii) : bool := name_start c || is_digit c.
Definition namePattern (s : string) : bool :=
  match s with EmptyString => false | String c rest => name_start c && all_bytes name_char rest end.

Record TemplateNode := { tn_Literal : string; tn_Reference : string }.
#[export] Instance TemplateNode_eq_dec : EqDecision TemplateNode.
Proof. solve_decision. Defined.
Record Template := { tm_Nodes : list TemplateNode; tm_References : list string }.
#[export] Instance Template_eq_dec : EqDecision Template.
Proof. solve_decision. Defined.

(** The text before and after the first ["${"], and the first ["}"]. *)
Fixpoint cut_open (s : string) : option (string * string) :=
  match s with
  | EmptyString => None
  | String c rest =>
      if has_prefix "${" s then Some ("", drop_bytes 2 s)
      else '(before, after) ← cut_open rest; Some (String c before, after)
  end.
Fixpoint cut_close (s : string) : option (string * string) :=
  match s with
  | EmptyString => None
  | String c rest =>
      if Ascii.eqb c "}" then Some ("", rest)
      else '(before, after) ← cut_close rest; Some (String c before, after)
  end.

Definition literal_node (literal : string) : list TemplateNode :=
  if nonempty literal then [{| tn_Literal := literal; tn_Reference := "" |}] else [].

(** The loop of [ParseTemplate]: [rest] is the template from [offset] on; each
    round consumes some of it, so that its length bounds them. *)
Fixpoint parse_template (rounds : nat) (offset : Z) (rest : string) (parsed : Template) : result Template :=
  match rounds with
  | O => Err "too many rounds"
  | S rounds =>
      if negb (nonempty rest) then Ok parsed
      else match cut_open rest with
      | None => Ok {| tm_Nodes := tm_Nodes parsed ++ literal_node rest; tm_References := tm_References parsed |}
      | Some (literal, after) =>
          let start := offset + slen literal in
          match cut_close after with
          | None => Err "unterminated placeholder"
          | Some (body, rest) =>
              if negb (has_prefix "secret:" body) then Err ("unsupported placeholder at byte " +:+ Itoa start)
              else
                let reference := drop_bytes 7 body in
                if negb (namePattern reference) then Err ("invalid secret reference at byte " +:+ Itoa start)
                else parse_template rounds (start + 2 + slen body + 1) rest
                  {| tm_Nodes := tm_Nodes parsed ++ literal_node literal ++ [{| tn_Literal := ""; tn_Reference := reference |}];
                     tm_References := tm_References parsed ++ [reference] |}
          end
      end
  end.

Definition ParseTemplate (template : string) : result Template :=
  parse_template (S (String.length template)) 0 template {| tm_Nodes := []; tm_References := [] |}.

(** ** What a parsed template is *)

(** The text of nodes. *)
Definition node_text (n : TemplateNode) : string :=
  if nonempty (tn_Reference n) then "${secret:" +:+ tn_Reference n +:+ "}" else tn_Literal n.
Definition template_text (l : list TemplateNode) : string := concat_str (node_text <$> l).

(** A node that a parse can give: a name, or a text without a placeholder. *)
Definition node_ok (n : TemplateNode) : Prop :=
  (tn_Literal n = "" ∧ namePattern (tn_Reference n) = true) ∨
  (tn_Reference n = "" ∧ tn_Literal n ≠ "" ∧ cut_open (tn_Literal n) = None).

Lemma template_text_app l l' : template_text (l ++ l') = template_text l +:+ template_text l'.
Proof. unfold template_text. by rewrite fmap_app, concat_str_app. Qed.

Lemma literal_node_text s : template_text (literal_node s) = s.
Proof.
  unfold literal_node. destruct (nonempty s) eqn:E; [|by apply nonempty_false in E as ->].
  cbn. by rewrite string_app_nil_r.
Qed.

Lemma has_prefix_drop p s : has_prefix p s = true → s = p +:+ drop_bytes (String.length p) s.
Proof.
  revert s. induction p as [|c p IH]; intros [|d s]; cbn; try done.
  intros [->%Ascii.eqb_eq H]%andb_true_iff. rewrite string_app_cons. f_equal. by apply IH.
Qed.

Lemma cut_open_Some s before after : cut_open s = Some (before, after) → s = before +:+ "${" +:+ after ∧ cut_open before = None.
Proof.
  revert before. induction s as [|c s IH]; [done|]. intros before. cbn [cut_open].
  destruct (has_prefix "${" (String c s)) eqn:E.
  - intros [= <- <-]. split; [|done]. by apply has_prefix_drop in E.
  - destruct (cut_open s) as [[b a]|] eqn:Ec; [|done]. cbn. intros [= <- <-]. destruct (IH b eq_refl) as [-> Hb].
    split; [by rewrite string_app_cons|]. cbn [cut_open].
    destruct (has_prefix "${" (String c b)) eqn:Eb; [|by rewrite Hb].
    cbn [has_prefix] in Eb, E. apply andb_true_iff in Eb as [E0 Eb]. destruct b as [|d b]; [done|].
    rewrite E0, string_app_cons in E. cbn in E, Eb. by rewrite Eb in E.
Qed.

Lemma cut_close_Some s before after : cut_close s = Some (before, after) → s = before +:+ "}" +:+ after.
Proof.
  revert before. induction s as [|c s IH]; [done|]. intros before. cbn [cut_close].
  destruct (Ascii.eqb_spec c "}") as [->|]; [by intros [= <- <-]|].
  destruct (cut_close s) as [[b a]|] eqn:Ec; [|done]. cbn. intros [= <- <-]. rewrite string_app_cons. f_equal. by apply IH.
Qed.

Lemma namePattern_nonempty s : namePattern s = true → nonempty s = true.
Proof. by destruct s. Qed.

(** One node of a placeholder. *)
Lemma reference_text literal reference : namePattern reference = true →
  template_text (literal_node literal ++ [{| tn_Literal := ""; tn_Reference := reference |}]) =
    literal +:+ "${secret:" +:+ reference +:+ "}".
Proof.
  intros Hn. rewrite template_text_app, literal_node_text. unfold template_text, node_text. cbn [fmap list_fmap tn_Reference].
  rewrite (namePattern_nonempty _ Hn). cbn [concat_str foldr]. by rewrite string_app_nil_r.
Qed.

Lemma literal_node_ok s : cut_open s = None → Forall node_ok (literal_node s).
Proof.
  intros Hs. unfold literal_node. destruct (nonempty s) eqn:E; [|constructor].
  apply nonempty_true in E. constructor; [by right|constructor].
Qed.

Definition parsed_ok (t : Template) : Prop :=
  Forall node_ok (tm_Nodes t) ∧ tm_References t = filter (λ r, r ≠ "") (tn_Reference <$> tm_Nodes t).

Lemma references_app l l' :
  filter (λ r, r ≠ "") (tn_Reference <$> (l ++ l')) =
  filter (λ r, r ≠ "") (tn_Reference <$> l) ++ filter (λ r, r ≠ "") (tn_Reference <$> l').
Proof. by rewrite fmap_app, filter_app. Qed.

Lemma literal_references s : filter (λ r, r ≠ "") (tn_Reference <$> literal_node s) = [].
Proof. unfold literal_node. by destruct (nonempty s). Qed.

Lemma parse_template_spec rounds offset rest parsed t :
  parse_template rounds offset rest parsed = Ok t → parsed_ok parsed →
  parsed_ok t ∧ template_text (tm_Nodes t) = template_text (tm_Nodes parsed) +:+ rest.
Proof.
  revert offset rest parsed. induction rounds as [|rounds IH]; [done|]. intros offset rest parsed. cbn [parse_template].
  destruct (nonempty rest) eqn:Ene; cbn [negb].
  2: { apply nonempty_false in Ene as ->. intros [= <-] Hp. split; [done|]. by rewrite string_app_nil_r. }
  destruct (cut_open rest) as [[literal after]|] eqn:Ec.
  2: { intros [= <-] [Hn Hr]. split; [split|]; cbn [tm_Nodes tm_References].
       - apply Forall_app. split; [done|by apply literal_node_ok].
       - by rewrite references_app, literal_references, app_nil_r.
       - by rewrite template_text_app, literal_node_text. }
  apply cut_open_Some in Ec as [-> Hlit]. destruct (cut_close after) as [[body rest']|] eqn:Ed; [|done].
  apply cut_close_Some in Ed as ->. destruct (has_prefix "secret:" body) eqn:Es; [|done]. cbn [negb].
  apply has_prefix_drop in Es. set (reference := drop_bytes 7 body) in *.
  destruct (namePattern reference) eqn:Enp; [|done]. cbn [negb]. intros H [Hn Hr].
  apply IH in H as [Hok Ht].
  - split; [done|]. rewrite Ht. cbn [tm_Nodes]. rewrite template_text_app, reference_text by done.
    rewrite Es. by rewrite !string_app_assoc.
  - split; cbn [tm_Nodes tm_References].
    + rewrite !Forall_app. split_and!; [done|by apply literal_node_ok|]. constructor; [by left|constructor].
    + rewrite !references_app, literal_references, Hr. cbn [fmap list_fmap tn_Reference app].
      rewrite filter_cons_True; [done|]. intros E. by rewrite E in Enp.
Qed.

Lemma parse_template_rounds rounds offset rest parsed :
  (String.length rest < rounds)%nat → parse_template rounds offset rest parsed ≠ Err "too many rounds".
Proof.
  revert offset rest parsed. induction rounds as [|rounds IH]; [lia|]. intros offset rest parsed Hr. cbn [parse_template].
  destruct (negb (nonempty rest)); [done|]. destruct (cut_open rest) as [[literal after]|] eqn:Ec; [|done].
  apply cut_open_Some in Ec as [-> _]. destruct (cut_close after) as [[body rest']|] eqn:Ed; [|done].
  apply cut_close_Some in Ed as ->. destruct (negb (has_prefix _ _)); [done|]. destruct (negb (namePattern _)); [done|].
  apply IH. rewrite !string_length_app in Hr. cbn [String.length] in Hr. lia.
Qed.

(** A template is its nodes.  A parse that succeeds gives nodes whose texts are
    the template again, each the name of a record or a text without a placeholder;
    the references are the names, in order; and the parse always ends. *)
Theorem template_is_its_nodes template :
  ParseTemplate template ≠ Err "too many rounds" ∧
  ∀ t, ParseTemplate template = Ok t →
    template_text (tm_Nodes t) = template ∧ Forall node_ok (tm_Nodes t) ∧
    tm_References t = filter (λ r, r ≠ "") (tn_Reference <$> tm_Nodes t).
Proof.
  split; [apply parse_template_rounds; lia|]. intros t H. apply parse_template_spec in H as [[Hn Hr] Ht]; [done|by split].
Qed.

Example parse_example : ParseTemplate "a${secret:B}c" = Ok {|
  tm_Nodes := [{| tn_Literal := "a"; tn_Reference := "" |}; {| tn_Literal := ""; tn_Reference := "B" |};
    {| tn_Literal := "c"; tn_Reference := "" |}]; tm_References := ["B"] |}.
Proof. vm_compute. reflexivity. Qed.
Lemma template_is_its_nodes_witness :
  template_text [{| tn_Literal := "a"; tn_Reference := "" |}; {| tn_Literal := ""; tn_Reference := "B" |};
    {| tn_Literal := "c"; tn_Reference := "" |}] = "a${secret:B}c".
Proof. exact (proj1 (proj2 (template_is_its_nodes "a${secret:B}c") _ parse_example)). Defined.
