(* ===== verification/Manifest.v ===== *)
(** The public manifest of a bundle: its types, the inspection of its YAML and the
    validity test of internal/contract/manifest.go and lifecycle.go. *)
From S2P Require Import Prelude Timestamp Text Secure Duration Template.
From stdpp Require Import options.

Definition MaxManifestBytes : Z := 1048576.
Definition maxYAMLDepth : Z := 20.
Definition maxYAMLNodes : Z := 10000.
Definition maxBundleLength : Z := 128.
Definition maxRecordName : Z := 128.
Definition maxPolicies : Z := 128.
Definition maxRecords : Z := 256.
Definition maxTargets : Z := 8.
Definition maxServices : Z := 64.
Definition maxVariables : Z := 512.
Definition maxDependencies : Z := 64.
Definition maxTemplateBytes : Z := 16384.
Definition maxCredentials : Z := 128.
Definition maxRecipes : Z := 128.

(** ** Patterns *)

Definition lower_digit (c : ascii) : bool := is_lower c || is_digit c.
Definition bundle_char (c : ascii) : bool := lower_digit c || existsb (Ascii.eqb c) ["."; "_"; "/"; "-"]%char.

Fixpoint last_byte (s : string) : option ascii :=
  match s with EmptyString => None | String c EmptyString => Some c | String _ s => last_byte s end.

(** [^[a-z0-9](?:[a-z0-9._/-]*[a-z0-9])?$] *)
Definition bundlePattern (s : string) : bool :=
  match s, last_byte s with
  | String first _, Some last => lower_digit first && all_bytes bundle_char s && lower_digit last
  | _, _ => false
  end.

(** [^[a-z][a-z0-9-]*$], and with at most 63 further bytes. *)
Definition providerPattern (s : string) : bool :=
  match s with String c rest => is_lower c && all_bytes (λ c, lower_digit c || Ascii.eqb c "-") rest | _ => false end.
Definition lifecycleNamePattern (s : string) : bool := providerPattern s && (slen s <=? 64).

(** ** The manifest *)

Record PasswordPolicy := {
  ppol_Type : string; ppol_Length : Z; ppol_Lowercase : bool; ppol_Uppercase : bool; ppol_Digits : bool; ppol_Symbols : bool;
}.
Record ManifestRecord := { mr_Source : string; mr_Policy : string; mr_Template : string; mr_Sensitivity : string }.
Record Variable_ := { va_Source : string; va_Value : string; va_Record : string; va_Sensitivity : string }.
Record Service := { sv_ID : string; sv_Order : Z; sv_Variables : gmap string Variable_; sv_Absent : list string }.
Record HealthCheck := {
  hc_URL : string; hc_Method : string; hc_ExpectedStatus : Z; hc_Successes : Z; hc_MinimumDuration : string; hc_Timeout : string;
}.
Record ManifestTarget := {
  mt_Provider : string; mt_Project : string; mt_ProjectID : string; mt_Environment : string; mt_EnvironmentID : string;
  mt_Services : gmap string Service; mt_Stage : string; mt_Activation : string; mt_HealthChecks : list HealthCheck;
  mt_Promotion : string; mt_Rollback : string;
}.
Record Credential := {
  cr_Provider : string; cr_Type : string; cr_Mode : string; cr_Record : string; cr_Validation : string; cr_Revoke : string;
  cr_Actions : list string;
}.
Record RotationPolicy := {
  ro_Credentials : list string; ro_Targets : list string; ro_Schedule : string; ro_GracePeriod : string; ro_RetryLimit : Z;
  ro_ActivationOrder : list string; ro_AllowedActions : list string; ro_Rollback : string;
}.
Record ConfigurationRecipe := { cf_Provider : string; cf_Operation : string; cf_Resource : string; cf_Fields : gmap string string }.
Record BrowserRecipe := {
  br_Provider : string; br_Origin : string; br_Route : string; br_Selector : string; br_Strategy : string;
  br_ValuePrefix : string; br_Record : string;
}.
Record Manifest := {
  mf_Version : Z; mf_Bundle : string; mf_Environment : string; mf_Policies : gmap string PasswordPolicy;
  mf_Records : gmap string ManifestRecord; mf_Targets : gmap string ManifestTarget; mf_Credentials : gmap string Credential;
  mf_RotationPolicies : gmap string RotationPolicy; mf_Configurations : list ConfigurationRecipe;
  mf_BrowserRecipes : list BrowserRecipe;
}.
Record Document := { doc_Manifest : Manifest; doc_Canonical : string; doc_Digest : string; doc_Derived : list string }.

(** What [url.Parse] reads of a URL: whether it holds user information, and the
    parts that are compared. *)
Record URL := {
  u_Scheme : string; u_Opaque : string; u_User : bool; u_Host : string; u_Path : string; u_RawQuery : string; u_Fragment : string;
}.
Class URLs := { url_Parse : string → option URL }.

(** [strings.ToUpper] and [unicode.IsPrint], which need the tables of Unicode. *)
Class Unicode := { ToUpper : string → string; IsPrint : Z → bool }.

(** ** Loops *)

Fixpoint each_of {A} (f : A → result unit) (l : list A) : result unit :=
  match l with [] => Ok tt | x :: l => _ ← f x; each_of f l end.
Fixpoint each_index {A} (f : nat → A → result unit) (i : nat) (l : list A) : result unit :=
  match l with [] => Ok tt | x :: l => _ ← f i x; each_index f (S i) l end.
(** A loop with a variable of its own. *)
Fixpoint each_with {A S} (f : A → S → result S) (l : list A) (s : S) : result S :=
  match l with [] => Ok s | x :: l => s ← f x s; each_with f l s end.

Definition has_key {A} (m : gmap string A) (k : string) : bool := bool_decide (is_Some (m !! k)).
Definition map_len {A} (m : gmap string A) : Z := Z.of_nat (size m).
Definition list_len {A} (l : list A) : Z := Z.of_nat (List.length l).
Definition member (l : list string) (s : string) : bool := existsb (String.eqb s) l.

Section Validate.
Context {urls : URLs} {unicode : Unicode}.

(** ** Public values *)

Fixpoint has_suffix (p s : string) : bool :=
  String.eqb p s || match s with String _ s => has_suffix p s | EmptyString => false end.
Fixpoint contains_text (p s : string) : bool :=
  has_prefix p s || match s with String _ s => contains_text p s | EmptyString => false end.

Definition suspiciousSecretName (name : string) : bool :=
  let parts := split_on "_" name in
  existsb (λ part, member ["SECRET"; "PASSWORD"; "TOKEN"; "PRIVATE"; "CREDENTIAL"] part) parts ||
  (existsb (λ part, member ["DATABASE"; "DB"] part) parts && existsb (λ part, member ["URL"; "URI"; "DSN"] part) parts) ||
  (has_suffix "_KEY" name && negb (contains_text "PUBLISHABLE" name) && negb (contains_text "PUBLIC" name)).

Definition containsURLCredentials (value : string) : bool :=
  match url_Parse value with Some parsed => nonempty (u_Scheme parsed) && u_User parsed | None => false end.

Definition validateVariable (name : string) (variable : Variable_) (records : gmap string ManifestRecord) : result unit :=
  if String.eqb (va_Source variable) "constant" then
    _ ← reject_if (nonempty (va_Record variable) || nonempty (va_Sensitivity variable)) "constant requires only value";
    reject_if (suspiciousSecretName name || containsURLCredentials (va_Value variable))
      "secret-shaped names and credential-bearing URLs cannot use public constants"
  else if String.eqb (va_Source variable) "import" then
    reject_if (nonempty (va_Value variable) || nonempty (va_Record variable) ||
        negb (String.eqb (va_Sensitivity variable) "public")) "destination import requires sensitivity public"
  else if String.eqb (va_Source variable) "record" then
    _ ← reject_if (nonempty (va_Value variable) || nonempty (va_Sensitivity variable) || negb (nonempty (va_Record variable)))
          "record source requires only record";
    reject_if (negb (has_key records (va_Record variable))) ("record " +:+ va_Record variable +:+ " does not exist")
  else Err "source must be constant, import, or record".

(** [fmt.Errorf("<path>: %w", err)] *)
Definition within (path : string) (r : result unit) : result unit :=
  match r with Ok u => Ok u | Err msg => Err (path +:+ ": " +:+ msg) end.

(** ** The parts of [validate] *)

Definition validate_policy (manifest : Manifest) (name : string) : result unit :=
  match mf_Policies manifest !! name with
  | None => Ok tt
  | Some policy =>
      _ ← reject_if (negb (nonempty name) || negb (String.eqb (ppol_Type policy) "password") ||
            (ppol_Length policy <? 16) || (256 <? ppol_Length policy)) ("policies." +:+ name +:+ ": invalid password policy");
      reject_if (negb (ppol_Lowercase policy) && negb (ppol_Uppercase policy) && negb (ppol_Digits policy) &&
          negb (ppol_Symbols policy)) ("policies." +:+ name +:+ ": at least one character class is required")
  end.

(** One record, and the dependencies with those of its template. *)
Definition validate_record (manifest : Manifest) (name : string) (dependencies : gmap string (list string)) :
    result (gmap string (list string)) :=
  match mf_Records manifest !! name with
  | None => Ok dependencies
  | Some record =>
      let path := "records." +:+ name in
      _ ← reject_if ((maxRecordName <? slen name) || negb (namePattern name))
            (path +:+ ": invalid environment variable name of at most 128 characters");
      if String.eqb (mr_Source record) "generate" then
        _ ← reject_if (negb (nonempty (mr_Policy record)) || nonempty (mr_Template record) || nonempty (mr_Sensitivity record))
              (path +:+ ": generate requires only policy");
        _ ← reject_if (negb (has_key (mf_Policies manifest) (mr_Policy record))) (path +:+ ".policy: policy does not exist");
        Ok dependencies
      else if String.eqb (mr_Source record) "derive" then
        _ ← reject_if (negb (nonempty (mr_Template record)) || nonempty (mr_Policy record) || nonempty (mr_Sensitivity record))
              (path +:+ ": derive requires only template");
        _ ← reject_if (maxTemplateBytes <? slen (mr_Template record)) (path +:+ ".template: exceeds 16384 bytes");
        match ParseTemplate (mr_Template record) with
        | Err msg => Err (path +:+ ".template: " +:+ msg)
        | Ok parsed =>
            let refs := tm_References parsed in
            _ ← reject_if (maxDependencies <? list_len refs) (path +:+ ".template: exceeds 64 dependencies");
            Ok (<[name := refs]> dependencies)
        end
      else if String.eqb (mr_Source record) "import" then
        _ ← reject_if (nonempty (mr_Policy record) || nonempty (mr_Template record) ||
              (negb (String.eqb (mr_Sensitivity record) "secret") && negb (String.eqb (mr_Sensitivity record) "public")))
              (path +:+ ": import requires sensitivity public or secret");
        Ok dependencies
      else Err (path +:+ ".source: must be generate, derive, or import")
  end.

Definition validate_references (manifest : Manifest) (dependencies : gmap string (list string)) (name : string) : result unit :=
  each_of (λ ref, reject_if (negb (has_key (mf_Records manifest) ref))
      ("records." +:+ name +:+ ".template: record " +:+ ref +:+ " does not exist"))
    (default [] (dependencies !! name)).

(** The names that a service must not have. *)
Definition validate_absent (path : string) (service : Service) (name : string) (absent : gset string) : result (gset string) :=
  _ ← reject_if (negb (namePattern name)) (path +:+ ".absent: invalid environment variable name");
  _ ← reject_if (bool_decide (name ∈ absent)) (path +:+ ".absent: duplicate name " +:+ name);
  _ ← reject_if (has_key (sv_Variables service) name) (path +:+ ": " +:+ name +:+ " cannot be both present and absent");
  Ok ({[name]} ∪ absent).

Definition validate_variable_of (records : gmap string ManifestRecord) (path : string) (service : Service) (name : string) :
    result unit :=
  match sv_Variables service !! name with
  | None => Ok tt
  | Some variable =>
      _ ← reject_if (negb (namePattern name)) (path +:+ ".variables." +:+ name +:+ ": invalid environment variable name");
      within (path +:+ ".variables." +:+ name) (validateVariable name variable records)
  end.

(** One service: the orders of the target, and the count of all variables. *)
Definition validate_service (manifest : Manifest) (path : string) (target : ManifestTarget) (serviceName : string)
    (state : gmap Z string * Z) : result (gmap Z string * Z) :=
  let '(orders, variableCount) := state in
  match mt_Services target !! serviceName with
  | None => Ok state
  | Some service =>
      let servicePath := path +:+ ".services." +:+ serviceName in
      _ ← reject_if (negb (nonempty serviceName) || (sv_Order service <? 1)) (servicePath +:+ ": name and positive order are required");
      match orders !! sv_Order service with
      | Some previous => Err (servicePath +:+ ".order: duplicates service " +:+ previous)
      | None =>
          let variableCount := variableCount + map_len (sv_Variables service) in
          _ ← reject_if (maxVariables <? variableCount) "targets: exceeds 512 variables";
          _ ← each_with (validate_absent servicePath service) (sv_Absent service) ∅;
          _ ← each_of (validate_variable_of (mf_Records manifest) servicePath service) (sortedMapKeys (sv_Variables service));
          Ok (<[sv_Order service := serviceName]> orders, variableCount)
      end
  end.

Definition validate_target (manifest : Manifest) (provider : string) (variableCount : Z) : result Z :=
  match mf_Targets manifest !! provider with
  | None => Ok variableCount
  | Some target =>
      let path := "targets." +:+ provider in
      _ ← reject_if ((mf_Version manifest =? 1) && (nonempty (mt_Provider target) || nonempty (mt_Stage target) ||
            nonempty (mt_Activation target) || negb (list_len (mt_HealthChecks target) =? 0) ||
            nonempty (mt_Promotion target) || nonempty (mt_Rollback target)))
            (path +:+ ": deployment lifecycle fields require manifest version 2");
      _ ← reject_if (negb (providerPattern provider) || negb (nonempty (mt_Project target)) || negb (nonempty (mt_Environment target)))
            (path +:+ ": provider, project, and environment names are required");
      _ ← reject_if ((map_len (mt_Services target) =? 0) || (maxServices <? map_len (mt_Services target)))
            (path +:+ ".services: must contain between 1 and 64 entries");
      '(_, variableCount) ← each_with (validate_service manifest path target) (sortedMapKeys (mt_Services target)) (∅, variableCount);
      Ok variableCount
  end.

(** ** [lifecycle.go] *)

Definition capabilityMode (provider : string) : option (list (string * string)) :=
  if String.eqb provider "stripe" then
    Some [("webhook-signing-secret", "automatic"); ("secret-key", "interactive"); ("restricted-key", "interactive")]
  else if String.eqb provider "clerk" then
    Some [("application-key", "interactive"); ("webhook-signing-secret", "interactive")]
  else None.
Definition capabilityOperations (provider type : string) : string * string :=
  let webhook := ("webhook-delivery", "delete-endpoint") in
  let key := ("identity", "revoke-key") in
  if String.eqb provider "stripe" then
    if String.eqb type "webhook-signing-secret" then webhook
    else if member ["secret-key"; "restricted-key"] type then key else ("", "")
  else if String.eqb provider "clerk" then
    if String.eqb type "application-key" then key
    else if String.eqb type "webhook-signing-secret" then webhook else ("", "")
  else ("", "").
Definition deploymentProviders (provider : string) : bool := member ["vercel"; "railway"] provider.

(** The value of a key in a list of pairs. *)
Fixpoint assoc (k : string) (l : list (string * string)) : option string :=
  match l with [] => None | (k', v) :: l => if String.eqb k k' then Some v else assoc k l end.

Fixpoint has_duplicate (seen : gset string) (values : list string) : bool :=
  match values with [] => false | v :: rest => bool_decide (v ∈ seen) || has_duplicate ({[v]} ∪ seen) rest end.

Definition validateActions (path : string) (actions : list string) : result unit :=
  _ ← reject_if (list_len actions =? 0) (path +:+ ": at least one action is required");
  _ ← each_with (λ action seen,
        _ ← reject_if (negb (member ["create"; "validate"; "revoke"] action) || bool_decide (action ∈ seen))
              (path +:+ ": actions must be unique create, validate, or revoke values");
        Ok ({[action]} ∪ seen)) actions (∅ : gset string);
  Ok tt.

Definition validateHealthCheck (check : HealthCheck) : result unit :=
  match url_Parse (hc_URL check) with
  | None => Err "an HTTPS URL without credentials or fragment is required"
  | Some parsed =>
      _ ← reject_if (negb (String.eqb (u_Scheme parsed) "https") || negb (nonempty (u_Host parsed)) || u_User parsed ||
            nonempty (u_Fragment parsed)) "an HTTPS URL without credentials or fragment is required";
      _ ← reject_if (nonempty (hc_Method check) && negb (member ["GET"; "HEAD"] (hc_Method check))) "method must be GET or HEAD";
      _ ← reject_if ((hc_ExpectedStatus check <? 200) || (399 <? hc_ExpectedStatus check) || (hc_Successes check <? 3))
            "status must be 2xx/3xx and at least three successes are required";
      match ParseDuration (hc_MinimumDuration check) with
      | None => Err "minimum_duration must be at least 30s"
      | Some minimum =>
          _ ← reject_if (minimum <? 30 * second) "minimum_duration must be at least 30s";
          match ParseDuration (hc_Timeout check) with
          | None => Err "timeout must cover minimum_duration and be at most 10m"
          | Some timeout =>
              reject_if ((timeout <=? 0) || (10 * minute <? timeout) || (timeout <? minimum))
                "timeout must cover minimum_duration and be at most 10m"
          end
      end
  end.

Definition validate_credential (manifest : Manifest) (name : string) : result unit :=
  match mf_Credentials manifest !! name with
  | None => Ok tt
  | Some credential =>
      let path := "credentials." +:+ name in
      _ ← reject_if (negb (lifecycleNamePattern name)) (path +:+ ": invalid credential name");
      match assoc (cr_Type credential) (default [] (capabilityMode (cr_Provider credential))) with
      | None => Err (path +:+ ": unknown provider credential capability")
      | Some mode =>
          _ ← reject_if (negb (String.eqb (cr_Mode credential) mode)) (path +:+ ".mode: capability requires " +:+ mode);
          _ ← reject_if (negb (has_key (mf_Records manifest) (cr_Record credential)))
                (path +:+ ".record: destination record does not exist");
          let '(validation, revoke) := capabilityOperations (cr_Provider credential) (cr_Type credential) in
          _ ← reject_if (negb (String.eqb (cr_Validation credential) validation) || negb (String.eqb (cr_Revoke credential) revoke))
                (path +:+ ": validation or revoke operation is not a known capability");
          validateActions (path +:+ ".actions") (cr_Actions credential)
      end
  end.

(** The provider of a deployment target, and its immutable binding. *)
Definition target_provider (name : string) (target : ManifestTarget) : string :=
  if nonempty (mt_Provider target) then mt_Provider target else name.
Definition target_binding (name : string) (target : ManifestTarget) : string :=
  target_provider name target +:+ nul +:+ mt_ProjectID target +:+ nul +:+ mt_EnvironmentID target.

(** One target; the code visits the targets in no fixed order. *)
Definition validate_deployment (manifest : Manifest) (entry : string * ManifestTarget) (seenTargets : gset string) :
    result (gset string) :=
  let '(name, target) := entry in
  let path := "targets." +:+ name in
  _ ← reject_if (negb (deploymentProviders (target_provider name target))) (path +:+ ": unknown deployment provider");
  _ ← reject_if (negb (nonempty (mt_ProjectID target)) || negb (nonempty (mt_EnvironmentID target)))
        (path +:+ ": immutable project_id and environment_id are required");
  let binding := target_binding name target in
  _ ← reject_if (bool_decide (binding ∈ seenTargets)) (path +:+ ": ambiguous duplicate deployment binding");
  _ ← reject_if (negb (nonempty (mt_Stage target)) || negb (nonempty (mt_Activation target)) || negb (nonempty (mt_Rollback target)))
        (path +:+ ": stage, activation, and rollback are required");
  _ ← reject_if (String.eqb (mf_Environment manifest) "production" && (list_len (mt_HealthChecks target) =? 0))
        (path +:+ ".health_checks: production targets require health checks");
  _ ← each_index (λ index check, within (path +:+ ".health_checks." +:+ Itoa (Z.of_nat index)) (validateHealthCheck check)) 0
        (mt_HealthChecks target);
  Ok ({[binding]} ∪ seenTargets).

Definition validate_rotation (manifest : Manifest) (name : string) : result unit :=
  match mf_RotationPolicies manifest !! name with
  | None => Ok tt
  | Some policy =>
      let path := "rotation_policies." +:+ name in
      _ ← reject_if (negb (lifecycleNamePattern name) || negb (nonempty (ro_Schedule policy)) || (ro_RetryLimit policy <? 1) ||
            (3 <? ro_RetryLimit policy) || negb (nonempty (ro_Rollback policy)))
            (path +:+ ": schedule, bounded retries, and rollback are required");
      match ParseDuration (ro_GracePeriod policy) with
      | None => Err (path +:+ ".grace_period: positive duration is required")
      | Some grace =>
          _ ← reject_if (grace <=? 0) (path +:+ ".grace_period: positive duration is required");
          let production := String.eqb (mf_Environment manifest) "production" in
          _ ← reject_if (production && (grace <? 24 * hour)) (path +:+ ".grace_period: production requires at least 24h");
          _ ← reject_if (negb production && (grace <? 15 * minute)) (path +:+ ".grace_period: sandbox and staging require at least 15m");
          _ ← reject_if ((list_len (ro_Credentials policy) =? 0) || (list_len (ro_Targets policy) =? 0) ||
                (list_len (ro_ActivationOrder policy) =? 0)) (path +:+ ": credentials, targets, and activation_order are required");
          _ ← each_of (λ credential,
                match mf_Credentials manifest !! credential with
                | None => Err (path +:+ ".credentials: unknown credential " +:+ credential)
                | Some declared =>
                    reject_if (negb (String.eqb (cr_Mode declared) "automatic") && member (ro_AllowedActions policy) "create")
                      (path +:+ ": automatic rotation requested for interactive credential " +:+ credential)
                end) (ro_Credentials policy);
          _ ← each_of (λ target, reject_if (negb (has_key (mf_Targets manifest) target))
                (path +:+ ".targets: unknown target " +:+ target)) (ro_Targets policy);
          _ ← each_of (λ target, reject_if (negb (member (ro_Targets policy) target))
                (path +:+ ".activation_order: target " +:+ target +:+ " is not selected")) (ro_ActivationOrder policy);
          _ ← reject_if (negb (list_len (ro_ActivationOrder policy) =? list_len (ro_Targets policy)) ||
                has_duplicate ∅ (ro_ActivationOrder policy))
                (path +:+ ".activation_order: must contain every selected target exactly once");
          validateActions (path +:+ ".allowed_actions") (ro_AllowedActions policy)
      end
  end.

Definition validate_configuration (index : nat) (recipe : ConfigurationRecipe) : result unit :=
  let path := "configurations." +:+ Itoa (Z.of_nat index) in
  _ ← reject_if (negb (bool_decide (is_Some (capabilityMode (cf_Provider recipe)))) || negb (nonempty (cf_Operation recipe)) ||
        negb (nonempty (cf_Resource recipe))) (path +:+ ": known provider, operation, and resource are required");
  each_of (λ '(name, value), reject_if (suspiciousSecretName (ToUpper name) || containsURLCredentials value)
      (path +:+ ".fields: secret-bearing public configuration is forbidden")) (map_to_list (cf_Fields recipe)).

Definition validate_browser (manifest : Manifest) (index : nat) (recipe : BrowserRecipe) : result unit :=
  let path := "browser_recipes." +:+ Itoa (Z.of_nat index) in
  let bad := path +:+ ": exact HTTPS origin, route, selector, strategy, and known provider are required" in
  match url_Parse (br_Origin recipe) with
  | None => Err bad
  | Some parsed =>
      _ ← reject_if (negb (String.eqb (u_Scheme parsed) "https") || negb (nonempty (u_Host parsed)) || u_User parsed ||
            nonempty (u_Path parsed) || nonempty (u_RawQuery parsed) || nonempty (u_Fragment parsed) ||
            negb (bool_decide (is_Some (capabilityMode (br_Provider recipe)))) || negb (has_prefix "/" (br_Route recipe)) ||
            negb (nonempty (br_Selector recipe)) || negb (nonempty (br_Strategy recipe)) || negb (nonempty (br_ValuePrefix recipe))) bad;
      reject_if (negb (has_key (mf_Records manifest) (br_Record recipe))) (path +:+ ".record: destination record does not exist")
  end.

Definition validateLifecycle (manifest : Manifest) : result unit :=
  _ ← reject_if (negb (member ["sandbox"; "staging"; "production"] (mf_Environment manifest)))
        "environment: version 2 requires sandbox, staging, or production";
  _ ← reject_if ((map_len (mf_Credentials manifest) =? 0) || (maxCredentials <? map_len (mf_Credentials manifest)))
        "credentials: must contain between 1 and 128 entries";
  _ ← each_of (validate_credential manifest) (sortedMapKeys (mf_Credentials manifest));
  _ ← each_with (validate_deployment manifest) (map_to_list (mf_Targets manifest)) (∅ : gset string);
  _ ← reject_if ((map_len (mf_RotationPolicies manifest) =? 0) || (maxPolicies <? map_len (mf_RotationPolicies manifest)))
        "rotation_policies: must contain between 1 and 128 entries";
  _ ← each_of (validate_rotation manifest) (sortedMapKeys (mf_RotationPolicies manifest));
  _ ← reject_if ((maxRecipes <? list_len (mf_BrowserRecipes manifest)) || (maxRecipes <? list_len (mf_Configurations manifest)))
        "lifecycle recipes exceed the safety limit";
  _ ← each_index validate_configuration 0 (mf_Configurations manifest);
  each_index (validate_browser manifest) 0 (mf_BrowserRecipes manifest).

(** ** [validate] *)

Definition validate (manifest : Manifest) : result (list string) :=
  _ ← reject_if (negb (mf_Version manifest =? 1) && negb (mf_Version manifest =? 2))
        "version: only manifest versions 1 and 2 are supported";
  _ ← reject_if ((mf_Version manifest =? 1) && (nonempty (mf_Environment manifest) || negb (map_len (mf_Credentials manifest) =? 0) ||
        negb (map_len (mf_RotationPolicies manifest) =? 0) || negb (list_len (mf_Configurations manifest) =? 0) ||
        negb (list_len (mf_BrowserRecipes manifest) =? 0))) "version: lifecycle declarations require manifest version 2";
  _ ← reject_if ((slen (mf_Bundle manifest) =? 0) || (maxBundleLength <? slen (mf_Bundle manifest)) ||
        negb (bundlePattern (mf_Bundle manifest)) || contains_text "//" (mf_Bundle manifest))
        "bundle: must be a valid identifier of at most 128 characters";
  _ ← reject_if ((map_len (mf_Records manifest) =? 0) || (maxRecords <? map_len (mf_Records manifest)))
        "records: must contain between 1 and 256 entries";
  _ ← reject_if ((map_len (mf_Targets manifest) =? 0) || (maxTargets <? map_len (mf_Targets manifest)))
        "targets: must contain between 1 and 8 entries";
  _ ← reject_if (maxPolicies <? map_len (mf_Policies manifest)) "policies: exceeds 128 entries";
  _ ← each_of (validate_policy manifest) (sortedMapKeys (mf_Policies manifest));
  dependencies ← each_with (validate_record manifest) (sortedMapKeys (mf_Records manifest)) ∅;
  _ ← each_of (validate_references manifest dependencies) (sortedMapKeys dependencies);
  derived ← topologicalDerivations dependencies;
  _ ← each_with (validate_target manifest) (sortedMapKeys (mf_Targets manifest)) 0;
  _ ← (if mf_Version manifest =? 2 then validateLifecycle manifest else Ok tt);
  Ok derived.
End Validate.

(** ** YAML *)

Inductive NodeKind := DocumentNode | SequenceNode | MappingNode | ScalarNode | AliasNode.
#[export] Instance NodeKind_eq_dec : EqDecision NodeKind.
Proof. solve_decision. Defined.

(** A [yaml.Node]; whether it has an alias or an anchor. *)
#[warnings="-register-all"] Inductive Node := MkNode {
  n_Kind : NodeKind; n_Tag : string; n_Value : string; n_Referenced : bool; n_Line : Z; n_Column : Z; n_Content : list Node;
}.

Definition locationError (node : Node) (message : string) : string :=
  "invalid manifest at line " +:+ Itoa (n_Line node) +:+ ", column " +:+ Itoa (n_Column node) +:+ ": " +:+ message.

Definition allowedTag (tag : string) : bool :=
  member [""; "!!map"; "!!seq"; "!!str"; "!!int"; "!!bool"; "!!null"; "!!float"] tag.

(** The keys of a mapping, at the even positions of its content; the text of the
    last error also quotes the key. *)
Fixpoint inspect_keys (content : list Node) (seen : gset string) : result unit :=
  match content with
  | [] => Ok tt
  | key :: rest =>
      _ ← reject_if (bool_decide (n_Kind key ≠ ScalarNode) || negb (String.eqb (n_Tag key) "!!str"))
            (locationError key "mapping keys must be plain strings");
      _ ← reject_if (String.eqb (n_Value key) "<<" || String.eqb (n_Tag key) "!!merge")
            (locationError key "YAML merge keys are not allowed");
      _ ← reject_if (bool_decide (n_Value key ∈ seen)) (locationError key "duplicate field");
      match rest with [] => Ok tt | _ :: rest => inspect_keys rest ({[n_Value key]} ∪ seen) end
  end.

(** [inspectNode]: the count of nodes so far, and after. *)
Fixpoint inspectNode (node : Node) (depth count : Z) : result Z :=
  let count := count + 1 in
  _ ← reject_if (maxYAMLNodes <? count) "manifest exceeds 10000 YAML nodes";
  _ ← reject_if (maxYAMLDepth <? depth) "manifest exceeds YAML depth 20";
  _ ← reject_if (bool_decide (n_Kind node = AliasNode) || n_Referenced node)
        (locationError node "YAML aliases and anchors are not allowed");
  _ ← reject_if (negb (allowedTag (n_Tag node))) (locationError node "custom YAML tags are not allowed");
  _ ← (if bool_decide (n_Kind node = MappingNode) then inspect_keys (n_Content node) ∅ else Ok tt);
  (fix inspect_each (content : list Node) (count : Z) : result Z :=
     match content with
     | [] => Ok count
     | child :: rest => count ← inspectNode child (depth + 1) count; inspect_each rest count
     end) (n_Content node) count.

(** The YAML decoder: the content of the first document, whether another one
    follows, and the manifest it decodes to, without unknown fields; and the JSON of
    a manifest. *)
Class YAML := {
  yaml_content : string → result (list Node);
  yaml_single : string → result unit;
  yaml_manifest : string → result Manifest;
  manifest_json : Manifest → result string;
}.

Section Parse.
Context {crypto : Crypto} {urls : URLs} {unicode : Unicode} {yaml : YAML}.

Definition hex_number (width : nat) (n : Z) : string :=
  let fix digits (w : nat) (n : Z) : string :=
    match w with O => "" | S w => digits w (n / 16) +:+ String (hex_digit (n mod 16)) "" end in digits width n.

(** The loop over the runes of [terminalSafe]: a byte of no rune is U+FFFD. *)
Definition safe_rune (r : string) : string :=
  let v := rune_value r in
  if IsPrint v then if (v =? 65533) && (slen r =? 1) then String "239" (String "191" (String "189" "")) else r
  else if v <=? 65535 then String "092" "u" +:+ hex_number 4 v else String "092" "U" +:+ hex_number 8 v.
Definition terminalSafe (value : string) : string := concat_str (safe_rune <$> runes value).

(** The text before the first [" cannot unmarshal"]. *)
Fixpoint before_text (p s : string) : option string :=
  if has_prefix p s then Some ""
  else match s with String c s => String c <$> before_text p s | EmptyString => None end.

Definition sanitizeDecodeError (msg : string) : string :=
  let message := terminalSafe msg in
  let message := match before_text " cannot unmarshal" message with
    | Some before => before +:+ " has an invalid type"
    | None => message end in
  "invalid manifest: " +:+ (if 512 <? slen message then substring 0 512 message else message).

Definition inspectYAML (data : string) : result unit :=
  match yaml_content data with
  | Err msg => Err (sanitizeDecodeError msg)
  | Ok [root] =>
      _ ← inspectNode root 1 0;
      reject_if (negb (is_ok (yaml_single data))) "manifest must contain exactly one YAML document"
  | Ok _ => Err "manifest must contain exactly one YAML document"
  end.

(** [Parse]: its second look for another document cannot find one after
    [inspectYAML] found none. *)
Definition Parse (data : string) : result Document :=
  _ ← reject_if (slen data =? 0) "manifest is empty";
  _ ← reject_if (MaxManifestBytes <? slen data) "manifest exceeds 1048576 bytes";
  _ ← inspectYAML data;
  match yaml_manifest data with
  | Err msg => Err (sanitizeDecodeError msg)
  | Ok manifest =>
      match validate manifest with
      | Err msg => Err (terminalSafe msg)
      | Ok derived =>
          match manifest_json manifest with
          | Err _ => Err "manifest could not be canonicalized"
          | Ok canonical =>
              Ok {| doc_Manifest := manifest; doc_Canonical := canonical; doc_Digest := hex (sha256 canonical); doc_Derived := derived |}
          end
      end
  end.
End Parse.
