(* ===== verification/ManifestProperties.v ===== *)
(** What the validity test of a manifest establishes: its names resolve, its derived
    records can be computed, and its rotations are bounded. *)
From S2P Require Import Prelude Timestamp Text Secure Duration Template Manifest.
From stdpp Require Import options.

(** ** Loops *)

Lemma each_of_Ok {A} (f : A → result unit) l u : each_of f l = Ok u → ∀ x, x ∈ l → f x = Ok tt.
Proof.
  induction l as [|y l IH]; [by intros _ x ?%elem_of_nil|]. cbn [each_of].
  intros ([] & Hy & Hl)%bind_Ok x [->|Hx]%elem_of_cons; [done|by apply IH].
Qed.

Lemma each_index_Ok {A} (f : nat → A → result unit) i l u :
  each_index f i l = Ok u → ∀ x, x ∈ l → ∃ j, f j x = Ok tt.
Proof.
  revert i. induction l as [|y l IH]; intros i; [by intros _ x ?%elem_of_nil|]. cbn [each_index].
  intros ([] & Hy & Hl)%bind_Ok x [->|Hx]%elem_of_cons; [by exists i|by eapply IH].
Qed.

(** A loop keeps what holds of the part that was visited. *)
Lemma each_with_ind {A S} (P : list A → S → Prop) (f : A → S → result S) l s s' :
  each_with f l s = Ok s' → P [] s →
  (∀ seen x s s1, (x ∈ l) → P seen s → f x s = Ok s1 → P (seen ++ [x]) s1) → P l s'.
Proof.
  intros H H0 Hstep. enough (Hgen : ∀ seen rest s, (∀ x, x ∈ rest → x ∈ l) →
    P seen s → each_with f rest s = Ok s' → P (seen ++ rest) s') by (by apply (Hgen [] l s)).
  intros seen rest. revert seen. induction rest as [|x rest IH]; intros seen t Hin Hs.
  - cbn. intros [= <-]. by rewrite app_nil_r.
  - cbn [each_with]. intros (t1 & Hx & Hrest)%bind_Ok. replace (seen ++ x :: rest) with ((seen ++ [x]) ++ rest) by by rewrite <-app_assoc.
    eapply IH; [|by eapply Hstep; [apply Hin; left|..]|done]. intros y Hy. apply Hin. by right.
Qed.

Lemma has_key_true {A} (m : gmap string A) k : has_key m k = true ↔ is_Some (m !! k).
Proof. apply bool_decide_eq_true. Qed.

Lemma member_true l s : member l s = true ↔ s ∈ l.
Proof.
  unfold member. rewrite existsb_exists. split.
  - intros (x & Hin & ->%String.eqb_eq). by apply list_elem_of_In.
  - intros Hin. exists s. split; [by apply list_elem_of_In|by apply String.eqb_refl].
Qed.

#[local] Hint Rewrite @has_key_true member_true : checks.

(** ** Records *)

Definition policy_ok (policy : PasswordPolicy) : Prop :=
  ppol_Type policy = "password" ∧ 16 ≤ ppol_Length policy ≤ 256 ∧
  (ppol_Lowercase policy || ppol_Uppercase policy || ppol_Digits policy || ppol_Symbols policy) = true.

(** The records that a record is derived from. *)
Definition refers (m : Manifest) (name : string) (refs : list string) : Prop :=
  ∃ r t, mf_Records m !! name = Some r ∧ mr_Source r = "derive" ∧ ParseTemplate (mr_Template r) = Ok t ∧
    refs = tm_References t.

(** A record whose value can be had: generated under a policy of the manifest, given
    from outside, or derived from such records. *)
Inductive resolves (m : Manifest) : string → Prop :=
| resolves_generate name r policy : mf_Records m !! name = Some r → mr_Source r = "generate" →
    mf_Policies m !! mr_Policy r = Some policy → policy_ok policy → resolves m name
| resolves_import name r : mf_Records m !! name = Some r → mr_Source r = "import" →
    mr_Sensitivity r ∈ ["secret"; "public"] → resolves m name
| resolves_derive name refs : refers m name refs → (∀ ref, ref ∈ refs → resolves m ref) → resolves m name.

Lemma validate_policy_ok m name policy :
  validate_policy m name = Ok tt → mf_Policies m !! name = Some policy → policy_ok policy.
Proof.
  unfold validate_policy. intros H E. rewrite E in H. passed H. unfold policy_ok.
  split_and!; [done|done|done|]. destruct (ppol_Lowercase policy), (ppol_Uppercase policy), (ppol_Digits policy),
    (ppol_Symbols policy); done.
Qed.

(** What the loop over the records knows of a record, and the dependencies it has
    collected. *)
Definition record_seen (m : Manifest) (name : string) : Prop :=
  namePattern name = true ∧ slen name ≤ 128 ∧ ∃ r, mf_Records m !! name = Some r ∧
    ((mr_Source r = "generate" ∧ is_Some (mf_Policies m !! mr_Policy r)) ∨
     (mr_Source r = "import" ∧ mr_Sensitivity r ∈ ["secret"; "public"]) ∨ ∃ refs, refers m name refs).
Definition dependencies_seen (m : Manifest) (seen : list string) (dependencies : gmap string (list string)) : Prop :=
  (∀ name, name ∈ seen → record_seen m name) ∧
  ∀ name refs, dependencies !! name = Some refs ↔ name ∈ seen ∧ refers m name refs.

Lemma refers_source m name refs r : refers m name refs → mf_Records m !! name = Some r → mr_Source r = "derive".
Proof. intros (r' & t & E & Hs & _) E'. congruence. Qed.

(** A record that is no derivation leaves the dependencies as they are. *)
Lemma dependencies_same m seen name r deps :
  dependencies_seen m seen deps → mf_Records m !! name = Some r → mr_Source r ≠ "derive" → record_seen m name →
  dependencies_seen m (seen ++ [name]) deps.
Proof.
  intros [Hseen Hdeps] Er Hne Hname. split.
  - intros n [Hn| ->%list_elem_of_singleton]%elem_of_app; [by apply Hseen|done].
  - intros n refs. rewrite Hdeps, elem_of_app, list_elem_of_singleton. split; [naive_solver|].
    intros [[Hn| ->] Hr]; [done|]. by destruct Hne; eapply refers_source.
Qed.

Lemma validate_record_seen m seen name deps deps' :
  is_Some (mf_Records m !! name) → dependencies_seen m seen deps →
  validate_record m name deps = Ok deps' → dependencies_seen m (seen ++ [name]) deps'.
Proof.
  intros [r Er] Hd. unfold validate_record. rewrite Er. intros [Hn H]%reject_if_bind. passed Hn.
  destruct (String.eqb_spec (mr_Source r) "generate") as [Eg|_].
  { passed H. injection H as <-. eapply dependencies_same; [done|done|by rewrite Eg|].
    split_and!; [done|done|]. exists r. split; [done|by left]. }
  destruct (String.eqb_spec (mr_Source r) "derive") as [Ed|_].
  - rewrite !reject_if_bind in H. destruct H as (_ & _ & H).
    destruct (ParseTemplate (mr_Template r)) as [t|e] eqn:Et; [|done]. rewrite reject_if_bind in H.
    destruct H as [_ H]. injection H as <-. assert (Hrefers : refers m name (tm_References t)) by by exists r, t.
    destruct Hd as [Hseen Hdeps]. split.
    + intros n [Hn'| ->%list_elem_of_singleton]%elem_of_app; [by apply Hseen|]. split_and!; [done|done|].
      exists r. split; [done|]. right; right. by exists (tm_References t).
    + intros n refs. rewrite lookup_insert_Some, elem_of_app, list_elem_of_singleton, Hdeps. split; [naive_solver|].
      intros [Hin Hr]. destruct (decide (name = n)) as [<-|Hne]; [|right; naive_solver].
      left. split; [done|]. destruct Hr as (r' & t' & Er' & _ & Et' & ->). congruence.
  - destruct (String.eqb_spec (mr_Source r) "import") as [Ei|_]; [|done].
    passed H. injection H as <-. eapply dependencies_same; [done|done|by rewrite Ei|].
    split_and!; [done|done|]. exists r. split; [done|]. right; left. split; [done|].
    destruct (String.eqb_spec (mr_Sensitivity r) "secret") as [->|Hs]; [by left|].
    destruct (String.eqb_spec (mr_Sensitivity r) "public") as [->|Hp]; [by right; left|]. done.
Qed.

(** Everything is seen, and what is referred to exists: then it can be had. *)
Lemma records_resolve m dependencies derived :
  dependencies_seen m (sortedMapKeys (mf_Records m)) dependencies →
  (∀ name policy, mf_Policies m !! name = Some policy → policy_ok policy) →
  (∀ name refs ref, dependencies !! name = Some refs → ref ∈ refs → is_Some (mf_Records m !! ref)) →
  topologicalDerivations dependencies = Ok derived →
  ∀ name, is_Some (mf_Records m !! name) → resolves m name.
Proof.
  intros [Hseen Hdeps] Hpol Hrefs Htop. pose proof (topologicalDerivations_spec dependencies) as Hspec.
  rewrite Htop in Hspec. destruct Hspec as (_ & Hin & Hord & _).
  assert (Hbase : ∀ name, is_Some (mf_Records m !! name) → dependencies !! name = None → resolves m name).
  { intros name Hr Hnone. destruct (Hseen name) as (_ & _ & r & Er & [[Hs [policy Hp]]|[[Hs Hv]|[refs Hx]]]).
    - by rewrite elem_of_sortedMapKeys.
    - eapply resolves_generate; [done|done|done|by eapply Hpol].
    - by eapply resolves_import.
    - assert (E : dependencies !! name = Some refs) by (apply Hdeps; split; [by rewrite elem_of_sortedMapKeys|done]).
      by rewrite E in Hnone. }
  assert (Hpre : ∀ before after, derived = before ++ after → ∀ x, x ∈ before → resolves m x).
  { induction before as [|y before IH] using rev_ind; intros after E x; [by intros ?%elem_of_nil|].
    rewrite <-app_assoc in E. specialize (IH _ E). intros [Hx| ->%list_elem_of_singleton]%elem_of_app; [by apply IH|].
    destruct (proj1 (Hin y)) as [refs Ey]; [rewrite E; set_solver|].
    eapply resolves_derive; [by apply Hdeps|]. intros ref Href. specialize (Hrefs _ _ _ Ey Href).
    destruct (dependencies !! ref) as [refs'|] eqn:Eref; [|by apply Hbase].
    apply IH. eapply Hord; [exact E|]. exists refs. by rewrite Eref. }
  intros name Hname. destruct (dependencies !! name) eqn:En; [|by apply Hbase].
  apply (Hpre derived []); [by rewrite app_nil_r|]. apply Hin. by rewrite En.
Qed.

(** ** Targets *)

Section Targets.
Context {urls : URLs} {unicode : Unicode}.

(** A variable is a public constant, public on its destination already, or the value
    of a record. *)
Definition variable_ok (m : Manifest) (name : string) (v : Variable_) : Prop :=
  (va_Source v = "constant" ∧ suspiciousSecretName name = false ∧ containsURLCredentials (va_Value v) = false) ∨
  (va_Source v = "import" ∧ va_Value v = "" ∧ va_Sensitivity v = "public") ∨
  (va_Source v = "record" ∧ va_Value v = "" ∧ is_Some (mf_Records m !! va_Record v)).

Record service_ok (m : Manifest) (s : Service) : Prop := {
  so_order : 1 ≤ sv_Order s;
  so_absent : NoDup (sv_Absent s) ∧ ∀ name, name ∈ sv_Absent s → namePattern name = true ∧ sv_Variables s !! name = None;
  so_variables : ∀ name v, sv_Variables s !! name = Some v → namePattern name = true ∧ variable_ok m name v;
}.

Record target_ok (m : Manifest) (t : ManifestTarget) : Prop := {
  to_services : ∀ name s, mt_Services t !! name = Some s → service_ok m s;
  to_orders : ∀ n1 n2 s1 s2, mt_Services t !! n1 = Some s1 → mt_Services t !! n2 = Some s2 →
    sv_Order s1 = sv_Order s2 → n1 = n2;
}.

(** The number of all variables. *)
Definition sum_map {A} (f : A → nat) (m : gmap string A) : nat := sum_list_with (λ p, f p.2) (map_to_list m).
Definition target_variables (t : ManifestTarget) : nat := sum_map (λ s, size (sv_Variables s)) (mt_Services t).
Definition manifest_variables (m : Manifest) : nat := sum_map target_variables (mf_Targets m).

Definition at_key {A} (f : A → nat) (m : gmap string A) (k : string) : nat := from_option f 0%nat (m !! k).

Lemma sum_sorted {A} (f : A → nat) (m : gmap string A) : sum_list_with (at_key f m) (sortedMapKeys m) = sum_map f m.
Proof.
  unfold sortedMapKeys, sum_map. rewrite sort_strings_perm.
  assert (H : ∀ p, p ∈ map_to_list m → m !! p.1 = Some p.2) by (intros []; apply elem_of_map_to_list).
  induction (map_to_list m) as [|p l IH]; [done|]. cbn [fmap list_fmap sum_list_with]. rewrite IH by (intros; apply H; by right).
  unfold at_key at 1. by rewrite (H p) by by left.
Qed.

Lemma sortedMapKeys_nil {A} (m : gmap string A) : sortedMapKeys m = [] → m = ∅.
Proof.
  intros Hnil. apply map_empty. intros k. apply eq_None_not_Some.
  intros Hk%elem_of_sortedMapKeys. rewrite Hnil in Hk. by apply elem_of_nil in Hk.
Qed.

Lemma validateVariable_ok name v m u : validateVariable name v (mf_Records m) = Ok u → variable_ok m name v.
Proof.
  unfold validateVariable, variable_ok. destruct (String.eqb_spec (va_Source v) "constant") as [Ec|_].
  { intros H. passed H. by left. }
  destruct (String.eqb_spec (va_Source v) "import") as [Ei|_].
  { intros H. passed H. right; left. by split_and!. }
  destruct (String.eqb_spec (va_Source v) "record") as [Er|_]; [|done].
  intros H. passed H. right; right. by split_and!.
Qed.

Lemma absent_ok path s : ∀ seen, each_with (validate_absent path s) (sv_Absent s) ∅ = Ok seen →
  NoDup (sv_Absent s) ∧ ∀ name, name ∈ sv_Absent s → namePattern name = true ∧ sv_Variables s !! name = None.
Proof.
  intros seen H. apply (each_with_ind (λ l (absent : gset string), (∀ n, n ∈ l ↔ n ∈ absent) ∧ NoDup l ∧
    ∀ name, name ∈ l → namePattern name = true ∧ sv_Variables s !! name = None)) in H as (_ & Hn & Hl); [done| |].
  - split_and!; [intros n; by rewrite elem_of_nil, elem_of_empty|constructor|by intros ? ?%elem_of_nil].
  - intros l x absent absent' _ (Hin & Hn & Hl) Hx. unfold validate_absent in Hx. passed Hx. injection Hx as <-. split_and!.
    + intros n. rewrite elem_of_app, list_elem_of_singleton, elem_of_union, elem_of_singleton, Hin. tauto.
    + apply NoDup_app. split_and!; [done| |apply NoDup_singleton].
      intros n Hn' ->%list_elem_of_singleton. apply Hin in Hn'. contradiction.
    + intros n [Hn'| ->%list_elem_of_singleton]%elem_of_app; [by apply Hl|]. split; [done|].
      apply eq_None_not_Some. rewrite <-has_key_true. congruence.
Qed.

Lemma within_Ok path r u : within path r = Ok u → r = Ok u.
Proof. by destruct r. Qed.

Lemma variables_ok path m s : each_of (validate_variable_of (mf_Records m) path s) (sortedMapKeys (sv_Variables s)) = Ok tt →
  ∀ name v, sv_Variables s !! name = Some v → namePattern name = true ∧ variable_ok m name v.
Proof.
  intros H name v Ev. eapply each_of_Ok in H; [|by rewrite elem_of_sortedMapKeys].
  unfold validate_variable_of in H. rewrite Ev in H. rewrite reject_if_bind in H. destruct H as [Hn H%within_Ok].
  split; [by apply negb_false_iff|]. by eapply validateVariable_ok.
Qed.

(** What the loop over the services of a target knows. *)
Definition services_seen (m : Manifest) (t : ManifestTarget) (count : Z) (seen : list string) (state : gmap Z string * Z) : Prop :=
  (∀ name s, name ∈ seen → mt_Services t !! name = Some s → service_ok m s ∧ state.1 !! sv_Order s = Some name) ∧
  state.2 = count + Z.of_nat (sum_list_with (at_key (λ s, size (sv_Variables s)) (mt_Services t)) seen) ∧
  (state.2 ≤ maxVariables ∨ seen = []).

Lemma validate_service_seen m path t count seen name state state' :
  services_seen m t count seen state → is_Some (mt_Services t !! name) →
  validate_service m path t name state = Ok state' → services_seen m t count (seen ++ [name]) state'.
Proof.
  intros (Hok & Hcount & _) [s Es]. destruct state as [orders n]. unfold validate_service. rewrite Es.
  rewrite reject_if_bind. intros [Ho H]. passed Ho. destruct (orders !! sv_Order s) as [prev|] eqn:Eo; [done|].
  rewrite reject_if_bind in H. destruct H as [Hmax (absent & Ha & H)%bind_Ok]. apply Z.ltb_ge in Hmax.
  apply bind_Ok in H as ([] & Hv & H). injection H as <-. apply absent_ok in Ha. pose proof (variables_ok _ _ _ Hv) as Hvar.
  split_and!.
  - intros n' s' [Hin| ->%list_elem_of_singleton]%elem_of_app Es'.
    + destruct (Hok n' s' Hin Es') as [? Hord]. split; [done|]. cbn in *.
      rewrite lookup_insert_ne; [done|]. intros E. by rewrite E, Hord in Eo.
    + assert (s' = s) as -> by congruence. split; [by split|]. cbn. by rewrite lookup_insert_eq.
  - cbn in *. rewrite Hcount, sum_list_with_app. cbn [sum_list_with]. unfold at_key at 3. rewrite Es.
    unfold map_len. cbn [from_option]. lia.
  - left. done.
Qed.

Lemma services_ok m path t count state :
  each_with (validate_service m path t) (sortedMapKeys (mt_Services t)) (∅, count) = Ok state →
  services_seen m t count (sortedMapKeys (mt_Services t)) state.
Proof.
  intros H. apply (each_with_ind (services_seen m t count) _ _ _ _ H).
  - split_and!; [by intros ? ? ?%elem_of_nil|cbn; lia|by right].
  - intros seen name s s1 Hin%elem_of_sortedMapKeys Hs. by apply validate_service_seen.
Qed.

Lemma validate_target_ok m provider t count count' :
  mf_Targets m !! provider = Some t → validate_target m provider count = Ok count' →
  target_ok m t ∧ count' = count + Z.of_nat (target_variables t) ∧ count' ≤ maxVariables.
Proof.
  intros Et. unfold validate_target. rewrite Et. rewrite !reject_if_bind. intros (_ & _ & Hn & H).
  apply bind_Ok in H as ([orders n] & Hs & H). injection H as <-. apply services_ok in Hs as (Hok & Hcount & Hmax).
  split_and!.
  - assert (Hall : ∀ name s, mt_Services t !! name = Some s → service_ok m s ∧ orders !! sv_Order s = Some name)
      by (intros name s Es; apply Hok; [by rewrite elem_of_sortedMapKeys|done]).
    split; [intros name s Es; by apply (Hall name)|]. intros n1 n2 s1 s2 E1 E2 Eo.
    apply Hall in E1 as [_ E1]. apply Hall in E2 as [_ E2]. rewrite Eo in E1. congruence.
  - unfold target_variables. by rewrite <-sum_sorted.
  - destruct Hmax as [|Hnil]; [done|]. apply sortedMapKeys_nil in Hnil. by rewrite Hnil in Hn.
Qed.

Lemma validate_targets_ok m count' :
  each_with (validate_target m) (sortedMapKeys (mf_Targets m)) 0 = Ok count' → mf_Targets m ≠ ∅ →
  (∀ provider t, mf_Targets m !! provider = Some t → target_ok m t) ∧ Z.of_nat (manifest_variables m) ≤ maxVariables.
Proof.
  intros H Hne. apply (each_with_ind (λ seen count, (∀ provider t, provider ∈ seen → mf_Targets m !! provider = Some t → target_ok m t) ∧
    count = Z.of_nat (sum_list_with (at_key target_variables (mf_Targets m)) seen) ∧ (count ≤ maxVariables ∨ seen = []))) in H
    as (Hok & Hcount & Hmax).
  - split; [intros provider t Et; eapply Hok; [by rewrite elem_of_sortedMapKeys|done]|].
    unfold manifest_variables. rewrite <-sum_sorted, <-Hcount. destruct Hmax as [|Hnil]; [done|]. by apply sortedMapKeys_nil in Hnil.
  - split_and!; [by intros ? ? ?%elem_of_nil|done|by right].
  - intros seen provider n n1 [t Et]%elem_of_sortedMapKeys (Hok & Hcount & _) Hv.
    destruct (validate_target_ok m provider t n n1 Et Hv) as (Ht & Hn & Hmax). split_and!; [| |by left].
    + intros p t' [Hin| ->%list_elem_of_singleton]%elem_of_app Et'; [by eapply Hok|]. by simplify_eq.
    + rewrite Hn, Hcount, sum_list_with_app. cbn [sum_list_with]. unfold at_key at 3. rewrite Et. cbn [from_option]. lia.
Qed.

(** The loops of [validate]. *)
Lemma validate_inv m derived : validate m = Ok derived →
  ∃ dependencies, dependencies_seen m (sortedMapKeys (mf_Records m)) dependencies ∧
    (∀ name policy, mf_Policies m !! name = Some policy → policy_ok policy) ∧
    (∀ name refs ref, dependencies !! name = Some refs → ref ∈ refs → is_Some (mf_Records m !! ref)) ∧
    topologicalDerivations dependencies = Ok derived ∧
    (∀ provider t, mf_Targets m !! provider = Some t → target_ok m t) ∧ Z.of_nat (manifest_variables m) ≤ maxVariables ∧
    (if mf_Version m =? 2 then validateLifecycle m else Ok tt) = Ok tt.
Proof.
  unfold validate. rewrite !reject_if_bind. intros (_ & _ & _ & _ & Ht & _ & H).
  apply bind_Ok in H as ([] & Hpol & H). apply bind_Ok in H as (dependencies & Hrec & H).
  apply bind_Ok in H as ([] & Href & H). apply bind_Ok in H as (derived' & Htop & H).
  apply bind_Ok in H as (count & Htar & H). apply bind_Ok in H as ([] & Hlife & H). injection H as ->.
  exists dependencies. split_and!; [| | |done| | |done].
  - apply (each_with_ind (dependencies_seen m)) in Hrec; [done| |].
    + split; [by intros ? ?%elem_of_nil|]. intros name refs. rewrite lookup_empty, elem_of_nil. naive_solver.
    + intros seen name d d1 Hin%elem_of_sortedMapKeys Hd. by apply validate_record_seen.
  - intros n policy En. eapply validate_policy_ok; [|done]. eapply each_of_Ok; [done|]. by rewrite elem_of_sortedMapKeys, En.
  - intros n refs ref En Hr. assert (Hn : n ∈ sortedMapKeys dependencies) by by rewrite elem_of_sortedMapKeys, En.
    apply (each_of_Ok _ _ _ Href) in Hn. unfold validate_references in Hn. rewrite En in Hn.
    apply (each_of_Ok _ _ _ Hn) in Hr. by passed Hr.
  - eapply validate_targets_ok; [done|]. intros E. by rewrite E in Ht.
  - eapply validate_targets_ok; [done|]. intros E. by rewrite E in Ht.
Qed.

(** What holds of a manifest that passes the test. *)
Lemma valid_manifest_spec m derived : validate m = Ok derived →
  (∀ name, is_Some (mf_Records m !! name) → namePattern name = true ∧ slen name ≤ 128 ∧ resolves m name) ∧
  NoDup derived ∧ (∀ name, name ∈ derived ↔ ∃ refs, refers m name refs) ∧
  (∀ before name after refs ref, derived = before ++ name :: after → refers m name refs → ref ∈ refs →
    (∃ refs', refers m ref refs') → ref ∈ before) ∧
  (∀ provider t, mf_Targets m !! provider = Some t → target_ok m t) ∧
  Z.of_nat (manifest_variables m) ≤ maxVariables.
Proof.
  intros (dependencies & Hrec & Hpol & Href & Htop & Htar & Hcount & _)%validate_inv. pose proof Hrec as [Hseen Hdeps].
  assert (Hrefers : ∀ name refs, refers m name refs ↔ dependencies !! name = Some refs).
  { intros name refs. rewrite Hdeps, elem_of_sortedMapKeys. split; [|naive_solver]. intros Hr. split; [|done].
    destruct Hr as (r & t & -> & _). by eexists. }
  pose proof (topologicalDerivations_spec dependencies) as Hspec. rewrite Htop in Hspec.
  destruct Hspec as (Hnd & Hin & Hord & _). split; [|split_and!]; [|done| | |done|done].
  - intros name Hname. destruct (Hseen name) as (Hp & Hl & _); [by rewrite elem_of_sortedMapKeys|].
    split_and!; [done|done|]. by eapply records_resolve.
  - intros name. rewrite Hin. unfold is_Some. by setoid_rewrite Hrefers.
  - intros before name after refs ref E Hr Hin' [refs' Hr']. apply Hrefers in Hr, Hr'. eapply Hord; [exact E|].
    exists refs. by rewrite Hr'.
Qed.

(** C19: a manifest that passes the test is closed.  Every record has an environment
    variable's name and a value that can be had, by generation, by import or by
    derivation from such records; the derived ones are given once each, in an order
    in which each comes after those it refers to.  Every variable of a service is a
    constant without a secret's shape, an imported public value, or an existing
    record; no name is both present and absent; the services of a target have
    distinct orders; and there are at most 512 variables in all. *)
Theorem valid_manifest_is_closed m derived : validate m = Ok derived →
  (∀ name, is_Some (mf_Records m !! name) → namePattern name = true ∧ slen name ≤ 128 ∧ resolves m name) ∧
  NoDup derived ∧ (∀ name, name ∈ derived ↔ ∃ refs, refers m name refs) ∧
  (∀ before name after refs ref, derived = before ++ name :: after → refers m name refs → ref ∈ refs →
    (∃ refs', refers m ref refs') → ref ∈ before) ∧
  (∀ provider t, mf_Targets m !! provider = Some t → target_ok m t) ∧
  Z.of_nat (manifest_variables m) ≤ maxVariables.
Proof. apply valid_manifest_spec. Qed.

(** ** Rotation *)

(** A credential is of a known capability, in the mode and with the operations that
    the capability has, and its record exists. *)
Definition credential_ok (m : Manifest) (c : Credential) : Prop :=
  assoc (cr_Type c) (default [] (capabilityMode (cr_Provider c))) = Some (cr_Mode c) ∧
  capabilityOperations (cr_Provider c) (cr_Type c) = (cr_Validation c, cr_Revoke c) ∧ is_Some (mf_Records m !! cr_Record c).

(** A health check is over HTTPS, asks for three successes, and for a time of at
    least 30 s that its timeout of at most 10 min covers. *)
Definition health_ok (c : HealthCheck) : Prop :=
  (∃ u, url_Parse (hc_URL c) = Some u ∧ u_Scheme u = "https" ∧ u_Host u ≠ "" ∧ u_User u = false) ∧
  200 ≤ hc_ExpectedStatus c ≤ 399 ∧ 3 ≤ hc_Successes c ∧
  ∃ least most, ParseDuration (hc_MinimumDuration c) = Some least ∧ ParseDuration (hc_Timeout c) = Some most ∧
    30 * second ≤ least ≤ most ∧ most ≤ 10 * minute.

Definition deployment_ok (m : Manifest) (name : string) (t : ManifestTarget) : Prop :=
  target_provider name t ∈ ["vercel"; "railway"] ∧ mt_ProjectID t ≠ "" ∧ mt_EnvironmentID t ≠ "" ∧
  (mf_Environment m = "production" → mt_HealthChecks t ≠ []) ∧ ∀ check, check ∈ mt_HealthChecks t → health_ok check.

(** A rotation is retried at most three times, leaves a grace period, creates nothing
    that a person must create, and activates each of its targets exactly once. *)
Record rotation_ok (m : Manifest) (policy : RotationPolicy) : Prop := {
  rk_retries : 1 ≤ ro_RetryLimit policy ≤ 3;
  rk_grace : ∃ grace, ParseDuration (ro_GracePeriod policy) = Some grace ∧
    (if String.eqb (mf_Environment m) "production" then 24 * hour else 15 * minute) ≤ grace;
  rk_credentials : ∀ name, name ∈ ro_Credentials policy → ∃ c, mf_Credentials m !! name = Some c ∧
    ("create" ∈ ro_AllowedActions policy → cr_Mode c = "automatic");
  rk_targets : ∀ name, name ∈ ro_Targets policy → is_Some (mf_Targets m !! name);
  rk_order : NoDup (ro_ActivationOrder policy) ∧ ro_ActivationOrder policy ≡ₚ ro_Targets policy;
  rk_actions : NoDup (ro_AllowedActions policy) ∧ ∀ a, a ∈ ro_AllowedActions policy → a ∈ ["create"; "validate"; "revoke"];
}.

Lemma has_duplicate_NoDup seen l : has_duplicate seen l = false → NoDup l ∧ ∀ x, x ∈ l → x ∉ seen.
Proof.
  revert seen. induction l as [|x l IH]; intros seen; [split; [constructor|by intros ? ?%elem_of_nil]|].
  cbn [has_duplicate]. intros [Hx%bool_decide_eq_false Hl]%orb_false_iff. apply IH in Hl as [Hn Hl]. split.
  - constructor; [|done]. intros Hin%Hl. set_solver.
  - intros y [->|Hy]%elem_of_cons; [done|]. apply Hl in Hy. set_solver.
Qed.

Lemma validateActions_ok path l u : validateActions path l = Ok u →
  NoDup l ∧ ∀ a, a ∈ l → a ∈ ["create"; "validate"; "revoke"].
Proof.
  unfold validateActions. rewrite reject_if_bind. intros [_ (seen & H & _)%bind_Ok].
  apply (each_with_ind (λ l (seen : gset string), (∀ a, a ∈ l ↔ a ∈ seen) ∧ NoDup l ∧ ∀ a, a ∈ l → a ∈ ["create"; "validate"; "revoke"]))
    in H as (_ & Hn & Hl); [done| |].
  - split_and!; [intros a; by rewrite elem_of_nil, elem_of_empty|constructor|by intros ? ?%elem_of_nil].
  - intros l' a seen0 seen1 _ (Hin & Hn & Hl) Ha. passed Ha. injection Ha as <-. split_and!.
    + intros n. rewrite elem_of_app, list_elem_of_singleton, elem_of_union, elem_of_singleton, Hin. tauto.
    + apply NoDup_app. split_and!; [done| |apply NoDup_singleton]. intros n Hn' ->%list_elem_of_singleton.
      apply Hin in Hn'. contradiction.
    + intros n [Hn'| ->%list_elem_of_singleton]%elem_of_app; [by apply Hl|done].
Qed.

(** As many distinct elements as the list has, all of them of the list. *)
Lemma selected_exactly_once {A} (l k : list A) : NoDup l → (∀ x, x ∈ l → x ∈ k) → List.length l = List.length k → l ≡ₚ k.
Proof.
  intros Hn Hin Hlen. apply submseteq_length_Permutation; [|lia]. by apply NoDup_submseteq.
Qed.

Lemma validate_credential_ok m name c :
  validate_credential m name = Ok tt → mf_Credentials m !! name = Some c → credential_ok m c.
Proof.
  unfold validate_credential. intros H E. rewrite E, reject_if_bind in H. destruct H as [_ H].
  destruct (assoc _ _) as [mode|] eqn:Em; [|done]. rewrite !reject_if_bind in H. destruct H as (Hm & Hr & H).
  passed Hm. passed Hr. destruct (capabilityOperations _ _) as [v r] eqn:Eo. rewrite reject_if_bind in H.
  destruct H as [Ho _]. passed Ho. unfold credential_ok. by simplify_eq.
Qed.

Lemma validateHealthCheck_ok c u : validateHealthCheck c = Ok u → health_ok c.
Proof.
  unfold validateHealthCheck. destruct (url_Parse (hc_URL c)) as [p|] eqn:Ep; [|done]. rewrite !reject_if_bind.
  intros (Hu & _ & Hs & H). passed Hu. passed Hs. destruct (ParseDuration (hc_MinimumDuration c)) as [least|] eqn:El; [|done].
  rewrite reject_if_bind in H. destruct H as [Hl H]. destruct (ParseDuration (hc_Timeout c)) as [most|] eqn:Et; [|done].
  passed Hl. passed H. split_and!; [by exists p|done|done|done|]. exists least, most. by split_and!.
Qed.

Lemma validate_deployment_ok m name t seen seen' :
  validate_deployment m (name, t) seen = Ok seen' →
  deployment_ok m name t ∧ (target_binding name t ∉ seen) ∧ seen' = {[target_binding name t]} ∪ seen.
Proof.
  unfold validate_deployment. rewrite !reject_if_bind. intros (Hp & Hi & Hb & _ & Hh & ([] & Hc & H)%bind_Ok).
  injection H as <-. passed Hp. passed Hi. passed Hb. split_and!; [|done|done].
  split_and!; [by apply member_true|done|done| |].
  - intros He Hnil. rewrite He, Hnil in Hh. done.
  - intros check Hin. apply (each_index_Ok _ _ _ _ Hc) in Hin as [j Hj%within_Ok]. by eapply validateHealthCheck_ok.
Qed.

(** The loop over the targets, in any order. *)
Lemma deployments_ok m l seen :
  each_with (validate_deployment m) l (∅ : gset string) = Ok seen →
  (∀ name t, (name, t) ∈ l → deployment_ok m name t) ∧
  ∀ n1 t1 n2 t2, (n1, t1) ∈ l → (n2, t2) ∈ l → target_binding n1 t1 = target_binding n2 t2 → n1 = n2.
Proof.
  intros H. apply (each_with_ind (λ l (seen : gset string), (∀ b, b ∈ ((λ p, target_binding p.1 p.2) <$> l) ↔ b ∈ seen) ∧
    (∀ name t, (name, t) ∈ l → deployment_ok m name t) ∧ NoDup ((λ p, target_binding p.1 p.2) <$> l))) in H as (_ & Hok & Hn).
  - split; [done|]. intros n1 t1 n2 t2 H1 H2 E.
    assert (Ep : (n1, t1) = (n2, t2)) by by eapply (NoDup_fmap_inj_on _ _ _ _ Hn). by injection Ep.
  - split_and!; [intros b; by rewrite elem_of_nil, elem_of_empty|by intros ? ? ?%elem_of_nil|constructor].
  - intros l' [name t] seen0 seen1 _ (Hin & Hok & Hn) Hv. apply validate_deployment_ok in Hv as (Ht & Hb & ->). split_and!.
    + intros b. rewrite fmap_app, elem_of_app, Hin. cbn. rewrite list_elem_of_singleton. set_solver.
    + intros n t' [Hn'|E%list_elem_of_singleton]%elem_of_app; [by apply Hok|]. by injection E as -> ->.
    + rewrite fmap_app. apply NoDup_app. split_and!; [done| |apply NoDup_singleton]. cbn.
      intros b Hb' ->%list_elem_of_singleton. apply Hin in Hb'. contradiction.
Qed.

Lemma validate_rotation_ok m name policy :
  validate_rotation m name = Ok tt → mf_RotationPolicies m !! name = Some policy → rotation_ok m policy.
Proof.
  unfold validate_rotation. intros H E. rewrite E, reject_if_bind in H. destruct H as [Hb H]. passed Hb.
  destruct (ParseDuration (ro_GracePeriod policy)) as [grace|] eqn:Eg; [|done]. rewrite !reject_if_bind in H.
  destruct H as (_ & Hprod & Hother & _ & ([] & Hcred & H)%bind_Ok). apply bind_Ok in H as ([] & Htar & H).
  apply bind_Ok in H as ([] & Hsel & H). rewrite reject_if_bind in H. destruct H as [Hord Hact]. passed Hord.
  apply validateActions_ok in Hact. apply has_duplicate_NoDup in Hord as [Hnd _]. split; try done.
  - exists grace. split; [done|]. destruct (String.eqb _ _); cbn in *; lia.
  - intros n Hn. apply (each_of_Ok _ _ _ Hcred) in Hn. destruct (mf_Credentials m !! n) as [c|]; [|done].
    exists c. split; [done|]. intros Hc%member_true. rewrite reject_if_Ok, Hc, andb_true_r in Hn. by passed Hn.
  - intros n Hn. apply (each_of_Ok _ _ _ Htar) in Hn. by passed Hn.
  - split; [done|]. apply selected_exactly_once; [done| |].
    + intros n Hn. apply (each_of_Ok _ _ _ Hsel) in Hn. by passed Hn.
    + unfold list_len in *. lia.
Qed.

(** Rotation under a manifest is bounded.  A valid manifest of version 2 gives
    every credential the mode and the operations of its provider, and an existing
    record; binds no deployment twice, and checks the health of those in production;
    and every rotation policy is of existing credentials and targets, is retried at
    most three times, keeps a grace period of 24 h in production and of 15 min
    elsewhere, creates nothing that a person must create, and activates each of its
    targets exactly once. *)
Theorem valid_rotations_are_bounded m derived : validate m = Ok derived → mf_Version m = 2 →
  mf_Environment m ∈ ["sandbox"; "staging"; "production"] ∧
  (∀ name c, mf_Credentials m !! name = Some c → credential_ok m c) ∧
  (∀ name t, mf_Targets m !! name = Some t → deployment_ok m name t) ∧
  (∀ n1 n2 t1 t2, mf_Targets m !! n1 = Some t1 → mf_Targets m !! n2 = Some t2 →
    target_binding n1 t1 = target_binding n2 t2 → n1 = n2) ∧
  (∀ name policy, mf_RotationPolicies m !! name = Some policy → rotation_ok m policy) ∧
  ∀ r, r ∈ mf_Configurations m → ∀ field value, cf_Fields r !! field = Some value →
    suspiciousSecretName (ToUpper field) = false ∧ containsURLCredentials value = false.
Proof.
  intros (dependencies & _ & _ & _ & _ & _ & _ & H)%validate_inv Hv. rewrite Hv in H. cbn [Z.eqb Pos.eqb] in H.
  unfold validateLifecycle in H. rewrite !reject_if_bind in H. destruct H as (Henv & _ & ([] & Hcred & H)%bind_Ok).
  apply bind_Ok in H as (seen & Hdep & H). rewrite reject_if_bind in H. destruct H as (_ & ([] & Hrot & H)%bind_Ok).
  rewrite reject_if_bind in H. destruct H as (_ & ([] & Hconf & _)%bind_Ok). passed Henv.
  apply deployments_ok in Hdep as [Hdep Hbind].
  split_and!; [done| | | | |].
  - intros name c E. eapply validate_credential_ok; [|done]. eapply each_of_Ok; [done|]. by rewrite elem_of_sortedMapKeys, E.
  - intros name t E. apply Hdep. by apply elem_of_map_to_list.
  - intros n1 n2 t1 t2 E1 E2. apply Hbind; by apply elem_of_map_to_list.
  - intros name p E. eapply validate_rotation_ok; [|done]. eapply each_of_Ok; [done|]. by rewrite elem_of_sortedMapKeys, E.
  - intros r Hr field value E. apply (each_index_Ok _ _ _ _ Hconf) in Hr as [j Hj]. unfold validate_configuration in Hj.
    rewrite reject_if_bind in Hj. destruct Hj as [_ Hj]. apply elem_of_map_to_list in E.
    apply (each_of_Ok _ _ _ Hj) in E. cbn in E. by passed E.
Qed.
End Targets.

(** ** An example *)

Module ManifestDemo.
(** URLs of one form suffice here. *)
#[export] Instance urls : URLs := {
  url_Parse s := if has_prefix "https://" s then
      Some {| u_Scheme := "https"; u_Opaque := ""; u_User := existsb (Ascii.eqb "@") (list_ascii_of_string s); u_Host := "host"; u_Path := "";
        u_RawQuery := ""; u_Fragment := "" |}
    else None }.
#[export] Instance unicode : Unicode := { ToUpper s := s; IsPrint c := (32 <=? c) && (c <? 127) }.

Definition check : HealthCheck := {| hc_URL := "https://host/health"; hc_Method := "GET"; hc_ExpectedStatus := 200; hc_Successes := 3;
  hc_MinimumDuration := "30s"; hc_Timeout := "2m" |}.
Definition variable_ (source value record sensitivity : string) : Variable_ :=
  {| va_Source := source; va_Value := value; va_Record := record; va_Sensitivity := sensitivity |}.
Definition service : Service := {| sv_ID := "s-1"; sv_Order := 1; sv_Absent := ["OLD_SECRET"];
  sv_Variables := {["DB_HOST" := variable_ "constant" "db" "" ""; "DB_URL" := variable_ "record" "" "DB_URL" "";
    "REGION" := variable_ "import" "" "" "public"]} |}.
Definition target : ManifestTarget := {| mt_Provider := ""; mt_Project := "app"; mt_ProjectID := "prj"; mt_Environment := "production";
  mt_EnvironmentID := "env"; mt_Services := {["web" := service]}; mt_Stage := "deploy"; mt_Activation := "promote";
  mt_HealthChecks := [check]; mt_Promotion := ""; mt_Rollback := "previous" |}.
Definition policy : PasswordPolicy := {| ppol_Type := "password"; ppol_Length := 32; ppol_Lowercase := true; ppol_Uppercase := true;
  ppol_Digits := true; ppol_Symbols := false |}.
Definition record_ (source policy template sensitivity : string) : ManifestRecord :=
  {| mr_Source := source; mr_Policy := policy; mr_Template := template; mr_Sensitivity := sensitivity |}.
Definition credential : Credential := {| cr_Provider := "stripe"; cr_Type := "webhook-signing-secret"; cr_Mode := "automatic";
  cr_Record := "HOOK"; cr_Validation := "webhook-delivery"; cr_Revoke := "delete-endpoint"; cr_Actions := ["create"; "revoke"] |}.
Definition rotation : RotationPolicy := {| ro_Credentials := ["hook"]; ro_Targets := ["vercel"]; ro_Schedule := "monthly";
  ro_GracePeriod := "24h"; ro_RetryLimit := 3; ro_ActivationOrder := ["vercel"]; ro_AllowedActions := ["create"; "revoke"];
  ro_Rollback := "restore" |}.
Definition manifest : Manifest := {| mf_Version := 2; mf_Bundle := "acme/app"; mf_Environment := "production";
  mf_Policies := {["strong" := policy]};
  mf_Records := {["DB_PASSWORD" := record_ "generate" "strong" "" ""; "HOOK" := record_ "import" "" "" "secret";
    "DB_URL" := record_ "derive" "" "postgres://app:${secret:DB_PASSWORD}@db/${secret:DB_NAME}" "";
    "DB_NAME" := record_ "derive" "" "app" ""]};
  mf_Targets := {["vercel" := target]}; mf_Credentials := {["hook" := credential]};
  mf_RotationPolicies := {["monthly" := rotation]}; mf_Configurations := []; mf_BrowserRecipes := [] |}.

Lemma manifest_valid : validate manifest = Ok ["DB_NAME"; "DB_URL"].
Proof. vm_compute. reflexivity. Qed.

(** A secret as a constant is refused. *)
Example secret_constant_refused : validateVariable "API_KEY" (variable_ "constant" "x" "" "") ∅ =
  Err "secret-shaped names and credential-bearing URLs cannot use public constants".
Proof. vm_compute. reflexivity. Qed.

Lemma valid_manifest_is_closed_witness : resolves manifest "DB_URL" ∧ NoDup ["DB_NAME"; "DB_URL"].
Proof.
  destruct (valid_manifest_is_closed manifest _ manifest_valid) as (H & Hn & _). split; [|exact Hn].
  apply H. by eexists.
Defined.
Lemma valid_rotations_are_bounded_witness : rotation_ok manifest rotation.
Proof.
  destruct (valid_rotations_are_bounded manifest _ manifest_valid eq_refl) as (_ & _ & _ & _ & H & _).
  by apply (H "monthly").
Defined.
End ManifestDemo.
