(* ===== verification/Filepath.v ===== *)
(** The path/filepath package of Go's standard library on Unix, as far as the code
    uses it: lexical operations on slash-separated paths. *)
From S2P Require Import Prelude Text.
From stdpp Require Import options.

Definition slash : ascii := "/".

Definition IsAbs (path : string) : bool := has_prefix "/" path.

(** The elements that are left of a path when [.], empty elements and [..] after an
    element are removed; the last one first.  At the root [..] stays there. *)
Definition clean_element (rooted : bool) (stack : list string) (element : string) : list string :=
  if String.eqb element "" || String.eqb element "." then stack
  else if String.eqb element ".." then
    match stack with
    | top :: below => if String.eqb top ".." then ".." :: stack else below
    | [] => if rooted then [] else [".."]
    end
  else element :: stack.

Definition elements (path : string) : list string :=
  reverse (foldl (clean_element (IsAbs path)) [] (split_on slash path)).

Definition join_elements (l : list string) : string := String.concat "/" l.

Definition Clean (path : string) : string :=
  let cleaned := (if IsAbs path then "/" else "") +:+ join_elements (elements path) in
  if nonempty cleaned then cleaned else ".".

(** [filepath.Join] of two texts. *)
Definition Join (dir name : string) : string :=
  if nonempty dir then Clean (dir +:+ "/" +:+ name) else if nonempty name then Clean name else "".

(** [filepath.Dir] *)
Definition Dir (path : string) : string :=
  match cut_last slash path with Some (before, _) => Clean (before +:+ "/") | None => "." end.

Definition Base (path : string) : string :=
  if negb (nonempty path) then "."
  else
    let stripped := trim_right (Ascii.eqb slash) path in
    if nonempty stripped then List.last (split_on slash stripped) "" else "/".

(** [filepath.SplitList] *)
Definition SplitList (path : string) : list string := if nonempty path then split_on ":" path else [].

(** What is left of two lists after their common beginning. *)
Fixpoint strip_common (a b : list string) : list string * list string :=
  match a, b with
  | x :: a', y :: b' => if String.eqb x y then strip_common a' b' else (a, b)
  | _, _ => (a, b)
  end.

(** [filepath.Rel]: nothing when one path is rooted and the other is not, or when
    the way up from [basepath] is not known. *)
Definition Rel (basepath targpath : string) : option string :=
  if negb (Bool.eqb (IsAbs basepath) (IsAbs targpath)) then None
  else
    match strip_common (elements basepath) (elements targpath) with
    | ([], []) => Some "."
    | (up :: rest, down) =>
        if String.eqb up ".." && match down with [] => false | _ => true end then None
        else Some (join_elements (replicate (S (List.length rest)) ".." ++ down))
    | ([], down) => Some (join_elements down)
    end.

(** ** Properties *)

Definition no_slash (s : string) : bool := all_bytes (λ c, negb (Ascii.eqb slash c)) s.

(** An element of a cleaned rooted path. *)
Definition plain_element (e : string) : Prop := e ≠ "" ∧ e ≠ "." ∧ e ≠ ".." ∧ no_slash e = true.

Lemma split_on_no_slash s : Forall (λ e, no_slash e = true) (split_on slash s).
Proof.
  induction s as [|c s IH]; [by constructor|]. cbn [split_on]. rewrite Ascii.eqb_sym.
  destruct (Ascii.eqb slash c) eqn:E; [by constructor|].
  destruct (split_on slash s) as [|first others]; [by constructor; [unfold no_slash; cbn [all_bytes]; rewrite E|]|].
  inversion IH as [|? ? Hf Ho]; subst. constructor; [|done]. unfold no_slash in *. cbn [all_bytes]. by rewrite E.
Qed.

Lemma elements_plain path : IsAbs path = true → Forall plain_element (elements path).
Proof.
  intros Habs. unfold elements. rewrite Habs. apply Forall_reverse. pose proof (split_on_no_slash path) as Hns.
  enough (H : ∀ l stack, Forall (λ e, no_slash e = true) l → Forall plain_element stack →
    Forall plain_element (foldl (clean_element true) stack l)) by (by apply H).
  induction l as [|e l IH]; intros stack Hl Hs; [done|]. inversion Hl as [|? ? He Hl']; subst. cbn [foldl]. apply IH; [done|].
  unfold clean_element. destruct (String.eqb_spec e "") as [|Hn]; [done|]. cbn [orb].
  destruct (String.eqb_spec e ".") as [|Hd]; [done|]. destruct (String.eqb_spec e "..") as [|Hdd]; [|by constructor].
  destruct stack as [|top below]; [done|]. inversion Hs as [|? ? Ht Hb]; subst.
  destruct (String.eqb_spec top "..") as [->|]; [|done]. by destruct Ht as (_ & _ & ? & _).
Qed.

Lemma strip_common_spec a b : ∃ common, a = common ++ (strip_common a b).1 ∧ b = common ++ (strip_common a b).2.
Proof.
  revert b. induction a as [|x a IH]; intros b; [by exists []|]. destruct b as [|y b]; [by exists []|]. cbn.
  destruct (String.eqb_spec x y) as [<-|]; [|by exists []]. destruct (IH b) as (common & Ea & Eb).
  exists (x :: common). cbn. by rewrite <-Ea, <-Eb.
Qed.

Lemma strip_common_nil a b : (strip_common a b).1 = [] ↔ a `prefix_of` b.
Proof.
  split.
  - intros E. destruct (strip_common_spec a b) as (common & Ea & Eb). rewrite E, app_nil_r in Ea. subst common. by eexists.
  - intros [k ->]. induction a as [|x a IH]; [done|]. cbn. by rewrite String.eqb_refl.
Qed.

Lemma join_elements_cons e l : join_elements (e :: l) = e +:+ match l with [] => "" | _ => "/" +:+ join_elements l end.
Proof. destruct l; [by rewrite string_app_nil_r|done]. Qed.

(** [rel] as [under] tests it. *)
Definition goes_up (rel : string) : bool := String.eqb rel ".." || has_prefix "../" rel.

Lemma goes_up_true s : goes_up s = true → ∃ t, s = String "." (String "." t) ∧ (t = "" ∨ ∃ u, t = String slash u).
Proof.
  unfold goes_up. intros [->%String.eqb_eq|H]%orb_true_iff; [by exists ""; split; [|left]|].
  destruct s as [|c1 [|c2 [|c3 u]]]; cbn [has_prefix] in H; rewrite ?andb_false_r in H; try done.
  apply andb_true_iff in H as [<-%Ascii.eqb_eq H]. apply andb_true_iff in H as [<-%Ascii.eqb_eq H].
  apply andb_true_iff in H as [<-%Ascii.eqb_eq _]. exists (String "/" u). split; [done|]. right. by exists u.
Qed.

Lemma goes_up_down e l : plain_element e → goes_up (join_elements (e :: l)) = false.
Proof.
  intros (He & Hd & Hdd & Hns). apply not_true_iff_false. intros (t & E & Ht)%goes_up_true. rewrite join_elements_cons in E.
  assert (Hrest : ∃ u, join_elements (e :: l) = e +:+ u ∧ (u = "" ∨ ∃ v, u = String slash v)).
  { rewrite join_elements_cons. destruct l; eexists; (split; [done|]); [by left|right; by eexists]. }
  rewrite join_elements_cons in Hrest. destruct Hrest as (u & Eu & Hu). rewrite Eu in E.
  destruct e as [|c1 [|c2 e]]; [done| |].
  - rewrite string_app_cons in E. injection E as -> E. destruct Hu as [-> | [v ->]]; [|done]. done.
  - rewrite !string_app_cons in E. injection E as -> -> E. destruct e as [|c3 e]; [done|].
    rewrite string_app_cons in E. destruct Ht as [-> | [v ->]]; [done|]. injection E as -> E. done.
Qed.

(** One rooted path is under another exactly when the elements of the one begin with
    those of the other. *)
Lemma Rel_under path dir : IsAbs path = true → IsAbs dir = true →
  match Rel dir path with Some rel => negb (goes_up rel) | None => false end =
    bool_decide (elements dir `prefix_of` elements path).
Proof.
  intros Hp Hd. unfold Rel. rewrite Hp, Hd. cbn [Bool.eqb negb]. pose proof (strip_common_nil (elements dir) (elements path)) as Hnil.
  destruct (strip_common_spec (elements dir) (elements path)) as (common & Ed & Ep).
  destruct (strip_common (elements dir) (elements path)) as [[|up rest] down]; cbn [fst snd] in *.
  - rewrite bool_decide_eq_true_2 by by apply Hnil. destruct down as [|e down]; [done|]. rewrite goes_up_down; [done|].
    pose proof (elements_plain path Hp) as Hpl. rewrite Ep in Hpl. apply Forall_app in Hpl as [_ Hpl]. by inversion Hpl.
  - rewrite bool_decide_eq_false_2 by (intros ?%Hnil; done).
    pose proof (elements_plain dir Hd) as Hpl. rewrite Ed in Hpl. apply Forall_app in Hpl as [_ Hpl].
    inversion Hpl as [|? ? (_ & _ & Hup & _) _]; subst. destruct (String.eqb_spec up "..") as [|_]; [done|]. cbn [andb replicate app].
    rewrite join_elements_cons. unfold goes_up. by destruct (replicate (List.length rest) ".." ++ down).
Qed.

Example clean_examples : (Clean "/a//b/./../c/..", Clean "../a/..", Join "/srv" "../x/y", Base "/a/b//", Clean "/../") =
  ("/a", "..", "/x/y", "b", "/").
Proof. vm_compute. reflexivity. Qed.
Example rel_examples : (Rel "/a/b" "/a/b/c", Rel "/a/b" "/a/bc", Rel "/a" "/", Rel "/" "/a") = (Some "c", Some "../bc", Some "..", Some "a").
Proof. vm_compute. reflexivity. Qed.

(** ** Clean rooted paths *)

Definition path_of (l : list string) : string := "/" +:+ join_elements l.

Lemma no_slash_contains e : no_slash e = true → contains_byte slash e = false.
Proof.
  induction e as [|c e IH]; [done|]. unfold no_slash. cbn [all_bytes contains_byte]. intros [Hc He]%andb_true_iff.
  apply negb_true_iff in Hc. rewrite Hc. by apply IH.
Qed.

Lemma split_on_slash a b : split_on slash (a +:+ "/" +:+ b) = split_on slash a ++ split_on slash b.
Proof.
  induction a as [|c a IH]; [by rewrite string_app_nil_l|]. rewrite string_app_cons. cbn [split_on].
  destruct (Ascii.eqb c slash); [by rewrite IH|]. rewrite IH. by destruct (split_on slash a) as [|first others] eqn:E; [destruct a; cbn in E; repeat case_match|].
Qed.

Lemma split_on_element e : no_slash e = true → split_on slash e = [e].
Proof.
  induction e as [|c e IH]; [done|]. unfold no_slash. cbn [all_bytes split_on]. intros [Hc He]%andb_true_iff.
  apply negb_true_iff in Hc. rewrite Ascii.eqb_sym, Hc. by rewrite IH.
Qed.

Lemma split_on_join l : Forall plain_element l → l ≠ [] → split_on slash (join_elements l) = l.
Proof.
  induction 1 as [|e l (_&_&_&He) Hl IH]; [done|]. intros _. rewrite join_elements_cons. destruct l as [|e' l]; [by rewrite string_app_nil_r, split_on_element|].
  by rewrite split_on_slash, split_on_element, IH.
Qed.

Lemma clean_plain stack l : Forall plain_element l → foldl (clean_element true) stack l = reverse l ++ stack.
Proof.
  revert stack. induction l as [|e l IH]; intros stack; [done|]. intros [(He&Hd&Hdd&_) Hl]%Forall_cons. cbn [foldl].
  unfold clean_element at 2. apply String.eqb_neq in He, Hd, Hdd. rewrite He, Hd, Hdd. cbn [orb]. rewrite IH by done. by rewrite reverse_cons, <-(assoc_L app).
Qed.

Lemma elements_path l : Forall plain_element l → elements (path_of l) = l.
Proof.
  intros Hl. unfold elements, path_of. rewrite <-(string_app_nil_l ("/" +:+ _)), split_on_slash. change (IsAbs _) with true.
  destruct l as [|e l]; [done|]. rewrite split_on_join by done. change (split_on slash "") with [""]. cbn [app].
  change (foldl _ [] ("" :: e :: l)) with (foldl (clean_element true) [] (e :: l)). by rewrite clean_plain, (right_id_L [] (++)), reverse_involutive.
Qed.

Lemma Clean_rooted path : IsAbs path = true → Clean path = path_of (elements path).
Proof. intros H. unfold Clean. by rewrite H. Qed.

Lemma Clean_path l : Forall plain_element l → Clean (path_of l) = path_of l.
Proof. intros H. by rewrite Clean_rooted, elements_path. Qed.

(** A clean rooted path is that of its elements. *)
Lemma clean_is_path path : IsAbs path = true → Clean path = path → path = path_of (elements path) ∧ Forall plain_element (elements path).
Proof. intros Ha Hc. split; [by rewrite <-Clean_rooted, Hc|by apply elements_plain]. Qed.

Lemma elements_append l e : Forall plain_element l → plain_element e → elements (path_of l +:+ "/" +:+ e) = l ++ [e].
Proof.
  intros Hl He. unfold elements. change (IsAbs (path_of l +:+ _)) with true. rewrite split_on_slash.
  assert (Hs : foldl (clean_element true) [] (split_on slash (path_of l)) = reverse l).
  { pose proof (elements_path l Hl) as H. unfold elements in H. change (IsAbs (path_of l)) with true in H. apply (f_equal reverse) in H. by rewrite reverse_involutive in H. }
  rewrite foldl_app, Hs. rewrite split_on_element by apply He. rewrite (clean_plain _ [e]) by (by constructor). by rewrite reverse_app, !reverse_involutive.
Qed.

Lemma Join_path l e : Forall plain_element l → plain_element e → Join (path_of l) e = path_of (l ++ [e]).
Proof. intros Hl He. unfold Join. cbn [path_of nonempty]. change (nonempty (path_of l)) with true. cbv iota. by rewrite Clean_rooted, elements_append. Qed.

Lemma path_of_snoc l e : path_of (l ++ [e]) = (match l with [] => "" | _ => path_of l end) +:+ "/" +:+ e.
Proof.
  unfold path_of. destruct l as [|x l]; [done|]. rewrite !string_app_assoc. f_equal. revert x. induction l as [|y l IH]; intros x; [done|].
  cbn [app]. rewrite !(join_elements_cons x). cbn [app] in *. rewrite IH. cbn [app]. by rewrite !string_app_assoc.
Qed.

Lemma Dir_root : Dir (path_of []) = path_of [].
Proof. by vm_compute. Qed.

Lemma Dir_path l e : Forall plain_element l → plain_element e → Dir (path_of (l ++ [e])) = path_of l.
Proof.
  intros Hl (_&_&_&He). unfold Dir. rewrite path_of_snoc, cut_last_at by (by apply no_slash_contains).
  destruct l as [|x l]; [done|]. set (l' := x :: l) in *. rewrite <-(string_app_nil_r "/").
  rewrite Clean_rooted by done. f_equal. unfold elements. change (IsAbs _) with true. rewrite split_on_slash, foldl_app.
  pose proof (elements_path l' Hl) as H. unfold elements in H. change (IsAbs (path_of l')) with true in H. exact H.
Qed.
