(* ===== verification/Command.v ===== *)
(** The command that an agent asks to run, as the owner approves it:
    internal/agentbroker/command.go and the limits of protocol.go. *)
From S2P Require Import Prelude Text Secure Redactor Filepath.
From stdpp Require Import options.

Module Limits.
Definition RequestBytes : Z := 65536.
Definition Argv : Z := 64.
Definition ArgBytes : Z := 4096.
Definition Secrets : Z := 16.
Definition ReasonBytes : Z := 300.
Definition CaptureBytes : Z := 4194304.
Definition ReturnBytes : Z := 262144.
Definition DefaultTimeout : Z := 120 * 1000000000.
Definition MaxTimeout : Z := 1800 * 1000000000.
Definition MinValueBytes : Z := 8.
Definition MaxValueBytes : Z := 65536.
Definition ConcurrentRuns : nat := 4.
Definition QueuedPrompts : nat := 4.
End Limits.

Definition displayBytes : Z := 8192.

Record BoundFile := { bf_Path : string; bf_SHA256 : string }.
#[export] Instance BoundFile_eq_dec : EqDecision BoundFile.
Proof. solve_decision. Defined.
Record Command := {
  cmd_Executable : string; cmd_Args : list string; cmd_Dir : string; cmd_Secrets : list string;
  cmd_ExecutableSHA256 : string; cmd_Interpreter : string; cmd_InterpreterSHA256 : string;
  cmd_Files : list BoundFile; cmd_Warnings : list string; cmd_AlwaysAllowed : bool;
}.
#[export] Instance Command_eq_dec : EqDecision Command.
Proof. solve_decision. Defined.

(** ** Names of programs *)

Definition within_set (l : list string) (s : string) : bool := existsb (String.eqb s) l.

Definition shells : list string := ["sh"; "bash"; "zsh"; "dash"; "ksh"; "mksh"; "fish"; "csh"; "tcsh"; "pwsh"; "powershell"].

Definition inlineFlags (program : string) : list string :=
  if within_set ["python"; "python3"; "python2"; "pypy"; "pypy3"] program then ["-c"]
  else if String.eqb program "node" then ["-e"; "--eval"; "-p"; "--print"; "-r"; "--require"; "--import"; "--loader"]
  else if String.eqb program "deno" then ["eval"]
  else if String.eqb program "bun" then ["-e"; "--eval"; "-p"; "--print"; "-r"; "--preload"]
  else if String.eqb program "ruby" then ["-e"; "-r"]
  else if String.eqb program "perl" then ["-e"; "-E"; "-M"; "-m"]
  else if String.eqb program "php" then ["-r"; "-B"; "-R"; "-E"; "-F"]
  else if String.eqb program "osascript" then ["-e"]
  else if String.eqb program "lua" then ["-e"; "-l"]
  else if within_set ["awk"; "gawk"; "mawk"; "nawk"; "tclsh"] program then [""]
  else if within_set ["Rscript"; "R"] program then ["-e"]
  else if String.eqb program "git" then ["-c"; "--config-env"]
  else if String.eqb program "find" then ["-exec"; "-execdir"; "-ok"; "-okdir"; "-fprintf"]
  else [].

Definition refused : list string :=
  ["env"; "printenv"; "export"; "declare"; "sudo"; "doas"; "su"; "xargs"; "eval"; "exec"; "command"; "nohup"; "script"; "strace"; "dtruss"; "lldb"; "gdb";
   "timeout"; "gtimeout"; "nice"; "time"; "stdbuf"; "caffeinate"; "arch"; "busybox"; "toybox"; "chroot"; "unbuffer"; "watch"; "ionice"; "taskset";
   "flock"; "setsid"; "sg"; "runuser"; "ssh"; "launchctl"; "open"; "sandbox-exec"; "parallel"; "entr";
   "vim"; "vi"; "nvim"; "ex"; "view"; "emacs"; "nano"; "jq"; "yq"; "gojq"; "sed"; "gsed"].

Definition runsProjectCode : list string :=
  ["npm"; "npx"; "pnpm"; "yarn"; "bun"; "deno"; "node"; "python"; "python3"; "ruby"; "perl"; "php"; "make"; "just"; "cargo"; "go"; "gradle"; "mvn";
   "bundle"; "rake"; "uv"; "poetry"; "pip"; "pip3"; "tsx"; "ts-node"; "git"; "lua"; "Rscript"].

Definition versionless (name : string) : string := trim_right (λ c, is_digit c || Ascii.eqb c ".") name.

(** ** Arguments *)

(** [len(a) > 1 && a[0] == '-' && a[1] != '-'], and then the text after the dash. *)
Definition short_flags (a : string) : option string :=
  match a with
  | String d (String c _ as rest) => if Ascii.eqb d "-" && negb (Ascii.eqb c "-") then Some rest else None
  | _ => None
  end.
Definition in_cluster (flag : ascii) (a : string) : bool :=
  match short_flags a with Some flags => contains_byte flag flags | None => false end.

Fixpoint hasShortFlag (args : list string) (flag : ascii) : bool :=
  match args with
  | [] => false
  | a :: rest =>
      if String.eqb a "--" then false
      else if in_cluster flag a then true
      else if String.eqb a "--command" then true
      else hasShortFlag rest flag
  end.

(** The letter of a flag of one letter. *)
Definition single_flag (flag : string) : option ascii :=
  match flag with
  | String d (String c EmptyString) => if Ascii.eqb d "-" && negb (Ascii.eqb c "-") then Some c else None
  | _ => None
  end.

Definition containsArg (args : list string) (flag : string) : bool :=
  existsb (λ a, String.eqb a flag || has_prefix (flag +:+ "=") a ||
    match single_flag flag with
    | Some c => in_cluster c a
    | None => has_prefix "--" flag && has_prefix flag a
    end) args.

Definition ValidName (name : string) : bool :=
  match name with
  | EmptyString => false
  | String first rest =>
      (slen name <=? 128) && (Ascii.eqb first "_" || is_upper first || is_lower first) &&
      all_bytes (λ c, Ascii.eqb c "_" || is_upper c || is_lower c || is_digit c) rest
  end.

(** ** Files *)

(** [os.Stat]: the kind of the file, whether a permission bit to execute is set,
    and its size. *)
Record FileInfo := { fi_IsDir : bool; fi_IsRegular : bool; fi_Executable : bool; fi_Size : Z }.

(** The file system while a command is resolved. *)
Record FileSystem := { EvalSymlinks : string → option string; Stat : string → option FileInfo; ReadFile : string → option string }.

Fixpoint first_bytes (n : Z) (s : string) : string :=
  match s with String c rest => if 0 <? n then String c (first_bytes (n - 1) rest) else "" | EmptyString => "" end.

(** [strings.Fields]: the words of runes. *)
Fixpoint words (word : string) (l : list string) : list string :=
  match l with
  | [] => if nonempty word then [word] else []
  | r :: l => if is_space r then (if nonempty word then word :: words "" l else words "" l) else words (word +:+ r) l
  end.
Definition Fields (s : string) : list string := words "" (runes s).

Definition under (path dir : string) : bool :=
  match Rel dir path with
  | Some rel => negb (String.eqb rel "..") && negb (has_prefix "../" rel)
  | None => false
  end.

Section Resolve.
Context {crypto : Crypto} (fs : FileSystem).

Definition fileSHA256 (path : string) : option string :=
  content ← ReadFile fs path; Some (hex (sha256 (first_bytes 1073741824 content))).

Definition executable_file (info : FileInfo) : bool := fi_IsRegular info && fi_Executable info.

Fixpoint look_in (dirs : list string) (name : string) : option string :=
  match dirs with
  | [] => None
  | dir :: rest =>
      if negb (nonempty dir) || negb (IsAbs dir) then look_in rest name
      else
        let candidate := Join dir name in
        match Stat fs candidate with
        | Some info => if executable_file info then Some candidate else look_in rest name
        | None => look_in rest name
        end
  end.
Definition lookPath (name path : string) : option string := look_in (SplitList path) name.

Definition shebang (path : string) : option string :=
  content ← ReadFile fs path;
  let head := first_bytes 256 content in
  if has_prefix "#!" head then Some (TrimSpace (List.hd "" (split_on lf (drop_bytes 2 head)))) else None.

(** Another error than nothing. *)
Definition or_refuse {A} (o : option A) (reason : string) : result A :=
  match o with Some a => Ok a | None => Err reason end.

Definition resolveInterpreter (line path : string) : result string :=
  match Fields line with
  | [] => Err "script has an empty interpreter line"
  | interp :: rest =>
      '(interp, rest) ← (if String.eqb (Base interp) "env" then
          match rest with
          | [] => Err "env shebang with options cannot be approved"
          | name :: rest =>
              _ ← reject_if (has_prefix "-" name) "env shebang with options cannot be approved";
              found ← or_refuse (lookPath name path) "script interpreter not found on the broker PATH";
              Ok (found, rest)
          end
        else Ok (interp, rest));
      real ← or_refuse (EvalSymlinks fs interp) "script interpreter not found";
      let base := versionless (Base real) in
      _ ← reject_if (within_set refused base || (within_set shells base && hasShortFlag rest "c"))
            "script interpreter cannot be approved";
      _ ← reject_if (existsb (λ f, negb (nonempty f) || containsArg rest f) (inlineFlags base))
            "script interpreter flags cannot be approved";
      Ok real
  end.

(** The refusals of a program by its name. *)
Definition refuse_program (args : list string) (b : string) : result unit :=
  _ ← reject_if (within_set refused b) "this executable prints or forwards the environment and cannot be approved";
  _ ← reject_if (within_set shells b && hasShortFlag args "c") "inline shell code (-c) cannot be approved; put it in a script file";
  reject_if (existsb (λ f, negb (nonempty f) || containsArg args f) (inlineFlags b))
    "inline interpreter code cannot be approved; put it in a script file".

Fixpoint refuse_programs (args names : list string) : result unit :=
  match names with [] => Ok tt | b :: rest => _ ← refuse_program args b; refuse_programs args rest end.

(** The loop over the arguments: the files that are bound, and whether one of them
    is in the working directory. *)
Fixpoint bind_files (realDir : string) (args : list string) (files : list BoundFile) (projectCode : bool) :
    result (list BoundFile * bool) :=
  match args with
  | [] => Ok (files, projectCode)
  | a :: rest =>
      let candidate := if IsAbs a then a else Join realDir a in
      match EvalSymlinks fs candidate with
      | None => bind_files realDir rest files projectCode
      | Some real =>
          match Stat fs real with
          | None => bind_files realDir rest files projectCode
          | Some st =>
              if negb (fi_IsRegular st) then bind_files realDir rest files projectCode
              else
                _ ← reject_if ((32 <=? List.length files)%nat || (268435456 <? fi_Size st))
                      "too many or too large file arguments to bind to the approval";
                h ← or_refuse (fileSHA256 real) "a file argument could not be read";
                bind_files realDir rest (files ++ [{| bf_Path := real; bf_SHA256 := h |}]) (projectCode || under real realDir)
          end
      end
  end.

Fixpoint valid_names (names : list string) : bool :=
  match names with
  | [] => true
  | n :: rest => ValidName n && match rest with m :: _ => negb (String.eqb n m) | [] => true end && valid_names rest
  end.

Definition total_bytes (argv : list string) : Z := foldr (λ a n, slen a + n) 0 argv.

(** The executable before its links are followed. *)
Definition locate (realDir exe path : string) : result string :=
  if IsAbs exe then Ok exe
  else if contains_byte slash exe then Ok (Join realDir exe)
  else or_refuse (lookPath exe path) "executable not found on the broker PATH".

Definition script_warning : string := "runs scripts or project code an agent may have edited; that code receives the secret values".
Definition directory_warning : string := "the executable is inside the working directory, which an agent may modify".

Definition warnings_of (projectCode inDir : bool) : list string :=
  (if projectCode then [script_warning] else []) ++ (if inDir then [directory_warning] else []).

Definition ResolveCommand (argv : list string) (dir : string) (secrets : list string) (path : string) : result Command :=
  match argv with
  | [] => Err "argv and at least one secret are required"
  | exe :: args =>
      _ ← reject_if ((Limits.Argv <? Z.of_nat (List.length argv)) || (Z.of_nat (List.length secrets) =? 0) ||
            (Limits.Secrets <? Z.of_nat (List.length secrets))) "argv and at least one secret are required";
      _ ← reject_if (existsb (λ a, (Limits.ArgBytes <? slen a) || contains_byte "000" a) argv) "argument too long or contains NUL";
      _ ← reject_if (displayBytes <? total_bytes argv + slen dir) "command too long to show the owner in full";
      _ ← reject_if (negb (nonempty dir) || negb (IsAbs dir)) "an absolute working directory is required";
      realDir ← or_refuse (EvalSymlinks fs dir) "working directory not found";
      info ← or_refuse (Stat fs realDir) "working directory not found";
      _ ← reject_if (negb (fi_IsDir info)) "working directory not found";
      let names := sort_strings secrets in
      _ ← reject_if (negb (valid_names names)) "secret names must be valid and unique";
      located ← locate realDir exe path;
      realExe ← or_refuse (EvalSymlinks fs located) "executable not found";
      info ← or_refuse (Stat fs realExe) "executable is not a regular executable file";
      _ ← reject_if (negb (executable_file info)) "executable is not a regular executable file";
      let base := Base realExe in
      let named := Base exe in
      _ ← refuse_programs args [base; named; versionless base; versionless named];
      let projectCode := within_set runsProjectCode (versionless base) || within_set runsProjectCode (versionless named) ||
        within_set shells base || within_set shells named in
      sum ← or_refuse (fileSHA256 realExe) "executable could not be read";
      '(interpreter, interpreterSum, projectCode) ← (match shebang realExe with
        | None => Ok ("", "", projectCode)
        | Some interp =>
            resolved ← resolveInterpreter interp path;
            interpreterSum ← or_refuse (fileSHA256 resolved) "script interpreter could not be read";
            Ok (resolved, interpreterSum, true)
        end);
      '(files, projectCode) ← bind_files realDir args [] projectCode;
      let inDir := under realExe realDir in
      Ok {| cmd_Executable := realExe; cmd_Args := args; cmd_Dir := realDir; cmd_Secrets := names;
        cmd_ExecutableSHA256 := sum; cmd_Interpreter := interpreter; cmd_InterpreterSHA256 := interpreterSum;
        cmd_Files := files;
        cmd_Warnings := warnings_of projectCode inDir;
        cmd_AlwaysAllowed := negb projectCode && negb inDir |}
  end.

(** ** The key of an approval *)

(** [json.Marshal] of a slice; nil for no element. *)
Fixpoint json_elements {A} (enc : A → string) (x : A) (l : list A) : string :=
  match l with [] => enc x +:+ "]" | y :: l => enc x +:+ "," +:+ json_elements enc y l end.
Definition json_slice {A} (enc : A → string) (l : list A) : string :=
  match l with [] => "null" | x :: l => "[" +:+ json_elements enc x l end.
Definition quoted (name : string) : string := String quote (name +:+ String quote "").
Definition json_file (f : BoundFile) : string :=
  "{" +:+ quoted "Path" +:+ ":" +:+ json_string (bf_Path f) +:+ "," +:+ quoted "SHA256" +:+ ":" +:+ json_string (bf_SHA256 f) +:+ "}".

Definition approval_text (c : Command) : string :=
  "[" +:+ json_string (cmd_Executable c) +:+ "," +:+ json_string (cmd_ExecutableSHA256 c) +:+ "," +:+
  json_string (cmd_Interpreter c) +:+ "," +:+ json_string (cmd_InterpreterSHA256 c) +:+ "," +:+
  json_slice json_file (cmd_Files c) +:+ "," +:+ json_slice json_string (cmd_Args c) +:+ "," +:+
  json_string (cmd_Dir c) +:+ "," +:+ json_slice json_string (cmd_Secrets c) +:+ "]".
Definition ApprovalKey (c : Command) : string := hex (sha256 (approval_text c)).

Definition Verify (approved : Command) (argv : list string) (dir : string) (secrets : list string) (path : string) : result unit :=
  now ← ResolveCommand argv dir secrets path;
  reject_if (negb (String.eqb (ApprovalKey now) (ApprovalKey approved))) "the command or a file it uses changed after approval".
End Resolve.

(** What an approval of a command binds: its key determines the command, and a
    resolved command is what the request names. *)

(** ** Unambiguous encodings *)

(** An encoding that can be read off the front of a text. *)
Definition unambiguous {A} (P : A → Prop) (enc : A → string) : Prop :=
  ∀ a b t u, P a → P b → enc a +:+ t = enc b +:+ u → a = b ∧ t = u.

Lemma string_app_inv_head (a t u : string) : a +:+ t = a +:+ u → t = u.
Proof. induction a as [|c a IH]; [done|]. rewrite !string_app_cons. intros [= E]. by apply IH. Qed.

(** *** Runes *)

(** The shape of the runes of a text. *)
Definition rune_shape (r : string) : Prop :=
  match r with
  | String a (String b more) =>
      second_byte a b = true ∧ all_bytes continuation more = true ∧ 194 ≤ code a ∧ slen r = rune_width a
  | String _ EmptyString => True
  | EmptyString => False
  end.

Lemma rune_width_high a : rune_width a ≠ 1 → 194 ≤ code a.
Proof. unfold rune_width, in_bytes. repeat case_match; rewrite ?andb_true_iff, ?Z.leb_le in *; lia. Qed.

Lemma runes_shape s : Forall rune_shape (runes s) ∧ concat_str (runes s) = s.
Proof.
  remember (String.length s) as n eqn:En. assert (Hn : (String.length s ≤ n)%nat) by lia. clear En. revert s Hn.
  induction n as [|n IH]; intros [|a s] Hn; try (by cbn in Hn; lia); try (by split; [constructor|]).
  assert (Hsingle : Forall rune_shape (String a "" :: runes s) ∧ concat_str (String a "" :: runes s) = String a s).
  { destruct (IH s) as [Hf Hc]; [cbn in Hn; lia|]. split; [by constructor|].
    change (String a "" +:+ concat_str (runes s) = String a s). by rewrite Hc. }
  cbn [runes]. destruct (Z.eqb_spec (rune_width a) 1) as [|Hw1]; [exact Hsingle|]. destruct s as [|b s]; [exact Hsingle|].
  destruct (second_byte a b) eqn:Eb; cbn [negb]; [|exact Hsingle].
  pose proof (rune_width_high a Hw1) as Ha.
  destruct (Z.eqb_spec (rune_width a) 2) as [Hw2|Hw2].
  { destruct (IH s) as [Hf Hc]; [cbn in Hn; lia|]. split.
    - constructor; [|done]. split_and!; [done|done|done|by rewrite Hw2].
    - change (String a (String b "") +:+ concat_str (runes s) = String a (String b s)). by rewrite Hc. }
  destruct s as [|c s]; [exact Hsingle|].
  destruct (continuation c) eqn:Ec; cbn [negb]; [|exact Hsingle].
  destruct (Z.eqb_spec (rune_width a) 3) as [Hw3|Hw3].
  { destruct (IH s) as [Hf Hc]; [cbn in Hn; lia|]. split.
    - constructor; [|done]. split_and!; [done|cbn; by rewrite Ec|done|by rewrite Hw3].
    - change (String a (String b (String c "")) +:+ concat_str (runes s) = String a (String b (String c s))). by rewrite Hc. }
  destruct s as [|d s]; [exact Hsingle|].
  destruct (continuation d) eqn:Ed; cbn [negb]; [|exact Hsingle].
  destruct (IH s) as [Hf Hc]; [cbn in Hn; lia|]. split.
  - constructor; [|done]. split_and!; [done|cbn; by rewrite Ec, Ed|done|].
    unfold rune_width in *. by repeat case_match.
  - change (String a (String b (String c (String d ""))) +:+ concat_str (runes s) = String a (String b (String c (String d s)))).
    by rewrite Hc.
Qed.

(** Reading the first rune of a JSON string. *)
Definition unescape (c : ascii) : ascii :=
  if Ascii.eqb c "b" then "008" else if Ascii.eqb c "f" then "012" else if Ascii.eqb c "n" then lf
  else if Ascii.eqb c "r" then cr else if Ascii.eqb c "t" then "009" else c.
Definition hex_value (c : ascii) : Z := if is_digit c then code c - 48 else code c - 87.
Definition unhex_last (digits : string) : string :=
  match digits with
  | String _ (String _ (String h (String l _))) => String (chr (hex_value h * 16 + hex_value l)) ""
  | _ => ""
  end.
Definition line_separator (last : ascii) : string := String "226" (String "128" (String last "")).

Definition read_rune (s : string) : string * string :=
  match s with
  | EmptyString => ("", "")
  | String c rest =>
      if Ascii.eqb c backslash then
        match rest with
        | String e t =>
            if Ascii.eqb e "u" then
              (if String.eqb (substring 0 4 t) "2028" then line_separator "168"
               else if String.eqb (substring 0 4 t) "2029" then line_separator "169"
               else unhex_last (substring 0 4 t), drop_bytes 4 t)
            else (String (unescape e) "", t)
        | EmptyString => ("", "")
        end
      else if code c <? 128 then (String c "", rest)
      else (substring 0 (Z.to_nat (rune_width c)) s, drop_bytes (Z.to_nat (rune_width c)) s)
  end.

Lemma read_ascii a t : code a < 128 → read_rune (json_rune (String a "") +:+ t) = (String a "", t).
Proof.
  intros Ha. destruct a as [[] [] [] [] [] [] [] []]; first [by (exfalso; vm_compute in Ha)|vm_compute; destruct t; reflexivity].
Qed.

Lemma continuation_range c : continuation c = true → 128 ≤ code c ≤ 191.
Proof. unfold continuation, in_bytes. rewrite andb_true_iff, !Z.leb_le. lia. Qed.

Lemma second_byte_range a b : second_byte a b = true → 128 ≤ code b ≤ 191 ∧ (code a = 240 → 144 ≤ code b).
Proof.
  unfold second_byte, continuation, in_bytes. repeat case_match; rewrite andb_true_iff, !Z.leb_le;
    repeat match goal with H : (_ =? _) = true |- _ => apply Z.eqb_eq in H | H : (_ =? _) = false |- _ => apply Z.eqb_neq in H end; lia.
Qed.

Lemma rune_width_range a : 
  (rune_width a = 2 → code a ≤ 223) ∧ (rune_width a = 3 → 224 ≤ code a ≤ 239) ∧ (rune_width a = 4 → 240 ≤ code a).
Proof. unfold rune_width, in_bytes. repeat case_match; rewrite ?andb_true_iff, ?Z.leb_le in *; lia. Qed.

(** Only one rune has the code point of a line or paragraph separator. *)
Lemma separator_rune a b more last :
  rune_shape (String a (String b more)) → rune_value (String a (String b more)) = 8064 + code last →
  168 ≤ code last ≤ 169 → String a (String b more) = line_separator last.
Proof.
  intros (Hb & Hm & Ha & Hw) Hv Hl. apply second_byte_range in Hb as [Hb Hb']. pose proof (rune_width_range a) as (H2 & H3 & H4).
  unfold slen in Hw. cbn [String.length] in Hw. destruct more as [|c [|d [|e more]]]; cbn [all_bytes] in Hm.
  - cbn in Hv, Hw. specialize (H2 ltac:(lia)). lia.
  - apply andb_true_iff in Hm as [Hc%continuation_range _]. cbn in Hv, Hw. specialize (H3 ltac:(lia)).
    assert (code a = 226 ∧ code b = 128 ∧ code c = code last) as (Ea & Eb & ->%code_inj) by lia.
    rewrite <-(chr_code a), Ea, <-(chr_code b), Eb. done.
  - apply andb_true_iff in Hm as [Hc%continuation_range Hm]. apply andb_true_iff in Hm as [Hd%continuation_range _].
    cbn in Hv, Hw. specialize (H4 ltac:(lia)). assert (code a = 240 ∨ 241 ≤ code a) as [E|E] by lia; [specialize (Hb' E)|]; lia.
  - exfalso. revert Hw. unfold rune_width. cbn [String.length]. repeat case_match; lia.
Qed.

Lemma read_rune_json r t : rune_shape r → valid_rune r = true → read_rune (json_rune r +:+ t) = (r, t).
Proof.
  destruct r as [|a [|b more]]; [done| |].
  { intros _ Ha. apply read_ascii. by apply Z.ltb_lt. }
  intros Hs _. set (r := String a (String b more)) in *.
  change (json_rune r) with (if rune_value r =? 8232 then unicode_escape "2028"
    else if rune_value r =? 8233 then unicode_escape "2029" else r).
  destruct (Z.eqb_spec (rune_value r) 8232) as [E|_].
  { assert (Er : r = line_separator "168") by by apply separator_rune. rewrite Er. vm_compute. destruct t; reflexivity. }
  destruct (Z.eqb_spec (rune_value r) 8233) as [E|_].
  { assert (Er : r = line_separator "169") by by apply separator_rune. rewrite Er. vm_compute. destruct t; reflexivity. }
  destruct Hs as (_ & _ & Ha & Hw). unfold r at 1. rewrite string_app_cons. cbn [read_rune].
  destruct (Ascii.eqb_spec a backslash) as [->|_]; [vm_compute in Ha; by destruct Ha|].
  destruct (Z.ltb_spec (code a) 128) as [|_]; [lia|]. rewrite <-string_app_cons. fold r. rewrite <-Hw. unfold slen. rewrite Nat2Z.id.
  by rewrite substring_app, drop_bytes_app.
Qed.

Lemma json_rune_not_quote r t u : rune_shape r → valid_rune r = true → json_rune r +:+ t ≠ String quote u.
Proof.
  intros Hs Hv E. pose proof (read_rune_json r t Hs Hv) as Hr. rewrite E in Hr. cbn in Hr. injection Hr as <- ->.
  by vm_compute in E.
Qed.

Lemma json_runes_unambiguous l1 l2 t u :
  Forall rune_shape l1 → forallb valid_rune l1 = true → Forall rune_shape l2 → forallb valid_rune l2 = true →
  concat_str (json_rune <$> l1) +:+ String quote t = concat_str (json_rune <$> l2) +:+ String quote u → l1 = l2 ∧ t = u.
Proof.
  revert l2. induction l1 as [|r1 l1 IH]; intros [|r2 l2] Hs1 Hv1 Hs2 Hv2 E.
  - split; [done|]. by injection E.
  - exfalso. inversion Hs2; subst. apply andb_true_iff in Hv2 as [Hv2 _].
    change (concat_str (json_rune <$> (r2 :: l2))) with (json_rune r2 +:+ concat_str (json_rune <$> l2)) in E.
    rewrite string_app_assoc in E. eapply (json_rune_not_quote r2); [done|done|symmetry; exact E].
  - exfalso. inversion Hs1; subst. apply andb_true_iff in Hv1 as [Hv1 _].
    change (concat_str (json_rune <$> (r1 :: l1))) with (json_rune r1 +:+ concat_str (json_rune <$> l1)) in E.
    rewrite string_app_assoc in E. eapply (json_rune_not_quote r1); [done|done|exact E].
  - inversion Hs1; subst. inversion Hs2; subst. apply andb_true_iff in Hv1 as [Hv1 Hv1'], Hv2 as [Hv2 Hv2'].
    change (concat_str (json_rune <$> (r1 :: l1))) with (json_rune r1 +:+ concat_str (json_rune <$> l1)) in E.
    change (concat_str (json_rune <$> (r2 :: l2))) with (json_rune r2 +:+ concat_str (json_rune <$> l2)) in E.
    rewrite !string_app_assoc in E. apply (f_equal read_rune) in E. rewrite !read_rune_json in E by done.
    injection E as -> E. apply IH in E as [-> ->]; [done|done..].
Qed.

Lemma json_string_unambiguous : unambiguous (λ s, valid_utf8 s = true) json_string.
Proof.
  intros a b t u Ha Hb E. unfold json_string in E. rewrite !string_app_cons in E. injection E as E.
  rewrite !string_app_assoc in E. destruct (runes_shape a) as [Hsa Hca], (runes_shape b) as [Hsb Hcb].
  apply json_runes_unambiguous in E as [E ->]; [|done..]. split; [|done]. by rewrite <-Hca, <-Hcb, E.
Qed.

(** *** Slices and commands *)

Lemma unambiguous_then {A} (P : A → Prop) enc (a b : A) (sep : string) t u :
  unambiguous P enc → P a → P b → enc a +:+ sep +:+ t = enc b +:+ sep +:+ u → a = b ∧ t = u.
Proof. intros Hu Ha Hb E. apply Hu in E as [-> E]; [|done|done]. by apply string_app_inv_head in E. Qed.

Lemma json_elements_unambiguous {A} (P : A → Prop) enc x y l k t u :
  unambiguous P enc → P x → P y → Forall P l → Forall P k →
  json_elements enc x l +:+ t = json_elements enc y k +:+ u → x = y ∧ l = k ∧ t = u.
Proof.
  intros Hu. revert x y k. induction l as [|z l IH]; intros x y [|w k] Hx Hy Hl Hk E; cbn [json_elements] in E;
    rewrite ?string_app_assoc in E; apply Hu in E as [-> E]; try done.
  - apply string_app_inv_head in E. done.
  - inversion Hl; subst. inversion Hk; subst. injection E as E. rewrite ?string_app_assoc in E.
    apply IH in E as (-> & -> & ->); done.
Qed.

Lemma json_slice_unambiguous {A} (P : A → Prop) enc : unambiguous P enc → unambiguous (Forall P) (json_slice enc).
Proof.
  intros Hu [|x l] [|y k] t u Ha Hb E; cbn [json_slice] in E.
  - by apply string_app_inv_head in E.
  - done.
  - done.
  - inversion Ha; subst. inversion Hb; subst. rewrite !string_app_assoc in E. injection E as E.
    eapply json_elements_unambiguous in E as (-> & -> & ->); done.
Qed.

Definition file_utf8 (f : BoundFile) : Prop := valid_utf8 (bf_Path f) = true ∧ valid_utf8 (bf_SHA256 f) = true.

Lemma json_file_unambiguous : unambiguous file_utf8 json_file.
Proof.
  intros [p1 s1] [p2 s2] t u [Hp1 Hs1] [Hp2 Hs2] E. cbn in Hp1, Hs1, Hp2, Hs2. unfold json_file in E. cbn [bf_Path bf_SHA256] in E.
  rewrite !string_app_assoc in E. apply string_app_inv_head in E. apply string_app_inv_head in E. apply string_app_inv_head in E.
  eapply unambiguous_then in E as [-> E]; [|apply json_string_unambiguous|done|done].
  apply string_app_inv_head in E. apply string_app_inv_head in E.
  eapply unambiguous_then in E as [-> E]; [|apply json_string_unambiguous|done|done]. done.
Qed.

(** The texts that a key is made of are valid UTF-8, which JSON preserves. *)
Definition command_utf8 (c : Command) : Prop :=
  valid_utf8 (cmd_Executable c) = true ∧ valid_utf8 (cmd_ExecutableSHA256 c) = true ∧ valid_utf8 (cmd_Interpreter c) = true ∧
  valid_utf8 (cmd_InterpreterSHA256 c) = true ∧ Forall file_utf8 (cmd_Files c) ∧ Forall (λ s, valid_utf8 s = true) (cmd_Args c) ∧
  valid_utf8 (cmd_Dir c) = true ∧ Forall (λ s, valid_utf8 s = true) (cmd_Secrets c).

(** What an approval is for. *)
Definition same_command (c d : Command) : Prop :=
  cmd_Executable c = cmd_Executable d ∧ cmd_ExecutableSHA256 c = cmd_ExecutableSHA256 d ∧ cmd_Interpreter c = cmd_Interpreter d ∧
  cmd_InterpreterSHA256 c = cmd_InterpreterSHA256 d ∧ cmd_Files c = cmd_Files d ∧ cmd_Args c = cmd_Args d ∧
  cmd_Dir c = cmd_Dir d ∧ cmd_Secrets c = cmd_Secrets d.

Lemma approval_text_inj c d : command_utf8 c → command_utf8 d → approval_text c = approval_text d → same_command c d.
Proof.
  intros (H1 & H2 & H3 & H4 & H5 & H6 & H7 & H8) (K1 & K2 & K3 & K4 & K5 & K6 & K7 & K8) E. unfold approval_text in E.
  apply string_app_inv_head in E. pose proof json_string_unambiguous as Hj.
  pose proof (json_slice_unambiguous _ _ json_file_unambiguous) as Hf. pose proof (json_slice_unambiguous _ _ Hj) as Hs.
  eapply unambiguous_then in E as [E1 E]; [|exact Hj|done|done]. eapply unambiguous_then in E as [E2 E]; [|exact Hj|done|done].
  eapply unambiguous_then in E as [E3 E]; [|exact Hj|done|done]. eapply unambiguous_then in E as [E4 E]; [|exact Hj|done|done].
  eapply unambiguous_then in E as [E5 E]; [|exact Hf|done|done]. eapply unambiguous_then in E as [E6 E]; [|exact Hs|done|done].
  eapply unambiguous_then in E as [E7 E]; [|exact Hj|done|done]. apply Hs in E as [E8 _]; [|done|done]. by split_and!.
Qed.

(** JSON replaces what is no UTF-8: two arguments with the same approval. *)
Example invalid_utf8_is_one : json_string (String "255" "") = json_string (String "254" "").
Proof. vm_compute. reflexivity. Qed.

Lemma hex_digit_inj v w : 0 ≤ v < 16 → 0 ≤ w < 16 → hex_digit v = hex_digit w → v = w.
Proof.
  intros Hv Hw. unfold hex_digit. destruct (Z.ltb_spec v 10), (Z.ltb_spec w 10); intros E%(f_equal code);
    rewrite !code_chr in E by lia; lia.
Qed.

Lemma hex_inj s t : hex s = hex t → s = t.
Proof.
  revert t. induction s as [|c s IH]; intros [|d t]; try done. cbn [hex]. intros E. injection E as E1 E2 E3.
  pose proof (code_bound c). pose proof (code_bound d).
  apply hex_digit_inj in E1, E2; [|Z.to_euclidean_division_equations; lia..].
  f_equal; [|by apply IH]. apply code_inj. Z.to_euclidean_division_equations. lia.
Qed.

Lemma hex_utf8 s : valid_utf8 (hex s) = true.
Proof.
  apply ascii_utf8. eapply all_bytes_mono; [|apply hex_lower]. intros c Hc.
  pose proof (forall_ascii (λ c, negb (is_lower_hex c) || (code c <? 128)) ltac:(vm_compute; reflexivity) c) as H.
  cbn beta in H.
  by rewrite Hc in H.
Qed.

Lemma ValidName_utf8 name : ValidName name = true → valid_utf8 name = true.
Proof.
  intros H. apply ascii_utf8. destruct name as [|c rest]; [done|]. unfold ValidName in H.
  apply andb_true_iff in H as [H Hr]. apply andb_true_iff in H as [_ Hc]. cbn [all_bytes]. apply andb_true_iff. split.
  - pose proof (forall_ascii (λ c, negb (Ascii.eqb c "_" || is_upper c || is_lower c) || (code c <? 128)) ltac:(vm_compute; reflexivity) c) as H.
    cbn beta in H. by rewrite Hc in H.
  - eapply all_bytes_mono; [|exact Hr]. intros d Hd.
    pose proof (forall_ascii (λ c, negb (Ascii.eqb c "_" || is_upper c || is_lower c || is_digit c) || (code c <? 128)) ltac:(vm_compute; reflexivity) d) as H.
    cbn beta in H. cbn beta in Hd. by rewrite Hd in H.
Qed.

(** ** What a resolved command is *)

Section Resolved.
Context {crypto : Crypto}.

Lemma or_refuse_Ok {A} (o : option A) reason a : or_refuse o reason = Ok a ↔ o = Some a.
Proof. destruct o; cbn; naive_solver. Qed.

(** The programs that are never approved, by the name of the file or as the request
    has it, with a version or without. *)
Definition approvable (args names : list string) : Prop :=
  ∀ b, b ∈ names → (b ∉ refused) ∧ (b ∈ shells → hasShortFlag args "c" = false) ∧
    ∀ f, f ∈ inlineFlags b → f ≠ "" ∧ containsArg args f = false.

Record resolved (fs : FileSystem) (argv : list string) (dir : string) (secrets : list string) (path : string) (c : Command) : Prop := {
  rs_argv : ∃ exe, argv = exe :: cmd_Args c ∧
    approvable (cmd_Args c) [Base (cmd_Executable c); Base exe; versionless (Base (cmd_Executable c)); versionless (Base exe)];
  rs_dir : IsAbs dir = true ∧ EvalSymlinks fs dir = Some (cmd_Dir c);
  rs_secrets : cmd_Secrets c = sort_strings secrets ∧ secrets ≠ [] ∧ valid_names (sort_strings secrets) = true;
  rs_executable : fileSHA256 fs (cmd_Executable c) = Some (cmd_ExecutableSHA256 c) ∧
    ∃ from, EvalSymlinks fs from = Some (cmd_Executable c);
  rs_interpreter : (shebang fs (cmd_Executable c) = None ∧ cmd_Interpreter c = "" ∧ cmd_InterpreterSHA256 c = "") ∨
    (fileSHA256 fs (cmd_Interpreter c) = Some (cmd_InterpreterSHA256 c) ∧ ∃ from, EvalSymlinks fs from = Some (cmd_Interpreter c));
  rs_files : ∀ f, f ∈ cmd_Files c → fileSHA256 fs (bf_Path f) = Some (bf_SHA256 f) ∧ ∃ from, EvalSymlinks fs from = Some (bf_Path f);
  rs_all_files : ∀ a real st, a ∈ cmd_Args c → EvalSymlinks fs (if IsAbs a then a else Join (cmd_Dir c) a) = Some real →
    Stat fs real = Some st → fi_IsRegular st = true → ∃ f, f ∈ cmd_Files c ∧ bf_Path f = real;
  rs_always : cmd_AlwaysAllowed c = true → shebang fs (cmd_Executable c) = None ∧ under (cmd_Executable c) (cmd_Dir c) = false ∧
    (∀ f, f ∈ cmd_Files c → under (bf_Path f) (cmd_Dir c) = false) ∧ (Base (cmd_Executable c) ∉ shells) ∧
    versionless (Base (cmd_Executable c)) ∉ runsProjectCode;
}.

Lemma within_set_true l s : within_set l s = true ↔ s ∈ l.
Proof.
  unfold within_set. rewrite existsb_exists. setoid_rewrite String.eqb_eq. setoid_rewrite <-list_elem_of_In. naive_solver.
Qed.
Lemma within_set_false l s : within_set l s = false ↔ s ∉ l.
Proof. by rewrite <-within_set_true, not_true_iff_false. Qed.

Lemma refuse_programs_ok args names u : refuse_programs args names = Ok u → approvable args names.
Proof.
  induction names as [|n names IH]; [by intros _ b ?%elem_of_nil|]. cbn [refuse_programs].
  intros ([] & Hn & Hrest)%bind_Ok b [->|Hb]%elem_of_cons; [|by apply IH]. unfold refuse_program in Hn.
  rewrite !reject_if_bind, reject_if_Ok in Hn. destruct Hn as (Hr & Hs & Hf). split_and!.
  - by apply within_set_false.
  - intros Hin%within_set_true. by rewrite Hin in Hs.
  - intros f Hin. assert (Hff : negb (nonempty f) || containsArg args f = false).
    { destruct (negb (nonempty f) || containsArg args f) eqn:E; [|done]. exfalso. apply not_true_iff_false in Hf. apply Hf.
      apply existsb_exists. exists f. split; [by apply list_elem_of_In|done]. }
    apply orb_false_iff in Hff as [Hf1 Hf2]. split; [|done]. apply nonempty_true. by apply negb_false_iff.
Qed.
(** The files that the loop over the arguments binds. *)
Definition bound (fs : FileSystem) (f : BoundFile) : Prop :=
  fileSHA256 fs (bf_Path f) = Some (bf_SHA256 f) ∧ ∃ from, EvalSymlinks fs from = Some (bf_Path f).

Lemma bind_files_ok fs realDir args files project files' project' :
  bind_files fs realDir args files project = Ok (files', project') →
  ∃ more, files' = files ++ more ∧ Forall (bound fs) more ∧
    (∀ a real st, a ∈ args → EvalSymlinks fs (if IsAbs a then a else Join realDir a) = Some real → Stat fs real = Some st →
      fi_IsRegular st = true → ∃ f, f ∈ more ∧ bf_Path f = real) ∧
    (project' = false → project = false ∧ ∀ f, f ∈ more → under (bf_Path f) realDir = false).
Proof.
  revert files project. induction args as [|a args IH]; intros files project; cbn [bind_files].
  { intros [= <- <-]. exists []. rewrite app_nil_r. split_and!; [done|constructor|by intros ? ? ? ?%elem_of_nil|].
    intros ->. split; [done|]. by intros ? ?%elem_of_nil. }
  assert (Hskip : (∀ real st, EvalSymlinks fs (if IsAbs a then a else Join realDir a) = Some real → Stat fs real = Some st →
      fi_IsRegular st = true → False) → bind_files fs realDir args files project = Ok (files', project') →
    ∃ more, files' = files ++ more ∧ Forall (bound fs) more ∧
      (∀ a' real st, a' ∈ a :: args → EvalSymlinks fs (if IsAbs a' then a' else Join realDir a') = Some real → Stat fs real = Some st →
        fi_IsRegular st = true → ∃ f, f ∈ more ∧ bf_Path f = real) ∧
      (project' = false → project = false ∧ ∀ f, f ∈ more → under (bf_Path f) realDir = false)).
  { intros Hno H. apply IH in H as (more & -> & Hb & Hall & Hp). exists more. split_and!; [done|done| |done].
    intros a' real st [->|Hin]%elem_of_cons; [intros E1 E2 E3; by destruct (Hno _ _ E1 E2 E3)|by apply Hall]. }
  destruct (EvalSymlinks fs _) as [real|] eqn:Er; [|by apply Hskip].
  destruct (Stat fs real) as [st|] eqn:Es; [|apply Hskip; intros; by simplify_eq].
  destruct (fi_IsRegular st) eqn:Ef; cbn [negb]; [|apply Hskip; intros; congruence].
  clear Hskip. rewrite reject_if_bind. intros (_ & (h & Hh%or_refuse_Ok & H)%bind_Ok).
  apply IH in H as (more & -> & Hb & Hall & Hp). exists ({| bf_Path := real; bf_SHA256 := h |} :: more).
  split_and!; [by rewrite <-app_assoc| | |].
  - constructor; [|done]. split; [done|]. by eexists.
  - intros a' real' st' [->|Hin]%elem_of_cons E1 E2 E3.
    + exists {| bf_Path := real; bf_SHA256 := h |}. split; [by left|]. cbn. congruence.
    + destruct (Hall _ _ _ Hin E1 E2 E3) as (f & ? & ?). exists f. split; [by right|done].
  - intros [[-> Hu]%orb_false_iff Hm]%Hp. split; [done|]. intros f [->|Hin]%elem_of_cons; [done|by apply Hm].
Qed.

Lemma resolveInterpreter_ok fs line path real :
  resolveInterpreter fs line path = Ok real → ∃ from, EvalSymlinks fs from = Some real.
Proof.
  unfold resolveInterpreter. destruct (Fields line) as [|interp rest]; [done|].
  intros ([interp' rest'] & _ & H)%bind_Ok. apply bind_Ok in H as (real' & Hr%or_refuse_Ok & H).
  rewrite !reject_if_bind in H. destruct H as (_ & _ & [= ->]). by exists interp'.
Qed.

Lemma ResolveCommand_resolved fs argv dir secrets path c :
  ResolveCommand fs argv dir secrets path = Ok c → resolved fs argv dir secrets path c.
Proof.
  unfold ResolveCommand. destruct argv as [|exe args]; [done|]. rewrite !reject_if_bind.
  intros (Hn & _ & _ & Hd & H). passed Hn. passed Hd. apply bind_Ok in H as (realDir & Hdir%or_refuse_Ok & H).
  apply bind_Ok in H as (info & _ & H). rewrite !reject_if_bind in H. destruct H as (_ & Hnames & H).
  apply bind_Ok in H as (located & _ & H). apply bind_Ok in H as (realExe & Hexe%or_refuse_Ok & H).
  apply bind_Ok in H as (info' & _ & H). rewrite reject_if_bind in H. destruct H as (_ & H).
  apply bind_Ok in H as ([] & Hprog%refuse_programs_ok & H). apply bind_Ok in H as (sum & Hsum%or_refuse_Ok & H).
  apply bind_Ok in H as ([[interp isum] project] & Hint & H). apply bind_Ok in H as ([files project'] & Hfiles & H).
  apply bind_files_ok in Hfiles as (more & Efiles & Hb & Hall & Hp). cbn [app] in Efiles. subst files. injection H as <-.
  assert (Hi : (shebang fs realExe = None ∧ interp = "" ∧ isum = "" ∧
      project = within_set runsProjectCode (versionless (Base realExe)) || within_set runsProjectCode (versionless (Base exe)) ||
        within_set shells (Base realExe) || within_set shells (Base exe)) ∨
    (fileSHA256 fs interp = Some isum ∧ (∃ from, EvalSymlinks fs from = Some interp) ∧ project = true)).
  { destruct (shebang fs realExe) as [line|]; [right|left; by injection Hint as <- <- <-].
    apply bind_Ok in Hint as (r & Hr%resolveInterpreter_ok & Hint). apply bind_Ok in Hint as (s & Hs%or_refuse_Ok & Hint).
    by injection Hint as <- <- <-. }
  split; cbn; [by exists exe|done| | | | |done|].
  - split_and!; [done| |by apply negb_false_iff]. intros ->. by cbn in Hn.
  - split; [done|]. by eexists.
  - destruct Hi as [(? & ? & ? & _)|(? & ? & _)]; [by left|by right].
  - intros f Hf. rewrite Forall_forall in Hb. by apply Hb.
  - intros [Hpf Hdf]%andb_true_iff. apply negb_true_iff in Hpf, Hdf. apply Hp in Hpf as [Hpf Hm].
    destruct Hi as [(? & _ & _ & ->)|(_ & _ & ->)]; [|done]. rewrite !orb_false_iff, !within_set_false in Hpf.
    split_and!; try done; apply Hpf.
Qed.
(** A file system whose resolved paths are valid UTF-8. *)
Definition paths_utf8 (fs : FileSystem) : Prop := ∀ p q, EvalSymlinks fs p = Some q → valid_utf8 q = true.

Lemma fileSHA256_utf8 fs p h : fileSHA256 fs p = Some h → valid_utf8 h = true.
Proof. unfold fileSHA256. destruct (ReadFile fs p); cbn; [|done]. intros [= <-]. apply hex_utf8. Qed.

Lemma valid_names_each names : valid_names names = true → Forall (λ n, ValidName n = true) names.
Proof.
  induction names as [|n names IH]; [constructor|]. cbn. intros [[Hn _]%andb_true_iff Hr]%andb_true_iff.
  constructor; [done|by apply IH].
Qed.

Lemma resolved_utf8 fs argv dir secrets path c :
  resolved fs argv dir secrets path c → Forall (λ a, valid_utf8 a = true) argv → paths_utf8 fs → command_utf8 c.
Proof.
  intros [[exe [Eargv _]] [_ Hd] (Hs & _ & Hn) [Hsum [from He]] Hi Hf _ _] Hargv Hfs. subst argv.
  inversion Hargv as [|? ? _ Hargs]; subst. split_and!; try done.
  - by eapply Hfs.
  - by eapply fileSHA256_utf8.
  - destruct Hi as [(_ & -> & _)|(_ & [p Hp])]; [done|by eapply Hfs].
  - destruct Hi as [(_ & _ & ->)|(Hi & _)]; [done|by eapply fileSHA256_utf8].
  - apply Forall_forall. intros f Hin. destruct (Hf f Hin) as [Hh [p Hp]]. split; [by eapply Hfs|by eapply fileSHA256_utf8].
  - by eapply Hfs.
  - rewrite Hs. eapply Forall_impl; [by apply valid_names_each|]. intros n. apply ValidName_utf8.
Qed.

(** C22: an approval binds the command.  Let a command be resolved and shown, and let a
    later request pass the check before it is run, possibly with other arguments and
    over other files.  Unless two approval texts collide, the arguments, the working
    directory and the secrets are the approved ones; the executable, its interpreter
    and every bound file have the content of the approved digest; every argument that now names a
    file is bound; and the program is not one of those that cannot be approved.
    The arguments and the paths of the file systems are valid UTF-8: the key, which is
    made of JSON, does not tell other bytes apart ([invalid_utf8_is_one]). *)
Theorem approval_binds_command fs0 fs argv0 dir0 secrets0 approved argv dir secrets path u :
  ResolveCommand fs0 argv0 dir0 secrets0 path = Ok approved →
  Verify fs approved argv dir secrets path = Ok u →
  Forall (λ a, valid_utf8 a = true) argv0 → Forall (λ a, valid_utf8 a = true) argv → paths_utf8 fs0 → paths_utf8 fs →
  (∀ c, sha256 (approval_text c) = sha256 (approval_text approved) → approval_text c = approval_text approved) →
  (∃ exe, argv = exe :: cmd_Args approved ∧ approvable (cmd_Args approved) [Base (cmd_Executable approved); Base exe]) ∧
  EvalSymlinks fs dir = Some (cmd_Dir approved) ∧ sort_strings secrets = cmd_Secrets approved ∧
  fileSHA256 fs (cmd_Executable approved) = Some (cmd_ExecutableSHA256 approved) ∧
  (cmd_Interpreter approved ≠ "" → fileSHA256 fs (cmd_Interpreter approved) = Some (cmd_InterpreterSHA256 approved)) ∧
  (∀ f, f ∈ cmd_Files approved → fileSHA256 fs (bf_Path f) = Some (bf_SHA256 f)) ∧
  ∀ a real st, a ∈ cmd_Args approved → EvalSymlinks fs (if IsAbs a then a else Join (cmd_Dir approved) a) = Some real →
    Stat fs real = Some st → fi_IsRegular st = true → ∃ f, f ∈ cmd_Files approved ∧ bf_Path f = real.
Proof.
  intros H0%ResolveCommand_resolved H U0 U P0 P Hcol. unfold Verify in H. apply bind_Ok in H as (now & Hnow%ResolveCommand_resolved & H).
  apply reject_if_Ok, negb_false_iff, String.eqb_eq in H. unfold ApprovalKey in H. apply hex_inj, Hcol, approval_text_inj in H;
    [|by eapply resolved_utf8..]. destruct H as (E1 & E2 & E3 & E4 & E5 & E6 & E7 & E8).
  destruct Hnow as [[exe [Ea Hap]] [_ Hd] (Hs & _) [Hsum _] Hi Hf Hall _]. rewrite E1, E6 in Hap. rewrite E6 in Ea, Hall.
  rewrite E5 in Hf, Hall. rewrite E7 in Hd, Hall. rewrite E1, E2 in Hsum. rewrite E3, E4 in Hi. split_and!.
  - exists exe. split; [done|]. intros b Hb. apply Hap. set_solver.
  - done.
  - congruence.
  - done.
  - intros Hne. by destruct Hi as [(_ & ? & _)|(? & _)].
  - intros f Hin. by apply Hf.
  - done.
Qed.
End Resolved.

(** ** An example *)

Module CommandDemo.
#[export] Instance crypto : Crypto := {| sha256 := id; ed25519_verify := λ _ _ _, true; x25519_usable := λ _, true |}.
(** A program of the system, and a script in the working directory. *)
Definition files : FileSystem := {|
  EvalSymlinks p := if existsb (String.eqb p) ["/bin/deploy"; "/work"; "/work/run.cfg"] then Some p else None;
  Stat p :=
    if String.eqb p "/work" then Some {| fi_IsDir := true; fi_IsRegular := false; fi_Executable := true; fi_Size := 0 |}
    else if String.eqb p "/bin/deploy" then Some {| fi_IsDir := false; fi_IsRegular := true; fi_Executable := true; fi_Size := 3 |}
    else if String.eqb p "/work/run.cfg" then Some {| fi_IsDir := false; fi_IsRegular := true; fi_Executable := false; fi_Size := 3 |}
    else None;
  ReadFile p := if String.eqb p "/bin/deploy" then Some "ELF" else if String.eqb p "/work/run.cfg" then Some "k=v" else None |}.
Definition argv : list string := ["deploy"; "run.cfg"; "--fast"].
Definition approved : Command := {|
  cmd_Executable := "/bin/deploy"; cmd_Args := ["run.cfg"; "--fast"]; cmd_Dir := "/work"; cmd_Secrets := ["DB_URL"; "TOKEN"];
  cmd_ExecutableSHA256 := hex "ELF"; cmd_Interpreter := ""; cmd_InterpreterSHA256 := "";
  cmd_Files := [{| bf_Path := "/work/run.cfg"; bf_SHA256 := hex "k=v" |}]; cmd_Warnings := [script_warning]; cmd_AlwaysAllowed := false |}.

Lemma deploy_resolves : ResolveCommand files argv "/work" ["TOKEN"; "DB_URL"] ".:/bin" = Ok approved.
Proof. vm_compute. reflexivity. Qed.
Lemma deploy_verified : Verify files approved argv "/work" ["DB_URL"; "TOKEN"] "/bin" = Ok tt.
Proof. vm_compute. reflexivity. Qed.
Example shell_code_refused : ResolveCommand {| EvalSymlinks := Some; Stat := λ p, Some {| fi_IsDir := String.eqb p "/w";
    fi_IsRegular := true; fi_Executable := true; fi_Size := 0 |}; ReadFile := λ _, Some "" |} ["/bin/bash"; "-xc"; "env"] "/w" ["A"] "" =
  Err "inline shell code (-c) cannot be approved; put it in a script file".
Proof. vm_compute. reflexivity. Qed.

Lemma files_utf8 : paths_utf8 files.
Proof.
  intros p q. cbn [EvalSymlinks files]. destruct (existsb _ _) eqn:E; [|done]. intros [= <-].
  apply existsb_exists in E as (x & Hx & ->%String.eqb_eq). cbn in Hx. destruct Hx as [<-|[<-|[<-|[]]]]; vm_compute; reflexivity.
Qed.

Lemma approval_binds_command_witness : fileSHA256 files "/work/run.cfg" = Some (hex "k=v").
Proof.
  assert (H0 : ResolveCommand files argv "/work" ["TOKEN"; "DB_URL"] "/bin" = Ok approved) by (vm_compute; reflexivity).
  assert (U : Forall (λ a, valid_utf8 a = true) argv) by (repeat constructor).
  destruct (approval_binds_command files files _ _ _ approved _ _ _ _ _ H0 deploy_verified U U files_utf8 files_utf8 (λ c E, E))
    as (_ & _ & _ & _ & _ & H & _). apply (H {| bf_Path := "/work/run.cfg"; bf_SHA256 := hex "k=v" |}). by left.
Defined.
End CommandDemo.
