(* ===== verification/Broker.v ===== *)
(** The agent broker (internal/agentbroker/broker.go, protocol.go): agents learn names,
    ask the owner to store values, and run approved commands with values that they
    never see.

    A request is handled by a program whose calls go to the owner, the vault, the
    runner, the file system, and the variables that all requests share; requests run
    concurrently, so that the calls of their programs interleave. *)
From S2P Require Import Prelude Text Secure Redactor Filepath Command.
From S2P Require Export Program.
From stdpp Require Import options.

Definition ProtocolVersion : Z := 1.
Definition OpNames : string := "names".
Definition OpRequest : string := "request".
Definition OpRun : string := "run".
Definition OpSetup : string := "setup".

Record Request := {
  rq_V : Z; rq_Op : string; rq_Name : string; rq_Reason : string; rq_Secrets : list string; rq_Argv : list string;
  rq_Dir : string; rq_TimeoutSeconds : Z; rq_Setup : string;
}.
Record Response := {
  rs_V : Z; rs_OK : bool; rs_Code : string; rs_Names : list string; rs_State : string; rs_ExitCode : option Z;
  rs_TimedOut : bool; rs_Stdout : string; rs_Stderr : string; rs_Truncated : bool; rs_Redactions : Z; rs_Steps : list string;
}.

Definition CodeInvalidRequest : string := "INVALID_REQUEST".
Definition CodeUnknownSecret : string := "UNKNOWN_SECRET".
Definition CodeValueTooShort : string := "SECRET_TOO_SHORT_TO_REDACT".
Definition CodeCommandRefused : string := "COMMAND_REFUSED".
Definition CodeDenied : string := "DENIED_BY_OWNER".
Definition CodeBusy : string := "BROKER_BUSY".
Definition CodeVaultFailed : string := "VAULT_FAILED".
Definition CodeStartFailed : string := "COMMAND_START_FAILED".
Definition CodeBrokerClosed : string := "BROKER_CLOSED".
Definition CodeNotSetUp : string := "VAULT_NOT_SET_UP".
Definition CodeAlreadySetUp : string := "ALREADY_SET_UP".
Definition CodeSetupFailed : string := "SETUP_FAILED".
Definition StateStored : string := "stored".
Definition StateDenied : string := "denied".
Definition StateApplied : string := "applied".

Inductive Decision := Deny | AllowOnce | AllowAlways.
#[export] Instance Decision_eq_dec : EqDecision Decision.
Proof. solve_decision. Defined.
Record Ingest := { in_Name : string; in_Reason : string; in_Replaces : bool }.
Record RunResult := {
  rr_ExitCode : Z; rr_TimedOut : bool; rr_Started : bool; rr_Stdout : string; rr_Stderr : string; rr_StdoutCut : bool; rr_StderrCut : bool;
}.

(** What [Vault.Values] returns: the map, [ErrMissing], or another error. *)
Inductive lookup_values := Found (values : gmap string string) | ErrMissing | ValuesFailed.

Module Call.
Inductive call : Type → Type :=
(** The critical sections of [b.mu], the queue of prompts, the lock of the owner's
    channel and the slots of runs. *)
| IsClosed : call bool
| CurrentVault : call bool
| SetVault : call unit
| Always (key : string) : call bool
| SetAlways (key : string) : call unit
| TryQueue : call bool
| LeaveQueue : call unit
| LockPrompt : call unit
| UnlockPrompt : call unit
| TryRun : call bool
| LeaveRun : call unit
(** The vault: [None] and [false] for an error. *)
| Names : call (option (list string))
| Values (names : list string) : call lookup_values
| Exists (name : string) : call (option bool)
| Store (name value : string) : call bool
(** The owner; [None] for an error or a value that was declined. *)
| ApproveRun (cmd : Command) : call (option Decision)
| ReadSecret (ingest : Ingest) : call (option string)
| Notify (line : string) : call unit
(** Whether the context of the request is cancelled; the files; the runner; the
    setup: whether it gives a vault, its steps, and the refusal of its error. *)
| Cancelled : call bool
| Files : call FileSystem
| Run (cmd : Command) (env : list string) (timeout : Z) : call RunResult
| Apply (setup : string) : call (bool * list string * option (option string)).
End Call.
Abbreviation call := Call.call.
Abbreviation program := (flow call Response).

(** The options of the broker: whether it has a setup, its PATH, and the environment
    without secrets. *)
Class Options := { has_setup : bool; broker_path : string; base_env : list string }.

Definition response (ok : bool) (code : string) (names : list string) (state : string) (steps : list string) : Response :=
  {| rs_V := ProtocolVersion; rs_OK := ok; rs_Code := code; rs_Names := names; rs_State := state; rs_ExitCode := None;
     rs_TimedOut := false; rs_Stdout := ""; rs_Stderr := ""; rs_Truncated := false; rs_Redactions := 0; rs_Steps := steps |}.
Definition refuse (code : string) : Response := response false code [] "" [].

(** An early return. *)
Definition guard_with {C R} (c : bool) (r : R) : flow C R unit := if c then Exit r else mret ().

Section Broker.
Context {options : Options} {crypto : Crypto} {sorting : SpanSort}.

Definition withPrompt {R} (fn : program Response) : flow call R Response :=
  queued ← ask Call.TryQueue;
  if negb (queued : bool) then mret (refuse CodeBusy)
  else
    _ ← ask Call.LockPrompt;
    gone ← ask Call.Cancelled;
    resp ← (if (gone : bool) then mret (refuse CodeDenied) else enter fn);
    _ ← ask Call.UnlockPrompt;
    _ ← ask Call.LeaveQueue;
    mret resp.

Definition state_response (state : string) : Response := response true "" [] state [].

Definition ingest (req : Request) : program Response :=
  _ ← guard_with (negb (ValidName (rq_Name req)) || negb (bool_decide (rq_Secrets req = [])) || negb (bool_decide (rq_Argv req = [])) ||
        nonempty (rq_Dir req) || negb (rq_TimeoutSeconds req =? 0) || (Limits.ReasonBytes <? slen (rq_Reason req)) ||
        negb (forallb (λ r, negb (slen r =? 1) || (rune_value r <? 128)) (runes (rq_Reason req)))) (refuse CodeInvalidRequest);
  exists_ ← ask (Call.Exists (rq_Name req));
  match (exists_ : option bool) with
  | None => mret (refuse CodeVaultFailed)
  | Some replaces =>
      withPrompt (
        value ← ask (Call.ReadSecret {| in_Name := rq_Name req; in_Reason := rq_Reason req; in_Replaces := replaces |});
        match (value : option string) with
        | None => mret (state_response StateDenied)
        | Some value =>
            cancelled ← ask Call.Cancelled;
            if (cancelled : bool) then mret (state_response StateDenied)
            else if (slen value <? Limits.MinValueBytes) || (Limits.MaxValueBytes <? slen value) then
              _ ← ask (Call.Notify "value rejected: length must be 8 bytes to 64 KiB; nothing stored");
              mret (state_response StateDenied)
            else
              stored ← ask (Call.Store (rq_Name req) value);
              if negb (stored : bool) then
                _ ← ask (Call.Notify "store failed; nothing was returned to the agent");
                mret (refuse CodeVaultFailed)
              else
                _ ← ask (Call.Notify ("stored " +:+ rq_Name req));
                mret (state_response StateStored)
        end)
  end.

(** [secondsDuration]: an int64 of nanoseconds. *)
Definition secondsDuration (s : Z) : Z := wrap64 (s * 1000000000).

Definition run_timeout (req : Request) : Z :=
  if 0 <? rq_TimeoutSeconds req then Z.min Limits.MaxTimeout (secondsDuration (rq_TimeoutSeconds req)) else Limits.DefaultTimeout.

Definition too_short (values : gmap string string) : bool :=
  existsb (λ p, slen p.2 <? Limits.MinValueBytes) (map_to_list values).

(** The values of the named secrets that are there and can be redacted. *)
Definition usable_values (names : list string) : program (gmap string string) :=
  found ← ask (Call.Values names);
  match (found : lookup_values) with
  | ErrMissing => Exit (refuse CodeUnknownSecret)
  | ValuesFailed => Exit (refuse CodeVaultFailed)
  | Found values =>
      _ ← guard_with (too_short values) (refuse CodeValueTooShort);
      mret values
  end.

(** The values at the time of the run: a secret that is gone by then is a failure of
    the vault. *)
Definition fresh_values (names : list string) : program (gmap string string) :=
  found ← ask (Call.Values names);
  match (found : lookup_values) with
  | Found values =>
      _ ← guard_with (too_short values) (refuse CodeValueTooShort);
      mret values
  | _ => Exit (refuse CodeVaultFailed)
  end.

Definition approved_response : Response :=
  {| rs_V := 0; rs_OK := true; rs_Code := ""; rs_Names := []; rs_State := ""; rs_ExitCode := None; rs_TimedOut := false;
     rs_Stdout := ""; rs_Stderr := ""; rs_Truncated := false; rs_Redactions := 0; rs_Steps := [] |}.

Definition ask_owner (cmd : Command) : program Response :=
  decision ← ask (Call.ApproveRun cmd);
  match (decision : option Decision) with
  | None | Some Deny => mret (refuse CodeDenied)
  | Some decision =>
      cancelled ← ask Call.Cancelled;
      if (cancelled : bool) then mret (refuse CodeDenied)
      else
        match decision with
        | AllowAlways =>
            if cmd_AlwaysAllowed cmd then
              _ ← ask (Call.SetAlways (ApprovalKey cmd));
              mret approved_response
            else
              _ ← ask (Call.Notify "approved once (always is not available for commands that run project code)");
              mret approved_response
        | _ => mret approved_response
        end
  end.

Definition environment (names : list string) (values : gmap string string) : list string :=
  base_env ++ ((λ name, name +:+ "=" +:+ default "" (values !! name)) <$> names).

Definition clip (b : string) : string * bool :=
  if slen b <=? Limits.ReturnBytes then (b, false) else (first_bytes Limits.ReturnBytes b, true).

(** The reply to a run: both outputs redacted, then clipped. *)
Definition redacted (values : gmap string string) (out : string) (cut : bool) : string * Z :=
  let '(kept, n) := Redact (NewRedactor values) (list_ascii_of_string out) cut in (string_of_list_ascii kept, Z.of_nat n).
Definition run_response (values : gmap string string) (result : RunResult) : Response :=
  let '(stdout, n1) := redacted values (rr_Stdout result) (rr_StdoutCut result) in
  let '(stderr, n2) := redacted values (rr_Stderr result) (rr_StderrCut result) in
  let '(stdout, t1) := clip stdout in
  let '(stderr, t2) := clip stderr in
  {| rs_V := ProtocolVersion; rs_OK := true; rs_Code := ""; rs_Names := []; rs_State := ""; rs_ExitCode := Some (rr_ExitCode result);
     rs_TimedOut := rr_TimedOut result; rs_Stdout := stdout; rs_Stderr := stderr;
     rs_Truncated := rr_StdoutCut result || rr_StderrCut result || t1 || t2; rs_Redactions := n1 + n2; rs_Steps := [] |}.

Definition ran_line (cmd : Command) (exit : Z) : string :=
  "ran " +:+ cmd_Executable cmd +:+ " (" +:+ Itoa (Z.of_nat (List.length (cmd_Secrets cmd))) +:+ " secret(s), exit " +:+ Itoa exit +:+ ")".

(** The part of [run] that holds a slot. *)
Definition run_approved (req : Request) (cmd : Command) : program Response :=
  fs ← ask Call.Files;
  match Command.Verify (fs : FileSystem) cmd (rq_Argv req) (rq_Dir req) (rq_Secrets req) broker_path with
  | Err _ =>
      _ ← ask (Call.Notify "refused: command or a file it uses changed after approval");
      mret (refuse CodeCommandRefused)
  | Ok _ =>
      values ← fresh_values (cmd_Secrets cmd);
      result ← ask (Call.Run cmd (environment (cmd_Secrets cmd) values) (run_timeout req));
      if negb (rr_Started result) then mret (refuse CodeStartFailed)
      else
        _ ← ask (Call.Notify (ran_line cmd (rr_ExitCode result)));
        mret (run_response values result)
  end.

Definition run (req : Request) : program Response :=
  _ ← guard_with (nonempty (rq_Name req) || nonempty (rq_Reason req) || (rq_TimeoutSeconds req <? 0)) (refuse CodeInvalidRequest);
  fs ← ask Call.Files;
  match ResolveCommand fs (rq_Argv req) (rq_Dir req) (rq_Secrets req) broker_path with
  | Err _ => mret (refuse CodeCommandRefused)
  | Ok cmd =>
      _ ← usable_values (cmd_Secrets cmd);
      approved ← ask (Call.Always (ApprovalKey cmd));
      resp ← (if (approved : bool) then mret approved_response else withPrompt (ask_owner cmd));
      if negb (rs_OK resp) then mret resp
      else
        slot ← ask Call.TryRun;
        if negb (slot : bool) then mret (refuse CodeBusy)
        else
          resp ← enter (run_approved req cmd);
          _ ← ask Call.LeaveRun;
          mret resp
  end.

Definition apply_in_prompt (req : Request) : program Response :=
  vault ← ask Call.CurrentVault;
  if (vault : bool) then mret (refuse CodeAlreadySetUp)
  else
    '(vault, done, err) ← ask (Call.Apply (rq_Setup req));
    _ ← (if (vault : bool) then ask Call.SetVault else mret ());
    match err with
    | Some refusal => mret (response false (default CodeSetupFailed refusal) [] "" done)
    | None =>
        _ ← ask (Call.Notify "setup complete; vault unlocked for agent use");
        mret (response true "" [] StateApplied done)
    end.

(** A request without a field that its operation does not have. *)
Definition no_run_fields (req : Request) : bool :=
  negb (nonempty (rq_Name req)) && negb (nonempty (rq_Reason req)) && bool_decide (rq_Secrets req = []) &&
  bool_decide (rq_Argv req = []) && negb (nonempty (rq_Dir req)) && (rq_TimeoutSeconds req =? 0).

Definition applySetup (req : Request) : program Response :=
  _ ← guard_with (negb (no_run_fields req) || negb (nonempty (rq_Setup req))) (refuse CodeInvalidRequest);
  vault ← ask Call.CurrentVault;
  if (vault : bool) || negb has_setup then mret (refuse CodeAlreadySetUp)
  else withPrompt (apply_in_prompt req).

Definition Handle (req : Request) : program Response :=
  closed ← ask Call.IsClosed;
  if (closed : bool) then mret (refuse CodeBrokerClosed)
  else if negb (rq_V req =? ProtocolVersion) then mret (refuse CodeInvalidRequest)
  else if String.eqb (rq_Op req) OpSetup then applySetup req
  else
    vault ← ask Call.CurrentVault;
    if negb (vault : bool) then mret (refuse CodeNotSetUp)
    else if String.eqb (rq_Op req) OpNames then
      if negb (no_run_fields req) then mret (refuse CodeInvalidRequest)
      else
        names ← ask Call.Names;
        match (names : option (list string)) with
        | None => mret (refuse CodeVaultFailed)
        | Some names => mret (response true "" names "" [])
        end
    else if String.eqb (rq_Op req) OpRequest then ingest req
    else if String.eqb (rq_Op req) OpRun then run req
    else mret (refuse CodeInvalidRequest).
End Broker.
