(* ===== verification/BrokerSafety.v ===== *)
(** The broker under all interleavings of its requests: what is run was approved, the
    owner is asked one thing at a time, and replies carry no value. *)
From S2P Require Import Prelude Text Secure Redactor Filepath Command Broker.
From stdpp Require Import options.

(** ** The shared variables *)

(** [vault != nil], [closed], the keys of [always], the tokens in [queued] and [runs],
    and the holder of [promptMu]. *)
Record State := { vault : bool; closed : bool; always : gset string; queued : nat; prompt : option nat; runs : nat }.

Definition set_vault (s : State) : State :=
  {| vault := true; closed := closed s; always := always s; queued := queued s; prompt := prompt s; runs := runs s |}.
Definition set_always (keys : gset string) (s : State) : State :=
  {| vault := vault s; closed := closed s; always := keys; queued := queued s; prompt := prompt s; runs := runs s |}.
Definition set_queued (n : nat) (s : State) : State :=
  {| vault := vault s; closed := closed s; always := always s; queued := n; prompt := prompt s; runs := runs s |}.
Definition set_prompt (p : option nat) (s : State) : State :=
  {| vault := vault s; closed := closed s; always := always s; queued := queued s; prompt := p; runs := runs s |}.
Definition set_runs (n : nat) (s : State) : State :=
  {| vault := vault s; closed := closed s; always := always s; queued := queued s; prompt := prompt s; runs := n |}.

(** What a call of the request [i] may be answered, and what it does to the variables.
    The owner, the vault, the runner and the file system answer anything; the lock is
    waited for. *)
Definition answers (i : nat) {X} (c : call X) : State → X → State → Prop :=
  match c in Call.call X return State → X → State → Prop with
  | Call.IsClosed => λ s x s', x = closed s ∧ s' = s
  | Call.CurrentVault => λ s x s', x = vault s ∧ s' = s
  | Call.SetVault => λ s _ s', s' = if closed s then s else set_vault s
  | Call.Always key => λ s x s', x = bool_decide (key ∈ always s) ∧ s' = s
  | Call.SetAlways key => λ s _ s', s' = if closed s then s else set_always ({[key]} ∪ always s) s
  | Call.TryQueue => λ s x s', x = (queued s <? Limits.QueuedPrompts)%nat ∧ s' = if (x : bool) then set_queued (S (queued s)) s else s
  | Call.LeaveQueue => λ s _ s', s' = set_queued (pred (queued s)) s
  | Call.LockPrompt => λ s _ s', prompt s = None ∧ s' = set_prompt (Some i) s
  | Call.UnlockPrompt => λ s _ s', s' = set_prompt None s
  | Call.TryRun => λ s x s', x = (runs s <? Limits.ConcurrentRuns)%nat ∧ s' = if (x : bool) then set_runs (S (runs s)) s else s
  | Call.LeaveRun => λ s _ s', s' = set_runs (pred (runs s)) s
  | _ => λ s _ s', s' = s
  end.

(** [Close] *)
Definition Close (s : State) : State :=
  {| vault := vault s; closed := true; always := ∅; queued := queued s; prompt := prompt s; runs := runs s |}.

Section System.
Context {options : Options} {crypto : Crypto} {sorting : SpanSort}.

(** A request: what is left of its program, and its calls, the last one first. *)
Record Thread := { th_request : Request; th_program : program Response; th_past : history call }.
Record System := { shared : State; threads : gmap nat Thread }.

Inductive step : System → System → Prop :=
| step_arrive sys i req : threads sys !! i = None →
    step sys {| shared := shared sys; threads := <[i := {| th_request := req; th_program := Handle req; th_past := [] |}]> (threads sys) |}
| step_call sys i req past X (c : call X) k x s' :
    threads sys !! i = Some {| th_request := req; th_program := Ask c k; th_past := past |} →
    answers i c (shared sys) x s' →
    step sys {| shared := s';
      threads := <[i := {| th_request := req; th_program := k x; th_past := Event c x :: past |}]> (threads sys) |}
| step_close sys : step sys {| shared := Close (shared sys); threads := threads sys |}.

(** A broker that starts, with a vault or in setup mode. *)
Definition initial (has_vault : bool) : System :=
  {| shared := {| vault := has_vault; closed := false; always := ∅; queued := 0; prompt := None; runs := 0 |}; threads := ∅ |}.
Definition reachable (sys : System) : Prop := ∃ has_vault, rtc step (initial has_vault) sys.

(** ** What a request has *)

(** The lock of the owner's channel, a place in the queue, a slot of a run: by the
    last of its calls that took or released it. *)
Fixpoint holds_prompt (past : history call) : bool :=
  match past with
  | [] => false
  | Event c x :: past => match c with Call.LockPrompt => true | Call.UnlockPrompt => false | _ => holds_prompt past end
  end.
Fixpoint holds_place (past : history call) : bool :=
  match past with
  | [] => false
  | Event c x :: past =>
      match c in Call.call X return X → bool with
      | Call.TryQueue => λ x, x
      | Call.LeaveQueue => λ _, false
      | _ => λ _, holds_place past
      end x
  end.
Fixpoint holds_slot (past : history call) : bool :=
  match past with
  | [] => false
  | Event c x :: past =>
      match c in Call.call X return X → bool with
      | Call.TryRun => λ x, x
      | Call.LeaveRun => λ _, false
      | _ => λ _, holds_slot past
      end x
  end.

(** The owner allowed a command always, and may. *)
Definition allowed_always (past : history call) (key : string) : Prop :=
  ∃ cmd, Event (Call.ApproveRun cmd) (Some AllowAlways) ∈ past ∧ cmd_AlwaysAllowed cmd = true ∧ key = ApprovalKey cmd.

(** Why a request may run a command: it was for this command, which was shown to the
    owner or had been allowed always. *)
Definition approved_for (req : Request) (past : history call) (cmd : Command) : Prop :=
  (∃ fs, Event Call.Files fs ∈ past ∧ ResolveCommand fs (rq_Argv req) (rq_Dir req) (rq_Secrets req) broker_path = Ok cmd) ∧
  (Event (Call.Always (ApprovalKey cmd)) true ∈ past ∨
   ∃ decision, Event (Call.ApproveRun cmd) (Some decision) ∈ past ∧ decision ≠ Deny).

(** The command was approved; it was checked again after that, on files read for the
    check; and it gets the named values, read after the check and long enough to be
    redacted. *)
Definition run_allowed (req : Request) (past : history call) (cmd : Command) (env : list string) (timeout : Z) : Prop :=
  ∃ after fs u before, past = after ++ Event Call.Files fs :: before ∧
    approved_for req before cmd ∧
    Command.Verify fs cmd (rq_Argv req) (rq_Dir req) (rq_Secrets req) broker_path = Ok u ∧
    (∃ values, Event (Call.Values (cmd_Secrets cmd)) (Found values) ∈ after ∧ too_short values = false ∧
      env = environment (cmd_Secrets cmd) values) ∧
    timeout = run_timeout req.

(** The calls that a request may make, by those it has made. *)
Definition permitted (req : Request) (past : history call) (X : Type) (c : call X) : Prop :=
  match c with
  | Call.ApproveRun _ | Call.ReadSecret _ | Call.Apply _ | Call.UnlockPrompt => holds_prompt past = true
  | Call.TryQueue => holds_place past = false
  | Call.LockPrompt => holds_prompt past = false ∧ holds_place past = true
  | Call.LeaveQueue => holds_place past = true
  | Call.TryRun => holds_slot past = false
  | Call.LeaveRun => holds_slot past = true
  | Call.SetAlways key => allowed_always past key
  | Call.Run cmd env timeout => holds_slot past = true ∧ run_allowed req past cmd env timeout
  | Call.Store name value => ∃ ingest, in_Name ingest = name ∧ Event (Call.ReadSecret ingest) (Some value) ∈ past
  | _ => True
  end.

(** A reply without any value: a refusal, names, or a state. *)
Definition plain_reply (r : Response) : Prop :=
  rs_ExitCode r = None ∧ rs_Stdout r = "" ∧ rs_Stderr r = "".

(** What a request replies, when it has given everything back. *)
Definition replied (req : Request) (past : history call) (r : Response) : Prop :=
  holds_prompt past = false ∧ holds_place past = false ∧ holds_slot past = false ∧
  (plain_reply r ∨
   ∃ cmd values timeout result, Event (Call.Run cmd (environment (cmd_Secrets cmd) values) timeout) result ∈ past ∧
     r = run_response values result).
(** ** Each request keeps to what is permitted *)

Lemma plain_refuse code : plain_reply (refuse code).
Proof. done. Qed.
Lemma plain_response ok code names state steps : plain_reply (response ok code names state steps).
Proof. done. Qed.
#[local] Hint Resolve plain_refuse plain_response : core.

(** The calls so far grow. *)
Definition since (past past' : history call) : Prop := ∃ new, past' = new ++ past.
#[local] Instance since_preorder : PreOrder since.
Proof.
  split; [by exists []|]. intros p1 p2 p3 [n1 ->] [n2 ->]. exists (n2 ++ n1). by rewrite app_assoc.
Qed.
Lemma since_cons past e past' : since past past' → since past (e :: past').
Proof. intros [new ->]. by exists (e :: new). Qed.
Lemma since_elem past past' e : since past past' → e ∈ past → e ∈ past'.
Proof. intros [new ->] Hin. apply elem_of_app. by right. Qed.

#[local] Hint Extern 1 (since _ _) => (repeat apply since_cons); (assumption || reflexivity) : core.

(** What a dialogue with the owner is given, and what it must leave: the lock, and
    the slots as they were. *)
Definition dialogue (req : Request) (past : history call) (past' : history call) (r : Response) : Prop :=
  holds_prompt past' = holds_prompt past ∧ holds_place past' = holds_place past ∧ holds_slot past' = holds_slot past ∧
  since past past'.

Ltac steps := repeat first [progress cbn [mbind flow_bind flow_bind_ ask mret flow_ret guard_with wp enter permitted] | split; [by auto|] | intros ?].

Lemma wp_withPrompt {R} req (fn : program Response) past (Ret : history call → R → Prop) (P : history call → Response → Prop) Q :
  holds_prompt past = false → holds_place past = false →
  (∀ past code, P past (refuse code)) → (∀ past e r, P past r → P (e :: past) r) →
  (∀ past1, since past past1 → holds_prompt past1 = true → holds_place past1 = true → holds_slot past1 = holds_slot past →
    wp (permitted req) fn past1 (λ past' r, dialogue req past1 past' r ∧ P past' r) (λ past' r, dialogue req past1 past' r ∧ P past' r)) →
  (∀ past' r, since past past' → holds_prompt past' = false → holds_place past' = false → holds_slot past' = holds_slot past →
    P past' r → Q past' r) →
  wp (permitted req) (withPrompt fn) past Ret Q.
Proof.
  intros Hp Hq Hrefuse Hmono Hfn HQ. unfold withPrompt. cbn [mbind flow_bind flow_bind_ ask wp permitted]. split; [done|]. intros [].
  2: { cbn. apply HQ; [by auto|done|done|done|apply Hrefuse]. }
  cbn [negb mbind flow_bind flow_bind_ ask wp permitted]. split; [done|]. intros []. split; [done|]. intros gone.
  assert (Hend : ∀ past' r, since past past' → holds_prompt past' = true → holds_place past' = true → holds_slot past' = holds_slot past →
    P past' r → wp (permitted req) (_ ← ask Call.UnlockPrompt; _ ← ask Call.LeaveQueue; mret r) past' Ret Q).
  { intros past' r Hs H1 H2 H3 Hr. cbn [mbind flow_bind flow_bind_ ask wp permitted]. split; [done|]. intros []. split; [done|].
    intros []. cbn. apply HQ; [by auto|done|done|done|by do 2 apply Hmono]. }
  apply wp_bind. destruct gone; [by apply Hend; [auto|..]|]. apply wp_enter. eapply wp_mono; [..|by apply Hfn; auto]; cbn beta.
  all: intros past' r [(H1 & H2 & H3 & H4) Hr]; apply Hend; [etransitivity; [|exact H4]; auto|by rewrite H1|by rewrite H2|by rewrite H3|done].
Qed.

(** The answer of the owner to a run. *)
Definition owner_allowed (cmd : Command) (past : history call) (r : Response) : Prop :=
  plain_reply r ∧ (rs_OK r = true → ∃ decision, Event (Call.ApproveRun cmd) (Some decision) ∈ past ∧ decision ≠ Deny).

Ltac member := first [apply list_elem_of_here | apply list_elem_of_further; member].
Ltac settle := split; [split_and!; [done|done|done|by auto]|].

Lemma wp_ask_owner req cmd past1 : holds_prompt past1 = true →
  wp (permitted req) (ask_owner cmd) past1 (λ past' r, dialogue req past1 past' r ∧ owner_allowed cmd past' r)
    (λ past' r, dialogue req past1 past' r ∧ owner_allowed cmd past' r).
Proof.
  intros Hp. unfold ask_owner. cbn [mbind flow_bind flow_bind_ ask wp permitted]. split; [done|].
  intros [[]|]; cbn [mbind flow_bind flow_bind_ ask wp permitted]; try (cbn; settle; by split).
  all: split; [done|]; intros []; [cbn; settle; by split|].
  - cbn. settle. split; [done|]. intros _. exists AllowOnce. split; [member|done].
  - destruct (cmd_AlwaysAllowed cmd) eqn:E; cbn [mbind flow_bind flow_bind_ ask wp permitted]; split; try done.
    + exists cmd. split_and!; [member|done|done].
    + intros []. cbn. settle. split; [done|]. intros _. exists AllowAlways. split; [member|done].
    + intros []. cbn. settle. split; [done|]. intros _. exists AllowAlways. split; [member|done].
Qed.
Lemma approved_for_mono req past past' cmd : since past past' → approved_for req past cmd → approved_for req past' cmd.
Proof.
  intros Hs [(fs & H1 & H2) H3]. split; [exists fs; split; [by eapply since_elem|done]|].
  destruct H3 as [H3|(d & H3 & H4)]; [left; by eapply since_elem|right; exists d; split; [by eapply since_elem|done]].
Qed.

(** What a run replies, as [replied] has it. *)
Definition run_replied (past : history call) (r : Response) : Prop :=
  plain_reply r ∨
  ∃ cmd values timeout result, Event (Call.Run cmd (environment (cmd_Secrets cmd) values) timeout) result ∈ past ∧
    r = run_response values result.

Lemma wp_run_approved req cmd past1 : holds_slot past1 = true → approved_for req past1 cmd →
  wp (permitted req) (run_approved req cmd) past1 (λ past' r, dialogue req past1 past' r ∧ run_replied past' r)
    (λ past' r, dialogue req past1 past' r ∧ run_replied past' r).
Proof.
  intros Hs Ha. unfold run_approved. cbn [mbind flow_bind flow_bind_ ask wp permitted]. split; [done|]. intros fs.
  destruct (Command.Verify fs cmd _ _ _ _) as [u|e] eqn:Ev; [|cbn; split; [done|]; intros []; settle; by left].
  unfold fresh_values. cbn [mbind flow_bind flow_bind_ ask wp permitted]. split; [done|].
  intros [values| |]; [|cbn; settle; by left..]. unfold guard_with. destruct (too_short values) eqn:Et; [cbn; settle; by left|].
  cbn [mbind flow_bind flow_bind_ ask mret flow_ret wp permitted]. split; [split; [done|]|].
  - eexists [_], fs, u, past1. split_and!; [done|done|done|exists values; split_and!; [member|done|done]|done].
  - intros result. destruct (rr_Started result); cbn [negb]; [|cbn; settle; by left].
    cbn [mbind flow_bind flow_bind_ ask mret flow_ret wp permitted]. split; [done|]. intros []. cbn. settle. right.
    exists cmd, values, (run_timeout req), result. split; [member|done].
Qed.

Lemma wp_run_request req past : holds_prompt past = false → holds_place past = false → holds_slot past = false →
  wp (permitted req) (run req) past (replied req) (replied req).
Proof.
  intros Hp Hq Hs. assert (Hplain : ∀ past' r, holds_prompt past' = false → holds_place past' = false → holds_slot past' = false →
    plain_reply r → replied req past' r) by (intros; split_and!; [done..|by left]).
  unfold run, guard_with. destruct (_ || (rq_TimeoutSeconds req <? 0)); [by apply Hplain|].
  cbn [mbind flow_bind flow_bind_ ask mret flow_ret wp permitted]. split; [done|]. intros fs.
  destruct (ResolveCommand fs _ _ _ _) as [cmd|e] eqn:Er; [|by apply Hplain].
  unfold usable_values. cbn [mbind flow_bind flow_bind_ ask mret flow_ret wp permitted]. split; [done|].
  intros [values| |]; [|by apply Hplain..]. unfold guard_with. destruct (too_short values); [by apply Hplain|].
  cbn [mbind flow_bind flow_bind_ ask mret flow_ret wp permitted]. split; [done|]. intros approved.
  set (past1 := _ :: _ :: _ :: past).
  assert (Hfs : ∃ fs, Event Call.Files fs ∈ past1 ∧ ResolveCommand fs (rq_Argv req) (rq_Dir req) (rq_Secrets req) broker_path = Ok cmd)
    by (exists fs; split; [unfold past1; member|done]).
  assert (Hrest : ∀ past2 r, since past1 past2 → holds_prompt past2 = false → holds_place past2 = false → holds_slot past2 = false →
    plain_reply r → (rs_OK r = true → Event (Call.Always (ApprovalKey cmd)) true ∈ past2 ∨
      ∃ decision, Event (Call.ApproveRun cmd) (Some decision) ∈ past2 ∧ decision ≠ Deny) →
    wp (permitted req) (if negb (rs_OK r) then mret r else slot ← ask Call.TryRun;
      if negb slot then mret (refuse CodeBusy) else resp ← enter (run_approved req cmd); _ ← ask Call.LeaveRun; mret resp)
      past2 (replied req) (replied req)).
  { intros past2 r Hsince H1 H2 H3 Hr Happ. destruct (rs_OK r); cbn [negb]; [|by apply Hplain].
    cbn [mbind flow_bind flow_bind_ ask wp permitted]. split; [done|]. intros []; cbn [negb]; [|by apply Hplain].
    apply wp_bind, wp_enter. set (past3 := Event Call.TryRun true :: past2).
    assert (Ha : approved_for req past3 cmd).
    { apply (approved_for_mono req past2); [by exists [Event Call.TryRun true]|]. split; [|by apply Happ].
      destruct Hfs as (fs1 & Hf & Hr1). exists fs1. split; [by eapply since_elem|done]. }
    eapply wp_mono; [..|by apply wp_run_approved]; cbn beta.
    all: intros past' r' [(E1 & E2 & E3 & _) Hr']; cbn [mbind flow_bind flow_bind_ ask wp permitted]; split; [by rewrite E3|];
      intros []; cbn; split_and!; cbn; [by rewrite E1|by rewrite E2|done|];
      destruct Hr' as [?|(c & v & t & x & Hin & ->)]; [by left|right; exists c, v, t, x; split; [by apply list_elem_of_further|done]]. }
  apply wp_bind. destruct approved.
  - cbn [mret flow_ret wp]. apply Hrest; [done..|]. intros _. left. unfold past1. member.
  - apply (wp_withPrompt req _ _ _ (owner_allowed cmd)); [done|done|by split| | |].
    + intros p e r [Hr Ho]. split; [done|]. intros (d & H & Hd)%Ho. exists d. split; [by apply list_elem_of_further|done].
    + intros past2 _ H1 _ _. by apply wp_ask_owner.
    + intros past2 r Hsince H1 H2 H3 [Hr Ho]. apply Hrest; [done|done|done|by rewrite H3|done|]. intros ?. right. by apply Ho.
Qed.
Lemma plain_replied req past r :
  holds_prompt past = false → holds_place past = false → holds_slot past = false → plain_reply r → replied req past r.
Proof. intros. split_and!; [done..|by left]. Qed.

Lemma wp_ingest req past : holds_prompt past = false → holds_place past = false → holds_slot past = false →
  wp (permitted req) (ingest req) past (replied req) (replied req).
Proof.
  intros Hp Hq Hs. unfold ingest, guard_with. destruct (_ || _); [by apply plain_replied|].
  cbn [mbind flow_bind flow_bind_ ask mret flow_ret wp permitted]. split; [done|].
  intros [replaces|]; [|by apply plain_replied]. apply (wp_withPrompt req _ _ _ (λ _, plain_reply)); [done..| |].
  - intros past1 _ H1 _ _. cbn [mbind flow_bind flow_bind_ ask wp permitted]. split; [done|]. intros [value|]; [|cbn; by settle].
    cbn [mbind flow_bind flow_bind_ ask wp permitted]. split; [done|]. intros []; [cbn; by settle|].
    destruct (_ || _); cbn [mbind flow_bind flow_bind_ ask wp permitted]; [split; [done|]; intros []; cbn; by settle|].
    split; [eexists; split; [|member]; done|]. intros []; cbn [negb mbind flow_bind flow_bind_ ask wp permitted];
      (split; [done|]; intros []; cbn; by settle).
  - intros past' r _ H1 H2 H3 Hr. apply plain_replied; [done|done|by rewrite H3|done].
Qed.

Lemma wp_applySetup req past : holds_prompt past = false → holds_place past = false → holds_slot past = false →
  wp (permitted req) (applySetup req) past (replied req) (replied req).
Proof.
  intros Hp Hq Hs. unfold applySetup, guard_with. destruct (_ || _); [by apply plain_replied|].
  cbn [mbind flow_bind flow_bind_ ask mret flow_ret wp permitted]. split; [done|]. intros has_vault.
  destruct (has_vault || negb has_setup); [by apply plain_replied|].
  apply (wp_withPrompt req _ _ _ (λ _, plain_reply)); [done..| |].
  - intros past1 _ H1 _ _. unfold apply_in_prompt. cbn [mbind flow_bind flow_bind_ ask wp permitted]. split; [done|].
    intros []; [cbn; by settle|]. cbn [mbind flow_bind flow_bind_ ask wp permitted]. split; [done|]. intros [[[] done_] err];
      cbn [mbind flow_bind flow_bind_ ask mret flow_ret wp permitted].
    + split; [done|]. intros []. destruct err as [e|]; [cbn; by settle|].
      cbn [mbind flow_bind flow_bind_ ask mret flow_ret wp permitted]. split; [done|]. intros []. cbn. by settle.
    + destruct err as [e|]; [cbn; by settle|].
      cbn [mbind flow_bind flow_bind_ ask mret flow_ret wp permitted]. split; [done|]. intros []. cbn. by settle.
  - intros past' r _ H1 H2 H3 Hr. apply plain_replied; [done|done|by rewrite H3|done].
Qed.

Lemma wp_Handle req : wp (permitted req) (Handle req) [] (replied req) (replied req).
Proof.
  unfold Handle. cbn [mbind flow_bind flow_bind_ ask mret flow_ret wp permitted]. split; [done|].
  intros []; [by apply plain_replied|]. destruct (negb (rq_V req =? _)); [by apply plain_replied|].
  destruct (String.eqb (rq_Op req) OpSetup); [by apply wp_applySetup|].
  cbn [mbind flow_bind flow_bind_ ask mret flow_ret wp permitted]. split; [done|].
  intros []; cbn [negb]; [|by apply plain_replied]. destruct (String.eqb (rq_Op req) OpNames).
  { destruct (negb (no_run_fields req)); [by apply plain_replied|].
    cbn [mbind flow_bind flow_bind_ ask mret flow_ret wp permitted]. split; [done|]. intros [names|]; by apply plain_replied. }
  destruct (String.eqb (rq_Op req) OpRequest); [by apply wp_ingest|].
  destruct (String.eqb (rq_Op req) OpRun); [by apply wp_run_request|by apply plain_replied].
Qed.

(** ** All requests together *)

(** What is true of every request at any time. *)
Definition thread_ok (th : Thread) : Prop :=
  lawful (permitted (th_request th)) (th_past th) ∧
  wp (permitted (th_request th)) (th_program th) (th_past th) (replied (th_request th)) (replied (th_request th)).

Definition threads_ok (sys : System) : Prop := ∀ i th, threads sys !! i = Some th → thread_ok th.

(** A request reached by a step, with the call it made. *)
Lemma call_ok req past X (c : call X) k x :
  thread_ok {| th_request := req; th_program := Ask c k; th_past := past |} →
  permitted req past X c ∧ thread_ok {| th_request := req; th_program := k x; th_past := Event c x :: past |}.
Proof. intros [Hl [Hp Hk]]. split; [done|]. split; [by split|]. apply Hk. Qed.

Lemma threads_ok_step sys sys' : threads_ok sys → step sys sys' → threads_ok sys'.
Proof.
  intros Hok Hstep. destruct Hstep as [sys i req _|sys i req past X c k x s' Hi _|sys]; [| |done].
  - intros j th. cbn. intros [[_ <-]|[_ H]]%lookup_insert_Some; [|by eapply Hok]. split; [done|]. apply wp_Handle.
  - intros j th. cbn. intros [[_ <-]|[_ H]]%lookup_insert_Some; [|by eapply Hok]. by apply call_ok, (Hok i).
Qed.
(** The number of requests with a property. *)
Definition count (f : history call → bool) (m : gmap nat Thread) : nat := size (filter (λ p, f (th_past p.2) = true) m).
Definition one (b : bool) : nat := if b then 1 else 0.

Lemma count_insert_new f m i th : m !! i = None → count f (<[i := th]> m) = (one (f (th_past th)) + count f m)%nat.
Proof.
  intros Hi. unfold count. rewrite map_filter_insert. cbn. destruct (f (th_past th)) eqn:E.
  - rewrite decide_True by done. rewrite map_size_insert_None; [done|]. by apply map_lookup_filter_None_2; left.
  - rewrite decide_False by done. by rewrite delete_id.
Qed.

Lemma count_update f m i old new : m !! i = Some old →
  (count f (<[i := new]> m) + one (f (th_past old)) = count f m + one (f (th_past new)))%nat.
Proof.
  intros Hi. rewrite <-(insert_delete_id m i old Hi) at 2. rewrite <-(insert_delete_eq m i new).
  rewrite !count_insert_new by apply lookup_delete_eq. lia.
Qed.

(** The shared variables say who has what; an approval for always was given. *)
Record shared_ok (sys : System) : Prop := {
  sh_prompt : ∀ i th, threads sys !! i = Some th → (holds_prompt (th_past th) = true ↔ prompt (shared sys) = Some i);
  sh_holder : ∀ i, prompt (shared sys) = Some i → is_Some (threads sys !! i);
  sh_queued : queued (shared sys) = count holds_place (threads sys) ∧ (queued (shared sys) ≤ Limits.QueuedPrompts)%nat;
  sh_runs : runs (shared sys) = count holds_slot (threads sys) ∧ (runs (shared sys) ≤ Limits.ConcurrentRuns)%nat;
  sh_always : ∀ key, key ∈ always (shared sys) → ∃ j th, threads sys !! j = Some th ∧ allowed_always (th_past th) key;
  sh_asked : ∀ i th key, threads sys !! i = Some th → Event (Call.Always key) true ∈ th_past th →
    ∃ j th', threads sys !! j = Some th' ∧ allowed_always (th_past th') key;
}.

Lemma shared_ok_initial has_vault : shared_ok (initial has_vault).
Proof. split; cbn; try done; try (unfold count; rewrite map_filter_empty, map_size_empty; split; [done|]; unfold Limits.QueuedPrompts, Limits.ConcurrentRuns; lia); set_solver. Qed.
#[local] Opaque Limits.QueuedPrompts Limits.ConcurrentRuns.

Lemma prompt_call i req past X (c : call X) s x s' :
  answers i c s x s' → permitted req past X c → (holds_prompt past = true ↔ prompt s = Some i) →
  (holds_prompt (Event c x :: past) = true ↔ prompt s' = Some i) ∧ ∀ j, j ≠ i → (prompt s' = Some j ↔ prompt s = Some j).
Proof.
  intros Ha Hp Hi. destruct c; cbn in Ha |- *; repeat match goal with H : _ ∧ _ |- _ => destruct H end; subst; try (split; [done|done]);
    try (split; [done|]; intros j Hj; by case_match).
  - by case_match.
  - by case_match.
  - by case_match.
  - split; [done|]. intros j Hj. cbn. rewrite H. split; [|done]. intros [= ->]. done.
  - cbn in Hp. apply Hi in Hp. split; [done|]. intros j Hj. cbn. rewrite Hp. split; [done|]. by intros [= ->].
  - by case_match.
Qed.

Lemma place_call i req past X (c : call X) s x s' :
  answers i c s x s' → permitted req past X c → (one (holds_place past) ≤ queued s)%nat → (queued s ≤ Limits.QueuedPrompts)%nat →
  (queued s' + one (holds_place past) = queued s + one (holds_place (Event c x :: past)))%nat ∧ (queued s' ≤ Limits.QueuedPrompts)%nat.
Proof.
  intros Ha Hp Hn Hm. destruct c; cbn beta iota delta [answers] in Ha; repeat match goal with H : _ ∧ _ |- _ => destruct H end; subst; try done;
    try (by case_match); cbn [permitted holds_place holds_slot] in Hp |- *.
  - rewrite Hp in *. destruct (Nat.ltb_spec (queued s) Limits.QueuedPrompts); cbn; lia.
  - rewrite Hp in *. cbn in *. lia.
Qed.

Lemma slot_call i req past X (c : call X) s x s' :
  answers i c s x s' → permitted req past X c → (one (holds_slot past) ≤ runs s)%nat → (runs s ≤ Limits.ConcurrentRuns)%nat →
  (runs s' + one (holds_slot past) = runs s + one (holds_slot (Event c x :: past)))%nat ∧ (runs s' ≤ Limits.ConcurrentRuns)%nat.
Proof.
  intros Ha Hp Hn Hm. destruct c; cbn beta iota delta [answers] in Ha; repeat match goal with H : _ ∧ _ |- _ => destruct H end; subst; try done;
    try (by case_match); cbn [permitted holds_place holds_slot] in Hp |- *.
  - rewrite Hp in *. destruct (Nat.ltb_spec (runs s) Limits.ConcurrentRuns); cbn; lia.
  - rewrite Hp in *. cbn in *. lia.
Qed.

Lemma always_call i req past X (c : call X) s x s' key :
  answers i c s x s' → permitted req past X c → key ∈ always s' → key ∈ always s ∨ allowed_always past key.
Proof.
  intros Ha Hp. destruct c; cbn in Ha, Hp; repeat match goal with H : _ ∧ _ |- _ => destruct H end; subst; try (by left);
    case_match; try (by left).
  cbn. intros [->%elem_of_singleton|Hin]%elem_of_union; [by right|by left].
Qed.

(** The event that a key was found among those allowed always. *)
Definition found_always (key : string) (e : event call) : Prop :=
  match e with
  | Event c x => match c in Call.call X return X → Prop with Call.Always k => λ x, k = key ∧ x = true | _ => λ _, False end x
  end.

Lemma asked_call i past X (c : call X) s x s' key :
  answers i c s x s' → Event (Call.Always key) true ∈ (Event c x :: past) → key ∈ always s ∨ Event (Call.Always key) true ∈ past.
Proof.
  intros Ha [E|Hin]%elem_of_cons; [left|by right].
  assert (Hkey : found_always key (Event c x)) by by rewrite <-E.
  destruct c; try done. destruct Hkey as [-> ->]. destruct Ha as [Hx _]. symmetry in Hx. by apply bool_decide_eq_true in Hx.
Qed.

(** An approval stays where it was given. *)
Lemma allowed_stays (m : gmap nat Thread) i req p p' past e key :
  m !! i = Some {| th_request := req; th_program := p; th_past := past |} →
  (∃ j th, m !! j = Some th ∧ allowed_always (th_past th) key) →
  ∃ j th, <[i := {| th_request := req; th_program := p'; th_past := e :: past |}]> m !! j = Some th ∧ allowed_always (th_past th) key.
Proof.
  intros Hi (j & th & Hj & cmd & Hin & Hc). destruct (decide (i = j)) as [<-|Hne].
  - eexists i, _. split; [by apply lookup_insert_eq|]. exists cmd. split; [|done]. cbn.
    rewrite Hi in Hj. injection Hj as <-. by apply list_elem_of_further.
  - exists j, th. split; [by rewrite lookup_insert_ne|by exists cmd].
Qed.

Lemma count_at f m i th : m !! i = Some th → (one (f (th_past th)) ≤ count f m)%nat.
Proof.
  intros Hi. rewrite <-(insert_delete_id m i th Hi), count_insert_new by apply lookup_delete_eq. lia.
Qed.

Lemma shared_ok_call sys i req past X (c : call X) k x s' :
  threads sys !! i = Some {| th_request := req; th_program := Ask c k; th_past := past |} →
  answers i c (shared sys) x s' → permitted req past X c → shared_ok sys →
  shared_ok {| shared := s';
    threads := <[i := {| th_request := req; th_program := k x; th_past := Event c x :: past |}]> (threads sys) |}.
Proof.
  intros Hi Ha Hp [S1 S2 [S3 S3'] [S4 S4'] S5 S6]. pose proof (S1 _ _ Hi) as Hprompt. cbn [th_past] in Hprompt.
  destruct (prompt_call _ _ _ _ _ _ _ _ Ha Hp Hprompt) as [Hi' Hother].
  pose proof (count_at holds_place _ _ _ Hi) as Hcp. pose proof (count_at holds_slot _ _ _ Hi) as Hcs. cbn [th_past] in Hcp, Hcs.
  destruct (place_call _ _ _ _ _ _ _ _ Ha Hp ltac:(by rewrite S3) S3') as [Hq Hq'].
  destruct (slot_call _ _ _ _ _ _ _ _ Ha Hp ltac:(by rewrite S4) S4') as [Hr Hr'].
  set (new := {| th_request := req; th_program := k x; th_past := Event c x :: past |}).
  pose proof (count_update holds_place _ _ _ new Hi) as Up. pose proof (count_update holds_slot _ _ _ new Hi) as Us.
  cbn [th_past new] in Up, Us. split; cbn [shared threads].
  - intros j th. intros [[<- <-]|[Hne Hj]]%lookup_insert_Some; [done|]. rewrite (Hother j) by done. by apply S1.
  - intros j Hj. destruct (decide (j = i)) as [->|Hne]; [by rewrite lookup_insert_eq|]. rewrite lookup_insert_ne by done.
    apply S2. by apply Hother.
  - split; [lia|done].
  - split; [lia|done].
  - intros key Hkey. destruct (always_call _ _ _ _ _ _ _ _ _ Ha Hp Hkey) as [Hold|Hnew].
    + eapply allowed_stays; [done|]. by apply S5.
    + eapply allowed_stays; [done|]. by eexists i, _.
  - intros j th key. intros [[<- <-]|[Hne Hj]]%lookup_insert_Some Hin; eapply allowed_stays; try done.
    + destruct (asked_call _ _ _ _ _ _ _ _ Ha Hin) as [Hold|Hold]; [by apply S5|by eapply S6].
    + by eapply S6.
Qed.

Lemma shared_ok_step sys sys' : threads_ok sys → shared_ok sys → step sys sys' → shared_ok sys'.
Proof.
  intros Hok Hsh Hstep. destruct Hstep as [sys i req Hi|sys i req past X c k x s' Hi Ha|sys].
  - destruct Hsh as [S1 S2 S3 S4 S5 S6].
    assert (Hkeep : ∀ key th, (∃ j th, threads sys !! j = Some th ∧ allowed_always (th_past th) key) →
      ∃ j th', <[i := th]> (threads sys) !! j = Some th' ∧ allowed_always (th_past th') key).
    { intros key th (j & th' & Hj & Hk). exists j, th'. split; [|done]. rewrite lookup_insert_ne; [done|]. intros ->. by rewrite Hi in Hj. }
    split; cbn [shared threads].
    + intros j th. intros [[<- <-]|[Hne Hj]]%lookup_insert_Some; [|by apply S1]. split; [done|]. intros [th Hth]%S2. by rewrite Hi in Hth.
    + intros j Hj. destruct (decide (i = j)) as [<-|]; [by rewrite lookup_insert_eq|rewrite lookup_insert_ne by done; by apply S2].
    + by rewrite count_insert_new.
    + by rewrite count_insert_new.
    + intros key Hkey. by apply Hkeep, S5.
    + intros j th key. intros [[<- <-]|[Hne Hj]]%lookup_insert_Some Hin; [by apply elem_of_nil in Hin|]. by eapply Hkeep, S6.
  - eapply shared_ok_call; try done. by apply (call_ok _ _ _ _ k x), (Hok i).
  - destruct Hsh as [S1 S2 S3 S4 S5 S6]. by split.
Qed.

Lemma broker_reachable_ok sys : reachable sys → threads_ok sys ∧ shared_ok sys.
Proof.
  intros [v Hr]. remember (initial v) as s0 eqn:E0. assert (H0 : threads_ok s0 ∧ shared_ok s0)
    by (subst; split; [by intros i th; cbn; rewrite lookup_empty|apply shared_ok_initial]).
  clear E0. induction Hr as [s|s1 s2 s3 Hstep _ IH]; [done|]. destruct H0 as [H1 H2].
  apply IH. split; [by eapply threads_ok_step|by eapply shared_ok_step].
Qed.

(** ** What holds of the broker *)

(** A request that waits for the owner's answer, and one that waits for the lock. *)
Definition asks_owner (p : program Response) : bool :=
  match p with
  | Ask c _ => match c with Call.ApproveRun _ | Call.ReadSecret _ | Call.Apply _ => true | _ => false end
  | _ => false
  end.
Definition waits_for_lock (p : program Response) : bool :=
  match p with Ask c _ => match c with Call.LockPrompt => true | _ => false end | _ => false end.
Definition is_running (p : program Response) : bool :=
  match p with Ask c _ => match c with Call.Run _ _ _ => true | _ => false end | _ => false end.

Lemma asks_owner_holds th : thread_ok th → asks_owner (th_program th) = true → holds_prompt (th_past th) = true.
Proof. destruct th as [req [a|r|X c k] past]; cbn; try done. intros [_ [Hp _]]. by destruct c. Qed.

Lemma running_holds th : thread_ok th → is_running (th_program th) = true → holds_slot (th_past th) = true.
Proof. destruct th as [req [a|r|X c k] past]; cbn; try done. intros [_ [Hp _]]. destruct c; try done. intros _. apply Hp. Qed.

Lemma waiting_holds th : thread_ok th → waits_for_lock (th_program th) = true → holds_place (th_past th) = true.
Proof. destruct th as [req [a|r|X c k] past]; cbn; try done. intros [_ [Hp _]]. destruct c; try done. intros _. apply Hp. Qed.

Lemma count_bounds (P : Thread → bool) f sys : threads_ok sys → (∀ th, thread_ok th → P th = true → f (th_past th) = true) →
  (size (filter (λ p : nat * Thread, P p.2 = true) (threads sys)) ≤ count f (threads sys))%nat.
Proof.
  intros Hok Hf. apply map_subseteq_size, map_filter_subseteq_ext. intros i th Hi HP. cbn in *. apply Hf; [by eapply Hok|done].
Qed.

(** C21: what a broker runs was approved.  When a request is about to run a command, the
    request resolved to that command; the owner approved it in this request, or the
    request found the command's key among those allowed always, because the owner
    approved a command with the same key always, one for which that is permitted;
    AFTER the approval the files were read again and the command passed the check on
    them; and after that check the named secrets were read, each long enough to be
    redacted, which the command gets with the broker's own environment, for a bounded
    time.  This holds for all requests at once, in any interleaving. *)
Theorem runs_are_approved sys i req cmd env timeout k past :
  reachable sys → threads sys !! i = Some {| th_request := req; th_program := Ask (Call.Run cmd env timeout) k; th_past := past |} →
  ∃ after fs u before, past = after ++ Event Call.Files fs :: before ∧
    (∃ fs0, Event Call.Files fs0 ∈ before ∧ ResolveCommand fs0 (rq_Argv req) (rq_Dir req) (rq_Secrets req) broker_path = Ok cmd) ∧
    ((∃ decision, Event (Call.ApproveRun cmd) (Some decision) ∈ before ∧ decision ≠ Deny) ∨
     (Event (Call.Always (ApprovalKey cmd)) true ∈ before ∧
      ∃ j th always_cmd, threads sys !! j = Some th ∧ Event (Call.ApproveRun always_cmd) (Some AllowAlways) ∈ th_past th ∧
        cmd_AlwaysAllowed always_cmd = true ∧ ApprovalKey always_cmd = ApprovalKey cmd)) ∧
    Command.Verify fs cmd (rq_Argv req) (rq_Dir req) (rq_Secrets req) broker_path = Ok u ∧
    (∃ values, Event (Call.Values (sort_strings (rq_Secrets req))) (Found values) ∈ after ∧
      (∀ name value, values !! name = Some value → Limits.MinValueBytes ≤ slen value) ∧
      env = base_env ++ ((λ name, name +:+ "=" +:+ default "" (values !! name)) <$> sort_strings (rq_Secrets req))) ∧
    timeout ≤ Limits.MaxTimeout.
Proof.
  intros [Hth Hsh]%broker_reachable_ok Hi.
  destruct (Hth _ _ Hi) as [_ [[_ (after & fs & u & before & Epast & [Hres Happ] & Hver & (values & Hin & Hshort & Henv) & Ht)] _]].
  cbn [th_past] in Epast. assert (Esec : cmd_Secrets cmd = sort_strings (rq_Secrets req)).
  { destruct Hres as (fs0 & _ & Hr%ResolveCommand_resolved). apply (rs_secrets _ _ _ _ _ _ Hr). }
  rewrite Esec in Hin, Henv. exists after, fs, u, before. split_and!; [done|done| |done| |].
  - destruct Happ as [Hyes|Hd]; [right; split; [done|]|by left].
    assert (Hasked : Event (Call.Always (ApprovalKey cmd)) true ∈ past)
      by (rewrite Epast; apply elem_of_app; right; by apply list_elem_of_further).
    destruct (sh_asked _ Hsh _ _ _ Hi Hasked) as (j & th & Hj & c & Hc & Hal & Hkey). by exists j, th, c.
  - exists values. split_and!; [done| |done]. intros name value Hv. unfold too_short in Hshort.
    apply elem_of_map_to_list, list_elem_of_In in Hv. destruct (Z.ltb_spec (slen value) Limits.MinValueBytes) as [Hlt|]; [|done].
    exfalso. apply not_true_iff_false in Hshort. apply Hshort. apply existsb_exists. eexists. split; [exact Hv|]. by apply Z.ltb_lt.
  - rewrite Ht. cbn [th_request]. unfold run_timeout. destruct (0 <? rq_TimeoutSeconds req); [apply Z.le_min_l|]. by vm_compute.
Qed.

(** C23: the owner is asked one thing at a time, and no request is in the way for ever.
    Two requests that wait for an answer of the owner are one; at most four run and at
    most four are queued; and while a request waits for the lock that another one has,
    that one is not finished and does not wait for the lock. *)
Theorem owner_is_asked_one_thing sys : reachable sys →
  (∀ i j th th', threads sys !! i = Some th → threads sys !! j = Some th' →
    asks_owner (th_program th) = true → asks_owner (th_program th') = true → i = j) ∧
  (size (filter (λ p, is_running (th_program p.2) = true) (threads sys)) ≤ 4)%nat ∧
  (size (filter (λ p, waits_for_lock (th_program p.2) = true) (threads sys)) ≤ 4)%nat ∧
  ∀ j, prompt (shared sys) = Some j → ∃ req X (c : call X) k past,
    threads sys !! j = Some {| th_request := req; th_program := Ask c k; th_past := past |} ∧
    waits_for_lock (Ask c k) = false.
Proof.
  intros [Hth Hsh]%broker_reachable_ok. split_and!.
  - intros i j th th' Hi Hj Ha Hb. apply asks_owner_holds in Ha, Hb; [|by eapply Hth..].
    apply (sh_prompt _ Hsh _ _ Hi) in Ha. apply (sh_prompt _ Hsh _ _ Hj) in Hb. congruence.
  - pose proof (count_bounds (λ th, is_running (th_program th)) holds_slot sys Hth running_holds) as H.
    destruct (sh_runs _ Hsh) as [E Hle]. rewrite E in Hle. etransitivity; [exact H|exact Hle].
  - pose proof (count_bounds (λ th, waits_for_lock (th_program th)) holds_place sys Hth waiting_holds) as H.
    destruct (sh_queued _ Hsh) as [E Hle]. rewrite E in Hle. etransitivity; [exact H|exact Hle].
  - intros j Hj. destruct (sh_holder _ Hsh _ Hj) as [th Hth']. pose proof (proj2 (sh_prompt _ Hsh _ _ Hth') Hj) as Hh.
    destruct (Hth _ _ Hth') as [_ Hwp]. destruct th as [req [a|r|X c k] past]; cbn in Hh, Hwp.
    + destruct Hwp as (Hf & _). by rewrite Hf in Hh.
    + destruct Hwp as (Hf & _). by rewrite Hf in Hh.
    + exists req, X, c, k, past. split; [done|]. destruct c; try done. destruct Hwp as [[Hp _] _]. by rewrite Hp in Hh.
Qed.

Lemma first_bytes_length n s : 0 ≤ n → slen (first_bytes n s) ≤ n.
Proof.
  revert n. induction s as [|c s IH]; intros n Hn; cbn [first_bytes]; [done|]. destruct (Z.ltb_spec 0 n) as [Hlt|]; [|done].
  specialize (IH (n - 1) ltac:(lia)). unfold slen in *. cbn [String.length]. lia.
Qed.
Lemma clip_bound b : slen (clip b).1 ≤ Limits.ReturnBytes.
Proof.
  unfold clip. destruct (Z.leb_spec (slen b) Limits.ReturnBytes); [done|]. by apply first_bytes_length.
Qed.

(** Replies carry no value.  A request that is finished has given back the lock, its
    place and its slot; and its reply has no output, or it is the reply to the run of a
    command, with the outputs of that run redacted for the very values that were in its
    environment, and clipped. *)
Theorem replies_are_redacted sys i req p past r :
  reachable sys → threads sys !! i = Some {| th_request := req; th_program := p; th_past := past |} → p = Done r ∨ p = Exit r →
  holds_prompt past = false ∧ holds_place past = false ∧ holds_slot past = false ∧
  ((rs_ExitCode r = None ∧ rs_Stdout r = "" ∧ rs_Stderr r = "") ∨
   ∃ cmd values timeout result, Event (Call.Run cmd (environment (cmd_Secrets cmd) values) timeout) result ∈ past ∧
     rs_Stdout r = (clip (redacted values (rr_Stdout result) (rr_StdoutCut result)).1).1 ∧
     rs_Stderr r = (clip (redacted values (rr_Stderr result) (rr_StderrCut result)).1).1 ∧
     slen (rs_Stdout r) ≤ Limits.ReturnBytes ∧ slen (rs_Stderr r) ≤ Limits.ReturnBytes).
Proof.
  intros [Hth _]%broker_reachable_ok Hi Hp. destruct (Hth _ _ Hi) as [_ Hwp]. cbn in Hwp.
  assert (Hr : replied req past r) by (by destruct Hp as [-> | ->]). destruct Hr as (H1 & H2 & H3 & Hr). split_and!; [done..|].
  destruct Hr as [?|(cmd & values & timeout & result & Hin & ->)]; [by left|right].
  exists cmd, values, timeout, result. split; [done|]. unfold run_response.
  destruct (redacted values (rr_Stdout result) _) as [o1 n1], (redacted values (rr_Stderr result) _) as [o2 n2].
  cbn [fst].
  pose proof (clip_bound o1) as B1. pose proof (clip_bound o2) as B2. revert B1 B2. destruct (clip o1), (clip o2). intros B1 B2. by split_and!.
Qed.
End System.

(** ** An example *)

Module BrokerDemo.
Import CommandDemo.
#[export] Instance options : Options := {| has_setup := false; broker_path := "/bin"; base_env := ["PATH=/bin"] |}.
#[export] Instance sorting : SpanSort := Redactor.insertion_sort.
Definition values : gmap string string := {["TOKEN" := "s3cr3t-token"; "DB_URL" := "postgres://u:p@h/d"]}.
Definition request : Request := {| rq_V := 1; rq_Op := "run"; rq_Name := ""; rq_Reason := ""; rq_Secrets := ["TOKEN"; "DB_URL"];
  rq_Argv := argv; rq_Dir := "/work"; rq_TimeoutSeconds := 60; rq_Setup := "" |}.
Definition past : history call :=
  [Event (Call.Values ["DB_URL"; "TOKEN"]) (Found values); Event Call.Files files; Event Call.TryRun true; Event Call.LeaveQueue ();
   Event Call.UnlockPrompt (); Event Call.Cancelled false; Event (Call.ApproveRun approved) (Some AllowOnce); Event Call.Cancelled false;
   Event Call.LockPrompt (); Event Call.TryQueue true; Event (Call.Always (ApprovalKey approved)) false;
   Event (Call.Values ["DB_URL"; "TOKEN"]) (Found values); Event Call.Files files; Event Call.CurrentVault true; Event Call.IsClosed false].

(** The request takes a step with this answer. *)
Ltac answered i x := eapply rtc_l; [eapply (step_call _ i request _ _ _ _ x); [reflexivity|repeat split; reflexivity]|]; cbn [shared threads].

Ltac up_to_approval i := answered i false; answered i true; answered i files; answered i (Found values); answered i false;
  answered i true; answered i tt; answered i false.
Ltac up_to_run i := up_to_approval i; answered i (Some AllowOnce); answered i false; answered i tt; answered i tt; answered i true;
  answered i files; answered i (Found values).
Ltac arrives i := eapply rtc_l; [apply (step_arrive _ i request); reflexivity|].

Lemma about_to_run : ∃ sys k, reachable sys ∧ threads sys !! 0%nat = Some {| th_request := request;
  th_program := Ask (Call.Run approved (environment (cmd_Secrets approved) values) 60000000000) k; th_past := past |}.
Proof.
  eexists _, _. split; [exists true; arrives 0%nat; up_to_run 0%nat; apply rtc_refl|]. reflexivity.
Qed.

(** The command prints a secret. *)
Definition result : RunResult := {| rr_ExitCode := 0; rr_TimedOut := false; rr_Started := true; rr_Stdout := "using s3cr3t-token now";
  rr_Stderr := ""; rr_StdoutCut := false; rr_StderrCut := false |}.
Lemma has_run : ∃ sys p, reachable sys ∧ threads sys !! 0%nat = Some p ∧ th_program p = Done (run_response values result).
Proof.
  eexists _, _. split; [exists true; arrives 0%nat; up_to_run 0%nat; answered 0%nat result; answered 0%nat tt; answered 0%nat tt; apply rtc_refl|].
  split; reflexivity.
Qed.
Example reply_hides_token : rs_Stdout (run_response values result) = "using [REDACTED:TOKEN] now".
Proof. vm_compute. reflexivity. Qed.

(** The status of a run is shown while the owner is asked about another one. *)
Example status_during_question : ∃ sys p q, reachable sys ∧ threads sys !! 0%nat = Some p ∧ threads sys !! 1%nat = Some q ∧
  asks_owner (th_program q) = true ∧ (∃ k, th_program p = Ask (Call.Notify (ran_line approved 0)) k).
Proof.
  eexists _, _, _. split; [exists true; arrives 0%nat; up_to_run 0%nat; answered 0%nat result; arrives 1%nat;
    answered 1%nat false; answered 1%nat true; answered 1%nat files; answered 1%nat (Found values); answered 1%nat false; answered 1%nat true; answered 1%nat tt;
    answered 1%nat false; apply rtc_refl|]. split; [reflexivity|]. split; [reflexivity|]. split; [reflexivity|]. eexists. reflexivity.
Qed.

(** A timeout that exceeds an int64 of nanoseconds is over before it begins. *)
Example long_timeout_is_none : run_timeout {| rq_V := 1; rq_Op := "run"; rq_Name := ""; rq_Reason := ""; rq_Secrets := []; rq_Argv := [];
  rq_Dir := ""; rq_TimeoutSeconds := 9223372037; rq_Setup := "" |} < 0.
Proof. vm_compute. reflexivity. Qed.

Lemma runs_are_approved_witness : ∃ sys, reachable sys ∧
  ∃ after fs before, past = after ++ Event Call.Files fs :: before ∧
    ∃ fs0, Event Call.Files fs0 ∈ before ∧ ResolveCommand fs0 argv "/work" ["TOKEN"; "DB_URL"] "/bin" = Ok approved.
Proof.
  destruct about_to_run as (sys & k & Hr & Ht). exists sys. split; [exact Hr|].
  destruct (runs_are_approved sys 0 request approved _ _ k past Hr Ht) as (after & fs & u & before & E & H & _).
  exists after, fs, before. split; [exact E|exact H].
Defined.
Lemma owner_is_asked_one_thing_witness : ∃ sys, reachable sys ∧ (size (filter (λ p, is_running (th_program p.2) = true) (threads sys)) ≤ 4)%nat.
Proof.
  destruct about_to_run as (sys & k & Hr & Ht). exists sys. split; [exact Hr|].
  exact (proj1 (proj2 (owner_is_asked_one_thing sys Hr))).
Defined.
Lemma replies_are_redacted_witness : ∃ sys p, reachable sys ∧ threads sys !! 0%nat = Some p ∧ holds_slot (th_past p) = false.
Proof.
  destruct has_run as (sys & p & Hr & Ht & Hp). exists sys, p. split; [exact Hr|]. split; [exact Ht|].
  destruct p as [req prog past]. exact (proj1 (proj2 (proj2 (replies_are_redacted sys 0 req prog past _ Hr Ht (or_introl Hp))))).
Defined.
End BrokerDemo.
