(* ===== verification/Prepare.v ===== *)
(** The preparation of a bundle (internal/bundle/prepare.go, load.go): missing records
    are generated or imported, derived records are computed in the order of the
    manifest, every durable record is checkpointed in a journal, and a snapshot of the
    revisions is published last.

    [Prepare] is a program over the vault, the clock, the password generator and the
    standard input; the vault may change between any two of its calls. *)
From S2P Require Import Prelude Timestamp Text Secure Protocol VaultObject Bundle Password Template Manifest.
From S2P Require Export Program.
From stdpp Require Import options.

Definition PrepareJournalVersion : Z := 1.
Definition MaxImportBytes : Z := 1048576.
Definition MaxDerivedBytes : Z := 1048576.

Record JournalRecord := { jr_Source : string; jr_Revision : Z; jr_InputRevisions : gmap string Z }.
(** [pj_Records] is [None] where it is nil. *)
Record PrepareJournal := {
  pj_Version : Z; pj_Bundle : string; pj_ManifestDigest : string; pj_Records : option (gmap string JournalRecord); pj_UpdatedAt : string;
}.

Definition Journal_Validate (journal : PrepareJournal) : result unit :=
  _ ← reject_if (negb (pj_Version journal =? PrepareJournalVersion) || negb (nonempty (pj_Bundle journal)) ||
        negb (digestPattern (pj_ManifestDigest journal)) || bool_decide (pj_Records journal = None))
        "bundle prepare journal identity is invalid";
  _ ← reject_if (bool_decide (canonicalTime (pj_UpdatedAt journal) = None)) "bundle prepare journal update time is invalid";
  each_entry (λ name record,
    _ ← reject_if (negb (nonempty name) || (jr_Revision record <? 1) ||
          negb (member ["generate"; "import"; "derive"] (jr_Source record))) "bundle prepare journal record is invalid";
    each_entry (λ input revision, reject_if (negb (nonempty input) || (revision <? 1))
        "bundle prepare journal input revision is invalid") (jr_InputRevisions record))
    (default ∅ (pj_Records journal)).

Record Status := { st_Bundle : string; st_ManifestDigest : string; st_State : string; st_Records : gmap string string }.

Module Call.
(** The calls through the members of [Preparer], with decrypted records and objects,
    and the standard input up to one byte more than is allowed ([None] when it cannot be
    read). *)
Inductive call : Type → Type :=
| ListRecords : call (result (list SecretRecord))
| ListObjects : call (result (list VaultObject))
| PutRecord (record : SecretRecord) (expected : Z) : call (result unit)
| PutJournal (journal : PrepareJournal) (expected : Z) : call (result Z)
| PutSnapshot (snapshot : Snapshot) (expected : Z) : call (result unit)
| Generate (policy : Policy) : call (result string)
| ReadAll : call (option string)
| Now : call Z.
End Call.
Abbreviation call := Call.call.
Abbreviation program := (flow call (result Status)).

(** A result of an error is returned. *)
Definition try {A} (r : result A) : program A := match r with Ok a => mret a | Err msg => Exit (Err msg) end.
Definition fail {A} (msg : string) : program A := Exit (Err msg).

Definition conflictError (msg : string) : string :=
  "optimistic write failed; refetch and start a new prepare operation: " +:+ msg.

(** JSON: a payload decoded over a journal that is there already, the text of a
    journal, and the members of an object of strings, in order. *)
Class PrepareCodec := {
  journal_onto : PrepareJournal → string → option PrepareJournal;
  json_object : string → option (list (string * string));
}.

Section Prepare.
Context {crypto : Crypto} {snapshots : Payload Snapshot} {codec : PrepareCodec}.

Definition sortedRecordNames (records : gmap string ManifestRecord) : list string := sortedMapKeys records.
Definition manifest_records (document : Document) : gmap string ManifestRecord := mf_Records (doc_Manifest document).
Definition bundle_of (document : Document) : string := mf_Bundle (doc_Manifest document).
Definition physical_of (document : Document) (name : string) : string := PhysicalName (bundle_of document) name.

Definition no_record : ManifestRecord := {| mr_Source := ""; mr_Policy := ""; mr_Template := ""; mr_Sensitivity := "" |}.
Definition spec_of (document : Document) (name : string) : ManifestRecord := default no_record (manifest_records document !! name).

(** The later of two records with a name counts. *)
Definition by_name (records : list SecretRecord) : gmap string SecretRecord :=
  foldl (λ m r, <[sr_Name r := r]> m) ∅ records.

Definition empty_record : SecretRecord :=
  {| sr_Name := ""; sr_Value := ""; sr_CreatedAt := ""; sr_RotatedAt := ""; sr_RotateEveryDays := 0; sr_Revision := 0; sr_AllowedOrigins := [] |}.
Definition record_at (records : gmap string SecretRecord) (physical : string) : SecretRecord := default empty_record (records !! physical).

(** ** Status *)

Definition of_bundle (kind key : string) (object : VaultObject) : bool :=
  String.eqb (vo_Kind object) kind && String.eqb (vo_Key object) key.

(** The last snapshot of the bundle; an invalid one is an error. *)
Fixpoint status_snapshot (bundle : string) (objects : list VaultObject) (found : option Snapshot) : result (option Snapshot) :=
  match objects with
  | [] => Ok found
  | object :: rest =>
      if negb (of_bundle KindBundleSnapshot bundle object) then status_snapshot bundle rest found
      else match decodeStrict (vo_Payload object) with
           | Some candidate =>
               if is_ok (Snapshot_Validate candidate) then status_snapshot bundle rest (Some candidate) else Err "bundle snapshot is invalid"
           | None => Err "bundle snapshot is invalid"
           end
  end.

Definition revision_in (snapshot : Snapshot) (name : string) : Z := default 0 (default ∅ (sn_RecordRevisions snapshot) !! name).

Definition is_stale (document : Document) (snapshot : option Snapshot) (name : string) (record : SecretRecord) : bool :=
  match snapshot with
  | None => true
  | Some snapshot =>
      negb (String.eqb (sn_ManifestDigest snapshot) (doc_Digest document)) || negb (revision_in snapshot name =? sr_Revision record) ||
      negb (String.eqb (default "" (default ∅ (sn_PhysicalToLogical snapshot) !! sr_Name record)) name)
  end.

Definition set_state (state : string) (status : Status) : Status :=
  {| st_Bundle := st_Bundle status; st_ManifestDigest := st_ManifestDigest status; st_State := state; st_Records := st_Records status |}.
Definition set_record_state (name state : string) (status : Status) : Status :=
  {| st_Bundle := st_Bundle status; st_ManifestDigest := st_ManifestDigest status; st_State := st_State status;
     st_Records := <[name := state]> (st_Records status) |}.
(** Stale, unless something is missing. *)
Definition make_stale (status : Status) : Status :=
  if negb (String.eqb (st_State status) "missing") then set_state "stale" status else status.

Definition record_status (document : Document) (records : gmap string SecretRecord) (snapshot : option Snapshot) (status : Status)
    (name : string) : Status :=
  match records !! physical_of document name with
  | None => set_record_state name "missing" (set_state "missing" status)
  | Some record =>
      if is_stale document snapshot name record then set_record_state name "stale" (make_stale status)
      else set_record_state name "prepared" status
  end.

Definition prepared (status : Status) (name : string) : bool := String.eqb (default "" (st_Records status !! name)) "prepared".

Fixpoint derived_status (document : Document) (names : list string) (status : Status) : result Status :=
  match names with
  | [] => Ok status
  | name :: rest =>
      if String.eqb (default "" (st_Records status !! name)) "missing" then derived_status document rest status
      else match ParseTemplate (mr_Template (spec_of document name)) with
           | Err _ => Err "bundle derivation is invalid"
           | Ok parsed =>
               if existsb (λ reference, negb (prepared status reference)) (tm_References parsed) then
                 derived_status document rest (make_stale (set_record_state name "stale" status))
               else derived_status document rest status
           end
  end.

Definition calculateStatus (document : Document) (records : list SecretRecord) (objects : list VaultObject) : result Status :=
  snapshot ← status_snapshot (bundle_of document) objects None;
  let status := {| st_Bundle := bundle_of document; st_ManifestDigest := doc_Digest document; st_State := "prepared"; st_Records := ∅ |} in
  let status := foldl (record_status document (by_name records) snapshot) status (sortedRecordNames (manifest_records document)) in
  derived_status document (doc_Derived document) status.

Definition load : program (list SecretRecord * list VaultObject) :=
  records ← ask Call.ListRecords;
  records ← try records;
  objects ← ask Call.ListObjects;
  objects ← try objects;
  mret (records, objects).

Definition now : program string := t ← ask Call.Now; mret (format_rfc3339 t).

Definition Status_of (document : Document) : program Status :=
  '(records, objects) ← load;
  try (calculateStatus document records objects).

(** ** The journal *)

Definition newJournal (document : Document) (now : string) : PrepareJournal :=
  {| pj_Version := PrepareJournalVersion; pj_Bundle := bundle_of document; pj_ManifestDigest := doc_Digest document;
     pj_Records := Some ∅; pj_UpdatedAt := now |}.

Fixpoint find_journal (document : Document) (journal : PrepareJournal) (objects : list VaultObject) : result (PrepareJournal * Z) :=
  match objects with
  | [] => Ok (journal, 0)
  | object :: rest =>
      if negb (of_bundle KindBundlePrepare (bundle_of document) object) then find_journal document journal rest
      else match journal_onto journal (vo_Payload object) with
           | Some journal =>
               if is_ok (Journal_Validate journal) && String.eqb (pj_Bundle journal) (bundle_of document)
               then Ok (journal, vo_Revision object) else Err "bundle prepare journal is invalid"
           | None => Err "bundle prepare journal is invalid"
           end
  end.

Definition loadJournal (document : Document) (objects : list VaultObject) : program (PrepareJournal * Z) :=
  fresh ← now;
  try (find_journal document (newJournal document fresh) objects).

(** [storeJournal]: the new revision, or the error. *)
Definition storeJournal (journal : PrepareJournal) (revision : Z) (wrap : string → string) : program Z :=
  stored ← ask (Call.PutJournal journal revision);
  match (stored : result Z) with Ok revision => mret revision | Err msg => fail (wrap (conflictError msg)) end.

(** ** Imports *)

Fixpoint import_members (members : list (string * string)) (values : gmap string string) : option (gmap string string) :=
  match members with
  | [] => Some values
  | (key, value) :: rest => if bool_decide (is_Some (values !! key)) then None else import_members rest (<[key := value]> values)
  end.
Definition decodeImportObject (raw : string) : option (gmap string string) :=
  members ← json_object raw; import_members members ∅.

Definition readImports (reader : bool) (required : list string) : program (gmap string string) :=
  if bool_decide (required = []) then mret ∅
  else if negb reader then fail "missing imported records on trusted stdin"
  else
    raw ← ask Call.ReadAll;
    match (raw : option string) with
    | None => fail "read trusted stdin imports"
    | Some raw =>
        if MaxImportBytes <? slen raw then fail "trusted stdin imports exceed 1048576 bytes"
        else match decodeImportObject raw with
        | None => fail "trusted stdin imports must be one JSON object of string values"
        | Some values =>
            match List.find (λ name, negb (has_key values name)) required with
            | Some name => fail ("trusted stdin is missing record " +:+ name)
            | None =>
                if existsb (λ p, negb (member required p.1)) (map_to_list values)
                then fail "trusted stdin contains an unexpected record" else mret values
            end
        end
    end.

(** ** The records *)

(** What the loops change. *)
Record Progress := { pg_Records : gmap string SecretRecord; pg_Journal : PrepareJournal; pg_Revision : Z }.

Definition putRecord (name value : string) (existing : option SecretRecord) (wrap : string → string) : program SecretRecord :=
  now ← now;
  let expected := match existing with Some e => sr_Revision e | None => 0 end in
  let record := {| sr_Name := name; sr_Value := value;
    sr_CreatedAt := match existing with Some e => sr_CreatedAt e | None => now end; sr_RotatedAt := now; sr_RotateEveryDays := 0;
    sr_Revision := match existing with Some e => wrap64 (sr_Revision e + 1) | None => 1 end; sr_AllowedOrigins := [] |} in
  stored ← ask (Call.PutRecord record expected);
  match (stored : result unit) with Ok _ => mret record | Err msg => fail (wrap (conflictError msg)) end.

Definition journal_with (journal : PrepareJournal) (name : string) (record : JournalRecord) (now : string) : PrepareJournal :=
  {| pj_Version := pj_Version journal; pj_Bundle := pj_Bundle journal; pj_ManifestDigest := pj_ManifestDigest journal;
     pj_Records := Some (<[name := record]> (default ∅ (pj_Records journal))); pj_UpdatedAt := now |}.

(** The checkpoint after a record. *)
Definition checkpoint (name : string) (entry : JournalRecord) (records : gmap string SecretRecord) (progress : Progress) : program Progress :=
  now ← now;
  let journal := journal_with (pg_Journal progress) name entry now in
  revision ← storeJournal journal (pg_Revision progress) (λ msg, "checkpoint record " +:+ name +:+ ": " +:+ msg);
  mret {| pg_Records := records; pg_Journal := journal; pg_Revision := revision |}.

Definition no_policy : PasswordPolicy :=
  {| ppol_Type := ""; ppol_Length := 0; ppol_Lowercase := false; ppol_Uppercase := false; ppol_Digits := false; ppol_Symbols := false |}.
Definition password_policy (document : Document) (spec : ManifestRecord) : Policy :=
  let policy := default no_policy (mf_Policies (doc_Manifest document) !! mr_Policy spec) in
  {| p_Length := ppol_Length policy; p_Lowercase := ppol_Lowercase policy; p_Uppercase := ppol_Uppercase policy;
     p_Digits := ppol_Digits policy; p_Symbols := ppol_Symbols policy |}.

Definition prepare_error (name msg : string) : string := "prepare record " +:+ name +:+ ": " +:+ msg.

(** One record that is generated or imported. *)
Definition source_step (document : Document) (imported : gmap string string) (name : string) (progress : Progress) : program Progress :=
  let spec := spec_of document name in
  if String.eqb (mr_Source spec) "derive" then mret progress
  else
    let physical := physical_of document name in
    stored ← (match pg_Records progress !! physical with
      | Some stored => mret stored
      | None =>
          value ← (if String.eqb (mr_Source spec) "generate" then
              generated ← ask (Call.Generate (password_policy document spec));
              match (generated : result string) with
              | Ok value => mret value
              | Err _ => fail (prepare_error name "generation failed")
              end
            else mret (default "" (imported !! name)));
          putRecord physical value None (prepare_error name)
      end);
    checkpoint name {| jr_Source := mr_Source spec; jr_Revision := sr_Revision stored; jr_InputRevisions := ∅ |}
      (<[physical := stored]> (pg_Records progress)) progress.

(** The value of a template. *)
Fixpoint expand_nodes (document : Document) (records : gmap string SecretRecord) (nodes : list TemplateNode) (output : string) :
    result string :=
  match nodes with
  | [] => Ok output
  | node :: rest =>
      let part := if nonempty (tn_Reference node) then sr_Value (record_at records (physical_of document (tn_Reference node)))
        else tn_Literal node in
      if MaxDerivedBytes <? slen output + slen part then Err "derived value exceeds 1048576 bytes"
      else expand_nodes document records rest (output +:+ part)
  end.
Definition expand (template : Template) (document : Document) (records : gmap string SecretRecord) : result string :=
  expand_nodes document records (tm_Nodes template) "".

Definition equalRevisions (left right : gmap string Z) : bool :=
  bool_decide (size left = size right) && forallb (λ '(name, revision), default 0 (right !! name) =? revision) (map_to_list left).

Definition input_revisions (document : Document) (records : gmap string SecretRecord) (references : list string) : gmap string Z :=
  list_to_map ((λ reference, (reference, sr_Revision (record_at records (physical_of document reference)))) <$> references).

(** Whether the journal has the record as derived from the inputs. *)
Definition is_current (progress : Progress) (name : string) (stored : option SecretRecord) (inputs : gmap string Z) : bool :=
  match stored, default ∅ (pj_Records (pg_Journal progress)) !! name with
  | Some stored, Some entry => (jr_Revision entry =? sr_Revision stored) && equalRevisions (jr_InputRevisions entry) inputs
  | _, _ => false
  end.

(** One derived record. *)
Definition derive_step (document : Document) (name : string) (progress : Progress) : program Progress :=
  let spec := spec_of document name in
  match ParseTemplate (mr_Template spec) with
  | Err _ => fail (prepare_error name "invalid derivation")
  | Ok parsed =>
      let inputs := input_revisions document (pg_Records progress) (tm_References parsed) in
      let physical := physical_of document name in
      let existing := pg_Records progress !! physical in
      stored ← (if is_current progress name existing inputs then mret (record_at (pg_Records progress) physical)
        else
          match expand parsed document (pg_Records progress) with
          | Err msg => fail (prepare_error name msg)
          | Ok value =>
              match existing with
              | Some stored => if String.eqb (sr_Value stored) value then mret stored else putRecord physical value (Some stored) (prepare_error name)
              | None => putRecord physical value None (prepare_error name)
              end
          end);
      checkpoint name {| jr_Source := mr_Source spec; jr_Revision := sr_Revision stored; jr_InputRevisions := inputs |}
        (<[physical := stored]> (pg_Records progress)) progress
  end.
(** ** Publication *)

(** The first record whose revision is not the one that was used. *)
Definition stale_record (document : Document) (latest used : gmap string SecretRecord) : option string :=
  List.find (λ name, negb (sr_Revision (record_at latest (physical_of document name)) =?
      sr_Revision (record_at used (physical_of document name)))) (sortedRecordNames (manifest_records document)).

Fixpoint insert_revision (revision : Z) (l : list Z) : list Z :=
  match l with [] => [revision] | x :: rest => if x <? revision then x :: insert_revision revision rest else revision :: l end.
Fixpoint unique_revisions (revisions : list Z) (current : Z) (seen : gset Z) : list Z :=
  match revisions with
  | [] => []
  | revision :: rest =>
      if (revision <? 1) || (revision =? current) || bool_decide (revision ∈ seen) then unique_revisions rest current seen
      else revision :: unique_revisions rest current ({[revision]} ∪ seen)
  end.
Definition uniqueSortedRevisions (revisions : list Z) (current : Z) : list Z :=
  foldr insert_revision [] (unique_revisions revisions current ∅).

Fixpoint findSnapshot (objects : list VaultObject) (bundleID : string) : option Snapshot :=
  match objects with
  | [] => None
  | object :: rest =>
      if negb (of_bundle KindBundleSnapshot bundleID object) then findSnapshot rest bundleID
      else match decodeStrict (vo_Payload object) with
           | Some snapshot => if is_ok (Snapshot_Validate snapshot) then Some snapshot else findSnapshot rest bundleID
           | None => findSnapshot rest bundleID
           end
  end.

Fixpoint objectRevision (objects : list VaultObject) (kind key : string) : Z :=
  match objects with
  | [] => 0
  | object :: rest => if of_bundle kind key object then vo_Revision object else objectRevision rest kind key
  end.

(** The earlier revisions of a record: those of the snapshot before, and its own. *)
Definition previous_revisions (before : Snapshot) (name : string) (current : Z) : list Z :=
  let history := default [] (sn_PreviousRecordRevisions before !! name) in
  let previous := revision_in before name in
  uniqueSortedRevisions (if (0 <? previous) && negb (previous =? current) then history ++ [previous] else history) current.

Definition snapshot_step (document : Document) (records : gmap string SecretRecord) (before : option Snapshot) (snapshot : Snapshot)
    (name : string) : Snapshot :=
  let spec := spec_of document name in
  let physical := physical_of document name in
  let current := sr_Revision (record_at records physical) in
  {| sn_Version := sn_Version snapshot; sn_Bundle := sn_Bundle snapshot; sn_ManifestDigest := sn_ManifestDigest snapshot;
     sn_PhysicalToLogical := Some (<[physical := name]> (default ∅ (sn_PhysicalToLogical snapshot)));
     sn_Sources := Some (<[name := {| ss_Source := mr_Source spec; ss_Status := "ready"; ss_Sensitivity := mr_Sensitivity spec |}]>
       (default ∅ (sn_Sources snapshot)));
     sn_RecordRevisions := Some (<[name := current]> (default ∅ (sn_RecordRevisions snapshot)));
     sn_PreviousRecordRevisions := match before with
       | Some before => match previous_revisions before name current with
                        | [] => sn_PreviousRecordRevisions snapshot
                        | l => <[name := l]> (sn_PreviousRecordRevisions snapshot)
                        end
       | None => sn_PreviousRecordRevisions snapshot
       end;
     sn_CreatedAt := sn_CreatedAt snapshot |}.

Definition new_snapshot (document : Document) (records : gmap string SecretRecord) (before : option Snapshot) (createdAt : string) : Snapshot :=
  foldl (snapshot_step document records before)
    {| sn_Version := SnapshotVersion; sn_Bundle := bundle_of document; sn_ManifestDigest := doc_Digest document;
       sn_PhysicalToLogical := Some ∅; sn_Sources := Some ∅; sn_RecordRevisions := Some ∅; sn_PreviousRecordRevisions := ∅;
       sn_CreatedAt := createdAt |} (sortedRecordNames (manifest_records document)).

(** The end of [Prepare]: the listing again, and the snapshot. *)
Definition publish (document : Document) (objects : list VaultObject) (records : gmap string SecretRecord) : program Status :=
  '(latest, _) ← load;
  match stale_record document (by_name latest) records with
  | Some name => fail (prepare_error name "stale revision; refetch and start a new prepare operation")
  | None =>
      createdAt ← now;
      let snapshot := new_snapshot document records (findSnapshot objects (bundle_of document)) createdAt in
      _ ← try (Snapshot_Validate snapshot);
      stored ← ask (Call.PutSnapshot snapshot (objectRevision objects KindBundleSnapshot (bundle_of document)));
      match (stored : result unit) with
      | Err msg => fail ("publish bundle snapshot: " +:+ conflictError msg)
      | Ok _ =>
          published ← Status_of document;
          if negb (String.eqb (st_State published) "prepared") then
            fail "bundle changed while publishing the snapshot; refetch and start a new prepare operation"
          else mret published
      end
  end.

(** The imports that the vault does not have yet. *)
Definition missing_imports (document : Document) (records : gmap string SecretRecord) : list string :=
  filter (λ name, String.eqb (mr_Source (spec_of document name)) "import" && negb (has_key records (physical_of document name)))
    (sortedRecordNames (manifest_records document)).

(** The journal of the manifest: a new one, when there is one of another manifest. *)
Definition journal_for (document : Document) (objects : list VaultObject) : program (PrepareJournal * Z) :=
  '(journal, revision) ← loadJournal document objects;
  if negb (String.eqb (pj_ManifestDigest journal) (doc_Digest document)) then
    fresh ← now;
    let journal := newJournal document fresh in
    revision ← storeJournal journal revision id;
    mret (journal, revision)
  else mret (journal, revision).

Definition Prepare (unlocked : bool) (document : Document) (reader : bool) : program Status :=
  _ ← try (reject_if (negb unlocked) "bundle preparer is not unlocked");
  '(records, objects) ← load;
  status ← try (calculateStatus document records objects);
  if String.eqb (st_State status) "prepared" then mret status
  else
    let byPhysical := by_name records in
    '(journal, revision) ← journal_for document objects;
    imported ← readImports reader (missing_imports document byPhysical);
    progress ← for_each (source_step document imported) (sortedRecordNames (manifest_records document))
      {| pg_Records := byPhysical; pg_Journal := journal; pg_Revision := revision |};
    progress ← for_each (derive_step document) (doc_Derived document) progress;
    publish document objects (pg_Records progress).

(** [LoadSnapshot] of load.go, over the vault. *)
Definition LoadSnapshot {V} {api : VaultAPI V} {store : EncryptedStore} (bundleID : string) (v : V) : result (Snapshot * Z) * V :=
  if negb VaultObject.unlocked || negb (nonempty bundleID) then (Err "bundle snapshot store is not unlocked", v)
  else
    let '(object, v) := GetObject KindBundleSnapshot bundleID v in
    (match object with
     | Err msg => Err msg
     | Ok (payload, revision) =>
         match decodeStrict payload with
         | None => Err "encrypted bundle snapshot is invalid"
         | Some snapshot =>
             if is_ok (Snapshot_Validate snapshot) && String.eqb (sn_Bundle snapshot) bundleID then Ok (snapshot, revision)
             else Err "encrypted bundle snapshot is invalid"
         end
     end, v).
End Prepare.
