(* ===== verification/PrepareSafety.v ===== *)
(** Preparation over a shared vault: any number of preparations, of any documents, and
    other writers change the vault between any two calls; what is published is
    consistent all the same. *)
From S2P Require Import Prelude Timestamp Text Secure Protocol VaultObject Bundle Password Template Manifest ManifestProperties Prepare.
From stdpp Require Import options.

(** ** The vault *)

(** The values of a record, by revision from 1 on; the records at the moments before; the
    journals and snapshots that were ever stored. *)
Record Vault := {
  v_records : gmap string (list string); v_past : list (gmap string (list string)); v_journals : list string; v_snapshots : list Snapshot;
}.
Definition moment (v : Vault) (m : gmap string (list string)) : Prop := m = v_records v ∨ m ∈ v_past v.

(** The revision that a record is at. *)
Definition at_revision (m : gmap string (list string)) (name : string) (revision : Z) : Prop :=
  ∃ h, m !! name = Some h ∧ Z.of_nat (List.length h) = revision.

Definition holds (v : Vault) (name : string) (revision : Z) (value : string) : Prop :=
  1 ≤ revision ∧ ∃ h, v_records v !! name = Some h ∧ h !! Z.to_nat (revision - 1) = Some value.

(** Nothing that was stored is forgotten. *)
Record later (v v' : Vault) : Prop := {
  lt_records : ∀ name h, v_records v !! name = Some h → ∃ more, v_records v' !! name = Some (h ++ more);
  lt_moments : ∀ m, moment v m → moment v' m;
  lt_journals : ∀ p, p ∈ v_journals v → p ∈ v_journals v';
  lt_snapshots : ∀ s, s ∈ v_snapshots v → s ∈ v_snapshots v';
}.
#[export] Instance later_preorder : PreOrder later.
Proof.
  split.
  - intros v. split; [|done..]. intros name h E. exists []. by rewrite app_nil_r.
  - intros v1 v2 v3 [R1 M1 J1 S1] [R2 M2 J2 S2]. split; [|auto..]. intros name h E. destruct (R1 _ _ E) as [m1 E1].
    destruct (R2 _ _ E1) as [m2 E2]. exists (m1 ++ m2). by rewrite app_assoc.
Qed.

Lemma holds_later v v' name revision value : later v v' → holds v name revision value → holds v' name revision value.
Proof.
  intros Hl (Hr & h & Eh & Ev). destruct (lt_records _ _ Hl _ _ Eh) as [more E]. split; [done|]. exists (h ++ more).
  split; [done|]. by apply lookup_app_l_Some.
Qed.

Lemma holds_functional v name revision x y : holds v name revision x → holds v name revision y → x = y.
Proof. intros (_ & h & Eh & Ex) (_ & k & Ek & Ey). congruence. Qed.

(** A write of the next revision of a record. *)
Definition append_value (name value : string) (v : Vault) : Vault :=
  {| v_records := <[name := default [] (v_records v !! name) ++ [value]]> (v_records v); v_past := v_records v :: v_past v;
     v_journals := v_journals v; v_snapshots := v_snapshots v |}.
Definition add_journal (p : string) (v : Vault) : Vault :=
  {| v_records := v_records v; v_past := v_past v; v_journals := p :: v_journals v; v_snapshots := v_snapshots v |}.
Definition add_snapshot (s : Snapshot) (v : Vault) : Vault :=
  {| v_records := v_records v; v_past := v_past v; v_journals := v_journals v; v_snapshots := s :: v_snapshots v |}.

Lemma append_value_later name value v : later v (append_value name value v).
Proof.
  split; [|intros m [->|Hm]; right; [by left|by right]|done..]. intros n h E. cbn. destruct (decide (name = n)) as [<-|Hne].
  - rewrite lookup_insert_eq, E. by exists [value].
  - rewrite lookup_insert_ne by done. exists []. by rewrite app_nil_r.
Qed.
Lemma add_journal_later p v : later v (add_journal p v).
Proof. split; [|done|by right|done]. intros n h E. exists []. by rewrite app_nil_r. Qed.
Lemma add_snapshot_later s v : later v (add_snapshot s v).
Proof. split; [|done|done|by right]. intros n h E. exists []. by rewrite app_nil_r. Qed.

(** A write that fails may have been done all the same: its reply was lost. *)
Definition stored_or_lost {A} (x : result A) (v v' after : Vault) : Prop :=
  match x with Ok _ => v' = after | Err _ => v' = v ∨ v' = after end.

(** The records of a vault, each at its revision. *)
Definition listing (v : Vault) (l : list SecretRecord) : Prop :=
  ∀ r, r ∈ l → holds v (sr_Name r) (sr_Revision r) (sr_Value r) ∧ at_revision (v_records v) (sr_Name r) (sr_Revision r).

(** The text of a journal in the vault. *)
Class JournalText := { journal_payload : PrepareJournal → string }.

Section Vault.
Context {crypto : Crypto} {snapshots : Payload Snapshot} {codec : PrepareCodec} {texts : JournalText} {urls : URLs} {unicode : Unicode}.

(** The answer to a call, and the vault after it. *)
Definition answers (v : Vault) {X} (c : call X) : X → Vault → Prop :=
  match c in Prepare.Call.call X return X → Vault → Prop with
  | Call.ListRecords => λ x v', v' = v ∧
      match x with
      | Ok l => listing v l
      | Err _ => True
      end
  | Call.ListObjects => λ x v', v' = v ∧
      match x with
      | Ok l => ∀ o, o ∈ l → vo_Kind o = KindBundlePrepare → vo_Payload o ∈ v_journals v
      | Err _ => True
      end
  | Call.PutRecord r expected => λ x v',
      let h := default [] (v_records v !! sr_Name r) in
      let after := append_value (sr_Name r) (sr_Value r) v in
      stored_or_lost x v v' after ∧ (v' = after → Z.of_nat (List.length h) = expected ∧ expected + 1 ≤ max_int64)
  | Call.PutJournal j _ => λ x v', stored_or_lost x v v' (add_journal (journal_payload j) v)
  | Call.PutSnapshot s _ => λ x v', stored_or_lost x v v' (add_snapshot s v)
  | _ => λ _ v', v' = v
  end.

Lemma answers_later v X (c : call X) x v' : answers v c x v' → later v v'.
Proof.
  pose proof append_value_later. pose proof add_journal_later. pose proof add_snapshot_later.
  assert (Hs : ∀ A (x : result A) after, stored_or_lost x v v' after → later v after → later v v')
    by (intros A [] after; cbn; [by intros ->|by intros [-> | ->]]).
  destruct c; cbn; try (by intros ->); try (by intros [-> _]); [intros [Hx _]; eapply Hs; [exact Hx|done]|intros Hx; eapply Hs; [exact Hx|done]..].
Qed.

(** ** Consistency *)

(** The value is the template's, from the records at the given revisions. *)
Fixpoint expands (v : Vault) (d : Document) (revisions : gmap string Z) (nodes : list TemplateNode) (value : string) : Prop :=
  match nodes with
  | [] => value = ""
  | node :: rest => ∃ part tail, value = part +:+ tail ∧
      (if nonempty (tn_Reference node) then
         ∃ revision, revisions !! tn_Reference node = Some revision ∧ holds v (physical_of d (tn_Reference node)) revision part
       else part = tn_Literal node) ∧
      expands v d revisions rest tail
  end.

(** A derived record at a revision has the value of its template. *)
Definition derived_from (v : Vault) (d : Document) (name : string) (revision : Z) (revisions : gmap string Z) : Prop :=
  ∃ t value, ParseTemplate (mr_Template (spec_of d name)) = Ok t ∧ holds v (physical_of d name) revision value ∧
    expands v d revisions (tm_Nodes t) value.

(** A journal of the document tells the truth about derived records. *)
Definition truthful (v : Vault) (d : Document) (j : PrepareJournal) : Prop :=
  pj_ManifestDigest j = doc_Digest d → ∀ name entry, name ∈ doc_Derived d → default ∅ (pj_Records j) !! name = Some entry →
  derived_from v d name (jr_Revision entry) (jr_InputRevisions entry).

(** A snapshot of the document: there was a moment when all its records were at the
    revisions of the snapshot, and the derived ones are derived from the others at
    these revisions. *)
Definition consistent (v : Vault) (d : Document) (s : Snapshot) : Prop :=
  sn_ManifestDigest s = doc_Digest d →
  (∃ m, moment v m ∧ ∀ name, is_Some (manifest_records d !! name) → at_revision m (physical_of d name) (revision_in s name)) ∧
  ∀ name, name ∈ doc_Derived d → derived_from v d name (revision_in s name) (default ∅ (sn_RecordRevisions s)).

Lemma expands_later v v' d revisions nodes value : later v v' → expands v d revisions nodes value → expands v' d revisions nodes value.
Proof.
  intros Hl. revert value. induction nodes as [|node nodes IH]; intros value; [done|]. cbn.
  intros (part & tail & -> & Hn & Ht). exists part, tail. split_and!; [done| |by apply IH].
  destruct (nonempty (tn_Reference node)); [|done]. destruct Hn as (r & Er & Hr). exists r. split; [done|by eapply holds_later].
Qed.

Lemma derived_later v v' d name revision revisions :
  later v v' → derived_from v d name revision revisions → derived_from v' d name revision revisions.
Proof.
  intros Hl (t & value & Et & Hh & He). exists t, value. split_and!; [done|by eapply holds_later|by eapply expands_later].
Qed.

Lemma truthful_later v v' d j : later v v' → truthful v d j → truthful v' d j.
Proof. intros Hl Ht E name entry Hn He. eapply derived_later; [done|]. by eapply Ht. Qed.

Lemma consistent_later v v' d s : later v v' → consistent v d s → consistent v' d s.
Proof.
  intros Hl Hc E. destruct (Hc E) as [(m & Hm & Hr) Hd]. split.
  - exists m. split; [by eapply lt_moments|done].
  - intros name Hn. eapply derived_later; [done|]. by apply Hd.
Qed.

(** Revisions that agree on the references give the same expansion. *)
Lemma expands_agree v d revisions revisions' nodes value :
  (∀ node revision, node ∈ nodes → 1 ≤ revision → revisions !! tn_Reference node = Some revision → revisions' !! tn_Reference node = Some revision) →
  expands v d revisions nodes value → expands v d revisions' nodes value.
Proof.
  revert value. induction nodes as [|node nodes IH]; intros value Hagree; [done|]. cbn.
  intros (part & tail & -> & Hn & Ht). exists part, tail. split_and!; [done| |apply IH; [|done]; intros n r Hin; apply Hagree; by right].
  destruct (nonempty (tn_Reference node)); [|done]. destruct Hn as (r & Er & Hr). exists r. split; [|done].
  apply Hagree; [by left| |done]. by destruct Hr.
Qed.

(** ** The documents *)

Context (D : Document → Prop).

(** Documents come from valid manifests, and a digest determines its document. *)
Hypothesis documents_valid : ∀ d, D d → validate (doc_Manifest d) = Ok (doc_Derived d).
Hypothesis digests_determine : ∀ d d', D d → D d' → doc_Digest d = doc_Digest d' → d = d'.
(** The text of a journal is read back as that journal. *)
Hypothesis journals_read : ∀ base j j', pj_Records base = Some ∅ → journal_onto base (journal_payload j) = Some j' → j' = j.

(** The stored journals of any document are truthful, and so are the snapshots
    consistent. *)
Record vault_ok (v : Vault) : Prop := {
  vo_journals : ∀ p d base j, p ∈ v_journals v → D d → pj_Records base = Some ∅ → journal_onto base p = Some j → truthful v d j;
  vo_snapshots : ∀ s d, s ∈ v_snapshots v → D d → consistent v d s;
}.

(** What a preparation may ask. *)
Definition permitted (v : Vault) (X : Type) (c : call X) : Prop :=
  match c with
  | Call.PutRecord r expected => 0 < expected → ∃ d name, D d ∧ name ∈ doc_Derived d ∧ sr_Name r = physical_of d name
  | Call.PutJournal j _ => ∀ d, D d → truthful v d j
  | Call.PutSnapshot s _ => ∀ d, D d → consistent v d s
  | _ => True
  end.

Lemma permitted_later v v' X (c : call X) : later v v' → permitted v X c → permitted v' X c.
Proof.
  intros Hl. destruct c; cbn; try done; intros Hp d Hd; [eapply truthful_later|eapply consistent_later]; [done|by apply Hp|done|by apply Hp].
Qed.

Lemma journals_after v X (c : call X) x v' p : answers v c x v' → p ∈ v_journals v' →
  p ∈ v_journals v ∨ match c with Call.PutJournal j _ => p = journal_payload j | _ => False end.
Proof.
  destruct c; cbn; unfold stored_or_lost; try case_match; intros Ha;
    repeat match goal with H : _ ∧ _ |- _ => destruct H | H : _ ∨ _ |- _ => destruct H end; subst; cbn; rewrite ?elem_of_cons; tauto.
Qed.

Lemma snapshots_after v X (c : call X) x v' s : answers v c x v' → s ∈ v_snapshots v' →
  s ∈ v_snapshots v ∨ match c with Call.PutSnapshot s' _ => s = s' | _ => False end.
Proof.
  destruct c; cbn; unfold stored_or_lost; try case_match; intros Ha;
    repeat match goal with H : _ ∧ _ |- _ => destruct H | H : _ ∨ _ |- _ => destruct H end; subst; cbn; rewrite ?elem_of_cons; tauto.
Qed.

(** A permitted call keeps the vault in order. *)
Lemma answers_ok v X (c : call X) x v' : vault_ok v → permitted v X c → answers v c x v' → vault_ok v'.
Proof using journals_read.
  intros [Hj Hs] Hp Ha. pose proof (answers_later _ _ _ _ _ Ha) as Hl. split.
  - intros p d base j Hin Hd Hb He. eapply truthful_later; [exact Hl|].
    destruct (journals_after _ _ _ _ _ _ Ha Hin) as [Hold|Hnew]; [by eapply Hj|].
    destruct c; try done. subst p. apply journals_read in He as ->; [|done]. by apply Hp.
  - intros s d Hin Hd. eapply consistent_later; [exact Hl|].
    destruct (snapshots_after _ _ _ _ _ _ Ha Hin) as [Hold|Hnew]; [by eapply Hs|].
    destruct c; try done. subst s. by apply Hp.
Qed.

(** ** Programs over a vault that others change

    Between two calls of a program the vault grows by what others do. *)
Fixpoint wpv {A} (p : program A) (v : Vault) (Q : Vault → A → Prop) : Prop :=
  match p with
  | Done a => Q v a
  | Exit _ => True
  | @Ask _ _ _ X c k => permitted v X c ∧
      ∀ v1 x v2, later v v1 → vault_ok v1 → answers v1 c x v2 → later v v2 → wpv (k x) v2 Q
  end.

Lemma wpv_bind {A B} (f : A → program B) p v Q : wpv p v (λ v a, wpv (f a) v Q) → wpv (p ≫= f) v Q.
Proof.
  revert v. induction p as [a|r|X c k IH]; intros v; simpl; [done..|].
  intros [Hp Hk]. split; [done|]. intros v1 x v2 H1 H2 H3 H4. apply IH. by apply (Hk v1).
Qed.

Lemma wpv_mono {A} (p : program A) v (Q Q' : Vault → A → Prop) : (∀ v' a, later v v' → Q v' a → Q' v' a) → wpv p v Q → wpv p v Q'.
Proof.
  revert v. induction p as [a|r|X c k IH]; intros v HQ; simpl; [by apply HQ|done|].
  intros [Hp Hk]. split; [done|]. intros v1 x v2 H1 H2 H3 H4. eapply IH; [|by apply (Hk v1)].
  intros v' a Hl. apply HQ. by etransitivity.
Qed.

(** A program that has not begun may begin later. *)
Lemma wpv_later {A} (p : program A) v v' (Q : Vault → A → Prop) :
  (∀ v1 v2 a, later v1 v2 → Q v1 a → Q v2 a) → later v v' → wpv p v Q → wpv p v' Q.
Proof.
  intros HQ Hl. destruct p as [a|r|X c k]; simpl; [by apply HQ|done|]. intros [Hp Hk]. split; [by eapply permitted_later|].
  intros v1 x v2 H1 H2 H3 H4. apply (Hk v1); [by etransitivity|done|done|by etransitivity].
Qed.

Lemma wpv_ask {X B} (c : call X) (f : X → program B) v Q :
  permitted v X c → (∀ v1 x v2, later v v1 → vault_ok v1 → answers v1 c x v2 → later v v2 → wpv (f x) v2 Q) →
  wpv (x ← ask c; f x) v Q.
Proof. by split. Qed.

(** A call that asks for nothing about the vault. *)
Lemma wpv_try {A B} (r : result A) (f : A → program B) v Q : (∀ a, r = Ok a → wpv (f a) v Q) → wpv (a ← try r; f a) v Q.
Proof. intros Hf. destruct r as [a|e]; [by apply Hf|done]. Qed.

Lemma wpv_for_each {S A} (body : A → S → program S) (I : list A → Vault → S → Prop) l v s Q :
  I [] v s →
  (∀ seen a rest v s, l = seen ++ a :: rest → I seen v s → wpv (body a s) v (I (seen ++ [a]))) →
  (∀ v s, I l v s → Q v s) → wpv (for_each body l s) v Q.
Proof.
  intros H0 Hbody HQ. enough (H : ∀ rest seen v s, l = seen ++ rest → I seen v s → wpv (for_each body rest s) v Q)
    by (by apply (H l [])).
  induction rest as [|a rest IH]; intros seen v' s' E HI.
  - rewrite app_nil_r in E. subst seen. by apply HQ.
  - cbn [for_each]. apply wpv_bind. eapply wpv_mono; [|by eapply Hbody]. intros v'' s'' _ HI'. eapply IH; [|exact HI'].
    by rewrite <-app_assoc.
Qed.

(** ** What is known during a preparation *)

(** The records that were listed or written. *)
Definition known (v : Vault) (records : gmap string SecretRecord) : Prop :=
  ∀ physical r, records !! physical = Some r → holds v physical (sr_Revision r) (sr_Value r).

Lemma known_later v v' records : later v v' → known v records → known v' records.
Proof. intros Hl Hk p r E. eapply holds_later; [done|]. by apply Hk. Qed.

Lemma known_insert v physical r records : known v records → holds v physical (sr_Revision r) (sr_Value r) → known v (<[physical := r]> records).
Proof. intros Hk Hr p r'. rewrite lookup_insert_Some. intros [[<- <-]|[_ E]]; [done|by apply Hk]. Qed.

Lemma by_name_listed l name r : by_name l !! name = Some r → r ∈ l ∧ sr_Name r = name.
Proof.
  unfold by_name. assert (H : ∀ m : gmap string SecretRecord, foldl (λ m r, <[sr_Name r := r]> m) m l !! name = Some r → r ∈ l ∧ sr_Name r = name ∨ m !! name = Some r).
  { induction l as [|x l IH]; intros m; cbn [foldl]; [by right|]. intros [[Hin Hn]|Hm]%IH; [left; split; [by right|done]|].
    apply lookup_insert_Some in Hm as [[<- <-]|[_ Hm]]; [left; split; [by left|done]|by right]. }
  intros [Hr|E]%H; [done|]. by rewrite lookup_empty in E.
Qed.

Lemma by_name_known v l : listing v l → known v (by_name l).
Proof. intros Hl p r [Hin <-]%by_name_listed. by apply Hl. Qed.

Record progress_ok (v : Vault) (d : Document) (p : Progress) : Prop := {
  pk_known : known v (pg_Records p);
  pk_digest : pj_ManifestDigest (pg_Journal p) = doc_Digest d;
  pk_truthful : truthful v d (pg_Journal p);
}.

Lemma progress_later v v' d p : later v v' → progress_ok v d p → progress_ok v' d p.
Proof. intros Hl [Hk Hd Ht]. split; [by eapply known_later|done|by eapply truthful_later]. Qed.

Lemma wpv_putRecord d name value existing wrap v (Q : Vault → SecretRecord → Prop) :
  (existing ≠ None → D d ∧ ∃ logical, logical ∈ doc_Derived d ∧ name = physical_of d logical) →
  (∀ v' r, later v v' → holds v' name (sr_Revision r) (sr_Value r) → sr_Value r = value → Q v' r) →
  wpv (putRecord name value existing wrap) v Q.
Proof.
  intros Hex HQ. unfold putRecord, now. cbn [mbind flow_bind flow_bind_ ask mret flow_ret wpv permitted]. split; [done|].
  intros v1 t v2 _ _ _ Hl2. split.
  { intros Hpos. destruct existing as [e|]; [|lia]. destruct Hex as [Hd (logical & Hin & ->)]; [done|]. by exists d, logical. }
  intros v3 [[]|e] v4 Hl3 _ Ha Hl4; cbn [mret flow_ret wpv fail]; [|done]. cbn in Ha. destruct Ha as [-> Hlen].
  destruct (Hlen eq_refl) as [Hh Hmax]. apply HQ; [|cbn|done].
  - etransitivity; [exact Hl2|]. etransitivity; [exact Hl3|]. apply append_value_later.
  - assert (Erev : match existing with Some e => wrap64 (sr_Revision e + 1) | None => 1 end =
      Z.of_nat (List.length (default [] (v_records v3 !! name))) + 1).
    { destruct existing as [e|]; [rewrite wrap64_small; [lia|unfold min_int64 in *; lia]|lia]. }
    rewrite Erev. split; [lia|]. eexists. split; [by apply lookup_insert_eq|]. rewrite lookup_app_r by lia.
    replace (_ - _)%nat with 0%nat by lia. done.
Qed.

Lemma lookup_journal_with j name entry now n e :
  default ∅ (pj_Records (journal_with j name entry now)) !! n = Some e →
  (n = name ∧ e = entry) ∨ default ∅ (pj_Records j) !! n = Some e.
Proof.
  change (default ∅ (pj_Records (journal_with j name entry now))) with (<[name := entry]> (default ∅ (pj_Records j))).
  rewrite lookup_insert_Some. intros [[-> ->]|[_ H]]; [by left|by right].
Qed.

Lemma wpv_checkpoint d name entry records p v (Q : Vault → Progress → Prop) :
  D d → progress_ok v d p → known v records →
  (name ∈ doc_Derived d → derived_from v d name (jr_Revision entry) (jr_InputRevisions entry)) →
  (∀ v' p', later v v' → progress_ok v' d p' → pg_Records p' = records → Q v' p') →
  wpv (checkpoint name entry records p) v Q.
Proof using digests_determine.
  intros Hd [Hk Hdig Ht] Hrec Hentry HQ. unfold checkpoint, now, storeJournal.
  cbn [mbind flow_bind flow_bind_ ask mret flow_ret wpv permitted]. split; [done|]. intros v1 t v2 _ _ _ Hl2.
  assert (Hj : ∀ v', later v v' → truthful v' d (journal_with (pg_Journal p) name entry (format_rfc3339 t))).
  { intros v' Hl _ n e Hn [[-> ->]|He]%lookup_journal_with; eapply derived_later; [exact Hl|by apply Hentry|exact Hl|by apply Ht]. }
  split.
  { intros d' Hd' E. assert (d = d') as <- by (apply digests_determine; [done..|cbn in E; congruence]). by apply Hj. }
  intros v3 [revision|e] v4 Hl3 _ _ Hl4; cbn [mbind flow_bind mret flow_ret wpv fail flow_bind_]; [|done].
  assert (Hl : later v v4) by by etransitivity. apply HQ; [done| |done]. split; cbn; [by eapply known_later|done|by apply Hj].
Qed.

Lemma find_journal_spec d objects base j revision : find_journal d base objects = Ok (j, revision) →
  (j = base ∨ ∃ o, o ∈ objects ∧ vo_Kind o = KindBundlePrepare ∧ journal_onto base (vo_Payload o) = Some j).
Proof.
  induction objects as [|o objects IH]; cbn [find_journal]; [intros [= <- _]; by left|].
  unfold of_bundle at 1. destruct (String.eqb_spec (vo_Kind o) KindBundlePrepare) as [Ek|_]; cbn [andb negb].
  - destruct (String.eqb (vo_Key o) _); cbn [negb].
    + destruct (journal_onto base _) as [j'|] eqn:Ej; [|done]. destruct (_ && _); [|done]. intros [= <- _]. right.
      exists o. split_and!; [by left|done|done].
    + intros H. destruct (IH H) as [->|(o' & Hin & Ho)]; [by left|right; exists o'; split; [by right|done]].
  - intros H. destruct (IH H) as [->|(o' & Hin & Ho)]; [by left|right; exists o'; split; [by right|done]].
Qed.

Lemma new_journal_truthful v d now : truthful v d (newJournal d now).
Proof. intros _ name entry _ E. cbn in E. by rewrite lookup_empty in E. Qed.

(** The objects of a listing: their journals were stored. *)
Definition listed (v : Vault) (objects : list VaultObject) : Prop :=
  ∀ o, o ∈ objects → vo_Kind o = KindBundlePrepare → vo_Payload o ∈ v_journals v.

Lemma wpv_load v (Q : Vault → list SecretRecord * list VaultObject → Prop) :
  (∀ v1 v' records objects, later v v1 → listing v1 records → later v1 v' → vault_ok v' → listed v' objects → Q v' (records, objects)) →
  wpv load v Q.
Proof.
  intros HQ. unfold load. cbn [mbind flow_bind flow_bind_ ask wpv permitted]. split; [done|].
  intros v1 [records|e] v2 Hl1 _ [-> Hr] Hl2; cbn [try mbind flow_bind flow_bind_ mret flow_ret wpv]; [|done]. split; [done|].
  intros v3 [objects|e] v4 Hl3 Hok [-> Ho] Hl4; cbn [try mbind flow_bind flow_bind_ mret flow_ret wpv]; [|done].
  by apply (HQ v1).
Qed.

Lemma wpv_journal_for d objects v (Q : Vault → PrepareJournal * Z → Prop) :
  D d → vault_ok v → listed v objects →
  (∀ v' j revision, later v v' → pj_ManifestDigest j = doc_Digest d → truthful v' d j → Q v' (j, revision)) →
  wpv (journal_for d objects) v Q.
Proof using digests_determine.
  intros Hd Hok Hlist HQ. unfold journal_for, loadJournal, now, storeJournal.
  cbn [mbind flow_bind flow_bind_ ask mret flow_ret wpv permitted]. split; [done|]. intros v1 t v2 _ _ _ Hl2.
  destruct (find_journal d _ objects) as [[j revision]|e] eqn:Ef; cbn [try mbind flow_bind flow_bind_ mret flow_ret wpv]; [|done].
  destruct (String.eqb_spec (pj_ManifestDigest j) (doc_Digest d)) as [Edig|_]; cbn [negb mbind flow_bind flow_bind_ mret flow_ret wpv permitted].
  - apply HQ; [done|done|]. destruct (find_journal_spec _ _ _ _ _ Ef) as [->|(o & Hin & Hk & Hj)]; [apply new_journal_truthful|].
    eapply truthful_later; [done|]. apply (vo_journals v Hok _ d _ j (Hlist o Hin Hk) Hd) in Hj; done.
  - split; [done|]. intros v3 t' v4 _ _ _ Hl4. split.
    { intros d' Hd' E. assert (d = d') as <- by (by apply digests_determine). by apply new_journal_truthful. }
    intros v5 [revision'|e] v6 Hl5 _ _ Hl6; cbn [mbind flow_bind mret flow_ret wpv fail flow_bind_]; [|done].
    apply HQ; [|done|apply new_journal_truthful]. etransitivity; [exact Hl2|]. by etransitivity.
Qed.

(** ** The document *)

(** What a valid manifest gives: derived records come after what they refer to. *)
Record document_ok (d : Document) : Prop := {
  dk_nodup : NoDup (doc_Derived d);
  dk_derived : ∀ name, name ∈ doc_Derived d ↔ ∃ refs, refers (doc_Manifest d) name refs;
  dk_order : ∀ before name after refs ref, doc_Derived d = before ++ name :: after → refers (doc_Manifest d) name refs →
    ref ∈ refs → ref ∈ doc_Derived d → ref ∈ before;
  dk_refs : ∀ name refs ref, refers (doc_Manifest d) name refs → ref ∈ refs → is_Some (manifest_records d !! ref);
}.

Lemma refers_functional m name refs refs' : refers m name refs → refers m name refs' → refs = refs'.
Proof. intros (r & t & Er & _ & Et & ->) (r' & t' & Er' & _ & Et' & ->). congruence. Qed.

Lemma resolves_exists m name : resolves m name → is_Some (mf_Records m !! name).
Proof. intros [n r p E|n r E|n refs (r & t & E & _)]; by rewrite E. Qed.

Lemma document_is_ok d : D d → document_ok d.
Proof using documents_valid.
  intros Hd. apply documents_valid, valid_manifest_spec in Hd as (Hrec & Hnd & Hder & Hord & _). split; [done|done| |].
  - intros before name after refs ref E Hr Hin Href. eapply Hord; [done|done|done|]. by apply Hder.
  - intros name refs ref Hr Hin. assert (Hname : is_Some (mf_Records (doc_Manifest d) !! name)) by (destruct Hr as (r & t & -> & _); by eexists).
    destruct (Hrec name Hname) as (_ & _ & Hres). destruct Hres as [n r p E Es|n r E Es|n refs' Hr' Hall].
    + pose proof (refers_source _ _ _ _ Hr E) as E'. congruence.
    + pose proof (refers_source _ _ _ _ Hr E) as E'. congruence.
    + rewrite (refers_functional _ _ _ _ Hr Hr') in Hin. by apply resolves_exists, Hall.
Qed.

Lemma physical_inj d name name' : physical_of d name = physical_of d name' → name = name'.
Proof.
  unfold physical_of, PhysicalName. intros E. do 3 (apply string_app_inj in E as [_ E]; [|done]). done.
Qed.

(** The sources of the records: derived ones are those that are derived. *)
Lemma derive_source d name : document_ok d → is_Some (manifest_records d !! name) →
  validate (doc_Manifest d) = Ok (doc_Derived d) → mr_Source (spec_of d name) = "derive" → name ∈ doc_Derived d.
Proof.
  intros Hok [r E] Hv Es. apply valid_manifest_spec in Hv as (Hrec & _). destruct (Hrec name) as (_ & _ & Hres); [by eexists|].
  unfold spec_of, manifest_records in *. rewrite E in Es. cbn in Es. apply (dk_derived d Hok).
  destruct Hres as [n r' p E' Es'|n r' E' Es'|n refs Hr _]; [congruence|congruence|by exists refs].
Qed.

(** ** The loops *)

Definition present (records : gmap string SecretRecord) (d : Document) (name : string) : Prop :=
  is_Some (records !! physical_of d name).

Lemma present_insert records d name physical r : present records d name → present (<[physical := r]> records) d name.
Proof. intros Hp. unfold present in *. rewrite lookup_insert_is_Some. destruct (decide (physical = physical_of d name)); [by left|by right]. Qed.

Lemma record_at_ne records name physical r : physical ≠ name → record_at (<[physical := r]> records) name = record_at records name.
Proof. intros Hne. unfold record_at. by rewrite lookup_insert_ne. Qed.

Lemma record_at_eq records physical r : record_at (<[physical := r]> records) physical = r.
Proof. unfold record_at. by rewrite lookup_insert_eq. Qed.

Lemma known_at v records d name : known v records → present records d name →
  let r := record_at records (physical_of d name) in holds v (physical_of d name) (sr_Revision r) (sr_Value r).
Proof. intros Hk [r E]. unfold record_at. rewrite E. by apply Hk. Qed.

(** After the records of [seen]: those that are not derived are present. *)
Definition sourced (d : Document) (seen : list string) (v : Vault) (p : Progress) : Prop :=
  progress_ok v d p ∧ ∀ name, name ∈ seen → name ∉ doc_Derived d → present (pg_Records p) d name.

Lemma wpv_source_step d imported name seen v p :
  D d → is_Some (manifest_records d !! name) → sourced d seen v p →
  wpv (source_step d imported name p) v (sourced d (seen ++ [name])).
Proof using documents_valid digests_determine.
  intros Hd Hname [Hp Hseen]. pose proof (document_is_ok d Hd) as Hok. unfold source_step.
  destruct (String.eqb_spec (mr_Source (spec_of d name)) "derive") as [Es|Es].
  { split; [done|]. intros n [Hn|Hn]%elem_of_app Hnd; [by apply Hseen|]. apply list_elem_of_singleton in Hn as ->.
    destruct Hnd. apply derive_source; auto. }
  assert (Hnd : name ∉ doc_Derived d).
  { intros (refs & Hr)%(dk_derived d Hok). pose proof Hr as (r & t & E & _). apply Es.
    unfold spec_of, manifest_records. rewrite E. by eapply refers_source. }
  assert (Hfin : ∀ v' stored, later v v' → holds v' (physical_of d name) (sr_Revision stored) (sr_Value stored) →
    wpv (checkpoint name {| jr_Source := mr_Source (spec_of d name); jr_Revision := sr_Revision stored; jr_InputRevisions := ∅ |}
      (<[physical_of d name := stored]> (pg_Records p)) p) v' (sourced d (seen ++ [name]))).
  { intros v' stored Hl Hst. eapply wpv_checkpoint; [exact Hd|by eapply progress_later| |done|].
    - apply known_insert; [|done]. eapply known_later; [done|]. by destruct Hp.
    - intros v'' p' _ Hp' Erec. split; [done|]. intros n Hn Hn'. rewrite Erec.
      apply elem_of_app in Hn as [Hn|Hn]; [by apply present_insert, Hseen|]. apply list_elem_of_singleton in Hn as ->.
      unfold present. rewrite lookup_insert_eq. by eexists. }
  apply wpv_bind. destruct (pg_Records p !! physical_of d name) as [stored|] eqn:E.
  { cbn [wpv mret flow_ret]. apply Hfin; [done|]. by apply (pk_known v d p Hp). }
  apply wpv_bind. assert (Hput : ∀ v' value, later v v' → wpv (putRecord (physical_of d name) value None (prepare_error name)) v'
    (λ v'' stored, wpv (checkpoint name {| jr_Source := mr_Source (spec_of d name); jr_Revision := sr_Revision stored; jr_InputRevisions := ∅ |}
      (<[physical_of d name := stored]> (pg_Records p)) p) v'' (sourced d (seen ++ [name])))).
  { intros v' value Hl. apply (wpv_putRecord d); [done|]. intros v'' r Hl' Hh _. apply Hfin; [by etransitivity|done]. }
  destruct (String.eqb _ "generate"); [|by apply Hput].
  cbn [mbind flow_bind flow_bind_ ask wpv permitted]. split; [done|]. intros v1 [value|e] v2 _ _ _ Hl; [|done]. by apply Hput.
Qed.

(** After the derived records of [done_]: they are derived from the others. *)
Definition derived_upto (d : Document) (done_ : list string) (v : Vault) (p : Progress) : Prop :=
  progress_ok v d p ∧
  (∀ name, is_Some (manifest_records d !! name) → name ∉ doc_Derived d → present (pg_Records p) d name) ∧
  ∀ name, name ∈ done_ → present (pg_Records p) d name ∧
    ∃ refs, refers (doc_Manifest d) name refs ∧
      derived_from v d name (sr_Revision (record_at (pg_Records p) (physical_of d name))) (input_revisions d (pg_Records p) refs).

Lemma lookup_inputs d records refs name revision : input_revisions d records refs !! name = Some revision ↔
  name ∈ refs ∧ revision = sr_Revision (record_at records (physical_of d name)).
Proof.
  unfold input_revisions. split.
  - intros H%elem_of_list_to_map_2. apply list_elem_of_fmap in H as (n & [= -> ->] & Hin). done.
  - intros [Hin ->]. apply elem_of_list_to_map_1'; [|by apply list_elem_of_fmap_2' with (x := name)].
    intros y (n & [= -> ->] & _)%list_elem_of_fmap. done.
Qed.

(** The template of a derived record. *)
Lemma refers_template d name refs parsed : refers (doc_Manifest d) name refs →
  ParseTemplate (mr_Template (spec_of d name)) = Ok parsed → refs = tm_References parsed.
Proof. intros (r & t & E & _ & Et & ->). unfold spec_of, manifest_records. rewrite E. change (default no_record (Some r)) with r. rewrite Et. by intros [= ->]. Qed.

Lemma node_reference t parsed node : ParseTemplate t = Ok parsed → node ∈ tm_Nodes parsed → nonempty (tn_Reference node) = true →
  tn_Reference node ∈ tm_References parsed.
Proof.
  intros [[_ ->] _]%parse_template_spec Hin Hne; [|split; [constructor|done]]. apply list_elem_of_filter. split.
  - by apply nonempty_true in Hne.
  - by apply list_elem_of_fmap_2.
Qed.

Lemma expand_nodes_expands v d records revisions nodes output value :
  (∀ node, node ∈ nodes → nonempty (tn_Reference node) = true →
     let r := record_at records (physical_of d (tn_Reference node)) in
     revisions !! tn_Reference node = Some (sr_Revision r) ∧ holds v (physical_of d (tn_Reference node)) (sr_Revision r) (sr_Value r)) →
  expand_nodes d records nodes output = Ok value → ∃ tail, value = output +:+ tail ∧ expands v d revisions nodes tail.
Proof.
  revert output. induction nodes as [|node nodes IH]; intros output Hnodes; cbn [expand_nodes].
  - intros [= <-]. exists "". split; [by rewrite string_app_nil_r|done].
  - destruct (MaxDerivedBytes <? _); [done|]. intros (tail & -> & Ht)%IH; [|intros n Hin; apply Hnodes; by right].
    eexists. rewrite string_app_assoc. split; [done|]. cbn [expands]. eexists _, tail. split_and!; [done| |done].
    destruct (nonempty (tn_Reference node)) eqn:Ene; [|done]. destruct (Hnodes node) as [Er Hr]; [by left|done|]. by eexists.
Qed.

Lemma equalRevisions_spec left right name revision : equalRevisions left right = true → 1 ≤ revision → left !! name = Some revision →
  right !! name = Some revision.
Proof.
  intros [_ Hall]%andb_true_iff Hr E. rewrite forallb_forall in Hall.
  specialize (Hall (name, revision)). cbn in Hall. rewrite Z.eqb_eq in Hall. destruct (right !! name) as [x|]; cbn in Hall.
  - f_equal. by apply Hall, list_elem_of_In, elem_of_map_to_list.
  - enough (0 = revision) by lia. by apply Hall, list_elem_of_In, elem_of_map_to_list.
Qed.

(** The value that a round of the second loop has for its record. *)
Lemma derived_current v d name p stored inputs refs : progress_ok v d p → name ∈ doc_Derived d →
  is_current p name (pg_Records p !! physical_of d name) inputs = true → pg_Records p !! physical_of d name = Some stored →
  refers (doc_Manifest d) name refs → derived_from v d name (sr_Revision stored) inputs.
Proof.
  intros [Hk Hdig Ht] Hin Hcur E Hr. unfold is_current in Hcur. rewrite E in Hcur.
  destruct (default ∅ _ !! name) as [entry|] eqn:Ee; [|done]. apply andb_true_iff in Hcur as [Erev Eeq]. apply Z.eqb_eq in Erev.
  destruct (Ht Hdig name entry Hin Ee) as (t & value & Et & Hh & He). exists t, value. rewrite <-Erev. split_and!; [done..|].
  eapply expands_agree; [|done]. intros node revision _ H1 H2. by eapply equalRevisions_spec.
Qed.

Lemma derived_expansion v d name parsed value revision p :
  progress_ok v d p → ParseTemplate (mr_Template (spec_of d name)) = Ok parsed →
  (∀ ref, ref ∈ tm_References parsed → present (pg_Records p) d ref) →
  expand parsed d (pg_Records p) = Ok value → holds v (physical_of d name) revision value →
  derived_from v d name revision (input_revisions d (pg_Records p) (tm_References parsed)).
Proof.
  intros [Hk _ _] Ep Hrefs He Hh. exists parsed, value. split_and!; [done..|].
  destruct (expand_nodes_expands v d (pg_Records p) (input_revisions d (pg_Records p) (tm_References parsed)) (tm_Nodes parsed) "" value)
    as (tail & -> & Ht); [|done|done].
  intros node Hin Hne. pose proof (node_reference _ _ _ Ep Hin Hne) as Href. split; [by rewrite lookup_inputs|].
  apply (known_at v (pg_Records p)); [done|by apply Hrefs].
Qed.

(** What is derived stays so when a later record is written. *)
Lemma inputs_insert d before name after refs records physical r n :
  document_ok d → doc_Derived d = before ++ n :: after → name ∈ before ++ [n] → refers (doc_Manifest d) name refs →
  physical = physical_of d n → input_revisions d (<[physical := r]> records) refs = input_revisions d records refs.
Proof.
  intros Hok Eder Hname Hr ->. unfold input_revisions. f_equal. apply list_fmap_ext. intros i ref Hi%list_elem_of_lookup_2.
  f_equal. f_equal. apply record_at_ne. intros <-%physical_inj. pose proof (dk_nodup d Hok) as Hnd.
  assert (Hin : n ∈ doc_Derived d) by (rewrite Eder; apply elem_of_app; right; by left).
  assert (Hsplit : ∃ b a, doc_Derived d = b ++ name :: a ∧ n ∉ b).
  { rewrite Eder in Hnd. apply NoDup_app in Hnd as (_ & Hdis & _). apply elem_of_app in Hname as [Hb|Hn].
    - apply list_elem_of_split in Hb as (b & a & ->). exists b, (a ++ n :: after). rewrite Eder, <-app_assoc. split; [done|].
      intros Hn. apply (Hdis n); [apply elem_of_app; by left|by left].
    - apply list_elem_of_singleton in Hn as ->. exists before, after. split; [done|]. intros Hn. apply (Hdis n); [done|by left]. }
  destruct Hsplit as (b & a & E & Hb). apply Hb. by eapply (dk_order d Hok).
Qed.

Lemma references_present d before name after v p refs ref :
  document_ok d → doc_Derived d = before ++ name :: after → derived_upto d before v p → refers (doc_Manifest d) name refs → ref ∈ refs →
  present (pg_Records p) d ref.
Proof.
  intros Hok Eder (_ & Hsrc & Hbefore) Hr Hin. destruct (decide (ref ∈ doc_Derived d)) as [Hd|Hd].
  - apply Hbefore. by eapply (dk_order d Hok).
  - apply Hsrc; [|done]. by eapply (dk_refs d Hok).
Qed.

(** A checkpoint of a record that was derived. *)
Lemma wpv_derived_checkpoint d before name after v p refs stored :
  D d → doc_Derived d = before ++ name :: after → derived_upto d before v p → refers (doc_Manifest d) name refs →
  holds v (physical_of d name) (sr_Revision stored) (sr_Value stored) →
  derived_from v d name (sr_Revision stored) (input_revisions d (pg_Records p) refs) →
  wpv (checkpoint name {| jr_Source := mr_Source (spec_of d name); jr_Revision := sr_Revision stored;
      jr_InputRevisions := input_revisions d (pg_Records p) refs |} (<[physical_of d name := stored]> (pg_Records p)) p) v
    (derived_upto d (before ++ [name])).
Proof using documents_valid digests_determine.
  intros Hd Eder (Hp & Hsrc & Hbefore) Hr Hh Hder. pose proof (document_is_ok d Hd) as Hok.
  eapply wpv_checkpoint; [exact Hd|done| |done|].
  { apply known_insert; [|done]. by destruct Hp. }
  intros v' p' Hl Hp' Erec. split; [done|]. rewrite Erec. split; [intros n Hn Hn'; by apply present_insert, Hsrc|].
  intros n Hn. apply elem_of_app in Hn as Hcase. destruct Hcase as [Hb|Hcase]; [|apply list_elem_of_singleton in Hcase as ->].
  - destruct (Hbefore n Hb) as (Hpr & refs' & Hr' & Hd'). split; [by apply present_insert|]. exists refs'. split; [done|].
    erewrite inputs_insert by done. rewrite record_at_ne; [by eapply derived_later|]. intros ->%physical_inj.
    pose proof (dk_nodup d Hok) as Hnd. rewrite Eder in Hnd. apply NoDup_app in Hnd as (_ & Hdis & _). apply (Hdis n); [done|by left].
  - split; [unfold present; rewrite lookup_insert_eq; by eexists|]. exists refs. split; [done|].
    erewrite inputs_insert by done. rewrite record_at_eq. by eapply derived_later.
Qed.

Lemma derived_upto_later d done_ v v' p : later v v' → derived_upto d done_ v p → derived_upto d done_ v' p.
Proof.
  intros Hl (Hp & Hsrc & Hdone). split_and!; [by eapply progress_later|done|]. intros n Hn.
  destruct (Hdone n Hn) as (Hpr & refs & Hr & Hd). split; [done|]. exists refs. split; [done|by eapply derived_later].
Qed.

Lemma wpv_derive_step d before name after v p :
  D d → doc_Derived d = before ++ name :: after → derived_upto d before v p →
  wpv (derive_step d name p) v (derived_upto d (before ++ [name])).
Proof using documents_valid digests_determine.
  intros Hd Eder Hup. pose proof (document_is_ok d Hd) as Hok.
  assert (Hin : name ∈ doc_Derived d) by (rewrite Eder; apply elem_of_app; right; by left).
  pose proof Hin as [refs Hr]%(dk_derived d Hok). pose proof Hup as (Hp & _). unfold derive_step.
  destruct (ParseTemplate _) as [parsed|e] eqn:Ep; [|done]. assert (refs = tm_References parsed) as -> by by eapply refers_template.
  pose proof (λ ref, references_present _ _ _ _ _ _ _ ref Hok Eder Hup Hr) as Hrefs. apply wpv_bind.
  assert (Hfin : ∀ v' stored, later v v' → holds v' (physical_of d name) (sr_Revision stored) (sr_Value stored) →
    derived_from v' d name (sr_Revision stored) (input_revisions d (pg_Records p) (tm_References parsed)) →
    wpv (checkpoint name {| jr_Source := mr_Source (spec_of d name); jr_Revision := sr_Revision stored;
      jr_InputRevisions := input_revisions d (pg_Records p) (tm_References parsed) |} (<[physical_of d name := stored]> (pg_Records p)) p) v'
      (derived_upto d (before ++ [name]))).
  { intros v' stored Hl Hh Hder. eapply wpv_derived_checkpoint; [exact Hd|exact Eder|by eapply derived_upto_later|done|done|done]. }
  destruct (is_current _ _ _ _) eqn:Ecur.
  { destruct (pg_Records p !! physical_of d name) as [stored|] eqn:E; [|done]. cbn [wpv mret flow_ret].
    unfold record_at. rewrite E. cbn [default from_option id]. apply Hfin; [done|by apply (pk_known v d p Hp)|].
    eapply derived_current; [done..|by rewrite E|done|done]. }
  destruct (expand parsed d (pg_Records p)) as [value|e] eqn:Eval; [|done].
  assert (Hstored : ∀ v' stored, later v v' → holds v' (physical_of d name) (sr_Revision stored) (sr_Value stored) → sr_Value stored = value →
    derived_from v' d name (sr_Revision stored) (input_revisions d (pg_Records p) (tm_References parsed))).
  { intros v' stored Hl Hh <-. eapply derived_expansion; [by eapply progress_later|done..]. }
  destruct (pg_Records p !! physical_of d name) as [stored|] eqn:E.
  - destruct (String.eqb_spec (sr_Value stored) value) as [Ev|_].
    + pose proof (pk_known v d p Hp _ _ E) as Hh. cbn [wpv mret flow_ret]. apply Hfin; [done|done|by apply Hstored].
    + apply (wpv_putRecord d); [intros _; split; [done|by exists name]|]. intros v' r Hl Hh Ev. apply Hfin; [done|done|by apply Hstored].
  - apply (wpv_putRecord d); [done|]. intros v' r Hl Hh Ev. apply Hfin; [done|done|by apply Hstored].
Qed.

(** ** Publication *)

Lemma new_snapshot_revisions d records before createdAt name :
  is_Some (manifest_records d !! name) →
  default ∅ (sn_RecordRevisions (new_snapshot d records before createdAt)) !! name =
    Some (sr_Revision (record_at records (physical_of d name))).
Proof.
  intros Hname%elem_of_sortedMapKeys. unfold new_snapshot. fold (sortedRecordNames (manifest_records d)) in Hname.
  generalize dependent (sortedRecordNames (manifest_records d)). intros l.
  match goal with |- context [foldl _ ?s l] => generalize s end.
  induction l as [|n l IH] using rev_ind; intros s Hin; [by apply elem_of_nil in Hin|].
  rewrite foldl_app. cbn [foldl]. unfold snapshot_step at 1. cbn [sn_RecordRevisions default from_option id].
  destruct (decide (n = name)) as [->|Hne]; [by rewrite lookup_insert_eq|]. rewrite lookup_insert_ne by done. apply IH.
  apply elem_of_app in Hin as [Hin|Hin]; [done|]. apply list_elem_of_singleton in Hin. congruence.
Qed.

Lemma new_snapshot_digest d records before createdAt : sn_ManifestDigest (new_snapshot d records before createdAt) = doc_Digest d.
Proof.
  unfold new_snapshot. generalize (sortedRecordNames (manifest_records d)). intros l.
  induction l as [|n l IH] using rev_ind; [done|]. rewrite foldl_app. done.
Qed.

Lemma stale_record_None d latest used name : stale_record d latest used = None → is_Some (manifest_records d !! name) →
  sr_Revision (record_at latest (physical_of d name)) = sr_Revision (record_at used (physical_of d name)).
Proof.
  intros Hf Hname%elem_of_sortedMapKeys. unfold stale_record in Hf. apply find_none with (x := name) in Hf; [|by apply list_elem_of_In].
  by apply negb_false_iff, Z.eqb_eq in Hf.
Qed.

(** Records that the vault was at, all at once. *)
Lemma current_moment v d latest used name : listing v latest → known v used → present used d name →
  stale_record d (by_name latest) used = None → is_Some (manifest_records d !! name) →
  at_revision (v_records v) (physical_of d name) (sr_Revision (record_at used (physical_of d name))).
Proof.
  intros Hl Hk Hp Hs Hname. pose proof (known_at v used d name Hk Hp) as [Hpos _]. pose proof (stale_record_None _ _ _ _ Hs Hname) as Erev.
  rewrite <-Erev in *. unfold record_at in *. destruct (by_name latest !! physical_of d name) as [r|] eqn:E; [|cbn in Hpos; lia].
  apply by_name_listed in E as [Hin En]. cbn. rewrite <-En. by apply Hl.
Qed.

Lemma derived_snapshot v d p name before createdAt : document_ok d → derived_upto d (doc_Derived d) v p → name ∈ doc_Derived d →
  let s := new_snapshot d (pg_Records p) before createdAt in derived_from v d name (revision_in s name) (default ∅ (sn_RecordRevisions s)).
Proof.
  intros Hok (_ & _ & Hdone) Hin s. destruct (Hdone name Hin) as (_ & refs & Hr & t & value & Et & Hh & He).
  assert (Hname : is_Some (manifest_records d !! name)) by (destruct Hr as (r & ? & E & _); by exists r).
  exists t, value. unfold revision_in, s. rewrite new_snapshot_revisions by done. split_and!; [done..|].
  eapply expands_agree; [|done]. intros node revision _ _ [Hn ->]%lookup_inputs. apply new_snapshot_revisions.
  by eapply (dk_refs d Hok).
Qed.

Lemma wpv_publish d objects p v : D d → derived_upto d (doc_Derived d) v p → wpv (publish d objects (pg_Records p)) v (λ _ _, True).
Proof using documents_valid digests_determine.
  intros Hd Hup. pose proof (document_is_ok d Hd) as Hok. unfold publish. apply wpv_bind, wpv_load.
  intros v1 v2 latest objects' Hl1 Hlist Hl2 _ _. destruct (stale_record _ _ _) eqn:Es; [done|].
  unfold now. cbn [mbind flow_bind flow_bind_ ask mret flow_ret wpv permitted]. split; [done|]. intros v3 t v4 Hl3 _ -> Hl4.
  apply wpv_try. intros u Hval. cbn [mbind flow_bind flow_bind_ ask mret flow_ret wpv permitted]. split.
  - intros d' Hd' E. rewrite new_snapshot_digest in E. assert (d = d') as <- by (by apply digests_determine). split.
    + exists (v_records v1). split; [eapply lt_moments; [|by left]; etransitivity; [exact Hl2|by etransitivity]|].
      intros name Hname. unfold revision_in. rewrite new_snapshot_revisions by done. cbn [default from_option id].
      assert (Hup1 : derived_upto d (doc_Derived d) v1 p) by by eapply derived_upto_later.
      eapply current_moment; [exact Hlist|by destruct Hup1 as [[]]| |done|done].
      destruct Hup1 as (_ & Hsrc & Hdone). destruct (decide (name ∈ doc_Derived d)); [by apply Hdone|by apply Hsrc].
    + intros name Hin. apply derived_snapshot; [done| |done]. eapply derived_upto_later; [|done].
      etransitivity; [exact Hl1|]. etransitivity; [exact Hl2|by etransitivity].
  - intros v5 [[]|e] v6 _ _ _ _; [|done].
    apply wpv_bind. unfold Status_of. apply wpv_bind, wpv_load. intros v7 v8 records' objects'' _ _ _ _ _.
    destruct (calculateStatus _ _ _) as [st|e]; [|done]. cbn [try wpv mret flow_ret]. by destruct (negb _).
Qed.

Lemma wpv_readImports reader required v (Q : Vault → gmap string string → Prop) :
  (∀ v' values, later v v' → Q v' values) → wpv (readImports reader required) v Q.
Proof.
  intros HQ. unfold readImports. destruct (bool_decide _); [by apply HQ|]. destruct (negb reader); [done|].
  cbn [mbind flow_bind flow_bind_ ask wpv permitted]. split; [done|]. intros v1 [raw|] v2 _ _ _ Hl; [|done]. destruct (MaxImportBytes <? slen raw); [done|].
  destruct (decodeImportObject raw) as [values|]; [|done]. destruct (List.find _ _); [done|]. destruct (existsb _ _); [done|by apply HQ].
Qed.

Lemma wpv_Prepare unlocked d reader v : D d → wpv (Prepare unlocked d reader) v (λ _ _, True).
Proof using documents_valid digests_determine.
  intros Hd. unfold Prepare. apply wpv_try. intros _ _. apply wpv_bind, wpv_load.
  intros v1 v2 records objects _ Hlist Hl2 Hok Hobj. apply wpv_try. intros status _. destruct (String.eqb _ "prepared"); [done|].
  apply wpv_bind, wpv_journal_for; [done..|]. intros v3 journal revision Hl3 Edig Htrue.
  apply wpv_bind, wpv_readImports. intros v4 imported Hl4. apply wpv_bind.
  eapply wpv_for_each with (I := sourced d).
  - split; [|intros n Hn; by apply elem_of_nil in Hn]. split; [|done|by eapply truthful_later].
    eapply known_later; [|by apply by_name_known]. etransitivity; [exact Hl2|]. by etransitivity.
  - intros seen name rest v5 p E Hp. apply wpv_source_step; [done| |done]. apply elem_of_sortedMapKeys.
    fold (sortedRecordNames (manifest_records d)). rewrite E. apply elem_of_app. right. by left.
  - intros v5 p [Hp Hsrc]. apply wpv_bind. eapply wpv_for_each with (I := derived_upto d).
    + split_and!; [done| |intros n Hn; by apply elem_of_nil in Hn]. intros name Hname Hnd. apply Hsrc; [|done].
      by apply elem_of_sortedMapKeys.
    + intros done_ name rest v6 p' E. by eapply wpv_derive_step.
    + intros v6 p' Hup. by apply wpv_publish.
Qed.

(** ** Many preparations *)

(** A vault, and the preparations that were started; one that stops never steps. *)
Record System := { sy_vault : Vault; sy_threads : list (program Status) }.

Inductive sys_step : System → System → Prop :=
| StartPrepare v ts unlocked d reader : D d →
    sys_step {| sy_vault := v; sy_threads := ts |} {| sy_vault := v; sy_threads := ts ++ [Prepare unlocked d reader] |}
| AnswerCall v ts i X (c : call X) k x v' : ts !! i = Some (Ask c k) → answers v c x v' →
    sys_step {| sy_vault := v; sy_threads := ts |} {| sy_vault := v'; sy_threads := <[i := k x]> ts |}
| OtherWriter v ts name value :
    sys_step {| sy_vault := v; sy_threads := ts |} {| sy_vault := append_value name value v; sy_threads := ts |}.

Definition initial (records : gmap string (list string)) : System :=
  {| sy_vault := {| v_records := records; v_past := []; v_journals := []; v_snapshots := [] |}; sy_threads := [] |}.

Definition system_ok (σ : System) : Prop :=
  vault_ok (sy_vault σ) ∧ Forall (λ p, wpv p (sy_vault σ) (λ _ _, True)) (sy_threads σ).

Lemma threads_later v v' (ts : list (program Status)) : later v v' → Forall (λ p, wpv p v (λ _ _, True)) ts → Forall (λ p, wpv p v' (λ _ _, True)) ts.
Proof. intros Hl Hts. eapply Forall_impl; [exact Hts|]. intros p. by apply wpv_later. Qed.

Lemma sys_step_ok σ σ' : sys_step σ σ' → system_ok σ → system_ok σ'.
Proof using documents_valid digests_determine journals_read.
  intros [v ts unlocked d reader Hd|v ts i X c k x v' Hi Ha|v ts name value] [Hv Hts]; cbn in *.
  - split; [done|]. apply Forall_app. split; [done|]. constructor; [by apply wpv_Prepare|constructor].
  - pose proof (Forall_lookup_1 _ _ _ _ Hts Hi) as [Hp Hk]. pose proof (answers_later _ _ _ _ _ Ha) as Hl.
    split; [by eapply answers_ok|]. apply Forall_insert; [by eapply threads_later|]. by apply (Hk v).
  - split; [|eapply threads_later; [apply append_value_later|done]]. destruct Hv as [Hj Hs].
    split; intros; [eapply truthful_later|eapply consistent_later]; eauto using append_value_later.
Qed.

(** C24: whatever preparations run at once over a vault, of whatever documents, with other
    clients writing between their calls, with writes whose replies are lost and with
    preparations that stop half way: every snapshot that is published for a document
    has revisions that all its records had at one moment, and each derived record at
    its revision has the value of its template from the others at theirs; and the only
    records that are written over are derived ones. *)
Theorem published_snapshots_are_consistent records σ : rtc sys_step (initial records) σ →
  (∀ s d, s ∈ v_snapshots (sy_vault σ) → D d → consistent (sy_vault σ) d s) ∧
  ∀ i r expected k, sy_threads σ !! i = Some (Ask (Call.PutRecord r expected) k) → 0 < expected →
    ∃ d name, D d ∧ name ∈ doc_Derived d ∧ sr_Name r = physical_of d name.
Proof using documents_valid digests_determine journals_read.
  intros Hrun. assert (Hok : system_ok σ).
  { assert (H0 : system_ok (initial records)).
    { split; [|constructor]. split; [intros p d base j Hin|intros s d Hin]; by apply elem_of_nil in Hin. }
    revert H0. induction Hrun as [|σ σ' σ'' Hs _ IH]; [done|]. intros H. by apply IH, (sys_step_ok _ _ Hs). }
  destruct Hok as [[_ Hs] Hts]. split; [exact Hs|]. intros i r expected k Hi.
  by destruct (Forall_lookup_1 _ _ _ _ Hts Hi) as [Hp _].
Qed.
End Vault.

(** ** An example *)

Module PrepareDemo.
Import ManifestDemo.
#[export] Instance crypto : Crypto := {| sha256 := id; ed25519_verify := λ _ _ _, true; x25519_usable := λ _, true |}.

Definition digest : string := "0123456789abcdef0123456789abcdef0123456789abcdef0123456789abcdef".
Definition document : Document :=
  {| doc_Manifest := manifest; doc_Canonical := ""; doc_Digest := digest; doc_Derived := ["DB_NAME"; "DB_URL"] |}.

(** Texts that are read back, in place of JSON. *)
Definition journal_text (j : PrepareJournal) : string :=
  Envelope.Toy.to_text (pj_Version j, pj_Bundle j, pj_ManifestDigest j,
    fmap (M:=option) (fmap (M:=gmap string) (λ r, (jr_Source r, jr_Revision r, jr_InputRevisions r))) (pj_Records j), pj_UpdatedAt j).
Definition text_journal (s : string) : option PrepareJournal :=
  '(version, bundle, digest, records, updated) ← Envelope.Toy.of_text s;
  Some {| pj_Version := version; pj_Bundle := bundle; pj_ManifestDigest := digest;
    pj_Records := fmap (M:=option) (fmap (M:=gmap string) (λ r : string * Z * gmap string Z,
      {| jr_Source := r.1.1; jr_Revision := r.1.2; jr_InputRevisions := r.2 |})) records; pj_UpdatedAt := updated |}.
Definition snapshot_text (s : Snapshot) : string :=
  Envelope.Toy.to_text (sn_Version s, sn_Bundle s, sn_ManifestDigest s, sn_PhysicalToLogical s,
    fmap (M:=option) (fmap (M:=gmap string) (λ r, (ss_Source r, ss_Status r, ss_Sensitivity r))) (sn_Sources s), sn_RecordRevisions s,
    sn_PreviousRecordRevisions s, sn_CreatedAt s).
Definition text_snapshot (s : string) : option Snapshot :=
  '(version, bundle, digest, names, sources, revisions, previous, created) ← Envelope.Toy.of_text s;
  Some {| sn_Version := version; sn_Bundle := bundle; sn_ManifestDigest := digest; sn_PhysicalToLogical := names;
    sn_Sources := fmap (M:=option) (fmap (M:=gmap string) (λ r : string * string * string,
      {| ss_Source := r.1.1; ss_Status := r.1.2; ss_Sensitivity := r.2 |})) sources; sn_RecordRevisions := revisions;
    sn_PreviousRecordRevisions := previous; sn_CreatedAt := created |}.
#[export] Instance snapshots : Payload Snapshot := {| to_payload := snapshot_text; decodeStrict := text_snapshot |}.
#[export] Instance codec : PrepareCodec := {| journal_onto := λ _, text_journal; json_object := λ s, Some [("HOOK", s)] |}.
#[export] Instance texts : JournalText := {| journal_payload := journal_text |}.

Lemma journal_is_read j : text_journal (journal_text j) = Some j.
Proof.
  unfold text_journal, journal_text. rewrite Envelope.Toy.of_to_text. cbn. destruct j as [version bundle dig [records|] updated]; [|done].
  cbn. do 3 f_equal. rewrite <-map_fmap_compose. rewrite <-(map_fmap_id records) at 2. apply map_fmap_ext. by intros name [] _.
Qed.

(** A vault that answers at once. *)
Definition record_of (name : string) (h : list string) : list SecretRecord :=
  match last h with
  | Some value => [{| sr_Name := name; sr_Value := value; sr_CreatedAt := ""; sr_RotatedAt := ""; sr_RotateEveryDays := 0;
      sr_Revision := Z.of_nat (List.length h); sr_AllowedOrigins := [] |}]
  | None => []
  end.
Definition object_of (kind payload : string) : VaultObject :=
  {| vo_Kind := kind; vo_Key := "acme/app"; vo_Revision := 1; vo_ModifiedAt := ""; vo_Payload := payload |}.
Definition serve {X} (c : call X) (v : Vault) : X * Vault :=
  match c in Prepare.Call.call X return X * Vault with
  | Call.ListRecords => (Ok (map_to_list (v_records v) ≫= λ p, record_of p.1 p.2), v)
  | Call.ListObjects => (Ok ((object_of KindBundlePrepare <$> take 1 (v_journals v)) ++
      ((λ s, object_of KindBundleSnapshot (snapshot_text s)) <$> take 1 (v_snapshots v))), v)
  | Call.PutRecord r expected =>
      if (Z.of_nat (List.length (default [] (v_records v !! sr_Name r))) =? expected) && (expected + 1 <=? max_int64)
      then (Ok tt, append_value (sr_Name r) (sr_Value r) v) else (Err "conflict", v)
  | Call.PutJournal j _ => (Ok 1, add_journal (journal_payload j) v)
  | Call.PutSnapshot s _ => (Ok tt, add_snapshot s v)
  | Call.Generate _ => (Ok "s3cret", v)
  | Call.ReadAll => (Some "whsec", v)
  | Call.Now => (0, v)
  end.

Lemma serve_answers X (c : call X) v : answers v c (serve c v).1 (serve c v).2.
Proof.
  destruct c as [| |r expected|j revision|s revision|policy| |]; cbn; try done.
  - split; [done|]. intros r Hr. apply list_elem_of_bind in Hr as ([name h] & Hr & Hin%elem_of_map_to_list). unfold record_of in Hr. cbn in Hr.
    destruct (last h) as [value|] eqn:E; [|by apply elem_of_nil in Hr]. apply list_elem_of_singleton in Hr as ->. cbn.
    rewrite last_lookup in E. pose proof (lookup_lt_Some _ _ _ E). split; [|by exists h]. split; [lia|]. exists h. split; [done|].
    by replace (Z.to_nat _) with (pred (List.length h)) by lia.
  - split; [done|]. intros o [Ho|Ho]%elem_of_app Hk; apply list_elem_of_fmap in Ho as (x & -> & Hx); [|done]. cbn. by eapply subseteq_take.
  - destruct (_ && _) eqn:E; cbn; [apply andb_true_iff in E; split; [done|lia]|]. split; [by left|].
    intros Heq%(f_equal (λ v, List.length (v_past v))). cbn in Heq. lia.
Qed.

(** One preparation to its end. *)
Fixpoint exec (p : program Status) (v : Vault) : program Status * Vault :=
  match p with
  | Ask c k => let '(x, v) := serve c v in exec (k x) v
  | _ => (p, v)
  end.

Lemma exec_steps p v ts : rtc (sys_step (eq document)) {| sy_vault := v; sy_threads := ts ++ [p] |}
  {| sy_vault := (exec p v).2; sy_threads := ts ++ [(exec p v).1] |}.
Proof.
  revert v. induction p as [a|r|X c k IH]; intros v; cbn [exec]; [done..|].
  pose proof (serve_answers X c v) as Ha. destruct (serve c v) as [x v'].
  eapply rtc_l; [eapply (AnswerCall _ v (ts ++ [Ask c k]) (List.length ts)); [by apply list_lookup_middle|exact Ha]|].
  rewrite insert_app_r_alt by done. rewrite Nat.sub_diag. apply IH.
Qed.

Definition once (σ : System) : System :=
  let '(p, v) := exec (Prepare true document true) (sy_vault σ) in {| sy_vault := v; sy_threads := sy_threads σ ++ [p] |}.
Lemma once_steps σ : rtc (sys_step (eq document)) σ (once σ).
Proof.
  destruct σ as [v ts]. unfold once. cbn [sy_vault sy_threads]. pose proof (exec_steps (Prepare true document true) v ts) as H.
  destruct (exec _ v) as [p v']. eapply rtc_l; [by apply (StartPrepare _ v ts true document true)|exact H].
Qed.

(** A preparation, a new password from elsewhere, and another preparation. *)
Definition rotated (σ : System) : System :=
  {| sy_vault := append_value (physical_of document "DB_PASSWORD") "other" (sy_vault σ); sy_threads := sy_threads σ |}.
Definition final : System := once (rotated (once (initial ∅))).

Lemma final_reached : rtc (sys_step (eq document)) (initial ∅) final.
Proof.
  etransitivity; [apply once_steps|]. eapply rtc_l; [|apply once_steps]. unfold rotated. destruct (once _). apply OtherWriter.
Qed.

(** Both publish: the second with the new password and the address that has it. *)
Example published_twice : (λ s, (revision_in s "DB_PASSWORD", revision_in s "DB_URL", revision_in s "DB_NAME")) <$> v_snapshots (sy_vault final) =
  [(2, 2, 1); (1, 1, 1)].
Proof. vm_compute. reflexivity. Qed.
Example addresses : v_records (sy_vault final) !! physical_of document "DB_URL" =
  Some ["postgres://app:s3cret@db/app"; "postgres://app:other@db/app"].
Proof. vm_compute. reflexivity. Qed.

Lemma published_snapshots_are_consistent_witness : Forall (consistent (sy_vault final) document) (v_snapshots (sy_vault final)).
Proof.
  refine (proj2 (Forall_forall _ _) (λ s Hs, proj1 (published_snapshots_are_consistent (eq document) _ _ _ ∅ final final_reached) s document Hs eq_refl)).
  - intros d <-. vm_compute. reflexivity.
  - intros d d' <- <- _. reflexivity.
  - intros base j j' _. cbn. rewrite journal_is_read. by intros [= ->].
Defined.
End PrepareDemo.
