(* ===== verification/Origin.v ===== *)
(** Browser origins: internal/browser/origin.go, over the parser of URLs, the tables of
    Unicode and the test for loopback addresses of the standard library. *)
From S2P Require Import Prelude Text Manifest.
From stdpp Require Import options.

(** [strings.ToLower], [strings.EqualFold], and whether [net.ParseIP] gives a loopback
    address. *)
Class Hosts := { ToLower : string → string; EqualFold : string → string → bool; loopback_ip : string → bool }.

(** ** The parts of a host *)

Definition strip_brackets (host : string) : string :=
  match host with
  | String "[" rest => match cut_last "]" rest with Some (inner, "") => inner | _ => host end
  | _ => host
  end.

(** [url.splitHostPort], with [validOptionalPort]. *)
Definition splitHostPort (hostPort : string) : string * string :=
  let '(host, port) := match cut_last ":" hostPort with
    | Some (before, after) => if all_bytes is_digit after then (before, after) else (hostPort, "")
    | None => (hostPort, "")
    end in
  (strip_brackets host, port).
Definition Hostname (u : URL) : string := (splitHostPort (u_Host u)).1.
Definition Port (u : URL) : string := (splitHostPort (u_Host u)).2.

(** [net.JoinHostPort] *)
Definition JoinHostPort (host port : string) : string :=
  (if contains_byte ":" host || contains_byte "%" host then "[" +:+ host +:+ "]" else host) +:+ ":" +:+ port.

Definition host_byte (c : ascii) : bool :=
  Ascii.eqb c "." || Ascii.eqb c "-" || Ascii.eqb c ":" || is_digit c || is_lower c.
Definition asciiHost (host : string) : bool := all_bytes host_byte host.

(** ** Origins *)

Section Origins.
Context {urls : URLs} {hosts : Hosts}.

Definition isLoopbackHost (host : string) : bool := String.eqb host "localhost" || has_suffix ".localhost" host || loopback_ip host.

(** The text of a host that was found to be good. *)
Definition host_text (hostname port : string) : string :=
  if nonempty port then JoinHostPort hostname port
  else if contains_byte ":" hostname then "[" +:+ hostname +:+ "]" else hostname.

Definition NormalizeOrigin (raw : string) : result string :=
  _ ← reject_if (negb (nonempty raw) || negb (String.eqb (TrimSpace raw) raw))
        "origin must be an exact HTTPS origin or loopback HTTP origin";
  match url_Parse raw with
  | None => Err "origin must not contain credentials, a path, query, or fragment"
  | Some u =>
      _ ← reject_if (nonempty (u_Opaque u) || u_User u || nonempty (u_RawQuery u) || nonempty (u_Fragment u) || nonempty (u_Path u))
            "origin must not contain credentials, a path, query, or fragment";
      let scheme := ToLower (u_Scheme u) in
      let hostname := ToLower (Hostname u) in
      _ ← reject_if (negb (nonempty hostname) || contains_byte "*" hostname || contains_byte "%" hostname)
            "origin must contain an exact host without wildcards or zones";
      _ ← reject_if (negb (asciiHost hostname)) "origin host must be ASCII";
      let port := Port u in
      _ ← reject_if (negb (String.eqb (u_Host u) hostname) && negb (has_prefix "[" (u_Host u)) && String.eqb port "" &&
            negb (EqualFold (u_Host u) hostname)) "origin has an invalid port";
      _ ← (if String.eqb scheme "http" then
             reject_if (negb (isLoopbackHost hostname)) "HTTP browser origins are limited to loopback hosts"
           else reject_if (negb (String.eqb scheme "https")) "origin must use HTTPS, or HTTP on a loopback host");
      let port := if (String.eqb scheme "https" && String.eqb port "443") || (String.eqb scheme "http" && String.eqb port "80")
        then "" else port in
      Ok (scheme +:+ "://" +:+ host_text hostname port)
  end.

Definition ContainsOrigin (origins : list string) (origin : string) : bool := existsb (λ allowed, String.eqb allowed origin) origins.

Definition AddOrigin (origins : list string) (origin : string) : list string * bool :=
  if ContainsOrigin origins origin then (origins, false) else (sort_strings (origins ++ [origin]), true).

Fixpoint RemoveOrigin (origins : list string) (origin : string) : list string * bool :=
  match origins with
  | [] => ([], false)
  | allowed :: rest =>
      let '(updated, removed) := RemoveOrigin rest origin in
      if String.eqb allowed origin then (updated, true) else (allowed :: updated, removed)
  end.
End Origins.

(** ** The normal form *)

(** What the standard library documents: lower case leaves ASCII without capitals as it
    is; and a host that was parsed is parsed, in lower case, after another scheme and
    with another port, as the host of a URL without further parts. *)
Class HostLaws {urls : URLs} {hosts : Hosts} : Prop := {
  lower_plain : ∀ s, all_bytes (λ c, (code c <? 128) && negb (is_upper c)) s = true → ToLower s = s;
  parse_again : ∀ raw u scheme port, url_Parse raw = Some u →
    asciiHost (ToLower (Hostname u)) = true → ToLower (Hostname u) ≠ "" → scheme ∈ ["http"; "https"] → all_bytes is_digit port = true →
    let host := host_text (ToLower (Hostname u)) port in
    url_Parse (scheme +:+ "://" +:+ host) = Some {| u_Scheme := scheme; u_Opaque := ""; u_User := false; u_Host := host; u_Path := "";
      u_RawQuery := ""; u_Fragment := "" |};
}.

Lemma cut_last_suffix c d s before after : c ≠ d → cut_last c (s +:+ String d "") = Some (before, after) → ∃ a, after = a +:+ String d "".
Proof.
  intros Hne. revert before. induction s as [|x s IH]; intros before.
  - rewrite string_app_nil_l. cbn. destruct (Ascii.eqb_spec d c); [congruence|done].
  - rewrite string_app_cons. cbn. destruct (cut_last c _) as [[b a]|] eqn:E.
    + intros [= _ <-]. by eapply IH.
    + destruct (Ascii.eqb x c); [|done]. intros [= _ <-]. by exists s.
Qed.

(** The tests on bytes that meet here, decided for every byte. *)
Lemma byte_cases (c : ascii) :
  (is_digit c = true → host_byte c = true ∧ Ascii.eqb ":" c = false) ∧
  (host_byte c = true → Ascii.eqb "[" c = false ∧ Ascii.eqb "]" c = false ∧ Ascii.eqb "%" c = false ∧ Ascii.eqb "*" c = false ∧
     (code c <? 128) = true ∧ negb (is_upper c) = true ∧ is_space (String c "") = false).
Proof.
  pose proof (forall_ascii (λ c, implb (is_digit c) (host_byte c && negb (Ascii.eqb ":" c)) &&
    implb (host_byte c) (negb (Ascii.eqb "[" c) && negb (Ascii.eqb "]" c) && negb (Ascii.eqb "%" c) && negb (Ascii.eqb "*" c) &&
      (code c <? 128) && negb (is_upper c) && negb (is_space (String c "")))) ltac:(vm_compute; reflexivity) c) as H. cbn beta in H.
  apply andb_true_iff in H as [H1 H2]. split; intros Hc; [rewrite Hc in H1; clear H2|rewrite Hc in H2; clear H1];
    cbn [implb] in *; repeat match goal with H : _ && _ = true |- _ => apply andb_true_iff in H as [? ?] end;
    rewrite ?negb_true_iff in *; by split_and!.
Qed.

Lemma all_bytes_not (p : ascii → bool) c s : (∀ d, p d = true → Ascii.eqb c d = false) → all_bytes p s = true → contains_byte c s = false.
Proof. intros Hp. induction s as [|d s IH]; [done|]. cbn. intros [Hd Hs]%andb_true_iff. by rewrite (Hp d Hd), IH. Qed.

Lemma strip_brackets_plain h : asciiHost h = true → strip_brackets h = h.
Proof.
  destruct h as [|c h]; [done|]. cbn. intros [Hc _]%andb_true_iff. destruct (byte_cases c) as [_ Hb]. destruct (Hb Hc) as [Hn _].
  destruct (Ascii.eqb_spec "[" c) as [|Hne]; [done|]. destruct c as [[] [] [] [] [] [] [] []]; try done; by destruct Hne.
Qed.

Lemma strip_brackets_brackets h : strip_brackets ("[" +:+ h +:+ "]") = h.
Proof.
  change (strip_brackets _) with (match cut_last "]" (h +:+ String "]" "") with Some (inner, "") => inner | _ => "[" +:+ h +:+ "]" end).
  by rewrite cut_last_app.
Qed.

(** The host and the port are read back. *)
Lemma split_host_text h port : asciiHost h = true → h ≠ "" → all_bytes is_digit port = true → splitHostPort (host_text h port) = (h, port).
Proof.
  intros Hh Hne Hp. unfold host_text, JoinHostPort, splitHostPort.
  assert (Hpc : contains_byte ":" port = false) by (eapply all_bytes_not; [|exact Hp]; intros d Hd; by apply byte_cases).
  assert (Hpct : contains_byte "%" h = false) by (eapply all_bytes_not; [|exact Hh]; intros d Hd; by apply byte_cases).
  rewrite Hpct, orb_false_r. destruct (nonempty port) eqn:Ep.
  - rewrite cut_last_at, Hp by done. destruct (contains_byte ":" h); [by rewrite strip_brackets_brackets|by rewrite strip_brackets_plain].
  - apply nonempty_false in Ep as ->. destruct (contains_byte ":" h) eqn:Ec.
    + destruct (cut_last ":" _) as [[before after]|] eqn:E.
      * rewrite <-string_app_assoc in E. apply cut_last_suffix in E as [a ->]; [|done]. rewrite all_bytes_app, andb_false_r.
        by rewrite strip_brackets_brackets.
      * by rewrite strip_brackets_brackets.
    + by rewrite cut_last_None, strip_brackets_plain.
Qed.

Lemma host_text_bytes h port : asciiHost h = true → all_bytes is_digit port = true → all_bytes plain_byte (host_text h port) = true.
Proof.
  intros Hh Hp. assert (Hh' : all_bytes plain_byte h = true).
  { eapply all_bytes_mono; [|exact Hh]. intros c Hc. destruct (byte_cases c) as [_ H]. unfold plain_byte.
    by destruct (H Hc) as (_ & _ & _ & _ & -> & _ & ->). }
  assert (Hp' : all_bytes plain_byte port = true).
  { eapply all_bytes_mono; [|exact Hp]. intros c Hc. destruct (byte_cases c) as [H1 H2]. destruct (H1 Hc) as [Hb _]. unfold plain_byte.
    by destruct (H2 Hb) as (_ & _ & _ & _ & -> & _ & ->). }
  unfold host_text, JoinHostPort. repeat case_match; rewrite ?all_bytes_app, ?Hh', ?Hp'; done.
Qed.

Section NormalForm.
Context {urls : URLs} {hosts : Hosts} {laws : HostLaws}.

(** An origin in the normal form. *)
Record origin_form (scheme hostname port : string) : Prop := {
  of_scheme : scheme = "https" ∨ scheme = "http" ∧ isLoopbackHost hostname = true;
  of_host : asciiHost hostname = true ∧ hostname ≠ "";
  of_port : all_bytes is_digit port = true ∧ ¬ (scheme = "https" ∧ port = "443") ∧ ¬ (scheme = "http" ∧ port = "80");
}.

Lemma Port_digits u : all_bytes is_digit (Port u) = true.
Proof. unfold Port, splitHostPort. destruct (cut_last ":" _) as [[b a]|]; [|done]. by destruct (all_bytes is_digit a) eqn:E. Qed.

Lemma NormalizeOrigin_Ok raw origin : NormalizeOrigin raw = Ok origin → ∃ u scheme port,
  url_Parse raw = Some u ∧ origin_form scheme (ToLower (Hostname u)) port ∧ origin = scheme +:+ "://" +:+ host_text (ToLower (Hostname u)) port.
Proof.
  unfold NormalizeOrigin. rewrite reject_if_bind. intros [_ H]. destruct (url_Parse raw) as [u|] eqn:Eu; [|done].
  rewrite !reject_if_bind in H. destruct H as (_ & Hh & Ha & _ & H). apply bind_Ok in H as ([] & Hs & [= <-]).
  apply orb_false_iff in Hh as [[Hh _]%orb_false_iff _]. apply negb_false_iff, nonempty_true in Hh. apply negb_false_iff in Ha.
  eexists u, (ToLower (u_Scheme u)), _. split; [done|]. split; [|done]. pose proof (Port_digits u) as Hd.
  destruct (String.eqb_spec (ToLower (u_Scheme u)) "http") as [E|E].
  - apply reject_if_Ok, negb_false_iff in Hs. rewrite E. split; [by right|done|]. cbn [String.eqb andb orb Ascii.eqb Bool.eqb].
    destruct (String.eqb_spec (Port u) "80"); (split; [done|]); split; by intros [? ?].
  - apply reject_if_Ok, negb_false_iff, String.eqb_eq in Hs. rewrite Hs. split; [by left|done|]. cbn [String.eqb andb orb Ascii.eqb Bool.eqb].
    destruct (String.eqb_spec (Port u) "443"); (split; [done|]); split; by intros [? ?].
Qed.

(** The normal form of an origin is HTTPS, or HTTP on a loopback host, with a lower
    case ASCII host and no default port; and it is its own normal form, so that what
    is stored passes when it is read again. *)
Theorem normal_origins_are_normal raw origin : NormalizeOrigin raw = Ok origin →
  NormalizeOrigin origin = Ok origin ∧
  ∃ scheme hostname port, origin_form scheme hostname port ∧ origin = scheme +:+ "://" +:+ host_text hostname port.
Proof using laws.
  intros (u & scheme & port & Eu & Hform & ->)%NormalizeOrigin_Ok. split; [|by eexists _, _, _].
  pose proof Hform as [Hscheme [Hascii Hne] (Hport & H443 & H80)]. set (h := ToLower (Hostname u)) in *. unfold NormalizeOrigin.
  assert (Hin : scheme ∈ ["http"; "https"]) by (destruct Hscheme as [->|[-> _]]; set_solver).
  rewrite TrimSpace_plain, String.eqb_refl.
  2: { rewrite !all_bytes_app, host_text_bytes by done. by destruct Hscheme as [->|[-> _]]. }
  replace (negb (nonempty _)) with false by (destruct Hscheme as [->|[-> _]]; done). cbn [orb negb reject_if mbind result_bind].
  pose proof (parse_again raw u scheme port Eu Hascii Hne Hin Hport) as Hparse. cbv zeta in Hparse. fold h in Hparse. rewrite Hparse. cbn [u_Opaque u_User u_RawQuery u_Fragment u_Path u_Scheme u_Host].
  unfold Hostname, Port. cbn [u_Host]. fold h. rewrite split_host_text by done. cbn [fst snd].
  rewrite (lower_plain scheme) by (destruct Hscheme as [->|[-> _]]; done).
  rewrite (lower_plain h) by (eapply all_bytes_mono; [|exact Hascii]; intros c Hc; destruct (byte_cases c) as [_ H]; by destruct (H Hc) as (_ & _ & _ & _ & -> & -> & _)).
  assert (Hh : negb (nonempty h) = false) by by apply negb_false_iff, nonempty_true.
  assert (Hstar : contains_byte "*" h = false) by (eapply all_bytes_not; [|exact Hascii]; intros d Hd; by apply byte_cases).
  assert (Hpct : contains_byte "%" h = false) by (eapply all_bytes_not; [|exact Hascii]; intros d Hd; by apply byte_cases).
  rewrite Hh, Hstar, Hpct, Hascii. cbn [nonempty String.eqb orb negb reject_if mbind result_bind].
  match goal with |- context [reject_if ?b "origin has an invalid port"] => assert (b = false) as -> end.
  { unfold host_text, JoinHostPort. destruct (String.eqb_spec port "") as [->|Hp]; [|by rewrite andb_false_r].
    cbn [nonempty String.eqb negb]. destruct (contains_byte ":" h); [by rewrite andb_false_r|]. by rewrite String.eqb_refl. }
  cbn [reject_if mbind result_bind].
  destruct Hscheme as [->|[-> Hloop]].
  - cbn [String.eqb Ascii.eqb Bool.eqb andb orb negb reject_if mbind result_bind].
    destruct (String.eqb_spec port "443") as [->|_]; [by destruct H443|done].
  - cbn [String.eqb Ascii.eqb Bool.eqb andb orb negb reject_if mbind result_bind]. rewrite Hloop. cbn [negb reject_if mbind result_bind].
    destruct (String.eqb_spec port "80") as [->|_]; [by destruct H80|done].
Qed.
End NormalForm.

(** ** The list of a record *)

Lemma ContainsOrigin_true l origin : ContainsOrigin l origin = true ↔ origin ∈ l.
Proof.
  unfold ContainsOrigin. rewrite existsb_exists. setoid_rewrite String.eqb_eq. setoid_rewrite <-list_elem_of_In. split; [|by eexists].
  by intros (x & Hx & ->).
Qed.

(** The origin is added once, and the flag says whether it was not there. *)
Lemma AddOrigin_spec l origin : let '(updated, changed) := AddOrigin l origin in
  (∀ o, o ∈ updated ↔ o = origin ∨ o ∈ l) ∧ (changed = true ↔ origin ∉ l) ∧ (NoDup l → NoDup updated).
Proof.
  unfold AddOrigin. pose proof (ContainsOrigin_true l origin) as Hc. destruct (ContainsOrigin l origin); cbv zeta.
  - assert (Hin : origin ∈ l) by by apply Hc. split_and!; [intros o; split; [by right|by intros [->|]]| |done]. split; [done|by intros []].
  - assert (Hin : origin ∉ l) by (intros H; by apply Hc in H). pose proof (sort_strings_perm (l ++ [origin])) as Hp. split_and!.
    + intros o. rewrite Hp, elem_of_app, list_elem_of_singleton. tauto.
    + done.
    + intros Hnd. rewrite Hp. apply NoDup_app. split_and!; [done| |apply NoDup_singleton]. intros o Ho ->%list_elem_of_singleton. done.
Qed.

Lemma RemoveOrigin_spec l origin : RemoveOrigin l origin = (filter (λ o, o ≠ origin) l, bool_decide (origin ∈ l)).
Proof.
  induction l as [|x l IH]; [done|]. cbn [RemoveOrigin]. rewrite IH, filter_cons. destruct (String.eqb_spec x origin) as [->|Hne].
  - rewrite decide_False by tauto. f_equal. symmetry. apply bool_decide_eq_true. by left.
  - rewrite decide_True by done. f_equal. apply bool_decide_ext. rewrite elem_of_cons. naive_solver.
Qed.

(** ** An example *)

Module OriginDemo.
Definition lower_char (c : ascii) : ascii := if is_upper c then chr (code c + 32) else c.
Fixpoint lower (s : string) : string := match s with EmptyString => "" | String c s => String (lower_char c) (lower s) end.

(** URLs that are a scheme and a host. *)
#[local] Instance urls : URLs := { url_Parse s :=
  let url scheme n := Some {| u_Scheme := scheme; u_Opaque := ""; u_User := false; u_Host := drop_bytes n s; u_Path := ""; u_RawQuery := "";
    u_Fragment := "" |} in
  if has_prefix "https://" s then url "https" 8%nat else if has_prefix "http://" s then url "http" 7%nat else None }.
#[local] Instance hosts : Hosts := {| ToLower := lower; EqualFold := λ a b, String.eqb (lower a) (lower b);
  loopback_ip := λ s, String.eqb s "127.0.0.1" || String.eqb s "::1" |}.
#[local] Instance laws : HostLaws.
Proof.
  split.
  - intros s. induction s as [|c s IH]; [done|]. cbn [all_bytes]. rewrite andb_true_iff. intros [[_ Hu%negb_true_iff]%andb_true_iff Hs].
    change (ToLower (String c s)) with (String (lower_char c) (ToLower s)). rewrite IH by done. unfold lower_char. by rewrite Hu.
  - intros raw u scheme port _ _ _ Hs _. cbv zeta. set (h := host_text _ _). clearbody h.
    rewrite !elem_of_cons in Hs. destruct Hs as [->|[->|Hs]]; [done..|]. by apply elem_of_nil in Hs.
Qed.

Example brackets_and_port : NormalizeOrigin "http://[::1]:8080" = Ok "http://[::1]:8080".
Proof. vm_compute. reflexivity. Qed.
Example plain_http : NormalizeOrigin "http://example.com" = Err "HTTP browser origins are limited to loopback hosts".
Proof. vm_compute. reflexivity. Qed.

Lemma normal_origins_are_normal_witness :
  NormalizeOrigin "https://EXAMPLE.com:443" = Ok "https://example.com" ∧ NormalizeOrigin "https://example.com" = Ok "https://example.com".
Proof. split; [vm_compute; reflexivity|]. apply (normal_origins_are_normal "https://EXAMPLE.com:443"). vm_compute. reflexivity. Defined.
End OriginDemo.
