(* ===== verification/LocalConfig.v ===== *)
(** The local configuration of a device: internal/client/local.go.  The private keys, the
    vault key and the Access credentials are sealed under a key that is derived from
    the passphrase; a configuration of the first version is brought to the second when
    it is unlocked. *)
From S2P Require Import Prelude Base64 Text Secure Envelope.
From stdpp Require Import options.

Definition ConfigVersion : Z := 2.
Definition LocalIterations : Z := 600000.

Record AccessCredentials := { ac_ClientID : string; ac_ClientSecret : string }.

(** [EncryptedSecret] is never nil; the unexported members come last. *)
Record Config := {
  cf_Version : Z; cf_Server : string; cf_VaultID : string; cf_DeviceID : string; cf_DeviceName : string;
  cf_SigningPublic : string; cf_WrappingPublic : string; cf_RecoveryArtifact : string; cf_Salt : string; cf_Iterations : Z;
  cf_EncryptedSecret : Blob; cf_access : option AccessCredentials; cf_migrated : bool;
}.

Record DeviceKeys := { dk_SigningPublic : string; dk_WrappingPublic : string; dk_Secrets : DeviceSecrets }.

(** JSON of what is sealed, in both versions, and of a configuration. *)
Class LocalCodec := {
  device_json : DeviceSecrets → result string; device_of_json : string → option DeviceSecrets;
  secrets_json : DeviceSecrets * option AccessCredentials → result string;
  secrets_of_json : string → option (DeviceSecrets * option AccessCredentials);
  config_of_json : string → option Config;
}.

(** PBKDF2 with HMAC of SHA-256, to 32 bytes. *)
Class KeyDerivation := { DeriveKey : string → string → Z → string }.

Definition set_secret (version : Z) (blob : Blob) (access : option AccessCredentials) (migrated : bool) (c : Config) : Config :=
  {| cf_Version := version; cf_Server := cf_Server c; cf_VaultID := cf_VaultID c; cf_DeviceID := cf_DeviceID c;
     cf_DeviceName := cf_DeviceName c; cf_SigningPublic := cf_SigningPublic c; cf_WrappingPublic := cf_WrappingPublic c;
     cf_RecoveryArtifact := cf_RecoveryArtifact c; cf_Salt := cf_Salt c; cf_Iterations := cf_Iterations c;
     cf_EncryptedSecret := blob; cf_access := access; cf_migrated := migrated |}.
Definition empty_blob : Blob := {| blob_version := 0; blob_nonce := ""; blob_ciphertext := "" |}.

(** ** Access credentials *)

Definition credential_text (limit : Z) (value : string) : bool :=
  nonempty value && (slen value <=? limit) && String.eqb (TrimSpace value) value.

Definition Access_Validate (credentials : AccessCredentials) : result unit :=
  _ ← reject_if (negb (credential_text 512 (ac_ClientID credentials)) || negb (credential_text 4096 (ac_ClientSecret credentials)))
        "Cloudflare Access credentials are invalid";
  reject_if (existsb (λ value, existsb is_control (runes value)) [ac_ClientID credentials; ac_ClientSecret credentials])
    "Cloudflare Access credentials are invalid".

Definition set_access (access : option AccessCredentials) (c : Config) : Config :=
  set_secret (cf_Version c) (cf_EncryptedSecret c) access (cf_migrated c) c.

Definition SetAccessCredentials (credentials : AccessCredentials) (c : Config) : result unit * Config :=
  if negb (cf_Version c =? ConfigVersion) then (Err "config must be unlocked before binding Access credentials", c)
  else match Access_Validate credentials with
       | Err e => (Err e, c)
       | Ok _ => (Ok tt, set_access (Some credentials) c)
       end.
Definition RemoveAccessCredentials (c : Config) : Config := set_access None c.

(** ** Locking *)

Section LocalConfig.
Context {cipher : Cipher} {codec : LocalCodec} {kdf : KeyDerivation}.

Definition localAAD (version : Z) (c : Config) : string :=
  "envbank.local.v" +:+ Itoa version +:+ nul +:+ cf_Server c +:+ nul +:+ cf_VaultID c +:+ nul +:+ cf_DeviceID c +:+
  (if nonempty (cf_RecoveryArtifact c) then nul +:+ "recovery" +:+ nul +:+ cf_RecoveryArtifact c else "").

(** [secure.EncryptJSON]; [nonce] is what the random source gave. *)
Definition EncryptJSON {A} (json : A → result string) (nonce : result string) (key : string) (value : A) (aad : string) : result Blob :=
  raw ← json value; Seal nonce key raw aad.
Definition DecryptJSON {A} (of_json : string → option A) (key : string) (blob : Blob) (aad : string) : result A :=
  raw ← Open key blob aad;
  match of_json raw with Some value => Ok value | None => Err "decrypted data is invalid" end.

(** An encryption that fails leaves an empty blob behind. *)
Definition set_encrypted (version : Z) (blob : result Blob) (access : option AccessCredentials) (c : Config) : Config :=
  set_secret version (match blob with Ok blob => blob | Err _ => empty_blob end) access (cf_migrated c) c.

Definition Lock (nonce : result string) (secrets : DeviceSecrets) (passphrase : string) (c : Config) : result unit * Config :=
  match decode (cf_Salt c) with
  | None => (Err "invalid config salt", c)
  | Some salt =>
      let key := DeriveKey passphrase salt (cf_Iterations c) in
      if cf_Version c =? 1 then
        let blob := EncryptJSON device_json nonce key secrets (localAAD 1 c) in
        (_ ← blob; Ok tt, set_encrypted 1 blob (cf_access c) c)
      else
        let blob := EncryptJSON secrets_json nonce key (secrets, cf_access c) (localAAD ConfigVersion c) in
        (_ ← blob; Ok tt, set_encrypted ConfigVersion blob (cf_access c) c)
  end.

(** The first version is sealed again in the second. *)
Definition migrate (nonce : result string) (key : string) (device : DeviceSecrets) (c : Config) : result DeviceSecrets * Config :=
  match EncryptJSON secrets_json nonce key (device, None) (localAAD ConfigVersion c) with
  | Err _ => (Err "could not migrate config", set_secret 1 empty_blob None (cf_migrated c) c)
  | Ok blob => (Ok device, set_secret ConfigVersion blob None true c)
  end.

Definition Unlock (nonce : result string) (passphrase : string) (c : Config) : result DeviceSecrets * Config :=
  match decode (cf_Salt c) with
  | None => (Err "invalid config salt", c)
  | Some salt =>
      let key := DeriveKey passphrase salt (cf_Iterations c) in
      if cf_Version c =? 1 then
        match DecryptJSON device_of_json key (cf_EncryptedSecret c) (localAAD 1 c) with
        | Err _ => (Err "could not unlock config", c)
        | Ok device => migrate nonce key device c
        end
      else
        match DecryptJSON secrets_of_json key (cf_EncryptedSecret c) (localAAD ConfigVersion c) with
        | Err _ => (Err "could not unlock config", c)
        | Ok (device, None) => (Ok device, set_access None c)
        | Ok (device, Some access) =>
            if is_ok (Access_Validate access) then (Ok device, set_access (Some access) c)
            else (Err "encrypted Access credentials are invalid", c)
        end
  end.

Definition NewConfig (salt nonce : result string) (server vaultID deviceID deviceName : string) (keys : DeviceKeys) (passphrase : string) :
    result Config :=
  salt ← salt;
  let cfg := {| cf_Version := ConfigVersion; cf_Server := server; cf_VaultID := vaultID; cf_DeviceID := deviceID;
    cf_DeviceName := deviceName; cf_SigningPublic := dk_SigningPublic keys; cf_WrappingPublic := dk_WrappingPublic keys;
    cf_RecoveryArtifact := ""; cf_Salt := encode salt; cf_Iterations := LocalIterations; cf_EncryptedSecret := empty_blob;
    cf_access := None; cf_migrated := false |} in
  let '(locked, cfg) := Lock nonce (dk_Secrets keys) passphrase cfg in
  _ ← locked; Ok cfg.

(** [LoadConfig], of the bytes of the file. *)
Definition LoadConfig (raw : result string) : result Config :=
  raw ← raw;
  match config_of_json raw with
  | None => Err "decode config"
  | Some cfg =>
      _ ← reject_if ((negb (cf_Version cfg =? 1) && negb (cf_Version cfg =? ConfigVersion)) || (cf_Iterations cfg <? 100000) ||
            (10000000 <? cf_Iterations cfg)) "unsupported or unsafe config format";
      Ok cfg
  end.
End LocalConfig.

(** ** Properties *)

Section Laws.
Context {cipher : Cipher} {laws : CipherLaws} {codec : LocalCodec} {kdf : KeyDerivation}.

(** Derived keys have 32 bytes, and what is encoded is decoded. *)
Class LocalLaws : Prop := {
  derived_length : ∀ passphrase salt iterations, slen (DeriveKey passphrase salt iterations) = 32;
  secrets_read : ∀ s raw, secrets_json s = Ok raw → secrets_of_json raw = Some s;
}.
Context {local : LocalLaws}.

Lemma DecryptJSON_EncryptJSON {A} json (of_json : string → option A) nonce key value aad blob :
  (∀ raw, json value = Ok raw → of_json raw = Some value) → slen nonce = gcm_NonceSize →
  EncryptJSON json (Ok nonce) key value aad = Ok blob → DecryptJSON of_json key blob aad = Ok value.
Proof using laws.
  intros Hj Hn (raw & Hr & Hs)%bind_Ok. unfold DecryptJSON. rewrite (Open_Seal _ _ _ _ _ Hn Hs). cbn. by rewrite (Hj raw Hr).
Qed.

Lemma migrate_Ok nonce key device secrets c c' : migrate (Ok nonce) key device c = (Ok secrets, c') →
  secrets = device ∧ ∃ blob, EncryptJSON secrets_json (Ok nonce) key (device, None) (localAAD ConfigVersion c) = Ok blob ∧
    c' = set_secret ConfigVersion blob None true c.
Proof. unfold migrate. destruct (EncryptJSON _ _ _ _ _) as [blob|e] eqn:E; [|done]. intros [= <- <-]. split; [done|]. by exists blob. Qed.

(** A configuration of the second version, sealed with its credentials, unlocks as it
    is. *)
Lemma Unlock_sealed n nonce passphrase salt secrets blob c :
  slen nonce = gcm_NonceSize → decode (cf_Salt c) = Some salt → (∀ a, cf_access c = Some a → Access_Validate a = Ok tt) →
  EncryptJSON secrets_json (Ok nonce) (DeriveKey passphrase salt (cf_Iterations c)) (secrets, cf_access c) (localAAD ConfigVersion c) = Ok blob →
  cf_Version c = ConfigVersion → cf_EncryptedSecret c = blob → Unlock n passphrase c = (Ok secrets, c).
Proof using laws local.
  intros Hn Hs Ha He Hv Hb. unfold Unlock. rewrite Hs, Hv, Hb. change (ConfigVersion =? 1) with false. cbv iota.
  rewrite (DecryptJSON_EncryptJSON _ secrets_of_json _ _ _ _ _ ltac:(apply secrets_read) Hn He).
  destruct (cf_access c) as [a|] eqn:Ea.
  - rewrite (Ha a eq_refl). cbn [is_ok]. f_equal. unfold set_access, set_secret. rewrite <-Ea. by destruct c.
  - f_equal. unfold set_access, set_secret. rewrite <-Ea. by destruct c.
Qed.

(** C28: what a device locks away it unlocks again.  A configuration that was locked under
    a passphrase gives, with this passphrase, exactly the secrets and the credentials
    that were locked, however often it is opened; and one of the first version gives
    its secrets, is then of the second version, still for the same service, vault and
    device, and gives them again when it is opened next. *)
Theorem config_keeps_secrets nonce passphrase secrets c c' : slen nonce = gcm_NonceSize →
  (cf_Version c = ConfigVersion → (∀ a, cf_access c = Some a → Access_Validate a = Ok tt) →
   Lock (Ok nonce) secrets passphrase c = (Ok tt, c') →
   cf_access c' = cf_access c ∧ ∀ n, Unlock n passphrase c' = (Ok secrets, c')) ∧
  (cf_Version c = 1 → Unlock (Ok nonce) passphrase c = (Ok secrets, c') →
   cf_Version c' = ConfigVersion ∧ cf_migrated c' = true ∧ localAAD ConfigVersion c' = localAAD ConfigVersion c ∧
   ∀ n, Unlock n passphrase c' = (Ok secrets, c')).
Proof using laws local.
  intros Hn. split.
  - intros Hv Ha. unfold Lock. destruct (decode (cf_Salt c)) as [salt|] eqn:Es; [|done]. rewrite Hv. change (ConfigVersion =? 1) with false.
    cbv iota zeta. destruct (EncryptJSON _ _ _ _ _) as [blob|] eqn:E; [|done]. intros [= <-]. split; [done|]. intros n.
    eapply Unlock_sealed; [exact Hn|exact Es|exact Ha|exact E|done|done].
  - intros Hv. unfold Unlock at 1. destruct (decode (cf_Salt c)) as [salt|] eqn:Es; [|done]. rewrite Hv. change (1 =? 1) with true.
    cbv iota zeta. destruct (DecryptJSON _ _ _ _) as [device|]; [|done]. intros (-> & blob & E & ->)%migrate_Ok. split_and!; [done..|].
    intros n. eapply Unlock_sealed; [exact Hn|exact Es| |exact E|done|done]. done.
Qed.

(** ** What the sealed text is bound to *)

Definition no_nul (c : Config) : Prop :=
  contains_byte "000" (cf_Server c) = false ∧ contains_byte "000" (cf_VaultID c) = false ∧ contains_byte "000" (cf_DeviceID c) = false.

Lemma localAAD_inj version c c' : no_nul c → no_nul c' → localAAD version c = localAAD version c' →
  cf_Server c = cf_Server c' ∧ cf_VaultID c = cf_VaultID c' ∧ cf_DeviceID c = cf_DeviceID c' ∧ cf_RecoveryArtifact c = cf_RecoveryArtifact c'.
Proof.
  intros (Hs & Hv & Hd) (Hs' & Hv' & Hd'). unfold localAAD, nul. intros E.
  do 3 (apply string_app_inj in E as [_ E]; [|done]).
  apply separated_at_inj in E as [Es E]; [|done..]. apply separated_at_inj in E as [Ev E]; [|done..].
  assert (H : ∀ d d' r, contains_byte "000" d = false → contains_byte "000" d' = false → d = d' +:+ String "000" "" +:+ r → False).
  { intros d d' r Hn Hn' ->. rewrite contains_byte_app in Hn. cbn in Hn. by rewrite orb_true_r in Hn. }
  destruct (nonempty (cf_RecoveryArtifact c)) eqn:Er, (nonempty (cf_RecoveryArtifact c')) eqn:Er'.
  - apply separated_at_inj in E as [Ed E]; [|done..]. do 2 (apply string_app_inj in E as [_ E]; [|done]). done.
  - rewrite string_app_nil_r in E. symmetry in E. by apply H in E.
  - rewrite string_app_nil_r in E. by apply H in E.
  - rewrite !string_app_nil_r in E. apply nonempty_false in Er, Er'. by rewrite Er, Er'.
Qed.

(** A sealed text that unlocks in two configurations under one key belongs to one
    service, vault, device and artifact, unless two texts of the cipher meet. *)
Theorem sealed_text_is_bound n n' passphrase passphrase' salt salt' c c' secrets secrets' d d' :
  cf_Version c = ConfigVersion → cf_Version c' = ConfigVersion → no_nul c → no_nul c' → cf_EncryptedSecret c = cf_EncryptedSecret c' →
  decode (cf_Salt c) = Some salt → decode (cf_Salt c') = Some salt' →
  DeriveKey passphrase salt (cf_Iterations c) = DeriveKey passphrase' salt' (cf_Iterations c') →
  Unlock n passphrase c = (Ok secrets, d) → Unlock n' passphrase' c' = (Ok secrets', d') →
  (cf_Server c = cf_Server c' ∧ cf_VaultID c = cf_VaultID c' ∧ cf_DeviceID c = cf_DeviceID c' ∧ cf_RecoveryArtifact c = cf_RecoveryArtifact c') ∨
  ∃ key nonce p p' a a', a ≠ a' ∧ gcm_seal key nonce p a = gcm_seal key nonce p' a'.
Proof using laws.
  intros Hv Hv' Hn Hn' Eb Es Es' Ek. unfold Unlock. rewrite Es, Es', Hv, Hv', <-Ek, <-Eb. change (ConfigVersion =? 1) with false. cbv iota.
  unfold DecryptJSON. set (key := DeriveKey _ _ _). destruct (Open key _ (localAAD ConfigVersion c)) as [p|] eqn:E; [|done].
  destruct (Open key _ (localAAD ConfigVersion c')) as [p'|] eqn:E'; [|done]. intros _ _.
  apply Open_Ok in E as (nonce & _ & En & _ & _ & E). apply Open_Ok in E' as (nonce' & _ & En' & _ & _ & E').
  rewrite En in En'. injection En' as <-. rewrite E in E'. injection E' as E'.
  destruct (decide (localAAD ConfigVersion c = localAAD ConfigVersion c')) as [Ea|Ha]; [left; by eapply localAAD_inj|].
  right. by exists key, nonce, p, p', (localAAD ConfigVersion c), (localAAD ConfigVersion c').
Qed.
End Laws.

(** ** An example *)

Module LocalDemo.
Export Toy.
#[local] Instance codec : LocalCodec := {|
  device_json s := Ok (to_text (sec_SigningPrivate s, sec_WrappingPrivate s, sec_VaultKey s));
  device_of_json raw := '(s, w, v) ← of_text raw; Some {| sec_SigningPrivate := s; sec_WrappingPrivate := w; sec_VaultKey := v |};
  secrets_json x := Ok (to_text (sec_SigningPrivate x.1, sec_WrappingPrivate x.1, sec_VaultKey x.1,
    fmap (M:=option) (λ a, (ac_ClientID a, ac_ClientSecret a)) x.2));
  secrets_of_json raw := '(s, w, v, a) ← of_text raw; Some ({| sec_SigningPrivate := s; sec_WrappingPrivate := w; sec_VaultKey := v |},
    fmap (M:=option) (λ a : string * string, {| ac_ClientID := a.1; ac_ClientSecret := a.2 |}) a);
  config_of_json _ := None |}.
#[local] Instance kdf : KeyDerivation := {| DeriveKey passphrase salt _ := substring 0 32 (passphrase +:+ salt +:+ zeros 32) |}.
#[local] Instance local : LocalLaws.
Proof.
  split.
  - intros passphrase salt iterations. cbn [DeriveKey kdf]. unfold slen. rewrite substring_length; [done|]. rewrite !string_length_app. cbn. lia.
  - intros [[s w v] a] raw [= <-]. cbn [secrets_of_json codec]. rewrite of_to_text. by destruct a as [[]|].
Qed.

Definition keys : DeviceKeys := {| dk_SigningPublic := "spub"; dk_WrappingPublic := "wpub";
  dk_Secrets := {| sec_SigningPrivate := "spriv"; sec_WrappingPrivate := "wpriv"; sec_VaultKey := "vkey" |} |}.
Definition nonce : string := zeros 12.
Definition fresh : Config :=
  match NewConfig (Ok "salt") (Ok nonce) "https://server" "v1" "d1" "laptop" keys "hunter2" with
  | Ok c => c
  | Err _ => set_secret 0 empty_blob None false {| cf_Version := 0; cf_Server := ""; cf_VaultID := ""; cf_DeviceID := ""; cf_DeviceName := "";
      cf_SigningPublic := ""; cf_WrappingPublic := ""; cf_RecoveryArtifact := ""; cf_Salt := ""; cf_Iterations := 0;
      cf_EncryptedSecret := empty_blob; cf_access := None; cf_migrated := false |}
  end.
Definition with_access : Config := set_access (Some {| ac_ClientID := "id"; ac_ClientSecret := "secret" |}) fresh.
Definition old : Config := (Lock (Ok nonce) (dk_Secrets keys) "hunter2" (set_secret 1 empty_blob None false fresh)).2.

(** A sealed text is of one version. *)
Example other_version : (Unlock (Ok nonce) "hunter2" (set_secret ConfigVersion (cf_EncryptedSecret old) None false old)).1 =
  Err "could not unlock config".
Proof. vm_compute. reflexivity. Qed.

Lemma config_keeps_secrets_witness :
  (∀ n, Unlock n "hunter2" (Lock (Ok nonce) (dk_Secrets keys) "hunter2" with_access).2 =
    (Ok (dk_Secrets keys), (Lock (Ok nonce) (dk_Secrets keys) "hunter2" with_access).2)) ∧
  cf_Version (Unlock (Ok nonce) "hunter2" old).2 = ConfigVersion.
Proof.
  split.
  - set (c' := (Lock _ _ _ _).2). destruct (config_keeps_secrets nonce "hunter2" (dk_Secrets keys) with_access c') as [H _]; [by vm_compute|].
    apply H; [by vm_compute| |by vm_compute]. intros a [= <-]. by vm_compute.
  - set (c' := (Unlock _ _ _).2). destruct (config_keeps_secrets nonce "hunter2" (dk_Secrets keys) old c') as [_ H]; [by vm_compute|].
    apply H; by vm_compute.
Defined.
End LocalDemo.
