(* ===== verification/NativeHost.v ===== *)
(** The native messaging host of the browser extension: internal/nativehost/framing.go
    and host.go.  Messages are framed by their length; a request is a program over the
    configuration, the key chain, the vault, the password generator, the clock and the
    protected fill; the session that was unlocked is threaded through. *)
From S2P Require Import Prelude Base64 Timestamp Text Secure Protocol Envelope VaultObject Client Password Manifest LocalConfig Origin ProtectedFill.
From S2P Require Export Program.
From stdpp Require Import options.

(** ** Framing *)

Definition MaxRequestBytes : Z := 65536.

(** [binary.LittleEndian] of 32 bits. *)
Definition PutUint32 (z : Z) : string :=
  String (chr (z mod 256)) (String (chr (z / 256 mod 256)) (String (chr (z / 65536 mod 256)) (String (chr (z / 16777216 mod 256)) ""))).
Definition Uint32 (header : string) : Z :=
  match header with
  | String a (String b (String c (String d _))) => code a + 256 * code b + 65536 * code c + 16777216 * code d
  | _ => 0
  end.

Inductive read_result (A : Type) :=
| Message (a : A)
| EndOfInput
| BadMessage (msg : string).
Arguments Message {_} _.
Arguments EndOfInput {_}.
Arguments BadMessage {_} _.

(** JSON of messages: the first value of the bytes, strictly decoded, and whether
    nothing follows it. *)
Class MessageCodec (A : Type) := { message_json : A → result string; message_of_json : string → option (A * bool) }.

(** [ReadMessage], of an input that has these bytes and then ends: both ends of input
    ([io.EOF] and [io.ErrUnexpectedEOF]) stop the host in the same way.  The rest of the
    input comes with a result. *)
Definition ReadMessage {A} `{MessageCodec A} (input : string) : read_result A * string :=
  if slen input <? 4 then (EndOfInput, "")
  else
    let size := Uint32 input in
    let rest := drop_bytes 4 input in
    if (size =? 0) || (MaxRequestBytes <? size) then (BadMessage "native message length is invalid", rest)
    else if slen rest <? size then (EndOfInput, "")
    else
      (match message_of_json (substring 0 (Z.to_nat size) rest) with
       | None => BadMessage "native message is invalid JSON"
       | Some (value, true) => Message value
       | Some (_, false) => BadMessage "native message must contain one JSON value"
       end, drop_bytes (Z.to_nat size) rest).

(** What [WriteMessage] writes. *)
Definition WriteMessage {A} `{MessageCodec A} (value : A) : result string :=
  payload ← message_json value;
  _ ← reject_if (MaxRequestBytes <? slen payload) "native response is too large";
  Ok (PutUint32 (slen payload) +:+ payload).

(** ** The host *)

Definition ProtocolVersion : Z := 1.

(** [rq_Policy] is the zero policy where there is none. *)
Record Request := {
  rq_Version : Z; rq_ID : string; rq_Action : string; rq_Name : string; rq_Origin : string; rq_Policy : Policy;
  rq_ExpectedRevision : Z; rq_Target : option Target;
}.
Record ListedRecord := {
  ls_Name : string; ls_Allowed : bool; ls_Revision : Z; ls_RotatedAt : string; ls_RotateEveryDays : Z; ls_Due : bool;
}.
Inductive answer_body :=
| NoResult
| ProtectedStatus (available computer_use : bool)
| Listed (l : list ListedRecord)
| PolicyChanged (name origin : string)
| Stored (record : ListedRecord)
| Filled (receipt : Receipt)
| FillValue (value : string).
Record Response := { rs_Version : Z; rs_ID : string; rs_OK : bool; rs_Error : string; rs_Result : answer_body }.

(** [api] and [vaultKey] of an unlocked host. *)
Record Session := { se_Config : Config; se_Secrets : DeviceSecrets; se_VaultKey : string }.

Module Call.
(** [FillStart] is the part of [Coordinator.Run] before it reads the value: a receipt if
    it ends there; [FillFinish] is the rest, with the value or the error. *)
Inductive call : Type → Type :=
| LoadConfig : call (result Config)
| KeychainGet (account : string) : call (option string)
| ConfigSave (c : Config) : call bool
| Random (bytes : Z) : call (result string)
| ListRecords (s : Session) : call (result (list Record_))
| PutRecord (s : Session) (id : string) (request : PutRecordRequest) : call (result unit)
| Generate (policy : Policy) : call (result string)
| Now : call Z
| Configured : call bool
| Available : call bool
| FillStart (t : Target) : call (option Receipt)
| FillFinish (value : option string) : call Receipt
| Write (bytes : string) : call bool.
End Call.
Abbreviation call := Call.call.

(** How [Run] ended, or that it still waits, with the session that is left. *)
Inductive run_end := Stopped | Failed (msg : string) | Waiting.
Abbreviation program := (flow call (run_end * option Session)).

Section Host.
Context {urls : URLs} {hosts : Hosts} {cipher : Cipher} {local : LocalCodec} {kdf : KeyDerivation} {records : RecordCodec}.
(** Whether the host was made for computer use. *)
Context (ComputerUse : bool).

Definition account (cfg : Config) : string := cf_VaultID cfg +:+ ":" +:+ cf_DeviceID cfg.

Definition decodeVaultKey (secrets : DeviceSecrets) : result string :=
  match decode (sec_VaultKey secrets) with
  | Some key => if slen key =? 32 then Ok key else Err "EnvBank device has no usable vault key"
  | None => Err "EnvBank device has no usable vault key"
  end.

Definition open_session (cfg : Config) (secrets : DeviceSecrets) : program (result Session) :=
  saved ← (if cf_migrated cfg then ask (Call.ConfigSave cfg) else mret true);
  if negb (saved : bool) then mret (Err "migrated EnvBank configuration could not be saved")
  else mret (key ← decodeVaultKey secrets; Ok {| se_Config := cfg; se_Secrets := secrets; se_VaultKey := key |}).

(** Only the migration of a configuration draws a nonce. *)
Definition unlock (h : option Session) : program (result Session) :=
  match h with
  | Some s => mret (Ok s)
  | None =>
      loaded ← ask Call.LoadConfig;
      match (loaded : result Config) with
      | Err _ => mret (Err "native host configuration is unavailable")
      | Ok cfg =>
          passphrase ← ask (Call.KeychainGet (account cfg));
          match (passphrase : option string) with
          | None => mret (Err "EnvBank Keychain authentication was cancelled or failed")
          | Some passphrase =>
              nonce ← (if cf_Version cfg =? 1 then ask (Call.Random gcm_NonceSize) else mret (Err "not drawn"));
              let '(secrets, cfg) := Unlock nonce passphrase cfg in
              match secrets with
              | Err _ => mret (Err "stored credentials could not unlock EnvBank")
              | Ok secrets => open_session cfg secrets
              end
          end
      end
  end.

(** The session after it, and the records with the session that they were read in. *)
Definition loadRecords (h : option Session) : program (option Session * result (Session * list SecretRecord)) :=
  unlocked ← unlock h;
  match (unlocked : result Session) with
  | Err e => mret (h, Err e)
  | Ok s =>
      encrypted ← ask (Call.ListRecords s);
      mret (Some s,
        match (encrypted : result (list Record_)) with
        | Err _ => Err "could not refresh EnvBank records"
        | Ok encrypted =>
            match DecryptRecords (cf_VaultID (se_Config s)) (se_VaultKey s) encrypted with
            | Err _ => Err "could not decrypt EnvBank records"
            | Ok records => Ok (s, records)
            end
        end)
  end.

(** Encryption and optimistic write of a record. *)
Definition write_record (s : Session) (record : SecretRecord) (expected : Z) (encrypt_error put_error : string) : program (result unit) :=
  nonce ← ask (Call.Random gcm_NonceSize);
  match EncryptRecord nonce (cf_VaultID (se_Config s)) (se_VaultKey s) record with
  | Err _ => mret (Err encrypt_error)
  | Ok (id, blob) =>
      stored ← ask (Call.PutRecord s id {| pr_ExpectedRevision := expected; pr_Blob := blob |});
      mret (match (stored : result unit) with Err _ => Err put_error | Ok _ => Ok tt end)
  end.

Definition named (name : string) (records : list SecretRecord) : option SecretRecord :=
  List.find (λ r, String.eqb (sr_Name r) name) records.

Definition set_origins (r : SecretRecord) (origins : list string) : SecretRecord :=
  {| sr_Name := sr_Name r; sr_Value := sr_Value r; sr_CreatedAt := sr_CreatedAt r; sr_RotatedAt := sr_RotatedAt r;
     sr_RotateEveryDays := sr_RotateEveryDays r; sr_Revision := wrap64 (sr_Revision r + 1); sr_AllowedOrigins := origins |}.

Definition changePolicy (h : option Session) (name origin : string) (allow : bool) : program (option Session * result unit) :=
  '(h, loaded) ← loadRecords h;
  match (loaded : result (Session * list SecretRecord)) with
  | Err e => mret (h, Err e)
  | Ok (s, records) =>
      match named name records with
      | None => mret (h, Err "variable was not found")
      | Some record =>
          let '(origins, changed) := (if allow then AddOrigin else RemoveOrigin) (sr_AllowedOrigins record) origin in
          if negb changed then mret (h, Ok tt)
          else
            stored ← write_record s (set_origins record origins) (sr_Revision record) "could not encrypt browser policy update"
              "browser policy changed concurrently; refresh and try again";
            mret (h, stored)
      end
  end.

Definition changed_error : string := "record changed or replacement was not confirmed; refresh and try again".

(** The record that a generated password goes to, or nothing if the expected revision is
    not the one there is. *)
Definition generated_record (name origin now value : string) (expected : Z) (existing : option SecretRecord) : SecretRecord :=
  match existing with
  | None => {| sr_Name := name; sr_Value := value; sr_CreatedAt := now; sr_RotatedAt := now; sr_RotateEveryDays := 0; sr_Revision := 1;
      sr_AllowedOrigins := [origin] |}
  | Some r => {| sr_Name := name; sr_Value := value; sr_CreatedAt := sr_CreatedAt r; sr_RotatedAt := now;
      sr_RotateEveryDays := sr_RotateEveryDays r; sr_Revision := wrap64 (sr_Revision r + 1);
      sr_AllowedOrigins := (AddOrigin (sr_AllowedOrigins r) origin).1 |}
  end.
Definition confirmed (expected : Z) (existing : option SecretRecord) : bool :=
  match existing with
  | Some r => negb (expected =? 0) && (expected =? sr_Revision r)
  | None => expected =? 0
  end.

Definition generatePassword (h : option Session) (name origin : string) (policy : Policy) (expected : Z) :
    program (option Session * result ListedRecord) :=
  '(h, loaded) ← loadRecords h;
  match (loaded : result (Session * list SecretRecord)) with
  | Err e => mret (h, Err e)
  | Ok (s, records) =>
      now ← ask Call.Now;
      let existing := named name records in
      if negb (confirmed expected existing) then mret (h, Err changed_error)
      else
        generated ← ask (Call.Generate policy);
        match (generated : result string) with
        | Err _ => mret (h, Err "password generation failed")
        | Ok value =>
            let record := generated_record name origin (format_rfc3339 now) value expected existing in
            stored ← write_record s record expected "could not encrypt generated password"
              "record changed concurrently; refresh and try again";
            mret (h, _ ← (stored : result unit);
              Ok {| ls_Name := sr_Name record; ls_Allowed := true; ls_Revision := sr_Revision record;
                    ls_RotatedAt := sr_RotatedAt record; ls_RotateEveryDays := sr_RotateEveryDays record; ls_Due := false |})
        end
  end.

(** ** Requests *)

Definition respond (request : Request) (ok : bool) (error : string) (body : answer_body) : Response :=
  {| rs_Version := ProtocolVersion; rs_ID := rq_ID request; rs_OK := ok; rs_Error := error; rs_Result := body |}.
Definition refused (request : Request) (error : string) : Response := respond request false error NoResult.
Definition answered_with (request : Request) (body : answer_body) : Response := respond request true "" body.

(** The response, whether the host ends, and the session after it. *)
Definition reply (response : Response) (h : option Session) : program (Response * bool * option Session) := mret (response, false, h).

Definition validVariableName (name : string) : bool := env_name name.

Definition listed_record (origin : string) (now : Z) (record : SecretRecord) : ListedRecord :=
  {| ls_Name := sr_Name record; ls_Allowed := ContainsOrigin (sr_AllowedOrigins record) origin; ls_Revision := sr_Revision record;
     ls_RotatedAt := sr_RotatedAt record; ls_RotateEveryDays := sr_RotateEveryDays record; ls_Due := due now record |}.

Definition list_for_origin (request : Request) (origin : string) (h : option Session) : program (Response * bool * option Session) :=
  '(h, loaded) ← loadRecords h;
  match (loaded : result (Session * list SecretRecord)) with
  | Err e => reply (refused request e) h
  | Ok (_, records) => now ← ask Call.Now; reply (answered_with request (Listed (listed_record origin now <$> records))) h
  end.

Definition change_origin (request : Request) (origin : string) (allow : bool) (h : option Session) : program (Response * bool * option Session) :=
  if negb (nonempty (rq_Name request)) then reply (refused request "variable name is required") h
  else
    '(h, changed) ← changePolicy h (rq_Name request) origin allow;
    match (changed : result unit) with
    | Err e => reply (refused request e) h
    | Ok _ => reply (answered_with request (PolicyChanged (rq_Name request) origin)) h
    end.

Definition generate_password (request : Request) (origin : string) (h : option Session) : program (Response * bool * option Session) :=
  if negb (validVariableName (rq_Name request)) then reply (refused request "a valid variable name is required") h
  else match Policy_Validate (rq_Policy request) with
  | Err e => reply (refused request e) h
  | Ok _ =>
      '(h, generated) ← generatePassword h (rq_Name request) origin (rq_Policy request) (rq_ExpectedRevision request);
      match (generated : result ListedRecord) with
      | Err e => reply (refused request e) h
      | Ok record => reply (answered_with request (Stored record)) h
      end
  end.

(** What the coordinator is given to read: the value of the record, where the origin is
    allowed. *)
Definition allowed_value (name origin : string) (records : list SecretRecord) : option string :=
  sr_Value <$> List.find (λ r, String.eqb (sr_Name r) name && ContainsOrigin (sr_AllowedOrigins r) origin) records.

Definition protected_execute (request : Request) (origin : string) (h : option Session) : program (Response * bool * option Session) :=
  configured ← ask Call.Configured;
  if negb (configured : bool) then reply (answered_with request (Filled HOST_PROTECTION_UNAVAILABLE)) h
  else match rq_Target request with
  | None => reply (answered_with request (Filled TARGET_REJECTED)) h
  | Some target =>
      if negb (String.eqb (t_Record target) (rq_Name request)) || negb (String.eqb (t_Origin target) origin)
      then reply (answered_with request (Filled TARGET_REJECTED)) h
      else
        started ← ask (Call.FillStart target);
        match (started : option Receipt) with
        | Some receipt => reply (answered_with request (Filled receipt)) h
        | None =>
            '(h, loaded) ← loadRecords h;
            receipt ← ask (Call.FillFinish
              match (loaded : result (Session * list SecretRecord)) with
              | Err _ => None
              | Ok (_, records) => allowed_value (rq_Name request) origin records
              end);
            reply (answered_with request (Filled receipt)) h
        end
  end.

Definition get_for_fill (request : Request) (origin : string) (h : option Session) : program (Response * bool * option Session) :=
  if negb (nonempty (rq_Name request)) then reply (refused request "variable name is required") h
  else
    '(h, loaded) ← loadRecords h;
    match (loaded : result (Session * list SecretRecord)) with
    | Err e => reply (refused request e) h
    | Ok (_, records) =>
        match named (rq_Name request) records with
        | None => reply (refused request "variable was not found") h
        | Some record =>
            if negb (ContainsOrigin (sr_AllowedOrigins record) origin)
            then reply (refused request "variable is not allowed on this origin") h
            else reply (answered_with request (FillValue (sr_Value record))) h
        end
    end.

Definition dispatch (request : Request) (origin : string) (h : option Session) : program (Response * bool * option Session) :=
  let action := rq_Action request in
  if String.eqb action "list_for_origin" then list_for_origin request origin h
  else if String.eqb action "allow_origin" then change_origin request origin true h
  else if String.eqb action "deny_origin" then change_origin request origin false h
  else if String.eqb action "generate_password" then generate_password request origin h
  else if String.eqb action "protected_execute" then protected_execute request origin h
  else if String.eqb action "get_for_fill" then get_for_fill request origin h
  else reply (refused request "unknown native action") h.

Definition standard_credential_action (action : string) : bool :=
  member ["get_for_fill"; "generate_password"; "allow_origin"; "deny_origin"] action.

Definition Handle (request : Request) (h : option Session) : program (Response * bool * option Session) :=
  if negb (rq_Version request =? ProtocolVersion) || negb (nonempty (rq_ID request)) || (128 <? slen (rq_ID request))
  then reply (refused request "unsupported protocol request") h
  else if String.eqb (rq_Action request) "protected_status" then
    available ← ask Call.Available; reply (answered_with request (ProtectedStatus available ComputerUse)) h
  else if ComputerUse && standard_credential_action (rq_Action request)
  then reply (refused request "standard credential operations are unavailable during computer use") h
  else if String.eqb (rq_Action request) "lock" then mret (answered_with request NoResult, true, None)
  else match Origin.NormalizeOrigin (rq_Origin request) with
  | Err _ => reply (refused request "origin is not eligible for browser filling") h
  | Ok origin => dispatch request origin h
  end.

(** ** The loop *)

Context {requests : MessageCodec Request} {responses : MessageCodec Response}.

(** What the loop selects: the idle timer, or what was read. *)
Inductive host_event := Idle | Incoming (m : read_result Request).

(** Where it returns, the deferred clearing leaves no session. *)
Definition return_with (e : run_end) : program (run_end * option Session) := mret (e, None).

Fixpoint Run (events : list host_event) (h : option Session) : program (run_end * option Session) :=
  match events with
  | [] => mret (Waiting, h)
  | Idle :: _ | Incoming EndOfInput :: _ => return_with Stopped
  | Incoming (BadMessage msg) :: _ => return_with (Failed msg)
  | Incoming (Message request) :: events =>
      '(response, terminate, h) ← Handle request h;
      match WriteMessage (response : Response) with
      | Err e => return_with (Failed e)
      | Ok bytes =>
          written ← ask (Call.Write bytes);
          if negb (written : bool) then return_with (Failed "write failed")
          else if (terminate : bool) then return_with Stopped
          else Run events h
      end
  end.
End Host.

(** What the native host gives out and writes, whatever the browser sends and whatever
    its collaborators answer; and the framing of messages. *)

(** ** Framing *)

Lemma Uint32_PutUint32 z rest : 0 ≤ z < 2 ^ 32 → Uint32 (PutUint32 z +:+ rest) = z.
Proof.
  intros Hz. unfold PutUint32. rewrite !string_app_cons, string_app_nil_l. cbn [Uint32].
  rewrite !code_chr by (apply Z.mod_pos_bound; lia). Z.to_euclidean_division_equations. lia.
Qed.

(** A message that is written is read back, whatever follows it on the stream, and
    the rest of the stream is what follows.  (JSON is read back, and is not empty.) *)
Theorem messages_are_framed {A} `{MessageCodec A} (value : A) bytes rest :
  (∀ payload, message_json value = Ok payload → payload ≠ "" ∧ message_of_json payload = Some (value, true)) →
  WriteMessage value = Ok bytes → ReadMessage (bytes +:+ rest) = (Message value, rest).
Proof.
  intros Hjson (payload & Hp & [Hsize [= <-]]%reject_if_bind)%bind_Ok. destruct (Hjson payload Hp) as [Hne Hread].
  apply Z.ltb_ge in Hsize. unfold MaxRequestBytes in Hsize. rewrite string_app_assoc. pose proof (slen_nonneg payload).
  assert (Hlen : String.length (PutUint32 (slen payload)) = 4%nat) by done. unfold ReadMessage.
  assert (Hpos : 0 < slen payload) by (destruct payload; [done|unfold slen; cbn; lia]).
  rewrite Uint32_PutUint32 by lia. assert (Hsl : slen (PutUint32 (slen payload)) = 4) by done.
  rewrite slen_app, Hsl. pose proof (slen_nonneg (payload +:+ rest)). replace (4 + _ <? 4) with false by lia.
  rewrite <-Hlen, drop_bytes_app. unfold MaxRequestBytes. replace (slen payload =? 0) with false by lia.
  replace (65536 <? slen payload) with false by lia. cbn [orb].
  rewrite slen_app. pose proof (slen_nonneg rest). replace (_ + slen rest <? slen payload) with false by lia.
  replace (Z.to_nat (slen payload)) with (String.length payload) by (unfold slen; lia).
  by rewrite substring_app, drop_bytes_app, Hread.
Qed.

(** ** What the host may do *)

Section Safety.
Context {urls : URLs} {hosts : Hosts} {cipher : Cipher} {local : LocalCodec} {kdf : KeyDerivation} {records : RecordCodec}.
Context {requests : MessageCodec Request} {responses : MessageCodec Response}.
Context (ComputerUse : bool).

Definition past_of := history call.

(** What the host is sent, the requests among it.  A response ends the handling of a
    request, so the number of responses written so far tells which request is being
    handled. *)
Context (events : list host_event).

Definition is_write (e : event call) : bool :=
  match e with Event c _ => match c with Call.Write _ => true | _ => false end end.
Definition current (past : past_of) : option Request :=
  match events !! List.length (List.filter is_write past) with Some (Incoming (Message request)) => Some request | _ => None end.

(** The calls made for the current request. *)
Fixpoint handling (past : past_of) : past_of :=
  match past with [] => [] | e :: past => if is_write e then [] else e :: handling past end.

(** The last reading of the vault. *)
Fixpoint last_read (past : past_of) : option (Session * list Record_) :=
  match past with
  | [] => None
  | Event c x :: past =>
      match c in Call.call X return X → option (Session * list Record_) with
      | Call.ListRecords s => λ x, match x with Ok encrypted => Some (s, encrypted) | Err _ => None end
      | _ => λ _, last_read past
      end x
  end.

(** The records of the vault as they were just read: in a session, for the current
    request, and not read again since. *)
Definition just_read (past : past_of) (s : Session) (l : list SecretRecord) : Prop :=
  ∃ encrypted, last_read (handling past) = Some (s, encrypted) ∧
    DecryptRecords (cf_VaultID (se_Config s)) (se_VaultKey s) encrypted = Ok l.

(** The value of a record that allows the origin, as it was just read. *)
Definition released (past : past_of) (name origin value : string) : Prop :=
  ∃ s l record, just_read past s l ∧ record ∈ l ∧ sr_Name record = name ∧ origin ∈ sr_AllowedOrigins record ∧ sr_Value record = value.

(** The origins with the one of the request, or without it. *)
Definition with_origin (origin : string) (old new : list string) : Prop := ∀ o, o ∈ new ↔ o ∈ old ∨ o = origin.
Definition without_origin (origin : string) (old new : list string) : Prop := ∀ o, o ∈ new ↔ o ∈ old ∧ o ≠ origin.

(** The record of the request as it was read, at the next revision, with the origin of
    the request more or less. *)
Definition policy_change (request : Request) (origin : string) (l : list SecretRecord) (record : SecretRecord) (expected : Z) : Prop :=
  ∃ old, old ∈ l ∧ sr_Name old = rq_Name request ∧ expected = sr_Revision old ∧
    record = {| sr_Name := rq_Name request; sr_Value := sr_Value old; sr_CreatedAt := sr_CreatedAt old; sr_RotatedAt := sr_RotatedAt old;
      sr_RotateEveryDays := sr_RotateEveryDays old; sr_Revision := wrap64 (sr_Revision old + 1); sr_AllowedOrigins := sr_AllowedOrigins record |} ∧
    ((rq_Action request = "allow_origin" ∧ with_origin origin (sr_AllowedOrigins old) (sr_AllowedOrigins record)) ∨
     (rq_Action request = "deny_origin" ∧ without_origin origin (sr_AllowedOrigins old) (sr_AllowedOrigins record))).

(** A value generated for the request, for a new record, or for one whose revision the
    request confirmed. *)
Definition fresh_value (past : past_of) (request : Request) (origin : string) (l : list SecretRecord) (record : SecretRecord) (expected : Z) : Prop :=
  rq_Action request = "generate_password" ∧ Policy_Validate (rq_Policy request) = Ok tt ∧
  Event (Call.Generate (rq_Policy request)) (Ok (sr_Value record)) ∈ handling past ∧
  sr_Name record = rq_Name request ∧ validVariableName (rq_Name request) = true ∧ expected = rq_ExpectedRevision request ∧
  ((expected = 0 ∧ (∀ r, r ∈ l → sr_Name r ≠ rq_Name request) ∧ sr_Revision record = 1 ∧ sr_AllowedOrigins record = [origin]) ∨
   ∃ old, old ∈ l ∧ sr_Name old = rq_Name request ∧ expected = sr_Revision old ∧ expected ≠ 0 ∧
     sr_Revision record = wrap64 (expected + 1) ∧ sr_CreatedAt record = sr_CreatedAt old ∧
     sr_RotateEveryDays record = sr_RotateEveryDays old ∧ with_origin origin (sr_AllowedOrigins old) (sr_AllowedOrigins record)).

Definition write_ok (past : past_of) (request : Request) (s : Session) (id : string) (put : PutRecordRequest) : Prop :=
  ∃ origin l record nonce, Origin.NormalizeOrigin (rq_Origin request) = Ok origin ∧ just_read past s l ∧
    EncryptRecord nonce (cf_VaultID (se_Config s)) (se_VaultKey s) record = Ok (id, pr_Blob put) ∧
    (policy_change request origin l record (pr_ExpectedRevision put) ∨
     fresh_value past request origin l record (pr_ExpectedRevision put)).

(** The controller gets the value for the target of the request, which names its record
    and its origin, once it has begun to fill it. *)
Definition fill_ok (past : past_of) (request : Request) (value : string) : Prop :=
  ∃ t, rq_Target request = Some t ∧ t_Record t = rq_Name request ∧ Origin.NormalizeOrigin (rq_Origin request) = Ok (t_Origin t) ∧
    Event (Call.FillStart t) None ∈ handling past ∧ released past (t_Record t) (t_Origin t) value.

Definition response_ok (past : past_of) (request : Request) (response : Response) : Prop :=
  rs_ID response = rq_ID request ∧
  match rs_Result response with
  | FillValue value => rq_Action request = "get_for_fill" ∧ ComputerUse = false ∧
      ∃ origin, Origin.NormalizeOrigin (rq_Origin request) = Ok origin ∧ released past (rq_Name request) origin value
  | _ => True
  end.

Definition guard (past : past_of) (X : Type) (c : call X) : Prop :=
  match c with
  | Call.FillFinish (Some value) => ∃ request, current past = Some request ∧ fill_ok past request value
  | Call.PutRecord s id put => ComputerUse = false ∧ ∃ request, current past = Some request ∧ write_ok past request s id put
  | Call.Write bytes => ∃ request response, current past = Some request ∧ WriteMessage response = Ok bytes ∧ response_ok past request response
  | _ => True
  end.

(** ** Proof *)

(** More calls for the same request. *)
Definition continues (past past' : past_of) : Prop := ∃ new, past' = new ++ past ∧ Forall (λ e, is_write e = false) new.
#[local] Instance continues_preorder : PreOrder continues.
Proof.
  split; [by exists []|]. intros p1 p2 p3 (n1 & -> & H1) (n2 & -> & H2). exists (n2 ++ n1). rewrite app_assoc. split; [done|].
  by apply Forall_app.
Qed.
Lemma continues_step e past : is_write e = false → continues past (e :: past).
Proof. intros He. exists [e]. split; [done|]. by constructor. Qed.
Lemma continues_then e past past' : is_write e = false → continues past past' → continues past (e :: past').
Proof. intros He H. etransitivity; [exact H|by apply continues_step]. Qed.
#[local] Hint Extern 1 (continues _ _) => (repeat (apply continues_then; [reflexivity|]); (assumption || reflexivity || (etransitivity; eassumption))) : core.

Lemma continues_current past past' : continues past past' → current past' = current past.
Proof.
  intros (new & -> & Hnew). unfold current. f_equal. rewrite List.filter_app, List.length_app.
  replace (List.filter is_write new) with (@nil (event call)); [done|]. induction Hnew as [|e new He _ IH]; [done|]. cbn. by rewrite He.
Qed.
Lemma continues_handling past past' e : continues past past' → e ∈ handling past → e ∈ handling past'.
Proof. intros (new & -> & Hnew) He. induction Hnew as [|x new Hx _ IH]; [done|]. cbn. rewrite Hx. by right. Qed.

#[local] Abbreviation spec p past Q := (wp guard p past (λ _ _, False) Q).

Lemma host_spec_mono {A} (p : program A) past (Q Q' : past_of → A → Prop) : (∀ past' a, Q past' a → Q' past' a) → spec p past Q → spec p past Q'.
Proof. intros HQ. by apply wp_mono. Qed.

Lemma spec_unlock h past (Q : past_of → result Session → Prop) :
  (∀ past' r, continues past past' → Q past' r) → spec (unlock h) past Q.
Proof.
  intros HQ. unfold unlock. destruct h as [s|]; [by apply HQ|]. apply wp_ask; [done|]. intros [cfg|e]; [|by apply HQ; auto].
  apply wp_ask; [done|]. intros [passphrase|]; [|by apply HQ; auto].
  apply wp_bind. assert (Hnext : ∀ nonce past', continues past past' →
    spec (let '(secrets, cfg) := Unlock nonce passphrase cfg in match secrets with
      | Err _ => mret (Err "stored credentials could not unlock EnvBank") | Ok secrets => open_session cfg secrets end) past' Q).
  { intros nonce past' Hg. destruct (Unlock nonce passphrase cfg) as [[secrets|e] cfg']; [|by apply HQ]. unfold open_session. apply wp_bind.
    destruct (cf_migrated cfg'); cbn [wp ask mret flow_ret]; [split; [done|]; intros saved|]; (destruct saved || idtac); cbn [negb wp mret flow_ret].
    all: apply HQ; auto. }
  destruct (cf_Version cfg =? 1); cbn [wp ask mret flow_ret]; [split; [done|]; intros nonce|]; apply Hnext; auto.
Qed.

Lemma spec_loadRecords h past (Q : past_of → option Session * result (Session * list SecretRecord) → Prop) :
  (∀ past' h' e, continues past past' → Q past' (h', Err e)) →
  (∀ past' h' s l, continues past past' → just_read past' s l → Q past' (h', Ok (s, l))) → spec (loadRecords h) past Q.
Proof.
  intros HE HQ. unfold loadRecords. apply wp_bind, spec_unlock. intros past1 [s|e] H1; [|by apply HE].
  apply wp_ask; [done|]. intros [encrypted|e]; cbn [wp mret flow_ret]; [|by apply HE; auto].
  destruct (DecryptRecords _ _ encrypted) as [l|] eqn:Ed; [|by apply HE; auto]. apply HQ; [by auto|]. by exists encrypted.
Qed.

Lemma spec_write_record s record expected e1 e2 past (Q : past_of → result unit → Prop) :
  (∀ id nonce blob, EncryptRecord nonce (cf_VaultID (se_Config s)) (se_VaultKey s) record = Ok (id, blob) →
     guard (Event (Call.Random gcm_NonceSize) nonce :: past) _ (Call.PutRecord s id {| pr_ExpectedRevision := expected; pr_Blob := blob |})) →
  (∀ (past' : past_of) r, continues past past' → Q past' r) → spec (write_record s record expected e1 e2) past Q.
Proof.
  intros Hw HQ. unfold write_record. apply wp_ask; [done|]. intros nonce.
  destruct (EncryptRecord _ _ _ _) as [[id blob]|e] eqn:E; [|by apply HQ; auto].
  apply wp_ask; [by apply Hw|]. intros r. by apply HQ; auto.
Qed.

Lemma named_Some name l r : named name l = Some r → r ∈ l ∧ sr_Name r = name.
Proof. intros [Hin E]%find_some. split; [by apply list_elem_of_In|by apply String.eqb_eq]. Qed.

Lemma named_None name l : named name l = None → ∀ r, r ∈ l → sr_Name r ≠ name.
Proof. intros E r Hin En. apply list_elem_of_In in Hin. apply (find_none _ _ E) in Hin. by rewrite En, String.eqb_refl in Hin. Qed.

Lemma AddOrigin_with l origin : with_origin origin l (AddOrigin l origin).1.
Proof.
  pose proof (AddOrigin_spec l origin) as H. destruct (AddOrigin l origin) as [new b]. intros o. destruct H as (H & _). cbn. rewrite H. naive_solver.
Qed.
Lemma RemoveOrigin_without l origin : without_origin origin l (RemoveOrigin l origin).1.
Proof. intros o. rewrite RemoveOrigin_spec. cbn. rewrite list_elem_of_filter. naive_solver. Qed.

Lemma spec_changePolicy request origin h (allow : bool) past (Q : past_of → option Session * result unit → Prop) :
  Origin.NormalizeOrigin (rq_Origin request) = Ok origin → current past = Some request → ComputerUse = false → rq_Action request = (if allow then "allow_origin" else "deny_origin") →
  (∀ past' r, continues past past' → Q past' r) → spec (changePolicy h (rq_Name request) origin allow) past Q.
Proof.
  intros Horigin Hcur Hcu Hact HQ. unfold changePolicy. apply wp_bind, spec_loadRecords; [intros; by apply HQ|]. intros past1 h1 s l H1 Hread.
  destruct (named _ l) as [old|] eqn:En; [|by apply HQ]. apply named_Some in En as [Hin Hname].
  destruct ((if allow then AddOrigin else RemoveOrigin) (sr_AllowedOrigins old) origin) as [origins changed] eqn:E.
  destruct (negb changed); [by apply HQ|]. apply wp_bind, spec_write_record; [|intros past' r Hg; apply HQ; by etransitivity].
  intros id nonce blob He. split; [done|]. exists request. split; [rewrite <-Hcur; by apply continues_current; auto|].
  exists origin, l, (set_origins old origins), nonce. split_and!; [done|exact Hread|done|]. left. exists old.
  split_and!; [done|done|done|by unfold set_origins; rewrite Hname|]. cbn [set_origins sr_AllowedOrigins].
  destruct allow; [left; pose proof (AddOrigin_with (sr_AllowedOrigins old) origin) as H|right; pose proof (RemoveOrigin_without (sr_AllowedOrigins old) origin) as H];
    by rewrite E in H.
Qed.

Lemma confirmed_spec expected existing : confirmed expected existing = true →
  match existing with Some old => expected = sr_Revision old ∧ expected ≠ 0 | None => expected = 0 end.
Proof. destruct existing as [old|]; cbn; [rewrite andb_true_iff, negb_true_iff|]; lia. Qed.

Lemma spec_generatePassword request origin h past (Q : past_of → option Session * result ListedRecord → Prop) :
  Origin.NormalizeOrigin (rq_Origin request) = Ok origin → current past = Some request → ComputerUse = false → rq_Action request = "generate_password" →
  validVariableName (rq_Name request) = true → Policy_Validate (rq_Policy request) = Ok tt →
  (∀ past' r, continues past past' → Q past' r) →
  spec (generatePassword h (rq_Name request) origin (rq_Policy request) (rq_ExpectedRevision request)) past Q.
Proof.
  intros Horigin Hcur Hcu Hact Hname Hpol HQ. unfold generatePassword. apply wp_bind, spec_loadRecords; [intros; by apply HQ|]. intros past1 h1 s l H1 Hread.
  apply wp_ask; [done|]. intros t. destruct (confirmed _ (named _ l)) eqn:Ec; cbn [negb]; [|by apply HQ; auto].
  apply wp_ask; [done|]. intros [value|e]; [|by apply HQ; auto].
  apply wp_bind, spec_write_record; [|by intros past' r Hg; apply HQ; etransitivity; [|exact Hg]; auto].
  intros id nonce blob He. split; [done|]. exists request. split; [rewrite <-Hcur; by apply continues_current; auto|].
  eexists origin, l, _, nonce. split_and!; [done|exact Hread|exact He|]. right. apply confirmed_spec in Ec. unfold generated_record.
  destruct (named (rq_Name request) l) as [old|] eqn:En; split_and!; cbn [sr_Name sr_Value]; try done; try (by right; left).
  - apply named_Some in En as [Hin Hn]. destruct Ec as [Ec Hne]. right. exists old. cbn [sr_Revision sr_CreatedAt sr_RotateEveryDays sr_AllowedOrigins pr_ExpectedRevision].
    split_and!; try done; [by rewrite Ec|apply AddOrigin_with].
  - left. split_and!; [done|by apply named_None|done..].
Qed.

(** A response without a value is in order. *)
Definition plain (request : Request) (response : Response) : Prop :=
  rs_ID response = rq_ID request ∧ match rs_Result response with FillValue _ => False | _ => True end.

Lemma plain_ok past request response : plain request response → response_ok past request response.
Proof. unfold plain, response_ok. destruct (rs_Result response); naive_solver. Qed.

Definition handled (request : Request) (past0 past : past_of) (r : Response * bool * option Session) : Prop :=
  continues past0 past ∧ response_ok past request r.1.1.

Lemma handled_plain request past0 past response terminate h : continues past0 past → plain request response → handled request past0 past (response, terminate, h).
Proof. intros Hg Hp. split; [done|by apply plain_ok]. Qed.

Lemma spec_list_for_origin request origin h past : spec (list_for_origin request origin h) past (handled request past).
Proof.
  unfold list_for_origin. apply wp_bind, spec_loadRecords; [intros; by apply handled_plain|]. intros past1 h1 s l H1 _.
  apply wp_ask; [done|]. intros t. by apply handled_plain; auto.
Qed.

Lemma spec_change_origin request origin (allow : bool) h past : Origin.NormalizeOrigin (rq_Origin request) = Ok origin →
  current past = Some request → ComputerUse = false → rq_Action request = (if allow then "allow_origin" else "deny_origin") →
  spec (change_origin request origin allow h) past (handled request past).
Proof.
  intros Ho Hcur Hcu Hact. unfold change_origin. destruct (negb _); [by apply handled_plain|]. apply wp_bind, spec_changePolicy; [done..|].
  intros past1 [h1 [[]|e]] H1; by apply handled_plain.
Qed.

Lemma spec_generate_password request origin h past : Origin.NormalizeOrigin (rq_Origin request) = Ok origin →
  current past = Some request → ComputerUse = false → rq_Action request = "generate_password" →
  spec (generate_password request origin h) past (handled request past).
Proof.
  intros Ho Hcur Hcu Hact. unfold generate_password. destruct (validVariableName _) eqn:En; cbn [negb]; [|by apply handled_plain].
  destruct (Policy_Validate _) as [[]|e] eqn:Ep; [|by apply handled_plain]. apply wp_bind, spec_generatePassword; [done..|].
  intros past1 [h1 [record|e]] H1; by apply handled_plain.
Qed.

Lemma allowed_value_Some name origin l value : allowed_value name origin l = Some value →
  ∃ record, record ∈ l ∧ sr_Name record = name ∧ origin ∈ sr_AllowedOrigins record ∧ sr_Value record = value.
Proof.
  unfold allowed_value. intros (record & E & ->)%fmap_Some. apply find_some in E as [Hin E]. apply andb_true_iff in E as [En Eo].
  exists record. split_and!; [by apply list_elem_of_In|by apply String.eqb_eq|by apply ContainsOrigin_true|done].
Qed.

Lemma spec_protected_execute request origin h past : Origin.NormalizeOrigin (rq_Origin request) = Ok origin → current past = Some request →
  spec (protected_execute request origin h) past (handled request past).
Proof.
  intros Ho Hcur. unfold protected_execute. apply wp_ask; [done|]. intros configured. destruct (negb configured); [by apply handled_plain; auto|].
  destruct (rq_Target request) as [t|] eqn:Et; [|by apply handled_plain; auto]. destruct (_ || _) eqn:E; [by apply handled_plain; auto|].
  apply orb_false_iff in E as [En%negb_false_iff%String.eqb_eq Eo%negb_false_iff%String.eqb_eq].
  apply wp_ask; [done|]. intros [receipt|]; [by apply handled_plain; auto|]. set (past0 := Event (Call.FillStart t) None :: _).
  assert (H0 : continues past past0) by by unfold past0; auto. apply wp_bind, spec_loadRecords.
  - intros past1 h1 e H1. apply wp_ask; [done|]. intros receipt. apply handled_plain; [|done].
    apply continues_then; [done|]. by etransitivity.
  - intros past1 h1 s l H1 Hread. apply wp_ask.
    + destruct (allowed_value _ _ l) as [value|] eqn:Ev; [|done]. apply allowed_value_Some in Ev as (record & Hin & Hn & Hor & Hv).
      exists request. split; [rewrite <-Hcur; apply continues_current; by etransitivity|]. exists t. split_and!; [done|done|by rewrite Eo| |].
      * apply (continues_handling past0); [done|]. by left.
      * exists s, l, record. split_and!; [done|done|by rewrite En|by rewrite Eo|done].
    + intros receipt. apply handled_plain; [|done]. apply continues_then; [done|]. by etransitivity.
Qed.

Lemma spec_get_for_fill request origin h past : ComputerUse = false → rq_Action request = "get_for_fill" →
  Origin.NormalizeOrigin (rq_Origin request) = Ok origin → spec (get_for_fill request origin h) past (handled request past).
Proof.
  intros Hcu Hact Ho. unfold get_for_fill. destruct (negb _); [by apply handled_plain|].
  apply wp_bind, spec_loadRecords; [intros; by apply handled_plain|]. intros past1 h1 s l H1 Hread.
  destruct (named _ l) as [record|] eqn:En; [|by apply handled_plain]. destruct (ContainsOrigin _ _) eqn:Ec; cbn [negb]; [|by apply handled_plain].
  apply named_Some in En as [Hin Hn]. split; [done|]. split; [done|]. split; [done|]. split; [done|]. exists origin. split; [done|]. exists s, l, record.
  split_and!; [done..|by apply ContainsOrigin_true|done].
Qed.

Lemma spec_Handle request h past : current past = Some request → spec (Handle ComputerUse request h) past (handled request past).
Proof.
  intros Hcur. unfold Handle. destruct (_ || _); [by apply handled_plain|].
  destruct (String.eqb _ "protected_status"); [apply wp_ask; [done|]; intros a; by apply handled_plain; auto|].
  destruct (ComputerUse && _) eqn:Ecu; [by apply handled_plain|]. destruct (String.eqb _ "lock"); [by apply handled_plain|].
  destruct (Origin.NormalizeOrigin _) as [origin|e] eqn:Eo; [|by apply handled_plain]. unfold dispatch.
  assert (Hcu : ∀ action, action ∈ ["get_for_fill"; "generate_password"; "allow_origin"; "deny_origin"] → rq_Action request = action → ComputerUse = false).
  { intros action Hin E. rewrite E in Ecu. apply andb_false_iff in Ecu as [->|Hs]; [done|]. unfold standard_credential_action in Hs.
    rewrite !elem_of_cons in Hin. destruct Hin as [->|[->|[->|[->|Hin]]]]; try done. by apply elem_of_nil in Hin. }
  destruct (String.eqb_spec (rq_Action request) "list_for_origin"); [apply spec_list_for_origin|].
  destruct (String.eqb_spec (rq_Action request) "allow_origin"); [apply spec_change_origin; [done..|eapply Hcu; [|done]; set_solver|done]|].
  destruct (String.eqb_spec (rq_Action request) "deny_origin"); [apply spec_change_origin; [done..|eapply Hcu; [|done]; set_solver|done]|].
  destruct (String.eqb_spec (rq_Action request) "generate_password"); [apply spec_generate_password; [done..|eapply Hcu; [|done]; set_solver|done]|].
  destruct (String.eqb_spec (rq_Action request) "protected_execute"); [by apply spec_protected_execute|].
  destruct (String.eqb_spec (rq_Action request) "get_for_fill"); [apply spec_get_for_fill; [eapply Hcu; [|done]; set_solver|done..]|].
  by apply handled_plain.
Qed.

(** The loop ends without a session. *)
Definition ended (r : run_end * option Session) : Prop := r.1 = Waiting ∨ r.2 = None.

Lemma spec_Run past_events rest h past : events = past_events ++ rest → List.length (List.filter is_write past) = List.length past_events →
  spec (Run ComputerUse rest h) past (λ _, ended).
Proof.
  revert past_events h past. induction rest as [|e rest IH]; intros past_events h past Ee Hw; [by left|].
  destruct e as [|[request| |msg]]; [by right| |by right..].
  assert (Hcur : current past = Some request) by (unfold current; rewrite Hw, Ee; by rewrite list_lookup_middle).
  cbn [Run]. apply wp_bind. eapply host_spec_mono; [|by apply spec_Handle]. intros past1 [[response terminate] h1] [Hc Hr].
  destruct (WriteMessage response) as [bytes|e] eqn:Ew; [|by right]. apply wp_ask.
  { exists request, response. split; [by rewrite (continues_current past)|done]. }
  intros written. destruct (negb written); [by right|]. destruct terminate; [by right|].
  apply (IH (past_events ++ [Incoming (Message request)])); [by rewrite <-app_assoc|].
  cbn [List.filter is_write List.length]. rewrite List.length_app, Nat.add_comm. cbn. f_equal. rewrite <-Hw.
  destruct Hc as (new & -> & Hnew). rewrite List.filter_app, List.length_app. clear -Hnew.
  replace (List.filter is_write new) with (@nil (event call)); [done|]. induction Hnew as [|x new Hx _ IHn]; [done|]. cbn. by rewrite Hx.
Qed.

(** C29: whatever the browser sends, whatever it is framed as, and whatever the vault, the
    key chain, the generator and the controller answer: every response answers the
    request that is being handled, and a host gives the value of a record only for the
    name and the origin of that request, where the record allows the origin as it was
    read from the vault FOR THAT REQUEST: to a standard fill, and to none during
    computer use, or to the controller, for the target of the request once its filling
    has begun.  It writes a record only outside computer use, the one that the request
    names, over the revision that it just read for the request: with the origin of the
    request added or removed, as asked, and all else as it was; or with a value that
    the generator made for the request, under its valid policy, where the request
    confirmed the revision.  And when it ends, the session is gone. *)
Theorem host_gives_only_allowed_values {W} `{!World call W} (w : W) :
  let '(past, r, _) := run (Run ComputerUse events None) w [] in lawful guard past ∧ ended r.
Proof.
  apply (wp_run guard (Run ComputerUse events None) [] (λ _ r, ended r) w); [|done].
  by apply (wp_mono guard _ _ (λ _ _, False) _ (λ _, ended)); [..|apply (spec_Run [])].
Qed.
End Safety.

(** ** An example *)

Module HostDemo.
Export Toy.
#[local] Existing Instances OriginDemo.urls OriginDemo.hosts LocalDemo.codec LocalDemo.kdf.
#[local] Instance records : RecordCodec := {|
  record_json r := Ok (to_text (sr_Name r, sr_Value r, sr_CreatedAt r, sr_RotatedAt r, sr_RotateEveryDays r, sr_Revision r, sr_AllowedOrigins r));
  record_of_json raw := '(name, value, created, rotated, days, revision, origins) ← of_text raw;
    Some {| sr_Name := name; sr_Value := value; sr_CreatedAt := created; sr_RotatedAt := rotated; sr_RotateEveryDays := days;
      sr_Revision := revision; sr_AllowedOrigins := origins |} |}.
#[local] Instance requests : MessageCodec string := {| message_json s := Ok s; message_of_json s := Some (s, true) |}.

Lemma messages_are_framed_witness : WriteMessage "{}" = Ok (PutUint32 2 +:+ "{}") ∧
  ReadMessage ((PutUint32 2 +:+ "{}") +:+ "rest") = (Message "{}", "rest").
Proof.
  split; [reflexivity|]. apply (messages_are_framed "{}"); [|reflexivity]. intros payload [= <-]. done.
Defined.

(** A vault with one record, which allows one site. *)
Definition key : string := substring 0 32 (zeros 32).
Definition session : Session := {| se_Config := LocalDemo.fresh; se_Secrets := dk_Secrets LocalDemo.keys; se_VaultKey := key |}.
Definition record : SecretRecord := {| sr_Name := "TOKEN"; sr_Value := "s3cret"; sr_CreatedAt := ""; sr_RotatedAt := ""; sr_RotateEveryDays := 0;
  sr_Revision := 4; sr_AllowedOrigins := ["https://example.com"] |}.
Definition stored : list Record_ :=
  match EncryptRecord (Ok (zeros 12)) "v1" key record with
  | Ok (id, blob) => [{| rec_ID := id; rec_Revision := 4; rec_Blob := blob; rec_ModifiedAt := "" |}]
  | Err _ => []
  end.
#[local] Instance world : World call unit := λ X c w,
  (match c in NativeHost.Call.call X return X with
   | Call.LoadConfig => Err "" | Call.KeychainGet _ => None | Call.ConfigSave _ => true | Call.Random _ => Ok (zeros 12)
   | Call.ListRecords _ => Ok stored | Call.PutRecord _ _ _ => Ok tt | Call.Generate _ => Ok "fresh" | Call.Now => 0
   | Call.Configured => true | Call.Available => true | Call.FillStart _ => None | Call.FillFinish _ => SUBMISSION_ATTEMPTED_CONTEXT_CLOSED
   | Call.Write _ => true
   end, w).
Definition ask_for (action origin : string) : Request :=
  {| rq_Version := 1; rq_ID := "1"; rq_Action := action; rq_Name := "TOKEN"; rq_Origin := origin; rq_Policy := DefaultPolicy;
     rq_ExpectedRevision := 4; rq_Target := None |}.
Fixpoint outcome {A} (p : program A) : option A :=
  match p with Done a => Some a | Exit _ => None | Ask c k => outcome (k (answer _ c tt).1) end.
Definition answer_to (computer_use : bool) (request : Request) : option (string * answer_body) :=
  (λ r : Response * bool * option Session, (rs_Error r.1.1, rs_Result r.1.1)) <$> outcome (Handle computer_use request (Some session)).

Example allowed_site : answer_to false (ask_for "get_for_fill" "https://EXAMPLE.com:443") = Some ("", FillValue "s3cret").
Proof. vm_compute. reflexivity. Qed.
Example other_site : answer_to false (ask_for "get_for_fill" "https://example.org") = Some ("variable is not allowed on this origin", NoResult).
Proof. vm_compute. reflexivity. Qed.
Example computer_use : answer_to true (ask_for "get_for_fill" "https://example.com") =
  Some ("standard credential operations are unavailable during computer use", NoResult).
Proof. vm_compute. reflexivity. Qed.
Example site_removed : answer_to false (ask_for "deny_origin" "https://example.com") = Some ("", PolicyChanged "TOKEN" "https://example.com").
Proof. vm_compute. reflexivity. Qed.
End HostDemo.
