(* ===== verification/Recovery.v ===== *)
(** Recovery artifacts: internal/recovery/artifact.go.  All records and objects of a vault,
    sealed under a key that is derived from a passphrase; their writing to a file is in
    RecoveryFile.v. *)
From S2P Require Import Prelude Base64 Timestamp Text Secure Protocol Envelope VaultObject Manifest LocalConfig Origin.
From stdpp Require Import options.

Definition LegacyVersion : Z := 1.
Definition Version : Z := 2.
Definition KDF : string := "pbkdf2-hmac-sha256".
Definition Cipher_ : string := "aes-256-gcm".
Definition Iterations : Z := 600000.
Definition MaxArtifact : Z := 268435456.
Definition recoveryMagic : string := "envbank.recovery.v".

Record KDFHeader := { kdf_Name : string; kdf_Salt : string; kdf_Iterations : Z }.
Record Artifact := { ar_Version : Z; ar_KDF : KDFHeader; ar_Cipher : string; ar_Encrypted : Blob }.
Record RecoverySnapshot := { rv_Records : list SecretRecord; rv_Objects : list VaultObject }.

(** JSON of artifacts and payloads, strictly decoded; lists are [None] where they are
    nil.  [%q] of a name is quoted. *)
Class RecoveryCodec := {
  payload_json : RecoverySnapshot → result string;
  payload_of_json : string → result (option (list SecretRecord) * option (list VaultObject));
  legacy_of_json : string → result (option (list SecretRecord));
  artifact_json : Artifact → result string;
  artifact_of_json : string → result Artifact;
  quoted : string → string;
}.

(** The checks of a list, where no two items may have one key. *)
Fixpoint each_once {A} (key : A → string) (check : A → result unit) (duplicate : A → string) (last : A → result unit) (seen : gset string)
    (l : list A) : result unit :=
  match l with
  | [] => Ok tt
  | x :: rest =>
      _ ← check x;
      _ ← reject_if (bool_decide (key x ∈ seen)) (duplicate x);
      _ ← last x;
      each_once key check duplicate last ({[key x]} ∪ seen) rest
  end.

Section Recovery.
Context {crypto : Crypto} {cipher : Cipher} {objects : ObjectCodec} {codec : RecoveryCodec} {kdf : KeyDerivation} {urls : URLs} {hosts : Hosts}.

Definition validEnvName (name : string) : bool := env_name name.

Definition origin_error (record : SecretRecord) (msg : string) : string := msg +:+ quoted (sr_Name record).

(** The origins of a record are normal, and no two are the same. *)
Definition validate_origins (record : SecretRecord) : result unit :=
  each_once id (λ origin, reject_if (negb (bool_decide (NormalizeOrigin origin = Ok origin)))
      (origin_error record "invalid browser origin for recovery record "))
    (λ _, origin_error record "duplicate browser origin for recovery record ") (λ _, Ok tt) ∅ (sr_AllowedOrigins record).

(** What is tested of a record after its name. *)
Definition validate_record_rest (record : SecretRecord) : result unit :=
  _ ← reject_if (sr_Revision record <? 1) (origin_error record "invalid revision for recovery record ");
  _ ← reject_if (sr_RotateEveryDays record <? 0) (origin_error record "invalid rotation policy for recovery record ");
  _ ← reject_if (bool_decide (parse_rfc3339 (sr_CreatedAt record) = None)) (origin_error record "invalid creation timestamp for recovery record ");
  _ ← reject_if (bool_decide (parse_rfc3339 (sr_RotatedAt record) = None)) (origin_error record "invalid rotation timestamp for recovery record ");
  validate_origins record.

Definition validateRecords (records : list SecretRecord) : result unit :=
  each_once sr_Name (λ record, reject_if (negb (validEnvName (sr_Name record))) (origin_error record "invalid recovery record name "))
    (λ record, origin_error record "duplicate recovery record name ") validate_record_rest ∅ records.

Definition validateObjects (l : list VaultObject) : result unit :=
  each_once identity (λ object, reject_if (negb (is_ok (VaultObject_Validate object))) "invalid recovery vault object")
    (λ _, "duplicate recovery vault object") (λ _, Ok tt) ∅ l.

Definition sort_snapshot (records : list SecretRecord) (l : list VaultObject) : RecoverySnapshot :=
  {| rv_Records := merge_sort (order_by sr_Name (λ _, "")) records; rv_Objects := merge_sort (order_by vo_Kind vo_Key) l |}.

Definition artifact_aad (a : Artifact) : string :=
  recoveryMagic +:+ Itoa (ar_Version a) +:+ nul +:+ Itoa (ar_Version a) +:+ nul +:+ kdf_Name (ar_KDF a) +:+ nul +:+ kdf_Salt (ar_KDF a) +:+
  nul +:+ Itoa (kdf_Iterations (ar_KDF a)) +:+ nul +:+ ar_Cipher a.

Definition validateHeader (a : Artifact) : result string :=
  _ ← reject_if (negb (ar_Version a =? LegacyVersion) && negb (ar_Version a =? Version))
        ("unsupported recovery artifact version " +:+ Itoa (ar_Version a));
  _ ← reject_if (negb (String.eqb (kdf_Name (ar_KDF a)) KDF) || negb (kdf_Iterations (ar_KDF a) =? Iterations))
        "unsupported or unsafe recovery KDF parameters";
  _ ← reject_if (negb (String.eqb (ar_Cipher a) Cipher_)) "unsupported recovery cipher";
  match decode (kdf_Salt (ar_KDF a)) with
  | Some salt => if slen salt =? 16 then Ok salt else Err "invalid recovery KDF salt"
  | None => Err "invalid recovery KDF salt"
  end.

Definition artifact_of (salt : string) (encrypted : Blob) : Artifact :=
  {| ar_Version := Version; ar_KDF := {| kdf_Name := KDF; kdf_Salt := encode salt; kdf_Iterations := Iterations |}; ar_Cipher := Cipher_;
     ar_Encrypted := encrypted |}.

(** [salt] and [nonce] are what the random source gave. *)
Definition SealSnapshot (salt nonce : result string) (snapshot : RecoverySnapshot) (passphrase : string) : result string :=
  _ ← reject_if (negb (nonempty passphrase)) "recovery passphrase must not be empty";
  _ ← validateRecords (rv_Records snapshot);
  _ ← validateObjects (rv_Objects snapshot);
  plaintext ← payload_json (sort_snapshot (rv_Records snapshot) (rv_Objects snapshot));
  _ ← reject_if (MaxArtifact <? slen plaintext) "recovery payload exceeds 256 MiB";
  salt ← salt;
  let artifact := artifact_of salt empty_blob in
  let key := DeriveKey passphrase salt Iterations in
  encrypted ← Seal nonce key plaintext (artifact_aad artifact);
  raw ← artifact_json (artifact_of salt encrypted);
  let raw := raw +:+ String lf "" in
  _ ← reject_if (MaxArtifact <? slen raw) "recovery artifact exceeds 256 MiB";
  Ok raw.

Definition Seal_ (salt nonce : result string) (records : list SecretRecord) (passphrase : string) : result string :=
  SealSnapshot salt nonce {| rv_Records := records; rv_Objects := [] |} passphrase.

(** The lists of a payload of either version. *)
Definition payload_lists (version : Z) (plaintext : string) : result (option (list SecretRecord) * option (list VaultObject)) :=
  match (if version =? LegacyVersion then records ← legacy_of_json plaintext; Ok (records, Some []) else payload_of_json plaintext) with
  | Err e => Err ("invalid recovery payload: " +:+ e)
  | Ok lists => Ok lists
  end.

Definition OpenSnapshot (raw passphrase : string) : result RecoverySnapshot :=
  _ ← reject_if (MaxArtifact <? slen raw) "recovery artifact exceeds 256 MiB";
  _ ← reject_if (negb (nonempty passphrase)) "recovery passphrase must not be empty";
  match artifact_of_json raw with
  | Err e => Err ("invalid recovery artifact: " +:+ e)
  | Ok artifact =>
      salt ← validateHeader artifact;
      let key := DeriveKey passphrase salt (kdf_Iterations (ar_KDF artifact)) in
      match Open key (ar_Encrypted artifact) (artifact_aad artifact) with
      | Err _ => Err "recovery artifact authentication failed"
      | Ok plaintext =>
          _ ← reject_if (MaxArtifact <? slen plaintext) "recovery payload exceeds 256 MiB";
          lists ← payload_lists (ar_Version artifact) plaintext;
          match (lists : option (list SecretRecord) * option (list VaultObject)) with
          | (None, _) => Err "invalid recovery payload: records are required"
          | (_, None) => Err "invalid recovery payload: objects are required"
          | (Some records, Some l) =>
              _ ← validateRecords records;
              _ ← validateObjects l;
              Ok (sort_snapshot records l)
          end
      end
  end.

Definition Open_ (raw passphrase : string) : result (list SecretRecord) :=
  snapshot ← OpenSnapshot raw passphrase; Ok (rv_Records snapshot).

(** [ReadSnapshot], of the bytes of the file: at most one more than is allowed. *)
Definition ReadSnapshot (raw : result string) (passphrase : string) : result (RecoverySnapshot * string) :=
  raw ← raw;
  _ ← reject_if (MaxArtifact <? slen raw) "recovery artifact exceeds 256 MiB";
  snapshot ← OpenSnapshot raw passphrase;
  Ok (snapshot, hex (sha256 raw)).
End Recovery.

(** ** Properties *)

Lemma each_once_Ok {A} (key : A → string) check duplicate last seen l :
  each_once key check duplicate last seen l = Ok tt ↔
  NoDup (key <$> l) ∧ (∀ x, x ∈ l → (key x ∉ seen) ∧ is_ok (check x) = true ∧ last x = Ok tt).
Proof.
  revert seen. induction l as [|x l IH]; intros seen; cbn [each_once].
  - split; [|done]. intros _. split; [constructor|]. by intros x ?%elem_of_nil.
  - rewrite fmap_cons, NoDup_cons. split.
    + intros ([] & Hc & H)%bind_Ok. apply reject_if_bind in H as [Hs%bool_decide_eq_false ([] & Hl & [Hnd Hrest]%IH)%bind_Ok]. split.
      * split; [|done]. intros (y & E & Hy)%list_elem_of_fmap. destruct (Hrest y Hy) as [Hn _]. apply Hn. rewrite <-E. set_solver.
      * intros y [->|Hy]%elem_of_cons; [by rewrite Hc|]. destruct (Hrest y Hy) as (Hn & Hy1 & Hy2). split; [set_solver|done].
    + intros [[Hx Hnd] Hall]. destruct (Hall x) as (Hs & Hc & Hl); [by left|]. apply is_ok_true in Hc as [[] ->]. cbn [mbind result_bind].
      rewrite bool_decide_eq_false_2 by done. cbn [reject_if mbind result_bind]. rewrite Hl. cbn [mbind result_bind]. apply IH. split; [done|].
      intros y Hy. destruct (Hall y) as (Hn & Hy1 & Hy2); [by right|]. split; [|done].
      intros [E%elem_of_singleton|Hin]%elem_of_union; [|done]. apply Hx. rewrite <-E. by apply list_elem_of_fmap_2.
Qed.

(** The lists are valid in any order. *)
Lemma each_once_perm {A} (key : A → string) check duplicate last l l' : l ≡ₚ l' →
  each_once key check duplicate last ∅ l = Ok tt → each_once key check duplicate last ∅ l' = Ok tt.
Proof.
  intros Hp. rewrite !each_once_Ok. intros [Hnd Hall]. split; [by rewrite <-Hp|]. intros x Hx. apply Hall. by rewrite Hp.
Qed.

Section Laws.
Context {crypto : Crypto} {cipher : Cipher} {laws : CipherLaws} {objects : ObjectCodec} {codec : RecoveryCodec} {kdf : KeyDerivation}
  {urls : URLs} {hosts : Hosts}.

Lemma validateRecords_perm l l' : l ≡ₚ l' → validateRecords l = Ok tt → validateRecords l' = Ok tt.
Proof. apply each_once_perm. Qed.
Lemma validateObjects_perm l l' : l ≡ₚ l' → validateObjects l = Ok tt → validateObjects l' = Ok tt.
Proof. apply each_once_perm. Qed.

(** A record as recovery accepts it. *)
Record record_valid (r : SecretRecord) : Prop := {
  rk_name : env_name (sr_Name r) = true;
  rk_revision : 1 ≤ sr_Revision r;
  rk_days : 0 ≤ sr_RotateEveryDays r;
  rk_times : is_Some (parse_rfc3339 (sr_CreatedAt r)) ∧ is_Some (parse_rfc3339 (sr_RotatedAt r));
  rk_origins : NoDup (sr_AllowedOrigins r) ∧ ∀ o, o ∈ sr_AllowedOrigins r → NormalizeOrigin o = Ok o;
}.

Lemma validateRecords_Ok l : validateRecords l = Ok tt → NoDup (sr_Name <$> l) ∧ ∀ r, r ∈ l → record_valid r.
Proof.
  intros [Hnd Hall]%each_once_Ok. split; [done|]. intros r Hr. destruct (Hall r Hr) as (_ & Hn & Hl).
  apply is_ok_true in Hn as [[] Hn]. apply reject_if_Ok, negb_false_iff in Hn. unfold validate_record_rest in Hl.
  rewrite !reject_if_bind in Hl. destruct Hl as (H1 & H2 & H3 & H4 & [Ho Hall']%each_once_Ok).
  apply bool_decide_eq_false, not_eq_None_Some in H3, H4. rewrite list_fmap_id in Ho.
  split; [done|lia|lia|done|]. split; [done|]. intros o Hin. destruct (Hall' o Hin) as (_ & Hok & _).
  apply is_ok_true in Hok as [[] Hok]. by apply reject_if_Ok, negb_false_iff, bool_decide_eq_true in Hok.
Qed.

Lemma sorted_snapshot records l : let s := sort_snapshot records l in
  rv_Records s ≡ₚ records ∧ rv_Objects s ≡ₚ l ∧ StronglySorted (order_by sr_Name (λ _, "")) (rv_Records s) ∧
  StronglySorted (order_by vo_Kind vo_Key) (rv_Objects s).
Proof. split_and!; [apply merge_sort_Permutation..|apply (StronglySorted_merge_sort _)|apply (StronglySorted_merge_sort _)]. Qed.

(** What an artifact that opens holds. *)
Lemma OpenSnapshot_Ok raw passphrase s : OpenSnapshot raw passphrase = Ok s → ∃ artifact salt nonce plaintext records l,
  artifact_of_json raw = Ok artifact ∧ validateHeader artifact = Ok salt ∧
  decode (blob_nonce (ar_Encrypted artifact)) = Some nonce ∧
  decode (blob_ciphertext (ar_Encrypted artifact)) =
    Some (gcm_seal (DeriveKey passphrase salt (kdf_Iterations (ar_KDF artifact))) nonce plaintext (artifact_aad artifact)) ∧
  payload_lists (ar_Version artifact) plaintext = Ok (Some records, Some l) ∧
  validateRecords records = Ok tt ∧ validateObjects l = Ok tt ∧ s = sort_snapshot records l.
Proof using laws.
  unfold OpenSnapshot. rewrite !reject_if_bind. intros (_ & _ & H). destruct (artifact_of_json raw) as [artifact|] eqn:Ea; [|done].
  apply bind_Ok in H as (salt & Hs & H). destruct (Open _ _ _) as [plaintext|] eqn:Eo; [|done]. apply reject_if_bind in H as [_ H].
  apply bind_Ok in H as ([[records|] [l|]] & Hl & H); [|done..]. apply bind_Ok in H as ([] & Hr & H). apply bind_Ok in H as ([] & Hv & [= <-]).
  apply Open_Ok in Eo as (nonce & _ & Hn & _ & _ & Hc). by exists artifact, salt, nonce, plaintext, records, l.
Qed.

Lemma validateHeader_Ok artifact salt : validateHeader artifact = Ok salt →
  kdf_Name (ar_KDF artifact) = KDF ∧ kdf_Iterations (ar_KDF artifact) = Iterations ∧ ar_Cipher artifact = Cipher_ ∧ slen salt = 16 ∧
  decode (kdf_Salt (ar_KDF artifact)) = Some salt.
Proof.
  unfold validateHeader. rewrite !reject_if_bind. intros (_ & Hk & Hc & H). destruct (decode _) as [s|]; [|done].
  destruct (slen s =? 16) eqn:El; [|done]. injection H as <-. passed Hk. passed Hc. split_and!; try done. lia.
Qed.

(** C26: what is exported is recovered.  A snapshot that was sealed under a passphrase
    opens under it to the same records and objects, in order.  And whatever opens under
    a passphrase was sealed under the key that 600000 rounds derive from it, with the
    header as it stands, and holds records with valid and different names, positive
    revisions and normal origins, and valid, different objects. *)
Theorem recovery_artifacts_restore passphrase :
  (∀ salt nonce snapshot raw, slen salt = 16 → slen nonce = gcm_NonceSize →
     (∀ text, payload_json (sort_snapshot (rv_Records snapshot) (rv_Objects snapshot)) = Ok text →
        payload_of_json text = Ok (Some (rv_Records (sort_snapshot (rv_Records snapshot) (rv_Objects snapshot))),
          Some (rv_Objects (sort_snapshot (rv_Records snapshot) (rv_Objects snapshot))))) →
     (∀ a text, artifact_json a = Ok text → artifact_of_json (text +:+ String lf "") = Ok a) →
     SealSnapshot (Ok salt) (Ok nonce) snapshot passphrase = Ok raw →
     ∃ s, OpenSnapshot raw passphrase = Ok s ∧ rv_Records s ≡ₚ rv_Records snapshot ∧ rv_Objects s ≡ₚ rv_Objects snapshot) ∧
  (∀ raw s, OpenSnapshot raw passphrase = Ok s →
     (∃ artifact salt nonce plaintext, artifact_of_json raw = Ok artifact ∧ decode (kdf_Salt (ar_KDF artifact)) = Some salt ∧
        decode (blob_ciphertext (ar_Encrypted artifact)) =
          Some (gcm_seal (DeriveKey passphrase salt Iterations) nonce plaintext (artifact_aad artifact))) ∧
     NoDup (sr_Name <$> rv_Records s) ∧ (∀ r, r ∈ rv_Records s → record_valid r) ∧
     NoDup (identity <$> rv_Objects s) ∧ (∀ o, o ∈ rv_Objects s → VaultObject_Validate o = Ok tt) ∧
     StronglySorted (order_by sr_Name (λ _, "")) (rv_Records s) ∧ StronglySorted (order_by vo_Kind vo_Key) (rv_Objects s)).
Proof using laws.
  split.
  - intros salt nonce snapshot raw Hsalt Hnonce Hjson Hartifact. unfold SealSnapshot.
    rewrite !reject_if_bind. intros [Hpass ([] & Hrec & ([] & Hobj & (plaintext & Hp & H)%bind_Ok)%bind_Ok)%bind_Ok].
    apply reject_if_bind in H as [Hmax H]. cbn [mbind result_bind] in H. apply bind_Ok in H as (encrypted & Hseal & H).
    apply bind_Ok in H as (text & Htext & H). apply reject_if_bind in H as [Hraw [= <-]].
    destruct (sorted_snapshot (rv_Records snapshot) (rv_Objects snapshot)) as (Hpr & Hpo & _).
    set (sorted := sort_snapshot (rv_Records snapshot) (rv_Objects snapshot)) in *.
    exists (sort_snapshot (rv_Records sorted) (rv_Objects sorted)).
    destruct (sorted_snapshot (rv_Records sorted) (rv_Objects sorted)) as (Hpr' & Hpo' & _).
    split; [|by rewrite Hpr', Hpo'].
    unfold OpenSnapshot. rewrite Hraw, Hpass, (Hartifact _ _ Htext). cbn [reject_if mbind result_bind].
    assert (Hheader : validateHeader (artifact_of salt encrypted) = Ok salt).
    { unfold validateHeader, artifact_of. cbn -[decode encode slen]. rewrite decode_encode. by rewrite Hsalt. }
    rewrite Hheader. change (artifact_aad (artifact_of salt encrypted)) with (artifact_aad (artifact_of salt empty_blob)).
    cbn [mbind result_bind]. change (kdf_Iterations _) with Iterations. change (ar_Encrypted _) with encrypted. change (ar_Version _) with Version.
    rewrite (Open_Seal _ _ _ _ _ Hnonce Hseal), Hmax. cbn [reject_if mbind result_bind].
    unfold payload_lists. change (Version =? LegacyVersion) with false. cbv iota. rewrite (Hjson _ Hp). cbn [mbind result_bind].
    rewrite (validateRecords_perm (rv_Records snapshot)), (validateObjects_perm (rv_Objects snapshot)) by done. done.
  - intros raw s (artifact & salt & nonce & plaintext & records & l & Ha & Hh & _ & Hc & _ & Hr & Ho & ->)%OpenSnapshot_Ok.
    destruct (validateHeader_Ok _ _ Hh) as (_ & Hi & _ & _ & Hsalt). rewrite Hi in Hc.
    destruct (sorted_snapshot records l) as (Hpr & Hpo & Hsr & Hso). split; [by exists artifact, salt, nonce, plaintext|].
    apply (validateRecords_perm _ (rv_Records (sort_snapshot records l))) in Hr; [|done]. apply validateRecords_Ok in Hr as [Hnd Hall].
    apply (validateObjects_perm _ (rv_Objects (sort_snapshot records l))) in Ho; [|done]. apply each_once_Ok in Ho as [Hnd' Hall'].
    split_and!; [done..| |done|done]. intros o Hin. destruct (Hall' o Hin) as (_ & Hok & _).
    apply is_ok_true in Hok as [[] Hok]. apply reject_if_Ok, negb_false_iff, is_ok_true in Hok as [[] Hok]. done.
Qed.
End Laws.

(** ** An example *)

Module RecoveryDemo.
Export Toy.
#[local] Existing Instances OriginDemo.urls OriginDemo.hosts LocalDemo.kdf.
#[local] Instance objects : ObjectCodec := {| object_json _ := Err ""; object_of_json _ := None; json_Valid s := String.eqb s "{}" |}.
Definition artifact_fields (a : Artifact) :=
  (ar_Version a, kdf_Name (ar_KDF a), kdf_Salt (ar_KDF a), kdf_Iterations (ar_KDF a), ar_Cipher a,
   blob_version (ar_Encrypted a), blob_nonce (ar_Encrypted a), blob_ciphertext (ar_Encrypted a)).
Definition fields_artifact (x : Z * string * string * Z * string * Z * string * string) : Artifact :=
  let '(version, name, salt, iterations, cipher, v, nonce, ciphertext) := x in
  {| ar_Version := version; ar_KDF := {| kdf_Name := name; kdf_Salt := salt; kdf_Iterations := iterations |}; ar_Cipher := cipher;
     ar_Encrypted := {| blob_version := v; blob_nonce := nonce; blob_ciphertext := ciphertext |} |}.
(** One payload, under a name, and artifacts of any content. *)
Definition record : SecretRecord := {| sr_Name := "TOKEN"; sr_Value := "s3cret"; sr_CreatedAt := "2026-08-09T20:00:00Z";
  sr_RotatedAt := "2026-08-09T20:00:00Z"; sr_RotateEveryDays := 0; sr_Revision := 4; sr_AllowedOrigins := ["https://example.com"] |}.
Definition snapshot : RecoverySnapshot := {| rv_Records := [record];
  rv_Objects := [{| vo_Kind := "provider-plan"; vo_Key := "p"; vo_Revision := 1; vo_ModifiedAt := "2026-08-09T20:00:00Z"; vo_Payload := "{}" |}] |}.
(** The last byte of an artifact is its line feed. *)
Fixpoint chomp (s : string) : string :=
  match s with EmptyString => "" | String c rest => if Ascii.eqb c lf then "" else String c (chomp rest) end.
#[local] Instance codec : RecoveryCodec := {|
  payload_json _ := Ok "the payload";
  payload_of_json raw := if String.eqb raw "the payload" then Ok (Some (rv_Records snapshot), Some (rv_Objects snapshot)) else Err "unknown";
  legacy_of_json _ := Err "";
  artifact_json a := Ok (to_text (artifact_fields a));
  artifact_of_json raw := match of_text (chomp raw) with Some x => Ok (fields_artifact x) | None => Err "" end;
  quoted s := s |}.

Lemma chomp_bits p : chomp (bits p +:+ String lf "") = bits p.
Proof. induction p as [p IH|p IH|]; cbn [bits]; rewrite ?string_app_cons; cbn; by rewrite ?IH. Qed.

Definition raw : string := match SealSnapshot (Ok (zeros 16)) (Ok (zeros 12)) snapshot "horse" with Ok raw => raw | Err _ => "" end.

Lemma recovery_artifacts_restore_witness : ∃ s, OpenSnapshot raw "horse" = Ok s ∧ rv_Records s ≡ₚ [record].
Proof.
  destruct (recovery_artifacts_restore "horse") as [H _].
  destruct (H (zeros 16) (zeros 12) snapshot raw) as (s & Ho & Hr & _); [reflexivity|reflexivity| | |vm_compute; reflexivity|exists s; split; [exact Ho|exact Hr]].
  - intros text [= <-]. reflexivity.
  - intros [v [name salt iterations] c [bv bn bc]] text [= <-]. cbn [artifact_of_json codec]. unfold to_text. rewrite chomp_bits.
    change (bits _) with (to_text (v, name, salt, iterations, c, bv, bn, bc)). by rewrite of_to_text.
Defined.
End RecoveryDemo.
