(* ===== verification/LocalFiles.v ===== *)
(** Files that are published whole: [Write] of internal/recovery/artifact.go and [Save] of
    internal/client/local.go, as programs over a file system that fails in any way, that
    other processes change between any two calls, and that loses what was not synced
    when the power fails. *)
From S2P Require Import Prelude Text Filepath Origin Recovery.
From S2P Require Export Program.
From stdpp Require Import options.

(** ** Files *)

Record File := { f_content : string; f_mode : Z; f_synced : bool }.
#[export] Instance File_eq_dec : EqDecision File.
Proof. solve_decision. Defined.
Abbreviation Files := (gmap string File).

Definition private_mode : Z := 384. (* 0600 *)

Inductive link_result := Linked | LinkExists | LinkFailed.

Module Call.
(** [Lstat]: whether there is a file; [None] for another error.  [CreateTemp]: the path of
    the new file. *)
Inductive call : Type → Type :=
| Lstat (path : string) : call (option bool)
| CreateTemp (dir : string) : call (option string)
| Chmod (path : string) : call bool
| Append (path data : string) : call bool
| Sync (path : string) : call bool
| Close (path : string) : call bool
| Link (old new : string) : call link_result
| Remove (path : string) : call bool
| MkdirAll (dir : string) : call bool
| WriteFile (path data : string) : call bool
| Rename (old new : string) : call bool.
End Call.
Abbreviation call := Call.call.
Abbreviation program := (flow call (result unit)).

(** [filepath.Dir] *)
Definition Dir (path : string) : string :=
  match cut_last "/" path with Some (before, _) => Clean (before +:+ "/") | None => Clean "" end.

(** The pattern of the temporary files. *)
Definition temp_prefix : string := ".envbank-recovery-".

Definition refuse_overwrite (path : string) : string := "refusing to overwrite existing recovery artifact " +:+ path.

(** A failure with the temporary file still open. *)
Definition close_and_fail (tmp msg : string) : program (result unit) := _ ← ask (Call.Close tmp); mret (Err msg).

(** [Write] from the temporary file on. *)
Definition publish_temp (tmp raw path : string) : program (result unit) :=
  ok ← ask (Call.Chmod tmp);
  if negb (ok : bool) then close_and_fail tmp "chmod"
  else
    ok ← ask (Call.Append tmp raw);
    if negb (ok : bool) then close_and_fail tmp "write"
    else
      ok ← ask (Call.Sync tmp);
      if negb (ok : bool) then close_and_fail tmp "sync"
      else
        ok ← ask (Call.Close tmp);
        if negb (ok : bool) then mret (Err "close")
        else
          linked ← ask (Call.Link tmp path);
          match (linked : link_result) with
          | LinkExists => mret (Err (refuse_overwrite path))
          | LinkFailed => mret (Err "link")
          | Linked =>
              ok ← ask (Call.Remove tmp);
              if negb (ok : bool) then mret (Err "remove")
              else
                ok ← ask (Call.Chmod path);
                mret (if (ok : bool) then Ok tt else Err "chmod")
          end.

(** [recovery.Write]; the deferred removal of the temporary file comes last. *)
Definition Write (path raw : string) : program (result unit) :=
  if MaxArtifact <? slen raw then mret (Err "recovery artifact exceeds 256 MiB")
  else
    found ← ask (Call.Lstat path);
    match (found : option bool) with
    | None => mret (Err "lstat")
    | Some true => mret (Err (refuse_overwrite path))
    | Some false =>
        tmp ← ask (Call.CreateTemp (Dir path));
        match (tmp : option string) with
        | None => mret (Err "create")
        | Some tmp =>
            published ← publish_temp tmp raw path;
            _ ← ask (Call.Remove tmp);
            mret (published : result unit)
        end
    end.

(** [Config.Save], of the text of the configuration. *)
Definition Save (path raw : string) : program (result unit) :=
  ok ← ask (Call.MkdirAll (Dir path));
  if negb (ok : bool) then mret (Err "mkdir")
  else
    let tmp := path +:+ ".tmp" in
    ok ← ask (Call.WriteFile tmp raw);
    if negb (ok : bool) then mret (Err "write")
    else
      ok ← ask (Call.Rename tmp path);
      if negb (ok : bool) then mret (Err "rename")
      else
        ok ← ask (Call.Chmod path);
        mret (if (ok : bool) then Ok tt else Err "chmod").

(** ** What the file system does *)

Definition with_mode (f : File) : File := {| f_content := f_content f; f_mode := private_mode; f_synced := f_synced f |}.
Definition appended (f : File) (data : string) : File := {| f_content := f_content f +:+ data; f_mode := f_mode f; f_synced := false |}.
Definition synced (f : File) : File := {| f_content := f_content f; f_mode := f_mode f; f_synced := true |}.

(** A failed call leaves the files as they are, but for writes: these may have written any
    part. *)
Definition answers {X} (fs : Files) (c : call X) : X → Files → Prop :=
  match c in Call.call X return X → Files → Prop with
  | Call.Lstat path => λ x fs', fs' = fs ∧ match x with Some b => b = bool_decide (is_Some (fs !! path)) | None => True end
  | Call.CreateTemp _ => λ x fs',
      match x with
      | Some tmp => has_prefix temp_prefix (Base tmp) = true ∧ fs !! tmp = None ∧ fs' = <[tmp := {| f_content := ""; f_mode := private_mode; f_synced := false |}]> fs
      | None => fs' = fs
      end
  | Call.Chmod path => λ x fs', if x then fs' = alter with_mode path fs else fs' = fs
  | Call.Append path data => λ x fs',
      if x then fs' = alter (λ f, appended f data) path fs else ∃ part, fs' = alter (λ f, appended f part) path fs
  | Call.Sync path => λ x fs', if x then fs' = alter synced path fs else fs' = fs
  | Call.Link old new => λ x fs',
      match x with
      | Linked => ∃ f, fs !! old = Some f ∧ fs !! new = None ∧ fs' = <[new := f]> fs
      | LinkExists | LinkFailed => fs' = fs
      end
  | Call.Remove path => λ x fs', if x then fs' = delete path fs else fs' = fs
  | Call.WriteFile path data => λ x fs', ∃ part mode, (x = true → part = data) ∧
      fs' = <[path := {| f_content := part; f_mode := mode; f_synced := false |}]> fs
  | Call.Rename old new => λ x fs', if x then ∃ f, fs !! old = Some f ∧ fs' = <[new := f]> (delete old fs) else fs' = fs
  | Call.Close _ | Call.MkdirAll _ => λ _ fs', fs' = fs
  end.

(** After a power failure a file that is still there has its content if it was synced, and
    else any. *)
Definition power_fails (fs fs' : Files) : Prop :=
  ∀ path f', fs' !! path = Some f' → ∃ f, fs !! path = Some f ∧ f_mode f' = f_mode f ∧
    (f_synced f = true → f_content f' = f_content f ∧ f_synced f' = true).

(** A process that runs a program over the files.  The temporary file is its own; [p_foreign]:
    another process has changed the file at the path that is published. *)
Record Process := { p_files : Files; p_temp : option string; p_foreign : bool; p_program : program (result unit) }.

Definition temp_after {X} (c : call X) (x : X) (temp : option string) : option string :=
  match c in Call.call X return X → option string with
  | Call.CreateTemp _ => λ x, x
  | _ => λ _, temp
  end x.

Inductive process_step (path : string) : Process → Process → Prop :=
| OwnCall fs temp foreign X (c : call X) k x fs' : answers fs c x fs' →
    process_step path {| p_files := fs; p_temp := temp; p_foreign := foreign; p_program := Ask c k |}
      {| p_files := fs'; p_temp := temp_after c x temp; p_foreign := foreign; p_program := k x |}
| OtherProcess fs temp foreign p fs' : (∀ tmp, temp = Some tmp → fs' !! tmp = fs !! tmp) →
    process_step path {| p_files := fs; p_temp := temp; p_foreign := foreign; p_program := p |}
      {| p_files := fs'; p_temp := temp; p_foreign := foreign || bool_decide (fs' !! path ≠ fs !! path); p_program := p |}
| PowerFailure fs temp foreign p fs' : power_fails fs fs' →
    process_step path {| p_files := fs; p_temp := temp; p_foreign := foreign; p_program := p |}
      {| p_files := fs'; p_temp := None; p_foreign := foreign; p_program := Done (Err "the process died") |}.

(** ** Proof *)

Section Process.
Context (path : string).

Record view := { w_files : Files; w_temp : option string; w_foreign : bool }.

(** What others may change; the temporary file is left alone. *)
Record rely (v v' : view) : Prop := {
  ry_temp : w_temp v' = w_temp v;
  ry_file : ∀ tmp, w_temp v = Some tmp → w_files v' !! tmp = w_files v !! tmp;
  ry_foreign : w_foreign v' = false → w_foreign v = false ∧ w_files v' !! path = w_files v !! path;
}.
#[export] Instance rely_preorder : PreOrder rely.
Proof.
  split; [by split|]. intros a b c [T1 F1 G1] [T2 F2 G2]. split; [congruence| |].
  - intros tmp E. rewrite F2 by congruence. by apply F1.
  - intros E. destruct (G2 E) as [E' ->]. by apply G1.
Qed.

(** [ok]: what may be at the path while no other process has changed it. *)
Context (ok : option File → Prop).

(** A call that overwrites nothing and keeps [ok]. *)
Definition harmless (v : view) {X} (c : call X) : Prop := ∀ x fs', answers (w_files v) c x fs' →
  (∀ f, w_files v !! path = Some f → ∃ f', fs' !! path = Some f' ∧ f_content f' = f_content f) ∧
  (w_foreign v = false → ok (w_files v !! path) → ok (fs' !! path)).

Definition after_call (v : view) {X} (c : call X) (x : X) (fs' : Files) : view :=
  {| w_files := fs'; w_temp := temp_after c x (w_temp v); w_foreign := w_foreign v |}.

Fixpoint safe {A} (p : flow call (result unit) A) (v : view) (Q : view → A → Prop) : Prop :=
  match p with
  | Done a => Q v a
  | Exit _ => False
  | Ask c k => ∀ v1, rely v v1 → harmless v1 c ∧ ∀ x fs', answers (w_files v1) c x fs' → safe (k x) (after_call v1 c x fs') Q
  end.

Lemma safe_bind {A B} (f : A → flow call (result unit) B) p v Q : safe p v (λ v a, safe (f a) v Q) → safe (p ≫= f) v Q.
Proof.
  revert v. induction p as [a|r|X c k IH]; intros v; simpl; [done..|]. intros Hp v1 Hr. destruct (Hp v1 Hr) as [Hh Hk]. split; [done|].
  intros x fs' Ha. by apply IH, Hk.
Qed.

Lemma safe_mono {A} (p : flow call (result unit) A) v (Q Q' : view → A → Prop) : (∀ v a, Q v a → Q' v a) → safe p v Q → safe p v Q'.
Proof.
  intros HQ. revert v. induction p as [a|r|X c k IH]; intros v; simpl; [apply HQ|done|]. intros Hp v1 Hr. destruct (Hp v1 Hr) as [Hh Hk].
  split; [done|]. intros x fs' Ha. by apply IH, Hk.
Qed.

Lemma safe_rely {A} (p : flow call (result unit) A) v v' (Q : view → A → Prop) :
  (∀ v1 v2 a, rely v1 v2 → Q v1 a → Q v2 a) → rely v v' → safe p v Q → safe p v' Q.
Proof. intros HQ Hr. destruct p; simpl; [by apply HQ|done|]. intros Hp v1 Hr'. apply Hp. by etransitivity. Qed.

Lemma safe_ask {X B} (c : call X) (f : X → flow call (result unit) B) v Q :
  (∀ v1, rely v v1 → harmless v1 c) → (∀ v1 x fs', rely v v1 → answers (w_files v1) c x fs' → safe (f x) (after_call v1 c x fs') Q) →
  safe (x ← ask c; f x) v Q.
Proof. intros Hh Hk v1 Hr. split; [by apply Hh|]. intros x fs' Ha. by apply Hk. Qed.

(** A call that leaves the path as it is. *)
Definition elsewhere {X} (c : call X) : Prop := ∀ fs x fs', answers fs c x fs' → fs' !! path = fs !! path.

Lemma elsewhere_harmless {X} (c : call X) v : elsewhere c → harmless v c.
Proof. intros Hc x fs' Ha. rewrite (Hc _ _ _ Ha). split; [|done]. intros f E. by exists f. Qed.

Lemma elsewhere_query : (∀ p, elsewhere (Call.Lstat p)) ∧ (∀ p, elsewhere (Call.Close p)) ∧ (∀ d, elsewhere (Call.MkdirAll d)).
Proof. split_and!; [by intros p fs x fs' [-> _]|by intros p fs x fs' ->|by intros p fs x fs' ->]. Qed.

Lemma elsewhere_file tmp : tmp ≠ path → elsewhere (Call.Chmod tmp) ∧ (∀ data, elsewhere (Call.Append tmp data)) ∧ elsewhere (Call.Sync tmp) ∧
  elsewhere (Call.Remove tmp) ∧ (∀ data, elsewhere (Call.WriteFile tmp data)).
Proof.
  intros Hne. split_and!; [intros fs x fs' Ha|intros data fs x fs' Ha|intros fs x fs' Ha|intros fs x fs' Ha|intros data fs x fs' Ha].
  - cbn in Ha. destruct x; subst; [by apply lookup_alter_ne|done].
  - cbn in Ha. destruct x; [subst; by apply lookup_alter_ne|]. destruct Ha as [part ->]. by apply lookup_alter_ne.
  - cbn in Ha. destruct x; subst; [by apply lookup_alter_ne|done].
  - cbn in Ha. destruct x; subst; [by apply lookup_delete_ne|done].
  - destruct Ha as (part & mode & _ & ->). by apply lookup_insert_ne.
Qed.

(** A temporary file with what is known of it. *)
Definition has_temp (v : view) (tmp : string) (f : File) : Prop := w_temp v = Some tmp ∧ w_files v !! tmp = Some f.

Lemma has_temp_rely v v' tmp f : rely v v' → has_temp v tmp f → has_temp v' tmp f.
Proof. intros [T F _] [Et Ef]. split; [congruence|]. by rewrite F. Qed.

(** ** The artifact *)

Context (raw : string).
Definition whole : File := {| f_content := raw; f_mode := private_mode; f_synced := true |}.
Hypothesis ok_whole : ok (Some whole).
Hypothesis ok_none : ok None.

(** The whole artifact is at the path, unless another process put something else there. *)
Definition published (v : view) : Prop := w_foreign v = false → w_files v !! path = Some whole.

Lemma published_rely v v' : rely v v' → published v → published v'.
Proof. intros [_ _ G] Hp E. destruct (G E) as [E' ->]. by apply Hp. Qed.

Lemma published_after v X (c : call X) x fs' : elsewhere c → answers (w_files v) c x fs' → published v → published (after_call v c x fs').
Proof. intros Hc Ha Hp E. cbn. rewrite (Hc _ _ _ Ha). by apply Hp. Qed.

Lemma harmless_link v tmp : has_temp v tmp whole → harmless v (Call.Link tmp path).
Proof using ok_whole.
  intros [_ Et] x fs' Ha. destruct x; cbn in Ha; [|subst; split; [|done]; intros f E; by exists f..].
  destruct Ha as (f & Ef & Ep & ->). rewrite Et in Ef. injection Ef as <-. split; [intros f E; congruence|]. intros _ _. by rewrite lookup_insert_eq.
Qed.

(** The last call sets the mode of what is there. *)
Lemma harmless_chmod v : published v → harmless v (Call.Chmod path).
Proof using ok_whole.
  intros Hp x fs' Ha. destruct x; cbn in Ha; [|subst; split; [|done]; intros f E; by exists f]. subst fs'. rewrite lookup_alter_eq. split.
  - intros f ->. by exists (with_mode f).
  - intros E _. by rewrite (Hp E).
Qed.

Lemma safe_close_and_fail tmp msg v (Q : view → result unit → Prop) : (∀ v' e, Q v' (Err e)) → safe (close_and_fail tmp msg) v Q.
Proof.
  intros HQ. apply safe_ask; [intros v1 _; apply elsewhere_harmless, elsewhere_query|]. intros v1 x fs' _ _. by apply HQ.
Qed.

(** What the caller is told holds. *)
Definition told (v : view) (r : result unit) : Prop := r = Ok tt → published v.

Lemma safe_publish tmp v : tmp ≠ path →
  has_temp v tmp {| f_content := ""; f_mode := private_mode; f_synced := false |} → safe (publish_temp tmp raw path) v told.
Proof using ok_whole.
  intros Hne H0. destruct (elsewhere_file tmp Hne) as (Ec & Ea & Es & Er & _). unfold publish_temp.
  apply safe_ask; [intros v1 _; by apply elsewhere_harmless|]. intros v1 ok1 fs1 Hr1 Ha1. pose proof (has_temp_rely _ _ _ _ Hr1 H0) as [Et1 Ef1].
  destruct ok1; cbn [negb]; [|by apply safe_close_and_fail]. cbn in Ha1. subst fs1.
  assert (H1 : has_temp (after_call v1 (Call.Chmod tmp) true (alter with_mode tmp (w_files v1))) tmp
    {| f_content := ""; f_mode := private_mode; f_synced := false |}) by (split; [done|]; cbn; by rewrite lookup_alter_eq, Ef1).
  apply safe_ask; [intros v2 _; by apply elsewhere_harmless|]. intros v2 ok2 fs2 Hr2 Ha2. pose proof (has_temp_rely _ _ _ _ Hr2 H1) as [Et2 Ef2].
  destruct ok2; cbn [negb]; [|by apply safe_close_and_fail]. cbn in Ha2. subst fs2.
  set (v2' := after_call _ _ _ _). assert (H2 : has_temp v2' tmp {| f_content := raw; f_mode := private_mode; f_synced := false |})
    by (split; [done|]; cbn; by rewrite lookup_alter_eq, Ef2).
  apply safe_ask; [intros v3 _; by apply elsewhere_harmless|]. intros v3 ok3 fs3 Hr3 Ha3. pose proof (has_temp_rely _ _ _ _ Hr3 H2) as [Et3 Ef3].
  destruct ok3; cbn [negb]; [|by apply safe_close_and_fail]. cbn in Ha3. subst fs3.
  set (v3' := after_call _ _ _ _). assert (H3 : has_temp v3' tmp whole) by (split; [done|]; cbn; by rewrite lookup_alter_eq, Ef3).
  apply safe_ask; [intros v4 _; apply elsewhere_harmless, elsewhere_query|]. intros v4 ok4 fs4 Hr4 Ha4.
  pose proof (has_temp_rely _ _ _ _ Hr4 H3) as H4. destruct ok4; cbn [negb]; [|done]. cbn in Ha4. subst fs4.
  apply safe_ask; [intros v5 Hr5; apply harmless_link; by eapply has_temp_rely|]. intros v5 linked fs5 Hr5 Ha5.
  pose proof (has_temp_rely _ _ _ _ Hr5 H4) as [Et5 Ef5]. destruct linked; [|done..]. destruct Ha5 as (f & Ef & Ep & ->).
  rewrite Ef5 in Ef. injection Ef as <-. set (v5' := after_call _ _ _ _).
  assert (H5 : published v5') by (intros _; cbn; by apply lookup_insert_eq).
  apply safe_ask; [intros v6 _; by apply elsewhere_harmless|]. intros v6 ok6 fs6 Hr6 Ha6.
  assert (H6 : published (after_call v6 (Call.Remove tmp) ok6 fs6)) by (apply published_after; [done..|by eapply published_rely]).
  destruct ok6; cbn [negb]; [|done]. apply safe_ask; [intros v7 Hr7; apply harmless_chmod; by eapply published_rely|].
  intros v7 ok7 fs7 Hr7 Ha7 Hok E. pose proof (published_rely _ _ Hr7 H6) as H7. destruct ok7; [|done]. cbn in Ha7. subst fs7. cbn.
  by rewrite lookup_alter_eq, (H7 E).
Qed.

Lemma safe_Write v : has_prefix temp_prefix (Base path) = false → safe (Write path raw) v told.
Proof using ok_whole.
  intros Hbase. unfold Write. destruct (MaxArtifact <? slen raw); [done|].
  apply safe_ask; [intros v1 _; apply elsewhere_harmless, elsewhere_query|]. intros v1 [[]|] fs1 Hr1 Ha1; [done| |done].
  assert (Etemp : ∀ d, elsewhere (Call.CreateTemp d)).
  { intros d fs [tmp|] fs' Ha; [|by rewrite Ha]. destruct Ha as (Hp & _ & ->). apply lookup_insert_ne.
    intros E. rewrite E, Hbase in Hp. done. }
  apply safe_ask; [intros v2 _; by apply elsewhere_harmless|]. intros v2 [tmp|] fs2 Hr2 Ha2; [|done]. destruct Ha2 as (Hp & _ & ->).
  assert (Hne : tmp ≠ path) by (intros E; rewrite E, Hbase in Hp; done). destruct (elsewhere_file tmp Hne) as (_ & _ & _ & Er & _).
  apply safe_bind. eapply safe_mono; [|apply safe_publish; [done|split; [done|by apply lookup_insert_eq]]]. intros v3 r Htold.
  apply safe_ask; [intros v4 _; by apply elsewhere_harmless|]. intros v4 ok4 fs4 Hr4 Ha4 Hr. apply published_after; [done..|].
  eapply published_rely; [done|]. by apply Htold.
Qed.
End Process.

Definition start (files : Files) (p : program (result unit)) : Process :=
  {| p_files := files; p_temp := None; p_foreign := false; p_program := p |}.
Definition view_of (σ : Process) : view := {| w_files := p_files σ; w_temp := p_temp σ; w_foreign := p_foreign σ |}.

(** Nothing yet, or all of it, where there was nothing at first. *)
Definition nothing_or_whole (files : Files) (path raw : string) (f : option File) : Prop :=
  files !! path = None → f = None ∨ f = Some (whole raw).

Definition process_ok (files : Files) (path raw : string) (σ : Process) : Prop :=
  safe path (nothing_or_whole files path raw) (p_program σ) (view_of σ) (told path raw) ∧
  (p_foreign σ = false → nothing_or_whole files path raw (p_files σ !! path)).

Lemma power_keeps_whole raw fs fs' path : power_fails fs fs' → fs !! path = Some (whole raw) → fs' !! path = None ∨ fs' !! path = Some (whole raw).
Proof.
  intros Hp E. destruct (fs' !! path) as [f'|] eqn:E'; [right|by left]. destruct (Hp _ _ E') as (f & Ef & Hm & Hs). rewrite E in Ef.
  injection Ef as <-. destruct (Hs eq_refl) as [Hc Hs']. destruct f' as [c m s]. cbn in *. by subst.
Qed.

Lemma process_step_ok files path raw σ σ' : process_step path σ σ' → process_ok files path raw σ → process_ok files path raw σ'.
Proof.
  intros [fs temp foreign X c k x fs' Ha|fs temp foreign p fs' Ht|fs temp foreign p fs' Hp] [Hs Hok]; cbn in *.
  - destruct (Hs (view_of {| p_files := fs; p_temp := temp; p_foreign := foreign; p_program := Ask c k |})) as [Hh Hk]; [reflexivity|].
    destruct (Hh x fs' Ha) as [_ Hkeep]. split; [by apply Hk|]. intros E. apply Hkeep; [done|by apply Hok].
  - split.
    + apply (safe_rely path _ p {| w_files := fs; w_temp := temp; w_foreign := foreign |}); [|split; [done|exact Ht|]|exact Hs].
      * intros v1 v2 a Hr Hp Ea. eapply published_rely; [exact Hr|by apply Hp].
      * cbn. intros [E1 E2]%orb_false_iff. apply bool_decide_eq_false, dec_stable in E2. done.
    + intros [E1 E2]%orb_false_iff. apply bool_decide_eq_false, dec_stable in E2. cbn [p_files]. rewrite E2. by apply Hok.
  - split; [done|]. intros E H0. destruct (Hok E H0) as [En|Ew]; [|by eapply power_keeps_whole]. left.
    destruct (fs' !! path) as [f'|] eqn:E'; [|done]. destruct (Hp _ _ E') as (f & Ef & _). congruence.
Qed.

(** C27: a recovery artifact appears whole or not at all.  However the calls fail, wherever
    the process or the power fails, and whatever other processes do between the calls:
    as long as none of them touches the path, there is either nothing at it or the whole
    artifact, on disk, for the owner's eyes only; the artifact is there when success is
    reported; and no call of the writing process changes the bytes of a file that is at
    the path, whoever put it there. *)
Theorem artifact_appears_whole files path raw σ : has_prefix temp_prefix (Base path) = false →
  rtc (process_step path) (start files (Write path raw)) σ →
  (p_foreign σ = false → files !! path = None → p_files σ !! path = None ∨ p_files σ !! path = Some (whole raw)) ∧
  (p_foreign σ = false → p_program σ = Done (Ok tt) → p_files σ !! path = Some (whole raw)) ∧
  ∀ X (c : call X) k x fs', p_program σ = Ask c k → answers (p_files σ) c x fs' →
    ∀ f, p_files σ !! path = Some f → ∃ f', fs' !! path = Some f' ∧ f_content f' = f_content f.
Proof.
  intros Hbase Hrun. assert (Hok : process_ok files path raw σ).
  { assert (H0 : process_ok files path raw (start files (Write path raw))).
    { split; [|by left]. apply safe_Write; [|done]. intros _. by right. }
    revert H0. induction Hrun as [|σ σ' σ'' Hs _ IH]; [done|]. intros H. by apply IH, (process_step_ok _ _ _ _ _ Hs). }
  destruct Hok as [Hs Hok]. split_and!.
  - intros E. by apply Hok.
  - intros E Ep. rewrite Ep in Hs. by apply Hs.
  - intros X c k x fs' Ep Ha f Ef. rewrite Ep in Hs. destruct (Hs (view_of σ)) as [Hh _]; [reflexivity|]. by apply (Hh x fs' Ha).
Qed.

(** ** The configuration *)

(** In every state of a program that fails in any way, or stops. *)
Fixpoint always {A} (p : program A) (fs : Files) (P : Files → Prop) : Prop :=
  P fs ∧ match p with Ask c k => ∀ x fs', answers fs c x fs' → always (k x) fs' P | _ => True end.

(** A process that dies leaves the old configuration or the new one. *)
Lemma saved_whole path raw files : always (Save path raw) files
  (λ fs, fs !! path = files !! path ∨ ∃ f, fs !! path = Some f ∧ f_content f = raw).
Proof.
  assert (Hne : path +:+ ".tmp" ≠ path).
  { intros E%(f_equal String.length). rewrite string_length_app in E. cbn in E. lia. }
  unfold Save. split; [by left|]. intros ok1 fs1 ->. destruct ok1; cbn [negb]; [|by split; [left|]]. split; [by left|].
  intros ok2 fs2 (part & mode & Hpart & ->). destruct ok2; cbn [negb]; [|split; [|done]; left; by apply lookup_insert_ne].
  specialize (Hpart eq_refl) as ->. split; [left; by apply lookup_insert_ne|]. intros ok3 fs3 Ha3. destruct ok3; cbn [negb].
  - destruct Ha3 as (f & Ef & ->). fold (path +:+ ".tmp") in Ef. rewrite lookup_insert_eq in Ef. injection Ef as <-. split.
    + right. rewrite lookup_insert_eq. by eexists.
    + intros ok4 fs4 Ha4. split; [|done]. right. destruct ok4; cbn in Ha4; subst fs4; rewrite ?lookup_alter_eq, lookup_insert_eq; by eexists.
  - cbn in Ha3. subst fs3. split; [|done]. left. by apply lookup_insert_ne.
Qed.

(** Where the power fails, the new configuration may be empty: it was not synced. *)
Module FilesDemo.
Definition files : Files := {["c" := {| f_content := "old"; f_mode := private_mode; f_synced := true |}]}.
Definition saved : Files := {["c" := {| f_content := "new"; f_mode := private_mode; f_synced := false |}]}.
Definition lost : Files := {["c" := {| f_content := ""; f_mode := private_mode; f_synced := true |}]}.

Example saved_then_lost : rtc (process_step "c") (start files (Save "c" "new"))
  {| p_files := lost; p_temp := None; p_foreign := false; p_program := Done (Err "the process died") |}.
Proof.
  eapply rtc_l; [apply (OwnCall _ _ _ _ _ _ _ true); reflexivity|]. cbn [negb flow_bind_].
  eapply rtc_l; [apply (OwnCall _ _ _ _ _ _ _ true (<["c.tmp" := {| f_content := "new"; f_mode := private_mode; f_synced := false |}]> files));
    by exists "new", private_mode|]. cbn [negb flow_bind_].
  eapply rtc_l; [apply (OwnCall _ _ _ _ _ _ _ true saved); by eexists|]. cbn [negb flow_bind_].
  eapply rtc_l; [apply (OwnCall _ _ _ _ _ _ _ true saved); vm_compute; reflexivity|].
  eapply rtc_l; [|reflexivity]. apply PowerFailure. intros path f' E. unfold lost in E. apply lookup_singleton_Some in E as [<- <-].
  eexists. split; [reflexivity|]. by split.
Qed.

(** An artifact, published. *)
Definition temp : string := "/b/.envbank-recovery-1".
Definition file (content : string) (sync : bool) : File := {| f_content := content; f_mode := private_mode; f_synced := sync |}.
Definition written : Process :=
  {| p_files := {["/b/a" := file "sealed" true]}; p_temp := Some temp; p_foreign := false; p_program := Done (Ok tt) |}.

Ltac own_call x fs := eapply rtc_l; [apply (OwnCall _ _ _ _ _ _ _ x fs)|]; cbn [negb flow_bind_ temp_after].

Lemma written_reached : rtc (process_step "/b/a") (start ∅ (Write "/b/a" "sealed")) written.
Proof.
  own_call (Some false) (∅ : Files); [by vm_compute|].
  own_call (Some temp) ({[temp := file "" false]} : Files); [by vm_compute|].
  own_call true ({[temp := file "" false]} : Files); [by vm_compute|].
  own_call true ({[temp := file "sealed" false]} : Files); [by vm_compute|].
  own_call true ({[temp := file "sealed" true]} : Files); [by vm_compute|].
  own_call true ({[temp := file "sealed" true]} : Files); [by vm_compute|].
  own_call Linked ({[temp := file "sealed" true; "/b/a" := file "sealed" true]} : Files); [by exists (file "sealed" true); vm_compute|].
  own_call true ({["/b/a" := file "sealed" true]} : Files); [by vm_compute|].
  own_call true ({["/b/a" := file "sealed" true]} : Files); [by vm_compute|].
  own_call false ({["/b/a" := file "sealed" true]} : Files); [by vm_compute|].
  reflexivity.
Qed.

Lemma artifact_appears_whole_witness : p_files written !! "/b/a" = Some (whole "sealed").
Proof. apply (artifact_appears_whole ∅ "/b/a" "sealed" written); [by vm_compute|apply written_reached|reflexivity..]. Defined.
End FilesDemo.
