(* ===== verification/Restore.v ===== *)
(** The restoration of a vault from a recovery artifact: restoreSnapshot, restoreRecords,
    validateRecoveryTarget and restoreObjects of cmd/envbank/recovery.go, with the start
    and the resumption that call them.  A restoration is a program over the replacement
    vault; it may die at any call and be resumed. *)
From S2P Require Import Prelude Base64 Timestamp Text Secure Protocol Envelope VaultObject Client Manifest LocalConfig Origin Recovery.
From S2P Require Export Program.
From stdpp Require Import options.

Module Call.
(** The calls of the API that a restoration makes, with their encrypted answers, and the
    source of nonces. *)
Inductive call : Type → Type :=
| ListRecords : call (result (list Record_))
| PutRecord (id : string) (request : PutRecordRequest) : call (result unit)
| ListVaultObjects : call (result (list Record_))
| PutVaultObject (id : string) (request : PutVaultObjectRequest) : call (result unit)
| Random : call (result string).
End Call.
Abbreviation call := Call.call.
Abbreviation program := (flow call (result unit)).

Definition try {A} (r : result A) : program A := match r with Ok a => mret a | Err msg => Exit (Err msg) end.

Section Restore.
Context {crypto : Crypto} {cipher : Cipher} {records : RecordCodec} {objects : ObjectCodec}.
(** The replacement vault and its key. *)
Context (VaultID vaultKey : string).

Definition first_record (r : SecretRecord) : SecretRecord :=
  {| sr_Name := sr_Name r; sr_Value := sr_Value r; sr_CreatedAt := sr_CreatedAt r; sr_RotatedAt := sr_RotatedAt r;
     sr_RotateEveryDays := sr_RotateEveryDays r; sr_Revision := 1; sr_AllowedOrigins := sr_AllowedOrigins r |}.
Definition first_object (o : VaultObject) : VaultObject :=
  {| vo_Kind := vo_Kind o; vo_Key := vo_Key o; vo_Revision := 1; vo_ModifiedAt := vo_ModifiedAt o; vo_Payload := vo_Payload o |}.

#[local] Instance SecretRecord_eq_dec : EqDecision SecretRecord.
Proof. solve_decision. Defined.

Definition expected_records (source : list SecretRecord) : gmap string SecretRecord :=
  foldl (λ m r, <[sr_Name r := first_record r]> m) ∅ source.
Definition expected_ids (source : list SecretRecord) : gset string := list_to_set ((λ r, RecordID vaultKey (sr_Name r)) <$> source).
Definition expected_objects (source : list VaultObject) : gmap string VaultObject :=
  foldl (λ m o, <[identity o := first_object o]> m) ∅ source.

(** The names that are there already, each with what is expected. *)
Fixpoint present_records (expected : gmap string SecretRecord) (existing : list SecretRecord) : result (gset string) :=
  match existing with
  | [] => Ok ∅
  | record :: rest =>
      match expected !! sr_Name record with
      | None => Err "replacement vault contains an unexpected record"
      | Some want =>
          if decide (record = want) then present ← present_records expected rest; Ok ({[sr_Name record]} ∪ present)
          else Err ("replacement vault contains a conflicting record for " +:+ sr_Name record)
      end
  end.

Definition validateRecoveryTarget (expected : gmap string SecretRecord) (ids : gset string) : program (gset string) :=
  encrypted ← ask Call.ListRecords;
  encrypted ← try encrypted;
  _ ← try (reject_if (existsb (λ r, bool_decide (rec_ID r ∉ ids)) encrypted) "replacement vault contains an unexpected record");
  existing ← try (match DecryptRecords VaultID vaultKey encrypted with
                  | Ok l => Ok l
                  | Err _ => Err "replacement vault key or record contents could not be verified"
                  end);
  try (present_records expected existing).

Definition upload_record (present : gset string) (recovered : SecretRecord) (_ : unit) : program unit :=
  if bool_decide (sr_Name recovered ∈ present) then mret tt
  else
    nonce ← ask Call.Random;
    encrypted ← try (EncryptRecord nonce VaultID vaultKey (first_record recovered));
    stored ← ask (Call.PutRecord (encrypted : string * Blob).1 {| pr_ExpectedRevision := 0; pr_Blob := encrypted.2 |});
    try (match (stored : result unit) with Ok _ => Ok tt | Err e => Err ("upload " +:+ sr_Name recovered +:+ ": " +:+ e) end).

Definition restoreRecords (source : list SecretRecord) : program unit :=
  let expected := expected_records source in
  let ids := expected_ids source in
  present ← validateRecoveryTarget expected ids;
  _ ← for_each (upload_record present) source tt;
  present ← validateRecoveryTarget expected ids;
  try (reject_if (negb (Z.of_nat (size (present : gset string)) =? Z.of_nat (size expected)))
         "replacement vault is missing one or more restored records").

Definition list_objects : program (list VaultObject) :=
  encrypted ← ask Call.ListVaultObjects;
  try ((encrypted : result (list Record_)) ≫= DecryptAll VaultID vaultKey).

Fixpoint present_objects (expected : gmap string VaultObject) (existing : list VaultObject) : result (gset string) :=
  match existing with
  | [] => Ok ∅
  | object :: rest =>
      match expected !! identity object with
      | None => Err "replacement vault contains an unexpected vault object"
      | Some want =>
          if decide (object = want) then present ← present_objects expected rest; Ok ({[identity object]} ∪ present)
          else Err "replacement vault contains a conflicting vault object"
      end
  end.

Definition upload_object (present : gset string) (recovered : VaultObject) (_ : unit) : program unit :=
  if bool_decide (identity recovered ∈ present) then mret tt
  else
    nonce ← ask Call.Random;
    encrypted ← try (Encrypt nonce VaultID vaultKey (first_object recovered));
    stored ← ask (Call.PutVaultObject (encrypted : string * Blob).1
      {| po_ExpectedRevision := 0; po_ModifiedAt := vo_ModifiedAt recovered; po_Blob := encrypted.2 |});
    try (match (stored : result unit) with Ok _ => Ok tt | Err _ => Err "vault object recovery upload failed" end).

Definition verified_objects (expected : gmap string VaultObject) (existing : list VaultObject) : bool :=
  forallb (λ o, bool_decide (expected !! identity o = Some o)) existing.

Definition restoreObjects (source : list VaultObject) : program unit :=
  let expected := expected_objects source in
  existing ← list_objects;
  present ← try (present_objects expected existing);
  _ ← for_each (upload_object present) source tt;
  existing ← list_objects;
  _ ← try (reject_if (negb (Z.of_nat (List.length existing) =? Z.of_nat (size expected)))
             "replacement vault is missing one or more restored vault objects");
  try (reject_if (negb (verified_objects expected existing)) "replacement vault object contents could not be verified").

Definition restoreSnapshot (snapshot : RecoverySnapshot) : program unit :=
  _ ← restoreRecords (rv_Records snapshot);
  restoreObjects (rv_Objects snapshot).
End Restore.

(** The text that binds a configuration to its artifact: a resumption is refused with any
    other. *)
Definition may_resume (cfg : Config) (artifactID : string) : result unit :=
  reject_if (negb (nonempty (cf_RecoveryArtifact cfg)) || negb (String.eqb (cf_RecoveryArtifact cfg) artifactID))
    "config does not belong to this recovery artifact".

(** The restoration of a vault does its work once, however often it is interrupted. *)

(** ** The replacement vault *)

(** What the service keeps, and whether a call of the running attempt has failed. *)
Record Vault := { vt_records : list Record_; vt_objects : list Record_; vt_failed : bool }.

Definition stored_at (id modified : string) (blob : Blob) : Record_ := {| rec_ID := id; rec_Revision := 1; rec_Blob := blob; rec_ModifiedAt := modified |}.

Definition with_record (v : Vault) (item : Record_) : Vault :=
  {| vt_records := item :: vt_records v; vt_objects := vt_objects v; vt_failed := vt_failed v |}.
Definition with_object (v : Vault) (item : Record_) : Vault :=
  {| vt_records := vt_records v; vt_objects := item :: vt_objects v; vt_failed := vt_failed v |}.
Definition failing (v : Vault) : Vault := {| vt_records := vt_records v; vt_objects := vt_objects v; vt_failed := true |}.

(** A list call shows everything, in some order, or fails.  A put with the expected revision
    0 is refused where the identifier is taken; else it stores the item at revision 1, or
    fails, and then the item may be stored all the same: the reply was lost. *)
Definition answers X (c : call X) (v : Vault) : X → Vault → Prop :=
  match c in Call.call X return X → Vault → Prop with
  | Call.ListRecords => λ x v', match x with Ok l => l ≡ₚ vt_records v ∧ v' = v | Err _ => v' = failing v end
  | Call.ListVaultObjects => λ x v', match x with Ok l => l ≡ₚ vt_objects v ∧ v' = v | Err _ => v' = failing v end
  | Call.PutRecord id request => λ x v', ∃ modified,
      let stored := with_record v (stored_at id modified (pr_Blob request)) in
      if bool_decide (id ∈ rec_ID <$> vt_records v) || negb (pr_ExpectedRevision request =? 0) then is_ok x = false ∧ v' = v
      else match x with Ok _ => v' = stored | Err _ => v' = failing v ∨ v' = failing stored end
  | Call.PutVaultObject id request => λ x v',
      let stored := with_object v (stored_at id (po_ModifiedAt request) (po_Blob request)) in
      if bool_decide (id ∈ rec_ID <$> vt_objects v) || negb (po_ExpectedRevision request =? 0) then is_ok x = false ∧ v' = v
      else match x with Ok _ => v' = stored | Err _ => v' = failing v ∨ v' = failing stored end
  | Call.Random => λ x v', match x with Ok nonce => slen nonce = gcm_NonceSize ∧ v' = v | Err _ => v' = failing v end
  end.

(** ** Items that decrypt to what was to be restored *)

Lemma Forall2_exists {A B} (P : A → B → Prop) (l : list A) : (∀ a, a ∈ l → ∃ b, P a b) → ∃ bs, Forall2 P l bs.
Proof.
  induction l as [|a l IH]; intros H; [by exists []|]. destruct (H a) as [b Hb]; [by left|].
  destruct IH as [bs Hbs]; [intros a' ?; apply H; by right|]. exists (b :: bs). by constructor.
Qed.

Lemma foldl_insert_map {A B} (f : A → string) (g : A → B) (l : list A) : ∀ m : gmap string B, NoDup (f <$> l) → (∀ a, a ∈ l → m !! f a = None) →
  foldl (λ m a, <[f a := g a]> m) m l = (list_to_map ((λ a, (f a, g a)) <$> l) : gmap string B) ∪ m.
Proof.
  induction l as [|a l IH]; intros m Hnd Hm; cbn; [by rewrite (left_id_L ∅ _)|].
  inversion Hnd as [|? ? Hni Hnd']; subst. rewrite IH; [|done|].
  - rewrite <-insert_union_r, insert_union_l; [done|]. apply not_elem_of_list_to_map_1.
    rewrite <-list_fmap_compose. intros Hin. by apply Hni.
  - intros b Hb. rewrite lookup_insert_ne; [apply Hm; by right|]. intros E. apply Hni. rewrite E. by apply list_elem_of_fmap_2.
Qed.

Section Items.
Context {A : Type} (decrypt : Record_ → result A) (name ident : A → string) (source : list A).
Hypothesis decrypt_ident : ∀ item a, decrypt item = Ok a → rec_ID item = ident a.
Hypothesis source_once : NoDup (name <$> source).

(** Each item is something of the source, and none is there twice. *)
Definition kept (items : list Record_) : Prop :=
  NoDup (rec_ID <$> items) ∧ ∀ item, item ∈ items → ∃ a, a ∈ source ∧ decrypt item = Ok a.

Definition holds (items : list Record_) (a : A) : Prop := ∃ item, item ∈ items ∧ decrypt item = Ok a.

Lemma name_inj a b : a ∈ source → b ∈ source → name a = name b → a = b.
Proof using source_once. intros Ha Hb E. by eapply NoDup_fmap_inj_on. Qed.

Lemma kept_nil : kept [].
Proof. split; [constructor|]. by intros ? ?%elem_of_nil. Qed.

Lemma kept_cons item a items : kept items → rec_ID item ∉ rec_ID <$> items → a ∈ source → decrypt item = Ok a → kept (item :: items).
Proof.
  intros [Hnd Hk] Hni Ha Hd. split; [by constructor|]. intros it [->|Hin]%elem_of_cons; [by exists a|by apply Hk].
Qed.

Lemma holds_taken items a : holds items a → ident a ∈ rec_ID <$> items.
Proof using decrypt_ident. intros (item & Hin & Hd). rewrite <-(decrypt_ident _ _ Hd). by apply list_elem_of_fmap_2. Qed.

Lemma holds_cons item items a : holds items a → holds (item :: items) a.
Proof. intros (it & Hin & Hd). exists it. split; [by right|done]. Qed.

(** The items in the order of a reply, decrypted. *)
Lemma kept_decrypts items l : kept items → l ≡ₚ items →
  NoDup (rec_ID <$> l) ∧ ∃ found, Forall2 (λ item a, decrypt item = Ok a) l found ∧ NoDup (name <$> found) ∧
    ∀ a, a ∈ found ↔ a ∈ source ∧ holds items a.
Proof using decrypt_ident source_once.
  intros [Hnd Hk] Hp. assert (Hnd' : NoDup (rec_ID <$> l)) by (by rewrite Hp). split; [done|].
  assert (He : ∃ found, Forall2 (λ item a, a ∈ source ∧ decrypt item = Ok a) l found).
  { apply Forall2_exists. intros item Hin. apply Hk. by rewrite <-Hp. }
  destruct He as [found Hf]. exists found. assert (Hs : ∀ a, a ∈ found → a ∈ source ∧ holds items a).
  { intros a [i Hi]%list_elem_of_lookup. destruct (Forall2_lookup_r _ _ _ _ _ Hf Hi) as (item & Hl & Ha & Hd). split; [done|].
    exists item. split; [|done]. rewrite <-Hp. by eapply list_elem_of_lookup_2. }
  assert (Hids : rec_ID <$> l = ident <$> found).
  { clear -Hf decrypt_ident. induction Hf as [|item a l found [_ Hd] _ IH]; [done|]. cbn. by rewrite IH, (decrypt_ident _ _ Hd). }
  split_and!.
  - eapply Forall2_impl; [exact Hf|]. by intros ? ? [].
  - apply NoDup_fmap_2_strong; [|rewrite Hids in Hnd'; by apply NoDup_fmap_1 in Hnd'].
    intros a b Ha Hb. apply name_inj; by apply Hs.
  - intros a. split; [apply Hs|]. intros [_ (item & Hin & Hd)]. rewrite <-Hp in Hin.
    apply list_elem_of_lookup in Hin as [i Hi]. destruct (Forall2_lookup_l _ _ _ _ _ Hf Hi) as (b & Hb & _ & Hd').
    assert (a = b) as -> by congruence. by eapply list_elem_of_lookup_2.
Qed.

(** As many as were to be restored: all of them. *)
Lemma found_all found : NoDup (name <$> found) → (∀ a, a ∈ found → a ∈ source) → length found = length source → found ≡ₚ source.
Proof.
  intros Hnd Hs Hl. apply submseteq_length_Permutation; [|lia]. apply NoDup_submseteq; [by apply NoDup_fmap_1 in Hnd|done].
Qed.

Lemma found_everything found : NoDup (name <$> found) → (∀ a, a ∈ found ↔ a ∈ source) → length found = length source.
Proof using source_once.
  intros Hnd Hs. apply Permutation_length, NoDup_Permutation; [by apply NoDup_fmap_1 in Hnd|by apply NoDup_fmap_1 in source_once|done].
Qed.

(** The maps of what is expected. *)
Definition expects : gmap string A := list_to_map ((λ a, (name a, a)) <$> source).

Lemma expects_lookup a : a ∈ source → expects !! name a = Some a.
Proof using source_once.
  intros Ha. apply elem_of_list_to_map_1; [by rewrite <-list_fmap_compose|]. by apply (list_elem_of_fmap_2 (λ a, (name a, a))).
Qed.

Lemma expects_size : size expects = length source.
Proof using source_once. unfold expects. rewrite map_size_list_to_map; [by rewrite length_fmap|by rewrite <-list_fmap_compose]. Qed.
End Items.

(** ** The restoration of one snapshot into one vault *)

Section Restore.
Context {crypto : Crypto} {cipher : Cipher} {records : RecordCodec} {objects : ObjectCodec} {laws : CipherLaws}.
Context (VaultID vaultKey : string) (snapshot : RecoverySnapshot).

(** What recovery.Open has checked of the snapshot, and what the JSON of Go does with its
    items; no two identifiers of records collide. *)
Record restorable : Prop := {
  rs_names : NoDup (sr_Name <$> rv_Records snapshot);
  rs_identities : NoDup (identity <$> rv_Objects snapshot);
  rs_valid : ∀ o, o ∈ rv_Objects snapshot → VaultObject_Validate (first_object o) = Ok tt;
  rs_record_json : ∀ r, r ∈ rv_Records snapshot → ∃ raw, record_json (first_record r) = Ok raw ∧ record_of_json raw = Some (first_record r);
  rs_object_json : ∀ o, o ∈ rv_Objects snapshot → ∃ raw, object_json (first_object o) = Ok raw ∧ object_of_json raw = Some (first_object o);
  rs_key : aes_key vaultKey = true;
  rs_record_ids : NoDup ((λ r, RecordID vaultKey (sr_Name r)) <$> rv_Records snapshot);
  rs_object_ids : NoDup ((λ o, ID vaultKey (vo_Kind o) (vo_Key o)) <$> rv_Objects snapshot);
}.
Context (ok : restorable).

Abbreviation wanted_records := (first_record <$> rv_Records snapshot).
Abbreviation wanted_objects := (first_object <$> rv_Objects snapshot).
Abbreviation record_id := (λ r : SecretRecord, RecordID vaultKey (sr_Name r)).
Abbreviation object_id := (λ o : VaultObject, ID vaultKey (vo_Kind o) (vo_Key o)).
Abbreviation opens_record := (decrypt_record VaultID vaultKey).
Abbreviation opens_object := (Decrypt VaultID vaultKey).

Lemma record_ident item r : opens_record item = Ok r → rec_ID item = record_id r.
Proof.
  clear ok. unfold decrypt_record. destruct (Open _ _ _) as [raw|]; [|done]. destruct (record_of_json raw) as [r'|]; [|done].
  rewrite reject_if_bind. intros [H [= <-]]. passed H. done.
Qed.
Lemma object_ident item o : opens_object item = Ok o → rec_ID item = object_id o.
Proof. intros H. by apply Decrypt_fields in H as (_ & -> & _). Qed.

Lemma wanted_records_once : NoDup (sr_Name <$> wanted_records).
Proof using ok. rewrite <-list_fmap_compose. apply ok. Qed.
Lemma wanted_objects_once : NoDup (identity <$> wanted_objects).
Proof using ok. rewrite <-list_fmap_compose. apply ok. Qed.

(** The vault at any moment: part of what is to be restored. *)
Definition partly_restored (v : Vault) : Prop :=
  kept opens_record wanted_records (vt_records v) ∧ kept opens_object wanted_objects (vt_objects v).
Definition all_records (v : Vault) : Prop := ∀ r, r ∈ wanted_records → holds opens_record (vt_records v) r.
Definition all_objects (v : Vault) : Prop := ∀ o, o ∈ wanted_objects → holds opens_object (vt_objects v) o.

(** How a function may end early: only with an error, and only when a call failed. *)
Definition gives_up (v : Vault) (r : result unit) : Prop := partly_restored v ∧ is_ok r = false ∧ vt_failed v = true.

Abbreviation swp := (swp answers partly_restored).

Lemma swp_try {A} (a : A) v Ret (Q : Vault → A → Prop) : Q v a → swp (try (Ok a)) v Ret Q.
Proof. done. Qed.

(** An encryption that is stored opens. *)
Lemma encrypted_record r nonce : r ∈ rv_Records snapshot → slen nonce = gcm_NonceSize →
  ∃ blob, EncryptRecord (Ok nonce) VaultID vaultKey (first_record r) = Ok (record_id r, blob) ∧
    ∀ modified, opens_record (stored_at (record_id r) modified blob) = Ok (first_record r).
Proof using ok laws.
  intros Hin Hn. destruct (rs_record_json ok r Hin) as (raw & Ej & Ed). unfold EncryptRecord. rewrite Ej. cbn [mbind result_bind].
  destruct (Seal (Ok nonce) vaultKey raw (record_aad VaultID (RecordID vaultKey (sr_Name (first_record r))))) as [blob|e] eqn:Es.
  2: { unfold Seal, check_aes_key in Es. rewrite (rs_key ok) in Es. done. }
  exists blob. split; [done|]. intros modified. unfold decrypt_record. cbn [stored_at rec_Blob rec_ID rec_Revision].
  pose proof (Open_Seal _ _ _ _ _ Hn Es) as Ho. cbn [first_record sr_Name] in Ho. rewrite Ho, Ed. cbn [first_record sr_Name sr_Revision]. by rewrite String.eqb_refl.
Qed.

Lemma encrypted_object o nonce : o ∈ rv_Objects snapshot → slen nonce = gcm_NonceSize →
  ∃ blob, Encrypt (Ok nonce) VaultID vaultKey (first_object o) = Ok (object_id o, blob) ∧
    opens_object (stored_at (object_id o) (vo_ModifiedAt o) blob) = Ok (first_object o).
Proof using ok laws.
  intros Hin Hn. destruct (rs_object_json ok o Hin) as (raw & Ej & Ed).
  assert (He : ∃ blob, Encrypt (Ok nonce) VaultID vaultKey (first_object o) = Ok (object_id o, blob)).
  { unfold Encrypt. rewrite (rs_valid ok o Hin), Ej. cbn [mbind result_bind]. unfold Seal, check_aes_key. rewrite (rs_key ok).
    by eexists. }
  destruct He as [blob He]. exists blob. split; [done|].
  apply (Decrypt_Encrypt nonce VaultID vaultKey (first_object o)); [done| |done]. intros raw' Ej'. congruence.
Qed.

(** A vault whose list was read. *)
Lemma read_records v l : partly_restored v → l ≡ₚ vt_records v → ∃ found, DecryptRecords VaultID vaultKey l = Ok found ∧
  NoDup (sr_Name <$> found) ∧ ∀ r, r ∈ found ↔ r ∈ wanted_records ∧ holds opens_record (vt_records v) r.
Proof using ok.
  intros [Hr _] Hp. destruct (kept_decrypts _ _ _ _ record_ident wanted_records_once _ l Hr Hp) as (_ & found & Hf & Hnd & Hin).
  assert (Hd : decrypt_records VaultID vaultKey l = Ok found).
  { clear -Hf. induction Hf as [|item r l found Hd _ IH]; [done|]. cbn [decrypt_records]. by rewrite Hd, IH. }
  exists (merge_sort (order_by sr_Name (λ _, "")) found). unfold DecryptRecords. rewrite Hd. split; [done|].
  rewrite merge_sort_Permutation. split; [done|]. intros r. by rewrite merge_sort_Permutation.
Qed.

Lemma read_objects v l : partly_restored v → l ≡ₚ vt_objects v → ∃ found, DecryptAll VaultID vaultKey l = Ok found ∧
  NoDup (identity <$> found) ∧ ∀ o, o ∈ found ↔ o ∈ wanted_objects ∧ holds opens_object (vt_objects v) o.
Proof using ok laws.
  intros [_ Ho] Hp. destruct (kept_decrypts _ _ _ _ object_ident wanted_objects_once _ l Ho Hp) as (Hids & found & Hf & Hnd & Hin).
  assert (Hd : decrypt_each VaultID vaultKey ∅ ∅ l = Ok found) by (apply decrypt_each_Ok; [set_solver|split_and!; [done|set_solver|done]]).
  exists (merge_sort (order_by vo_Kind vo_Key) found). unfold DecryptAll. rewrite Hd. split; [done|].
  rewrite merge_sort_Permutation. split; [done|]. intros o. by rewrite merge_sort_Permutation.
Qed.

Lemma expected_records_spec : expected_records (rv_Records snapshot) = expects sr_Name wanted_records.
Proof using ok.
  unfold expected_records, expects. rewrite foldl_insert_map; [|apply ok|done]. rewrite (right_id_L ∅ _). by rewrite <-list_fmap_compose.
Qed.
Lemma expected_objects_spec : expected_objects (rv_Objects snapshot) = expects identity wanted_objects.
Proof using ok.
  unfold expected_objects, expects. rewrite foldl_insert_map; [|apply ok|done]. rewrite (right_id_L ∅ _). by rewrite <-list_fmap_compose.
Qed.

Lemma present_records_spec found : (∀ r, r ∈ found → r ∈ wanted_records) →
  present_records (expects sr_Name wanted_records) found = Ok (list_to_set (sr_Name <$> found)).
Proof using ok.
  induction found as [|r found IH]; intros Hs; [done|]. cbn [present_records].
  rewrite (expects_lookup _ _ wanted_records_once r) by (apply Hs; by left). rewrite decide_True by done.
  rewrite IH; [done|]. intros r' Hr'. apply Hs. by right.
Qed.
Lemma present_objects_spec found : (∀ o, o ∈ found → o ∈ wanted_objects) →
  present_objects (expects identity wanted_objects) found = Ok (list_to_set (identity <$> found)).
Proof using ok.
  induction found as [|o found IH]; intros Hs; [done|]. cbn [present_objects].
  rewrite (expects_lookup _ _ wanted_objects_once o) by (apply Hs; by left). rewrite decide_True by done.
  rewrite IH; [done|]. intros o' Ho'. apply Hs. by right.
Qed.

(** ** The programs *)

Lemma failing_gives_up v e : partly_restored v → gives_up (failing v) (Err e).
Proof. by intros H. Qed.

Lemma swp_validate v (Q : Vault → gset string → Prop) : partly_restored v →
  (∀ found, NoDup (sr_Name <$> found) → (∀ r, r ∈ found ↔ r ∈ wanted_records ∧ holds opens_record (vt_records v) r) →
    Q v (list_to_set (sr_Name <$> found))) →
  swp (validateRecoveryTarget VaultID vaultKey (expected_records (rv_Records snapshot)) (expected_ids vaultKey (rv_Records snapshot))) v gives_up Q.
Proof using ok.
  intros Hp HQ. unfold validateRecoveryTarget. apply swp_ask; [done|]. intros [l|e] v' Ha; cbn in Ha; [|subst; by apply failing_gives_up].
  destruct Ha as [Hl ->]. cbn [try]. apply swp_bind. cbn.
  assert (He : existsb (λ r, bool_decide (rec_ID r ∉ expected_ids vaultKey (rv_Records snapshot))) l = false).
  { apply not_true_is_false. rewrite existsb_exists. intros (item & Hin & Hni%bool_decide_eq_true). apply Hni.
    apply list_elem_of_In in Hin. rewrite Hl in Hin. destruct (proj2 (proj1 Hp) item Hin) as (r & (r' & -> & Hr')%list_elem_of_fmap & Hd).
    rewrite (record_ident _ _ Hd). unfold expected_ids. apply elem_of_list_to_set.
    apply list_elem_of_fmap. by exists r'. }
  rewrite He. cbn. destruct (read_records v l Hp Hl) as (found & -> & Hnd & Hin). cbn [try]. apply swp_bind. cbn.
  rewrite expected_records_spec, present_records_spec by (intros r Hr; by apply Hin). by apply HQ.
Qed.

(** What the upload of one item does, among those that were there and those that were
    uploaded: none of the others is there, unless a call has failed. *)
Definition uploading {A} (wanted : list A) (opens : Record_ → result A) (items : Vault → list Record_) (name : A → string)
    (present : gset string) (rest : list A) (v : Vault) : Prop :=
  partly_restored v ∧ ∃ past, wanted = past ++ rest ∧
    (∀ a, a ∈ wanted → name a ∈ present ∨ a ∈ past → holds opens (items v) a) ∧
    (∀ a, a ∈ wanted → holds opens (items v) a → name a ∈ present ∨ a ∈ past).

Lemma uploading_next {A} (wanted : list A) opens items name present a rest v v' :
  uploading wanted opens items name present (a :: rest) v → partly_restored v' → holds opens (items v') a →
  (∀ b, holds opens (items v) b → holds opens (items v') b) →
  (∀ b, holds opens (items v') b → b = a ∨ holds opens (items v) b) → uploading wanted opens items name present rest v'.
Proof.
  intros (_ & past & -> & H1 & H2) Hp Ha Hk Hb. split; [done|]. exists (past ++ [a]). rewrite <-(assoc_L app). cbn. split_and!; [done| |].
  - intros b Hb' [Hn|[Hin| ->%list_elem_of_singleton]%elem_of_app]; [apply Hk, H1; [done|by left]|apply Hk, H1; [done|by right]|done].
  - intros b Hb' Hh. rewrite elem_of_app, list_elem_of_singleton. destruct (Hb b Hh) as [-> | Hh']; [by right; right|].
    destruct (H2 b Hb' Hh'); [by left|right; by left].
Qed.

(** An item whose turn it is has a free identifier. *)
Lemma uploading_free {A} (wanted : list A) opens items name ident present a rest v :
  (∀ item b, opens item = Ok b → rec_ID item = ident b) → NoDup (ident <$> wanted) → kept opens wanted (items v) →
  uploading wanted opens items name present (a :: rest) v → name a ∉ present → ident a ∉ rec_ID <$> items v.
Proof.
  intros Hid Hnd [_ Hk] (_ & past & Ew & _ & H2) Hni (item & E & Hin)%list_elem_of_fmap. destruct (Hk item Hin) as (b & Hb & Hd).
  assert (Ha : a ∈ wanted) by (rewrite Ew; apply elem_of_app; right; by left).
  assert (b = a) as -> by (apply (NoDup_fmap_inj_on ident wanted); [done..|by rewrite <-(Hid _ _ Hd)]).
  destruct (H2 a Ha) as [|Hpast]; [by exists item|done|]. apply NoDup_fmap_1 in Hnd. rewrite Ew in Hnd.
  apply NoDup_app in Hnd as (_ & Hd' & _). apply (Hd' a Hpast). by left.
Qed.

Lemma partly_with_record v r modified blob : partly_restored v → r ∈ rv_Records snapshot → record_id r ∉ rec_ID <$> vt_records v →
  opens_record (stored_at (record_id r) modified blob) = Ok (first_record r) → partly_restored (with_record v (stored_at (record_id r) modified blob)).
Proof. intros [Hr Ho] Hin Hni Hd. split; [|done]. eapply kept_cons; [done..| |done]. by apply list_elem_of_fmap_2. Qed.
Lemma partly_with_object v o modified blob : partly_restored v → o ∈ rv_Objects snapshot → object_id o ∉ rec_ID <$> vt_objects v →
  opens_object (stored_at (object_id o) modified blob) = Ok (first_object o) → partly_restored (with_object v (stored_at (object_id o) modified blob)).
Proof. intros [Hr Ho] Hin Hni Hd. split; [done|]. eapply kept_cons; [done..| |done]. by apply list_elem_of_fmap_2. Qed.

Lemma holds_cons_inv {A} (opens : Record_ → result A) item items a b : opens item = Ok a → holds opens (item :: items) b → b = a ∨ holds opens items b.
Proof. intros Hd (it & [->|Hin]%elem_of_cons & Hb); [left; congruence|right; by exists it]. Qed.

Lemma wanted_record_ids : NoDup (record_id <$> wanted_records).
Proof using ok. rewrite <-list_fmap_compose. apply ok. Qed.
Lemma wanted_object_ids : NoDup (object_id <$> wanted_objects).
Proof using ok. rewrite <-list_fmap_compose. apply ok. Qed.

(** Without a nonce nothing is encrypted. *)
Lemma no_nonce_record e r : ∃ e', EncryptRecord (Err e) VaultID vaultKey r = Err e'.
Proof.
  unfold EncryptRecord, Seal. destruct (record_json r); cbn; [|by eexists]. destruct (check_aes_key vaultKey); by eexists.
Qed.
Lemma no_nonce_object e o : ∃ e', Encrypt (Err e) VaultID vaultKey o = Err e'.
Proof.
  destruct (Encrypt (Err e) VaultID vaultKey o) as [p|e'] eqn:E; [by apply sealed_nonce in E|by exists e'].
Qed.

Lemma swp_upload_record r rest present v : uploading wanted_records opens_record vt_records sr_Name present (first_record r :: rest) v →
  r ∈ rv_Records snapshot →
  swp (upload_record VaultID vaultKey present r tt) v gives_up (λ v _, uploading wanted_records opens_record vt_records sr_Name present rest v).
Proof using ok laws.
  intros Hup Hr. pose proof Hup as (Hp & past & Ew & H1 & H2). unfold upload_record. case_bool_decide as Hin.
  { apply (uploading_next _ _ _ _ _ (first_record r) _ v v); [done..| |by auto|by auto]. apply H1; [by apply list_elem_of_fmap_2|by left]. }
  apply swp_ask; [done|]. intros [nonce|e] v1 Ha; cbn in Ha.
  2: { subst v1. by destruct (no_nonce_record e (first_record r)) as [e' ->]. }
  destruct Ha as [Hn ->]. destruct (encrypted_record r nonce Hr Hn) as (blob & -> & Hd). cbn [try]. apply swp_ask; [done|]. intros x v2 (modified & Ha).
  pose proof (uploading_free _ _ _ _ record_id _ _ _ _ record_ident wanted_record_ids (proj1 Hp) Hup Hin) as Hfree.
  rewrite bool_decide_false in Ha by exact Hfree. cbn in Ha.
  pose proof (partly_with_record v r modified blob Hp Hr Hfree (Hd modified)) as Hp'.
  destruct x as [[]|e]; cbn [try]; [|by destruct Ha as [-> | ->]]. subst v2.
  eapply uploading_next; [done..| | |]; cbn [vt_records with_record].
  - eexists. split; [by left|done].
  - intros b. apply holds_cons.
  - intros b. apply holds_cons_inv, Hd.
Qed.

Lemma swp_upload_object o rest present v : uploading wanted_objects opens_object vt_objects identity present (first_object o :: rest) v →
  o ∈ rv_Objects snapshot →
  swp (upload_object VaultID vaultKey present o tt) v gives_up (λ v' _, vt_records v' = vt_records v ∧ uploading wanted_objects opens_object vt_objects identity present rest v').
Proof using ok laws.
  intros Hup Hr. pose proof Hup as (Hp & past & Ew & H1 & H2). unfold upload_object. case_bool_decide as Hin.
  { split; [done|]. apply (uploading_next _ _ _ _ _ (first_object o) _ v v); [done..| |by auto|by auto]. apply H1; [by apply list_elem_of_fmap_2|by left]. }
  apply swp_ask; [done|]. intros [nonce|e] v1 Ha; cbn in Ha.
  2: { subst v1. by destruct (no_nonce_object e (first_object o)) as [e' ->]. }
  destruct Ha as [Hn ->]. destruct (encrypted_object o nonce Hr Hn) as (blob & -> & Hd). cbn [try]. apply swp_ask; [done|]. intros x v2 Ha.
  pose proof (uploading_free _ _ _ _ object_id _ _ _ _ object_ident wanted_object_ids (proj2 Hp) Hup Hin) as Hfree.
  unfold answers in Ha. rewrite bool_decide_false in Ha by exact Hfree. cbn in Ha.
  pose proof (partly_with_object v o _ blob Hp Hr Hfree Hd) as Hp'.
  destruct x as [[]|e]; cbn [try]; [|by destruct Ha as [-> | ->]]. subst v2. split; [done|].
  eapply uploading_next; [done..| | |]; cbn [vt_objects with_object].
  - eexists. split; [by left|done].
  - intros b. apply holds_cons.
  - intros b. apply holds_cons_inv, Hd.
Qed.

(** The start of the uploads and their end. *)
Lemma uploading_start {A} (wanted found : list A) opens items name v : NoDup (name <$> wanted) → partly_restored v →
  (∀ a, a ∈ found ↔ a ∈ wanted ∧ holds opens (items v) a) → uploading wanted opens items name (list_to_set (name <$> found)) wanted v.
Proof.
  intros Hnd Hp Hin. split; [done|]. exists []. split_and!; [done| |].
  - intros a Ha [(b & E & Hb)%elem_of_list_to_set%list_elem_of_fmap|?%elem_of_nil]; [|done].
    assert (a = b) as -> by (apply (name_inj name wanted); [done|done|by apply Hin|done]). by apply Hin.
  - intros a Ha Hh. left. apply elem_of_list_to_set, list_elem_of_fmap. exists a. split; [done|by apply Hin].
Qed.

Lemma uploading_end {A} (wanted : list A) opens items name present v :
  uploading wanted opens items name present [] v → partly_restored v ∧ ∀ a, a ∈ wanted → holds opens (items v) a.
Proof. intros (Hp & past & -> & H & _). split; [done|]. intros a. rewrite app_nil_r. intros Ha. apply H; [by rewrite app_nil_r|by right]. Qed.

Lemma found_size {A} (name : A → string) (wanted found : list A) : NoDup (name <$> wanted) → NoDup (name <$> found) →
  (∀ a, a ∈ found ↔ a ∈ wanted) → length found = size (expects name wanted) ∧ size (list_to_set (name <$> found) : gset string) = size (expects name wanted).
Proof.
  intros Hw Hf Hin. rewrite (expects_size _ _ Hw), size_list_to_set, length_fmap by done.
  by rewrite (found_everything name wanted Hw found Hf Hin).
Qed.

Lemma restore_records_spec v : partly_restored v →
  swp (restoreRecords VaultID vaultKey (rv_Records snapshot)) v gives_up (λ v _, partly_restored v ∧ all_records v).
Proof using ok laws.
  intros Hp. unfold restoreRecords. apply swp_bind, swp_validate; [done|]. intros found _ Hin.
  apply swp_bind. apply (swp_for_each _ _ _ _ _ _ _ _ (λ l v _, (∀ r, r ∈ l → r ∈ rv_Records snapshot) ∧
    uploading wanted_records opens_record vt_records sr_Name (list_to_set (sr_Name <$> found)) (first_record <$> l) v)).
  - split; [done|]. by apply uploading_start; [apply wanted_records_once|..].
  - intros v1 [] r l [Hs Hup]. eapply swp_mono; [done| |apply swp_upload_record; [exact Hup|apply Hs; by left]].
    intros v2 [] Hup'. split; [|done]. intros r' Hr'. apply Hs. by right.
  - intros v1 _ [_ [Hp1 Hall]%uploading_end]. apply swp_bind, swp_validate; [done|]. intros found' Hnd' Hin'.
    rewrite expected_records_spec. destruct (found_size sr_Name wanted_records found' wanted_records_once Hnd') as [_ ->].
    { intros r. rewrite Hin'. split; [by intros []|]. intros Hr. split; [done|by apply Hall]. }
    by rewrite Z.eqb_refl.
Qed.

Lemma swp_list_objects v (Q : Vault → list VaultObject → Prop) : partly_restored v →
  (∀ found, NoDup (identity <$> found) → (∀ o, o ∈ found ↔ o ∈ wanted_objects ∧ holds opens_object (vt_objects v) o) → Q v found) →
  swp (list_objects VaultID vaultKey) v gives_up Q.
Proof using ok laws.
  intros Hp HQ. unfold list_objects. apply swp_ask; [done|]. intros [l|e] v' Ha; cbn in Ha; [|subst; by apply failing_gives_up].
  destruct Ha as [Hl ->]. destruct (read_objects v l Hp Hl) as (found & E & Hnd & Hin). cbn. rewrite E. by apply HQ.
Qed.

Lemma verified_spec found : (∀ o, o ∈ found → o ∈ wanted_objects) → verified_objects (expects identity wanted_objects) found = true.
Proof using ok.
  intros Hs. apply forallb_forall. intros o Ho%list_elem_of_In. apply bool_decide_eq_true, expects_lookup; [apply wanted_objects_once|by apply Hs].
Qed.

Lemma restore_objects_spec v : partly_restored v → all_records v →
  swp (restoreObjects VaultID vaultKey (rv_Objects snapshot)) v gives_up (λ v _, partly_restored v ∧ all_records v ∧ all_objects v).
Proof using ok laws.
  intros Hp Hr. unfold restoreObjects. apply swp_bind, swp_list_objects; [done|]. intros found _ Hin.
  rewrite expected_objects_spec, present_objects_spec by (intros o Ho; by apply Hin).
  apply swp_bind, swp_try, swp_bind. apply (swp_for_each _ _ _ _ _ _ _ _ (λ l v _, (∀ o, o ∈ l → o ∈ rv_Objects snapshot) ∧ all_records v ∧
    uploading wanted_objects opens_object vt_objects identity (list_to_set (identity <$> found)) (first_object <$> l) v)).
  - split_and!; [done..|]. by apply uploading_start; [apply wanted_objects_once|..].
  - intros v1 [] o l (Hs & Hr1 & Hup). eapply swp_mono; [done| |apply swp_upload_object; [exact Hup|apply Hs; by left]].
    intros v2 [] [Er Hup']. split_and!; [|unfold all_records; by rewrite Er|done]. intros o' Ho'. apply Hs. by right.
  - intros v1 _ (_ & Hr1 & [Hp1 Hall]%uploading_end). apply swp_bind, swp_list_objects; [done|]. intros found' Hnd' Hin'.
    assert (Hin'' : ∀ o, o ∈ found' ↔ o ∈ wanted_objects) by (intros o; rewrite Hin'; split; [by intros []|]; intros Ho; split; [done|by apply Hall]).
    destruct (found_size identity wanted_objects found' wanted_objects_once Hnd' Hin'') as [-> _]. rewrite Z.eqb_refl.
    rewrite verified_spec by (intros o; apply Hin''). done.
Qed.

(** How an attempt ends. *)
Definition attempt_ends (v : Vault) (r : result unit) : Prop :=
  partly_restored v ∧ (r = Ok tt → all_records v ∧ all_objects v) ∧ (vt_failed v = false → r = Ok tt).

Lemma restore_snapshot_spec v : partly_restored v → swp (restoreSnapshot VaultID vaultKey snapshot) v attempt_ends (λ v r, attempt_ends v (Ok r)).
Proof using ok laws.
  intros Hp. unfold restoreSnapshot. apply (swp_mono _ _ _ _ gives_up _ (λ v _, partly_restored v ∧ all_records v ∧ all_objects v)).
  - intros v' r (Hp' & Hr & Hf). split_and!; [done|by intros ->|congruence].
  - intros v' [] (Hp' & Hr & Ho). by split_and!.
  - apply swp_bind. eapply swp_mono; [done| |by apply restore_records_spec]. intros v1 _ [Hp1 Hr1].
    eapply swp_mono; [done| |by apply restore_objects_spec]. intros v2 [] (Hp2 & Hr2 & Ho2). by split_and!.
Qed.
End Restore.

(** ** Attempts *)

(** The vault and the rest of the program that restores it. *)
Definition Attempt : Type := Vault * program (result unit).

(** A program that has ended. *)
Definition ended (p : program (result unit)) (r : result unit) : Prop := p = Done r ∨ p = Exit r.

(** While no call fails, a program ends. *)
Lemma may_answer X (c : call X) v : ∃ x v', answers X c v x v' ∧ vt_failed v' = vt_failed v.
Proof.
  destruct c as [|id request| |id request|]; cbn.
  - by exists (Ok (vt_records v)), v.
  - destruct (bool_decide _ || _); [by exists (Err ""), v; split; [exists ""|]|]. eexists (Ok tt), _. split; [by exists ""|done].
  - by exists (Ok (vt_objects v)), v.
  - destruct (bool_decide _ || _); [by exists (Err ""), v|]. by eexists (Ok tt), _.
  - by exists (Ok "000000000000"), v.
Qed.

Lemma completes (p : program (result unit)) v : ∃ v' p' r, rtc (call_step answers) (v, p) (v', p') ∧ ended p' r ∧ vt_failed v' = vt_failed v.
Proof.
  revert v. induction p as [a|r|X c k IH]; intros v; [exists v, (Done a), a; split_and!; [done|by left|done]|exists v, (Exit r), r; split_and!; [done|by right|done]|].
  destruct (may_answer X c v) as (x & v1 & Ha & Hf). destruct (IH x v1) as (v' & p' & r & Hrun & He & Hf').
  exists v', p', r. split_and!; [|done|congruence]. eapply rtc_l; [by constructor|done].
Qed.

Section Attempts.
Context {crypto : Crypto} {cipher : Cipher} {records : RecordCodec} {objects : ObjectCodec} {laws : CipherLaws}.
Context (VaultID vaultKey : string) (snapshot : RecoverySnapshot).

(** A start or a resumption. *)
Definition attempt (v : Vault) : Attempt :=
  ({| vt_records := vt_records v; vt_objects := vt_objects v; vt_failed := false |},
   u ← restoreSnapshot VaultID vaultKey snapshot; mret (Ok u)).

(** The vaults that attempts leave, each stopped anywhere: the first attempt finds the vault
    that was just created. *)
Inductive reached : Vault → Prop :=
| Created : reached {| vt_records := []; vt_objects := []; vt_failed := false |}
| Attempted v v' p : reached v → rtc (call_step answers) (attempt v) (v', p) → reached v'.

(** The vault shows to its owner some of the records and the objects, or all. *)
Definition shows (wanted_by : list SecretRecord → list VaultObject → Prop) (v : Vault) : Prop :=
  ∀ l l', l ≡ₚ vt_records v → l' ≡ₚ vt_objects v → ∃ found found', DecryptRecords VaultID vaultKey l = Ok found ∧
    DecryptAll VaultID vaultKey l' = Ok found' ∧ wanted_by found found'.
Definition a_part (found : list SecretRecord) (found' : list VaultObject) : Prop :=
  found ⊆+ (first_record <$> rv_Records snapshot) ∧ found' ⊆+ (first_object <$> rv_Objects snapshot).
Definition everything (found : list SecretRecord) (found' : list VaultObject) : Prop :=
  found ≡ₚ (first_record <$> rv_Records snapshot) ∧ found' ≡ₚ (first_object <$> rv_Objects snapshot).

Context (ok : restorable vaultKey snapshot).

Lemma shows_part v : partly_restored VaultID vaultKey snapshot v → shows a_part v.
Proof using ok laws.
  intros Hp l l' Hl Hl'. destruct (read_records _ _ _ ok v l Hp Hl) as (found & Hd & Hnd & Hin).
  destruct (read_objects _ _ _ ok v l' Hp Hl') as (found' & Hd' & Hnd' & Hin'). exists found, found'. do 2 (split; [done|]). split.
  - apply NoDup_submseteq; [by apply NoDup_fmap_1 in Hnd|]. intros r Hr. by apply Hin.
  - apply NoDup_submseteq; [by apply NoDup_fmap_1 in Hnd'|]. intros o Ho. by apply Hin'.
Qed.

Lemma shows_everything v : partly_restored VaultID vaultKey snapshot v → all_records VaultID vaultKey snapshot v →
  all_objects VaultID vaultKey snapshot v → shows everything v.
Proof using ok laws.
  intros Hp Hr Ho l l' Hl Hl'. destruct (read_records _ _ _ ok v l Hp Hl) as (found & Hd & Hnd & Hin).
  destruct (read_objects _ _ _ ok v l' Hp Hl') as (found' & Hd' & Hnd' & Hin'). exists found, found'. do 2 (split; [done|]). split.
  - apply NoDup_Permutation; [by apply NoDup_fmap_1 in Hnd|by eapply NoDup_fmap_1, wanted_records_once|].
    intros r. rewrite Hin. split; [by intros []|]. intros Hr'. split; [done|by apply Hr].
  - apply NoDup_Permutation; [by apply NoDup_fmap_1 in Hnd'|by eapply NoDup_fmap_1, wanted_objects_once|].
    intros o. rewrite Hin'. split; [by intros []|]. intros Ho'. split; [done|by apply Ho].
Qed.

Lemma attempt_spec v : partly_restored VaultID vaultKey snapshot v →
  swp answers (partly_restored VaultID vaultKey snapshot) (attempt v).2 (attempt v).1
    (attempt_ends VaultID vaultKey snapshot) (attempt_ends VaultID vaultKey snapshot).
Proof using ok laws.
  intros Hp. apply swp_bind.
  apply (swp_mono _ _ _ _ (attempt_ends VaultID vaultKey snapshot) _ (λ v r, attempt_ends VaultID vaultKey snapshot v (Ok r))); [done|done|].
  by apply restore_snapshot_spec.
Qed.

Lemma running_ok v v' p : partly_restored VaultID vaultKey snapshot v → rtc (call_step answers) (attempt v) (v', p) →
  partly_restored VaultID vaultKey snapshot v' ∧ ∀ r, ended p r → attempt_ends VaultID vaultKey snapshot v' r.
Proof using ok laws.
  intros Hp Hrun. pose proof (swp_steps _ _ _ _ _ _ _ Hrun (attempt_spec v Hp)) as H. split; [|by intros r [-> | ->]].
  destruct p; cbn in H; [apply H..|by destruct H].
Qed.

Lemma reached_partly v : reached v → partly_restored VaultID vaultKey snapshot v.
Proof using ok laws. induction 1 as [|v v' p _ IH Hrun]; [split; apply kept_nil|]. exact (proj1 (running_ok v v' p IH Hrun)). Qed.
End Attempts.

(** C25: a restoration can be resumed until it is complete.  Let attempts be made one after
    the other on the vault that was just created, each stopped at any call, by an error,
    by a reply that was lost after the service had stored the item, or by the death of the
    process.  Then at every moment the vault decrypts, to items of the snapshot, each at
    most once, at revision 1; when an attempt reports success the vault decrypts to
    exactly the snapshot; an attempt fails only when one of its own calls fails; and from
    every moment there is a way on to its end, and a next attempt that completes the
    restoration. *)
Theorem restore_is_resumable {crypto : Crypto} {cipher : Cipher} {records : RecordCodec} {objects : ObjectCodec} {laws : CipherLaws}
    VaultID vaultKey snapshot v v' p : restorable vaultKey snapshot → reached VaultID vaultKey snapshot v →
  rtc (call_step answers) (attempt VaultID vaultKey snapshot v) (v', p) →
  shows VaultID vaultKey (a_part snapshot) v' ∧
  (∀ r, ended p r → (r = Ok tt → shows VaultID vaultKey (everything snapshot) v') ∧ (vt_failed v' = false → r = Ok tt)) ∧
  (∃ v1 p1 r, rtc (call_step answers) (v', p) (v1, p1) ∧ ended p1 r) ∧
  ∃ v1 p1, rtc (call_step answers) (attempt VaultID vaultKey snapshot v') (v1, p1) ∧ ended p1 (Ok tt) ∧
    shows VaultID vaultKey (everything snapshot) v1.
Proof.
  intros ok Hv Hrun. pose proof (reached_partly _ _ _ ok v Hv) as Hp. destruct (running_ok _ _ _ ok v v' p Hp Hrun) as [Hp' He].
  assert (Hends : ∀ v r, attempt_ends VaultID vaultKey snapshot v r → r = Ok tt → shows VaultID vaultKey (everything snapshot) v).
  { intros v2 r (Hp2 & Hr & _) E. destruct (Hr E). by apply shows_everything. }
  split_and!; [by apply shows_part| | |].
  - intros r Hr. pose proof (He r Hr) as Ha. split; [by apply Hends|apply Ha].
  - destruct (completes p v') as (v1 & p1 & r & Hrun' & Hr & _). by exists v1, p1, r.
  - destruct (completes (attempt VaultID vaultKey snapshot v').2 (attempt VaultID vaultKey snapshot v').1) as (v1 & p1 & r & Hrun' & Hr & Hf).
    destruct (running_ok _ _ _ ok v' v1 p1 Hp' Hrun') as [_ He']. pose proof (He' r Hr) as Ha. assert (r = Ok tt) as -> by (by apply Ha).
    exists v1, p1. split_and!; [done..|]. by eapply Hends.
Qed.

(** ** The property, applied *)

Module RestoreDemo.
Export Toy.
Definition record : SecretRecord := {| sr_Name := "TOKEN"; sr_Value := "s3cret"; sr_CreatedAt := "2026-08-09T20:00:00Z";
  sr_RotatedAt := "2026-08-09T20:00:00Z"; sr_RotateEveryDays := 0; sr_Revision := 4; sr_AllowedOrigins := [] |}.
Definition object : VaultObject :=
  {| vo_Kind := "provider-plan"; vo_Key := "p"; vo_Revision := 3; vo_ModifiedAt := "2026-08-09T20:00:00Z"; vo_Payload := "{}" |}.
Definition snapshot : RecoverySnapshot := {| rv_Records := [record]; rv_Objects := [object] |}.
Definition key : string := zeros 32.

(** One text for the record, one for the object. *)
#[local] Instance crypto : Crypto := {| sha256 := id; ed25519_verify := λ _ _ _, true; x25519_usable := λ _, true |}.
#[local] Instance records : RecordCodec := {|
  record_json _ := Ok "the record";
  record_of_json raw := if String.eqb raw "the record" then Some (first_record record) else None |}.
#[local] Instance objects : ObjectCodec := {|
  object_json _ := Ok "the object";
  object_of_json raw := if String.eqb raw "the object" then Some (first_object object) else None;
  json_Valid s := String.eqb s "{}" |}.

Lemma snapshot_restorable : restorable key snapshot.
Proof.
  split; try apply NoDup_singleton; [| | |done].
  - intros o ->%list_elem_of_singleton. by vm_compute.
  - intros r ->%list_elem_of_singleton. by exists "the record".
  - intros o ->%list_elem_of_singleton. by exists "the object".
Qed.

Definition fresh : Vault := {| vt_records := []; vt_objects := []; vt_failed := false |}.
Lemma restore_is_resumable_witness : ∃ v p, rtc (call_step answers) (attempt "v1" key snapshot (failing fresh)) (v, p) ∧ ended p (Ok tt) ∧
  shows "v1" key (everything snapshot) v.
Proof.
  destruct (restore_is_resumable "v1" key snapshot fresh (failing fresh) (Exit (Err "unreachable")) snapshot_restorable) as (_ & _ & _ & H);
    [apply Created| |exact H].
  eapply rtc_l; [apply (CallStep answers fresh _ Call.ListRecords _ (Err "unreachable") (failing fresh)); reflexivity|]. apply rtc_refl.
Defined.

(** A reply that is lost does not make the next attempt upload the record again. *)
Definition lost (v : Vault) (request : string * Blob) : Vault := failing (with_record v (stored_at request.1 "" request.2)).
Definition uploaded : Vault :=
  match EncryptRecord (Ok (zeros 12)) "v1" key (first_record record) with Ok request => lost fresh request | Err _ => fresh end.
Example record_is_present :
  match DecryptRecords "v1" key (vt_records uploaded) with
  | Ok found => present_records (expected_records (rv_Records snapshot)) found = Ok {["TOKEN"]}
  | Err _ => False
  end.
Proof. by vm_compute. Qed.

(** A vault with another value under the name is refused. *)
Example conflict_is_refused : present_records (expected_records [record]) [record] = Err "replacement vault contains a conflicting record for TOKEN".
Proof. by vm_compute. Qed.
End RestoreDemo.
