(* ===== verification/Http.v ===== *)
(** HTTP as the provider adapters use it, calls that may fail with the error of an
    adapter, and programs whose calls are programs themselves. *)
From S2P Require Import Prelude Text Provider.
From S2P Require Export Program.
From stdpp Require Import options.

Record HttpRequest := { hq_Method : string; hq_URL : string; hq_Headers : list (string * string); hq_Body : string }.
#[export] Instance HttpRequest_eq_dec : EqDecision HttpRequest.
Proof. solve_decision. Defined.

(** A reply, with its body unless it could not be read. *)
Record HttpReply := { hr_Status : Z; hr_Body : option string }.

(** [client.Do]: no reply is an error of the transport. *)
Inductive http : Type → Type := Exchange (request : HttpRequest) : http (option HttpReply).

(** What an adapter returns: an error is returned at once, by the function that gets it. *)
Abbreviation fallible C A := (flow C (A + AdapterError)%type (A + AdapterError)%type).

Definition and_then {C A B} (p : fallible C A) (f : A → fallible C B) : fallible C B :=
  r ← enter p; match (r : A + AdapterError) with inl a => f a | inr e => mret (inr e) end.
Notation "'let!' x := p 'in' k" := (and_then p (λ x, k)) (at level 10, x binder, p at level 100, k at level 200).

Definition succeed {C A} (a : A) : fallible C A := mret (inl a).
(** [provider.NewError] *)
Definition fail_with {C A} (operation : string) (status : Z) (code : string) (retry : RetryClass) : fallible C A :=
  mret (inr (Typed (NewError operation status code retry))).
(** [errors.New] *)
Definition fail_text {C A} (msg : string) : fallible C A := mret (inr (Untyped msg)).
(** [if c { return ..., err }] *)
Definition fail_if {C A} (c : bool) (p : fallible C A) (rest : fallible C A) : fallible C A := if c then p else rest.

Lemma wp_and_then {C A B} (G : history C → ∀ X, C X → Prop) (p : fallible C A) (f : A → fallible C B) past
    (Q : history C → B + AdapterError → Prop) (P : history C → A + AdapterError → Prop) :
  wp G p past P P → (∀ past' a, P past' (inl a) → wp G (f a) past' Q Q) → (∀ past' e, P past' (inr e) → Q past' (inr e)) →
  wp G (and_then p f) past Q Q.
Proof.
  intros Hp Hf He. unfold and_then. apply (wp_call _ _ _ _ _ _ P); [done|]. intros past' [a|e] H; [by apply Hf|by apply He].
Qed.

(** ** What a program sends *)

(** All the calls of a run are of one kind. *)
Lemma run_asks {C W} `{World C W} {R} (P : ∀ X, C X → Prop) (p : flow C R R) (w : W) past :
  wp (λ _, P) p past (λ _ _, True) (λ _ _, True) →
  ∃ new, (run p w past).1.1 = new ++ past ∧ Forall (λ e, match e with @Event _ X c _ => P X c end) new.
Proof.
  revert w past. induction p as [a|r|X c k IH]; intros w past; cbn; [by exists []|by exists []|]. intros [HP Hk].
  destruct (answer X c w) as [x w']. destruct (IH x w' (Event c x :: past) (Hk x)) as (new & -> & Hnew).
  exists (new ++ [Event c x]). rewrite <-(assoc_L app). split; [done|]. apply Forall_app. by split; [|constructor].
Qed.

(** A request with its reply. *)
Definition exchanged (e : event http) : HttpRequest * option HttpReply :=
  match e with @Event _ X c x => match c in http X return X → HttpRequest * option HttpReply with Exchange request => λ reply, (request, reply) end x end.

(** Programs over programs: the calls of one program are carried out by another. *)

Section interp.
Context {C D : Type → Type} (h : ∀ X, C X → flow D X X).

Fixpoint interp {R A} (p : flow C R A) : flow D R A :=
  match p with
  | Done a => Done a
  | Exit r => Exit r
  | Ask c k => x ← enter (h _ c); interp (k x)
  end.
End interp.

Section stateful.
Context {C : Type → Type} {S : Type} (answers : ∀ X, C X → S → X → S → Prop) (inv : S → Prop).

Lemma swp_call {R A B} (p : flow C A A) (f : A → flow C R B) s Ret Q P :
  swp answers inv p s P P → (∀ s' a, P s' a → swp answers inv (f a) s' Ret Q) → swp answers inv (a ← enter p; f a) s Ret Q.
Proof. intros Hp Hf. apply swp_bind, swp_enter. by eapply swp_mono; [..|exact Hp]. Qed.

(** A run in a world that answers as the relation says. *)
Lemma swp_run {W} `{!World C W} (view : W → S) {R} (p : flow C R R) past Q (w : W) :
  (∀ X (c : C X) w, answers X c (view w) (answer X c w).1 (view (answer X c w).2)) →
  swp answers inv p (view w) Q Q → let '(_, r, w') := run p w past in Q (view w') r.
Proof.
  intros Hans. revert past w. induction p as [a|r|X c k IH]; intros past w; simpl; [done..|].
  intros [HI Hk]. specialize (Hans X c w). destruct (answer X c w) as [x w'] eqn:E. apply IH, Hk. exact Hans.
Qed.
End stateful.

Lemma swp_true {C S} (answers : ∀ X, C X → S → X → S → Prop) {R A} (p : flow C R A) s :
  swp answers (λ _, True) p s (λ _ _, True) (λ _ _, True).
Proof. revert s. induction p as [a|r|X c k IH]; intros s; simpl; [done..|]. split; [done|]. intros x s' _. apply IH. Qed.

(** What is shown of a program with any collaborators that answer in one way holds over
    programs that answer so. *)
Lemma swp_interp {C D S} (h : ∀ X, C X → flow D X X) (answersC : ∀ X, C X → S → X → S → Prop) (answersD : ∀ X, D X → S → X → S → Prop)
    (invC invD : S → Prop) {R A} (p : flow C R A) s Ret Q :
  (∀ X (c : C X) s, invC s → swp answersD invD (h X c) s (λ s' x, answersC X c s x s') (λ s' x, answersC X c s x s')) →
  swp answersC invC p s Ret Q → swp answersD invD (interp h p) s Ret Q.
Proof.
  intros Hh. revert s. induction p as [a|r|X c k IH]; intros s; simpl; [done..|].
  intros [HI Hk]. apply (swp_call _ _ _ _ _ _ _ (λ s' x, answersC X c s x s')); [by apply Hh|]. intros s' x Ha. by apply IH, Hk.
Qed.

Lemma swp_and_then {C S A B} (answers : ∀ X, C X → S → X → S → Prop) (inv : S → Prop) (p : fallible C A) (f : A → fallible C B) s
    (P : S → A + AdapterError → Prop) (Q : S → B + AdapterError → Prop) :
  swp answers inv p s P P → (∀ s' a, P s' (inl a) → swp answers inv (f a) s' Q Q) → (∀ s' e, P s' (inr e) → Q s' (inr e)) →
  swp answers inv (and_then p f) s Q Q.
Proof. intros Hp Hf He. unfold and_then. apply (swp_call _ _ _ _ _ _ _ P); [done|]. intros s' [a|e] H; [by apply Hf|by apply He]. Qed.
