(* ===== verification/PlanVariables.v ===== *)
(** What the planners of the providers share: first, what a planner must deliver so that the engine makes a valid plan of it. *)
From S2P Require Import Prelude Timestamp Text Secure Provider RolloutPlan RolloutEngine Bundle Template Manifest ManifestProperties.
From stdpp Require Import options.

(** ** The loops of the validity test, completed *)

(** The keys of an item are fresh; then the test of the item succeeds, and adds its keys. *)
Lemma each_complete {A B} (check : Z → gset string → A → result (gset string)) (keys : A → list string) (f : A → B) (l : list A) :
  (∀ i s a, a ∈ l → (∀ k, k ∈ keys a → k ∉ s) → ∃ s', check i s a = Ok s' ∧ ∀ k, k ∈ s' → (k ∈ s) ∨ k ∈ keys a) →
  (∀ a b k, a ∈ l → b ∈ l → k ∈ keys a → k ∈ keys b → f a = f b) → NoDup (f <$> l) → each check 0 ∅ l = Ok tt.
Proof.
  intros Hcheck Hkeys Hnd. enough (Hgen : ∀ rest i s, (∀ a, a ∈ rest → a ∈ l) → NoDup (f <$> rest) →
    (∀ a k, a ∈ rest → k ∈ keys a → k ∉ s) → each check i s rest = Ok tt) by (apply Hgen; [done|done|set_solver]).
  induction rest as [|a rest IH]; intros i s Hin Hnd' Hfresh; [done|]. cbn [each].
  inversion Hnd' as [|? ? Hni Hnd'']; subst. destruct (Hcheck i s a) as (s' & -> & Hs'); [apply Hin; by left|intros k; apply Hfresh; by left|].
  cbn. apply IH; [intros b Hb; apply Hin; by right|done|]. intros b k Hb Hk Hks. destruct (Hs' k Hks) as [Hold|Ha].
  - by eapply Hfresh; [right| |].
  - apply Hni, list_elem_of_fmap. exists b. split; [|done]. eapply Hkeys; [apply Hin; by left|apply Hin; by right|done|done].
Qed.

(** Keys that tell apart what distinct keys tell apart. *)
Lemma NoDup_fmap_finer {A B D} (f : A → B) (g : A → D) (l : list A) :
  (∀ x y, x ∈ l → y ∈ l → g x = g y → f x = f y) → NoDup (f <$> l) → NoDup (g <$> l).
Proof.
  intros Hfg Hnd. apply NoDup_fmap_2_strong; [|by apply NoDup_fmap_1 in Hnd].
  intros x y Hx Hy E. apply (NoDup_fmap_inj_on f l); [done..|by apply Hfg].
Qed.

Lemma target_key_inj s n s' n' : contains_byte "000" s = false → contains_byte "000" s' = false →
  target_key s n = target_key s' n' → s = s' ∧ n = n'.
Proof. apply separated_at_inj. Qed.

(** ** Inputs *)

Record name_sound (target : TargetBinding) (item : PlannedName) : Prop := {
  ns_full : pn_Service item ≠ "" ∧ pn_ServiceID item ≠ "" ∧ pn_Name item ≠ "";
  ns_plain : contains_byte "000" (pn_Service item) = false;
  ns_bound : bound_service target (pn_Service item) = pn_ServiceID item;
  ns_desired : pn_Desired item = "present" ∨ pn_Desired item = "absent" ∧ pn_Record item = "";
  ns_revision : pn_Record item = "" ∧ pn_ExpectedRecordRevision item = 0 ∨ pn_Record item ≠ "" ∧ 1 ≤ pn_ExpectedRecordRevision item;
}.

Definition upserts (action : Action) : Prop := ac_Operation action = "upsert" ∧
  (ac_ValueSource action = "" ∧ ac_Record action ≠ "" ∧ 1 ≤ ac_ExpectedRecordRevision action ∧ ac_PublicValue action = "" ∨
   ac_ValueSource action = "public-constant" ∧ ac_Record action = "" ∧ ac_ExpectedRecordRevision action = 0).
Definition revokes (action : Action) : Prop := ac_Operation action = "revoke" ∧
  ac_ValueSource action = "" ∧ ac_Record action = "" ∧ ac_ExpectedRecordRevision action = 0 ∧ ac_PublicValue action = "".

(** The name that an action is for. *)
Definition is_for (kind : PlanKind) (action : Action) (item : PlannedName) : Prop :=
  pn_Service item = ac_Service action ∧ pn_Name item = ac_Name action ∧ pn_ServiceID item = ac_ServiceID action ∧
  (pn_Desired item = "present" ∧ upserts action ∧ ac_Record action = pn_Record item ∧
     ac_ExpectedRecordRevision action = pn_ExpectedRecordRevision item ∨
   pn_Desired item = "absent" ∧ kind = PlanKindBindingNames ∧ revokes action).

Record input_sound (input : PlanInput) : Prop := {
  is_identity : in_Bundle input ≠ "" ∧ digestPattern (in_ManifestDigest input) = true ∧ 1 ≤ in_SnapshotRevision input;
  is_target : tb_ProjectID (in_Target input) ≠ "" ∧ tb_EnvironmentID (in_Target input) ≠ "";
  is_kind : in_Kind input = PlanKindNamesOnly ∨ in_Kind input = PlanKindBindingNames;
  is_names : ∀ item, item ∈ in_Names input → name_sound (in_Target input) item;
  is_names_once : NoDup ((λ item, (pn_Service item, pn_Name item)) <$> in_Names input);
  is_actions : ∀ action, action ∈ in_Actions input → ac_ID action ≠ "" ∧
    ∃ item, item ∈ in_Names input ∧ is_for (in_Kind input) action item;
  is_actions_once : NoDup ((λ action, (ac_Service action, ac_Name action)) <$> in_Actions input);
  is_ids : ∀ a b, a ∈ in_Actions input → b ∈ in_Actions input → ac_ID a = ac_ID b → ac_Service a = ac_Service b ∧ ac_Name a = ac_Name b;
}.

(** The plan that the engine makes. *)
Definition plan_of `{!Crypto, !PlanCodec} (input : PlanInput) (who : Identity) (metadata : MetadataState) (now : Z) : ProviderPlan :=
  let names := if bool_decide (in_Kind input = PlanKindBindingNames) then observed_name metadata <$> in_Names input else in_Names input in
  let raw := new_plan input names who metadata now in with_digest (ComputeDigest raw) raw.

Section Valid.
Context {crypto : Crypto} {codec : PlanCodec}.
Context (input : PlanInput) (ok : input_sound input).
Abbreviation target := (in_Target input).

Lemma bound_clone service : bound_service (cloneBinding target) service = bound_service target service.
Proof. clear ok. unfold bound_service, cloneBinding, cloneStrings. by destruct (tb_ServiceIDs target). Qed.

(** The names of the plan are those of the input, in a state. *)
Record names_of (names : list PlannedName) : Prop := {
  no_pairs : (λ item, (pn_Service item, pn_Name item)) <$> names = (λ item, (pn_Service item, pn_Name item)) <$> in_Names input;
  no_items : ∀ item, item ∈ names → name_sound target item ∧ pn_State item ∈ ["unverifiable"; "present"; "absent"];
  no_actions : ∀ action, action ∈ in_Actions input → ∃ item, item ∈ names ∧ is_for (in_Kind input) action item;
}.

Lemma names_valid names : names_of names → validateNames names (cloneBinding target) = Ok tt.
Proof using ok.
  intros Hn. apply (each_complete _ (λ item, [target_key (pn_Service item) (pn_Name item)]) (λ item, (pn_Service item, pn_Name item))).
  - intros i s item Hin Hfresh. destruct (no_items _ Hn item Hin) as [Hs Hstate]. destruct Hs as [(H1 & H2 & H3) Hplain Hbound Hdes Hrev].
    assert (Hni : target_key (pn_Service item) (pn_Name item) ∉ s) by (apply Hfresh; by left).
    exists ({[target_key (pn_Service item) (pn_Name item)]} ∪ s). split; [|intros k; set_solver]. unfold validateName.
    rewrite bound_clone, Hbound, String.eqb_refl. apply nonempty_true in H1 as ->, H2 as ->, H3 as ->.
    rewrite (bool_decide_true (pn_Desired item ∈ _)) by (destruct Hdes as [->|[-> _]]; [by left|by right; left]).
    rewrite (bool_decide_true (pn_State item ∈ _)) by done.
    cbn [orb negb reject_if mbind result_bind]. rewrite bool_decide_false by done. cbn [reject_if mbind result_bind].
    destruct Hrev as [[-> ->]|[Hr Hrev]].
    + cbn. by rewrite andb_false_r.
    + destruct Hdes as [->|[_ E]]; [|by destruct Hr]. apply nonempty_true in Hr as ->. cbn.
      by replace (pn_ExpectedRecordRevision item <? 1) with false by lia.
  - intros a b k Ha Hb ->%list_elem_of_singleton E%list_elem_of_singleton.
    destruct (no_items _ Hn a Ha) as [[_ Hpa _ _ _] _], (no_items _ Hn b Hb) as [[_ Hpb _ _ _] _].
    apply target_key_inj in E as [-> ->]; done.
  - rewrite (no_pairs _ Hn). apply ok.
Qed.

(** An action of the input, with the name that it is for. *)
Lemma action_valid i action names : names_of names → action ∈ in_Actions input → validateAction i action (cloneBinding target) = Ok tt.
Proof using ok.
  intros Hn Hin. destruct (is_actions _ ok action Hin) as [Hid _]. destruct (no_actions _ Hn action Hin) as (item & Hi & Es & En & Ei & Hfor).
  destruct (no_items _ Hn item Hi) as [[(H1 & H2 & H3) _ Hbound _ _] _]. unfold validateAction. rewrite bound_clone, <-Es, Hbound, Ei, String.eqb_refl.
  rewrite Ei in H2. rewrite En in H3. apply nonempty_true in Hid as ->, H1 as ->, H2 as ->, H3 as ->.
  destruct Hfor as [(_ & [-> Hval] & _)|(_ & _ & (-> & -> & -> & -> & ->))]; [|done].
  destruct Hval as [(-> & Hr & Hrev & ->)|(-> & -> & ->)]; [|done]. apply nonempty_true in Hr as ->. cbn. replace (0 <? _) with true by lia. done.
Qed.

Lemma action_full action names : names_of names → action ∈ in_Actions input →
  ac_ID action ≠ "" ∧ ac_Operation action ≠ "" ∧ ac_Service action ≠ "" ∧ ac_ServiceID action ≠ "" ∧ ac_Name action ≠ "" ∧
  contains_byte "000" (ac_Service action) = false.
Proof using ok.
  intros Hn Hin. destruct (is_actions _ ok action Hin) as [Hid _]. destruct (no_actions _ Hn action Hin) as (item & Hi & Es & En & Ei & Hfor).
  destruct (no_items _ Hn item Hi) as [[(H1 & H2 & H3) Hp _ _ _] _]. rewrite Es, En, Ei in *. split_and!; try done.
  destruct Hfor as [(_ & [-> _] & _)|(_ & _ & (-> & _))]; done.
Qed.

Lemma actions_valid names : names_of names → each (validate_plan_action (cloneBinding target)) 0 ∅ (in_Actions input) = Ok tt.
Proof using ok.
  intros Hn. apply (each_complete _ (λ a, ["id" +:+ ac_ID a; "target" +:+ target_key (ac_Service a) (ac_Name a)]) (λ a, (ac_Service a, ac_Name a))).
  - intros i s a Hin Hfresh. destruct (action_full a names Hn Hin) as (H1 & H2 & H3 & H4 & H5 & _). unfold validate_plan_action.
    apply nonempty_true in H1 as ->, H2 as ->, H3 as ->, H4 as ->, H5 as ->. cbn [orb negb reject_if mbind result_bind].
    rewrite !bool_decide_false by (apply Hfresh; set_solver). cbn [reject_if mbind result_bind].
    rewrite (action_valid i a names Hn Hin). eexists. split; [reflexivity|]. intros k. set_solver.
  - intros a b k Ha Hb Hka Hkb. destruct (action_full a names Hn Ha) as (_ & _ & _ & _ & _ & Hpa), (action_full b names Hn Hb) as (_ & _ & _ & _ & _ & Hpb).
    apply elem_of_cons in Hka as [-> | ->%list_elem_of_singleton]; apply elem_of_cons in Hkb as [E|E%list_elem_of_singleton].
    + apply string_app_inj in E as [_ E]; [|done]. destruct (is_ids _ ok a b Ha Hb E) as [-> ->]. done.
    + done.
    + done.
    + apply string_app_inj in E as [_ E]; [|done]. apply target_key_inj in E as [-> ->]; done.
  - apply ok.
Qed.

Lemma named_actions_valid names : names_of names → validateNamedActions (in_Kind input) names (in_Actions input) = Ok tt.
Proof using ok.
  intros Hn. apply (each_complete _ (λ _, []) (λ a, (ac_Service a, ac_Name a))); [|by intros ? ? ? _ _ ?%elem_of_nil|apply ok].
  intros i s a Hin _. exists s. split; [|by left]. destruct (no_actions _ Hn a Hin) as (item & Hi & Es & En & _ & Hfor).
  unfold validateNamedAction. assert (Hname : name_for names (ac_Service a) (ac_Name a) = Some item).
  { unfold name_for. apply elem_of_list_to_map_1.
    - rewrite fmap_reverse, reverse_Permutation, <-list_fmap_compose.
      apply (NoDup_fmap_finer (λ item, (pn_Service item, pn_Name item))); [|rewrite (no_pairs _ Hn); apply ok].
      intros x y Hx Hy E. destruct (no_items _ Hn x Hx) as [[_ Hpx _ _ _] _], (no_items _ Hn y Hy) as [[_ Hpy _ _ _] _].
      apply target_key_inj in E as [-> ->]; done.
    - rewrite elem_of_reverse, list_elem_of_fmap. exists item. by rewrite Es, En. }
  rewrite Hname. destruct Hfor as [(-> & [-> _] & -> & ->)|(-> & Ek & (-> & _))].
  - by rewrite !String.eqb_refl, Z.eqb_refl.
  - rewrite (bool_decide_true _ Ek). by rewrite orb_true_r.
Qed.

(** The names that the engine plans. *)
Definition engine_names (metadata : MetadataState) : list PlannedName :=
  if bool_decide (in_Kind input = PlanKindBindingNames) then observed_name metadata <$> in_Names input else in_Names input.

Lemma engine_names_of metadata :
  (in_Kind input = PlanKindNamesOnly → ∀ item, item ∈ in_Names input → pn_State item ∈ ["unverifiable"; "present"; "absent"]) →
  names_of (engine_names metadata).
Proof using ok.
  intros Hstate. unfold engine_names. case_bool_decide as Hkind.
  - assert (Hsame : ∀ item, name_sound target item → name_sound target (observed_name metadata item)) by (by intros item []).
    split.
    + by rewrite <-list_fmap_compose.
    + intros ? (item & -> & Hin)%list_elem_of_fmap. split; [by apply Hsame, ok|]. cbn. destruct (match variable_of _ _ _ with Some _ => _ | None => _ end); set_solver.
    + intros a Ha. destruct (is_actions _ ok a Ha) as (_ & item & Hi & Hfor). exists (observed_name metadata item).
      split; [by apply list_elem_of_fmap_2|done].
  - split; [done| |].
    + intros item Hin. split; [by apply ok|]. apply Hstate; [|done]. by destruct (is_kind _ ok).
    + intros a Ha. by destruct (is_actions _ ok a Ha) as (_ & item & Hi & Hfor); exists item.
Qed.

(** No more actions than names. *)
Lemma actions_fewer : len (in_Actions input) ≤ len (in_Names input).
Proof using ok.
  unfold len. apply inj_le. rewrite <-(length_fmap (λ a, (ac_Service a, ac_Name a))), <-(length_fmap (λ i, (pn_Service i, pn_Name i)) (in_Names input)).
  apply submseteq_length, NoDup_submseteq; [apply ok|]. intros p (a & -> & Ha)%list_elem_of_fmap.
  destruct (is_actions _ ok a Ha) as (_ & item & Hi & Es & En & _). apply list_elem_of_fmap. exists item. by rewrite Es, En.
Qed.

(** A sound input of no more names than a plan may have makes a valid plan, at the moment
    when it is made. *)
Lemma input_plan_valid who metadata t :
  (in_Kind input = PlanKindNamesOnly → ∀ item, item ∈ in_Names input → pn_State item ∈ ["unverifiable"; "present"; "absent"]) →
  1 ≤ len (in_Names input) ≤ MaxActions →
  id_Provider who ≠ "" → id_ID who ≠ "" → (ms_Revision metadata = "" ∨ evidencePattern (ms_Revision metadata) = true) →
  four_digit_year (unix t) → four_digit_year (unix (t + PlanTTL)) →
  Plan_Validate (plan_of input who metadata (truncate_second t)) (truncate_second t) = Ok tt.
Proof using ok.
  intros Hstate Hlen Hw1 Hw2 Hrev Hy1 Hy2. pose proof actions_fewer as Hacts. pose proof (engine_names_of metadata Hstate) as Hn. set (now := truncate_second t).
  assert (Hnow : unix now = unix t) by (unfold now, truncate_second, unix; by rewrite Z.div_mul by done).
  assert (Hlater : unix (now + PlanTTL) = unix (t + PlanTTL)).
  { unfold now, truncate_second, unix, PlanTTL, minute, second. Z.to_euclidean_division_equations; lia. }
  assert (Hc : canonicalTime (format_rfc3339 now) = Some now).
  { rewrite canonicalTime_format by by rewrite Hnow. unfold truncate_second at 1. by rewrite Hnow. }
  assert (He : canonicalTime (format_rfc3339 (now + PlanTTL)) = Some (now + PlanTTL)).
  { rewrite canonicalTime_format by by rewrite Hlater. f_equal. unfold now, truncate_second, unix, PlanTTL, minute, second.
    Z.to_euclidean_division_equations; lia. }
  unfold plan_of. cbv zeta. fold (engine_names metadata). set (raw := new_plan input (engine_names metadata) who metadata now).
  unfold Plan_Validate. cbn [with_digest pp_Version pp_Bundle pp_ManifestDigest pp_SnapshotRevision pp_Provider pp_ProviderIdentity
    pp_ProviderRevision pp_CreatedAt pp_ExpiresAt pp_Target pp_Kind pp_Names pp_Actions pp_Digest].
  change (pp_CreatedAt raw) with (format_rfc3339 now). change (pp_ExpiresAt raw) with (format_rfc3339 (now + PlanTTL)). rewrite Hc, He.
  rewrite Z.eqb_refl. replace (now <? now + PlanTTL) with true by (unfold PlanTTL, minute, second; lia).
  replace (now <? now) with false by lia. destruct (is_identity _ ok) as (H1 & H2 & H3), (is_target _ ok) as [H4 H5].
  unfold raw; cbn [new_plan pp_Version pp_Bundle pp_ManifestDigest pp_SnapshotRevision pp_Provider pp_ProviderIdentity pp_ProviderRevision
    pp_Target pp_Kind pp_Names pp_Actions cloneBinding tb_ProjectID tb_EnvironmentID tb_ServiceIDs]. fold raw.
  apply nonempty_true in H1 as ->, H4 as ->, H5 as ->, Hw1 as ->, Hw2 as ->. rewrite H2. replace (in_SnapshotRevision input <? 1) with false by lia.
  cbn [orb negb Z.eqb reject_if mbind result_bind].
  replace (nonempty (ms_Revision metadata) && negb (evidencePattern (ms_Revision metadata))) with false
    by (destruct Hrev as [->| ->]; [done|by rewrite andb_false_r]).
  assert (Hk : named_kind (in_Kind input) = true) by (destruct (is_kind _ ok) as [->| ->]; reflexivity). rewrite Hk.
  rewrite andb_false_r. cbn [orb negb reject_if mbind result_bind].
  assert (Hel : len (engine_names metadata) = len (in_Names input)) by (unfold len, engine_names; case_bool_decide; by rewrite ?length_fmap).
  rewrite Hel. rewrite (bool_decide_false (engine_names metadata = [])) by (intros E; rewrite E in Hel; unfold len in Hel, Hlen; cbn [List.length] in Hel; lia).
  replace (MaxActions <? len (in_Names input)) with false by lia. replace (MaxActions <? len (in_Actions input)) with false by lia.
  cbn [orb reject_if mbind result_bind]. fold (cloneBinding target). rewrite (names_valid _ Hn). cbn [mbind result_bind].
  rewrite (actions_valid _ Hn). cbn [mbind result_bind]. rewrite (named_actions_valid _ Hn). cbn [mbind result_bind].
  by rewrite String.eqb_refl.
Qed.
End Valid.

(** What the planners of the providers share: the variables of a service become planned
    names and actions (planner.go of the Railway and of the Cloudflare adapter). *)

Definition no_service : Service := {| sv_ID := ""; sv_Order := 0; sv_Variables := ∅; sv_Absent := [] |}.

(** The name that is planned for a variable of a service, and its action if it has one. *)
Definition planned_name (service serviceID : string) (state : string) (name desired record : string) (revision : Z) : PlannedName :=
  {| pn_Service := service; pn_ServiceID := serviceID; pn_Name := name; pn_Desired := desired; pn_State := state;
     pn_Record := record; pn_ExpectedRecordRevision := revision |}.
Definition variable_action (service serviceID name record : string) (revision : Z) (variable : Variable_) : list Action :=
  let constant := String.eqb (va_Source variable) "constant" in
  if String.eqb (va_Source variable) "record" || constant then
    [{| ac_ID := service +:+ "/" +:+ name; ac_Operation := "upsert"; ac_Service := service; ac_ServiceID := serviceID; ac_Name := name;
        ac_Record := record; ac_ValueSource := if constant then "public-constant" else "";
        ac_PublicValue := if constant then va_Value variable else ""; ac_ExpectedRecordRevision := revision |}]
  else [].

(** One variable: what is appended to the names and the actions. *)
Definition plan_variable (provider state : string) (snapshot : Snapshot) (service serviceID : string) (variables : gmap string Variable_)
    (name : string) (plan : list PlannedName * list Action) : result (list PlannedName * list Action) :=
  match variables !! name with
  | None => Ok plan
  | Some variable =>
      let by_record := String.eqb (va_Source variable) "record" in
      let record := if by_record then va_Record variable else "" in
      let revision := if by_record then default 0 (default ∅ (sn_RecordRevisions snapshot) !! record) else 0 in
      _ ← reject_if (by_record && (revision <? 1)) (provider +:+ " plan record " +:+ va_Record variable +:+ " is missing from the snapshot");
      Ok (plan.1 ++ [planned_name service serviceID state name "present" record revision],
          plan.2 ++ variable_action service serviceID name record revision variable)
  end.

(** ** Loops that append *)

Abbreviation plan_lists := (list PlannedName * list Action)%type.

Lemma each_with_append {A} (f : A → plan_lists → result plan_lists) (ok : A → Prop) (g : A → list PlannedName) (h : A → list Action) (l : list A) :
  (∀ x plan r, x ∈ l → f x plan = Ok r ↔ ok x ∧ r = (plan.1 ++ g x, plan.2 ++ h x)) →
  ∀ plan r, each_with f l plan = Ok r ↔ (∀ x, x ∈ l → ok x) ∧ r = (plan.1 ++ (l ≫= g), plan.2 ++ (l ≫= h)).
Proof.
  induction l as [|x l IH]; intros Hf plan r; cbn [each_with].
  - cbn. rewrite !app_nil_r. destruct plan. split; [intros [= <-]; split; [by intros ? ?%elem_of_nil|done]|by intros [_ ->]].
  - rewrite bind_Ok. specialize (IH (λ y plan r Hy, Hf y plan r (list_elem_of_further y x l Hy))). split.
    + intros (p & [Hx ->]%Hf & [Hl ->]%IH); [|by left]. cbn. rewrite <-!(assoc_L app). split; [|done].
      intros y [->|Hy]%elem_of_cons; [done|by apply Hl].
    + intros [Hl ->]. exists (plan.1 ++ g x, plan.2 ++ h x). split; [apply Hf; [by left|]; split; [apply Hl; by left|done]|].
      apply IH. split; [intros y Hy; apply Hl; by right|]. cbn. by rewrite <-!(assoc_L app).
Qed.

Lemma NoDup_sortedMapKeys {A} (m : gmap string A) : NoDup (sortedMapKeys m).
Proof. unfold sortedMapKeys. rewrite sort_strings_perm. apply NoDup_fst_map_to_list. Qed.

Lemma Snapshot_identity snapshot : Snapshot_Validate snapshot = Ok tt → sn_Bundle snapshot ≠ "" ∧ digestPattern (sn_ManifestDigest snapshot) = true.
Proof. unfold Snapshot_Validate. rewrite !reject_if_bind. intros (_ & H & _). by passed H. Qed.

(** ** One service *)

Section Service.
Context (provider state : string) (snapshot : Snapshot) (service serviceID : string) (variables : gmap string Variable_).

Definition variable_record (v : Variable_) : string := if String.eqb (va_Source v) "record" then va_Record v else "".
Definition variable_revision (v : Variable_) : Z :=
  if String.eqb (va_Source v) "record" then default 0 (default ∅ (sn_RecordRevisions snapshot) !! variable_record v) else 0.
Definition record_known (v : Variable_) : Prop := va_Source v = "record" → 1 ≤ variable_revision v.

Definition present_name (name : string) (v : Variable_) : PlannedName :=
  planned_name service serviceID state name "present" (variable_record v) (variable_revision v).
Definition variable_names (name : string) : list PlannedName := from_option (λ v, [present_name name v]) [] (variables !! name).
Definition variable_actions (name : string) : list Action :=
  from_option (λ v, variable_action service serviceID name (variable_record v) (variable_revision v) v) [] (variables !! name).

Lemma plan_variable_spec name plan r : plan_variable provider state snapshot service serviceID variables name plan = Ok r ↔
  (∀ v, variables !! name = Some v → record_known v) ∧ r = (plan.1 ++ variable_names name, plan.2 ++ variable_actions name).
Proof.
  unfold plan_variable, variable_names, variable_actions. destruct (variables !! name) as [v|]; cbn [from_option].
  2: { rewrite !app_nil_r. destruct plan. split; [intros [= <-]; split; done|by intros [_ ->]]. }
  assert (Hall : (∀ v', Some v = Some v' → record_known v') ↔ record_known v) by (split; [intros H; by apply H|by intros ? ? [= <-]]).
  rewrite Hall, reject_if_bind. unfold record_known, present_name, variable_revision, variable_record.
  destruct (String.eqb_spec (va_Source v) "record") as [E|E]; cbn [andb].
  - rewrite Z.ltb_ge. split; [by intros [Hr [= <-]]|intros [Hr ->]; split; [by apply Hr|done]].
  - split; [by intros [_ [= <-]]|by intros [_ ->]].
Qed.

Lemma plan_variables_spec plan r :
  each_with (plan_variable provider state snapshot service serviceID variables) (sortedMapKeys variables) plan = Ok r ↔
  (∀ name v, variables !! name = Some v → record_known v) ∧
  r = (plan.1 ++ (sortedMapKeys variables ≫= variable_names), plan.2 ++ (sortedMapKeys variables ≫= variable_actions)).
Proof.
  rewrite (each_with_append _ (λ name, ∀ v, variables !! name = Some v → record_known v) variable_names variable_actions)
    by (intros; apply plan_variable_spec).
  split; intros [H ->]; (split; [|done]); intros name v; [|by apply H].
  intros E. apply (H name); [by rewrite elem_of_sortedMapKeys, E|done].
Qed.

Lemma elem_of_variable_names item : (item ∈ sortedMapKeys variables ≫= variable_names) ↔
  ∃ name v, variables !! name = Some v ∧ item = present_name name v.
Proof.
  rewrite list_elem_of_bind. split.
  - intros (name & Hi & _). unfold variable_names in Hi. destruct (variables !! name) as [v|] eqn:E; [|by apply elem_of_nil in Hi].
    apply list_elem_of_singleton in Hi. by exists name, v.
  - intros (name & v & E & ->). exists name. unfold variable_names. rewrite E. split; [by left|]. by rewrite elem_of_sortedMapKeys, E.
Qed.

Lemma elem_of_variable_actions action : (action ∈ sortedMapKeys variables ≫= variable_actions) ↔
  ∃ name v, variables !! name = Some v ∧ action ∈ variable_action service serviceID name (variable_record v) (variable_revision v) v.
Proof.
  rewrite list_elem_of_bind. split.
  - intros (name & Hi & _). unfold variable_actions in Hi. destruct (variables !! name) as [v|] eqn:E; [|by apply elem_of_nil in Hi].
    by exists name, v.
  - intros (name & v & E & Hi). exists name. unfold variable_actions. rewrite E. split; [done|]. by rewrite elem_of_sortedMapKeys, E.
Qed.

(** What an action is, with the name it is for. *)
Lemma variable_action_spec name record revision v action : action ∈ variable_action service serviceID name record revision v →
  ac_Service action = service ∧ ac_ServiceID action = serviceID ∧ ac_Name action = name ∧ ac_ID action = service +:+ "/" +:+ name ∧
  ac_Operation action = "upsert" ∧ ac_Record action = record ∧ ac_ExpectedRecordRevision action = revision ∧
  (va_Source v = "record" ∧ ac_ValueSource action = "" ∧ ac_PublicValue action = "" ∨
   va_Source v = "constant" ∧ ac_ValueSource action = "public-constant" ∧ ac_PublicValue action = va_Value v).
Proof.
  unfold variable_action. destruct (String.eqb_spec (va_Source v) "constant") as [E|E], (String.eqb_spec (va_Source v) "record") as [E'|E'];
    cbn [orb]; [congruence|..]; intros Hi; [| |by apply elem_of_nil in Hi]; apply list_elem_of_singleton in Hi as ->; cbn; split_and!; try done; [by right|by left].
Qed.

Lemma NoDup_variable_names : NoDup (pn_Name <$> (sortedMapKeys variables ≫= variable_names)).
Proof.
  assert (Hnd : NoDup (sortedMapKeys variables ≫= variable_names)).
  { apply NoDup_bind.
    - intros n1 n2 item _ _. unfold variable_names. destruct (variables !! n1), (variables !! n2); cbn; rewrite ?list_elem_of_singleton, ?elem_of_nil; try done.
      intros -> E. by injection E as ->.
    - intros n _. unfold variable_names. destruct (variables !! n); cbn; [apply NoDup_singleton|constructor].
    - apply NoDup_sortedMapKeys. }
  apply NoDup_fmap_2_strong; [|done]. intros x y (n1 & v1 & E1 & ->)%elem_of_variable_names (n2 & v2 & E2 & ->)%elem_of_variable_names.
  cbn. intros ->. congruence.
Qed.

Lemma NoDup_variable_actions : NoDup (ac_Name <$> (sortedMapKeys variables ≫= variable_actions)).
Proof.
  assert (Hnd : NoDup (sortedMapKeys variables ≫= variable_actions)).
  { apply NoDup_bind.
    - intros n1 n2 a _ _. unfold variable_actions. destruct (variables !! n1), (variables !! n2); cbn; rewrite ?elem_of_nil; try done.
      intros H1%variable_action_spec H2%variable_action_spec. destruct H1 as (_ & _ & <- & _), H2 as (_ & _ & <- & _). done.
    - intros n _. unfold variable_actions. destruct (variables !! n); cbn; [|constructor]. unfold variable_action.
      destruct (_ || _); [apply NoDup_singleton|constructor].
    - apply NoDup_sortedMapKeys. }
  apply NoDup_fmap_2_strong; [|done]. intros x y (n1 & v1 & E1 & Hx)%elem_of_variable_actions (n2 & v2 & E2 & Hy)%elem_of_variable_actions E.
  pose proof (variable_action_spec _ _ _ _ _ Hx) as (_ & _ & Hn1 & _). pose proof (variable_action_spec _ _ _ _ _ Hy) as (_ & _ & Hn2 & _).
  assert (n1 = n2) as -> by congruence. assert (v1 = v2) as -> by congruence. unfold variable_action in Hx, Hy.
  destruct (_ || _); [|by apply elem_of_nil in Hx]. apply list_elem_of_singleton in Hx, Hy. by subst.
Qed.
End Service.

(** ** The manifest, the snapshot and the actions *)

(** The snapshot is that of the manifest. *)
Definition prepared_for (d : Document) (snapshot : Snapshot) (revision : Z) : Prop :=
  1 ≤ revision ∧ Snapshot_Validate snapshot = Ok tt ∧ sn_Bundle snapshot = mf_Bundle (doc_Manifest d) ∧ sn_ManifestDigest snapshot = doc_Digest d.

(** The value that an action writes: the record at the revision of the snapshot, or the
    public constant. *)
Definition action_writes (snapshot : Snapshot) (v : Variable_) (a : Action) : Prop := ac_Operation a = "upsert" ∧
  (va_Source v = "record" ∧ ac_Record a = va_Record v ∧ ac_PublicValue a = "" ∧
     default ∅ (sn_RecordRevisions snapshot) !! va_Record v = Some (ac_ExpectedRecordRevision a) ∨
   va_Source v = "constant" ∧ ac_Record a = "" ∧ ac_PublicValue a = va_Value v).

Lemma variable_action_writes snapshot service serviceID name v a : record_known snapshot v →
  a ∈ variable_action service serviceID name (variable_record v) (variable_revision snapshot v) v → action_writes snapshot v a.
Proof.
  intros Hk Ha. destruct (variable_action_spec _ _ _ _ _ _ _ Ha) as (E1 & E2 & E3 & _ & E5 & E6 & E7 & Hval). unfold record_known in Hk.
  unfold action_writes, variable_revision, variable_record in *. rewrite E6, E7. split; [done|].
  destruct Hval as [(Ev & _ & Hp)|(Ev & _ & Hp)]; [left|right]; rewrite Ev in *; cbn [String.eqb Ascii.eqb Bool.eqb] in *; split_and!; try done.
  specialize (Hk eq_refl). destruct (default ∅ (sn_RecordRevisions snapshot) !! va_Record v) eqn:E; cbn in *; [done|lia].
Qed.

(** A record that a variable of a valid manifest names is not nameless. *)
Lemma record_name `{!URLs, !Unicode} m derived name v : validate m = Ok derived → variable_ok m name v → va_Source v = "record" → va_Record v ≠ "".
Proof.
  intros Hvalid Hv Hs. assert (Hr : is_Some (mf_Records m !! va_Record v)) by (destruct Hv as [(E & _)|[(E & _)|(_ & _ & Hin)]]; [congruence..|done]).
  apply valid_manifest_spec in Hvalid as (Hrec & _). destruct (Hrec _ Hr) as (Hn & _). by intros E; rewrite E in Hn.
Qed.

Lemma variable_fields `{!URLs, !Unicode} m derived snapshot name v : validate m = Ok derived → variable_ok m name v → record_known snapshot v →
  variable_record v = "" ∧ variable_revision snapshot v = 0 ∧ va_Source v ≠ "record" ∨
  va_Source v = "record" ∧ variable_record v ≠ "" ∧ 1 ≤ variable_revision snapshot v.
Proof.
  intros Hvalid Hv Hk. unfold record_known in Hk. destruct (String.eqb_spec (va_Source v) "record") as [E|E].
  - right. split_and!; [done| |by apply Hk]. unfold variable_record. rewrite E. cbn. by eapply record_name.
  - left. unfold variable_revision, variable_record. apply String.eqb_neq in E. rewrite E. split_and!; [done..|by apply String.eqb_neq].
Qed.
