(* ===== verification/Cloudflare.v ===== *)
(** The Cloudflare adapter: the version API over HTTP (internal/provider/cloudflare/api.go),
    the adapter over any version API (adapter.go) and the planner (planner.go). *)
From Stdlib Require Import QArith_base.
From S2P Require Import Prelude Timestamp Text Redactor Provider RolloutPlan RolloutEngine Bundle Template Manifest.
From S2P Require Export Http PlanVariables.
From stdpp Require Import options.

Definition ProviderName : string := "cloudflare".
Definition defaultAPIURL : string := "https://api.cloudflare.com/client/v4".

(** [Target] and [Snapshot] *)
Record WorkerTarget := { wt_AccountID : string; wt_ZoneID : string; wt_ScriptName : string }.
#[export] Instance WorkerTarget_eq_dec : EqDecision WorkerTarget.
Proof. solve_decision. Defined.
Record WorkerSnapshot := {
  ws_AccountID : string; ws_ZoneID : string; ws_ScriptName : string; ws_PriorVersionID : string; ws_BindingNames : list string;
}.
Record StageRequest := {
  st_Target : WorkerTarget; st_PriorVersionID : string; st_Secrets : gmap string string; st_RemovedNames : list string;
}.

(** ** Tests *)

Definition id_byte (c : ascii) : bool := is_upper c || is_lower c || is_digit c || Ascii.eqb c "_" || Ascii.eqb c "-".
(** The regular expressions [^[A-Za-z0-9_-]{1,64}$] and [^[A-Za-z0-9_-]{1,255}$] *)
Definition cloudflareID (value : string) : bool := nonempty value && (slen value <=? 64) && all_bytes id_byte value.
Definition scriptName (value : string) : bool := nonempty value && (slen value <=? 255) && all_bytes id_byte value.

Definition validBindingName (name : string) : bool :=
  match name with
  | "" => false
  | String first _ => (slen name <=? 128) && is_upper first && all_bytes (λ c, Ascii.eqb c "_" || is_upper c || is_digit c) name
  end.

Definition validateCloudflareTarget (target : WorkerTarget) : result unit :=
  reject_if (negb (cloudflareID (wt_AccountID target)) || negb (cloudflareID (wt_ZoneID target)) || negb (scriptName (wt_ScriptName target)))
    "Cloudflare account, zone, or script identity is invalid".

(** ** The version API over HTTP *)

Record HTTPAPI := { ha_token : string; ha_apiURL : string; ha_moduleName : string; ha_module : string }.

Definition trim_right (c : ascii) (s : string) : string :=
  string_of_list_ascii (reverse (drop_while (λ x, Ascii.eqb x c) (reverse (list_ascii_of_string s)))).
Definition TrimSuffix (s suffix : string) : string :=
  if has_suffix suffix s then substring 0 (String.length s - String.length suffix) s else s.

Definition New {urls : URLs} (token APIURL ModuleName Module_ : string) : result HTTPAPI :=
  let trimmed := TrimSpace token in
  _ ← reject_if ((slen trimmed <? 8) || (4096 <? slen trimmed) || contains_byte cr trimmed || contains_byte lf trimmed || contains_byte "000" trimmed)
        "Cloudflare API token is invalid";
  let apiURL := trim_right "/" APIURL in
  let apiURL := if nonempty apiURL then apiURL else defaultAPIURL in
  match url_Parse apiURL with
  | None => Err "Cloudflare API URL is invalid"
  | Some parsed =>
      _ ← reject_if (negb (String.eqb (u_Scheme parsed) "https") && negb (String.eqb (u_Scheme parsed) "http") || negb (nonempty (u_Host parsed)))
            "Cloudflare API URL is invalid";
      let moduleName := if nonempty ModuleName then ModuleName else "worker.js" in
      _ ← reject_if (negb (scriptName (TrimSuffix moduleName ".js")) || negb (has_suffix ".js" moduleName)) "Cloudflare Worker module name is invalid";
      Ok {| ha_token := trimmed; ha_apiURL := apiURL; ha_moduleName := moduleName; ha_module := Module_ |}
  end.

(** A percentage is a float, and a rational. *)
Record deploymentVersion := { dv_VersionID : string; dv_Percentage : Q }.
Inductive binding := Inherit (name version : string) | SecretText (name text : string).

(** The JSON of requests, and of replies: whether the reply is a success, and what is read
    of its result. *)
Class CloudflareCodec := {
  metadata_json : string → list binding → string;
  deployment_json : string → string;
  id_of_json : string → option (bool * string);
  zone_of_json : string → option (bool * (string * string));
  version_of_json : string → option (bool * list string);
  deployments_of_json : string → option (bool * list (list deploymentVersion));
  success_of_json : string → option bool;
}.

(** The network, the random bytes of a boundary of [multipart.NewWriter], and the clock of
    the adapter. *)
Inductive remote : Type → Type :=
| Send (request : HttpRequest) : remote (option HttpReply)
| RandomBoundary : remote string
| Clock : remote Z.

(** An error of the function itself. *)
Definition locally {C A} (r : result A) : fallible C A := match r with Ok a => succeed a | Err msg => fail_text msg end.

Definition maxReply : Z := 2097152.
(** The reader stops at its limit, without an error. *)
Definition read_limited (raw : string) : string := if slen raw <=? maxReply then raw else substring 0 (Z.to_nat maxReply) raw.

Definition retry_class (status : Z) : RetryClass :=
  if (status =? 408) || (status =? 429) || (500 <=? status) then RetrySafe else RetryNever.

Section API.
Context {codec : CloudflareCodec} (api : HTTPAPI).

Definition new_request (method path contentType body : string) : HttpRequest :=
  {| hq_Method := method; hq_URL := ha_apiURL api +:+ path;
     hq_Headers := [("Authorization", "Bearer " +:+ ha_token api); ("Accept", "application/json")] ++
                   (if nonempty contentType then [("Content-Type", contentType)] else []);
     hq_Body := body |}.

(** What is made of a reply. *)
Definition read_reply {A} (decode : string → option A) (reply : option HttpReply) : A + AdapterError :=
  let failed operation status code retry := inr (Typed (NewError operation status code retry)) in
  match reply with
  | None => failed "request" 0 "TRANSPORT" RetrySafe
  | Some reply =>
      let status := hr_Status reply in
      match hr_Body reply with
      | None => failed "response" status "READ" RetrySafe
      | Some raw =>
          if (status <? 200) || (300 <=? status) then failed "response" status "CF_API" (retry_class status)
          else match decode (read_limited raw) with
               | None => failed "response" status "INVALID_JSON" RetryAmbiguous
               | Some a => inl a
               end
      end
  end.

(** [HTTPAPI.request]: the URL of an API that [New] has accepted and a path of tested
    identifiers make a request. *)
Definition request {A} (method path contentType body : string) (decode : string → option A) : fallible remote A :=
  reply ← ask (Send (new_request method path contentType body)); mret (read_reply decode reply).
Definition get {A} (path : string) (decode : string → option A) : fallible remote A := request "GET" path "" "" decode.

Definition API_Identity (accountID : string) : fallible remote unit :=
  if negb (cloudflareID accountID) then fail_text "Cloudflare account ID is invalid"
  else
    let! response := get ("/accounts/" +:+ PathEscape accountID) id_of_json in
    if negb response.1 || negb (String.eqb response.2 accountID) then fail_text "Cloudflare account identity mismatch" else succeed tt.

Definition script_path (target : WorkerTarget) : string :=
  "/accounts/" +:+ PathEscape (wt_AccountID target) +:+ "/workers/scripts/" +:+ PathEscape (wt_ScriptName target).

(** The names, each once. *)
Fixpoint binding_names (bindings : list string) (seen : gset string) : result (list string) :=
  match bindings with
  | [] => Ok []
  | name :: rest =>
      _ ← reject_if (negb (validBindingName name)) "Cloudflare returned an invalid binding name";
      if bool_decide (name ∈ seen) then binding_names rest seen
      else names ← binding_names rest ({[name]} ∪ seen); Ok (name :: names)
  end.

Definition VersionBindingNames (target : WorkerTarget) (versionID : string) : fallible remote (list string) :=
  if negb (is_ok (validateCloudflareTarget target)) || negb (cloudflareID versionID) then fail_text "Cloudflare version identity is invalid"
  else
    let! response := get (script_path target +:+ "/versions/" +:+ PathEscape versionID) version_of_json in
    if negb response.1 then fail_text "Cloudflare version inspection failed"
    else
      let! names := locally (binding_names response.2 ∅) in
      succeed (sort_strings names).

Definition deployments (target : WorkerTarget) : fallible remote (list deploymentVersion) :=
  let! response := get (script_path target +:+ "/deployments") deployments_of_json in
  match response with
  | (true, versions :: _) => succeed versions
  | _ => fail_text "Cloudflare Worker has no active deployment"
  end.

(** The one version that is deployed to all. *)
Definition fully_deployed (versions : list deploymentVersion) : option string :=
  match versions with
  | [version] => if Qeq_bool (dv_Percentage version) (inject_Z 100) && nonempty (dv_VersionID version) then Some (dv_VersionID version) else None
  | _ => None
  end.

Definition API_Inspect (target : WorkerTarget) : fallible remote WorkerSnapshot :=
  let! _ := locally (validateCloudflareTarget target) in
  let! _ := API_Identity (wt_AccountID target) in
  let! zone := get ("/zones/" +:+ PathEscape (wt_ZoneID target)) zone_of_json in
  if negb zone.1 || negb (String.eqb zone.2.1 (wt_ZoneID target)) || negb (String.eqb zone.2.2 (wt_AccountID target))
  then fail_text "Cloudflare zone identity mismatch"
  else
    let! versions := deployments target in
    match fully_deployed versions with
    | None => fail_text "Cloudflare Worker does not have one fully deployed version"
    | Some version =>
        let! names := VersionBindingNames target version in
        succeed {| ws_AccountID := wt_AccountID target; ws_ZoneID := wt_ZoneID target; ws_ScriptName := wt_ScriptName target;
                   ws_PriorVersionID := version; ws_BindingNames := names |}
    end.

(** What the new version has: the names of the prior one, but for those that are set or
    removed, and the secrets. *)
Definition inherited (request : StageRequest) (priorNames : list string) : list string :=
  filter (λ name, st_Secrets request !! name = None ∧ name ∉ st_RemovedNames request) priorNames.
Definition stage_bindings (request : StageRequest) (priorNames : list string) : list binding :=
  ((λ name, Inherit name (st_PriorVersionID request)) <$> inherited request priorNames) ++
  ((λ name, SecretText name (default "" (st_Secrets request !! name))) <$> sortedMapKeys (st_Secrets request)).

(** *** The upload *)

Definition crlf : string := String cr (String lf "").
Definition in_quotes (s : string) : string := String quote (s +:+ String quote "").
Definition part (boundary disposition contentType content : string) : string :=
  "--" +:+ boundary +:+ crlf +:+ "Content-Disposition: " +:+ disposition +:+ crlf +:+ "Content-Type: " +:+ contentType +:+ crlf +:+ crlf +:+ content +:+ crlf.
Definition version_upload (boundary metadata : string) : string :=
  part boundary ("form-data; name=" +:+ in_quotes "metadata") "application/json" metadata +:+
  part boundary ("form-data; name=" +:+ in_quotes (ha_moduleName api) +:+ "; filename=" +:+ in_quotes (ha_moduleName api))
    "application/javascript+module" (ha_module api) +:+
  "--" +:+ boundary +:+ "--" +:+ crlf.

Definition upload_path (target : WorkerTarget) : string := script_path target +:+ "/versions?bindings_inherit=strict".

Definition API_Stage (r : StageRequest) : fallible remote string :=
  let! _ := locally (validateCloudflareTarget (st_Target r)) in
  if negb (nonempty (ha_module api)) || negb (nonempty (st_PriorVersionID r)) || (map_len (st_Secrets r) + list_len (st_RemovedNames r) =? 0)
  then fail_text "Cloudflare version stage is incomplete"
  else
    let! priorNames := VersionBindingNames (st_Target r) (st_PriorVersionID r) in
    if negb (forallb validBindingName (st_RemovedNames r)) then fail_text "Cloudflare removed binding name is invalid"
    else if negb (forallb validBindingName (sortedMapKeys (st_Secrets r))) then fail_text "Cloudflare binding name is invalid"
    else
      let metadata := metadata_json (ha_moduleName api) (stage_bindings r priorNames) in
      random ← ask RandomBoundary;
      let boundary := hex random in
      let! response := request "POST" (upload_path (st_Target r)) ("multipart/form-data; boundary=" +:+ boundary)
                         (version_upload boundary metadata) id_of_json in
      if negb response.1 || negb (nonempty response.2) then fail_text "Cloudflare did not return a staged version" else succeed response.2.

Definition deploy_path (target : WorkerTarget) (force : bool) : string :=
  script_path target +:+ "/deployments" +:+ (if force then "?force=true" else "").

Definition API_Deploy (target : WorkerTarget) (versionID : string) (force : bool) : fallible remote string :=
  if negb (is_ok (validateCloudflareTarget target)) || negb (cloudflareID versionID) then fail_text "Cloudflare deployment identity is invalid"
  else
    let! response := request "POST" (deploy_path target force) "application/json" (deployment_json versionID) id_of_json in
    if negb response.1 || negb (nonempty response.2) then fail_text "Cloudflare deployment did not return an ID" else succeed response.2.

Definition DeleteVersion (target : WorkerTarget) (versionID : string) : fallible remote unit :=
  if negb (is_ok (validateCloudflareTarget target)) || negb (cloudflareID versionID) then fail_text "Cloudflare disposable version identity is invalid"
  else
    let! success := request "DELETE" ("/accounts/" +:+ PathEscape (wt_AccountID target) +:+ "/workers/workers/" +:+
                      PathEscape (wt_ScriptName target) +:+ "/versions/" +:+ PathEscape versionID) "application/json" "" success_of_json in
    if negb success then fail_text "Cloudflare disposable version deletion failed" else succeed tt.
End API.

(** ** The version API as the adapter sees it *)

Inductive version_api : Type → Type :=
| ApiIdentity (accountID : string) : version_api (unit + AdapterError)
| ApiInspect (target : WorkerTarget) : version_api (WorkerSnapshot + AdapterError)
| ApiStage (request : StageRequest) : version_api (string + AdapterError)
| ApiVersionBindingNames (target : WorkerTarget) (versionID : string) : version_api (list string + AdapterError)
| ApiDeploy (target : WorkerTarget) (versionID : string) (force : bool) : version_api (string + AdapterError).

(** [HTTPAPI] implements it. *)
Definition http_api {codec : CloudflareCodec} (api : HTTPAPI) {X} (c : version_api X) : flow remote X X :=
  match c in version_api X return flow remote X X with
  | ApiIdentity accountID => API_Identity api accountID
  | ApiInspect target => API_Inspect api target
  | ApiStage request => API_Stage api request
  | ApiVersionBindingNames target versionID => VersionBindingNames api target versionID
  | ApiDeploy target versionID force => API_Deploy api target versionID force
  end.

(** A program that can call a version API and read a clock. *)
Class AdapterCalls (C : Type → Type) := { call_api : ∀ X, version_api X → C X; call_now : C Z }.
Arguments call_api {_ _ _} _.

(** The calls of the adapter, carried out over HTTP. *)
Inductive adapter_call : Type → Type :=
| Api {X} (c : version_api X) : adapter_call X
| Now : adapter_call Z.
#[export] Instance adapter_calls : AdapterCalls adapter_call := {| call_api := @Api; call_now := Now |}.
Definition over_http {codec : CloudflareCodec} (api : HTTPAPI) X (c : adapter_call X) : flow remote X X :=
  match c in adapter_call X return flow remote X X with
  | Api c => http_api api c
  | Now => ask Clock
  end.

(** Whether the API is set, and the target. *)
Record Adapter := { ad_API : bool; ad_Target : WorkerTarget }.

Definition Capabilities : Provider.Capabilities :=
  {| cap_Create := true; cap_ReadMetadata := true; cap_Update := true; cap_Validate := true; cap_Revoke := true;
     cap_SupportsIdempotencyKey := false; cap_SupportsIdempotentWrite := false; cap_SupportsMaskedPresence := true |}.

Definition ready (adapter : option Adapter) : result WorkerTarget :=
  match adapter with
  | None => Err "Cloudflare adapter is not configured"
  | Some a =>
      let target := ad_Target a in
      _ ← reject_if (negb (ad_API a) || negb (nonempty (wt_AccountID target)) || negb (nonempty (wt_ZoneID target)) || negb (nonempty (wt_ScriptName target)))
            "Cloudflare adapter is not configured";
      Ok target
  end.

(** The target of the adapter, when the given one is bound to it. *)
Definition validateTarget (adapter : option Adapter) (target : Provider.Target) : result WorkerTarget :=
  own ← ready adapter;
  _ ← reject_if (negb (String.eqb (tg_ProjectID target) (wt_AccountID own)) || negb (String.eqb (tg_EnvironmentID target) (wt_ZoneID own)) ||
        negb (map_len (tg_ServiceIDs target) =? 1) || negb (String.eqb (default "" (tg_ServiceIDs target !! wt_ScriptName own)) (wt_ScriptName own)))
        "Cloudflare target binding does not match account, zone, and script";
  Ok own.

Definition same_worker (snapshot : WorkerSnapshot) (target : WorkerTarget) : bool :=
  String.eqb (ws_AccountID snapshot) (wt_AccountID target) && String.eqb (ws_ZoneID snapshot) (wt_ZoneID target) &&
  String.eqb (ws_ScriptName snapshot) (wt_ScriptName target).

(** One request of a batch: the secrets so far. *)
Definition stage_request (adapter : option Adapter) (own : WorkerTarget) (request : WriteRequest) (secrets : gmap string string) : result (gmap string string) :=
  _ ← reject_if (negb (is_ok (validateTarget adapter (wr_Target request))) ||
        negb (String.eqb (wr_Operation request) "upsert") && negb (String.eqb (wr_Operation request) "revoke") ||
        negb (String.eqb (wr_Service request) (wt_ScriptName own)) || negb (String.eqb (wr_ServiceID request) (wt_ScriptName own)) ||
        negb (nonempty (wr_Name request))) "invalid Cloudflare atomic binding request";
  _ ← reject_if (bool_decide (is_Some (secrets !! wr_Name request))) "duplicate Cloudflare binding name";
  if String.eqb (wr_Operation request) "revoke" then Ok secrets else Ok (<[wr_Name request := wr_secret request]> secrets).

Definition removed_names (requests : list WriteRequest) : list string :=
  sort_strings (wr_Name <$> filter (λ r, wr_Operation r = "revoke") requests).

(** [sort.SearchStrings] in a sorted list: the first place that is not before. *)
Fixpoint SearchStrings (names : list string) (name : string) : nat :=
  match names with
  | [] => 0
  | first :: rest => if str_lt first name then S (SearchStrings rest name) else 0
  end.

Definition presence_of (names : list string) (name : string) : Presence :=
  let names := sort_strings names in
  match names !! SearchStrings names name with
  | Some found => if String.eqb found name then PresencePresent else PresenceAbsent
  | None => PresenceAbsent
  end.

Section Adapter.
Context {C : Type → Type} {calls : AdapterCalls C} (adapter : option Adapter).

Definition now : fallible C string := t ← ask call_now; succeed (format_rfc3339 t).
Definition api {A} (c : version_api (A + AdapterError)) : fallible C A := ask (call_api c).

Definition Identity : fallible C Provider.Identity :=
  let! target := locally (ready adapter) in
  let! _ := api (ApiIdentity (wt_AccountID target)) in
  succeed {| id_Provider := ProviderName; id_ID := wt_AccountID target |}.

Definition masked (names : list string) : gmap string VariableMetadata :=
  list_to_map ((λ name, (name, {| vm_Presence := PresencePresent; vm_LastWriteKey := "" |})) <$> names).

Definition Inspect (target : Provider.Target) : fallible C MetadataState :=
  let! own := locally (validateTarget adapter target) in
  let! snapshot := api (ApiInspect own) in
  if negb (same_worker snapshot own) then fail_text "Cloudflare target identity mismatch"
  else succeed {| ms_Target := target; ms_Variables := {[wt_ScriptName own := masked (ws_BindingNames snapshot)]}; ms_Revision := ws_PriorVersionID snapshot |}.

Definition Write (request : WriteRequest) : fallible C WriteEvidence := fail_text "Cloudflare bindings must be staged atomically".

Definition Stage (requests : list WriteRequest) : fallible C WriteEvidence :=
  let! own := locally (ready adapter) in
  if list_len requests =? 0 then fail_text "Cloudflare stage requires at least one binding"
  else
    let! snapshot := api (ApiInspect own) in
    if negb (nonempty (ws_PriorVersionID snapshot)) || negb (same_worker snapshot own) then fail_text "Cloudflare stage target identity mismatch"
    else
      let! secrets := locally (each_with (stage_request adapter own) requests ∅) in
      let! versionID := api (ApiStage {| st_Target := own; st_PriorVersionID := ws_PriorVersionID snapshot; st_Secrets := secrets;
                                         st_RemovedNames := removed_names requests |}) in
      if negb (nonempty (TrimSpace versionID)) || (128 <? slen versionID) then fail_text "Cloudflare returned an invalid version ID"
      else
        let! committed := now in
        succeed {| we_ProviderOperationID := versionID; we_CommittedAt := committed |}.

Definition Verify (request : VerifyRequest) : fallible C VerifyEvidence :=
  let expected := if bool_decide (vr_ExpectedPresence request = PresenceOther "") then PresencePresent else vr_ExpectedPresence request in
  match validateTarget adapter (vr_Target request) with
  | Err _ => fail_text "invalid Cloudflare version verification request"
  | Ok own =>
      if negb (String.eqb (vr_Service request) (wt_ScriptName own)) || negb (String.eqb (vr_ServiceID request) (wt_ScriptName own)) ||
         negb (nonempty (vr_Name request)) || negb (nonempty (vr_ProviderOperationID request)) ||
         negb (bool_decide (expected = PresencePresent)) && negb (bool_decide (expected = PresenceAbsent))
      then fail_text "invalid Cloudflare version verification request"
      else
        let! names := api (ApiVersionBindingNames own (vr_ProviderOperationID request)) in
        let presence := presence_of names (vr_Name request) in
        let! verified := now in
        if bool_decide (presence = expected)
        then succeed {| ve_Result := VerificationVerified; ve_Presence := presence; ve_VerifiedAt := verified; ve_Reason := "" |}
        else succeed {| ve_Result := VerificationLimited; ve_Presence := presence; ve_VerifiedAt := verified; ve_Reason := "binding-presence-mismatch" |}
  end.

(** Of an adapter with an API. *)
Definition Promote (target : WorkerTarget) (versionID : string) : fallible C string :=
  if negb (nonempty versionID) then fail_text "Cloudflare staged version is required" else api (ApiDeploy target versionID false).
Definition Rollback (target : WorkerTarget) (priorVersionID : string) : fallible C string :=
  if negb (nonempty priorVersionID) then fail_text "Cloudflare prior version is required" else api (ApiDeploy target priorVersionID true).
End Adapter.

(** ** The planner *)

Definition worker_target (target : WorkerTarget) : Provider.Target :=
  {| tg_ProjectID := wt_AccountID target; tg_EnvironmentID := wt_ZoneID target;
     tg_ServiceIDs := {[wt_ScriptName target := wt_ScriptName target]} |}.

Definition TargetForManifest (document : option Document) : result (WorkerTarget * Provider.Target) :=
  match document with
  | None => Err "Cloudflare manifest is required"
  | Some document =>
      match mf_Targets (doc_Manifest document) !! ProviderName with
      | None => Err "manifest has no Cloudflare target"
      | Some target =>
          let inexact := "Cloudflare target requires exact account, zone, and Worker identities" in
          _ ← reject_if (negb (nonempty (mt_ProjectID target)) || negb (nonempty (mt_EnvironmentID target))) inexact;
          match map_to_list (mt_Services target) with
          | [(name, service)] =>
              _ ← reject_if (negb (nonempty (sv_ID service)) || negb (String.eqb (sv_ID service) name))
                    "Cloudflare Worker service name and immutable script ID must match";
              let bound := {| wt_AccountID := mt_ProjectID target; wt_ZoneID := mt_EnvironmentID target; wt_ScriptName := name |} in
              _ ← validateCloudflareTarget bound;
              Ok (bound, worker_target bound)
          | _ => Err inexact
          end
      end
  end.

(** What a missing target reads as. *)
Definition no_target : ManifestTarget :=
  {| mt_Provider := ""; mt_Project := ""; mt_ProjectID := ""; mt_Environment := ""; mt_EnvironmentID := ""; mt_Services := ∅;
     mt_Stage := ""; mt_Activation := ""; mt_HealthChecks := []; mt_Promotion := ""; mt_Rollback := "" |}.

Definition absent_name (script name : string) : PlannedName := planned_name script script "" name "absent" "" 0.
Definition absent_action (script name : string) : Action :=
  {| ac_ID := script +:+ "/" +:+ name; ac_Operation := "revoke"; ac_Service := script; ac_ServiceID := script; ac_Name := name;
     ac_Record := ""; ac_ValueSource := ""; ac_PublicValue := ""; ac_ExpectedRecordRevision := 0 |}.

Definition BuildPlanInput (document : option Document) (snapshot : Snapshot) (snapshotRevision : Z) (target : Provider.Target) : result PlanInput :=
  bounds ← TargetForManifest document;
  let '(bound, expected) := (bounds : WorkerTarget * Provider.Target) in
  match document with
  | None => Err "Cloudflare manifest is required"
  | Some document =>
      let manifest := doc_Manifest document in
      let script := wt_ScriptName bound in
      _ ← reject_if ((snapshotRevision <? 1) || negb (is_ok (Snapshot_Validate snapshot)) ||
            negb (String.eqb (sn_Bundle snapshot) (mf_Bundle manifest)) ||
            negb (String.eqb (sn_ManifestDigest snapshot) (doc_Digest document)))
            "Cloudflare plan requires the current prepared bundle snapshot";
      _ ← reject_if (negb (String.eqb (tg_ProjectID target) (tg_ProjectID expected)) ||
            negb (String.eqb (tg_EnvironmentID target) (tg_EnvironmentID expected)) ||
            negb (map_len (tg_ServiceIDs target) =? 1) || negb (String.eqb (default "" (tg_ServiceIDs target !! script)) script))
            "Cloudflare target binding does not match the manifest";
      let service := default no_service (mt_Services (default no_target (mf_Targets manifest !! ProviderName)) !! script) in
      plan ← each_with (plan_variable "Cloudflare" "" snapshot script script (sv_Variables service)) (sortedMapKeys (sv_Variables service)) ([], []);
      let absent := sort_strings (sv_Absent service) in
      Ok {| in_Bundle := mf_Bundle manifest; in_ManifestDigest := doc_Digest document; in_SnapshotRevision := snapshotRevision;
            in_Target := {| tb_ProjectID := tg_ProjectID target; tb_EnvironmentID := tg_EnvironmentID target;
                            tb_ServiceIDs := Some {[script := script]} |};
            in_Kind := PlanKindBindingNames; in_Names := (plan : list PlannedName * list Action).1 ++ (absent_name script <$> absent);
            in_Actions := plan.2 ++ (absent_action script <$> absent) |}
  end.
