(* ===== verification/CloudflarePlanning.v ===== *)
(** The plans that the Cloudflare planner makes of a manifest are complete and valid. *)
From S2P Require Import Prelude Timestamp Text Secure Provider RolloutPlan RolloutEngine PlanVariables Bundle Template Manifest ManifestProperties.
From S2P Require Import Cloudflare RolloutExample.
From stdpp Require Import options.

(** ** The worker of a manifest *)

Lemma map_to_list_single {A} (m : gmap string A) k a : map_to_list m = [(k, a)] ↔ m = {[k := a]}.
Proof.
  split; [|by intros ->; apply map_to_list_singleton]. intros E. by rewrite <-(list_to_map_to_list m), E.
Qed.

Lemma size_one_lookup (m : gmap string string) k v : size m = 1%nat → m !! k = Some v → m = {[k := v]}.
Proof.
  intros Hs Hk. rewrite <-length_map_to_list in Hs. destruct (map_to_list m) as [|[k' v'] [|]] eqn:E; [done| |done].
  apply map_to_list_single in E as ->. apply lookup_singleton_Some in Hk as [-> ->]. done.
Qed.

Definition cloudflare_target (d : Document) : option ManifestTarget := mf_Targets (doc_Manifest d) !! ProviderName.

(** The target has one service, whose name is its identifier. *)
Record worker_service (d : Document) (bound : WorkerTarget) (service : Service) : Prop := {
  ws_target : ∃ t, cloudflare_target d = Some t ∧ mt_Services t = {[wt_ScriptName bound := service]} ∧
    mt_ProjectID t = wt_AccountID bound ∧ mt_EnvironmentID t = wt_ZoneID bound;
  ws_id : sv_ID service = wt_ScriptName bound;
  ws_valid : validateCloudflareTarget bound = Ok tt;
}.

Lemma validateCloudflareTarget_Ok bound : validateCloudflareTarget bound = Ok tt ↔
  cloudflareID (wt_AccountID bound) = true ∧ cloudflareID (wt_ZoneID bound) = true ∧ scriptName (wt_ScriptName bound) = true.
Proof. unfold validateCloudflareTarget. destruct (cloudflareID (wt_AccountID bound)), (cloudflareID (wt_ZoneID bound)), (scriptName (wt_ScriptName bound)); cbn; naive_solver. Qed.

Lemma cloudflareID_full value : cloudflareID value = true → value ≠ "".
Proof. by intros H ->. Qed.

Lemma valid_target_full bound : validateCloudflareTarget bound = Ok tt → wt_AccountID bound ≠ "" ∧ wt_ZoneID bound ≠ "" ∧ wt_ScriptName bound ≠ "".
Proof. intros (H1 & H2 & H3)%validateCloudflareTarget_Ok. split_and!; [by apply cloudflareID_full..|by intros E; rewrite E in H3]. Qed.

Lemma scriptName_plain value : scriptName value = true → contains_byte "000" value = false ∧ contains_byte "/" value = false.
Proof.
  unfold scriptName. rewrite !andb_true_iff. intros [_ H].
  assert (Hno : ∀ c, id_byte c = false → contains_byte c value = false).
  { intros c Hc. clear -H Hc. induction value as [|x s IH]; [done|]. cbn in *. apply andb_true_iff in H as [Hx Hs]. rewrite (IH Hs), orb_false_r.
    destruct (Ascii.eqb_spec x c) as [->|]; [congruence|]. destruct (Ascii.eqb_spec c x); congruence. }
  split; by apply Hno.
Qed.

Lemma TargetForManifest_Ok d bound expected : TargetForManifest (Some d) = Ok (bound, expected) ↔
  expected = worker_target bound ∧ ∃ service, worker_service d bound service.
Proof.
  unfold TargetForManifest. fold (cloudflare_target d). destruct (cloudflare_target d) as [t|] eqn:Et.
  2: { split; [done|]. intros (_ & service & [(t & E & _) _ _]). congruence. }
  rewrite reject_if_bind, orb_false_iff, !negb_false_iff, !nonempty_true. split.
  - intros [[Hp He] H]. destruct (map_to_list (mt_Services t)) as [|[name service] [|]] eqn:Es; [done| |done].
    apply map_to_list_single in Es. rewrite reject_if_bind in H. destruct H as [[Hid1 Hid2]%orb_false_iff H]. apply bind_Ok in H as ([] & Hv & [= <- <-]).
    apply negb_false_iff, String.eqb_eq in Hid2. split; [done|]. exists service. split; [by exists t|done|done].
  - intros (-> & service & [(t' & E & Es & Ep & Ee) Hid Hv]). assert (t' = t) as -> by congruence.
    destruct (valid_target_full bound Hv) as (H1 & H2 & H3). split; [by rewrite Ep, Ee|]. rewrite Es, map_to_list_singleton. cbn.
    rewrite Hid, String.eqb_refl. rewrite (proj2 (nonempty_true _) H3). cbn. destruct bound as [a z s]. cbn in *. rewrite Ep, Ee, Hv. done.
Qed.

Section Cloudflare.
Context {urls : URLs} {unicode : Unicode} {crypto : Crypto} {codec : PlanCodec}.

(** ** The whole plan *)

Definition records_known (snapshot : Snapshot) (service : Service) : Prop :=
  ∀ name v, sv_Variables service !! name = Some v → record_known snapshot v.

Definition the_input (d : Document) (snapshot : Snapshot) (revision : Z) (bound : WorkerTarget) (service : Service) : PlanInput :=
  let script := wt_ScriptName bound in
  {| in_Bundle := mf_Bundle (doc_Manifest d); in_ManifestDigest := doc_Digest d; in_SnapshotRevision := revision;
     in_Target := {| tb_ProjectID := wt_AccountID bound; tb_EnvironmentID := wt_ZoneID bound; tb_ServiceIDs := Some {[script := script]} |};
     in_Kind := PlanKindBindingNames;
     in_Names := (sortedMapKeys (sv_Variables service) ≫= variable_names "" snapshot script script (sv_Variables service)) ++
                 (absent_name script <$> sort_strings (sv_Absent service));
     in_Actions := (sortedMapKeys (sv_Variables service) ≫= variable_actions snapshot script script (sv_Variables service)) ++
                   (absent_action script <$> sort_strings (sv_Absent service)) |}.

Lemma worker_service_functional d bound service bound' service' : worker_service d bound service → worker_service d bound' service' →
  bound = bound' ∧ service = service'.
Proof.
  intros [(t & Et & Es & Ep & Ee) _ _] [(t' & Et' & Es' & Ep' & Ee') _ _]. assert (t' = t) as -> by congruence.
  rewrite Es in Es'. apply (f_equal map_to_list) in Es'. rewrite !map_to_list_singleton in Es'. injection Es' as E1 E2.
  destruct bound, bound'. cbn in *. by subst.
Qed.

Lemma BuildPlanInput_Ok d snapshot revision target input : BuildPlanInput (Some d) snapshot revision target = Ok input ↔
  ∃ bound service, worker_service d bound service ∧ prepared_for d snapshot revision ∧ target = worker_target bound ∧
    records_known snapshot service ∧ input = the_input d snapshot revision bound service.
Proof.
  unfold BuildPlanInput, prepared_for. rewrite bind_Ok. split.
  - intros ([bound expected] & [-> [service Hw]]%TargetForManifest_Ok & H). rewrite !reject_if_bind in H. destruct H as (Hcur & Htarget & H).
    pose proof (ws_target _ _ _ Hw) as (t & Et & Es & _). unfold cloudflare_target in Et. rewrite Et in H. cbn [from_option id] in H.
    rewrite Es, lookup_singleton_eq in H. cbn [from_option id] in H. apply bind_Ok in H as (plan & [Hk ->]%plan_variables_spec & [= <-]).
    apply orb_false_iff in Hcur as [[[H1 H2]%orb_false_iff H3]%orb_false_iff H4]. apply orb_false_iff in Htarget as [[[H5 H6]%orb_false_iff H7]%orb_false_iff H8].
    apply negb_false_iff in H2, H3, H4, H5, H6, H7, H8. apply String.eqb_eq in H3, H4, H5, H6, H8. apply Z.eqb_eq in H7. apply is_ok_true in H2 as [[] H2].
    exists bound, service. assert (Htgt : target = worker_target bound).
    { destruct (valid_target_full _ (ws_valid _ _ _ Hw)) as (_ & _ & Hne). destruct target as [p e ids]. cbn in *. subst p e. unfold worker_target. f_equal.
      apply size_one_lookup; [unfold map_len in H7; lia|]. destruct (ids !! _) eqn:E; cbn in H8; congruence. }
    subst target. split_and!; try done. lia.
  - intros (bound & service & Hw & (H1 & H2 & H3 & H4) & -> & Hk & ->). exists (bound, worker_target bound).
    split; [apply TargetForManifest_Ok; split; [done|by exists service]|]. pose proof (ws_target _ _ _ Hw) as (t & Et & Es & _). unfold cloudflare_target in Et.
    rewrite Et. cbn [from_option id]. rewrite Es, lookup_singleton_eq. cbn [from_option id]. rewrite H2, H3, H4, !String.eqb_refl. replace (revision <? 1) with false by lia.
    unfold map_len. cbn [worker_target tg_ProjectID tg_EnvironmentID tg_ServiceIDs]. rewrite map_size_singleton, lookup_singleton_eq, !String.eqb_refl. cbn [negb orb from_option id].
    change (Z.of_nat 1 =? 1) with true. cbn [is_ok negb orb reject_if mbind result_bind].
    apply bind_Ok. eexists. split; [apply plan_variables_spec; split; [exact Hk|reflexivity]|done].
Qed.

(** ** What is in a plan *)

Section Sound.
Context (d : Document) (derived : list string) (snapshot : Snapshot) (revision : Z) (bound : WorkerTarget) (service : Service).
Hypothesis valid : validate (doc_Manifest d) = Ok derived.
Hypothesis worker : worker_service d bound service.
Hypothesis current : prepared_for d snapshot revision.
Hypothesis known : records_known snapshot service.
Abbreviation script := (wt_ScriptName bound).
Abbreviation input := (the_input d snapshot revision bound service).

Lemma worker_service_ok : service_ok (doc_Manifest d) service.
Proof using valid worker.
  destruct (ws_target _ _ _ worker) as (t & Et & Es & _). apply valid_manifest_spec in valid as (_ & _ & _ & _ & Ht & _).
  eapply (to_services _ t); [by eapply Ht|]. by rewrite Es, lookup_singleton_eq.
Qed.

Lemma worker_names_elem item : (item ∈ in_Names input) ↔
  (∃ name v, sv_Variables service !! name = Some v ∧ item = present_name "" snapshot script script name v) ∨
  ∃ name, name ∈ sv_Absent service ∧ item = absent_name script name.
Proof using.
  clear valid worker current known. cbn [the_input in_Names]. rewrite elem_of_app, elem_of_variable_names, list_elem_of_fmap. setoid_rewrite sort_strings_perm. naive_solver.
Qed.

Lemma worker_actions_elem a : (a ∈ in_Actions input) ↔
  (∃ name v, sv_Variables service !! name = Some v ∧ a ∈ variable_action script script name (variable_record v) (variable_revision snapshot v) v) ∨
  ∃ name, name ∈ sv_Absent service ∧ a = absent_action script name.
Proof using.
  clear valid worker current known. cbn [the_input in_Actions]. rewrite elem_of_app, elem_of_variable_actions, list_elem_of_fmap. setoid_rewrite sort_strings_perm. naive_solver.
Qed.

Lemma variable_is_ok name v : sv_Variables service !! name = Some v → namePattern name = true ∧ variable_ok (doc_Manifest d) name v.
Proof using valid worker. apply so_variables, worker_service_ok. Qed.

Lemma absent_is_ok name : name ∈ sv_Absent service → namePattern name = true ∧ sv_Variables service !! name = None.
Proof using valid worker. apply (so_absent _ _ worker_service_ok). Qed.

Lemma worker_names_sound item : item ∈ in_Names input → name_sound (in_Target input) item.
Proof using valid worker known.
  destruct (valid_target_full _ (ws_valid _ _ _ worker)) as (_ & _ & Hne).
  destruct (scriptName_plain script) as [Hp _]; [by apply validateCloudflareTarget_Ok, (ws_valid _ _ _ worker)|].
  assert (Hb : bound_service (in_Target input) script = script) by (unfold bound_service; cbn [the_input in_Target tb_ServiceIDs from_option id]; by rewrite lookup_singleton_eq).
  rewrite worker_names_elem. intros [(name & v & Ev & ->)|(name & Ha & ->)].
  - destruct (variable_is_ok name v Ev) as [Hn Hv]. split; [split_and!; [done|done|by intros E; cbn in E; rewrite E in Hn]|done|done|by left|].
    cbn. destruct (variable_fields _ _ snapshot name v valid Hv (known name v Ev)) as [(-> & -> & _)|(_ & ? & ?)]; [by left|by right].
  - destruct (absent_is_ok name Ha) as [Hn _]. split; [split_and!; [done|done|by intros E; cbn in E; rewrite E in Hn]|done|done|by right|by left].
Qed.

Lemma worker_names_once : NoDup ((λ item, (pn_Service item, pn_Name item)) <$> in_Names input).
Proof using valid worker.
  apply (NoDup_fmap_finer pn_Name); [by intros x y _ _ [= _ E]|]. cbn [the_input in_Names]. rewrite fmap_app. apply NoDup_app. split_and!.
  - apply NoDup_variable_names.
  - intros name (item & -> & (n & v & Ev & ->)%elem_of_variable_names)%list_elem_of_fmap (i' & E & (n' & -> & Ha)%list_elem_of_fmap)%list_elem_of_fmap.
    cbn in E. subst n'. rewrite sort_strings_perm in Ha. destruct (absent_is_ok n Ha) as [_ Hno]. congruence.
  - rewrite <-list_fmap_compose. cbn. rewrite list_fmap_id, sort_strings_perm. apply (so_absent _ _ worker_service_ok).
Qed.

Lemma worker_actions_once : NoDup ((λ a, (ac_Service a, ac_Name a)) <$> in_Actions input).
Proof using valid worker.
  apply (NoDup_fmap_finer ac_Name); [by intros x y _ _ [= _ E]|]. cbn [the_input in_Actions]. rewrite fmap_app. apply NoDup_app. split_and!.
  - apply NoDup_variable_actions.
  - intros name (a & -> & (n & v & Ev & (_ & _ & En & _)%variable_action_spec)%elem_of_variable_actions)%list_elem_of_fmap (a' & E & (n' & -> & Ha)%list_elem_of_fmap)%list_elem_of_fmap.
    cbn in E. subst n n'. rewrite sort_strings_perm in Ha. destruct (absent_is_ok _ Ha) as [_ Hno]. congruence.
  - rewrite <-list_fmap_compose. cbn. rewrite list_fmap_id, sort_strings_perm. apply (so_absent _ _ worker_service_ok).
Qed.

(** An action of the plan, with its name. *)
Lemma worker_action_for a : a ∈ in_Actions input → ac_ID a = script +:+ "/" +:+ ac_Name a ∧ ac_Service a = script ∧
  ∃ item, item ∈ in_Names input ∧ is_for PlanKindBindingNames a item.
Proof using valid worker known.
  intros [(name & v & Ev & Ha)|(name & Ha & ->)]%worker_actions_elem.
  - destruct (variable_action_spec _ _ _ _ _ _ _ Ha) as (E1 & E2 & E3 & E4 & E5 & E6 & E7 & Hval). rewrite E1, E3. split_and!; [done|done|].
    exists (present_name "" snapshot script script name v). split; [apply worker_names_elem; left; by exists name, v|].
    split_and!; [done..|]. left. split_and!; [done| |done|done]. split; [done|]. rewrite E6, E7. destruct (variable_is_ok name v Ev) as [_ Hv].
    destruct (variable_fields _ _ snapshot name v valid Hv (known name v Ev)) as [(H1 & H2 & H3)|(H1 & H2 & H3)], Hval as [(H4 & H5 & H6)|(H4 & H5 & H6)]; try congruence; [by right|by left].
  - split_and!; [done|done|]. exists (absent_name script name). split; [apply worker_names_elem; right; by exists name|]. split_and!; [done..|]. right. by split_and!.
Qed.

Lemma cloudflare_input_sound : input_sound input.
Proof using valid worker current known.
  destruct current as (Hr & Hs & Hb & Hd). apply Snapshot_identity in Hs as [Hb' Hd']. destruct (valid_target_full _ (ws_valid _ _ _ worker)) as (H1 & H2 & H3).
  split; [|done|by right|apply worker_names_sound|apply worker_names_once| |apply worker_actions_once|].
  - cbn. rewrite <-Hb, <-Hd. by split_and!.
  - intros a (E & Hsv & item & Hi & Hf)%worker_action_for. split; [|by exists item]. rewrite E. by destruct script.
  - intros a b (Ea & Hsa & _)%worker_action_for (Eb & Hsb & _)%worker_action_for E. rewrite Hsa, Hsb. split; [done|]. rewrite Ea, Eb in E.
    apply string_app_inj in E as [_ E]; [|done]. by injection E.
Qed.
End Sound.

(** The planner makes complete and valid plans of a manifest.  For a manifest that
    passes its test the planner succeeds exactly when the manifest has one worker with valid
    identities, the snapshot is current and has the records that the variables name, and
    the target is that worker.  Then every variable of the worker, and every name that must
    be absent, is in the plan; the actions set each variable with a record, at the revision
    of the snapshot, or a constant, and revoke each name that must be absent, once each and
    nothing else; and the plan that the engine makes of it, at any moment and whatever the
    worker has, is valid, if it has between 1 and 512 names. *)
Theorem cloudflare_plans_are_valid d derived snapshot revision target : validate (doc_Manifest d) = Ok derived →
  ((∃ input, BuildPlanInput (Some d) snapshot revision target = Ok input) ↔
     ∃ bound service, worker_service d bound service ∧ prepared_for d snapshot revision ∧ target = worker_target bound ∧ records_known snapshot service) ∧
  ∀ input bound service, BuildPlanInput (Some d) snapshot revision target = Ok input → worker_service d bound service →
    (∀ name, (∃ item, item ∈ in_Names input ∧ pn_Name item = name ∧ pn_Desired item = "present") ↔ is_Some (sv_Variables service !! name)) ∧
    (∀ name, (∃ item, item ∈ in_Names input ∧ pn_Name item = name ∧ pn_Desired item = "absent") ↔ name ∈ sv_Absent service) ∧
    (∀ a, a ∈ in_Actions input → ac_Service a = wt_ScriptName bound ∧
       ((∃ v, sv_Variables service !! ac_Name a = Some v ∧ action_writes snapshot v a) ∨ ac_Name a ∈ sv_Absent service ∧ revokes a)) ∧
    (∀ name v, sv_Variables service !! name = Some v → va_Source v = "record" ∨ va_Source v = "constant" →
       ∃ a, a ∈ in_Actions input ∧ ac_Name a = name ∧ action_writes snapshot v a) ∧
    (∀ name, name ∈ sv_Absent service → ∃ a, a ∈ in_Actions input ∧ ac_Name a = name ∧ revokes a) ∧
    NoDup ((λ a, (ac_Service a, ac_Name a)) <$> in_Actions input) ∧
    ∀ who metadata t, 1 ≤ len (in_Names input) ≤ MaxActions → id_Provider who ≠ "" → id_ID who ≠ "" → evidencePattern (ms_Revision metadata) = true →
      four_digit_year (unix t) → four_digit_year (unix (t + PlanTTL)) →
      Plan_Validate (plan_of input who metadata (truncate_second t)) (truncate_second t) = Ok tt.
Proof.
  intros Hv. split.
  { split.
    - intros [input (bound & service & H1 & H2 & H3 & H4 & _)%BuildPlanInput_Ok]. by exists bound, service.
    - intros (bound & service & H1 & H2 & H3 & H4). eexists. apply BuildPlanInput_Ok. exists bound, service. by split_and!. }
  intros input bound service (bound' & service' & Hw & Hcur & -> & Hk & ->)%BuildPlanInput_Ok Hw'.
  destruct (worker_service_functional _ _ _ _ _ Hw Hw') as [<- <-]. clear Hw'. rename bound' into bound, service' into service.
  pose proof (cloudflare_input_sound d derived snapshot revision bound service Hv Hw Hcur Hk) as Hok.
  pose proof (worker_names_elem d snapshot revision bound service) as Hnames. pose proof (worker_actions_elem d snapshot revision bound service) as Hactions.
  split_and!.
  - intros name. split.
    + intros (item & [(n & v & Ev & ->)|(n & _ & ->)]%Hnames & <- & Hd); [by exists v|discriminate Hd].
    + intros [v Ev]. eexists. split; [apply Hnames; left; by exists name, v|done].
  - intros name. split.
    + intros (item & [(n & v & Ev & ->)|(n & Ha & ->)]%Hnames & <- & Hd); [discriminate Hd|done].
    + intros Ha. eexists. split; [apply Hnames; right; by exists name|done].
  - intros a [(n & v & Ev & Ha)|(n & Ha & ->)]%Hactions; [|split; [done|]; right; by split].
    destruct (variable_action_spec _ _ _ _ _ _ _ Ha) as (-> & _ & E & _). rewrite E. split; [done|]. left. exists v. split; [done|].
    eapply variable_action_writes; [by eapply Hk|exact Ha].
  - intros name v Ev Hs. assert (Ha : ∃ a, a ∈ variable_action (wt_ScriptName bound) (wt_ScriptName bound) name (variable_record v) (variable_revision snapshot v) v).
    { unfold variable_action. destruct Hs as [-> | ->]; cbn; eexists; by left. }
    destruct Ha as [a Ha]. exists a. split; [apply Hactions; left; by exists name, v|]. split; [by apply variable_action_spec in Ha as (_ & _ & E & _)|].
    eapply variable_action_writes; [by eapply Hk|exact Ha].
  - intros name Ha. exists (absent_action (wt_ScriptName bound) name). split; [apply Hactions; right; by exists name|done].
  - apply Hok.
  - intros who metadata t Hlen Hw1 Hw2 Hrev Hy1 Hy2. by apply (input_plan_valid _ Hok); [..|right| |].
Qed.
End Cloudflare.

(** ** The property, applied *)

Module CloudflareDemo.
#[local] Existing Instances ManifestDemo.urls ManifestDemo.unicode RolloutExample.example_codec.
#[local] Instance crypto : Crypto := {| sha256 := λ _, "0123456789abcdef0123456789abcdef"; ed25519_verify := λ _ _ _, true; x25519_usable := λ _, true |}.
Definition service : Service := {| sv_ID := "shop"; sv_Order := 1; sv_Absent := ["DEBUG"];
  sv_Variables := {["HOST" := ManifestDemo.variable_ "constant" "db" "" ""; "PASSWORD" := ManifestDemo.variable_ "record" "" "PASSWORD" ""]} |}.
Definition target_ : ManifestTarget := {| mt_Provider := ""; mt_Project := "shop"; mt_ProjectID := "acc"; mt_Environment := "production";
  mt_EnvironmentID := "zone"; mt_Services := {["shop" := service]}; mt_Stage := ""; mt_Activation := ""; mt_HealthChecks := []; mt_Promotion := ""; mt_Rollback := "" |}.
Definition manifest : Manifest := {| mf_Version := 1; mf_Bundle := "shop"; mf_Environment := ""; mf_Policies := ∅;
  mf_Records := {["PASSWORD" := ManifestDemo.record_ "import" "" "" "secret"]};
  mf_Targets := {["cloudflare" := target_]}; mf_Credentials := ∅; mf_RotationPolicies := ∅; mf_Configurations := []; mf_BrowserRecipes := [] |}.
Definition digest : string := hex (sha256 "").
Definition document : Document := {| doc_Manifest := manifest; doc_Canonical := ""; doc_Digest := digest; doc_Derived := [] |}.
Definition snapshot : Snapshot := {| sn_Version := 1; sn_Bundle := "shop"; sn_ManifestDigest := digest;
  sn_PhysicalToLogical := Some {["P" := "PASSWORD"]}; sn_Sources := Some {["PASSWORD" := {| ss_Source := "import"; ss_Status := "ready"; ss_Sensitivity := "" |}]};
  sn_RecordRevisions := Some {["PASSWORD" := 7]}; sn_PreviousRecordRevisions := ∅; sn_CreatedAt := "2026-08-09T20:00:00Z" |}.
Definition worker : WorkerTarget := {| wt_AccountID := "acc"; wt_ZoneID := "zone"; wt_ScriptName := "shop" |}.
Definition input : result PlanInput := BuildPlanInput (Some document) snapshot 5 (worker_target worker).

Example planned_actions : match input with Ok i => (λ a, (ac_Operation a, ac_Name a, ac_ExpectedRecordRevision a)) <$> in_Actions i | Err _ => [] end =
  [("upsert", "HOST", 0); ("upsert", "PASSWORD", 7); ("revoke", "DEBUG", 0)].
Proof. vm_compute. reflexivity. Qed.

Lemma cloudflare_plans_are_valid_witness : ∃ i, input = Ok i ∧ ∃ a, a ∈ in_Actions i ∧ ac_Name a = "DEBUG" ∧ revokes a.
Proof.
  destruct input as [i|] eqn:E; [|vm_compute in E; discriminate E]. exists i. split; [reflexivity|].
  destruct (cloudflare_plans_are_valid document [] snapshot 5 (worker_target worker)) as [_ H]; [vm_compute; reflexivity|].
  destruct (H i worker service E) as (_ & _ & _ & _ & Ha & _).
  - constructor; [|reflexivity|vm_compute; reflexivity]. exists target_. split; [vm_compute; reflexivity|]. by repeat split.
  - apply Ha. by left.
Defined.
End CloudflareDemo.
