(* ===== verification/CloudflareVersions.v ===== *)
(** What the Cloudflare adapter does to the versions of a worker: the contract of a version
    API, which the API over HTTP keeps while the service behaves as documented, and what
    the adapter makes of it. *)
From Stdlib Require Import QArith_base.
From S2P Require Import Prelude Timestamp Text Redactor Provider RolloutPlan RolloutEngine Bundle Template Manifest ManifestProperties Lifecycle.
From S2P Require Import Cloudflare CloudflarePlanning.
From stdpp Require Import options.

(** ** Workers *)

(** The bindings of every version, and what is deployed. *)
Record Worker := { wk_versions : gmap string (gmap string string); wk_deployed : list deploymentVersion }.

Definition live (w : Worker) : option string := fully_deployed (wk_deployed w).
Definition add_version (id : string) (content : gmap string string) (w : Worker) : Worker :=
  {| wk_versions := <[id := content]> (wk_versions w); wk_deployed := wk_deployed w |}.
Definition deploy (id : string) (w : Worker) : Worker :=
  {| wk_versions := wk_versions w; wk_deployed := [{| dv_VersionID := id; dv_Percentage := inject_Z 100 |}] |}.
Definition has_names (content : gmap string string) (names : list string) : Prop := ∀ name, name ∈ names ↔ is_Some (content !! name).

Lemma live_deploy id w : id ≠ "" → live (deploy id w) = Some id.
Proof. intros H%nonempty_true. unfold live. cbn. by rewrite H. Qed.

(** *** The contract of a version API *)

(** The prior version, but for the names that are removed or set. *)
Definition staged_content (r : StageRequest) (content : gmap string string) : gmap string string :=
  st_Secrets r ∪ filter (λ p, p.1 ∉ st_RemovedNames r) content.
Definition stages (r : StageRequest) (w : Worker) (id : string) (w' : Worker) : Prop :=
  ∃ content, wk_versions w !! st_PriorVersionID r = Some content ∧ wk_versions w !! id = None ∧ w' = add_version id (staged_content r content) w.

Section Contract.
Context (own : WorkerTarget).

Definition api_contract X (c : version_api X) : Worker → X → Worker → Prop :=
  match c in version_api X return Worker → X → Worker → Prop with
  | ApiIdentity _ => λ w _ w', w' = w
  | ApiInspect target => λ w x w', target = own → w' = w ∧
      match x with
      | inl snapshot => same_worker snapshot own = true ∧ ∃ content, live w = Some (ws_PriorVersionID snapshot) ∧
          wk_versions w !! ws_PriorVersionID snapshot = Some content ∧ has_names content (ws_BindingNames snapshot)
      | inr _ => True
      end
  | ApiStage r => λ w x w', st_Target r = own →
      match x with inl id => stages r w id w' | inr _ => w' = w ∨ ∃ id, stages r w id w' end
  | ApiVersionBindingNames target id => λ w x w', target = own → w' = w ∧
      match x with inl names => ∃ content, wk_versions w !! id = Some content ∧ has_names content names | inr _ => True end
  | ApiDeploy target id _ => λ w x w', target = own →
      is_Some (wk_versions w !! id) ∧ w' = deploy id w ∨ w' = w ∧ ∃ e, x = inr e
  end.

Definition adapter_contract X (c : adapter_call X) : Worker → X → Worker → Prop :=
  match c in adapter_call X return Worker → X → Worker → Prop with
  | Api c => api_contract _ c
  | Now => λ w _ w', w' = w
  end.
End Contract.

(** ** The service *)

Definition binding_name (b : binding) : string := match b with Inherit name _ | SecretText name _ => name end.
Definition binding_value (w : Worker) (b : binding) : option string :=
  match b with
  | Inherit name version => content ← wk_versions w !! version; content !! name
  | SecretText _ text => Some text
  end.
(** A version with these bindings. *)
Definition built (w : Worker) (bs : list binding) (content : gmap string string) : Prop :=
  (∀ b, b ∈ bs → content !! binding_name b = binding_value w b) ∧ ∀ name, (name ∉ binding_name <$> bs) → content !! name = None.

Lemma binding_names_Ok bindings : ∀ seen names, binding_names bindings seen = Ok names →
  NoDup names ∧ (∀ name, name ∈ names ↔ (name ∈ bindings) ∧ (name ∉ seen)).
Proof.
  induction bindings as [|b bindings IH]; intros seen names; cbn [binding_names].
  - intros [= <-]. split; [constructor|]. intros name. split; [by intros ?%elem_of_nil|by intros [?%elem_of_nil _]].
  - rewrite reject_if_bind. intros [_ H]. case_bool_decide as Hb.
    + apply IH in H as [Hnd H]. split; [done|]. intros name. rewrite H, elem_of_cons. set_solver.
    + apply bind_Ok in H as (rest & [Hnd H]%IH & [= <-]). split; [constructor; [rewrite H; set_solver|done]|].
      intros name. rewrite elem_of_cons, H, elem_of_cons. destruct (decide (name = b)) as [->|]; set_solver.
Qed.

(** The bindings that are sent make the content that is asked for. *)
Lemma stage_bindings_names r names : binding_name <$> stage_bindings r names = inherited r names ++ sortedMapKeys (st_Secrets r).
Proof. unfold stage_bindings. rewrite fmap_app, <-!list_fmap_compose. cbn. by rewrite !list_fmap_id. Qed.

Lemma elem_of_inherited r names name : (name ∈ inherited r names) ↔ (st_Secrets r !! name = None ∧ name ∉ st_RemovedNames r) ∧ name ∈ names.
Proof. unfold inherited. by rewrite list_elem_of_filter. Qed.

Lemma stage_bindings_once r names : NoDup names → NoDup (binding_name <$> stage_bindings r names).
Proof.
  intros Hnd. rewrite stage_bindings_names. apply NoDup_app. split_and!; [by apply NoDup_filter| |apply NoDup_sortedMapKeys].
  intros name [[Hno _] _]%elem_of_inherited [v Ev]%elem_of_sortedMapKeys. congruence.
Qed.

Lemma stage_bindings_build r names content content' w : wk_versions w !! st_PriorVersionID r = Some content → has_names content names →
  built w (stage_bindings r names) content' → content' = staged_content r content.
Proof.
  intros Hc Hn [Hval Hno]. apply map_eq. intros name. unfold staged_content. rewrite lookup_union.
  destruct (st_Secrets r !! name) as [v|] eqn:Es.
  - change (content' !! name) with (content' !! binding_name (SecretText name v)). rewrite Hval.
    + cbn. by destruct (filter _ content !! name).
    + unfold stage_bindings. apply elem_of_app. right. apply list_elem_of_fmap. exists name. rewrite Es. split; [done|]. by rewrite elem_of_sortedMapKeys, Es.
  - rewrite (left_id_L None _). destruct (decide (name ∈ inherited r names)) as [Hi|Hi].
    + pose proof Hi as [[_ Hr] Hin]%elem_of_inherited. change (content' !! name) with (content' !! binding_name (Inherit name (st_PriorVersionID r))). rewrite Hval.
      * cbn. rewrite Hc. cbn. symmetry. apply Hn in Hin as [v Ev]. rewrite Ev. by apply map_lookup_filter_Some.
      * unfold stage_bindings. apply elem_of_app. left. by apply list_elem_of_fmap_2 with (f:=λ name, Inherit name (st_PriorVersionID r)).
    + rewrite Hno.
      * symmetry. apply map_lookup_filter_None. destruct (content !! name) as [v|] eqn:Ec; [|by left]. right. intros v' _ Hr. apply Hi, elem_of_inherited.
        split; [done|]. apply Hn. by rewrite Ec.
      * rewrite stage_bindings_names, elem_of_app. intros [?|[v Ev]%elem_of_sortedMapKeys]; [done|congruence].
Qed.

Section Service.
Context {codec : CloudflareCodec} (api : HTTPAPI) (own : WorkerTarget).

Definition version_request (id : string) : HttpRequest := new_request api "GET" (script_path own +:+ "/versions/" +:+ PathEscape id) "" "".
Definition deployments_request : HttpRequest := new_request api "GET" (script_path own +:+ "/deployments") "" "".
Definition upload_request (boundary : string) (bs : list binding) : HttpRequest :=
  new_request api "POST" (upload_path own) ("multipart/form-data; boundary=" +:+ boundary)
    (version_upload api boundary (metadata_json (ha_moduleName api) bs)).
Definition deploy_request (id : string) (force : bool) : HttpRequest :=
  new_request api "POST" (deploy_path own force) "application/json" (deployment_json id).

(** How the service is documented to behave, for a worker that nobody else changes: reads
    change nothing and tell the bindings of a version and what is deployed; an upload makes
    one new version of its bindings or nothing, a deployment deploys the version or does
    nothing, and a success is reported only of what was done. *)
Record documented (serves : HttpRequest → Worker → option HttpReply → Worker → Prop) : Prop := {
  doc_reads : ∀ rq w reply w', hq_Method rq = "GET" → serves rq w reply w' → w' = w;
  doc_version : ∀ id w reply w' names, cloudflareID id = true → serves (version_request id) w reply w' → read_reply version_of_json reply = inl (true, names) →
    ∃ content, wk_versions w !! id = Some content ∧ has_names content names;
  doc_deployments : ∀ w reply w' versions rest, serves deployments_request w reply w' →
    read_reply deployments_of_json reply = inl (true, versions :: rest) → wk_deployed w = versions;
  doc_upload : ∀ boundary bs w reply w', serves (upload_request boundary bs) w reply w' → NoDup (binding_name <$> bs) →
    w' = w ∧ (∀ id, id ≠ "" → read_reply id_of_json reply ≠ inl (true, id)) ∨
    ∃ id content, wk_versions w !! id = None ∧ built w bs content ∧ w' = add_version id content w ∧
      ∀ id', id' ≠ "" → read_reply id_of_json reply = inl (true, id') → id' = id;
  doc_deploy : ∀ id force w reply w', serves (deploy_request id force) w reply w' →
    w' = w ∧ (∀ deployment, deployment ≠ "" → read_reply id_of_json reply ≠ inl (true, deployment)) ∨
    is_Some (wk_versions w !! id) ∧ w' = deploy id w;
}.

Context (serves : HttpRequest → Worker → option HttpReply → Worker → Prop).

Definition remote_answers X (c : remote X) : Worker → X → Worker → Prop :=
  match c in remote X return Worker → X → Worker → Prop with
  | Send rq => λ w reply w', serves rq w reply w'
  | RandomBoundary => λ w _ w', w' = w
  | Clock => λ w _ w', w' = w
  end.

Hypothesis docs : documented serves.
Abbreviation swp := (swp remote_answers (λ _, True)).

Lemma swp_request {A} method path contentType body (decode : string → option A) w (Q : Worker → A + AdapterError → Prop) :
  (∀ reply w', serves (new_request api method path contentType body) w reply w' → Q w' (read_reply decode reply)) →
  swp (request api method path contentType body decode) w Q Q.
Proof. intros HQ. split; [done|]. intros reply w' Hs. by apply HQ. Qed.

Lemma swp_get {A} path (decode : string → option A) w (Q : Worker → A + AdapterError → Prop) :
  (∀ reply, serves (new_request api "GET" path "" "") w reply w → Q w (read_reply decode reply)) → swp (get api path decode) w Q Q.
Proof using docs. intros HQ. apply swp_request. intros reply w' Hs. pose proof (doc_reads _ docs (new_request api "GET" path "" "") _ _ _ eq_refl Hs) as ->. by apply HQ. Qed.

Lemma names_spec id w (Q : Worker → list string + AdapterError → Prop) : (∀ e, Q w (inr e)) →
  (∀ names content, wk_versions w !! id = Some content → has_names content names → NoDup names → Q w (inl names)) →
  swp (VersionBindingNames api own id) w Q Q.
Proof using docs.
  intros Herr Hok. unfold VersionBindingNames. destruct (_ || _) eqn:Hv; [apply Herr|]. apply orb_false_iff in Hv as [_ Hv%negb_false_iff].
  apply (swp_and_then _ _ _ _ _ (λ w' r, w' = w ∧ ∀ names, r = inl (true, names) → ∃ content, wk_versions w !! id = Some content ∧ has_names content names)).
  - apply swp_get. intros reply Hs. split; [done|]. intros names E. by eapply (doc_version _ docs).
  - intros w' [[] names] [-> H]; cbn; [|apply Herr]. destruct (H names eq_refl) as (content & Hc & Hn).
    destruct (binding_names names ∅) as [l|] eqn:E; cbn; [|apply Herr]. apply binding_names_Ok in E as [Hnd Hl].
    apply (Hok _ content); [done| |by rewrite sort_strings_perm]. intros name. rewrite sort_strings_perm, Hl, (Hn name). set_solver.
  - intros w' e [-> _]. apply Herr.
Qed.

Lemma identity_spec w (Q : Worker → unit + AdapterError → Prop) accountID : (∀ r, Q w r) → swp (API_Identity api accountID) w Q Q.
Proof using docs.
  intros HQ. unfold API_Identity. destruct (negb _); [apply HQ|]. apply (swp_and_then _ _ _ _ _ (λ w' _, w' = w)).
  - by apply swp_get.
  - intros w' x ->. destruct (_ || _); apply HQ.
  - intros w' e ->. apply HQ.
Qed.

Lemma inspect_spec w (Q : Worker → WorkerSnapshot + AdapterError → Prop) : (∀ e, Q w (inr e)) →
  (∀ snapshot content, same_worker snapshot own = true → live w = Some (ws_PriorVersionID snapshot) →
     wk_versions w !! ws_PriorVersionID snapshot = Some content → has_names content (ws_BindingNames snapshot) → Q w (inl snapshot)) →
  swp (API_Inspect api own) w Q Q.
Proof using docs.
  intros Herr Hok. unfold API_Inspect. destruct (validateCloudflareTarget own); cbn [locally]; [|apply Herr].
  apply (swp_and_then _ _ _ _ _ (λ w' _, w' = w)); [done| |by intros w' e ->]. intros w1 [] ->.
  apply (swp_and_then _ _ _ _ _ (λ w' _, w' = w)); [by apply identity_spec| |by intros w' e ->]. intros w1 [] ->.
  apply (swp_and_then _ _ _ _ _ (λ w' _, w' = w)); [by apply swp_get| |by intros w' e ->]. intros w1 zone ->.
  destruct (_ || _); [apply Herr|].
  apply (swp_and_then _ _ _ _ _ (λ w' r, w' = w ∧ ∀ versions, r = inl versions → wk_deployed w = versions)); [| |by intros w' e [-> _]].
  - unfold deployments. apply (swp_and_then _ _ _ _ _ (λ w' r, w' = w ∧ ∀ versions rest, r = inl (true, versions :: rest) → wk_deployed w = versions)).
    + apply swp_get. intros reply Hs. split; [done|]. intros versions rest E. by eapply (doc_deployments _ docs).
    + intros w1 [[] [|versions rest]] [-> H]; cbn; [by split| |by split..]. split; [done|]. intros ? [= <-]. by eapply H.
    + intros w1 e [-> _]. by split.
  - intros w1 versions [-> H]. specialize (H versions eq_refl). destruct (fully_deployed versions) as [id|] eqn:E; [|apply Herr].
    apply (swp_and_then _ _ _ _ _ (λ w' r, w' = w ∧ ∀ names, r = inl names → ∃ content, wk_versions w !! id = Some content ∧ has_names content names)).
    + apply names_spec; [by intros e|]. intros names content Hc Hn _. split; [done|]. intros ? [= <-]. by exists content.
    + intros w1 names [-> Hn]. destruct (Hn names eq_refl) as (content & Hc & Hn').
      apply (Hok _ content); [|by unfold live; rewrite H|done|done]. unfold same_worker. cbn. by rewrite !String.eqb_refl.
    + intros w1 e [-> _]. apply Herr.
Qed.

Lemma stage_spec r w (Q : Worker → string + AdapterError → Prop) : st_Target r = own → (∀ e, Q w (inr e)) →
  (∀ id w' x, stages r w id w' → (∀ id', x = inl id' → id' = id) → Q w' x) → swp (API_Stage api r) w Q Q.
Proof using docs.
  intros Hown Herr Hok. unfold API_Stage. rewrite Hown. destruct (validateCloudflareTarget own); cbn [locally]; [|apply Herr].
  apply (swp_and_then _ _ _ _ _ (λ w' _, w' = w)); [done| |by intros w' e ->]. intros w1 [] ->. destruct (negb _ || _ || _); [apply Herr|].
  apply (swp_and_then _ _ _ _ _ (λ w' x, w' = w ∧ ∀ names, x = inl names → ∃ content, wk_versions w !! st_PriorVersionID r = Some content ∧
    has_names content names ∧ NoDup names)); [| |by intros w' e [-> _]].
  { apply names_spec; [by intros e|]. intros names content Hc Hn Hnd. split; [done|]. intros ? [= <-]. by exists content. }
  intros w1 names [-> H]. destruct (H names eq_refl) as (content & Hc & Hn & Hnd). destruct (negb _); [apply Herr|]. destruct (negb _); [apply Herr|].
  apply swp_ask; [done|]. intros random w1 ->.
  apply (swp_and_then _ _ _ _ _ (λ w' x, w' = w ∧ (∀ id, id ≠ "" → x ≠ inl (true, id)) ∨ ∃ id, stages r w id w' ∧ ∀ id', id' ≠ "" → x = inl (true, id') → id' = id)).
  - apply swp_request. intros reply w' Hs. destruct (doc_upload _ docs _ _ _ _ _ Hs) as [[-> Hno]|(id & content' & Hf & Hb & -> & Hid)];
      [by apply stage_bindings_once|by left|]. right. exists id. split; [|done].
    exists content. split_and!; [done|done|]. by rewrite (stage_bindings_build _ _ _ _ _ Hc Hn Hb).
  - intros w' [[] id'] Hx; cbn.
    + destruct (nonempty id') eqn:He; cbn; [apply nonempty_true in He|].
      * destruct Hx as [[_ Hno]|(id & Hst & Hid)]; [by destruct (Hno id')|]. apply (Hok id); [done|]. intros ? [= <-]. by apply Hid.
      * destruct Hx as [[-> _]|(id & Hst & _)]; [apply Herr|by apply (Hok id)].
    + destruct Hx as [[-> _]|(id & Hst & _)]; [apply Herr|by apply (Hok id)].
  - intros w' e [[-> _]|(id & Hst & _)]; [apply Herr|by apply (Hok id)].
Qed.

Lemma deploy_spec id force w (Q : Worker → string + AdapterError → Prop) : (∀ e, Q w (inr e)) →
  (∀ x, is_Some (wk_versions w !! id) → Q (deploy id w) x) → swp (API_Deploy api own id force) w Q Q.
Proof using docs.
  intros Herr Hok. unfold API_Deploy. destruct (_ || _); [apply Herr|].
  apply (swp_and_then _ _ _ _ _ (λ w' x, w' = w ∧ (∀ dep, dep ≠ "" → x ≠ inl (true, dep)) ∨ is_Some (wk_versions w !! id) ∧ w' = deploy id w)).
  - apply swp_request. intros reply w' Hs. by apply (doc_deploy _ docs) in Hs.
  - intros w' [[] dep] Hx; cbn.
    + destruct (nonempty dep) eqn:He; cbn; [apply nonempty_true in He|].
      * destruct Hx as [[_ Hno]|[Hv ->]]; [by destruct (Hno dep)|by apply Hok].
      * destruct Hx as [[-> _]|[Hv ->]]; [apply Herr|by apply Hok].
    + destruct Hx as [[-> _]|[Hv ->]]; [apply Herr|by apply Hok].
  - intros w' e [[-> _]|[Hv ->]]; [apply Herr|by apply Hok].
Qed.

(** The API over HTTP keeps the contract. *)
Lemma http_keeps_contract X (c : adapter_call X) w :
  swp (over_http api X c) w (λ w' x, adapter_contract own X c w x w') (λ w' x, adapter_contract own X c w x w').
Proof using docs.
  destruct c as [X []|]; cbn [over_http http_api adapter_contract api_contract].
  - by apply identity_spec.
  - destruct (decide (target = own)) as [->|Hne].
    + apply inspect_spec; [by intros e _|]. intros snapshot content H1 H2 H3 H4 _. split_and!; [done|done|by exists content].
    + apply (swp_mono _ _ _ _ (λ _ _, True) _ (λ _ _, True)); [by intros ? ? _ ?..|apply swp_true].
  - destruct (decide (st_Target request = own)) as [E|Hne].
    + apply stage_spec; [done|by intros e _; left|]. intros id w' [id'|e] Hst Hid _; [|right; by exists id]. by rewrite (Hid id' eq_refl).
    + apply (swp_mono _ _ _ _ (λ _ _, True) _ (λ _ _, True)); [by intros ? ? _ ?..|apply swp_true].
  - destruct (decide (target = own)) as [->|Hne].
    + apply names_spec; [by intros e _|]. intros names content H1 H2 _ _. split; [done|]. by exists content.
    + apply (swp_mono _ _ _ _ (λ _ _, True) _ (λ _ _, True)); [by intros ? ? _ ?..|apply swp_true].
  - destruct (decide (target = own)) as [->|Hne].
    + apply deploy_spec; [by intros e _; right; split; [|exists e]|]. intros x Hv _. by left.
    + apply (swp_mono _ _ _ _ (λ _ _, True) _ (λ _ _, True)); [by intros ? ? _ ?..|apply swp_true].
  - split; [done|]. by intros t w' ->.
Qed.
End Service.

(** ** The adapter *)

(** The new version is the old one, with what the requests ask for. *)
Definition as_requested (requests : list WriteRequest) (content content' : gmap string string) : Prop :=
  (∀ r, r ∈ requests → wr_Operation r = "upsert" ∨ wr_Operation r = "revoke") ∧
  (∀ r, r ∈ requests → wr_Operation r = "upsert" → content' !! wr_Name r = Some (wr_secret r)) ∧
  (∀ r, r ∈ requests → (∀ r', r' ∈ requests → wr_Name r' = wr_Name r → wr_Operation r' = "revoke") → content' !! wr_Name r = None) ∧
  (∀ name, (name ∉ wr_Name <$> requests) → content' !! name = content !! name).
Definition staged (requests : list WriteRequest) (w : Worker) (id : string) (w' : Worker) : Prop :=
  ∃ prior content content', live w = Some prior ∧ wk_versions w !! prior = Some content ∧ wk_versions w !! id = None ∧
    w' = add_version id content' w ∧ as_requested requests content content'.

Section Batch.
Context (adapter : option Adapter) (own : WorkerTarget).

Lemma secrets_spec requests secrets : each_with (stage_request adapter own) requests ∅ = Ok secrets →
  (∀ r, r ∈ requests → wr_Operation r = "upsert" ∨ wr_Operation r = "revoke") ∧
  ∀ name v, secrets !! name = Some v ↔ ∃ r, r ∈ requests ∧ wr_Operation r = "upsert" ∧ wr_Name r = name ∧ wr_secret r = v.
Proof.
  intros H. apply (each_with_ind (λ seen (secrets : gmap string string), (∀ r, r ∈ seen → wr_Operation r = "upsert" ∨ wr_Operation r = "revoke") ∧
    ∀ name v, secrets !! name = Some v ↔ ∃ r, r ∈ seen ∧ wr_Operation r = "upsert" ∧ wr_Name r = name ∧ wr_secret r = v) _ _ _ _ H).
  - split; [by intros r ?%elem_of_nil|]. intros name v. split; [by intros ?%lookup_empty_Some|by intros (r & ?%elem_of_nil & _)].
  - intros seen r s s' _ [Hop Hs]. unfold stage_request. rewrite !reject_if_bind. intros (Hbad & Hdup & Hr).
    apply bool_decide_eq_false in Hdup. apply orb_false_iff in Hbad as [[[[_ Hbad]%orb_false_iff _]%orb_false_iff _]%orb_false_iff _].
    assert (Hr' : wr_Operation r = "upsert" ∨ wr_Operation r = "revoke").
    { apply andb_false_iff in Hbad as [E|E]; apply negb_false_iff, String.eqb_eq in E; [by left|by right]. }
    split; [intros r' [Hin| ->%list_elem_of_singleton]%elem_of_app; [by apply Hop|done]|].
    intros name v. destruct (String.eqb_spec (wr_Operation r) "revoke") as [E|E]; injection Hr as <-.
    + rewrite Hs. split; [intros (r' & Hin & H'); exists r'; split; [apply elem_of_app; by left|done]|].
      intros (r' & [Hin| ->%list_elem_of_singleton]%elem_of_app & Hu & H'); [by exists r'|congruence].
    + assert (Hu : wr_Operation r = "upsert") by (destruct Hr'; [done|contradiction]). rewrite lookup_insert_Some, Hs. split.
      * intros [[<- <-]|[Hne (r' & Hin & H')]]; [exists r; split; [apply elem_of_app; right; by left|done]|exists r'; split; [apply elem_of_app; by left|done]].
      * intros (r' & [Hin| ->%list_elem_of_singleton]%elem_of_app & Hu' & <- & <-); [right|by left].
        assert (Hin' : s !! wr_Name r' = Some (wr_secret r')) by (apply Hs; by exists r'). split; [intros E'; apply Hdup; by rewrite E', Hin'|by exists r'].
Qed.

Lemma elem_of_removed_names requests name : (name ∈ removed_names requests) ↔ ∃ r, r ∈ requests ∧ wr_Operation r = "revoke" ∧ wr_Name r = name.
Proof. unfold removed_names. rewrite sort_strings_perm, list_elem_of_fmap. setoid_rewrite list_elem_of_filter. naive_solver. Qed.

Lemma staged_as_requested requests secrets prior content : each_with (stage_request adapter own) requests ∅ = Ok secrets →
  as_requested requests content (staged_content {| st_Target := own; st_PriorVersionID := prior; st_Secrets := secrets; st_RemovedNames := removed_names requests |} content).
Proof.
  intros [Hop Hs]%secrets_spec. unfold staged_content. cbn [st_Secrets st_RemovedNames].
  assert (Hnone : ∀ name, (∀ r, r ∈ requests → wr_Name r = name → wr_Operation r = "revoke") → secrets !! name = None).
  { intros name H. destruct (secrets !! name) as [v|] eqn:E; [|done]. apply Hs in E as (r & Hin & Hu & Hn & _). specialize (H r Hin Hn). congruence. }
  split_and!; [exact Hop|..].
  - intros r Hin Hu. apply lookup_union_Some_l, Hs. by exists r.
  - intros r Hin H. rewrite lookup_union, Hnone by done. rewrite (left_id_L None _). apply map_lookup_filter_None. right. intros v _ Hr. apply Hr, elem_of_removed_names.
    exists r. by split_and!; [|apply H|].
  - intros name Hno. assert (Hr : ∀ r, r ∈ requests → wr_Name r ≠ name) by (intros r Hin <-; apply Hno; by apply list_elem_of_fmap_2).
    rewrite lookup_union, Hnone by (intros r Hin E; by destruct (Hr r Hin)). rewrite (left_id_L None _).
    destruct (content !! name) as [v|] eqn:E; [|apply map_lookup_filter_None; by left]. apply map_lookup_filter_Some. split; [done|]. cbn.
    intros (r & Hin & _ & Hn)%elem_of_removed_names. by destruct (Hr r Hin).
Qed.
End Batch.

(** The search in a sorted list finds what is there. *)
Lemma SearchStrings_spec l name : StronglySorted (λ a b, str_lt b a = false) l →
  (match l !! SearchStrings l name with Some found => String.eqb found name | None => false end) = true ↔ name ∈ l.
Proof.
  induction 1 as [|first rest Hs IH Hall]; cbn [SearchStrings]; [split; [done|by intros ?%elem_of_nil]|].
  destruct (str_lt first name) eqn:E.
  - change ((first :: rest) !! S (SearchStrings rest name)) with (rest !! SearchStrings rest name). rewrite IH, elem_of_cons. split; [by right|].
    intros [->|]; [|done]. by rewrite str_lt_irrefl in E.
  - cbn. rewrite String.eqb_eq, elem_of_cons. split; [by left|]. intros [->|Hin]; [done|]. rewrite Forall_forall in Hall.
    by apply str_lt_total; [|apply Hall].
Qed.

Lemma presence_of_spec names name : presence_of names name = if decide (name ∈ names) then PresencePresent else PresenceAbsent.
Proof.
  assert (Hin : (name ∈ sort_strings names) ↔ name ∈ names) by by rewrite sort_strings_perm.
  unfold presence_of. pose proof (SearchStrings_spec (sort_strings names) name (sort_strings_sorted names)) as H. rewrite Hin in H. clear Hin.
  destruct (sort_strings names !! _) as [found|]; [destruct (String.eqb found name)|]; case_decide as Hn; try done; [by destruct Hn; apply H|by apply H in Hn..].
Qed.

Lemma ready_Ok a target : ready (Some a) = Ok target → target = ad_Target a.
Proof. unfold ready. rewrite reject_if_bind. by intros [_ [= <-]]. Qed.
Lemma validateTarget_Ok a given target : validateTarget (Some a) given = Ok target → target = ad_Target a.
Proof. unfold validateTarget. intros (t & ->%ready_Ok & H)%bind_Ok. apply reject_if_bind in H as [_ H]. by injection H. Qed.

Lemma swp_locally {C S A} (answers : ∀ X, C X → S → X → S → Prop) inv (r : result A) s (Q : S → A + AdapterError → Prop) :
  (∀ msg, r = Err msg → Q s (inr (Untyped msg))) → (∀ x, r = Ok x → Q s (inl x)) → swp answers inv (locally r) s Q Q.
Proof. intros Herr Hok. destruct r; cbn; [by apply Hok|by apply Herr]. Qed.

(** The presence that is expected of a binding, and the one that a version has. *)
Definition expected_presence (request : VerifyRequest) : Presence :=
  if bool_decide (vr_ExpectedPresence request = PresenceOther "") then PresencePresent else vr_ExpectedPresence request.
Definition shown (content : gmap string string) (name : string) : Presence :=
  match content !! name with Some _ => PresencePresent | None => PresenceAbsent end.

(** *** The operations that read

    They leave the collaborators as they are, whatever these are besides the version API
    and the clock. *)
Section Reading.
Context {C : Type → Type} {calls : AdapterCalls C} {S : Type} (view : S → Worker) (answers : ∀ X, C X → S → X → S → Prop) (inv : S → Prop) (a : Adapter).
Abbreviation own := (ad_Target a).
Hypothesis inspects : ∀ s x s', answers _ (call_api (ApiInspect own)) s x s' → s' = s ∧ api_contract own _ (ApiInspect own) (view s) x (view s).
Hypothesis lists : ∀ id s x s', answers _ (call_api (ApiVersionBindingNames own id)) s x s' → s' = s ∧ api_contract own _ (ApiVersionBindingNames own id) (view s) x (view s).
Hypothesis clock : ∀ s t s', answers _ call_now s t s' → s' = s.
Abbreviation swp := (swp answers inv).

Lemma swp_now s (Q : S → string + AdapterError → Prop) : inv s → (∀ t, Q s (inl t)) → swp now s Q Q.
Proof using clock. intros Hi HQ. apply swp_ask; [done|]. intros t s' ->%clock. apply HQ. Qed.

Lemma inspect_adapter_spec target s (Q : S → MetadataState + AdapterError → Prop) : inv s → (∀ e, Q s (inr e)) →
  (∀ state, live (view s) = Some (ms_Revision state) → is_Some (wk_versions (view s) !! ms_Revision state) → Q s (inl state)) →
  swp (Inspect (Some a) target) s Q Q.
Proof using inspects.
  intros Hi Herr Hok. unfold Inspect. apply (swp_and_then _ _ _ _ _ (λ s' x, s' = s ∧ ∀ t, x = inl t → t = own)); [| |by intros s' e [-> _]].
  { apply swp_locally; [done|]. intros t Ht. split; [done|]. intros ? [= <-]. by eapply validateTarget_Ok. }
  intros s1 t [-> Ht]. rewrite (Ht t eq_refl). clear Ht t.
  apply (swp_and_then _ _ _ _ _ (λ s' x, s' = s ∧ ∀ snapshot, x = inl snapshot → live (view s) = Some (ws_PriorVersionID snapshot) ∧
    is_Some (wk_versions (view s) !! ws_PriorVersionID snapshot))); [| |by intros s' e [-> _]].
  { split; [done|]. intros x s' [-> Hc]%inspects. split; [done|]. intros snapshot ->. destruct (Hc eq_refl) as (_ & _ & content & H1 & H2 & _). split; [done|by exists content]. }
  intros s1 snapshot [-> Hs]. destruct (Hs snapshot eq_refl) as [H1 H2]. destruct (negb _); [apply Herr|]. by apply Hok.
Qed.

Definition verified (request : VerifyRequest) (w : Worker) (ev : VerifyEvidence) : Prop :=
  ∃ content, wk_versions w !! vr_ProviderOperationID request = Some content ∧
    ve_Presence ev = shown content (vr_Name request) ∧ (ve_Result ev = VerificationVerified ↔ expected_presence request = shown content (vr_Name request)).

Lemma verify_adapter_spec request s (Q : S → VerifyEvidence + AdapterError → Prop) : inv s → (∀ e, Q s (inr e)) →
  (∀ ev, verified request (view s) ev → Q s (inl ev)) → swp (Verify (Some a) request) s Q Q.
Proof using lists clock.
  intros Hi Herr Hok. unfold Verify. destruct (validateTarget (Some a) (vr_Target request)) as [t|] eqn:Et; [|apply Herr]. apply validateTarget_Ok in Et as ->.
  destruct (_ || _); [apply Herr|].
  apply (swp_and_then _ _ _ _ _ (λ s' x, s' = s ∧ ∀ names, x = inl names → ∃ content, wk_versions (view s) !! vr_ProviderOperationID request = Some content ∧
    has_names content names)); [| |by intros s' e [-> _]].
  { split; [done|]. intros x s' [-> Hc]%lists. split; [done|]. intros names ->. by destruct (Hc eq_refl). }
  intros s1 names [-> Hn]. destruct (Hn names eq_refl) as (content & Hc & Hnames).
  assert (Hp : presence_of names (vr_Name request) = shown content (vr_Name request)).
  { rewrite presence_of_spec. unfold shown. case_decide as Hin; rewrite (Hnames (vr_Name request)) in Hin.
    - by destruct Hin as [v ->].
    - destruct (content !! _) eqn:E; [|done]. destruct Hin. by eexists. }
  rewrite Hp. apply (swp_and_then _ _ _ _ _ (λ s' _, s' = s)); [by apply swp_now| |by intros s' e ->].
  intros s1 t ->. fold (expected_presence request). case_bool_decide as E; apply Hok; exists content; (split_and!; [done|done|]); cbn.
  - by split.
  - by split; [|intros E'; destruct E].
Qed.
End Reading.

Section Contracted.
Context (a : Adapter).
Abbreviation own := (ad_Target a).
Abbreviation swp := (swp (adapter_contract own) (λ _, True)).

Lemma swp_api {A} (c : version_api (A + AdapterError)) w (Q : Worker → A + AdapterError → Prop) :
  (∀ x w', api_contract own _ c w x w' → Q w' x) → swp (api c) w Q Q.
Proof. intros HQ. split; [done|]. intros x w' Hc. by apply HQ. Qed.

Definition stage_ends (requests : list WriteRequest) (w w' : Worker) (x : WriteEvidence + AdapterError) : Prop :=
  (w' = w ∨ ∃ id, staged requests w id w') ∧ ∀ ev, x = inl ev → staged requests w (we_ProviderOperationID ev) w'.

Lemma stage_adapter_spec requests w : swp (Stage (Some a) requests) w (stage_ends requests w) (stage_ends requests w).
Proof.
  assert (Herr : ∀ e, stage_ends requests w w (inr e)) by (intros e; split; [by left|done]).
  unfold Stage. apply (swp_and_then _ _ _ _ _ (λ w' x, w' = w ∧ ∀ t, x = inl t → t = own)); [| |by intros w' e [-> _]].
  { apply swp_locally; [done|]. intros t Ht. split; [done|]. intros ? [= <-]. by eapply ready_Ok. }
  intros w1 t [-> Ht]. rewrite (Ht t eq_refl). clear Ht t. destruct (_ =? 0); [apply Herr|].
  apply (swp_and_then _ _ _ _ _ (λ w' x, w' = w ∧ ∀ s, x = inl s → ∃ content, live w = Some (ws_PriorVersionID s) ∧
    wk_versions w !! ws_PriorVersionID s = Some content)); [| |by intros w' e [-> _]].
  { apply swp_api. intros x w' Hc. destruct (Hc eq_refl) as [-> Hx]. split; [done|]. intros s ->. destruct Hx as (_ & content & H1 & H2 & _). by exists content. }
  intros w1 s [-> Hs]. destruct (Hs s eq_refl) as (content & Hlive & Hc). destruct (_ || _); [apply Herr|].
  apply (swp_and_then _ _ _ _ _ (λ w' x, w' = w ∧ ∀ secrets, x = inl secrets → each_with (stage_request (Some a) own) requests ∅ = Ok secrets)); [| |by intros w' e [-> _]].
  { apply swp_locally; [done|]. intros secrets E. split; [done|]. by intros ? [= <-]. }
  intros w1 secrets [-> Hsec]. specialize (Hsec secrets eq_refl).
  apply (swp_and_then _ _ _ _ _ (λ w' x, (w' = w ∨ ∃ id, staged requests w id w') ∧ ∀ id, x = inl id → staged requests w id w')).
  - apply swp_api. intros x w' Hcontract. specialize (Hcontract eq_refl).
    assert (Hst : ∀ id w', stages {| st_Target := own; st_PriorVersionID := ws_PriorVersionID s; st_Secrets := secrets; st_RemovedNames := removed_names requests |} w id w' →
      staged requests w id w').
    { intros id w2 (content' & Hc' & Hf & ->). cbn [st_PriorVersionID] in Hc'. assert (content' = content) as -> by congruence.
      exists (ws_PriorVersionID s), content. eexists. split_and!; [done|done|done|reflexivity|]. by eapply staged_as_requested. }
    destruct x as [id|e].
    + apply Hst in Hcontract. split; [right; by exists id|]. by intros ? [= <-].
    + split; [|done]. destruct Hcontract as [->|[id H%Hst]]; [by left|right; by exists id].
  - intros w1 id [Hw1 Hid]. specialize (Hid id eq_refl). destruct (_ || _); [by split|].
    apply (swp_and_then _ _ _ _ _ (λ w' x, w' = w1)); [by apply (swp_now (adapter_contract own)); [by intros ? ? ? ->|..]| |intros w' e ->; by split].
    intros w2 t ->. split; [done|]. by intros ? [= <-].
  - intros w1 e [Hw1 _]. by split.
Qed.
End Contracted.

(** C33: staging isolates what it changes.  Let the service behave as it is documented, and
    nobody else change the worker.  Whatever the network does and however a stage ends, the
    versions that exist keep their bindings, what is deployed stays deployed, and at most
    one version is new; after a success it is the version of the evidence, and it is the
    deployed version with each upserted name set to its value, each revoked name removed
    and every other binding as it was.  The verification of a request against that version,
    at any later time, changes nothing and never answers anything but verified. *)
Theorem staged_versions_are_isolated {codec : CloudflareCodec} (http : HTTPAPI) (a : Adapter) {W} {world : World remote W} (view : W → Worker) serves :
  documented http (ad_Target a) serves →
  (∀ X (c : remote X) w, remote_answers serves X c (view w) (answer X c w).1 (view (answer X c w).2)) →
  ∀ requests w, let '(_, x, w1) := run (interp (over_http http) (Stage (Some a) requests)) w [] in
    wk_deployed (view w1) = wk_deployed (view w) ∧ wk_versions (view w) ⊆ wk_versions (view w1) ∧
    (view w1 = view w ∨ ∃ id, staged requests (view w) id (view w1)) ∧
    ∀ ev, x = inl ev → staged requests (view w) (we_ProviderOperationID ev) (view w1) ∧
      ∀ r w2 vr, r ∈ requests → (∀ r', r' ∈ requests → wr_Name r' = wr_Name r → wr_Operation r' = wr_Operation r) →
        wk_versions (view w1) ⊆ wk_versions (view w2) →
        vr_Name vr = wr_Name r → vr_ProviderOperationID vr = we_ProviderOperationID ev →
        expected_presence vr = (if String.eqb (wr_Operation r) "revoke" then PresenceAbsent else PresencePresent) →
        let '(_, y, w3) := run (interp (over_http http) (Verify (Some a) vr)) w2 [] in
        view w3 = view w2 ∧ ∀ evidence, y = inl evidence → ve_Result evidence = VerificationVerified.
Proof.
  intros docs Hans requests w.
  assert (Hrun : ∀ R (p : fallible adapter_call R) w (Q : Worker → R + AdapterError → Prop), swp (adapter_contract (ad_Target a)) (λ _, True) p (view w) Q Q →
    let '(_, x, w') := run (interp (over_http http) p) w [] in Q (view w') x).
  { intros R p w0 Q Hp. apply (swp_run (remote_answers serves) (λ _, True) view); [exact Hans|].
    apply (swp_interp _ (adapter_contract (ad_Target a)) _ (λ _, True)); [intros X c s _; by apply http_keeps_contract|exact Hp]. }
  pose proof (Hrun _ (Stage (Some a) requests) w _ (stage_adapter_spec a requests (view w))) as Hs.
  destruct (run (interp (over_http http) (Stage (Some a) requests)) w []) as [[past x] w1]. destruct Hs as [Hw1 Hok].
  assert (Hiso : wk_deployed (view w1) = wk_deployed (view w) ∧ wk_versions (view w) ⊆ wk_versions (view w1)).
  { destruct Hw1 as [->|(id & _ & _ & content & _ & _ & Hf & -> & _)]; [done|]. split; [done|]. by apply insert_subseteq. }
  destruct Hiso as [H1 H2]. split_and!; [done|done|done|]. intros ev Hx. specialize (Hok ev Hx). split; [done|].
  intros r w2 vr Hr Hsame Hgrow Hname Hid Hexp.
  pose proof (Hrun _ (Verify (Some a) vr) w2 (λ w' x, w' = view w2 ∧ ∀ ev, x = inl ev → verified vr (view w2) ev)) as Hv.
  specialize (Hv ltac:(apply (verify_adapter_spec (λ w, w)); [by intros id s x' s' H; pose proof (H eq_refl) as [-> _]|by intros s t s' ->|done|by intros e|by intros e H; split; [|intros ? [= <-]]])).
  destruct (run (interp (over_http http) (Verify (Some a) vr)) w2 []) as [[past' y] w3]. destruct Hv as [-> Hv]. split; [done|].
  intros evidence Hy. destruct (Hv evidence Hy) as (found & Hfound & _ & Hres). apply Hres. rewrite Hexp, Hname.
  destruct Hok as (prior & content & content' & _ & _ & _ & Ew1 & Hops & Hup & Hre & _).
  assert (found = content') as ->.
  { rewrite Hid in Hfound. assert (Hin : wk_versions (view w1) !! we_ProviderOperationID ev = Some content') by (rewrite Ew1; apply lookup_insert_eq).
    eapply lookup_weaken in Hin; [|exact Hgrow]. congruence. }
  unfold shown. destruct (Hops r Hr) as [E|E]; rewrite E; cbn.
  - by rewrite (Hup r Hr E).
  - rewrite (Hre r Hr); [done|]. intros r' Hr' En. rewrite <-E. by apply Hsame.
Qed.

(** ** The property, applied *)

Module VersionsDemo.
Definition own : WorkerTarget := {| wt_AccountID := "acc"; wt_ZoneID := "zone"; wt_ScriptName := "shop" |}.
Definition adapter : Adapter := {| ad_API := true; ad_Target := own |}.
Definition http : HTTPAPI := {| ha_token := "token123"; ha_apiURL := "https://api"; ha_moduleName := "worker.js"; ha_module := "export default {}" |}.

(** The bindings are numbered; the other bodies are texts. *)
Definition as_sum (b : binding) : (string * string) + (string * string) := match b with Inherit n v => inl (n, v) | SecretText n t => inr (n, t) end.
#[local] Instance binding_eq_dec : EqDecision binding.
Proof. solve_decision. Defined.
#[local] Instance binding_countable : Countable binding :=
  inj_countable' as_sum (λ x, match x with inl (n, v) => Inherit n v | inr (n, t) => SecretText n t end) ltac:(by intros []).
#[local] Instance codec : CloudflareCodec := {|
  metadata_json _ bs := pretty (Npos (encode bs)); deployment_json id := id;
  id_of_json s := Some (true, s); zone_of_json _ := Some (true, ("zone", "acc"));
  version_of_json s := Some (true, split_on "," s); deployments_of_json s := Some (true, [[{| dv_VersionID := s; dv_Percentage := inject_Z 100 |}]]);
  success_of_json _ := Some true |}.

Definition reply (body : string) : option HttpReply := Some {| hr_Status := 200; hr_Body := Some body |}.
Definition names_of (content : gmap string string) : list string := (map_to_list content).*1.
Definition names_reply (content : gmap string string) : option HttpReply :=
  let text := String.concat "," (names_of content) in
  if decide (split_on "," text = names_of content ∧ slen text ≤ maxReply) then reply text else None.

(** A service for one upload. *)
Definition bindings : list binding := [Inherit "KEEP" "v1"; SecretText "PASSWORD" "s3cret"].
Definition boundary : string := hex "random".
Definition upload : HttpRequest := upload_request http own boundary bindings.
Definition content2 : gmap string string := {["KEEP" := "kept"; "PASSWORD" := "s3cret"]}.
Definition version_of (rq : HttpRequest) (id : string) : Prop := rq = version_request http own id ∧ cloudflareID id = true.
Definition serve (rq : HttpRequest) (w : Worker) : option HttpReply * Worker :=
  match filter (λ p, version_of rq p.1) (map_to_list (wk_versions w)) with
  | (_, content) :: _ => (names_reply content, w)
  | [] =>
      if decide (rq = deployments_request http own) then
        match wk_deployed w with
        | [v] => (if decide (Qnum (dv_Percentage v) = 100 ∧ Qden (dv_Percentage v) = 1%positive ∧ slen (dv_VersionID v) ≤ maxReply)
                  then reply (dv_VersionID v) else None, w)
        | _ => (None, w)
        end
      else if decide (rq = upload ∧ wk_versions w !! "v2" = None ∧ (content ← wk_versions w !! "v1"; content !! "KEEP") = Some "kept")
      then (reply "v2", add_version "v2" content2 w)
      else if decide (hq_URL rq = "https://api/accounts/acc") then (reply "acc", w)
      else if decide (hq_URL rq = "https://api/zones/zone") then (reply "zone", w)
      else (None, w)
  end.
Definition serves (rq : HttpRequest) (w : Worker) (r : option HttpReply) (w' : Worker) : Prop := serve rq w = (r, w').
#[local] Instance world : World remote Worker := λ X c, match c in remote X return Worker → X * Worker with
  | Send rq => serve rq
  | RandomBoundary => λ w, ("random", w)
  | Clock => λ w, (0, w)
  end.

Definition start : Worker := {| wk_versions := {["v1" := {["KEEP" := "kept"; "DEBUG" := "on"]}]};
  wk_deployed := [{| dv_VersionID := "v1"; dv_Percentage := inject_Z 100 |}] |}.
Definition write (operation name secret : string) : WriteRequest :=
  {| wr_Operation := operation; wr_Target := worker_target own; wr_Service := "shop"; wr_ServiceID := "shop"; wr_Name := name;
     wr_IdempotencyKey := ""; wr_secret := secret |}.
Definition requests : list WriteRequest := [write "upsert" "PASSWORD" "s3cret"; write "revoke" "DEBUG" ""].

Example stages_a_version : (run (interp (over_http http) (Stage (Some adapter) requests)) start []).1.2 =
  inl {| we_ProviderOperationID := "v2"; we_CommittedAt := "1970-01-01T00:00:00Z" |}.
Proof. vm_compute. reflexivity. Qed.

(** The demonstration keeps to the documentation. *)
Lemma PathEscape_id value : cloudflareID value = true → PathEscape value = value.
Proof.
  unfold cloudflareID. rewrite !andb_true_iff. intros [_ H]. unfold PathEscape. induction value as [|c value IH]; [done|]. cbn [all_bytes] in H.
  apply andb_true_iff in H as [Hc H]. cbn [map_bytes]. rewrite (IH H). replace (unreserved c) with true; [done|]. symmetry. unfold id_byte in Hc. unfold unreserved.
  rewrite !orb_true_iff, !Ascii.eqb_eq in *. destruct Hc as [[[[]|]| ->]| ->]; auto.
Qed.

Lemma version_request_inj id id' : cloudflareID id = true → cloudflareID id' = true → version_request http own id = version_request http own id' → id = id'.
Proof.
  intros H H' E. apply (f_equal hq_URL) in E. cbn [version_request new_request hq_URL] in E. rewrite (PathEscape_id _ H), (PathEscape_id _ H') in E.
  do 3 (apply string_app_inj in E as [_ E]; [|done]). exact E.
Qed.

Lemma string_app_inj_r (a b c : string) : a +:+ c = b +:+ c → a = b.
Proof.
  intros E. apply (f_equal String.length) in E as Hl. rewrite !string_length_app in Hl.
  by apply string_app_inj in E as [E _]; [|lia].
Qed.

Lemma upload_inj b bs : upload_request http own b bs = upload → bs = bindings.
Proof.
  intros E. assert (Eb : b = boundary).
  { assert (Eb : "multipart/form-data; boundary=" +:+ b = "multipart/form-data; boundary=" +:+ boundary)
      by (apply (f_equal (λ rq, (nth 2 (hq_Headers rq) ("", "")).2)) in E; exact E).
    by apply string_app_inj in Eb as [_ Eb]. }
  subst b. apply (f_equal hq_Body) in E. cbn [upload upload_request new_request hq_Body] in E. unfold version_upload in E.
  apply string_app_inj_r in E. unfold part in E. do 10 (apply string_app_inj in E as [_ E]; [|done]). apply string_app_inj_r in E.
  cbn [metadata_json codec] in E. apply (inj pretty) in E. injection E as E. by apply (inj encode) in E.
Qed.

Lemma only_versions rq w : (∀ id, cloudflareID id = true → rq ≠ version_request http own id) → filter (λ p, version_of rq p.1) (map_to_list (wk_versions w)) = [].
Proof.
  intros H. destruct (filter _ _) as [|[id content] l] eqn:E; [done|]. assert (Hin : (id, content) ∈ filter (λ p, version_of rq p.1) (map_to_list (wk_versions w))) by (rewrite E; by left).
  apply list_elem_of_filter in Hin as [[Hrq Hid] _]. by destruct (H id Hid).
Qed.

Lemma read_names content names : read_reply version_of_json (names_reply content) = inl (true, names) → has_names content names.
Proof.
  unfold names_reply. case_decide as H; [|done]. destruct H as [Hs Hl]. cbn [read_reply reply hr_Status hr_Body]. change ((200 <? 200) || (300 <=? 200)) with false.
  cbn iota. unfold read_limited. rewrite (proj2 (Z.leb_le _ _) Hl). cbn [version_of_json codec]. rewrite Hs. intros [= <-]. intros name. unfold names_of.
  rewrite list_elem_of_fmap. split; [intros ([n v] & -> & Hin%elem_of_map_to_list); by exists v|]. intros [v Ev]. exists (name, v). split; [done|by apply elem_of_map_to_list].
Qed.

Lemma service_is_documented : documented http own serves.
Proof.
  split; unfold serves, serve.
  - intros rq w r w' Hget. destruct (filter _ _) as [|[id content] l]; [|by intros [= _ <-]]. case_decide as Hd.
    { destruct (wk_deployed w) as [|v []]; by intros [= _ <-]. }
    case_decide as Hu; [destruct Hu as [-> _]; discriminate Hget|]. repeat case_decide; by intros [= _ <-].
  - intros id w r w' names Hid. destruct (filter _ _) as [|[id' content] l] eqn:E.
    + rewrite decide_False by (vm_compute; discriminate). rewrite decide_False by (intros [Hrq _]; vm_compute in Hrq; discriminate Hrq).
      rewrite !decide_False by (vm_compute; discriminate). by intros [= <- _].
    + assert (Hin : (id', content) ∈ filter (λ p, version_of (version_request http own id) p.1) (map_to_list (wk_versions w))) by (rewrite E; by left).
      apply list_elem_of_filter in Hin as [[Hrq Hid'] Hin%elem_of_map_to_list]. cbn [fst] in Hrq, Hid'.
      apply version_request_inj in Hrq as <-; [|done..].
      intros [= <- _] Hn%read_names. by exists content.
  - intros w r w' versions rest. rewrite only_versions by (intros id Hid; vm_compute; discriminate). rewrite decide_True by done.
    destruct (wk_deployed w) as [|v [|]]; [by intros [= <- _]| |by intros [= <- _]].
    case_decide as Hl; intros [= <- _]; [|done]. destruct Hl as (Hn & Hd & Hl). cbn [read_reply reply hr_Status hr_Body]. change ((200 <? 200) || (300 <=? 200)) with false.
    cbn iota. unfold read_limited. rewrite (proj2 (Z.leb_le _ _) Hl). cbn [deployments_of_json codec]. intros [= <- _].
    destruct v as [id [num den]]. cbn in *. by subst.
  - intros b bs w r w' Hs Hnd. revert Hs. rewrite only_versions by (intros id Hid E; apply (f_equal hq_Method) in E; discriminate E).
    rewrite decide_False by (intros E; apply (f_equal hq_Method) in E; discriminate E). case_decide as Hu.
    + destruct Hu as (->%upload_inj & Hf & Hk). intros [= <- <-]. right. exists "v2", content2. split_and!; [done| |done|].
      * split.
        -- intros c [-> |[-> |?%elem_of_nil]%elem_of_cons]%elem_of_cons; [|vm_compute; reflexivity|done]. cbn [binding_name binding_value]. rewrite Hk. vm_compute. reflexivity.
        -- intros name Hno. unfold content2. rewrite lookup_insert_ne by (intros <-; apply Hno; by left).
           apply lookup_singleton_None. intros <-. apply Hno. right. by left.
      * intros id' _ [= <-]. done.
    + rewrite !decide_False by (vm_compute; discriminate). intros [= <- <-]. left. split; [done|]. intros id _ ?. discriminate.
  - intros id force w r w' Hs. revert Hs. rewrite only_versions by (intros id' Hid E; apply (f_equal hq_Method) in E; discriminate E).
    rewrite decide_False by (intros E; apply (f_equal hq_Method) in E; discriminate E).
    rewrite decide_False by (intros [E _]; apply (f_equal hq_URL) in E; destruct force; vm_compute in E; discriminate E).
    rewrite !decide_False by (destruct force; vm_compute; discriminate). intros [= <- <-]. left. split; [done|]. intros dep _ ?. discriminate.
Qed.

Lemma staged_versions_are_isolated_witness : ∃ ev w1, (run (interp (over_http http) (Stage (Some adapter) requests)) start []).1.2 = inl ev ∧
  staged requests start (we_ProviderOperationID ev) w1.
Proof.
  destruct (run (interp (over_http http) (Stage (Some adapter) requests)) start []) as [[past x] w1] eqn:E.
  pose proof (staged_versions_are_isolated http adapter (λ w, w) serves service_is_documented) as H.
  specialize (H ltac:(intros X [rq| |] w; [apply surjective_pairing|reflexivity|reflexivity]) requests start). rewrite E in H.
  destruct H as (_ & _ & _ & Hok). destruct x as [ev|e]; [|exfalso; vm_compute in E; discriminate E].
  exists ev, w1. split; [reflexivity|]. exact (proj1 (Hok ev eq_refl)).
Defined.
End VersionsDemo.
