(* ===== verification/CloudflareRelease.v ===== *)
(** The release of a staged Cloudflare version: the commands verify, promote and rollback of
    cmd/envbank/cloudflare.go, as programs over the version API, the store of operations,
    the user, the clock and the health checks.  Flags, the loading of the manifest, the
    unlocking of the vault and what is printed are not part of them. *)
From S2P Require Import Prelude Timestamp Text Secure Provider Duration RolloutPlan RolloutEngine Bundle Template Manifest Origin Cloudflare RolloutValid CloudflareVersions.
From stdpp Require Import options.

(** [strings.EqualFold], and [URL.Hostname]'s tables. *)
Class Folding := { EqualFold : string → string → bool }.

Inductive release_call : Type → Type :=
| Versions {X} (c : version_api X) : release_call X
| Rollout {X} (c : call X) : release_call X
| OpenAdapter (bundle : string) : release_call (result unit)
| CheckHealth (request : HttpRequest) : release_call (option Z)
| Sleep (duration : Z) : release_call unit.
#[export] Instance release_calls : AdapterCalls release_call := {| call_api := @Versions; call_now := Rollout Call.Now |}.

(** A command ends without an error or with one. *)
Abbreviation command A := (Program.flow release_call (option failure) A).
Definition quit {A} (msg : string) : command A := Exit (Some (Plain msg)).
Definition stop_if (c : bool) (msg : string) : command unit := if c then quit msg else mret tt.
Definition given {A} (r : result A) : command A := match r with Ok a => mret a | Err msg => quit msg end.
(** [providerSafeError] *)
Definition given_safely {A} (operation : string) (r : A + AdapterError) : command A :=
  match r with inl a => mret a | inr err => Exit (Some (ProviderFailure (SanitizeError operation err))) end.

Definition targetFromRollout (target : TargetBinding) : result WorkerTarget :=
  match map_to_list (default ∅ (tb_ServiceIDs target)) with
  | [(name, id)] =>
      _ ← reject_if (negb (String.eqb name id)) "Cloudflare Worker script binding is invalid";
      Ok {| wt_AccountID := tb_ProjectID target; wt_ZoneID := tb_EnvironmentID target; wt_ScriptName := name |}
  | _ => Err "Cloudflare rollout target must contain one Worker script"
  end.

(** The loop of [stagedVersion], from the version so far. *)
Fixpoint staged_from (version : string) (items : list OperationAction) : result string :=
  match items with
  | [] => Ok version
  | item :: rest =>
      let id := from_option we_ProviderOperationID "" (oa_WriteEvidence item) in
      _ ← reject_if (negb (nonempty id)) "Cloudflare operation has incomplete staged version evidence";
      if negb (nonempty version) then staged_from id rest
      else _ ← reject_if (negb (String.eqb version id)) "Cloudflare operation contains multiple staged versions";
           staged_from version rest
  end.
Definition stagedVersion (operation : Operation) : result string := staged_from "" (op_Actions operation).

Definition expectedCloudflarePresence (operation : string) : Presence :=
  if String.eqb operation "revoke" then PresenceAbsent else PresencePresent.

Definition release_adapter (own : WorkerTarget) : option Adapter := Some {| ad_API := true; ad_Target := own |}.

(** The verification of one binding of a version. *)
Definition verify_binding (own : WorkerTarget) (operation : Operation) (version msg : string) (item : OperationAction) : command unit :=
  let action := oa_Action item in
  let expected := expectedCloudflarePresence (ac_Operation action) in
  evidence ← enter (Verify (release_adapter own)
    {| vr_Target := providerTarget (op_Target operation); vr_Service := ac_Service action; vr_ServiceID := ac_ServiceID action;
       vr_Name := ac_Name action; vr_WriteKey := ""; vr_ProviderOperationID := version; vr_ExpectedPresence := expected |});
  match (evidence : VerifyEvidence + AdapterError) with
  | inl evidence => stop_if (negb (bool_decide (ve_Presence evidence = expected))) msg
  | inr _ => quit msg
  end.

Definition now_text : command string := t ← ask (Rollout Call.Now); mret (format_rfc3339 t).

(** *** Fields *)

Definition promoted (deployment version now : string) (operation : Operation) : Operation :=
  {| op_Version := op_Version operation; op_ID := op_ID operation; op_PlanID := op_PlanID operation;
     op_PlanDigest := op_PlanDigest operation; op_Bundle := op_Bundle operation;
     op_ManifestDigest := op_ManifestDigest operation; op_SnapshotRevision := op_SnapshotRevision operation;
     op_Provider := op_Provider operation; op_ProviderIdentity := op_ProviderIdentity operation;
     op_ProviderRevision := op_ProviderRevision operation; op_Target := op_Target operation;
     op_Status := StatusPromoted; op_Actions := op_Actions operation; op_CreatedAt := op_CreatedAt operation;
     op_UpdatedAt := now; op_DeploymentID := deployment; op_DeployedVersion := version; op_PromotedAt := now;
     op_RollbackID := op_RollbackID operation; op_RolledBackAt := op_RolledBackAt operation |}.
Definition rolled_back (rollback at_ updated : string) (operation : Operation) : Operation :=
  {| op_Version := op_Version operation; op_ID := op_ID operation; op_PlanID := op_PlanID operation;
     op_PlanDigest := op_PlanDigest operation; op_Bundle := op_Bundle operation;
     op_ManifestDigest := op_ManifestDigest operation; op_SnapshotRevision := op_SnapshotRevision operation;
     op_Provider := op_Provider operation; op_ProviderIdentity := op_ProviderIdentity operation;
     op_ProviderRevision := op_ProviderRevision operation; op_Target := op_Target operation;
     op_Status := StatusRolledBack; op_Actions := op_Actions operation; op_CreatedAt := op_CreatedAt operation;
     op_UpdatedAt := updated; op_DeploymentID := op_DeploymentID operation; op_DeployedVersion := op_DeployedVersion operation;
     op_PromotedAt := op_PromotedAt operation; op_RollbackID := rollback; op_RolledBackAt := at_ |}.

(** *** Health checks *)

(** The settings of the client: the URL of the service, and the credential of Cloudflare
    Access. *)
Record ClientSettings := { cs_BaseURL : string; cs_Access : option (string * string) }.

Section Release.
Context {urls : URLs} {folding : Folding} (settings : ClientSettings).

Definition valid_health_check (check : HealthCheck) : result unit :=
  let weak := "Cloudflare health check requires at least three successes over 30 seconds" in
  match ParseDuration (hc_MinimumDuration check) with
  | None => Err weak
  | Some duration =>
      _ ← reject_if ((hc_Successes check <? 3) || (duration <? 30 * second)) weak;
      match url_Parse (hc_URL check) with
      | None => Err "Cloudflare health check URL is invalid"
      | Some checkURL =>
          _ ← reject_if (negb (String.eqb (u_Scheme checkURL) "https") || negb (nonempty (u_Host checkURL)) || u_User checkURL)
                "Cloudflare health check URL is invalid";
          reject_if (bool_decide (cs_Access settings ≠ None) &&
            match url_Parse (cs_BaseURL settings) with
            | None => true
            | Some base => negb (String.eqb (u_Scheme base) (u_Scheme checkURL)) || negb (EqualFold (u_Host base) (u_Host checkURL))
            end) "Cloudflare Access health check must use the configured EnvBank origin"
      end
  end.

Definition validateCloudflareHealthChecks (checks : list HealthCheck) : result unit :=
  _ ← reject_if (list_len checks =? 0) "Cloudflare promotion requires health checks";
  each_of valid_health_check checks.

Definition health_request (check : HealthCheck) : HttpRequest :=
  {| hq_Method := if nonempty (hc_Method check) then hc_Method check else "GET"; hq_URL := hc_URL check;
     hq_Headers := match cs_Access settings with
                   | Some (id, secret) => [("CF-Access-Client-Id", id); ("CF-Access-Client-Secret", secret)]
                   | None => []
                   end; hq_Body := "" |}.

(** One attempt, after a pause but for the first. *)
Definition health_attempt (check : HealthCheck) (attempt : nat) (_ : unit) : Program.flow release_call (result unit) unit :=
  let duration := default 0 (ParseDuration (hc_MinimumDuration check)) in
  _ ← (if bool_decide (attempt = 0%nat) then mret tt else ask (Sleep (Z.quot duration (hc_Successes check - 1))));
  status ← ask (CheckHealth (health_request check));
  match (status : option Z) with
  | None => Exit (Err "Cloudflare health check request failed")
  | Some status => if status =? hc_ExpectedStatus check then mret tt else Exit (Err "Cloudflare health check returned an unexpected status")
  end.

Definition runCloudflareHealthChecks (checks : list HealthCheck) : Program.flow release_call (result unit) (result unit) :=
  match validateCloudflareHealthChecks checks with
  | Err msg => mret (Err msg)
  | Ok _ =>
      _ ← for_each (λ check, for_each (health_attempt check) (List.seq 0 (Z.to_nat (hc_Successes check)))) checks tt;
      mret (Ok tt)
  end.

(** *** The commands *)

Definition load_plan (operation : Operation) (matches : ProviderPlan → bool) (msg : string) : command ProviderPlan :=
  loaded ← ask (Rollout (Call.LoadPlan (op_PlanID operation)));
  match (loaded : result (ProviderPlan * Z)) with
  | Ok (plan, _) => if operationMatchesPlan operation plan && matches plan then mret plan else quit msg
  | Err _ => quit msg
  end.

Definition validate_snapshot (plan : ProviderPlan) : command unit := r ← ask (Rollout (Call.ValidateSnapshot plan)); given r.
Definition open_adapter (operation : Operation) : command WorkerTarget :=
  own ← given (targetFromRollout (op_Target operation));
  opened ← ask (OpenAdapter (op_Bundle operation));
  _ ← given opened;
  mret own.

Definition confirm (kind : string) (operation : Operation) (count : Z) (msg : string) : command unit :=
  yes ← ask (Rollout (Call.Confirm {| RolloutEngine.cf_Kind := kind; RolloutEngine.cf_Provider := "cloudflare"; RolloutEngine.cf_Bundle := op_Bundle operation;
                                      RolloutEngine.cf_ActionCount := count; RolloutEngine.cf_Destructive := true |}));
  stop_if (negb yes) msg.

Definition verify_item (own : WorkerTarget) (operation : Operation) (item : OperationAction) (_ : unit) : command unit :=
  match oa_WriteEvidence item with
  | None => quit "Cloudflare operation has no staged version evidence"
  | Some evidence => verify_binding own operation (we_ProviderOperationID evidence) "Cloudflare staged version binding verification failed" item
  end.

Definition cloudflareVerify (operationID : string) : command (option failure) :=
  loaded ← ask (Rollout (Call.LoadOperation operationID));
  found ← given loaded;
  let operation := (found : Operation * Z).1 in
  plan ← load_plan operation (λ _, true) "Cloudflare operation does not match its encrypted plan";
  _ ← validate_snapshot plan;
  own ← open_adapter operation;
  _ ← for_each (verify_item own operation) (op_Actions operation) tt;
  mret None.

(** After a health check has failed. *)
Definition roll_back_promotion (own : WorkerTarget) (operation : Operation) (revision : Z) : command (option failure) :=
  undone ← enter (Rollback own (op_ProviderRevision operation));
  match (undone : string + AdapterError) with
  | inr _ => quit "Cloudflare health checks failed and automatic rollback failed"
  | inl rollbackID =>
      at_ ← now_text;
      updated ← now_text;
      saved ← ask (Rollout (Call.SaveOperation (rolled_back rollbackID at_ updated operation) revision));
      match (saved : result Z) with
      | Err _ => quit "Cloudflare health checks failed; rollback succeeded but evidence could not be saved"
      | Ok _ => quit "Cloudflare health checks failed; prior version was restored"
      end
  end.

Definition cloudflarePromote (document : Document) (operationID : string) : command (option failure) :=
  loaded ← ask (Rollout (Call.LoadOperation operationID));
  found ← given loaded;
  let '(operation, revision) := (found : Operation * Z) in
  plan ← load_plan operation (λ _, String.eqb (doc_Digest document) (op_ManifestDigest operation) &&
           String.eqb (mf_Bundle (doc_Manifest document)) (op_Bundle operation) && bool_decide (op_Status operation = StatusReady))
         "Cloudflare promotion evidence does not match the plan, manifest, or ready operation";
  _ ← validate_snapshot plan;
  own ← open_adapter operation;
  state ← enter (Inspect (release_adapter own) (providerTarget (op_Target operation)));
  _ ← match (state : MetadataState + AdapterError) with
      | inl state => stop_if (negb (String.eqb (ms_Revision state) (op_ProviderRevision operation))) "Cloudflare deployed version changed after planning"
      | inr _ => quit "Cloudflare deployed version changed after planning"
      end;
  version ← given (stagedVersion operation);
  _ ← for_each (λ item _, verify_binding own operation version "Cloudflare staged version no longer matches the plan" item) (op_Actions operation) tt;
  let healthChecks := mt_HealthChecks (default no_target (mf_Targets (doc_Manifest document) !! ProviderName)) in
  _ ← given (validateCloudflareHealthChecks healthChecks);
  _ ← confirm "promote" operation (list_len (op_Actions operation)) "Cloudflare promotion cancelled";
  done ← enter (Promote own version);
  deploymentID ← given_safely "promote" done;
  now ← now_text;
  let operation := promoted deploymentID version now operation in
  saved ← ask (Rollout (Call.SaveOperation operation revision));
  match (saved : result Z) with
  | Err err => quit ("Cloudflare version was promoted but evidence could not be saved: " +:+ err)
  | Ok revision =>
      health ← enter (runCloudflareHealthChecks healthChecks);
      match (health : result unit) with
      | Ok _ => mret None
      | Err _ => roll_back_promotion own operation revision
      end
  end.

Definition cloudflareRollback (operationID : string) : command (option failure) :=
  loaded ← ask (Rollout (Call.LoadOperation operationID));
  let missing := "Cloudflare operation has no prior version evidence" in
  found ← match (loaded : result (Operation * Z)) with Ok found => mret found | Err _ => quit missing end;
  let '(operation, revision) := (found : Operation * Z) in
  _ ← stop_if (negb (nonempty (op_ProviderRevision operation))) missing;
  own ← open_adapter operation;
  plan ← load_plan operation (λ _, true) "Cloudflare rollback operation does not match its encrypted plan";
  _ ← validate_snapshot plan;
  inspected ← enter (Inspect (release_adapter own) (providerTarget (op_Target operation)));
  state ← given_safely "inspect" inspected;
  _ ← stop_if (bool_decide (op_Status operation = StatusPromoted) && negb (String.eqb (ms_Revision state) (op_DeployedVersion operation)))
        "Cloudflare deployed version changed after promotion";
  _ ← confirm "rollback" operation 1 "Cloudflare rollback cancelled";
  done ← enter (Rollback own (op_ProviderRevision operation));
  rollbackID ← given_safely "rollback" done;
  now ← now_text;
  saved ← ask (Rollout (Call.SaveOperation (rolled_back rollbackID now now operation) revision));
  match (saved : result Z) with
  | Err err => quit ("Cloudflare rollback succeeded but evidence could not be saved: " +:+ err)
  | Ok _ => mret None
  end.
End Release.

(** The releases of Cloudflare versions are safe: what the commands promote, rollback and
    verify do to the worker and to the stored operation, wherever they stop. *)

(** ** The collaborators *)

Inductive health_event := Checked (request : HttpRequest) (status : option Z) | Slept (duration : Z).

(** The worker, the stored operation, the stored plans, which of them the snapshot still
    has the revisions of, what the user has confirmed, the versions that were
    asked to be deployed and the health checks, the newest first. *)
Record Release := {
  rl_worker : Worker; rl_operation : Operation; rl_confirmed : list string; rl_deploys : list (string * bool); rl_health : list health_event;
  rl_plan : string → ProviderPlan; rl_current : ProviderPlan → bool;
}.

Definition with_worker (w : Worker) (s : Release) : Release :=
  {| rl_worker := w; rl_operation := rl_operation s; rl_confirmed := rl_confirmed s; rl_deploys := rl_deploys s; rl_health := rl_health s;
     rl_plan := rl_plan s; rl_current := rl_current s |}.
Definition with_operation (operation : Operation) (s : Release) : Release :=
  {| rl_worker := rl_worker s; rl_operation := operation; rl_confirmed := rl_confirmed s; rl_deploys := rl_deploys s; rl_health := rl_health s;
     rl_plan := rl_plan s; rl_current := rl_current s |}.
Definition with_confirmed (kind : string) (s : Release) : Release :=
  {| rl_worker := rl_worker s; rl_operation := rl_operation s; rl_confirmed := kind :: rl_confirmed s; rl_deploys := rl_deploys s; rl_health := rl_health s;
     rl_plan := rl_plan s; rl_current := rl_current s |}.
Definition with_deploy (id : string) (force : bool) (s : Release) : Release :=
  {| rl_worker := rl_worker s; rl_operation := rl_operation s; rl_confirmed := rl_confirmed s; rl_deploys := (id, force) :: rl_deploys s; rl_health := rl_health s;
     rl_plan := rl_plan s; rl_current := rl_current s |}.
Definition with_health (new : list health_event) (s : Release) : Release :=
  {| rl_worker := rl_worker s; rl_operation := rl_operation s; rl_confirmed := rl_confirmed s; rl_deploys := rl_deploys s; rl_health := new ++ rl_health s;
     rl_plan := rl_plan s; rl_current := rl_current s |}.

(** The version API keeps its contract, the store gives what it holds and may save without
    saying so; nobody else changes the worker or the operation. *)
Section Answers.
Context (own : WorkerTarget).

Definition version_answers X (c : version_api X) (s : Release) (x : X) (s' : Release) : Prop :=
  ∃ w', api_contract own X c (rl_worker s) x w' ∧
    s' = with_worker w' (match c with ApiDeploy _ id force => with_deploy id force s | _ => s end).

Definition rollout_answers X (c : call X) : Release → X → Release → Prop :=
  match c in RolloutEngine.Call.call X return Release → X → Release → Prop with
  | Call.LoadOperation _ => λ s x s', s' = s ∧ match x with Ok (operation, _) => operation = rl_operation s | Err _ => True end
  | Call.SaveOperation operation _ => λ s x s', s' = with_operation operation s ∨ s' = s ∧ (∃ err, x = Err err)
  | Call.LoadPlan id => λ s x s', s' = s ∧ match x with Ok (plan, _) => plan = rl_plan s id | Err _ => True end
  | Call.ValidateSnapshot plan => λ s x s', s' = s ∧ (x = Ok tt → rl_current s plan = true)
  | Call.Confirm confirmation => λ s (yes : bool) s', s' = if yes then with_confirmed (RolloutEngine.cf_Kind confirmation) s else s
  | _ => λ s _ s', s' = s
  end.

Definition release_answers X (c : release_call X) : Release → X → Release → Prop :=
  match c in release_call X return Release → X → Release → Prop with
  | Versions c => version_answers _ c
  | Rollout c => rollout_answers _ c
  | OpenAdapter _ => λ s _ s', s' = s
  | CheckHealth request => λ s status s', s' = with_health [Checked request status] s
  | Sleep duration => λ s _ s', s' = with_health [Slept duration] s
  end.
End Answers.

Lemma live_nonempty w : live w ≠ Some "".
Proof.
  unfold live, fully_deployed. destruct (wk_deployed w) as [|v [|]]; [done| |done]. destruct (_ && _) eqn:E; [|done].
  apply andb_true_iff in E as [_ E]. intros [= E']. by rewrite E' in E.
Qed.

(** ** The steps of the commands *)

Section Steps.
Context {urls : URLs} {folding : Folding} (settings : ClientSettings) (own : WorkerTarget) (inv : Release → Prop).
Abbreviation swp := (swp (release_answers own) inv).
Abbreviation Ret := (Release → option failure → Prop).

Lemma swp_given {A} (r : result A) s (Ret : Ret) Q : (∀ msg, r = Err msg → Ret s (Some (Plain msg))) → (∀ a, r = Ok a → Q s a) → swp (given r) s Ret Q.
Proof. intros Herr Hok. destruct r; cbn; [by apply Hok|by apply Herr]. Qed.

Lemma swp_given_safely {A} operation (r : A + AdapterError) s (Ret : Ret) Q : (∀ e, Ret s (Some e)) → (∀ a, r = inl a → Q s a) →
  swp (given_safely operation r) s Ret Q.
Proof. intros Herr Hok. destruct r; cbn; [by apply Hok|by apply Herr]. Qed.

Lemma swp_stop_if c msg s (Ret : Ret) (Q : Release → unit → Prop) : (∀ e, Ret s (Some e)) → (c = false → Q s tt) → swp (stop_if c msg) s Ret Q.
Proof. intros Herr Hok. destruct c; cbn; [by apply Herr|by apply Hok]. Qed.

Lemma swp_now_text s (Ret : Ret) Q : inv s → (∀ t, Q s t) → swp now_text s Ret Q.
Proof. intros Hi HQ. apply swp_ask; [done|]. intros t s' ->. apply HQ. Qed.

Lemma swp_load_plan operation matches msg s (Ret : Ret) Q : inv s → (∀ e, Ret s (Some e)) →
  (∀ plan, plan = rl_plan s (op_PlanID operation) → operationMatchesPlan operation plan = true → matches plan = true → Q s plan) → swp (load_plan operation matches msg) s Ret Q.
Proof.
  intros Hi Herr Hok. apply swp_ask; [done|]. intros [[plan revision]|e] s' [-> Hp]; [|apply Herr].
  destruct (operationMatchesPlan operation plan) eqn:E1; cbn; [|apply Herr]. destruct (matches plan) eqn:E2; [by apply Hok|apply Herr].
Qed.

Lemma swp_validate_snapshot plan s (Ret : Ret) Q : inv s → (∀ e, Ret s (Some e)) → (rl_current s plan = true → Q s tt) → swp (validate_snapshot plan) s Ret Q.
Proof. intros Hi Herr Hok. apply swp_ask; [done|]. intros r s' [-> Hr]. apply swp_given; [intros; apply Herr|]. intros [] ->. by apply Hok, Hr. Qed.

Lemma swp_open_adapter operation s (Ret : Ret) Q : inv s → (∀ e, Ret s (Some e)) →
  (∀ target, targetFromRollout (op_Target operation) = Ok target → Q s target) → swp (open_adapter operation) s Ret Q.
Proof.
  intros Hi Herr Hok. apply swp_bind, swp_given; [intros; apply Herr|]. intros target Ht. apply swp_ask; [done|]. intros r s' ->.
  apply swp_bind, swp_given; [intros; apply Herr|]. intros [] _. by apply Hok.
Qed.

Lemma swp_confirm kind operation count msg s (Ret : Ret) Q : inv s → (∀ e, Ret s (Some e)) → Q (with_confirmed kind s) tt →
  swp (confirm kind operation count msg) s Ret Q.
Proof. intros Hi Herr Hok. apply swp_ask; [done|]. intros [] s' ->; [exact Hok|apply Herr]. Qed.

Lemma inspects_release s x s' : release_answers own _ (Versions (ApiInspect own)) s x s' →
  s' = s ∧ api_contract own _ (ApiInspect own) (rl_worker s) x (rl_worker s).
Proof. intros (w' & Hc & ->). destruct (Hc eq_refl) as [-> _]. split; [by destruct s|done]. Qed.
Lemma lists_release id s x s' : release_answers own _ (Versions (ApiVersionBindingNames own id)) s x s' →
  s' = s ∧ api_contract own _ (ApiVersionBindingNames own id) (rl_worker s) x (rl_worker s).
Proof. intros (w' & Hc & ->). destruct (Hc eq_refl) as [-> _]. split; [by destruct s|done]. Qed.

Lemma swp_inspect {B} target s (f : MetadataState + AdapterError → command B) (Ret : Ret) (Q : Release → B → Prop) : inv s →
  (∀ e, swp (f (inr e)) s Ret Q) →
  (∀ state, live (rl_worker s) = Some (ms_Revision state) → swp (f (inl state)) s Ret Q) →
  swp (x ← enter (Inspect (release_adapter own) target); f x) s Ret Q.
Proof.
  intros Hi Herr Hok. apply (swp_call _ _ _ _ _ _ _ (λ s' x, s' = s ∧ ∀ state, x = inl state → live (rl_worker s) = Some (ms_Revision state))).
  - apply (inspect_adapter_spec rl_worker (release_answers own) inv {| ad_API := true; ad_Target := own |}); [apply inspects_release|done|by intros e|].
    intros state Hl _. split; [done|]. by intros ? [= <-].
  - intros s' [state|e] [-> H]; [by apply Hok, H|apply Herr].
Qed.

(** The version has the binding, or not, as the action asks for. *)
Definition binding_as_planned (w : Worker) (version : string) (item : OperationAction) : Prop :=
  ∃ content, wk_versions w !! version = Some content ∧ shown content (ac_Name (oa_Action item)) = expectedCloudflarePresence (ac_Operation (oa_Action item)).

Lemma swp_verify_binding operation version msg item s (Ret : Ret) Q : inv s → (∀ e, Ret s (Some e)) →
  (binding_as_planned (rl_worker s) version item → Q s tt) → swp (verify_binding own operation version msg item) s Ret Q.
Proof.
  intros Hi Herr Hok. unfold verify_binding.
  match goal with |- context [Verify _ ?request] => apply (swp_call _ _ _ _ _ _ _ (λ s' x, s' = s ∧ ∀ ev, x = inl ev → verified request (rl_worker s) ev)) end.
  - apply (verify_adapter_spec rl_worker (release_answers own) inv {| ad_API := true; ad_Target := own |}); [apply lists_release|by intros ? ? ? ->|done|by intros e|].
    intros ev Hv. split; [done|]. by intros ? [= <-].
  - intros s' [ev|e] [-> H]; [|apply Herr]. apply swp_stop_if; [done|]. intros Hp%negb_false_iff%bool_decide_eq_true. apply Hok.
    destruct (H ev eq_refl) as (content & Hc & Hshown & _). exists content. split; [done|]. cbn in Hshown. congruence.
Qed.

Lemma swp_verify_bindings operation version msg items s (Ret : Ret) Q : inv s → (∀ e, Ret s (Some e)) →
  (Forall (binding_as_planned (rl_worker s) version) items → Q s tt) →
  swp (for_each (λ item _, verify_binding own operation version msg item) items tt) s Ret Q.
Proof.
  intros Hi Herr Hok. apply (swp_for_each _ _ _ _ _ _ _ _ (λ rest s' _, s' = s ∧ ∃ seen, items = seen ++ rest ∧ Forall (binding_as_planned (rl_worker s) version) seen)).
  - split; [done|]. by exists [].
  - intros s' [] item rest (-> & seen & -> & Hseen). apply swp_verify_binding; [done|done|]. intros Hb. split; [done|]. exists (seen ++ [item]).
    rewrite <-(assoc_L app). split; [done|]. apply Forall_app. by split; [|constructor].
  - intros s' [] (-> & seen & -> & Hseen). rewrite app_nil_r in Hok. by apply Hok.
Qed.
End Steps.

(** *** Health checks *)

Section Health.
Context {urls : URLs} {folding : Folding} (settings : ClientSettings) (own : WorkerTarget) (inv : Release → Prop).
Abbreviation swp := (swp (release_answers own) inv).

(** What a check that succeeds has done, in order: as many good answers as it asks for,
    with the pauses between them. *)
Definition attempt_log (check : HealthCheck) (attempt : nat) : list health_event :=
  (if bool_decide (attempt = 0%nat) then [] else [Slept (Z.quot (default 0 (ParseDuration (hc_MinimumDuration check))) (hc_Successes check - 1))]) ++
  [Checked (health_request settings check) (Some (hc_ExpectedStatus check))].
Definition check_log (check : HealthCheck) : list health_event := List.seq 0 (Z.to_nat (hc_Successes check)) ≫= attempt_log check.
Definition healthy_log (checks : list HealthCheck) : list health_event := checks ≫= check_log.

Lemma with_health_app new new' s : with_health new (with_health new' s) = with_health (new ++ new') s.
Proof. unfold with_health. cbn. by rewrite (assoc_L app). Qed.

(** The checks so far have only added to the log. *)
Definition unhealthy (s s' : Release) (r : result unit) : Prop := ∃ new, s' = with_health new s ∧ r ≠ Ok tt.

Lemma swp_health_attempt check attempt new s Q : (∀ new, inv (with_health new s)) →
  Q (with_health (reverse (attempt_log check attempt) ++ new) s) tt →
  swp (health_attempt settings check attempt tt) (with_health new s) (unhealthy s) Q.
Proof.
  intros Hinv HQ. unfold health_attempt, attempt_log in *. apply swp_bind.
  assert (Hcheck : ∀ new', Q (with_health (Checked (health_request settings check) (Some (hc_ExpectedStatus check)) :: new') s) tt →
    swp (status ← ask (CheckHealth (health_request settings check)); match (status : option Z) with
         | None => Exit (Err "Cloudflare health check request failed")
         | Some status => if status =? hc_ExpectedStatus check then mret tt else Exit (Err "Cloudflare health check returned an unexpected status") end)
      (with_health new' s) (unhealthy s) Q).
  { intros new' HQ'. apply swp_ask; [apply Hinv|]. intros [status|] s' ->; rewrite with_health_app; [|by eexists].
    cbn. destruct (Z.eqb_spec status (hc_ExpectedStatus check)) as [->|]; [exact HQ'|by eexists]. }
  case_bool_decide; cbn [app] in HQ.
  - apply Hcheck. exact HQ.
  - split; [apply Hinv|]. intros [] s' ->. rewrite with_health_app. apply Hcheck. exact HQ.
Qed.

Lemma swp_health_check check new s Q : (∀ new, inv (with_health new s)) → Q (with_health (reverse (check_log check) ++ new) s) tt →
  swp (for_each (health_attempt settings check) (List.seq 0 (Z.to_nat (hc_Successes check))) tt) (with_health new s) (unhealthy s) Q.
Proof.
  intros Hinv HQ. apply (swp_for_each _ _ _ _ _ _ _ _ (λ rest s' _, ∃ seen, List.seq 0 (Z.to_nat (hc_Successes check)) = seen ++ rest ∧
    s' = with_health (reverse (seen ≫= attempt_log check) ++ new) s)).
  - by exists [].
  - intros s' [] attempt rest (seen & E & ->). apply swp_health_attempt; [done|]. exists (seen ++ [attempt]). rewrite <-(assoc_L app). split; [done|].
    rewrite bind_app, reverse_app, <-(assoc_L app). cbn [mbind list_bind]. by rewrite app_nil_r.
  - intros s' [] (seen & E & ->). rewrite app_nil_r in E. unfold check_log in HQ. by rewrite <-E.
Qed.

Lemma swp_health_checks checks s (Q : Release → result unit → Prop) : (∀ new, inv (with_health new s)) →
  (∀ new e, Q (with_health new s) (Err e)) → Q (with_health (reverse (healthy_log checks)) s) (Ok tt) →
  swp (runCloudflareHealthChecks settings checks) s Q Q.
Proof.
  intros Hinv Herr HQ. unfold runCloudflareHealthChecks. assert (Hs : s = with_health [] s) by (by destruct s).
  destruct (validateCloudflareHealthChecks settings checks); [|rewrite Hs; apply Herr].
  apply swp_bind. apply (swp_mono _ _ _ _ (unhealthy s) _ (λ s' _, s' = with_health (reverse (healthy_log checks)) s)).
  { intros s' [[]|e] (new & -> & He); [done|apply Herr]. } { by intros s' [] ->. }
  apply (swp_for_each _ _ _ _ _ _ _ _ (λ rest s' _, ∃ seen, checks = seen ++ rest ∧ s' = with_health (reverse (healthy_log seen)) s)).
  - by exists [].
  - intros s' [] check rest (seen & E & ->). apply swp_health_check; [done|]. exists (seen ++ [check]). rewrite <-(assoc_L app). split; [done|].
    unfold healthy_log. rewrite bind_app, reverse_app. cbn [mbind list_bind]. by rewrite app_nil_r.
  - intros s' [] (seen & E & ->). rewrite app_nil_r in E. by subst seen.
Qed.
End Health.

(** ** Promotion *)

Section Commands.
Context {urls : URLs} {folding : Folding} (settings : ClientSettings) (own : WorkerTarget) (s0 : Release).
Hypothesis bound : targetFromRollout (op_Target (rl_operation s0)) = Ok own.
Abbreviation operation := (rl_operation s0).
Abbreviation worker := (rl_worker s0).
Abbreviation prior := (op_ProviderRevision operation).
Context (document : Document).
Abbreviation checks := (mt_HealthChecks (default no_target (mf_Targets (doc_Manifest document) !! ProviderName))).

(** The stored plan is the one that the operation was made from, in every part that both
    have, and the snapshot it was made for is still current. *)
Definition planned : Prop := let plan := rl_plan s0 (op_PlanID operation) in operationMatchesPlan operation plan = true ∧ rl_current s0 plan = true.

(** When a version may be released. *)
Record releasable (version : string) : Prop := {
  re_ready : op_Status operation = StatusReady;
  re_manifest : doc_Digest document = op_ManifestDigest operation ∧ mf_Bundle (doc_Manifest document) = op_Bundle operation;
  re_plan : planned;
  re_prior : live worker = Some prior;
  re_version : stagedVersion operation = Ok version ∧ version ≠ "";
  re_bindings : Forall (binding_as_planned worker version) (op_Actions operation);
  re_checks : validateCloudflareHealthChecks settings checks = Ok tt;
}.

(** The three states of a promotion: nothing is changed; the version is deployed, and the
    operation may be stored as promoted; the prior version is deployed again, and the
    operation is stored as promoted and may be stored as rolled back. *)
Definition untouched (s : Release) : Prop := rl_worker s = worker ∧ rl_operation s = operation.
Definition released (version : string) (s : Release) : Prop := releasable version ∧ rl_confirmed s = "promote" :: rl_confirmed s0 ∧
  is_Some (wk_versions worker !! version) ∧ rl_worker s = deploy version worker ∧
  (rl_operation s = operation ∨ ∃ deployment t, rl_operation s = promoted deployment version t operation).
Definition restored (version : string) (s : Release) : Prop := releasable version ∧ rl_confirmed s = "promote" :: rl_confirmed s0 ∧
  rl_worker s = deploy prior worker ∧ ∃ deployment t, rl_operation s = promoted deployment version t operation ∨
    ∃ rollback t1 t2, rl_operation s = rolled_back rollback t1 t2 (promoted deployment version t operation).
Definition promoting (s : Release) : Prop := untouched s ∨ ∃ version, released version s ∨ restored version s.

(** A success means that the version is deployed and stored as promoted, after which every
    health check had all its good answers; when a health check was made and the command
    fails, the prior version was asked to be deployed again. *)
Definition promotion_ends (s : Release) (r : option failure) : Prop := promoting s ∧
  match r with
  | None => ∃ version deployment t, released version s ∧ rl_operation s = promoted deployment version t operation ∧
      rl_health s = reverse (healthy_log settings checks) ++ rl_health s0 ∧ rl_deploys s = (version, false) :: rl_deploys s0
  | Some _ => rl_health s = rl_health s0 ∨ ∃ version, rl_deploys s = (prior, true) :: (version, false) :: rl_deploys s0
  end.

Abbreviation swp := (swp (release_answers own) promoting).

Lemma untouched_ends s e : untouched s → rl_health s = rl_health s0 → promotion_ends s (Some e).
Proof using. intros Hu Hh. split; [by left|by left]. Qed.

(** A deployment is done, or its answer is an error. *)
Lemma swp_deploy {B} inv version force s (f : string + AdapterError → command B) (Ret : Release → option failure → Prop) Q : inv s →
  (∀ e, Program.swp (release_answers own) inv (f (inr e)) (with_deploy version force s) Ret Q) →
  (is_Some (wk_versions (rl_worker s) !! version) → ∀ x, Program.swp (release_answers own) inv (f x) (with_worker (deploy version (rl_worker s)) (with_deploy version force s)) Ret Q) →
  Program.swp (release_answers own) inv (x ← enter (api (ApiDeploy own version force)); f x) s Ret Q.
Proof using.
  intros Hi Herr Hok. split; [done|]. intros x s' (w' & Hc & ->). specialize (Hc eq_refl). destruct Hc as [[Hv ->]|[-> [e ->]]]; [by apply Hok|].
  by apply Herr.
Qed.

(** The part after the health checks have failed. *)
Lemma roll_back_spec version deployment t revision s : prior ≠ "" → released version s → rl_operation s = promoted deployment version t operation →
  rl_deploys s = (version, false) :: rl_deploys s0 → swp (roll_back_promotion own (rl_operation s) revision) s promotion_ends promotion_ends.
Proof using.
  intros Hne Hr Ho Hd. pose proof Hr as (Hre & Hc & Hv & Hw & _). unfold roll_back_promotion. rewrite Ho. cbn [promoted op_ProviderRevision].
  unfold Rollback. rewrite (proj2 (nonempty_true prior) Hne). cbn [negb]. apply swp_deploy; [by right; exists version; left| |].
  - intros e. split; [|right; exists version; cbn; by rewrite Hd]. right. exists version. left. split_and!; [done..|]. by right; exists deployment, t.
  - intros Hp x. rewrite Hw. set (s1 := with_worker _ _). assert (Hs1 : ∀ e, promotion_ends s1 (Some e)).
    { intros e. split; [|right; exists version; cbn; by rewrite Hd]. right. exists version. right. split_and!; [done|done|done|].
      exists deployment, t. by left. }
    destruct x as [rollback|e]; [|apply Hs1]. apply swp_bind, swp_now_text; [apply Hs1, ErrReconciliationRequired|]. intros t1.
    apply swp_bind, swp_now_text; [apply Hs1, ErrReconciliationRequired|]. intros t2.
    apply swp_ask; [apply Hs1, ErrReconciliationRequired|]. intros saved s2 Hsaved.
    enough (∀ e, promotion_ends s2 (Some e)) as Hs2 by (destruct saved; apply Hs2). intros e. destruct Hsaved as [->|[-> _]]; [|apply Hs1].
    split; [|right; exists version; cbn; by rewrite Hd]. right. exists version. right. split_and!; [done|done|done|].
    exists deployment, t. right. by exists rollback, t1, t2.
Qed.

Lemma promote_spec id : swp (cloudflarePromote settings document id) s0 promotion_ends promotion_ends.
Proof using bound.
  assert (Hi : promoting s0) by by left. assert (Herr : ∀ e, promotion_ends s0 (Some e)) by by (intros e; apply untouched_ends).
  unfold cloudflarePromote. apply swp_ask; [done|]. intros loaded s1 [-> Hop].
  apply swp_bind, swp_given; [intros; apply Herr|]. intros [op revision] ->. subst op.
  apply swp_bind, swp_load_plan; [done|done|]. intros plan -> Hplan Hm. apply andb_true_iff in Hm as [[Hm1 Hm2]%andb_true_iff Hm3].
  apply String.eqb_eq in Hm1, Hm2. apply bool_decide_eq_true in Hm3.
  apply swp_bind, swp_validate_snapshot; [done|done|]. intros Hcur. apply swp_bind, swp_open_adapter; [done|done|]. intros target Ht.
  assert (target = own) as -> by congruence. clear Ht.
  apply swp_inspect; [done|by intros e; apply Herr|]. intros state Hlive. apply swp_bind, swp_stop_if; [done|]. intros Hrev%negb_false_iff%String.eqb_eq.
  rewrite Hrev in Hlive. assert (Hne : prior ≠ "") by (intros E; rewrite E in Hlive; by apply live_nonempty in Hlive).
  apply swp_bind, swp_given; [intros; apply Herr|]. intros version Hver.
  apply swp_bind, swp_verify_bindings; [done|done|]. intros Hbind. apply swp_bind, swp_given; [intros; apply Herr|]. intros [] Hck.
  apply swp_bind, swp_confirm; [done|done|]. set (s1 := with_confirmed "promote" s0).
  assert (Hi1 : promoting s1) by by left. assert (Herr1 : ∀ e, promotion_ends s1 (Some e)) by by (intros e; apply untouched_ends).
  unfold Promote. destruct (nonempty version) eqn:Hv; cbn [negb]; [|apply Herr1]. apply nonempty_true in Hv.
  assert (Hre : releasable version) by (split; try done; by split).
  apply swp_deploy; [done| |].
  { intros e. by apply untouched_ends. }
  intros Hvv x. change (rl_worker s1) with worker in *. set (s2 := with_worker _ _).
  assert (Hrel : ∀ op, op = operation ∨ (∃ deployment t, op = promoted deployment version t operation) → ∀ new, released version (with_health new (with_operation op s2)))
    by (intros op Hop new; split_and!; done).
  assert (Hi2 : promoting s2) by (right; exists version; left; apply (Hrel operation (or_introl eq_refl) [])).
  assert (Herr2 : ∀ e, promotion_ends s2 (Some e)) by (intros e; split; [done|by left]).
  apply swp_bind, swp_given_safely; [done|]. intros deployment ->. apply swp_bind, swp_now_text; [done|]. intros t.
  apply swp_ask; [done|]. intros saved s3 Hsaved. set (op := promoted deployment version _ operation).
  assert (Hs3 : promoting (with_operation op s2)) by (right; exists version; left; apply (Hrel op ltac:(right; by eexists _, _) [])).
  destruct saved as [revision'|e].
  2: { destruct Hsaved as [->|[-> _]]; [split; [exact Hs3|by left]|apply Herr2]. }
  destruct Hsaved as [->|[_ [e' ?]]]; [|done]. set (s3 := with_operation op s2) in *.
  apply (swp_call _ _ _ _ _ _ _ (λ s' r, ∃ new, s' = with_health new s3 ∧ (r = Ok tt → new = reverse (healthy_log settings checks)))).
  - apply swp_health_checks; [|by intros new e; exists new|by eexists]. intros new. right. exists version. left. apply (Hrel op). right. by eexists _, _.
  - intros s4 r (new & -> & Hnew). destruct r as [[]|e].
    + specialize (Hnew eq_refl) as ->. split; [right; exists version; left; apply (Hrel op); right; by eexists _, _|].
      eexists version, deployment, _. split_and!; [apply (Hrel op); right; by eexists _, _|reflexivity|done|done].
    + change op with (rl_operation (with_health new s3)). eapply roll_back_spec; [done|apply (Hrel op); right; by eexists _, _|reflexivity|done].
Qed.

(** ** Rollback *)

(** Nothing is changed, or the user has confirmed that the prior version be deployed in
    place of the promoted one, and the operation may be stored as rolled back. *)
Definition rolling (s : Release) : Prop := untouched s ∨ planned ∧
  (op_Status operation = StatusPromoted → live worker = Some (op_DeployedVersion operation)) ∧ rl_confirmed s = "rollback" :: rl_confirmed s0 ∧
  is_Some (wk_versions worker !! prior) ∧ live (rl_worker s) = Some prior ∧ rl_worker s = deploy prior worker ∧
  (rl_operation s = operation ∨ ∃ rollback t, rl_operation s = rolled_back rollback t t operation).
Definition rollback_ends (s : Release) (r : option failure) : Prop := rolling s ∧
  (r = None → live (rl_worker s) = Some prior ∧ ∃ rollback t, rl_operation s = rolled_back rollback t t operation).

Lemma rollback_spec id : Program.swp (release_answers own) rolling (cloudflareRollback id) s0 rollback_ends rollback_ends.
Proof using bound.
  assert (Hi : rolling s0) by by left. assert (Herr : ∀ e, rollback_ends s0 (Some e)) by by intros e.
  unfold cloudflareRollback. apply swp_ask; [done|]. intros [[op revision]|e] s1 [-> Hop]; [|by split]. subst op.
  apply swp_bind. change (Program.swp (release_answers own) rolling (mret (rl_operation s0, revision)) s0 rollback_ends ?Q) with (Q s0 (rl_operation s0, revision)). cbn beta iota.
  apply swp_bind, swp_stop_if; [done|]. intros Hne%negb_false_iff%nonempty_true.
  apply swp_bind, swp_open_adapter; [done|done|]. intros target Ht. assert (target = own) as -> by congruence. clear Ht.
  apply swp_bind, swp_load_plan; [done|done|]. intros plan -> Hplan _. apply swp_bind, swp_validate_snapshot; [done|done|]. intros Hcur.
  apply swp_inspect; [done|by intros e; apply Herr|]. intros state Hlive. apply swp_bind, swp_given_safely; [done|]. intros state' [= <-].
  apply swp_bind, swp_stop_if; [done|]. intros Hst. apply swp_bind, swp_confirm; [by left|done|]. set (s1 := with_confirmed "rollback" s0).
  unfold Rollback. rewrite (proj2 (nonempty_true _) Hne). cbn [negb]. apply swp_deploy; [by left|by intros e; split; [left|]|].
  intros Hp x. change (rl_worker s1) with worker in *. set (s2 := with_worker _ _).
  assert (Hroll : ∀ op, op = operation ∨ (∃ rollback t, op = rolled_back rollback t t operation) → rolling (with_operation op s2)).
  { intros op Hop. right. split_and!; [by split| |done|done|by apply live_deploy|done|done].
    intros E. rewrite (bool_decide_true _ E) in Hst. cbn in Hst. apply negb_false_iff, String.eqb_eq in Hst. congruence. }
  assert (Hi2 : rolling s2) by exact (Hroll operation (or_introl eq_refl)).
  apply swp_bind, swp_given_safely; [done|]. intros rollback ->. apply swp_bind, swp_now_text; [done|]. intros t.
  apply swp_ask; [done|]. intros saved s3 Hsaved.
  assert (Hs3 : rolling s3) by (destruct Hsaved as [->|[-> _]]; [apply Hroll; right; by eexists _, _|done]).
  destruct saved as [r|e]; [|by split]. destruct Hsaved as [->|[_ [e ?]]]; [|done]. split; [done|]. intros _. split; [by apply live_deploy|]. by eexists _, _.
Qed.

(** ** Verification *)

Definition verification_ends (s : Release) (r : option failure) : Prop := s = s0 ∧
  (r = None → planned ∧ Forall (λ item, ∃ evidence, oa_WriteEvidence item = Some evidence ∧ binding_as_planned worker (we_ProviderOperationID evidence) item) (op_Actions operation)).

Lemma verification_spec id : Program.swp (release_answers own) (eq s0) (cloudflareVerify id) s0 verification_ends verification_ends.
Proof using bound.
  assert (Herr : ∀ e, verification_ends s0 (Some e)) by by intros e.
  unfold cloudflareVerify. apply swp_ask; [done|]. intros loaded s1 [-> Hop]. apply swp_bind, swp_given; [intros; apply Herr|].
  intros [op revision] ->. subst op. cbn [fst]. apply swp_bind, swp_load_plan; [done|done|]. intros plan -> Hplan _.
  apply swp_bind, swp_validate_snapshot; [done|done|]. intros Hcur. apply swp_bind, swp_open_adapter; [done|done|]. intros target Ht.
  assert (target = own) as -> by congruence. clear Ht.
  apply swp_bind, (swp_for_each _ _ _ _ _ _ _ _ (λ rest s' _, s' = s0 ∧ ∃ seen, op_Actions operation = seen ++ rest ∧
    Forall (λ item, ∃ evidence, oa_WriteEvidence item = Some evidence ∧ binding_as_planned worker (we_ProviderOperationID evidence) item) seen)).
  - split; [done|]. by exists [].
  - intros s' [] item rest (-> & seen & E & Hseen). unfold verify_item. destruct (oa_WriteEvidence item) as [evidence|] eqn:Ee; [|apply Herr].
    apply swp_verify_binding; [done|done|]. intros Hb. split; [done|]. exists (seen ++ [item]). rewrite <-(assoc_L app). split; [done|].
    apply Forall_app. split; [done|]. constructor; [by exists evidence|constructor].
  - intros s' [] (-> & seen & E & Hseen). rewrite app_nil_r in E. split; [done|]. intros _. split; [by split|]. by rewrite E.
Qed.
End Commands.

(** ** The commands, wherever they stop *)

(** [inv] holds whenever the command makes a call, at which it may be stopped, and [ends]
    at its end. *)
Definition always (own : WorkerTarget) (inv : Release → Prop) (ends : Release → option failure → Prop) (p : command (option failure)) (s0 : Release) : Prop :=
  ∀ s q, rtc (call_step (release_answers own)) (s0, p) (s, q) → match q with Done r | Exit r => ends s r | Ask _ _ => inv s end.

Lemma swp_always own inv ends p s0 : swp (release_answers own) inv p s0 ends ends → always own inv ends p s0.
Proof. intros Hp s q Hrun. pose proof (swp_steps _ _ _ _ _ _ _ Hrun Hp) as Hq. destruct q as [r|r|X c k]; [exact Hq|exact Hq|exact (proj1 Hq)]. Qed.

(** C34: releases are safe, wherever a command is stopped and whatever fails.  A promotion
    deploys only the version that all the evidence of a ready operation names, over the
    version the plan was made for, with every binding as planned, for the same manifest,
    by the stored plan that the operation matches and whose snapshot is still current,
    with valid health checks, and after the user has confirmed it; at every moment either
    nothing is changed, or that version is deployed, or the prior one is again, and the
    stored operation never says more than was done.  It succeeds only when the version is
    deployed and stored as promoted and then every health check has had all its good
    answers with the pauses between them; when a check was made and the command fails, the
    prior version has been asked for.  A rollback deploys only the prior version, in place
    of the promoted one, after the user has confirmed it; a success has it deployed and
    stored.  A verification changes nothing, and succeeds only when every binding is as
    planned in its staged version.  A rollback and a verification, too, rest on the plan
    of the operation and its current snapshot. *)
Theorem releases_are_safe {urls : URLs} {folding : Folding} (settings : ClientSettings) own s0 document id :
  targetFromRollout (op_Target (rl_operation s0)) = Ok own →
  always own (promoting settings s0 document) (promotion_ends settings s0 document) (cloudflarePromote settings document id) s0 ∧
  always own (rolling s0) (rollback_ends s0) (cloudflareRollback id) s0 ∧
  always own (eq s0) (verification_ends s0) (cloudflareVerify id) s0.
Proof. intros Hbound. split_and!; apply swp_always; [by apply promote_spec|by apply rollback_spec|by apply verification_spec]. Qed.

(** ** What can be stored *)

Definition set_release (status : OperationStatus) (updated deployment version at_ rollback rolled_at : string) (operation : Operation) : Operation :=
  {| op_Version := op_Version operation; op_ID := op_ID operation; op_PlanID := op_PlanID operation;
     op_PlanDigest := op_PlanDigest operation; op_Bundle := op_Bundle operation;
     op_ManifestDigest := op_ManifestDigest operation; op_SnapshotRevision := op_SnapshotRevision operation;
     op_Provider := op_Provider operation; op_ProviderIdentity := op_ProviderIdentity operation;
     op_ProviderRevision := op_ProviderRevision operation; op_Target := op_Target operation;
     op_Status := status; op_Actions := op_Actions operation; op_CreatedAt := op_CreatedAt operation;
     op_UpdatedAt := updated; op_DeploymentID := deployment; op_DeployedVersion := version;
     op_PromotedAt := at_; op_RollbackID := rollback; op_RolledBackAt := rolled_at |}.

Lemma verified_items actions : Forall (λ item, verified_status (oa_Status item) = true) actions ∧ any_limited actions = false ↔
  Forall (λ item, oa_Status item = ActionVerified) actions.
Proof.
  induction actions as [|item actions IH]; [done|]. rewrite !Forall_cons, <-IH. unfold any_limited. cbn [existsb]. rewrite orb_false_iff, bool_decide_eq_false.
  destruct (oa_Status item); cbn; naive_solver.
Qed.

Lemma release_valid operation status updated deployment version at_ rollback rolled_at c u :
  Operation_Validate operation = Ok tt → created operation = Some c → canonicalTime updated = Some u → c ≤ u →
  status = StatusPromoted ∧ deployment ≠ "" ∧ version ≠ "" ∧ at_ ≠ "" ∨ status = StatusRolledBack ∧ rollback ≠ "" ∧ rolled_at ≠ "" →
  evidence_unless_empty deployment = true → evidence_unless_empty version = true → evidence_unless_empty rollback = true →
  time_unless_empty at_ = true → time_unless_empty rolled_at = true →
  Operation_Validate (set_release status updated deployment version at_ rollback rolled_at operation) = Ok tt ↔
  Forall (λ item, oa_Status item = ActionVerified) (op_Actions operation).
Proof.
  intros Hvalid Hc Hu Hle Hstatus E1 E2 E3 T1 T2. pose proof (Operation_Validate_parts _ Hvalid) as [_ Hitems Hids _]. unfold created in Hc. rewrite <-verified_items.
  set (op := set_release _ _ _ _ _ _ _ operation). assert (Hterm : terminal_ok op ↔ Forall (λ item, verified_status (oa_Status item) = true) (op_Actions operation) ∧
    any_limited (op_Actions operation) = false).
  { unfold terminal_ok. cbn [op set_release op_Status op_Actions]. destruct Hstatus as [(-> & _)|(-> & _)]; naive_solver. }
  rewrite <-Hterm, <-terminal_check. unfold Operation_Validate in Hvalid |- *. rewrite !reject_if_bind in Hvalid |- *.
  destruct Hvalid as (H1 & H2 & _ & _ & _ & _ & H7 & H8 & _). cbn [op set_release op_CreatedAt op_UpdatedAt]. rewrite Hc, Hu, reject_if_bind. split.
  - by intros (_ & _ & _ & _ & _ & _ & _ & _ & _ & ([] & _ & Ht)%bind_Ok).
  - intros Ht. split_and!; [done|done|by cbn; rewrite E1, E2, E3|by cbn; rewrite T1|by cbn; rewrite T2| | |done|lia|].
    + destruct Hstatus as [(-> & H & H' & H'')|(-> & H & H')]; cbn [op set_release op_DeploymentID op_DeployedVersion op_PromotedAt op_RollbackID op_RolledBackAt op_Status];
        [apply nonempty_true in H as ->, H' as ->, H'' as ->|apply nonempty_true in H as ->, H' as ->]; done.
    + cbn. apply orb_false_iff in H7 as [[_ ->]%orb_false_iff ->]. by destruct Hstatus as [(-> & _)|(-> & _)].
    + apply bind_Ok. exists tt. split; [by apply validate_actions_Ok|exact Ht].
Qed.

Lemma evidence_full value : evidencePattern value = true → value ≠ "" ∧ evidence_unless_empty value = true.
Proof. intros H. split; [by intros ->|]. unfold evidence_unless_empty. rewrite H. apply orb_true_r. Qed.

(** Which releases can be stored.  The store refuses an operation that is not valid.
    Of a valid ready operation whose actions are verified, the promotion can be stored
    when the identifiers of the deployment and the version are safe texts; but a rollback
    can be stored exactly when every action of the operation is verified, so that after
    the rollback of an operation that has failed, is limited or was never finished, which
    the command performs all the same, the evidence is lost. *)
Theorem stored_releases operation deployment version rollback c now : Operation_Validate operation = Ok tt → created operation = Some c →
  four_digit_year (unix now) → c ≤ truncate_second now →
  let t := format_rfc3339 (truncate_second now) in
  (op_Status operation = StatusReady → evidencePattern deployment = true → evidencePattern version = true →
     Operation_Validate (promoted deployment version t operation) = Ok tt) ∧
  (evidencePattern rollback = true → Operation_Validate (rolled_back rollback t t operation) = Ok tt ↔
     Forall (λ item, oa_Status item = ActionVerified) (op_Actions operation)).
Proof.
  intros Hvalid Hc Hy Hle t. pose proof (canonical_now now Hy) as Ht. fold t in Ht.
  assert (Htime : t ≠ "" ∧ time_unless_empty t = true).
  { split; [intros E; rewrite E in Ht; discriminate Ht|]. unfold time_unless_empty, canonicalTimestamp. rewrite Ht. apply orb_true_r. }
  destruct Htime as [Hne Htime]. pose proof Hvalid as Hparts. apply Operation_Validate_parts in Hparts as [_ _ _ Hterm].
  pose proof Hvalid as Hall. unfold Operation_Validate in Hall. rewrite !reject_if_bind in Hall. destruct Hall as (_ & _ & H3 & H4 & H5 & _).
  apply orb_false_iff in H3 as [[H31 H32]%orb_false_iff H33]. apply negb_false_iff in H31, H32, H33, H4, H5. split.
  - intros Hready [Hd Hd']%evidence_full [Hv Hv']%evidence_full.
    refine (proj2 (release_valid operation StatusPromoted t deployment version t (op_RollbackID operation) (op_RolledBackAt operation) c _ Hvalid Hc Ht Hle _ Hd' Hv' H33 Htime H5) _); [by left|].
    apply verified_items. unfold terminal_ok in Hterm. rewrite Hready in Hterm. by apply Hterm.
  - intros [Hr Hr']%evidence_full.
    apply (release_valid operation StatusRolledBack t (op_DeploymentID operation) (op_DeployedVersion operation) (op_PromotedAt operation) rollback t c _ Hvalid Hc Ht Hle); [by right|done..].
Qed.

(** ** The properties, applied *)

Module ReleaseDemo.
Definition digest : string := "0123456789abcdef0123456789abcdef0123456789abcdef0123456789abcdef".
Definition time : string := "2026-08-09T20:00:00Z".
Definition own : WorkerTarget := {| wt_AccountID := "acc"; wt_ZoneID := "zone"; wt_ScriptName := "shop" |}.
Definition target : TargetBinding := {| tb_ProjectID := "acc"; tb_EnvironmentID := "zone"; tb_ServiceIDs := Some {["shop" := "shop"]} |}.
Definition item (status : ActionStatus) (result : Verification) : OperationAction :=
  {| oa_Action := {| ac_ID := "shop/PASSWORD"; ac_Operation := "upsert"; ac_Service := "shop"; ac_ServiceID := "shop"; ac_Name := "PASSWORD";
                     ac_Record := "PASSWORD"; ac_ValueSource := ""; ac_PublicValue := ""; ac_ExpectedRecordRevision := 7 |};
     oa_Status := status; oa_Attempts := 1; oa_WriteKey := digest; oa_LastAttemptAt := time;
     oa_WriteEvidence := Some {| we_ProviderOperationID := "v2"; we_CommittedAt := time |};
     oa_VerifyEvidence := Some {| ve_Result := result; ve_Presence := PresencePresent; ve_VerifiedAt := time; ve_Reason := "" |}; oa_LastError := None |}.
Definition operation (status : OperationStatus) (action : OperationAction) : Operation :=
  {| op_Version := OperationVersion; op_ID := "op-1"; op_PlanID := digest; op_PlanDigest := digest; op_Bundle := "shop"; op_ManifestDigest := digest;
     op_SnapshotRevision := 5; op_Provider := "cloudflare"; op_ProviderIdentity := "acc"; op_ProviderRevision := "v1"; op_Target := target;
     op_Status := status; op_Actions := [action]; op_CreatedAt := time; op_UpdatedAt := time; op_DeploymentID := ""; op_DeployedVersion := "";
     op_PromotedAt := ""; op_RollbackID := ""; op_RolledBackAt := "" |}.
Definition ready : Operation := operation StatusReady (item ActionVerified VerificationVerified).
Definition limited : Operation := operation StatusLimited (item ActionLimited VerificationLimited).
Definition plan : ProviderPlan :=
  {| pp_Version := 1; pp_Bundle := "shop"; pp_ManifestDigest := digest; pp_SnapshotRevision := 5; pp_Provider := "cloudflare"; pp_ProviderIdentity := "acc";
     pp_ProviderRevision := "v1"; pp_Target := target; pp_Kind := PlanKindBindingNames; pp_Names := []; pp_Actions := oa_Action <$> op_Actions ready;
     pp_CreatedAt := time; pp_ExpiresAt := time; pp_Digest := digest |}.

#[local] Instance urls : URLs := {| url_Parse s := Some {| u_Scheme := "https"; u_Opaque := ""; u_User := false; u_Host := s; u_Path := "";
  u_RawQuery := ""; u_Fragment := "" |} |}.
#[local] Instance folding : Folding := {| EqualFold := String.eqb |}.
Definition settings : ClientSettings := {| cs_BaseURL := "vault"; cs_Access := None |}.
Definition check : HealthCheck := {| hc_URL := "shop/health"; hc_Method := ""; hc_ExpectedStatus := 200; hc_Successes := 3; hc_MinimumDuration := "30s"; hc_Timeout := "" |}.
Definition target_ : ManifestTarget := {| mt_Provider := ""; mt_Project := "shop"; mt_ProjectID := "acc"; mt_Environment := "production"; mt_EnvironmentID := "zone";
  mt_Services := ∅; mt_Stage := ""; mt_Activation := ""; mt_HealthChecks := [check]; mt_Promotion := ""; mt_Rollback := "" |}.
Definition document : Document := {| doc_Manifest := {| mf_Version := 2; mf_Bundle := "shop"; mf_Environment := ""; mf_Policies := ∅; mf_Records := ∅;
  mf_Targets := {["cloudflare" := target_]}; mf_Credentials := ∅; mf_RotationPolicies := ∅; mf_Configurations := []; mf_BrowserRecipes := [] |};
  doc_Canonical := ""; doc_Digest := digest; doc_Derived := [] |}.

(** A worker whose version "v2" is healthy or not. *)
Definition start (op : Operation) : Release := {| rl_operation := op; rl_confirmed := []; rl_deploys := []; rl_health := []; rl_plan := λ _, plan; rl_current := λ _, true;
  rl_worker := deploy "v1" {| wk_versions := {["v1" := {["KEEP" := "kept"]}; "v2" := {["KEEP" := "kept"; "PASSWORD" := "s3cret"]}]}; wk_deployed := [] |} |}.
Definition names (w : Worker) (id : string) : list string := (map_to_list (default ∅ (wk_versions w !! id))).*1.
Definition version_world X (c : version_api X) (s : Release) : X * Release :=
  match c in version_api X return X * Release with
  | ApiIdentity _ => (inl tt, s)
  | ApiInspect t => (let id := default "" (live (rl_worker s)) in inl {| ws_AccountID := wt_AccountID t; ws_ZoneID := wt_ZoneID t; ws_ScriptName := wt_ScriptName t;
                       ws_PriorVersionID := id; ws_BindingNames := names (rl_worker s) id |}, s)
  | ApiStage _ => (inr (Untyped "no stage"), s)
  | ApiVersionBindingNames _ id => (inl (names (rl_worker s) id), s)
  | ApiDeploy _ id force => (inl "deployment-1", with_worker (deploy id (rl_worker s)) (with_deploy id force s))
  end.
Definition rollout_world X (c : call X) (s : Release) : X * Release :=
  match c in RolloutEngine.Call.call X return X * Release with
  | Call.Capabilities => (Capabilities, s) | Call.Identity | Call.Inspect _ | Call.Write _ | Call.Verify _ | Call.Stage _ => (inr (Untyped "unused"), s)
  | Call.Confirm c => (true, with_confirmed (RolloutEngine.cf_Kind c) s)
  | Call.Now => (0, s) | Call.Random _ => (None, s) | Call.SavePlan _ _ => (Ok 1, s) | Call.LoadPlan _ => (Ok (plan, 1), s)
  | Call.SaveOperation op _ => (Ok 2, with_operation op s) | Call.LoadOperation _ => (Ok (rl_operation s, 1), s)
  | Call.ValidateSnapshot _ => (Ok tt, s) | Call.LoadRecord _ _ _ => (Ok "", s)
  end.
Definition release_world (status : Z) : World release_call Release := λ X c s,
  match c in release_call X return X * Release with
  | Versions c => version_world _ c s
  | Rollout c => rollout_world _ c s
  | OpenAdapter _ => (Ok tt, s)
  | CheckHealth rq => (Some status, with_health [Checked rq (Some status)] s)
  | Sleep d => (tt, with_health [Slept d] s)
  end.
Definition promotion (status : Z) : option failure * Release :=
  let '(_, r, s) := @run _ _ (release_world status) _ (cloudflarePromote settings document "op-1") (start ready) [] in (r, s).

(** A healthy version stays, an unhealthy one is taken back. *)
Example healthy : (promotion 200).1 = None ∧ live (rl_worker (promotion 200).2) = Some "v2" ∧ rl_deploys (promotion 200).2 = [("v2", false)].
Proof. vm_compute. done. Qed.
Example unhealthy_is_rolled_back : (promotion 500).1 = Some (Plain "Cloudflare health checks failed; prior version was restored") ∧
  live (rl_worker (promotion 500).2) = Some "v1" ∧ rl_deploys (promotion 500).2 = [("v1", true); ("v2", false)].
Proof. vm_compute. done. Qed.

Lemma releases_are_safe_witness : always own (promoting settings (start ready) document) (promotion_ends settings (start ready) document)
  (cloudflarePromote settings document "op-1") (start ready).
Proof. apply (releases_are_safe settings own (start ready) document "op-1"). vm_compute. reflexivity. Defined.

(** An operation with a limited action is valid, but its rollback is not. *)
Lemma stored_releases_witness : Operation_Validate limited = Ok tt ∧ ¬ Operation_Validate (rolled_back "deployment-1" time time limited) = Ok tt.
Proof.
  split; [vm_compute; reflexivity|]. pose (now := 1786305600 * second).
  assert (Hc : created limited = Some now) by (vm_compute; reflexivity). assert (Hy : four_digit_year (unix now)) by (vm_compute; split; congruence).
  destruct (stored_releases limited "d" "v" "deployment-1" now now) as [_ H]; [vm_compute; reflexivity|exact Hc|exact Hy|vm_compute; congruence|].
  intros Hv. change time with (format_rfc3339 (truncate_second now)) in Hv. apply H in Hv; [|reflexivity].
  apply Forall_cons in Hv as [Hv _]. discriminate Hv.
Defined.
End ReleaseDemo.
