(* ===== verification/Railway.v ===== *)
(** The Railway adapter: internal/provider/railway/adapter.go, and the names-only planner
    of planner.go.  The adapter is a program over HTTP; the planner turns a manifest and a
    snapshot into the input of a rollout plan. *)
From S2P Require Import Prelude Timestamp Text Secure Provider RolloutPlan RolloutEngine Bundle Template Manifest Origin ManifestProperties RolloutExample.
From S2P Require Export Http PlanVariables.
From stdpp Require Import options.

Definition ProviderName : string := "railway".
Definition DefaultEndpoint : string := "https://backboard.railway.com/graphql/v2".
Definition maxResponseBytes : Z := 1048576.
Definition maxCredentialBytes : Z := 16384.

(** The three documents that are sent. *)
Inductive Query := identityQuery | targetQuery | variableUpsertMutation.

Record UpsertInput := {
  ui_ProjectID : string; ui_EnvironmentID : string; ui_ServiceID : string; ui_Name : string; ui_Value : string; ui_SkipDeploys : bool;
}.
Inductive Variables := NoVariables | ProjectVariables (projectId : string) | UpsertVariables (input : UpsertInput).

Record Adapter := { ad_endpoint : string; ad_token : string }.

Record BindingRequest := {
  bq_Project : string; bq_ProjectID : string; bq_Environment : string; bq_EnvironmentID : string; bq_Services : gmap string string;
}.

Record tokenIdentity := { ti_ProjectID : string; ti_EnvironmentID : string }.
Record node := { nd_ID : string; nd_Name : string }.
Record projectMetadata := { pm_ID : string; pm_Name : string; pm_Environments : list node; pm_Services : list node }.
(** The raw data, and the codes of the errors. *)
Record envelope := { ev_Data : string; ev_Errors : list string }.

(** The JSON of requests and replies. *)
Class RailwayCodec := {
  query_json : Query → Variables → result string;
  envelope_of_json : string → option envelope;
  identity_of_json : string → option tokenIdentity;
  project_of_json : string → option projectMetadata;
  upsert_of_json : string → option bool;
}.

(** ** Tests *)

Definition safeCode (value : string) : bool := all_bytes safe_byte value.
Definition validID (value : string) : bool := nonempty value && (slen value <=? 128) && safeCode value.

Definition retryForResponse (operation : string) (status : Z) : RetryClass :=
  if status =? 429 then RetrySafe
  else if String.eqb operation "write" && (200 <=? status) && (status <=? 299) then RetryAmbiguous
  else if 500 <=? status then (if String.eqb operation "write" then RetryAmbiguous else RetrySafe)
  else RetryNever.

Definition exactNode (values : list node) (name id : string) : bool :=
  let count (p : node → bool) := list_len (filter (λ n, p n = true) values) in
  (count (λ n, String.eqb (nd_Name n) name) =? 1) && (count (λ n, String.eqb (nd_ID n) id) =? 1) &&
  (count (λ n, String.eqb (nd_Name n) name && String.eqb (nd_ID n) id) =? 1).

Definition nodeIDExistsExactlyOnce (values : list node) (id : string) : bool :=
  list_len (filter (λ n, String.eqb (nd_ID n) id = true) values) =? 1.

(** The loop over the sorted names: the IDs found, and those seen. *)
Fixpoint resolve_names (values : list node) (expected : gmap string string) (names : list string) (seen : gset string) :
    gmap string string + AdapterError :=
  match names with
  | [] => inl ∅
  | name :: rest =>
      let failed code := inr (Typed (NewError "inspect" 0 code RetryNever)) in
      match filter (λ n, nd_Name n = name) values with
      | [n] =>
          let id := nd_ID n in
          let want := default "" (expected !! name) in
          if negb (validID id) then failed "SERVICE_RESOLUTION"
          else if nonempty want && negb (String.eqb want id) then failed "SERVICE_ID_MISMATCH"
          else if bool_decide (id ∈ seen) then failed "SERVICE_RESOLUTION"
          else match resolve_names values expected rest ({[id]} ∪ seen) with
               | inl result => inl (<[name := id]> result)
               | inr e => inr e
               end
      | _ => failed "SERVICE_RESOLUTION"
      end
  end.
Definition resolveServices (values : list node) (expected : gmap string string) : gmap string string + AdapterError :=
  resolve_names values expected (sortedMapKeys expected) ∅.

(** [New]: the credential and the endpoint. *)
Definition control_byte (c : ascii) : bool := (code c <=? 32) || (code c =? 127).
Definition isLoopback (host : string) : bool := bool_decide (host ∈ ["localhost"; "127.0.0.1"; "::1"]).
Definition New {urls : URLs} {hosts : Hosts} (token endpoint : string) : result Adapter :=
  _ ← reject_if (negb (nonempty token) || (maxCredentialBytes <? slen token) || negb (all_bytes (λ c, negb (control_byte c)) token))
        "Railway project credential is invalid";
  let endpoint := if nonempty endpoint then endpoint else DefaultEndpoint in
  match url_Parse endpoint with
  | None => Err "Railway API endpoint is invalid"
  | Some parsed =>
      _ ← reject_if (u_User parsed || nonempty (u_RawQuery parsed) || nonempty (u_Fragment parsed) ||
            (negb (String.eqb (u_Scheme parsed) "https") &&
             negb (String.eqb (u_Scheme parsed) "http" && isLoopback (ToLower (Hostname parsed))))) "Railway API endpoint is invalid";
      Ok {| ad_endpoint := endpoint; ad_token := token |}
  end.

(** ** Calls *)

Section Adapter.
Context {codec : RailwayCodec} (adapter : option Adapter).

Definition graphql_request (a : Adapter) (body : string) : HttpRequest :=
  {| hq_Method := "POST"; hq_URL := ad_endpoint a;
     hq_Headers := [("Content-Type", "application/json"); ("Accept", "application/json"); ("Project-Access-Token", ad_token a)];
     hq_Body := body |}.

Definition error_code (errors : list string) : string :=
  match errors with
  | [] => "GRAPHQL_ERROR"
  | candidate :: _ =>
      let candidate := TrimSpace candidate in
      if nonempty candidate && (slen candidate <=? MaxProviderCodeBytes) && safeCode candidate then candidate else "GRAPHQL_ERROR"
  end.

(** What is made of a reply. *)
Definition read_reply {A} (operation : string) (decode : string → option A) (reply : HttpReply) : A + AdapterError :=
  let status := hr_Status reply in
  let failed code := inr (Typed (NewError operation status code (retryForResponse operation status))) in
  match hr_Body reply with
  | None => failed "INVALID_RESPONSE"
  | Some raw =>
      if maxResponseBytes <? slen raw then failed "INVALID_RESPONSE"
      else if (status <? 200) || (299 <? status) then failed "HTTP_ERROR"
      else
        match envelope_of_json raw with
        | None => failed "GRAPHQL_ERROR"
        | Some ev =>
            if negb (bool_decide (ev_Errors ev = [])) || negb (nonempty (ev_Data ev)) || String.eqb (ev_Data ev) "null"
            then failed (error_code (ev_Errors ev))
            else match decode (ev_Data ev) with
                 | None => failed "INVALID_RESPONSE"
                 | Some a => inl a
                 end
        end
  end.

(** The creation of the request, of an endpoint that [New] has accepted, does not fail. *)
Definition graphql {A} (operation : string) (query : Query) (variables : Variables) (decode : string → option A) : fallible http A :=
  match adapter with
  | None => fail_with operation 0 "NOT_CONFIGURED" RetryNever
  | Some a =>
      if negb (nonempty (ad_token a)) then fail_with operation 0 "NOT_CONFIGURED" RetryNever
      else
        match query_json query variables with
        | Err _ => fail_with operation 0 "ENCODE_FAILED" RetryNever
        | Ok body =>
            reply ← ask (Exchange (graphql_request a body));
            match (reply : option HttpReply) with
            | None => fail_with operation 0 "TRANSPORT" (if String.eqb operation "write" then RetryAmbiguous else RetrySafe)
            | Some reply => mret (read_reply operation decode reply)
            end
        end
  end.

Definition identity : fallible http tokenIdentity :=
  let! token := graphql "identity" identityQuery NoVariables identity_of_json in
  if negb (validID (ti_ProjectID token)) || negb (validID (ti_EnvironmentID token))
  then fail_with "identity" 0 "INVALID_IDENTITY" RetryNever else succeed token.

Definition project (projectID : string) : fallible http projectMetadata :=
  graphql "inspect" targetQuery (ProjectVariables projectID) project_of_json.

Definition Capabilities : Provider.Capabilities :=
  {| cap_Create := true; cap_ReadMetadata := true; cap_Update := true; cap_Validate := true; cap_Revoke := false;
     cap_SupportsIdempotencyKey := false; cap_SupportsIdempotentWrite := true; cap_SupportsMaskedPresence := false |}.

Definition Identity : fallible http Provider.Identity :=
  let! token := identity in
  succeed {| id_Provider := ProviderName; id_ID := ti_ProjectID token +:+ ":" +:+ ti_EnvironmentID token |}.

Definition Bind (request : BindingRequest) : fallible http Target :=
  if negb (nonempty (bq_Project request)) || negb (nonempty (bq_Environment request)) || (map_len (bq_Services request) =? 0)
  then fail_text "Railway target request is incomplete"
  else
    let! token := identity in
    if (nonempty (bq_ProjectID request) && negb (String.eqb (bq_ProjectID request) (ti_ProjectID token))) ||
       (nonempty (bq_EnvironmentID request) && negb (String.eqb (bq_EnvironmentID request) (ti_EnvironmentID token)))
    then fail_with "identity" 0 "TARGET_ID_MISMATCH" RetryNever
    else
      let! found := project (ti_ProjectID token) in
      if negb (String.eqb (pm_ID found) (ti_ProjectID token)) || negb (String.eqb (pm_Name found) (bq_Project request))
      then fail_with "inspect" 0 "PROJECT_MISMATCH" RetryNever
      else if negb (exactNode (pm_Environments found) (bq_Environment request) (ti_EnvironmentID token))
      then fail_with "inspect" 0 "ENVIRONMENT_MISMATCH" RetryNever
      else
        let! serviceIDs := mret (resolveServices (pm_Services found) (bq_Services request)) in
        succeed {| tg_ProjectID := ti_ProjectID token; tg_EnvironmentID := ti_EnvironmentID token; tg_ServiceIDs := serviceIDs |}.

Definition Inspect (target : Target) : fallible http MetadataState :=
  let! token := identity in
  if negb (String.eqb (tg_ProjectID target) (ti_ProjectID token)) || negb (String.eqb (tg_EnvironmentID target) (ti_EnvironmentID token))
  then fail_with "inspect" 0 "IDENTITY_DRIFT" RetryNever
  else
    let! found := project (tg_ProjectID target) in
    if negb (String.eqb (pm_ID found) (tg_ProjectID target)) || negb (nodeIDExistsExactlyOnce (pm_Environments found) (tg_EnvironmentID target))
    then fail_with "inspect" 0 "TARGET_DRIFT" RetryNever
    else
      let! _ := mret (resolveServices (pm_Services found) (tg_ServiceIDs target)) in
      succeed {| ms_Target := target; ms_Variables := (λ _, ∅) <$> tg_ServiceIDs target; ms_Revision := "" |}.

Definition upsert_input (request : WriteRequest) : UpsertInput :=
  {| ui_ProjectID := tg_ProjectID (wr_Target request); ui_EnvironmentID := tg_EnvironmentID (wr_Target request);
     ui_ServiceID := wr_ServiceID request; ui_Name := wr_Name request; ui_Value := wr_secret request; ui_SkipDeploys := true |}.

Definition Write (request : WriteRequest) : fallible http WriteEvidence :=
  if negb (String.eqb (wr_Operation request) "upsert") || negb (nonempty (tg_ProjectID (wr_Target request))) ||
     negb (nonempty (tg_EnvironmentID (wr_Target request))) || negb (nonempty (wr_ServiceID request)) || negb (nonempty (wr_Name request)) ||
     negb (String.eqb (default "" (tg_ServiceIDs (wr_Target request) !! wr_Service request)) (wr_ServiceID request))
  then fail_with "write" 0 "INVALID_WRITE" RetryNever
  else
    let! committed := graphql "write" variableUpsertMutation (UpsertVariables (upsert_input request)) upsert_of_json in
    if negb committed then fail_with "write" 200 "NOT_COMMITTED" RetryNever
    else succeed {| we_ProviderOperationID := ""; we_CommittedAt := "" |}.

Definition Verify : VerifyEvidence :=
  {| ve_Result := VerificationLimited; ve_Presence := PresenceUnknown; ve_VerifiedAt := ""; ve_Reason := "names-only-unavailable" |}.
End Adapter.

(** ** The planner *)

Definition siftCutServices : list string := ["postgres"; "migrator"; "api"; "web"].
Definition SiftCutServiceNames : list string := siftCutServices.

Definition BindingRequestForManifest (document : option Document) : result BindingRequest :=
  match document with
  | None => Err "Railway manifest is required"
  | Some document =>
      match mf_Targets (doc_Manifest document) !! ProviderName with
      | None => Err "manifest has no Railway target"
      | Some target =>
          let inexact := "Railway target must contain exactly postgres, migrator, api, and web" in
          _ ← reject_if (negb (map_len (mt_Services target) =? 4)) inexact;
          services ← each_with (λ name (services : gmap string string),
            match mt_Services target !! name with
            | None => Err inexact
            | Some service => Ok (<[name := sv_ID service]> services)
            end) siftCutServices ∅;
          Ok {| bq_Project := mt_Project target; bq_ProjectID := mt_ProjectID target; bq_Environment := mt_Environment target;
                bq_EnvironmentID := mt_EnvironmentID target; bq_Services := services |}
      end
  end.

(** One service of the request against the target; the code visits them in no fixed order,
    on which only the choice between two errors depends. *)
Definition check_binding (target : Target) (entry : string * string) (seenIDs : gset string) : result (gset string) :=
  let '(name, expectedID) := entry in
  let id := default "" (tg_ServiceIDs target !! name) in
  _ ← reject_if (negb (nonempty id) || (nonempty expectedID && negb (String.eqb id expectedID)))
        "Railway service binding does not match the manifest";
  _ ← reject_if (bool_decide (id ∈ seenIDs)) "Railway service binding contains a duplicate ID";
  Ok ({[id]} ∪ seenIDs).

(** By order, then by name; a service that the target does not have reads as zero. *)
Definition service_order (target : ManifestTarget) (name : string) : Z := from_option sv_Order 0 (mt_Services target !! name).
Definition service_before (target : ManifestTarget) (l r : string) : Prop :=
  service_order target l < service_order target r ∨ service_order target l = service_order target r ∧ str_le l r.
#[export] Instance service_before_dec target l r : Decision (service_before target l r).
Proof. unfold service_before. apply _. Defined.

Definition plan_service (snapshot : Snapshot) (target : ManifestTarget) (ids : gmap string string) (serviceName : string)
    (plan : list PlannedName * list Action) : result (list PlannedName * list Action) :=
  let service := default no_service (mt_Services target !! serviceName) in
  let serviceID := default "" (ids !! serviceName) in
  plan ← each_with (plan_variable "Railway" "unverifiable" snapshot serviceName serviceID (sv_Variables service))
           (sortedMapKeys (sv_Variables service)) plan;
  Ok ((plan : list PlannedName * list Action).1 ++
        ((λ name, planned_name serviceName serviceID "unverifiable" name "absent" "" 0) <$> sort_strings (sv_Absent service)), plan.2).

Definition BuildNamesOnlyInput (document : option Document) (snapshot : Snapshot) (snapshotRevision : Z) (target : Target) : result PlanInput :=
  request ← BindingRequestForManifest document;
  match document with
  | None => Err "Railway manifest is required"
  | Some document =>
      let manifest := doc_Manifest document in
      _ ← reject_if ((snapshotRevision <? 1) || negb (is_ok (Snapshot_Validate snapshot)) ||
            negb (String.eqb (sn_Bundle snapshot) (mf_Bundle manifest)) ||
            negb (String.eqb (sn_ManifestDigest snapshot) (doc_Digest document)))
            "Railway plan requires the current prepared bundle snapshot";
      _ ← reject_if (negb (nonempty (tg_ProjectID target)) || negb (nonempty (tg_EnvironmentID target)) ||
            negb (map_len (tg_ServiceIDs target) =? map_len (bq_Services (request : BindingRequest)))) "Railway target binding is incomplete";
      _ ← each_with (check_binding target) (map_to_list (bq_Services request)) ∅;
      match mf_Targets manifest !! ProviderName with
      | None => Err "manifest has no Railway target"
      | Some manifestTarget =>
          let services := merge_sort (service_before manifestTarget) SiftCutServiceNames in
          plan ← each_with (plan_service snapshot manifestTarget (tg_ServiceIDs target)) services ([], []);
          Ok {| in_Bundle := mf_Bundle manifest; in_ManifestDigest := doc_Digest document; in_SnapshotRevision := snapshotRevision;
                in_Target := {| tb_ProjectID := tg_ProjectID target; tb_EnvironmentID := tg_EnvironmentID target;
                                tb_ServiceIDs := Some (tg_ServiceIDs target) |};
                in_Kind := PlanKindNamesOnly; in_Names := (plan : list PlannedName * list Action).1; in_Actions := plan.2 |}
      end
  end.

(** The plans that the Railway planner makes of a manifest are complete and valid. *)

(** ** The request and the binding *)

Section Railway.
Context {urls : URLs} {unicode : Unicode} {crypto : Crypto} {codec : PlanCodec}.

Definition railway_target (d : Document) : option ManifestTarget := mf_Targets (doc_Manifest d) !! ProviderName.

(** The request has exactly the services of the target, which are those of SiftCut. *)
Lemma BindingRequest_Ok d q : BindingRequestForManifest (Some d) = Ok q → ∃ t, railway_target d = Some t ∧
  dom (mt_Services t) = list_to_set siftCutServices ∧ bq_Services q = sv_ID <$> mt_Services t ∧
  bq_Project q = mt_Project t ∧ bq_ProjectID q = mt_ProjectID t ∧ bq_Environment q = mt_Environment t ∧ bq_EnvironmentID q = mt_EnvironmentID t.
Proof.
  unfold BindingRequestForManifest. fold (railway_target d). destruct (railway_target d) as [t|]; [|done].
  rewrite reject_if_bind. intros [Hn (services & Hs & [= <-])%bind_Ok]. exists t. cbn.
  apply negb_false_iff, Z.eqb_eq in Hn. unfold map_len in Hn.
  apply (each_with_ind (λ seen (services : gmap string string), (∀ n, n ∈ seen → is_Some (mt_Services t !! n)) ∧
    ∀ n, services !! n = if decide (n ∈ seen) then sv_ID <$> mt_Services t !! n else None)) in Hs as [Hall Hlook].
  - assert (Hdom : dom (mt_Services t) = list_to_set siftCutServices).
    { symmetry. apply set_subseteq_size_eq.
      - intros n Hin%elem_of_list_to_set. by apply elem_of_dom, Hall.
      - rewrite size_dom. change (size (list_to_set siftCutServices : gset string)) with 4%nat. lia. }
    split_and!; [done|done| |done..]. apply map_eq. intros n. rewrite Hlook, lookup_fmap. case_decide as Hin; [done|].
    destruct (mt_Services t !! n) as [s|] eqn:E; [|done]. destruct Hin. apply (elem_of_list_to_set (C:=gset string)).
    rewrite <-Hdom. by apply elem_of_dom.
  - split; [by intros ? ?%elem_of_nil|]. intros n. by rewrite lookup_empty.
  - intros seen n s s' _ [Hall Hlook] Hf. destruct (mt_Services t !! n) as [svc|] eqn:E; [|done]. injection Hf as <-. split.
    + intros n' [Hin| ->%list_elem_of_singleton]%elem_of_app; [by apply Hall|by rewrite E].
    + intros n'. destruct (decide (n' = n)) as [->|Hne].
      * rewrite lookup_insert_eq, decide_True by set_solver. by rewrite E.
      * rewrite lookup_insert_ne, Hlook by done. apply decide_ext. set_solver.
Qed.

(** The identifiers of a target are those that a request asks for, each once. *)
Record bound_to (q : BindingRequest) (target : Target) : Prop := {
  bt_scope : tg_ProjectID target ≠ "" ∧ tg_EnvironmentID target ≠ "";
  bt_services : dom (tg_ServiceIDs target) = dom (bq_Services q);
  bt_ids : ∀ name id want, tg_ServiceIDs target !! name = Some id → bq_Services q !! name = Some want → id ≠ "" ∧ (want = "" ∨ want = id);
  bt_once : ∀ name name' id, tg_ServiceIDs target !! name = Some id → tg_ServiceIDs target !! name' = Some id → name = name';
}.

Definition bound_id (target : Target) (entry : string * string) : string := default "" (tg_ServiceIDs target !! entry.1).

Lemma check_bindings_Ok target l seen : (∃ s, each_with (check_binding target) l seen = Ok s) ↔
  (∀ e, e ∈ l → bound_id target e ≠ "" ∧ (e.2 = "" ∨ e.2 = bound_id target e) ∧ bound_id target e ∉ seen) ∧ NoDup (bound_id target <$> l).
Proof.
  revert seen. induction l as [|[name want] l IH]; intros seen; cbn [each_with].
  - split; [intros _; split; [by intros ? ?%elem_of_nil|constructor]|by eexists].
  - setoid_rewrite bind_Ok. unfold check_binding at 1. fold (bound_id target (name, want)).
    change (default "" (tg_ServiceIDs target !! name)) with (bound_id target (name, want)). set (id := bound_id target (name, want)).
    rewrite fmap_cons, NoDup_cons. fold id. setoid_rewrite reject_if_bind. setoid_rewrite reject_if_bind.
    assert (Hwant : negb (nonempty id) || nonempty want && negb (String.eqb id want) = false ↔ id ≠ "" ∧ (want = "" ∨ want = id)).
    { rewrite orb_false_iff, negb_false_iff, nonempty_true, andb_false_iff, nonempty_false, negb_false_iff, String.eqb_eq. naive_solver. }
    split.
    + intros (s & seen' & (Hw%Hwant & Hni%bool_decide_eq_false & [= <-]) & Hl). destruct (proj1 (IH _) (ex_intro _ s Hl)) as [Hall Hnd].
      split; [|split; [|done]].
      * intros e [->|Hin]%elem_of_cons; [by split_and!; try apply Hw|]. destruct (Hall e Hin) as (H1 & H2 & H3). split_and!; [done..|set_solver].
      * intros (e & E & Hin)%list_elem_of_fmap. destruct (Hall e Hin) as (_ & _ & H3). apply H3. rewrite <-E. set_solver.
    + intros [Hall [Hni Hnd]]. destruct (Hall (name, want)) as (H1 & H2 & H3); [by left|]. fold id in H1, H2, H3.
      destruct (proj2 (IH ({[id]} ∪ seen))) as [s Hs].
      { split; [|done]. intros e Hin. destruct (Hall e) as (H4 & H5 & H6); [by right|]. split_and!; [done..|].
        intros [E%elem_of_singleton|?]%elem_of_union; [|done]. apply Hni. rewrite <-E. by apply list_elem_of_fmap_2. }
      exists s, ({[id]} ∪ seen). split; [|done]. split; [by apply Hwant|]. split; [by apply bool_decide_eq_false|done].
Qed.

Lemma bound_to_checks q target : bound_to q target ↔ tg_ProjectID target ≠ "" ∧ tg_EnvironmentID target ≠ "" ∧
  size (tg_ServiceIDs target) = size (bq_Services q) ∧ ∃ s, each_with (check_binding target) (map_to_list (bq_Services q)) ∅ = Ok s.
Proof.
  rewrite check_bindings_Ok. split.
  - intros [[H1 H2] Hdom Hids Honce]. split_and!; [done|done|by rewrite <-!size_dom, Hdom| |].
    + intros [name want] Hin%elem_of_map_to_list. unfold bound_id. cbn.
      assert (Hs : is_Some (tg_ServiceIDs target !! name)) by (apply elem_of_dom; rewrite Hdom; by apply elem_of_dom).
      destruct Hs as [id Eid]. rewrite Eid. cbn. destruct (Hids name id want Eid Hin). split_and!; [done|done|apply not_elem_of_empty].
    + apply NoDup_fmap_2_strong; [|apply NoDup_map_to_list]. intros [n w] [n' w'] Hin%elem_of_map_to_list Hin'%elem_of_map_to_list.
      unfold bound_id. cbn. assert (Hs : ∀ m, is_Some (bq_Services q !! m) → is_Some (tg_ServiceIDs target !! m))
        by (intros m Hm; apply elem_of_dom; rewrite Hdom; by apply elem_of_dom).
      destruct (Hs n) as [id Eid]; [by rewrite Hin|]. destruct (Hs n') as [id' Eid']; [by rewrite Hin'|]. rewrite Eid, Eid'. cbn. intros <-.
      assert (n = n') as <- by by eapply Honce. congruence.
  - intros (H1 & H2 & Hsize & Hall & Hnd). assert (Hsub : dom (bq_Services q) ⊆ dom (tg_ServiceIDs target)).
    { intros n [want Hw]%elem_of_dom. destruct (Hall (n, want)) as (Hne & _); [by apply elem_of_map_to_list|]. apply elem_of_dom.
      unfold bound_id in Hne. cbn in Hne. destruct (tg_ServiceIDs target !! n); [by eexists|done]. }
    assert (Hdom : dom (tg_ServiceIDs target) = dom (bq_Services q))
      by (symmetry; apply set_subseteq_size_eq; [done|by rewrite !size_dom, Hsize]).
    split; [done|done| |].
    + intros name id want Eid Ew. destruct (Hall (name, want)) as (Hne & Hw & _); [by apply elem_of_map_to_list|].
      unfold bound_id in Hne, Hw. cbn in Hne, Hw. rewrite Eid in Hne, Hw. done.
    + intros n n' id En En'. assert (Hw : ∀ m, is_Some (tg_ServiceIDs target !! m) → is_Some (bq_Services q !! m))
        by (intros m Hm; apply elem_of_dom; rewrite <-Hdom; by apply elem_of_dom).
      destruct (Hw n) as [w Ew]; [by rewrite En|]. destruct (Hw n') as [w' Ew']; [by rewrite En'|].
      assert ((n, w) = (n', w')) as [= -> _]; [|done]. apply (NoDup_fmap_inj_on (bound_id target) (map_to_list (bq_Services q))); [done|by apply elem_of_map_to_list..|].
      unfold bound_id. cbn. by rewrite En, En'.
Qed.

(** ** The whole plan *)

Section Plan.
Context (snapshot : Snapshot) (t : ManifestTarget) (ids : gmap string string).

Definition the_service (s : string) : Service := default no_service (mt_Services t !! s).
Definition the_id (s : string) : string := default "" (ids !! s).
Definition absent_name (s name : string) : PlannedName := planned_name s (the_id s) "unverifiable" name "absent" "" 0.
Definition service_names (s : string) : list PlannedName :=
  (sortedMapKeys (sv_Variables (the_service s)) ≫= variable_names "unverifiable" snapshot s (the_id s) (sv_Variables (the_service s))) ++
  (absent_name s <$> sort_strings (sv_Absent (the_service s))).
Definition service_actions (s : string) : list Action :=
  sortedMapKeys (sv_Variables (the_service s)) ≫= variable_actions snapshot s (the_id s) (sv_Variables (the_service s)).
Definition services_of : list string := merge_sort (service_before t) SiftCutServiceNames.

Lemma elem_of_services_of s : (s ∈ services_of) ↔ s ∈ siftCutServices.
Proof. unfold services_of. by rewrite merge_sort_Permutation. Qed.
Lemma NoDup_services_of : NoDup services_of.
Proof. unfold services_of. rewrite merge_sort_Permutation. by apply (bool_decide_unpack (NoDup siftCutServices)). Qed.

Definition records_known : Prop := ∀ s service name v, s ∈ siftCutServices → mt_Services t !! s = Some service →
  sv_Variables service !! name = Some v → record_known snapshot v.

Lemma plan_services_spec plan r : each_with (plan_service snapshot t ids) services_of plan = Ok r ↔
  records_known ∧ r = (plan.1 ++ (services_of ≫= service_names), plan.2 ++ (services_of ≫= service_actions)).
Proof.
  rewrite (each_with_append _ (λ s, ∀ name v, sv_Variables (the_service s) !! name = Some v → record_known snapshot v) service_names service_actions).
  - split; intros [H ->]; (split; [|done]).
    + intros s service name v Hs Es. specialize (H s (proj2 (elem_of_services_of s) Hs) name v). unfold the_service in H. rewrite Es in H. exact H.
    + intros s Hs%elem_of_services_of name v. unfold the_service. destruct (mt_Services t !! s) as [service|] eqn:Es; [by eapply H|].
      cbn. by rewrite lookup_empty.
  - intros s p r' _. unfold plan_service. fold (the_service s) (the_id s). rewrite bind_Ok. setoid_rewrite plan_variables_spec. split.
    + intros (p' & [H ->] & [= <-]). split; [exact H|]. cbn [fst snd]. by rewrite <-(assoc_L app).
    + intros [H ->]. eexists. split; [split; [exact H|reflexivity]|]. cbn [fst snd]. by rewrite <-(assoc_L app).
Qed.
End Plan.

Definition the_input (d : Document) (snapshot : Snapshot) (revision : Z) (target : Target) (t : ManifestTarget) : PlanInput :=
  {| in_Bundle := mf_Bundle (doc_Manifest d); in_ManifestDigest := doc_Digest d; in_SnapshotRevision := revision;
     in_Target := {| tb_ProjectID := tg_ProjectID target; tb_EnvironmentID := tg_EnvironmentID target; tb_ServiceIDs := Some (tg_ServiceIDs target) |};
     in_Kind := PlanKindNamesOnly; in_Names := services_of t ≫= service_names snapshot t (tg_ServiceIDs target);
     in_Actions := services_of t ≫= service_actions snapshot t (tg_ServiceIDs target) |}.

Lemma BuildNamesOnlyInput_Ok d snapshot revision target input : BuildNamesOnlyInput (Some d) snapshot revision target = Ok input ↔
  ∃ q t, BindingRequestForManifest (Some d) = Ok q ∧ railway_target d = Some t ∧ prepared_for d snapshot revision ∧ bound_to q target ∧
    records_known snapshot t ∧ input = the_input d snapshot revision target t.
Proof.
  unfold BuildNamesOnlyInput. rewrite bind_Ok. setoid_rewrite reject_if_bind. setoid_rewrite reject_if_bind. setoid_rewrite bind_Ok.
  fold (railway_target d). setoid_rewrite bound_to_checks. unfold prepared_for. split.
  - intros (q & Hq & Hcur & Hscope & seen & Hseen & H). destruct (railway_target d) as [t|] eqn:Et; [|done].
    apply bind_Ok in H as (plan & [Hrec ->]%plan_services_spec & [= <-]). exists q, t.
    apply orb_false_iff in Hcur as [[[H1 H2]%orb_false_iff H3]%orb_false_iff H4]. apply orb_false_iff in Hscope as [[H5 H6]%orb_false_iff H7].
    apply negb_false_iff in H2, H3, H4, H5, H6, H7. apply String.eqb_eq in H3, H4. apply nonempty_true in H5, H6. apply Z.eqb_eq in H7.
    apply is_ok_true in H2 as [[] H2]. unfold map_len in H7. split_and!; try done; [lia|lia|by exists seen].
  - intros (q & t & Hq & -> & (H1 & -> & H3 & H4) & (H5 & H6 & H7 & seen & Hseen) & Hrec & ->). exists q. split; [done|].
    replace (revision <? 1) with false by lia. rewrite H3, H4, !String.eqb_refl. split; [done|].
    apply nonempty_true in H5 as ->, H6 as ->. unfold map_len. rewrite H7, Z.eqb_refl. split; [done|]. exists seen. split; [done|].
    apply bind_Ok. eexists. split; [apply plan_services_spec; split; [done|reflexivity]|]. done.
Qed.

(** ** What is in a plan *)

Section Sound.
Context (d : Document) (derived : list string) (snapshot : Snapshot) (revision : Z) (target : Target) (q : BindingRequest) (t : ManifestTarget).
Hypothesis valid : validate (doc_Manifest d) = Ok derived.
Hypothesis requested : BindingRequestForManifest (Some d) = Ok q.
Hypothesis target_of : railway_target d = Some t.
Hypothesis current : prepared_for d snapshot revision.
Hypothesis bound : bound_to q target.
Hypothesis known : records_known snapshot t.
Abbreviation ids := (tg_ServiceIDs target).
Abbreviation input := (the_input d snapshot revision target t).

(** The variable and the absent names of a service of the manifest. *)
Definition has_variable (s name : string) (v : Variable_) : Prop := ∃ service, mt_Services t !! s = Some service ∧ sv_Variables service !! name = Some v.
Definition has_absent (s name : string) : Prop := ∃ service, mt_Services t !! s = Some service ∧ name ∈ sv_Absent service.

Lemma services_exact s : is_Some (mt_Services t !! s) ↔ s ∈ siftCutServices.
Proof using requested target_of.
  destruct (BindingRequest_Ok d q requested) as (t' & Et & Hdom & _). assert (t' = t) as -> by congruence.
  rewrite <-elem_of_dom, Hdom. apply elem_of_list_to_set.
Qed.

Lemma service_of s : s ∈ siftCutServices → mt_Services t !! s = Some (the_service t s).
Proof using requested target_of. intros [service E]%services_exact. unfold the_service. by rewrite E. Qed.

Lemma id_of s : s ∈ siftCutServices → ids !! s = Some (the_id ids s) ∧ the_id ids s ≠ "".
Proof using requested target_of bound.
  intros Hs. pose proof (service_of s Hs) as Es. destruct (BindingRequest_Ok d q requested) as (t' & Et & _ & Hq & _). assert (t' = t) as -> by congruence.
  assert (Ew : bq_Services q !! s = Some (sv_ID (the_service t s))) by (by rewrite Hq, lookup_fmap, Es).
  assert (Hi : is_Some (ids !! s)) by (apply elem_of_dom; rewrite (bt_services _ _ bound); apply elem_of_dom; by rewrite Ew).
  destruct Hi as [id Ei]. unfold the_id. rewrite Ei. split; [done|]. by destruct (bt_ids _ _ bound s id _ Ei Ew).
Qed.

Lemma elem_of_names item : (item ∈ in_Names input) ↔
  (∃ s name v, has_variable s name v ∧ item = present_name "unverifiable" snapshot s (the_id ids s) name v) ∨
  ∃ s name, has_absent s name ∧ item = absent_name ids s name.
Proof using requested target_of.
  cbn [the_input in_Names]. rewrite list_elem_of_bind. unfold service_names. setoid_rewrite elem_of_app. setoid_rewrite elem_of_variable_names. split.
  - intros (s & [(name & v & Ev & ->)|(name & -> & Hn)%list_elem_of_fmap] & Hs%elem_of_services_of); pose proof (service_of s Hs) as Es.
    + left. exists s, name, v. split; [by exists (the_service t s)|done].
    + right. exists s, name. split; [|done]. exists (the_service t s). split; [done|]. by rewrite sort_strings_perm in Hn.
  - intros [(s & name & v & (service & Es & Ev) & ->)|(s & name & (service & Es & Hn) & ->)];
      (assert (Hs : s ∈ siftCutServices) by (apply services_exact; by rewrite Es)); rewrite (service_of s Hs) in Es; injection Es as <-;
      exists s; (split; [|by apply elem_of_services_of]).
    + left. by exists name, v.
    + right. apply list_elem_of_fmap_2. by rewrite sort_strings_perm.
Qed.

Lemma elem_of_actions a : (a ∈ in_Actions input) ↔
  ∃ s name v, has_variable s name v ∧ a ∈ variable_action s (the_id ids s) name (variable_record v) (variable_revision snapshot v) v.
Proof using requested target_of.
  cbn [the_input in_Actions]. rewrite list_elem_of_bind. unfold service_actions. setoid_rewrite elem_of_variable_actions. split.
  - intros (s & (name & v & Ev & Ha) & Hs%elem_of_services_of). pose proof (service_of s Hs) as Es. exists s, name, v. split; [by exists (the_service t s)|done].
  - intros (s & name & v & (service & Es & Ev) & Ha). assert (Hs : s ∈ siftCutServices) by (apply services_exact; by rewrite Es).
    rewrite (service_of s Hs) in Es. injection Es as <-. exists s. split; [by exists name, v|by apply elem_of_services_of].
Qed.

Lemma railway_target_ok : target_ok (doc_Manifest d) t.
Proof using valid target_of. apply valid_manifest_spec in valid as (_ & _ & _ & _ & Ht & _). by eapply Ht. Qed.

Lemma has_variable_ok s name v : has_variable s name v → s ∈ siftCutServices ∧ name ≠ "" ∧ variable_ok (doc_Manifest d) name v ∧ record_known snapshot v.
Proof using valid requested target_of known.
  intros (service & Es & Ev). assert (Hs : s ∈ siftCutServices) by (apply services_exact; by rewrite Es).
  pose proof (to_services _ _ railway_target_ok s service Es) as Hok. destruct (so_variables _ _ Hok name v Ev) as [Hn Hv].
  split_and!; [done|by intros ->|done|by eapply known].
Qed.

Lemma plain_service s : s ∈ siftCutServices → contains_byte "000" s = false ∧ contains_byte "/" s = false ∧ s ≠ "".
Proof. unfold siftCutServices. intros Hs. repeat (apply elem_of_cons in Hs as [->|Hs]; [done|]). by apply elem_of_nil in Hs. Qed.

Lemma names_sound item : item ∈ in_Names input → name_sound (in_Target input) item.
Proof using valid requested target_of bound known.
  assert (Hb : ∀ s, bound_service (in_Target input) s = the_id ids s) by done.
  rewrite elem_of_names. intros [(s & name & v & Hv & ->)|(s & name & Hn & ->)].
  - destruct (has_variable_ok s name v Hv) as (Hs & Hne & _). destruct (id_of s Hs) as [_ Hid]. destruct (plain_service s Hs) as (Hp & _ & Hs').
    split; [done|done|apply Hb|by left|]. cbn. destruct (variable_fields _ _ snapshot name v valid (proj1 (proj2 (proj2 (has_variable_ok s name v Hv)))) (proj2 (proj2 (proj2 (has_variable_ok s name v Hv))))) as [(-> & -> & _)|(_ & ? & ?)]; [by left|by right].
  - destruct Hn as (service & Es & Hin). assert (Hs : s ∈ siftCutServices) by (apply services_exact; by rewrite Es).
    destruct (id_of s Hs) as [_ Hid]. destruct (plain_service s Hs) as (Hp & _ & Hs').
    assert (Hne : name ≠ "") by (destruct (so_absent _ _ (to_services _ _ railway_target_ok s service Es)) as [_ Ha]; destruct (Ha name Hin) as [Hpat _]; by intros ->).
    split; [done|done|apply Hb|by right|by left].
Qed.

Lemma names_once : NoDup ((λ item, (pn_Service item, pn_Name item)) <$> in_Names input).
Proof using valid requested target_of.
  apply NoDup_fmap_2_strong.
  - intros x y Hx Hy [= E1 E2]. apply elem_of_names in Hx, Hy.
    assert (Hclash : ∀ s name v, has_variable s name v → has_absent s name → False).
    { intros s name v (service & Es & Ev) (service' & Es' & Hin). assert (service' = service) as -> by congruence.
      destruct (so_absent _ _ (to_services _ _ railway_target_ok s service Es)) as [_ Ha]. destruct (Ha name Hin) as [_ Hn]. congruence. }
    destruct Hx as [(s & n & v & Hv & ->)|(s & n & Ha & ->)], Hy as [(s' & n' & v' & Hv' & ->)|(s' & n' & Ha' & ->)]; cbn in E1, E2; subst s' n'.
    + destruct Hv as (service & Es & Ev), Hv' as (service' & Es' & Ev'). congruence.
    + by destruct (Hclash s n v).
    + by destruct (Hclash s n v').
    + done.
  - cbn [the_input in_Names]. apply NoDup_bind; [| |apply NoDup_services_of].
    + intros s1 s2 item _ _ H1 H2. assert (Hser : ∀ s, item ∈ service_names snapshot t ids s → pn_Service item = s).
      { intros s [(n & v & _ & ->)%elem_of_variable_names|(n & -> & _)%list_elem_of_fmap]%elem_of_app; done. }
      rewrite <-(Hser s1 H1). by apply Hser.
    + intros s Hs%elem_of_services_of. unfold service_names. apply NoDup_app. split_and!.
      * by eapply NoDup_fmap_1, NoDup_variable_names.
      * intros item (n & v & _ & ->)%elem_of_variable_names (n' & E & _)%list_elem_of_fmap. discriminate E.
      * apply NoDup_fmap_2_strong; [by intros n n' _ _ [= ->]|]. rewrite sort_strings_perm.
        apply (so_absent _ _ (to_services _ _ railway_target_ok s _ (service_of s Hs))).
Qed.

(** An action of the plan, with its name. *)
Lemma action_for a : a ∈ in_Actions input → ac_ID a = ac_Service a +:+ "/" +:+ ac_Name a ∧ ac_Service a ∈ siftCutServices ∧
  ∃ item, item ∈ in_Names input ∧ is_for PlanKindNamesOnly a item.
Proof using valid requested target_of known.
  intros (s & name & v & Hv & Ha)%elem_of_actions. destruct (has_variable_ok s name v Hv) as (Hs & Hne & _).
  destruct (variable_action_spec _ _ _ _ _ _ _ Ha) as (E1 & E2 & E3 & E4 & E5 & E6 & E7 & Hval). rewrite E1, E3. split_and!; [done|done|].
  exists (present_name "unverifiable" snapshot s (the_id ids s) name v). split; [apply elem_of_names; left; by exists s, name, v|].
  split_and!; [done..|]. left. split_and!; [done| |done|done]. split; [done|]. rewrite E6, E7.
  destruct (variable_fields _ _ snapshot name v valid (proj1 (proj2 (proj2 (has_variable_ok s name v Hv)))) (proj2 (proj2 (proj2 (has_variable_ok s name v Hv))))) as [(H1 & H2 & H3)|(H1 & H2 & H3)], Hval as [(H4 & H5 & H6)|(H4 & H5 & H6)]; try congruence; [by right|by left].
Qed.

Lemma actions_once : NoDup ((λ a, (ac_Service a, ac_Name a)) <$> in_Actions input).
Proof using valid requested target_of.
  assert (Hser : ∀ s a, a ∈ service_actions snapshot t ids s → ac_Service a = s)
    by (intros s a (n & v & _ & (E & _)%variable_action_spec)%elem_of_variable_actions; done).
  apply NoDup_fmap_2_strong.
  - intros x y Hx Hy [= E1 E2]. cbn [the_input in_Actions] in Hx, Hy. apply list_elem_of_bind in Hx as (s & Hx & _), Hy as (s' & Hy & _).
    assert (s' = s) as -> by (rewrite <-(Hser s x Hx), <-(Hser s' y Hy); done).
    apply (NoDup_fmap_inj_on ac_Name (service_actions snapshot t ids s)); [apply NoDup_variable_actions|done..].
  - cbn [the_input in_Actions]. apply NoDup_bind; [| |apply NoDup_services_of].
    + intros s1 s2 a _ _ H1 H2. rewrite <-(Hser s1 a H1). by apply Hser.
    + intros s _. by eapply NoDup_fmap_1, NoDup_variable_actions.
Qed.

Lemma railway_input_sound : input_sound input.
Proof using valid requested target_of current bound known.
  destruct current as (Hr & Hs & Hb & Hd). apply Snapshot_identity in Hs as [Hb' Hd'].
  split; [|apply (bt_scope _ _ bound)|by left|apply names_sound|apply names_once| |apply actions_once|].
  - cbn. rewrite <-Hb, <-Hd. by split_and!.
  - intros a (E & Hsv & item & Hi & Hf)%action_for. split; [|by exists item]. rewrite E. destruct (plain_service _ Hsv) as (_ & _ & Hne).
    by destruct (ac_Service a).
  - intros a b (Ea & Hsa & _)%action_for (Eb & Hsb & _)%action_for E. rewrite Ea, Eb in E.
    destruct (plain_service _ Hsa) as (_ & Hpa & _), (plain_service _ Hsb) as (_ & Hpb & _). by apply separated_at_inj in E.
Qed.
End Sound.

Definition manifest_variable (d : Document) (s name : string) (v : Variable_) : Prop := ∃ t, railway_target d = Some t ∧ has_variable t s name v.
Definition manifest_absent (d : Document) (s name : string) : Prop := ∃ t, railway_target d = Some t ∧ has_absent t s name.

Definition writes_variable (snapshot : Snapshot) (target : Target) (s name : string) (v : Variable_) (a : Action) : Prop :=
  ac_Service a = s ∧ ac_Name a = name ∧ tg_ServiceIDs target !! s = Some (ac_ServiceID a) ∧ action_writes snapshot v a.

Lemma variable_writes d q t snapshot target s name v a : BindingRequestForManifest (Some d) = Ok q → railway_target d = Some t → bound_to q target →
  has_variable t s name v → record_known snapshot v →
  a ∈ variable_action s (the_id (tg_ServiceIDs target) s) name (variable_record v) (variable_revision snapshot v) v →
  writes_variable snapshot target s name v a.
Proof.
  intros Hq Et Hb (service & Es & _) Hk Ha. assert (Hs : s ∈ siftCutServices) by (eapply services_exact; [done..|by rewrite Es]).
  destruct (id_of d target q t Hq Et Hb s Hs) as [Hid _].
  destruct (variable_action_spec _ _ _ _ _ _ _ Ha) as (E1 & E2 & E3 & _). split_and!; [done|done|by rewrite E2|by eapply variable_action_writes].
Qed.

(** The planner makes complete and valid plans of a manifest.  For a manifest that
    passes its test the planner succeeds exactly when the manifest has the four services,
    the snapshot is current, the target is bound to the services with the expected
    identifiers, each once, and the snapshot has the records that the variables name.  Then
    every variable of the manifest, and every name that must be absent, is in the plan; the
    actions are one for each variable with a record or a constant, and no other, for the
    bound service, with the record at the revision of the snapshot; and the plan that the
    engine makes of it, at any moment, is valid, if it has between 1 and 512 names. *)
Theorem railway_plans_are_valid d derived snapshot revision target : validate (doc_Manifest d) = Ok derived →
  ((∃ input, BuildNamesOnlyInput (Some d) snapshot revision target = Ok input) ↔
     ∃ q t, BindingRequestForManifest (Some d) = Ok q ∧ railway_target d = Some t ∧ prepared_for d snapshot revision ∧ bound_to q target ∧
       records_known snapshot t) ∧
  ∀ input, BuildNamesOnlyInput (Some d) snapshot revision target = Ok input →
    (∀ s name, (∃ item, item ∈ in_Names input ∧ pn_Service item = s ∧ pn_Name item = name ∧ pn_Desired item = "present") ↔
       ∃ v, manifest_variable d s name v) ∧
    (∀ s name, (∃ item, item ∈ in_Names input ∧ pn_Service item = s ∧ pn_Name item = name ∧ pn_Desired item = "absent") ↔
       manifest_absent d s name) ∧
    (∀ a, a ∈ in_Actions input → ∃ v, manifest_variable d (ac_Service a) (ac_Name a) v ∧ writes_variable snapshot target (ac_Service a) (ac_Name a) v a) ∧
    (∀ s name v, manifest_variable d s name v → va_Source v = "record" ∨ va_Source v = "constant" →
       ∃ a, a ∈ in_Actions input ∧ writes_variable snapshot target s name v a) ∧
    NoDup ((λ a, (ac_Service a, ac_Name a)) <$> in_Actions input) ∧
    ∀ who metadata t, 1 ≤ len (in_Names input) ≤ MaxActions → id_Provider who ≠ "" → id_ID who ≠ "" → ms_Revision metadata = "" →
      four_digit_year (unix t) → four_digit_year (unix (t + PlanTTL)) →
      Plan_Validate (plan_of input who metadata (truncate_second t)) (truncate_second t) = Ok tt.
Proof.
  intros Hv. split.
  { split.
    - intros [input (q & t & H1 & H2 & H3 & H4 & H5 & _)%BuildNamesOnlyInput_Ok]. by exists q, t.
    - intros (q & t & H1 & H2 & H3 & H4 & H5). eexists. apply BuildNamesOnlyInput_Ok. exists q, t. by split_and!. }
  intros input (q & t & Hq & Et & Hcur & Hb & Hk & ->)%BuildNamesOnlyInput_Ok.
  pose proof (railway_input_sound d derived snapshot revision target q t Hv Hq Et Hcur Hb Hk) as Hok.
  pose proof (elem_of_names d snapshot revision target q t Hq Et) as Hnames. pose proof (elem_of_actions d snapshot revision target q t Hq Et) as Hactions.
  assert (Hknown : ∀ s name v, has_variable t s name v → record_known snapshot v) by (intros s name v H; by eapply (has_variable_ok d derived)).
  split_and!.
  - intros s name. split.
    + intros (item & [(s' & n & v & H & ->)|(s' & n & _ & ->)]%Hnames & <- & <- & Hd); [by exists v, t|discriminate Hd].
    + intros (v & t' & Et' & H). assert (t' = t) as -> by congruence.
      exists (present_name "unverifiable" snapshot s (the_id (tg_ServiceIDs target) s) name v). split; [apply Hnames; left; by exists s, name, v|done].
  - intros s name. split.
    + intros (item & [(s' & n & v & _ & ->)|(s' & n & H & ->)]%Hnames & <- & <- & Hd); [discriminate Hd|by exists t].
    + intros (t' & Et' & H). assert (t' = t) as -> by congruence.
      exists (absent_name (tg_ServiceIDs target) s name). split; [apply Hnames; right; by exists s, name|done].
  - intros a (s & name & v & H & Ha)%Hactions. pose proof (variable_writes d q t snapshot target s name v a Hq Et Hb H (Hknown _ _ _ H) Ha) as Hw.
    pose proof Hw as (-> & -> & _). exists v. split; [by exists t|done].
  - intros s name v (t' & Et' & H) Hs. assert (t' = t) as -> by congruence.
    assert (Ha : ∃ a, a ∈ variable_action s (the_id (tg_ServiceIDs target) s) name (variable_record v) (variable_revision snapshot v) v).
    { unfold variable_action. destruct Hs as [-> | ->]; cbn; eexists; by left. }
    destruct Ha as [a Ha]. exists a. split; [apply Hactions; by exists s, name, v|]. by eapply variable_writes; eauto.
  - apply Hok.
  - intros who metadata now Hlen Hw1 Hw2 Hrev Hy1 Hy2. apply (input_plan_valid _ Hok); [|done..|by left|done|done].
    intros _ item [(s & n & v & _ & ->)|(s & n & _ & ->)]%Hnames; by left.
Qed.
End Railway.

(** ** The property, applied *)

Module RailwayDemo.
#[local] Existing Instances ManifestDemo.urls ManifestDemo.unicode RolloutExample.example_codec.
#[local] Instance crypto : Crypto := {| sha256 := λ _, "0123456789abcdef0123456789abcdef"; ed25519_verify := λ _ _ _, true; x25519_usable := λ _, true |}.
Definition service (order : Z) (id : string) (variables : gmap string Variable_) (absent : list string) : Service :=
  {| sv_ID := id; sv_Order := order; sv_Variables := variables; sv_Absent := absent |}.
Definition target_ : ManifestTarget := {| mt_Provider := ""; mt_Project := "app"; mt_ProjectID := ""; mt_Environment := "production";
  mt_EnvironmentID := ""; mt_Services := {["postgres" := service 1 "" ∅ []; "migrator" := service 2 "" ∅ []; "web" := service 4 "svc-4" ∅ ["DEBUG"];
    "api" := service 3 "" {["HOST" := ManifestDemo.variable_ "constant" "db" "" ""; "PASSWORD" := ManifestDemo.variable_ "record" "" "PASSWORD" ""]} []]};
  mt_Stage := ""; mt_Activation := ""; mt_HealthChecks := []; mt_Promotion := ""; mt_Rollback := "" |}.
Definition manifest : Manifest := {| mf_Version := 1; mf_Bundle := "shop"; mf_Environment := ""; mf_Policies := ∅;
  mf_Records := {["PASSWORD" := ManifestDemo.record_ "import" "" "" "secret"]};
  mf_Targets := {["railway" := target_]}; mf_Credentials := ∅; mf_RotationPolicies := ∅; mf_Configurations := []; mf_BrowserRecipes := [] |}.
Definition digest : string := hex (sha256 "").
Definition document : Document := {| doc_Manifest := manifest; doc_Canonical := ""; doc_Digest := digest; doc_Derived := [] |}.
Definition snapshot : Snapshot := {| sn_Version := 1; sn_Bundle := "shop"; sn_ManifestDigest := digest;
  sn_PhysicalToLogical := Some {["P" := "PASSWORD"]}; sn_Sources := Some {["PASSWORD" := {| ss_Source := "import"; ss_Status := "ready"; ss_Sensitivity := "" |}]};
  sn_RecordRevisions := Some {["PASSWORD" := 7]}; sn_PreviousRecordRevisions := ∅; sn_CreatedAt := "2026-08-09T20:00:00Z" |}.
Definition target (web : string) : Target := {| tg_ProjectID := "p"; tg_EnvironmentID := "e";
  tg_ServiceIDs := {["postgres" := "svc-1"; "migrator" := "svc-2"; "api" := "svc-3"; "web" := web]} |}.
Definition input : result PlanInput := BuildNamesOnlyInput (Some document) snapshot 5 (target "svc-4").

(** The names come by the order of their services. *)
Example planned_names : match input with Ok i => (λ n, (pn_Service n, pn_Name n, pn_Desired n, pn_ExpectedRecordRevision n)) <$> in_Names i | Err _ => [] end =
  [("api", "HOST", "present", 0); ("api", "PASSWORD", "present", 7); ("web", "DEBUG", "absent", 0)].
Proof. vm_compute. reflexivity. Qed.
Example other_service_is_refused : BuildNamesOnlyInput (Some document) snapshot 5 (target "svc-9") = Err "Railway service binding does not match the manifest".
Proof. vm_compute. reflexivity. Qed.

Lemma railway_plans_are_valid_witness : ∃ i, input = Ok i ∧ NoDup ((λ a, (ac_Service a, ac_Name a)) <$> in_Actions i).
Proof.
  destruct input as [i|] eqn:E; [|vm_compute in E; discriminate E]. exists i. split; [reflexivity|].
  destruct (railway_plans_are_valid document [] snapshot 5 (target "svc-4")) as [_ H]; [vm_compute; reflexivity|].
  destruct (H i E) as (_ & _ & _ & _ & Hnd & _). exact Hnd.
Defined.
End RailwayDemo.
