(* ===== verification/RailwaySafety.v ===== *)
(** What the Railway adapter sends, what it makes of the replies, and what the rollout
    engine writes through it. *)
From S2P Require Import Prelude Timestamp Text Secure Provider RolloutPlan RolloutEngine RolloutProtocol RolloutProperties.
From S2P Require Import Template Manifest Railway.
From stdpp Require Import options.

(** ** Requests *)

Section Requests.
Context {codec : RailwayCodec} (a : Adapter).

(** The request of one of the three documents, with the credential, to the endpoint. *)
Definition sends_query (query : Query) (variables : Variables) (request : HttpRequest) : Prop :=
  ∃ body, query_json query variables = Ok body ∧ request = graphql_request a body.

Definition exchanges (P : HttpRequest → Prop) (X : Type) (c : http X) : Prop := match c with Exchange request => P request end.

Lemma wp_graphql {A} (P : HttpRequest → Prop) operation query variables (decode : string → option A) past :
  (∀ request, sends_query query variables request → P request) →
  wp (λ _, exchanges P) (graphql (Some a) operation query variables decode) past (λ _ _, True) (λ _ _, True).
Proof.
  intros HP. unfold graphql. destruct (negb (nonempty (ad_token a))); [done|]. destruct (query_json query variables) as [body|] eqn:E; [|done].
  split; [apply HP; by exists body|]. by intros [reply|].
Qed.

(** Identification and inspection read; they send no other document. *)
Definition reads (request : HttpRequest) : Prop :=
  sends_query identityQuery NoVariables request ∨ ∃ id, sends_query targetQuery (ProjectVariables id) request.

Lemma wp_identity past : wp (λ _, exchanges reads) (identity (Some a)) past (λ _ _, True) (λ _ _, True).
Proof.
  apply (wp_and_then _ _ _ _ _ (λ _ _, True)); [apply wp_graphql; by left| |done]. intros past' token _. by destruct (_ || _).
Qed.

Lemma wp_Identity past : wp (λ _, exchanges reads) (Identity (Some a)) past (λ _ _, True) (λ _ _, True).
Proof. by apply (wp_and_then _ _ _ _ _ (λ _ _, True)); [apply wp_identity|..]. Qed.

Lemma wp_project id past : wp (λ _, exchanges reads) (project (Some a) id) past (λ _ _, True) (λ _ _, True).
Proof. apply wp_graphql. intros request Hr. right. by exists id. Qed.

Lemma wp_Inspect target past : wp (λ _, exchanges reads) (Inspect (Some a) target) past (λ _ _, True) (λ _ _, True).
Proof.
  apply (wp_and_then _ _ _ _ _ (λ _ _, True)); [apply wp_identity| |done]. intros past' token _. destruct (_ || _); [done|].
  apply (wp_and_then _ _ _ _ _ (λ _ _, True)); [apply wp_project| |done]. intros past'' found _. destruct (_ || _); [done|].
  apply (wp_and_then _ _ _ _ _ (λ _ _, True)); [done|by intros ? ? _|done].
Qed.

Definition upserts_for (request : WriteRequest) : HttpRequest → Prop := sends_query variableUpsertMutation (UpsertVariables (upsert_input request)).

Lemma wp_Write request past : wp (λ _, exchanges (upserts_for request)) (Write (Some a) request) past (λ _ _, True) (λ _ _, True).
Proof.
  unfold Write. destruct (_ || _); [done|]. apply (wp_and_then _ _ _ _ _ (λ _ _, True)); [by apply wp_graphql| |done].
  intros past' committed _. by destruct (negb committed).
Qed.

(** ** Outcomes of a write *)

(** The service says whether it has written. *)
Definition says (b : bool) (reply : HttpReply) : Prop := 200 ≤ hr_Status reply ≤ 299 ∧ ∃ raw ev, hr_Body reply = Some raw ∧
  slen raw ≤ maxResponseBytes ∧ envelope_of_json raw = Some ev ∧ (ev_Errors ev = [] ∧ ev_Data ev ≠ "" ∧ ev_Data ev ≠ "null") ∧
  upsert_of_json (ev_Data ev) = Some b.
(** A status with which a service refuses. *)
Definition refuses (reply : HttpReply) : Prop := says false reply ∨ hr_Status reply < 200 ∨ 300 ≤ hr_Status reply < 500 ∧ hr_Status reply ≠ 429.
Definition unclear (reply : HttpReply) : Prop := 200 ≤ hr_Status reply ≤ 299 ∧ ¬ says true reply ∨ 500 ≤ hr_Status reply.

Definition classified (reply : option HttpReply) (r : WriteEvidence + AdapterError) : Prop :=
  match r with
  | inl _ => ∃ rp, reply = Some rp ∧ says true rp
  | inr (Typed e) =>
      match err_Retry e with
      | RetryNever => ∃ rp, reply = Some rp ∧ refuses rp
      | RetrySafe => ∃ rp, reply = Some rp ∧ hr_Status rp = 429
      | RetryAmbiguous => reply = None ∨ ∃ rp, reply = Some rp ∧ unclear rp
      | RetryOther _ => False
      end
  | inr (Untyped _) => False
  end.

Lemma says_not reply : says true reply → says false reply → False.
Proof. intros (_ & raw & ev & E1 & _ & E2 & _ & E3) (_ & raw' & ev' & E1' & _ & E2' & _ & E3'). congruence. Qed.

(** The class of an error is that of its status, when nothing was said. *)
Lemma retry_classified reply code : ¬ says true reply →
  classified (Some reply) (inr (Typed (NewError "write" (hr_Status reply) code (retryForResponse "write" (hr_Status reply))))).
Proof.
  intros Hno. unfold classified. cbn [NewError err_Retry]. unfold retryForResponse. cbn [String.eqb Ascii.eqb Bool.eqb andb].
  destruct (Z.eqb_spec (hr_Status reply) 429) as [E|E]; [by exists reply|].
  destruct (200 <=? hr_Status reply) eqn:E1, (hr_Status reply <=? 299) eqn:E2; cbn [andb].
  1: { right. exists reply. split; [done|]. left. split; [lia|done]. }
  all: destruct (500 <=? hr_Status reply) eqn:E3; cbn [validRetry].
  all: try (right; exists reply; split; [done|]; right; lia).
  all: exists reply; split; [done|]; right; lia.
Qed.

Lemma read_classified reply : match read_reply "write" upsert_of_json reply with
  | inl b => says b reply
  | inr e => classified (Some reply) (inr e)
  end.
Proof.
  unfold read_reply. destruct (hr_Body reply) as [raw|] eqn:Eb.
  2: { apply retry_classified. intros (_ & raw & ev & E & _). congruence. }
  destruct (maxResponseBytes <? slen raw) eqn:Elen.
  { apply retry_classified. intros (_ & raw' & ev & E & Hl & _). assert (raw' = raw) as -> by congruence. lia. }
  destruct (hr_Status reply <? 200) eqn:E1; cbn [orb]; [apply retry_classified; intros [H _]; lia|].
  destruct (299 <? hr_Status reply) eqn:E2; [apply retry_classified; intros [H _]; lia|].
  destruct (envelope_of_json raw) as [ev|] eqn:Ee.
  2: { apply retry_classified. intros (_ & raw' & ev & E & _ & Ee' & _). congruence. }
  case_bool_decide as Herr; cbn [negb orb].
  2: { apply retry_classified. intros (_ & raw' & ev' & E & _ & Ee' & (Hn & _) & _). congruence. }
  destruct (nonempty (ev_Data ev)) eqn:Hne; cbn [negb orb].
  2: { apply nonempty_false in Hne. apply retry_classified. intros (_ & raw' & ev' & E & _ & Ee' & (_ & Hn & _) & _). congruence. }
  apply nonempty_true in Hne. destruct (String.eqb_spec (ev_Data ev) "null") as [Enull|Enull].
  { apply retry_classified. intros (_ & raw' & ev' & E & _ & Ee' & (_ & _ & Hn) & _). congruence. }
  destruct (upsert_of_json (ev_Data ev)) as [b|] eqn:Ed.
  2: { apply retry_classified. intros (_ & raw' & ev' & E & _ & Ee' & _ & Hd). congruence. }
  split; [lia|]. exists raw, ev. split_and!; try done. lia.
Qed.

(** What the request of a write is checked for. *)
Definition well_addressed (request : WriteRequest) : Prop := wr_Operation request = "upsert" ∧ wr_ServiceID request ≠ "" ∧ wr_Name request ≠ "" ∧
  tg_ProjectID (wr_Target request) ≠ "" ∧ tg_EnvironmentID (wr_Target request) ≠ "" ∧
  tg_ServiceIDs (wr_Target request) !! wr_Service request = Some (wr_ServiceID request).

(** A write sends one request or none, and classifies what came of it: without a request
    it fails for good; it succeeds only when the service says that it has written; an error
    that is not ambiguous means that the service has refused; and whenever the service
    may have written, the error is ambiguous. *)
Lemma write_classified {W} {network : World http W} request (w : W) :
  let '(past, r, _) := run (Write (Some a) request) w [] in
  match exchanged <$> past with
  | [] => ∃ code, r = inr (Typed (NewError "write" 0 code RetryNever))
  | [(sent, reply)] => well_addressed request ∧ upserts_for request sent ∧ classified reply r
  | _ => False
  end.
Proof.
  unfold Write. destruct (_ || _) eqn:Eok; [by exists "INVALID_WRITE"|]. unfold graphql.
  destruct (negb (nonempty (ad_token a))); [by exists "NOT_CONFIGURED"|].
  destruct (query_json variableUpsertMutation _) as [body|] eqn:Ej; [|by exists "ENCODE_FAILED"].
  assert (Hw : well_addressed request).
  { apply orb_false_iff in Eok as [[[[[H1 H2]%orb_false_iff H3]%orb_false_iff H4]%orb_false_iff H5]%orb_false_iff H6].
    apply negb_false_iff in H1, H2, H3, H4, H5, H6. apply String.eqb_eq in H1, H6. apply nonempty_true in H2, H3, H4, H5. split_and!; try done.
    destruct (tg_ServiceIDs (wr_Target request) !! wr_Service request); cbn in H6; congruence. }
  assert (Hs : upserts_for request (graphql_request a body)) by by exists body.
  cbn. destruct (answer _ (Exchange _) w) as [[reply|] w'] eqn:Ea; cbn.
  2: { split_and!; [done|done|by left]. }
  pose proof (read_classified reply) as Hc. destruct (read_reply "write" upsert_of_json reply) as [[]|e]; cbn.
  - split_and!; [done|done|by exists reply].
  - split_and!; [done|done|]. exists reply. split; [done|by left].
  - split_and!; done.
Qed.
End Requests.

(** ** The binding *)

Section Binding.
Context {codec : RailwayCodec} (a : Adapter).

(** The services that were found: each name once among the nodes, with a valid identifier
    that agrees with the expected one, and no identifier twice. *)
Record resolved (values : list node) (expected : gmap string string) (names : list string) (seen : gset string) (result : gmap string string) : Prop := {
  rv_names : ∀ name, is_Some (result !! name) ↔ name ∈ names;
  rv_ids : ∀ name id, result !! name = Some id → validID id = true ∧ (default "" (expected !! name) = "" ∨ default "" (expected !! name) = id) ∧ (id ∉ seen) ∧
    ∃ n, filter (λ n, nd_Name n = name) values = [n] ∧ nd_ID n = id;
  rv_once : ∀ name name' id, result !! name = Some id → result !! name' = Some id → name = name';
}.

Lemma resolve_names_Ok values expected names : ∀ seen result, NoDup names →
  resolve_names values expected names seen = inl result → resolved values expected names seen result.
Proof.
  induction names as [|name names IH]; intros seen result Hnd; cbn [resolve_names].
  - intros [= <-]. split; [|by intros ? ? ?%lookup_empty_Some|by intros ? ? ? ?%lookup_empty_Some]. intros name. rewrite lookup_empty, elem_of_nil. by split; [intros []|].
  - inversion Hnd as [|? ? Hni Hnd']; subst. destruct (filter (λ n, nd_Name n = name) values) as [|n [|]] eqn:En; [done| |done].
    destruct (validID (nd_ID n)) eqn:Hv; cbn [negb]; [|done]. destruct (_ && _) eqn:Hw; [done|]. case_bool_decide as Hseen; [done|].
    destruct (resolve_names values expected names ({[nd_ID n]} ∪ seen)) as [r|] eqn:Er; [|done]. intros [= <-].
    destruct (IH _ _ Hnd' Er) as [Hnames Hids Honce].
    assert (Hfresh : ∀ m id, r !! m = Some id → id ≠ nd_ID n ∧ m ≠ name).
    { intros m id Hm. destruct (Hids m id Hm) as (_ & _ & Hn & _). split; [set_solver|]. intros ->. apply Hni, Hnames. by rewrite Hm. }
    split.
    + intros m. rewrite elem_of_cons, <-Hnames. destruct (decide (m = name)) as [->|Hne]; [rewrite lookup_insert_eq; split; [by left|by eexists]|].
      rewrite lookup_insert_ne by done. tauto.
    + intros m id [[<- <-]|[Hne Hm]]%lookup_insert_Some.
      * split_and!; [done| |done|by exists n]. apply andb_false_iff in Hw as [Hw|Hw]; [left; by apply nonempty_false|right; by apply negb_false_iff, String.eqb_eq in Hw].
      * destruct (Hids m id Hm) as (H1 & H2 & H3 & H4). split_and!; [done..|set_solver|done].
    + intros m m' id [[<- <-]|[Hne Hm]]%lookup_insert_Some [[<- E]|[Hne' Hm']]%lookup_insert_Some; try done.
      * destruct (Hfresh m' _ Hm'). done.
      * destruct (Hfresh m _ Hm). congruence.
      * by eapply Honce.
Qed.

Lemma resolveServices_Ok values expected result : resolveServices values expected = inl result →
  resolved values expected (sortedMapKeys expected) ∅ result.
Proof. apply resolve_names_Ok, NoDup_sortedMapKeys. Qed.

(** How a binding that succeeds came about. *)
Definition binds (q : BindingRequest) (target : Target) : Prop := ∃ token found, validID (ti_ProjectID token) = true ∧ validID (ti_EnvironmentID token) = true ∧
  (bq_ProjectID q = "" ∨ bq_ProjectID q = ti_ProjectID token) ∧ (bq_EnvironmentID q = "" ∨ bq_EnvironmentID q = ti_EnvironmentID token) ∧
  pm_ID found = ti_ProjectID token ∧ pm_Name found = bq_Project q ∧ exactNode (pm_Environments found) (bq_Environment q) (ti_EnvironmentID token) = true ∧
  tg_ProjectID target = ti_ProjectID token ∧ tg_EnvironmentID target = ti_EnvironmentID token ∧
  resolveServices (pm_Services found) (bq_Services q) = inl (tg_ServiceIDs target).

Definition bound_if (q : BindingRequest) (r : Target + AdapterError) : Prop := match r with inl target => binds q target | inr _ => True end.
Definition valid_token (r : tokenIdentity + AdapterError) : Prop :=
  match r with inl token => validID (ti_ProjectID token) = true ∧ validID (ti_EnvironmentID token) = true | inr _ => True end.

Lemma wp_identity_valid past : wp (λ _, exchanges (reads a)) (identity (Some a)) past (λ _, valid_token) (λ _, valid_token).
Proof.
  apply (wp_and_then _ _ _ _ _ (λ _ _, True)); [apply wp_graphql; by left| |done]. intros past' token _.
  destruct (validID (ti_ProjectID token)) eqn:H1; cbn [negb orb]; [|done]. destruct (validID (ti_EnvironmentID token)) eqn:H2; [|done]. by split.
Qed.

Lemma wp_Bind q past : wp (λ _, exchanges (reads a)) (Bind (Some a) q) past (λ _, bound_if q) (λ _, bound_if q).
Proof.
  unfold Bind. destruct (negb _ || _ || _); [done|]. apply (wp_and_then _ _ _ _ _ (λ _, valid_token)); [apply wp_identity_valid| |done].
  intros past' token [H1 H2]. destruct (_ || _) eqn:Hids; [done|].
  apply (wp_and_then _ _ _ _ _ (λ _ _, True)); [apply wp_project| |done]. intros past'' found _. destruct (negb _ || negb _) eqn:Hp; [done|].
  destruct (exactNode _ _ _) eqn:He; cbn [negb]; [|done].
  apply (wp_and_then _ _ _ _ _ (λ _ r, r = resolveServices (pm_Services found) (bq_Services q))); [done| |done].
  intros past3 ids Hr. exists token, found. apply orb_false_iff in Hids as [Hi1 Hi2], Hp as [Hp1%negb_false_iff Hp2%negb_false_iff].
  apply String.eqb_eq in Hp1, Hp2. apply andb_false_iff in Hi1, Hi2. rewrite nonempty_false, negb_false_iff, String.eqb_eq in Hi1, Hi2.
  by split_and!.
Qed.

(** What is bound, the planner accepts. *)
Theorem bindings_are_bound {W} {network : World http W} q (w : W) target : (run (Bind (Some a) q) w []).1.2 = inl target →
  bound_to q target ∧ (∀ name id, tg_ServiceIDs target !! name = Some id → validID id = true).
Proof.
  intros Hr. pose proof (wp_run _ (Bind (Some a) q) [] _ w (wp_Bind q []) I) as Hw. destruct (run _ w []) as [[past r] w']. cbn in Hr. subst r.
  destruct Hw as [_ Hb]. destruct Hb as (token & found & H1 & H2 & _ & _ & _ & _ & _ & E1 & E2 & Hres%resolveServices_Ok).
  assert (Hne : ∀ id, validID id = true → id ≠ "") by (by intros id Hv ->). split; [|intros name id Hi; exact (proj1 (rv_ids _ _ _ _ _ Hres name id Hi))].
  split.
  - rewrite E1, E2. split; by apply Hne.
  - apply set_eq. intros name. rewrite !elem_of_dom, (rv_names _ _ _ _ _ Hres). apply elem_of_sortedMapKeys.
  - intros name id want Hi Hw. destruct (rv_ids _ _ _ _ _ Hres name id Hi) as (Hv & Hid & _). rewrite Hw in Hid. split; [by apply Hne|done].
  - apply Hres.
Qed.
End Binding.

(** ** The engine over the adapter *)

Section Engine.
Context {crypto : Crypto} {plans : PlanCodec} {engine : Engine} {codec : RailwayCodec} (a : Adapter).
Context {W : Type} {network : World http W} {others : Program.World call W}.

(** What was sent and answered, and the rest of the world. *)
Abbreviation wire := (history http * W)%type.

(** The calls to the provider are those of the adapter, which takes no batches; the
    remaining calls go to the other collaborators of the engine. *)
Definition over {A} (p : fallible http A) (σ : wire) : (A + AdapterError) * wire := let '(past, r, w) := run p σ.2 σ.1 in (r, (past, w)).
Definition railway_answer X (c : call X) : wire → X * wire :=
  match c in RolloutEngine.Call.call X return wire → X * wire with
  | Call.Capabilities => λ σ, (Capabilities, σ)
  | Call.Identity => over (Identity (Some a))
  | Call.Inspect target => over (Inspect (Some a) target)
  | Call.Write request => over (Write (Some a) request)
  | Call.Verify _ => λ σ, (inl Verify, σ)
  | c => λ σ, let '(x, w) := answer (C:=RolloutEngine.Call.call) _ c σ.2 in (x, (σ.1, w))
  end.
Definition railway_world : Program.World call wire := railway_answer.

(** A request on the wire reads, or is that of a write of the engine. *)
Definition accounted (past : history call) (e : event http) : Prop :=
  let sent := (exchanged e).1 in reads a sent ∨ ∃ newer older request x, past = newer ++ Event (Call.Write request) x :: older ∧ upserts_for a request sent.

Lemma accounted_later past e new : accounted past e → accounted (new ++ past) e.
Proof.
  intros [Hr|(newer & older & request & x & -> & Hu)]; [by left|]. right. exists (new ++ newer), older, request, x.
  by rewrite <-(assoc_L app).
Qed.

Lemma over_accounted {A} (P : HttpRequest → Prop) (p : fallible http A) σ : wp (λ _, exchanges P) p σ.1 (λ _ _, True) (λ _ _, True) →
  ∃ new, (over p σ).2.1 = new ++ σ.1 ∧ Forall (λ e, P (exchanged e).1) new.
Proof.
  intros Hp. destruct (run_asks (exchanges P) p σ.2 σ.1 Hp) as (new & E & Hnew). exists new. unfold over.
  destruct (run p σ.2 σ.1) as [[past r] w]. cbn in *. split; [done|]. eapply Forall_impl; [exact Hnew|]. by intros [X [request] x].
Qed.

Lemma answer_accounted X (c : call X) σ past : Forall (accounted past) σ.1 →
  Forall (accounted (Event c (railway_answer X c σ).1 :: past)) (railway_answer X c σ).2.1.
Proof.
  intros Hpast. assert (Hold : ∀ x, Forall (accounted (Event c x :: past)) σ.1)
    by (intros x; eapply Forall_impl; [exact Hpast|]; intros e; apply (accounted_later past e [_])).
  assert (Hread : ∀ A (p : fallible http A), wp (λ _, exchanges (reads a)) p σ.1 (λ _ _, True) (λ _ _, True) →
    ∀ x, Forall (accounted (Event c x :: past)) (over p σ).2.1).
  { intros A p Hp x. destruct (over_accounted _ p σ Hp) as (new & -> & Hnew). apply Forall_app. split; [|apply Hold].
    eapply Forall_impl; [exact Hnew|]. intros e He. by left. }
  destruct c; cbn [railway_answer]; try apply Hold; try (match goal with |- context [answer ?X ?c ?w] => destruct (answer X c w) end; apply Hold).
  - apply Hread, wp_Identity.
  - apply Hread, wp_Inspect.
  - destruct (over_accounted _ _ σ (wp_Write a request σ.1)) as (new & -> & Hnew). apply Forall_app. split; [|apply Hold].
    eapply Forall_impl; [exact Hnew|]. intros e He. right. by exists [], past, request, (over (Write (Some a) request) σ).1.
Qed.

Lemma run_accounted {R : Type} (p : Program.flow call R R) σ past : Forall (accounted past) σ.1 →
  let '(past', _, σ') := @run _ _ railway_world _ p σ past in Forall (accounted past') σ'.1.
Proof.
  revert σ past. induction p as [x|x|X c k IH]; intros σ past Hpast; cbn; [done..|].
  unfold answer, railway_world. pose proof (answer_accounted X c σ past Hpast) as Ha. destruct (railway_answer X c σ) as [x σ']. by apply IH.
Qed.

Lemma session_accounted commands σ past : Forall (accounted past) σ.1 →
  let '(past', σ') := session (world:=railway_world) commands σ past in Forall (accounted past') σ'.1.
Proof.
  revert σ past. induction commands as [|c commands IH]; intros σ past Hpast; cbn; [done|].
  pose proof (run_accounted (command_flow c) σ past Hpast) as Hr. destruct (@run _ _ railway_world _ (command_flow c) σ past) as [[past' r] σ']. by apply IH.
Qed.
End Engine.

(** C30: what the engine puts on the wire is authorized.  Run the rollout engine over the
    Railway adapter, any network, any store, clock and user.  Every request that leaves
    carries the credential to the endpoint of the adapter, and is the query for the
    identity or the target, or the upsert of one variable, without a deployment: for an
    action of a loaded plan that was checked against the snapshot, the identity and the
    target, confirmed or continued, in the project, environment and bound service of the
    plan, with the planned revision of its record or its public constant.  And each
    attempt of such a write sends at most one request; it is taken as written only when
    the service says so, as failed only when the service refuses, and is ambiguous in
    every other case. *)
Theorem railway_writes_are_authorized {crypto : Crypto} {plans : PlanCodec} {engine : Engine} {codec : RailwayCodec} (a : Adapter)
    {W} {network : World http W} {others : Program.World call W} commands (w : W) :
  let '(past, σ) := session (world:=railway_world a) commands ([], w) [] in
  (∀ e, e ∈ σ.1 → reads a (exchanged e).1 ∨
     ∃ plan item value newer older request x, past = newer ++ Event (Call.Write request) x :: older ∧
       upserts_for a request (exchanged e).1 ∧ the_plan (told older) = Some plan ∧ checked plan (since_plan (told older)) ∧
       oa_Action item ∈ pp_Actions plan ∧ request = action_request plan item value ∧
       value_known plan (oa_Action item) value (since_plan (told older)) ∧ authorized (told older) plan item) ∧
  ∀ request w, let '(sent, r, _) := run (Write (Some a) request) w [] in
    match exchanged <$> sent with
    | [] => ∃ code, r = inr (Typed (NewError "write" 0 code RetryNever))
    | [(sent, reply)] => well_addressed request ∧ upserts_for a request sent ∧ classified reply r
    | _ => False
    end.
Proof.
  pose proof (session_accounted a commands ([], w) [] ltac:(constructor)) as Hacc.
  pose proof (session_lawful (world:=railway_world a) commands ([], w) [] I) as Hl.
  destruct (session (world:=railway_world a) commands ([], w) []) as [past σ]. split; [|intros; apply write_classified].
  intros e He. rewrite Forall_forall in Hacc. destruct (Hacc e He) as [Hr|(newer & older & request & x & -> & Hu)]; [by left|]. right.
  destruct (write_authorized _ _ _ _ Hl) as (_ & plan & item & value & H1 & H2 & H3 & H4 & H5 & H6).
  exists plan, item, value, newer, older, request, x. by split_and!.
Qed.
