(* ===== verification/ClientAPI.v ===== *)
(** The rest of internal/client/api.go: the creation of vaults, the enrollments, the
    invitations and the devices, over the requests of Client.v. *)
From S2P Require Import Prelude Base64 Timestamp Text Secure Protocol Envelope ServerState ServerTx Client.
From stdpp Require Import options.

(** [protocol.InvitationStatus] as a client reads it: the state is any text. *)
Record Invitation := {
  iv_Version : Z; iv_Device : PublicDevice; iv_State : string; iv_ExpiresAt : string; iv_AttemptsRemaining : Z; iv_TerminalAt : string;
  iv_Envelope : option WrappedKey;
}.

Record CreateVaultResponse := { vr_VaultID : string; vr_DeviceID : string }.

(** [json.Marshal] of the requests, and [json.Unmarshal] of the replies. *)
Class MembershipWire := {
  to_json_CreateVault : CreateVaultRequest → string;
  to_json_Enrollment : EnrollmentRequest → string;
  to_json_Approval : WrappedKey → string;
  to_json_Invitation : InvitationRequest → string;
  to_json_InvitationApproval : InvitationApprovalBody → string;
  to_json_InvitationTransition : InvitationTransition → string;
}.
Class MembershipReplies := {
  reply_vault : Body → result CreateVaultResponse;
  reply_enrollment : Body → result EnrollmentStatus;
  reply_enrollments : Body → result (list EnrollmentStatus);
  reply_invitation : Body → result Invitation;
  reply_invitations : Body → result (list Invitation);
  reply_device : Body → result DeviceStatus;
  reply_devices : Body → result (list DeviceStatus);
}.

Section Membership.
Context {crypto : Crypto} {cipher : Cipher} {W : Type} {network : Network W} {local : Local W}.
Context {wire : MembershipWire} {replies : MembershipReplies}.

(** [do] without authentication. *)
Definition do_unauthenticated (method path body : string) (w : W) : result Body * W :=
  match exchange (new_request method path body unsigned_headers) w with
  | (Err e, w) => (Err ("server request failed: " +:+ e), w)
  | (Ok response, w) => (read_reply response, w)
  end.

Definition named_vault (vaultID : string) : string := "/v1/vaults/" +:+ PathEscape vaultID.

Definition CreateVault (name : string) (device : PublicDevice) : W → result CreateVaultResponse * W :=
  λ w, decode_reply reply_vault (do_unauthenticated "POST" "/v1/vaults" (to_json_CreateVault {| cv_Name := name; cv_Device := device |}) w).

(** What a created identity is tested for. *)
Definition checked_identity {A} (device_of : A → PublicDevice) (name signing wrapping : string) (r : result A) : result A :=
  status ← r; _ ← validateCreatedIdentity (device_of status) name signing wrapping; Ok status.

Definition RequestEnrollment (vaultID : string) (request : EnrollmentRequest) : W → result EnrollmentStatus * W :=
  λ w, let '(r, w) := decode_reply reply_enrollment (do_unauthenticated "POST" (named_vault vaultID +:+ "/enrollments") (to_json_Enrollment request) w) in
    (checked_identity es_Device (er_Name request) (er_SigningPublic request) (er_WrappingPublic request) r, w).

Definition ListEnrollments (a : API) : W → result (list EnrollmentStatus) * W :=
  λ w, decode_reply reply_enrollments (do_authenticated a "GET" (vaultPath a +:+ "/enrollments") "" w).

Definition enrollment_path (a : API) (deviceID : string) : string := vaultPath a +:+ "/enrollments/" +:+ PathEscape deviceID.

Definition GetEnrollment (a : API) (deviceID : string) : W → result EnrollmentStatus * W :=
  λ w, decode_reply reply_enrollment (do_authenticated a "GET" (enrollment_path a deviceID) "" w).

Definition ApproveEnrollment (a : API) (deviceID : string) (envelope : WrappedKey) : W → result unit * W :=
  λ w, decode_reply (λ _, Ok tt) (do_authenticated a "POST" (enrollment_path a deviceID) (to_json_Approval envelope) w).

(** The request of [CreateInvitation], before the identity is tested. *)
Definition post_invitation (vaultID : string) (request : InvitationRequest) : W → result Invitation * W :=
  λ w, decode_reply reply_invitation (do_unauthenticated "POST" (named_vault vaultID +:+ "/invitations") (to_json_Invitation request) w).

Definition CreateInvitation (vaultID : string) (request : InvitationRequest) : W → result Invitation * W :=
  λ w, let '(r, w) := post_invitation vaultID request w in
    (checked_identity iv_Device (ir_Name request) (ir_SigningPublic request) (ir_WrappingPublic request) r, w).

Definition ListInvitations (a : API) : W → result (list Invitation) * W :=
  λ w, decode_reply reply_invitations (do_authenticated a "GET" (vaultPath a +:+ "/invitations") "" w).

Definition invitation_path (a : API) (deviceID : string) : string := vaultPath a +:+ "/invitations/" +:+ PathEscape deviceID.

Definition GetInvitation (a : API) (deviceID : string) : W → result Invitation * W :=
  λ w, decode_reply reply_invitation (do_authenticated a "GET" (invitation_path a deviceID) "" w).

Definition ApproveInvitation (a : API) (deviceID : string) (approval : InvitationApprovalBody) : W → result Invitation * W :=
  λ w, decode_reply reply_invitation
    (do_authenticated a "POST" (invitation_path a deviceID +:+ "/approve") (to_json_InvitationApproval approval) w).

Definition RejectInvitation (a : API) (deviceID : string) (transition : InvitationTransition) : W → result Invitation * W :=
  λ w, decode_reply reply_invitation
    (do_authenticated a "POST" (invitation_path a deviceID +:+ "/reject") (to_json_InvitationTransition transition) w).

Definition CancelInvitation (a : API) (deviceID : string) (transition : InvitationTransition) : W → result Invitation * W :=
  λ w, decode_reply reply_invitation
    (do_authenticated a "POST" (invitation_path a deviceID +:+ "/cancel") (to_json_InvitationTransition transition) w).

Definition ListDevices (a : API) : W → result (list DeviceStatus) * W :=
  λ w, decode_reply reply_devices (do_authenticated a "GET" (vaultPath a +:+ "/devices") "" w).

Definition RevokeDevice (a : API) (deviceID : string) : W → result DeviceStatus * W :=
  λ w, decode_reply reply_device (do_authenticated a "DELETE" (vaultPath a +:+ "/devices/" +:+ PathEscape deviceID) "" w).
End Membership.
