(* ===== verification/Commands.v ===== *)
(** The commands of cmd/envbank/main.go that work on a vault: making a vault, enrolling,
    listing and revoking devices, the records of secrets, the Access credentials, and the
    commands that are run with the secrets.  A command is a program over files, the
    terminal, the clock, randomness, processes and the methods of internal/client/api.go;
    its flags are those that package flag has parsed. *)
From S2P Require Import Prelude Base64 Timestamp Text Secure Protocol Envelope VaultObject Client ClientAPI Password Manifest LocalConfig Origin.
From S2P Require Export Program.
From stdpp Require Import options.

(** ** Calls *)

(** How a command ends: [exitCodeError] has a code of its own. *)
Inductive command_end := Finished | Failed (msg : string) | ExitCode (code : Z) (msg : string).

Inductive file_stat := Exists | Missing | StatFailed (msg : string).

(** A client that was unlocked. *)
Record Unlocked := { un_Config : Config; un_Secrets : DeviceSecrets }.

Module Call.
Inductive call : Type → Type :=
| Getenv (name : string) : call string
| FileMode (path : string) : call (result Z)
| ReadFile (path : string) : call (result string)
| StatConfig (path : string) : call file_stat
| ReadConfig (path : string) : call (result string)
| SaveConfig (path : string) (c : Config) : call (result unit)
| ReadStdin (limit : Z) : call (result string)
| Print (text : string) : call unit
| Warn (text : string) : call unit
| Now : call Z
| Random (bytes : Z) : call (result string)
| NewDeviceKeys : call (result DeviceKeys)
| Ephemeral : call (result string)
| Generate (policy : Policy) : call (result string)
| Notify (count : Z) : call (result unit)
| KeychainPut (account passphrase : string) : call (result unit)
| Environ : call (list string)
| RunProcess (command environment : list string) : call (result unit)
| CreateVault (server : string) (access : option AccessCredentials) (name : string) (device : PublicDevice) : call (result (string * string))
| RequestEnrollment (server : string) (access : option AccessCredentials) (vaultID : string) (request : EnrollmentRequest) : call (result EnrollmentStatus)
| ListEnrollments (u : Unlocked) : call (result (list EnrollmentStatus))
| GetEnrollment (u : Unlocked) (deviceID : string) : call (result EnrollmentStatus)
| ApproveEnrollment (u : Unlocked) (deviceID : string) (envelope : WrappedKey) : call (result unit)
| ListDevices (u : Unlocked) : call (result (list DeviceStatus))
| RevokeDevice (u : Unlocked) (deviceID : string) : call (result DeviceStatus)
| ListRecords (u : Unlocked) : call (result (list Record_))
| PutRecord (u : Unlocked) (id : string) (request : PutRecordRequest) : call (result unit)
| ListAccessEvents (u : Unlocked) (limit : Z) (before : string) : call (result (list AccessEvent * string)).
End Call.
Abbreviation call := Call.call.
Abbreviation program := (flow call command_end).

(** JSON of Access credentials: the first value of a text, strictly decoded, and whether
    nothing follows. *)
Class AccessCodec := { access_of_json : string → option (AccessCredentials * bool) }.

Definition fail {A} (msg : string) : program A := Exit (Failed msg).
Definition try {A} (r : result A) : program A := match r with Ok a => mret a | Err msg => fail msg end.
(** [fmt.Errorf("...: %w", err)] *)
Definition try_as {A} (context : string) (r : result A) : program A :=
  match r with Ok a => mret a | Err msg => fail (context +:+ ": " +:+ msg) end.
Definition require (c : bool) (msg : string) : program unit := if c then mret tt else fail msg.
Definition newline : string := String "010" "".
Definition tab : string := String "009" "".
Definition line (fields : list string) : string := String.concat tab fields +:+ newline.

(** ** The environment of a command *)

(** [strings.HasPrefix(entry, name+"=")] *)
Definition names_entry (name entry : string) : bool := has_prefix (name +:+ "=") entry.

Fixpoint setEnv (environment : list string) (name value : string) : list string :=
  match environment with
  | [] => [name +:+ "=" +:+ value]
  | entry :: rest => if names_entry name entry then (name +:+ "=" +:+ value) :: rest else entry :: setEnv rest name value
  end.

Definition unsetEnv (environment : list string) (name : string) : list string :=
  List.filter (λ entry, negb (names_entry name entry)) environment.

(** The environment that [executeWithRecords] gives. *)
Definition command_environment (environ : list string) (records : list SecretRecord) : list string :=
  let env := unsetEnv (unsetEnv environ "ENVBANK_PASSPHRASE") "ENVBANK_RECOVERY_PASSPHRASE" in
  foldl (λ env record, setEnv env (sr_Name record) (sr_Value record)) env records.

Definition executeWithRecords (command : list string) (records : list SecretRecord) : program unit :=
  environ ← ask Call.Environ;
  ran ← ask (Call.RunProcess command (command_environment environ records));
  try ran.

(** ** Unlocking *)

Record authFlags := { af_configPath : string; af_passphraseFile : string }.

Definition trim_suffix (c : ascii) (s : string) : string :=
  let n := (String.length s - 1)%nat in
  match String.get n s with Some d => if Ascii.eqb c d then substring 0 n s else s | None => s end.
(** One line feed, then one carriage return. *)
Definition trim_line (s : string) : string := trim_suffix "013" (trim_suffix "010" s).

Section Commands.
Context {crypto : Crypto} {cipher : Cipher} {codec : LocalCodec} {kdf : KeyDerivation} {records : RecordCodec} {access_codec : AccessCodec}.
Context {urls : URLs} {hosts : Hosts}.

Definition readSecretPassphrase (path environmentName flagName : string) : program string :=
  if negb (nonempty path) then
    value ← ask (Call.Getenv environmentName);
    _ ← require (nonempty value) (flagName +:+ " or " +:+ environmentName +:+ " is required");
    mret value
  else
    mode ← ask (Call.FileMode path);
    mode ← try (mode : result Z);
    _ ← require (Z.land mode 63 =? 0) "passphrase file must not be accessible by group or others";
    raw ← ask (Call.ReadFile path);
    raw ← try (raw : result string);
    let value := trim_line raw in
    _ ← require (nonempty value) "passphrase must not be empty";
    mret value.

Definition readPassphrase (path : string) : program string := readSecretPassphrase path "ENVBANK_PASSPHRASE" "--passphrase-file".

(** [client.LoadConfig] *)
Definition load_config (path : string) : program Config :=
  raw ← ask (Call.ReadConfig path);
  try (LoadConfig (raw : result string)).

(** [cfg.Unlock]: only a configuration of the first version draws a nonce. *)
Definition unlock_config (passphrase : string) (cfg : Config) : program (result DeviceSecrets * Config) :=
  nonce ← (if cf_Version cfg =? 1 then ask (Call.Random gcm_NonceSize) else mret (Err "not drawn"));
  mret (Unlock nonce passphrase cfg).

(** [cfg.Lock] and [cfg.Save] *)
Definition lock_config (secrets : DeviceSecrets) (passphrase : string) (cfg : Config) : program Config :=
  nonce ← ask (Call.Random gcm_NonceSize);
  let '(locked, cfg) := Lock nonce secrets passphrase cfg in
  _ ← try locked;
  mret cfg.

Definition unlockedAPIWithPassphrase (auth : authFlags) : program (Unlocked * string) :=
  cfg ← load_config (af_configPath auth);
  passphrase ← readPassphrase (af_passphraseFile auth);
  '(secrets, cfg) ← unlock_config passphrase cfg;
  secrets ← try (secrets : result DeviceSecrets);
  _ ← (if cf_migrated cfg then saved ← ask (Call.SaveConfig (af_configPath auth) cfg); try_as "save migrated config" saved else mret tt);
  mret ({| un_Config := cfg; un_Secrets := secrets |}, passphrase).

Definition unlockedAPI (auth : authFlags) : program Unlocked :=
  u ← unlockedAPIWithPassphrase auth; mret (u : Unlocked * string).1.

Definition requireVaultKey (secrets : DeviceSecrets) : result string :=
  _ ← reject_if (negb (nonempty (sec_VaultKey secrets))) "device enrollment has not been accepted";
  match decode (sec_VaultKey secrets) with
  | Some key => if slen key =? 32 then Ok key else Err "local vault key is invalid"
  | None => Err "local vault key is invalid"
  end.

Definition list_records (u : Unlocked) (vaultKey : string) : program (list SecretRecord) :=
  encrypted ← ask (Call.ListRecords u);
  encrypted ← try (encrypted : result (list Record_));
  try (DecryptRecords (cf_VaultID (un_Config u)) vaultKey encrypted).

Definition loadRecordsWithAuth (auth : authFlags) : program (Unlocked * string * list SecretRecord) :=
  u ← unlockedAPI auth;
  vaultKey ← try (requireVaultKey (un_Secrets u));
  l ← list_records u vaultKey;
  mret (u, vaultKey, l).

(** ** Records *)

Definition find_record (name : string) (l : list SecretRecord) : option SecretRecord := List.find (λ r, String.eqb (sr_Name r) name) l.

(** [EncryptRecord] and [PutRecord]. *)
Definition write_record (u : Unlocked) (vaultKey : string) (record : SecretRecord) (expected : Z) : program (result unit) :=
  nonce ← ask (Call.Random gcm_NonceSize);
  encrypted ← try (EncryptRecord nonce (cf_VaultID (un_Config u)) vaultKey record);
  ask (Call.PutRecord u (encrypted : string * Blob).1 {| pr_ExpectedRevision := expected; pr_Blob := encrypted.2 |}).

(** The record that a value is stored in: what was there, or a new one; with the revision
    that is expected. *)
Definition next_record (name value now : string) (days : option Z) (existing : option SecretRecord) : SecretRecord * Z :=
  match existing with
  | None => ({| sr_Name := name; sr_Value := value; sr_CreatedAt := now; sr_RotatedAt := now; sr_RotateEveryDays := from_option id 0 days;
      sr_Revision := 1; sr_AllowedOrigins := [] |}, 0)
  | Some r => ({| sr_Name := name; sr_Value := value; sr_CreatedAt := sr_CreatedAt r; sr_RotatedAt := now;
      sr_RotateEveryDays := from_option id (sr_RotateEveryDays r) days; sr_Revision := wrap64 (sr_Revision r + 1);
      sr_AllowedOrigins := sr_AllowedOrigins r |}, sr_Revision r)
  end.

Definition putSecretValue (u : Unlocked) (vaultKey name value : string) (rotateDays : Z) : program SecretRecord :=
  l ← list_records u vaultKey;
  now ← ask Call.Now;
  let '(record, expected) := next_record name value (format_rfc3339 now) (if 0 <=? rotateDays then Some rotateDays else None) (find_record name l) in
  stored ← write_record u vaultKey record expected;
  _ ← try (stored : result unit);
  mret record.

Definition setSecret (auth : authFlags) (rotateDays generatedBytes : Z) (args : list string) (rotate : bool) : program unit :=
  match args with
  | [name] =>
      _ ← require (env_name name) "exactly one valid environment variable NAME is required";
      _ ← require (-1 <=? rotateDays) "--rotate-days must be zero or greater";
      value ← (if rotate then
                 _ ← require ((16 <=? generatedBytes) && (generatedBytes <=? 256)) "--bytes must be between 16 and 256";
                 raw ← ask (Call.Random generatedBytes);
                 raw ← try (raw : result string);
                 mret (encode raw)
               else
                 raw ← ask (Call.ReadStdin 1048576);
                 raw ← try (raw : result string);
                 _ ← require (negb (slen raw =? 1048576)) "secret value exceeds 1 MiB";
                 mret (trim_line raw));
      u ← unlockedAPI auth;
      vaultKey ← try (requireVaultKey (un_Secrets u));
      record ← putSecretValue u vaultKey name value rotateDays;
      ask (Call.Print (sr_Name record +:+ " " +:+ (if rotate then "rotated with a generated value" else "stored") +:+ " (revision " +:+
        Itoa (sr_Revision record) +:+ ")" +:+ newline))
  | _ => fail "exactly one valid environment variable NAME is required"
  end.

(** [rotateDays] when the flag was given. *)
Definition generatePassword (auth : authFlags) (policy : Policy) (replace : bool) (rotateDays : option Z) (args : list string) : program unit :=
  match args with
  | [name] =>
      _ ← require (env_name name) "exactly one valid environment variable NAME is required";
      _ ← require (from_option (λ days, 0 <=? days) true rotateDays) "--rotate-days must be zero or greater";
      _ ← try (Policy_Validate policy);
      '(u, vaultKey, l) ← loadRecordsWithAuth auth;
      now ← ask Call.Now;
      let existing := find_record name l in
      _ ← require (replace || negb (bool_decide (is_Some existing))) "record already exists; use --replace to replace it";
      value ← ask (Call.Generate policy);
      value ← try (value : result string);
      let '(record, expected) := next_record name value (format_rfc3339 now) rotateDays existing in
      stored ← write_record u vaultKey record expected;
      _ ← try (stored : result unit);
      ask (Call.Print (sr_Name record +:+ " revision " +:+ Itoa (sr_Revision record) +:+ newline))
  | _ => fail "exactly one valid environment variable NAME is required"
  end.

Definition with_origins (r : SecretRecord) (origins : list string) : SecretRecord :=
  {| sr_Name := sr_Name r; sr_Value := sr_Value r; sr_CreatedAt := sr_CreatedAt r; sr_RotatedAt := sr_RotatedAt r;
     sr_RotateEveryDays := sr_RotateEveryDays r; sr_Revision := wrap64 (sr_Revision r + 1); sr_AllowedOrigins := origins |}.

Definition browserOriginCommand (auth : authFlags) (args : list string) (allow : bool) : program unit :=
  match args with
  | [name; origin] =>
      _ ← require (env_name name) "NAME and an exact ORIGIN are required";
      origin ← try (NormalizeOrigin origin);
      '(u, vaultKey, l) ← loadRecordsWithAuth auth;
      match find_record name l with
      | None => fail "secret not found"
      | Some record =>
          let '(origins, changed) := (if allow then AddOrigin else RemoveOrigin) (sr_AllowedOrigins record) origin in
          let action := if allow then "allowed" else "denied" in
          if negb changed then ask (Call.Print (origin +:+ " already " +:+ action +:+ " for " +:+ sr_Name record +:+ newline))
          else
            stored ← write_record u vaultKey (with_origins record origins) (sr_Revision record);
            _ ← try_as "browser policy update conflicted or failed" (stored : result unit);
            ask (Call.Print (origin +:+ " " +:+ action +:+ " for " +:+ sr_Name record +:+ newline))
      end
  | _ => fail "NAME and an exact ORIGIN are required"
  end.

Definition print_all (lines : list string) : program unit := for_each (λ text _, ask (Call.Print text)) lines tt.

Definition browserOrigins (auth : authFlags) (args : list string) : program unit :=
  match args with
  | [name] =>
      _ ← require (env_name name) "exactly one valid environment variable NAME is required";
      '(_, _, l) ← loadRecordsWithAuth auth;
      match find_record name l with
      | None => fail "secret not found"
      | Some record => print_all ((λ origin, origin +:+ newline) <$> sr_AllowedOrigins record)
      end
  | _ => fail "exactly one valid environment variable NAME is required"
  end.

Definition listSecrets (auth : authFlags) : program unit :=
  '(_, _, l) ← loadRecordsWithAuth auth;
  print_all ((λ r, line [sr_Name r; "rotation=" +:+ (if 0 <? sr_RotateEveryDays r then Itoa (sr_RotateEveryDays r) +:+ "d" else "-");
    "revision=" +:+ Itoa (sr_Revision r)]) <$> l).

Definition getSecret (auth : authFlags) (args : list string) : program unit :=
  match args with
  | [name] =>
      '(_, _, l) ← loadRecordsWithAuth auth;
      match find_record name l with
      | None => fail "secret not found"
      | Some record => ask (Call.Print (sr_Value record))
      end
  | _ => fail "NAME is required"
  end.

Definition dueSecrets (auth : authFlags) (notify : bool) : program unit :=
  '(_, _, l) ← loadRecordsWithAuth auth;
  now ← ask Call.Now;
  let due := Due l now in
  _ ← print_all ((λ r, line [sr_Name r; "last_rotated=" +:+ sr_RotatedAt r; "policy=" +:+ Itoa (sr_RotateEveryDays r) +:+ "d"]) <$> due);
  _ ← (if notify && negb (bool_decide (due = [])) then sent ← ask (Call.Notify (Z.of_nat (length due))); try sent else mret tt);
  if negb (bool_decide (due = [])) then Exit (ExitCode 2 (Itoa (Z.of_nat (length due)) +:+ " secret(s) are due for rotation"))
  else ask (Call.Print ("no secrets are due for rotation" +:+ newline)).

Definition runCommand (auth : authFlags) (args : list string) : program unit :=
  let command := match args with "--" :: rest => rest | _ => args end in
  _ ← require (negb (bool_decide (command = []))) "COMMAND is required after --";
  '(_, _, l) ← loadRecordsWithAuth auth;
  executeWithRecords command l.
End Commands.

(** The commands of cmd/envbank/main.go that make a vault, enroll, list and revoke devices,
    show the access log, and bind Access credentials. *)

Section Devices.
Context {crypto : Crypto} {cipher : Cipher} {codec : LocalCodec} {kdf : KeyDerivation} {access_codec : AccessCodec} {hosts : Hosts}.

(** ** Access credentials *)

Definition readAccessCredentials : program AccessCredentials :=
  raw ← ask (Call.ReadStdin 8192);
  match (raw : result string) with
  | Err _ => fail "Cloudflare Access credentials must be supplied as trusted JSON stdin"
  | Ok raw =>
      match access_of_json raw with
      | None => fail "Cloudflare Access credentials must be supplied as trusted JSON stdin"
      | Some (_, false) => fail "Cloudflare Access credential input must contain one JSON object"
      | Some (credentials, true) => _ ← try (Access_Validate credentials); mret credentials
      end
  end.

Definition bootstrapAccessCredentials (enabled : bool) : program (option AccessCredentials) :=
  if negb enabled then mret None else credentials ← readAccessCredentials; mret (Some credentials).

(** What an operation makes of the credentials of a configuration that was unlocked. *)
Definition change_access (operation : string) (cfg : Config) : program Config :=
  let existing := bool_decide (is_Some (cf_access cfg)) in
  let bind_new := credentials ← readAccessCredentials;
    let '(set, cfg) := SetAccessCredentials credentials cfg in _ ← try set; mret cfg in
  if String.eqb operation "bind" then
    _ ← require (negb existing) "Cloudflare Access credentials are already bound; use access rotate"; bind_new
  else if String.eqb operation "rotate" then
    _ ← require existing "Cloudflare Access credentials are not bound; use access bind"; bind_new
  else
    _ ← require existing "Cloudflare Access credentials are not bound"; mret (RemoveAccessCredentials cfg).

Definition accessCommand (auth : authFlags) (operation : string) (args : list string) : program unit :=
  _ ← require (member ["bind"; "rotate"; "remove"] operation) ("unknown access subcommand " +:+ operation);
  _ ← require (bool_decide (args = [])) ("access " +:+ operation +:+ " does not accept positional arguments");
  cfg ← load_config (af_configPath auth);
  passphrase ← readPassphrase (af_passphraseFile auth);
  '(secrets, cfg) ← unlock_config passphrase cfg;
  secrets ← try (secrets : result DeviceSecrets);
  cfg ← change_access operation cfg;
  cfg ← lock_config secrets passphrase cfg;
  saved ← ask (Call.SaveConfig (af_configPath auth) cfg);
  _ ← try_as "save config" (saved : result unit);
  ask (Call.Print ("Cloudflare Access credentials " +:+
    (if String.eqb operation "bind" then "bound" else if String.eqb operation "rotate" then "rotated" else "removed") +:+ newline)).

(** ** A new device *)

(** The configuration of a new device, sealed, with its credentials. *)
Definition new_config (server vaultID deviceID deviceName : string) (keys : DeviceKeys) (passphrase : string) (access : option AccessCredentials) :
    program Config :=
  salt ← ask (Call.Random 16);
  nonce ← ask (Call.Random gcm_NonceSize);
  cfg ← try (NewConfig salt nonce server vaultID deviceID deviceName keys passphrase);
  match access with
  | None => mret cfg
  | Some credentials =>
      let '(set, cfg) := SetAccessCredentials credentials cfg in
      _ ← try set;
      lock_config (dk_Secrets keys) passphrase cfg
  end.

Definition set_vault_key (s : DeviceSecrets) (vaultKey : string) : DeviceSecrets :=
  {| sec_SigningPrivate := sec_SigningPrivate s; sec_WrappingPrivate := sec_WrappingPrivate s; sec_VaultKey := encode vaultKey |}.
Definition with_vault_key (keys : DeviceKeys) (vaultKey : string) : DeviceKeys :=
  {| dk_SigningPublic := dk_SigningPublic keys; dk_WrappingPublic := dk_WrappingPublic keys; dk_Secrets := set_vault_key (dk_Secrets keys) vaultKey |}.

(** The client, the key, the vault and the fingerprint. *)
Definition createVaultDevice (serverURL vaultName deviceName passphrase : string) (access : option AccessCredentials) (configPath : string) :
    program (Unlocked * string * string * string) :=
  keys ← ask Call.NewDeviceKeys;
  keys ← try (keys : result DeviceKeys);
  vaultKey ← ask (Call.Random 32);
  vaultKey ← try (vaultKey : result string);
  let keys := with_vault_key keys vaultKey in
  created ← ask (Call.CreateVault serverURL access vaultName {| dev_ID := ""; dev_Name := deviceName; dev_SigningPublic := dk_SigningPublic keys;
    dev_WrappingPublic := dk_WrappingPublic keys; dev_Fingerprint := ""; dev_CreatedAt := "" |});
  created ← try (created : result (string * string));
  cfg ← new_config serverURL (created : string * string).1 created.2 deviceName keys passphrase access;
  saved ← ask (Call.SaveConfig configPath cfg);
  _ ← try_as "vault was created but local config could not be saved" (saved : result unit);
  mret ({| un_Config := cfg; un_Secrets := dk_Secrets keys |}, vaultKey, created.1,
    PublicFingerprint (dk_SigningPublic keys) (dk_WrappingPublic keys)).

Definition initialize (auth : authFlags) (serverURL vaultName deviceName : string) (access_stdin : bool) : program unit :=
  _ ← require (nonempty serverURL && nonempty vaultName && nonempty deviceName) "--server, --vault, and --device are required";
  stat ← ask (Call.StatConfig (af_configPath auth));
  _ ← match (stat : file_stat) with
      | Exists => fail ("config already exists at " +:+ af_configPath auth)
      | StatFailed msg => fail msg
      | Missing => mret tt
      end;
  passphrase ← readPassphrase (af_passphraseFile auth);
  access ← bootstrapAccessCredentials access_stdin;
  '(_, _, vaultID, fingerprint) ← createVaultDevice serverURL vaultName deviceName passphrase access (af_configPath auth);
  ask (Call.Print ("vault " +:+ vaultID +:+ " initialized; device fingerprint " +:+ fingerprint +:+ newline)).

Definition enrollRequest (auth : authFlags) (serverURL vaultID deviceName : string) (access_stdin : bool) : program unit :=
  _ ← require (nonempty serverURL && nonempty vaultID && nonempty deviceName) "--server, --vault-id, and --device are required";
  stat ← ask (Call.StatConfig (af_configPath auth));
  _ ← match (stat : file_stat) with Exists => fail ("config already exists at " +:+ af_configPath auth) | _ => mret tt end;
  passphrase ← readPassphrase (af_passphraseFile auth);
  access ← bootstrapAccessCredentials access_stdin;
  keys ← ask Call.NewDeviceKeys;
  keys ← try (keys : result DeviceKeys);
  requested ← ask (Call.RequestEnrollment serverURL access vaultID
    {| er_Name := deviceName; er_SigningPublic := dk_SigningPublic keys; er_WrappingPublic := dk_WrappingPublic keys |});
  status ← try (checked_identity es_Device deviceName (dk_SigningPublic keys) (dk_WrappingPublic keys) (requested : result EnrollmentStatus));
  cfg ← new_config serverURL vaultID (dev_ID (es_Device status)) deviceName keys passphrase access;
  saved ← ask (Call.SaveConfig (af_configPath auth) cfg);
  _ ← try_as "enrollment was requested but local config could not be saved" (saved : result unit);
  ask (Call.Print ("enrollment requested for device " +:+ dev_ID (es_Device status) +:+ newline +:+
    "fingerprint: " +:+ dev_Fingerprint (es_Device status) +:+ newline)).

(** ** Lists *)

Definition enrollList (auth : authFlags) : program unit :=
  u ← unlockedAPI auth;
  l ← ask (Call.ListEnrollments u);
  l ← try (l : result (list EnrollmentStatus));
  print_all ((λ e, line [dev_ID (es_Device e); dev_Name (es_Device e); dev_Fingerprint (es_Device e);
    if nonempty (es_RevokedAt e) then "revoked" else if es_Approved e then "approved" else "pending"]) <$> (l : list EnrollmentStatus)).

Definition deviceList (auth : authFlags) (args : list string) : program unit :=
  _ ← require (bool_decide (args = [])) "device-list accepts no positional arguments";
  u ← unlockedAPI auth;
  l ← ask (Call.ListDevices u);
  l ← try (l : result (list DeviceStatus));
  print_all ((λ d, line [dev_ID (ds_Device d); dev_Name (ds_Device d); dev_Fingerprint (ds_Device d);
    if nonempty (ds_RevokedAt d) then "revoked" else "active"; ds_RevokedAt d]) <$> (l : list DeviceStatus)).

Definition or_dash (s : string) : string := if nonempty s then s else "-".

(** [limit] when the flag was given. *)
Definition eventList (auth : authFlags) (limit : option Z) (before : string) (args : list string) : program unit :=
  _ ← require (bool_decide (args = [])) "event-list accepts no positional arguments";
  _ ← require (from_option (λ n, (1 <=? n) && (n <=? 500)) true limit) "--limit must be between 1 and 500";
  u ← unlockedAPI auth;
  page ← ask (Call.ListAccessEvents u (from_option id 0 limit) before);
  page ← try (page : result (list AccessEvent * string));
  _ ← print_all ((λ e, line [ae_Timestamp e; or_dash (ae_IdentityID e); if ae_IdentityVerified e then "true" else "false"; ae_Operation e; ae_Outcome e;
    or_dash (ae_Reason e); or_dash (ae_TargetIdentityID e)]) <$> (page : list AccessEvent * string).1);
  if nonempty page.2 then ask (Call.Warn ("next cursor: " +:+ page.2 +:+ newline)) else mret tt.

(** ** Enrollment *)

(** The recomputed fingerprint of a listed identity is the one that was verified. *)
Definition verified_identity (device : PublicDevice) (fingerprint : string) : bool :=
  is_ok (ValidateDeviceIdentity device (dev_SigningPublic device) (dev_WrappingPublic device)) &&
  EqualFold (PublicFingerprint (dev_SigningPublic device) (dev_WrappingPublic device)) (TrimSpace fingerprint).

Definition enrollApprove (auth : authFlags) (fingerprint : string) (args : list string) : program unit :=
  match args with
  | [deviceID] =>
      _ ← require (nonempty fingerprint) "DEVICE_ID and --fingerprint are required";
      u ← unlockedAPI auth;
      vaultKey ← try (requireVaultKey (un_Secrets u));
      l ← ask (Call.ListEnrollments u);
      l ← try (l : result (list EnrollmentStatus));
      match List.find (λ e, String.eqb (dev_ID (es_Device e)) deviceID) (l : list EnrollmentStatus) with
      | None => fail "pending enrollment not found"
      | Some selected =>
          let device := es_Device selected in
          _ ← require (negb (es_Approved selected)) "device is already approved";
          _ ← require (verified_identity device fingerprint) "fingerprint does not match; approval cancelled";
          ephemeral ← ask Call.Ephemeral;
          nonce ← ask (Call.Random gcm_NonceSize);
          envelope ← try (WrapVaultKey ephemeral nonce vaultKey (dev_WrappingPublic device) (cf_VaultID (un_Config u)) (dev_ID device));
          approved ← ask (Call.ApproveEnrollment u (dev_ID device) envelope);
          _ ← try (approved : result unit);
          ask (Call.Print ("approved device " +:+ dev_ID device +:+ " (" +:+ dev_Name device +:+ ")" +:+ newline))
      end
  | _ => fail "DEVICE_ID and --fingerprint are required"
  end.

Definition enrollAccept (auth : authFlags) : program unit :=
  '(u, passphrase) ← unlockedAPIWithPassphrase auth;
  let secrets := un_Secrets u in
  _ ← require (negb (nonempty (sec_VaultKey secrets))) "this device already has a vault key";
  status ← ask (Call.GetEnrollment u (cf_DeviceID (un_Config u)));
  status ← try (status : result EnrollmentStatus);
  _ ← require (es_Approved (status : EnrollmentStatus) && bool_decide (is_Some (es_Envelope status))) "enrollment is still pending";
  vaultKey ← try (UnwrapEnrollmentVaultKey status secrets (cf_VaultID (un_Config u)) (cf_DeviceID (un_Config u)));
  cfg ← lock_config (set_vault_key secrets vaultKey) passphrase (un_Config u);
  saved ← ask (Call.SaveConfig (af_configPath auth) cfg);
  _ ← try (saved : result unit);
  ask (Call.Print ("enrollment accepted; this device can now access the vault" +:+ newline)).

(** ** Revocation *)

(** An identifier that begins with a dash is kept from the flags. *)
Definition normalizeDeviceRevokeArgs (args : list string) : list string :=
  match reverse args with
  | [] => args
  | candidate :: rest =>
      if existsb (String.eqb "--") rest then args
      else if negb (has_prefix "-" candidate) then args
      else match decodeCanonical candidate 18 with
           | None => args
           | Some _ => reverse rest ++ ["--"; candidate]
           end
  end.

Definition deviceRevoke (auth : authFlags) (fingerprint : string) (allowSelf : bool) (args : list string) : program unit :=
  match args with
  | [targetID] =>
      _ ← require (nonempty (TrimSpace fingerprint)) "DEVICE_ID and --fingerprint are required";
      u ← unlockedAPI auth;
      l ← ask (Call.ListDevices u);
      l ← try (l : result (list DeviceStatus));
      match List.find (λ d, String.eqb (dev_ID (ds_Device d)) targetID) (l : list DeviceStatus) with
      | None => fail "device not found"
      | Some target =>
          _ ← require (negb (nonempty (ds_RevokedAt target))) "device is already revoked";
          _ ← require (EqualFold (dev_Fingerprint (ds_Device target)) (TrimSpace fingerprint)) "fingerprint does not match; revocation cancelled";
          let self := String.eqb targetID (cf_DeviceID (un_Config u)) in
          _ ← require (negb self || allowSelf) "refusing to revoke the current device without --allow-self";
          revoked ← ask (Call.RevokeDevice u targetID);
          revoked ← try (revoked : result DeviceStatus);
          _ ← ask (Call.Print ("revoked device " +:+ dev_ID (ds_Device (revoked : DeviceStatus)) +:+ " (" +:+ dev_Name (ds_Device revoked) +:+ ") at " +:+
            ds_RevokedAt revoked +:+ newline));
          if self then ask (Call.Warn ("warning: this device can no longer access the vault; its local config and Keychain entry were preserved" +:+ newline))
          else mret tt
      end
  | _ => fail "DEVICE_ID and --fingerprint are required"
  end.

(** [darwin] is [runtime.GOOS == "darwin"]. *)
Definition keychainStore (darwin : bool) (auth : authFlags) (args : list string) : program unit :=
  _ ← require darwin "Keychain storage is supported only on macOS";
  _ ← require (bool_decide (args = [])) "keychain-store accepts no positional arguments";
  cfg ← load_config (af_configPath auth);
  passphrase ← readPassphrase (af_passphraseFile auth);
  '(secrets, cfg) ← unlock_config passphrase cfg;
  _ ← require (is_ok (secrets : result DeviceSecrets)) "passphrase did not unlock the configured EnvBank device";
  stored ← ask (Call.KeychainPut (cf_VaultID cfg +:+ ":" +:+ cf_DeviceID cfg) passphrase);
  _ ← try (stored : result unit);
  ask (Call.Print ("passphrase stored in macOS Keychain with user-presence protection" +:+ newline)).
End Devices.

(** ** The commands *)

(** A command with its flags, as they were parsed, and its arguments. *)
Inductive command :=
| Initialize (auth : authFlags) (server vault device : string) (access_stdin : bool)
| EnrollRequest (auth : authFlags) (server vaultID device : string) (access_stdin : bool)
| EnrollList (auth : authFlags)
| EnrollApprove (auth : authFlags) (fingerprint : string) (args : list string)
| EnrollAccept (auth : authFlags)
| DeviceList (auth : authFlags) (args : list string)
| DeviceRevoke (auth : authFlags) (fingerprint : string) (allowSelf : bool) (args : list string)
| EventList (auth : authFlags) (limit : option Z) (before : string) (args : list string)
| SetSecret (auth : authFlags) (rotateDays generatedBytes : Z) (args : list string) (rotate : bool)
| GeneratePassword (auth : authFlags) (policy : Policy) (replace : bool) (rotateDays : option Z) (args : list string)
| BrowserOrigin (auth : authFlags) (args : list string) (allow : bool)
| BrowserOrigins (auth : authFlags) (args : list string)
| ListSecrets (auth : authFlags)
| GetSecret (auth : authFlags) (args : list string)
| DueSecrets (auth : authFlags) (notify : bool)
| RunCommand (auth : authFlags) (args : list string)
| AccessCommand (auth : authFlags) (operation : string) (args : list string)
| KeychainStore (darwin : bool) (auth : authFlags) (args : list string).

Section Run.
Context {crypto : Crypto} {cipher : Cipher} {codec : LocalCodec} {kdf : KeyDerivation} {records : RecordCodec} {access_codec : AccessCodec}.
Context {urls : URLs} {hosts : Hosts}.

Definition execute (c : command) : program command_end :=
  _ ← match c with
  | Initialize auth server vault device access_stdin => initialize auth server vault device access_stdin
  | EnrollRequest auth server vaultID device access_stdin => enrollRequest auth server vaultID device access_stdin
  | EnrollList auth => enrollList auth
  | EnrollApprove auth fingerprint args => enrollApprove auth fingerprint args
  | EnrollAccept auth => enrollAccept auth
  | DeviceList auth args => deviceList auth args
  | DeviceRevoke auth fingerprint allowSelf args => deviceRevoke auth fingerprint allowSelf args
  | EventList auth limit before args => eventList auth limit before args
  | SetSecret auth rotateDays generatedBytes args rotate => setSecret auth rotateDays generatedBytes args rotate
  | GeneratePassword auth policy replace rotateDays args => generatePassword auth policy replace rotateDays args
  | BrowserOrigin auth args allow => browserOriginCommand auth args allow
  | BrowserOrigins auth args => browserOrigins auth args
  | ListSecrets auth => listSecrets auth
  | GetSecret auth args => getSecret auth args
  | DueSecrets auth notify => dueSecrets auth notify
  | RunCommand auth args => runCommand auth args
  | AccessCommand auth operation args => accessCommand auth operation args
  | KeychainStore darwin auth args => keychainStore darwin auth args
  end;
  mret Finished.
End Run.
