(* ===== verification/CommandsSafety.v ===== *)
(** What the commands do with a vault, whatever files, terminal, service and processes
    answer; and the environment of a command that is run. *)
From S2P Require Import Prelude Base64 Timestamp Text Secure Protocol Envelope VaultObject Client ClientAPI Password Manifest LocalConfig Origin.
From S2P Require Import Commands.
From stdpp Require Import options.

(** ** The environment of a command *)

(** [os.Getenv] in an environment: the first entry that names the variable. *)
Fixpoint lookup_env (environment : list string) (name : string) : option string :=
  match environment with
  | [] => None
  | entry :: rest => if names_entry name entry then Some (drop_bytes (String.length name + 1) entry) else lookup_env rest name
  end.

(** No variable is named by two entries. *)
Definition named_once (environment : list string) : Prop :=
  ∀ name, contains_byte "=" name = false → (length (List.filter (names_entry name) environment) ≤ 1)%nat.

Lemma names_entry_entry name other value : contains_byte "=" name = false → contains_byte "=" other = false →
  names_entry name (other +:+ "=" +:+ value) = String.eqb name other.
Proof.
  unfold names_entry. change ("=" +:+ value) with (String "=" value). intros Hn. revert other.
  induction name as [|a name IH]; intros [|b other] Ho.
  - done.
  - cbn [contains_byte] in Ho. apply orb_false_iff in Ho as [Hb _]. rewrite string_app_nil_l, string_app_cons. cbn [has_prefix]. by rewrite Hb.
  - cbn [contains_byte] in Hn. apply orb_false_iff in Hn as [Ha _]. rewrite string_app_cons. rewrite string_app_nil_l. cbn [has_prefix].
    by rewrite Ascii.eqb_sym, Ha.
  - cbn [contains_byte] in Hn, Ho. apply orb_false_iff in Hn as [_ Hn]. apply orb_false_iff in Ho as [_ Ho].
    rewrite !string_app_cons. cbn [has_prefix String.eqb]. destruct (Ascii.eqb a b); [|done]. by apply IH.
Qed.

Lemma names_entry_same name other entry : contains_byte "=" name = false → contains_byte "=" other = false →
  names_entry name entry = true → names_entry other entry = true → name = other.
Proof.
  intros Hn Ho E E2. apply Toy.drop_prefix in E2. rewrite E2, string_app_assoc, names_entry_entry in E by done. by apply String.eqb_eq in E.
Qed.

Lemma entry_value name value : drop_bytes (String.length name + 1) (name +:+ "=" +:+ value) = value.
Proof. induction name as [|c name IH]; [done|]. rewrite string_app_cons. exact IH. Qed.

Lemma lookup_setEnv env name value other : contains_byte "=" name = false → contains_byte "=" other = false →
  lookup_env (setEnv env name value) other = if String.eqb other name then Some value else lookup_env env other.
Proof.
  intros Hn Ho. induction env as [|entry env IH]; cbn [setEnv lookup_env].
  - rewrite names_entry_entry by done. destruct (String.eqb_spec other name) as [->|]; [|done]. by rewrite entry_value.
  - destruct (names_entry name entry) eqn:E; cbn [lookup_env]; [|destruct (names_entry other entry) eqn:E2; [|exact IH]].
    + rewrite names_entry_entry by done. destruct (String.eqb_spec other name) as [->|Hne]; [by rewrite entry_value|].
      destruct (names_entry other entry) eqn:E2; [|done]. by destruct Hne; eapply names_entry_same.
    + destruct (String.eqb_spec other name) as [->|]; [congruence|done].
Qed.

Lemma filter_setEnv env name value other : contains_byte "=" name = false → contains_byte "=" other = false →
  length (List.filter (names_entry other) (setEnv env name value)) =
    if String.eqb other name then Nat.max 1 (length (List.filter (names_entry name) env)) else length (List.filter (names_entry other) env).
Proof.
  intros Hn Ho. induction env as [|entry env IH]; cbn [setEnv List.filter].
  - rewrite names_entry_entry by done. by destruct (String.eqb other name).
  - destruct (names_entry name entry) eqn:E; cbn [List.filter].
    + rewrite names_entry_entry by done. destruct (String.eqb_spec other name) as [->|Hne]; [cbn; lia|].
      destruct (names_entry other entry) eqn:E2; [|done]. by destruct Hne; eapply names_entry_same.
    + destruct (String.eqb_spec other name) as [->|Hne]; [by rewrite E|]. destruct (names_entry other entry); cbn [length]; by rewrite IH.
Qed.

Lemma lookup_unsetEnv env name other : contains_byte "=" name = false → contains_byte "=" other = false →
  lookup_env (unsetEnv env name) other = if String.eqb other name then None else lookup_env env other.
Proof.
  intros Hn Ho. unfold unsetEnv. induction env as [|entry env IH]; cbn [List.filter lookup_env]; [by destruct (String.eqb other name)|].
  destruct (names_entry name entry) eqn:E; cbn [negb lookup_env]; rewrite IH; destruct (String.eqb_spec other name) as [->|Hne]; try done.
  - destruct (names_entry other entry) eqn:E2; [|done]. by destruct Hne; eapply names_entry_same.
  - by rewrite E.
Qed.

Lemma filter_unsetEnv env name other :
  (length (List.filter (names_entry other) (unsetEnv env name)) ≤ length (List.filter (names_entry other) env))%nat.
Proof.
  unfold unsetEnv. induction env as [|entry env IH]; cbn [List.filter]; [done|].
  destruct (names_entry name entry); cbn [negb List.filter]; destruct (names_entry other entry); cbn [length]; lia.
Qed.

Lemma env_name_plain name : env_name name = true → contains_byte "=" name = false.
Proof.
  unfold env_name. destruct name as [|c name]; [done|]. intros H. apply andb_true_iff in H as [Hc Hn]. cbn [contains_byte]. apply orb_false_iff. split.
  - pose proof (forall_ascii (λ c, implb (Ascii.eqb "=" c) (negb (Ascii.eqb c "_" || is_upper c || is_lower c))) ltac:(vm_compute; reflexivity) c) as H.
    cbn beta in H. destruct (Ascii.eqb "=" c); [|done]. cbn [implb] in H. apply negb_true_iff in H. congruence.
  - clear Hc. induction name as [|d name IH]; [done|]. cbn [all_bytes contains_byte] in *. apply andb_true_iff in Hn as [Hd Hn].
    apply orb_false_iff. split; [|by apply IH].
    pose proof (forall_ascii (λ c, implb (Ascii.eqb "=" c) (negb (Ascii.eqb c "_" || is_upper c || is_lower c || is_digit c))) ltac:(vm_compute; reflexivity) d) as H.
    cbn beta in H. destruct (Ascii.eqb "=" d); [|done]. cbn [implb] in H. apply negb_true_iff in H. congruence.
Qed.

(** The variables that a command never gets from outside. *)
Definition passphrase_variables : list string := ["ENVBANK_PASSPHRASE"; "ENVBANK_RECOVERY_PASSPHRASE"].

(** What the environment of a command has to be, given the one outside and the records:
    every entry gives a variable of a record its value, or is one from outside that names
    no passphrase.  Where the records have names of variables, each its own, and no
    variable has two entries outside: every record gives the variable of its name its
    value; no passphrase is left, unless a record has its name; every other variable is
    as it was outside; and no variable has two entries, so that it does not matter which
    of them counts. *)
Definition environment_ok (environ : list string) (l : list SecretRecord) (environment : list string) : Prop :=
  (∀ entry, entry ∈ environment →
    (∃ r, r ∈ l ∧ entry = sr_Name r +:+ "=" +:+ sr_Value r) ∨
    (entry ∈ environ ∧ ∀ name, name ∈ passphrase_variables → names_entry name entry = false)) ∧
  (Forall (λ r, env_name (sr_Name r) = true) l → NoDup (sr_Name <$> l) → named_once environ →
    named_once environment ∧
    ∀ name, contains_byte "=" name = false →
      lookup_env environment name =
        match List.find (λ r, String.eqb (sr_Name r) name) l with
        | Some r => Some (sr_Value r)
        | None => if member passphrase_variables name then None else lookup_env environ name
        end).

Lemma setEnv_elem env name value entry : entry ∈ setEnv env name value → entry = name +:+ "=" +:+ value ∨ entry ∈ env.
Proof.
  induction env as [|e env IH]; cbn [setEnv]; [by intros ->%list_elem_of_singleton; left|].
  destruct (names_entry name e); intros [->|H]%elem_of_cons; [by left|by right; right|by right; left|].
  destruct (IH H); [by left|by right; right].
Qed.

Lemma environment_entries environ l entry : entry ∈ command_environment environ l →
  (∃ r, r ∈ l ∧ entry = sr_Name r +:+ "=" +:+ sr_Value r) ∨
  (entry ∈ environ ∧ ∀ name, name ∈ passphrase_variables → names_entry name entry = false).
Proof.
  unfold command_environment. set (env := unsetEnv _ _).
  assert (Henv : ∀ e, e ∈ env → e ∈ environ ∧ ∀ name, name ∈ passphrase_variables → names_entry name e = false).
  { intros e He. unfold env, unsetEnv in He. apply list_elem_of_In, filter_In in He as [He H2]. apply filter_In in He as [He H1].
    split; [by apply list_elem_of_In|]. apply negb_true_iff in H1, H2. unfold passphrase_variables.
    by intros name [->|[->|Hno]%elem_of_cons]%elem_of_cons; [..|by apply elem_of_nil in Hno]. }
  clearbody env. revert env Henv. induction l as [|r l IH] using rev_ind; intros env Henv; [by right; apply Henv|].
  rewrite foldl_app. cbn [foldl]. intros [->|H]%setEnv_elem; [left; exists r; split; [apply elem_of_app; right; by left|done]|].
  destruct (IH env Henv H) as [(r' & Hr & E)|Hr]; [left; exists r'; split; [apply elem_of_app; by left|done]|by right].
Qed.

Lemma environment_spec environ l : environment_ok environ l (command_environment environ l).
Proof.
  split; [apply environment_entries|]. intros Hnames Hnd Hone. unfold command_environment. set (env := unsetEnv _ _).
  assert (Henv : named_once env) by (intros name Hn; etransitivity; [apply filter_unsetEnv|]; etransitivity; [apply filter_unsetEnv|]; by apply Hone).
  assert (Hl : ∀ name, contains_byte "=" name = false → lookup_env env name = if member passphrase_variables name then None else lookup_env environ name).
  { intros name Hn. unfold env. rewrite !lookup_unsetEnv by done. unfold member, passphrase_variables. cbn [existsb].
    by destruct (String.eqb name "ENVBANK_RECOVERY_PASSPHRASE"), (String.eqb name "ENVBANK_PASSPHRASE"). }
  clearbody env. cut (named_once (foldl (λ env r, setEnv env (sr_Name r) (sr_Value r)) env l) ∧ ∀ name, contains_byte "=" name = false →
    lookup_env (foldl (λ env r, setEnv env (sr_Name r) (sr_Value r)) env l) name =
      match List.find (λ r, String.eqb (sr_Name r) name) l with Some r => Some (sr_Value r) | None => lookup_env env name end).
  { intros [H1 H2]. split; [done|]. intros name Hn. by rewrite H2, Hl. }
  clear Hl Hone.
  revert env Henv. induction l as [|r l IH]; intros env Henv; [done|]. cbn [foldl].
  apply Forall_cons in Hnames as [Hr%env_name_plain Hnames]. apply NoDup_cons in Hnd as [Hni Hnd].
  destruct (IH Hnames Hnd (setEnv env (sr_Name r) (sr_Value r))) as [Ho Hlook].
  { intros name Hn. rewrite filter_setEnv by done. destruct (String.eqb_spec name (sr_Name r)); [|by apply Henv]. specialize (Henv (sr_Name r) Hr). lia. }
  split; [done|]. intros name Hn. rewrite Hlook by done. cbn [List.find]. rewrite lookup_setEnv by done.
  rewrite (String.eqb_sym name). destruct (String.eqb_spec (sr_Name r) name) as [<-|]; [|done].
  destruct (List.find _ l) as [r'|] eqn:Ef; [|done]. exfalso. apply find_some in Ef as [Hin%list_elem_of_In E%String.eqb_eq]. apply Hni.
  rewrite <-E. by apply list_elem_of_fmap_2.
Qed.

Definition past_of := history call.
#[local] Hint Extern 0 (grows _ _) => reflexivity : core.

Section Safety.
Context {crypto : Crypto} {cipher : Cipher} {codec : LocalCodec} {kdf : KeyDerivation} {records : RecordCodec} {access_codec : AccessCodec}.
Context {urls : URLs} {hosts : Hosts} {laws : CipherLaws} {local : LocalLaws}.
(** The command that is executed. *)
Context (c : command).

(** ** What is claimed *)

Definition flags_of (c : command) : authFlags :=
  match c with
  | Initialize auth _ _ _ _ | EnrollRequest auth _ _ _ _ | EnrollList auth | EnrollApprove auth _ _ | EnrollAccept auth | DeviceList auth _
  | DeviceRevoke auth _ _ _ | EventList auth _ _ _ | SetSecret auth _ _ _ _ | GeneratePassword auth _ _ _ _ | BrowserOrigin auth _ _
  | BrowserOrigins auth _ | ListSecrets auth | GetSecret auth _ | DueSecrets auth _ | RunCommand auth _ | AccessCommand auth _ _
  | KeychainStore _ auth _ => auth
  end.

(** The passphrase is that of the environment, or of a file that only its owner reads. *)
Definition passphrase_read (past : past_of) (value : string) : Prop :=
  let path := af_passphraseFile (flags_of c) in
  value ≠ "" ∧
  ((path = "" ∧ Event (Call.Getenv "ENVBANK_PASSPHRASE") value ∈ past) ∨
   (path ≠ "" ∧ ∃ mode raw, Event (Call.FileMode path) (Ok mode) ∈ past ∧ Z.land mode 63 = 0 ∧ Event (Call.ReadFile path) (Ok raw) ∈ past ∧
      value = trim_line raw)).

(** The client that the configuration gives under that passphrase. *)
Definition unlocked (past : past_of) (u : Unlocked) (passphrase : string) : Prop :=
  ∃ raw cfg nonce, Event (Call.ReadConfig (af_configPath (flags_of c))) (Ok raw) ∈ past ∧ LoadConfig (Ok raw) = Ok cfg ∧
    passphrase_read past passphrase ∧ Unlock nonce passphrase cfg = (Ok (un_Secrets u), un_Config u).

(** The records of its vault, as they were listed. *)
Definition listed (past : past_of) (u : Unlocked) (vaultKey : string) (l : list SecretRecord) : Prop :=
  requireVaultKey (un_Secrets u) = Ok vaultKey ∧ (∃ passphrase, unlocked past u passphrase) ∧
  ∃ encrypted, Event (Call.ListRecords u) (Ok encrypted) ∈ past ∧ DecryptRecords (cf_VaultID (un_Config u)) vaultKey encrypted = Ok l.

(** The record that the command asks for, with the revision that it replaces. *)
Definition asked_record (past : past_of) (l : list SecretRecord) (record : SecretRecord) (expected : Z) : Prop :=
  match c with
  | SetSecret _ days bytes [name] rotate => env_name name = true ∧ ∃ value now,
      Event Call.Now now ∈ past ∧ (record, expected) = next_record name value (format_rfc3339 now) (if 0 <=? days then Some days else None) (find_record name l) ∧
      (if rotate then 16 ≤ bytes ≤ 256 ∧ ∃ raw, Event (Call.Random bytes) (Ok raw) ∈ past ∧ value = encode raw
       else ∃ raw, Event (Call.ReadStdin 1048576) (Ok raw) ∈ past ∧ slen raw ≠ 1048576 ∧ value = trim_line raw)
  | GeneratePassword _ policy replace days [name] => env_name name = true ∧ Policy_Validate policy = Ok tt ∧
      (replace = false → find_record name l = None) ∧ ∃ value now, Event Call.Now now ∈ past ∧ Event (Call.Generate policy) (Ok value) ∈ past ∧
      (record, expected) = next_record name value (format_rfc3339 now) days (find_record name l)
  | BrowserOrigin _ [name; text] allow => ∃ origin old, NormalizeOrigin text = Ok origin ∧ find_record name l = Some old ∧
      record = with_origins old ((if allow then AddOrigin else RemoveOrigin) (sr_AllowedOrigins old) origin).1 ∧ expected = sr_Revision old
  | _ => False
  end.

Definition put_ok (past : past_of) (u : Unlocked) (id : string) (request : PutRecordRequest) : Prop :=
  ∃ vaultKey l record nonce, listed past u vaultKey l ∧ asked_record past l record (pr_ExpectedRevision request) ∧
    EncryptRecord nonce (cf_VaultID (un_Config u)) vaultKey record = Ok (id, pr_Blob request).

Definition approval_ok (past : past_of) (u : Unlocked) (id : string) (envelope : WrappedKey) : Prop :=
  match c with
  | EnrollApprove _ fingerprint [deviceID] => id = deviceID ∧ ∃ l e vaultKey ephemeral nonce, Event (Call.ListEnrollments u) (Ok l) ∈ past ∧ e ∈ l ∧
      dev_ID (es_Device e) = id ∧ es_Approved e = false ∧ verified_identity (es_Device e) fingerprint = true ∧
      requireVaultKey (un_Secrets u) = Ok vaultKey ∧ (∃ passphrase, unlocked past u passphrase) ∧
      WrapVaultKey ephemeral nonce vaultKey (dev_WrappingPublic (es_Device e)) (cf_VaultID (un_Config u)) id = Ok envelope
  | _ => False
  end.

Definition revocation_ok (past : past_of) (u : Unlocked) (id : string) : Prop :=
  match c with
  | DeviceRevoke _ fingerprint allowSelf [deviceID] => id = deviceID ∧ (id = cf_DeviceID (un_Config u) → allowSelf = true) ∧
      ∃ l d, Event (Call.ListDevices u) (Ok l) ∈ past ∧ d ∈ l ∧ dev_ID (ds_Device d) = id ∧ ds_RevokedAt d = "" ∧
        EqualFold (dev_Fingerprint (ds_Device d)) (TrimSpace fingerprint) = true ∧ TrimSpace fingerprint ≠ ""
  | _ => False
  end.

(** A configuration of the same device that opens with the passphrase, and gives these
    secrets; where the source of randomness gave what it was asked for. *)
Definition locks (past : past_of) (passphrase : string) (secrets : DeviceSecrets) (before after : Config) : Prop :=
  localAAD ConfigVersion after = localAAD ConfigVersion before ∧ cf_access after = cf_access before ∧
  ∃ nonce, Event (Call.Random gcm_NonceSize) (Ok nonce) ∈ past ∧
    (slen nonce = gcm_NonceSize → ∀ n, Unlock n passphrase after = (Ok secrets, after)).

(** Access credentials that the user gave on the standard input: one valid value. *)
Definition given_access (past : past_of) (credentials : AccessCredentials) : Prop :=
  ∃ raw, Event (Call.ReadStdin 8192) (Ok raw) ∈ past ∧ access_of_json raw = Some (credentials, true) ∧ Access_Validate credentials = Ok tt.
Definition bootstrap_access (past : past_of) (from_stdin : bool) (access : option AccessCredentials) : Prop :=
  match access with Some credentials => from_stdin = true ∧ given_access past credentials | None => from_stdin = false end.

(** What an operation on the credentials makes of those that there are. *)
Definition access_changed (past : past_of) (operation : string) (before after : option AccessCredentials) : Prop :=
  (operation = "bind" ∧ before = None ∧ ∃ credentials, after = Some credentials ∧ given_access past credentials) ∨
  (operation = "rotate" ∧ before ≠ None ∧ ∃ credentials, after = Some credentials ∧ given_access past credentials) ∨
  (operation = "remove" ∧ before ≠ None ∧ after = None).

(** The configuration of a new device, where there was none. *)
Definition new_saved (past : past_of) (server : string) (from_stdin : bool) (cfg : Config) : Prop :=
  (∃ stat, Event (Call.StatConfig (af_configPath (flags_of c))) stat ∈ past ∧ stat ≠ Exists) ∧ cf_Server cfg = server ∧
  bootstrap_access past from_stdin (cf_access cfg) ∧
  ∃ keys, Event Call.NewDeviceKeys (Ok keys) ∈ past ∧ cf_SigningPublic cfg = dk_SigningPublic keys ∧ cf_WrappingPublic cfg = dk_WrappingPublic keys.

Definition saved_ok (past : past_of) (path : string) (cfg : Config) : Prop :=
  path = af_configPath (flags_of c) ∧
  ((∃ u passphrase, unlocked past u passphrase ∧ cfg = un_Config u ∧ cf_migrated cfg = true) ∨
   match c with
   | Initialize _ server _ _ from_stdin => new_saved past server from_stdin cfg
   | EnrollRequest _ server vaultID _ from_stdin => new_saved past server from_stdin cfg ∧ cf_VaultID cfg = vaultID
   | EnrollAccept _ => ∃ u passphrase status vaultKey, unlocked past u passphrase ∧ sec_VaultKey (un_Secrets u) = "" ∧
       Event (Call.GetEnrollment u (cf_DeviceID (un_Config u))) (Ok status) ∈ past ∧ es_Approved status = true ∧
       UnwrapEnrollmentVaultKey status (un_Secrets u) (cf_VaultID (un_Config u)) (cf_DeviceID (un_Config u)) = Ok vaultKey ∧
       locks past passphrase (set_vault_key (un_Secrets u) vaultKey) (un_Config u) cfg
   | AccessCommand _ operation args => args = [] ∧ ∃ u passphrase access, unlocked past u passphrase ∧
       access_changed past operation (cf_access (un_Config u)) access ∧ locks past passphrase (un_Secrets u) (set_access access (un_Config u)) cfg
   | _ => False
   end).

Definition guard (past : past_of) (X : Type) (x : call X) : Prop :=
  match x with
  | Call.PutRecord u id request => put_ok past u id request
  | Call.ApproveEnrollment u id envelope => approval_ok past u id envelope
  | Call.RevokeDevice u id => revocation_ok past u id
  | Call.SaveConfig path cfg => saved_ok past path cfg
  | Call.CreateVault server access name device =>
      match c with
      | Initialize _ server' name' deviceName from_stdin => server = server' ∧ name = name' ∧ dev_Name device = deviceName ∧ bootstrap_access past from_stdin access
      | _ => False
      end
  | Call.RequestEnrollment server access vaultID request =>
      match c with
      | EnrollRequest _ server' vaultID' deviceName from_stdin => server = server' ∧ vaultID = vaultID' ∧ er_Name request = deviceName ∧
          bootstrap_access past from_stdin access
      | _ => False
      end
  | Call.RunProcess command environment =>
      match c with
      | RunCommand _ args => ∃ u vaultKey l environ, listed past u vaultKey l ∧ Event Call.Environ environ ∈ past ∧ command ≠ [] ∧
          (command = args ∨ "--" :: command = args) ∧ environment_ok environ l environment
      | _ => False
      end
  | _ => True
  end.

(** ** Proof *)

Abbreviation spec p past Q := (wp guard p past (λ _ (_ : command_end), True) Q).

Lemma passphrase_grows past past' value : grows past past' → passphrase_read past value → passphrase_read past' value.
Proof.
  intros Hg [Hv [[? ?]|[? (mode&raw&?&?&?&?)]]]; (split; [done|]); [left; split; [done|by apply Hg]|right; split; [done|]].
  exists mode, raw. split_and!; [by apply Hg|done|by apply Hg|done].
Qed.
Lemma unlocked_grows past past' u passphrase : grows past past' → unlocked past u passphrase → unlocked past' u passphrase.
Proof. intros Hg (raw&cfg&nonce&?&?&?&?). exists raw, cfg, nonce. split_and!; [by apply Hg|done|by eapply passphrase_grows|done]. Qed.
Lemma listed_grows past past' u key l : grows past past' → listed past u key l → listed past' u key l.
Proof.
  intros Hg (?&[p ?]&encrypted&?&?). split; [done|]. split; [exists p; by eapply unlocked_grows|]. exists encrypted. split; [by apply Hg|done].
Qed.

Lemma command_spec_mono {A} (p : program A) past (Q Q' : past_of → A → Prop) : (∀ past' a, Q past' a → Q' past' a) → spec p past Q → spec p past Q'.
Proof. intros HQ. by apply wp_mono. Qed.

Lemma spec_call {X} past (x : call X) Q : guard past X x → (∀ a, Q (Event x a :: past) a) → spec (ask x) past Q.
Proof. by split. Qed.

Lemma spec_try {A B} past (r : result A) (f : A → program B) Q : (∀ a, r = Ok a → spec (f a) past Q) → spec (a ← try r; f a) past Q.
Proof. intros H. destruct r as [a|e]; [by apply H|done]. Qed.
Lemma spec_try_as {A B} past context (r : result A) (f : A → program B) Q :
  (∀ a, r = Ok a → spec (f a) past Q) → spec (a ← try_as context r; f a) past Q.
Proof. intros H. destruct r as [a|e]; [by apply H|done]. Qed.
Lemma spec_require {B} past b msg (f : unit → program B) Q : (b = true → spec (f tt) past Q) → spec (x ← require b msg; f x) past Q.
Proof. intros H. destruct b; [by apply H|done]. Qed.

Lemma spec_readPassphrase past (Q : past_of → string → Prop) :
  (∀ past' value, grows past past' → passphrase_read past' value → Q past' value) → spec (readPassphrase (af_passphraseFile (flags_of c))) past Q.
Proof.
  intros HQ. unfold readPassphrase, readSecretPassphrase. destruct (nonempty (af_passphraseFile (flags_of c))) eqn:Ep; cbn [negb].
  - apply nonempty_true in Ep. apply wp_ask; [done|]. intros mode. apply spec_try. intros m ->. apply spec_require. intros Hm%Z.eqb_eq.
    apply wp_ask; [done|]. intros raw. apply spec_try. intros r ->. apply spec_require. intros Hn%nonempty_true.
    apply HQ; [by do 2 apply grows_cons|]. split; [done|]. right. split; [done|]. exists m, r. split_and!; [right; by left|done|by left|done].
  - apply nonempty_false in Ep. apply wp_ask; [done|]. intros value. apply spec_require. intros Hn%nonempty_true.
    apply HQ; [by apply grows_cons|]. split; [done|]. left. split; [done|by left].
Qed.

Lemma spec_unlock_config past passphrase cfg (Q : past_of → result DeviceSecrets * Config → Prop) :
  (∀ past' nonce, grows past past' → Q past' (Unlock nonce passphrase cfg)) → spec (unlock_config passphrase cfg) past Q.
Proof.
  intros HQ. unfold unlock_config. apply wp_bind. destruct (cf_Version cfg =? 1); cbn [wp ask mret flow_ret]; [split; [done|]; intros nonce|]; apply HQ; [by apply grows_cons|done].
Qed.

Lemma spec_unlocked past (Q : past_of → Unlocked * string → Prop) :
  (∀ past' u passphrase, grows past past' → unlocked past' u passphrase → Q past' (u, passphrase)) →
  spec (unlockedAPIWithPassphrase (flags_of c)) past Q.
Proof.
  intros HQ. unfold unlockedAPIWithPassphrase, load_config. apply wp_bind, wp_ask; [done|]. intros raw.
  destruct raw as [raw|e]; [|done]. destruct (LoadConfig (Ok raw)) as [cfg|e] eqn:El; [|done]. cbn [try wp mret flow_ret].
  apply wp_bind, spec_readPassphrase. intros past1 passphrase G1 Hp. apply wp_bind, spec_unlock_config. intros past2 nonce G2.
  destruct (Unlock nonce passphrase cfg) as [secrets cfg'] eqn:Eu. apply spec_try. intros s ->.
  set (u := {| un_Config := cfg'; un_Secrets := s |}). assert (Hu : unlocked past2 u passphrase).
  { exists raw, cfg, nonce. split_and!; [apply G2, G1; by left|done|by eapply passphrase_grows|done]. }
  assert (G : grows past past2) by (etransitivity; [by apply grows_cons|]; etransitivity; [exact G1|exact G2]).
  destruct (cf_migrated cfg') eqn:Em.
  - apply wp_bind, wp_ask; [split; [done|left; by exists u, passphrase]|]. intros saved.
    destruct saved as [[]|e]; [|done]. cbn. apply HQ; [by apply grows_cons|]. apply (unlocked_grows past2); [by apply grows_cons|exact Hu].
  - by apply HQ.
Qed.

Lemma spec_unlockedAPI past (Q : past_of → Unlocked → Prop) :
  (∀ past' u passphrase, grows past past' → unlocked past' u passphrase → Q past' u) → spec (unlockedAPI (flags_of c)) past Q.
Proof. intros HQ. unfold unlockedAPI. apply wp_bind, spec_unlocked. intros past' u passphrase Hg Hu. by eapply HQ. Qed.

Lemma spec_list past u passphrase vaultKey (Q : past_of → list SecretRecord → Prop) : unlocked past u passphrase → requireVaultKey (un_Secrets u) = Ok vaultKey →
  (∀ past' l, grows past past' → listed past' u vaultKey l → Q past' l) → spec (list_records u vaultKey) past Q.
Proof.
  intros Hu Hk HQ. unfold list_records. apply wp_ask; [done|]. intros encrypted. apply spec_try. intros l ->.
  destruct (DecryptRecords (cf_VaultID (un_Config u)) vaultKey l) as [decrypted|e] eqn:Ed; [|done]. apply HQ; [by apply grows_cons|].
  split; [done|]. split; [exists passphrase; eapply unlocked_grows; [by apply grows_cons|done]|]. exists l. split; [by left|done].
Qed.

Lemma spec_records past (Q : past_of → Unlocked * string * list SecretRecord → Prop) :
  (∀ past' u vaultKey l, grows past past' → listed past' u vaultKey l → Q past' (u, vaultKey, l)) →
  spec (loadRecordsWithAuth (flags_of c)) past Q.
Proof.
  intros HQ. unfold loadRecordsWithAuth. apply wp_bind, spec_unlockedAPI. intros past1 u passphrase G1 Hu. apply spec_try. intros vaultKey Hk.
  apply wp_bind. eapply spec_list; [done|done|]. intros past2 l G2 Hl. apply HQ; [by etransitivity|done].
Qed.

Lemma spec_write past u vaultKey l record expected (Q : past_of → result unit → Prop) : listed past u vaultKey l →
  (∀ past', grows past past' → asked_record past' l record expected) → (∀ past' r, grows past past' → Q past' r) →
  spec (write_record u vaultKey record expected) past Q.
Proof.
  intros Hl Hr HQ. unfold write_record. apply wp_ask; [done|]. intros nonce. apply spec_try. intros [id blob] He.
  apply spec_call; [|intros r; apply HQ; by do 2 apply grows_cons]. exists vaultKey, l, record, nonce. split_and!; [|apply Hr; by apply grows_cons|done].
  eapply listed_grows; [by apply grows_cons|done].
Qed.

Lemma spec_print past lines (Q : past_of → unit → Prop) : (∀ past', grows past past' → Q past' tt) → spec (print_all lines) past Q.
Proof.
  intros HQ. unfold print_all. apply (wp_for_each _ _ _ _ _ _ _ (λ _ past' (_ : unit), grows past past')); [done| |].
  - intros past' [] text l' Hg. apply spec_call; [done|]. intros []. by apply grows_cons.
  - intros past' [] Hg. by apply HQ.
Qed.

(** *** Locking *)

(** A configuration that can be locked: of the second version, with good credentials. *)
Definition lockable (cfg : Config) : Prop := cf_Version cfg = ConfigVersion ∧ ∀ a, cf_access cfg = Some a → Access_Validate a = Ok tt.

Lemma Lock_Unlock nonce secrets passphrase cfg cfg' : lockable cfg → slen nonce = gcm_NonceSize → Lock (Ok nonce) secrets passphrase cfg = (Ok tt, cfg') →
  ∀ n, Unlock n passphrase cfg' = (Ok secrets, cfg').
Proof using laws local.
  intros [Hv Ha] Hn. unfold Lock. destruct (decode (cf_Salt cfg)) as [salt|] eqn:Es; [|done]. rewrite Hv. change (ConfigVersion =? 1) with false.
  cbv iota zeta. destruct (EncryptJSON _ _ _ _ _) as [blob|] eqn:E; [|done]. intros [= <-] n.
  eapply Unlock_sealed; [exact Hn|exact Es|exact Ha|exact E|done|done].
Qed.

Lemma Lock_same nonce secrets passphrase cfg r cfg' : cf_Version cfg = ConfigVersion → Lock nonce secrets passphrase cfg = (r, cfg') →
  localAAD ConfigVersion cfg' = localAAD ConfigVersion cfg ∧ cf_access cfg' = cf_access cfg ∧ cf_Server cfg' = cf_Server cfg ∧ cf_VaultID cfg' = cf_VaultID cfg ∧
  cf_SigningPublic cfg' = cf_SigningPublic cfg ∧ cf_WrappingPublic cfg' = cf_WrappingPublic cfg ∧ cf_Version cfg' = ConfigVersion.
Proof. intros Hv. unfold Lock. rewrite Hv. destruct (decode _); [|by intros [= _ <-]]. by intros [= _ <-]. Qed.

Lemma Lock_drawn e secrets passphrase cfg cfg' : Lock (Err e) secrets passphrase cfg = (Ok tt, cfg') → False.
Proof.
  unfold Lock, EncryptJSON, Seal. destruct (decode _); [|done]. destruct (cf_Version cfg =? 1).
  - destruct (device_json secrets); [|done]. cbn. by destruct (check_aes_key _).
  - destruct (secrets_json _); [|done]. cbn. by destruct (check_aes_key _).
Qed.

Lemma unlocked_lockable past u passphrase : unlocked past u passphrase → lockable (un_Config u).
Proof.
  intros (raw & cfg & nonce & _ & Hl & _ & Hu). unfold LoadConfig in Hl. cbn in Hl. destruct (config_of_json raw) as [cfg0|]; [|done].
  apply reject_if_bind in Hl as [Hl [= ->]]. apply orb_false_iff in Hl as [[Hl _]%orb_false_iff _]. unfold Unlock in Hu.
  destruct (decode (cf_Salt cfg)); [|done]. destruct (Z.eqb_spec (cf_Version cfg) 1) as [E1|E1].
  - destruct (DecryptJSON _ _ _ _) as [device|]; [|done]. unfold migrate in Hu. destruct (EncryptJSON _ _ _ _ _) as [blob|]; [|done].
    injection Hu as _ <-. by split.
  - cbn [negb andb] in Hl. apply negb_false_iff, Z.eqb_eq in Hl. destruct (DecryptJSON _ _ _ _) as [[device [access|]]|]; [| |done].
    + destruct (is_ok (Access_Validate access)) eqn:Ea; [|done]. injection Hu as _ <-. split; [done|]. intros a [= <-].
      by apply is_ok_true in Ea as [[] ?].
    + injection Hu as _ <-. by split.
Qed.

Lemma spec_lock past secrets passphrase cfg (Q : past_of → Config → Prop) : lockable cfg →
  (∀ past' cfg', grows past past' → locks past' passphrase secrets cfg cfg' → cf_Server cfg' = cf_Server cfg → cf_VaultID cfg' = cf_VaultID cfg →
     cf_SigningPublic cfg' = cf_SigningPublic cfg → cf_WrappingPublic cfg' = cf_WrappingPublic cfg → Q past' cfg') →
  spec (lock_config secrets passphrase cfg) past Q.
Proof using laws local.
  intros Hc HQ. unfold lock_config. apply wp_ask; [done|]. intros nonce. destruct (Lock nonce secrets passphrase cfg) as [r cfg'] eqn:El.
  apply spec_try. intros [] ->. destruct nonce as [nonce|e]; [|by apply Lock_drawn in El].
  destruct (Lock_same _ _ _ _ _ _ (proj1 Hc) El) as (?&?&?&?&?&?&?). apply HQ; [by apply grows_cons| |done..]. split; [done|]. split; [done|].
  exists nonce. split; [by left|]. intros Hn. by eapply Lock_Unlock.
Qed.

(** *** The commands *)

Abbreviation safe p past := (wp guard p past (λ _ (_ : command_end), True) (λ _ _, True)).

Lemma safe_print past text : safe (ask (Call.Print text)) past.
Proof. by split. Qed.

Lemma find_record_Some name l r : find_record name l = Some r → r ∈ l ∧ sr_Name r = name.
Proof. intros [Hin E%String.eqb_eq]%find_some. split; [by apply list_elem_of_In|done]. Qed.

Lemma safe_setSecret auth days bytes args rotate : c = SetSecret auth days bytes args rotate → safe (setSecret auth days bytes args rotate) [].
Proof.
  intros Ec. replace auth with (flags_of c) by by rewrite Ec. unfold setSecret. destruct args as [|name [|]]; [done| |done].
  apply spec_require. intros Hname. apply spec_require. intros _. apply wp_bind.
  set (given := λ (past : past_of) (value : string), if rotate then 16 ≤ bytes ≤ 256 ∧ ∃ raw, Event (Call.Random bytes) (Ok raw) ∈ past ∧ value = encode raw
    else ∃ raw, Event (Call.ReadStdin 1048576) (Ok raw) ∈ past ∧ slen raw ≠ 1048576 ∧ value = trim_line raw).
  apply command_spec_mono with (Q := given).
  2: { unfold given. destruct rotate.
    - apply spec_require. intros [? ?]%andb_true_iff. apply wp_ask; [done|]. intros raw. apply spec_try. intros r ->.
      split; [lia|]. exists r. split; [by left|done].
    - apply wp_ask; [done|]. intros raw. apply spec_try. intros r ->. apply spec_require. intros Hl%negb_true_iff%Z.eqb_neq. exists r.
      split; [by left|done]. }
  intros past value Hv. apply wp_bind, spec_unlockedAPI. intros past1 u passphrase G1 Hu. apply spec_try. intros vaultKey Hk.
  apply wp_bind. unfold putSecretValue. apply wp_bind. eapply spec_list; [exact Hu|exact Hk|]. intros past2 l G2 Hl.
  apply wp_ask; [done|]. intros now. destruct (next_record _ _ _ _ _) as [record expected] eqn:En.
  apply wp_bind. eapply spec_write; [apply (listed_grows past2); [by apply grows_cons|exact Hl]| |].
  - intros past' G3. unfold asked_record. rewrite Ec. split; [done|]. exists value, now. split; [apply G3; by left|]. split; [by rewrite En|].
    assert (G : grows past past') by (etransitivity; [exact G1|]; etransitivity; [exact G2|]; etransitivity; [by apply grows_cons|exact G3]).
    unfold given in Hv. destruct rotate; [destruct Hv as [? (raw&?&?)]; split; [done|]|destruct Hv as (raw&?&?)]; exists raw; (split; [by apply G|done]).
  - intros past' r _. apply spec_try. intros [] _. apply safe_print.
Qed.

Lemma safe_generate auth policy replace days args : c = GeneratePassword auth policy replace days args → safe (generatePassword auth policy replace days args) [].
Proof.
  intros Ec. replace auth with (flags_of c) by by rewrite Ec. unfold generatePassword. destruct args as [|name [|]]; [done| |done].
  apply spec_require. intros Hname. apply spec_require. intros _. apply spec_try. intros [] Hp. apply wp_bind, spec_records.
  intros past u vaultKey l _ Hl. apply wp_ask; [done|]. intros now. apply spec_require. intros Hr. apply wp_ask; [done|]. intros value.
  apply spec_try. intros v ->. destruct (next_record _ _ _ _ _) as [record expected] eqn:En. apply wp_bind.
  eapply spec_write; [apply (listed_grows past); [by do 2 apply grows_cons|exact Hl]| |].
  - intros past' G. unfold asked_record. rewrite Ec. split; [done|]. split; [done|]. split.
    + intros ->. cbn in Hr. apply negb_true_iff, bool_decide_eq_false in Hr. by destruct (find_record name l); [destruct Hr|].
    + exists v, now. split_and!; [apply G; right; by left|apply G; by left|by rewrite En].
  - intros past' r _. apply spec_try. intros [] _. apply safe_print.
Qed.

Lemma safe_browser auth args allow : c = BrowserOrigin auth args allow → safe (browserOriginCommand auth args allow) [].
Proof.
  intros Ec. replace auth with (flags_of c) by by rewrite Ec. unfold browserOriginCommand. destruct args as [|name [|text [|]]]; [done|done| |done].
  apply spec_require. intros _. apply spec_try. intros origin Ho. apply wp_bind, spec_records. intros past u vaultKey l _ Hl.
  destruct (find_record name l) as [old|] eqn:Ef; [|done].
  destruct ((if allow then AddOrigin else RemoveOrigin) (sr_AllowedOrigins old) origin) as [origins changed] eqn:Eo.
  destruct (negb changed); [apply safe_print|]. apply wp_bind. eapply spec_write; [exact Hl| |].
  - intros past' G. unfold asked_record. rewrite Ec. exists origin, old. rewrite Eo. done.
  - intros past' r _. apply spec_try_as. intros [] _. apply safe_print.
Qed.

Lemma safe_reading past (f : Unlocked * string * list SecretRecord → program unit) : (∀ past x, safe (f x) past) → safe (x ← loadRecordsWithAuth (flags_of c); f x) past.
Proof. intros Hf. apply wp_bind, spec_records. intros. apply Hf. Qed.

Lemma safe_lines past lines : safe (print_all lines) past.
Proof. by apply spec_print. Qed.

(** What is run is what was given, without the dashes in front. *)
Lemma dashes_spec (args : list string) (command := match args with "--" :: rest => rest | _ => args end) : command = args ∨ "--" :: command = args.
Proof.
  subst command. destruct args as [|arg rest]; [by left|]. destruct (decide (arg = "--")) as [->|]; [by right|]. left.
  repeat (destruct arg as [|[[] [] [] [] [] [] [] []] arg]; try done).
Qed.

Lemma safe_run auth args : c = RunCommand auth args → safe (runCommand auth args) [].
Proof.
  intros Ec. replace auth with (flags_of c) by by rewrite Ec. unfold runCommand. apply spec_require. intros Hne%negb_true_iff%bool_decide_eq_false.
  apply wp_bind, spec_records. intros past u vaultKey l _ Hl. unfold executeWithRecords. apply wp_ask; [done|]. intros environ.
  apply wp_ask; [|intros ran; by destruct ran]. cbn [guard]. rewrite Ec. exists u, vaultKey, l, environ.
  split; [apply (listed_grows past); [by apply grows_cons|exact Hl]|]. split; [by left|]. split; [done|]. split; [apply dashes_spec|apply environment_spec].
Qed.
Lemma find_listed {A} (p : A → bool) (l : list A) x : List.find p l = Some x → x ∈ l ∧ p x = true.
Proof. intros [Hin Hp]%find_some. split; [by apply list_elem_of_In|done]. Qed.

Lemma safe_approve auth fingerprint args : c = EnrollApprove auth fingerprint args → safe (enrollApprove auth fingerprint args) [].
Proof.
  intros Ec. replace auth with (flags_of c) by by rewrite Ec. unfold enrollApprove. destruct args as [|id [|]]; [done| |done].
  apply spec_require. intros _. apply wp_bind, spec_unlockedAPI. intros past u passphrase _ Hu. apply spec_try. intros vaultKey Hk.
  apply wp_ask; [done|]. intros l. apply spec_try. intros es ->. destruct (List.find _ es) as [e|] eqn:Ef; [|done].
  apply find_listed in Ef as [Hin Hid%String.eqb_eq]. apply spec_require. intros Ha%negb_true_iff. apply spec_require. intros Hv.
  apply wp_ask; [done|]. intros ephemeral. apply wp_ask; [done|]. intros nonce. apply spec_try. intros envelope Hw. apply wp_ask.
  - cbn [guard]. unfold approval_ok. rewrite Ec. split; [done|]. exists es, e, vaultKey, ephemeral, nonce. split; [right; right; by left|].
    split; [done|]. split; [done|]. split; [done|]. split; [done|]. split; [done|]. split; [|done].
    exists passphrase. apply (unlocked_grows past); [by do 3 apply grows_cons|done].
  - intros r. apply spec_try. intros [] _. apply safe_print.
Qed.

Lemma safe_revoke auth fingerprint allowSelf args : c = DeviceRevoke auth fingerprint allowSelf args → safe (deviceRevoke auth fingerprint allowSelf args) [].
Proof.
  intros Ec. replace auth with (flags_of c) by by rewrite Ec. unfold deviceRevoke. destruct args as [|id [|]]; [done| |done].
  apply spec_require. intros Hf%nonempty_true. apply wp_bind, spec_unlockedAPI. intros past u passphrase _ Hu. apply wp_ask; [done|].
  intros l. apply spec_try. intros ds ->. destruct (List.find _ ds) as [d|] eqn:Ed; [|done]. apply find_listed in Ed as [Hin Hid%String.eqb_eq].
  apply spec_require. intros Ha%negb_true_iff%nonempty_false. apply spec_require. intros He. apply spec_require. intros Hself. apply wp_ask.
  - cbn [guard]. unfold revocation_ok. rewrite Ec. split; [done|]. split.
    + intros E. rewrite E, String.eqb_refl in Hself. by destruct allowSelf.
    + exists ds, d. split_and!; [by left|done..].
  - intros r. apply spec_try. intros revoked _. apply wp_ask; [done|]. intros []. by destruct (String.eqb id _).
Qed.

Lemma safe_accept auth : c = EnrollAccept auth → safe (enrollAccept auth) [].
Proof using laws local.
  intros Ec. assert (Ea : flags_of c = auth) by by rewrite Ec. rewrite <-Ea. unfold enrollAccept. apply wp_bind, spec_unlocked. intros past u passphrase _ Hu.
  cbv zeta. apply spec_require. intros Hk%negb_true_iff%nonempty_false. apply wp_ask; [done|]. intros status. apply spec_try. intros st ->.
  apply spec_require. intros [Happ _]%andb_true_iff. apply spec_try. intros vaultKey Hun.
  apply wp_bind, spec_lock; [by eapply unlocked_lockable|]. intros past' cfg G Hl _ _ _ _. apply wp_ask.
  - split; [done|]. right. rewrite Ec. exists u, passphrase, st, vaultKey.
    split; [apply (unlocked_grows past); [etransitivity; [|exact G]; by apply grows_cons|done]|]. split; [done|]. split; [apply G; by left|]. done.
  - intros saved. apply spec_try. intros [] _. apply safe_print.
Qed.

(** A new configuration is of its device, and can be locked again. *)
Lemma NewConfig_Ok salt nonce server vault device name keys passphrase cfg : NewConfig salt nonce server vault device name keys passphrase = Ok cfg →
  cf_Server cfg = server ∧ cf_VaultID cfg = vault ∧ cf_SigningPublic cfg = dk_SigningPublic keys ∧ cf_WrappingPublic cfg = dk_WrappingPublic keys ∧ cf_access cfg = None ∧
  lockable cfg.
Proof.
  intros (s & _ & H)%bind_Ok. cbn zeta in H. destruct (Lock _ _ _ _) as [r cfg'] eqn:El. apply Lock_same in El as (_&Ha&?&?&?&?&Hv); [|done].
  apply bind_Ok in H as ([] & _ & [= ->]). split_and!; try done. split; [done|]. by rewrite Ha.
Qed.

Lemma SetAccess_lockable credentials cfg cfg' : lockable cfg → SetAccessCredentials credentials cfg = (Ok tt, cfg') →
  lockable cfg' ∧ cfg' = set_access (Some credentials) cfg.
Proof.
  intros [Hv _]. unfold SetAccessCredentials. rewrite Hv. cbn [negb Z.eqb ConfigVersion Pos.eqb]. destruct (Access_Validate credentials) as [[]|] eqn:Ea; [|done].
  intros [= <-]. split; [|done]. split; [done|]. intros a [= <-]. done.
Qed.

Lemma spec_new_config past server vault device name keys passphrase access (Q : past_of → Config → Prop) :
  (∀ past' cfg, grows past past' → cf_Server cfg = server → cf_VaultID cfg = vault → cf_SigningPublic cfg = dk_SigningPublic keys →
     cf_WrappingPublic cfg = dk_WrappingPublic keys → cf_access cfg = access → Q past' cfg) →
  spec (new_config server vault device name keys passphrase access) past Q.
Proof using laws local.
  intros HQ. unfold new_config. apply wp_ask; [done|]. intros salt. apply wp_ask; [done|]. intros nonce. apply spec_try.
  intros cfg (?&?&?&?&?&Hl)%NewConfig_Ok. destruct access as [credentials|]; [|by apply HQ; [do 2 apply grows_cons|..]].
  destruct (SetAccessCredentials credentials cfg) as [r cfg1] eqn:Es. apply spec_try. intros [] ->. apply SetAccess_lockable in Es as [Hl1 ->]; [|done].
  apply spec_lock; [done|]. intros past' cfg' G (_ & Hac & _) Hs Hv Hsp Hwp. apply HQ; [|by rewrite ?Hs, ?Hv, ?Hsp, ?Hwp, ?Hac..].
  etransitivity; [|exact G]. by do 2 apply grows_cons.
Qed.

Lemma given_access_grows past past' a : grows past past' → given_access past a → given_access past' a.
Proof. intros Hg (raw & Hin & H). exists raw. split; [by apply Hg|done]. Qed.
Lemma bootstrap_grows past past' b a : grows past past' → bootstrap_access past b a → bootstrap_access past' b a.
Proof. intros Hg. destruct a; [|done]. intros [? ?]. split; [done|by eapply given_access_grows]. Qed.

Lemma spec_access past (Q : past_of → AccessCredentials → Prop) : (∀ past' a, grows past past' → given_access past' a → Q past' a) →
  spec readAccessCredentials past Q.
Proof.
  intros HQ. unfold readAccessCredentials. apply wp_ask; [done|]. intros [raw|e]; [|done]. destruct (access_of_json raw) as [[a []]|] eqn:Ea; [|done..].
  apply spec_try. intros [] Hv. apply HQ; [by apply grows_cons|]. exists raw. split; [by left|done].
Qed.

Lemma spec_bootstrap past enabled (Q : past_of → option AccessCredentials → Prop) :
  (∀ past' a, grows past past' → bootstrap_access past' enabled a → Q past' a) → spec (bootstrapAccessCredentials enabled) past Q.
Proof.
  intros HQ. unfold bootstrapAccessCredentials. destruct enabled; cbn [negb]; [|by apply HQ]. apply wp_bind, spec_access. intros past' a G Ha. by apply HQ.
Qed.

Lemma safe_initialize auth server vault device stdin : c = Initialize auth server vault device stdin → safe (initialize auth server vault device stdin) [].
Proof using laws local.
  intros Ec. assert (Ea : flags_of c = auth) by by rewrite Ec. rewrite <-Ea. unfold initialize. apply spec_require. intros _. apply wp_ask; [done|]. intros stat.
  apply wp_bind. destruct stat as [| |msg]; [done| |done]. cbn [wp mret flow_ret].
  apply wp_bind, spec_readPassphrase. intros past1 passphrase G1 _. apply wp_bind, spec_bootstrap. intros past2 access G2 Hacc.
  apply wp_bind. unfold createVaultDevice. apply wp_ask; [done|]. intros keys. apply spec_try. intros ks ->. apply wp_ask; [done|]. intros key.
  apply spec_try. intros vaultKey _. apply wp_ask; [cbn [guard]; rewrite Ec; split_and!; [done..|]; eapply bootstrap_grows; [|done]; by do 2 apply grows_cons|]. intros created. apply spec_try. intros [vaultID deviceID] _.
  apply wp_bind, spec_new_config. intros past3 cfg G3 Hs Hv Hsp Hwp Hcfg. apply wp_ask.
  - split; [done|]. right. rewrite Ec. split; [exists Missing; split; [apply G3; do 3 right; by apply G2, G1; left|done]|]. split; [done|].
    split; [rewrite Hcfg; eapply bootstrap_grows; [|exact Hacc]; etransitivity; [|exact G3]; by do 3 apply grows_cons|]. exists ks. split; [apply G3; right; right; by left|]. done.
  - intros saved. apply spec_try_as. intros [] _. apply safe_print.
Qed.

Lemma safe_enrollRequest auth server vaultID device stdin : c = EnrollRequest auth server vaultID device stdin → safe (enrollRequest auth server vaultID device stdin) [].
Proof using laws local.
  intros Ec. assert (Ea : flags_of c = auth) by by rewrite Ec. rewrite <-Ea. unfold enrollRequest. apply spec_require. intros _. apply wp_ask; [done|]. intros stat.
  apply wp_bind. assert (Hstat : stat ≠ Exists → safe (passphrase ← readPassphrase (af_passphraseFile (flags_of c));
      access ← bootstrapAccessCredentials stdin; keys ← ask Call.NewDeviceKeys; keys ← try (keys : result DeviceKeys);
      requested ← ask (Call.RequestEnrollment server access vaultID
        {| er_Name := device; er_SigningPublic := dk_SigningPublic keys; er_WrappingPublic := dk_WrappingPublic keys |});
      status ← try (checked_identity es_Device device (dk_SigningPublic keys) (dk_WrappingPublic keys) (requested : result EnrollmentStatus));
      cfg ← new_config server vaultID (dev_ID (es_Device status)) device keys passphrase access;
      saved ← ask (Call.SaveConfig (af_configPath (flags_of c)) cfg);
      _ ← try_as "enrollment was requested but local config could not be saved" (saved : result unit);
      ask (Call.Print ("enrollment requested for device " +:+ dev_ID (es_Device status) +:+ newline +:+
        "fingerprint: " +:+ dev_Fingerprint (es_Device status) +:+ newline))) [Event (Call.StatConfig (af_configPath (flags_of c))) stat]).
  { intros Hne. apply wp_bind, spec_readPassphrase. intros past1 passphrase G1 _. apply wp_bind, spec_bootstrap. intros past2 access G2 Hacc.
    apply wp_ask; [done|]. intros keys. apply spec_try. intros ks ->. apply wp_ask; [cbn [guard]; rewrite Ec; split_and!; [done..|]; eapply bootstrap_grows; [|done]; by apply grows_cons|]. intros requested.
    apply spec_try. intros status _. apply wp_bind, spec_new_config. intros past3 cfg G3 Hs Hv Hsp Hwp Hcfg. apply wp_ask.
    - split; [done|]. right. rewrite Ec. split; [|done]. split; [exists stat; split; [apply G3; do 2 right; by apply G2, G1; left|done]|]. split; [done|].
      split; [rewrite Hcfg; eapply bootstrap_grows; [|exact Hacc]; etransitivity; [|exact G3]; by do 2 apply grows_cons|]. exists ks. split; [apply G3; right; by left|]. done.
    - intros saved. apply spec_try_as. intros [] _. apply safe_print. }
  destruct stat as [| |msg]; [done|by apply Hstat..].
Qed.

Lemma changed_grows past past' operation before after : grows past past' → access_changed past operation before after → access_changed past' operation before after.
Proof.
  intros Hg [(?&?&a&?&?)|[(?&?&a&?&?)|?]]; [left|right; left|by right; right]; split_and!; try done; exists a; split; try done; by eapply given_access_grows.
Qed.

Lemma safe_access auth operation args : c = AccessCommand auth operation args → safe (accessCommand auth operation args) [].
Proof using laws local.
  intros Ec. assert (Ea : flags_of c = auth) by by rewrite Ec. rewrite <-Ea. unfold accessCommand. apply spec_require. intros Hop. apply spec_require. intros Hargs%bool_decide_eq_true.
  unfold load_config. apply wp_bind, wp_ask; [done|]. intros raw. destruct raw as [raw|e]; [|done]. destruct (LoadConfig (Ok raw)) as [cfg|e] eqn:El; [|done].
  cbn [try wp mret flow_ret]. apply wp_bind, spec_readPassphrase. intros past1 passphrase G1 Hp. apply wp_bind, spec_unlock_config. intros past2 nonce G2.
  destruct (Unlock nonce passphrase cfg) as [secrets cfg'] eqn:Eu. apply spec_try. intros s ->.
  set (u := {| un_Config := cfg'; un_Secrets := s |}). assert (Hu : unlocked past2 u passphrase).
  { exists raw, cfg, nonce. split_and!; [apply G2, G1; by left|done|by eapply passphrase_grows|done]. }
  pose proof (unlocked_lockable _ _ _ Hu) as Hl. apply wp_bind.
  apply command_spec_mono with (Q := λ past' cfg1, grows past2 past' ∧ lockable cfg1 ∧ ∃ access, access_changed past' operation (cf_access cfg') access ∧ cfg1 = set_access access cfg').
  - intros past3 cfg1 (G3 & Hl1 & access & Hch & ->). apply wp_bind, spec_lock; [done|]. intros past4 cfg2 G4 Hlk _ _ _ _. apply wp_ask.
    + split; [done|]. right. rewrite Ec. split; [done|]. exists u, passphrase, access. split; [apply (unlocked_grows past2); [by etransitivity|done]|].
      split; [by eapply changed_grows|done].
    + intros saved. apply spec_try_as. intros [] _. apply safe_print.
  - assert (Hnew : spec (credentials ← readAccessCredentials; let '(set, cfg) := SetAccessCredentials credentials cfg' in _ ← try set; mret cfg) past2
      (λ past' cfg1, grows past2 past' ∧ lockable cfg1 ∧ ∃ credentials, given_access past' credentials ∧ cfg1 = set_access (Some credentials) cfg')).
    { apply wp_bind, spec_access. intros past' a G Hg. destruct (SetAccessCredentials a cfg') as [r cfg1] eqn:Es. apply spec_try. intros [] ->.
      apply SetAccess_lockable in Es as [Hl1 ->]; [|done]. split; [done|]. split; [done|]. by exists a. }
    unfold change_access. destruct (String.eqb_spec operation "bind") as [->|N1]; [|destruct (String.eqb_spec operation "rotate") as [->|N2]].
    + apply spec_require. intros Hnone%negb_true_iff%bool_decide_eq_false. eapply command_spec_mono; [|exact Hnew]. intros past' cfg1 (G & Hl1 & a & Hg & ->).
      split; [done|]. split; [done|]. exists (Some a). split; [|done]. left. split; [done|]. split; [by apply eq_None_not_Some|by exists a].
    + apply spec_require. intros Hsome%bool_decide_eq_true. eapply command_spec_mono; [|exact Hnew]. intros past' cfg1 (G & Hl1 & a & Hg & ->).
      split; [done|]. split; [done|]. exists (Some a). split; [|done]. right; left. split; [done|]. split; [by apply not_eq_None_Some|by exists a].
    + apply spec_require. intros Hsome%bool_decide_eq_true. split; [done|]. split; [split; [apply Hl|done]|]. exists None. split; [|done].
      right; right. split; [|split; [by apply not_eq_None_Some|done]]. apply existsb_exists in Hop as (o & Hin & E%String.eqb_eq). subst o.
      destruct Hin as [<-|[<-|[<-|[]]]]; done.
Qed.

Lemma safe_keychain darwin auth args : c = KeychainStore darwin auth args → safe (keychainStore darwin auth args) [].
Proof.
  intros Ec. replace auth with (flags_of c) by by rewrite Ec. unfold keychainStore. apply spec_require. intros _. apply spec_require. intros _.
  unfold load_config. apply wp_bind, wp_ask; [done|]. intros raw. destruct (LoadConfig raw) as [cfg|e]; [|done].
  cbn [try wp mret flow_ret]. apply wp_bind, spec_readPassphrase. intros past1 passphrase _ _. apply wp_bind, spec_unlock_config. intros past2 nonce _.
  destruct (Unlock nonce passphrase cfg) as [secrets cfg']. apply spec_require. intros _. apply wp_ask; [done|]. intros stored. apply spec_try.
  intros [] _. apply safe_print.
Qed.
Lemma safe_due auth notify : c = DueSecrets auth notify → safe (dueSecrets auth notify) [].
Proof.
  intros Ec. replace auth with (flags_of c) by by rewrite Ec. unfold dueSecrets. apply safe_reading. intros past [[u key] l]. apply wp_ask; [done|]. intros now.
  apply wp_bind, spec_print. intros past1 _. apply wp_bind. destruct (notify && _).
  - apply wp_ask; [done|]. intros sent. destruct sent as [[]|e]; [|done]. cbn [try wp mret flow_ret]. destruct (negb _); [done|apply safe_print].
  - cbn [wp mret flow_ret]. destruct (negb _); [done|apply safe_print].
Qed.

Lemma safe_get auth args : c = GetSecret auth args → safe (getSecret auth args) [].
Proof.
  intros Ec. replace auth with (flags_of c) by by rewrite Ec. unfold getSecret. destruct args as [|name [|]]; [done| |done].
  apply safe_reading. intros past [[u key] l]. destruct (find_record name l); [apply safe_print|done].
Qed.

Lemma safe_origins auth args : c = BrowserOrigins auth args → safe (browserOrigins auth args) [].
Proof.
  intros Ec. replace auth with (flags_of c) by by rewrite Ec. unfold browserOrigins. destruct args as [|name [|]]; [done| |done]. apply spec_require. intros _.
  apply safe_reading. intros past [[u key] l]. destruct (find_record name l); [apply safe_lines|done].
Qed.

Lemma safe_lists : (∀ auth, c = EnrollList auth → safe (enrollList auth) []) ∧ (∀ auth args, c = DeviceList auth args → safe (deviceList auth args) []) ∧
  (∀ auth, c = ListSecrets auth → safe (listSecrets auth) []) ∧
  (∀ auth limit before args, c = EventList auth limit before args → safe (eventList auth limit before args) []).
Proof.
  split_and!.
  - intros auth Ec. replace auth with (flags_of c) by by rewrite Ec. unfold enrollList. apply wp_bind, spec_unlockedAPI. intros past u passphrase _ _.
    apply wp_ask; [done|]. intros l. apply spec_try. intros es _. apply safe_lines.
  - intros auth args Ec. replace auth with (flags_of c) by by rewrite Ec. unfold deviceList. apply spec_require. intros _. apply wp_bind, spec_unlockedAPI.
    intros past u passphrase _ _. apply wp_ask; [done|]. intros l. apply spec_try. intros ds _. apply safe_lines.
  - intros auth Ec. replace auth with (flags_of c) by by rewrite Ec. apply safe_reading. intros past [[u key] l]. apply safe_lines.
  - intros auth limit before args Ec. replace auth with (flags_of c) by by rewrite Ec. unfold eventList. apply spec_require. intros _. apply spec_require. intros _.
    apply wp_bind, spec_unlockedAPI. intros past u passphrase _ _. apply wp_ask; [done|]. intros page. apply spec_try. intros [events cursor] _.
    apply wp_bind, spec_print. intros past1 _. cbn [snd]. destruct (nonempty cursor); [by split|done].
Qed.

End Safety.

(** ** An example *)

Module CommandsDemo.
Export Toy.
#[local] Existing Instances OriginDemo.urls OriginDemo.hosts LocalDemo.kdf.
#[local] Instance crypto : Crypto := {| sha256 s := substring 0 32 (s +:+ zeros 32); ed25519_verify _ _ _ := true; x25519_usable _ := true |}.
#[local] Instance records : RecordCodec := {|
  record_json r := Ok (to_text (sr_Name r, sr_Value r, sr_CreatedAt r, sr_RotatedAt r, sr_RotateEveryDays r, sr_Revision r, sr_AllowedOrigins r));
  record_of_json raw := '(name, value, created, rotated, days, revision, origins) ← of_text raw;
    Some {| sr_Name := name; sr_Value := value; sr_CreatedAt := created; sr_RotatedAt := rotated; sr_RotateEveryDays := days;
      sr_Revision := revision; sr_AllowedOrigins := origins |} |}.
#[local] Instance access_codec : AccessCodec := {| access_of_json _ := None |}.

Definition keys : DeviceKeys := {| dk_SigningPublic := "spub"; dk_WrappingPublic := "wpub";
  dk_Secrets := {| sec_SigningPrivate := "spriv"; sec_WrappingPrivate := "wpriv"; sec_VaultKey := encode (zeros 32) |} |}.
(** The configuration that is on the disk. *)
Definition config : Config :=
  match NewConfig (codec := LocalDemo.codec) (Ok "salt") (Ok (zeros 12)) "https://server" "v1" "d1" "laptop" keys "hunter2" with
  | Ok c => c | Err _ => LocalDemo.fresh end.
#[local] Instance codec : LocalCodec := {|
  device_json := device_json (LocalCodec := LocalDemo.codec); device_of_json := device_of_json (LocalCodec := LocalDemo.codec);
  secrets_json := secrets_json (LocalCodec := LocalDemo.codec); secrets_of_json := secrets_of_json (LocalCodec := LocalDemo.codec);
  config_of_json _ := Some config |}.
#[local] Instance local : LocalLaws (codec := codec).
Proof. destruct LocalDemo.local as [Hd Hs]. by split. Qed.

(** A machine: the records of the service, what was printed and what was run. *)
Record Machine := { mc_records : list Record_; mc_printed : list string; mc_ran : list (list string * list string) }.

#[local] Instance machine : World call Machine := λ X x m,
  match x in Commands.Call.call X return X * Machine with
  | Call.Getenv _ => ("hunter2", m) | Call.FileMode _ => (Err "", m) | Call.ReadFile _ => (Err "", m) | Call.StatConfig _ => (Exists, m)
  | Call.ReadConfig _ => (Ok "config", m) | Call.SaveConfig _ _ => (Ok tt, m) | Call.ReadStdin _ => (Ok ("s3cret" +:+ newline), m)
  | Call.Print text => (tt, {| mc_records := mc_records m; mc_printed := text :: mc_printed m; mc_ran := mc_ran m |})
  | Call.Warn _ => (tt, m) | Call.Now => (0, m) | Call.Random n => (Ok (zeros (Z.to_nat n)), m) | Call.NewDeviceKeys => (Ok keys, m)
  | Call.Ephemeral => (Ok (zeros 32), m) | Call.Generate _ => (Ok "generated", m) | Call.Notify _ => (Ok tt, m) | Call.KeychainPut _ _ => (Ok tt, m)
  | Call.Environ => (["PATH=/bin"; "ENVBANK_PASSPHRASE=hunter2"; "TOKEN=old"], m)
  | Call.RunProcess command env => (Ok tt, {| mc_records := mc_records m; mc_printed := mc_printed m; mc_ran := (command, env) :: mc_ran m |})
  | Call.CreateVault _ _ _ _ => (Err "", m) | Call.RequestEnrollment _ _ _ _ => (Err "", m) | Call.ListEnrollments _ => (Err "", m)
  | Call.GetEnrollment _ _ => (Err "", m) | Call.ApproveEnrollment _ _ _ => (Err "", m) | Call.ListDevices _ => (Err "", m)
  | Call.RevokeDevice _ _ => (Err "", m) | Call.ListRecords _ => (Ok (mc_records m), m)
  | Call.PutRecord _ id request => (Ok tt, {| mc_records := {| rec_ID := id; rec_Revision := pr_ExpectedRevision request + 1; rec_Blob := pr_Blob request;
      rec_ModifiedAt := "" |} :: List.filter (λ r, negb (String.eqb (rec_ID r) id)) (mc_records m); mc_printed := mc_printed m; mc_ran := mc_ran m |})
  | Call.ListAccessEvents _ _ _ => (Err "", m)
  end.

Definition auth : authFlags := {| af_configPath := "config.json"; af_passphraseFile := "" |}.
Definition execute_all (l : list command) : Machine :=
  foldl (λ m c, (run (execute c) m []).2) {| mc_records := []; mc_printed := []; mc_ran := [] |} l.
Definition set_token : command := SetSecret auth (-1) 32 ["TOKEN"] false.

(** What was stored is printed, and is what a command gets. *)
Example set_get_run : let m := execute_all [set_token; set_token; GetSecret auth ["TOKEN"]; RunCommand auth ["--"; "make"; "deploy"]] in
  mc_printed m = ["s3cret"; "TOKEN stored (revision 2)" +:+ newline; "TOKEN stored (revision 1)" +:+ newline] ∧
  mc_ran m = [(["make"; "deploy"], ["PATH=/bin"; "TOKEN=s3cret"])].
Proof. vm_compute. done. Qed.

(** An interval of more than 106751 days wraps around, and the record is due at once. *)
Example long_interval_is_due : due 0 {| sr_Name := "A"; sr_Value := ""; sr_CreatedAt := ""; sr_RotatedAt := format_rfc3339 0;
  sr_RotateEveryDays := 106752; sr_Revision := 1; sr_AllowedOrigins := [] |} = true.
Proof. vm_compute. reflexivity. Qed.

(** An identifier that begins with a dash stays an argument. *)
Example dash_identifier : normalizeDeviceRevokeArgs ["--fingerprint"; "ab"; "-AAAAAAAAAAAAAAAAAAAAAAA"] =
  ["--fingerprint"; "ab"; "--"; "-AAAAAAAAAAAAAAAAAAAAAAA"] ∧ normalizeDeviceRevokeArgs ["--allow-self"] = ["--allow-self"].
Proof. vm_compute. done. Qed.


End CommandsDemo.
