(* ===== verification/PairingPayload.v ===== *)
(** The text that a new device shows and an approved device reads, by QR code, clipboard
    or file: internal/pairingmvp/payload.go. *)
From S2P Require Import Prelude Base64 Timestamp Text Secure Envelope Client Manifest Origin Command.
From stdpp Require Import options.

(** ** Strict base64 *)

(** The bits of the last digit that are of no byte. *)
Fixpoint spare_zero (ds : list Z) : bool :=
  match ds with
  | _ :: _ :: _ :: _ :: rest => spare_zero rest
  | [_; _; d] => d mod 4 =? 0
  | [_; d] => d mod 16 =? 0
  | _ => true
  end.

(** [base64.RawURLEncoding.Strict().DecodeString]: it still skips line breaks. *)
Definition decode_strict (value : string) : option string :=
  ds ← digits value; if spare_zero ds then undigits ds else None.

Fixpoint without_breaks (s : string) : string :=
  match s with
  | EmptyString => ""
  | String c rest => if Ascii.eqb c "010" || Ascii.eqb c "013" then without_breaks rest else String c (without_breaks rest)
  end.

(** ** Times in the zone that they were read in *)

(** The zone of a text that [parse_rfc3339] reads: its last byte, or its last six. *)
Definition parsed_offset (value : string) : Z :=
  match zone (drop_bytes (String.length value - 6) value) with Some (offset, EmptyString) => offset | _ => 0 end.

(** [t.Format(time.RFC3339)] of a time that has an offset from UTC. *)
Definition format_in_zone (t offset : Z) : string :=
  let text := format_unix (unix t + offset) in
  if offset =? 0 then text
  else substring 0 (String.length text - 1) text +:+ (if offset <? 0 then "-" else "+") +:+
       pad 2 (Z.abs offset / 3600) +:+ ":" +:+ pad 2 (Z.abs offset / 60 mod 60).

(** ** Payloads *)

Definition PayloadPrefix : string := "envbank-pairing:v1:".
Definition MaxPayloadSize : Z := 8192.

Record PairingPayload := {
  pp_Server : string; pp_VaultID : string; pp_DeviceID : string; pp_Fingerprint : string; pp_CreatedAt : string;
}.
#[export] Instance PairingPayload_eq_dec : EqDecision PairingPayload.
Proof. solve_decision. Defined.

(** What else [url.Parse] reads of a text ([ForceQuery] and [RawPath]), and the text of the
    URL that it read. *)
Class URLTexts := { url_ForceQuery : string → bool; url_RawPath : string → string; url_String : string → string }.

(** [json.Marshal]; and the first value of a text, strictly decoded, with whether an empty
    value can be read after it. *)
Class PairingCodec := { pairing_json : PairingPayload → string; pairing_of_json : string → option (PairingPayload * bool) }.

(** [idPattern] and [fingerprintPattern] *)
Definition pairing_id (s : string) : bool :=
  (slen s =? 24) && all_bytes (λ c, is_upper c || is_lower c || is_digit c || Ascii.eqb c "_" || Ascii.eqb c "-") s.
Definition fingerprint_text (s : string) : bool := (slen s =? 16) && all_bytes is_lower_hex s.

Section Payloads.
Context {urls : URLs} {hosts : Hosts} {texts : URLTexts} {codec : PairingCodec}.

Definition validateServer (value : string) : result unit :=
  match url_Parse value with
  | None => Err "invalid pairing server URL"
  | Some u =>
      _ ← reject_if (negb (nonempty (u_Host u)) || u_User u || nonempty (u_RawQuery u) || url_ForceQuery value ||
            nonempty (u_Fragment u) || (nonempty (u_Path u) && negb (String.eqb (u_Path u) "/")) || nonempty (url_RawPath value))
            "invalid pairing server URL";
      _ ← reject_if (String.eqb (u_Path u) "/") "pairing server URL must not contain a path";
      let hostname := Hostname u in
      _ ← reject_if (negb (nonempty hostname) || negb (String.eqb (ToLower hostname) hostname)) "pairing server URL is not normalized";
      _ ← (if String.eqb (u_Scheme u) "https" then Ok tt
           else if String.eqb (u_Scheme u) "http" then
             reject_if (negb (String.eqb hostname "localhost") && negb (loopback_ip hostname)) "HTTP pairing servers must be loopback"
           else Err "pairing server must use HTTPS or loopback HTTP");
      reject_if (negb (String.eqb (url_String value) value)) "pairing server URL is not normalized"
  end.

Definition validatePayload (payload : PairingPayload) : result unit :=
  _ ← validateServer (pp_Server payload);
  _ ← reject_if (negb (pairing_id (pp_VaultID payload)) || negb (pairing_id (pp_DeviceID payload))) "invalid vault or device ID";
  _ ← reject_if (negb (fingerprint_text (pp_Fingerprint payload))) "invalid device fingerprint";
  match parse_rfc3339 (pp_CreatedAt payload) with
  | None => Err "invalid pairing timestamp"
  | Some created =>
      reject_if (negb (String.eqb (format_in_zone created (parsed_offset (pp_CreatedAt payload))) (pp_CreatedAt payload)))
        "invalid pairing timestamp"
  end.

Definition EncodePayload (payload : PairingPayload) : result string :=
  _ ← validatePayload payload;
  let encoded := PayloadPrefix +:+ encode (pairing_json payload) in
  _ ← reject_if (MaxPayloadSize <? slen encoded) "pairing payload is too large";
  Ok encoded.

Definition DecodePayload (input : string) : result PairingPayload :=
  _ ← reject_if (MaxPayloadSize <? slen input) "pairing payload is too large";
  _ ← reject_if (negb (has_prefix PayloadPrefix input))
        (if has_prefix "envbank-pairing:" input then "unsupported pairing payload version" else "invalid pairing payload prefix");
  let encoded := drop_bytes (String.length PayloadPrefix) input in
  _ ← reject_if (negb (nonempty encoded) || contains_byte "=" encoded) "invalid pairing payload encoding";
  match decode_strict encoded with
  | None => Err "invalid pairing payload encoding"
  | Some raw =>
      match pairing_of_json raw with
      | None | Some (_, true) => Err "invalid pairing payload JSON"
      | Some (payload, false) =>
          _ ← reject_if (negb (String.eqb (pairing_json payload) raw)) "pairing payload is not canonical";
          _ ← validatePayload payload;
          Ok payload
      end
  end.
End Payloads.

(** ** Properties *)

Lemma char_digit_Some c d : char_digit c = Some d → c = digit_char d ∧ 0 ≤ d < 64.
Proof.
  pose proof (forall_ascii (λ c, match char_digit c with Some d => Ascii.eqb c (digit_char d) && (0 <=? d) && (d <? 64) | None => true end)
    ltac:(vm_compute; reflexivity) c) as H. cbn beta in H. intros E. rewrite E in H. apply andb_true_iff in H as [[->%Ascii.eqb_eq H0]%andb_true_iff H1].
  split; [done|lia].
Qed.

(** The text of a list of digits. *)
Definition of_digits (ds : list Z) : string := foldr (λ d s, String (digit_char d) s) "" ds.

Lemma digits_Some s ds : digits s = Some ds → without_breaks s = of_digits ds ∧ Forall (λ d, 0 ≤ d < 64) ds.
Proof.
  revert ds. induction s as [|c s IH]; intros ds; [by intros [= <-]|]. cbn. destruct (_ || _); [apply IH|].
  destruct (char_digit c) as [d|] eqn:Ed; [|done]. destruct (digits s) as [ds'|]; [|done]. intros [= <-].
  destruct (IH ds' eq_refl) as [-> H]. apply char_digit_Some in Ed as [-> Hd]. split; [done|by constructor].
Qed.

Lemma digits_of_digits ds : Forall (λ d, 0 ≤ d < 64) ds → digits (of_digits ds) = Some ds.
Proof. induction 1 as [|d ds Hd _ IH]; [done|]. change (of_digits (d :: ds)) with (String (digit_char d) (of_digits ds)). by rewrite digits_char, IH by done. Qed.

Lemma digits_without_breaks s : digits (without_breaks s) = digits s.
Proof. induction s as [|c s IH]; [done|]. cbn. destruct (_ || _) eqn:E; [done|]. cbn. by rewrite E, IH. Qed.

(** Induction over digits by the decoder's groups of four. *)
Lemma list_ind4 {A} (P : list A → Prop) :
  P [] → (∀ a, P [a]) → (∀ a b, P [a; b]) → (∀ a b c, P [a; b; c]) → (∀ a b c d l, P l → P (a :: b :: c :: d :: l)) → ∀ l, P l.
Proof.
  intros H0 H1 H2 H3 H4 l.
  assert (H : P l ∧ (∀ a, P (a :: l)) ∧ (∀ a b, P (a :: b :: l)) ∧ (∀ a b c, P (a :: b :: c :: l))) by (induction l; naive_solver).
  apply H.
Qed.

Lemma encode_undigits ds raw : Forall (λ d, 0 ≤ d < 64) ds → spare_zero ds = true → undigits ds = Some raw → encode raw = of_digits ds.
Proof.
  revert raw. induction ds as [|d0|d0 d1|d0 d1 d2|d0 d1 d2 d3 ds IH] using list_ind4; intros raw; rewrite ?Forall_cons; cbn [undigits spare_zero];
    [by intros _ _ [= <-]|done|intros (H0 & H1 & _) Hz [= <-]|intros (H0 & H1 & H2 & _) Hz [= <-]|].
  - cbn [encode of_digits foldr]. rewrite !code_chr by (Z.to_euclidean_division_equations; lia).
    repeat f_equal; Z.to_euclidean_division_equations; lia.
  - cbn [encode of_digits foldr]. rewrite !code_chr by (Z.to_euclidean_division_equations; lia).
    repeat f_equal; Z.to_euclidean_division_equations; lia.
  - intros (H0 & H1 & H2 & H3 & Hds) Hz. destruct (undigits ds) as [tail|] eqn:Et; [|done]. intros [= <-].
    cbn [encode of_digits foldr]. rewrite !code_chr by (Z.to_euclidean_division_equations; lia).
    change (foldr _ "" ds) with (of_digits ds). rewrite (IH tail) by done.
    repeat f_equal; Z.to_euclidean_division_equations; lia.
Qed.

Lemma encode_spare_zero raw ds : digits (encode raw) = Some ds → spare_zero ds = true.
Proof.
  revert ds. induction raw as [|a|a b|a b c raw IH] using string_ind3; intros ds; [by intros [= <-]|..]; cbn [encode]; code_bounds;
    rewrite !digits_char by (Z.to_euclidean_division_equations; lia).
  - intros [= <-]. cbn. Z.to_euclidean_division_equations. lia.
  - intros [= <-]. cbn. Z.to_euclidean_division_equations. lia.
  - destruct (digits (encode raw)) as [ds'|] eqn:E; [|done]. intros [= <-]. cbn [spare_zero]. by apply IH.
Qed.

(** What is decoded strictly is, but for line breaks, the encoding of the bytes. *)
Lemma decode_strict_Some s raw : decode_strict s = Some raw ↔ without_breaks s = encode raw.
Proof.
  unfold decode_strict. rewrite <-digits_without_breaks. split.
  - destruct (digits _) as [ds|] eqn:E; [|done]. cbn. rewrite digits_without_breaks in E. apply digits_Some in E as [-> H].
    destruct (spare_zero ds) eqn:Es; [|done]. intros Hu. symmetry. by apply encode_undigits.
  - intros ->. pose proof (decode_encode raw) as Hd. unfold decode in Hd. destruct (digits (encode raw)) as [ds|] eqn:E; [|done].
    cbn in *. by rewrite (encode_spare_zero _ _ E).
Qed.

Lemma slen_without_breaks s : slen (without_breaks s) ≤ slen s.
Proof. unfold slen. induction s as [|c s IH]; [done|]. cbn. destruct (_ || _); cbn; lia. Qed.

Lemma encode_no_padding raw : contains_byte "=" (encode raw) = false.
Proof.
  assert (Hd : ∀ d, Ascii.eqb "=" (digit_char d) = false).
  { intros d. unfold digit_char. destruct (String.get _ alphabet) as [c|] eqn:E; [|done]. revert E. generalize (Z.to_nat d). intros n.
    do 64 (destruct n as [|n]; [intros [= <-]; reflexivity|]). by destruct n. }
  induction raw as [| |a b|a b c raw IH] using string_ind3; cbn [encode contains_byte]; by rewrite ?Hd.
Qed.

Lemma breaks_no_padding s : contains_byte "=" (without_breaks s) = contains_byte "=" s.
Proof.
  induction s as [|c s IH]; [done|]. cbn. destruct (_ || _) eqn:E; cbn; rewrite IH; [|done].
  apply orb_true_iff in E as [->%Ascii.eqb_eq| ->%Ascii.eqb_eq]; done.
Qed.

Section Payloads.
Context {urls : URLs} {hosts : Hosts} {texts : URLTexts} {codec : PairingCodec}.

Lemma EncodePayload_Ok payload text : EncodePayload payload = Ok text ↔
  validatePayload payload = Ok tt ∧ text = PayloadPrefix +:+ encode (pairing_json payload) ∧ slen text ≤ MaxPayloadSize.
Proof.
  unfold EncodePayload. rewrite bind_Ok. setoid_rewrite reject_if_bind. split.
  - intros ([] & Hv & Hl & [= <-]). split; [done|]. split; [done|]. lia.
  - intros (Hv & -> & Hl). exists tt. split; [done|]. split; [lia|done].
Qed.

Definition utf8_payload (p : PairingPayload) : Prop :=
  Forall (λ s, valid_utf8 s = true) [pp_Server p; pp_VaultID p; pp_DeviceID p; pp_Fingerprint p; pp_CreatedAt p].

(** What is decoded was encoded: a text decodes to a payload only if it has at most 8
    KiB, the payload is valid, and the text is, but for line breaks after the prefix, the
    one that encoding the payload gives; and every such text of a payload of UTF-8 decodes
    to it.  So a payload has one text without line breaks, and no text stands for two.
    (The JSON of a payload of UTF-8 is not empty and is read back.) *)
Theorem pairing_payload_roundtrip (payload : PairingPayload) :
  (∀ p, utf8_payload p → pairing_json p ≠ "" ∧ pairing_of_json (pairing_json p) = Some (p, false)) →
  (∀ input, DecodePayload input = Ok payload → slen input ≤ MaxPayloadSize ∧ validatePayload payload = Ok tt ∧
     ∃ body, input = PayloadPrefix +:+ body ∧ EncodePayload payload = Ok (PayloadPrefix +:+ without_breaks body)) ∧
  (∀ body, utf8_payload payload → slen (PayloadPrefix +:+ body) ≤ MaxPayloadSize →
     EncodePayload payload = Ok (PayloadPrefix +:+ without_breaks body) → DecodePayload (PayloadPrefix +:+ body) = Ok payload).
Proof.
  intros Hjson. split.
  - intros input H. unfold DecodePayload in H. rewrite !reject_if_bind in H. destruct H as (Hl & Hp%negb_false_iff & _ & H).
    apply Z.ltb_ge in Hl. apply Toy.drop_prefix in Hp. destruct (decode_strict _) as [raw|] eqn:Ed; [|done].
    destruct (pairing_of_json raw) as [[p []]|]; [done| |done]. rewrite reject_if_bind in H. destruct H as [Hc H].
    apply negb_false_iff, String.eqb_eq in Hc. apply bind_Ok in H as ([] & Hv & [= ->]). apply decode_strict_Some in Ed.
    split; [done|]. split; [done|]. exists (drop_bytes (String.length PayloadPrefix) input). split; [done|].
    apply EncodePayload_Ok. rewrite Hc, Ed. split; [done|]. split; [done|]. rewrite <-Ed.
    pose proof (slen_without_breaks (drop_bytes (String.length PayloadPrefix) input)) as Hb.
    rewrite Hp, slen_app in Hl. rewrite slen_app. lia.
  - intros body Hu Hl (Hv & Ht & _)%EncodePayload_Ok. destruct (Hjson payload Hu) as [Hne Hj].
    assert (Hb : without_breaks body = encode (pairing_json payload)).
    { apply (f_equal (drop_bytes (String.length PayloadPrefix))) in Ht. by rewrite !(proj2 (Toy.prefix_app _ _)) in Ht. }
    unfold DecodePayload. rewrite (proj1 (Toy.prefix_app _ _)), (proj2 (Toy.prefix_app _ _)). replace (_ <? _) with false by lia.
    cbn [negb reject_if mbind result_bind]. rewrite <-breaks_no_padding, Hb, encode_no_padding.
    replace (nonempty body) with true; cycle 1.
    { symmetry. apply nonempty_true. intros ->. cbn in Hb. symmetry in Hb. by apply (encode_inj _ "") in Hb. }
    cbn [negb orb reject_if mbind result_bind]. rewrite (proj2 (decode_strict_Some _ _) Hb), Hj, String.eqb_refl. cbn [negb reject_if mbind result_bind].
    by rewrite Hv.
Qed.
End Payloads.

(** ** An example *)

Module PairingDemo.
Export Toy.
#[export] Existing Instances OriginDemo.urls OriginDemo.hosts.
#[export] Instance texts : URLTexts := {| url_ForceQuery _ := false; url_RawPath _ := ""; url_String s := s |}.
Definition join (l : list string) : string := String.concat "." (encode <$> l).
#[export] Instance codec : PairingCodec := {|
  pairing_json p := join [pp_Server p; pp_VaultID p; pp_DeviceID p; pp_Fingerprint p; pp_CreatedAt p];
  pairing_of_json raw :=
    match mapM decode (split_on "." raw) with
    | Some [server; vault; device; fingerprint; created] =>
        Some ({| pp_Server := server; pp_VaultID := vault; pp_DeviceID := device; pp_Fingerprint := fingerprint; pp_CreatedAt := created |}, false)
    | _ => None
    end |}.

Definition server : string := "https://127.0.0.1:7337".
Definition payload : PairingPayload := {| pp_Server := "https://example.com"; pp_VaultID := "AAAAAAAAAAAAAAAAAAAAAAAA"; pp_DeviceID := "bbbbbbbbbbbbbbbbbbbbbbbb";
  pp_Fingerprint := "0123456789abcdef"; pp_CreatedAt := "2026-08-05T12:00:00+02:00" |}.

Lemma no_dot s : all_bytes (λ d, negb (Ascii.eqb "." d)) (encode s) = true.
Proof.
  assert (Hd : ∀ d, Ascii.eqb "." (digit_char d) = false).
  { intros d. unfold digit_char. destruct (String.get _ alphabet) as [c|] eqn:E; [|done]. revert E. generalize (Z.to_nat d). intros n.
    do 64 (destruct n as [|n]; [intros [= <-]; reflexivity|]). by destruct n. }
  induction s as [| |a b|a b c s IH] using string_ind3; cbn [encode all_bytes]; by rewrite ?Hd.
Qed.

Lemma codec_law p : utf8_payload p → pairing_json p ≠ "" ∧ pairing_of_json (pairing_json p) = Some (p, false).
Proof.
  intros _. assert (H : pairing_of_json (pairing_json p) = Some (p, false)).
  { cbn [pairing_json pairing_of_json codec]. unfold join. cbn [fmap list_fmap String.concat].
    rewrite !(string_app_cons "."), !string_app_nil_l, !split_on_cons, split_on_last by apply no_dot.
    repeat (cbn [mapM mbind option_bind mret option_ret]; rewrite ?decode_encode). by destruct p. }
  split; [|done]. intros E. rewrite E in H. by vm_compute in H.
Qed.

Example zone_kept : validatePayload payload = Ok tt.
Proof. vm_compute. reflexivity. Qed.
Example zone_not_canonical : format_in_zone (1786305600 * second) 0 = "2026-08-09T20:00:00Z" ∧ parsed_offset "2026-08-05T12:00:00+00:00" = 0.
Proof. vm_compute. done. Qed.

Definition text : string := from_option id "" (match EncodePayload payload with Ok text => Some text | Err _ => None end).
(** The same text with a line break in it, as a clipboard may give it. *)
Definition broken : string := substring 0 40 text +:+ String "010" "" +:+ drop_bytes 40 text.

Lemma pairing_payload_roundtrip_witness : DecodePayload text = Ok payload ∧ DecodePayload broken = Ok payload ∧
  EncodePayload payload = Ok (PayloadPrefix +:+ without_breaks (drop_bytes (String.length PayloadPrefix) broken)).
Proof.
  assert (Hu : utf8_payload payload) by (repeat constructor).
  split; [|split; [|]].
  - apply (proj2 (pairing_payload_roundtrip payload codec_law) (drop_bytes (String.length PayloadPrefix) text));
      [done|vm_compute; discriminate|vm_compute; reflexivity].
  - apply (proj2 (pairing_payload_roundtrip payload codec_law) (drop_bytes (String.length PayloadPrefix) broken));
      [done|vm_compute; discriminate|vm_compute; reflexivity].
  - vm_compute. reflexivity.
Defined.
End PairingDemo.
