(* ===== verification/Pairing.v ===== *)
(** The disposable pairing laboratory: the state machine of internal/pairingmvp/lab.go
    and the controller of web.go that drives it, as a program over the service, the source
    of randomness and the browser.  The lock of the laboratory is held for a whole
    operation, so operations come one after the other.  The calls of the service are the
    methods of internal/client/api.go, which CreateInvitation checks here as there. *)
From S2P Require Import Prelude Base64 Timestamp Text Secure Protocol Envelope VaultObject Client ClientAPI Manifest LocalConfig Origin PairingPayload.
From S2P Require Export Program.
From stdpp Require Import options.

(** ** Data *)

Inductive Phase :=
| PhaseIdle | PhaseRequested | PhaseImported | PhaseApproved | PhaseAccepted
| PhaseCancelled | PhaseRejected | PhaseExpired | PhaseExhausted.
#[export] Instance Phase_eq_dec : EqDecision Phase.
Proof. solve_decision. Defined.

(** The state that is shown. *)
Record LabState := {
  st_Phase : Phase; st_Server : string; st_VaultID : string; st_PairingPayload : string; st_DeviceID : string; st_DeviceName : string;
  st_Fingerprint : string; st_Imported : bool; st_SameVaultKey : bool; st_InvitationState : string; st_ExpiresAt : string;
  st_AttemptsRemaining : Z; st_TerminalAt : string;
}.

Inductive LabError := StatusError (status : Z) (msg : string) | OtherError (msg : string).
Definition conflict (message : string) : LabError := StatusError 409 message.
Definition badRequest (message : string) : LabError := StatusError 400 message.

Record Lab := MkLab {
  lb_phase : Phase; lb_vaultID : string; lb_approvedKeys : DeviceKeys; lb_vaultKey : string; lb_approvedAPI : API;
  lb_newKeys : DeviceKeys; lb_pending : Invitation; lb_imported : Invitation; lb_payload : string; lb_sameVaultKey : bool;
}.

Definition no_keys : DeviceKeys := {| dk_SigningPublic := ""; dk_WrappingPublic := "";
  dk_Secrets := {| sec_SigningPrivate := ""; sec_WrappingPrivate := ""; sec_VaultKey := "" |} |}.
Definition no_device : PublicDevice := {| dev_ID := ""; dev_Name := ""; dev_SigningPublic := ""; dev_WrappingPublic := ""; dev_Fingerprint := "";
  dev_CreatedAt := "" |}.
Definition no_invitation : Invitation := {| iv_Version := 0; iv_Device := no_device; iv_State := ""; iv_ExpiresAt := ""; iv_AttemptsRemaining := 0;
  iv_TerminalAt := ""; iv_Envelope := None |}.
Definition empty_lab : Lab := MkLab PhaseIdle "" no_keys "" {| api_VaultID := ""; api_DeviceID := ""; api_Secrets := dk_Secrets no_keys |}
  no_keys no_invitation no_invitation "" false.

(** What the browser sends: a body is missing when it could not be read. *)
Record BrowserRequest := {
  br_Host : string; br_Query : string; br_Fragment : string; br_Method : string; br_Path : string; br_Cookie : option string; br_Origin : string;
  br_CSRF : string; br_ContentType : string; br_Body : option string;
}.

(** The page is the static text with its two tokens. *)
Inductive LabReply :=
| ReplyError (status : Z) (msg : string)
| ReplyState (state : LabState)
| ReplyPage (nonce session csrf : string)
| ReplyImage (png : string).

Module Call.
(** [Ephemeral] is the key that [WrapVaultKey] generates; [Browser] is the next request, or
    the end. *)
Inductive call : Type → Type :=
| NewDeviceKeys : call (result DeviceKeys)
| Random (bytes : Z) : call (result string)
| Ephemeral : call (result string)
| CreateVault (name : string) (device : PublicDevice) : call (result (string * string))
| CreateInvitation (vaultID : string) (request : InvitationRequest) : call (result Invitation)
| ListInvitations (a : API) : call (result (list Invitation))
| GetInvitation (a : API) (deviceID : string) : call (result Invitation)
| ApproveInvitation (a : API) (deviceID : string) (approval : InvitationApprovalBody) : call (result Invitation)
| RejectInvitation (a : API) (deviceID : string) (transition : InvitationTransition) : call (result Invitation)
| CancelInvitation (a : API) (deviceID : string) (transition : InvitationTransition) : call (result Invitation)
| EncodeQR (text : string) : call (result string)
| Browser : call (option BrowserRequest)
| Reply (reply : LabReply) : call unit.
End Call.
Abbreviation call := Call.call.

(** [json] bodies of the controller, strictly decoded: the one field of an input, or none. *)
Class ControllerCodec := {
  body_name : string → option string; body_payload : string → option string; body_fingerprint : string → option string; body_empty : string → option unit;
}.

Definition actionAllowed (phase : Phase) (action : string) : bool :=
  if String.eqb action "reset" then true
  else (bool_decide (phase = PhaseIdle) && String.eqb action "request") ||
       (bool_decide (phase = PhaseRequested) && String.eqb action "import") ||
       (bool_decide (phase = PhaseImported) && String.eqb action "approve") ||
       (bool_decide (phase = PhaseApproved) && String.eqb action "accept") ||
       ((bool_decide (phase = PhaseRequested) || bool_decide (phase = PhaseImported)) && String.eqb action "cancel") ||
       (bool_decide (phase = PhaseImported) && String.eqb action "reject").

Definition phaseForInvitation (state : string) : Phase :=
  if String.eqb state (state_text InvitationApproved) then PhaseApproved
  else if String.eqb state (state_text InvitationCancelled) then PhaseCancelled
  else if String.eqb state (state_text InvitationRejected) then PhaseRejected
  else if String.eqb state (state_text InvitationExpired) then PhaseExpired
  else if String.eqb state (state_text InvitationAttemptsExhausted) then PhaseExhausted
  else PhaseRequested.

Definition invitationTransition (status : Invitation) : InvitationTransition :=
  {| it_Version := iv_Version status; it_DeviceID := dev_ID (iv_Device status); it_Fingerprint := dev_Fingerprint (iv_Device status) |}.

Definition groupedFingerprint (value : string) : string :=
  if negb (slen value =? 16) then value
  else substring 0 4 value +:+ " " +:+ substring 4 4 value +:+ " " +:+ substring 8 4 value +:+ " " +:+ substring 12 4 value.

(** ** Operations *)

Section Lab.
Context {crypto : Crypto} {cipher : Cipher} {urls : URLs} {hosts : Hosts} {texts : URLTexts} {codec : PairingCodec}.
Context (serverURL : string).

(** An operation: the laboratory after it, with the state that it shows or its error. *)
Abbreviation outcome := (Lab * (LabState + LabError))%type.
Abbreviation operation := (flow call outcome).

Definition check {A} (l : Lab) (f : string → LabError) (r : result A) : operation A :=
  match r with Ok a => mret a | Err e => Exit (l, inr (f e)) end.
Definition require (l : Lab) (c : bool) (e : LabError) : operation unit := if c then mret tt else Exit (l, inr e).

Definition stateLocked (l : Lab) : LabState :=
  let imported := bool_decide (lb_phase l ∈ [PhaseImported; PhaseApproved; PhaseAccepted]) in
  if negb (actionAllowed (lb_phase l) "request") then
    {| st_Phase := lb_phase l; st_Server := serverURL; st_VaultID := lb_vaultID l; st_PairingPayload := lb_payload l;
       st_DeviceID := dev_ID (iv_Device (lb_pending l)); st_DeviceName := dev_Name (iv_Device (lb_pending l));
       st_Fingerprint := groupedFingerprint (dev_Fingerprint (iv_Device (lb_pending l))); st_Imported := imported;
       st_SameVaultKey := lb_sameVaultKey l; st_InvitationState := iv_State (lb_pending l); st_ExpiresAt := iv_ExpiresAt (lb_pending l);
       st_AttemptsRemaining := iv_AttemptsRemaining (lb_pending l); st_TerminalAt := iv_TerminalAt (lb_pending l) |}
  else
    {| st_Phase := lb_phase l; st_Server := serverURL; st_VaultID := lb_vaultID l; st_PairingPayload := ""; st_DeviceID := ""; st_DeviceName := "";
       st_Fingerprint := ""; st_Imported := imported; st_SameVaultKey := lb_sameVaultKey l; st_InvitationState := ""; st_ExpiresAt := "";
       st_AttemptsRemaining := 0; st_TerminalAt := "" |}.

Definition shown (l : Lab) : operation outcome := mret (l, inl (stateLocked l)).

Definition lab_name : string := "Approved lab device".
(** The laboratory with its new vault, or the error that leaves it as it is. *)
Definition initializeVault (l : Lab) : flow call (result Lab) (result Lab) :=
  keys ← ask Call.NewDeviceKeys;
  match (keys : result DeviceKeys) with
  | Err e => mret (Err e)
  | Ok keys =>
      vaultKey ← ask (Call.Random 32);
      match (vaultKey : result string) with
      | Err e => mret (Err e)
      | Ok vaultKey =>
          created ← ask (Call.CreateVault "Disposable pairing lab" {| dev_ID := ""; dev_Name := lab_name; dev_SigningPublic := dk_SigningPublic keys;
            dev_WrappingPublic := dk_WrappingPublic keys; dev_Fingerprint := ""; dev_CreatedAt := "" |});
          mret ('(vaultID, deviceID) ← (created : result (string * string));
            Ok (MkLab (lb_phase l) vaultID keys vaultKey {| api_VaultID := vaultID; api_DeviceID := deviceID; api_Secrets := dk_Secrets keys |}
              (lb_newKeys l) (lb_pending l) (lb_imported l) (lb_payload l) (lb_sameVaultKey l)))
      end
  end.

Definition NewLab : flow call (result Lab) (result Lab) := initializeVault empty_lab.

Definition pendingAPI (l : Lab) : API :=
  {| api_VaultID := lb_vaultID l; api_DeviceID := dev_ID (iv_Device (lb_pending l)); api_Secrets := dk_Secrets (lb_newKeys l) |}.

(** What a status that was read makes of the laboratory. *)
Definition refreshed (l : Lab) (status : Invitation) : Lab :=
  let phase := if negb (String.eqb (iv_State status) (state_text InvitationPending)) && negb (bool_decide (lb_phase l = PhaseAccepted))
    then phaseForInvitation (iv_State status) else lb_phase l in
  MkLab phase (lb_vaultID l) (lb_approvedKeys l) (lb_vaultKey l) (lb_approvedAPI l) (lb_newKeys l) status (lb_imported l) (lb_payload l)
    (lb_sameVaultKey l).

Definition refreshLocked (l : Lab) : operation Lab :=
  if negb (nonempty (dev_ID (iv_Device (lb_pending l)))) then mret l
  else
    status ← ask (Call.GetInvitation (pendingAPI l) (dev_ID (iv_Device (lb_pending l))));
    mret (match (status : result Invitation) with Ok status => refreshed l status | Err _ => l end).

Definition Lab_State (l : Lab) : operation outcome := l ← refreshLocked l; shown l.

Definition Lab_Refresh (l : Lab) : operation outcome :=
  if negb (nonempty (dev_ID (iv_Device (lb_pending l)))) then shown l
  else
    status ← ask (Call.GetInvitation (pendingAPI l) (dev_ID (iv_Device (lb_pending l))));
    status ← check l OtherError (status : result Invitation);
    shown (refreshed l status).

(** [client.CreateInvitation] *)
Definition client_CreateInvitation (vaultID : string) (request : InvitationRequest) : operation (result Invitation) :=
  status ← ask (Call.CreateInvitation vaultID request);
  mret (checked_identity iv_Device (ir_Name request) (ir_SigningPublic request) (ir_WrappingPublic request) (status : result Invitation)).

Definition good_name (name : string) : bool := nonempty name && (slen name <=? 64) && negb (existsb is_control (runes name)).

Definition Lab_Request (name : string) (l : Lab) : operation outcome :=
  _ ← require l (actionAllowed (lb_phase l) "request") (conflict "request is only valid from idle");
  let name := TrimSpace name in
  _ ← require l (good_name name) (badRequest "device name must be 1-64 printable characters");
  keys ← ask Call.NewDeviceKeys;
  keys ← check l OtherError (keys : result DeviceKeys);
  status ← client_CreateInvitation (lb_vaultID l) {| ir_Version := InvitationProtocolVersion; ir_Name := name;
    ir_SigningPublic := dk_SigningPublic keys; ir_WrappingPublic := dk_WrappingPublic keys |};
  status ← check l OtherError (status : result Invitation);
  payload ← check l OtherError (EncodePayload {| pp_Server := serverURL; pp_VaultID := lb_vaultID l; pp_DeviceID := dev_ID (iv_Device status);
    pp_Fingerprint := dev_Fingerprint (iv_Device status); pp_CreatedAt := dev_CreatedAt (iv_Device status) |});
  shown (MkLab PhaseRequested (lb_vaultID l) (lb_approvedKeys l) (lb_vaultKey l) (lb_approvedAPI l) keys status (lb_imported l) payload
    (lb_sameVaultKey l)).

(** The test of the identity that an invitation has: its keys are good and give its
    fingerprint and this one. *)
Definition identity_matches (device : PublicDevice) (fingerprint : string) : bool :=
  is_ok (ValidateDeviceIdentity device (dev_SigningPublic device) (dev_WrappingPublic device)) &&
  String.eqb fingerprint (PublicFingerprint (dev_SigningPublic device) (dev_WrappingPublic device)).

Definition Lab_Import (encoded : string) (l : Lab) : operation outcome :=
  _ ← require l (actionAllowed (lb_phase l) "import") (conflict "import is only valid after a request");
  payload ← check l badRequest (DecodePayload encoded);
  _ ← require l (String.eqb (pp_Server payload) serverURL && String.eqb (pp_VaultID payload) (lb_vaultID l))
        (badRequest "payload server or vault does not match the approved device");
  invitations ← ask (Call.ListInvitations (lb_approvedAPI l));
  invitations ← check l OtherError (invitations : result (list Invitation));
  match List.find (λ i, String.eqb (dev_ID (iv_Device i)) (pp_DeviceID payload)) invitations with
  | None => Exit (l, inr (badRequest "payload does not identify a pending invitation"))
  | Some selected =>
      _ ← require l (String.eqb (iv_State selected) (state_text InvitationPending)) (badRequest "payload does not identify a pending invitation");
      _ ← require l (identity_matches (iv_Device selected) (pp_Fingerprint payload) &&
            String.eqb (pp_CreatedAt payload) (dev_CreatedAt (iv_Device selected)))
            (badRequest "payload does not match the server-returned enrollment identity");
      shown (MkLab PhaseImported (lb_vaultID l) (lb_approvedKeys l) (lb_vaultKey l) (lb_approvedAPI l) (lb_newKeys l) (lb_pending l) selected
        (lb_payload l) (lb_sameVaultKey l))
  end.

(** The fingerprint that the owner typed. *)
Definition typed_fingerprint (fingerprint : string) : string := ToLower (TrimSpace (replace_byte " " "" fingerprint)).

Definition Lab_Approve (fingerprint : string) (l : Lab) : operation outcome :=
  _ ← require l (actionAllowed (lb_phase l) "approve") (conflict "approval is only valid after import");
  let fingerprint := typed_fingerprint fingerprint in
  let id := dev_ID (iv_Device (lb_imported l)) in
  _ ← require l (fingerprint_text fingerprint && String.eqb fingerprint (dev_Fingerprint (iv_Device (lb_imported l))))
        (badRequest "the complete 16-hex-character fingerprint does not match");
  fresh ← ask (Call.GetInvitation (lb_approvedAPI l) id);
  fresh ← check l OtherError (fresh : result Invitation);
  let device := iv_Device fresh in
  _ ← require l (String.eqb (iv_State fresh) (state_text InvitationPending) && bool_decide (device = iv_Device (lb_imported l)))
        (conflict "pending invitation changed; approval stopped");
  _ ← require l (identity_matches device fingerprint) (conflict "pending invitation identity is invalid; approval stopped");
  ephemeral ← ask Call.Ephemeral;
  nonce ← ask (Call.Random gcm_NonceSize);
  envelope ← check l OtherError (WrapVaultKey ephemeral nonce (lb_vaultKey l) (dev_WrappingPublic device) (lb_vaultID l) (dev_ID device));
  status ← ask (Call.ApproveInvitation (lb_approvedAPI l) (dev_ID device)
    {| ia_Version := iv_Version fresh; ia_DeviceID := dev_ID device; ia_Fingerprint := dev_Fingerprint device; ia_Envelope := envelope |});
  status ← check l OtherError (status : result Invitation);
  shown (MkLab PhaseApproved (lb_vaultID l) (lb_approvedKeys l) (lb_vaultKey l) (lb_approvedAPI l) (lb_newKeys l) status status (lb_payload l)
    (lb_sameVaultKey l)).

Definition with_sameVaultKey (l : Lab) (same : bool) (phase : Phase) (pending : Invitation) : Lab :=
  MkLab phase (lb_vaultID l) (lb_approvedKeys l) (lb_vaultKey l) (lb_approvedAPI l) (lb_newKeys l) pending (lb_imported l) (lb_payload l) same.

Definition Lab_Accept (l : Lab) : operation outcome :=
  _ ← require l (actionAllowed (lb_phase l) "accept") (conflict "accept is only valid after approval");
  let id := dev_ID (iv_Device (lb_pending l)) in
  status ← ask (Call.GetInvitation (pendingAPI l) id);
  status ← check l OtherError (status : result Invitation);
  match iv_Envelope status with
  | None => Exit (l, inr (conflict "invitation is not approved"))
  | Some envelope =>
      _ ← require l (String.eqb (iv_State status) (state_text InvitationApproved)) (conflict "invitation is not approved");
      _ ← require l (bool_decide (iv_Device status = iv_Device (lb_pending l))) (OtherError "server-returned enrollment identity changed");
      unwrapped ← check l (λ e, OtherError ("could not unwrap enrollment envelope: " +:+ e))
        (UnwrapEnrollmentVaultKey {| es_Device := iv_Device status; es_Approved := true; es_Envelope := Some envelope; es_RevokedAt := "" |}
          (dk_Secrets (lb_newKeys l)) (lb_vaultID l) id);
      if String.eqb unwrapped (lb_vaultKey l) then shown (with_sameVaultKey l true PhaseAccepted status)
      else mret (with_sameVaultKey l false (lb_phase l) (lb_pending l), inr (OtherError "unwrapped vault key did not match"))
  end.

Definition Lab_Cancel (l : Lab) : operation outcome :=
  _ ← require l (actionAllowed (lb_phase l) "cancel") (conflict "cancellation is only valid while the invitation is pending");
  status ← ask (Call.CancelInvitation (pendingAPI l) (dev_ID (iv_Device (lb_pending l))) (invitationTransition (lb_pending l)));
  status ← check l OtherError (status : result Invitation);
  shown (MkLab (phaseForInvitation (iv_State status)) (lb_vaultID l) (lb_approvedKeys l) (lb_vaultKey l) (lb_approvedAPI l) (lb_newKeys l) status
    (lb_imported l) (lb_payload l) (lb_sameVaultKey l)).

Definition Lab_Reject (l : Lab) : operation outcome :=
  _ ← require l (actionAllowed (lb_phase l) "reject") (conflict "rejection is only valid after import");
  status ← ask (Call.RejectInvitation (lb_approvedAPI l) (dev_ID (iv_Device (lb_pending l))) (invitationTransition (lb_pending l)));
  status ← check l OtherError (status : result Invitation);
  shown (MkLab (phaseForInvitation (iv_State status)) (lb_vaultID l) (lb_approvedKeys l) (lb_vaultKey l) (lb_approvedAPI l) (lb_newKeys l) status
    status (lb_payload l) (lb_sameVaultKey l)).

(** The cleared key stays where the new vault could not be made. *)
Fixpoint zeroed (s : string) : string := match s with EmptyString => "" | String _ s => String "000" (zeroed s) end.
Definition cleared (l : Lab) : Lab :=
  MkLab PhaseIdle "" no_keys (zeroed (lb_vaultKey l)) (lb_approvedAPI l) no_keys no_invitation no_invitation "" false.

Definition Lab_Reset (l : Lab) : operation outcome :=
  made ← enter (initializeVault (cleared l));
  match (made : result Lab) with
  | Err e => mret (cleared l, inr (OtherError e))
  | Ok l => shown l
  end.

(** ** The controller *)

Context {bodies : ControllerCodec}.

Record Controller := { ct_host : string; ct_origin : string; ct_session : string; ct_csrf : string }.

(** [SplitHostPort] of the address of the listener. *)
Definition NewController (parsed_host : option string) (host : string) : flow call (result Controller) (result Controller) :=
  match parsed_host with
  | None => mret (Err "pairing UI must bind to a loopback address")
  | Some parsed =>
      if negb (loopback_ip parsed) then mret (Err "pairing UI must bind to a loopback address")
      else
        session ← ask (Call.Random 24);
        match (session : result string) with
        | Err e => mret (Err e)
        | Ok session =>
            csrf ← ask (Call.Random 24);
            mret (csrf ← (csrf : result string);
              Ok {| ct_host := host; ct_origin := "http://" +:+ host; ct_session := encode session; ct_csrf := encode csrf |})
        end
  end.

Abbreviation handler := (flow call (Lab * LabReply)).

Definition controllerBodyLimit : Z := 65536.

(** [decodeControllerJSON] *)
Definition decodeControllerJSON {A} (decode_body : string → option A) (body : option string) : A + LabReply :=
  match body with
  | None => inr (ReplyError 400 "request body is too large")
  | Some raw =>
      if controllerBodyLimit <? slen raw then inr (ReplyError 400 "request body is too large")
      else match decode_body raw with Some a => inl a | None => inr (ReplyError 400 "invalid JSON body") end
  end.

Definition reply_of (r : LabState + LabError) : LabReply :=
  match r with
  | inl state => ReplyState state
  | inr (StatusError status message) => ReplyError status message
  | inr (OtherError _) => ReplyError 500 "lab operation failed"
  end.

(** One route of [mutate]. *)
Definition with_input {A} (decode_body : string → option A) (op : A → Lab → operation outcome) (r : BrowserRequest) (l : Lab) : handler (Lab * LabReply) :=
  match decodeControllerJSON decode_body (br_Body r) with
  | inr reply => mret (l, reply)
  | inl a => done_ ← enter (op a l); mret ((done_ : outcome).1, reply_of (done_ : outcome).2)
  end.

Definition mutate (c : Controller) (r : BrowserRequest) (l : Lab) : handler (Lab * LabReply) :=
  if negb (String.eqb (br_Origin r) (ct_origin c)) then mret (l, ReplyError 403 "invalid Origin")
  else if negb (String.eqb (br_CSRF r) (ct_csrf c)) then mret (l, ReplyError 403 "invalid CSRF token")
  else if negb (String.eqb (br_ContentType r) "application/json") then mret (l, ReplyError 415 "Content-Type must be application/json")
  else if String.eqb (br_Path r) "/api/request" then with_input body_name Lab_Request r l
  else if String.eqb (br_Path r) "/api/import" then with_input body_payload Lab_Import r l
  else if String.eqb (br_Path r) "/api/approve" then with_input body_fingerprint Lab_Approve r l
  else if String.eqb (br_Path r) "/api/reject" then with_input body_empty (λ _, Lab_Reject) r l
  else if String.eqb (br_Path r) "/api/cancel" then with_input body_empty (λ _, Lab_Cancel) r l
  else if String.eqb (br_Path r) "/api/refresh" then with_input body_empty (λ _, Lab_Refresh) r l
  else if String.eqb (br_Path r) "/api/accept" then with_input body_empty (λ _, Lab_Accept) r l
  else if String.eqb (br_Path r) "/api/reset" then with_input body_empty (λ _, Lab_Reset) r l
  else mret (l, ReplyError 404 "not found").

Definition serveIndex (c : Controller) (r : BrowserRequest) (l : Lab) : handler (Lab * LabReply) :=
  if nonempty (br_Origin r) && negb (String.eqb (br_Origin r) (ct_origin c)) then mret (l, ReplyError 403 "foreign Origin")
  else
    nonce ← ask (Call.Random 18);
    mret (l, match (nonce : result string) with
             | Err _ => ReplyError 500 "randomness unavailable"
             | Ok nonce => ReplyPage (encode nonce) (ct_session c) (ct_csrf c)
             end).

Definition serveQR (l : Lab) : handler (Lab * LabReply) :=
  done_ ← enter (Lab_State l);
  match (done_ : outcome) with
  | (l, inl state) =>
      if negb (nonempty (st_PairingPayload state)) then mret (l, ReplyError 409 "no pairing payload is available")
      else
        png ← ask (Call.EncodeQR (st_PairingPayload state));
        mret (l, match (png : result string) with Err _ => ReplyError 500 "could not encode QR" | Ok png => ReplyImage png end)
  | (l, inr e) => mret (l, reply_of (inr e))
  end.

Definition validSession (c : Controller) (r : BrowserRequest) : bool :=
  match br_Cookie r with Some cookie => String.eqb cookie (ct_session c) | None => false end.

Definition ServeHTTP (c : Controller) (r : BrowserRequest) (l : Lab) : handler (Lab * LabReply) :=
  if negb (String.eqb (br_Host r) (ct_host c)) then mret (l, ReplyError 400 "invalid Host header")
  else if nonempty (br_Query r) || nonempty (br_Fragment r) then mret (l, ReplyError 404 "not found")
  else if String.eqb (br_Method r) "GET" && String.eqb (br_Path r) "/" then serveIndex c r l
  else if negb (validSession c r) then mret (l, ReplyError 401 "invalid lab session")
  else if String.eqb (br_Method r) "GET" && String.eqb (br_Path r) "/api/state" then
    done_ ← enter (Lab_State l); mret ((done_ : outcome).1, reply_of (done_ : outcome).2)
  else if String.eqb (br_Method r) "GET" && String.eqb (br_Path r) "/api/qr" then serveQR l
  else if String.eqb (br_Method r) "POST" && has_prefix "/api/" (br_Path r) then mutate c r l
  else mret (l, ReplyError 404 "not found").

(** Requests, one after the other. *)
Fixpoint serve_requests (rounds : nat) (c : Controller) (l : Lab) : flow call (option Lab) (option Lab) :=
  match rounds with
  | O => mret (Some l)
  | S rounds =>
      request ← ask Call.Browser;
      match (request : option BrowserRequest) with
      | None => mret (Some l)
      | Some request =>
          answered ← enter (ServeHTTP c request l);
          let '(l, reply) := (answered : Lab * LabReply) in
          _ ← ask (Call.Reply reply);
          serve_requests rounds c l
      end
  end.

(** The laboratory from its start: nothing where it could not start. *)
Definition pairing_lab (parsed_host : option string) (host : string) (rounds : nat) : flow call (option Lab) (option Lab) :=
  made ← enter NewLab;
  match (made : result Lab) with
  | Err _ => mret None
  | Ok l =>
      controller ← enter (NewController parsed_host host);
      match (controller : result Controller) with
      | Err _ => mret None
      | Ok c => serve_requests rounds c l
      end
  end.
End Lab.

(** What the pairing laboratory does, whatever the service answers, whatever the browser
    sends and in whatever order. *)

Definition past_of := history call.

(** The request that is being served: the newest one. *)
Fixpoint last_request (past : past_of) : option BrowserRequest :=
  match past with
  | [] => None
  | @Event _ X c x :: past => match c in Call.call X return X → option BrowserRequest with Call.Browser => λ r, r | _ => λ _, last_request past end x
  end.

#[local] Hint Extern 0 (grows _ _) => reflexivity : core.

Section Safety.
Context {crypto : Crypto} {cipher : Cipher} {urls : URLs} {hosts : Hosts} {texts : URLTexts} {codec : PairingCodec} {bodies : ControllerCodec}.
Context (serverURL host : string).

(** ** What is claimed *)

(** The page of the laboratory sent the request: the session and the token are drawn ones
    that only it was given. *)
Definition authorized (past : past_of) (r : BrowserRequest) (path : string) : Prop :=
  br_Host r = host ∧ br_Origin r = "http://" +:+ host ∧ br_Method r = "POST" ∧ br_Path r = path ∧ br_ContentType r = "application/json" ∧
  br_Query r = "" ∧ br_Fragment r = "" ∧
  ∃ session csrf, Event (Call.Random 24) (Ok session) ∈ past ∧ Event (Call.Random 24) (Ok csrf) ∈ past ∧
    br_Cookie r = Some (encode session) ∧ br_CSRF r = encode csrf.

Definition asked (past : past_of) (path : string) : Prop := ∃ r, last_request past = Some r ∧ authorized past r path.

(** The input that a request has. *)
Definition sent_with {A} (decode_body : string → option A) (r : BrowserRequest) (a : A) : Prop :=
  ∃ raw, br_Body r = Some raw ∧ decode_body raw = Some a.

(** The device that made the vault, with the key that was drawn for it. *)
Definition owned (past : past_of) (who : API) (vaultKey : string) : Prop :=
  ∃ keys, Event Call.NewDeviceKeys (Ok keys) ∈ past ∧ Event (Call.Random 32) (Ok vaultKey) ∈ past ∧ api_Secrets who = dk_Secrets keys ∧
    Event (Call.CreateVault "Disposable pairing lab" {| dev_ID := ""; dev_Name := lab_name; dev_SigningPublic := dk_SigningPublic keys;
      dev_WrappingPublic := dk_WrappingPublic keys; dev_Fingerprint := ""; dev_CreatedAt := "" |}) (Ok (api_VaultID who, api_DeviceID who)) ∈ past.

(** The identity whose payload was given to the approved device. *)
Definition given_payload (past : past_of) (vaultID : string) (device : PublicDevice) : Prop :=
  ∃ r text payload, Event Call.Browser (Some r) ∈ past ∧ authorized past r "/api/import" ∧ sent_with body_payload r text ∧
    DecodePayload text = Ok payload ∧ pp_Server payload = serverURL ∧ pp_VaultID payload = vaultID ∧ pp_DeviceID payload = dev_ID device ∧
    pp_CreatedAt payload = dev_CreatedAt device ∧ pp_Fingerprint payload = PublicFingerprint (dev_SigningPublic device) (dev_WrappingPublic device) ∧
    ValidateDeviceIdentity device (dev_SigningPublic device) (dev_WrappingPublic device) = Ok tt.

Definition approval_ok (past : past_of) (who : API) (id : string) (approval : InvitationApprovalBody) : Prop :=
  ∃ r text device vaultKey ephemeral nonce,
    last_request past = Some r ∧ authorized past r "/api/approve" ∧ sent_with body_fingerprint r text ∧
    typed_fingerprint text = PublicFingerprint (dev_SigningPublic device) (dev_WrappingPublic device) ∧
    given_payload past (api_VaultID who) device ∧ owned past who vaultKey ∧
    dev_ID device = id ∧ ia_DeviceID approval = id ∧ ia_Fingerprint approval = dev_Fingerprint device ∧
    WrapVaultKey ephemeral nonce vaultKey (dev_WrappingPublic device) (api_VaultID who) id = Ok (ia_Envelope approval).

(** The identity of the new device as the laboratory has it: from the answer to the last
    change of the invitation, or from the status that was read last to be shown. *)
Definition refreshing (past : past_of) : bool :=
  match last_request past with Some r => member ["/api/state"; "/api/qr"; "/api/refresh"] (br_Path r) | None => false end.
Fixpoint known (past : past_of) : option PublicDevice :=
  match past with
  | [] => None
  | Event c x :: past =>
      match c in Call.call X return X → option PublicDevice with
      | Call.ApproveInvitation _ _ _ | Call.RejectInvitation _ _ _ | Call.CancelInvitation _ _ _ => λ x,
          match x with Ok status => Some (iv_Device status) | Err _ => known past end
      | Call.GetInvitation _ _ => λ x,
          match x with Ok status => if refreshing past then Some (iv_Device status) else known past | Err _ => known past end
      | _ => λ _, known past
      end x
  end.

(** The identity of the new device was accepted for the page: the service said that the
    invitation is approved, with the identity that the laboratory had before; this
    identity is that of the keys that were generated for the new device, with their
    fingerprint; and these keys unwrap the key of the vault from the envelope. *)
Definition handed_over (past after : past_of) (keys : DeviceKeys) (vaultID vaultKey : string) (device : PublicDevice) : Prop :=
  Event Call.NewDeviceKeys (Ok keys) ∈ past ∧
  (∃ signing wrapping, PublicKeysFromSecrets (dk_Secrets keys) = Ok (signing, wrapping) ∧ dev_SigningPublic device = signing ∧
    dev_WrappingPublic device = wrapping ∧ dev_Fingerprint device = PublicFingerprint signing wrapping) ∧
  ∃ before status envelope,
    past = after ++ Event (Call.GetInvitation {| api_VaultID := vaultID; api_DeviceID := dev_ID device; api_Secrets := dk_Secrets keys |}
      (dev_ID device)) (Ok status) :: before ∧
    asked before "/api/accept" ∧ known before = Some device ∧ iv_Device status = device ∧
    iv_State status = state_text InvitationApproved ∧ iv_Envelope status = Some envelope ∧
    UnwrapEnrollmentVaultKey {| es_Device := device; es_Approved := true; es_Envelope := Some envelope; es_RevokedAt := "" |}
      (dk_Secrets keys) vaultID (dev_ID device) = Ok vaultKey.

Fixpoint without_spaces (s : string) : string :=
  match s with EmptyString => "" | String c s => if Ascii.eqb c " " then without_spaces s else String c (without_spaces s) end.

(** The identity that is shown, but for the grouping of its fingerprint. *)
Definition shows (s : LabState) (device : PublicDevice) : Prop :=
  st_DeviceID s = dev_ID device ∧ st_DeviceName s = dev_Name device ∧
  without_spaces (st_Fingerprint s) = without_spaces (dev_Fingerprint device).

Definition reads_status (e : event call) : Prop :=
  match e with Event c _ => match c with Call.GetInvitation _ _ => True | _ => False end end.

(** What is shown as accepted is the device that was accepted, until a status is read
    again: then it is what the service says of the device. *)
Definition state_ok (past : past_of) (s : LabState) : Prop :=
  st_Phase s = PhaseAccepted → st_SameVaultKey s = true ∧
    ∃ who vaultKey keys accepted after latest, owned past who vaultKey ∧ api_VaultID who = st_VaultID s ∧
      handed_over past after keys (st_VaultID s) vaultKey accepted ∧
      known past = Some latest ∧ shows s latest ∧ (Forall (λ e, ¬ reads_status e) after → latest = accepted).

Definition guard (past : past_of) (X : Type) (c : call X) : Prop :=
  match c with
  | Call.CreateVault _ _ => last_request past = None ∨ asked past "/api/reset"
  | Call.CreateInvitation _ request => asked past "/api/request" ∧ good_name (ir_Name request) = true ∧
      ∃ keys, Event Call.NewDeviceKeys (Ok keys) ∈ past ∧ ir_SigningPublic request = dk_SigningPublic keys ∧
        ir_WrappingPublic request = dk_WrappingPublic keys
  | Call.ApproveInvitation who id approval => approval_ok past who id approval
  | Call.RejectInvitation who id _ => asked past "/api/reject" ∧ ∃ device vaultKey, given_payload past (api_VaultID who) device ∧ owned past who vaultKey
  | Call.CancelInvitation _ id transition => asked past "/api/cancel" ∧ it_DeviceID transition = id
  | Call.Reply (ReplyState s) => state_ok past s
  | _ => True
  end.

(** ** The invariant of the laboratory *)

Record inv (past : past_of) (l : Lab) : Prop := {
  inv_owned : (lb_vaultID l = "" ∧ lb_phase l = PhaseIdle) ∨ (owned past (lb_approvedAPI l) (lb_vaultKey l) ∧ api_VaultID (lb_approvedAPI l) = lb_vaultID l);
  inv_idle : lb_phase l = PhaseIdle → lb_pending l = no_invitation;
  inv_keys : lb_phase l ≠ PhaseIdle → Event Call.NewDeviceKeys (Ok (lb_newKeys l)) ∈ past;
  inv_imported : lb_phase l = PhaseImported → given_payload past (lb_vaultID l) (iv_Device (lb_imported l));
  inv_known : lb_phase l = PhaseApproved ∨ lb_phase l = PhaseAccepted → known past = Some (iv_Device (lb_pending l));
  inv_accepted : lb_phase l = PhaseAccepted → lb_sameVaultKey l = true ∧
    ∃ accepted after, handed_over past after (lb_newKeys l) (lb_vaultID l) (lb_vaultKey l) accepted ∧
      (Forall (λ e, ¬ reads_status e) after → iv_Device (lb_pending l) = accepted);
}.

Lemma authorized_grows past past' r path : grows past past' → authorized past r path → authorized past' r path.
Proof. intros Hg (?&?&?&?&?&?&?&session&csrf&Hs&Hc&?&?). do 7 (split; [done|]). exists session, csrf. by split_and!; [apply Hg|apply Hg|..]. Qed.
Lemma owned_grows past past' who key : grows past past' → owned past who key → owned past' who key.
Proof. intros Hg (keys&?&?&?&?). exists keys. split_and!; [by apply Hg|by apply Hg|done|by apply Hg]. Qed.
Lemma given_grows past past' vault device : grows past past' → given_payload past vault device → given_payload past' vault device.
Proof. intros Hg (r&text&payload&?&?&H). exists r, text, payload. split; [by apply Hg|]. split; [by eapply authorized_grows|done]. Qed.
Lemma grows_app (new past : past_of) : grows past (new ++ past).
Proof. intros e He. apply elem_of_app. by right. Qed.
Lemma handed_app new past after keys vault key device :
  handed_over past after keys vault key device → handed_over (new ++ past) (new ++ after) keys vault key device.
Proof.
  intros (Hk & Hd & before & status & envelope & -> & H). split; [by apply grows_app|]. split; [done|]. exists before, status, envelope.
  split; [by rewrite app_assoc|done].
Qed.

(** More events that leave the identity as it is. *)
Definition keeps (past past' : past_of) : Prop := (∃ new, past' = new ++ past) ∧ known past' = known past.

Lemma keeps_cons past past' e : keeps past past' → known (e :: past') = known past' → keeps past (e :: past').
Proof. intros [[new ->] H] He. split; [by exists (e :: new)|]. by rewrite He. Qed.
#[local] Instance keeps_preorder : PreOrder keeps.
Proof.
  split; [by intros past; split; [exists []|]|]. intros p1 p2 p3 [[n1 ->] H1] [[n2 ->] H2]. split; [exists (n2 ++ n1); by rewrite app_assoc|].
  by rewrite H2.
Qed.

Lemma inv_grows past past' l : grows past past' → (lb_phase l = PhaseApproved ∨ lb_phase l = PhaseAccepted → keeps past past') →
  inv past l → inv past' l.
Proof.
  intros Hg Hkeep [Ho Hi Hk Him Hn Ha]. split; [|done|..].
  - destruct Ho as [?|[??]]; [by left|right; split; [by eapply owned_grows|done]].
  - intros H. by apply Hg, Hk.
  - intros H. by eapply given_grows, Him.
  - intros H. destruct (Hkeep H) as [_ ->]. by apply Hn.
  - intros H. destruct (Hkeep ltac:(by right)) as [[new ->] _]. destruct (Ha H) as (? & d & after & Hh & Hq). split; [done|].
    exists d, (new ++ after). split; [by apply handed_app|]. intros [_ Hall]%Forall_app. by apply Hq.
Qed.
Lemma inv_keeps past past' l : keeps past past' → inv past l → inv past' l.
Proof. intros Hk. apply inv_grows; [|done]. destruct Hk as [[new ->] _]. apply grows_app. Qed.

(** The laboratory over one event, which keeps the identity or comes in a phase without one. *)
Ltac stays := eapply inv_grows; [by apply grows_cons|intros [?|?]; first [congruence|by apply keeps_cons]|assumption].

Lemma inv_live past l : inv past l → lb_phase l ≠ PhaseIdle → owned past (lb_approvedAPI l) (lb_vaultKey l) ∧ api_VaultID (lb_approvedAPI l) = lb_vaultID l.
Proof. intros [[[_ ?]|?] _ _ _ _ _]; [done|by intros]. Qed.

(** What an operation leaves. *)
Definition done_ok (past : past_of) (o : Lab * (LabState + LabError)) : Prop :=
  inv past o.1 ∧ match o.2 with inl s => s = stateLocked serverURL o.1 | inr _ => True end.

Abbreviation spec p past := (wp guard p past done_ok done_ok).

Lemma spec_shown past l : inv past l → spec (shown serverURL l) past.
Proof. by split. Qed.

Lemma lab_spec_require {B} past l c e (f : unit → flow call _ B) Q : inv past l → (c = true → wp guard (f tt) past done_ok Q) →
  wp guard (x ← require l c e; f x) past done_ok Q.
Proof. intros Hl Hf. unfold require. destruct c; [by apply Hf|by split]. Qed.

Lemma spec_check {A B} past l e (r : result A) (f : A → flow call _ B) Q : inv past l → (∀ a, r = Ok a → wp guard (f a) past done_ok Q) →
  wp guard (x ← check l e r; f x) past done_ok Q.
Proof. intros Hl Hf. unfold check. destruct r as [a|msg]; [by apply Hf|by split]. Qed.

Lemma allowed_spec p :
  (actionAllowed p "request" = true → p = PhaseIdle) ∧ (actionAllowed p "import" = true → p = PhaseRequested) ∧
  (actionAllowed p "approve" = true → p = PhaseImported) ∧ (actionAllowed p "accept" = true → p = PhaseApproved) ∧
  (actionAllowed p "cancel" = true → p ≠ PhaseIdle) ∧ (actionAllowed p "reject" = true → p = PhaseImported).
Proof. by destruct p. Qed.

Lemma phase_plain state : phaseForInvitation state ≠ PhaseIdle ∧ phaseForInvitation state ≠ PhaseImported ∧ phaseForInvitation state ≠ PhaseAccepted.
Proof. unfold phaseForInvitation. by repeat case_match. Qed.

(** A laboratory that only took a status over. *)
Lemma inv_refreshed past l a id status : inv past l → lb_phase l ≠ PhaseIdle → refreshing past = true →
  inv (Event (Call.GetInvitation a id) (Ok status) :: past) (refreshed l status).
Proof.
  intros Hl Hp Hr. set (past' := Event _ _ :: past). assert (Hg : grows past past') by by apply grows_cons.
  assert (Hknown : known past' = Some (iv_Device status)) by (cbn; by rewrite Hr).
  destruct (inv_live _ _ Hl Hp) as [Ho Hv]. destruct (phase_plain (iv_State status)) as (P1 & P2 & P3).
  destruct Hl as [_ _ Hk Him _ Ha]. unfold refreshed. set (same := _ && _) in *.
  assert (Hkeys : Event Call.NewDeviceKeys (Ok (lb_newKeys l)) ∈ past') by by apply Hg, Hk. destruct same;
    (split; cbn [lb_phase lb_vaultID lb_approvedAPI lb_vaultKey lb_newKeys lb_imported lb_pending lb_sameVaultKey];
    [right; split; [by eapply owned_grows|done]|try done..]).
  - intros H. by eapply given_grows, Him.
  - intros H. destruct (Ha H) as (Hs & d & after & Hh & _). split; [done|]. exists d, (Event (Call.GetInvitation a id) (Ok status) :: after).
    split; [by apply (handed_app [_])|]. intros [Hno _]%Forall_cons. by destruct Hno.
Qed.

(** After a reply of the service to a change. *)
Lemma inv_moved past l state status imported : inv past l → lb_phase l ≠ PhaseIdle →
  (phaseForInvitation state = PhaseApproved → known past = Some (iv_Device status)) →
  inv past (MkLab (phaseForInvitation state) (lb_vaultID l) (lb_approvedKeys l) (lb_vaultKey l) (lb_approvedAPI l) (lb_newKeys l) status imported
    (lb_payload l) (lb_sameVaultKey l)).
Proof.
  intros Hl Hp Hknown. pose proof (inv_live _ _ Hl Hp) as Ho. destruct Hl as [_ _ Hk _ _ _]. destruct (phase_plain state) as (P1 & P2 & P3).
  split; cbn [lb_phase lb_vaultID lb_approvedAPI lb_vaultKey lb_newKeys lb_imported lb_pending lb_sameVaultKey]; try done; [by right|..].
  - intros _. by apply Hk.
  - intros [H|H]; [by apply Hknown|done].
Qed.

Lemma pending_not_idle past l : inv past l → nonempty (dev_ID (iv_Device (lb_pending l))) = true → lb_phase l ≠ PhaseIdle.
Proof. intros [_ Hi _ _ _ _] H E. by rewrite (Hi E) in H. Qed.

(** What a status that was read makes the laboratory show is what the service says: it is
    not compared with the keys of the new device. *)
Lemma refreshed_shows_the_service l status : lb_phase (refreshed l status) ≠ PhaseIdle →
  st_Fingerprint (stateLocked serverURL (refreshed l status)) = groupedFingerprint (dev_Fingerprint (iv_Device status)) ∧
  st_PairingPayload (stateLocked serverURL (refreshed l status)) = lb_payload l.
Proof. intros Hp. unfold stateLocked. destruct (lb_phase (refreshed l status)) eqn:E; try done; by rewrite <-E in Hp. Qed.

(** ** The operations *)

Lemma spec_State past l : inv past l → refreshing past = true → spec (Lab_State serverURL l) past.
Proof.
  intros Hl Hr. unfold Lab_State, refreshLocked. destruct (nonempty _) eqn:E; cbn [negb]; [|by apply spec_shown].
  apply wp_bind, wp_ask; [done|]. intros [status|e]; apply spec_shown; [|eapply inv_keeps; [by apply keeps_cons|done]].
  apply inv_refreshed; [done| |done]. by eapply pending_not_idle.
Qed.

Lemma spec_Refresh past l : inv past l → refreshing past = true → spec (Lab_Refresh serverURL l) past.
Proof.
  intros Hl Hr. unfold Lab_Refresh. destruct (nonempty _) eqn:E; cbn [negb]; [|by apply spec_shown].
  apply wp_ask; [done|]. intros [status|e]; cbn [check mbind flow_bind flow_bind_ mret flow_ret].
  - apply spec_shown, inv_refreshed; [done| |done]. by eapply pending_not_idle.
  - split; [|done]. eapply inv_keeps; [by apply keeps_cons|done].
Qed.

Lemma validatePayload_vault p : validatePayload p = Ok tt → pp_VaultID p ≠ "".
Proof. unfold validatePayload. intros ([] & _ & H)%bind_Ok. apply reject_if_bind in H as [H _]. passed H. intros E. by rewrite E in *. Qed.

Lemma spec_Request past l name : inv past l → asked past "/api/request" → spec (Lab_Request serverURL name l) past.
Proof.
  intros Hl Hask. unfold Lab_Request. apply lab_spec_require; [done|]. intros Ha. apply allowed_spec in Ha.
  apply lab_spec_require; [done|]. intros Hname. apply wp_ask; [done|]. intros keys. set (past1 := Event _ _ :: _).
  assert (H1 : inv past1 l) by stays.
  apply spec_check; [done|]. intros ks ->. unfold client_CreateInvitation. apply wp_bind, wp_ask.
  { cbn [guard ir_Name ir_SigningPublic ir_WrappingPublic]. split; [|split; [done|exists ks; split; [by left|done]]]. destruct Hask as (r & Hr & Hau). exists r. split; [done|].
    eapply authorized_grows; [|done]. by apply grows_cons. }
  intros status. set (past2 := Event _ _ :: _). assert (H2 : inv past2 l) by stays.
  cbn [wp mret flow_ret]. apply spec_check; [done|]. intros st _. apply spec_check; [done|]. intros payload (Hv & _ & _)%EncodePayload_Ok.
  apply validatePayload_vault in Hv. apply spec_shown. destruct H2 as [[[Hno _]|Ho] _ _ _ _ _]; [done|].
  split; cbn [lb_phase lb_vaultID lb_approvedAPI lb_vaultKey lb_newKeys lb_imported lb_pending lb_sameVaultKey]; try done; [by right|..].
  - intros _. right. by left.
  - by intros [H|H].
Qed.

Lemma identity_matches_true device f : identity_matches device f = true →
  ValidateDeviceIdentity device (dev_SigningPublic device) (dev_WrappingPublic device) = Ok tt ∧
  f = PublicFingerprint (dev_SigningPublic device) (dev_WrappingPublic device).
Proof. unfold identity_matches. intros [([] & ->)%is_ok_true ->%String.eqb_eq]%andb_true_iff. done. Qed.

Lemma spec_Import past l r text : inv past l → last_request past = Some r → Event Call.Browser (Some r) ∈ past → authorized past r "/api/import" →
  sent_with body_payload r text → spec (Lab_Import serverURL text l) past.
Proof.
  intros Hl Hlast Hin Hau Hsent. unfold Lab_Import. apply lab_spec_require; [done|]. intros Ha. apply allowed_spec in Ha.
  apply spec_check; [done|]. intros payload Hd. apply lab_spec_require; [done|]. intros [Hs%String.eqb_eq Hv%String.eqb_eq]%andb_true_iff.
  apply wp_ask; [done|]. intros reply. set (past1 := Event _ _ :: _). assert (H1 : inv past1 l) by stays.
  apply spec_check; [done|]. intros invitations ->. destruct (List.find _ _) as [selected|] eqn:Ef; [|by split].
  apply find_some in Ef as [_ Hid%String.eqb_eq]. apply lab_spec_require; [done|]. intros _. apply lab_spec_require; [done|].
  intros [[Hval Hfp]%identity_matches_true Hc%String.eqb_eq]%andb_true_iff. apply spec_shown.
  assert (Ho : owned past1 (lb_approvedAPI l) (lb_vaultKey l) ∧ api_VaultID (lb_approvedAPI l) = lb_vaultID l) by (apply inv_live; [done|by rewrite Ha]).
  split; cbn [lb_phase lb_vaultID lb_approvedAPI lb_vaultKey lb_newKeys lb_imported lb_pending lb_sameVaultKey]; try done; [by right|..].
  - intros _. apply (inv_keys _ _ H1). by rewrite Ha.
  - intros _. exists r, text, payload. split; [by right|]. split; [eapply authorized_grows; [|done]; by apply grows_cons|]. split_and!; try done.
  - by intros [H|H].
Qed.

Lemma spec_Approve past l r text : inv past l → last_request past = Some r → authorized past r "/api/approve" → sent_with body_fingerprint r text →
  spec (Lab_Approve serverURL text l) past.
Proof.
  intros Hl Hlast Hau Hsent. unfold Lab_Approve. apply lab_spec_require; [done|]. intros Ha. apply allowed_spec in Ha.
  apply lab_spec_require; [done|]. intros [_ Hfp%String.eqb_eq]%andb_true_iff. apply wp_ask; [done|]. intros fresh. set (past1 := Event _ _ :: _).
  assert (G1 : grows past past1) by (by apply grows_cons). assert (H1 : inv past1 l) by stays.
  apply spec_check; [done|]. intros status ->. apply lab_spec_require; [done|]. intros [_ Hsame%bool_decide_eq_true_1]%andb_true_iff.
  apply lab_spec_require; [done|]. intros [Hval Htyped]%identity_matches_true. apply wp_ask; [done|]. intros ephemeral. apply wp_ask; [done|].
  intros nonce. set (past3 := Event _ _ :: _). assert (G3 : grows past past3) by (by do 2 apply grows_cons). assert (H3 : inv past3 l)
    by (eapply inv_grows; [exact G3|intros [?|?]; congruence|done]).
  apply spec_check; [done|]. intros envelope Hw. destruct (inv_live _ _ H3 ltac:(by rewrite Ha)) as [Ho Hvault].
  apply wp_ask.
  - cbn [guard]. exists r, text, (iv_Device status), (lb_vaultKey l), ephemeral, nonce. split; [done|]. split; [by eapply authorized_grows|].
    split; [done|]. split; [done|]. split; [rewrite Hsame, Hvault; by apply (inv_imported _ _ H3)|]. split; [done|]. split_and!; try done. by rewrite Hvault.
  - intros reply. set (past4 := Event _ _ :: _). assert (H4 : inv past4 l) by (eapply (inv_grows past3); [by apply grows_cons|intros [?|?]; congruence|exact H3]).
    apply spec_check; [done|]. intros st ->. apply spec_shown. destruct (inv_live _ _ H4 ltac:(by rewrite Ha)) as [Ho4 _].
    split; cbn [lb_phase lb_vaultID lb_approvedAPI lb_vaultKey lb_newKeys lb_imported lb_pending lb_sameVaultKey]; try done; [by right|].
    intros _. apply (inv_keys _ _ H4). by rewrite Ha.
Qed.

Lemma accepted_identity l status keys vaultID key :
  UnwrapEnrollmentVaultKey {| es_Device := status; es_Approved := true; es_Envelope := l; es_RevokedAt := "" |} (dk_Secrets keys) vaultID (dev_ID status) = Ok key →
  ∃ signing wrapping, PublicKeysFromSecrets (dk_Secrets keys) = Ok (signing, wrapping) ∧ dev_SigningPublic status = signing ∧
    dev_WrappingPublic status = wrapping ∧ dev_Fingerprint status = PublicFingerprint signing wrapping.
Proof.
  unfold UnwrapEnrollmentVaultKey. cbn [es_Device es_Envelope]. destruct (negb _); [done|]. destruct l as [envelope|]; [|done].
  intros ([signing wrapping] & Hk & H)%bind_Ok. apply bind_Ok in H as ([] & (?&?&_&?)%ValidateDeviceIdentity_Ok & _). by exists signing, wrapping.
Qed.

(** Accept: the request is for it, so that the status it reads is not the one to show. *)
Lemma spec_Accept past l : inv past l → asked past "/api/accept" → spec (Lab_Accept serverURL l) past.
Proof.
  intros Hl Hask. assert (Hr : refreshing past = false) by (unfold refreshing; destruct Hask as (r & -> & Hau); destruct Hau as (_&_&_&->&_); reflexivity).
  unfold Lab_Accept. apply lab_spec_require; [done|]. intros Ha. apply allowed_spec in Ha. apply wp_ask; [done|].
  intros reply. set (past1 := Event _ _ :: _). assert (Hkeep : keeps past past1) by (apply keeps_cons; [done|cbn; rewrite Hr; by destruct reply]).
  pose proof (inv_keeps _ _ _ Hkeep Hl) as H1.
  assert (Hni : lb_phase l ≠ PhaseIdle) by by rewrite Ha. destruct (inv_live _ _ H1 Hni) as [Ho Hvault]. pose proof (inv_keys _ _ H1 Hni) as Hkeys.
  pose proof (inv_known _ _ Hl ltac:(by left)) as Hknown.
  apply spec_check; [done|]. intros status Hreply. destruct (iv_Envelope status) as [envelope|] eqn:Ee; [|by split].
  apply lab_spec_require; [done|]. intros Hs%String.eqb_eq. apply lab_spec_require; [done|]. intros Hsame%bool_decide_eq_true_1.
  apply spec_check; [done|]. intros key Hu. rewrite Hsame in Hu.
  destruct (String.eqb_spec key (lb_vaultKey l)) as [->|].
  - apply spec_shown. split; cbn [with_sameVaultKey lb_phase lb_vaultID lb_approvedAPI lb_vaultKey lb_newKeys lb_imported lb_pending lb_sameVaultKey]; try done; [by right|..].
    + intros _. rewrite Hsame. destruct Hkeep as [_ ->]. exact Hknown.
    + intros _. split; [done|]. exists (iv_Device (lb_pending l)), []. split; [|by rewrite Hsame]. split; [done|]. split; [by eapply accepted_identity|].
      exists past, status, envelope. split; [unfold past1; by rewrite Hreply|]. done.
  - split; [|done]. split; cbn [fst with_sameVaultKey lb_phase lb_vaultID lb_approvedAPI lb_vaultKey lb_newKeys lb_imported lb_pending lb_sameVaultKey]; try done; try (intros E; congruence).
    + by right.
    + intros _. destruct Hkeep as [_ ->]. exact Hknown.
Qed.

Lemma spec_Cancel past l : inv past l → asked past "/api/cancel" → spec (Lab_Cancel serverURL l) past.
Proof.
  intros Hl Hask. unfold Lab_Cancel. apply lab_spec_require; [done|]. intros Ha.
  assert (Hp : lb_phase l = PhaseRequested ∨ lb_phase l = PhaseImported) by (destruct (lb_phase l); naive_solver). apply wp_ask; [by split|].
  intros reply. set (past1 := Event _ _ :: _). assert (H1 : inv past1 l) by (eapply inv_grows; [by apply grows_cons|intros [?|?]; naive_solver congruence|done]).
  apply spec_check; [done|]. intros status Hreply. apply spec_shown, inv_moved; [done|destruct Hp as [-> | ->]; done|].
  intros _. unfold past1. by rewrite Hreply.
Qed.

Lemma spec_Reject past l : inv past l → asked past "/api/reject" → spec (Lab_Reject serverURL l) past.
Proof.
  intros Hl Hask. unfold Lab_Reject. apply lab_spec_require; [done|]. intros Ha. apply allowed_spec in Ha.
  destruct (inv_live _ _ Hl ltac:(by rewrite Ha)) as [Ho Hvault]. apply wp_ask.
  { split; [done|]. exists (iv_Device (lb_imported l)), (lb_vaultKey l). split; [rewrite Hvault; by apply (inv_imported _ _ Hl)|done]. }
  intros reply. set (past1 := Event _ _ :: _). assert (H1 : inv past1 l) by stays.
  apply spec_check; [done|]. intros status Hreply. apply spec_shown, inv_moved; [done|by rewrite Ha|]. intros _. unfold past1. by rewrite Hreply.
Qed.

(** A new vault, for a laboratory that is idle. *)
Lemma spec_initializeVault past l : lb_phase l = PhaseIdle → lb_pending l = no_invitation → (last_request past = None ∨ asked past "/api/reset") →
  let Q past' (r : result Lab) := grows past past' ∧ match r with Ok l' => inv past' l' ∧ lb_phase l' = PhaseIdle | Err _ => True end in
  wp guard (initializeVault l) past Q Q.
Proof.
  intros Hp Hpend Hask Q. unfold initializeVault, Q. apply wp_ask; [done|]. intros [keys|e]; [|by split; [apply grows_cons|]].
  apply wp_ask; [done|]. intros [key|e]; [|by split; [do 2 apply grows_cons|]]. apply wp_ask.
  - destruct Hask as [Hn|(r & Hr & Hau)]; [by left|]. right. exists r. split; [done|]. eapply authorized_grows; [|done]. by do 2 apply grows_cons.
  - intros [[vault device]|e]; (split; [by do 3 apply grows_cons|]); [|done]. cbn [mbind result_bind]. split; [|done].
    split; cbn [lb_phase lb_vaultID lb_approvedAPI lb_vaultKey lb_newKeys lb_imported lb_pending lb_sameVaultKey]; try done; try (intros E; congruence).
    + right. split; [|done]. exists keys. split_and!; [right; right; by left|right; by left|done|by left].
    + intros [E|E]; congruence.
Qed.

Lemma spec_Reset past l : asked past "/api/reset" → spec (Lab_Reset serverURL l) past.
Proof.
  intros Hask. unfold Lab_Reset. eapply wp_call; [apply spec_initializeVault; [done|done|by right]|].
  intros past' [l'|e] [Hg H]; [apply spec_shown, H|]. split; [|done].
  split; cbn [fst cleared lb_phase lb_vaultID lb_approvedAPI lb_vaultKey lb_newKeys lb_imported lb_pending lb_sameVaultKey]; try done; [by left|by intros [E|E]].
Qed.

(** ** The controller *)

Definition drawn_controller (past : past_of) (c : Controller) : Prop :=
  ∃ session csrf, Event (Call.Random 24) (Ok session) ∈ past ∧ Event (Call.Random 24) (Ok csrf) ∈ past ∧
    c = {| ct_host := host; ct_origin := "http://" +:+ host; ct_session := encode session; ct_csrf := encode csrf |}.

Lemma drawn_grows past past' c : grows past past' → drawn_controller past c → drawn_controller past' c.
Proof. intros Hg (session&csrf&?&?&H). exists session, csrf. split; [by apply Hg|split; [by apply Hg|done]]. Qed.

Definition served_ok (past : past_of) (o : Lab * LabReply) : Prop :=
  inv past o.1 ∧ match o.2 with ReplyState s => state_ok past s | _ => True end.

Lemma without_spaces_app a b : without_spaces (a +:+ b) = without_spaces a +:+ without_spaces b.
Proof.
  induction a as [|x a IH]; [done|]. rewrite string_app_cons. cbn [without_spaces]. destruct (Ascii.eqb x " "); [done|].
  by rewrite IH, string_app_cons.
Qed.

(** A fingerprint is grouped, not changed. *)
Lemma grouped_same f : without_spaces (groupedFingerprint f) = without_spaces f.
Proof.
  unfold groupedFingerprint. destruct (Z.eqb_spec (slen f) 16) as [E|]; [|done]. cbn [negb]. rewrite !without_spaces_app.
  change (without_spaces " ") with "". rewrite !string_app_nil_l, <-!without_spaces_app. f_equal.
  do 16 (destruct f as [|? f]; [done|]). destruct f; [done|exfalso; unfold slen in E; cbn in E; lia].
Qed.

(** What is shown of an accepted laboratory. *)
Lemma shown_ok past l : inv past l → state_ok past (stateLocked serverURL l).
Proof.
  intros Hl Ha. assert (Hp : lb_phase l = PhaseAccepted) by (revert Ha; unfold stateLocked; by destruct (negb _)).
  destruct (inv_accepted _ _ Hl Hp) as (Hs & d & after & Hh & Hq). destruct (inv_live _ _ Hl ltac:(by rewrite Hp)) as [Ho Hv].
  unfold stateLocked. rewrite Hp. cbn [actionAllowed bool_decide negb]. split; [exact Hs|].
  exists (lb_approvedAPI l), (lb_vaultKey l), (lb_newKeys l), d, after, (iv_Device (lb_pending l)).
  split_and!; try done; [apply (inv_known _ _ Hl); by right|]. split_and!; [done..|apply grouped_same].
Qed.

Abbreviation serves p past := (wp guard p past served_ok served_ok).

(** A reply that tells what an operation gave. *)
Lemma served_reply (op : flow call (Lab * (LabState + LabError)) (Lab * (LabState + LabError))) past :
  spec op past → serves (r ← enter op; mret (r.1, reply_of r.2)) past.
Proof.
  intros H. eapply wp_call; [exact H|]. intros past' [l' [s|[status e|e]]] [Hl Hs]; split; try done. cbn in Hs |- *. subst s. by apply shown_ok.
Qed.

Lemma served_error past l status msg : inv past l → served_ok past (l, ReplyError status msg).
Proof. by split. Qed.

Lemma serves_input {A} (decode_body : string → option A) op r l past : inv past l →
  (∀ a, sent_with decode_body r a → spec (op a l) past) → serves (with_input decode_body op r l) past.
Proof.
  intros Hl Hop. unfold with_input, decodeControllerJSON. destruct (br_Body r) as [raw|] eqn:Er; [|by split].
  destruct (_ <? _); [by split|]. destruct (decode_body raw) as [a|] eqn:Ea; [|by split]. apply served_reply, Hop. by exists raw.
Qed.

Lemma serves_mutate c r l past : inv past l → last_request past = Some r → Event Call.Browser (Some r) ∈ past → drawn_controller past c →
  br_Host r = ct_host c → br_Query r = "" → br_Fragment r = "" → br_Method r = "POST" → validSession c r = true → serves (mutate serverURL c r l) past.
Proof.
  intros Hl Hlast Hin (session & csrf & Hs & Hc & ->) Hh Hq Hf Hm Hv. unfold mutate. cbn [ct_host ct_origin ct_csrf] in *.
  destruct (String.eqb_spec (br_Origin r) ("http://" +:+ host)) as [Eo|]; cbn [negb]; [|by split].
  destruct (String.eqb_spec (br_CSRF r) (encode csrf)) as [Et|]; cbn [negb]; [|by split].
  destruct (String.eqb_spec (br_ContentType r) "application/json") as [Ej|]; cbn [negb]; [|by split].
  unfold validSession in Hv. destruct (br_Cookie r) as [cookie|] eqn:Ec; [|done]. apply String.eqb_eq in Hv. cbn [ct_session] in Hv. subst cookie.
  assert (Hau : ∀ path, br_Path r = path → authorized past r path).
  { intros path Hp. do 7 (split; [done|]). exists session, csrf. done. }
  assert (Hask : ∀ path, br_Path r = path → asked past path) by (intros path Hp; exists r; split; [done|by apply Hau]).
  assert (Hshow : br_Path r = "/api/refresh" → refreshing past = true) by (unfold refreshing; by rewrite Hlast; intros ->).
  destruct (String.eqb_spec (br_Path r) "/api/request"); [apply serves_input; [done|intros; apply spec_Request; auto]|].
  destruct (String.eqb_spec (br_Path r) "/api/import"); [apply serves_input; [done|intros; eapply spec_Import; eauto]|].
  destruct (String.eqb_spec (br_Path r) "/api/approve"); [apply serves_input; [done|intros; eapply spec_Approve; eauto]|].
  destruct (String.eqb_spec (br_Path r) "/api/reject"); [apply serves_input; [done|intros; apply spec_Reject; auto]|].
  destruct (String.eqb_spec (br_Path r) "/api/cancel"); [apply serves_input; [done|intros; apply spec_Cancel; auto]|].
  destruct (String.eqb_spec (br_Path r) "/api/refresh"); [apply serves_input; [done|intros; apply spec_Refresh; [done|by apply Hshow]]|].
  destruct (String.eqb_spec (br_Path r) "/api/accept"); [apply serves_input; [done|intros; apply spec_Accept; auto]|].
  destruct (String.eqb_spec (br_Path r) "/api/reset"); [apply serves_input; [done|intros; apply spec_Reset; auto]|]. by split.
Qed.

Lemma serves_QR l past : inv past l → refreshing past = true → serves (serveQR serverURL l) past.
Proof.
  intros Hl Hr. unfold serveQR. eapply wp_call; [by apply spec_State|]. intros past' [l' [s|[status e|e]]] [Hl' _]; [|by split..].
  destruct (negb _); [by split|]. apply wp_ask; [done|]. intros png. cbn [fst] in Hl'. split; [by stays|by destruct png].
Qed.

Lemma serves_HTTP c r l past : inv past l → last_request past = Some r → Event Call.Browser (Some r) ∈ past → drawn_controller past c →
  serves (ServeHTTP serverURL c r l) past.
Proof.
  intros Hl Hlast Hin Hc. unfold ServeHTTP. destruct (String.eqb_spec (br_Host r) (ct_host c)) as [Eh|]; cbn [negb]; [|by split].
  destruct (nonempty (br_Query r) || nonempty (br_Fragment r)) eqn:Eq; [by split|]. apply orb_false_iff in Eq as [Eq%nonempty_false Ef%nonempty_false].
  destruct (String.eqb (br_Method r) "GET" && String.eqb (br_Path r) "/").
  { unfold serveIndex. destruct (_ && _); [by split|]. apply wp_ask; [done|]. intros [nonce|e]; (split; [by stays|done]). }
  destruct (validSession c r) eqn:Ev; cbn [negb]; [|by split].
  assert (Hshow : ∀ path, path ∈ ["/api/state"; "/api/qr"] → String.eqb (br_Method r) "GET" && String.eqb (br_Path r) path = true → refreshing past = true).
  { intros path Hpath [_ E%String.eqb_eq]%andb_true_iff. unfold refreshing. rewrite Hlast, E. by apply elem_of_cons in Hpath as [-> | ->%list_elem_of_singleton]. }
  destruct (String.eqb (br_Method r) "GET" && String.eqb (br_Path r) "/api/state") eqn:Es.
  { apply served_reply, spec_State; [done|]. eapply Hshow; [|exact Es]. by left. }
  destruct (String.eqb (br_Method r) "GET" && String.eqb (br_Path r) "/api/qr") eqn:Er.
  { apply serves_QR; [done|]. eapply Hshow; [|exact Er]. right. by left. }
  destruct (String.eqb (br_Method r) "POST" && has_prefix "/api/" (br_Path r)) eqn:Em; [|by split].
  apply andb_true_iff in Em as [Em%String.eqb_eq _]. by apply serves_mutate.
Qed.

(** What the laboratory is left with when its page is closed. *)
Definition closed_ok (past : past_of) (l : option Lab) : Prop := match l with Some l => inv past l | None => True end.

Lemma spec_requests rounds c l past : inv past l → drawn_controller past c →
  wp guard (serve_requests serverURL rounds c l) past closed_ok closed_ok.
Proof.
  revert l past. induction rounds as [|rounds IH]; intros l past Hl Hc; [done|]. cbn [serve_requests]. apply wp_ask; [done|]. intros [r|].
  - set (past1 := Event _ _ :: _). assert (G1 : grows past past1) by (by apply grows_cons).
    eapply wp_call; [apply (wp_grows _ _ past1); [done|apply serves_HTTP; [unfold past1; by stays|done|by left|by eapply drawn_grows]]|].
    intros past' [l' reply] [G2 [Hl' Hr]]. apply wp_ask; [by destruct reply|]. intros [].
    cbn [fst] in Hl'. apply IH; [eapply (inv_keeps past'); [by apply keeps_cons|exact Hl']|].
    eapply drawn_grows; [|exact Hc]. apply grows_cons. by etransitivity.
  - by stays.
Qed.

Lemma spec_NewController parsed_host past :
  let Q past' (r : result Controller) := grows past past' ∧ match r with Ok c => drawn_controller past' c | Err _ => True end in
  wp guard (NewController parsed_host host) past Q Q.
Proof.
  intros Q. unfold NewController, Q. destruct parsed_host as [parsed|]; [|by split]. destruct (negb _); [by split|].
  apply wp_ask; [done|]. intros [session|e]; [|by split; [apply grows_cons|]]. apply wp_ask; [done|].
  intros [csrf|e]; (split; [by do 2 apply grows_cons|]); [|done]. cbn. exists session, csrf. split_and!; [right; by left|by left|done].
Qed.

(** C31: the vault key goes only where the owner compared the fingerprint.  Whatever the
    service answers and the browser sends, and in whatever order: whenever the laboratory
    approves an invitation, the request that is being served came from its own page, with
    the session and the token that it drew, and typed the whole fingerprint of the keys of
    a device whose payload, naming this vault, this service and this fingerprint, had been given to
    the approved device in an earlier such request; the envelope that is sent wraps, for this very device, the key
    that was drawn for this vault, and is sent by the device that made the vault.  Every other change
    of the service is asked for by the page in the same way.  Whenever it shows a pairing as accepted, the page
    asked for that, and the identity that the laboratory had for the new device before was the one with which the
    service then called the invitation approved; it is the identity of the keys that were generated for the new
    device, with their fingerprint, and these keys unwrapped the drawn key of the vault that is shown.  The device
    and the fingerprint that are shown are those of that identity, until a status is read again: from then on they
    are what the service says, which is not checked any more. *)
Theorem pairing_needs_comparison {W} `{!World call W} parsed_host rounds (w : W) :
  let '(past, l, _) := run (pairing_lab serverURL parsed_host host rounds) w [] in
  lawful guard past ∧ closed_ok past l.
Proof.
  apply (wp_run guard); [|done]. unfold pairing_lab, NewLab. eapply wp_call; [apply spec_initializeVault; [done..|by left]|].
  intros past [l|e] [_ H]; [|done]. destruct H as [Hl Hp]. eapply wp_call; [apply spec_NewController|].
  intros past' [c|e] [Hg Hc]; [|done]. apply spec_requests; [|done].
  eapply inv_grows; [done|intros [E|E]; congruence|done].
Qed.
End Safety.
