(* ===== verification/PairingService.v ===== *)
(** The pairing laboratory over the service: the calls of the laboratory are carried out by
    the client of internal/client against the service of internal/server, and a page plays
    its part.  Everything is computed. *)
From S2P Require Import Prelude Base64 Timestamp Text Secure Protocol Envelope VaultObject ServerState ServerTx.
From S2P Require Import ServerVault ServerInvitations ServerRoutes ServerExample Client ClientAPI EndToEnd.
From S2P Require Import Manifest LocalConfig Origin Command PairingPayload Pairing.
From stdpp Require Import options.

(** ** The world of the laboratory *)

Section Site.
Context {crypto : Crypto} {cipher : Cipher} {env : Env} {wire : Wire} {members : MembershipWire} {replies : MembershipReplies}.
Context {L : Type} {local : Local L}.

(** The service, the randomness, what the page still sends (each request may use the
    replies so far), and the replies, the newest first. *)
Record Site := { site_service : ServerTx.World * L; site_page : list (list LabReply → BrowserRequest); site_replies : list LabReply }.

Definition with_service {A} (s : Site) (r : A * (ServerTx.World * L)) : A * Site :=
  (r.1, {| site_service := r.2; site_page := site_page s; site_replies := site_replies s |}).

Definition drawn (n : Z) (s : Site) : result string * Site := with_service s (random_bytes n (site_service s)).

Definition new_device_keys (s : Site) : result DeviceKeys * Site :=
  let '(seed, s) := drawn 32 s in
  let '(wrapping, s) := drawn 32 s in
  (seed ← seed; wrapping ← wrapping;
   let signing := ed25519_from_seed seed in
   Ok {| dk_SigningPublic := encode (drop_bytes 32 signing); dk_WrappingPublic := encode (x25519_public wrapping);
     dk_Secrets := {| sec_SigningPrivate := encode signing; sec_WrappingPrivate := encode wrapping; sec_VaultKey := "" |} |}, s).

#[export] Instance site_world : Program.World call Site := λ X c s,
  match c in Call.call X return X * Site with
  | Call.NewDeviceKeys => new_device_keys s
  | Call.Random n => drawn n s
  | Call.Ephemeral => drawn 32 s
  | Call.CreateVault name device =>
      let '(r, s) := with_service s (CreateVault name device (site_service s)) in (v ← r; Ok (vr_VaultID v, vr_DeviceID v), s)
  | Call.CreateInvitation vaultID request => with_service s (post_invitation vaultID request (site_service s))
  | Call.ListInvitations a => with_service s (ListInvitations a (site_service s))
  | Call.GetInvitation a id => with_service s (GetInvitation a id (site_service s))
  | Call.ApproveInvitation a id approval => with_service s (ApproveInvitation a id approval (site_service s))
  | Call.RejectInvitation a id transition => with_service s (RejectInvitation a id transition (site_service s))
  | Call.CancelInvitation a id transition => with_service s (CancelInvitation a id transition (site_service s))
  | Call.EncodeQR text => (Ok text, s)
  | Call.Browser =>
      match site_page s with
      | [] => (None, s)
      | request :: page => (Some (request (site_replies s)), {| site_service := site_service s; site_page := page; site_replies := site_replies s |})
      end
  | Call.Reply reply => (tt, {| site_service := site_service s; site_page := site_page s; site_replies := reply :: site_replies s |})
  end.
End Site.

(** ** A pairing *)

Module PairingRun.
Export PairingDemo.

#[export] Existing Instance Demo.local.

(** A digest that depends on the end of its text. *)
#[export] Instance crypto : Crypto := {|
  sha256 := λ s, let t := Toy.zeros 32 +:+ s in drop_bytes (String.length t - 32) t;
  ed25519_verify := λ _ _ s, slen s =? 64; x25519_usable := λ _, true |}.

Definition fields (raw : string) : option (list string) := mapM decode (split_on "." raw).
Definition number (s : string) : Z := from_option id 0 (Atoi s).

(** Only the bodies of this run are read. *)
#[export] Instance wire : Wire := {|
  json_CreateVaultRequest raw := match fields raw with
    | Some [name; device; signing; wrapping] => Some {| cv_Name := name; cv_Device := {| dev_ID := ""; dev_Name := device; dev_SigningPublic := signing;
        dev_WrappingPublic := wrapping; dev_Fingerprint := ""; dev_CreatedAt := "" |} |}
    | _ => None end;
  json_EnrollmentRequest _ := None; json_EnrollmentApproval _ := None; json_PutRecordRequest _ := None; json_PutVaultObjectRequest _ := None;
  json_DeleteVaultObjectRequest _ := None;
  json_strict_InvitationRequest raw := match fields raw with
    | Some [version; name; signing; wrapping] => Some {| ir_Version := number version; ir_Name := name; ir_SigningPublic := signing; ir_WrappingPublic := wrapping |}
    | _ => None end;
  json_strict_InvitationApproval raw := match fields raw with
    | Some [version; id; fingerprint; v; ephemeral; bv; nonce; ciphertext] => Some {| ia_Version := number version; ia_DeviceID := id;
        ia_Fingerprint := fingerprint; ia_Envelope := {| wk_version := number v; wk_ephemeral_key := ephemeral;
          wk_blob := {| blob_version := number bv; blob_nonce := nonce; blob_ciphertext := ciphertext |} |} |}
    | _ => None end;
  json_strict_InvitationTransition raw := match fields raw with
    | Some [version; id; fingerprint] => Some {| it_Version := number version; it_DeviceID := id; it_Fingerprint := fingerprint |}
    | _ => None end |}.

#[export] Instance members : MembershipWire := {|
  to_json_CreateVault q := join [cv_Name q; dev_Name (cv_Device q); dev_SigningPublic (cv_Device q); dev_WrappingPublic (cv_Device q)];
  to_json_Enrollment _ := ""; to_json_Approval _ := "";
  to_json_Invitation q := join [Itoa (ir_Version q); ir_Name q; ir_SigningPublic q; ir_WrappingPublic q];
  to_json_InvitationApproval q := let e := ia_Envelope q in
    join [Itoa (ia_Version q); ia_DeviceID q; ia_Fingerprint q; Itoa (wk_version e); wk_ephemeral_key e; Itoa (blob_version (wk_blob e));
      blob_nonce (wk_blob e); blob_ciphertext (wk_blob e)];
  to_json_InvitationTransition q := join [Itoa (it_Version q); it_DeviceID q; it_Fingerprint q] |}.

Definition invitation_of (s : InvitationStatus) : Invitation :=
  {| iv_Version := is_Version s; iv_Device := is_Device s; iv_State := state_text (is_State s); iv_ExpiresAt := is_ExpiresAt s;
     iv_AttemptsRemaining := is_AttemptsRemaining s; iv_TerminalAt := is_TerminalAt s; iv_Envelope := is_Envelope s |}.
#[export] Instance replies : MembershipReplies := {|
  reply_vault b := match b with BVault vault device => Ok {| vr_VaultID := vault; vr_DeviceID := device |} | _ => Err "invalid server response" end;
  reply_enrollment b := match b with BEnrollment s => Ok s | _ => Err "invalid server response" end;
  reply_enrollments b := match b with BEnrollments l => Ok l | _ => Err "invalid server response" end;
  reply_invitation b := match b with BInvitation s => Ok (invitation_of s) | _ => Err "invalid server response" end;
  reply_invitations b := match b with BInvitations l => Ok (invitation_of <$> l) | _ => Err "invalid server response" end;
  reply_device b := match b with BDevice s => Ok s | _ => Err "invalid server response" end;
  reply_devices b := match b with BDevices l => Ok l | _ => Err "invalid server response" end |}.

#[export] Instance bodies : ControllerCodec := {| body_name := Some; body_payload := Some; body_fingerprint := Some; body_empty _ := Some tt |}.

(** ** The page *)

Definition host : string := "127.0.0.1:7000".
Definition get_page : list LabReply → BrowserRequest := λ _,
  {| br_Host := host; br_Query := ""; br_Fragment := ""; br_Method := "GET"; br_Path := "/"; br_Cookie := None; br_Origin := ""; br_CSRF := "";
     br_ContentType := ""; br_Body := Some "" |}.

(** What the page was given when it was loaded. *)
Fixpoint page_tokens (l : list LabReply) : string * string :=
  match l with [] => ("", "") | ReplyPage _ session csrf :: _ => (session, csrf) | _ :: l => page_tokens l end.
(** The state that was shown last. *)
Fixpoint shown_last (f : LabState → string) (l : list LabReply) : string :=
  match l with [] => "" | ReplyState s :: _ => f s | _ :: l => shown_last f l end.

Definition post (path : string) (body : list LabReply → string) : list LabReply → BrowserRequest := λ l,
  {| br_Host := host; br_Query := ""; br_Fragment := ""; br_Method := "POST"; br_Path := path; br_Cookie := Some (page_tokens l).1;
     br_Origin := "http://" +:+ host; br_CSRF := (page_tokens l).2; br_ContentType := "application/json"; br_Body := Some (body l) |}.

Definition start : Site := {| site_service := (demo_start, 0%nat); site_page := []; site_replies := [] |}.
Definition play (page : list (list LabReply → BrowserRequest)) : history call * option Lab * Site (L:=nat) :=
  run (pairing_lab server (Some "127.0.0.1") host (length page)) {| site_service := (demo_start, 0%nat); site_page := page; site_replies := [] |} [].

Definition shown_phase (r : LabReply) : option (Phase * bool) + Z :=
  match r with ReplyState s => inl (Some (st_Phase s, st_SameVaultKey s)) | ReplyError status _ => inr status | _ => inl None end.

Definition pairing : list (list LabReply → BrowserRequest) :=
  [get_page; post "/api/request" (λ _, " phone "); post "/api/import" (shown_last st_PairingPayload);
   post "/api/approve" (shown_last st_Fingerprint); post "/api/accept" (λ _, "")].
Definition replies_to (page : list (list LabReply → BrowserRequest)) : list (option (Phase * bool) + Z) :=
  reverse (shown_phase <$> site_replies (play page).2).

(** The whole way, over the service: the new device ends with the key of the vault. *)
Example pairing_succeeds : replies_to pairing =
  [inl None; inl (Some (PhaseRequested, false)); inl (Some (PhaseImported, false)); inl (Some (PhaseApproved, false)); inl (Some (PhaseAccepted, true))].
Proof. vm_compute. reflexivity. Qed.

(** Another fingerprint approves nothing, and the invitation can still be rejected. *)
Example other_fingerprint : replies_to
  [get_page; post "/api/request" (λ _, "phone"); post "/api/import" (shown_last st_PairingPayload);
   post "/api/approve" (λ _, "0000 0000 0000 0000"); post "/api/accept" (λ _, ""); post "/api/reject" (λ _, "")] =
  [inl None; inl (Some (PhaseRequested, false)); inl (Some (PhaseImported, false)); inr 400; inr 409; inl (Some (PhaseRejected, false))].
Proof. vm_compute. reflexivity. Qed.

(** A page that was not given the token changes nothing. *)
Example forged_request : replies_to [post "/api/request" (λ _, "phone"); get_page; post "/api/cancel" (λ _, "")] = [inr 401; inl None; inr 409].
Proof. vm_compute. reflexivity. Qed.

(** A pairing that was cancelled can be started again, in a new vault. *)
Example cancelled_and_reset : replies_to
  [get_page; post "/api/request" (λ _, "phone"); post "/api/cancel" (λ _, ""); post "/api/reset" (λ _, ""); post "/api/request" (λ _, "laptop")] =
  [inl None; inl (Some (PhaseRequested, false)); inl (Some (PhaseCancelled, false)); inl (Some (PhaseIdle, false)); inl (Some (PhaseRequested, false))].
Proof. vm_compute. reflexivity. Qed.
End PairingRun.
