(* ===== verification/Secret.v ===== *)
(** Secrets that pass through an adapter: internal/lifecycle/secret.go.  A source gives one
    revision of one record to a callback; a sink takes one credential, once, and hands it to
    a writer of records. *)
From S2P Require Import Prelude Text.
From S2P Require Export Program.
From stdpp Require Import options.

Definition MaxCredentialBytes : Z := 1048576.
Definition credential_size (value : string) : bool := (0 <? slen value) && (slen value <=? MaxCredentialBytes).

(** ** Sources *)

Section Source.
Context {C : Type → Type} {R : Type}.

(** [RecordReader]: reads a revision of a record into a callback. *)
Definition RecordReader := string → Z → (string → flow C R (result unit)) → flow C R (result unit).
Record SecretSource := { so_reader : RecordReader; so_record : string; so_revision : Z }.

Definition NewSecretSource (reader : option RecordReader) (record : string) (revision : Z) : result SecretSource :=
  match reader with
  | Some reader =>
      _ ← reject_if (negb (nonempty record) || (revision <? 1)) "secret source binding is invalid";
      Ok {| so_reader := reader; so_record := record; so_revision := revision |}
  | None => Err "secret source binding is invalid"
  end.

Definition WithSecret (source : option SecretSource) (consume : string → flow C R (result unit)) : flow C R (result unit) :=
  match source with
  | None => mret (Err "secret source is unavailable")
  | Some source => so_reader source (so_record source) (so_revision source)
      (λ value, if credential_size value then consume value else mret (Err "encrypted record is invalid"))
  end.
End Source.

(** ** Sinks *)

(** The flag of the sink, which is set and tested in one step; and the writer of records,
    with everything that it can get from its callback. *)
Inductive sink_call : Type → Type :=
| CompareAndSwap : sink_call bool
| StoreSecret (record value : string) : sink_call (result Z).

Record SecretSink := { sk_record : string }.
Record SecretReceipt := { sr_Record : string; sr_Revision : Z }.
#[export] Instance SecretReceipt_eq_dec : EqDecision SecretReceipt.
Proof. solve_decision. Defined.

(** A stream: its bytes, and whether it breaks after them. *)
Record Stream := { sm_bytes : string; sm_breaks : bool }.

Fixpoint take_bytes (n : nat) (s : string) : string :=
  match n, s with S n, String c s => String c (take_bytes n s) | _, _ => "" end.
(** [io.ReadAll(io.LimitReader(source, n))]: a stream is not read past the limit, so that it
    breaks only before it. *)
Definition ReadAll (limit : Z) (source : Stream) : string * bool :=
  if limit <=? slen (sm_bytes source) then (take_bytes (Z.to_nat limit) (sm_bytes source), false) else (sm_bytes source, sm_breaks source).

Definition NewSecretSink (writer : bool) (record : string) : result SecretSink :=
  _ ← reject_if (negb writer || negb (nonempty record)) "secret sink binding is invalid"; Ok {| sk_record := record |}.

Section Sink.
Context {C : Type → Type} {R : Type} (call : ∀ X, sink_call X → C X).

(** What the writer answered. *)
Definition receipt_of (record : string) (stored : result Z) : result SecretReceipt :=
  match stored with
  | Ok revision => if revision <? 1 then Err "provider credential could not be stored" else Ok {| sr_Record := record; sr_Revision := revision |}
  | Err _ => Err "provider credential could not be stored"
  end.

Definition Store (sink : option SecretSink) (source : Stream) : flow C R (result SecretReceipt) :=
  match sink with
  | None => mret (Err "secret sink is unavailable")
  | Some sink =>
      if negb (nonempty (sk_record sink)) then mret (Err "secret sink is unavailable")
      else
        first ← ask (call _ CompareAndSwap);
        if negb first then mret (Err "secret sink is unavailable")
        else
          let '(raw, broken) := ReadAll (MaxCredentialBytes + 1) source in
          if (broken : bool) || negb (credential_size raw) then mret (Err "provider credential could not be stored")
          else
            stored ← ask (call _ (StoreSecret (sk_record sink) raw));
            mret (receipt_of (sk_record sink) stored)
  end.

Definition StoreBytes (sink : option SecretSink) (value : string) : flow C R (result SecretReceipt) :=
  Store sink {| sm_bytes := value; sm_breaks := false |}.
End Sink.

(** ** Callers that share a sink

    Any number of calls run at once: at each step one of them makes its next call.  The flag
    is shared; the writer answers as it likes and is given what [stored] lists. *)

Abbreviation caller := (flow sink_call (result SecretReceipt) (result SecretReceipt)).
Record Shared := { sh_used : bool; sh_stored : list (string * string); sh_callers : list caller }.

Inductive sink_step : Shared → Shared → Prop :=
| SwapStep used stored before k after :
    sink_step {| sh_used := used; sh_stored := stored; sh_callers := before ++ Ask CompareAndSwap k :: after |}
      {| sh_used := true; sh_stored := stored; sh_callers := before ++ k (negb used) :: after |}
| StoreStep used stored before record value k after answer :
    sink_step {| sh_used := used; sh_stored := stored; sh_callers := before ++ Ask (StoreSecret record value) k :: after |}
      {| sh_used := used; sh_stored := (record, value) :: stored; sh_callers := before ++ k answer :: after |}.

Definition store_direct (sink : SecretSink) (source : Stream) : caller := Store (λ X c, c) (Some sink) source.
Definition callers_of (sink : SecretSink) (sources : list Stream) : Shared :=
  {| sh_used := false; sh_stored := []; sh_callers := store_direct sink <$> sources |}.

Definition has_receipt (p : caller) : bool := match p with Done (Ok _) => true | _ => false end.
Definition receipts (s : Shared) : list caller := filter (λ p, has_receipt p = true) (sh_callers s).

(** ** Proof *)

Section Once.
Context (sink : SecretSink) (sources : list Stream).

(** A credential that one of the callers brought. *)
Definition brought (raw : string) : Prop :=
  ∃ source, source ∈ sources ∧ ReadAll (MaxCredentialBytes + 1) source = (raw, false) ∧ credential_size raw = true.

(** Where a caller is: how many secrets it may still store, and how many receipts it has. *)
Fixpoint at_point (p : caller) (armed done : nat) : Prop :=
  match p with
  | Done (Ok receipt) => armed = 0%nat ∧ done = 1%nat ∧ sr_Record receipt = sk_record sink
  | Done (Err _) => armed = 0%nat ∧ done = 0%nat
  | Exit _ => False
  | @Ask _ _ _ X c k =>
      match c in sink_call X return (X → caller) → Prop with
      | CompareAndSwap => λ k, armed = 0%nat ∧ done = 0%nat ∧ ∀ won, ∃ a, at_point (k won) a 0 ∧ (a ≤ if won : bool then 1 else 0)%nat
      | StoreSecret record value => λ k, armed = 1%nat ∧ done = 0%nat ∧ record = sk_record sink ∧ brought value ∧
          ∀ stored, ∃ n, at_point (k stored) 0 n ∧ (n ≤ 1)%nat
      end k
  end.

Inductive at_points : list caller → nat → nat → Prop :=
| NoCallers : at_points [] 0 0
| Callers p l a b m n : at_point p a b → at_points l m n → at_points (p :: l) (a + m) (b + n).

Lemma at_points_app l l' m n :
  at_points (l ++ l') m n ↔ ∃ m1 n1 m2 n2, at_points l m1 n1 ∧ at_points l' m2 n2 ∧ m = (m1 + m2)%nat ∧ n = (n1 + n2)%nat.
Proof.
  split.
  - revert m n. induction l as [|p l IH]; intros m n H; [exists 0%nat, 0%nat, m, n; by split; [constructor|]|].
    inversion H as [|? ? a b m' n' Hp Hl]; subst. destruct (IH _ _ Hl) as (m1&n1&m2&n2&H1&H2&->&->).
    exists (a + m1)%nat, (b + n1)%nat, m2, n2. split_and!; [by constructor|done|lia..].
  - intros (m1&n1&m2&n2&H1&H2&->&->). induction H1 as [|p l a b m1 n1 Hp Hl IH]; [done|].
    cbn [app]. replace (a + m1 + m2)%nat with (a + (m1 + m2))%nat by lia. replace (b + n1 + n2)%nat with (b + (n1 + n2))%nat by lia. by constructor.
Qed.

Definition once (s : Shared) : Prop :=
  ∃ m n, at_points (sh_callers s) m n ∧ (m + length (sh_stored s) ≤ (if sh_used s then 1 else 0))%nat ∧ (n ≤ length (sh_stored s))%nat ∧
    ∀ record value, (record, value) ∈ sh_stored s → record = sk_record sink ∧ brought value.

Lemma at_start source : source ∈ sources → at_point (store_direct sink source) 0 0.
Proof.
  intros Hs. unfold store_direct, Store. destruct (nonempty _); [|done]. cbn. split_and!; [done..|]. intros [|]; [|by exists 0%nat]. cbn [negb].
  destruct (ReadAll _ source) as [raw broken] eqn:Er. destruct broken, (credential_size raw) eqn:Ec; cbn; try (exists 0%nat; split; [done|lia]).
  exists 1%nat. split; [|lia]. split_and!; [done..|by exists source|]. intros [revision|e]; cbn; [|exists 0%nat; by split; [|lia]].
  destruct (revision <? 1); [exists 0%nat; by split; [|lia]|]. exists 1%nat. by split; [|lia].
Qed.

Lemma once_starts : once (callers_of sink sources).
Proof.
  exists 0%nat, 0%nat. split_and!; [|done..|by intros ? ? ?%not_elem_of_nil]. cbn [callers_of sh_callers].
  assert (H : ∀ l, (∀ x, x ∈ l → x ∈ sources) → at_points (store_direct sink <$> l) 0 0).
  { induction l as [|x l IH]; intros Hl; [constructor|]. apply (Callers _ _ 0 0 0 0); [apply at_start, Hl; by left|apply IH; intros y Hy; apply Hl; by right]. }
  by apply H.
Qed.

Lemma once_step s s' : sink_step s s' → once s → once s'.
Proof.
  intros [used stored before k after|used stored before record value k after a] (m&n&Hp&Hm&Hn&Hs); cbn [sh_callers sh_used sh_stored] in *.
  all: apply at_points_app in Hp as (m1&n1&m2&n2&H1&H2&->&->); inversion H2 as [|p l x y m' n' Hx Hl]; subst; cbn in Hx.
  - destruct Hx as (->&->&Hk). destruct (Hk (negb used)) as (x&Hx&Hle).
    exists (m1 + (x + m'))%nat, (n1 + (0 + n'))%nat. cbn [sh_callers sh_used sh_stored]. split_and!; [|destruct used; cbn in *; lia|lia|done].
    apply at_points_app. exists m1, n1, (x + m')%nat, (0 + n')%nat. by split_and!; [|constructor|..].
  - destruct Hx as (->&->&->&Hv&Hk). destruct (Hk a) as (y&Hy&Hle).
    exists (m1 + (0 + m'))%nat, (n1 + (y + n'))%nat. cbn [sh_callers sh_used sh_stored length]. split_and!; [|destruct used; lia|lia|].
    + apply at_points_app. exists m1, n1, (0 + m')%nat, (y + n')%nat. by split_and!; [|constructor|..].
    + intros r v [[= -> ->]|H]%elem_of_cons; [done|by apply Hs].
Qed.

Lemma count_receipts l m n : at_points l m n → length (filter (λ p, has_receipt p = true) l) = n.
Proof.
  induction 1 as [|p l a b m n Hp Hl IH]; [done|]. rewrite filter_cons.
  destruct p as [[r|e]|r|X c k]; cbn in Hp; try done.
  - destruct Hp as (_&->&_). rewrite decide_True by done. cbn. by rewrite IH.
  - destruct Hp as [_ ->]. by rewrite decide_False by done.
  - rewrite decide_False by done. destruct c; destruct Hp as (_&->&_); done.
Qed.

(** However the callers of a sink are interleaved, and whatever the writer answers, at most
    one secret is stored, one that a caller brought, in the record of the sink; and there are
    no more receipts than stored secrets. *)
Theorem sink_stores_once s : rtc sink_step (callers_of sink sources) s →
  (length (sh_stored s) ≤ 1)%nat ∧ (length (receipts s) ≤ length (sh_stored s))%nat ∧
  ∀ record value, (record, value) ∈ sh_stored s → record = sk_record sink ∧ brought value.
Proof.
  intros Hrun. assert (H : once s).
  { pose proof once_starts as H0. induction Hrun as [s|s s1 s2 Hs _ IH]; [done|]. by eapply IH, once_step. }
  destruct H as (m&n&Hp&Hm&Hn&Hs). split_and!; [destruct (sh_used s); lia| |done]. unfold receipts. by rewrite (count_receipts _ _ _ Hp).
Qed.
End Once.
