(* ===== verification/Stripe.v ===== *)
(** The Stripe adapter: internal/provider/stripe/adapter.go.  Credentials are made and
    revoked over HTTP; the secret of a new one goes from the reply into a sink. *)
From S2P Require Import Prelude Timestamp Text Provider Manifest Origin Redactor Http.
From S2P Require Export Secret.
From stdpp Require Import options.

Definition DefaultEndpoint : string := "https://api.stripe.com".
Definition maxResponseBytes : Z := 1048576.

Inductive CredentialCapability := CapabilityAutomatic | CapabilityInteractive | CapabilityUnsupported.
Record CredentialRequest := {
  cr_ProviderIdentity : string; cr_CredentialType : string; cr_DestinationRecord : string; cr_IdempotencyKey : string;
  cr_Parameters : gmap string (list string);
}.
Record CredentialEvidence := { ce_CredentialID : string; ce_CreatedAt : string; ce_Receipt : SecretReceipt }.

Record Adapter := { ad_endpoint : string; ad_control : string }.

(** What the adapter calls: the network, the sink and the clock. *)
Module Call.
Inductive call : Type → Type :=
| Do (request : HttpRequest) : call (option HttpReply)
| Sink {X} (c : sink_call X) : call X
| Now : call Z.
End Call.
Abbreviation call := Call.call.

(** [json.Unmarshal] into the raw values of the fields of an object. *)
Class FieldsCodec := { fields_of_json : string → option (gmap string string) }.

(** ** Texts *)

(** [r <= ' ' || r == 0x7f] *)
Definition control_rune (c : ascii) : bool := (code c <=? 32) || (code c =? 127).
Definition no_control (s : string) : bool := all_bytes (λ c, negb (control_rune c)) s.

(** The text between the quotes, if there is no escape in it. *)
Definition plainJSONString (raw : string) : option string :=
  match raw with
  | String first rest =>
      match cut_last quote rest with
      | Some (inner, "") => if Ascii.eqb first quote && negb (contains_byte backslash inner) then Some inner else None
      | _ => None
      end
  | EmptyString => None
  end.

Definition retry (status : Z) : RetryClass := if (status =? 429) || (500 <=? status) then RetrySafe else RetryNever.

(** [url.Values.Encode] of the two keys, in their order. *)
Definition form (url : string) (events : list string) : string :=
  String.concat "&" (((λ event, QueryEscape "enabled_events[]" +:+ "=" +:+ QueryEscape event) <$> events) ++ ["url=" +:+ QueryEscape url]).

Definition Capabilities : gmap string CredentialCapability :=
  {["webhook-signing-secret" := CapabilityAutomatic; "secret-key" := CapabilityInteractive; "restricted-key" := CapabilityInteractive]}.

Section Adapter.
Context {urls : URLs} {hosts : Hosts} {codec : FieldsCodec}.

Definition New (control endpoint : string) : result Adapter :=
  _ ← reject_if (negb (nonempty control) || (16384 <? slen control) || negb (no_control control)) "Stripe control credential is invalid";
  let endpoint := if nonempty endpoint then endpoint else DefaultEndpoint in
  match url_Parse endpoint with
  | None => Err "Stripe API endpoint is invalid"
  | Some parsed =>
      _ ← reject_if (u_User parsed || nonempty (u_RawQuery parsed) || nonempty (u_Fragment parsed) || nonempty (u_Path parsed) ||
            (negb (String.eqb (u_Scheme parsed) "https") &&
             negb (String.eqb (u_Scheme parsed) "http" &&
                   (String.eqb (Hostname parsed) "127.0.0.1" || String.eqb (Hostname parsed) "localhost")))) "Stripe API endpoint is invalid";
      Ok {| ad_endpoint := endpoint; ad_control := control |}
  end.

Context (adapter : Adapter).

(** ** Requests *)

Definition stripe_request (method path : string) (body : string) (idempotency : string) : HttpRequest :=
  {| hq_Method := method; hq_URL := ad_endpoint adapter +:+ path;
     hq_Headers := [("Authorization", "Bearer " +:+ ad_control adapter)] ++
       (if String.eqb method "POST" then [("Content-Type", "application/x-www-form-urlencoded")] else []) ++
       (if nonempty idempotency then [("Idempotency-Key", idempotency)] else []);
     hq_Body := body |}.

(** The creation of the request, of an endpoint that [New] has accepted, does not fail. *)
Definition request (method path body idempotency : string) : fallible call (string * Z) :=
  let operation := ToLower method in
  reply ← ask (Call.Do (stripe_request method path body idempotency));
  match (reply : option HttpReply) with
  | None => fail_with operation 0 "TRANSPORT_FAILED" RetrySafe
  | Some reply =>
      match hr_Body reply with
      | None => fail_with operation (hr_Status reply) "RESPONSE_LIMIT" RetryAmbiguous
      | Some raw =>
          if maxResponseBytes <? slen raw then fail_with operation (hr_Status reply) "RESPONSE_LIMIT" RetryAmbiguous
          else succeed (raw, hr_Status reply)
      end
  end.

(** A field of an object: nothing is the text of no field. *)
Definition field (fields : gmap string string) (name : string) : option string := plainJSONString (default "" (fields !! name)).

Definition Identify : fallible call Identity :=
  let! '(body, status) := request "GET" "/v1/account" "" "" in
  if negb (status =? 200) then fail_with "identify" status "STRIPE_RESPONSE" (retry status)
  else
    match fields_of_json body with
    | None => fail_with "identify" 200 "INVALID_RESPONSE" RetryNever
    | Some fields =>
        match field fields "id" with
        | Some id => if has_prefix "acct_" id then succeed {| id_Provider := "stripe"; id_ID := id |}
                     else fail_with "identify" 200 "INVALID_IDENTITY" RetryNever
        | None => fail_with "identify" 200 "INVALID_IDENTITY" RetryNever
        end
    end.

(** The guards of the request. *)
Definition request_ok (request : CredentialRequest) (sink : option SecretSink) : bool :=
  String.eqb (cr_CredentialType request) "webhook-signing-secret" && nonempty (cr_ProviderIdentity request) &&
  nonempty (cr_DestinationRecord request) && bool_decide (is_Some sink) && nonempty (cr_IdempotencyKey request) &&
  (slen (cr_IdempotencyKey request) <=? 255) && no_control (cr_IdempotencyKey request).

(** The target and the events of a webhook. *)
Definition configuration (request : CredentialRequest) : option (string * list string) :=
  match default [] (cr_Parameters request !! "url"), default [] (cr_Parameters request !! "enabled_events") with
  | [url], (_ :: _) as events =>
      match url_Parse url with
      | Some parsed =>
          if String.eqb (u_Scheme parsed) "https" && nonempty (u_Host parsed) && negb (u_User parsed) && forallb nonempty events
          then Some (url, events) else None
      | None => None
      end
  | _, _ => None
  end.

(** What a reply to a creation has: the identifier and the secret. *)
Definition created (body : string) : option (string * string) :=
  fields ← fields_of_json body;
  id ← field fields "id";
  secret ← field fields "secret";
  if has_prefix "we_" id && has_prefix "whsec_" secret then Some (id, secret) else None.

Definition Create (cr : CredentialRequest) (sink : option SecretSink) : fallible call CredentialEvidence :=
  if negb (request_ok cr sink) then fail_with "create" 0 "INVALID_REQUEST" RetryNever
  else
    match configuration cr with
    | None => fail_with "create" 0 "INVALID_CONFIGURATION" RetryNever
    | Some (url, events) =>
        let! '(body, status) := request "POST" "/v1/webhook_endpoints" (form url events) (cr_IdempotencyKey cr) in
        if negb (status =? 200) then fail_with "create" status "STRIPE_RESPONSE" (retry status)
        else
          match created body with
          | None => fail_with "create" 200 "INVALID_RESPONSE" RetryAmbiguous
          | Some (id, secret) =>
              receipt ← StoreBytes (@Call.Sink) sink secret;
              match (receipt : result SecretReceipt) with
              | Err _ => fail_with "create" 200 "STORE_REQUIRED" RetryAmbiguous
              | Ok receipt =>
                  now ← ask Call.Now;
                  succeed {| ce_CredentialID := id; ce_CreatedAt := format_rfc3339 now; ce_Receipt := receipt |}
              end
          end
    end.

Definition Validate (id : string) : fallible call VerifyEvidence :=
  if negb (has_prefix "we_" id) then fail_with "validate" 0 "INVALID_ID" RetryNever
  else
    let! '(_, status) := request "GET" ("/v1/webhook_endpoints/" +:+ PathEscape id) "" "" in
    if negb (status =? 200) then fail_with "validate" status "STRIPE_RESPONSE" (retry status)
    else
      now ← ask Call.Now;
      succeed {| ve_Result := VerificationVerified; ve_Presence := PresencePresent; ve_VerifiedAt := format_rfc3339 now; ve_Reason := "" |}.

Definition Revoke (id : string) : fallible call unit :=
  if negb (has_prefix "we_" id) then fail_with "revoke" 0 "INVALID_ID" RetryNever
  else
    let! '(_, status) := request "DELETE" ("/v1/webhook_endpoints/" +:+ PathEscape id) "" "" in
    if negb (status =? 200) then fail_with "revoke" status "STRIPE_RESPONSE" (retry status) else succeed tt.
End Adapter.

(** What the Stripe adapter sends and keeps, whatever the network, the sink and the clock
    answer. *)

Section Safety.
Context {urls : URLs} {hosts : Hosts} {codec : FieldsCodec} (adapter : Adapter) (cr : CredentialRequest) (sink : option SecretSink).

(** ** What is claimed *)

Definition creation : option HttpRequest :=
  if request_ok cr sink then
    '(url, events) ← configuration cr; Some (stripe_request adapter "POST" "/v1/webhook_endpoints" (form url events) (cr_IdempotencyKey cr))
  else None.

Definition accepted (past : history call) (body : string) : Prop :=
  ∃ request, creation = Some request ∧ Event (Call.Do request) (Some {| hr_Status := 200; hr_Body := Some body |}) ∈ past ∧ slen body ≤ maxResponseBytes.

(** The creation is sent once, as the first call.  Its accepted reply is followed by the
    check of the sink, and that by the only storing: no call came in between, and none
    was stored before. *)
Definition create_guard (past : history call) (X : Type) (c : call X) : Prop :=
  match c with
  | Call.Do request => creation = Some request ∧ past = []
  | Call.Sink CompareAndSwap => ∃ request body, creation = Some request ∧ slen body ≤ maxResponseBytes ∧ is_Some (created body) ∧
      past = [Event (Call.Do request) (Some {| hr_Status := 200; hr_Body := Some body |})]
  | Call.Sink (StoreSecret record value) => ∃ request body id s, creation = Some request ∧ slen body ≤ maxResponseBytes ∧
      created body = Some (id, value) ∧ sink = Some s ∧ record = sk_record s ∧ credential_size value = true ∧
      past = [Event (Call.Sink CompareAndSwap) true; Event (Call.Do request) (Some {| hr_Status := 200; hr_Body := Some body |})]
  | Call.Now => True
  end.

(** Evidence has been stored; an error does not say that a credential was not made when the
    service has accepted it, and is one of a fixed list, with the status of the reply. *)
Definition create_end (past : history call) (r : CredentialEvidence + AdapterError) : Prop :=
  match r with
  | inl evidence => ∃ body secret s revision now, accepted past body ∧ created body = Some (ce_CredentialID evidence, secret) ∧ sink = Some s ∧
      Event (Call.Sink (StoreSecret (sk_record s) secret)) (Ok revision) ∈ past ∧ 1 ≤ revision ∧ Event Call.Now now ∈ past ∧
      ce_CreatedAt evidence = format_rfc3339 now ∧ ce_Receipt evidence = {| sr_Record := sk_record s; sr_Revision := revision |}
  | inr (Typed e) =>
      ((∃ body, accepted past body) → err_Retry e = RetryAmbiguous) ∧
      (past = [] ∧ (e = NewError "create" 0 "INVALID_REQUEST" RetryNever ∨ e = NewError "create" 0 "INVALID_CONFIGURATION" RetryNever) ∨
       ∃ request reply, creation = Some request ∧ Event (Call.Do request) reply ∈ past ∧
         match reply with
         | None => e = NewError (ToLower "POST") 0 "TRANSPORT_FAILED" RetrySafe
         | Some reply => e = NewError (ToLower "POST") (hr_Status reply) "RESPONSE_LIMIT" RetryAmbiguous ∨
             (hr_Status reply ≠ 200 ∧ e = NewError "create" (hr_Status reply) "STRIPE_RESPONSE" (retry (hr_Status reply))) ∨
             (hr_Status reply = 200 ∧ (e = NewError "create" 200 "INVALID_RESPONSE" RetryAmbiguous ∨ e = NewError "create" 200 "STORE_REQUIRED" RetryAmbiguous))
         end)
  | inr (Untyped _) => False
  end.

(** What of a reply the caller of [Create] may learn: not the secret. *)
Definition view (reply : option HttpReply) : option (Z * option (option (string * bool))) :=
  reply ← reply;
  Some (hr_Status reply,
    match hr_Body reply with
    | Some raw =>
        if maxResponseBytes <? slen raw then None
        else Some (if hr_Status reply =? 200 then '(id, secret) ← created raw; Some (id, credential_size secret) else None)
    | None => None
    end).

(** Collaborators of which the writer does not look at the value that it stores. *)
Definition blind {W} `{World call W} : Prop :=
  ∀ record v v' (w : W), answer _ (Call.Sink (StoreSecret record v)) w = answer _ (Call.Sink (StoreSecret record v')) w.

(** ** Proof *)

Lemma take_bytes_all n s : (String.length s ≤ n)%nat → take_bytes n s = s.
Proof. revert n. induction s as [|c s IH]; intros [|n]; cbn; try done; [lia|]. intros H. rewrite IH by lia. done. Qed.

(** The reader of a text: the whole of it, unless it is too long. *)
Lemma ReadAll_text v : ReadAll (MaxCredentialBytes + 1) {| sm_bytes := v; sm_breaks := false |} =
  (if slen v <=? MaxCredentialBytes then v else take_bytes (Z.to_nat (MaxCredentialBytes + 1)) v, false).
Proof.
  unfold ReadAll. cbn [sm_bytes sm_breaks]. destruct (Z.leb_spec (MaxCredentialBytes + 1) (slen v)), (Z.leb_spec (slen v) MaxCredentialBytes); (lia || done).
Qed.

Lemma credential_size_read v : credential_size (ReadAll (MaxCredentialBytes + 1) {| sm_bytes := v; sm_breaks := false |}).1 = credential_size v.
Proof.
  rewrite ReadAll_text. cbn [fst]. destruct (Z.leb_spec (slen v) MaxCredentialBytes) as [|H]; [done|]. unfold credential_size.
  replace (slen v <=? MaxCredentialBytes) with false by lia. rewrite andb_false_r. apply andb_false_iff. right. apply Z.leb_gt.
  assert (Hl : ∀ n s, (n ≤ String.length s)%nat → String.length (take_bytes n s) = n).
  { clear. induction n as [|n IH]; intros [|c s]; cbn; try (done || lia). intros Hn. rewrite IH by lia. done. }
  unfold slen in *. rewrite Hl; lia.
Qed.

(** The exchanges of a history. *)
Definition exchange_of (e : event call) : option (HttpRequest * option HttpReply) :=
  match e with
  | @Event _ X c x => match c in Call.call X return X → option (HttpRequest * option HttpReply) with Call.Do request => λ reply, Some (request, reply) | _ => λ _, None end x
  end.

Lemma accepted_reply past sent reply body : omap exchange_of past = [(sent, reply)] → accepted past body →
  reply = Some {| hr_Status := 200; hr_Body := Some body |} ∧ slen body ≤ maxResponseBytes.
Proof.
  intros He (request&_&Hin&Hl). split; [|done].
  assert (H : (request, Some {| hr_Status := 200; hr_Body := Some body |}) ∈ omap exchange_of past) by (apply list_elem_of_omap; by eexists).
  rewrite He in H. apply list_elem_of_singleton in H. congruence.
Qed.

Lemma refused_before e : e = NewError "create" 0 "INVALID_REQUEST" RetryNever ∨ e = NewError "create" 0 "INVALID_CONFIGURATION" RetryNever →
  create_end [] (inr (Typed e)).
Proof. intros He. split; [by intros (body&request&_&[]%elem_of_nil&_)|by left]. Qed.

(** What is left of [Create] after the reply. *)
Definition after_reply (sent : HttpRequest) (past : history call) (r : (string * Z) + AdapterError) : Prop :=
  ∃ reply, past = [Event (Call.Do sent) reply] ∧
  match r with
  | inl (raw, status) => reply = Some {| hr_Status := status; hr_Body := Some raw |} ∧ slen raw ≤ maxResponseBytes
  | inr e => create_end past (inr e)
  end.

Lemma spec_request sent path body key : creation = Some sent → sent = stripe_request adapter "POST" path body key →
  wp create_guard (request adapter "POST" path body key) [] (after_reply sent) (after_reply sent).
Proof.
  intros Hc ->. unfold request. apply wp_ask; [by split|]. intros reply.
  assert (Hl : ∀ e, (∀ raw, reply = Some {| hr_Status := 200; hr_Body := Some raw |} → maxResponseBytes < slen raw) →
    match reply with
    | None => e = NewError (ToLower "POST") 0 "TRANSPORT_FAILED" RetrySafe
    | Some reply => e = NewError (ToLower "POST") (hr_Status reply) "RESPONSE_LIMIT" RetryAmbiguous
    end → after_reply (stripe_request adapter "POST" path body key) [Event (Call.Do (stripe_request adapter "POST" path body key)) reply] (inr (Typed e))).
  { intros e Hlong He. exists reply. split; [done|]. split.
    - intros [raw Ha]. eapply accepted_reply in Ha as [Hr Hs]; [|done]. specialize (Hlong _ Hr). lia.
    - right. eexists _, reply. split; [done|]. split; [by left|]. destruct reply; [by left|done]. }
  destruct reply as [[status [raw|]]|]; cbn [hr_Status hr_Body] in *; [|by apply Hl..].
  destruct (Z.ltb_spec maxResponseBytes (slen raw)); [by apply Hl; [intros raw' E; cbn in E; simplify_eq|]|]. eexists. split; [done|]. split; [done|lia].
Qed.

Lemma refused_after past sent status raw e : creation = Some sent → omap exchange_of past = [(sent, Some {| hr_Status := status; hr_Body := Some raw |})] →
  Event (Call.Do sent) (Some {| hr_Status := status; hr_Body := Some raw |}) ∈ past →
  (status ≠ 200 ∧ e = NewError "create" status "STRIPE_RESPONSE" (retry status)) ∨
  (status = 200 ∧ (e = NewError "create" 200 "INVALID_RESPONSE" RetryAmbiguous ∨ e = NewError "create" 200 "STORE_REQUIRED" RetryAmbiguous)) →
  create_end past (inr (Typed e)).
Proof.
  intros Hc Hx Hin He. split.
  - intros [body Ha]. eapply accepted_reply in Ha as [Hr _]; [|done]. simplify_eq. by destruct He as [[]|[_ [->| ->]]].
  - right. exists sent. eexists. split; [done|]. split; [exact Hin|]. by right.
Qed.

Lemma spec_Create : wp create_guard (Create adapter cr sink) [] create_end create_end.
Proof.
  unfold Create. destruct (request_ok cr sink) eqn:Eok; cbn [negb]; [|by apply refused_before; left].
  destruct (configuration cr) as [[url events]|] eqn:Ec; [|by apply refused_before; right].
  set (sent := stripe_request adapter "POST" "/v1/webhook_endpoints" (form url events) (cr_IdempotencyKey cr)).
  assert (Hc : creation = Some sent) by (unfold creation; by rewrite Eok, Ec).
  eapply (wp_and_then _ _ _ _ _ (after_reply sent)); [by apply spec_request|..]; [|by intros past' e (reply&_&He)].
  intros past' [raw status] (reply&->&->&Hraw). destruct (Z.eqb_spec status 200) as [->|Hs]; cbn [negb].
  2: { apply (refused_after _ sent status raw); [done..|by left|left; done]. }
  destruct (created raw) as [[id secret]|] eqn:Ecr.
  2: { apply (refused_after _ sent 200 raw); [done..|by left|right]. split; [done|by left]. }
  set (past1 := [_]). assert (Ha : accepted past1 raw) by (exists sent; split; [done|]; split; [by left|done]).
  assert (Hrefuse : ∀ past', omap exchange_of past' = omap exchange_of past1 → grows past1 past' →
    create_end past' (inr (Typed (NewError "create" 200 "STORE_REQUIRED" RetryAmbiguous)))).
  { intros past' Hx Hg. apply (refused_after _ sent 200 raw); [done|by rewrite Hx|apply Hg; by left|right]. split; [done|by right]. }
  destruct sink as [s|] eqn:Es; [|by apply Hrefuse]. unfold StoreBytes, Store. rewrite <-Es in *.
  destruct (nonempty (sk_record s)); cbn [negb]; [|by apply Hrefuse].
  apply wp_bind, wp_ask; [by exists sent, raw|]. intros [|]; cbn [negb]; [|by apply Hrefuse; [|apply grows_step]].
  pose proof (credential_size_read secret) as Hsize. rewrite ReadAll_text in *. cbn [fst orb] in *. rewrite Hsize.
  destruct (credential_size secret) eqn:Ez; cbn [negb]; [|by apply Hrefuse; [|apply grows_step]].
  assert (Hle : (slen secret <=? MaxCredentialBytes) = true) by (by apply andb_true_iff in Ez as [_ ?]). rewrite Hle.
  apply wp_ask.
  - by exists sent, raw, id, s.
  - intros stored. set (past3 := Event _ _ :: _). destruct stored as [revision|e]; cbn [wp mret flow_ret receipt_of]; [|by apply Hrefuse; [|do 2 apply grows_cons]].
    destruct (Z.ltb_spec revision 1); cbn [wp]; [by apply Hrefuse; [|do 2 apply grows_cons]|]. split; [done|]. intros now.
    exists raw, secret, s, revision, now. cbn [ce_CredentialID ce_CreatedAt ce_Receipt].
    split_and!; [destruct Ha as (r&?&?&?); exists r; split; [done|]; split; [by do 3 right|done]|done|done|right; by left|lia|by left|done|done].
Qed.
(** ** Confidentiality *)

(** What a run returns does not depend on what happened before. *)
Lemma run_past {W} `{!World call W} {R} (p : flow call R R) (w : W) past past' : (run p w past).1.2 = (run p w past').1.2.
Proof. revert w past past'. induction p as [a|r|X c k IH]; intros w past past'; cbn; [done..|]. destruct (answer X c w). apply IH. Qed.

(** The storing of two secrets that may both be stored, or both not. *)
Lemma same_stored {W} `{!World call W} {R} (k : result SecretReceipt → flow call R R) v v' (w : W) past past' :
  blind (W:=W) → credential_size v = credential_size v' →
  (run (receipt ← StoreBytes (@Call.Sink) sink v; k receipt) w past).1.2 = (run (receipt ← StoreBytes (@Call.Sink) sink v'; k receipt) w past').1.2.
Proof.
  intros Hblind Hv. unfold StoreBytes, Store. destruct sink as [s|]; [|apply run_past]. destruct (nonempty _); [|apply run_past]. cbn [negb].
  cbn [mbind flow_bind flow_bind_ ask run]. destruct (answer _ (Call.Sink CompareAndSwap) w) as [[|] w1]; [|apply run_past]. cbn [negb].
  pose proof (credential_size_read v) as H. pose proof (credential_size_read v') as H'. rewrite !ReadAll_text in *. cbn [fst orb] in *.
  rewrite H, H', <-Hv. clear H H'. destruct (credential_size v) eqn:Ez; cbn [negb]; [|apply run_past].
  assert (Hle : (slen v <=? MaxCredentialBytes) = true) by (by apply andb_true_iff in Ez as [_ ?]).
  assert (Hle' : (slen v' <=? MaxCredentialBytes) = true) by (by symmetry in Hv; apply andb_true_iff in Hv as [_ ?]).
  rewrite Hle, Hle'. cbn [mbind flow_bind flow_bind_ ask run]. rewrite (Hblind (sk_record s) v v' w1).
  destruct (answer _ _ w1) as [stored w2]. apply run_past.
Qed.

Lemma same_views {W} `{!World call W} (w1 w2 w' : W) sent reply1 reply2 : blind (W:=W) → creation = Some sent →
  answer _ (Call.Do sent) w1 = (reply1, w') → answer _ (Call.Do sent) w2 = (reply2, w') → view reply1 = view reply2 →
  (run (Create adapter cr sink) w1 []).1.2 = (run (Create adapter cr sink) w2 []).1.2.
Proof.
  intros Hblind. unfold creation, Create. destruct (request_ok cr sink); [|done]. destruct (configuration cr) as [[url events]|]; [|done].
  cbn [negb mbind option_bind]. intros [= <-] H1 H2 Hv. unfold and_then, request. cbn [mbind flow_bind flow_bind_ ask enter run]. rewrite H1, H2. clear H1 H2.
  destruct reply1 as [[status1 body1]|], reply2 as [[status2 body2]|]; [|done..|apply run_past]. unfold view in Hv. cbn in Hv |- *.
  injection Hv as <- Hv. destruct body1 as [raw1|], body2 as [raw2|]; try (repeat case_match; done || apply run_past).
  destruct (maxResponseBytes <? slen raw1), (maxResponseBytes <? slen raw2); try (done || apply run_past). injection Hv as Hv. cbn.
  destruct (status1 =? 200); cbn [negb]; [|apply run_past].
  destruct (created raw1) as [[id s1]|], (created raw2) as [[id' s2]|]; cbn in Hv; try (done || apply run_past). injection Hv as <- Hs.
  apply (same_stored _ s1 s2); done.
Qed.
End Safety.


(** ** A creation *)

Module StripeDemo.
#[local] Instance demo_urls : URLs := {| url_Parse s :=
  if has_prefix "https://" s then Some {| u_Scheme := "https"; u_Opaque := ""; u_User := false; u_Host := drop_bytes 8 s; u_Path := ""; u_RawQuery := ""; u_Fragment := "" |}
  else None |}.
#[local] Instance demo_hosts : Hosts := {| ToLower s := if String.eqb s "POST" then "post" else s; EqualFold := String.eqb; loopback_ip _ := false |}.
Definition quoted (s : string) : string := String quote (s +:+ String quote "").
(** Bodies that are the text of a secret. *)
#[local] Instance demo_codec : FieldsCodec := {| fields_of_json body := Some {["id" := quoted "we_1"; "secret" := quoted body]} |}.

(** The reply that the network has, the flag of the sink, and what was stored. *)
#[local] Instance demo_world : World call (option HttpReply * (bool * nat)) := λ X c w,
  match c with
  | Call.Do _ => (w.1, (None, w.2))
  | Call.Sink c =>
      match c in sink_call T return T * (option HttpReply * (bool * nat)) with
      | CompareAndSwap => (negb w.2.1, (w.1, (true, w.2.2)))
      | StoreSecret _ _ => (Ok 7, (w.1, (w.2.1, S w.2.2)))
      end
  | Call.Now => (0, w)
  end.

Definition demo_adapter : Adapter := {| ad_endpoint := DefaultEndpoint; ad_control := "sk_test" |}.
Definition demo_request : CredentialRequest :=
  {| cr_ProviderIdentity := "acct_1"; cr_CredentialType := "webhook-signing-secret"; cr_DestinationRecord := "HOOK"; cr_IdempotencyKey := "operation";
     cr_Parameters := {["url" := ["https://shop.example/hook"]; "enabled_events" := ["charge.succeeded"]]} |}.
Definition demo_sink : option SecretSink := Some {| sk_record := "HOOK" |}.
Definition replying (secret : string) : option HttpReply * (bool * nat) := (Some {| hr_Status := 200; hr_Body := Some secret |}, (false, 0%nat)).

(** The form that is sent, and what is returned and stored. *)
Example created_webhook :
  let '(past, r, w) := run (Create demo_adapter demo_request demo_sink) (replying "whsec_1") [] in
  (∃ headers, (exchange_of <$> last past) = Some (Some ({| hq_Method := "POST"; hq_URL := "https://api.stripe.com/v1/webhook_endpoints"; hq_Headers := headers;
    hq_Body := "enabled_events%5B%5D=charge.succeeded&url=https%3A%2F%2Fshop.example%2Fhook" |}, (replying "whsec_1").1))) ∧
  r = inl {| ce_CredentialID := "we_1"; ce_CreatedAt := "1970-01-01T00:00:00Z"; ce_Receipt := {| sr_Record := "HOOK"; sr_Revision := 7 |} |} ∧ w.2.2 = 1%nat.
Proof. vm_compute. split; [by eexists|done]. Qed.

End StripeDemo.
