(* ===== verification/Setup.v ===== *)
(** The setup of a device: internal/setup/setup.go, the plan, and cmd/envbank/setup_apply.go,
    which makes what the owner confirms.  Both are programs over the file system, which may
    change between any two calls, over the owner, the service manager and the calls of the
    commands on a vault. *)
From S2P Require Import Prelude Timestamp Text Secure Protocol Envelope VaultObject Client Manifest LocalConfig Origin Recovery Filepath Commands.
From S2P Require Export Program.
From stdpp Require Import options.

Definition SyncLocalServer : string := "local_server".
Definition SyncHosted : string := "hosted".
Definition SyncLocalOnly : string := "local_only".
Definition LayoutVersion : string := "envbank.layout/v1".
Definition DefaultListen : string := "127.0.0.1:7337".

Record Layout := {
  ly_V : string; ly_Sync : string; ly_ServerURL : string; ly_Listen : string; ly_VaultName : string; ly_DeviceName : string;
  ly_ConfigPath : string; ly_ConfigVolumeUUID : string; ly_VaultDir : string; ly_VaultVolumeUUID : string;
  ly_BackupDir : string; ly_BackupVolumeUUID : string;
}.
Record Step := { st_ID : string; st_Description : string; st_OwnerSecret : bool; st_Persistent : bool }.
Record Plan := { pl_Layout : Layout; pl_Steps : list Step; pl_Warnings : list string }.
Record Volume := { vl_UUID : string; vl_Name : string; vl_OwnersEnabled : bool; vl_Internal : bool; vl_Writable : bool }.
Record Request := {
  rq_Sync : string; rq_ServerURL : string; rq_Listen : string; rq_VaultName : string; rq_DeviceName : string;
  rq_ConfigPath : string; rq_VaultDir : string; rq_BackupDir : string;
}.

(** [os.Lstat]: the kind, the permission bits, whether the owner is this user, and the group. *)
Record Info := { in_Dir : bool; in_Symlink : bool; in_Perm : Z; in_Mine : bool; in_Group : Z }.

Module Call.
Inductive call : Type → Type :=
| Lstat (path : string) : call (option Info)
| VolumeOf (path : string) : call (option Volume)
| MkdirAll (path : string) (mode : Z) : call bool
| Chmod (path : string) (mode : Z) : call bool
| WriteFile (path contents : string) (mode : Z) : call bool
| Rename (from to : string) : call bool
| ConfirmPlan (title : string) (lines : list string) : call (option bool)
| Cancelled : call bool
| NewPassphrase (title : string) (minBytes : Z) (differentFrom : string) : call (option string)
| Notify (line : string) : call unit
| Healthy (url : string) : call bool
| Install (layout : Layout) : call bool
| Now : call Z
| Sleep (duration : Z) : call unit
| ListObjects (u : Unlocked) (vaultKey : string) : call (result (list VaultObject))
| WriteArtifact (path sealed : string) : call bool
| Command {X} (c : Commands.call X) : call X.
End Call.
Abbreviation call := Call.call.

(** ** The plan *)

Definition is_alnum (c : ascii) : bool := is_digit c || is_lower c || is_upper c.
(** Every byte of another rune is refused, so that bytes may be tested. *)
Definition validLabel (s : string) : bool :=
  nonempty s && (slen s <=? 64) && all_bytes (λ c, is_alnum c || contains_byte c "-_.") s.

Fixpoint port_number (n : Z) (port : string) : Z := match port with String c port => port_number (n * 10 + (code c - 48)) port | EmptyString => n end.
Definition loopbackListen (s : string) : bool :=
  let port := drop_bytes 10 s in
  has_prefix "127.0.0.1:" s && nonempty port && (slen port <=? 5) && all_bytes is_digit port &&
  (1024 <=? port_number 0 port) && (port_number 0 port <=? 65535).

Definition ancestorSafe (info : Info) : bool :=
  (Z.land (in_Perm info) 2 =? 0) && ((Z.land (in_Perm info) 16 =? 0) || (in_Group info =? 0)).

Definition trim_slashes (s : string) : string := trim_right (Ascii.eqb slash) s.

Abbreviation planner A := (flow call (result A) (result A)).
(** [return ..., refuse(reason)] *)
Definition refuse {R A} (reason : string) : flow call (result R) A := Exit (Err reason).
Definition refuse_if {R} (c : bool) (reason : string) : flow call (result R) unit := if c then refuse reason else mret tt.
(** [if err != nil { return ..., err }] *)
Definition checked {R A} (p : planner A) : flow call (result R) A :=
  r ← enter p; match (r : result A) with Ok a => mret a | Err reason => refuse reason end.

(** The nearest path upwards that exists. *)
Fixpoint nearest {R} (rounds : nat) (existing : string) : flow call (result R) string :=
  match rounds with
  | O => refuse "out of rounds"
  | S rounds =>
      info ← ask (Call.Lstat existing);
      match (info : option Info) with
      | Some _ => mret existing
      | None =>
          let parent := Dir existing in
          if String.eqb parent existing then refuse "no existing parent directory" else nearest rounds parent
      end
  end.

Definition noSymlinks (path : string) : planner unit :=
  _ ← for_each (λ part cur,
        if negb (nonempty part) then mret cur
        else
          let cur := Join cur part in
          info ← ask (Call.Lstat cur);
          match (info : option Info) with
          | None => refuse "path could not be inspected"
          | Some info => _ ← refuse_if (in_Symlink info) "paths must not pass through symlinks"; mret cur
          end)
      (split_on slash (if IsAbs path then drop_bytes 1 path else path)) "/";
  mret (Ok tt).

Definition checkedPath (path : string) (fileTarget : bool) : planner (string * Volume) :=
  _ ← refuse_if (negb (nonempty path) || negb (IsAbs path) || negb (String.eqb (Clean path) path) ||
        contains_byte "000" path || contains_byte "010" path || contains_byte "013" path) "paths must be absolute and normalized";
  existing ← nearest (S (List.length (elements path))) path;
  _ ← checked (noSymlinks existing);
  vol ← ask (Call.VolumeOf existing);
  match (vol : option Volume) with
  | None => refuse "volume could not be inspected"
  | Some vol =>
      _ ← refuse_if (negb (vl_OwnersEnabled vol)) ("volume " +:+ vl_Name vol +:+ " does not enforce file ownership");
      _ ← refuse_if (negb (vl_Writable vol) || negb (nonempty (vl_UUID vol))) ("volume " +:+ vl_Name vol +:+ " is not writable or has no UUID");
      _ ← (if negb (String.eqb existing path) then
             info ← ask (Call.Lstat existing);
             refuse_if (negb match (info : option Info) with Some info => in_Dir info && ancestorSafe info | None => false end)
               "the nearest existing parent directory must not be writable by others"
           else
             info ← ask (Call.Lstat path);
             match (info : option Info) with
             | None => refuse "path could not be inspected"
             | Some info =>
                 _ ← refuse_if fileTarget "config_path already exists: this device is already set up";
                 refuse_if (negb (in_Dir info) || negb (Z.land (in_Perm info) 63 =? 0) || negb (in_Mine info))
                   "existing directory must be a private (0700) directory owned by you"
             end);
      mret (Ok (path, vol))
  end.

Definition plain_step (id description : string) : Step := {| st_ID := id; st_Description := description; st_OwnerSecret := false; st_Persistent := false |}.
Definition secret_step (id description : string) : Step := {| st_ID := id; st_Description := description; st_OwnerSecret := true; st_Persistent := false |}.

Definition stepsFor (l : Layout) : list Step :=
  (if String.eqb (ly_Sync l) SyncLocalServer then
     [plain_step "prepare_vault_dir" ("create the private (0700) vault directory " +:+ ly_VaultDir l);
      {| st_ID := "install_service"; st_Description := "install and start a launchd user agent running `envbank serve` on " +:+ ly_Listen l +:+
           " with its database in the vault directory (skipped if an EnvBank server already answers there)"; st_OwnerSecret := false; st_Persistent := true |}]
   else []) ++
  [plain_step "prepare_backup_dir" ("create the private (0700) backup directory " +:+ ly_BackupDir l);
   secret_step "create_vault" ("create vault " +:+ ly_VaultName l +:+ " and this device's identity at " +:+ ly_ConfigPath l);
   secret_step "recovery_export" ("write a recovery artifact sealed with a separate recovery passphrase to " +:+ ly_BackupDir l);
   plain_step "write_layout" "record this non-secret layout next to the device identity"].

(** The address of the service: [server_url] and [listen]. *)
Definition service_of (req : Request) : result (string * string) :=
  if String.eqb (rq_Sync req) SyncLocalServer then
    let listen := if nonempty (rq_Listen req) then rq_Listen req else DefaultListen in
    _ ← reject_if (negb (loopbackListen listen)) "local_server mode listens on loopback only (127.0.0.1:PORT)";
    _ ← reject_if (nonempty (rq_ServerURL req) && negb (String.eqb (rq_ServerURL req) ("http://" +:+ listen)))
          "local_server mode serves on its listen address; omit server_url";
    Ok ("http://" +:+ listen, listen)
  else if String.eqb (rq_Sync req) SyncHosted then
    _ ← reject_if (negb (has_prefix "https://" (rq_ServerURL req)) || contains_byte " " (rq_ServerURL req) ||
          contains_byte "009" (rq_ServerURL req) || contains_byte "010" (rq_ServerURL req)) "hosted mode requires the https:// URL of your EnvBank service";
    _ ← reject_if (nonempty (rq_VaultDir req)) "hosted mode keeps vault ciphertext on the service; vault_dir is not used";
    Ok (trim_slashes (rq_ServerURL req), "")
  else if String.eqb (rq_Sync req) SyncLocalOnly then Err "local_only mode is not available yet (it needs the desktop-host local vault adapter)"
  else Err "sync must be local_server, hosted or local_only".

(** [PlanFor] from the backup directory on: the address of the service, the identity with its
    volume, and the directory of the vault with its volume and warning. *)
Definition plan_backup (req : Request) (serverURL listen cfg : string) (cfgVol : Volume) (vaultDir vaultUUID : string) (warnings : list string) : planner Plan :=
  '(backup, bvol) ← checked (checkedPath (rq_BackupDir req) false);
  _ ← refuse_if (nonempty vaultUUID && String.eqb (vl_UUID bvol) vaultUUID) "backup_dir must be on a different volume than vault_dir";
  let layout := {| ly_V := LayoutVersion; ly_Sync := rq_Sync req; ly_ServerURL := serverURL; ly_Listen := listen; ly_VaultName := rq_VaultName req;
    ly_DeviceName := rq_DeviceName req; ly_ConfigPath := cfg; ly_ConfigVolumeUUID := vl_UUID cfgVol; ly_VaultDir := vaultDir;
    ly_VaultVolumeUUID := vaultUUID; ly_BackupDir := backup; ly_BackupVolumeUUID := vl_UUID bvol |} in
  mret (Ok {| pl_Layout := layout; pl_Steps := stepsFor layout;
    pl_Warnings := warnings ++ (if String.eqb (vl_UUID bvol) (vl_UUID cfgVol)
      then ["backup_dir is on the same volume as the device identity; the split layout keeps them apart"] else []) |}).

Definition PlanFor (req : Request) : planner Plan :=
  _ ← refuse_if (negb (validLabel (rq_VaultName req)) || negb (validLabel (rq_DeviceName req)))
        "vault_name and device_name must be 1-64 letters, digits, '-', '_' or '.'";
  '(serverURL, listen) ← checked (mret (service_of req));
  '(cfg, cfgVol) ← checked (checkedPath (rq_ConfigPath req) true);
  _ ← refuse_if (negb (vl_Internal cfgVol)) "config_path (device identity) must be on an internal volume";
  if String.eqb (rq_Sync req) SyncLocalServer then
    '(dir, vol) ← checked (checkedPath (rq_VaultDir req) false);
    plan_backup req serverURL listen cfg cfgVol dir (vl_UUID vol) (if String.eqb (vl_UUID vol) (vl_UUID cfgVol)
      then ["vault_dir is on the same volume as the device identity; the split layout keeps them apart"] else [])
  else plan_backup req serverURL listen cfg cfgVol "" "" [].

(** ** Checks before a write *)

Definition Recheck (path wantUUID : string) (fileTarget : bool) : planner unit :=
  '(_, vol) ← checked (checkedPath path fileTarget);
  _ ← refuse_if (negb (String.eqb (vl_UUID vol) wantUUID)) "the volume changed since the plan was approved";
  mret (Ok tt).

Definition OnVolume (dir wantUUID : string) : planner unit :=
  vol ← ask (Call.VolumeOf dir);
  _ ← refuse_if (negb match (vol : option Volume) with Some vol => String.eqb (vl_UUID vol) wantUUID && vl_OwnersEnabled vol | None => false end)
        "the created directory is not on the approved volume";
  mret (Ok tt).

Definition MkdirPrivate (dir : string) : planner unit :=
  made ← ask (Call.MkdirAll dir 448);
  _ ← refuse_if (negb made) "mkdir";
  changed ← ask (Call.Chmod dir 448);
  _ ← refuse_if (negb changed) "chmod";
  info ← ask (Call.Lstat dir);
  _ ← refuse_if (negb match (info : option Info) with Some info => in_Dir info && negb (in_Symlink info) && in_Mine info | None => false end)
        "directory is not a private directory owned by this user";
  noSymlinks dir.

(** ** Applying *)

(** Of the request, strictly decoded, with whether nothing follows; and the layout, indented. *)
Class SetupCodec := { setup_of_json : string → option (Request * bool); layout_json : Layout → string }.

(** The vault that was made: the client and its key. *)
Definition Made : Type := Unlocked * string.
(** What [Apply] returns: the vault, the steps that are done, and the code of a refusal. *)
Definition Applied : Type := option Made * list string * option string.

Abbreviation stepping A := (flow call (A + string) (A + string)).
Definition stop_with {A B} (code : string) : flow call (A + string) B := Exit (inr code).
Definition stop_if {A} (c : bool) (code : string) : flow call (A + string) unit := if c then stop_with code else mret tt.
(** [if f(...) != nil { return refusal }] *)
Definition or_stop {A B} (code : string) (p : planner B) : flow call (A + string) B :=
  r ← enter p; match (r : result B) with Ok b => mret b | Err _ => stop_with code end.
(** [if err := f(...); err != nil { return err }] *)
Definition passing {A B} (p : stepping B) : flow call (A + string) B :=
  r ← enter p; match (r : B + string) with inl b => mret b | inr code => stop_with code end.

Definition CodeDeniedSetup : string := "DENIED_BY_OWNER".
Definition minPassphrase : Z := 12.

Definition plan_lines (p : Plan) : list string :=
  let l := pl_Layout p in
  ["An agent asked to set up EnvBank on this device:"; "sync: " +:+ ly_Sync l +:+ "  server: " +:+ ly_ServerURL l; "device identity: " +:+ ly_ConfigPath l] ++
  (if nonempty (ly_VaultDir l) then ["vault data: " +:+ ly_VaultDir l +:+ " (volume " +:+ ly_VaultVolumeUUID l +:+ ")"] else []) ++
  ["recovery backups: " +:+ ly_BackupDir l +:+ " (volume " +:+ ly_BackupVolumeUUID l +:+ ")"; "steps:"] ++
  imap (λ i s, "  " +:+ Itoa (Z.of_nat i + 1) +:+ ". " +:+ st_Description s +:+
    (if st_OwnerSecret s then "  [you will type a secret here]" else if st_Persistent s then "  [persistent]" else "")) (pl_Steps p) ++
  ((λ w, "WARNING: " +:+ w) <$> pl_Warnings p).

(** [layoutPath] and [writePrivateFile] *)
Definition layoutPath (configPath : string) : string := Join (Dir configPath) "layout.json".
Definition writePrivateFile (path contents : string) : flow call bool bool :=
  made ← ask (Call.MkdirAll (Dir path) 448);
  if negb made then mret false
  else
    written ← ask (Call.WriteFile (path +:+ ".tmp") contents 384);
    if negb written then mret false
    else
      renamed ← ask (Call.Rename (path +:+ ".tmp") path);
      if negb renamed then mret false else ask (Call.Chmod path 384).

(** The time as [20060102T150405Z]. *)
Definition compact_time (t : Z) : string := replace_byte ":" "" (replace_byte "-" "" (format_rfc3339 t)).
Definition artifact_name (vault : string) (t : Z) : string := "envbank-recovery-" +:+ vault +:+ "-" +:+ compact_time t +:+ ".ebr".

Section Apply.
Context {crypto : Crypto} {cipher : Cipher} {codec : LocalCodec} {kdf : KeyDerivation} {records : RecordCodec}.
Context {objects : ObjectCodec} {recovery : RecoveryCodec} {access_codec : AccessCodec} {urls : URLs} {hosts : Hosts} {setups : SetupCodec}.
(** [allowExistingServer], and how often the service is asked whether it is healthy. *)
Context (allowExistingServer : bool) (patience : nat).

Definition recheck (dir uuid : string) : stepping unit :=
  if negb (nonempty dir) then mret (inl tt)
  else
    info ← ask (Call.Lstat dir);
    _ ← or_stop "SETUP_VOLUME_CHANGED" (match (info : option Info) with Some _ => OnVolume dir uuid | None => Recheck dir uuid false end);
    mret (inl tt).

Definition mkdir (dir uuid : string) : stepping unit :=
  _ ← passing (recheck dir uuid);
  _ ← or_stop "SETUP_DIR_FAILED" (MkdirPrivate dir);
  _ ← or_stop "SETUP_VOLUME_CHANGED" (OnVolume dir uuid);
  mret (inl tt).

(** [step]: what is done so far, and the vault that is returned with it. *)
Definition step {A} (vault : option Made) (done : list string) (id : string) (p : stepping A) : flow call Applied (A * list string) :=
  r ← enter p;
  match (r : A + string) with
  | inr code => _ ← ask (Call.Notify ("setup step failed: " +:+ id)); Exit (vault, done, Some code)
  | inl a => _ ← ask (Call.Notify ("done: " +:+ id)); mret (a, done ++ [id])
  end.

(** The wait for the service, of which the rounds are bounded by [patience]. *)
Fixpoint wait_healthy (rounds : nat) (url : string) (deadline : Z) : stepping unit :=
  match rounds with
  | O => stop_with "out of rounds"
  | S rounds =>
      healthy ← ask (Call.Healthy url);
      if (healthy : bool) then mret (inl tt)
      else
        now ← ask Call.Now;
        _ ← stop_if (deadline <? now) "SETUP_SERVICE_UNHEALTHY";
        _ ← ask (Call.Sleep 250000000);
        wait_healthy rounds url deadline
  end.

Definition reuse_lines (url : string) : list string :=
  ["A server already answers at " +:+ url +:+ ".";
   "Reuse it only if YOU started it. The vault will be stored wherever that server keeps its database, not necessarily in the vault directory above."].

Definition install_service (l : Layout) : stepping unit :=
  healthy ← ask (Call.Healthy (ly_ServerURL l));
  if (healthy : bool) then
    if negb allowExistingServer then
      _ ← ask (Call.Notify ("refused: something already answers at " +:+ ly_ServerURL l +:+
        " (restart the broker with --use-existing-server to reuse a server you started)"));
      stop_with "SETUP_PORT_IN_USE"
    else
      answer ← ask (Call.ConfirmPlan "Reuse running EnvBank server" (reuse_lines (ly_ServerURL l)));
      _ ← stop_if (negb (default false (answer : option bool))) CodeDeniedSetup;
      mret (inl tt)
  else
    installed ← ask (Call.Install l);
    _ ← stop_if (negb installed) "SETUP_SERVICE_FAILED";
    now ← ask Call.Now;
    wait_healthy patience (ly_ServerURL l) (now + 20000000000).

Definition create_vault (l : Layout) : stepping (Made * string) :=
  answer ← ask (Call.NewPassphrase ("New vault passphrase for " +:+ ly_VaultName l) minPassphrase "");
  match (answer : option string) with
  | None => stop_with CodeDeniedSetup
  | Some passphrase =>
      _ ← or_stop "SETUP_VOLUME_CHANGED" (Recheck (ly_ConfigPath l) (ly_ConfigVolumeUUID l) true);
      let cfgDir := Dir (ly_ConfigPath l) in
      info ← ask (Call.Lstat cfgDir);
      _ ← match (info : option Info) with
          | Some _ => mret tt
          | None =>
              r ← enter (mkdir cfgDir (ly_ConfigVolumeUUID l));
              match (r : unit + string) with inl _ => mret tt | inr _ => stop_with "SETUP_CONFIG_DIR_FAILED" end
          end;
      made ← attempt (lift (@Call.Command) (createVaultDevice (ly_ServerURL l) (ly_VaultName l) (ly_DeviceName l) passphrase None (ly_ConfigPath l)));
      match (made : Unlocked * string * string * string + command_end) with
      | inr _ => stop_with "SETUP_CREATE_VAULT_FAILED"
      | inl (u, vaultKey, _, fingerprint) =>
          _ ← ask (Call.Notify ("device fingerprint " +:+ fingerprint));
          mret (inl ((u, vaultKey), passphrase))
      end
  end.

Definition recovery_export (l : Layout) (vault : Made) (passphrase : string) : stepping unit :=
  let '(u, vaultKey) := vault in
  answer ← ask (Call.NewPassphrase "Recovery passphrase (store it separately; it must differ from the vault passphrase)" minPassphrase passphrase);
  match (answer : option string) with
  | None => stop_with "SETUP_RECOVERY_SKIPPED"
  | Some rp =>
      _ ← passing (recheck (ly_BackupDir l) (ly_BackupVolumeUUID l));
      objects ← ask (Call.ListObjects u vaultKey);
      match (objects : result (list VaultObject)) with
      | Err _ => stop_with "SETUP_RECOVERY_FAILED"
      | Ok objects =>
          listed ← attempt (lift (@Call.Command) (list_records u vaultKey));
          match (listed : list SecretRecord + command_end) with
          | inr _ => stop_with "SETUP_RECOVERY_FAILED"
          | inl l' =>
              salt ← ask (Call.Command (Commands.Call.Random 16));
              nonce ← ask (Call.Command (Commands.Call.Random gcm_NonceSize));
              match SealSnapshot salt nonce {| rv_Records := l'; rv_Objects := objects |} rp with
              | Err _ => stop_with "SETUP_RECOVERY_FAILED"
              | Ok sealed =>
                  now ← ask Call.Now;
                  written ← ask (Call.WriteArtifact (Join (ly_BackupDir l) (artifact_name (ly_VaultName l) now)) sealed);
                  _ ← stop_if (negb written) "SETUP_RECOVERY_FAILED";
                  mret (inl tt)
              end
          end
      end
  end.

Definition write_layout (l : Layout) : stepping unit :=
  written ← enter (writePrivateFile (layoutPath (ly_ConfigPath l)) (layout_json l +:+ newline));
  _ ← stop_if (negb written) "SETUP_LAYOUT_FAILED";
  mret (inl tt).

(** The request as it was decoded, and its plan. *)
Definition replan (raw : string) : flow call Applied Plan :=
  match setup_of_json raw with
  | Some (req, true) =>
      planned ← enter (PlanFor req);
      match (planned : result Plan) with
      | Ok plan => mret plan
      | Err reason => _ ← ask (Call.Notify ("setup refused: " +:+ reason)); Exit (None, [], Some "SETUP_PLAN_REFUSED")
      end
  | _ => Exit (None, [], Some "INVALID_SETUP_REQUEST")
  end.

Definition Apply (raw : string) : flow call Applied Applied :=
  plan ← replan raw;
  let l := pl_Layout plan in
  _ ← (if negb (String.eqb (ly_Sync l) SyncLocalServer) && negb (String.eqb (ly_Sync l) SyncHosted)
       then Exit (None, [], Some "SETUP_MODE_UNAVAILABLE") else mret tt);
  answer ← ask (Call.ConfirmPlan "EnvBank setup request" (plan_lines plan));
  _ ← (if default false (answer : option bool) then
         cancelled ← ask Call.Cancelled;
         if (cancelled : bool) then Exit (None, [], Some CodeDeniedSetup) else mret tt
       else Exit (None, [], Some CodeDeniedSetup));
  done ← (if String.eqb (ly_Sync l) SyncLocalServer then
            '(_, done) ← step None [] "prepare_vault_dir" (mkdir (ly_VaultDir l) (ly_VaultVolumeUUID l));
            '(_, done) ← step None done "install_service" (install_service l);
            mret done
          else mret []);
  '(_, done) ← step None (done : list string) "prepare_backup_dir" (mkdir (ly_BackupDir l) (ly_BackupVolumeUUID l));
  '(vault, passphrase, done) ← step None done "create_vault" (create_vault l);
  '(_, done) ← step (Some vault) done "recovery_export" (recovery_export l vault passphrase);
  '(_, done) ← step (Some vault) done "write_layout" (write_layout l);
  mret (Some vault, done, None).
End Apply.
