(* ===== verification/SetupSafety.v ===== *)
(** What a setup does, whatever the file system, the volumes, the owner and the service
    answer, and however they change between two calls. *)
From S2P Require Import Prelude Timestamp Text Secure Protocol Envelope VaultObject Client Manifest LocalConfig Origin Recovery Filepath Commands CommandsSafety Setup.
From stdpp Require Import options.

(** ** What was seen *)

Abbreviation history := (Program.history call).

(** An event between two histories. *)
Definition fresh (past past' : history) (e : event call) : Prop := ∃ new, past' = new ++ past ∧ e ∈ new.

Lemma fresh_later past past' past'' e : fresh past past' e → past' `suffix_of` past'' → fresh past past'' e.
Proof. intros (new&->&He) [more ->]. exists (more ++ new). rewrite (assoc_L app). split; [done|]. apply elem_of_app. by right. Qed.
Lemma fresh_earlier past past' past'' e : fresh past' past'' e → past `suffix_of` past' → fresh past past'' e.
Proof. intros (new&->&He) [more ->]. exists (new ++ more). rewrite (assoc_L app). split; [done|]. apply elem_of_app. by left. Qed.
Lemma fresh_now past past' e : past `suffix_of` past' → fresh past (e :: past') e.
Proof. intros [new ->]. exists (e :: new). split; [done|by left]. Qed.
Lemma fresh_elem past past' e : fresh past past' e → e ∈ past'.
Proof. intros (new&->&He). apply elem_of_app. by left. Qed.
Lemma suffix_step (e : event call) past past' : past `suffix_of` past' → past `suffix_of` e :: past'.
Proof. apply suffix_cons_r. Qed.
#[local] Hint Extern 0 (_ `suffix_of` _) => reflexivity : core.
#[local] Hint Resolve suffix_step : core.

Lemma prefix_snoc_inv {A} (l l' : list A) x : l' `prefix_of` l ++ [x] → l' `prefix_of` l ∨ l' = l ++ [x].
Proof.
  intros [k E]. destruct k as [|y k _] using rev_ind; [right; by rewrite app_nil_r in E|]. left.
  rewrite (assoc_L app) in E. apply app_inj_tail in E as [-> _]. by exists k.
Qed.

(** A path as [checkedPath] accepts it, by what [seen] has: clean, below real directories
    only, on a volume that enforces ownership, and itself a private directory, or not there
    and below a directory that others do not write. *)
Definition located (seen : event call → Prop) (path : string) (fileTarget : bool) (vol : Volume) : Prop :=
  IsAbs path = true ∧ Clean path = path ∧ vl_OwnersEnabled vol = true ∧ vl_Writable vol = true ∧ vl_UUID vol ≠ "" ∧
  ∃ existing, existing `prefix_of` elements path ∧ seen (Event (Call.VolumeOf (path_of existing)) (Some vol)) ∧
    (∀ l, l ≠ [] → l `prefix_of` existing → ∃ info, seen (Event (Call.Lstat (path_of l)) (Some info)) ∧ in_Symlink info = false) ∧
    (existing = elements path → fileTarget = false ∧ ∃ info, seen (Event (Call.Lstat path) (Some info)) ∧ in_Dir info = true ∧
       Z.land (in_Perm info) 63 = 0 ∧ in_Mine info = true) ∧
    (existing ≠ elements path → seen (Event (Call.Lstat path) None) ∧ ∃ info, seen (Event (Call.Lstat (path_of existing)) (Some info)) ∧
       in_Dir info = true ∧ ancestorSafe info = true).

Lemma located_mono (seen seen' : event call → Prop) path ft vol : (∀ e, seen e → seen' e) → located seen path ft vol → located seen' path ft vol.
Proof.
  intros H (Ha&Hc&Ho&Hw&Hu&existing&Hp&Hv&Hl&He&Hn). split_and!; try done. exists existing. split_and!; [done|by apply H| | |].
  - intros l Hl0 Hpl. destruct (Hl l Hl0 Hpl) as (info&?&?). exists info. by split; [apply H|].
  - intros E. destruct (He E) as (?&info&?&?). split; [done|]. exists info. by split; [apply H|].
  - intros E. destruct (Hn E) as (?&info&?&?). split; [by apply H|]. exists info. by split; [apply H|].
Qed.

(** ** Planning

    Planning asks for nothing but facts, in programs of any guard that lets it. *)

Section Planning.
Context (G : history → ∀ X, call X → Prop).
Context (facts : ∀ past path, G past _ (Call.Lstat path) ∧ G past _ (Call.VolumeOf path)).

(** An error of the code. *)
Definition a_reason {A} (r : result A) : Prop := match r with Err reason => reason ≠ "out of rounds" | Ok _ => False end.

Lemma wp_refuse_if {R B} past b reason (f : unit → flow call (result R) B) Ret Q :
  (b = false → wp G (f tt) past Ret Q) → (b = true → Ret past (Err reason)) → wp G (x ← refuse_if b reason; f x) past Ret Q.
Proof. destruct b; cbn; auto. Qed.

Lemma wp_checked {R A B} (p : planner A) (f : A → flow call (result R) B) past Ret Q (P : history → result A → Prop) :
  wp G p past P P → (∀ past' a, P past' (Ok a) → wp G (f a) past' Ret Q) → (∀ past' e, P past' (Err e) → Ret past' (Err e)) →
  wp G (a ← checked p; f a) past Ret Q.
Proof.
  intros Hp Hf He. apply wp_bind. unfold checked. apply (wp_call _ _ _ _ _ _ P); [done|]. intros past' [a|e] H; [by apply Hf|by apply He].
Qed.

Lemma wp_nearest {R} start l0 (Ret : history → result R → Prop) Q : Forall plain_element l0 →
  (∀ past r, start `suffix_of` past → a_reason r → Ret past r) →
  (∀ past l info, start `suffix_of` past → l `prefix_of` l0 → fresh start past (Event (Call.Lstat (path_of l)) (Some info)) →
     (l ≠ l0 → fresh start past (Event (Call.Lstat (path_of l0)) None)) → Q past (path_of l)) →
  ∀ rounds l past, (length l < rounds)%nat → l `prefix_of` l0 → start `suffix_of` past →
    (l ≠ l0 → fresh start past (Event (Call.Lstat (path_of l0)) None)) → wp G (nearest rounds (path_of l)) past Ret Q.
Proof using facts.
  intros Hplain HRet HQ. induction rounds as [|rounds IH]; intros l past Hlen Hl Hs Hn; [lia|]. cbn [nearest].
  apply wp_ask; [apply facts|]. intros [info|].
  - eapply HQ; [by apply suffix_step|done|by apply fresh_now|]. intros E. eapply fresh_later; [by apply Hn|auto].
  - assert (Hn' : fresh start (Event (Call.Lstat (path_of l)) None :: past) (Event (Call.Lstat (path_of l0)) None)).
    { destruct (decide (l = l0)) as [->|E]; [by apply fresh_now|]. eapply fresh_later; [by apply Hn|auto]. }
    destruct l as [|e l _] using rev_ind; [rewrite Dir_root, String.eqb_refl; by apply HRet; [apply suffix_step|]|].
    assert (Hpl : Forall plain_element (l ++ [e])).
    { destruct Hl as [k Ek]. rewrite Ek in Hplain. by apply Forall_app in Hplain as [? _]. }
    apply Forall_app in Hpl as [Hpl He]. inversion He; subst. rewrite Dir_path by done.
    destruct (String.eqb _ _); [by apply HRet; [apply suffix_step|]|]. rewrite length_app in Hlen. cbn in Hlen.
    apply IH; [lia|by etransitivity; [apply prefix_app_r|]|by apply suffix_step|done].
Qed.

Lemma wp_noSymlinks start l past Q : Forall plain_element l → start `suffix_of` past →
  (∀ past' r, past `suffix_of` past' → a_reason r → Q past' r) →
  (∀ past', past `suffix_of` past' → (∀ l', l' ≠ [] → l' `prefix_of` l → ∃ info, fresh start past' (Event (Call.Lstat (path_of l')) (Some info)) ∧ in_Symlink info = false) →
     Q past' (Ok tt)) → wp G (noSymlinks (path_of l)) past Q Q.
Proof using facts.
  intros Hl Hs HE HQ. unfold noSymlinks. apply wp_bind. change (IsAbs (path_of l)) with true. cbv iota. change (drop_bytes 1 (path_of l)) with (join_elements l).
  destruct l as [|x l0] eqn:El; [cbn; apply HQ; [done|]; intros l' Hne Hp%prefix_nil_inv; done|]. rewrite <-El in *.
  rewrite split_on_join by (done || by subst).
  apply (wp_for_each _ _ _ _ _ _ _ (λ rest past' cur, past `suffix_of` past' ∧ ∃ before, l = before ++ rest ∧ cur = path_of before ∧
    ∀ l', l' ≠ [] → l' `prefix_of` before → ∃ info, fresh start past' (Event (Call.Lstat (path_of l')) (Some info)) ∧ in_Symlink info = false)).
  - split; [done|]. exists []. split_and!; [done..|]. by intros l' Hne Hp%prefix_nil_inv.
  - intros past' cur item rest [Hs' (before&Eb&->&Hb)]. rewrite Eb in Hl. apply Forall_app in Hl as [Hpb Hpr]. apply Forall_cons in Hpr as [Hi Hpr].
    assert (Hne : nonempty item = true) by (destruct Hi as (?&_); by destruct item). rewrite Hne. cbn [negb]. rewrite Join_path by done.
    apply wp_ask; [apply facts|]. intros [info|]; [|by apply HE; [apply suffix_step|]].
    apply wp_refuse_if; [|intros _; by apply HE; [apply suffix_step|]]. intros Hsym. cbn. split; [by apply suffix_step|].
    exists (before ++ [item]). rewrite <-(assoc_L app). split_and!; [done..|]. intros l' Hne' Hp. apply prefix_snoc_inv in Hp as [Hp| ->].
    + destruct (Hb l' Hne' Hp) as (i&?&?). exists i. split; [|done]. eapply fresh_later; [done|auto].
    + exists info. split; [|done]. apply fresh_now. by etransitivity.
  - intros past' cur [Hs' (before&Eb&->&Hb)]. rewrite app_nil_r in Eb. subst before. by apply HQ.
Qed.
Lemma wp_checkedPath path ft past Q :
  (∀ past' r, past `suffix_of` past' → a_reason r → Q past' r) →
  (∀ past' vol, past `suffix_of` past' → located (fresh past past') path ft vol → Q past' (Ok (path, vol))) →
  wp G (checkedPath path ft) past Q Q.
Proof using facts.
  intros HE HQ. unfold checkedPath. apply wp_refuse_if; [|intros _; by apply HE]. rewrite !orb_false_iff. intros (((((_&Ha)&Hc)&_)&_)&_).
  apply negb_false_iff in Ha, Hc. apply String.eqb_eq in Hc. destruct (clean_is_path path Ha Hc) as [Epath Hplain].
  set (l0 := elements path) in *. rewrite Epath at 1. apply wp_bind. apply (wp_nearest past l0); [done|done| |lia|done|done|done].
  intros past1 l info Hs1 Hl Hseen Hmissing. assert (Hpl : Forall plain_element l) by (destruct Hl as [k Ek]; rewrite Ek in Hplain; by apply Forall_app in Hplain as [? _]).
  set (links := λ past', ∀ l', l' ≠ [] → l' `prefix_of` l → ∃ info, fresh past past' (Event (Call.Lstat (path_of l')) (Some info)) ∧ in_Symlink info = false).
  apply (wp_checked _ _ _ _ _ (λ past' r, past1 `suffix_of` past' ∧ match r with Ok _ => links past' | Err _ => a_reason r end)).
  { apply (wp_noSymlinks past); [done|done|intros past' [a|e]; cbn; intros; [done|by split]|by intros past' Hs' Hl']. }
  2: { intros past' e [Hs He]. apply HE; [by etransitivity|done]. }
  intros past2 _ [Hs2 Hlinks]. assert (S2 : past `suffix_of` past2) by by etransitivity. apply wp_ask; [apply facts|].
  intros [vol|]; [|apply HE; [by apply suffix_step|done]]. set (past3 := Event _ _ :: past2). assert (S3 : past2 `suffix_of` past3) by by apply suffix_step.
  assert (E3 : ∀ r : result (string * Volume), a_reason r → Q past3 r) by (intros r Hr; apply HE; [by apply suffix_step|done]).
  assert (Hname : ∀ b, "volume " +:+ vl_Name vol +:+ b ≠ "out of rounds") by done.
  apply wp_refuse_if; [intros Ho%negb_false_iff|intros _; by apply E3]. apply wp_refuse_if; [|intros _; by apply E3].
  rewrite orb_false_iff. intros [Hw%negb_false_iff Hu%negb_false_iff].
  assert (Hloc : ∀ past', past3 `suffix_of` past' →
    (l = l0 → ft = false ∧ ∃ info, fresh past past' (Event (Call.Lstat path) (Some info)) ∧ in_Dir info = true ∧ Z.land (in_Perm info) 63 = 0 ∧ in_Mine info = true) →
    (l ≠ l0 → ∃ info, fresh past past' (Event (Call.Lstat (path_of l)) (Some info)) ∧ in_Dir info = true ∧ ancestorSafe info = true) → Q past' (Ok (path, vol))).
  { intros past' S' Hsame Hless. assert (S23 : past2 `suffix_of` past') by by etransitivity. apply HQ; [by etransitivity|].
    split_and!; [done..|by intros E; rewrite E in Hu|]. exists l. split_and!; [done| | |done|].
    - eapply fresh_later; [by apply fresh_now|done].
    - intros l' Hne Hp. destruct (Hlinks l' Hne Hp) as (i&?&?). exists i. split; [by eapply fresh_later|done].
    - intros Hne. split; [|by apply Hless]. rewrite Epath. eapply fresh_later; [by apply Hmissing|]. by etransitivity. }
  apply wp_bind. destruct (String.eqb_spec (path_of l) path) as [El|El]; cbn [negb].
  - apply wp_ask; [apply facts|]. intros [i|]; [|apply HE; [do 2 apply suffix_step; done|done]].
    apply wp_refuse_if; [intros ->|intros _; apply HE; [do 2 apply suffix_step; done|done]].
    unfold refuse_if. destruct (_ || _) eqn:Eb; [apply HE; [do 2 apply suffix_step; done|done]|]. apply orb_false_iff in Eb as [[Hd%negb_false_iff Hperm%negb_false_iff]%orb_false_iff Hmine%negb_false_iff].
    apply Hloc; [by apply suffix_step| |].
    + intros _. split; [done|]. exists i. apply Z.eqb_eq in Hperm. split; [|done]. apply fresh_now. by apply suffix_step.
    + intros []. apply (f_equal elements) in El. by rewrite elements_path in El.
  - apply wp_ask; [apply facts|]. intros i. unfold refuse_if. destruct i as [i|]; cbn [negb]; [|apply HE; [do 2 apply suffix_step; done|done]].
    destruct (in_Dir i && ancestorSafe i) eqn:Eb; cbn [negb]; [|apply HE; [do 2 apply suffix_step; done|done]]. apply andb_true_iff in Eb as [Hd Hsafe].
    apply Hloc; [by apply suffix_step|intros ->; by rewrite <-Epath in El|].
    intros _. exists i. split; [|done]. apply fresh_now. by apply suffix_step.
Qed.
(** ** Plans *)

Definition at_volume (seen : event call → Prop) (path uuid : string) (fileTarget : bool) (P : Volume → Prop) : Prop :=
  ∃ vol, located seen path fileTarget vol ∧ vl_UUID vol = uuid ∧ P vol.

(** What a plan says of a request, by what was seen: the identity on an internal volume and
    not there yet; the vault and the backups on different volumes. *)
Definition good_plan (seen : event call → Prop) (req : Request) (p : Plan) : Prop :=
  let l := pl_Layout p in
  pl_Steps p = stepsFor l ∧ validLabel (ly_VaultName l) = true ∧ validLabel (ly_DeviceName l) = true ∧
  ly_Sync l = rq_Sync req ∧ ly_VaultName l = rq_VaultName req ∧ ly_DeviceName l = rq_DeviceName req ∧
  service_of req = Ok (ly_ServerURL l, ly_Listen l) ∧
  ly_ConfigPath l = rq_ConfigPath req ∧ at_volume seen (ly_ConfigPath l) (ly_ConfigVolumeUUID l) true (λ vol, vl_Internal vol = true) ∧
  ly_BackupDir l = rq_BackupDir req ∧ at_volume seen (ly_BackupDir l) (ly_BackupVolumeUUID l) false (λ _, True) ∧
  (if String.eqb (ly_Sync l) SyncLocalServer
   then ly_VaultDir l = rq_VaultDir req ∧ at_volume seen (ly_VaultDir l) (ly_VaultVolumeUUID l) false (λ _, True) ∧ ly_VaultVolumeUUID l ≠ ly_BackupVolumeUUID l
   else ly_VaultDir l = "" ∧ ly_Sync l = SyncHosted).

Lemma service_of_reason req : match service_of req with Ok _ => rq_Sync req = SyncLocalServer ∨ rq_Sync req = SyncHosted | Err e => a_reason (A:=string * string) (Err e) end.
Proof.
  unfold service_of. destruct (String.eqb_spec (rq_Sync req) SyncLocalServer) as [E|]; [|destruct (String.eqb_spec (rq_Sync req) SyncHosted) as [E|]].
  3: { by destruct (String.eqb _ _). }
  all: unfold reject_if; repeat match goal with |- context [if ?b then Err _ else Ok tt] => destruct b; [done|cbn [mbind result_bind]] end; auto.
Qed.

(** What is known of a path that was checked. *)
Definition was_checked (path : string) (ft : bool) (start past : history) (r : result (string * Volume)) : Prop :=
  start `suffix_of` past ∧ match r with Ok (path', vol) => path' = path ∧ located (fresh start past) path ft vol | Err _ => a_reason r end.
Lemma wp_was_checked path ft start : wp G (checkedPath path ft) start (was_checked path ft start) (was_checked path ft start).
Proof using facts.
  apply wp_checkedPath; [|by intros past' vol ? ?; split]. intros past' r Hs Hr. split; [done|]. by destruct r.
Qed.

Lemma wp_plan_backup req url listen cvol dir uuid warnings start past Q :
  start `suffix_of` past → validLabel (rq_VaultName req) = true → validLabel (rq_DeviceName req) = true → service_of req = Ok (url, listen) →
  located (fresh start past) (rq_ConfigPath req) true cvol → vl_Internal cvol = true →
  (if String.eqb (rq_Sync req) SyncLocalServer
   then dir = rq_VaultDir req ∧ at_volume (fresh start past) dir uuid false (λ _, True) else dir = "" ∧ rq_Sync req = SyncHosted) →
  (∀ past' r, start `suffix_of` past' → a_reason r → Q past' r) →
  (∀ past' p, start `suffix_of` past' → good_plan (fresh start past') req p → Q past' (Ok p)) →
  wp G (plan_backup req url listen (rq_ConfigPath req) cvol dir uuid warnings) past Q Q.
Proof using facts.
  intros Hs Hv Hd Hservice Hcfg Hint Hdir HE HQ. unfold plan_backup.
  apply (wp_checked _ _ _ _ _ (was_checked (rq_BackupDir req) false past)); [apply wp_was_checked|..].
  2: { intros past' e [Hs' He]. apply HE; [etransitivity; [exact Hs|exact Hs']|done]. }
  intros past' [backup bvol] (Hs'&->&Hbackup). assert (S' : start `suffix_of` past') by (etransitivity; [exact Hs|exact Hs']).
  apply wp_refuse_if; [intros Hne|intros _; by apply HE]. apply HQ; [done|].
  assert (Hlater : ∀ e, fresh start past e → fresh start past' e) by (intros e He; by eapply fresh_later).
  unfold good_plan. cbn [pl_Layout pl_Steps ly_Sync ly_VaultName ly_DeviceName ly_ServerURL ly_Listen ly_ConfigPath ly_ConfigVolumeUUID ly_BackupDir ly_BackupVolumeUUID ly_VaultDir ly_VaultVolumeUUID].
  split_and!; try done.
  - exists cvol. split; [by apply (located_mono (fresh start past))|done].
  - exists bvol. split; [|done]. eapply located_mono; [|exact Hbackup]. intros e He. by eapply fresh_earlier.
  - destruct (String.eqb (rq_Sync req) SyncLocalServer); [|done]. destruct Hdir as [-> (vol&Hvol&<-&_)].
    split_and!; [done|exists vol; split; [by apply (located_mono (fresh start past))|done]|].
    destruct Hvol as (_&_&_&_&Hu&_). intros E. rewrite E, String.eqb_refl, andb_true_r in Hne. rewrite E in Hu. by destruct (vl_UUID bvol).
Qed.

Lemma wp_PlanFor req past Q :
  (∀ past' r, past `suffix_of` past' → a_reason r → Q past' r) →
  (∀ past' p, past `suffix_of` past' → good_plan (fresh past past') req p → Q past' (Ok p)) →
  wp G (PlanFor req) past Q Q.
Proof using facts.
  intros HE HQ. unfold PlanFor. apply wp_refuse_if; [intros [Hv%negb_false_iff Hd%negb_false_iff]%orb_false_iff|intros _; by apply HE].
  pose proof (service_of_reason req) as Hsync.
  apply (wp_checked _ _ _ _ _ (λ past' r, past' = past ∧ r = service_of req)); [by split| |].
  2: { intros past' e [-> He]. rewrite <-He in Hsync. by apply HE. }
  intros past' [url listen] [-> Hservice]. rewrite <-Hservice in Hsync.
  apply (wp_checked _ _ _ _ _ (was_checked (rq_ConfigPath req) true past)); [apply wp_was_checked| |by intros ? e [? ?]; apply HE].
  intros past1 [cfg cvol] (S1&->&Hcfg). apply wp_refuse_if; [intros Hint%negb_false_iff|intros _; by apply HE].
  destruct (String.eqb_spec (rq_Sync req) SyncLocalServer) as [El|Hno].
  2: { apply (wp_plan_backup _ _ _ _ _ _ _ past); try done. rewrite (proj2 (String.eqb_neq _ _) Hno). split; [done|]. by destruct Hsync. }
  apply (wp_checked _ _ _ _ _ (was_checked (rq_VaultDir req) false past1)); [apply wp_was_checked|..].
  2: { intros past' e [Hs' He]. apply HE; [etransitivity; [exact S1|exact Hs']|done]. }
  intros past2 [dir vol] (S2&->&Hvol). apply (wp_plan_backup _ _ _ _ _ _ _ past); try done.
  - etransitivity; [exact S1|exact S2].
  - eapply located_mono; [|exact Hcfg]. intros e He. by eapply fresh_later.
  - rewrite El, String.eqb_refl. split; [done|]. exists vol. split; [|done]. eapply located_mono; [|exact Hvol]. intros e He. by eapply fresh_earlier.
Qed.
Lemma wp_Recheck path uuid ft past Q :
  (∀ past' r, past `suffix_of` past' → a_reason r → Q past' r) →
  (∀ past', past `suffix_of` past' → at_volume (fresh past past') path uuid ft (λ _, True) → Q past' (Ok tt)) →
  wp G (Recheck path uuid ft) past Q Q.
Proof using facts.
  intros HE HQ. unfold Recheck. apply (wp_checked _ _ _ _ _ (was_checked path ft past)); [apply wp_was_checked| |by intros ? e [? ?]; apply HE].
  intros past' [path' vol] (Hs&->&Hvol). apply wp_refuse_if; [intros Hu%negb_false_iff%String.eqb_eq|intros _; by apply HE]. apply HQ; [done|]. by exists vol.
Qed.

Definition volume_seen (seen : event call → Prop) (path uuid : string) : Prop :=
  ∃ vol, seen (Event (Call.VolumeOf path) (Some vol)) ∧ vl_UUID vol = uuid ∧ vl_OwnersEnabled vol = true.

Lemma wp_OnVolume dir uuid past Q :
  (∀ past' r, past `suffix_of` past' → a_reason r → Q past' r) →
  (∀ past', past `suffix_of` past' → volume_seen (fresh past past') dir uuid → Q past' (Ok tt)) →
  wp G (OnVolume dir uuid) past Q Q.
Proof using facts.
  intros HE HQ. unfold OnVolume. apply wp_ask; [apply facts|]. intros vol. apply wp_refuse_if; [|intros _; by apply HE; [apply suffix_step|]].
  destruct vol as [vol|]; [|done]. intros [Hu%String.eqb_eq Ho]%negb_false_iff%andb_true_iff. apply HQ; [by apply suffix_step|].
  exists vol. split; [by apply fresh_now|done].
Qed.
Lemma wp_noSymlinks_any path past Q : (∀ past' r, past `suffix_of` past' → Q past' r) → wp G (noSymlinks path) past Q Q.
Proof using facts.
  intros HQ. unfold noSymlinks. apply wp_bind. apply (wp_for_each _ _ _ _ _ _ _ (λ _ past' _, past `suffix_of` past')); [done| |by intros; apply HQ].
  intros past' cur item rest Hs. destruct (negb (nonempty item)); [done|]. apply wp_ask; [apply facts|]. intros [info|]; [|by apply HQ, suffix_step].
  apply wp_refuse_if; intros _; [by apply suffix_step|by apply HQ, suffix_step].
Qed.
End Planning.

(** ** Applying *)

Section Safety.
Context {crypto : Crypto} {cipher : Cipher} {codec : LocalCodec} {kdf : KeyDerivation} {records : RecordCodec} {objects : ObjectCodec}.
Context {recovery : RecoveryCodec} {access_codec : AccessCodec} {urls : URLs} {hosts : Hosts} {setups : SetupCodec}.
Context (allowExistingServer : bool) (patience : nat) (raw : string).

(** The owner has confirmed a plan, as it was shown: one that was made of the request, by
    what was seen before. *)
Definition shown (p : Plan) : call (option bool) := Call.ConfirmPlan "EnvBank setup request" (plan_lines p).
Definition planned (p : Plan) (past : history) : Prop :=
  ∃ req, setup_of_json raw = Some (req, true) ∧ good_plan (λ e, e ∈ past) req p.
Definition confirmed (p : Plan) (past : history) : Prop :=
  ∃ before, planned p before ∧ Event (shown p) (Some true) :: before `suffix_of` past.

(** What was seen after the confirmation. *)
Definition since (p : Plan) (past : history) (e : event call) : Prop := ∃ before, fresh (Event (shown p) (Some true) :: before) past e.

(** A place on the volume that was confirmed, as seen since; [located] when it was not there. *)
Definition on_volume (p : Plan) (past : history) (dir uuid : string) : Prop :=
  volume_seen (since p past) dir uuid ∨ ∃ ft, at_volume (since p past) dir uuid ft (λ _, True).

Definition places (l : Layout) : list (string * string) :=
  [(ly_VaultDir l, ly_VaultVolumeUUID l); (ly_BackupDir l, ly_BackupVolumeUUID l); (Dir (ly_ConfigPath l), ly_ConfigVolumeUUID l)].

(** A passphrase that the owner has typed for the vault, at least as long as it must be. *)
Definition typed (past : history) (passphrase : string) : Prop :=
  ∃ title, Event (Call.NewPassphrase title minPassphrase "") (Some passphrase) ∈ past.

(** The service is the one that was installed, or the owner allows another one. *)
Definition service_ready (l : Layout) (past : history) : Prop :=
  ly_Sync l = SyncHosted ∨
  (Event (Call.Healthy (ly_ServerURL l)) true ∈ past ∧
   (Event (Call.Install l) true ∈ past ∨
    (allowExistingServer = true ∧ Event (Call.ConfirmPlan "Reuse running EnvBank server" (reuse_lines (ly_ServerURL l))) (Some true) ∈ past))).

(** The vault was made at the service of the plan, and its identity was saved where the plan
    has it. *)
Definition creation_of (p : Plan) (past : history) (cfg : Config) : Prop :=
  let l := pl_Layout p in
  ∃ passphrase keys vaultKey salt nonce made device, typed past passphrase ∧
    Event (Call.Command Commands.Call.NewDeviceKeys) (Ok keys) ∈ past ∧ Event (Call.Command (Commands.Call.Random 32)) (Ok vaultKey) ∈ past ∧
    Event (Call.Command (Commands.Call.CreateVault (ly_ServerURL l) None (ly_VaultName l) device)) (Ok made) ∈ past ∧
    NewConfig salt nonce (ly_ServerURL l) made.1 made.2 (ly_DeviceName l) (with_vault_key keys vaultKey) passphrase = Ok cfg.
Definition made_vault (p : Plan) (past : history) (v : Made) : Prop :=
  creation_of p past (un_Config v.1) ∧ Event (Call.Command (Commands.Call.SaveConfig (ly_ConfigPath (pl_Layout p)) (un_Config v.1))) (Ok tt) ∈ past.

Definition command_permitted (p : Plan) (past : history) (X : Type) (c : Commands.call X) : Prop :=
  let l := pl_Layout p in
  match c with
  | Commands.Call.NewDeviceKeys | Commands.Call.Random _ | Commands.Call.ListRecords _ => True
  | Commands.Call.CreateVault server access name device =>
      server = ly_ServerURL l ∧ access = None ∧ name = ly_VaultName l ∧ dev_Name device = ly_DeviceName l ∧ (∃ passphrase, typed past passphrase) ∧
      service_ready l past ∧ since p past (Event (Call.Lstat (ly_ConfigPath l)) None) ∧ on_volume p past (ly_ConfigPath l) (ly_ConfigVolumeUUID l)
  | Commands.Call.SaveConfig path cfg => path = ly_ConfigPath l ∧ creation_of p past cfg
  | _ => False
  end.

(** An artifact of the vault that was made, sealed with a passphrase that the owner has typed
    after the other. *)
Definition artifact_permitted (p : Plan) (past : history) (path sealed : string) : Prop :=
  let l := pl_Layout p in
  ∃ v title passphrase rp salt nonce encrypted l' objects now,
    made_vault p past v ∧ typed past passphrase ∧ Event (Call.NewPassphrase title minPassphrase passphrase) (Some rp) ∈ past ∧
    Event (Call.Command (Commands.Call.ListRecords v.1)) (Ok encrypted) ∈ past ∧ DecryptRecords (cf_VaultID (un_Config v.1)) v.2 encrypted = Ok l' ∧
    Event (Call.ListObjects v.1 v.2) (Ok objects) ∈ past ∧
    SealSnapshot salt nonce {| rv_Records := l'; rv_Objects := objects |} rp = Ok sealed ∧
    path = Join (ly_BackupDir l) (artifact_name (ly_VaultName l) now) ∧ on_volume p past (ly_BackupDir l) (ly_BackupVolumeUUID l).

Definition permitted (p : Plan) (past : history) (X : Type) (c : call X) : Prop :=
  let l := pl_Layout p in
  let layout := layoutPath (ly_ConfigPath l) in
  match c with
  | Call.MkdirAll dir mode => mode = 448 ∧
      ((∃ uuid, (dir, uuid) ∈ places l ∧ on_volume p past dir uuid) ∨ (dir = Dir layout ∧ ∃ v, made_vault p past v))
  | Call.Chmod path mode => (mode = 448 ∧ Event (Call.MkdirAll path 448) true ∈ past) ∨ (mode = 384 ∧ path = layout)
  | Call.WriteFile path contents mode => path = layout +:+ ".tmp" ∧ contents = layout_json l +:+ newline ∧ mode = 384 ∧ ∃ v, made_vault p past v
  | Call.Rename from to => from = layout +:+ ".tmp" ∧ to = layout
  | Call.NewPassphrase _ min different => min = minPassphrase ∧ (different = "" ∨ typed past different)
  | Call.Install l' => l' = l ∧ ly_Sync l = SyncLocalServer ∧ Event (Call.Healthy (ly_ServerURL l)) false ∈ past ∧
      volume_seen (since p past) (ly_VaultDir l) (ly_VaultVolumeUUID l)
  | Call.Command c => command_permitted p past _ c
  | Call.WriteArtifact path sealed => artifact_permitted p past path sealed
  | Call.ListObjects _ _ => True
  | _ => False
  end.

Definition guard (past : history) (X : Type) (c : call X) : Prop :=
  match c with
  | Call.Lstat _ | Call.VolumeOf _ | Call.Cancelled | Call.Healthy _ | Call.Now | Call.Sleep _ => True
  | Call.Notify line => line ≠ "setup refused: out of rounds"
  | Call.ConfirmPlan title lines =>
      (title = "EnvBank setup request" ∧ ∃ p, planned p past ∧ lines = plan_lines p) ∨
      (title = "Reuse running EnvBank server" ∧ allowExistingServer = true ∧ ∃ p, confirmed p past ∧ lines = reuse_lines (ly_ServerURL (pl_Layout p)) ∧
         Event (Call.Healthy (ly_ServerURL (pl_Layout p))) true ∈ past)
  | _ => ∃ p, confirmed p past ∧ permitted p past X c
  end.

(** What shows that a step was done. *)
Definition dir_made (p : Plan) (past : history) (dir uuid : string) : Prop :=
  Event (Call.MkdirAll dir 448) true ∈ past ∧ Event (Call.Chmod dir 448) true ∈ past ∧ volume_seen (since p past) dir uuid.
Definition layout_written (l : Layout) (past : history) : Prop :=
  let layout := layoutPath (ly_ConfigPath l) in
  Event (Call.WriteFile (layout +:+ ".tmp") (layout_json l +:+ newline) 384) true ∈ past ∧
  Event (Call.Rename (layout +:+ ".tmp") layout) true ∈ past ∧ Event (Call.Chmod layout 384) true ∈ past.
Definition step_done (p : Plan) (past : history) (id : string) : Prop :=
  let l := pl_Layout p in
  (id = "prepare_vault_dir" ∧ dir_made p past (ly_VaultDir l) (ly_VaultVolumeUUID l)) ∨
  (id = "install_service" ∧ service_ready l past) ∨
  (id = "prepare_backup_dir" ∧ dir_made p past (ly_BackupDir l) (ly_BackupVolumeUUID l)) ∨
  (id = "create_vault" ∧ ∃ v, made_vault p past v) ∨
  (id = "recovery_export" ∧ ∃ path sealed, Event (Call.WriteArtifact path sealed) true ∈ past) ∨
  (id = "write_layout" ∧ layout_written l past).

(** What [Apply] returns.  The steps that are done are a beginning of those that were
    confirmed, and each was done; the vault is there once it was made.  Without an error
    everything was done.  With an error, either a step failed, which is the one after those
    that are returned as done, and the owner was told; or nothing was begun: all that was
    done was to look, to ask and to tell, because the request cannot be read, has no plan, or
    was not confirmed. *)
Definition progress (p : Plan) (past : history) (vault : option Made) (done : list string) : Prop :=
  confirmed p past ∧ done `prefix_of` (st_ID <$> pl_Steps p) ∧
  (if bool_decide ("create_vault" ∈ done) then ∃ v, vault = Some v ∧ made_vault p past v else vault = None) ∧
  (∀ id, id ∈ done → step_done p past id).

Definition looking {X} (c : call X) : Prop :=
  match c with Call.Lstat _ | Call.VolumeOf _ | Call.ConfirmPlan _ _ | Call.Cancelled | Call.Notify _ => True | _ => False end.
Definition looks (e : event call) : Prop := match e with Event c _ => looking c end.
Definition not_begun (past : history) (code : string) : Prop :=
  Forall looks past ∧
  ((code = "INVALID_SETUP_REQUEST" ∧ ∀ req, setup_of_json raw ≠ Some (req, true)) ∨
   (code = "SETUP_PLAN_REFUSED" ∧ ∃ reason before, past = Event (Call.Notify ("setup refused: " +:+ reason)) tt :: before) ∨
   (code = CodeDeniedSetup ∧ ∃ p before, planned p before ∧
      ((∃ answer, past = Event (shown p) answer :: before ∧ answer ≠ Some true) ∨
       past = Event Call.Cancelled true :: Event (shown p) (Some true) :: before))).
Definition applied_ok (past : history) (r : Applied) : Prop :=
  let '(vault, done, code) := r in
  match code with
  | Some code => (vault = None ∧ done = [] ∧ not_begun past code) ∨
      ∃ p id before, past = Event (Call.Notify ("setup step failed: " +:+ id)) tt :: before ∧ progress p past vault done ∧
        (done ++ [id]) `prefix_of` (st_ID <$> pl_Steps p)
  | None => ∃ p, progress p past vault done ∧ done = st_ID <$> pl_Steps p
  end.

(** ** Proof *)

Lemma suffix_elem (past past' : history) e : past `suffix_of` past' → e ∈ past → e ∈ past'.
Proof. intros [new ->] He. apply elem_of_app. by right. Qed.
Lemma confirmed_later p past past' : past `suffix_of` past' → confirmed p past → confirmed p past'.
Proof. intros Hs (before&Hp&Hb). exists before. split; [done|by etransitivity]. Qed.
Lemma since_later p past past' e : past `suffix_of` past' → since p past e → since p past' e.
Proof. intros Hs [before Hb]. exists before. by eapply fresh_later. Qed.
Lemma since_fresh p past past' e : confirmed p past → fresh past past' e → since p past' e.
Proof. intros (before&_&Hb) He. exists before. by eapply fresh_earlier. Qed.
Lemma volume_seen_mono (seen seen' : event call → Prop) path uuid : (∀ e, seen e → seen' e) → volume_seen seen path uuid → volume_seen seen' path uuid.
Proof. intros H (vol&?&?&?). exists vol. split; [by apply H|done]. Qed.
Lemma at_volume_mono (seen seen' : event call → Prop) path uuid ft P : (∀ e, seen e → seen' e) → at_volume seen path uuid ft P → at_volume seen' path uuid ft P.
Proof. intros H (vol&?&?&?). exists vol. split; [by apply (located_mono seen)|done]. Qed.
Lemma on_volume_later p past past' dir uuid : past `suffix_of` past' → on_volume p past dir uuid → on_volume p past' dir uuid.
Proof.
  intros Hs [H|[ft H]]; [left; eapply volume_seen_mono; [|done]|right; exists ft; eapply at_volume_mono; [|done]]; intros e He; by eapply since_later.
Qed.
Lemma typed_later past past' v : past `suffix_of` past' → typed past v → typed past' v.
Proof. intros Hs [title H]. exists title. by eapply suffix_elem. Qed.
Lemma creation_later p past past' cfg : past `suffix_of` past' → creation_of p past cfg → creation_of p past' cfg.
Proof.
  intros Hs (passphrase&keys&key&salt&nonce&made&device&?&?&?&?&?). exists passphrase, keys, key, salt, nonce, made, device.
  split_and!; [by eapply typed_later|by eapply suffix_elem..|done].
Qed.
Lemma made_vault_later p past past' v : past `suffix_of` past' → made_vault p past v → made_vault p past' v.
Proof. intros Hs [? ?]. split; [by eapply creation_later|by eapply suffix_elem]. Qed.
Lemma service_ready_later l past past' : past `suffix_of` past' → service_ready l past → service_ready l past'.
Proof. intros Hs [?|[? [?|[? ?]]]]; [by left|right..]; (split; [by eapply suffix_elem|]); [left|right; split; [done|]]; by eapply suffix_elem. Qed.

Lemma dir_made_later p past past' dir uuid : past `suffix_of` past' → dir_made p past dir uuid → dir_made p past' dir uuid.
Proof.
  intros Hs (?&?&?). split_and!; [by eapply suffix_elem..|]. eapply volume_seen_mono; [|done]. intros e He. by eapply since_later.
Qed.
Lemma step_done_later p past past' id : past `suffix_of` past' → step_done p past id → step_done p past' id.
Proof.
  intros Hs [[? H]|[[? H]|[[? H]|[[? [v H]]|[[? (path&sealed&H)]|[? (H1&H2&H3)]]]]]].
  - left. split; [done|by eapply dir_made_later].
  - right; left. split; [done|by eapply service_ready_later].
  - right; right; left. split; [done|by eapply dir_made_later].
  - do 3 right; left. split; [done|]. exists v. by eapply made_vault_later.
  - do 4 right; left. split; [done|]. exists path, sealed. by eapply suffix_elem.
  - do 5 right. split; [done|]. split_and!; by eapply suffix_elem.
Qed.

(** One history continues another; and what was known goes on to be. *)
Ltac continues :=
  solve [eassumption | reflexivity | apply suffix_cons_r; continues
    | match goal with H : ?x `suffix_of` ?b |- ?a `suffix_of` ?b => transitivity x; [continues|exact H] end].
Ltac carry :=
  match goal with
  | H : confirmed ?p ?x |- confirmed ?p _ => apply (confirmed_later p x); [continues|exact H]
  | H : typed ?x ?v |- typed _ ?v => apply (typed_later x); [continues|exact H]
  | H : creation_of ?p ?x ?c |- creation_of ?p _ ?c => apply (creation_later p x); [continues|exact H]
  | H : made_vault ?p ?x ?v |- made_vault ?p _ ?v => apply (made_vault_later p x); [continues|exact H]
  | H : service_ready ?l ?x |- service_ready ?l _ => apply (service_ready_later l x); [continues|exact H]
  | H : since ?p ?x ?e |- since ?p _ ?e => apply (since_later p x); [continues|exact H]
  | H : on_volume ?p ?x ?d ?u |- on_volume ?p _ ?d ?u => apply (on_volume_later p x); [continues|exact H]
  | H : ?e ∈ ?x |- ?e ∈ _ => apply (suffix_elem x); [continues|exact H]
  end.

(** A stepping that goes on from a history, and ends with [K]. *)
Definition ends {A} (past : history) (K : history → A → Prop) (past' : history) (r : A + string) : Prop :=
  past `suffix_of` past' ∧ match r with inl a => K past' a | inr _ => True end.

Lemma wp_passing {A B} (q : stepping B) (f : B → stepping A) past start K K' :
  start `suffix_of` past → wp guard q past (ends past K) (ends past K) →
  (∀ past' b, past `suffix_of` past' → K past' b → wp guard (f b) past' (ends start K') (ends start K')) →
  wp guard (b ← passing q; f b) past (ends start K') (ends start K').
Proof.
  intros Hs Hq Hf. apply wp_bind. unfold passing. apply (wp_call _ _ _ _ _ _ (ends past K)); [done|].
  intros past' [b|code] [Hs' HK]; [by apply Hf|]. split; [by etransitivity|done].
Qed.

Lemma wp_or_stop {A B} code (q : planner B) (f : B → stepping A) past start (K : history → B → Prop) K' :
  start `suffix_of` past → wp guard q past (λ past' r, past `suffix_of` past' ∧ match r with Ok b => K past' b | Err _ => True end)
    (λ past' r, past `suffix_of` past' ∧ match r with Ok b => K past' b | Err _ => True end) →
  (∀ past' b, past `suffix_of` past' → K past' b → wp guard (f b) past' (ends start K') (ends start K')) →
  wp guard (b ← or_stop code q; f b) past (ends start K') (ends start K').
Proof.
  intros Hs Hq Hf. apply wp_bind. unfold or_stop. eapply wp_call; [exact Hq|].
  intros past' [b|e] [Hs' HK]; [by apply Hf|]. split; [by etransitivity|done].
Qed.

Lemma wp_stop_if {A} b code (f : unit → stepping A) past start K : start `suffix_of` past →
  (b = false → wp guard (f tt) past (ends start K) (ends start K)) → wp guard (x ← stop_if b code; f x) past (ends start K) (ends start K).
Proof. destruct b; cbn; [by split|auto]. Qed.

Lemma asks_facts : ∀ past path, guard past _ (Call.Lstat path) ∧ guard past _ (Call.VolumeOf path).
Proof. by split. Qed.

Lemma spec_recheck p dir uuid past : confirmed p past → nonempty dir = true →
  wp guard (recheck dir uuid) past (ends past (λ past' _, on_volume p past' dir uuid)) (ends past (λ past' _, on_volume p past' dir uuid)).
Proof.
  intros Hp Hd. unfold recheck. rewrite Hd. cbn [negb]. apply wp_ask; [done|]. intros info. set (past1 := Event _ _ :: past).
  assert (S1 : past `suffix_of` past1) by by apply suffix_step. pose proof (confirmed_later _ _ _ S1 Hp) as Hp1.
  apply (wp_or_stop _ _ _ _ _ (λ past' _, on_volume p past' dir uuid)); [done| |intros past' [] S' H; split; [by etransitivity|done]].
  destruct info.
  - apply wp_OnVolume; [apply asks_facts|intros past' [|] ? ?; done|]. intros past' S' H. split; [done|]. left. eapply volume_seen_mono; [|exact H]. intros e He. by eapply since_fresh.
  - apply wp_Recheck; [apply asks_facts|intros past' [|] ? ?; done|]. intros past' S' H. split; [done|]. right. exists false. eapply at_volume_mono; [|exact H]. intros e He. by eapply since_fresh.
Qed.

Lemma spec_MkdirPrivate p dir past : confirmed p past → permitted p past _ (Call.MkdirAll dir 448) →
  let made past' (_ : unit) := Event (Call.MkdirAll dir 448) true ∈ past' ∧ Event (Call.Chmod dir 448) true ∈ past' in
  wp guard (MkdirPrivate dir) past (λ past' r, past `suffix_of` past' ∧ match r with Ok a => made past' a | Err _ => True end)
    (λ past' r, past `suffix_of` past' ∧ match r with Ok a => made past' a | Err _ => True end).
Proof.
  intros Hp Hdir K. unfold MkdirPrivate. apply wp_ask; [by exists p|]. intros made. apply wp_refuse_if; [|intros _; by split; [apply suffix_step|]].
  intros ->%negb_false_iff. apply wp_ask.
  { exists p. split; [carry|]. left. split; [done|by left]. }
  intros changed. apply wp_refuse_if; [intros ->%negb_false_iff|intros _; by split; [do 2 apply suffix_step|]]. apply wp_ask; [done|]. intros info.
  apply wp_refuse_if; [intros _|intros _; by split; [do 3 apply suffix_step|]]. apply wp_noSymlinks_any; [apply asks_facts|].
  intros past' [|] Hs; (split; [etransitivity; [|exact Hs]; by do 3 apply suffix_step|]); [|done].
  split; (eapply suffix_elem; [exact Hs|]); [right; right; by left|right; by left].
Qed.

Lemma spec_mkdir p dir uuid past : confirmed p past → nonempty dir = true → (dir, uuid) ∈ places (pl_Layout p) →
  wp guard (mkdir dir uuid) past (ends past (λ past' _, dir_made p past' dir uuid)) (ends past (λ past' _, dir_made p past' dir uuid)).
Proof.
  intros Hp Hd Hin. unfold mkdir. apply (wp_passing _ _ _ _ (λ past' _, on_volume p past' dir uuid)); [done|by apply spec_recheck|]. intros past1 [] S1 Hon.
  eapply wp_or_stop; [done|apply (spec_MkdirPrivate p); [carry|split; [done|left; by exists uuid]]|]. intros past2 [] S2 [Hmade Hmode].
  assert (S02 : past `suffix_of` past2) by (etransitivity; [exact S1|exact S2]).
  apply (wp_or_stop _ _ _ _ _ (λ past' _, dir_made p past' dir uuid)); [done| |intros past' [] S' H; split; [by etransitivity|done]].
  apply wp_OnVolume; [apply asks_facts|intros past' [|] ? ?; done|]. intros past' S' H. split; [done|]. split_and!; [carry|carry|].
  eapply volume_seen_mono; [|exact H]. intros e He. eapply since_fresh; [|exact He]. carry.
Qed.

Lemma spec_wait past rounds url deadline : 
  wp guard (wait_healthy rounds url deadline) past (ends past (λ past' _, Event (Call.Healthy url) true ∈ past')) (ends past (λ past' _, Event (Call.Healthy url) true ∈ past')).
Proof.
  enough (H : ∀ past', past `suffix_of` past' → wp guard (wait_healthy rounds url deadline) past'
    (ends past (λ past' _, Event (Call.Healthy url) true ∈ past')) (ends past (λ past' _, Event (Call.Healthy url) true ∈ past'))) by by apply H.
  induction rounds as [|rounds IH]; intros past' Hs; cbn [wait_healthy]; [by split|]. apply wp_ask; [done|]. intros [|]; [split; [by apply suffix_step|by left]|].
  apply wp_ask; [done|]. intros now. apply wp_stop_if; [by do 2 apply suffix_step|]. intros _. apply wp_ask; [done|]. intros []. apply IH. by do 3 apply suffix_step.
Qed.

Lemma spec_install p past : confirmed p past → ly_Sync (pl_Layout p) = SyncLocalServer →
  volume_seen (since p past) (ly_VaultDir (pl_Layout p)) (ly_VaultVolumeUUID (pl_Layout p)) →
  wp guard (install_service allowExistingServer patience (pl_Layout p)) past (ends past (λ past' _, service_ready (pl_Layout p) past')) (ends past (λ past' _, service_ready (pl_Layout p) past')).
Proof.
  intros Hp Hsync Hvol. unfold install_service. apply wp_ask; [done|]. intros healthy. set (past1 := Event _ _ :: past).
  assert (S1 : past `suffix_of` past1) by by apply suffix_step. pose proof (confirmed_later _ _ _ S1 Hp) as Hp1. destruct healthy.
  - destruct allowExistingServer eqn:Ea; cbn [negb]; [|apply wp_ask; [done|]; intros []; split; [by apply suffix_step|done]].
    apply wp_ask; [right; split; [done|]; split; [done|]; exists p; split; [done|]; split; [done|by left]|]. intros answer.
    apply wp_stop_if; [by apply suffix_step|]. intros Hans. split; [by apply suffix_step|]. right. split; [right; by left|]. right. split; [done|].
    destruct answer as [[|]|]; [by left|done..].
  - apply wp_ask.
    { exists p. split; [done|]. split_and!; [done..|by left|]. eapply volume_seen_mono; [|exact Hvol]. intros e He. carry. }
    intros installed. apply wp_stop_if; [by apply suffix_step|]. intros ->%negb_false_iff. apply wp_ask; [done|]. intros now. set (past3 := Event _ _ :: _).
    assert (S3 : past `suffix_of` past3) by (by do 3 apply suffix_step). eapply wp_mono; [| |apply spec_wait].
    all: intros past' [[]|code] [S' H]; (split; [by etransitivity|]); [|done]; right; (split; [done|]); left; eapply suffix_elem; [exact S'|right; by left].
Qed.

(** What a program of commands asks for is lifted. *)
Lemma spec_createVaultDevice {R} p passphrase past (Ret : history → R → Prop) Q :
  confirmed p past → typed past passphrase → service_ready (pl_Layout p) past →
  since p past (Event (Call.Lstat (ly_ConfigPath (pl_Layout p))) None) →
  on_volume p past (ly_ConfigPath (pl_Layout p)) (ly_ConfigVolumeUUID (pl_Layout p)) →
  (∀ past' e, past `suffix_of` past' → Q past' (inr e)) →
  (∀ past' u vaultKey id fingerprint, past `suffix_of` past' → made_vault p past' (u, vaultKey) → Q past' (inl (u, vaultKey, id, fingerprint))) →
  let l := pl_Layout p in
  wp guard (attempt (lift (@Call.Command) (createVaultDevice (ly_ServerURL l) (ly_VaultName l) (ly_DeviceName l) passphrase None (ly_ConfigPath l)))) past Ret Q.
Proof.
  intros Hp Ht Hready Hnone Hon HE HQ l. unfold createVaultDevice, new_config.
  assert (HG : ∀ past' X (c : Commands.call X), past `suffix_of` past' → command_permitted p past' X c → guard past' X (Call.Command c)).
  { intros past' X c Hs Hc. exists p. split; [carry|done]. }
  split; [by apply HG|]. intros keys. destruct keys as [keys|e]; [|by apply HE, suffix_step].
  split; [apply HG; [by apply suffix_step|done]|]. intros vaultKey. destruct vaultKey as [vaultKey|e]; [|apply HE; by do 2 apply suffix_step].
  set (past2 := Event _ _ :: _). assert (S2 : past `suffix_of` past2) by (by do 2 apply suffix_step).
  split. { apply HG; [done|]. split_and!; try done; [exists passphrase; carry|carry|carry|carry]. }
  intros made. destruct made as [made|e]; [|by apply HE, suffix_step]. set (past3 := Event _ _ :: past2). assert (S3 : past `suffix_of` past3) by (by apply suffix_step).
  split; [by apply HG|]. intros salt. split; [apply HG; [by apply suffix_step|done]|]. intros nonce. set (past5 := Event _ _ :: _).
  assert (S5 : past `suffix_of` past5) by (by do 2 apply suffix_step). assert (S35 : past3 `suffix_of` past5) by (by do 2 apply suffix_step).
  cbn [mbind flow_bind flow_bind_ mret flow_ret]. destruct (NewConfig salt nonce (ly_ServerURL l) made.1 made.2 (ly_DeviceName l) (with_vault_key keys vaultKey) passphrase) as [cfg|e] eqn:Ec; [|by apply HE].
  assert (Hc : creation_of p past5 cfg).
  { exists passphrase, keys, vaultKey, salt, nonce, made. eexists. split_and!; [carry|..|exact Ec]; (eapply suffix_elem; [exact S35|]); [right; right; by left|right; by left|by left]. }
  split; [by apply HG|]. intros saved. destruct saved as [[]|e]; [|by apply HE, suffix_step]. apply HQ; [by apply suffix_step|].
  split; [carry|by left].
Qed.

Lemma located_missing seen path vol : located seen path true vol → seen (Event (Call.Lstat path) None).
Proof.
  intros (_&_&_&_&_&existing&_&_&_&He&Hn). destruct (decide (existing = elements path)) as [E|E]; [by destruct (He E)|by apply Hn].
Qed.

Definition after_creation (p : Plan) (past : history) (r : Made * string) : Prop := made_vault p past r.1 ∧ typed past r.2.

Lemma spec_create_vault p past : confirmed p past → service_ready (pl_Layout p) past → nonempty (Dir (ly_ConfigPath (pl_Layout p))) = true →
  wp guard (create_vault (pl_Layout p)) past (ends past (after_creation p)) (ends past (after_creation p)).
Proof.
  intros Hp Hready Hdir. unfold create_vault. set (l := pl_Layout p) in *. apply wp_ask; [exists p; split; [done|]; split; [done|by left]|].
  intros [passphrase|]; [|by split; [apply suffix_step|]]. set (past1 := Event _ _ :: past). assert (S1 : past `suffix_of` past1) by by apply suffix_step.
  assert (Ht : typed past1 passphrase) by (eexists; by left). pose proof (confirmed_later _ _ _ S1 Hp) as Hp1.
  set (config_ready past' := since p past' (Event (Call.Lstat (ly_ConfigPath l)) None) ∧ on_volume p past' (ly_ConfigPath l) (ly_ConfigVolumeUUID l)).
  apply (wp_or_stop _ _ _ _ _ (λ past' _, config_ready past')); [done|..].
  { apply wp_Recheck; [apply asks_facts|intros past' [|] ? ?; done|]. intros past' S' (vol&Hvol&Hu&_). split; [done|].
    assert (Hs : ∀ e, fresh past1 past' e → since p past' e) by (intros e; by apply since_fresh). split; [by apply Hs, (located_missing _ _ vol)|].
    right. exists true, vol. split; [by apply (located_mono (fresh past1 past'))|done]. }
  intros past2 [] S2 [Hnone Hon]. assert (S02 : past `suffix_of` past2) by (etransitivity; [exact S1|exact S2]).
  apply wp_ask; [done|]. intros info. set (past3 := Event _ _ :: past2). assert (S3 : past2 `suffix_of` past3) by by apply suffix_step.
  assert (S13 : past1 `suffix_of` past3) by (etransitivity; [exact S2|exact S3]).
  apply wp_bind, (wp_mono _ _ _ (λ past' r, past `suffix_of` past' ∧ match r with inl _ => False | inr _ => True end) _ (λ past' _, past3 `suffix_of` past')).
  { intros past' [r|code]; [by intros [_ []]|]. by intros [? _]; split. }
  2: { destruct info; [cbn; reflexivity|]. eapply wp_call; [apply (spec_mkdir p); [carry|done|do 2 right; by left]|].
       intros past' [[]|code] [S' _]; [done|]. split; [etransitivity; [exact S1|etransitivity; [exact S13|exact S']]|done]. }
  intros past4 [] S4. assert (S24 : past2 `suffix_of` past4) by (etransitivity; [exact S3|exact S4]). assert (S14 : past1 `suffix_of` past4) by (etransitivity; [exact S2|exact S24]).
  assert (S04 : past `suffix_of` past4) by (etransitivity; [exact S1|exact S14]).
  apply wp_bind, (spec_createVaultDevice p); [carry|carry|carry|carry|carry|..].
  { intros past' e S'. split; [etransitivity; [exact S04|exact S']|done]. }
  intros past' u key id fingerprint S' Hmade. apply wp_ask; [done|]. intros []. split; [apply suffix_step; etransitivity; [exact S04|exact S']|].
  split; [carry|]. carry.
Qed.

Definition after_export (past : history) (_ : unit) : Prop := ∃ path sealed, Event (Call.WriteArtifact path sealed) true ∈ past.

Lemma spec_list_records {R} u vaultKey past (Ret : history → R → Prop) Q (p : Plan) : confirmed p past →
  (∀ past' e, past `suffix_of` past' → Q past' (inr e)) →
  (∀ past' l encrypted, past `suffix_of` past' → Event (Call.Command (Commands.Call.ListRecords u)) (Ok encrypted) ∈ past' →
     DecryptRecords (cf_VaultID (un_Config u)) vaultKey encrypted = Ok l → Q past' (inl l)) →
  wp guard (attempt (lift (@Call.Command) (list_records u vaultKey))) past Ret Q.
Proof.
  intros Hp HE HQ. unfold list_records. split; [by exists p|]. intros [encrypted|e]; [|by apply HE, suffix_step]. cbn [flow_bind_ try].
  cbn [mbind flow_bind flow_bind_ lift attempt try mret flow_ret wp]. destruct (DecryptRecords (cf_VaultID (un_Config u)) vaultKey encrypted) as [l|e] eqn:Ed; [|by apply HE, suffix_step]. eapply HQ; [by apply suffix_step|by left|done].
Qed.

Lemma spec_export p v passphrase past : confirmed p past → made_vault p past v → typed past passphrase → nonempty (ly_BackupDir (pl_Layout p)) = true →
  wp guard (recovery_export (pl_Layout p) v passphrase) past (ends past after_export) (ends past after_export).
Proof.
  intros Hp Hv Ht Hdir. unfold recovery_export. set (l := pl_Layout p) in *. destruct v as [u vaultKey].
  apply wp_ask; [exists p; split; [done|]; split; [done|by right]|]. intros [rp|]; [|by split; [apply suffix_step|]].
  set (past1 := Event _ _ :: past). assert (S1 : past `suffix_of` past1) by by apply suffix_step.
  apply (wp_passing _ _ _ _ (λ past' _, on_volume p past' (ly_BackupDir l) (ly_BackupVolumeUUID l))); [done|apply spec_recheck; [carry|done]|].
  intros past2 [] S2 Hon. assert (S02 : past `suffix_of` past2) by (etransitivity; [exact S1|exact S2]).
  apply wp_ask; [exists p; split; [carry|done]|]. intros objs. set (past3 := Event _ _ :: past2). assert (S3 : past2 `suffix_of` past3) by by apply suffix_step.
  assert (S03 : past `suffix_of` past3) by (etransitivity; [exact S02|exact S3]).
  destruct objs as [objs|e]; [|by split]. apply wp_bind, (spec_list_records _ _ _ _ _ p); [carry|intros past' e S'; split; [by etransitivity|done]|].
  intros past4 l' encrypted S4 Hlisted Hdec. apply wp_ask; [exists p; split; [carry|done]|]. intros salt.
  apply wp_ask; [exists p; split; [carry|done]|]. intros nonce.
  set (past6 := Event _ _ :: _). assert (S46 : past4 `suffix_of` past6) by (by do 2 apply suffix_step).
  assert (S36 : past3 `suffix_of` past6) by (etransitivity; [exact S4|exact S46]). assert (S06 : past `suffix_of` past6) by (etransitivity; [exact S03|exact S36]).
  destruct (SealSnapshot salt nonce {| rv_Records := l'; rv_Objects := objs |} rp) as [sealed|e] eqn:Es; [|by split]. apply wp_ask; [done|]. intros now. set (past7 := Event _ _ :: past6).
  assert (S67 : past6 `suffix_of` past7) by by apply suffix_step. assert (S07 : past `suffix_of` past7) by (etransitivity; [exact S06|exact S67]).
  apply wp_ask.
  - exists p. split; [carry|]. assert (S37 : past3 `suffix_of` past7) by (etransitivity; [exact S36|exact S67]).
    eexists (u, vaultKey), _, passphrase, rp, salt, nonce, encrypted, l', objs, now. split_and!; [carry|carry|..|done|done|].
    + eapply suffix_elem; [etransitivity; [exact S2|etransitivity; [exact S3|exact S37]]|by left].
    + eapply suffix_elem; [etransitivity; [exact S46|exact S67]|done].
    + done.
    + eapply suffix_elem; [exact S37|by left].
    + carry.
  - intros written. apply wp_stop_if; [by apply suffix_step|]. intros ->%negb_false_iff. split; [by apply suffix_step|]. eexists _, sealed. by left.
Qed.

Lemma spec_write_layout p v past : confirmed p past → made_vault p past v →
  wp guard (write_layout (pl_Layout p)) past (ends past (λ past' _, layout_written (pl_Layout p) past')) (ends past (λ past' _, layout_written (pl_Layout p) past')).
Proof.
  intros Hp Hv. unfold write_layout. apply (wp_call _ _ _ _ _ _ (λ past' b, past `suffix_of` past' ∧ (b = true → layout_written (pl_Layout p) past'))).
  2: { intros past' b [Hs Hb]. apply wp_stop_if; [done|]. intros Hw%negb_false_iff. split; [done|by apply Hb]. }
  unfold writePrivateFile. set (layout := layoutPath _).
  assert (HG : ∀ past' X (c : call X), past `suffix_of` past' → permitted p past' X c → (∀ past, (∃ p, confirmed p past ∧ permitted p past X c) → guard past X c) → guard past' X c).
  { intros past' X c Hs Hc H. apply H. exists p. split; [carry|done]. }
  apply wp_ask; [apply HG; [done|split; [done|right; split; [done|by exists v]]|done]|]. intros [|]; [|by split; [apply suffix_step|]].
  apply wp_ask; [apply HG; [by apply suffix_step|split_and!; [done..|exists v; carry]|done]|]. intros [|]; [|by split; [do 2 apply suffix_step|]].
  apply wp_ask; [apply HG; [by do 2 apply suffix_step|done|done]|]. intros [|]; [|by split; [do 3 apply suffix_step|]].
  split; [apply HG; [by do 3 apply suffix_step|by right|done]|]. intros b. split; [by do 4 apply suffix_step|]. intros ->.
  split_and!; [right; right; by left|right; by left|by left].
Qed.

(** ** The steps *)

Lemma setup_progress_later p past past' vault done : past `suffix_of` past' → progress p past vault done → progress p past' vault done.
Proof.
  intros Hs (Hp&Hd&Hv&He). split_and!; [carry|done| |].
  - destruct (bool_decide _); [|done]. destruct Hv as (v&?&?). exists v. split; [done|carry].
  - intros id H. eapply step_done_later; [done|by apply He].
Qed.

(** A step is added to those that are done. *)
Lemma progress_snoc p past vault vault' done id rest : progress p past vault done → st_ID <$> pl_Steps p = done ++ id :: rest →
  (if String.eqb id "create_vault" then ∃ v, vault' = Some v ∧ made_vault p past v else vault' = vault) →
  step_done p past id → progress p past vault' (done ++ [id]).
Proof.
  intros (Hp&_&Hv&He) Hids Hvault Hdone. split_and!; [done| | |].
  - rewrite Hids. exists rest. by rewrite <-(assoc_L app).
  - destruct (String.eqb_spec id "create_vault") as [->|Hne].
    + rewrite bool_decide_eq_true_2; [done|]. apply elem_of_app. right. by left.
    + subst vault'. rewrite (bool_decide_ext _ ("create_vault" ∈ done)); [done|]. rewrite elem_of_app, list_elem_of_singleton. split; [intros [?|E]; [done|by symmetry in E]|by left].
  - intros id' [Hi|Hi]%elem_of_app; [by apply He|]. apply list_elem_of_singleton in Hi. by subst id'.
Qed.

Lemma spec_step {A B} p vault done id rest (q : stepping A) (f : A * list string → flow call Applied B) past K Q :
  progress p past vault done → st_ID <$> pl_Steps p = done ++ id :: rest → wp guard q past (ends past K) (ends past K) →
  (∀ past' a, past `suffix_of` past' → K past' a → wp guard (f (a, done ++ [id])) (Event (Call.Notify ("done: " +:+ id)) tt :: past') applied_ok Q) →
  wp guard (x ← step vault done id q; f x) past applied_ok Q.
Proof.
  intros Hprog Hids Hq Hf. unfold step. apply wp_bind, (wp_call _ _ _ _ _ _ (ends past K)); [done|]. intros past' [a|code] [Hs HK].
  - split; [by unfold guard|]. intros []. by apply Hf.
  - split; [by unfold guard|]. intros []. right. exists p, id, past'. split; [done|]. split; [eapply setup_progress_later; [|exact Hprog]; by apply suffix_step|].
    rewrite Hids. exists rest. by rewrite <-(assoc_L app).
Qed.

(** A step that leaves the vault as it is. *)
Lemma spec_plain_step {A B} p vault done id rest (q : stepping A) (f : A * list string → flow call Applied B) past K Q :
  progress p past vault done → st_ID <$> pl_Steps p = done ++ id :: rest → String.eqb id "create_vault" = false →
  wp guard q past (ends past K) (ends past K) → (∀ past' a, K past' a → step_done p past' id) →
  (∀ past' a, past `suffix_of` past' → K past' a → let past' := Event (Call.Notify ("done: " +:+ id)) tt :: past' in
     progress p past' vault (done ++ [id]) → wp guard (f (a, done ++ [id])) past' applied_ok Q) →
  wp guard (x ← step vault done id q; f x) past applied_ok Q.
Proof.
  intros Hprog Hids Hc Hq HK Hf. eapply spec_step; [done|done|exact Hq|]. intros past' a Hs Ha. apply Hf; [done..|].
  eapply progress_snoc; [eapply setup_progress_later; [|exact Hprog]; by apply suffix_step|done|by rewrite Hc|].
  eapply step_done_later; [|by eapply HK]. by apply suffix_step.
Qed.

(** The places of a plan are there. *)
Lemma located_nonempty seen path ft vol : located seen path ft vol → nonempty path = true ∧ nonempty (Dir path) = true.
Proof.
  intros (Ha&Hc&_). destruct (clean_is_path path Ha Hc) as [E Hl]. rewrite E. split; [done|]. destruct (elements path) as [|e l _] using rev_ind; [by vm_compute|].
  apply Forall_app in Hl as [Hl He]. inversion He; subst. by rewrite Dir_path.
Qed.

Lemma planned_places p past : planned p past →
  pl_Steps p = stepsFor (pl_Layout p) ∧ nonempty (ly_BackupDir (pl_Layout p)) = true ∧ nonempty (Dir (ly_ConfigPath (pl_Layout p))) = true ∧
  (if String.eqb (ly_Sync (pl_Layout p)) SyncLocalServer then nonempty (ly_VaultDir (pl_Layout p)) = true else ly_Sync (pl_Layout p) = SyncHosted).
Proof.
  intros (req&_&Hsteps&_&_&_&_&_&_&_&(cvol&Hc&_)&_&(bvol&Hb&_)&Hv). split_and!; [done|by eapply located_nonempty..|].
  destruct (String.eqb _ _); [|by destruct Hv]. destruct Hv as (_&(vvol&Hvol&_)&_). by eapply located_nonempty.
Qed.

(** From the backup directory on. *)
Definition after_service (l : Layout) (done : list string) : flow call Applied Applied :=
  '(_, done) ← step None done "prepare_backup_dir" (mkdir (ly_BackupDir l) (ly_BackupVolumeUUID l));
  '(vault, passphrase, done) ← step None done "create_vault" (create_vault l);
  '(_, done) ← step (Some vault) done "recovery_export" (recovery_export l vault passphrase);
  '(_, done) ← step (Some vault) done "write_layout" (write_layout l);
  mret (Some vault, done, None).

Lemma spec_after_service p past done : progress p past None done → service_ready (pl_Layout p) past →
  nonempty (ly_BackupDir (pl_Layout p)) = true → nonempty (Dir (ly_ConfigPath (pl_Layout p))) = true →
  st_ID <$> pl_Steps p = done ++ ["prepare_backup_dir"; "create_vault"; "recovery_export"; "write_layout"] →
  wp guard (after_service (pl_Layout p) done) past applied_ok applied_ok.
Proof.
  intros Hprog Hready Hb Hd Hids. unfold after_service. set (l := pl_Layout p) in *.
  eapply spec_plain_step; [done..|apply spec_mkdir; [apply Hprog|done|right; by left]|by intros past' a H; do 2 right; left|]. intros past1 [] S1 _ past1' P1.
  assert (Hids1 : st_ID <$> pl_Steps p = (done ++ ["prepare_backup_dir"]) ++ ["create_vault"; "recovery_export"; "write_layout"]) by (by rewrite <-(assoc_L app)).
  set (done1 := done ++ ["prepare_backup_dir"]) in *. assert (R1 : service_ready l past1') by carry.
  eapply spec_step; [done|exact Hids1|apply spec_create_vault; [apply P1|done..]|]. intros past2 [v passphrase] S2 [Hv Ht]. set (past2' := Event _ _ :: past2). cbn [fst snd] in *.
  assert (P2 : progress p past2' (Some v) (done1 ++ ["create_vault"])).
  { eapply progress_snoc; [eapply setup_progress_later; [|exact P1]; by apply suffix_step|exact Hids1|exists v; split; [done|]; carry|].
    do 3 right; left. split; [done|]. exists v. carry. }
  assert (Hids2 : st_ID <$> pl_Steps p = (done1 ++ ["create_vault"]) ++ ["recovery_export"; "write_layout"]) by (by rewrite <-(assoc_L app)).
  set (done2 := done1 ++ ["create_vault"]) in *. assert (V2 : made_vault p past2' v) by carry. assert (T2 : typed past2' passphrase) by carry.
  eapply spec_step; [done|exact Hids2|apply spec_export; [apply P2|done..]|]. intros past3 [] S3 He. set (past3' := Event _ _ :: past3).
  assert (P3 : progress p past3' (Some v) (done2 ++ ["recovery_export"])).
  { eapply progress_snoc; [eapply setup_progress_later; [|exact P2]; by apply suffix_step|exact Hids2|done|]. destruct He as (path&sealed&He).
    do 4 right; left. split; [done|]. exists path, sealed. by right. }
  assert (Hids3 : st_ID <$> pl_Steps p = (done2 ++ ["recovery_export"]) ++ ["write_layout"]) by (by rewrite <-(assoc_L app)).
  eapply spec_plain_step; [exact P3|exact Hids3|done|apply (spec_write_layout p v); [apply P3|carry]|by intros past' a H; do 5 right|]. intros past4 [] S4 _ past4' P4.
  exists p. split; [done|]. by rewrite Hids3.
Qed.

Lemma good_plan_mono (seen seen' : event call → Prop) req p : (∀ e, seen e → seen' e) → good_plan seen req p → good_plan seen' req p.
Proof.
  intros H (?&?&?&?&?&?&?&?&?&?&?&Hv). split_and!; try done; [by apply (at_volume_mono seen)..|].
  destruct (String.eqb _ _); [|done]. destruct Hv as (?&?&?). split_and!; [done|by apply (at_volume_mono seen)|done].
Qed.

(** Planning only looks. *)
Lemma wp_looks {A R} G (q : flow call R A) past Ret Q :
  wp G q past Ret Q → wp (λ _ X (c : call X), looking c) q past (λ _ _, True) (λ _ _, True) → Forall looks past →
  wp G q past (λ past' r, Ret past' r ∧ Forall looks past') (λ past' a, Q past' a ∧ Forall looks past').
Proof.
  revert past. induction q as [a|r|X c k IH]; intros past; cbn [wp]; [by split..|]. intros [HG Hk] [Hc Hk'] Hl. split; [done|].
  intros x. apply IH; [apply Hk|apply Hk'|by constructor].
Qed.
Lemma PlanFor_looks req past : wp (λ _ X (c : call X), looking c) (PlanFor req) past (λ _ _, True) (λ _ _, True).
Proof. by apply wp_PlanFor. Qed.

Lemma spec_replan : wp guard (replan raw) [] applied_ok (λ past p, planned p past ∧ Forall looks past).
Proof.
  unfold replan. destruct (setup_of_json raw) as [[req [|]]|] eqn:Ej.
  2-3: left; split; [done|]; split; [done|]; split; [constructor|]; left; split; [done|intros req' E; congruence].
  apply (wp_call _ _ _ _ _ _ (λ past r, match r with Ok p => planned p past | Err e => e ≠ "out of rounds" end ∧ Forall looks past)).
  - apply wp_looks; [|apply PlanFor_looks|done]. apply wp_PlanFor; [apply asks_facts|by intros past' [|] ? ?|]. intros past' p _ Hgood. exists req. split; [done|].
    eapply good_plan_mono; [|exact Hgood]. intros e He. by eapply fresh_elem.
  - intros past' [p|e] [H Hl]; [done|]. apply wp_ask; [cbn; intros E; apply H, (inj (String.append "setup refused: ") e "out of rounds"), E|].
    intros []. left. split; [done|]. split; [done|]. split; [by constructor|]. right; left. split; [done|]. by exists e, past'.
Qed.

Lemma spec_Apply : wp guard (Apply allowExistingServer patience raw) [] applied_ok applied_ok.
Proof.
  unfold Apply. apply wp_bind. eapply wp_mono; [done| |apply spec_replan]. intros past p [Hplanned Hlooks]. cbn beta zeta.
  destruct (planned_places p past Hplanned) as (Hsteps&Hb&Hd&Hv). set (l := pl_Layout p) in *.
  assert (Hno : negb (String.eqb (ly_Sync l) SyncLocalServer) && negb (String.eqb (ly_Sync l) SyncHosted) = false).
  { destruct (String.eqb (ly_Sync l) SyncLocalServer); [done|]. by rewrite Hv. }
  apply wp_bind. rewrite Hno. cbn [wp mret flow_ret].
  apply wp_ask; [left; split; [done|]; by exists p|]. intros answer. set (past1 := Event _ answer :: past).
  assert (Hl1 : Forall looks past1) by by constructor.
  assert (Hdenied : answer ≠ Some true → applied_ok past1 (None, [], Some CodeDeniedSetup)).
  { intros Ha. left. split; [done|]. split; [done|]. split; [done|]. do 2 right. split; [done|]. exists p, past. split; [done|]. left. by exists answer. }
  destruct answer as [[|]|]; [|by apply Hdenied..]. cbn [default from_option].
  assert (P1 : confirmed p past1) by by exists past. apply wp_bind, wp_ask; [done|]. intros [|].
  { left. split; [done|]. split; [done|]. split; [by constructor|]. do 2 right. split; [done|]. exists p, past. split; [done|by right]. }
  cbn [wp mret flow_ret]. set (past2 := Event _ _ :: past1).
  assert (S2 : past1 `suffix_of` past2) by by apply suffix_step. assert (P2 : progress p past2 None []).
  { split_and!; [carry|by apply prefix_nil|done|by intros ? ?%not_elem_of_nil]. }
  unfold stepsFor in Hsteps. fold l in Hsteps. destruct (String.eqb_spec (ly_Sync l) SyncLocalServer) as [El|Hne].
  - assert (Hids : st_ID <$> pl_Steps p = [] ++ ["prepare_vault_dir"; "install_service"; "prepare_backup_dir"; "create_vault"; "recovery_export"; "write_layout"]) by by rewrite Hsteps.
    apply wp_bind. eapply spec_plain_step; [exact P2|exact Hids|done|apply spec_mkdir; [apply P2|done|by left]|by intros past' a H; left|]. intros past3 [] S3 (_&_&Hvol) past3' P3.
    eapply spec_plain_step; [exact P3|exact Hids|done|apply spec_install; [apply P3|done|]|by intros past' a H; right; left|].
    { eapply volume_seen_mono; [|exact Hvol]. intros e He. carry. }
    intros past4 [] S4 Hready past4' P4. apply (spec_after_service p); [exact P4|carry|done|done|by rewrite Hids].
  - apply (spec_after_service p); [exact P2|by left|done|done|by rewrite Hsteps].
Qed.

(** C36: whatever the file system, the owner, the service manager and the service answer, and
    however they change: directories are made, the service is installed, the vault is made
    and its artifact and layout are written only as a plan says that the owner has confirmed,
    at places that were checked to be on the confirmed volumes since then; the plan was made
    of the request by what was seen, with the identity on an internal volume and the backups
    on another volume than the vault; passphrases are asked of the owner only.  What is
    returned says exactly how far it came: each step that it lists was done (its directory was
    made private on the confirmed volume, its service answers, its vault was made and is
    returned, its artifact, its layout was written); with a failure the step after them is the
    one that failed, and the owner was told; a refusal before the first step changed nothing. *)
Theorem setup_does_what_was_confirmed {W} `{!World call W} (w : W) :
  let '(past, r, _) := run (Apply allowExistingServer patience raw) w [] in lawful guard past ∧ applied_ok past r.
Proof. apply wp_run; [apply spec_Apply|done]. Qed.

(** The wait for the service ends: each round sleeps a quarter of a second, so that no more
    than 82 of them fit before the deadline of twenty seconds has passed. *)
Theorem setup_stops_waiting {W} `{!World call W} (clock : W → Z) (l : Layout) (w : W) past :
  (∀ X (c : call X) w, clock w ≤ clock (answer X c w).2) → (∀ w, (answer _ Call.Now w).1 = clock (answer _ Call.Now w).2) →
  (∀ d w, clock w + d ≤ clock (answer _ (Call.Sleep d) w).2) → (82 ≤ patience)%nat →
  (run (enter (R:=unit + string) (install_service allowExistingServer patience l)) w past).1.2 ≠ inr "out of rounds".
Proof.
  intros Hmono Hnow Hsleep Hpatience.
  assert (Hwait : ∀ rounds w past url deadline, (1 ≤ rounds)%nat → deadline < clock w + (Z.of_nat rounds - 1) * 250000000 →
    (run (enter (R:=unit + string) (wait_healthy rounds url deadline)) w past).1.2 ≠ inr "out of rounds").
  { induction rounds as [|rounds IH]; intros w1 past1 url deadline Hr Hd; [lia|]. cbn.
    pose proof (Hmono _ (Call.Healthy url) w1) as M1. destruct (answer _ (Call.Healthy url) w1) as [[|] w2]; [done|]. cbn in *.
    pose proof (Hmono _ Call.Now w2) as M2. pose proof (Hnow w2) as Hn. destruct (answer _ Call.Now w2) as [now w3]. cbn in *. subst now.
    unfold stop_if. destruct (Z.ltb_spec deadline (clock w3)); [done|]. cbn.
    pose proof (Hsleep 250000000 w3) as M3. destruct (answer _ (Call.Sleep 250000000) w3) as [[] w4]. cbn in *. apply IH; lia. }
  unfold install_service. cbn. destruct (answer _ (Call.Healthy _) w) as [[|] w1]; cbn.
  - destruct (negb allowExistingServer); cbn; [by destruct (answer _ _ w1)|]. destruct (answer _ _ w1) as [a w2]. cbn. unfold stop_if. by destruct (negb _).
  - destruct (answer _ (Call.Install l) w1) as [installed w2]. unfold stop_if. destruct (negb installed); [done|]. cbn.
    pose proof (Hnow w2) as Hn. destruct (answer _ Call.Now w2) as [now w3]. cbn in *. subst now. apply Hwait; lia.
Qed.

End Safety.

(** ** A setup *)

Module SetupDemo.
Export CommandsDemo.
#[local] Existing Instances OriginDemo.urls OriginDemo.hosts LocalDemo.kdf CommandsDemo.crypto CommandsDemo.records CommandsDemo.access_codec LocalDemo.codec
  RecoveryDemo.objects RecoveryDemo.codec.

Definition request : Request :=
  {| rq_Sync := SyncLocalServer; rq_ServerURL := ""; rq_Listen := ""; rq_VaultName := "home"; rq_DeviceName := "laptop";
     rq_ConfigPath := "/home/me/envbank/device.json"; rq_VaultDir := "/vault/data"; rq_BackupDir := "/backup/envbank" |}.
(** Requests under a name: the second keeps the backups on the volume of the vault. *)
#[local] Instance setups : SetupCodec := {|
  setup_of_json raw := if String.eqb raw "request" then Some (request, true)
    else if String.eqb raw "same volume" then Some ({| rq_Sync := SyncLocalServer; rq_ServerURL := ""; rq_Listen := ""; rq_VaultName := "home"; rq_DeviceName := "laptop";
      rq_ConfigPath := "/home/me/envbank/device.json"; rq_VaultDir := "/vault/data"; rq_BackupDir := "/vault/backup" |}, true)
    else None;
  layout_json l := "layout of " +:+ ly_VaultName l |}.

(** A machine: its directories, whether the service runs, and what was told and made. *)
Record Host := { ho_dirs : list string; ho_running : bool; ho_told : list string; ho_made : list string }.
Definition tell (line : string) (h : Host) : Host := {| ho_dirs := ho_dirs h; ho_running := ho_running h; ho_told := line :: ho_told h; ho_made := ho_made h |}.
Definition make (what : string) (h : Host) : Host := {| ho_dirs := ho_dirs h; ho_running := ho_running h; ho_told := ho_told h; ho_made := what :: ho_made h |}.
Definition volume_named (uuid : string) : Volume := {| vl_UUID := uuid; vl_Name := uuid; vl_OwnersEnabled := true; vl_Internal := String.eqb uuid "INTERNAL"; vl_Writable := true |}.
Definition directory : Info := {| in_Dir := true; in_Symlink := false; in_Perm := 448; in_Mine := true; in_Group := 0 |}.

Definition answer_command {X} (c : Commands.call X) (h : Host) : X * Host :=
  match c in Commands.Call.call X return X * Host with
  | Commands.Call.NewDeviceKeys => (Ok CommandsDemo.keys, h)
  | Commands.Call.Random n => (Ok (zeros (Z.to_nat n)), h)
  | Commands.Call.CreateVault server _ name _ => (Ok ("v1", "d1"), make ("vault " +:+ name +:+ " at " +:+ server) h)
  | Commands.Call.SaveConfig path _ => (Ok tt, make path h)
  | Commands.Call.ListRecords _ => (Ok [], h)
  | c => ((CommandsDemo.machine _ c {| mc_records := []; mc_printed := []; mc_ran := [] |}).1, h)
  end.
#[local] Instance host : World call Host := λ X c h,
  match c in Call.call X return X * Host with
  | Call.Lstat path => (if bool_decide (path ∈ ho_dirs h) then Some directory else None, h)
  | Call.VolumeOf path => (Some (volume_named (if has_prefix "/vault" path then "VAULT" else if has_prefix "/backup" path then "BACKUP" else "INTERNAL")), h)
  | Call.MkdirAll path _ => (true, {| ho_dirs := path :: ho_dirs h; ho_running := ho_running h; ho_told := ho_told h; ho_made := path :: ho_made h |})
  | Call.Chmod _ _ => (true, h)
  | Call.WriteFile _ _ _ => (true, h)
  | Call.Rename _ to => (true, make to h)
  | Call.ConfirmPlan title lines => (Some true, h)
  | Call.Cancelled => (false, h)
  | Call.NewPassphrase _ _ _ => (Some "correct horse", h)
  | Call.Notify line => (tt, tell line h)
  | Call.Healthy _ => (ho_running h, h)
  | Call.Install _ => (true, {| ho_dirs := ho_dirs h; ho_running := true; ho_told := ho_told h; ho_made := "service" :: ho_made h |})
  | Call.Now => (0, h)
  | Call.Sleep _ => (tt, h)
  | Call.ListObjects _ _ => (Ok [], h)
  | Call.WriteArtifact path _ => (true, make path h)
  | Call.Command c => answer_command c h
  end.

Definition fresh_host (running : bool) : Host :=
  {| ho_dirs := ["/"; "/home"; "/home/me"; "/vault"; "/backup"]; ho_running := running; ho_told := []; ho_made := [] |}.
Definition outcome (raw : string) (running : bool) : bool * list string * option string * Host :=
  let '(_, (vault, done, code), h) := run (Apply false 82 raw) (fresh_host running) [] in (bool_decide (is_Some vault), done, code, h).

(** Everything that is made, in its order. *)
Example setup_succeeds : let '(vault, done, code, h) := outcome "request" false in
  vault = true ∧ done = ["prepare_vault_dir"; "install_service"; "prepare_backup_dir"; "create_vault"; "recovery_export"; "write_layout"] ∧ code = None ∧
  reverse (ho_made h) = ["/vault/data"; "service"; "/backup/envbank"; "/home/me/envbank"; "vault home at http://127.0.0.1:7337"; "/home/me/envbank/device.json";
    "/backup/envbank/envbank-recovery-home-19700101T000000Z.ebr"; "/home/me/envbank"; "/home/me/envbank/layout.json"].
Proof. vm_compute. done. Qed.

(** What answers on the port already is not used unless the owner allowed it. *)
Example setup_refuses_another_server : let '(vault, done, code, h) := outcome "request" true in
  vault = false ∧ done = ["prepare_vault_dir"] ∧ code = Some "SETUP_PORT_IN_USE" ∧ ho_made h = ["/vault/data"].
Proof. vm_compute. done. Qed.

Example setup_keeps_backups_apart : let '(vault, done, code, h) := outcome "same volume" false in
  vault = false ∧ done = [] ∧ code = Some "SETUP_PLAN_REFUSED" ∧ ho_told h = ["setup refused: backup_dir must be on a different volume than vault_dir"] ∧ ho_made h = [].
Proof. vm_compute. done. Qed.
End SetupDemo.
