(* ===== verification/Migration.v ===== *)
(** The opening of the service's database: [Open], [openDatabase] and [migrateSchema] of
    internal/server/server.go, and the import of the JSON state of the first version,
    migrate.go.  A program over a directory of files, whose every call may fail. *)
From S2P Require Import Prelude Timestamp Text Secure Protocol ServerState.
From S2P Require Export Program.
From stdpp Require Import options.

(** ** The state of the first version *)

Record LegacyEnrollment := { le_Device : PublicDevice; le_Approved : bool; le_Envelope : option WrappedKey }.
(** The values of the maps, in the order in which they are visited. *)
Record LegacyVault := {
  lv_ID : string; lv_Name : string; lv_Devices : list PublicDevice; lv_Enrollments : list LegacyEnrollment; lv_Records : list Record_;
  lv_CreatedAt : string;
}.
Record LegacyState := { ls_Version : Z; ls_Vaults : list LegacyVault; ls_Nonces : list (string * string) }.

(** [json.Unmarshal]; a map with a null vault or enrollment, which would panic, is no state. *)
Class LegacyCodec := { legacy_of_json : string → option LegacyState }.

(** ** The import *)

(** The rows that the import inserts. *)
Inductive Row :=
| VaultOf (id : string) (row : VaultRow)
| DeviceOf (vault : string) (device : PublicDevice)
| EnrollmentOf (vault id : string) (row : EnrollmentRow)
| RecordOf (vault id : string) (row : RecordRow)
| NonceOf (vault device nonce created_at : string).

Definition insert_row (r : Row) : Statement :=
  match r with
  | VaultOf id row => insert_vault id (v_name row) (v_created_at row)
  | DeviceOf vault device => insert_device vault device
  | EnrollmentOf vault id row => insert_new enrollments with_enrollments (vault, id) row
  | RecordOf vault id row => insert_revision records with_records vault id row
  | NonceOf vault device nonce created_at => insert_nonce vault device nonce created_at
  end.

Definition import_error (r : Row) : string :=
  match r with
  | VaultOf _ _ => "import vault" | DeviceOf _ _ => "import device" | EnrollmentOf _ _ _ => "import enrollment"
  | RecordOf _ _ _ => "import record" | NonceOf _ _ _ _ => "import nonce"
  end.

(** [bytes.SplitN(key, []byte{0}, 3)], when it has three parts. *)
Fixpoint cut_first (c : ascii) (s : string) : option (string * string) :=
  match s with
  | EmptyString => None
  | String d rest => if Ascii.eqb d c then Some ("", rest) else '(before, after) ← cut_first c rest; Some (String d before, after)
  end.
Definition nonce_parts (key : string) : option (string * string * string) :=
  '(vault, rest) ← cut_first "000" key;
  '(device, nonce) ← cut_first "000" rest;
  Some (vault, device, nonce).

Definition vault_rows (v : LegacyVault) : list Row :=
  VaultOf (lv_ID v) {| v_name := lv_Name v; v_created_at := lv_CreatedAt v |} ::
  (DeviceOf (lv_ID v) <$> lv_Devices v) ++
  ((λ e, EnrollmentOf (lv_ID v) (dev_ID (le_Device e)) {| e_device := le_Device e; e_approved := le_Approved e; e_envelope := le_Envelope e |}) <$> lv_Enrollments v) ++
  ((λ r, RecordOf (lv_ID v) (rec_ID r) {| r_revision := rec_Revision r; r_blob := rec_Blob r; r_modified_at := rec_ModifiedAt r |}) <$> lv_Records v).

Definition nonce_row (entry : string * string) : list Row :=
  match nonce_parts entry.1 with Some (vault, device, nonce) => [NonceOf vault device nonce entry.2] | None => [] end.

Definition rows_of (state : LegacyState) : list Row := (ls_Vaults state ≫= vault_rows) ++ (ls_Nonces state ≫= nonce_row).

(** The loops of [importLegacyState], inside its transaction. *)
Fixpoint insert_rows (l : list Row) (db : Db) : result Db :=
  match l with
  | [] => Ok db
  | r :: l => match insert_row r db with Some (db, _) => insert_rows l db | None => Err (import_error r) end
  end.
Definition importLegacyState (state : LegacyState) : Db → result Db := insert_rows (rows_of state).

(** ** Files *)

(** A text, or a database with the version of its schema; a schema that has no table of some
    kind yet has no row in it. *)
Inductive File := TextFile (text : string) | Database (version : Z) (db : Db).
Abbreviation Directory := (gmap string File).

Module Call.
Inductive call : Type → Type :=
| MkdirAll (path : string) : call bool
| ReadFile (path : string) : call (result (option string))
| Remove (path : string) : call bool
| Stat (path : string) : call (result bool)
| Rename (from to : string) : call bool
| Chmod (path : string) : call bool
(** [sql.Open] and [Ping] *)
| Connect (path : string) : call bool
| UserVersion (path : string) : call (result Z)
| Now : call Z
(** A transaction that leaves the schema at a version, with what its statements do. *)
| Transact (path : string) (version : Z) (statements : Db → result Db) : call (result unit)
| Close (path : string) : call bool.
End Call.
Abbreviation call := Call.call.
Abbreviation program A := (flow call (result A) (result A)).

Definition failing {R A} (msg : string) : flow call (result R) A := Exit (Err msg).
Definition fail_if {R} (c : bool) (msg : string) : flow call (result R) unit := if c then failing msg else mret tt.
(** [if err != nil { return ..., err }] *)
Definition try_ {R A} (r : result A) : flow call (result R) A := match r with Ok a => mret a | Err msg => failing msg end.

(** ** The schema *)

(** [UPDATE nonces SET created_at = now] *)
Definition refresh_nonces (now : Z) (db : Db) : Db := with_nonces ((λ _, format_rfc3339 now) <$> nonces db) db.
(** [ALTER TABLE devices ADD COLUMN revoked_at] *)
Definition add_revoked_at (db : Db) : Db := with_devices ((λ row, {| d_device := d_device row; d_revoked_at := None |}) <$> devices db) db.
(** The sequence of a table that was copied is its greatest one. *)
Definition copy_events (db : Db) : Db := with_events (access_events db) (foldr Z.max 0 (ev_sequence <$> access_events db)) db.

Definition migrate_to {R} (path : string) (version : Z) (f : Db → Db) : flow call (result R) Z :=
  done ← ask (Call.Transact path version (λ db, Ok (f db)));
  _ ← try_ (done : result unit);
  mret version.

Definition migrateSchema (path : string) : program unit :=
  version ← ask (Call.UserVersion path);
  version ← try_ (version : result Z);
  _ ← fail_if (6 <? version) ("unsupported server database version " +:+ Itoa version);
  version ← (if version =? 1 then migrate_to path 2 add_revoked_at else mret version);
  version ← (if version =? 2 then migrate_to path 3 (with_events [] 0) else mret version);
  version ← (if version =? 3 then migrate_to path 4 (λ db, with_invitations ∅ (copy_events db)) else mret version);
  version ← (if version =? 4 then now ← ask Call.Now; migrate_to path 5 (refresh_nonces now) else mret version);
  _ ← (if version =? 5 then migrate_to path 6 (λ db, copy_events db)
       else if version =? 6 then mret version
       else migrate_to path 6 id);
  mret (Ok tt).

Definition openDatabase (path : string) : program unit :=
  connected ← ask (Call.Connect path);
  _ ← fail_if (negb connected) "open server database";
  migrated ← enter (migrateSchema path);
  match (migrated : result unit) with
  | Ok _ => mret (Ok tt)
  | Err msg => _ ← ask (Call.Close path); failing msg
  end.

(** ** Opening *)

Section Open.
Context {codec : LegacyCodec}.

Definition readLegacyState (path : string) : program (option LegacyState) :=
  raw ← ask (Call.ReadFile path);
  match (raw : result (option string)) with
  | Err msg => failing msg
  | Ok None => mret (Ok None)
  | Ok (Some raw) =>
      if negb (has_prefix "{" (TrimSpace raw)) then mret (Ok None)
      else
        match legacy_of_json raw with
        | None => failing "decode legacy server state"
        | Some state =>
            _ ← fail_if (negb (ls_Version state =? 1)) ("unsupported server state version " +:+ Itoa (ls_Version state));
            mret (Ok (Some state))
        end
  end.

Definition migrating (path : string) : string := path +:+ ".migrating".
Definition backup (path : string) : string := path +:+ ".json.bak".

(** [_ = os.Remove(migrationPath); return nil, err] *)
Definition remove_and_fail {R A} (path msg : string) : flow call (result R) A := _ ← ask (Call.Remove (migrating path)); failing msg.

Definition migrateLegacyState (path : string) (state : LegacyState) : program unit :=
  removed ← ask (Call.Remove (migrating path));
  _ ← fail_if (negb removed) "remove";
  opened ← enter (openDatabase (migrating path));
  _ ← try_ (opened : result unit);
  imported ← ask (Call.Transact (migrating path) 6 (importLegacyState state));
  _ ← match (imported : result unit) with
      | Ok _ => mret tt
      | Err msg => _ ← ask (Call.Close (migrating path)); remove_and_fail path msg
      end;
  closed ← ask (Call.Close (migrating path));
  _ ← fail_if (negb closed) "close";
  exists_ ← ask (Call.Stat (backup path));
  _ ← match (exists_ : result bool) with
      | Ok true => remove_and_fail path ("legacy state backup already exists at " +:+ backup path)
      | Ok false => mret tt
      | Err msg => failing msg
      end;
  saved ← ask (Call.Rename path (backup path));
  _ ← (if negb saved then remove_and_fail path "rename" else mret tt);
  placed ← ask (Call.Rename (migrating path) path);
  _ ← (if negb placed then _ ← ask (Call.Rename (backup path) path); failing "rename" else mret tt);
  changed ← ask (Call.Chmod path);
  _ ← fail_if (negb changed) "chmod";
  openDatabase path.

(** [Open] of a path of a file that [filepath.Abs] has given. *)
Definition Open_ (path : string) : program unit :=
  made ← ask (Call.MkdirAll path);
  _ ← fail_if (negb made) "mkdir";
  legacy ← enter (readLegacyState path);
  match (legacy : result (option LegacyState)) with
  | Err msg => failing msg
  | Ok (Some state) => migrateLegacyState path state
  | Ok None =>
      opened ← enter (openDatabase path);
      _ ← try_ (opened : result unit);
      changed ← ask (Call.Chmod path);
      if negb changed then _ ← ask (Call.Close path); failing "chmod" else mret (Ok tt)
  end.
End Open.

(** The import of the state of the first version is complete, and at no moment is that
    state lost; and what a crash between two renames leaves. *)

(** ** What the import makes *)

(** A row is in the tables. *)
Definition has_row (db : Db) (r : Row) : Prop :=
  match r with
  | VaultOf id row => vaults db !! id = Some row
  | DeviceOf vault device => devices db !! (vault, dev_ID device) = Some {| d_device := device; d_revoked_at := None |}
  | EnrollmentOf vault id row => enrollments db !! (vault, id) = Some row
  | RecordOf vault id row => records db !! (vault, id) = Some row
  | NonceOf vault device nonce created_at => nonces db !! (vault, device, nonce) = Some created_at
  end.

(** Nothing but such rows: devices are active, under their identifiers, and the tables that
    the import does not fill are empty. *)
Definition nothing_else (db : Db) : Prop :=
  (∀ k row, devices db !! k = Some row → ∃ vault device, k = (vault, dev_ID device) ∧ row = {| d_device := device; d_revoked_at := None |}) ∧
  invitations db = ∅ ∧ vault_objects db = ∅ ∧ access_events db = [] ∧ event_sequence db = 0.

Definition nonce_key (r : Row) : option (string * string * string) :=
  match r with NonceOf vault device nonce _ => Some (vault, device, nonce) | _ => None end.

Lemma insert_new_Some `{Countable K} {V} (get : Db → gmap K V) set k v db db' n :
  insert_new get set k v db = Some (db', n) → get db !! k = None ∧ db' = set (<[k := v]> (get db)) db.
Proof. unfold insert_new. destruct (get db !! k) eqn:E; [done|]. by intros [= <- _]. Qed.

(** What a statement adds. *)
Lemma insert_row_spec r db db' n : insert_row r db = Some (db', n) → (∀ t, nonce_key r = Some t → nonces db !! t = None) →
  (∀ r', has_row db' r' ↔ has_row db r' ∨ r' = r) ∧ (nothing_else db → nothing_else db') ∧
  (∀ t, is_Some (nonces db' !! t) ↔ is_Some (nonces db !! t) ∨ nonce_key r = Some t).
Proof.
  destruct r as [id row|vault device|vault id row|vault id row|vault device nonce at_]; cbn [insert_row nonce_key]; intros Hi Hn.
  - apply insert_new_Some in Hi as [Hk ->]. split_and!; [|done|by naive_solver]. destruct row as [name created].
    intros [id' row'| | | |]; cbn; [|by naive_solver..]. rewrite lookup_insert. case_decide; naive_solver.
  - apply insert_new_Some in Hi as [Hk ->]. split_and!; [| |by naive_solver].
    + intros [|v d| | |]; cbn; [by naive_solver| |by naive_solver..]. rewrite lookup_insert. case_decide as E; [|naive_solver].
      apply pair_equal_spec in E as [<- E]. rewrite <-E. split; [intros [= ->]; by right|intros [H|[= <-]]; [congruence|done]].
    + intros [Hd Ho]. split; [|exact Ho]. cbn. intros k row. rewrite lookup_insert. case_decide; [|apply Hd]. intros [= <-]. by exists vault, device.
  - apply insert_new_Some in Hi as [Hk ->]. split_and!; [|done|by naive_solver].
    intros [| |v i row'| |]; cbn; [by naive_solver..| |by naive_solver|by naive_solver]. rewrite lookup_insert. case_decide; naive_solver.
  - unfold insert_revision in Hi. destruct (_ <=? 0); [done|]. apply insert_new_Some in Hi as [Hk ->]. split_and!; [|done|by naive_solver].
    intros [| | |v i row'|]; cbn; [by naive_solver..| |by naive_solver]. rewrite lookup_insert. case_decide; naive_solver.
  - unfold insert_nonce in Hi. rewrite (Hn _ eq_refl) in Hi. injection Hi as <- _. split_and!; [|done|].
    + intros [| | | |v d x t]; cbn; [by naive_solver..|]. rewrite lookup_insert. case_decide; [|by naive_solver]. specialize (Hn _ eq_refl). naive_solver.
    + intros t. cbn. rewrite lookup_insert. case_decide; naive_solver.
Qed.

Lemma insert_rows_spec l db db' : insert_rows l db = Ok db' → NoDup (omap nonce_key l) → (∀ t, t ∈ omap nonce_key l → nonces db !! t = None) →
  (∀ r, has_row db' r ↔ has_row db r ∨ r ∈ l) ∧ (nothing_else db → nothing_else db').
Proof.
  revert db. induction l as [|r l IH]; intros db.
  - intros [= <-] _ _. split; [|done]. intros r. rewrite elem_of_nil. naive_solver.
  - cbn [insert_rows]. destruct (insert_row r db) as [[db1 n]|] eqn:Er; [|done]. intros Hl Hnd Hfresh.
    assert (Hn : ∀ t, nonce_key r = Some t → nonces db !! t = None).
    { intros t Ht. apply Hfresh. apply list_elem_of_omap. exists r. split; [by left|done]. }
    destruct (insert_row_spec _ _ _ _ Er Hn) as (Hrow&Helse&Hkeys).
    assert (Hnd' : NoDup (omap nonce_key l) ∧ ∀ t, nonce_key r = Some t → t ∉ omap nonce_key l).
    { cbn in Hnd. destruct (nonce_key r); [|by split]. apply NoDup_cons in Hnd as [? ?]. split; [done|]. by intros ? [= <-]. }
    destruct (IH db1 Hl (proj1 Hnd')) as [Hrows Hall].
    + intros t Ht. apply eq_None_not_Some. rewrite Hkeys. intros [H|H]; [|by apply (proj2 Hnd' t)].
      rewrite Hfresh in H; [by destruct H|]. cbn. destruct (nonce_key r); [by right|done].
    + split; [|by auto]. intros r'. rewrite Hrows, Hrow, elem_of_cons. naive_solver.
Qed.

(** Keys that are split apart are different keys. *)
Lemma cut_first_Some c s before after : cut_first c s = Some (before, after) → s = before +:+ String c after.
Proof.
  revert before. induction s as [|d s IH]; intros before; [done|]. cbn. destruct (Ascii.eqb_spec d c) as [->|]; [by intros [= <- <-]|].
  destruct (cut_first c s) as [[b a]|]; [|done]. cbn. intros [= <- <-]. by rewrite (IH b).
Qed.
Lemma nonce_parts_key key v d n : nonce_parts key = Some (v, d, n) → key = v +:+ String "000" (d +:+ String "000" n).
Proof.
  unfold nonce_parts. destruct (cut_first "000" key) as [[v' rest]|] eqn:E; [|done]. cbn. destruct (cut_first "000" rest) as [[d' n']|] eqn:E'; [|done].
  cbn. intros [= <- <- <-]. by rewrite (cut_first_Some _ _ _ _ E), (cut_first_Some _ _ _ _ E').
Qed.

Lemma nonce_keys_of_vaults l : omap nonce_key (l ≫= vault_rows) = [].
Proof.
  induction l as [|v l IH]; [done|]. cbn [mbind list_bind]. rewrite omap_app, IH, app_nil_r. unfold vault_rows. cbn. rewrite !omap_app.
  assert (H : ∀ {A} (f : A → Row) l, (∀ a, nonce_key (f a) = None) → omap nonce_key (f <$> l) = []).
  { intros A f l0 Hf. induction l0 as [|a l0 IH']; [done|]. cbn. by rewrite Hf. }
  by rewrite !H.
Qed.

Lemma nonce_keys_once l : NoDup l.*1 → NoDup (omap nonce_key (l ≫= nonce_row)).
Proof.
  assert (Hin : ∀ l t, t ∈ omap nonce_key (l ≫= nonce_row) → ∃ e, e ∈ l ∧ nonce_parts e.1 = Some t).
  { induction l0 as [|e l0 IH]; intros t; [by intros ?%elem_of_nil|]. cbn [mbind list_bind]. rewrite omap_app, elem_of_app. intros [H|H].
    - exists e. split; [by left|]. unfold nonce_row in H. destruct (nonce_parts e.1) as [[[v d] n]|]; [|by apply elem_of_nil in H].
      by apply list_elem_of_singleton in H as ->.
    - destruct (IH t H) as (e'&?&?). exists e'. split; [by right|done]. }
  induction l as [|e l IH]; [constructor|]. cbn [fmap list_fmap mbind list_bind]. intros [Hn Hnd]%NoDup_cons. rewrite omap_app.
  unfold nonce_row at 1. destruct (nonce_parts e.1) as [[[v d] n]|] eqn:Ee; [|by apply IH]. cbn. constructor; [|by apply IH].
  intros ([k t]&Hk&Ht)%Hin. apply Hn. apply nonce_parts_key in Ee. cbn in Ht. apply nonce_parts_key in Ht. apply list_elem_of_fmap. exists (k, t). split; [|done]. cbn. congruence.
Qed.

(** The import has exactly the rows of the state. *)
Lemma import_exact state db : NoDup (ls_Nonces state).*1 → importLegacyState state empty_db = Ok db →
  (∀ r, has_row db r ↔ r ∈ rows_of state) ∧ nothing_else db.
Proof.
  intros Hnd Hi. unfold importLegacyState in Hi. destruct (insert_rows_spec _ _ _ Hi) as [Hrows Helse].
  - unfold rows_of. rewrite omap_app, nonce_keys_of_vaults. by apply nonce_keys_once.
  - intros t _. done.
  - split; [|apply Helse; by split_and!]. intros r. rewrite Hrows. split; [|by right]. intros [H|H]; [by destruct r|done].
Qed.

(** What the tables have to be after an import, entry by entry: every vault of the state,
    every device of a vault, active, every enrollment and every record under its vault and
    its identifier, and every nonce whose key has three parts, with the time that it had;
    and nothing else in any table. *)
Definition imports (state : LegacyState) (db : Db) : Prop :=
  (∀ id row, vaults db !! id = Some row ↔
    ∃ v, v ∈ ls_Vaults state ∧ lv_ID v = id ∧ row = {| v_name := lv_Name v; v_created_at := lv_CreatedAt v |}) ∧
  (∀ vault id row, devices db !! (vault, id) = Some row ↔
    ∃ v d, v ∈ ls_Vaults state ∧ lv_ID v = vault ∧ d ∈ lv_Devices v ∧ dev_ID d = id ∧ row = {| d_device := d; d_revoked_at := None |}) ∧
  (∀ vault id row, enrollments db !! (vault, id) = Some row ↔
    ∃ v e, v ∈ ls_Vaults state ∧ lv_ID v = vault ∧ e ∈ lv_Enrollments v ∧ dev_ID (le_Device e) = id ∧
      row = {| e_device := le_Device e; e_approved := le_Approved e; e_envelope := le_Envelope e |}) ∧
  (∀ vault id row, records db !! (vault, id) = Some row ↔
    ∃ v r, v ∈ ls_Vaults state ∧ lv_ID v = vault ∧ r ∈ lv_Records v ∧ rec_ID r = id ∧
      row = {| r_revision := rec_Revision r; r_blob := rec_Blob r; r_modified_at := rec_ModifiedAt r |}) ∧
  (∀ vault device nonce created_at, nonces db !! (vault, device, nonce) = Some created_at ↔
    contains_byte "000" vault = false ∧ contains_byte "000" device = false ∧
    (vault +:+ String "000" (device +:+ String "000" nonce), created_at) ∈ ls_Nonces state) ∧
  invitations db = ∅ ∧ vault_objects db = ∅ ∧ access_events db = [] ∧ event_sequence db = 0.

Lemma cut_first_spec c s before after : cut_first c s = Some (before, after) ↔ s = before +:+ String c after ∧ contains_byte c before = false.
Proof.
  revert before. induction s as [|d s IH]; intros before; cbn [cut_first]; [by split; [|destruct before; intros [? ?]]|].
  destruct (Ascii.eqb_spec d c) as [->|Hne].
  - split; [by intros [= <- <-]|]. intros [E Hb]. destruct before as [|x before]; [by injection E as ->|]. rewrite string_app_cons in E.
    injection E as <- E. cbn in Hb. by rewrite Ascii.eqb_refl in Hb.
  - destruct before as [|x before].
    + split; [|by intros [[= ? _] _]]. destruct (cut_first c s) as [[b a]|]; [|done]. by intros [=].
    + rewrite string_app_cons. cbn [contains_byte]. specialize (IH before). destruct (cut_first c s) as [[b a]|].
      * cbn [mbind option_bind]. split.
        -- intros [= -> -> ->]. destruct IH as [IH _]. destruct (IH eq_refl) as [-> ->]. split; [done|]. rewrite orb_false_r.
           apply Ascii.eqb_neq. congruence.
        -- intros [[= -> ->] [_ Hb]%orb_false_iff]. destruct IH as [_ IH]. by injection (IH (conj eq_refl Hb)) as -> ->.
      * cbn. split; [done|]. intros [[= -> ->] [_ Hb]%orb_false_iff]. destruct IH as [_ IH]. by specialize (IH (conj eq_refl Hb)).
Qed.

Lemma nonce_parts_spec key v d n :
  nonce_parts key = Some (v, d, n) ↔ key = v +:+ String "000" (d +:+ String "000" n) ∧ contains_byte "000" v = false ∧ contains_byte "000" d = false.
Proof.
  unfold nonce_parts. split.
  - destruct (cut_first "000" key) as [[v' rest]|] eqn:E; [|done]. cbn. destruct (cut_first "000" rest) as [[d' n']|] eqn:E'; [|done].
    cbn. intros [= <- <- <-]. apply cut_first_spec in E as [-> Hv], E' as [-> Hd]. done.
  - intros (->&Hv&Hd). rewrite (proj2 (cut_first_spec _ _ v _)) by done. cbn. by rewrite (proj2 (cut_first_spec _ _ d _)) by done.
Qed.

(** The rows of a state. *)
Lemma elem_of_rows state r : r ∈ rows_of state ↔
  match r with
  | VaultOf id row => ∃ v, v ∈ ls_Vaults state ∧ lv_ID v = id ∧ row = {| v_name := lv_Name v; v_created_at := lv_CreatedAt v |}
  | DeviceOf vault d => ∃ v, v ∈ ls_Vaults state ∧ lv_ID v = vault ∧ d ∈ lv_Devices v
  | EnrollmentOf vault id row => ∃ v e, v ∈ ls_Vaults state ∧ lv_ID v = vault ∧ e ∈ lv_Enrollments v ∧ dev_ID (le_Device e) = id ∧
      row = {| e_device := le_Device e; e_approved := le_Approved e; e_envelope := le_Envelope e |}
  | RecordOf vault id row => ∃ v r, v ∈ ls_Vaults state ∧ lv_ID v = vault ∧ r ∈ lv_Records v ∧ rec_ID r = id ∧
      row = {| r_revision := rec_Revision r; r_blob := rec_Blob r; r_modified_at := rec_ModifiedAt r |}
  | NonceOf vault device nonce created_at => ∃ key, (key, created_at) ∈ ls_Nonces state ∧ nonce_parts key = Some (vault, device, nonce)
  end.
Proof.
  unfold rows_of. rewrite elem_of_app, !list_elem_of_bind.
  assert (Hn : (∃ entry, r ∈ nonce_row entry ∧ entry ∈ ls_Nonces state) ↔
    match r with NonceOf v d n t => ∃ key, (key, t) ∈ ls_Nonces state ∧ nonce_parts key = Some (v, d, n) | _ => False end).
  { unfold nonce_row. split.
    - intros ([key t]&Hr&Hin). cbn [fst snd] in Hr. destruct (nonce_parts key) as [[[v d] n]|] eqn:E; [|by apply elem_of_nil in Hr].
      apply list_elem_of_singleton in Hr as ->. by exists key.
    - destruct r; try done. intros (key&Hin&E). exists (key, created_at). split; [|done]. cbn [fst snd]. rewrite E. by left. }
  rewrite Hn. clear Hn. unfold vault_rows.
  assert (Hv : ∀ v, r ∈ VaultOf (lv_ID v) {| v_name := lv_Name v; v_created_at := lv_CreatedAt v |} :: (DeviceOf (lv_ID v) <$> lv_Devices v) ++
      ((λ e, EnrollmentOf (lv_ID v) (dev_ID (le_Device e)) {| e_device := le_Device e; e_approved := le_Approved e; e_envelope := le_Envelope e |}) <$> lv_Enrollments v) ++
      ((λ r, RecordOf (lv_ID v) (rec_ID r) {| r_revision := rec_Revision r; r_blob := rec_Blob r; r_modified_at := rec_ModifiedAt r |}) <$> lv_Records v) ↔
    match r with
    | VaultOf id row => lv_ID v = id ∧ row = {| v_name := lv_Name v; v_created_at := lv_CreatedAt v |}
    | DeviceOf vault d => lv_ID v = vault ∧ d ∈ lv_Devices v
    | EnrollmentOf vault id row => ∃ e, lv_ID v = vault ∧ e ∈ lv_Enrollments v ∧ dev_ID (le_Device e) = id ∧
        row = {| e_device := le_Device e; e_approved := le_Approved e; e_envelope := le_Envelope e |}
    | RecordOf vault id row => ∃ r, lv_ID v = vault ∧ r ∈ lv_Records v ∧ rec_ID r = id ∧
        row = {| r_revision := rec_Revision r; r_blob := rec_Blob r; r_modified_at := rec_ModifiedAt r |}
    | NonceOf _ _ _ _ => False
    end).
  { intros v. rewrite elem_of_cons, !elem_of_app, !list_elem_of_fmap. destruct r; naive_solver. }
  split.
  - intros [(v&Hr&Hin)|H]; [apply Hv in Hr|]; destruct r; naive_solver.
  - intros H. destruct r; try (by right); left; destruct H as (v&H); exists v; rewrite Hv; naive_solver.
Qed.

(** An import that has exactly the rows is what an import has to be. *)
Lemma import_complete state db : NoDup (ls_Nonces state).*1 → importLegacyState state empty_db = Ok db → imports state db.
Proof.
  intros Hnd Hi. destruct (import_exact state db Hnd Hi) as [Hrows [Hdevices Hempty]]. assert (H : ∀ r, has_row db r ↔ _) by (intros r; rewrite Hrows; apply elem_of_rows).
  split_and!; try apply Hempty.
  - intros id row. apply (H (VaultOf id row)).
  - intros vault id row. split.
    + intros Hd. destruct (Hdevices _ _ Hd) as (vault'&d&[= -> ->]&->). pose proof (proj1 (H (DeviceOf vault' d)) Hd) as (v&?&?&?). by exists v, d.
    + intros (v&d&?&?&?&<-&->). apply (H (DeviceOf vault d)). by exists v.
  - intros vault id row. apply (H (EnrollmentOf vault id row)).
  - intros vault id row. apply (H (RecordOf vault id row)).
  - intros vault device nonce t. rewrite (H (NonceOf vault device nonce t)). setoid_rewrite nonce_parts_spec. naive_solver.
Qed.

(** ** What the file system and SQLite do

    Any call may fail.  A rename is made as a whole, and so is a transaction, but a failed
    commit does not say whether it was made. *)

Definition committed (path : string) (version : Z) (statements : Db → result Db) (s s' : Directory) : Prop :=
  ∃ v db db', s !! path = Some (Database v db) ∧ statements db = Ok db' ∧ s' = <[path := Database version db']> s.

Definition answers (X : Type) (c : call X) (s : Directory) : X → Directory → Prop :=
  match c in Call.call X return X → Directory → Prop with
  | Call.MkdirAll _ | Call.Chmod _ | Call.Close _ => λ _ s', s' = s
  | Call.Now => λ _ s', s' = s
  | Call.ReadFile path => λ r s', s' = s ∧
      match r with
      | Ok None => s !! path = None
      | Ok (Some raw) => match s !! path with
          | Some (TextFile text) => raw = text
          | Some (Database _ _) => has_prefix "{" (TrimSpace raw) = false
          | None => False
          end
      | Err _ => True
      end
  | Call.Remove path => λ ok s', s' = if ok : bool then delete path s else s
  | Call.Stat path => λ r s', s' = s ∧ match r with Ok b => b = bool_decide (is_Some (s !! path)) | Err _ => True end
  | Call.Rename from to => λ ok s', if ok : bool then ∃ f, s !! from = Some f ∧ s' = <[to := f]> (delete from s) else s' = s
  | Call.Connect path => λ ok s',
      match s !! path with
      | Some (Database _ _) => s' = s
      | Some (TextFile text) => if nonempty text then ok = false ∧ s' = s else (s' = s ∧ ok = false) ∨ s' = <[path := Database 0 empty_db]> s
      | None => (s' = s ∧ ok = false) ∨ s' = <[path := Database 0 empty_db]> s
      end
  | Call.UserVersion path => λ r s', s' = s ∧ match r with Ok v => ∃ db, s !! path = Some (Database v db) | Err _ => True end
  | Call.Transact path version statements => λ r s',
      match r with Ok _ => committed path version statements s s' | Err _ => s' = s ∨ committed path version statements s s' end
  end.

(** ** At no moment is the state lost *)

Section Keeping.
Context {codec : LegacyCodec} (path raw : string) (state : LegacyState).
Context (Hraw : legacy_of_json raw = Some state) (Hversion : ls_Version state = 1) (Hobject : has_prefix "{" (TrimSpace raw) = true).

Definition import_placed (s : Directory) : Prop :=
  ∃ db, s !! path = Some (Database 6 db) ∧ importLegacyState state empty_db = Ok db.

(** The text of the state is at its path; or it is in the backup, and at the path is nothing
    or its whole import. *)
Definition kept (s : Directory) : Prop :=
  s !! path = Some (TextFile raw) ∨ (s !! backup path = Some (TextFile raw) ∧ (s !! path = None ∨ import_placed s)).

Definition opened_ok (s : Directory) (r : result unit) : Prop :=
  kept s ∧ (r = Ok tt → s !! backup path = Some (TextFile raw) ∧ import_placed s).

Lemma string_app_longer s t : t ≠ "" → s +:+ t ≠ s.
Proof.
  intros Ht E. apply (f_equal String.length) in E. rewrite string_length_app in E. destruct t; [done|]. cbn in E. lia.
Qed.
Lemma migrating_other : migrating path ≠ path.
Proof. by apply string_app_longer. Qed.
Lemma backup_other : backup path ≠ path.
Proof. by apply string_app_longer. Qed.
Lemma backup_migrating : backup path ≠ migrating path.
Proof. unfold backup, migrating. intros E. by apply (inj (String.app path)) in E. Qed.
#[local] Hint Resolve migrating_other backup_other backup_migrating : core.

(** Before the renames: the state is at its path. *)
Definition untouched (s : Directory) : Prop := s !! path = Some (TextFile raw).
Lemma untouched_kept s : untouched s → kept s.
Proof. by left. Qed.
Lemma untouched_failed s msg : untouched s → opened_ok s (Err msg).
Proof. intros H. by split; [left|]. Qed.

#[local] Abbreviation spec p s := (swp answers kept p s opened_ok opened_ok).

(** Opening the new database, that is not there. *)
Lemma spec_open_new s : untouched s → s !! migrating path = None →
  let Q s' (r : result unit) := untouched s' ∧ (r = Ok tt → s' !! migrating path = Some (Database 6 empty_db)) in
  swp answers kept (openDatabase (migrating path)) s Q Q.
Proof.
  intros Hs Hnone Q. unfold openDatabase, migrateSchema. assert (HE : ∀ s' msg, untouched s' → Q s' (Err msg)) by by split.
  split; [by left|]. intros ok s1 Ha. cbn in Ha. rewrite Hnone in Ha.
  assert (Hs1 : untouched s1 ∧ (ok = true → s1 !! migrating path = Some (Database 0 empty_db))).
  { destruct Ha as [[-> ->]| ->]; [done|]. unfold untouched. rewrite lookup_insert_ne, lookup_insert_eq by done. done. }
  destruct Hs1 as [Hs1 Hm1]. destruct ok; [|by apply HE]. specialize (Hm1 eq_refl). split; [by left|]. intros v s2 [-> Hv].
  destruct v as [v|e]; [|split; [by left|]; intros ok s3 ->; by apply HE]. destruct Hv as [db Hv]. rewrite Hm1 in Hv. injection Hv as <- <-.
  split; [by left|]. intros r s3 H3. cbn in H3.
  assert (H3' : untouched s3 ∧ (r = Ok tt → s3 !! migrating path = Some (Database 6 empty_db))).
  { assert (Hc : committed (migrating path) 6 (λ db, Ok (id db)) s1 s3 → untouched s3 ∧ s3 !! migrating path = Some (Database 6 empty_db)).
    { intros (v&db&db'&Hv&[= <-]&->). rewrite Hm1 in Hv. injection Hv as <- <-. unfold untouched. by rewrite lookup_insert_ne, lookup_insert_eq by done. }
    destruct r as [[]|e]; [by apply Hc in H3 as [? ?]|]. split; [|done]. destruct H3 as [->|H3]; [done|by destruct (Hc H3)]. }
  destruct r as [[]|e]; [done|]. split; [left; apply H3'|]. intros ok s4 ->. apply HE, H3'.
Qed.

(** Opening a database of the current version. *)
Lemma spec_open_current s db : kept s → s !! path = Some (Database 6 db) →
  swp answers kept (openDatabase path) s (λ s' _, s' = s) (λ s' _, s' = s).
Proof.
  intros Hk Hs. unfold openDatabase, migrateSchema. split; [done|]. intros ok s1 Ha. cbn in Ha. rewrite Hs in Ha. subst s1.
  destruct ok; [|done]. split; [done|]. intros v s2 [-> Hv]. destruct v as [v|e]; [|split; [done|]; by intros ok s3 ->].
  destruct Hv as [db' Hv]. rewrite Hs in Hv. by injection Hv as <- <-.
Qed.

(** Both renames, and what follows them. *)
Lemma spec_renames s db : untouched s → s !! migrating path = Some (Database 6 db) → importLegacyState state empty_db = Ok db →
  spec (saved ← ask (Call.Rename path (backup path));
    _ ← (if negb saved then remove_and_fail path "rename" else mret tt);
    placed ← ask (Call.Rename (migrating path) path);
    _ ← (if negb placed then _ ← ask (Call.Rename (backup path) path); failing "rename" else mret tt);
    changed ← ask (Call.Chmod path);
    _ ← fail_if (negb changed) "chmod";
    openDatabase path) s.
Proof.
  intros Hs Hm Hi. split; [by left|]. intros saved s1 Ha. cbn in Ha. destruct saved.
  2: { subst s1. split; [by left|]. intros ok s2 ->. destruct ok; [|by apply untouched_failed]. apply untouched_failed. unfold untouched. by rewrite lookup_delete_ne. }
  destruct Ha as (f&Hf&->). rewrite Hs in Hf. injection Hf as <-.
  assert (H1 : ∀ x, x ≠ path → x ≠ backup path → (<[backup path:=TextFile raw]> (delete path s) : Directory) !! x = s !! x) by (intros; by rewrite lookup_insert_ne, lookup_delete_ne by done).
  set (s1 := <[backup path:=TextFile raw]> (delete path s)) in *.
  assert (Hb1 : s1 !! backup path = Some (TextFile raw)) by apply lookup_insert_eq.
  assert (Hp1 : s1 !! path = None) by (unfold s1; rewrite lookup_insert_ne by done; apply lookup_delete_eq).
  assert (Hk1 : kept s1) by (right; split; [done|by left]). split; [done|]. intros placed s2 Ha. cbn in Ha. destruct placed.
  2: { subst s2. split; [done|]. intros ok s3 Ha. cbn in Ha. destruct ok; [|subst s3; by split]. destruct Ha as (f&Hf&->). rewrite Hb1 in Hf. injection Hf as <-.
       apply untouched_failed, lookup_insert_eq. }
  destruct Ha as (f&Hf&->). rewrite H1, Hm in Hf by done. injection Hf as <-. set (s2 := <[path:=_]> _).
  assert (Hp2 : s2 !! path = Some (Database 6 db)) by apply lookup_insert_eq.
  assert (Hb2 : s2 !! backup path = Some (TextFile raw)) by (unfold s2; by rewrite lookup_insert_ne, lookup_delete_ne by done).
  assert (Hk2 : kept s2) by (right; split; [done|right; by exists db]). assert (Hok : ∀ r, opened_ok s2 r) by (intros r; split; [done|]; intros _; split; [done|by exists db]).
  split; [done|]. intros changed s3 ->. destruct changed; [|apply Hok]. eapply swp_mono; [| |by eapply spec_open_current]; intros s4 r ->; apply Hok.
Qed.

Lemma spec_give_up s msg : untouched s → spec (remove_and_fail path msg) s.
Proof.
  intros Hs. split; [by left|]. intros ok s1 ->. apply untouched_failed. destruct ok; [|done]. unfold untouched. by rewrite lookup_delete_ne.
Qed.

(** The transaction of the import, made or not. *)
Lemma after_import s s' (r : result unit) : untouched s → s !! migrating path = Some (Database 6 empty_db) →
  answers _ (Call.Transact (migrating path) 6 (importLegacyState state)) s r s' →
  untouched s' ∧ (r = Ok tt → ∃ db, s' !! migrating path = Some (Database 6 db) ∧ importLegacyState state empty_db = Ok db).
Proof.
  intros Hs Hm Ha.
  assert (Hc : committed (migrating path) 6 (importLegacyState state) s s' →
    untouched s' ∧ ∃ db, s' !! migrating path = Some (Database 6 db) ∧ importLegacyState state empty_db = Ok db).
  { intros (v&db&db'&Hv&Hi&->). rewrite Hm in Hv. injection Hv as <- <-. unfold untouched. rewrite lookup_insert_ne, lookup_insert_eq by done. eauto. }
  destruct r as [[]|e]; cbn in Ha; [destruct (Hc Ha); by split|]. split; [|done]. destruct Ha as [->|Ha]; [done|by destruct (Hc Ha)].
Qed.

(** From the import on. *)
Definition import_and_rename : program unit :=
  imported ← ask (Call.Transact (migrating path) 6 (importLegacyState state));
  _ ← match (imported : result unit) with
      | Ok _ => mret tt
      | Err msg => _ ← ask (Call.Close (migrating path)); remove_and_fail path msg
      end;
  closed ← ask (Call.Close (migrating path));
  _ ← fail_if (negb closed) "close";
  exists_ ← ask (Call.Stat (backup path));
  _ ← match (exists_ : result bool) with
      | Ok true => remove_and_fail path ("legacy state backup already exists at " +:+ backup path)
      | Ok false => mret tt
      | Err msg => failing msg
      end;
  saved ← ask (Call.Rename path (backup path));
  _ ← (if negb saved then remove_and_fail path "rename" else mret tt);
  placed ← ask (Call.Rename (migrating path) path);
  _ ← (if negb placed then _ ← ask (Call.Rename (backup path) path); failing "rename" else mret tt);
  changed ← ask (Call.Chmod path);
  _ ← fail_if (negb changed) "chmod";
  openDatabase path.

Lemma spec_import s : untouched s → s !! migrating path = Some (Database 6 empty_db) → spec import_and_rename s.
Proof.
  intros Hs Hm. split; [by left|]. intros imported s1 Ha. destruct (after_import s s1 imported Hs Hm Ha) as [Hs1 Hm1].
  destruct imported as [[]|e].
  2: { split; [by left|]. intros ok s2 ->. split; [by left|]. intros ok' s3 ->. apply untouched_failed. destruct ok'; [|done]. unfold untouched. by rewrite lookup_delete_ne. }
  destruct (Hm1 eq_refl) as (db&Hdb&Hi). split; [by left|]. intros closed s2 ->. destruct closed; [|by apply untouched_failed].
  split; [by left|]. intros there s3 [-> _]. destruct there as [[|]|e]; [|by apply (spec_renames _ db)|by apply untouched_failed].
  split; [by left|]. intros ok s3 ->. apply untouched_failed. destruct ok; [|done]. unfold untouched. by rewrite lookup_delete_ne.
Qed.

Lemma spec_migrate s : untouched s → spec (migrateLegacyState path state) s.
Proof.
  intros Hs. unfold migrateLegacyState. split; [by left|]. intros removed s1 ->. destruct removed; [|by apply untouched_failed].
  cbn [negb fail_if mbind flow_bind flow_bind_ mret flow_ret]. set (s1 := delete (migrating path) s).
  assert (Hs1 : untouched s1) by (unfold untouched, s1; by rewrite lookup_delete_ne). pose proof (lookup_delete_eq s (migrating path)) as Hm1. fold s1 in Hm1.
  apply swp_bind, swp_enter. eapply swp_mono; [| |by apply spec_open_new]; cbn beta; intros s2 opened [Hs2 Hm2].
  all: destruct opened as [[]|e]; [|by apply untouched_failed]; by apply spec_import, Hm2.
Qed.

Lemma spec_Open s : untouched s → spec (Open_ path) s.
Proof using Hobject Hraw Hversion.
  intros Hs. unfold Open_, readLegacyState. split; [by left|]. intros made s1 ->. destruct made; [|by apply untouched_failed].
  split; [by left|]. intros text s1 [-> Ht]. destruct text as [[text|]|e]; [| |by apply untouched_failed]; rewrite Hs in Ht; [subst text|done].
  cbn [negb fail_if mbind flow_bind flow_bind_ mret flow_ret enter]. rewrite Hobject, Hraw. cbn [negb]. rewrite Hversion. by apply spec_migrate.
Qed.
End Keeping.

(** C37: wherever the opening of a state of the first version stops, with whatever calls failing:
    the state is unchanged at its path, or unchanged in the backup, with nothing at its path
    or a database that has every vault, device, enrollment, record and well-formed nonce of
    the state and nothing else ([imports]); and success means such a database and the
    backup.  It is the state that is never lost; the import as a whole is not atomic: after a
    crash between the two renames nothing is at the path, and the next opening makes an
    empty database there and succeeds ([crash_starts_empty]). *)
Theorem legacy_state_is_kept {codec : LegacyCodec} path raw state (s s' : Directory) (p' : program unit) :
  legacy_of_json raw = Some state → ls_Version state = 1 → has_prefix "{" (TrimSpace raw) = true → NoDup (ls_Nonces state).*1 →
  s !! path = Some (TextFile raw) → rtc (call_step answers) (s, Open_ path) (s', p') →
  let imported := ∃ db, s' !! path = Some (Database 6 db) ∧ imports state db in
  (s' !! path = Some (TextFile raw) ∨ (s' !! backup path = Some (TextFile raw) ∧ (s' !! path = None ∨ imported))) ∧
  (p' = Done (Ok tt) → s' !! backup path = Some (TextFile raw) ∧ imported).
Proof.
  intros Hraw Hversion Hobject Hnd Hs Hrun imported.
  assert (Hi : import_placed path state s' → imported).
  { intros (db&Hdb&Hi). exists db. split; [done|]. by apply import_complete. }
  pose proof (swp_steps _ _ _ _ _ _ _ Hrun (spec_Open path raw state Hraw Hversion Hobject s Hs)) as H.
  assert (Hk : kept path raw state s') by (destruct p'; cbn in H; [apply H..|apply H]). split.
  - destruct Hk as [?|[? [?|?]]]; [by left|right..]; (split; [done|]); [by left|right; auto].
  - intros ->. destruct H as [_ H]. destruct (H eq_refl) as [? ?]. auto.
Qed.

(** ** The versions of the schema *)

(** What an upgrade keeps: vaults, devices, enrollments, records, and which nonces were used. *)
Definition upgraded (db db' : Db) : Prop :=
  vaults db' = vaults db ∧ (d_device <$> devices db') = (d_device <$> devices db) ∧ enrollments db' = enrollments db ∧
  records db' = records db ∧ dom (nonces db') = dom (nonces db).
#[local] Instance upgraded_preorder : PreOrder upgraded.
Proof. split; [done|]. intros a b c (?&?&?&?&?) (?&?&?&?&?). unfold upgraded. split_and!; congruence. Qed.

Definition at_version (path : string) (db : Db) (version : Z) (s : Directory) : Prop :=
  ∃ db', s !! path = Some (Database version db') ∧ upgraded db db'.

Lemma spec_migrate_to {R} path db v version f s (Ret : Directory → result R → Prop) Q :
  (∀ db, upgraded db (f db)) → at_version path db v s → (∀ s', at_version path db version s' → Q s' version) →
  (∀ s' v' msg, at_version path db v' s' → Ret s' (Err msg)) →
  swp answers (λ s, ∃ v, at_version path db v s) (migrate_to path version f) s Ret Q.
Proof.
  intros Hf (db1&Hs&Hu) HQ HE. split; [by exists v, db1|]. intros r s' Ha. cbn in Ha.
  assert (Hc : committed path version (λ db, Ok (f db)) s s' → at_version path db version s').
  { intros (v'&db2&db'&Hv&[= <-]&->). rewrite Hs in Hv. injection Hv as <- <-. exists (f db1). split; [apply lookup_insert_eq|].
    etransitivity; [exact Hu|apply Hf]. }
  destruct r as [[]|msg]; [by apply HQ, Hc|]. destruct Ha as [->|Ha]; [by eapply (HE _ v); exists db1|by eapply HE, Hc].
Qed.

(** Wherever the migration of a schema stops, its database is there and has what an upgrade
    keeps; a success leaves the current version. *)
Theorem schema_migration_keeps path db v (s s' : Directory) (p' : program unit) : s !! path = Some (Database v db) →
  rtc (call_step answers) (s, migrateSchema path) (s', p') →
  (∃ v', at_version path db v' s') ∧ (p' = Done (Ok tt) → at_version path db 6 s').
Proof.
  intros Hs Hrun. set (Q s (r : result unit) := (∃ v, at_version path db v s) ∧ (r = Ok tt → at_version path db 6 s)).
  enough (H : swp answers (λ s, ∃ v, at_version path db v s) (migrateSchema path) s Q Q).
  { pose proof (swp_steps _ _ _ _ _ _ _ Hrun H) as H'. destruct p'; cbn in H'; [|split; [apply H'|done]..].
    destruct H' as [? H']. split; [done|]. intros [= ->]. by apply H'. }
  assert (HE : ∀ s' v' msg, at_version path db v' s' → Q s' (Err msg)) by (intros s1 v' msg H; split; [by exists v'|done]).
  assert (H0 : at_version path db v s) by by exists db. unfold migrateSchema. split; [by exists v|]. intros version s1 [-> Hv].
  destruct version as [version|e]; [|by eapply HE]. destruct Hv as [db' Hv]. rewrite Hs in Hv. injection Hv as <- <-.
  cbn [try_ mbind flow_bind flow_bind_ mret flow_ret]. destruct (6 <? v); [by eapply HE|].
  assert (Hstep : ∀ k version f (rest : Z → program unit) s, (∀ db, upgraded db (f db)) → at_version path db version s →
    (∀ version s, at_version path db version s → swp answers (λ s, ∃ v, at_version path db v s) (rest version) s Q Q) →
    swp answers (λ s, ∃ v, at_version path db v s) (x ← (if version =? k then migrate_to path (k + 1) f else mret version); rest x) s Q Q).
  { intros k version f rest s2 Hf Hver Hrest. apply swp_bind. destruct (version =? k); [|by apply Hrest]. eapply spec_migrate_to; eauto. }
  assert (Hempty : ∀ db, upgraded db (with_events [] 0 db)) by (intros; by split_and!).
  apply (Hstep 1); [|done|]. { intros db1. split_and!; try done. cbn. rewrite <-map_fmap_compose. by apply map_fmap_ext. }
  intros v1 s2 H1. apply (Hstep 2); [done..|]. intros v2 s3 H2. apply (Hstep 3); [intros; by split_and!|done|]. intros v3 s4 H3.
  assert (Hend : ∀ version s, at_version path db version s → swp answers (λ s, ∃ v, at_version path db v s)
    (_ ← (if version =? 5 then migrate_to path 6 (λ db, copy_events db) else if version =? 6 then mret version else migrate_to path 6 id); mret (Ok tt)) s Q Q).
  { intros version s5 H. apply swp_bind. destruct (version =? 5); [|destruct (Z.eqb_spec version 6) as [->|]]; [|by split; [exists 6|]|].
    all: eapply spec_migrate_to; [intros; by split_and!|done|intros s6 H6; split; [by exists 6|done]|by eauto]. }
  apply swp_bind. destruct (v3 =? 4); [|by apply Hend]. apply swp_ask; [by exists v3|]. intros now s5 ->.
  eapply spec_migrate_to; [|done|intros s6 H6; by apply Hend|by eauto]. intros db1. split_and!; try done. cbn. apply dom_fmap_L.
Qed.

(** ** An import *)

Module MigrationDemo.

(** Every call succeeds that can. *)
Definition reply (X : Type) (c : call X) (s : Directory) : X * Directory :=
  match c in Call.call X return X * Directory with
  | Call.MkdirAll _ | Call.Chmod _ | Call.Close _ => (true, s)
  | Call.Now => (0, s)
  | Call.ReadFile path => (Ok match s !! path with Some (TextFile text) => Some text | Some (Database _ _) => Some "SQLite format 3" | None => None end, s)
  | Call.Remove path => (true, delete path s)
  | Call.Stat path => (Ok (bool_decide (is_Some (s !! path))), s)
  | Call.Rename from to => match s !! from with Some f => (true, <[to := f]> (delete from s)) | None => (false, s) end
  | Call.Connect path =>
      match s !! path with
      | Some (Database _ _) => (true, s)
      | Some (TextFile text) => if nonempty text then (false, s) else (true, <[path := Database 0 empty_db]> s)
      | None => (true, <[path := Database 0 empty_db]> s)
      end
  | Call.UserVersion path => (match s !! path with Some (Database v _) => Ok v | _ => Err "no database" end, s)
  | Call.Transact path version statements =>
      match s !! path with
      | Some (Database _ db) => match statements db with Ok db => (Ok tt, <[path := Database version db]> s) | Err e => (Err e, s) end
      | _ => (Err "no database", s)
      end
  end.

Lemma reply_answers X (c : call X) s : answers X c s (reply X c s).1 (reply X c s).2.
Proof.
  destruct c as [path|path|path|path|from to|path|path|path| |path version statements|path]; cbn; try done.
  - split; [done|]. by destruct (s !! path) as [[|]|].
  - destruct (s !! from) as [f|] eqn:E; cbn; [|done]. by exists f.
  - destruct (s !! path) as [[text|]|]; cbn; [|done|by right]. destruct (nonempty text); cbn; [done|by right].
  - split; [done|]. destruct (s !! path) as [[|v db]|]; try done. by exists db.
  - destruct (s !! path) as [[|v db]|] eqn:E; cbn; [by left| |by left]. destruct (statements db) as [db'|e] eqn:Ed; cbn; [|by left]. by exists v, db, db'.
Qed.

(** So many calls of a program. *)
Fixpoint calls (n : nat) (s : Directory) (p : program unit) : Directory * program unit :=
  match n, p with
  | S n, Ask c k => let '(x, s) := reply _ c s in calls n s (k x)
  | _, p => (s, p)
  end.
Lemma calls_run n s p : rtc (call_step answers) (s, p) (calls n s p).
Proof.
  revert s p. induction n as [|n IH]; intros s p; [done|]. destruct p as [a|r|X c k]; [done..|]. cbn [calls].
  pose proof (reply_answers X c s) as H. destruct (reply X c s) as [x s']. eapply rtc_l; [by apply CallStep|apply IH].
Qed.

Definition device : PublicDevice :=
  {| dev_ID := "d1"; dev_Name := "laptop"; dev_SigningPublic := "s"; dev_WrappingPublic := "w"; dev_Fingerprint := "f"; dev_CreatedAt := "2026-08-09T20:00:00Z" |}.
(** A key of a nonce: its parts, separated. *)
Definition key (v d n : string) : string := v +:+ String "000" (d +:+ String "000" n).
Definition demo_state : LegacyState :=
  {| ls_Version := 1; ls_Vaults := [{| lv_ID := "v1"; lv_Name := "home"; lv_Devices := [device]; lv_Enrollments := [];
       lv_Records := [{| rec_ID := "r1"; rec_Revision := 3; rec_Blob := {| blob_version := 1; blob_nonce := "n"; blob_ciphertext := "c" |}; rec_ModifiedAt := "2026-08-09T20:00:00Z" |}]; lv_CreatedAt := "2026-08-09T20:00:00Z" |}];
     ls_Nonces := [(key "v1" "d1" "n1", "2026-08-09T10:00:00-10:00"); ("not a key", "2026-08-09T20:00:00Z")] |}.
#[local] Instance demo_codec : LegacyCodec := {| legacy_of_json raw := if String.eqb raw "{the state}" then Some demo_state else None |}.
Definition start : Directory := {["/db" := TextFile "{the state}"]}.

(** The whole import, of fourteen calls. *)
Lemma legacy_state_is_kept_witness : let s' := (calls 20 start (Open_ "/db")).1 in
  s' !! "/db.json.bak" = Some (TextFile "{the state}") ∧
  ∃ db, s' !! "/db" = Some (Database 6 db) ∧ imports demo_state db.
Proof.
  apply (legacy_state_is_kept "/db" "{the state}" demo_state start (calls 20 start (Open_ "/db")).1 (calls 20 start (Open_ "/db")).2).
  - reflexivity.
  - reflexivity.
  - vm_compute. reflexivity.
  - apply (bool_decide_unpack _). vm_compute. exact I.
  - reflexivity.
  - rewrite <-surjective_pairing. apply calls_run.
  - vm_compute. reflexivity.
Defined.

(** A crash between the renames leaves nothing at the path; the next start makes an empty
    database there and succeeds, though the state is in the backup. *)
Example crash_starts_empty : let s1 := (calls 10 start (Open_ "/db")).1 in let '(s2, p2) := calls 20 s1 (Open_ "/db") in
  rtc (call_step answers) (start, Open_ "/db") (calls 10 start (Open_ "/db")) ∧ rtc (call_step answers) (s1, Open_ "/db") (s2, p2) ∧
  p2 = Done (Ok tt) ∧ s2 !! "/db" = Some (Database 6 empty_db) ∧ s2 !! "/db.json.bak" = Some (TextFile "{the state}").
Proof.
  cbv zeta. destruct (calls 20 (calls 10 start (Open_ "/db")).1 (Open_ "/db")) as [s2 p2] eqn:E.
  split; [apply calls_run|]. split; [rewrite <-E; apply calls_run|]. vm_compute in E. injection E as <- <-. vm_compute. split_and!; reflexivity.
Qed.

(** Nonces keep the times of the old state, as they were written: one of an hour ago, with an
    offset, is dropped at once by a service that keeps ten minutes of them. *)
Example imported_nonce_is_dropped : match importLegacyState demo_state empty_db with
  | Ok db => nonces db !! ("v1", "d1", "n1") = Some "2026-08-09T10:00:00-10:00" ∧
      option_map (λ r : Db * Z, nonces r.1 !! ("v1", "d1", "n1")) (delete_old_nonces "2026-08-09T19:50:00Z" db) = Some None
  | Err _ => False
  end.
Proof. vm_compute. done. Qed.
End MigrationDemo.
