(* ===== verification/Terminal.v ===== *)
(** The owner at the terminal of the agent broker: internal/agentbroker/terminal.go and
    hidden.go.  What an agent wrote is shown sanitized; answers and secrets are read byte by
    byte.  Programs over the terminal and the context of a request, with the production
    reader of hidden lines. *)
From S2P Require Import Prelude Text Manifest Origin Broker Secure Filepath Command.
From S2P Require Export Program.
From stdpp Require Import options.

(** ** What is shown *)

Definition backslash : ascii := "092".

(** [%x] of a rune *)
Fixpoint hex_text_from (digits : nat) (v : Z) (text : string) : string :=
  match digits with
  | O => text
  | S digits => let text := String (hex_digit (v mod 16)) text in if v <? 16 then text else hex_text_from digits (v / 16) text
  end.
Definition hex_text (v : Z) : string := hex_text_from 8 v "".

Fixpoint leading_spaces (l : list string) : nat :=
  match l with r :: l => if String.eqb r " " then S (leading_spaces l) else O | [] => O end.

Section Display.
Context {unicode : Unicode}.

(** A rune on its own. *)
Definition visible_rune (r : string) : string :=
  let v := rune_value r in
  if (v =? 65533) || (v <? 32) || (v =? 127) || ((128 <=? v) && (v <? 160)) || (negb (IsPrint v) && negb (v =? 32))
  then String backslash ("x{" +:+ hex_text v +:+ "}") else r.

(** The loop of [Sanitize]: [skip] runes are part of a run of spaces that is shown by its
    length already. *)
Fixpoint sanitize_runes (max : Z) (skip : nat) (l : list string) (out : string) : string :=
  match l with
  | [] => out
  | r :: rest =>
      match skip with
      | S skip => sanitize_runes max skip rest out
      | O =>
          if max <=? slen out then out +:+ "…"
          else
            let n := leading_spaces l in
            if (3 <=? n)%nat then sanitize_runes max (pred n) rest (out +:+ String backslash ("x{20}×" +:+ Itoa (Z.of_nat n)))
            else sanitize_runes max 0 rest (out +:+ visible_rune r)
      end
  end.
Definition Sanitize (s : string) (max : Z) : string := sanitize_runes max 0 (runes s) "".

(** [strconv.Quote] *)
Definition quoted_rune (r : string) : string :=
  let v := rune_value r in
  if (v =? 65533) && (slen r =? 1) then String backslash ("x" +:+ hex r)
  else if (v =? 34) || (v =? 92) then String backslash r
  else if IsPrint v then r
  else if v =? 7 then String backslash "a"
  else if v =? 8 then String backslash "b"
  else if v =? 12 then String backslash "f"
  else if v =? 10 then String backslash "n"
  else if v =? 13 then String backslash "r"
  else if v =? 9 then String backslash "t"
  else if v =? 11 then String backslash "v"
  else if (v <? 32) || (v =? 127) then String backslash ("x" +:+ hex_number 2 v)
  else if v <? 65536 then String backslash ("u" +:+ hex_number 4 v)
  else String backslash ("U" +:+ hex_number 8 v).
Definition Quote (s : string) : string := String (chr 34) (concat_str (quoted_rune <$> runes s) +:+ String (chr 34) "").

Definition quoteArg (a : string) : string :=
  let s := Sanitize a 1048576 in
  if negb (nonempty s) || existsb (λ c, contains_byte c s) [" "; "009"; "'"; chr 34; backslash; "$"; "`"]%char then Quote s else s.

(** [%-3d] *)
Definition padded (n : Z) : string := let s := Itoa n in s +:+ string_of_list_ascii (replicate (3 - String.length s) " "%char).

Definition newline_ : string := String lf "".
Definition line (s : string) : string := s +:+ newline_.
Definition ruled (title : string) : string := newline_ +:+ line ("── " +:+ title +:+ " ──").

(** What [ApproveRun] shows before its question, print by print. *)
Definition argument_line (i : nat) (a : string) : string :=
  line ("  arg " +:+ padded (Z.of_nat i + 1) +:+ " (" +:+ Itoa (slen a) +:+ " bytes) " +:+ quoteArg a).
Definition screen (cmd : Command) : list string :=
  [String "007" ""; ruled "EnvBank agent request: run a command with secrets";
   line ("  executable: " +:+ quoteArg (cmd_Executable cmd)); line ("              sha256 " +:+ cmd_ExecutableSHA256 cmd)] ++
  (if nonempty (cmd_Interpreter cmd) then
     [line ("  interpreter: " +:+ quoteArg (cmd_Interpreter cmd)) +:+ line ("               sha256 " +:+ cmd_InterpreterSHA256 cmd)] else []) ++
  imap argument_line (cmd_Args cmd) ++
  ((λ f, line ("  file:       " +:+ quoteArg (bf_Path f)) +:+ line ("              sha256 " +:+ bf_SHA256 f)) <$> cmd_Files cmd) ++
  [line ("  directory:  " +:+ quoteArg (cmd_Dir cmd)); line ("  secrets:    " +:+ String.concat ", " (cmd_Secrets cmd))] ++
  ((λ w, line ("  WARNING:    " +:+ w)) <$> cmd_Warnings cmd) ++
  [line "  Output returned to the agent is redacted, but the command itself receives the values."].
Definition run_question (cmd : Command) : string :=
  if cmd_AlwaysAllowed cmd then "Allow? [o]nce / [a]lways for this exact command / [N]o: "
  else "Allow? [o]nce / [N]o (always is not offered for project code): ".
End Display.

(** ** The terminal *)

(** The modes of a terminal: the flags that [ReadHidden] changes, and the others. *)
Record Termios := { tm_ECHO : bool; tm_ECHONL : bool; tm_ICANON : bool; tm_ISIG : bool; tm_others : string }.

Module Call.
Inductive call : Type → Type :=
(** [fmt.Fprint(p.Out, ...)], whose error is not looked at *)
| Print (text : string) : call unit
(** [In.Read] of one byte; an os.File that reads none returns an error. *)
| ReadByte : call (option ascii)
| GetTermios : call (option Termios)
| SetTermios (modes : Termios) : call bool
(** Whether the context of the request has ended. *)
| Cancelled : call bool
(** The seconds of the local day. *)
| TimeOfDay : call Z.
End Call.
Abbreviation call := Call.call.
Abbreviation program := (flow call).

Definition print {R} (text : string) : program R unit := ask (Call.Print text).
Definition print_all {R} (texts : list string) : program R unit := for_each (λ text _, print text) texts tt.

Definition ends_line (c : ascii) : bool := Ascii.eqb c lf || Ascii.eqb c cr.

(** The line of an answer, of at most 64 bytes. *)
Fixpoint read_answer {R} (rounds : nat) (buf : string) : program R (option string) :=
  match rounds with
  | O => mret (Some buf)
  | S rounds =>
      c ← ask Call.ReadByte;
      match (c : option ascii) with
      | None => mret None
      | Some c => if ends_line c then mret (Some buf) else read_answer rounds (buf +:+ String c "")
      end
  end.

(** [ask]; [None] for an error *)
Definition question {R} (prompt : string) : program R (option string) :=
  _ ← print prompt;
  buf ← read_answer 64 "";
  match (buf : option string) with
  | None => mret None
  | Some buf =>
      gone ← ask Call.Cancelled;
      if (gone : bool) then _ ← print (line "  (request was cancelled by the agent; ignored)"); mret None
      else mret (Some (TrimSpace buf))
  end.

(** The bytes that [ReadHidden] reads before it gives up. *)
Definition hidden_limit : nat := Z.to_nat 4097.
Fixpoint read_hidden {R} (rounds : nat) (buf : string) : program R (option string) :=
  match rounds with
  | O => mret None
  | S rounds =>
      c ← ask Call.ReadByte;
      match (c : option ascii) with
      | None => mret None
      | Some c => if ends_line c then mret (Some buf) else read_hidden rounds (buf +:+ String c "")
      end
  end.

Definition without_echo (old : Termios) : Termios :=
  {| tm_ECHO := false; tm_ECHONL := false; tm_ICANON := true; tm_ISIG := true; tm_others := tm_others old |}.

(** [hidden], which is [ReadHidden] *)
Definition hidden {R} (prompt : string) : program R (option string) :=
  old ← ask Call.GetTermios;
  match (old : option Termios) with
  | None => mret None
  | Some old =>
      set ← ask (Call.SetTermios (without_echo old));
      if negb (set : bool) then mret None
      else
        _ ← print prompt;
        buf ← read_hidden hidden_limit "";
        _ ← ask (Call.SetTermios old);
        mret buf
  end.

(** ** The prompter *)

Section Prompter.
Context {unicode : Unicode} {hosts : Hosts}.

(** [None] for an error. *)
Definition ApproveRun (cmd : Command) : program (option Decision) (option Decision) :=
  _ ← print_all (screen cmd);
  answer ← question (run_question cmd);
  match (answer : option string) with
  | None => mret None
  | Some answer =>
      let answer := ToLower answer in
      if String.eqb answer "o" || String.eqb answer "once" then mret (Some AllowOnce)
      else if String.eqb answer "a" || String.eqb answer "always" then
        mret (Some (if cmd_AlwaysAllowed cmd then AllowAlways else AllowOnce))
      else _ ← print (line "  denied"); mret (Some Deny)
  end.

(** An empty line, and whether the request has ended; neither for an error. *)
Definition refused_entry {R} (entry : option string) : program R bool :=
  match entry with
  | None => mret true
  | Some v => if negb (nonempty v) then mret true else ask Call.Cancelled
  end.

(** [None] for an error or a value that was declined. *)
Definition ReadSecret (req : Ingest) : program (option string) (option string) :=
  _ ← print_all [String "007" ""; ruled "EnvBank agent request: store a secret"; line ("  name:   " +:+ in_Name req);
        line ("  reason: " +:+ Sanitize (in_Reason req) Limits.ReasonBytes);
        line "  The agent will learn only whether a value was stored, never the value."];
  _ ← (if in_Replaces req then
         answer ← question ("  " +:+ in_Name req +:+ " already exists. Replace it? [y/N]: ");
         let yes := match (answer : option string) with Some a => String.eqb (ToLower a) "y" || String.eqb (ToLower a) "yes" | None => false end in
         if yes then mret tt else _ ← print (line "  denied"); Exit None
       else mret tt);
  first ← hidden "  Enter value (hidden; empty to deny): ";
  _ ← print newline_;
  refused ← refused_entry first;
  if (refused : bool) then _ ← print (line "  denied"); mret None
  else
    second ← hidden "  Re-enter value: ";
    _ ← print newline_;
    if bool_decide (is_Some (second : option string) ∧ second = first) then mret (first : option string)
    else _ ← print (line "  values did not match; nothing stored"); mret None.

Definition two_digits (n : Z) : string := String (chr (48 + n / 10 mod 10)) (String (chr (48 + n mod 10)) "").
Definition clock (t : Z) : string := two_digits (t / 3600) +:+ ":" +:+ two_digits (t / 60 mod 60) +:+ ":" +:+ two_digits (t mod 60).
Definition Notify (text : string) : program unit unit :=
  now ← ask Call.TimeOfDay;
  print (line ("  [" +:+ clock now +:+ "] " +:+ Sanitize text 512)).

Definition ConfirmPlan (title : string) (lines : list string) : program (option bool) (option bool) :=
  _ ← print_all (String "007" "" :: ruled (Sanitize title 120) :: ((λ l, line ("  " +:+ Sanitize l 4096)) <$> lines));
  answer ← question "Apply? [y/N]: ";
  match (answer : option string) with
  | None => mret None
  | Some answer =>
      let ok := EqualFold answer "y" || EqualFold answer "yes" in
      _ ← (if ok then mret tt else print (line "  declined"));
      mret (Some ok)
  end.

(** One of the three attempts of [NewPassphrase]. *)
Definition passphrase_attempt (title : string) (minBytes : Z) (differentFrom : option string) : program (option string) unit :=
  _ ← print (ruled (Sanitize title 120));
  first ← hidden ("  Choose a passphrase of at least " +:+ Itoa minBytes +:+ " characters (hidden; empty to cancel): ");
  _ ← print newline_;
  refused ← refused_entry first;
  match (first : option string) with
  | None => _ ← print (line "  cancelled"); Exit None
  | Some first =>
      if (refused : bool) then _ ← print (line "  cancelled"); Exit None
      else if (slen first <? minBytes) || (1024 <? slen first) then print (line ("  must be " +:+ Itoa minBytes +:+ " to 1024 characters"))
      else if bool_decide (differentFrom = Some first) then print (line "  must differ from the vault passphrase")
      else
        second ← hidden "  Re-enter: ";
        _ ← print newline_;
        if bool_decide (second = Some first) then Exit (Some first) else print (line "  did not match")
  end.

Definition NewPassphrase (title : string) (minBytes : Z) (differentFrom : option string) : program (option string) (option string) :=
  _ ← for_each (λ _ _, passphrase_attempt title minBytes differentFrom) (seq 0 3) tt;
  mret None.
End Prompter.

(** What the owner sees and types: the text of an agent gets to the terminal only in lines
    of its own, without control characters and in full, decisions are what the owner typed
    after it was shown, and secrets are typed twice while the terminal does not echo. *)

Abbreviation history := (Program.history call).

(** ** Texts without control *)

Lemma rune_utf8 r t : rune_shape r → valid_rune r = true → runes (r +:+ t) = r :: runes t.
Proof.
  destruct r as [|a [|b more]]; [done| |].
  - intros _ Ha. cbn in Ha. rewrite string_app_cons. cbn [runes String.append]. by rewrite rune_width_ascii by lia.
  - intros (Hb&Hmore&Ha&Hw) _. rewrite !string_app_cons. cbn [runes]. rewrite <-Hw, Hb. cbn [negb]. unfold slen in *. cbn [String.length] in *.
    assert (Hr : rune_width a ≤ 4) by (unfold rune_width; repeat case_match; lia).
    destruct more as [|c [|d [|e more]]]; cbn [String.length] in *; [done| | |lia]; cbn [all_bytes] in Hmore; rewrite !andb_true_iff in Hmore.
    + destruct Hmore as [Hc _]. rewrite !string_app_cons, Hc. done.
    + destruct Hmore as (Hc&Hd&_). rewrite !string_app_cons, Hc, Hd. done.
Qed.

Lemma runes_app a b : valid_utf8 a = true → runes (a +:+ b) = runes a ++ runes b.
Proof.
  unfold valid_utf8. destruct (runes_shape a) as [Hs Hc]. rewrite <-Hc at 2. clear Hc. induction Hs as [|r l Hr _ IH]; cbn [forallb concat_str foldr]; [done|].
  intros [Hv Hl]%andb_true_iff. fold (concat_str l). rewrite string_app_assoc, rune_utf8 by done. cbn [app]. f_equal. by apply IH.
Qed.

Lemma runes_pieces l : Forall rune_shape l → forallb valid_rune l = true → runes (concat_str l) = l.
Proof.
  induction 1 as [|r l Hr _ IH]; cbn [forallb concat_str foldr]; [done|]. intros [Hv Hl]%andb_true_iff. fold (concat_str l).
  rewrite rune_utf8 by done. f_equal. by apply IH.
Qed.

Section Texts.
Context {unicode : Unicode}.

Definition fixed_runes : list string := ["…"; "×"; "─"].

(** A rune that is no control, and printable or of the layout. *)
Definition calm (r : string) : Prop :=
  valid_rune r = true ∧ is_control r = false ∧ (IsPrint (rune_value r) = true ∨ 32 ≤ rune_value r ≤ 126 ∨ r ∈ fixed_runes).
Definition calm_text (s : string) : Prop := Forall calm (runes s).
(** With the bell and the ends of lines. *)
Definition screen_text (s : string) : Prop := Forall (λ r, calm r ∨ r = newline_ ∨ r = String "007" "") (runes s).

Lemma Forall_valid (P : string → Prop) s : (∀ r, P r → valid_rune r = true) → Forall P (runes s) → valid_utf8 s = true.
Proof. intros HP H. unfold valid_utf8. apply Is_true_true, forallb_True. eapply Forall_impl; [exact H|]. intros r Hr. by apply Is_true_true, HP. Qed.

Lemma calm_app a b : calm_text a → calm_text b → calm_text (a +:+ b).
Proof. intros Ha Hb. unfold calm_text. rewrite runes_app; [by apply Forall_app|]. eapply Forall_valid; [|exact Ha]. by intros r (?&_). Qed.
Lemma screen_app a b : screen_text a → screen_text b → screen_text (a +:+ b).
Proof.
  intros Ha Hb. unfold screen_text. rewrite runes_app; [by apply Forall_app|]. eapply Forall_valid; [|exact Ha]. by intros r [(?&_)|[->| ->]].
Qed.
Lemma calm_screen s : calm_text s → screen_text s.
Proof. intros H. eapply Forall_impl; [exact H|]. by left. Qed.
Lemma calm_concat l : Forall calm_text l → calm_text (concat_str l).
Proof. induction 1; [constructor|]. by apply calm_app. Qed.

Definition printable (c : ascii) : bool := (32 <=? code c) && (code c <=? 126).
Lemma printable_calm s : all_bytes printable s = true → calm_text s.
Proof.
  induction s as [|c s IH]; [constructor|]. cbn [all_bytes]. intros [Hc Hs]%andb_true_iff. change (String c s) with (String c "" +:+ s).
  apply calm_app; [|by apply IH]. unfold printable in Hc. unfold calm_text. cbn [runes]. rewrite rune_width_ascii by lia. constructor; [|constructor].
  unfold calm, is_control. cbn [valid_rune rune_value]. replace (code c <? 128) with true by lia. split_and!; [done|lia|right; left; lia].
Qed.

Lemma fixed_calm r : r ∈ fixed_runes → calm_text r.
Proof.
  intros Hr. assert (E : runes r = [r] ∧ valid_rune r = true ∧ is_control r = false).
  { unfold fixed_runes in Hr. rewrite !elem_of_cons, elem_of_nil in Hr. by destruct Hr as [->|[->|[->|[]]]]. }
  destruct E as (E&?&?). unfold calm_text. rewrite E. constructor; [|constructor]. by split_and!; [| |right; right].
Qed.

Lemma line_screen s : calm_text s → screen_text (line s).
Proof. intros H. apply screen_app; [by apply calm_screen|]. constructor; [|constructor]. by right; left. Qed.
Lemma ruled_screen s : calm_text s → screen_text (ruled s).
Proof.
  assert (H : calm_text "── ") by (change "── " with ("─" +:+ "─" +:+ " "); apply calm_app; [|apply calm_app]; [apply fixed_calm; set_solver..|by apply printable_calm]).
  assert (H' : calm_text " ──") by (change " ──" with (" " +:+ "─" +:+ "─"); apply calm_app; [|apply calm_app]; [by apply printable_calm|apply fixed_calm; set_solver..]).
  intros Hs. unfold ruled. apply screen_app; [constructor; [by right; left|constructor]|]. apply line_screen. by repeat apply calm_app.
Qed.

(** *** Numbers *)

Lemma pretty_go_printable x s : all_bytes printable s = true → all_bytes printable (pretty_N_go x s) = true.
Proof.
  revert s. induction (N.lt_wf_0 x) as [x _ IH]. intros s Hs. destruct (decide (0 < x)%N) as [Hx|Hx].
  - rewrite pretty_N_go_step by done. apply IH; [by apply N.div_lt|]. cbn [all_bytes]. rewrite Hs, andb_true_r.
    assert (Hm : (x `mod` 10 < 10)%N) by by apply N.mod_lt. revert Hm. generalize (x `mod` 10)%N. intros d Hd.
    assert (Hin : d ∈ [0;1;2;3;4;5;6;7;8;9]%N) by (rewrite !elem_of_cons; lia).
    rewrite !elem_of_cons, elem_of_nil in Hin. destruct_or?; subst; done.
  - replace x with 0%N by lia. by rewrite pretty_N_go_0.
Qed.
Lemma pretty_printable (n : N) : all_bytes printable (pretty n) = true.
Proof. unfold pretty, pretty_N. destruct (decide (n = 0%N)); [done|]. by apply pretty_go_printable. Qed.
Lemma Itoa_calm n : calm_text (Itoa n).
Proof.
  apply printable_calm. unfold Itoa, pretty, pretty_Z. destruct n as [|p|p]; [done|apply pretty_printable|].
  change ("-" +:+ pretty (N.pos p)) with (String "-" (pretty (N.pos p))). cbn [all_bytes]. apply pretty_printable.
Qed.

Lemma pretty_go_length x s : (String.length (pretty_N_go x s) ≤ N.to_nat x + String.length s)%nat.
Proof.
  revert s. induction (N.lt_wf_0 x) as [x _ IH]. intros s. destruct (decide (0 < x)%N) as [Hx|Hx].
  - rewrite pretty_N_go_step by done. etransitivity; [apply IH; by apply N.div_lt|]. cbn [String.length].
    assert (x `div` 10 < x)%N by by apply N.div_lt. lia.
  - replace x with 0%N by lia. by rewrite pretty_N_go_0.
Qed.
Lemma Itoa_length n : 0 < n → slen (Itoa n) ≤ n.
Proof.
  intros Hn. destruct n as [|p|p]; [lia| |lia]. 
  change (Itoa (Z.pos p)) with (pretty_N_go (N.pos p) ""). pose proof (pretty_go_length (N.pos p) ""). cbn [String.length] in *. unfold slen. lia.
Qed.

Lemma hex_digit_printable v : 0 ≤ v < 16 → printable (hex_digit v) = true.
Proof. intros Hv. unfold printable, hex_digit. case_match; rewrite code_chr by lia; lia. Qed.
Lemma hex_text_printable n v s : 0 ≤ v → all_bytes printable s = true → all_bytes printable (hex_text_from n v s) = true.
Proof.
  revert v s. induction n as [|n IH]; intros v s Hv Hs; [done|]. cbn [hex_text_from].
  assert (H : all_bytes printable (String (hex_digit (v mod 16)) s) = true).
  { cbn [all_bytes]. rewrite Hs, andb_true_r. apply hex_digit_printable. by apply Z.mod_pos_bound. }
  destruct (v <? 16); [done|]. apply IH; [|done]. by apply Z.div_pos.
Qed.
Lemma hex_number_printable w n : all_bytes printable (hex_number w n) = true.
Proof.
  unfold hex_number. revert n. induction w as [|w IH]; intros n; [done|]. rewrite all_bytes_app, IH. cbn [all_bytes andb]. rewrite andb_true_r.
  apply hex_digit_printable. by apply Z.mod_pos_bound.
Qed.
Lemma hex_printable s : all_bytes printable (hex s) = true.
Proof.
  eapply all_bytes_mono; [|apply hex_lower]. intros c Hc.
  pose proof (forall_ascii (λ c, negb (is_lower_hex c) || printable c) ltac:(vm_compute; reflexivity) c) as H. cbn beta in H. by rewrite Hc in H.
Qed.

(** *** Sanitized text *)

Lemma rune_value_nonneg r : rune_shape r → 0 ≤ rune_value r.
Proof.
  destruct r as [|a [|b more]]; [done| |]; cbn [rune_value].
  - intros _. pose proof (code_bound a). case_match; lia.
  - intros (Hb&Hmore&Ha&Hw). assert (H2 : 128 ≤ code b).
    { unfold second_byte, continuation, in_bytes in Hb. repeat case_match; lia. }
    assert (Hr : slen (String a (String b more)) ≤ 4) by (rewrite Hw; unfold rune_width; repeat case_match; lia).
    unfold slen in *. cbn [String.length] in *. unfold rune_width, in_bytes in Hw.
    destruct more as [|c [|d [|e more]]]; cbn [String.length all_bytes] in *; [lia| | |lia]; unfold continuation, in_bytes in Hmore; repeat case_match; lia.
Qed.

Lemma visible_calm r : rune_shape r → calm_text (visible_rune r).
Proof.
  intros Hr. unfold visible_rune. destruct (_ || _) eqn:E.
  - apply printable_calm. change (String backslash ("x{" +:+ ?t)) with (("\x{") +:+ t). rewrite !all_bytes_app. unfold hex_text.
    rewrite hex_text_printable; [done|by apply rune_value_nonneg|done].
  - rewrite !orb_false_iff in E. destruct E as ((((E1&E2)&E3)&E4)&E5). assert (Hv : valid_rune r = true).
    { destruct r as [|a [|b more]]; cbn in *; [done| |done]. by destruct (code a <? 128). }
    unfold calm_text. rewrite <-(string_app_nil_r r), rune_utf8 by done. constructor; [|constructor]. split_and!; [done|unfold is_control; lia|].
    apply andb_false_iff in E5 as [E5|E5]; [left; by apply negb_false_iff|right; left; lia].
Qed.

Lemma marker_calm n : calm_text (String backslash ("x{20}×" +:+ Itoa n)).
Proof.
  change (String backslash ("x{20}×" +:+ Itoa n)) with ("\x{20}" +:+ "×" +:+ Itoa n). apply calm_app; [by apply printable_calm|].
  apply calm_app; [apply fixed_calm; set_solver|apply Itoa_calm].
Qed.

Lemma sanitize_calm max skip l out : Forall rune_shape l → calm_text out → calm_text (sanitize_runes max skip l out).
Proof.
  intros Hl. revert skip out. induction Hl as [|r l Hr Hl IH]; intros skip out Ho; cbn [sanitize_runes]; [done|]. destruct skip as [|skip]; [|by apply IH].
  destruct (max <=? slen out); [apply calm_app; [done|apply fixed_calm; set_solver]|].
  destruct (_ <=? _)%nat; apply IH, calm_app; [done|apply marker_calm|done|by apply visible_calm].
Qed.
Lemma Sanitize_calm s max : calm_text (Sanitize s max).
Proof. apply sanitize_calm; [apply runes_shape|constructor]. Qed.

Lemma escape_calm c s : printable c = true → all_bytes printable s = true → calm_text (String backslash (String c s)).
Proof. intros Hc Hs. apply printable_calm. cbn [all_bytes]. by rewrite Hc, Hs. Qed.

Lemma quoted_calm r : rune_shape r → calm r → calm_text (quoted_rune r).
Proof.
  intros Hr Hc. assert (Hself : calm_text r).
  { pose proof Hc as (Hv&_). unfold calm_text. rewrite <-(string_app_nil_r r), rune_utf8 by done. constructor; [exact Hc|constructor]. }
  unfold quoted_rune. destruct (_ && _); [apply escape_calm; [done|apply hex_printable]|].
  destruct (_ || _); [change (String backslash r) with ("\" +:+ r); by apply calm_app; [apply printable_calm|]|].
  destruct (IsPrint _); [done|].
  do 7 (destruct (_ =? _); [by apply printable_calm|]).
  destruct (_ || _); [|destruct (_ <? _)]; (apply escape_calm; [done|apply hex_number_printable]).
Qed.

Lemma Quote_calm s : calm_text s → calm_text (Quote s).
Proof.
  intros Hs. change (Quote s) with (String (chr 34) "" +:+ concat_str (quoted_rune <$> runes s) +:+ String (chr 34) "").
  apply calm_app; [by apply printable_calm|]. apply calm_app; [|by apply printable_calm]. apply calm_concat, Forall_fmap.
  pose proof (proj1 (runes_shape s)) as Hshape. unfold calm_text in Hs. rewrite Forall_forall in *. intros r Hr. by apply quoted_calm; [apply Hshape|apply Hs].
Qed.
Lemma quoteArg_calm a : calm_text (quoteArg a).
Proof. unfold quoteArg. destruct (_ || _); [apply Quote_calm|]; apply Sanitize_calm. Qed.

Lemma padded_calm n : calm_text (padded n).
Proof.
  unfold padded. apply calm_app; [apply Itoa_calm|]. apply printable_calm. generalize (3 - String.length (Itoa n))%nat. intros k. by induction k.
Qed.

(** *** Nothing is left out *)

Lemma hex_text_length n k v t : (1 ≤ k)%nat → v < 16 ^ Z.of_nat k → slen (hex_text_from n v t) ≤ Z.of_nat k + slen t.
Proof.
  revert k v t. induction n as [|n IH]; intros k v t Hk Hv; cbn [hex_text_from]; [unfold slen; lia|]. destruct (Z.ltb_spec v 16); [unfold slen; cbn [String.length]; lia|].
  destruct k as [|[|k]]; [lia|cbn in Hv; lia|]. etransitivity; [apply (IH (S k)); [lia|]|unfold slen; cbn [String.length]; lia].
  apply Z.div_lt_upper_bound; [lia|]. rewrite (Nat2Z.inj_succ (S k)), Z.pow_succ_r in Hv by lia. lia.
Qed.

Lemma rune_length r : rune_shape r → 1 ≤ slen r.
Proof. unfold slen. destruct r; cbn; [done|lia]. Qed.

Lemma visible_length r : rune_shape r → slen (visible_rune r) ≤ 8 * slen r.
Proof.
  intros Hr. pose proof (rune_length r Hr) as H1. unfold visible_rune. destruct (_ || _); [|lia].
  change (String backslash ("x{" +:+ hex_text (rune_value r) +:+ "}")) with ("\x{" +:+ hex_text (rune_value r) +:+ "}"). rewrite !slen_app. unfold hex_text.
  change (slen "\x{") with 3. change (slen "}") with 1. destruct (decide (slen r = 1)) as [E|E].
  - assert (rune_value r < 16 ^ Z.of_nat 4).
    { destruct r as [|a [|b r]]; [done| |unfold slen in E; cbn in E; lia]. cbn. case_match; lia. }
    pose proof (hex_text_length 8 4 (rune_value r) "" ltac:(lia) ltac:(done)) as Hn. change (slen "") with 0 in Hn. lia.
  - assert (Hv : ∀ n v t, slen (hex_text_from n v t) ≤ Z.of_nat n + slen t).
    { clear. induction n as [|n IH]; intros v t; cbn [hex_text_from]; [unfold slen; lia|]. destruct (v <? 16); [|etransitivity; [apply IH|]]; unfold slen; cbn [String.length]; lia. }
    pose proof (Hv 8%nat (rune_value r) "") as Hn. change (slen "") with 0 in Hn. lia.
Qed.

Lemma leading_spaces_split l : ∃ rest, l = replicate (leading_spaces l) " " ++ rest.
Proof.
  induction l as [|r l [rest IH]]; [by exists []|]. cbn. destruct (String.eqb_spec r " ") as [->|]; [|by exists (r :: l)]. exists rest. cbn. by f_equal.
Qed.

Lemma slen_concat_cons r l : slen (concat_str (r :: l)) = slen r + slen (concat_str l).
Proof. apply slen_app. Qed.

(** *** What a text looks like

    Independent of how it is made. *)

(** The number that lower-case hexadecimal digits are. *)
Fixpoint hex_reads (acc : Z) (s : string) : Z :=
  match s with
  | EmptyString => acc
  | String c s => hex_reads (16 * acc + (if is_digit c then code c - 48 else code c - 87)) s
  end.

(** A text shows runes: a calm one by itself, another one by its number, and some spaces
    in a row by how many they are.  No rune is left out. *)
Inductive renders : list string → string → Prop :=
| rd_end : renders [] ""
| rd_plain r l t : calm r → renders l t → renders (r :: l) (r +:+ t)
| rd_escaped r l d t : hex_reads 0 d = rune_value r → renders l t → renders (r :: l) (String backslash ("x{" +:+ d +:+ "}") +:+ t)
| rd_spaces n l t : (3 ≤ n)%nat → renders l t → renders (replicate n " " ++ l) (String backslash ("x{20}×" +:+ Itoa (Z.of_nat n)) +:+ t).

Definition shown_full (a t : string) : Prop := renders (runes a) t.
(** Cut after a mebibyte, which is marked. *)
Definition shown_cut (a t : string) : Prop :=
  ∃ l rest t0, runes a = l ++ rest ∧ renders l t0 ∧ 1048576 ≤ slen t0 ∧ t = t0 +:+ "…".

(** A text as an argument of a shell: by itself, or between quotes. *)
Inductive escapes : list string → string → Prop :=
| es_end : escapes [] ""
| es_self r l t : rune_value r ≠ 34 → rune_value r ≠ 92 → escapes l t → escapes (r :: l) (r +:+ t)
| es_back r l t : rune_value r = 34 ∨ rune_value r = 92 → escapes l t → escapes (r :: l) (String backslash r +:+ t)
| es_code r l d t : slen d = 4 → hex_reads 0 d = rune_value r → escapes l t → escapes (r :: l) (String backslash ("u" +:+ d) +:+ t).
Definition as_argument (t q : string) : Prop :=
  (q = t ∧ t ≠ "" ∧ ∀ c, c ∈ [" "; "009"; "'"; chr 34; backslash; "$"; "`"]%char → contains_byte c t = false) ∨
  (∃ body, escapes (runes t) body ∧ q = String (chr 34) (body +:+ String (chr 34) "")).

(** *** Hexadecimal numbers *)

Lemma hex_digit_reads v acc s : 0 ≤ v < 16 → hex_reads acc (String (hex_digit v) s) = hex_reads (16 * acc + v) s.
Proof.
  intros Hv. cbn [hex_reads]. f_equal. f_equal.
  assert (Hin : v ∈ [0;1;2;3;4;5;6;7;8;9;10;11;12;13;14;15]) by (rewrite !elem_of_cons; lia).
  rewrite !elem_of_cons, elem_of_nil in Hin. destruct_or?; subst; done.
Qed.
Lemma hex_text_reads n v t : (1 ≤ n)%nat → 0 ≤ v < 16 ^ Z.of_nat n → hex_reads 0 (hex_text_from n v t) = hex_reads v t.
Proof.
  revert v t. induction n as [|n IH]; intros v t Hn Hv; [lia|]. cbn [hex_text_from]. pose proof (Z.div_mod v 16 ltac:(done)) as Hd.
  pose proof (Z.mod_pos_bound v 16 ltac:(done)) as Hm. rewrite Nat2Z.inj_succ, Z.pow_succ_r in Hv by lia. destruct (Z.ltb_spec v 16).
  - rewrite hex_digit_reads by done. f_equal. rewrite Z.mod_small by lia. lia.
  - destruct n as [|n]; [cbn in Hv; lia|]. rewrite IH; [|lia|split; [by apply Z.div_pos; lia|apply Z.div_lt_upper_bound; lia]].
    rewrite hex_digit_reads by done. f_equal. lia.
Qed.
Lemma hex_reads_app acc a b : hex_reads acc (a +:+ b) = hex_reads (hex_reads acc a) b.
Proof. revert acc. induction a as [|c a IH]; intros acc; [done|]. rewrite string_app_cons. cbn [hex_reads]. by rewrite IH. Qed.
Lemma hex_number_reads w v acc : 0 ≤ v < 16 ^ Z.of_nat w →
  hex_reads acc (hex_number w v) = acc * 16 ^ Z.of_nat w + v ∧ slen (hex_number w v) = Z.of_nat w.
Proof.
  unfold hex_number. revert v acc. induction w as [|w IH]; intros v acc Hv; [cbn in *; split; [lia|done]|].
  rewrite Nat2Z.inj_succ, Z.pow_succ_r in * by lia. pose proof (Z.div_mod v 16 ltac:(done)) as Hd. pose proof (Z.mod_pos_bound v 16 ltac:(done)) as Hm.
  destruct (IH (v / 16) acc) as [Hr Hl]; [split; [by apply Z.div_pos; lia|apply Z.div_lt_upper_bound; lia]|].
  rewrite hex_reads_app, slen_app, Hr, Hl, hex_digit_reads by done. cbn [hex_reads]. split; [lia|]. change (slen (String _ "")) with 1. lia.
Qed.
Lemma rune_value_small r : rune_shape r → rune_value r < 16 ^ 8.
Proof.
  assert (H := code_bound). destruct r as [|a [|b [|c [|d [|e more]]]]]; cbn; intros _.
  all: repeat match goal with |- context [code ?x] => lazymatch goal with Hx : 0 ≤ code x < 256 |- _ => fail | _ => pose proof (H x) end end; try lia.
  case_match; lia.
Qed.

(** *** A sanitized text shows its runes *)

Lemma visible_renders r l t : rune_shape r → renders l t → renders (r :: l) (visible_rune r +:+ t).
Proof.
  intros Hr Hl. pose proof (visible_calm r Hr) as Hcalm. unfold visible_rune in *. destruct (_ || _) eqn:E.
  - apply rd_escaped; [|done]. unfold hex_text. rewrite (hex_text_reads 8); [done|lia|]. split; [by apply rune_value_nonneg|]. by apply rune_value_small.
  - apply rd_plain; [|done]. unfold calm_text in Hcalm. assert (Hv : valid_rune r = true).
    { rewrite !orb_false_iff in E. destruct E as ((((E1&E2)&E3)&E4)&E5). destruct r as [|a [|b more]]; cbn in *; [done| |done]. by destruct (code a <? 128). }
    rewrite <-(string_app_nil_r r), rune_utf8 in Hcalm by done. by apply Forall_cons in Hcalm as [? _].
Qed.

(** The rest of a text is shown, or cut where the bound is reached. *)
Definition shown_from (max : Z) (out : string) (l : list string) (t : string) : Prop :=
  renders l t ∨ ∃ l1 l2 t0, l = l1 ++ l2 ∧ renders l1 t0 ∧ max ≤ slen (out +:+ t0) ∧ slen t0 ≤ 8 * slen (concat_str l1) ∧ t = t0 +:+ "…".

Lemma shown_step max out piece (l0 l : list string) t : (∀ t, renders l t → renders (l0 ++ l) (piece +:+ t)) →
  (∀ l1 t0, renders l1 t0 → renders (l0 ++ l1) (piece +:+ t0)) → slen piece ≤ 8 * slen (concat_str l0) →
  shown_from max (out +:+ piece) l t → shown_from max out (l0 ++ l) (piece +:+ t).
Proof.
  intros _ Hp Hlen [H|(l1&l2&t0&->&H&Hm&Hb&->)]; [left; by apply Hp|]. right. exists (l0 ++ l1), l2, (piece +:+ t0).
  rewrite <-(assoc_L app). split_and!; [done|by apply Hp|by rewrite <-string_app_assoc|rewrite concat_str_app, !slen_app; lia|by rewrite string_app_assoc].
Qed.

Lemma sanitize_shows max skip l out : Forall rune_shape l →
  ∃ t, sanitize_runes max skip l out = out +:+ t ∧ shown_from max out (drop skip l) t.
Proof.
  intros Hl. revert skip out. induction Hl as [|r l Hr Hl IH]; intros skip out; cbn [sanitize_runes].
  { exists "". split; [by rewrite string_app_nil_r|]. left. rewrite drop_nil. constructor. }
  destruct skip as [|skip]; [|by apply IH]. cbn [drop]. destruct (Z.leb_spec max (slen out)) as [Hm|Hm].
  { exists "…". split; [done|]. right. exists [], (r :: l), "". split_and!; [done|constructor|by rewrite string_app_nil_r|done|done]. }
  destruct (Nat.leb_spec 3 (leading_spaces (r :: l))) as [Hn|Hn].
  - set (n := leading_spaces (r :: l)) in *. set (piece := String backslash ("x{20}×" +:+ Itoa (Z.of_nat n))).
    destruct (IH (pred n) (out +:+ piece)) as (t&->&Ht). exists (piece +:+ t). rewrite string_app_assoc. split; [done|].
    destruct (leading_spaces_split (r :: l)) as [rest E]. fold n in E.
    assert (Erest : drop (pred n) l = rest).
    { replace (drop (pred n) l) with (drop n (r :: l)) by (destruct n; [lia|done]). rewrite E. by rewrite drop_app_length' by by rewrite length_replicate. }
    rewrite Erest in Ht. rewrite E. apply (shown_step _ _ _ (replicate n " ")); [by intros; apply rd_spaces|by intros; apply rd_spaces| |exact Ht].
    assert (Hc : slen (concat_str (replicate n " ")) = Z.of_nat n).
    { generalize n. clear. induction n as [|n IH]; [done|]. cbn [replicate]. rewrite slen_concat_cons, IH. change (slen " ") with 1. lia. }
    rewrite Hc. unfold piece. change (String backslash ("x{20}×" +:+ Itoa (Z.of_nat n))) with ("\x{20}×" +:+ Itoa (Z.of_nat n)). rewrite slen_app.
    pose proof (Itoa_length (Z.of_nat n) ltac:(lia)). change (slen "\x{20}×") with 8. lia.
  - destruct (IH 0%nat (out +:+ visible_rune r)) as (t&->&Ht). exists (visible_rune r +:+ t). rewrite string_app_assoc. split; [done|].
    rewrite drop_0 in Ht. apply (shown_step _ _ _ [r]); [by intros; apply visible_renders|by intros; apply visible_renders| |exact Ht].
    pose proof (visible_length r Hr). rewrite slen_concat_cons. change (slen (concat_str [])) with 0. lia.
Qed.

Lemma Sanitize_shows a : shown_full a (Sanitize a 1048576) ∨ shown_cut a (Sanitize a 1048576).
Proof.
  unfold Sanitize. destruct (sanitize_shows 1048576 0 (runes a) "" (proj1 (runes_shape a))) as (t&->&H). rewrite drop_0, string_app_nil_l in *.
  destruct H as [H|(l1&l2&t0&E&H&Hm&_&->)]; [by left|right]. exists l1, l2, t0. by rewrite string_app_nil_l in Hm.
Qed.
Lemma Sanitize_shows_full a : slen a ≤ displayBytes → shown_full a (Sanitize a 1048576).
Proof.
  intros Ha. unfold Sanitize. destruct (runes_shape a) as [Hs Hc]. destruct (sanitize_shows 1048576 0 (runes a) "" Hs) as (t&->&H). rewrite drop_0, string_app_nil_l in *.
  destruct H as [H|(l1&l2&t0&E&H&Hm&Hb&->)]; [done|]. rewrite string_app_nil_l in Hm. rewrite E, concat_str_app in Hc. rewrite <-Hc, slen_app in Ha.
  unfold displayBytes in Ha. pose proof (slen_nonneg (concat_str l2)). lia.
Qed.

(** *** Arguments *)

Lemma quoted_escapes r l t : rune_shape r → calm r → escapes l t → escapes (r :: l) (quoted_rune r +:+ t).
Proof.
  intros Hr (Hv&Hcon&Hp) Hl. pose proof (rune_value_nonneg r Hr) as H0. unfold is_control in Hcon. unfold quoted_rune.
  destruct ((rune_value r =? 65533) && (slen r =? 1)) eqn:E1.
  { exfalso. apply andb_true_iff in E1 as [E1%Z.eqb_eq E2%Z.eqb_eq]. destruct r as [|a [|b more]]; [done| |unfold slen in E2; cbn [String.length] in E2; clear -E2; lia].
    cbn in Hv, E1. rewrite Hv in E1. apply Z.ltb_lt in Hv. clear -Hv E1; lia. }
  destruct ((rune_value r =? 34) || (rune_value r =? 92)) eqn:E2; [apply es_back; [lia|done]|].
  destruct (IsPrint (rune_value r)) eqn:Ep; [apply es_self; [lia..|done]|].
  do 7 (match goal with |- context [rune_value r =? ?k] => destruct (Z.eqb_spec (rune_value r) k) as [Ek|_]; [rewrite Ek in Hcon; done|] end).
  destruct ((rune_value r <? 32) || (rune_value r =? 127)) eqn:E3; [lia|].
  assert (Hs : rune_value r < 65536).
  { destruct Hp as [Hp|[Hp|Hp]]; [congruence|lia|]. unfold fixed_runes in Hp. rewrite !elem_of_cons, elem_of_nil in Hp. by destruct Hp as [->|[->|[->|[]]]]. }
  replace (rune_value r <? 65536) with true by lia. destruct (hex_number_reads 4 (rune_value r) 0) as [Hread Hlen]; [done|]. by apply es_code.
Qed.
Lemma Quote_escapes l : Forall rune_shape l → Forall calm l → escapes l (concat_str (quoted_rune <$> l)).
Proof. intros Hs. induction Hs as [|r l Hr Hl IH]; intros Hc; [constructor|]. apply Forall_cons in Hc as [Hcr Hc]. apply quoted_escapes; [done..|by apply IH]. Qed.

Lemma quoteArg_shows a : as_argument (Sanitize a 1048576) (quoteArg a).
Proof.
  pose proof (Sanitize_calm a 1048576) as Hc. unfold quoteArg. set (t := Sanitize a 1048576) in *. destruct (_ || _) eqn:E.
  - right. exists (concat_str (quoted_rune <$> runes t)). split; [|done]. apply Quote_escapes; [apply runes_shape|exact Hc].
  - left. apply orb_false_iff in E as [E1%negb_false_iff%nonempty_true E2]. split; [done|]. split; [done|]. intros c Hc'.
    destruct (contains_byte c t) eqn:Ec; [|done]. exfalso. apply not_true_iff_false in E2. apply E2, existsb_exists. exists c. split; [by apply list_elem_of_In|done].
Qed.
(** *** The screen of a command *)

Record displayable (cmd : Command) : Prop := {
  ds_sha : calm_text (cmd_ExecutableSHA256 cmd); ds_interpreter : calm_text (cmd_InterpreterSHA256 cmd);
  ds_files : Forall (λ f, calm_text (bf_SHA256 f)) (cmd_Files cmd); ds_secrets : Forall calm_text (cmd_Secrets cmd);
  ds_warnings : Forall calm_text (cmd_Warnings cmd);
}.

Lemma ValidName_calm name : ValidName name = true → calm_text name.
Proof.
  intros H. apply printable_calm. destruct name as [|c rest]; [done|]. unfold ValidName in H. rewrite !andb_true_iff in H. destruct H as [[_ Hc] Hr].
  assert (Hall : ∀ c, Ascii.eqb c "_" || is_upper c || is_lower c || is_digit c = true → printable c = true).
  { clear. intros c Hc. pose proof (forall_ascii (λ c, negb (Ascii.eqb c "_" || is_upper c || is_lower c || is_digit c) || printable c) ltac:(vm_compute; reflexivity) c) as H.
    cbn beta in H. by rewrite Hc in H. }
  cbn [all_bytes]. rewrite Hall by by rewrite Hc. eapply all_bytes_mono; [exact Hall|exact Hr].
Qed.

Lemma Forall_imap_all {A B} (P : B → Prop) (f : nat → A → B) l : (∀ i a, a ∈ l → P (f i a)) → Forall P (imap f l).
Proof.
  revert f. induction l as [|a l IH]; intros f H; [constructor|]. rewrite imap_cons. constructor; [apply H; by left|]. apply IH. intros i b Hb. apply H. by right.
Qed.

Lemma calm_join l : Forall calm_text l → calm_text (String.concat ", " l).
Proof.
  induction 1 as [|s l Hs Hl IH]; [constructor|]. cbn [String.concat]. destruct l; [done|]. apply calm_app; [done|]. by apply calm_app; [apply printable_calm|].
Qed.

(** What the owner has to see of a command, line by line: the executable and the
    interpreter with their digests; every argument, numbered, with its length and in full;
    every file with its digest; the directory, the names of the secrets and the warnings. *)
Definition bell : string := String "007" "".
Definition shown_path (a q : string) : Prop := ∃ t, (shown_full a t ∨ shown_cut a t) ∧ as_argument t q.
Definition shown_argument (a q : string) : Prop := ∃ t, shown_full a t ∧ as_argument t q.

Definition interpreter_lines (cmd : Command) (lines : list string) : Prop :=
  (cmd_Interpreter cmd = "" ∧ lines = []) ∨
  (cmd_Interpreter cmd ≠ "" ∧ ∃ q, shown_path (cmd_Interpreter cmd) q ∧
     lines = ["  interpreter: " +:+ q; "               sha256 " +:+ cmd_InterpreterSHA256 cmd]).
Definition argument_lines (cmd : Command) (lines : list string) : Prop :=
  length lines = length (cmd_Args cmd) ∧
  ∀ i a, cmd_Args cmd !! i = Some a → ∃ spaces q, shown_argument a q ∧ all_bytes (Ascii.eqb " ") spaces = true ∧
    lines !! i = Some ("  arg " +:+ Itoa (Z.of_nat i + 1) +:+ spaces +:+ " (" +:+ Itoa (slen a) +:+ " bytes) " +:+ q).
Definition file_lines (cmd : Command) (lines : list string) : Prop :=
  ∃ qs, Forall2 (λ f q, shown_path (bf_Path f) q) (cmd_Files cmd) qs ∧
    lines = concat (zip_with (λ f q, ["  file:       " +:+ q; "              sha256 " +:+ bf_SHA256 f]) (cmd_Files cmd) qs).
Definition describes (cmd : Command) (lines : list string) : Prop :=
  ∃ exe dir interpreter arguments files, shown_path (cmd_Executable cmd) exe ∧ shown_path (cmd_Dir cmd) dir ∧
    interpreter_lines cmd interpreter ∧ argument_lines cmd arguments ∧ file_lines cmd files ∧
    lines = [bell; "── EnvBank agent request: run a command with secrets ──"; "  executable: " +:+ exe; "              sha256 " +:+ cmd_ExecutableSHA256 cmd] ++
      interpreter ++ arguments ++ files ++
      ["  directory:  " +:+ dir; "  secrets:    " +:+ String.concat ", " (cmd_Secrets cmd)] ++
      ((λ w, "  WARNING:    " +:+ w) <$> cmd_Warnings cmd) ++
      ["  Output returned to the agent is redacted, but the command itself receives the values."].
Definition asks (cmd : Command) (question : string) : Prop :=
  (cmd_AlwaysAllowed cmd = true ∧ question = "Allow? [o]nce / [a]lways for this exact command / [N]o: ") ∨
  (cmd_AlwaysAllowed cmd = false ∧ question = "Allow? [o]nce / [N]o (always is not offered for project code): ").

(** A line of text without control characters, or of the bell. *)
Definition own_line (l : string) : Prop := calm_text l ∨ l = bell.

(** What is printed is these lines. *)
Definition printed (texts lines : list string) : Prop := concat_str texts = concat_str (line <$> lines) ∧ Forall own_line lines.
Lemma printed_app t1 t2 l1 l2 : printed t1 l1 → printed t2 l2 → printed (t1 ++ t2) (l1 ++ l2).
Proof. intros [E1 H1] [E2 H2]. split; [by rewrite fmap_app, !concat_str_app, E1, E2|by apply Forall_app]. Qed.
Lemma printed_lines lines : Forall calm_text lines → printed (line <$> lines) lines.
Proof. intros H. split; [done|]. eapply Forall_impl; [exact H|]. by left. Qed.
Lemma printed_pair a b : calm_text a → calm_text b → printed [line a +:+ line b] [a; b].
Proof. intros Ha Hb. split; [cbn [concat_str foldr fmap list_fmap]; by rewrite !string_app_nil_r|]. by constructor; [left|constructor; [left|constructor]]. Qed.
Lemma labelled prefix s : all_bytes printable prefix = true → calm_text s → calm_text (prefix +:+ s).
Proof. intros Hp Hs. apply calm_app; [by apply printable_calm|done]. Qed.

Lemma path_shown a : shown_path a (quoteArg a).
Proof. exists (Sanitize a 1048576). split; [apply Sanitize_shows|apply quoteArg_shows]. Qed.

Lemma arguments_printed cmd : Forall (λ a, slen a ≤ displayBytes) (cmd_Args cmd) →
  ∃ lines, argument_lines cmd lines ∧ printed (imap argument_line (cmd_Args cmd)) lines.
Proof.
  set (content i a := "  arg " +:+ padded (Z.of_nat i + 1) +:+ " (" +:+ Itoa (slen a) +:+ " bytes) " +:+ quoteArg a).
  intros Hargs. exists (imap content (cmd_Args cmd)). split.
  - split; [apply length_imap|]. intros i a Hi. unfold padded. eexists _, (quoteArg a). split_and!.
    + exists (Sanitize a 1048576). split; [apply Sanitize_shows_full|apply quoteArg_shows]. rewrite Forall_lookup in Hargs. by eapply Hargs.
    + instantiate (1 := string_of_list_ascii (replicate (3 - String.length (Itoa (Z.of_nat i + 1))) " "%char)).
      generalize (3 - String.length (Itoa (Z.of_nat i + 1)))%nat. intros k. by induction k.
    + rewrite list_lookup_imap, Hi. cbn. unfold content, padded. by rewrite !string_app_assoc.
  - replace (imap argument_line (cmd_Args cmd)) with (line <$> imap content (cmd_Args cmd)) by by rewrite fmap_imap. apply printed_lines, Forall_imap_all.
    intros i a _. apply labelled; [done|]. apply calm_app; [apply padded_calm|]. apply (labelled " ("); [done|]. apply calm_app; [apply Itoa_calm|].
    apply (labelled " bytes) "); [done|apply quoteArg_calm].
Qed.

Lemma files_printed cmd : Forall (λ f, calm_text (bf_SHA256 f)) (cmd_Files cmd) →
  ∃ lines, file_lines cmd lines ∧
    printed ((λ f, line ("  file:       " +:+ quoteArg (bf_Path f)) +:+ line ("              sha256 " +:+ bf_SHA256 f)) <$> cmd_Files cmd) lines.
Proof.
  intros Hf. eexists. split.
  { exists ((λ f, quoteArg (bf_Path f)) <$> cmd_Files cmd). split; [|done]. apply Forall2_fmap_r, Forall_Forall2_diag, Forall_forall. intros f _. apply path_shown. }
  induction Hf as [|f l Hf _ IH]; [by split|]. cbn [fmap list_fmap zip_with concat]. apply (printed_app [_]); [|exact IH].
  apply printed_pair; (apply labelled; [done|]); [apply quoteArg_calm|done].
Qed.

Lemma screen_describes cmd : displayable cmd → Forall (λ a, slen a ≤ displayBytes) (cmd_Args cmd) →
  ∃ lines, describes cmd lines ∧ printed (screen cmd) lines.
Proof.
  intros [Hsha Hint Hf Hs Hw] Hargs. destruct (arguments_printed cmd Hargs) as (args&Hal&Hap). destruct (files_printed cmd Hf) as (files&Hfl&Hfp).
  assert (Hi : ∃ lines, interpreter_lines cmd lines ∧ printed (if nonempty (cmd_Interpreter cmd) then
     [line ("  interpreter: " +:+ quoteArg (cmd_Interpreter cmd)) +:+ line ("               sha256 " +:+ cmd_InterpreterSHA256 cmd)] else []) lines).
  { destruct (nonempty (cmd_Interpreter cmd)) eqn:En.
    - eexists. split; [right; split; [by apply nonempty_true|]; eexists; split; [apply path_shown|done]|].
      apply printed_pair; (apply labelled; [done|]); [apply quoteArg_calm|done].
    - exists []. split; [left; split; [by apply nonempty_false|done]|by split]. }
  destruct Hi as (interpreter&Hil&Hip). eexists. split; [exists (quoteArg (cmd_Executable cmd)), (quoteArg (cmd_Dir cmd)), interpreter, args, files;
    split_and!; [apply path_shown|apply path_shown|done..]|].
  unfold screen. apply printed_app; [|apply printed_app; [exact Hip|apply printed_app; [exact Hap|apply printed_app; [exact Hfp|apply printed_app; [|apply printed_app]]]]].
  - split; [reflexivity|]. assert (Hrule : calm_text "── EnvBank agent request: run a command with secrets ──").
    { change (calm_text ("─" +:+ "─" +:+ " EnvBank agent request: run a command with secrets " +:+ "─" +:+ "─")).
      repeat apply calm_app; first [apply fixed_calm; set_solver | by apply printable_calm]. }
    constructor; [by right|]. constructor; [by left|]. constructor; [left; apply labelled; [done|apply quoteArg_calm]|].
    constructor; [left; by apply labelled|constructor].
  - apply (printed_lines [_; _]). constructor; [apply labelled; [done|apply quoteArg_calm]|]. constructor; [|constructor]. apply labelled; [done|by apply calm_join].
  - replace ((λ w, line ("  WARNING:    " +:+ w)) <$> cmd_Warnings cmd) with (line <$> ((λ w, "  WARNING:    " +:+ w) <$> cmd_Warnings cmd)) by by rewrite <-list_fmap_compose.
    apply printed_lines, Forall_fmap. eapply Forall_impl; [exact Hw|]. intros w Hcalm. by apply labelled.
  - apply (printed_lines [_]). constructor; [by apply printable_calm|constructor].
Qed.

Lemma screen_texts cmd : displayable cmd → Forall screen_text (screen cmd).
Proof.
  intros [Hsha Hint Hf Hs Hw]. assert (Hline : ∀ prefix s, all_bytes printable prefix = true → calm_text s → screen_text (line (prefix +:+ s))).
  { intros prefix s Hp Hc. by apply line_screen, labelled. }
  unfold screen. rewrite !Forall_app. split_and!.
  - constructor; [constructor; [by right; right|constructor]|]. constructor; [by apply ruled_screen, printable_calm|].
    constructor; [apply Hline; [done|apply quoteArg_calm]|]. constructor; [by apply Hline|constructor].
  - destruct (nonempty _); [|constructor]. constructor; [|constructor]. apply screen_app; apply Hline; [done|apply quoteArg_calm|done..].
  - apply Forall_imap_all. intros i a _. apply (Hline "  arg "); [done|]. apply calm_app; [apply padded_calm|].
    apply (labelled " ("); [done|]. apply calm_app; [apply Itoa_calm|]. apply (labelled " bytes) "); [done|apply quoteArg_calm].
  - apply Forall_fmap. eapply Forall_impl; [exact Hf|]. intros f Hfs. apply screen_app; apply Hline; [done|apply quoteArg_calm|done..].
  - constructor; [apply Hline; [done|apply quoteArg_calm]|]. constructor; [|constructor]. apply Hline; [done|by apply calm_join].
  - apply Forall_fmap. eapply Forall_impl; [exact Hw|]. intros w Hcalm. by apply Hline.
  - constructor; [|constructor]. by apply line_screen, printable_calm.
Qed.
End Texts.

Section Shape.
Context {crypto : Crypto}.

Lemma ResolveCommand_shape fs argv dir secrets path c : ResolveCommand fs argv dir secrets path = Ok c →
  (∃ project inDir, cmd_Warnings c = warnings_of project inDir) ∧ Forall (λ a, slen a ≤ displayBytes) (cmd_Args c).
Proof.
  unfold ResolveCommand. destruct argv as [|exe args]; [done|]. rewrite !reject_if_bind. intros (_ & _ & Hb & _ & H).
  apply bind_Ok in H as (realDir & _ & H). apply bind_Ok in H as (info & _ & H). rewrite !reject_if_bind in H. destruct H as (_ & _ & H).
  apply bind_Ok in H as (located & _ & H). apply bind_Ok in H as (realExe & _ & H). apply bind_Ok in H as (info' & _ & H).
  rewrite reject_if_bind in H. destruct H as (_ & H). apply bind_Ok in H as ([] & _ & H). apply bind_Ok in H as (sum & _ & H).
  apply bind_Ok in H as ([[interp isum] project] & _ & H). apply bind_Ok in H as ([files project'] & _ & H). injection H as <-. cbn. split; [by do 2 eexists|].
  assert (Hsum : ∀ l, Forall (λ a, slen a ≤ total_bytes l) l ∧ 0 ≤ total_bytes l).
  { induction l as [|a l [IH H0]]; [by split; [constructor|]|]. change (total_bytes (a :: l)) with (slen a + total_bytes l).
    pose proof (slen_nonneg a). split; [|lia]. constructor; [lia|]. eapply Forall_impl; [exact IH|]. intros b Hb'. cbv beta in *. lia. }
  destruct (Hsum args) as [Hargs _]. eapply Forall_impl; [exact Hargs|]. intros a Ha. change (total_bytes (exe :: args)) with (slen exe + total_bytes args) in Hb.
  pose proof (slen_nonneg exe). pose proof (slen_nonneg dir). apply Z.ltb_ge in Hb. cbv beta in *. lia.
Qed.

Lemma resolved_displayable {unicode : Unicode} fs argv dir secrets path c : ResolveCommand fs argv dir secrets path = Ok c →
  displayable c ∧ Forall (λ a, slen a ≤ displayBytes) (cmd_Args c).
Proof.
  intros H. destruct (ResolveCommand_shape _ _ _ _ _ _ H) as [(project&inDir&Hw) Ha]. apply ResolveCommand_resolved in H as [_ _ (Hs&_&Hn) [Hsha _] Hi Hf _ _].
  assert (Hdigest : ∀ p h, fileSHA256 fs p = Some h → calm_text h).
  { intros p h. unfold fileSHA256. destruct (ReadFile fs p); cbn; [|done]. intros [= <-]. apply printable_calm, hex_printable. }
  split; [split|].
  - by eapply Hdigest.
  - destruct Hi as [(_&_&->)|[Hi _]]; [constructor|by eapply Hdigest].
  - apply Forall_forall. intros f Hin. destruct (Hf f Hin) as [Hh _]. by eapply Hdigest.
  - rewrite Hs. eapply Forall_impl; [by apply valid_names_each|]. intros n. apply ValidName_calm.
  - rewrite Hw. unfold warnings_of. apply Forall_app. split; (destruct project, inDir || idtac); repeat (constructor; try (by apply printable_calm)).
  - exact Ha.
Qed.
End Shape.

(** ** Decisions *)

(** What was shown, and the bytes that were typed, without the ends of lines. *)
Definition shown_event (e : event call) : string := match e with @Event _ _ c _ => match c with Call.Print text => text | _ => "" end end.
Definition typed_event (e : event call) : string :=
  match e with
  | @Event _ X c x =>
      match c in Call.call X return X → string with
      | Call.ReadByte => λ b, match b with Some c => if ends_line c then "" else String c "" | None => "" end
      | _ => λ _, ""
      end x
  end.
Fixpoint shown (past : history) : string := match past with e :: past => shown past +:+ shown_event e | [] => "" end.
Fixpoint typed (past : history) : string := match past with e :: past => typed past +:+ typed_event e | [] => "" end.

(** The history after some texts were printed. *)
Fixpoint prints (texts : list string) (past : history) : history :=
  match texts with text :: texts => prints texts (Event (Call.Print text) tt :: past) | [] => past end.
Lemma shown_prints texts past : shown (prints texts past) = shown past +:+ concat_str texts.
Proof.
  revert past. induction texts as [|t texts IH]; intros past; cbn [prints concat_str foldr]; [by rewrite string_app_nil_r|]. fold (concat_str texts).
  by rewrite IH, <-string_app_assoc.
Qed.
Lemma typed_prints texts past : typed (prints texts past) = typed past.
Proof. revert past. induction texts as [|t texts IH]; intros past; [done|]. cbn [prints]. rewrite IH. cbn. by rewrite string_app_nil_r. Qed.

Section Programs.
Context (G : history → ∀ X, call X → Prop).

Lemma wp_print_all {R B} texts (f : unit → program R B) past Ret Q : (∀ past text, text ∈ texts → G past _ (Call.Print text)) →
  wp G (f tt) (prints texts past) Ret Q → wp G (x ← print_all texts; f x) past Ret Q.
Proof.
  intros HG Hf. apply wp_bind. unfold print_all. revert past Hf. induction texts as [|t texts IH]; intros past Hf; [exact Hf|].
  apply wp_ask; [apply HG; by left|]. intros []. apply IH; [|exact Hf]. intros past' text Ht. apply HG. by right.
Qed.

Lemma wp_print {R B} text (f : unit → program R B) past Ret Q : G past _ (Call.Print text) →
  wp G (f tt) (Event (Call.Print text) tt :: past) Ret Q → wp G (x ← print text; f x) past Ret Q.
Proof. intros HG Hf. apply wp_ask; [done|]. by intros []. Qed.

Lemma wp_read_answer {R} screened base rounds buf past (Ret : history → R → Prop) (Q : history → option string → Prop) :
  (∀ past, shown past = screened → G past _ Call.ReadByte) → shown past = screened → typed past = base +:+ buf →
  (∀ past r, shown past = screened → match r with Some buf => typed past = base +:+ buf | None => True end → Q past r) →
  wp G (read_answer rounds buf) past Ret Q.
Proof.
  intros HG Hs Ht HQ. revert buf past Hs Ht. induction rounds as [|rounds IH]; intros buf past Hs Ht; cbn [read_answer]; [by apply HQ|].
  apply wp_ask; [by apply HG|]. assert (Hs' : ∀ b, shown (Event Call.ReadByte b :: past) = screened) by (intros b; cbn; by rewrite string_app_nil_r).
  intros [c|]; [|by apply HQ]. destruct (ends_line c) eqn:Ec; [apply HQ; [done|]|apply IH; [done|]]; cbn [typed typed_event]; rewrite Ec, Ht.
  - by rewrite string_app_nil_r.
  - by rewrite string_app_assoc.
Qed.

Lemma wp_question {R B} prompt screened (f : option string → program R B) past Ret Q : screened = shown past +:+ prompt → typed past = "" →
  G past _ (Call.Print prompt) → (∀ past, shown past = screened → G past _ Call.ReadByte) → (∀ past, G past _ Call.Cancelled) →
  (∀ past, G past _ (Call.Print (line "  (request was cancelled by the agent; ignored)"))) →
  (∀ past' buf, typed past' = buf → shown past' = screened → wp G (f (Some (TrimSpace buf))) (Event Call.Cancelled false :: past') Ret Q) →
  (∀ past', wp G (f None) past' Ret Q) → wp G (a ← question prompt; f a) past Ret Q.
Proof.
  intros -> Ht Hp Hr Hc Hm Hf Hn. unfold question. apply wp_bind. apply wp_print; [done|]. apply wp_bind.
  apply (wp_read_answer (shown past +:+ prompt) ""); [done|done|by cbn; rewrite Ht|]. intros past1 [buf|] Hsh Hty; [|apply Hn].
  apply wp_ask; [done|]. intros [|]; [apply wp_print; [done|]; apply Hn|]. by apply Hf.
Qed.
End Programs.

Section Approval.
Context {crypto : Crypto} {unicode : Unicode} {hosts : Hosts}.

(** Nothing is read before the whole command and the question are shown; all that is
    shown is text without control characters, but for the ends of lines and the bell. *)
Definition approval_guard (cmd : Command) (lines : list string) (past : history) (X : Type) (c : call X) : Prop :=
  match c with
  | Call.Print text => screen_text text
  | Call.ReadByte => ∃ question, asks cmd question ∧ shown past = concat_str (line <$> lines) +:+ question
  | Call.Cancelled => True
  | _ => False
  end.

(** The line that was typed is one of these words, and the request had not ended. *)
Definition said (past : history) (words : list string) : Prop := ToLower (TrimSpace (typed past)) ∈ words ∧ Event Call.Cancelled false ∈ past.
Definition approval_end (cmd : Command) (past : history) (decision : option Decision) : Prop :=
  match decision with
  | Some AllowOnce => said past ["o"; "once"; "a"; "always"]
  | Some AllowAlways => said past ["a"; "always"] ∧ cmd_AlwaysAllowed cmd = true
  | Some Deny | None => True
  end.

Lemma spec_ApproveRun cmd lines : displayable cmd → printed (screen cmd) lines →
  wp (approval_guard cmd lines) (ApproveRun cmd) [] (approval_end cmd) (approval_end cmd).
Proof.
  intros Hd [Hlines _]. pose proof (screen_texts cmd Hd) as Hs. unfold ApproveRun.
  assert (Hplain : ∀ s, all_bytes printable s = true → screen_text s) by (intros; by apply calm_screen, printable_calm).
  assert (Hline : ∀ s, all_bytes printable s = true → screen_text (line s)) by (intros; by apply line_screen, printable_calm).
  apply wp_print_all; [intros past text Ht; rewrite Forall_forall in Hs; by apply Hs|].
  eapply wp_question; [by rewrite shown_prints|by rewrite typed_prints| | |done|intros; by apply Hline| |done].
  - apply Hplain. unfold run_question. by destruct (cmd_AlwaysAllowed cmd).
  - intros past E. exists (run_question cmd). cbn [shown] in E. split; [unfold asks, run_question; destruct (cmd_AlwaysAllowed cmd); auto|by rewrite <-Hlines].
  - intros past buf <- _. cbn beta iota zeta. assert (Hsaid : ∀ words, ToLower (TrimSpace (typed past)) ∈ words → said (Event Call.Cancelled false :: past) words).
    { intros words Hw. split; [cbn; by rewrite string_app_nil_r|by left]. }
    destruct (_ || _) eqn:E1; [apply Hsaid; apply orb_true_iff in E1; rewrite !String.eqb_eq in E1; set_solver|].
    destruct (String.eqb _ "a" || _) eqn:E2; [|apply wp_print; [by apply Hline|done]].
    apply orb_true_iff in E2. rewrite !String.eqb_eq in E2. cbn. destruct (cmd_AlwaysAllowed cmd) eqn:Ea; cbn; [split; [|done]|]; apply Hsaid; set_solver.
Qed.

(** C38: whatever an agent asks for and the terminal answers, the owner decides about the
    command that is resolved: before anything is read, lines are shown that describe it and
    nothing else, and the question.  They are its executable and interpreter with their
    digests, every argument, numbered, with its length and to its end ([renders]: no rune
    is left out), every file with its digest, the directory, the names of the secrets and
    the warnings; a path that is longer than a mebibyte when it is shown is cut, which is
    marked.  No line has a control character, so that nothing shown makes a line of its own.
    A command is allowed only by the line that was typed for it while the request
    lasted, and always only where the resolution admits it. *)
Theorem approvals_show_the_command {W} `{!World call W} (w : W) fs argv dir secrets path cmd :
  ResolveCommand fs argv dir secrets path = Ok cmd →
  ∃ lines, describes cmd lines ∧ Forall own_line lines ∧
    let '(past, decision, _) := run (ApproveRun cmd) w [] in lawful (approval_guard cmd lines) past ∧ approval_end cmd past decision.
Proof.
  intros H. destruct (resolved_displayable _ _ _ _ _ _ H) as [Hd Hc]. destruct (screen_describes cmd Hd Hc) as (lines&Hl&Hp).
  exists lines. split; [done|]. split; [apply Hp|]. apply wp_run; [by apply spec_ApproveRun|done].
Qed.

(** What [ConfirmPlan] shows before its answer is read, and an answer that agrees. *)
Definition plan_screen (title : string) (lines : list string) : list string :=
  String "007" "" :: ruled (Sanitize title 120) :: ((λ l, line ("  " +:+ Sanitize l 4096)) <$> lines).
Definition agreed (title : string) (lines : list string) (past : history) : Prop :=
  ∃ before after, past = after ++ before ∧ shown before = concat_str (plan_screen title lines) +:+ "Apply? [y/N]: " ∧
    (EqualFold (TrimSpace (typed before)) "y" = true ∨ EqualFold (TrimSpace (typed before)) "yes" = true).
Definition plan_end (title : string) (lines : list string) (past : history) (r : option bool) : Prop := r = Some true → agreed title lines past.

Lemma spec_ConfirmPlan title lines : wp (λ _ _ _, True) (ConfirmPlan title lines) [] (plan_end title lines) (plan_end title lines).
Proof.
  unfold ConfirmPlan. apply wp_print_all; [done|]. eapply wp_question; [by rewrite shown_prints|by rewrite typed_prints|done..| |].
  - intros past buf <- Hs. cbn beta iota zeta. destruct (_ || _) eqn:E; [|apply wp_print; [done|]; by intros ?].
    intros _. exists past, [Event Call.Cancelled false]. split; [done|]. split; [exact Hs|by apply orb_true_iff].
  - by intros past [=].
Qed.
End Approval.

(** ** Secrets *)

#[export] Instance Termios_eq_dec : EqDecision Termios.
Proof. solve_decision. Defined.

(** The modes that the terminal was last seen to have, and those to give back while it
    does not echo. *)
Definition mode_event (e : event call) (mode : option Termios * option Termios) : option Termios * option Termios :=
  match e with
  | @Event _ X c x =>
      match c in Call.call X return X → option Termios * option Termios with
      | Call.GetTermios => λ old, (old, mode.2)
      | Call.SetTermios modes => λ set,
          match mode.2 with
          | Some old => if bool_decide (modes = old) then (mode.1, None) else mode
          | None => if (set : bool) then (mode.1, mode.1) else mode
          end
      | _ => λ _, mode
      end x
  end.
Fixpoint modes (past : history) : option Termios * option Termios := match past with e :: past => mode_event e (modes past) | [] => (None, None) end.

(** Whether the terminal is left without echo: modes were set to hide what is typed, and
    the modes from before were not accepted since. *)
Fixpoint left_hidden (past : history) : bool :=
  match past with
  | [] => false
  | @Event _ X c x :: past =>
      match c in Call.call X return X → bool with
      | Call.SetTermios m => λ set,
          if bool_decide ((modes past).2 = Some m) then left_hidden past && negb set else left_hidden past || set
      | _ => λ _, left_hidden past
      end x
  end.

(** No modes are to be given back: they were, or the terminal has refused to take them. *)
Definition settled (past : history) : Prop :=
  (modes past).2 = None ∧ (left_hidden past = true → ∃ m, Event (Call.SetTermios m) false ∈ past).

(** Modes in which nothing that is typed is shown, whole lines are read and signals work;
    the others are as they were. *)
Definition unseen (old hid : Termios) : Prop :=
  tm_ECHO hid = false ∧ tm_ECHONL hid = false ∧ tm_ICANON hid = true ∧ tm_ISIG hid = true ∧ tm_others hid = tm_others old.

(** The typing of a line: its bytes and its end. *)
Definition typing (v : string) (past : history) : history := rev_append ((λ c, Event Call.ReadByte (Some c)) <$> list_ascii_of_string v) past.

(** A line of less than 4097 bytes that was typed, between two histories, after the terminal
    had accepted modes without echo; then it is asked to take the modes that it had. *)
Definition hidden_entry (prompt v : string) (past past' : history) : Prop :=
  ∃ old hid c set, unseen old hid ∧ ends_line c = true ∧ slen v ≤ 4096 ∧ all_bytes (λ c, negb (ends_line c)) v = true ∧
    past' = Event (Call.SetTermios old) set :: Event Call.ReadByte (Some c) :: typing v (Event (Call.Print prompt) tt ::
      Event (Call.SetTermios hid) true :: Event Call.GetTermios (Some old) :: past).

Lemma typing_snoc v c past : typing (v +:+ String c "") past = Event Call.ReadByte (Some c) :: typing v past.
Proof.
  unfold typing. rewrite !rev_append_rev. assert (E : list_ascii_of_string (v +:+ String c "") = list_ascii_of_string v ++ [c]).
  { induction v as [|d v IH]; [done|]. rewrite string_app_cons. cbn. by f_equal. }
  by rewrite E, fmap_app, rev_app_distr.
Qed.
Lemma modes_typing v past : modes (typing v past) = modes past.
Proof. unfold typing. revert past. induction v as [|c v IH]; intros past; [done|]. cbn. by rewrite IH. Qed.
Lemma left_hidden_typing v past : left_hidden (typing v past) = left_hidden past.
Proof. unfold typing. revert past. induction v as [|c v IH]; intros past; [done|]. cbn. by rewrite IH. Qed.
Lemma typing_grows v past : grows past (typing v past).
Proof. unfold typing. intros e He. rewrite rev_append_rev. apply elem_of_app. by right. Qed.

(** An event that sets no modes changes nothing. *)
Lemma settled_quiet e past : match e with Event c _ => match c with Call.SetTermios _ => False | _ => True end end → settled past → settled (e :: past).
Proof.
  intros He [Hm Hl]. assert (E : (modes (e :: past)).2 = (modes past).2 ∧ left_hidden (e :: past) = left_hidden past) by by destruct e as [X c x]; destruct c.
  destruct E as [E1 E2]. split; [by rewrite E1|]. rewrite E2. intros H. destruct (Hl H) as [m Hin]. exists m. by right.
Qed.

(** Modes that are refused, and modes that are given back. *)
Lemma settled_refused m past : settled past → settled (Event (Call.SetTermios m) false :: past).
Proof.
  intros [Hm Hl]. split; [cbn; by rewrite Hm|]. intros _. exists m. by left.
Qed.
Lemma settled_restored old set past : (modes past).2 = Some old → settled (Event (Call.SetTermios old) set :: past).
Proof.
  intros Hm. split; [cbn; rewrite Hm; cbn; by rewrite bool_decide_eq_true_2|]. cbn. rewrite Hm, bool_decide_eq_true_2 by done.
  destruct set; cbn; [by rewrite andb_false_r|]. intros _. exists old. by left.
Qed.

Section Hidden.
Context {unicode : Unicode} {hosts : Hosts} (texts : list string).

(** Only these texts are printed, whatever is typed; modes are changed to hide what is
    typed, and back. *)
Definition typing_guard (past : history) (X : Type) (c : call X) : Prop :=
  match c with
  | Call.Print text => text ∈ texts
  | Call.ReadByte | Call.Cancelled => True
  | Call.GetTermios => (modes past).2 = None
  | Call.SetTermios m => (modes past).2 = Some m ∨ ((modes past).2 = None ∧ ∃ old, (modes past).1 = Some old ∧ unseen old m)
  | Call.TimeOfDay => False
  end.

Lemma wp_read_hidden {R} rounds buf v past (Ret : history → R → Prop) (Q : history → option string → Prop) :
  all_bytes (λ c, negb (ends_line c)) v = true → slen v + Z.of_nat rounds ≤ 4097 → buf = v →
  (∀ past', modes past' = modes past → Q past' None) →
  (∀ v c, ends_line c = true → slen v ≤ 4096 → all_bytes (λ c, negb (ends_line c)) v = true → Q (Event Call.ReadByte (Some c) :: typing v past) (Some v)) →
  wp typing_guard (read_hidden rounds buf) (typing v past) Ret Q.
Proof.
  intros Hv Hl -> HN HQ. revert v Hv Hl. induction rounds as [|rounds IH]; intros v Hv Hl; cbn [read_hidden]; [by apply HN, modes_typing|].
  apply wp_ask; [done|]. intros [c|]; [|by apply HN; cbn; apply modes_typing]. destruct (ends_line c) eqn:Ec; [by apply HQ; [|lia|]|].
  rewrite <-typing_snoc. apply IH; [rewrite all_bytes_app, Hv; cbn; by rewrite Ec|]. rewrite slen_app. change (slen (String c "")) with 1. lia.
Qed.

Lemma wp_hidden {R B} prompt (f : option string → program R B) past Ret Q : prompt ∈ texts → settled past →
  (∀ past', settled past' → wp typing_guard (f None) past' Ret Q) →
  (∀ past' v, settled past' → hidden_entry prompt v past past' → wp typing_guard (f (Some v)) past' Ret Q) →
  wp typing_guard (v ← hidden prompt; f v) past Ret Q.
Proof.
  intros Hp Hset HN HS. pose proof (proj1 Hset) as Hm. apply wp_bind. unfold hidden. apply wp_ask; [done|].
  intros [old|]; [|by apply HN, settled_quiet]. apply wp_ask.
  { right. split; [done|]. by exists old. }
  intros [|]; [|by apply HN, settled_refused, settled_quiet]. cbn [negb]. apply wp_print; [done|]. apply wp_bind. set (past1 := Event _ _ :: _).
  assert (Hm1 : modes past1 = (Some old, Some old)) by (cbn; by rewrite Hm).
  apply (wp_read_hidden _ _ "" past1); [done|done|done| |].
  - intros past2 Hm2. apply wp_ask; [left; by rewrite Hm2, Hm1|]. intros set. apply HN, settled_restored. by rewrite Hm2, Hm1.
  - intros v c Hc Hl Hv. apply wp_ask; [left; cbn; by rewrite modes_typing, Hm1|]. intros set. apply HS.
    + apply settled_restored. cbn. by rewrite modes_typing, Hm1.
    + by exists old, (without_echo old), c, set.
Qed.

Lemma wp_note {R B} text (f : unit → program R B) past Ret Q : text ∈ texts → settled past →
  (∀ past', past' = Event (Call.Print text) tt :: past → settled past' → wp typing_guard (f tt) past' Ret Q) →
  wp typing_guard (x ← print text; f x) past Ret Q.
Proof. intros Ht Hm Hf. apply wp_print; [done|]. apply Hf; [done|]. by apply settled_quiet. Qed.

Lemma wp_answer {R} rounds buf past (Ret : history → R → Prop) (Q : history → option string → Prop) : settled past → typed past = buf →
  (∀ past' r, settled past' → match r with Some buf => typed past' = buf | None => True end → Q past' r) →
  wp typing_guard (read_answer rounds buf) past Ret Q.
Proof.
  intros Hm Ht HQ. revert buf past Hm Ht. induction rounds as [|rounds IH]; intros buf past Hm Ht; cbn [read_answer]; [by apply HQ|].
  apply wp_ask; [done|]. assert (Hq : ∀ c, settled (Event Call.ReadByte c :: past)) by (intros; by apply settled_quiet). intros [c|]; [|by apply HQ].
  destruct (ends_line c) eqn:Ec; [apply HQ; [done|]|apply IH; [done|]]; cbn [typed typed_event]; rewrite Ec, Ht.
  - by rewrite string_app_nil_r.
  - done.
Qed.

Lemma wp_asked {R B} prompt (f : option string → program R B) past Ret Q : prompt ∈ texts → line "  (request was cancelled by the agent; ignored)" ∈ texts →
  settled past → typed past = "" →
  (∀ past' a, settled past' → match a with Some a => a = TrimSpace (typed past') | None => True end → wp typing_guard (f a) past' Ret Q) →
  wp typing_guard (a ← question prompt; f a) past Ret Q.
Proof.
  intros Hp Hc Hm Ht Hf. apply wp_bind. unfold question. apply wp_note; [done..|]. intros past1 -> Hm1. apply wp_bind.
  apply wp_answer; [done|cbn; by rewrite Ht|]. intros past2 [buf|] Hm2 Ht2; [|by apply Hf]. apply wp_ask; [done|].
  intros gone. assert (Hm3 : settled (Event Call.Cancelled gone :: past2)) by by apply settled_quiet.
  destruct gone; [apply wp_note; [done..|]; intros past3 -> Hm4; by apply Hf|]. apply Hf; [done|]. cbn. by rewrite string_app_nil_r, Ht2.
Qed.
End Hidden.

(** A value that was typed at both prompts, hidden, the request lasting in between. *)
Definition entered_twice (first second v : string) (past past' : history) : Prop :=
  ∃ past1 past2, hidden_entry first v past past1 ∧
    hidden_entry second v (Event Call.Cancelled false :: Event (Call.Print newline_) tt :: past1) past2 ∧ past' = Event (Call.Print newline_) tt :: past2.

Section Entries.
Context {unicode : Unicode} {hosts : Hosts}.

Definition secret_texts (req : Ingest) : list string :=
  [String "007" ""; ruled "EnvBank agent request: store a secret"; line ("  name:   " +:+ in_Name req); line ("  reason: " +:+ Sanitize (in_Reason req) Limits.ReasonBytes);
   line "  The agent will learn only whether a value was stored, never the value."; "  " +:+ in_Name req +:+ " already exists. Replace it? [y/N]: ";
   line "  (request was cancelled by the agent; ignored)"; line "  denied"; "  Enter value (hidden; empty to deny): "; newline_; "  Re-enter value: ";
   line "  values did not match; nothing stored"].
Definition secret_end (req : Ingest) (past : history) (r : option string) : Prop :=
  settled past ∧
  match r with
  | Some v => v ≠ "" ∧ ∃ start, entered_twice "  Enter value (hidden; empty to deny): " "  Re-enter value: " v start past ∧
      (in_Replaces req = true → ToLower (TrimSpace (typed start)) ∈ ["y"; "yes"])
  | None => True
  end.

Ltac as_text := lazymatch goal with |- typing_guard ?t _ _ (Call.Print ?x) => change (x ∈ t) | _ => idtac end.
Ltac find_text :=
  match goal with |- ?x ∈ ?x :: _ => apply list_elem_of_here | |- _ ∈ _ :: _ => apply list_elem_of_further; find_text end.
Ltac advance := cbn [refused_entry mbind flow_bind flow_bind_ mret flow_ret].

#[local] Ltac in_secret_texts := as_text; lazymatch goal with T := secret_texts _ |- _ => unfold T, secret_texts; find_text end.

Lemma spec_ReadSecret req : wp (typing_guard (secret_texts req)) (ReadSecret req) [] (secret_end req) (secret_end req).
Proof.
  unfold ReadSecret. set (T := secret_texts req). assert (Hin : ∀ t, bool_decide (t ∈ T) = true → t ∈ T) by by intros t ?%bool_decide_eq_true.
  assert (Hdenied : line "  denied" ∈ T) by (in_secret_texts).
  assert (HN : ∀ past, settled past → secret_end req past None) by by split.
  apply wp_print_all; [intros h text Ht; change (text ∈ T); repeat (apply elem_of_cons in Ht as [E|Ht]; [rewrite E; in_secret_texts|]); by apply elem_of_nil in Ht|]. set (past0 := prints _ _). assert (Hm0 : settled past0) by by repeat apply settled_quiet. assert (Ht0 : typed past0 = "") by done.
  apply wp_bind. eapply (wp_mono _ _ _ (secret_end req) _ (λ past _, settled past ∧ (in_Replaces req = true → ToLower (TrimSpace (typed past)) ∈ ["y"; "yes"]))); [done| |].
  2: { destruct (in_Replaces req); [|by split]. apply wp_asked; [in_secret_texts..|done|done|]. intros past1 answer Hm1 Ha.
    destruct answer as [a|]; cbn beta iota zeta; [destruct (_ || _) eqn:E|]; try (apply wp_note; [done..|]; intros past2 _ Hm2; by apply HN).
    split; [done|]. intros _. subst a. apply orb_true_iff in E. rewrite !String.eqb_eq in E. set_solver. }
  intros start [] [Hm Hyes]. apply wp_hidden; [in_secret_texts|done| |].
  { intros past1 Hm1. apply wp_note; [in_secret_texts|done|]. intros past2 _ Hm2. advance. apply wp_note; [done..|]. intros past3 _ Hm3. by apply HN. }
  intros past1 v Hm1 H1. apply wp_note; [in_secret_texts|done|]. intros past2 -> Hm2. unfold refused_entry. destruct (nonempty v) eqn:Ev; cbn [negb].
  2: { advance. apply wp_note; [done..|]. intros past3 _ Hm3. by apply HN. }
  apply wp_ask; [done|]. intros gone. apply (settled_quiet (Event Call.Cancelled gone)) in Hm2; [|done].
  destruct gone; [apply wp_note; [done..|]; intros past3 _ Hm3; by apply HN|].
  apply wp_hidden; [in_secret_texts|done| |].
  { intros past3 Hm3. apply wp_note; [in_secret_texts|done|]. intros past4 _ Hm4. rewrite bool_decide_eq_false_2 by by intros [[? ?] _].
    apply wp_note; [in_secret_texts|done|]. intros past5 _ Hm5. by apply HN. }
  intros past3 v' Hm3 H2. apply wp_note; [in_secret_texts|done|]. intros past4 -> Hm4. case_bool_decide as E.
  - destruct E as [_ [= ->]]. split; [done|]. split; [by apply nonempty_true|]. exists start. split; [|done]. by exists past1, past3.
  - apply wp_note; [in_secret_texts|done|]. intros past5 _ Hm5. by apply HN.
Qed.

Definition passphrase_texts (title : string) (minBytes : Z) : list string :=
  [ruled (Sanitize title 120); "  Choose a passphrase of at least " +:+ Itoa minBytes +:+ " characters (hidden; empty to cancel): "; newline_; line "  cancelled";
   line ("  must be " +:+ Itoa minBytes +:+ " to 1024 characters"); line "  must differ from the vault passphrase"; "  Re-enter: "; line "  did not match"].
Definition passphrase_end (minBytes : Z) (differentFrom : option string) (past : history) (r : option string) : Prop :=
  settled past ∧
  match r with
  | Some v => v ≠ "" ∧ minBytes ≤ slen v ≤ 1024 ∧ differentFrom ≠ Some v ∧
      ∃ start, entered_twice ("  Choose a passphrase of at least " +:+ Itoa minBytes +:+ " characters (hidden; empty to cancel): ") "  Re-enter: " v start past
  | None => True
  end.

#[local] Ltac in_passphrase_texts := as_text; lazymatch goal with T := passphrase_texts _ _ |- _ => unfold T, passphrase_texts; find_text end.

Lemma spec_attempt title minBytes differentFrom past : settled past →
  wp (typing_guard (passphrase_texts title minBytes)) (passphrase_attempt title minBytes differentFrom) past (passphrase_end minBytes differentFrom) (λ past _, settled past).
Proof.
  intros Hm. unfold passphrase_attempt. set (T := passphrase_texts title minBytes).
  assert (HN : ∀ past, settled past → passphrase_end minBytes differentFrom past None) by by split.
  apply wp_note; [in_passphrase_texts|done|]. intros start _ Hm0.
  apply wp_hidden; [in_passphrase_texts|done| |].
  { intros past1 Hm1. apply wp_note; [in_passphrase_texts|done|]. intros past2 _ Hm2. advance.
    apply wp_note; [in_passphrase_texts|done|]. intros past3 _ Hm3. by apply HN. }
  intros past1 v Hm1 H1. apply wp_note; [in_passphrase_texts|done|]. intros past2 -> Hm2. unfold refused_entry. destruct (nonempty v) eqn:Ev; cbn [negb].
  2: { advance. apply wp_note; [in_passphrase_texts|done|]. intros past3 _ Hm3. by apply HN. }
  apply wp_ask; [done|]. intros gone. apply (settled_quiet (Event Call.Cancelled gone)) in Hm2; [|done].
  destruct gone; [apply wp_note; [in_passphrase_texts|done|]; intros past3 _ Hm3; by apply HN|].
  destruct (_ || _) eqn:El; [split; [in_passphrase_texts|intros []; by apply settled_quiet]|]. case_bool_decide; [split; [in_passphrase_texts|intros []; by apply settled_quiet]|].
  apply wp_hidden; [in_passphrase_texts|done| |].
  { intros past3 Hm3. apply wp_note; [in_passphrase_texts|done|]. intros past4 _ Hm4. rewrite bool_decide_eq_false_2 by done.
    split; [in_passphrase_texts|intros []; by apply settled_quiet]. }
  intros past3 v' Hm3 H2. apply wp_note; [in_passphrase_texts|done|]. intros past4 -> Hm4. case_bool_decide as E.
  - injection E as ->. split; [done|]. split; [by apply nonempty_true|]. split; [lia|]. split; [done|]. exists start, past1, past3. done.
  - split; [in_passphrase_texts|intros []; by apply settled_quiet].
Qed.

Lemma spec_NewPassphrase title minBytes differentFrom :
  wp (typing_guard (passphrase_texts title minBytes)) (NewPassphrase title minBytes differentFrom) [] (passphrase_end minBytes differentFrom) (passphrase_end minBytes differentFrom).
Proof.
  unfold NewPassphrase. apply wp_bind. apply (wp_for_each _ _ _ _ _ _ _ (λ _ past _, settled past)); [done| |].
  - intros past [] n l Hm. by apply spec_attempt.
  - intros past [] Hm. by split.
Qed.

(** C39: whatever is typed and however reads and modes fail, a secret or a new passphrase is
    one that was typed twice, without an end of line and within its bounds, each time after
    the terminal had accepted modes without echo ([unseen]) and before it was asked to take
    back those that it had, after the owner had agreed to replace a value that exists; in
    the end no modes are left to be given back, and the terminal is without echo only when
    it refused to take them, an error that the code does not look at; and what is printed
    is from texts that do not depend on what is typed. *)
Theorem secrets_are_typed_unseen {W} `{!World call W} (w : W) req title minBytes differentFrom :
  (let '(past, r, _) := run (ReadSecret req) w [] in lawful (typing_guard (secret_texts req)) past ∧ secret_end req past r) ∧
  (let '(past, r, _) := run (NewPassphrase title minBytes differentFrom) w [] in
   lawful (typing_guard (passphrase_texts title minBytes)) past ∧ passphrase_end minBytes differentFrom past r).
Proof. split; apply wp_run; [apply spec_ReadSecret|done|apply spec_NewPassphrase|done]. Qed.
End Entries.

(** ** A terminal *)

Module TerminalDemo.
Export CommandDemo.
#[local] Instance demo_unicode : Unicode := {| Manifest.ToUpper := id; IsPrint v := ((32 <=? v) && (v <=? 126)) || (161 <=? v) |}.
#[local] Instance demo_hosts : Hosts := {| Origin.ToLower s := if String.eqb s "ALWAYS" then "always" else s; EqualFold := String.eqb; loopback_ip _ := false |}.

(** The keys that are typed, the modes, and what is echoed or printed. *)
Record Screen := { sc_keys : string; sc_echo : bool; sc_text : string }.
#[local] Instance terminal : World call Screen := λ X c s,
  match c in Call.call X return X * Screen with
  | Call.Print text => (tt, {| sc_keys := sc_keys s; sc_echo := sc_echo s; sc_text := sc_text s +:+ text |})
  | Call.ReadByte =>
      match sc_keys s with
      | EmptyString => (None, s)
      | String c keys => (Some c, {| sc_keys := keys; sc_echo := sc_echo s; sc_text := if sc_echo s then sc_text s +:+ String c "" else sc_text s |})
      end
  | Call.GetTermios => (Some {| tm_ECHO := sc_echo s; tm_ECHONL := false; tm_ICANON := true; tm_ISIG := true; tm_others := "" |}, s)
  | Call.SetTermios m => (true, {| sc_keys := sc_keys s; sc_echo := tm_ECHO m; sc_text := sc_text s |})
  | Call.Cancelled => (false, s)
  | Call.TimeOfDay => (45296, s)
  end.
Definition typing_at (keys : string) : Screen := {| sc_keys := keys; sc_echo := true; sc_text := "" |}.

Lemma approvals_show_the_command_witness :
  (run (ApproveRun approved) (typing_at ("ALWAYS" +:+ newline_)) []).1.2 = Some AllowOnce ∧ ∃ lines, describes approved lines ∧ Forall own_line lines.
Proof.
  destruct (approvals_show_the_command (typing_at ("ALWAYS" +:+ newline_)) files argv "/work" ["TOKEN"; "DB_URL"] ".:/bin" approved deploy_resolves) as (lines&H1&H2&_).
  split; [vm_compute; reflexivity|]. exists lines. split; [exact H1|exact H2].
Defined.

(** The secret is not on the screen. *)
Example secret_stored : let '(_, r, s) := run (ReadSecret {| in_Name := "TOKEN"; in_Reason := "deploy"; in_Replaces := false |}) (typing_at ("hunter22" +:+ newline_ +:+ "hunter22" +:+ newline_)) [] in
  r = Some "hunter22" ∧ sc_echo s = true ∧ before_text "hunter22" (sc_text s) = None.
Proof. vm_compute. done. Qed.

(** An escape sequence is shown, and a long run of spaces by its length. *)
Example escape_is_shown : Sanitize (String "027" ("[2J" +:+ "     x")) 512 = String backslash "x{1b}[2J" +:+ String backslash "x{20}×5x".
Proof. vm_compute. done. Qed.

(** Arguments that differ in bytes of no UTF-8, or in where a control character stands and
    where its name, look alike, with the same number of bytes. *)
Example arguments_look_alike : argument_line 0 (String "254" "") = argument_line 0 (String "255" "") ∧
  argument_line 0 (String "027" (String backslash "x{1b}")) = argument_line 0 (String backslash ("x{1b}" +:+ String "027" "")).
Proof. vm_compute. done. Qed.
End TerminalDemo.
