(* ===== verification/OwnerInput.v ===== *)
(** Owner input through a desktop provider: internal/ownerinput/provider.go, the broker's
    side of the protocol, and cmd/envbank/owner_input.go, which asks the provider when one
    is paired and the terminal otherwise.  Programs over sockets, the verification of a
    peer's signature, and the variable of the pairing that all requests share.  The answer
    of the verification is what the system reports of the socket's peer; since that can be
    spoofed by passing the socket on, agent.go does not yet offer the provider, and the
    theorems say which reports and answers of the owner a value rests on. *)
From S2P Require Import Prelude Base64 Timestamp Text Manifest Origin Command Broker PairingPayload Terminal.
From S2P Require Export Program.
From stdpp Require Import options.

Definition Version : string := "envbank.owner-input/v1".
Definition CodeUnavailable : string := "OWNER_INPUT_UNAVAILABLE".
Definition CodePeerUnverified : string := "OWNER_INPUT_PEER_UNVERIFIED".
Definition CodeNotPaired : string := "OWNER_INPUT_NOT_PAIRED".
Definition CodeProtocol : string := "OWNER_INPUT_PROTOCOL_ERROR".
Definition PurposeNewVault : string := "new_vault_passphrase".
Definition PurposeRecovery : string := "recovery_passphrase".
Definition PurposeSecretVal : string := "secret_value".
Definition maxFrame : Z := 16384.
Definition maxValue : Z := 4096.
Definition requestTTL : Z := 110000000000.
Definition responseWaitExtra : Z := 10000000000.

Record Identity := { id_TeamID : string; id_Identifier : string; id_CDHash : string; id_HardenedRuntime : bool }.
#[export] Instance Identity_eq_dec : EqDecision Identity.
Proof. solve_decision. Defined.

(** The fields of [Provider] that are set once. *)
Record Provider := { pv_Socket : string; pv_TeamID : string; pv_Identifier : string }.

(** The two requests, and the response. *)
Inductive Frame :=
| PairFrame (nonce pairing_code expires_at : string)
| EntryFrame (nonce purpose title detail subject : string) (min_bytes max_bytes : Z) (confirm : bool) (expires_at : string).
Record Response := { re_V : string; re_Nonce : string; re_Outcome : string; re_Value : string }.

(** The JSON of a frame; the first value of a line, strictly decoded. *)
Class OwnerCodec := { frame_json : Frame → string; response_of_json : string → option Response }.

Module Call.
Inductive call : Type → Type :=
| Terminal {X} (c : Terminal.call X) : call X
| Random (n : Z) : call (option string)
(** [rand.Int] below a bound *)
| RandomBelow (max : Z) : call (option Z)
| Now : call Z
(** The critical sections of [p.mu] *)
| GetPaired : call (option Identity)
| SetPaired (id : Identity) : call unit
(** A connection, and whether it is of a Unix socket; the identity that the system reports of its peer *)
| Dial (path : string) : call (option (Z * bool))
| VerifyPeer (conn : Z) (requirement : string) : call (option Identity)
| Close (conn : Z) : call unit
| SetDeadline (conn : Z) (time : Z) : call unit
| Send (conn : Z) (text : string) : call bool
(** A line with its end, of the first [limit] bytes; [None] when there is none *)
| Receive (conn : Z) (limit : Z) : call (option string).
End Call.
Abbreviation call := Call.call.
Abbreviation program := (flow call).

(** ** Texts *)

Definition is_alnum (c : ascii) : bool := is_digit c || is_lower c || is_upper c.
Definition teamRe (s : string) : bool := (slen s =? 10) && all_bytes (λ c, is_upper c || is_digit c) s.
Definition identRe (s : string) : bool :=
  match s with
  | String c rest => is_alnum c && (2 <=? slen rest) && (slen rest <=? 200) && all_bytes (λ c, is_alnum c || Ascii.eqb c "." || Ascii.eqb c "-") rest
  | EmptyString => false
  end.

Definition in_quotes (s : string) : string := String (chr 34) (s +:+ String (chr 34) "").
Definition Requirement (p : Provider) : result string :=
  _ ← reject_if (negb (teamRe (pv_TeamID p)) || negb (identRe (pv_Identifier p))) "owner-input: pinned team id and identifier are required";
  Ok ("anchor apple generic and certificate 1[field.1.2.840.113635.100.6.2.6] and certificate leaf[field.1.2.840.113635.100.6.1.13] and certificate leaf[subject.OU] = " +:+
    in_quotes (pv_TeamID p) +:+ " and identifier " +:+ in_quotes (pv_Identifier p)).

(** [base64.StdEncoding.DecodeString]: padded, with the other two digits of the alphabet. *)
Fixpoint url_digits (s : string) : option string :=
  match s with
  | EmptyString => Some ""
  | String c rest =>
      if Ascii.eqb c "-" || Ascii.eqb c "_" then None
      else rest ← url_digits rest; Some (String (if Ascii.eqb c "+" then "-" else if Ascii.eqb c "/" then "_" else c)%char rest)
  end.
Fixpoint drop_last_pad (s : string) : string :=
  match s with String c EmptyString => if Ascii.eqb c "=" then "" else s | String c rest => String c (drop_last_pad rest) | EmptyString => "" end.
Definition decode_std (s : string) : option string :=
  let s := without_breaks s in
  if negb (slen s mod 4 =? 0) then None else body ← url_digits (drop_last_pad (drop_last_pad s)); decode body.

(** Controls, marks of direction and spaces of no width. *)
Definition hidden_rune (v : Z) : bool :=
  (v <? 32) || (v =? 127) || ((128 <=? v) && (v <? 160)) || ((8203 <=? v) && (v <=? 8207)) || ((8234 <=? v) && (v <=? 8238)) ||
  ((8294 <=? v) && (v <=? 8297)) || (v =? 65279).
Definition replacement : string := String "239" (String "191" (String "189" "")).
Definition clipped_rune (r : string) : string :=
  if hidden_rune (rune_value r) then " " else if (rune_value r =? 65533) && (slen r =? 1) then replacement else r.
Definition clipRunes (s : string) (n : nat) : string := concat_str (clipped_rune <$> take n (runes s)).

Section Provider.
Context {unicode : Unicode} {hosts : Hosts} {codec : OwnerCodec} (p : Provider).

Definition RequestCode (nonce : string) : string :=
  if slen nonce <? 8 then "" else ToUpper (substring 0 4 nonce) +:+ "-" +:+ ToUpper (substring 4 4 nonce).

(** ** One exchange *)

Definition fail_code {R A} (code : string) : program (result R) A := Exit (Err code).
Definition fail_code_if {R} (c : bool) (code : string) : program (result R) unit := if c then fail_code code else mret tt.
(** [conn.Close()] before an error *)
Definition hang_up {R A} (conn : Z) (code : string) : program (result R) A := _ ← ask (Call.Close conn); fail_code code.

Definition dial : program (result (Z * Identity)) (result (Z * Identity)) :=
  match Requirement p with
  | Err e => fail_code e
  | Ok requirement =>
      dialed ← ask (Call.Dial (pv_Socket p));
      match (dialed : option (Z * bool)) with
      | None => fail_code CodeUnavailable
      | Some (conn, unix) =>
          _ ← (if negb unix then hang_up conn CodeUnavailable else mret tt);
          peer ← ask (Call.VerifyPeer conn requirement);
          match (peer : option Identity) with
          | None => hang_up conn CodePeerUnverified
          | Some id =>
              _ ← (if negb (String.eqb (id_TeamID id) (pv_TeamID p)) || negb (String.eqb (id_Identifier id) (pv_Identifier p))
                   then hang_up conn CodePeerUnverified else mret tt);
              paired ← ask Call.GetPaired;
              _ ← (match (paired : option Identity) with
                   | Some pin => if negb (String.eqb (id_CDHash pin) (id_CDHash id)) then hang_up conn CodePeerUnverified else mret tt
                   | None => mret tt
                   end);
              mret (Ok (conn, id))
          end
      end
  end.

(** What [exchange] does with its connection; the end of the context closes it, which is a
    call that fails. *)
Definition converse (conn : Z) (frame : Frame) (nonce : string) (expires : Z) : program (result Response) (result Response) :=
  let raw := frame_json frame in
  _ ← fail_code_if (maxFrame <? slen raw + 1) CodeProtocol;
  _ ← ask (Call.SetDeadline conn (expires + responseWaitExtra));
  sent ← ask (Call.Send conn (raw +:+ newline_));
  _ ← fail_code_if (negb sent) CodeUnavailable;
  received ← ask (Call.Receive conn (maxFrame + 1));
  match (received : option string) with
  | None => fail_code CodeProtocol
  | Some text =>
      _ ← fail_code_if (maxFrame <? slen text) CodeProtocol;
      match response_of_json text with
      | None => fail_code CodeProtocol
      | Some r =>
          _ ← fail_code_if (negb (String.eqb (re_V r) Version) || negb (String.eqb (re_Nonce r) nonce)) CodeProtocol;
          now ← ask Call.Now;
          _ ← fail_code_if (expires + responseWaitExtra <? now) CodeProtocol;
          mret (Ok r)
      end
  end.

Definition exchange (frame : Frame) (nonce : string) (expires : Z) : program (result (Response * Identity)) (result (Response * Identity)) :=
  dialed ← enter dial;
  match (dialed : result (Z * Identity)) with
  | Err code => fail_code code
  | Ok (conn, id) =>
      r ← enter (converse conn frame nonce expires);
      _ ← ask (Call.Close conn);
      match (r : result Response) with Ok r => mret (Ok (r, id)) | Err code => fail_code code end
  end.

Definition newNonce {R} : program (result R) string :=
  bytes ← ask (Call.Random 16);
  match (bytes : option string) with Some b => mret (hex b) | None => fail_code "rand" end.

(** ** Pairing and entry *)

Definition Pair (confirm : Identity → string → program (result unit) bool) : program (result unit) (result unit) :=
  nonce ← newNonce;
  n ← ask (Call.RandomBelow 1000000);
  match (n : option Z) with
  | None => fail_code "rand"
  | Some n =>
      let code := pad 6 n in
      now ← ask Call.Now;
      let expires := now + requestTTL in
      answer ← enter (exchange (PairFrame nonce code (format_rfc3339 expires)) nonce expires);
      match (answer : result (Response * Identity)) with
      | Err e => fail_code e
      | Ok (r, id) =>
          _ ← fail_code_if (negb (String.eqb (re_Outcome r) "displayed") || nonempty (re_Value r)) CodeNotPaired;
          confirmed ← confirm id code;
          _ ← fail_code_if (negb confirmed) CodeNotPaired;
          _ ← ask (Call.SetPaired id);
          mret (Ok tt)
      end
  end.

(** The value, when one was entered, and the outcome. *)
Definition Entry (purpose title detail subject : string) (minBytes maxBytes : Z) (confirm : bool) (onCode : string → program (result (option string * string)) unit) :
    program (result (option string * string)) (result (option string * string)) :=
  paired ← ask Call.GetPaired;
  _ ← fail_code_if (negb (bool_decide (is_Some (paired : option Identity)))) CodeNotPaired;
  _ ← fail_code_if ((minBytes <? 1) || (maxValue <? maxBytes) || (maxBytes <? minBytes)) CodeProtocol;
  nonce ← newNonce;
  now ← ask Call.Now;
  let expires := now + requestTTL in
  _ ← onCode (RequestCode nonce);
  let frame := EntryFrame nonce purpose (clipRunes title 80) (clipRunes detail 300) (clipRunes subject 128) minBytes maxBytes confirm (format_rfc3339 expires) in
  answer ← enter (exchange frame nonce expires);
  match (answer : result (Response * Identity)) with
  | Err e => fail_code e
  | Ok (r, _) =>
      if String.eqb (re_Outcome r) "entered" then
        match decode_std (re_Value r) with
        | None => fail_code CodeProtocol
        | Some v => _ ← fail_code_if ((slen v <? minBytes) || (maxBytes <? slen v)) CodeProtocol; mret (Ok (Some v, "entered"))
        end
      else if existsb (String.eqb (re_Outcome r)) ["declined"; "cancelled"; "expired"; "busy"] then
        _ ← fail_code_if (nonempty (re_Value r)) CodeProtocol; mret (Ok (None, re_Outcome r))
      else fail_code CodeProtocol
  end.

(** ** The surface: cmd/envbank/owner_input.go *)

(** A program of the terminal. *)
Definition at_terminal {R A} (q : flow Terminal.call A A) : program R A := enter (lift (@Call.Terminal) q).
Definition notify {R} (text : string) : program R unit := at_terminal (Terminal.Notify text).

(** [entry]: the value, whether it was entered, and whether the provider has handled it;
    [with_provider] is [o.provider != nil]. *)
Definition entry {R} (with_provider : bool) (purpose title detail subject : string) (minBytes : Z) (confirm : bool) : program R (option string * bool) :=
  if negb with_provider then mret (None, false)
  else
    r ← enter (Entry purpose title detail subject minBytes 1024 confirm
          (λ code, notify ("secure input requested in Chromux, request code " +:+ code +:+ " (it must match the window)")));
    match (r : result (option string * string)) with
    | Err e => _ ← notify ("Chromux secure input unavailable (" +:+ e +:+ "); using this terminal instead"); mret (None, false)
    | Ok (value, outcome) =>
        if negb (String.eqb outcome "entered") then _ ← notify ("Chromux secure input: " +:+ outcome); mret (None, true)
        else mret (value, true)
    end.

Definition NewPassphrase (with_provider : bool) (title : string) (minBytes : Z) (differentFrom : option string) : program (option string) (option string) :=
  _ ← for_each (λ _ _,
        '(v, handled) ← entry with_provider (if differentFrom then PurposeRecovery else PurposeNewVault) title
                          "Requested by EnvBank setup, which an agent started." "" minBytes true;
        if negb (handled : bool) then r ← at_terminal (Terminal.NewPassphrase title minBytes differentFrom); Exit (r : option string)
        else
          match (v : option string) with
          | None => Exit None
          | Some v =>
              if bool_decide (differentFrom = Some v) then notify "the recovery passphrase must differ from the vault passphrase; asking again"
              else Exit (Some v)
          end) (seq 0 3) tt;
  mret None.

Definition ReadSecret (with_provider : bool) (req : Ingest) : program (option string) (option string) :=
  _ ← (if with_provider && in_Replaces req then
         ok ← at_terminal (Terminal.ConfirmPlan ("Replace " +:+ in_Name req +:+ "?")
                [in_Name req +:+ " already exists; an agent asked to replace it."; "reason: " +:+ in_Reason req]);
         if default false (ok : option bool) then mret tt else Exit None
       else mret tt);
  '(v, handled) ← entry with_provider PurposeSecretVal ("Store " +:+ in_Name req) (in_Reason req) (in_Name req) Command.Limits.MinValueBytes true;
  if negb (handled : bool) then at_terminal (Terminal.ReadSecret req) else mret (v : option string).

Definition pair_lines (id : Identity) (code : string) : list string :=
  ["signed by team " +:+ id_TeamID id +:+ ", identifier " +:+ id_Identifier id +:+ ", hardened runtime"; "build cdhash " +:+ id_CDHash id;
   "Chromux should now show pairing code " +:+ code +:+ "."; "Answer yes only if the Chromux window shows exactly this code."].
Definition pairProvider : program (result unit) (result unit) :=
  Pair (λ id code, ok ← at_terminal (Terminal.ConfirmPlan "Pair Chromux secure input" (pair_lines id code)); mret (default false (ok : option bool))).
End Provider.

(** ** Histories *)

Abbreviation history := (Program.history call).

Lemma later_step (e : event call) past past' : past `suffix_of` past' → past `suffix_of` e :: past'.
Proof. apply suffix_cons_r. Qed.
Lemma later_elem (e : event call) past past' : past `suffix_of` past' → e ∈ past → e ∈ past'.
Proof. intros [new ->] He. apply elem_of_app. by right. Qed.
#[local] Hint Extern 0 (_ `suffix_of` _) => reflexivity : core.
#[local] Hint Resolve later_step : core.
#[local] Ltac member := first [apply list_elem_of_here | apply list_elem_of_further; member].

(** The events of the terminal among those of a program. *)
Definition lift_event (e : event Terminal.call) : event call := match e with Event c x => Event (Call.Terminal c) x end.
Definition at_screen (past : history) (h : Program.history Terminal.call) : Prop := ∃ later earlier, past = later ++ (lift_event <$> h) ++ earlier.
Lemma within_later past past' h : past `suffix_of` past' → at_screen past h → at_screen past' h.
Proof. intros [new ->] (later&earlier&->). exists (new ++ later), earlier. by rewrite (assoc_L app). Qed.

Lemma wp_at_terminal {R A} G GT (q : flow Terminal.call A A) past (Ret : history → R → Prop) Q (E : Program.history Terminal.call → A → Prop) :
  (∀ past X (c : Terminal.call X), G past X (Call.Terminal c)) → wp GT q [] E E →
  (∀ past' h a, past `suffix_of` past' → at_screen past' h → E h a → Q past' a) → wp G (at_terminal q) past Ret Q.
Proof.
  intros HG Hq HQ. apply wp_enter.
  assert (Hend : ∀ h a, E h a → Q ((lift_event <$> h) ++ past) a) by (intros h a He; eapply HQ; [by eexists|by exists [], past|done]).
  enough (Hg : ∀ h, wp GT q h E E → wp G (lift (@Call.Terminal) q) ((lift_event <$> h) ++ past) Q Q) by by apply (Hg []).
  clear Hq. induction q as [a|a|X c k IH]; intros h; cbn [wp lift]; [by apply Hend..|]. intros [_ Hk]. split; [done|]. intros x. apply (IH x (Event c x :: h)), Hk.
Qed.

Lemma wp_notify {R} {unicode : Unicode} {hosts : Hosts} G text past (Ret : history → R → Prop) (Q : history → unit → Prop) :
  (∀ past X (c : Terminal.call X), G past X (Call.Terminal c)) → (∀ past', past `suffix_of` past' → Q past' tt) → wp G (notify text) past Ret Q.
Proof. intros HG HQ. split; [apply HG|]. intros t. split; [apply HG|]. intros []. apply HQ. auto. Qed.

(** ** What is sent *)

Lemma clipped_shape r : rune_shape r → rune_shape (clipped_rune r) ∧ valid_rune (clipped_rune r) = true ∧ hidden_rune (rune_value (clipped_rune r)) = false.
Proof.
  intros Hr. unfold clipped_rune. destruct (hidden_rune (rune_value r)) eqn:Eh; [done|]. destruct (_ && _) eqn:E; [by vm_compute|].
  split_and!; [done| |done]. destruct r as [|a [|b more]]; [done| |done]. cbn in *. destruct (code a <? 128); [done|]. by rewrite andb_true_r in E.
Qed.

(** A text of a bounded number of runes, none of them hidden. *)
Definition plain_text (n : nat) (s : string) : Prop := Forall (λ r, hidden_rune (rune_value r) = false) (runes s) ∧ (length (runes s) ≤ n)%nat.
Lemma clipRunes_plain s n : plain_text n (clipRunes s n).
Proof.
  assert (Hall : Forall (λ r, rune_shape r ∧ valid_rune r = true ∧ hidden_rune (rune_value r) = false) (clipped_rune <$> take n (runes s))).
  { apply Forall_fmap, Forall_take. eapply Forall_impl; [apply (proj1 (runes_shape s))|]. apply clipped_shape. }
  unfold plain_text, clipRunes. rewrite runes_pieces.
  - split; [eapply Forall_impl; [exact Hall|]; by intros r (?&?&?)|]. rewrite length_fmap, length_take. lia.
  - eapply Forall_impl; [exact Hall|]. by intros r (?&?&?).
  - apply Is_true_true, forallb_True. eapply Forall_impl; [exact Hall|]. intros r (?&?&?). by apply Is_true_true.
Qed.

Section Safety.
Context {unicode : Unicode} {hosts : Hosts} {codec : OwnerCodec} (p : Provider).

(** A peer that the system has reported on a connection, of the pinned team and program, and, by the
    pairing as it was read after [past0], for the paired build. *)
Definition reported (past0 past : history) (conn : Z) (id : Identity) : Prop :=
  ∃ requirement pin later earlier, Requirement p = Ok requirement ∧ past = later ++ Event Call.GetPaired pin :: earlier ∧ past0 `suffix_of` earlier ∧
    Event (Call.Dial (pv_Socket p)) (Some (conn, true)) ∈ earlier ∧ Event (Call.VerifyPeer conn requirement) (Some id) ∈ earlier ∧
    id_TeamID id = pv_TeamID p ∧ id_Identifier id = pv_Identifier p ∧ (∀ q, pin = Some q → id_CDHash q = id_CDHash id).
Lemma reported_later past0 past past' conn id : past `suffix_of` past' → reported past0 past conn id → reported past0 past' conn id.
Proof.
  intros [new ->] (requirement&pin&later&earlier&?&->&?). exists requirement, pin, (new ++ later), earlier. by rewrite (assoc_L app).
Qed.

(** A pairing had been read. *)
Definition was_paired (past : history) : Prop := ∃ q, Event Call.GetPaired (Some q) ∈ past.

Definition frame_ok (past0 : history) (frame : Frame) : Prop :=
  match frame with
  | PairFrame _ _ _ => True
  | EntryFrame _ _ title detail subject minBytes maxBytes _ _ =>
      was_paired past0 ∧ plain_text 80 title ∧ plain_text 300 detail ∧ plain_text 128 subject ∧ 1 ≤ minBytes ≤ maxBytes ∧ maxBytes ≤ maxValue
  end.

(** A frame and its answer on a connection whose peer was so reported. *)
Definition exchanged (past0 past : history) (frame : Frame) (nonce : string) (r : Response) (id : Identity) : Prop :=
  ∃ conn text, reported past0 past conn id ∧ Event (Call.Send conn (frame_json frame +:+ newline_)) true ∈ past ∧
    Event (Call.Receive conn (maxFrame + 1)) (Some text) ∈ past ∧ slen text ≤ maxFrame ∧ response_of_json text = Some r ∧ re_V r = Version ∧ re_Nonce r = nonce.
Lemma exchanged_later past0 past past' frame nonce r id : past `suffix_of` past' → exchanged past0 past frame nonce r id → exchanged past0 past' frame nonce r id.
Proof.
  intros Hs (conn&text&H1&H2&H3&H4). exists conn, text. split; [by eapply reported_later|]. split; [by eapply later_elem|]. split; [by eapply later_elem|exact H4].
Qed.

(** The owner has agreed that the window of this build shows the code of the frame that was
    exchanged with it. *)
Definition confirmed (past : history) (id : Identity) : Prop :=
  ∃ past0 nonce code expires r h, exchanged past0 past (PairFrame nonce code expires) nonce r id ∧ re_Outcome r = "displayed" ∧
    at_screen past h ∧ agreed "Pair Chromux secure input" (pair_lines id code) h.

Definition permitted (past : history) (X : Type) (c : call X) : Prop :=
  match c with
  | Call.Send conn text => ∃ past0 id frame, reported past0 past conn id ∧ text = frame_json frame +:+ newline_ ∧ slen text ≤ maxFrame ∧ frame_ok past0 frame
  | Call.SetPaired id => confirmed past id
  | _ => True
  end.

(** ** One exchange *)

Lemma spec_dial past0 past (Q : history → result (Z * Identity) → Prop) : past0 `suffix_of` past →
  (∀ past' e, past `suffix_of` past' → Q past' (Err e)) → (∀ past' conn id, past `suffix_of` past' → reported past0 past' conn id → Q past' (Ok (conn, id))) →
  wp permitted (dial p) past Q Q.
Proof.
  intros Hs HE HQ. unfold dial. destruct (Requirement p) as [requirement|e] eqn:Er; [|by apply HE]. apply wp_ask; [done|].
  intros [[conn unix]|]; [|apply HE; auto]. destruct unix; cbn [negb mbind flow_bind flow_bind_ mret flow_ret].
  2: { unfold hang_up. apply wp_bind, wp_ask; [done|]. intros []. apply HE; auto. }
  apply wp_ask; [done|]. intros [id|]; [|unfold hang_up; apply wp_ask; [done|]; intros []; apply HE; auto].
  destruct (_ || _) eqn:E; [unfold hang_up; apply wp_bind, wp_ask; [done|]; intros []; apply HE; auto|].
  apply orb_false_iff in E as [Et Ei]. apply negb_false_iff, String.eqb_eq in Et, Ei. cbn [mbind flow_bind flow_bind_ mret flow_ret]. apply wp_ask; [done|]. intros pin.
  set (past3 := Event Call.GetPaired pin :: _).
  assert (Hok : (∀ q, pin = Some q → id_CDHash q = id_CDHash id) → Q past3 (Ok (conn, id))).
  { intros Hpin. apply HQ; [unfold past3; auto|]. exists requirement, pin, []. eexists. split_and!; [done|reflexivity|auto|member|member|done..]. }
  destruct pin as [q|]; [|by apply Hok]. destruct (String.eqb_spec (id_CDHash q) (id_CDHash id)) as [Ec|]; cbn [negb].
  - apply Hok. by intros ? [= <-].
  - unfold hang_up. apply wp_bind, wp_ask; [done|]. intros []. apply HE. unfold past3. auto.
Qed.

Lemma wp_code_if {R B} c code (f : unit → program (result R) B) past Ret Q :
  (c = false → wp permitted (f tt) past Ret Q) → (c = true → Ret past (Err code)) → wp permitted (x ← fail_code_if c code; f x) past Ret Q.
Proof. destruct c; cbn; auto. Qed.

Lemma spec_converse past0 past conn id frame nonce expires (Q : history → result Response → Prop) : reported past0 past conn id → frame_ok past0 frame →
  (∀ past' e, past `suffix_of` past' → Q past' (Err e)) →
  (∀ past' r, past `suffix_of` past' → exchanged past0 past' frame nonce r id → Q past' (Ok r)) → wp permitted (converse conn frame nonce expires) past Q Q.
Proof.
  intros Hv Hf HE HQ. unfold converse. apply wp_code_if; [intros Hl|intros _; by apply HE]. apply wp_ask; [done|]. intros []. apply wp_ask.
  { exists past0, id, frame. split_and!; [by eapply reported_later, Hv; auto|done| |done]. rewrite slen_app. change (slen newline_) with 1. lia. }
  intros sent. apply wp_code_if; [intros Hsent%negb_false_iff; subst sent|intros _; apply HE; auto]. apply wp_ask; [done|]. intros [text|]; [|apply HE; auto].
  apply wp_code_if; [intros Ht|intros _; apply HE; auto]. destruct (response_of_json text) as [r|] eqn:Er; [|apply HE; auto].
  apply wp_code_if; [intros [Ev En]%orb_false_iff|intros _; apply HE; auto]. apply negb_false_iff, String.eqb_eq in Ev, En.
  apply wp_ask; [done|]. intros now. apply wp_code_if; [intros _|intros _; apply HE; auto]. apply HQ; [auto|].
  exists conn, text. split; [by eapply reported_later, Hv; auto|]. split_and!; [member|member|lia|done..].
Qed.

Lemma spec_exchange past0 past frame nonce expires (Q : history → result (Response * Identity) → Prop) : past0 `suffix_of` past → frame_ok past0 frame →
  (∀ past' e, past `suffix_of` past' → Q past' (Err e)) →
  (∀ past' r id, past `suffix_of` past' → exchanged past0 past' frame nonce r id → Q past' (Ok (r, id))) → wp permitted (exchange p frame nonce expires) past Q Q.
Proof.
  intros Hs Hf HE HQ. unfold exchange.
  apply (wp_call _ _ _ _ _ _ (λ past' d, past `suffix_of` past' ∧ match d with Ok (conn, id) => reported past0 past' conn id | Err _ => True end)).
  { by apply (spec_dial past0). }
  intros past1 [[conn id]|e] [Hs1 Hv]; [|by apply HE].
  apply (wp_call _ _ _ _ _ _ (λ past' r, past1 `suffix_of` past' ∧ match r with Ok r => exchanged past0 past' frame nonce r id | Err _ => True end)).
  { by apply (spec_converse past0 past1 conn id). }
  intros past2 r [Hs2 Hr]. assert (Hs' : past `suffix_of` past2) by by etransitivity. apply wp_ask; [done|]. intros []. destruct r as [r|e]; [|apply HE; auto].
  apply HQ; [auto|]. eapply exchanged_later, Hr. auto.
Qed.

Lemma wp_newNonce {R B} (f : string → program (result R) B) past Ret Q : (∀ past', past `suffix_of` past' → Ret past' (Err "rand")) →
  (∀ past' nonce, past `suffix_of` past' → wp permitted (f nonce) past' Ret Q) → wp permitted (n ← newNonce; f n) past Ret Q.
Proof. intros HE Hf. apply wp_bind. unfold newNonce. apply wp_ask; [done|]. intros [b|]; [apply Hf|apply HE]; auto. Qed.

(** ** Pairing and entry *)

Lemma spec_pairProvider past (Q : history → result unit → Prop) : (∀ past' r, Q past' r) → wp permitted (pairProvider p) past Q Q.
Proof.
  intros HQ. unfold pairProvider, Pair. apply wp_newNonce; [auto|]. intros past1 nonce _. apply wp_ask; [done|]. intros [n|]; [|apply HQ]. apply wp_ask; [done|]. intros now.
  set (past2 := Event Call.Now now :: _). set (frame := PairFrame _ _ _).
  apply (wp_call _ _ _ _ _ _ (λ past' a, match a with Ok (r, id) => exchanged past2 past' frame nonce r id | Err _ => True end)).
  { by apply (spec_exchange past2). }
  intros past3 [[r id]|e] H; [|apply HQ]. apply wp_code_if; [intros [Ho _]%orb_false_iff|intros; apply HQ]. apply negb_false_iff, String.eqb_eq in Ho. apply wp_bind.
  apply wp_bind. eapply (wp_at_terminal _ _ _ _ _ _ (plan_end "Pair Chromux secure input" (pair_lines id (pad 6 n)))); [done|apply spec_ConfirmPlan|].
  intros past4 h ok Hs Hw Hend. cbn [mret flow_ret wp]. apply wp_code_if; [intros Hok%negb_false_iff|intros; apply HQ]. destruct ok as [[|]|]; [|done..].
  apply wp_ask; [|intros []; apply HQ]. exists past2, nonce, (pad 6 n). do 3 eexists. split_and!; [by eapply exchanged_later|done|done|by apply Hend].
Qed.

(** A value that was entered for this purpose and subject, within these bounds, on a
    connection whose peer was reported as [id], when a pairing had been read before. *)
Definition entered_in (id : Identity) (past : history) (purpose subject : string) (minBytes maxBytes : Z) (v : string) : Prop :=
  ∃ past0 title detail confirm nonce expires r, was_paired past0 ∧
    exchanged past0 past (EntryFrame nonce purpose title detail (clipRunes subject 128) minBytes maxBytes confirm expires) nonce r id ∧
    re_Outcome r = "entered" ∧ decode_std (re_Value r) = Some v ∧ minBytes ≤ slen v ≤ maxBytes.
Definition entered (past : history) (purpose subject : string) (minBytes maxBytes : Z) (v : string) : Prop :=
  ∃ id, entered_in id past purpose subject minBytes maxBytes v.
Lemma entered_later past past' purpose subject minBytes maxBytes v : past `suffix_of` past' → entered past purpose subject minBytes maxBytes v →
  entered past' purpose subject minBytes maxBytes v.
Proof. intros Hs (id&past0&title&detail&confirm&nonce&expires&r&?&?&?). exists id. do 7 eexists. split; [done|]. split; [by eapply exchanged_later|done]. Qed.

(** What [Entry] returns. *)
Definition entry_end (purpose subject : string) (minBytes maxBytes : Z) (past : history) (r : result (option string * string)) : Prop :=
  match r with Ok (Some v, _) => entered past purpose subject minBytes maxBytes v | _ => True end.

Lemma spec_Entry past purpose title detail subject minBytes maxBytes confirm onCode (Q : history → result (option string * string) → Prop) :
  (∀ code past (Q' : history → unit → Prop), (∀ past', past `suffix_of` past' → Q' past' tt) → wp permitted (onCode code) past Q Q') →
  (∀ past' r, past `suffix_of` past' → entry_end purpose subject minBytes maxBytes past' r → Q past' r) →
  wp permitted (Entry p purpose title detail subject minBytes maxBytes confirm onCode) past Q Q.
Proof.
  intros Hon HQ. unfold Entry. apply wp_ask; [done|]. intros paired. set (past1 := Event _ _ :: past).
  apply wp_code_if; [intros Hp%negb_false_iff%bool_decide_eq_true|intros _; apply HQ; [unfold past1; auto|done]]. destruct Hp as [q ->].
  apply wp_code_if; [intros Hb|intros _; apply HQ; [unfold past1; auto|done]]. apply wp_newNonce; [intros past' Hs; apply HQ; [by etransitivity; [|exact Hs]; unfold past1; auto|done]|].
  intros past2 nonce Hs2. apply wp_ask; [done|]. intros now. apply wp_bind, Hon. intros past3 Hs3. cbn beta zeta.
  assert (Hs : past1 `suffix_of` past3) by (etransitivity; [exact Hs2|]; etransitivity; [|exact Hs3]; auto). assert (Hs0 : past `suffix_of` past3) by (etransitivity; [|exact Hs]; unfold past1; auto).
  set (frame := EntryFrame _ _ _ _ _ _ _ _ _). assert (Hpaired : was_paired past3) by (exists q; eapply later_elem; [exact Hs|by left]).
  apply (wp_call _ _ _ _ _ _ (λ past' a, past3 `suffix_of` past' ∧ match a with Ok (r, id) => exchanged past3 past' frame nonce r id | Err _ => True end)).
  { apply (spec_exchange past3); [done| |done|done]. split_and!; [done|apply clipRunes_plain..|lia|lia|lia]. }
  intros past4 [[r id]|e] [Hs4 H]; [|by apply HQ; [etransitivity|]]. assert (Hs' : past `suffix_of` past4) by by etransitivity.
  destruct (String.eqb_spec (re_Outcome r) "entered") as [Eo|]; [|destruct (existsb _ _); [apply wp_code_if; intros _|]; by apply HQ].
  destruct (decode_std (re_Value r)) as [v|] eqn:Ed; [|by apply HQ]. apply wp_code_if; [intros Hlen|intros _; by apply HQ]. apply HQ; [done|].
  exists id. do 7 eexists. split_and!; [exact Hpaired|exact H|done|done|lia|lia].
Qed.

(** ** The surface *)

(** What [entry] returns. *)
Definition handled_end (with_provider : bool) (purpose subject : string) (minBytes : Z) (past : history) (r : option string * bool) : Prop :=
  match r.1 with Some v => with_provider = true ∧ entered past purpose subject minBytes 1024 v | None => True end.

Lemma wp_entry {R B} with_provider purpose title detail subject minBytes confirm (f : option string * bool → program R B) past Ret Q :
  (∀ past' r, past `suffix_of` past' → handled_end with_provider purpose subject minBytes past' r → wp permitted (f r) past' Ret Q) →
  wp permitted (r ← entry p with_provider purpose title detail subject minBytes confirm; f r) past Ret Q.
Proof.
  intros Hf. apply wp_bind. unfold entry. destruct with_provider; cbn [negb]; [|by apply Hf].
  apply (wp_call _ _ _ _ _ _ (λ past' r, past `suffix_of` past' ∧ entry_end purpose subject minBytes 1024 past' r)).
  { apply spec_Entry; [|done]. intros code past' Q' HQ'. by apply wp_notify. }
  intros past' [[v outcome]|e] [Hs Hend].
  - destruct (negb _); [|apply Hf; [done|by destruct v]]. apply wp_bind, wp_notify; [done|]. intros past2 Hs2. apply Hf; [by etransitivity|done].
  - apply wp_bind, wp_notify; [done|]. intros past2 Hs2. apply Hf; [by etransitivity|done].
Qed.

(** A secret's value is what the owner typed twice, unseen, at the terminal, or received from a
    reported peer under the secret's name, having agreed to the replacement of a value. *)
Definition value_end (req : Ingest) (past : history) (r : option string) : Prop :=
  match r with
  | Some v => (∃ h, at_screen past h ∧ secret_end req h (Some v)) ∨
      entered past PurposeSecretVal (in_Name req) Command.Limits.MinValueBytes 1024 v ∧
      (in_Replaces req = true → ∃ h, at_screen past h ∧ agreed ("Replace " +:+ in_Name req +:+ "?")
                [in_Name req +:+ " already exists; an agent asked to replace it."; "reason: " +:+ in_Reason req] h)
  | None => True
  end.

Lemma spec_owner_secret with_provider req past (Q : history → option string → Prop) : (∀ past' r, value_end req past' r → Q past' r) →
  wp permitted (ReadSecret p with_provider req) past Q Q.
Proof.
  intros HQ. unfold ReadSecret. set (lines := [_; _]).
  set (replaced := λ past' : history, with_provider = true → in_Replaces req = true → ∃ h, at_screen past' h ∧ agreed ("Replace " +:+ in_Name req +:+ "?") lines h).
  apply wp_bind. enough (Hrest : ∀ past', replaced past' →
    wp permitted ('(v, handled) ← entry p with_provider PurposeSecretVal ("Store " +:+ in_Name req) (in_Reason req) (in_Name req) Command.Limits.MinValueBytes true;
      if negb (handled : bool) then at_terminal (Terminal.ReadSecret req) else mret (v : option string)) past' Q Q).
  { destruct (with_provider && in_Replaces req) eqn:E; [|apply Hrest; unfold replaced; by intros -> Hr; rewrite Hr in E].
    eapply wp_bind, (wp_at_terminal _ _ _ _ _ _ (plan_end _ lines)); [done|apply spec_ConfirmPlan|]. intros past1 h [[|]|] Hs Hw Hend; [|by apply HQ..].
    apply Hrest. intros _ _. exists h. split; [done|by apply Hend]. }
  intros past1 Hr. apply wp_entry. intros past2 [v handled] Hs Hend. destruct handled; cbn [negb].
  - destruct v as [v|]; [|by apply HQ]. apply HQ. right. split; [apply Hend|]. intros Hrep.
    destruct (Hr (proj1 Hend) Hrep) as (h&Hw&Ha). exists h. split; [by eapply within_later|done].
  - eapply (wp_at_terminal _ _ _ _ _ _ (secret_end req)); [done|apply Terminal.spec_ReadSecret|].
    intros past3 h r Hs3 Hw Ht. apply HQ. destruct r as [v'|]; [|done]. left. by exists h.
Qed.

(** A passphrase is what the owner chose and typed twice, unseen, at the terminal, or received from
    a reported peer; it is not the other passphrase. *)
Definition chosen_end (minBytes : Z) (differentFrom : option string) (past : history) (r : option string) : Prop :=
  match r with
  | Some v => differentFrom ≠ Some v ∧
      ((∃ h, at_screen past h ∧ passphrase_end minBytes differentFrom h (Some v)) ∨
       entered past (if differentFrom then PurposeRecovery else PurposeNewVault) "" minBytes 1024 v)
  | None => True
  end.

Lemma spec_owner_passphrase with_provider title minBytes differentFrom past (Q : history → option string → Prop) : (∀ past' r, chosen_end minBytes differentFrom past' r → Q past' r) →
  wp permitted (NewPassphrase p with_provider title minBytes differentFrom) past Q Q.
Proof.
  intros HQ. unfold NewPassphrase. apply wp_bind. apply (wp_for_each _ _ _ _ _ _ _ (λ _ _ _, True)); [done| |].
  2: { intros past' [] _. by apply HQ. }
  intros past1 [] n l _. apply wp_entry. intros past2 [v handled] Hs Hend. destruct handled; cbn [negb].
  - destruct v as [v|]; [|by apply HQ]. case_bool_decide as Hd; [by apply wp_notify|]. apply HQ. split; [done|]. right. apply Hend.
  - eapply wp_bind, (wp_at_terminal _ _ _ _ _ _ (passphrase_end minBytes differentFrom)); [done|apply Terminal.spec_NewPassphrase|].
    intros past3 h r Hs3 Hw Ht. apply HQ. destruct r as [v'|]; [|done]. split; [apply Ht|]. left. by exists h.
Qed.

(** ** The variable of the pairing *)

Lemma pairing_later past past' id : past `suffix_of` past' → confirmed past id → confirmed past' id.
Proof.
  intros Hs (past0&nonce&code&expires&r&h&H1&H2&H3&H4). exists past0, nonce, code, expires, r, h.
  split_and!; [by eapply exchanged_later|done|by eapply within_later|done].
Qed.

(** The pairing that was written last. *)
Fixpoint pinned (past : history) : option Identity :=
  match past with
  | [] => None
  | @Event _ X c x :: past => match c with Call.SetPaired id => Some id | _ => pinned past end
  end.
(** What is read of the variable is what was written last. *)
Fixpoint kept (past : history) : Prop :=
  match past with
  | [] => True
  | @Event _ X c x :: past => kept past ∧ match c in Call.call X return X → Prop with Call.GetPaired => λ pin, pin = pinned past | _ => λ _, True end x
  end.

Lemma pinned_step (e : event call) past : is_Some (pinned past) → is_Some (pinned (e :: past)).
Proof. destruct e as [X c x]. destruct c; cbn; eauto. Qed.
Lemma pinned_later past past' : past `suffix_of` past' → is_Some (pinned past) → is_Some (pinned past').
Proof. intros [new ->] H. induction new as [|e new IH]; [done|]. by apply pinned_step. Qed.
Lemma kept_app new past : kept (new ++ past) → kept past.
Proof. induction new as [|[X c x] new IH]; [done|]. intros [H _]. auto. Qed.
Lemma kept_read new past pin : kept (new ++ Event Call.GetPaired pin :: past) → pin = pinned past.
Proof. by intros [_ H]%kept_app. Qed.
Lemma pinned_written past id : pinned past = Some id → ∃ new old, past = new ++ Event (Call.SetPaired id) tt :: old.
Proof.
  induction past as [|[X c x] past IH]; [done|]. destruct c; cbn; try (intros (new&old&->)%IH; eexists (_ :: new), old; reflexivity).
  intros [= ->]. destruct x. by exists [], past.
Qed.
Lemma paired_is_pinned past : kept past → was_paired past → is_Some (pinned past).
Proof.
  intros Hk [q (new&old&->)%list_elem_of_split]. apply kept_read in Hk. eapply (pinned_later old); [|by eexists].
  exists (new ++ [Event Call.GetPaired (Some q)]). by rewrite <-(assoc_L app).
Qed.

(** The program in which a value was entered is the build whose window the owner has seen. *)
Lemma entered_in_confirmed past id purpose subject minBytes maxBytes v : lawful permitted past → kept past →
  entered_in id past purpose subject minBytes maxBytes v → ∃ q, confirmed past q ∧ id_CDHash q = id_CDHash id.
Proof.
  intros Hl Hk (past0&?&?&?&?&?&?&Hp&(conn&?&Hv&_)&_). destruct Hv as (?&pin&later&earlier&_&Epast&Hs&_&_&_&_&Hpin).
  subst past. pose proof (kept_read _ _ _ Hk) as ->. apply kept_app in Hk as [Hk _].
  assert (Hk0 : kept past0) by (destruct Hs as [new ->]; by apply kept_app in Hk).
  destruct (pinned_later _ _ Hs (paired_is_pinned _ Hk0 Hp)) as [q Hq]. exists q. split; [|by apply Hpin].
  apply pinned_written in Hq as (new&old&->). apply lawful_app in Hl as [_ Hl]. apply lawful_app in Hl as [Hc _].
  eapply pairing_later, Hc. exists (later ++ Event Call.GetPaired (pinned (new ++ Event (Call.SetPaired q) tt :: old)) :: new ++ [Event (Call.SetPaired q) tt]).
  by rewrite <-(assoc_L app), <-app_comm_cons, <-(assoc_L app).
Qed.

(** ** A session of the broker *)

(** The owner is asked one thing at a time: the requests of a session follow each other. *)
Inductive task :=
| PairTask
| SecretTask (with_provider : bool) (req : Ingest)
| PassphraseTask (with_provider : bool) (title : string) (minBytes : Z) (differentFrom : option string).
Definition perform (t : task) : program (option string) (option string) :=
  match t with
  | PairTask => _ ← enter (pairProvider p); mret None
  | SecretTask with_provider req => ReadSecret p with_provider req
  | PassphraseTask with_provider title minBytes differentFrom => NewPassphrase p with_provider title minBytes differentFrom
  end.

(** A world with the variable of the pairing. *)
#[export] Instance with_pairing {W} `{!World call W} : World call (W * option Identity) := λ X c w,
  match c in Call.call X return X * (W * option Identity) with
  | Call.GetPaired => (w.2, w)
  | Call.SetPaired id => (tt, (w.1, Some id))
  | c => let '(x, w1) := answer (C:=call) _ c w.1 in (x, (w1, w.2))
  end.
Fixpoint run_session {W} `{!World call W} (tasks : list task) (w : W * option Identity) (past : history) : history * list (option string) :=
  match tasks with
  | [] => (past, [])
  | t :: tasks => let '(past, r, w) := run (perform t) w past in let '(past, rs) := run_session tasks w past in (past, r :: rs)
  end.

(** The value was entered in a build that the owner has confirmed. *)
Definition entered_where_confirmed (past : history) (purpose subject : string) (minBytes : Z) (v : string) : Prop :=
  ∃ id q, entered_in id past purpose subject minBytes 1024 v ∧ confirmed past q ∧ id_CDHash q = id_CDHash id.
Definition task_end (past : history) (t : task) (r : option string) : Prop :=
  match t, r with
  | PairTask, _ => r = None
  | SecretTask _ req, Some v => (∃ h, at_screen past h ∧ secret_end req h (Some v)) ∨
      entered_where_confirmed past PurposeSecretVal (in_Name req) Command.Limits.MinValueBytes v ∧
      (in_Replaces req = true → ∃ h, at_screen past h ∧ agreed ("Replace " +:+ in_Name req +:+ "?")
                [in_Name req +:+ " already exists; an agent asked to replace it."; "reason: " +:+ in_Reason req] h)
  | PassphraseTask _ _ minBytes differentFrom, Some v => differentFrom ≠ Some v ∧
      ((∃ h, at_screen past h ∧ passphrase_end minBytes differentFrom h (Some v)) ∨
       entered_where_confirmed past (if differentFrom then PurposeRecovery else PurposeNewVault) "" minBytes v)
  | _, None => True
  end.

Lemma task_end_later past past' t r : past `suffix_of` past' → task_end past t r → task_end past' t r.
Proof.
  intros Hs. assert (Hw : ∀ E : Program.history Terminal.call → Prop, (∃ h, at_screen past h ∧ E h) → ∃ h, at_screen past' h ∧ E h).
  { intros E (h&Hh&He). exists h. split; [by eapply within_later|done]. }
  assert (He : ∀ purpose subject minBytes v, entered_where_confirmed past purpose subject minBytes v → entered_where_confirmed past' purpose subject minBytes v).
  { intros purpose subject minBytes v (id&q&(past0&title&detail&confirm&nonce&expires&resp&H1&H2&H3)&Hc&Hq). exists id, q. split; [|by eauto using pairing_later].
    do 7 eexists. split; [done|]. split; [by eapply exchanged_later|done]. }
  destruct t, r as [v|]; cbn; naive_solver.
Qed.

Lemma kept_run {W} `{!World call W} {R} (q : flow call R R) (w : W * option Identity) past : kept past → pinned past = w.2 →
  let '(past', _, w') := run q w past in past `suffix_of` past' ∧ kept past' ∧ pinned past' = w'.2.
Proof.
  revert w past. induction q as [a|a|X c k IH]; intros w past Hk Hp; cbn [run]; [done..|]. destruct (answer X c w) as [x w1] eqn:E.
  enough (Hstep : kept (Event c x :: past) ∧ pinned (Event c x :: past) = w1.2).
  { specialize (IH x w1 (Event c x :: past) (proj1 Hstep) (proj2 Hstep)). destruct (run (k x) w1 _) as [[past' r] w'].
    destruct IH as (Hs&?&?). split_and!; [by etransitivity; [|exact Hs]; auto|done|done]. }
  destruct c; cbn in E |- *; try (destruct (answer (C:=call) _ _ w.1) as [x1 w2]); by simplify_eq.
Qed.

Lemma perform_end {W} `{!World call W} t (w : W * option Identity) past : lawful permitted past → kept past → pinned past = w.2 →
  let '(past', r, w') := run (perform t) w past in past `suffix_of` past' ∧ lawful permitted past' ∧ kept past' ∧ pinned past' = w'.2 ∧ task_end past' t r.
Proof.
  intros Hl Hk Hp. pose proof (kept_run (perform t) w past Hk Hp) as Hkept.
  set (E := λ past r, match t with PairTask => r = None | SecretTask _ req => value_end req past r | PassphraseTask _ _ minBytes d => chosen_end minBytes d past r end).
  pose proof (wp_run permitted (perform t) past E w) as Hrun. destruct (run (perform t) w past) as [[past' r] w'].
  destruct Hkept as (Hs&Hk'&Hp'). destruct Hrun as [Hl' He]; [|done|].
  { destruct t; cbn [perform]; [|by apply spec_owner_secret|by apply spec_owner_passphrase].
    apply (wp_call _ _ _ _ _ _ (λ _ _, True)); [by apply spec_pairProvider|by intros]. }
  split_and!; [done..|].
  assert (Hent : ∀ purpose subject minBytes v, entered past' purpose subject minBytes 1024 v → entered_where_confirmed past' purpose subject minBytes v).
  { intros purpose subject minBytes v [id H]. destruct (entered_in_confirmed _ _ _ _ _ _ _ Hl' Hk' H) as (q&?&?). by exists id, q. }
  destruct t, r as [v|]; cbn in *; naive_solver.
Qed.

(** C40: a value that the owner's surface returns in a session is what the owner typed unseen at
    the terminal, or was received, in answer to a request for this purpose and this secret,
    on a connection whose peer the system had reported as one of the pinned team and program
    and of a build that the owner has confirmed by the code in its window; a replacement was
    agreed to, a passphrase is not the other one; frames, of a bounded size and of texts
    without controls, are sent only on such connections; and a pairing is stored only when
    the owner has confirmed it.  That the system reports a peer does not prove that it is
    the peer that talks: a socket can be handed on (docs/owner-input-protocol.md), so this
    says on which reports a value rests, and not that the real program sent it. *)
Theorem owner_values_are_accounted_for {W} `{!World call W} (tasks : list task) (w : W) :
  let '(past, rs) := run_session tasks (w, None) [] in lawful permitted past ∧ Forall2 (task_end past) tasks rs.
Proof.
  enough (H : ∀ (w : W * option Identity) past, lawful permitted past → kept past → pinned past = w.2 →
    let '(past', rs) := run_session tasks w past in past `suffix_of` past' ∧ lawful permitted past' ∧ Forall2 (task_end past') tasks rs).
  { specialize (H (w, None) [] I I eq_refl). destruct (run_session _ _ _) as [past rs]. exact (proj2 H). }
  clear w. induction tasks as [|t tasks IH]; intros w past Hl Hk Hp; cbn [run_session]; [by auto|].
  pose proof (perform_end t w past Hl Hk Hp) as Ht. destruct (run (perform t) w past) as [[past1 r] w1]. destruct Ht as (Hs1&Hl1&Hk1&Hp1&He).
  specialize (IH w1 past1 Hl1 Hk1 Hp1). destruct (run_session tasks w1 past1) as [past2 rs]. destruct IH as (Hs2&Hl2&Hf).
  split_and!; [by etransitivity|done|]. constructor; [by eapply task_end_later|done].
Qed.
End Safety.

Module OwnerDemo.
Export TerminalDemo.
#[local] Existing Instance TerminalDemo.demo_unicode.
#[local] Existing Instance TerminalDemo.demo_hosts.
#[local] Existing Instance TerminalDemo.terminal.

(** A frame is its kind and its nonce, an answer the nonce, its kind and the value. *)
#[local] Instance demo_codec : OwnerCodec := {|
  frame_json f := match f with PairFrame nonce _ _ => "P" +:+ nonce | EntryFrame nonce _ _ _ _ _ _ _ _ => "E" +:+ nonce end;
  response_of_json s := Some {| re_V := Version; re_Nonce := substring 0 32 s; re_Outcome := if String.eqb (substring 32 1 s) "P" then "displayed" else "entered";
    re_Value := substring 33 (String.length s - 33) s |} |}.
Definition chromux : Provider := {| pv_Socket := "/tmp/chromux.sock"; pv_TeamID := "NC56VXK48K"; pv_Identifier := "party.gblock.chromux.v2.desktop" |}.

(** The terminal, the builds that will answer at the socket, and the last frame. *)
Record Desk := { dk_screen : Screen; dk_builds : list string; dk_frame : string }.
#[local] Instance desk : World call Desk := λ X c d,
  match c in Call.call X return X * Desk with
  | Call.Terminal c => let '(x, s) := answer (C:=Terminal.call) _ c (dk_screen d) in (x, {| dk_screen := s; dk_builds := dk_builds d; dk_frame := dk_frame d |})
  | Call.Random n => (Some "0123456789abcdef", d)
  | Call.RandomBelow max => (Some 4711, d)
  | Call.Now => (0, d)
  | Call.GetPaired => (None, d)
  | Call.SetPaired _ => (tt, d)
  | Call.Dial path => (Some (1, true), d)
  | Call.VerifyPeer conn requirement =>
      (Some {| id_TeamID := "NC56VXK48K"; id_Identifier := "party.gblock.chromux.v2.desktop"; id_CDHash := default "" (head (dk_builds d)); id_HardenedRuntime := true |},
       {| dk_screen := dk_screen d; dk_builds := tail (dk_builds d); dk_frame := dk_frame d |})
  | Call.Close conn => (tt, d)
  | Call.SetDeadline conn time => (tt, d)
  | Call.Send conn text => (true, {| dk_screen := dk_screen d; dk_builds := dk_builds d; dk_frame := text |})
  | Call.Receive conn limit => (Some (substring 1 32 (dk_frame d) +:+ (if String.eqb (substring 0 1 (dk_frame d)) "P" then "P" else "EaHVudGVyMjI=")), d)
  end.
Definition token : Ingest := {| in_Name := "TOKEN"; in_Reason := "deploy"; in_Replaces := false |}.
Definition at_desk (keys : string) (builds : list string) : Desk := {| dk_screen := typing_at keys; dk_builds := builds; dk_frame := "" |}.
Definition yes_ : string := "yes" +:+ newline_.

(** The paired build is asked; another build is not, and the owner types at the terminal; and
    a pairing that is not confirmed is none. *)
Example paired_build_is_asked : (run_session chromux [PairTask; SecretTask true token] (at_desk yes_ ["a1"; "a1"], None) []).2 = [None; Some "hunter22"].
Proof. vm_compute. done. Qed.
Example other_build_is_not_asked :
  (run_session chromux [PairTask; SecretTask true token] (at_desk (yes_ +:+ "swordfish" +:+ newline_ +:+ "swordfish" +:+ newline_) ["a1"; "b2"], None) []).2 = [None; Some "swordfish"].
Proof. vm_compute. done. Qed.
Example refused_pairing_is_none :
  (run_session chromux [PairTask; SecretTask true token] (at_desk ("no" +:+ newline_ +:+ "swordfish" +:+ newline_ +:+ "swordfish" +:+ newline_) ["a1"; "a1"], None) []).2 = [None; Some "swordfish"].
Proof. vm_compute. done. Qed.
End OwnerDemo.
